(* ===== verification/_CoqProject ===== *)
-Q . S2P
Prelude.v
Tlv.v
TlvValue.v
Message.v
Counter.v
Crypto.v
Exchange.v
Im.v
Session.v
SetupCode.v
Btp.v
Handler.v
Report.v
AccessControl.v
Events.v
Clusters.v
DataModel.v
NodeSafety.v
NodeAccess.v
NodeRead.v
NodeEvents.v
Groups.v
Fabrics.v
GroupKeys.v
FabricRows.v
GroupSend.v
GroupRx.v
CommCodec.v
Certs.v
X509.v
Attestation.v
Calendar.v
Commissioning.v
CommissioningRun.v
ImClient.v
Handshake.v
Spake.v
Pase.v
Commissioner.v
Case.v
CaseRun.v
CommissionerRun.v
OperationalRun.v
Dns.v
MdnsRecords.v
Resolve.v
Browse.v
