(* ===== verification/Prelude.v ===== *)
(** * A verification library for [mat]

    [mat] is a Matter (smart home) implementation in Rust: a controller library
    ([crates/mat-controller]), a device library ([crates/mat-device]) with its
    virtual devices ([matv]), a command-line tool and daemon ([mat], [matd],
    [mat-native]) and shared tables ([mat-core]).  This library is a shallow
    embedding of the protocol core the controller and the device share, of the
    device's data model and its clusters, of groupcast, of discovery, and of
    commissioning from the passcode to the operational session on both sides, with the theorems that
    make them correct.

    ** How the parts interact

    A datagram is [message header | sealed (protocol header | payload)].
    [Message] and [Tlv] are the byte formats, [Counter] the freshness of message
    counters, [Crypto] the sealing.  [Exchange] (before a session exists) and
    [Session] (under a session key) add reliability (MRP) over UDP; [Btp] is the
    reliable transport of commissioning over Bluetooth.  The payload is an
    Interaction Model message ([Im], [Report]).  On the device [DataModel]
    serves it: it consults the ACL ([AccessControl]) and calls the clusters
    ([Clusters], [AccessControl], [Groups], [GroupKeys]) through the interface
    [Handler.HandlerOk]; what changed is recorded in data versions and in the
    event log ([Events]).  A message to a group has no session: [GroupSend] is
    how a controller seals it, [GroupRx] how a device finds the fabric and key
    set ([Fabrics], [GroupKeys]), checks membership ([Groups]) and freshness, and
    hands a batch of invokes to [DataModel.handle_group_invoke].

    A device enters a fabric in three acts.  A setup code ([SetupCode]) gives the
    passcode, and PASE ([Pase], over SPAKE2+ of [Spake]) a first session.  Over it
    the commissioner ([Commissioner]) drives the device's commissioning clusters
    ([Commissioning]) through the Interaction Model client ([ImClient]): it checks
    the device's attestation ([X509], [Attestation]), certifies its key ([Certs])
    and installs the fabric, in the messages of [CommCodec].  CASE ([Case]) then
    opens the operational session on the certificates, over which
    CommissioningComplete confirms the fabric.  [Handshake] is what PASE and CASE
    share.

    Before any of this the two find each other: the device advertises itself over
    multicast DNS ([MdnsRecords]), the controller browses for devices in
    commissioning mode ([Browse]) and resolves one of them, or a node of a fabric,
    to an address ([Resolve]), in the wire format of [Dns].

    ** Files

    - [Prelude]: outcomes, the method monad, weakest preconditions, lists,
      integers.
    - [Tlv]: [mat-controller/src/tlv.rs].  [TlvValue]: the element walk every
      decoder is an instance of, and [mat-device/src/core/tlv_value.rs].
    - [Message]: [message.rs]; [Counter]: [counter.rs]; [Crypto]: [crypto.rs];
      [Exchange]: [exchange.rs]; [Session]: [session/mod.rs], [session/mrp.rs],
      [session/responder.rs]; [Btp]: [btp.rs]; [SetupCode]: [setup_code.rs], all
      under [mat-controller/src].
    - [Im]: [im/invoke.rs], [im/write.rs], [im/mod.rs]; [Report]: [im/read.rs],
      [im/event.rs], [im/subscribe.rs].
    - [Handler]: the trait [ClusterHandler], contexts, subjects
      ([mat-device/src/core/datamodel/mod.rs] and others); [Events]:
      [core/events.rs]; [AccessControl]: [core/access_control.rs]; [Clusters]:
      the small clusters; [DataModel]: [core/datamodel/{mod,read,events}.rs],
      [core/stimulus.rs]; [NodeSafety], [NodeAccess], [NodeRead], [NodeEvents]:
      its theorems.
    - [Groups]: [core/groups.rs], [core/group_membership.rs],
      [core/group_invoke.rs]; [Fabrics]: [core/fabric_store.rs] and the key
      derivations of [mat-controller/src/fabric.rs]; [GroupKeys]:
      [core/group_key_management.rs], [im/cmdfields.rs]; [FabricRows]: whose rows
      the handlers of [AccessControl], [GroupKeys] and [Groups] write; [GroupSend]:
      [mat-controller/src/group.rs]; [GroupRx]: [net/group_rx.rs],
      [core/group_privacy.rs].
    - [CommCodec]: [commissioning/{tlv_fields,codec,device_codec}.rs]; [Certs]:
      [asn1.rs] with its OIDs, [cert.rs] and the ECDSA wrappers of [crypto.rs];
      [X509]: [x509.rs]; [Attestation]: [attestation.rs], [cd.rs]; [Calendar]:
      the dates of both certificate formats agree; [ImClient]: [session/client.rs]
      and the loops of its callers; all under [mat-controller/src].
    - [Commissioning]: [mat-device/src/core/commissioning/], its theorems in
      [CommissioningRun].  [Commissioner]: [commissioning/{flow,window,
      commissioning_fabric,ble_thread}.rs] and [FabricCredentials] of [fabric.rs];
      [CommissionerRun]: a commissioning end to end.
    - [Handshake]: [secure_channel.rs], and what [pase.rs] and [case.rs] repeat;
      [Spake]: [spake2p.rs]; [Pase]: [pase.rs], [core/pase.rs], [net/pase.rs];
      [Case]: [case.rs], [case/wire.rs], [case_responder.rs], [core/case.rs],
      [net/case.rs], its theorems in [CaseRun]; [OperationalRun]: the fabric of a
      commissioning under CASE.
    - [Dns]: [mat-controller/src/dnssd/codec.rs] and the constants of [mod.rs];
      [MdnsRecords]: [mat-device/src/core/mdns_records.rs] and [net/mdns.rs];
      [Resolve]: [dnssd/resolve.rs] and [ResolvedNode] of [mod.rs]; [Browse]:
      [dnssd/browse.rs].

    A definition has the name of the Rust item where Rocq allows it; a piece of
    a long function (a loop body, a match arm) is a definition of its own, and
    the function is their composition in the source's order.

    ** Conventions

    A fallible function returns [res E A]: [Ok], [Err], [Panic] (an [assert!],
    [expect], index out of range or overflow of a checked operation: the debug
    build's behaviour) or [OutOfFuel].  A method on [&mut self] is [M S E A],
    from the state to the state and the outcome: what it changed before an early
    return stays changed, as in Rust.  [fin A] is [res] with no error.  [wp] and
    [safe] are the weakest preconditions the safety proofs run on.  Integers are
    [Z] with the range [in_u w] as a hypothesis or as an invariant, and wrapping
    written out with [wrap w]; strings are their UTF-8 bytes; floats are their
    bit patterns.  A shared store behind [Arc<Mutex<..>>] is a component of a
    world [W], reached by a [Lens], so two handlers of one store see each
    other's changes.  Logging is left out.

    Fuel: the walkers over TLV take the number of bytes left plus one, and every
    element consumes at least one byte ([Tlv.decode_any_bytes],
    [TlvValue.walk_safe] and the totality theorems of the clients show that
    [OutOfFuel] is never the outcome).  The retransmission and receive loops run
    over a finite script of events with fuel its length plus one.  A DNS name is
    read with fuel 34 times the length of the message plus one: between two of the
    at most 32 jumps every label moves forward.  The resolvers and the browse are
    structural in the script of their turns (an instant in milliseconds and what
    the bounded receive brought); a script that ends before the deadline is one
    whose remaining turns time out.  Everything else is structural.

    ** Parameters

    AES-CCM is the class [Crypto.Aead] with [AeadLaws] (encryption succeeds up to
    the largest payload, decryption inverts it, both produce bytes, a ciphertext
    is 16 bytes longer than its plaintext; that decryption accepts nothing else
    is not assumed) and, for header
    privacy, [GroupRx.AeadStream] (the ciphertext is a keystream XOR); HKDF is
    [Fabrics.Hkdf] with [HkdfLaws] (output length and range).  [Crypto.Toy] and
    [GroupRx.ToyKdf] satisfy the laws and make the witnesses run.  The socket,
    the radio link and the clock are scripts; the random generator is an
    argument; a persistence backend is the list of tables it was asked to save,
    or a function saying which saves succeed where the code reacts to failure.
    ECDSA P-256 is [Certs.Ecdsa] with [EcdsaLaws] (what a key signs verifies
    under its public key), SHA-1 is [Certs.Sha1], SHA-256 [Attestation.Sha256];
    [Certs.ToyEcdsa] instantiates the first two.  HMAC is [Handshake.Hmac]; the
    P-256 group with its encoding is [Spake.Curve] with [CurveLaws] (a group of
    prime order, 65-byte encodings, the identity in one byte), PBKDF2 is
    [Spake.Pbkdf2], key agreement [Case.Ecdh] with [EcdhLaws] (both ends get the
    same secret); [Spake.ToyCurve], [Spake.ToyHash] and [CaseRun.ToyCase]
    instantiate them.  Keys, nonces, serials, session ids and passcodes that the
    code draws are arguments; so are the wall clock and the instants of the
    fail-safe.

    Two classes are interfaces inside the program: [ImClient.ImTransport] (a
    request and its response, under the client; [Commissioner.SecureChannel] adds
    the attestation challenge) has the device's own dispatcher as an instance, and
    [Handshake.HandshakeLink] (a round of an unsecured exchange) the exchange of
    [Exchange] and the device's PASE and CASE drivers.

    ** What the theorems show

    - Formats: encoders and decoders are inverse ([Tlv.write_read],
      [Message.headers_round_trip], [Im] and [Report] round trips, setup codes),
      and every decoder of network bytes is total and yields well-typed values
      ([Tlv.decode_any_bytes], [Report.im_decoders_untrusted] and others).
    - Transport: what the replay window accepts is decided exactly by the counters
      accepted so far, one duplicate after a jump of 32 included
      ([Counter.rx_window_decides]); only authentic datagrams are opened
      ([Crypto.open_message_authenticated]); reliable sends end, and complete
      when the peer answers ([Exchange], [Session]); BTP sessions keep their
      window and reassemble what was sent ([Btp]).
    - Device: requests of any bytes are served without a panic
      ([NodeSafety.handle_im_serves]); state changes only by permitted handler
      calls, all recorded ([NodeAccess]); reads and event reads report exactly
      what they should ([NodeRead], [NodeEvents]); the ACL decision is its
      declarative policy ([AccessControl.check_decides]).
    - Groups: the membership, fabric and group-key tables refine maps and sets
      and keep their invariants; keys never leak; counters are never reused; a
      sealed group command is delivered, and nothing else is.
    - Certificates: operational certificates survive the wire, have a bounded DER
      form, are accepted exactly when the chain is right, and the issued ones are
      ([Certs]); X.509 and CMS parsing is total ([X509]); the attestation decision
      is its declarative policy ([Attestation.attestation_decides]).
    - The commissioning server refines a machine over tables whatever it is sent
      ([CommissioningRun.commands_refine_tables]), and AddNOC installs exactly the
      acceptable credentials ([CommissioningRun.add_noc_decides]).  In any
      interleaving with the permitted requests of the Access Control, Group Key
      Management and Groups clusters, access entries, key sets and key map rows
      belong to fabrics of the table, and memberships do unless they were made
      over PASE, under index 0
      ([CommissioningRun.rows_belong_to_live_fabrics]).  The end of the fail-safe
      removes the fabric still marked as unconfirmed with its rows; a fabric that
      an earlier AddNOC of the same window installed stays
      ([CommissioningRun.unconfirmed_fabric_undone]).
    - The client of the Interaction Model computes what the device's dispatcher
      computes ([ImClient]), so that a commissioning completes end to end
      ([CommissionerRun.commissioning_completes]) and an opened window's codes
      open it.
    - Sessions: PASE and CASE establish on both ends with equal keys and crossed
      identities ([Pase.pase_agrees], [CaseRun.case_agrees]), the initiator only
      with the node it asked for, the device only with a proven node
      ([CaseRun.case_initiator_authenticates], [CaseRun.case_responder_steps],
      [Pase.pase_responder_steps]), and the node a commissioning made admits its
      administrator ([OperationalRun.commissioned_node_admits_admin]).
    - Discovery: peers that hear an advertiser believe what it advertises
      ([MdnsRecords.advertiser_heard]); what a resolution reports rests on received
      records of that very node, whatever else is sent, though a received host name
      that is not well formed trips an assertion of the debug build
      ([Resolve.resolve_sound]),
      and a device that answers is found, through a flood too
      ([Resolve.resolve_survives_flood], [Resolve.commissionable_discovered]); a
      browse lists exactly the devices that answered
      ([Browse.browse_lists_devices]) and its repeated queries carry what it knows
      ([Dns.known_answers_carried]).

    ** Not modelled

    - Sockets, tasks, timers and files: [net/runtime], [net/subscription],
      [net/store], the sockets of [net/mdns] and [dnssd], [transport.rs], [ble.rs], [race.rs] and the address
      race of [case.rs], [matd], [mat-native], the file formats of [kvs.rs] and
      [group_settings.rs] (the store of another program, read and written in
      place).
    - The command line, JSON forms of values, terminal output: [mat], [matv],
      [im/json.rs], [im/cmdfields.rs] beyond the group commands.
    - [dnssd/cache.rs], the cache a background task fills with what it overhears.
    - Name and id tables and what reads them: [mat-core].
    - The remaining informational clusters (Basic Information, Descriptor,
      General Diagnostics, Network Commissioning, the bridge).
    - The floating-point back-off of MRP only decides when a deadline passes and
      is left to the script of the socket.

    The session keys' secrecy is not stated: the model has no attacker that
    computes with ciphertexts, so the theorems speak of what each end has
    checked, under hash and signature functions that are parameters. *)

From Stdlib Require Import ZArith Lia.
From stdpp Require Export base list option.
From stdpp Require Export list_numbers.

#[export] Set Default Goal Selector "!".

(** ** Outcomes

    A Rust call either returns a value, returns the error of its [Result],
    panics ([assert!], [expect], an arithmetic overflow check) or, for a loop
    that is modelled with fuel, runs out of the fuel it was given.  The last
    constructor is a modelling artefact: every loop comes with a theorem that
    the fuel chosen is enough. *)
Inductive res (E A : Type) : Type :=
  | Ok (a : A)
  | Err (e : E)
  | Panic
  | OutOfFuel.
Arguments Ok {E A} a.
Arguments Err {E A} e.
Arguments Panic {E A}.
Arguments OutOfFuel {E A}.

Definition res_bind {E A B} (m : res E A) (k : A → res E B) : res E B :=
  match m with
  | Ok a => k a
  | Err e => Err e
  | Panic => Panic
  | OutOfFuel => OutOfFuel
  end.

(** [Option::ok_or]. *)
Definition ok_or {E A} (o : option A) (e : E) : res E A :=
  match o with Some a => Ok a | None => Err e end.

(** [Result::map_err]. *)
Definition map_err {E F A} (f : E → F) (m : res E A) : res F A :=
  match m with
  | Ok a => Ok a
  | Err e => Err (f e)
  | Panic => Panic
  | OutOfFuel => OutOfFuel
  end.

Definition is_ok {E A} (m : res E A) : bool :=
  match m with Ok _ => true | _ => false end.

(** A call that neither panics nor exhausts its fuel. *)
Definition returns {E A} (m : res E A) : Prop :=
  match m with Ok _ | Err _ => True | _ => False end.

(** [injection] that leaves the arguments as they are. *)
Lemma Ok_inj {E A} (a b : A) : Ok (E:=E) a = Ok b → a = b.
Proof. by intros [= ->]. Qed.

(** ** Methods

    A method taking [&mut self] and returning [Result<A, E>] is a function
    from the state to the new state and the outcome.  The state survives an
    error, as the mutations made before an early return do in Rust. *)
Definition M (S E A : Type) : Type := S → S * res E A.

Definition ret {S E A} (a : A) : M S E A := λ s, (s, Ok a).
Definition throw {S E A} (e : E) : M S E A := λ s, (s, Err e).
Definition panic {S E A} : M S E A := λ s, (s, Panic).
Definition out_of_fuel {S E A} : M S E A := λ s, (s, OutOfFuel).
Definition get {S E} : M S E S := λ s, (s, Ok s).
Definition modify {S E} (f : S → S) : M S E () := λ s, (f s, Ok ()).
Definition lift {S E A} (m : res E A) : M S E A := λ s, (s, m).

Definition bind {S E A B} (m : M S E A) (k : A → M S E B) : M S E B :=
  λ s, match m s with
       | (s', Ok a) => k a s'
       | (s', Err e) => (s', Err e)
       | (s', Panic) => (s', Panic)
       | (s', OutOfFuel) => (s', OutOfFuel)
       end.

Declare Scope mat_scope.
Delimit Scope mat_scope with mat.
Notation "'let!' x ':=' m 'in' k" := (bind m (λ x, k))
  (at level 10, x pattern, m at level 100, k at level 200) : mat_scope.
Notation "m ';;!' k" := (bind m (λ _, k))
  (at level 199, k at level 200, right associativity) : mat_scope.
Notation "'let?' x ':=' m 'in' k" := (res_bind m (λ x, k))
  (at level 10, x pattern, m at level 100, k at level 200) : mat_scope.
#[global] Open Scope mat_scope.
#[global] Open Scope Z_scope.

Section monad_laws.
Context {S E : Type}.

Lemma bind_ok {A B} (m : M S E A) (k : A → M S E B) s s' a :
  m s = (s', Ok a) → bind m k s = k a s'.
Proof. intros H. unfold bind. by rewrite H. Qed.

Lemma bind_err {A B} (m : M S E A) (k : A → M S E B) s s' e :
  m s = (s', Err e) → bind m k s = (s', Err e).
Proof. intros H. unfold bind. by rewrite H. Qed.

Lemma bind_inv_ok {A B} (m : M S E A) (k : A → M S E B) s s' b :
  bind m k s = (s', Ok b) → ∃ s1 a, m s = (s1, Ok a) ∧ k a s1 = (s', Ok b).
Proof. unfold bind. destruct (m s) as [s1 [a| | |]]; naive_solver. Qed.
End monad_laws.

(** ** Weakest preconditions

    [wp m Q R s]: run from [s], [m] neither panics nor exhausts its fuel; a
    returned value satisfies [Q] and an error satisfies [R] in the state they
    leave. *)
Definition wp {S E A} (m : M S E A) (Q : A → S → Prop) (R : E → S → Prop) (s : S) : Prop :=
  match m s with
  | (s', Ok a) => Q a s'
  | (s', Err e) => R e s'
  | (_, Panic) | (_, OutOfFuel) => False
  end.

Section wp.
Context {S E : Type}.
Implicit Types (R : E → S → Prop).

Lemma wp_bind {A B} (m : M S E A) (k : A → M S E B) Q R s :
  wp m (λ a s', wp (k a) Q R s') R s → wp (bind m k) Q R s.
Proof. unfold wp, bind. destruct (m s) as [s' [a|e| |]]; done. Qed.

Lemma wp_ret {A} (a : A) (Q : A → S → Prop) R s : Q a s → wp (ret a) Q R s.
Proof. done. Qed.

Lemma wp_throw {A} e (Q : A → S → Prop) R s : R e s → wp (throw e) Q R s.
Proof. done. Qed.

Lemma wp_mono {A} (m : M S E A) (Q Q' : A → S → Prop) R R' s :
  wp m Q R s → (∀ a s', Q a s' → Q' a s') → (∀ e s', R e s' → R' e s') →
  wp m Q' R' s.
Proof. unfold wp. destruct (m s) as [s' [a|e| |]]; naive_solver. Qed.

Lemma wp_and {A} (m : M S E A) (Q Q' : A → S → Prop) R R' s :
  wp m Q R s → wp m Q' R' s → wp m (λ a s', Q a s' ∧ Q' a s') (λ e s', R e s' ∧ R' e s') s.
Proof. unfold wp. destruct (m s) as [s' [a|e| |]]; naive_solver. Qed.
End wp.

(** ** Machine integers and bytes

    A [uN] value is a [Z] in [[0, 2^N)]; a byte is a [Z] below 256. *)
Abbreviation bytes := (list Z).
Definition is_byte (b : Z) : Prop := 0 ≤ b < 256.
Abbreviation bytes_ok := (Forall is_byte).

Definition in_u (w z : Z) : Prop := 0 ≤ z < 2 ^ w.
Definition in_i (w z : Z) : Prop := - 2 ^ (w - 1) ≤ z < 2 ^ (w - 1).
Definition in_ub (w z : Z) : bool := (0 <=? z) && (z <? 2 ^ w).
(** [as uN], [wrapping_*]. *)
Definition wrap (w z : Z) : Z := z mod 2 ^ w.
(** Reading a [uN] bit pattern as an [iN]. *)
Definition as_signed (w z : Z) : Z := if z <? 2 ^ (w - 1) then z else z - 2 ^ w.
(** [saturating_add] on a [uN]. *)
Definition saturating_add (w a b : Z) : Z := Z.min (a + b) (2 ^ w - 1).
(** [saturating_sub] on an unsigned type. *)
Definition saturating_sub (a b : Z) : Z := Z.max 0 (a - b).
(** [uN::try_from(z).ok()]. *)
Definition try_u (w z : Z) : option Z := if in_ub w z then Some z else None.

Definition zlen {A} (l : list A) : Z := Z.of_nat (length l).
(** The slice [l[a..b]] of a list, for indices already checked. *)
Definition zslice {A} (a b : Z) (l : list A) : list A :=
  take (Z.to_nat (b - a)) (drop (Z.to_nat a) l).

(** [to_le_bytes] on an [8*n]-bit integer and [from_le_bytes]. *)
Fixpoint le_bytes (n : nat) (z : Z) : bytes :=
  match n with
  | O => []
  | S n => z mod 256 :: le_bytes n (z / 256)
  end.
Fixpoint le_val (l : bytes) : Z :=
  match l with
  | [] => 0
  | b :: l => b + 256 * le_val l
  end.

Lemma length_le_bytes n z : length (le_bytes n z) = n.
Proof. revert z. induction n as [|n IH]; intros z; simpl; [done|]. by rewrite IH. Qed.

Lemma le_bytes_ok n z : bytes_ok (le_bytes n z).
Proof.
  revert z. induction n as [|n IH]; intros z; simpl; constructor; [|done].
  unfold is_byte. apply Z.mod_pos_bound. lia.
Qed.

Lemma le_val_bytes n z : le_val (le_bytes n z) = z mod 256 ^ Z.of_nat n.
Proof.
  revert z. induction n as [|n IH]; intros z; [by rewrite Z.mod_1_r|].
  cbn [le_bytes le_val]. rewrite IH, Nat2Z.inj_succ, Z.pow_succ_r by lia.
  rewrite Z.rem_mul_r by lia. lia.
Qed.

Lemma le_val_bytes_small n z :
  0 ≤ z < 256 ^ Z.of_nat n → le_val (le_bytes n z) = z.
Proof. intros H. rewrite le_val_bytes. by apply Z.mod_small. Qed.

Lemma le_val_bound l : bytes_ok l → 0 ≤ le_val l < 256 ^ zlen l.
Proof.
  unfold zlen. induction 1 as [|b l Hb Hl IH]; [cbn; lia|].
  cbn [le_val length]. rewrite Nat2Z.inj_succ, Z.pow_succ_r by lia.
  unfold is_byte in Hb. lia.
Qed.

Lemma le_bytes_val l : bytes_ok l → le_bytes (length l) (le_val l) = l.
Proof.
  induction 1 as [|b l Hb Hl IH]; [done|]. cbn [le_bytes le_val length].
  unfold is_byte in Hb. f_equal.
  - rewrite Z.mul_comm, Z_mod_plus_full. by apply Z.mod_small.
  - rewrite Z.mul_comm, Z_div_plus_full by lia.
    rewrite (Z.div_small b 256) by done. by rewrite Z.add_0_l.
Qed.

(** A signed value survives its two's complement byte encoding. *)
Lemma as_signed_le_val n z :
  (n ≠ 0)%nat → in_i (8 * Z.of_nat n) z →
  as_signed (8 * Z.of_nat n) (le_val (le_bytes n z)) = z.
Proof.
  intros Hn Hz. rewrite le_val_bytes.
  change 256 with (2 ^ 8). rewrite <- Z.pow_mul_r by lia.
  unfold as_signed, in_i in *. set (w := 8 * Z.of_nat n) in *.
  assert (Hw : 2 ^ w = 2 * 2 ^ (w - 1)).
  { rewrite <- Z.pow_succ_r by lia. f_equal. lia. }
  destruct (decide (0 ≤ z)).
  - rewrite Z.mod_small by lia. destruct (Z.ltb_spec z (2 ^ (w - 1))); lia.
  - assert (z mod 2 ^ w = z + 2 ^ w) as ->.
    { symmetry. apply (Z.mod_unique _ _ (-1)); lia. }
    destruct (Z.ltb_spec (z + 2 ^ w) (2 ^ (w - 1))); lia.
Qed.

Lemma zlen_nonneg {A} (l : list A) : 0 ≤ zlen l.
Proof. unfold zlen. lia. Qed.
Lemma zlen_app {A} (l k : list A) : zlen (l ++ k) = zlen l + zlen k.
Proof. unfold zlen. rewrite length_app. lia. Qed.
Lemma zlen_cons {A} x (l : list A) : zlen (x :: l) = 1 + zlen l.
Proof. unfold zlen. cbn [length]. lia. Qed.
Lemma zlen_nil {A} : zlen (@nil A) = 0.
Proof. done. Qed.
Lemma zlen_le_bytes n z : zlen (le_bytes n z) = Z.of_nat n.
Proof. unfold zlen. by rewrite length_le_bytes. Qed.

Lemma zslice_app_mid {A} (p a r : list A) :
  zslice (zlen p) (zlen p + zlen a) (p ++ a ++ r) = a.
Proof.
  unfold zslice, zlen.
  replace (Z.to_nat (Z.of_nat (length p) + Z.of_nat (length a) - Z.of_nat (length p)))
    with (length a) by lia.
  rewrite Nat2Z.id, drop_app_length, take_app_length. done.
Qed.

Create HintDb mat discriminated.
#[export] Hint Rewrite @zlen_app @zlen_cons @zlen_nil zlen_le_bytes : mat.
#[export] Hint Resolve le_bytes_ok zlen_nonneg : mat.

(** [zl] normalises lengths and closes the arithmetic left. *)
Ltac zl := autorewrite with mat in *; try lia.

Lemma in_ub_spec w z : in_ub w z = true ↔ in_u w z.
Proof. unfold in_ub, in_u. lia. Qed.

Lemma try_u_Some w z v : try_u w z = Some v ↔ v = z ∧ in_u w z.
Proof.
  unfold try_u. destruct (in_ub w z) eqn:H.
  - apply in_ub_spec in H. naive_solver.
  - split; [done|]. intros [_ H']. apply in_ub_spec in H'. congruence.
Qed.

Lemma wrap_small w z : in_u w z → wrap w z = z.
Proof. intros H. by apply Z.mod_small. Qed.
Lemma wrap_in_u w z : 0 ≤ w → in_u w (wrap w z).
Proof. intros H. apply Z.mod_pos_bound. lia. Qed.

Lemma Forall_mp {A} (P Q : A → Prop) l :
  Forall P l → Forall (λ x, P x → Q x) l → Forall Q l.
Proof. intros HP HQ. induction HP; inversion HQ; subst; constructor; auto. Qed.

Lemma bytes_ok_1 b : is_byte b → bytes_ok [b].
Proof. by intros; constructor. Qed.
Lemma bytes_ok_nil : bytes_ok [].
Proof. constructor. Qed.
#[export] Hint Resolve bytes_ok_1 bytes_ok_nil : mat.

Lemma drop_zlen_app {A} (a b : list A) : drop (Z.to_nat (zlen a)) (a ++ b) = b.
Proof. unfold zlen. by rewrite Nat2Z.id, drop_app_length. Qed.

Lemma zslice_0_app {A} (a b : list A) : zslice 0 (zlen a) (a ++ b) = a.
Proof. pose proof (zslice_app_mid [] a b) as H. by rewrite zlen_nil, Z.add_0_l in H. Qed.

Lemma zlen_zslice {A} a b (l : list A) : 0 ≤ a ≤ b → b ≤ zlen l → zlen (zslice a b l) = b - a.
Proof. unfold zslice, zlen. rewrite length_take, length_drop. lia. Qed.

Lemma zslice_extend {A} (l : list A) a b c :
  0 ≤ a ≤ b → b ≤ c → zslice a b l ++ zslice b c l = zslice a c l.
Proof.
  intros Hab Hbc. unfold zslice.
  replace (Z.to_nat b) with (Z.to_nat a + Z.to_nat (b - a))%nat by lia.
  rewrite <- drop_drop, take_take_drop. f_equal. lia.
Qed.

Lemma zslice_full {A} (l : list A) : zslice 0 (zlen l) l = l.
Proof. unfold zslice. rewrite drop_0. apply take_ge. unfold zlen. lia. Qed.

Lemma zlen_zslice_0 {A} (l : list A) e : 0 ≤ e ≤ zlen l → zlen (zslice 0 e l) = e.
Proof. unfold zslice, zlen. rewrite drop_0, length_take. lia. Qed.
