(* ===== verification/Tlv.v ===== *)
(** * The Matter TLV codec

    Models [crates/mat-controller/src/tlv.rs]: [Writer] (the streaming
    encoder), [Reader] (the streaming decoder), the container walkers
    ([copy_value], [copy_container], [skip_container]) and the [StructFields]
    cursor.  A [Writer] or [Reader] method is a function in the state-and-
    outcome monad of [Prelude]; [assert!], [expect] and [unreachable!] are
    [Panic].

    The specification side ([tree], [enc_tree]) is the grammar of well-formed
    TLV; the theorems at the end relate the two. *)

From S2P Require Import Prelude.

(** ** Data *)

Inductive Tag :=
  | Anonymous
  | Context (t : Z)
  | CommonProfile16 (t : Z)
  | CommonProfile32 (t : Z)
  | ImplicitProfile16 (t : Z)
  | ImplicitProfile32 (t : Z)
  | FullyQualified48 (vendor profile tag : Z)
  | FullyQualified64 (vendor profile tag : Z).

(** Floats are carried as their IEEE bit patterns: the codec only moves them
    with [to_le_bytes] / [from_le_bytes]. A [&str] is its UTF-8 bytes. *)
Inductive Value :=
  | VInt (v : Z)
  | VUint (v : Z)
  | VBool (v : bool)
  | VF32 (bits : Z)
  | VF64 (bits : Z)
  | VUtf8 (s : bytes)
  | VBytes (b : bytes)
  | VNull
  | VStructStart
  | VArrayStart
  | VListStart
  | VContainerEnd.

Record Element := { el_tag : Tag; el_value : Value }.

Inductive TlvError :=
  | Truncated
  | InvalidType (t : Z)
  | InvalidUtf8
  | LengthOverflow.

#[export] Instance Tag_eq_dec : EqDecision Tag.
Proof. solve_decision. Defined.
#[export] Instance Value_eq_dec : EqDecision Value.
Proof. solve_decision. Defined.
#[export] Instance TlvError_eq_dec : EqDecision TlvError.
Proof. solve_decision. Defined.

(** ** Writer *)

Record Writer := { w_buf : bytes; w_depth : nat }.

Definition Writer_new : Writer := {| w_buf := []; w_depth := 0 |}.

Section writer.
Context {E : Type}.
Abbreviation W := (M Writer E).

Definition push (b : bytes) : W () :=
  modify (λ w, {| w_buf := w_buf w ++ b; w_depth := w_depth w |}).

Definition control_and_tag (type_bits : Z) (tag : Tag) : W () :=
  match tag with
  | Anonymous => push [type_bits]
  | Context t =>
      push [Z.lor 0x20 type_bits] ;;! push [t]
  | CommonProfile16 t =>
      push [Z.lor 0x40 type_bits] ;;! push (le_bytes 2 t)
  | CommonProfile32 t =>
      push [Z.lor 0x60 type_bits] ;;! push (le_bytes 4 t)
  | ImplicitProfile16 t =>
      push [Z.lor 0x80 type_bits] ;;! push (le_bytes 2 t)
  | ImplicitProfile32 t =>
      push [Z.lor 0xA0 type_bits] ;;! push (le_bytes 4 t)
  | FullyQualified48 vendor profile tag =>
      push [Z.lor 0xC0 type_bits] ;;!
      push (le_bytes 2 vendor) ;;!
      push (le_bytes 2 profile) ;;!
      push (le_bytes 2 tag)
  | FullyQualified64 vendor profile tag =>
      push [Z.lor 0xE0 type_bits] ;;!
      push (le_bytes 2 vendor) ;;!
      push (le_bytes 2 profile) ;;!
      push (le_bytes 4 tag)
  end.

Definition put_uint (tag : Tag) (v : Z) : W () :=
  if v <=? 0xFF then
    control_and_tag 0x04 tag ;;! push [wrap 8 v]
  else if v <=? 0xFFFF then
    control_and_tag 0x05 tag ;;! push (le_bytes 2 (wrap 16 v))
  else if v <=? 0xFFFFFFFF then
    control_and_tag 0x06 tag ;;! push (le_bytes 4 (wrap 32 v))
  else
    control_and_tag 0x07 tag ;;! push (le_bytes 8 v).

(** [iN::try_from(v).is_ok()]. *)
Definition fits_i (w v : Z) : bool := (- 2 ^ (w - 1) <=? v) && (v <? 2 ^ (w - 1)).

Definition put_int (tag : Tag) (v : Z) : W () :=
  if fits_i 8 v then
    control_and_tag 0x00 tag ;;! push (le_bytes 1 v)
  else if fits_i 16 v then
    control_and_tag 0x01 tag ;;! push (le_bytes 2 v)
  else if fits_i 32 v then
    control_and_tag 0x02 tag ;;! push (le_bytes 4 v)
  else
    control_and_tag 0x03 tag ;;! push (le_bytes 8 v).

Definition put_bool (tag : Tag) (v : bool) : W () :=
  control_and_tag (if v then 0x09 else 0x08) tag.

Definition put_f32 (tag : Tag) (v : Z) : W () :=
  control_and_tag 0x0A tag ;;! push (le_bytes 4 v).

Definition put_f64 (tag : Tag) (v : Z) : W () :=
  control_and_tag 0x0B tag ;;! push (le_bytes 8 v).

Definition put_len_prefixed (base_type : Z) (tag : Tag) (data : bytes) : W () :=
  let len := zlen data in
  (if in_ub 8 len then
     control_and_tag base_type tag ;;! push [len]
   else if in_ub 16 len then
     control_and_tag (base_type + 1) tag ;;! push (le_bytes 2 len)
   else if in_ub 32 len then
     control_and_tag (base_type + 2) tag ;;! push (le_bytes 4 len)
   else
     control_and_tag (base_type + 3) tag ;;! push (le_bytes 8 len)) ;;!
  push data.

Definition put_str (tag : Tag) (v : bytes) : W () := put_len_prefixed 0x0C tag v.
Definition put_bytes (tag : Tag) (v : bytes) : W () := put_len_prefixed 0x10 tag v.
Definition put_null (tag : Tag) : W () := control_and_tag 0x14 tag.

Definition deeper : W () :=
  modify (λ w, {| w_buf := w_buf w; w_depth := S (w_depth w) |}).

Definition start_struct (tag : Tag) : W () := control_and_tag 0x15 tag ;;! deeper.
Definition start_array (tag : Tag) : W () := control_and_tag 0x16 tag ;;! deeper.
Definition start_list (tag : Tag) : W () := control_and_tag 0x17 tag ;;! deeper.

Definition end_container : W () :=
  let! w := get in
  match w_depth w with
  | O => panic
  | S d => modify (λ w, {| w_buf := w_buf w ++ [0x18]; w_depth := d |})
  end.
End writer.

(** [finish] after a sequence of writer calls on a fresh [Writer]. *)
Definition finish {E} (m : M Writer E ()) : res E bytes :=
  match m Writer_new with
  | (w, Ok _) => match w_depth w with O => Ok (w_buf w) | S _ => Panic end
  | (_, Err e) => Err e
  | (_, Panic) => Panic
  | (_, OutOfFuel) => OutOfFuel
  end.

(** ** Reader *)

Record Reader := { rd_buf : bytes; rd_pos : Z }.

Definition Reader_new (buf : bytes) : Reader := {| rd_buf := buf; rd_pos := 0 |}.

(** [std::str::from_utf8(..).is_ok()]: the well-formed byte sequences of
    Unicode Table 3-7, as [core::str::validations] checks them. *)
Definition cont_byte (b : Z) : bool := (0x80 <=? b) && (b <=? 0xBF).
Definition between (lo hi b : Z) : bool := (lo <=? b) && (b <=? hi).

Fixpoint from_utf8 (l : bytes) : bool :=
  match l with
  | [] => true
  | a :: l1 =>
      if a <? 0x80 then from_utf8 l1 else
      match l1 with
      | [] => false
      | b :: l2 =>
          if between 0xC2 0xDF a then cont_byte b && from_utf8 l2 else
          match l2 with
          | [] => false
          | c :: l3 =>
              if (a =? 0xE0) then between 0xA0 0xBF b && cont_byte c && from_utf8 l3
              else if between 0xE1 0xEC a || between 0xEE 0xEF a
              then cont_byte b && cont_byte c && from_utf8 l3
              else if (a =? 0xED) then between 0x80 0x9F b && cont_byte c && from_utf8 l3
              else
              match l3 with
              | [] => false
              | d :: l4 =>
                  (if a =? 0xF0 then between 0x90 0xBF b
                   else if between 0xF1 0xF3 a then cont_byte b
                   else if a =? 0xF4 then between 0x80 0x8F b
                   else false)
                  && cont_byte c && cont_byte d && from_utf8 l4
              end
          end
      end
  end.

Abbreviation R := (M Reader TlvError).

Definition rd_take (n : Z) : R bytes :=
  let! r := get in
  let e := rd_pos r + n in
  if 2 ^ 64 <=? e then throw LengthOverflow
  else if zlen (rd_buf r) <? e then throw Truncated
  else
    modify (λ r, {| rd_buf := rd_buf r; rd_pos := e |}) ;;!
    ret (zslice (rd_pos r) e (rd_buf r)).

(** [self.take(1)?[0]]. *)
Definition take_u8 : R Z :=
  let! s := rd_take 1 in
  match s with b :: _ => ret b | [] => panic end.

Definition take_u16 : R Z := let! s := rd_take 2 in ret (le_val s).
Definition take_u32 : R Z := let! s := rd_take 4 in ret (le_val s).
Definition take_u64 : R Z := let! s := rd_take 8 in ret (le_val s).

Definition read_tag (control : Z) : R Tag :=
  let c := Z.land control 0xE0 in
  if c =? 0x00 then ret Anonymous
  else if c =? 0x20 then let! t := take_u8 in ret (Context t)
  else if c =? 0x40 then let! t := take_u16 in ret (CommonProfile16 t)
  else if c =? 0x60 then let! t := take_u32 in ret (CommonProfile32 t)
  else if c =? 0x80 then let! t := take_u16 in ret (ImplicitProfile16 t)
  else if c =? 0xA0 then let! t := take_u32 in ret (ImplicitProfile32 t)
  else if c =? 0xC0 then
    let! vendor := take_u16 in
    let! profile := take_u16 in
    let! tag := take_u16 in
    ret (FullyQualified48 vendor profile tag)
  else if c =? 0xE0 then
    let! vendor := take_u16 in
    let! profile := take_u16 in
    let! tag := take_u32 in
    ret (FullyQualified64 vendor profile tag)
  else panic.

(** [usize] is 64 bits wide, so the final [usize::try_from] of the code
    always succeeds here. *)
Definition read_len (width_selector : Z) : R Z :=
  let! len :=
    (if width_selector =? 0 then take_u8
     else if width_selector =? 1 then take_u16
     else if width_selector =? 2 then take_u32
     else take_u64) in
  match try_u 64 len with
  | Some len => ret len
  | None => throw LengthOverflow
  end.

(** The [match type_bits] of [Reader::next]. *)
Definition read_value (type_bits : Z) : R Value :=
  if type_bits =? 0x00 then let! b := take_u8 in ret (VInt (as_signed 8 b))
  else if type_bits =? 0x01 then let! s := rd_take 2 in ret (VInt (as_signed 16 (le_val s)))
  else if type_bits =? 0x02 then let! s := rd_take 4 in ret (VInt (as_signed 32 (le_val s)))
  else if type_bits =? 0x03 then let! s := rd_take 8 in ret (VInt (as_signed 64 (le_val s)))
  else if type_bits =? 0x04 then let! v := take_u8 in ret (VUint v)
  else if type_bits =? 0x05 then let! v := take_u16 in ret (VUint v)
  else if type_bits =? 0x06 then let! v := take_u32 in ret (VUint v)
  else if type_bits =? 0x07 then let! v := take_u64 in ret (VUint v)
  else if type_bits =? 0x08 then ret (VBool false)
  else if type_bits =? 0x09 then ret (VBool true)
  else if type_bits =? 0x0A then let! s := rd_take 4 in ret (VF32 (le_val s))
  else if type_bits =? 0x0B then let! s := rd_take 8 in ret (VF64 (le_val s))
  else if between 0x0C 0x0F type_bits then
    let! len := read_len (type_bits - 0x0C) in
    let! b := rd_take len in
    if from_utf8 b then ret (VUtf8 b) else throw InvalidUtf8
  else if between 0x10 0x13 type_bits then
    let! len := read_len (type_bits - 0x10) in
    let! b := rd_take len in
    ret (VBytes b)
  else if type_bits =? 0x14 then ret VNull
  else if type_bits =? 0x15 then ret VStructStart
  else if type_bits =? 0x16 then ret VArrayStart
  else if type_bits =? 0x17 then ret VListStart
  else if type_bits =? 0x18 then ret VContainerEnd
  else throw (InvalidType type_bits).

Definition next : R (option Element) :=
  let! r := get in
  if zlen (rd_buf r) <=? rd_pos r then ret None
  else
    let! control := take_u8 in
    let type_bits := Z.land control 0x1F in
    let! tag := read_tag control in
    let! value := read_value type_bits in
    ret (Some {| el_tag := tag; el_value := value |}).

(** [r.next()?.ok_or(TlvError::Truncated)?]. *)
Definition next_or_truncated : R Element :=
  let! o := next in
  match o with Some el => ret el | None => throw Truncated end.

(** ** Container walkers

    Each loop iteration consumes at least one byte, so one unit of fuel more
    than the bytes left is enough ([skip_container_returns],
    [copy_value_returns]). *)

Definition remaining (r : Reader) : nat := Z.to_nat (zlen (rd_buf r) - rd_pos r).

Definition is_container_start (v : Value) : bool :=
  match v with VStructStart | VArrayStart | VListStart => true | _ => false end.

Fixpoint skip_loop (fuel depth : nat) : R () :=
  match depth with
  | O => ret ()
  | S d =>
      match fuel with
      | O => out_of_fuel
      | S fuel =>
          let! el := next_or_truncated in
          match el_value el with
          | VStructStart | VArrayStart | VListStart => skip_loop fuel (S depth)
          | VContainerEnd => skip_loop fuel d
          | _ => skip_loop fuel depth
          end
      end
  end.

Definition skip_container : R () :=
  let! r := get in skip_loop (S (remaining r)) 1.

(** [copy_value] and [copy_container] work on a writer and a reader. *)
Definition on_writer {A} (m : M Writer TlvError A) : M (Writer * Reader) TlvError A :=
  λ '(w, r), let '(w', o) := m w in ((w', r), o).
Definition on_reader {A} (m : R A) : M (Writer * Reader) TlvError A :=
  λ '(w, r), let '(r', o) := m r in ((w, r'), o).

(** The body of [copy_value], with the call to [copy_container] abstracted. *)
Definition copy_value_with (copy_container : M (Writer * Reader) TlvError ())
    (tag : Tag) (value : Value) : M (Writer * Reader) TlvError () :=
  match value with
  | VInt v => on_writer (put_int tag v)
  | VUint v => on_writer (put_uint tag v)
  | VBool v => on_writer (put_bool tag v)
  | VF32 v => on_writer (put_f32 tag v)
  | VF64 v => on_writer (put_f64 tag v)
  | VUtf8 v => on_writer (put_str tag v)
  | VBytes v => on_writer (put_bytes tag v)
  | VNull => on_writer (put_null tag)
  | VStructStart => on_writer (start_struct tag) ;;! copy_container
  | VArrayStart => on_writer (start_array tag) ;;! copy_container
  | VListStart => on_writer (start_list tag) ;;! copy_container
  | VContainerEnd => ret ()
  end.

Fixpoint copy_container_loop (fuel : nat) : M (Writer * Reader) TlvError () :=
  match fuel with
  | O => out_of_fuel
  | S fuel =>
      let! el := on_reader next_or_truncated in
      if decide (el_value el = VContainerEnd) then on_writer end_container
      else
        copy_value_with (copy_container_loop fuel) (el_tag el) (el_value el) ;;!
        copy_container_loop fuel
  end.

Definition copy_container : M (Writer * Reader) TlvError () :=
  let! (_, r) := get in copy_container_loop (S (remaining r)).

Definition copy_value (tag : Tag) (value : Value) : M (Writer * Reader) TlvError () :=
  copy_value_with copy_container tag value.

(** [expect] on the decoding results turns every failure into a panic. *)
Definition put_raw_element {E} (tag : Tag) (element : bytes) : M Writer E () := λ w,
  match next (Reader_new element) with
  | (r, Ok (Some el)) =>
      match copy_value tag (el_value el) (w, r) with
      | ((w', _), Ok _) => (w', Ok ())
      | ((w', _), OutOfFuel) => (w', OutOfFuel)
      | ((w', _), _) => (w', Panic)
      end
  | _ => (w, Panic)
  end.

(** ** StructFields

    The cursor is the reader it borrows, so [inside] and [reader] are the
    identity. *)
Definition StructFields_open : R () :=
  let! o := next in
  match o with
  | Some el => if decide (el_value el = VStructStart) then ret () else throw (InvalidType 0)
  | None => throw (InvalidType 0)
  end.

Definition next_field : R (option Element) :=
  let! el := next_or_truncated in
  if decide (el_value el = VContainerEnd) then ret None else ret (Some el).

Fixpoint next_scalar_loop (fuel : nat) : R (option Element) :=
  match fuel with
  | O => out_of_fuel
  | S fuel =>
      let! o := next_field in
      match o with
      | None => ret None
      | Some el =>
          if is_container_start (el_value el)
          then skip_container ;;! next_scalar_loop fuel
          else ret (Some el)
      end
  end.

Definition next_scalar : R (option Element) :=
  let! r := get in next_scalar_loop (S (remaining r)).

(** ** The grammar

    What a writer can produce for one element: a scalar with its tag, or a
    container with its children. *)

Inductive kind := KStruct | KArray | KList.

Definition start_of (k : kind) : Value :=
  match k with KStruct => VStructStart | KArray => VArrayStart | KList => VListStart end.

Inductive tree :=
  | Leaf (tag : Tag) (v : Value)
  | Node (tag : Tag) (k : kind) (ch : list tree).

Definition tag_control (t : Tag) : Z :=
  match t with
  | Anonymous => 0x00
  | Context _ => 0x20
  | CommonProfile16 _ => 0x40
  | CommonProfile32 _ => 0x60
  | ImplicitProfile16 _ => 0x80
  | ImplicitProfile32 _ => 0xA0
  | FullyQualified48 _ _ _ => 0xC0
  | FullyQualified64 _ _ _ => 0xE0
  end.

Definition tag_bytes (t : Tag) : bytes :=
  match t with
  | Anonymous => []
  | Context t => [t]
  | CommonProfile16 t | ImplicitProfile16 t => le_bytes 2 t
  | CommonProfile32 t | ImplicitProfile32 t => le_bytes 4 t
  | FullyQualified48 v p t => le_bytes 2 v ++ le_bytes 2 p ++ le_bytes 2 t
  | FullyQualified64 v p t => le_bytes 2 v ++ le_bytes 2 p ++ le_bytes 4 t
  end.

Definition len_class (n : Z) : nat :=
  if in_ub 8 n then 0 else if in_ub 16 n then 1 else if in_ub 32 n then 2 else 3.
Definition uint_class (n : Z) : nat :=
  if n <=? 0xFF then 0 else if n <=? 0xFFFF then 1 else if n <=? 0xFFFFFFFF then 2 else 3.
Definition int_class (n : Z) : nat :=
  if fits_i 8 n then 0 else if fits_i 16 n then 1 else if fits_i 32 n then 2 else 3.

(** Bytes and bits of a width class. *)
Definition class_width (c : nat) : nat :=
  match c with 0 => 1 | 1 => 2 | 2 => 4 | _ => 8 end%nat.
Definition class_bits (c : nat) : Z :=
  match c with 0%nat => 8 | 1%nat => 16 | 2%nat => 32 | _ => 64 end.

(** The element type and the bytes after the tag. *)
Definition type_of (v : Value) : Z :=
  match v with
  | VInt v => 0x00 + Z.of_nat (int_class v)
  | VUint v => 0x04 + Z.of_nat (uint_class v)
  | VBool b => if b then 0x09 else 0x08
  | VF32 _ => 0x0A
  | VF64 _ => 0x0B
  | VUtf8 s => 0x0C + Z.of_nat (len_class (zlen s))
  | VBytes b => 0x10 + Z.of_nat (len_class (zlen b))
  | VNull => 0x14
  | VStructStart => 0x15
  | VArrayStart => 0x16
  | VListStart => 0x17
  | VContainerEnd => 0x18
  end.

Definition body_of (v : Value) : bytes :=
  match v with
  | VInt v => le_bytes (class_width (int_class v)) v
  | VUint v => le_bytes (class_width (uint_class v)) v
  | VF32 v => le_bytes 4 v
  | VF64 v => le_bytes 8 v
  | VUtf8 s | VBytes s => le_bytes (class_width (len_class (zlen s))) (zlen s) ++ s
  | _ => []
  end.

Definition enc_elem (t : Tag) (v : Value) : bytes :=
  Z.lor (tag_control t) (type_of v) :: tag_bytes t ++ body_of v.

Fixpoint enc_tree (t : tree) : bytes :=
  match t with
  | Leaf tag v => enc_elem tag v
  | Node tag k ch => enc_elem tag (start_of k) ++ concat (map enc_tree ch) ++ [0x18]
  end.

Definition retag (tag : Tag) (t : tree) : tree :=
  match t with Leaf _ v => Leaf tag v | Node _ k ch => Node tag k ch end.

Definition wf_tag (t : Tag) : Prop :=
  match t with
  | Anonymous => True
  | Context t => in_u 8 t
  | CommonProfile16 t | ImplicitProfile16 t => in_u 16 t
  | CommonProfile32 t | ImplicitProfile32 t => in_u 32 t
  | FullyQualified48 v p t => in_u 16 v ∧ in_u 16 p ∧ in_u 16 t
  | FullyQualified64 v p t => in_u 16 v ∧ in_u 16 p ∧ in_u 32 t
  end.

(** A value of the Rust type; a slice is at most [isize::MAX] bytes. *)
Definition wf_value (v : Value) : Prop :=
  match v with
  | VInt v => in_i 64 v
  | VUint v => in_u 64 v
  | VF32 v => in_u 32 v
  | VF64 v => in_u 64 v
  | VUtf8 s => bytes_ok s ∧ zlen s < 2 ^ 63 ∧ from_utf8 s = true
  | VBytes b => bytes_ok b ∧ zlen b < 2 ^ 63
  | _ => True
  end.

Definition is_scalar (v : Value) : bool :=
  match v with
  | VStructStart | VArrayStart | VListStart | VContainerEnd => false
  | _ => true
  end.

Fixpoint wf_tree (t : tree) : Prop :=
  match t with
  | Leaf tag v => wf_tag tag ∧ wf_value v ∧ is_scalar v = true
  | Node tag k ch => wf_tag tag ∧ fold_right (λ t P, wf_tree t ∧ P) True ch
  end.

(** ** The writer produces the grammar *)

Definition wapp (w : Writer) (b : bytes) : Writer :=
  {| w_buf := w_buf w ++ b; w_depth := w_depth w |}.

(** [writes m b]: from any writer, [m] appends [b] and changes nothing else. *)
Definition writes {E} (m : M Writer E ()) (b : bytes) : Prop :=
  ∀ w, m w = (wapp w b, Ok ()).

Section writes.
Context {E : Type}.

Lemma writes_push b : writes (E:=E) (push b) b.
Proof. done. Qed.

Lemma writes_seq (m k : M Writer E ()) a b :
  writes m a → writes k b → writes (m ;;! k) (a ++ b).
Proof.
  intros Hm Hk w. unfold bind. rewrite (Hm w), (Hk _).
  unfold wapp. cbn. by rewrite app_assoc.
Qed.

Lemma writes_eq (m : M Writer E ()) a b : writes m a → a = b → writes m b.
Proof. by intros ? <-. Qed.

Lemma writes_control ty t :
  writes (E:=E) (control_and_tag ty t) (Z.lor (tag_control t) ty :: tag_bytes t).
Proof.
  destruct t; cbn [control_and_tag tag_control tag_bytes];
    eauto using writes_eq, writes_seq, writes_push.
Qed.
End writes.

Lemma le_bytes_wrap n z :
  le_bytes n (z mod 256 ^ Z.of_nat n) = le_bytes n z.
Proof.
  revert z. induction n as [|n IH]; intros z; [done|].
  cbn [le_bytes]. rewrite Nat2Z.inj_succ, Z.pow_succ_r by lia.
  rewrite Z.rem_mul_r by lia.
  rewrite (Z.mul_comm 256), Z_mod_plus_full, Z_div_plus_full, Z.mod_mod by lia.
  by rewrite (Z.div_small (z mod 256) 256), Z.add_0_l, IH by
    (apply Z.mod_pos_bound; lia).
Qed.

Create HintDb writes discriminated.
#[export] Hint Resolve writes_push writes_seq writes_control : writes.

Section writes_scalars.
Context {E : Type}.

Lemma writes_tagged ty (t : Tag) b :
  writes (E:=E) (control_and_tag ty t ;;! push b)
    (Z.lor (tag_control t) ty :: tag_bytes t ++ b).
Proof. apply (writes_seq _ _ (_ :: _)); auto with writes. Qed.

Lemma writes_put_uint t v : writes (E:=E) (put_uint t v) (enc_elem t (VUint v)).
Proof.
  unfold put_uint, enc_elem, uint_class, type_of, body_of, wrap.
  change (2 ^ 8) with (256 ^ Z.of_nat 1). change (2 ^ 16) with (256 ^ Z.of_nat 2).
  change (2 ^ 32) with (256 ^ Z.of_nat 4). rewrite !le_bytes_wrap.
  unfold uint_class, class_width. repeat case_match; apply writes_tagged.
Qed.

Lemma writes_put_int t v : writes (E:=E) (put_int t v) (enc_elem t (VInt v)).
Proof.
  unfold put_int, enc_elem, type_of, body_of, int_class, class_width.
  repeat case_match; apply writes_tagged.
Qed.

Lemma writes_len_prefixed base t data :
  writes (E:=E) (put_len_prefixed base t data)
    (Z.lor (tag_control t) (base + Z.of_nat (len_class (zlen data))) :: tag_bytes t ++
     le_bytes (class_width (len_class (zlen data))) (zlen data) ++ data).
Proof.
  unfold put_len_prefixed, len_class, class_width.
  rewrite app_comm_cons, app_assoc.
  apply writes_seq; [|apply writes_push]. rewrite <- app_comm_cons.
  destruct (in_ub 8 (zlen data)) eqn:H8.
  - apply in_ub_spec in H8. unfold in_u in H8. rewrite Z.add_0_r.
    cbn [le_bytes Nat.pow]. rewrite Z.mod_small by lia. apply writes_tagged.
  - repeat case_match; apply writes_tagged.
Qed.

Lemma start_node k t w :
  (match k with KStruct => start_struct t | KArray => start_array t
   | KList => start_list t end) w =
  ({| w_buf := w_buf w ++ enc_elem t (start_of k); w_depth := S (w_depth w) |},
   @Ok E () ()).
Proof.
  destruct k; unfold start_struct, start_array, start_list, bind, enc_elem;
    rewrite (writes_control _ t w); cbn [start_of type_of body_of];
    rewrite app_nil_r; done.
Qed.
End writes_scalars.

Lemma writes_scalar k t v w (r : Reader) :
  is_scalar v = true →
  copy_value_with k t v (w, r) = ((wapp w (enc_elem t v), r), Ok ()).
Proof.
  assert (Hon : ∀ (m : M Writer TlvError ()) b, writes m b →
    on_writer m (w, r) = ((wapp w b, r), Ok ())).
  { intros m b Hm. unfold on_writer. by rewrite Hm. }
  destruct v as [v|v|v|v|v|v|v| | | | |]; intros Hs; try done;
    cbn [copy_value_with]; apply Hon.
  - apply writes_put_int.
  - apply writes_put_uint.
  - destruct v; eapply writes_eq, (f_equal (cons _)), symmetry, app_nil_r; apply writes_control.
  - apply writes_tagged.
  - apply writes_tagged.
  - apply writes_len_prefixed.
  - apply writes_len_prefixed.
  - eapply writes_eq, (f_equal (cons _)), symmetry, app_nil_r; apply writes_control.
Qed.

(** ** Reading the grammar back *)

(** A reader that has consumed [pre] and has [bs] left. *)
Definition reader_at (pre bs : bytes) : Reader :=
  {| rd_buf := pre ++ bs; rd_pos := zlen pre |}.

Definition small (l : bytes) : Prop := zlen l < 2 ^ 63.

(** [reads m a x]: wherever [a] comes next in the input, [m] consumes exactly
    [a] and returns [x]. *)
Definition reads {E A} (m : M Reader E A) (a : bytes) (x : A) : Prop :=
  ∀ pre tl, small (pre ++ a ++ tl) →
    m (reader_at pre (a ++ tl)) = (reader_at (pre ++ a) tl, Ok x).

Lemma reads_take n a : zlen a = n → reads (rd_take n) a a.
Proof.
  intros <- pre tl Hs. unfold rd_take, bind, get, modify, ret, throw, small in *.
  cbn. autorewrite with mat in *.
  pose proof (zlen_nonneg tl). pose proof (zlen_nonneg pre). pose proof (zlen_nonneg a).
  destruct (Z.leb_spec (2 ^ 64) (zlen pre + zlen a)); [lia|].
  destruct (Z.ltb_spec (zlen pre + (zlen a + zlen tl)) (zlen pre + zlen a)); [lia|].
  rewrite zslice_app_mid. unfold reader_at. by rewrite zlen_app, app_assoc.
Qed.

Lemma reads_ret {E A} (x : A) : reads (E:=E) (ret x) [] x.
Proof. intros pre tl _. by rewrite app_nil_r. Qed.

Lemma reads_bind {E A B} (m : M Reader E A) (k : A → M Reader E B) a b x y :
  reads m a x → reads (k x) b y → reads (bind m k) (a ++ b) y.
Proof.
  intros Hm Hk pre tl Hs. rewrite <- app_assoc in *. unfold bind.
  rewrite (Hm pre (b ++ tl)) by done. rewrite (Hk (pre ++ a) tl).
  - by rewrite <- app_assoc.
  - by rewrite <- app_assoc.
Qed.

(** The common last step: the value read is wrapped and returned. *)
Lemma reads_map {E A B} (m : M Reader E A) (f : A → B) a x :
  reads m a x → reads (let! s := m in ret (f s)) a (f x).
Proof.
  intros Hm. rewrite <- (app_nil_r a). eapply reads_bind; [done|]. apply reads_ret.
Qed.

Lemma reads_val {E A} (m : M Reader E A) a x y : reads m a x → x = y → reads m a y.
Proof. by intros ? <-. Qed.

Lemma reads_take_le {B} n (f : bytes → B) z y :
  f (le_bytes n z) = y →
  reads (let! s := rd_take (Z.of_nat n) in ret (f s)) (le_bytes n z) y.
Proof.
  intros <-. apply (reads_map _ f), reads_take, zlen_le_bytes.
Qed.

Lemma reads_take_u8 z : in_u 8 z → reads take_u8 [z] z.
Proof.
  intros Hz. unfold take_u8. rewrite <- (app_nil_r [z]).
  eapply reads_bind; [by apply reads_take|]. apply reads_ret.
Qed.

Lemma reads_take_u16 z : in_u 16 z → reads take_u16 (le_bytes 2 z) z.
Proof. intros Hz. apply (reads_take_le 2 le_val). by apply le_val_bytes_small. Qed.
Lemma reads_take_u32 z : in_u 32 z → reads take_u32 (le_bytes 4 z) z.
Proof. intros Hz. apply (reads_take_le 4 le_val). by apply le_val_bytes_small. Qed.
Lemma reads_take_u64 z : in_u 64 z → reads take_u64 (le_bytes 8 z) z.
Proof. intros Hz. apply (reads_take_le 8 le_val). by apply le_val_bytes_small. Qed.

Lemma reads_last {A B} (m : R A) (k : A → R B) a x y :
  reads m a x → reads (k x) [] y → reads (bind m k) a y.
Proof. intros Hm Hk. rewrite <- (app_nil_r a). by eapply reads_bind. Qed.

Create HintDb reads discriminated.
#[export] Hint Resolve reads_ret reads_take_u8 reads_take_u16 reads_take_u32
  reads_take_u64 : reads.

(** Walks a [let!] chain whose reads are in the database. *)
Ltac reads_solve :=
  first
    [ apply reads_ret
    | eapply reads_last; [solve [auto with reads]|]; reads_solve
    | eapply reads_bind; [solve [auto with reads]|]; reads_solve ].

(** The control byte splits back into its tag form and its element type. *)
Lemma control_split t ty :
  0 ≤ ty < 32 →
  Z.land (Z.lor (tag_control t) ty) 0xE0 = tag_control t ∧
  Z.land (Z.lor (tag_control t) ty) 0x1F = ty ∧
  in_u 8 (Z.lor (tag_control t) ty).
Proof.
  intros Hty.
  assert (H : forallb (λ c, forallb (λ ty,
    (Z.land (Z.lor c ty) 0xE0 =? c) && (Z.land (Z.lor c ty) 0x1F =? ty) &&
    in_ub 8 (Z.lor c ty)) (seqZ 0 32))
    [0x00; 0x20; 0x40; 0x60; 0x80; 0xA0; 0xC0; 0xE0] = true) by reflexivity.
  rewrite forallb_forall in H. specialize (H (tag_control t)).
  rewrite forallb_forall in H.
  specialize (H ltac:(destruct t; cbn; tauto) ty).
  assert (Hin : In ty (seqZ 0 32)).
  { apply list_elem_of_In, elem_of_seqZ. lia. }
  specialize (H Hin). rewrite !andb_true_iff, in_ub_spec, !Z.eqb_eq in H. tauto.
Qed.

Lemma type_of_range v : 0 ≤ type_of v < 32.
Proof.
  destruct v as [v|v|[]| | |s|s| | | | |]; cbn; try lia;
    unfold int_class, uint_class, len_class; repeat case_match; lia.
Qed.

Lemma reads_tag t ty :
  wf_tag t → 0 ≤ ty < 32 →
  reads (read_tag (Z.lor (tag_control t) ty)) (tag_bytes t) t.
Proof.
  intros Ht Hty. unfold read_tag.
  rewrite (proj1 (control_split t ty Hty)).
  destruct t; cbn [tag_control tag_bytes wf_tag] in *; cbn -[le_bytes bind];
    destruct_and?; reads_solve.
Qed.

Lemma len_class_spec n :
  in_u 64 n → (len_class n ≤ 3)%nat ∧ in_u (class_bits (len_class n)) n.
Proof.
  unfold len_class, class_bits, in_ub, in_u. repeat case_match; cbn; lia.
Qed.

Lemma uint_class_spec n :
  in_u 64 n → (uint_class n ≤ 3)%nat ∧ in_u (class_bits (uint_class n)) n.
Proof.
  unfold uint_class, class_bits, in_u. repeat case_match; cbn; lia.
Qed.

Lemma int_class_spec n :
  in_i 64 n → (int_class n ≤ 3)%nat ∧ in_i (class_bits (int_class n)) n.
Proof.
  unfold int_class, fits_i, in_i, class_bits. repeat case_match; cbn; lia.
Qed.

(** One byte of a value that fits in it. *)
Lemma reads_take_le1 z : in_u 8 z → reads take_u8 (le_bytes 1 z) z.
Proof. intros Hz. cbn [le_bytes]. rewrite Z.mod_small by done. by apply reads_take_u8. Qed.
#[export] Hint Resolve reads_take_le1 : reads.

Lemma reads_len n :
  in_u 64 n →
  reads (read_len (Z.of_nat (len_class n))) (le_bytes (class_width (len_class n)) n) n.
Proof.
  intros Hn. unfold read_len. apply reads_last with (x := n).
  - destruct (len_class_spec n Hn) as [Hc Hw].
    destruct (len_class n) as [|[|[|[|]]]]; cbn -[le_bytes] in Hw |- *;
      (lia || auto with reads).
  - assert (try_u 64 n = Some n) as -> by (by apply try_u_Some). apply reads_ret.
Qed.

Lemma reads_int v :
  in_i 64 v → reads (read_value (Z.of_nat (int_class v))) (body_of (VInt v)) (VInt v).
Proof.
  intros Hv. destruct (int_class_spec v Hv) as [Hc Hf]. cbn [body_of].
  destruct (int_class v) as [|[|[|[|]]]]; cbn [class_width class_bits] in *; [..|lia].
  - eapply reads_val.
    + apply (reads_map _ (λ b, VInt (as_signed 8 b))), reads_take_u8, wrap_in_u. lia.
    + f_equal. rewrite <- (as_signed_le_val 1 v ltac:(done) Hf) at 2.
      cbn [le_bytes le_val]. by rewrite Z.add_0_r.
  - apply (reads_take_le 2 (λ s, VInt (as_signed 16 (le_val s)))). f_equal.
    by apply (as_signed_le_val 2).
  - apply (reads_take_le 4 (λ s, VInt (as_signed 32 (le_val s)))). f_equal.
    by apply (as_signed_le_val 4).
  - apply (reads_take_le 8 (λ s, VInt (as_signed 64 (le_val s)))). f_equal.
    by apply (as_signed_le_val 8).
Qed.

Lemma reads_uint v :
  in_u 64 v → reads (read_value (0x04 + Z.of_nat (uint_class v))) (body_of (VUint v)) (VUint v).
Proof.
  intros Hv. destruct (uint_class_spec v Hv) as [Hc Hw]. cbn [body_of].
  destruct (uint_class v) as [|[|[|[|]]]]; cbn [class_width class_bits] in *; [..|lia];
    apply (reads_map _ VUint); auto with reads.
Qed.

(** Strings and byte strings share the length prefix. *)
Lemma reads_prefixed {B} (k : bytes → R B) s y :
  zlen s < 2 ^ 63 → reads (k s) [] y →
  reads (let! len := read_len (Z.of_nat (len_class (zlen s))) in
         let! b := rd_take len in k b)
    (le_bytes (class_width (len_class (zlen s))) (zlen s) ++ s) y.
Proof.
  intros Hs Hk. pose proof (zlen_nonneg s).
  eapply reads_bind; [apply reads_len; unfold in_u; lia|].
  rewrite <- (app_nil_r s) at 2. eapply reads_bind; [by apply reads_take|done].
Qed.

Lemma len_class_le n : (len_class n ≤ 3)%nat.
Proof. unfold len_class. repeat case_match; lia. Qed.

Lemma reads_value v : wf_value v → reads (read_value (type_of v)) (body_of v) v.
Proof.
  intros Hv. destruct v as [v|v|[]|v|v|s|s| | | | |]; try apply reads_ret.
  - by apply reads_int.
  - by apply reads_uint.
  - apply (reads_take_le 4 (λ s, VF32 (le_val s))). f_equal. by apply le_val_bytes_small.
  - apply (reads_take_le 8 (λ s, VF64 (le_val s))). f_equal. by apply le_val_bytes_small.
  - destruct Hv as (_ & Hs & Hu).
    assert (Hr : reads (if from_utf8 s then ret (VUtf8 s) else throw InvalidUtf8) [] (VUtf8 s)).
    { rewrite Hu. apply reads_ret. }
    pose proof (reads_prefixed (λ b, if from_utf8 b then ret (VUtf8 b) else throw InvalidUtf8)
      s _ Hs Hr) as H.
    unfold type_of, body_of. pose proof (len_class_le (zlen s)) as Hc.
    destruct (len_class (zlen s)) as [|[|[|[|]]]]; [exact H..|lia].
  - destruct Hv as (_ & Hs).
    pose proof (reads_prefixed (λ b, ret (VBytes b)) s _ Hs (reads_ret _)) as H.
    unfold type_of, body_of. pose proof (len_class_le (zlen s)) as Hc.
    destruct (len_class (zlen s)) as [|[|[|[|]]]]; [exact H..|lia].
Qed.

Lemma reads_next t v :
  wf_tag t → wf_value v →
  reads next (enc_elem t v) (Some {| el_tag := t; el_value := v |}).
Proof.
  intros Ht Hv pre tl Hs. pose proof (type_of_range v) as Hty.
  destruct (control_split t (type_of v) Hty) as (_ & Hlo & H8).
  unfold next, bind at 1, get.
  assert (Hlt : zlen (rd_buf (reader_at pre (enc_elem t v ++ tl))) <=?
    rd_pos (reader_at pre (enc_elem t v ++ tl)) = false).
  { cbn [rd_buf rd_pos reader_at]. unfold enc_elem. cbn [app]. autorewrite with mat.
    apply Z.leb_gt. pose proof (zlen_nonneg (tag_bytes t)).
    pose proof (zlen_nonneg (body_of v)). pose proof (zlen_nonneg tl). lia. }
  rewrite Hlt. revert pre tl Hs Hlt. 
  assert (Hall : reads (let! control := take_u8 in
    let! tag := read_tag control in
    let! value := read_value (Z.land control 0x1F) in
    ret (Some {| el_tag := tag; el_value := value |})) (enc_elem t v)
    (Some {| el_tag := t; el_value := v |})).
  { unfold enc_elem. change (?c :: ?l) with ([c] ++ l).
    eapply reads_bind; [by apply reads_take_u8|].
    eapply reads_bind; [by apply reads_tag|].
    rewrite Hlo.
    apply (reads_map _ (λ value, Some {| el_tag := t; el_value := value |})).
    by apply reads_value. }
  intros pre tl Hs _. by apply Hall.
Qed.

(** ** Whole elements *)

Lemma tree_ind' (P : tree → Prop) :
  (∀ tag v, P (Leaf tag v)) →
  (∀ tag k ch, Forall P ch → P (Node tag k ch)) →
  ∀ t, P t.
Proof.
  intros Hl Hn. fix IH 1. intros [tag v|tag k ch]; [apply Hl|].
  apply Hn. induction ch as [|t ch IHch]; constructor; [apply IH|apply IHch].
Qed.

Definition root_tag (t : tree) : Tag := match t with Leaf tag _ | Node tag _ _ => tag end.
Definition root_value (t : tree) : Value :=
  match t with Leaf _ v => v | Node _ k _ => start_of k end.
(** The bytes of a sequence of children with the closing end-of-container. *)
Definition enc_children (ch : list tree) : bytes := concat (map enc_tree ch) ++ [0x18].
(** The bytes after the first element of a tree. *)
Definition inner (t : tree) : bytes :=
  match t with Leaf _ _ => [] | Node _ _ ch => enc_children ch end.
(** Number of elements [next] yields for a tree. *)
Fixpoint tsize (t : tree) : nat :=
  match t with Leaf _ _ => 1 | Node _ _ ch => S (S (list_sum (map tsize ch))) end.

Lemma enc_tree_split t : enc_tree t = enc_elem (root_tag t) (root_value t) ++ inner t.
Proof. destruct t; [by rewrite app_nil_r|done]. Qed.

Lemma enc_tree_retag tag t : enc_tree (retag tag t) = enc_elem tag (root_value t) ++ inner t.
Proof. destruct t; [by rewrite app_nil_r|done]. Qed.

Lemma wf_children tag k ch : wf_tree (Node tag k ch) ↔ wf_tag tag ∧ Forall wf_tree ch.
Proof.
  cbn. split; intros [H1 H2]; (split; [done|]).
  - induction ch as [|t ch IH]; constructor; [apply H2|apply IH, H2].
  - induction H2; cbn; auto.
Qed.

Lemma tsize_pos t : (1 ≤ tsize t)%nat.
Proof. destruct t; cbn; lia. Qed.

Lemma tsize_length t : (tsize t ≤ S (length (inner t)))%nat ∧ (tsize t ≤ length (enc_tree t))%nat.
Proof.
  induction t as [tag v|tag k ch IH] using tree_ind'; [cbn; lia|].
  assert (list_sum (map tsize ch) ≤ length (concat (map enc_tree ch)))%nat.
  { induction IH as [|t ch [_ Ht] _ IHch]; [cbn; lia|].
    cbn [map concat]. rewrite length_app. unfold list_sum in *. cbn [foldr]. lia. }
  change (tsize (Node tag k ch)) with (S (S (list_sum (map tsize ch)))).
  rewrite enc_tree_split. cbn [inner root_tag root_value]. unfold enc_children, enc_elem.
  rewrite !length_app. cbn [length]. rewrite !length_app. lia.
Qed.

Lemma wf_root t : wf_tree t → wf_tag (root_tag t) ∧ wf_value (root_value t) ∧
  root_value t ≠ VContainerEnd.
Proof.
  destruct t as [tag v|tag k ch].
  - intros (? & ? & Hs). split_and!; [done..|]. intros E. cbn in E. by subst.
  - intros [? _]. cbn. destruct k; done.
Qed.

Lemma reads_root t : wf_tree t →
  reads next (enc_elem (root_tag t) (root_value t))
    (Some {| el_tag := root_tag t; el_value := root_value t |}).
Proof. intros (? & ? & _)%wf_root. by apply reads_next. Qed.

Lemma reads_end : reads next [0x18] (Some {| el_tag := Anonymous; el_value := VContainerEnd |}).
Proof. by apply (reads_next Anonymous VContainerEnd). Qed.

(** A loop step that consumes the known prefix [a]. *)
Lemma bind_next {B} (k : Element → R B) a el pre tl :
  reads next a (Some el) → small (pre ++ a ++ tl) →
  bind next_or_truncated k (reader_at pre (a ++ tl)) = k el (reader_at (pre ++ a) tl).
Proof. intros Ha Hs. unfold bind, next_or_truncated, bind. by rewrite (Ha _ _ Hs). Qed.

Lemma remaining_at pre bs : remaining (reader_at pre bs) = length bs.
Proof. unfold remaining, reader_at. cbn. rewrite zlen_app. unfold zlen. lia. Qed.

Lemma enc_children_cons t ch : enc_children (t :: ch) = enc_tree t ++ enc_children ch.
Proof. unfold enc_children. cbn [map concat]. by rewrite <- app_assoc. Qed.

Definition skips (t : tree) : Prop := ∀ fuel d pre tl,
  small (pre ++ enc_tree t ++ tl) →
  skip_loop (tsize t + fuel) (S d) (reader_at pre (enc_tree t ++ tl)) =
  skip_loop fuel (S d) (reader_at (pre ++ enc_tree t) tl).

Lemma skip_children ch fuel d pre tl :
  Forall skips ch → small (pre ++ enc_children ch ++ tl) →
  skip_loop (S (list_sum (map tsize ch)) + fuel) (S d) (reader_at pre (enc_children ch ++ tl)) =
  skip_loop fuel d (reader_at (pre ++ enc_children ch) tl).
Proof.
  intros Hch. revert fuel pre.
  induction Hch as [|t ch Ht Hch IH]; intros fuel pre Hs.
  - change (enc_children []) with [0x18] in *. cbn [map list_sum foldr Nat.add skip_loop].
    by erewrite bind_next by (exact Hs || apply reads_end).
  - rewrite enc_children_cons in *. rewrite <- !app_assoc in *.
    change (list_sum (map tsize (t :: ch))) with (tsize t + list_sum (map tsize ch))%nat.
    replace (S (tsize t + list_sum (map tsize ch)) + fuel)%nat
      with (tsize t + (S (list_sum (map tsize ch)) + fuel))%nat by lia.
    rewrite Ht by done. rewrite IH; [by rewrite <- !app_assoc|]. by rewrite <- !app_assoc.
Qed.

Lemma skip_tree t : wf_tree t → skips t.
Proof.
  induction t as [tag v|tag k ch IH] using tree_ind'; intros Hwf fuel d pre tl Hs;
    pose proof (reads_root _ Hwf) as Hr.
  - cbn [tsize Nat.add skip_loop enc_tree] in *.
    erewrite bind_next by done. destruct Hwf as (_ & _ & Hv). cbn. destruct v; done.
  - apply wf_children in Hwf as [_ Hch].
    change (enc_tree (Node tag k ch)) with (enc_elem tag (start_of k) ++ enc_children ch) in *.
    rewrite <- app_assoc in Hs |- *. rewrite (app_assoc pre).
    cbn [tsize Nat.add skip_loop]. erewrite bind_next by done.
    assert (Hs' : small ((pre ++ enc_elem tag (start_of k)) ++ enc_children ch ++ tl)).
    { by rewrite <- app_assoc. }
    assert (Hall : Forall skips ch) by exact (Forall_mp _ _ _ Hch IH).
    destruct k; cbn [el_value root_value start_of]; by apply skip_children.
Qed.

(** After a container start, [skip_container] consumes exactly the children
    and the end-of-container. *)
Lemma skip_container_at pre ch tl :
  Forall wf_tree ch → small (pre ++ enc_children ch ++ tl) →
  skip_container (reader_at pre (enc_children ch ++ tl)) =
  (reader_at (pre ++ enc_children ch) tl, Ok ()).
Proof.
  intros Hch Hs. unfold skip_container, bind, get. rewrite remaining_at.
  pose proof (tsize_length (Node Anonymous KStruct ch)) as [Hl _].
  change (tsize _) with (S (S (list_sum (map tsize ch)))) in Hl. cbn [inner] in Hl.
  rewrite length_app.
  replace (S (length (enc_children ch) + length tl)) with
    (S (list_sum (map tsize ch)) + (length (enc_children ch) + length tl -
      list_sum (map tsize ch)))%nat by lia.
  rewrite skip_children; [by destruct (_ - _)%nat| |done].
  eauto using Forall_impl, skip_tree.
Qed.

(** ** Copying *)

Definition copies (t : tree) : Prop := ∀ fuel tag w pre tl,
  (tsize t ≤ fuel)%nat → small (pre ++ inner t ++ tl) →
  copy_value_with (copy_container_loop fuel) tag (root_value t)
    (w, reader_at pre (inner t ++ tl)) =
  ((wapp w (enc_tree (retag tag t)), reader_at (pre ++ inner t) tl), Ok ()).

Lemma bind_on_reader {B} (k : Element → M (Writer * Reader) TlvError B) w a el pre tl :
  reads next a (Some el) → small (pre ++ a ++ tl) →
  bind (on_reader next_or_truncated) k (w, reader_at pre (a ++ tl)) =
  k el (w, reader_at (pre ++ a) tl).
Proof.
  intros Ha Hs. unfold bind, on_reader, next_or_truncated, bind. by rewrite (Ha _ _ Hs).
Qed.

Lemma wapp_wapp w a b : wapp (wapp w a) b = wapp w (a ++ b).
Proof. unfold wapp. cbn. by rewrite app_assoc. Qed.

Lemma copy_children ch fuel buf d pre tl :
  Forall wf_tree ch → Forall copies ch → small (pre ++ enc_children ch ++ tl) →
  (S (list_sum (map tsize ch)) ≤ fuel)%nat →
  copy_container_loop fuel ({| w_buf := buf; w_depth := S d |}, reader_at pre (enc_children ch ++ tl)) =
  (({| w_buf := buf ++ enc_children ch; w_depth := d |}, reader_at (pre ++ enc_children ch) tl), Ok ()).
Proof.
  intros Hwf Hch. revert fuel buf pre.
  induction Hch as [|t ch Ht Hch IH]; intros fuel buf pre Hs Hf;
    (destruct fuel as [|fuel]; [lia|]); cbn [copy_container_loop].
  - change (enc_children []) with [0x18] in *.
    by erewrite bind_on_reader by (exact Hs || apply reads_end).
  - apply Forall_cons_1 in Hwf as [Hwt Hwf].
    rewrite enc_children_cons, enc_tree_split in *. rewrite <- !app_assoc in *.
    change (list_sum (map tsize (t :: ch))) with (tsize t + list_sum (map tsize ch))%nat in Hf.
    pose proof (tsize_pos t).
    erewrite bind_on_reader by (exact Hs || by apply reads_root). cbn [el_value el_tag].
    rewrite decide_False by (by apply wf_root).
    rewrite (app_assoc pre) in Hs.
    unfold bind. rewrite (Ht fuel) by (done || lia).
    unfold wapp. cbn [w_depth w_buf]. rewrite IH by (done || lia || by rewrite <- app_assoc).
    rewrite enc_tree_retag. by rewrite <- !app_assoc.
Qed.

Lemma copy_tree t : wf_tree t → copies t.
Proof.
  induction t as [tag v|tag k ch IH] using tree_ind'; intros Hwf fuel tag' w pre tl Hf Hs.
  - destruct Hwf as (_ & _ & Hv). cbn [root_value inner app retag enc_tree].
    rewrite writes_scalar by done. by rewrite app_nil_r.
  - apply wf_children in Hwf as [_ Hch]. cbn [root_value inner retag] in *.
    change (tsize (Node tag k ch)) with (S (S (list_sum (map tsize ch)))) in Hf.
    change (enc_tree (Node tag' k ch)) with (enc_elem tag' (start_of k) ++ enc_children ch).
    assert (Hall : Forall copies ch) by exact (Forall_mp _ _ _ Hch IH).
    pose proof (start_node (E:=TlvError) k tag' w) as Hstart.
    destruct k; cbn [copy_value_with start_of] in *; unfold bind, on_writer;
      rewrite Hstart, copy_children by (done || lia); unfold wapp; by rewrite <- app_assoc.
Qed.

Lemma copy_value_with_ext k1 k2 tag v w r :
  (∀ w', k1 (w', r) = k2 (w', r)) →
  copy_value_with k1 tag v (w, r) = copy_value_with k2 tag v (w, r).
Proof.
  intros Hk. destruct v; try done; cbn [copy_value_with]; unfold bind, on_writer.
  - destruct (start_struct tag w) as [w' [| | |]]; auto.
  - destruct (start_array tag w) as [w' [| | |]]; auto.
  - destruct (start_list tag w) as [w' [| | |]]; auto.
Qed.

Lemma copy_value_at t tag w pre tl :
  wf_tree t → small (pre ++ inner t ++ tl) →
  copy_value tag (root_value t) (w, reader_at pre (inner t ++ tl)) =
  ((wapp w (enc_tree (retag tag t)), reader_at (pre ++ inner t) tl), Ok ()).
Proof.
  intros Hwf Hs. rewrite <- (copy_tree t Hwf (S (remaining (reader_at pre (inner t ++ tl))))).
  - unfold copy_value. by apply copy_value_with_ext.
  - rewrite remaining_at, length_app. pose proof (tsize_length t). lia.
  - done.
Qed.

(** ** Arbitrary input

    What holds when the bytes come from the network. *)

Definition rd_ok (r : Reader) : Prop :=
  0 ≤ rd_pos r ≤ zlen (rd_buf r) ∧ small (rd_buf r) ∧ bytes_ok (rd_buf r).

Definition moves (r r' : Reader) : Prop :=
  rd_buf r' = rd_buf r ∧ rd_pos r ≤ rd_pos r' ≤ zlen (rd_buf r).

(** [safe m Q]: on any reader, [m] returns, stays inside the buffer, never
    moves back, and a returned value satisfies [Q]. *)
Definition safe {E A} (m : M Reader E A) (Q : A → Prop) : Prop :=
  ∀ r, rd_ok r → wp m (λ a r', moves r r' ∧ Q a) (λ _ r', moves r r') r.


Lemma moves_refl r : rd_ok r → moves r r.
Proof. unfold rd_ok, moves. intuition lia. Qed.

Lemma moves_trans r1 r2 r3 : moves r1 r2 → moves r2 r3 → moves r1 r3.
Proof. unfold moves. intros [-> ?] [-> ?]. intuition lia. Qed.

Lemma moves_ok r r' : rd_ok r → moves r r' → rd_ok r'.
Proof. unfold rd_ok, moves. intros (? & ? & ?) [-> ?]. intuition lia. Qed.

Lemma safe_ret {E A} (a : A) (Q : A → Prop) : Q a → safe (E:=E) (ret a) Q.
Proof. intros HQ r Hr. split; [by apply moves_refl|done]. Qed.

Lemma safe_throw {E A} (e : E) (Q : A → Prop) : safe (throw e) Q.
Proof. intros r Hr. by apply moves_refl. Qed.

Lemma safe_bind {E A B} (m : M Reader E A) (k : A → M Reader E B) P Q :
  safe m P → (∀ a, P a → safe (k a) Q) → safe (bind m k) Q.
Proof.
  intros Hm Hk r Hr. apply wp_bind. eapply wp_mono; [by apply Hm| |auto].
  intros a r' [Hmv HP]. eapply wp_mono; [apply Hk; eauto using moves_ok|..];
    cbn; intros; destruct_and?; eauto using moves_trans.
Qed.

Lemma safe_mono {E A} (m : M Reader E A) (P Q : A → Prop) :
  safe m P → (∀ a, P a → Q a) → safe m Q.
Proof. intros Hm HPQ r Hr. eapply wp_mono; [by apply Hm|..]; cbn; naive_solver. Qed.

Lemma bytes_ok_zslice a b l : bytes_ok l → bytes_ok (zslice a b l).
Proof. intros. unfold zslice. by apply Forall_take, Forall_drop. Qed.

(** [take] moves by exactly the bytes it returns. *)
Lemma rd_take_wp n r :
  rd_ok r → 0 ≤ n →
  wp (rd_take n) (λ s r', moves r r' ∧ rd_pos r' = rd_pos r + n ∧ zlen s = n ∧ bytes_ok s)
    (λ _ r', r' = r) r.
Proof.
  intros (Hp & Hs & Hb) Hn. unfold rd_take, wp, bind, get, modify, ret, throw. cbn.
  repeat case_match; simplify_eq; [done..|]. unfold moves; cbn.
  split_and!; try lia; [done|rewrite zlen_zslice; lia|by apply bytes_ok_zslice].
Qed.

Lemma safe_take n : 0 ≤ n → safe (rd_take n) (λ s, zlen s = n ∧ bytes_ok s).
Proof.
  intros Hn r Hr. eapply wp_mono; [by apply rd_take_wp|..]; cbn.
  - naive_solver.
  - intros _ ? ->. by apply moves_refl.
Qed.

Lemma safe_take_u8 : safe take_u8 is_byte.
Proof.
  eapply safe_bind; [by apply safe_take|]. intros [|b s] [Hs Hb]; [done|].
  apply safe_ret. by inversion Hb.
Qed.

Lemma safe_take_bits n w : Z.of_nat n * 8 = w →
  safe (rd_take (Z.of_nat n)) (λ s, in_u w (le_val s)).
Proof.
  intros <-. eapply safe_mono; [apply safe_take; lia|]. intros s [Hs Hb].
  pose proof (le_val_bound s Hb) as H. rewrite Hs in H.
  unfold in_u. rewrite Z.mul_comm, Z.pow_mul_r by lia. exact H.
Qed.

Lemma safe_take_le n w : Z.of_nat n * 8 = w →
  safe (let! s := rd_take (Z.of_nat n) in ret (le_val s)) (in_u w).
Proof.
  intros Hw. eapply safe_bind; [by apply (safe_take_bits _ w)|]. intros s Hs.
  by apply safe_ret.
Qed.

Lemma safe_take_u16 : safe take_u16 (in_u 16).
Proof. by apply (safe_take_le 2). Qed.
Lemma safe_take_u32 : safe take_u32 (in_u 32).
Proof. by apply (safe_take_le 4). Qed.
Lemma safe_take_u64 : safe take_u64 (in_u 64).
Proof. by apply (safe_take_le 8). Qed.

Create HintDb safe discriminated.
#[export] Hint Resolve safe_take_u8 safe_take_u16 safe_take_u32 safe_take_u64
  safe_throw : safe.

Lemma as_signed_in w v : 0 < w → in_u w v → in_i w (as_signed w v).
Proof.
  intros Hw Hv. unfold as_signed, in_i, in_u in *.
  assert (2 ^ w = 2 * 2 ^ (w - 1)).
  { rewrite <- Z.pow_succ_r by lia. f_equal. lia. }
  destruct (Z.ltb_spec v (2 ^ (w - 1))); lia.
Qed.

Lemma in_u_mono w w' v : 0 ≤ w ≤ w' → in_u w v → in_u w' v.
Proof.
  intros Hw. unfold in_u. pose proof (Z.pow_le_mono_r 2 w w'). lia.
Qed.

Lemma in_i_mono w w' v : 0 < w ≤ w' → in_i w v → in_i w' v.
Proof.
  intros Hw. unfold in_i. pose proof (Z.pow_le_mono_r 2 (w - 1) (w' - 1)). lia.
Qed.

(** One step of a reader: bind on a call the hint database knows. *)
Ltac safe_step :=
  first [ apply safe_throw
        | eapply safe_bind; [solve [eauto with safe]|intros ? ?] ].

(** The tag control bits select one of the eight forms. *)
Lemma tag_bits c : Z.land c 0xE0 ∈ [0;32;64;96;128;160;192;224].
Proof.
  change 0xE0 with (Z.shiftl 7 5).
  replace (Z.land c (Z.shiftl 7 5)) with (Z.shiftl (Z.land (Z.shiftr c 5) 7) 5).
  2:{ apply Z.bits_inj'. intros n Hn. rewrite Z.land_spec, !Z.shiftl_spec by done.
      destruct (decide (n < 5)).
      - rewrite !(Z.testbit_neg_r _ (n - 5)), andb_false_r by lia. done.
      - rewrite Z.land_spec, Z.shiftr_spec by lia. do 2 f_equal. lia. }
  change 7 with (Z.ones 3). rewrite Z.land_ones by done.
  pose proof (Z.mod_pos_bound (Z.shiftr c 5) (2 ^ 3) ltac:(lia)) as Hb.
  set (m := Z.shiftr c 5 mod 2 ^ 3) in *. clearbody m.
  assert (m = 0 ∨ m = 1 ∨ m = 2 ∨ m = 3 ∨ m = 4 ∨ m = 5 ∨ m = 6 ∨ m = 7) by lia.
  destruct_or!; subst m; apply (bool_decide_unpack _); vm_compute; exact I.
Qed.

Lemma safe_read_tag c : safe (read_tag c) wf_tag.
Proof.
  unfold read_tag. pose proof (tag_bits c) as Hc.
  set (k := Z.land c 0xE0) in *. clearbody k.
  repeat (apply elem_of_cons in Hc as [->|Hc]; [cbn -[safe] |]).
  all: try by apply elem_of_nil in Hc.
  all: repeat safe_step; by apply safe_ret.
Qed.
#[export] Hint Resolve safe_read_tag : safe.

Lemma safe_read_len k : safe (read_len k) (in_u 64).
Proof.
  unfold read_len. eapply safe_bind.
  - instantiate (1 := in_u 64).
    repeat case_match; (eapply safe_mono; [solve [eauto with safe]|]);
      intros a Ha; unfold is_byte, in_u in *; lia.
  - intros a Ha. destruct (try_u 64 a) eqn:Hu.
    + apply try_u_Some in Hu as [-> ?]. by apply safe_ret.
    + apply safe_throw.
Qed.
#[export] Hint Resolve safe_read_len : safe.

(** What [next] decodes is a value of the Rust type. *)
Lemma safe_signed n w : (n ≠ 0)%nat → Z.of_nat n * 8 = w → w ≤ 64 →
  safe (let! s := rd_take (Z.of_nat n) in ret (VInt (as_signed w (le_val s)))) wf_value.
Proof.
  intros Hn Hw Hle. eapply safe_bind; [by apply (safe_take_bits _ w)|].
  intros s Hs. apply safe_ret, (in_i_mono w); [lia|]. apply as_signed_in; [lia|done].
Qed.

Lemma safe_unsigned (m : R Z) w : 0 ≤ w ≤ 64 → safe m (in_u w) →
  safe (let! v := m in ret (VUint v)) wf_value.
Proof.
  intros Hw Hm. eapply safe_bind; [exact Hm|]. intros v Hv. apply safe_ret.
  by eapply in_u_mono.
Qed.

Lemma safe_prefixed k (f : bytes → R Value) :
  (∀ b, bytes_ok b → zlen b < 2 ^ 63 → safe (f b) wf_value) →
  safe (let! len := read_len k in let! b := rd_take len in f b) wf_value.
Proof.
  intros Hf. eapply safe_bind; [apply safe_read_len|]. intros n Hn r Hr.
  apply wp_bind. eapply wp_mono; [apply rd_take_wp; [done|unfold in_u in Hn; lia]|..]; cbn.
  - intros b r' (Hm & Hp & Hl & Hb). pose proof (moves_ok _ _ Hr Hm) as (Hr1 & Hr2 & Hr3).
    eapply wp_mono; [apply Hf; [done| |by eapply moves_ok]|..].
    + destruct Hr as (? & Hs & _). destruct Hm as [Hm1 ?]. unfold small in Hs. lia.
    + intros v r'' [??]. split; [by eapply moves_trans|done].
    + intros e r'' ?. by eapply moves_trans.
  - intros e r' ->. by apply moves_refl.
Qed.

Lemma safe_read_value t : safe (read_value t) wf_value.
Proof.
  unfold read_value. repeat case_match; try by apply safe_ret.
  - eapply safe_bind; [apply safe_take_u8|]. intros b Hb.
    apply safe_ret, (in_i_mono 8); [lia|]. by apply as_signed_in.
  - by apply (safe_signed 2 16).
  - by apply (safe_signed 4 32).
  - by apply (safe_signed 8 64).
  - by apply (safe_unsigned _ 8), safe_take_u8.
  - by apply (safe_unsigned _ 16), safe_take_u16.
  - by apply (safe_unsigned _ 32), safe_take_u32.
  - by apply (safe_unsigned _ 64), safe_take_u64.
  - eapply safe_bind; [by apply (safe_take_bits 4 32)|]. intros s Hs. by apply safe_ret.
  - eapply safe_bind; [by apply (safe_take_bits 8 64)|]. intros s Hs. by apply safe_ret.
  - apply safe_prefixed. intros b Hb Hl.
    destruct (from_utf8 b) eqn:Hf; [by apply safe_ret|apply safe_throw].
  - apply safe_prefixed. intros b Hb Hl. by apply safe_ret.
  - apply safe_throw.
Qed.
#[export] Hint Resolve safe_read_value : safe.

Definition wf_element (el : Element) : Prop :=
  wf_tag (el_tag el) ∧ wf_value (el_value el).

(** [next] on arbitrary bytes: it returns, a decoded element is a value of the
    Rust type and consumed at least the control octet, and [None] is the end
    of the buffer. *)
Lemma next_wp r :
  rd_ok r →
  wp next
    (λ o r', moves r r' ∧
       match o with
       | Some el => wf_element el ∧ rd_pos r < rd_pos r'
       | None => r' = r ∧ rd_pos r = zlen (rd_buf r)
       end)
    (λ _ r', moves r r') r.
Proof.
  intros Hr. unfold next. apply wp_bind. change (wp get ?Q ?P r) with (Q r r); cbn beta.
  case_match eqn:Hend.
  { apply wp_ret. split; [by apply moves_refl|]. destruct Hr. split; [done|lia]. }
  apply wp_bind.
  assert (Hu8 : wp take_u8 (λ b r', moves r r' ∧ rd_pos r < rd_pos r') (λ _ r', moves r r') r).
  { unfold take_u8. apply wp_bind. eapply wp_mono; [by apply rd_take_wp|..]; cbn.
    - intros [|b s] r' (?&?&?&?); [done|]. apply wp_ret. split; [done|lia].
    - intros _ r' ->. by apply moves_refl. }
  eapply wp_mono; [exact Hu8|..]; cbn; [|done]. intros c r1 [Hm1 Hp1].
  assert (Hs : safe (let! tag := read_tag c in
      let! value := read_value (Z.land c 31) in
      ret (Some {| el_tag := tag; el_value := value |}))
      (λ o, match o with Some el => wf_element el | None => False end)).
  { eapply safe_bind; [apply safe_read_tag|]. intros t Ht.
    eapply safe_bind; [apply safe_read_value|]. intros v Hv. by apply safe_ret. }
  eapply wp_mono; [apply Hs; by eapply moves_ok|..]; cbn.
  - intros [el|] r2 [Hm2 He]; [|done]. split; [by eapply moves_trans|].
    split; [done|]. destruct Hm2. lia.
  - intros e r2 Hm2. by eapply moves_trans.
Qed.

Lemma next_or_truncated_wp r :
  rd_ok r →
  wp next_or_truncated
    (λ el r', moves r r' ∧ wf_element el ∧ rd_pos r < rd_pos r') (λ _ r', moves r r') r.
Proof.
  intros Hr. unfold next_or_truncated. apply wp_bind.
  eapply wp_mono; [by apply next_wp|..]; cbn; [|done].
  intros [el|] r' [Hm He]; [|by apply wp_throw]. apply wp_ret. naive_solver.
Qed.

(** *** A decoded element re-encodes in no more bytes than it took *)

(** [eats m P]: a value [m] returns after consuming [n] bytes satisfies [P n]. *)
Definition eats {A} (m : R A) (P : Z → A → Prop) : Prop :=
  ∀ r, rd_ok r → wp m (λ a r', moves r r' ∧ P (rd_pos r' - rd_pos r) a) (λ _ _, True) r.

Lemma eats_ret {A} (a : A) (P : Z → A → Prop) : P 0 a → eats (ret a) P.
Proof. intros HP r Hr. split; [by apply moves_refl|]. by rewrite Z.sub_diag. Qed.

Lemma eats_bind {A B} (m : R A) (k : A → R B) P Q :
  eats m P → (∀ n a, P n a → eats (k a) (λ n' b, Q (n + n') b)) → eats (bind m k) Q.
Proof.
  intros Hm Hk r Hr. apply wp_bind. eapply wp_mono; [by apply Hm| |done]. cbn.
  intros a r1 [Hm1 HP]. eapply wp_mono; [apply (Hk _ _ HP); by eapply moves_ok| |done]. cbn.
  intros b r2 [Hm2 HQ]. split; [by eapply moves_trans|].
  by replace (rd_pos r2 - rd_pos r) with (rd_pos r1 - rd_pos r + (rd_pos r2 - rd_pos r1)) by lia.
Qed.

Lemma eats_mono {A} (m : R A) (P Q : Z → A → Prop) :
  eats m P → (∀ n a, P n a → Q n a) → eats m Q.
Proof. intros Hm HPQ r Hr. eapply wp_mono; [by apply Hm| |done]. cbn. naive_solver. Qed.

Lemma eats_throw {A} e (P : Z → A → Prop) : eats (throw e) P.
Proof. done. Qed.

Lemma eats_take n : 0 ≤ n → eats (rd_take n) (λ k s, k = n ∧ zlen s = n ∧ bytes_ok s).
Proof.
  intros Hn r Hr. eapply wp_mono; [by apply rd_take_wp| |done]. cbn.
  intros s r' (Hm & Hp & Hl & Hb). split_and!; [done|lia|done|done].
Qed.

Lemma eats_take_u8 : eats take_u8 (λ k b, k = 1 ∧ in_u 8 b).
Proof.
  eapply eats_bind; [by apply eats_take|]. intros n [|b s] (-> & Hs & Hb); [done|].
  apply eats_ret. split; [done|]. by inversion Hb.
Qed.

(** A fixed-width field of [n] bytes. *)
Lemma eats_le n {B} (f : bytes → B) (P : Z → B → Prop) :
  (∀ s, zlen s = Z.of_nat n → bytes_ok s → in_u (8 * Z.of_nat n) (le_val s) → P (Z.of_nat n) (f s)) →
  eats (let! s := rd_take (Z.of_nat n) in ret (f s)) P.
Proof.
  intros HP. eapply eats_bind; [apply eats_take; lia|]. intros k s (-> & Hs & Hb).
  apply eats_ret. rewrite Z.add_0_r. apply HP; [done|done|].
  pose proof (le_val_bound s Hb) as H. rewrite Hs in H. unfold in_u.
  by rewrite Z.pow_mul_r by lia.
Qed.

Lemma eats_take_u16 : eats take_u16 (λ k v, k = 2 ∧ in_u 16 v).
Proof. by apply (eats_le 2). Qed.
Lemma eats_take_u32 : eats take_u32 (λ k v, k = 4 ∧ in_u 32 v).
Proof. by apply (eats_le 4). Qed.
Lemma eats_take_u64 : eats take_u64 (λ k v, k = 8 ∧ in_u 64 v).
Proof. by apply (eats_le 8). Qed.

Create HintDb eats discriminated.
#[export] Hint Resolve eats_take_u8 eats_take_u16 eats_take_u32 eats_take_u64 : eats.

Lemma eats_read_tag c : eats (read_tag c) (λ k t, zlen (tag_bytes t) ≤ k).
Proof.
  unfold read_tag. pose proof (tag_bits c) as Hc.
  set (k := Z.land c 0xE0) in *. clearbody k.
  repeat (apply elem_of_cons in Hc as [->|Hc]; [cbn -[eats] |]).
  all: try by apply elem_of_nil in Hc.
  all: repeat (eapply eats_bind; [solve [eauto with eats]|intros ? ? [-> ?]]).
  all: apply eats_ret; cbn [tag_bytes]; rewrite ?zlen_app, ?zlen_cons, ?zlen_le_bytes, ?zlen_nil; lia.
Qed.

Lemma eats_read_len sel : 0 ≤ sel ≤ 3 →
  eats (read_len sel) (λ k n, k = 2 ^ sel ∧ in_u (8 * 2 ^ sel) n).
Proof.
  intros Hsel. unfold read_len. eapply eats_bind.
  - instantiate (1 := λ k n, k = 2 ^ sel ∧ in_u (8 * 2 ^ sel) n).
    assert (sel = 0 ∨ sel = 1 ∨ sel = 2 ∨ sel = 3) as Hc by lia.
    destruct_or! Hc; subst; cbn -[eats]; auto with eats.
  - intros k n [-> Hn]. destruct (try_u 64 n) as [m|] eqn:Hu; [|apply eats_throw].
    apply try_u_Some in Hu as [-> _]. apply eats_ret. by rewrite Z.add_0_r.
Qed.

(** The minimal width classes are at most the width read. *)
Lemma len_class_width sel n : 0 ≤ sel ≤ 3 → in_u (8 * 2 ^ sel) n →
  Z.of_nat (class_width (len_class n)) ≤ 2 ^ sel.
Proof.
  intros Hsel. assert (sel = 0 ∨ sel = 1 ∨ sel = 2 ∨ sel = 3) as Hc by lia.
  unfold len_class, class_width, in_ub, in_u.
  destruct_or! Hc; subst; cbn; intros Hn; repeat case_match; lia.
Qed.

Lemma uint_class_width sel n : 0 ≤ sel ≤ 3 → in_u (8 * 2 ^ sel) n →
  Z.of_nat (class_width (uint_class n)) ≤ 2 ^ sel.
Proof.
  intros Hsel. assert (sel = 0 ∨ sel = 1 ∨ sel = 2 ∨ sel = 3) as Hc by lia.
  unfold uint_class, class_width, in_u.
  destruct_or! Hc; subst; cbn; intros Hn; repeat case_match; lia.
Qed.

Lemma int_class_width sel n : 0 ≤ sel ≤ 3 → in_i (8 * 2 ^ sel) n →
  Z.of_nat (class_width (int_class n)) ≤ 2 ^ sel.
Proof.
  intros Hsel. assert (sel = 0 ∨ sel = 1 ∨ sel = 2 ∨ sel = 3) as Hc by lia.
  unfold int_class, fits_i, class_width, in_i.
  destruct_or! Hc; subst; cbn; intros Hn; repeat case_match; lia.
Qed.

Lemma eats_prefixed sel (f : bytes → R Value) :
  0 ≤ sel ≤ 3 → (∀ s, bytes_ok s → eats (f s) (λ k v, k = 0 ∧
    zlen (body_of v) = Z.of_nat (class_width (len_class (zlen s))) + zlen s)) →
  eats (let! len := read_len sel in let! b := rd_take len in f b) (λ k v, zlen (body_of v) ≤ k).
Proof.
  intros Hsel Hf. eapply eats_bind; [by apply eats_read_len|]. intros k n [-> Hn].
  eapply eats_bind; [apply eats_take; apply Hn|]. intros k s (-> & Hs & Hb).
  eapply eats_mono; [by apply Hf|]. cbn. intros k v [-> ->].
  rewrite Hs. pose proof (len_class_width sel n Hsel Hn). lia.
Qed.

Lemma eats_int sel : 0 ≤ sel ≤ 3 →
  eats (let! s := rd_take (2 ^ sel) in ret (VInt (as_signed (8 * 2 ^ sel) (le_val s))))
    (λ k v, zlen (body_of v) ≤ k).
Proof.
  intros Hsel. replace (2 ^ sel) with (Z.of_nat (Z.to_nat (2 ^ sel))) by lia.
  apply eats_le. rewrite !Z2Nat.id by lia. intros s Hs Hb Hu. cbn [body_of]. rewrite zlen_le_bytes.
  apply int_class_width; [done|]. apply as_signed_in; [lia|done].
Qed.

Lemma eats_uint sel (m : R Z) : 0 ≤ sel ≤ 3 →
  eats m (λ k v, k = 2 ^ sel ∧ in_u (8 * 2 ^ sel) v) →
  eats (let! v := m in ret (VUint v)) (λ k v, zlen (body_of v) ≤ k).
Proof.
  intros Hsel Hm. eapply eats_bind; [exact Hm|]. intros k v [-> Hv]. apply eats_ret.
  cbn [body_of]. rewrite zlen_le_bytes. pose proof (uint_class_width sel v Hsel Hv). lia.
Qed.

Lemma eats_read_value t : eats (read_value t) (λ k v, zlen (body_of v) ≤ k).
Proof.
  unfold read_value. repeat case_match; try (by apply eats_ret); try apply eats_throw.
  - eapply eats_bind; [apply eats_take_u8|]. intros k b [-> Hb]. apply eats_ret.
    cbn [body_of]. rewrite zlen_le_bytes. apply (int_class_width 0); [done|]. by apply as_signed_in.
  - by apply (eats_int 1).
  - by apply (eats_int 2).
  - by apply (eats_int 3).
  - by apply (eats_uint 0), eats_take_u8.
  - by apply (eats_uint 1), eats_take_u16.
  - by apply (eats_uint 2), eats_take_u32.
  - by apply (eats_uint 3), eats_take_u64.
  - by apply (eats_le 4).
  - by apply (eats_le 8).
  - apply eats_prefixed; [unfold between in *; lia|]. intros s Hs.
    destruct (from_utf8 s); [|apply eats_throw]. apply eats_ret. split; [done|].
    cbn [body_of]. by rewrite zlen_app, zlen_le_bytes.
  - apply eats_prefixed; [unfold between in *; lia|]. intros s Hs. apply eats_ret.
    split; [done|]. cbn [body_of]. by rewrite zlen_app, zlen_le_bytes.
Qed.

Lemma eats_next :
  eats next (λ k o, match o with
    | Some el => zlen (enc_elem (el_tag el) (el_value el)) ≤ k | None => True end).
Proof.
  intros r Hr. unfold next. apply wp_bind. unfold wp at 1, get.
  case_match; [split; [by apply moves_refl|done]|]. revert r Hr H.
  assert (eats (let! control := take_u8 in
      let! tag := read_tag control in
      let! value := read_value (Z.land control 31) in
      ret (Some {| el_tag := tag; el_value := value |}))
    (λ k o, match o with
    | Some el => zlen (enc_elem (el_tag el) (el_value el)) ≤ k | None => True end)) as H.
  { eapply eats_bind; [apply eats_take_u8|]. intros k c [-> _].
    eapply eats_bind; [apply eats_read_tag|]. intros k1 tag Htag.
    eapply eats_bind; [apply eats_read_value|]. intros k2 v Hv. apply eats_ret.
    unfold enc_elem; cbn [el_tag el_value]. cbn beta in *. rewrite zlen_cons, zlen_app. lia. }
  intros r Hr _. by apply H.
Qed.

Lemma next_or_truncated_eats r : rd_ok r →
  match next_or_truncated r with
  | (r', Ok el) => zlen (enc_elem (el_tag el) (el_value el)) ≤ rd_pos r' - rd_pos r
  | _ => True
  end.
Proof.
  intros Hr. pose proof (eats_next r Hr) as H. unfold wp, next_or_truncated, bind in *.
  destruct (next r) as [r' [[el|]|e| |]]; cbn; naive_solver.
Qed.

Lemma moves_remaining r r' : rd_ok r → moves r r' → rd_pos r < rd_pos r' →
  (remaining r' < remaining r)%nat.
Proof. intros (? & ?) [Hb ?] ?. unfold remaining. rewrite Hb. lia. Qed.

Lemma moves_remaining_le r r' : rd_ok r → moves r r' → (remaining r' ≤ remaining r)%nat.
Proof. intros (? & ?) [Hb ?]. unfold remaining. rewrite Hb. lia. Qed.

Lemma skip_loop_wp fuel depth r :
  rd_ok r → (remaining r < fuel)%nat →
  wp (skip_loop fuel depth) (λ _ r', moves r r') (λ _ r', moves r r') r.
Proof.
  revert depth r. induction fuel as [|fuel IH]; intros depth r Hr Hf; [lia|].
  destruct depth as [|d]; [by apply moves_refl|]. cbn [skip_loop]. apply wp_bind.
  eapply wp_mono; [by apply next_or_truncated_wp|..]; cbn; [|done].
  intros el r1 (Hm & _ & Hp).
  assert (∀ d', wp (skip_loop fuel d') (λ _ r', moves r r') (λ _ r', moves r r') r1).
  { intros d'. eapply wp_mono; [apply IH|..].
    - by eapply moves_ok.
    - pose proof (moves_remaining _ _ Hr Hm Hp). lia.
    - intros; by eapply moves_trans.
    - intros; by eapply moves_trans. }
  destruct (el_value el); auto.
Qed.

Lemma skip_container_wp r :
  rd_ok r → wp skip_container (λ _ r', moves r r') (λ _ r', moves r r') r.
Proof. intros Hr. apply (skip_loop_wp (S (remaining r))); [done|lia]. Qed.

(** What a copy of arbitrary input leaves behind: exactly one well-formed
    element per call, the depth as it was. *)
Definition copied_node (w : Writer) (r : Reader) (d : nat) (s : Writer * Reader) : Prop :=
  moves r s.2 ∧ ∃ ch, Forall wf_tree ch ∧
    s.1 = {| w_buf := w_buf w ++ enc_children ch; w_depth := d |} ∧
    zlen (enc_children ch) ≤ rd_pos s.2 - rd_pos r.

Definition copied (tag : Tag) (v : Value) (w : Writer) (r : Reader) (s : Writer * Reader) : Prop :=
  moves r s.2 ∧
  (v ≠ VContainerEnd → ∃ t, wf_tree t ∧ root_tag t = tag ∧ root_value t = v ∧
    s.1 = wapp w (enc_tree t) ∧ zlen (inner t) ≤ rd_pos s.2 - rd_pos r).

Lemma copy_value_with_wp k tag v w r :
  rd_ok r → wf_tag tag → wf_value v →
  (∀ w, w_depth w ≠ 0%nat →
    wp k (λ _, copied_node w r (pred (w_depth w))) (λ _ s, moves r s.2) (w, r)) →
  wp (copy_value_with k tag v) (λ _, copied tag v w r) (λ _ s, moves r s.2) (w, r).
Proof.
  intros Hr Ht Hv Hk.
  destruct (is_scalar v) eqn:Hsc.
  { unfold wp. rewrite writes_scalar by done. split; [by apply moves_refl|].
    intros _. exists (Leaf tag v). split_and!; try done. cbn [inner snd]. rewrite zlen_nil. lia. }
  assert (Hn : ∀ kd, v = start_of kd →
    wp (copy_value_with k tag v) (λ _, copied tag v w r) (λ _ s, moves r s.2) (w, r)).
  { intros kd ->. pose proof (start_node (E:=TlvError) kd tag w) as Hst.
    set (w1 := {| w_buf := w_buf w ++ enc_elem tag (start_of kd); w_depth := S (w_depth w) |}) in *.
    assert (wp k (λ _, copied tag (start_of kd) w r) (λ _ s, moves r s.2) (w1, r)) as Hwp.
    { eapply wp_mono; [by apply Hk| |done]. intros _ [w' r'] [Hm (ch & Hch & Hw & Hl)].
      split; [done|]. intros _. exists (Node tag kd ch). cbn in Hw.
      split_and!; [by apply wf_children|done|done| |done]. cbn [fst].
      rewrite Hw. unfold wapp. f_equal. by rewrite <- app_assoc. }
    destruct kd; cbn [copy_value_with start_of] in *; apply wp_bind;
      unfold wp at 1, on_writer; rewrite Hst; exact Hwp. }
  destruct v; try done; [by apply (Hn KStruct)|by apply (Hn KArray)|by apply (Hn KList)|].
  split; [by apply moves_refl|done].
Qed.

Lemma copy_loop_wp fuel w r :
  rd_ok r → (remaining r < fuel)%nat → w_depth w ≠ 0%nat →
  wp (copy_container_loop fuel) (λ _, copied_node w r (pred (w_depth w)))
    (λ _ s, moves r s.2) (w, r).
Proof.
  revert w r. induction fuel as [|fuel IH]; intros w r Hr Hf Hd; [lia|].
  cbn [copy_container_loop]. apply wp_bind.
  pose proof (next_or_truncated_wp r Hr) as Hn. pose proof (next_or_truncated_eats r Hr) as Hel.
  unfold wp, on_reader in *.
  destruct (next_or_truncated r) as [r1 [el|e| |]]; try done.
  destruct Hn as (Hm & [Ht Hv] & Hp). pose proof (moves_ok _ _ Hr Hm) as Hr1.
  pose proof (moves_remaining _ _ Hr Hm Hp).
  change (wp (if decide (el_value el = VContainerEnd) then on_writer end_container
    else copy_value_with (copy_container_loop fuel) (el_tag el) (el_value el) ;;!
        copy_container_loop fuel)
    (λ _, copied_node w r (pred (w_depth w))) (λ _ s, moves r s.2) (w, r1)).
  case_decide as Hend.
  - unfold wp, on_writer, end_container, bind, get, modify.
    destruct (w_depth w) as [|d]; [done|]. split; [done|]. exists []. split_and!; [done..|].
    cbn. unfold zlen. cbn. lia.
  - apply wp_bind. eapply wp_mono; [apply copy_value_with_wp; [done..|]| |].
    + intros w' Hw'. apply IH; [done|lia|done].
    + intros _ [w2 r2] [Hm2 Hc]. cbn [fst snd] in *. destruct (Hc Hend) as (t & Hwt & Htag & Hval & -> & Hsz).
      pose proof (moves_remaining_le _ _ Hr1 Hm2).
      eapply wp_mono; [apply IH; [by eapply moves_ok|lia|done]|..].
      * intros _ [w3 r3] [Hm3 (ch & Hch & Hw3 & Hsz3)]. cbn [fst snd] in *. split.
        { eauto using moves_trans. }
        exists (t :: ch). rewrite enc_children_cons. split_and!; [by constructor| |].
        { rewrite Hw3. unfold wapp. cbn [fst w_buf w_depth]. f_equal. by rewrite <- app_assoc. }
        rewrite zlen_app, enc_tree_split, zlen_app, Htag, Hval. cbn [snd]. lia.
      * intros e [w3 r3] ?. cbn [fst snd] in *. eauto using moves_trans.
    + intros e [w2 r2] ?. cbn [fst snd] in *. eauto using moves_trans.
Qed.

Lemma copy_value_wp tag v w r :
  rd_ok r → wf_tag tag → wf_value v →
  wp (copy_value tag v) (λ _, copied tag v w r) (λ _ s, moves r s.2) (w, r).
Proof.
  intros Hr Ht Hv. unfold wp, copy_value.
  erewrite (copy_value_with_ext _ (copy_container_loop (S (remaining r)))) by done.
  apply copy_value_with_wp; [done..|]. intros w' Hw'. apply copy_loop_wp; [done|lia|done].
Qed.

(** Encodings are bytes. *)
Lemma enc_elem_ok t v : wf_tag t → wf_value v → bytes_ok (enc_elem t v).
Proof.
  intros Ht Hv. unfold enc_elem. apply Forall_cons. split.
  - destruct (control_split t (type_of v) (type_of_range v)) as (_ & _ & H8). exact H8.
  - apply Forall_app. split.
    + destruct t; cbn [tag_bytes wf_tag] in *; auto with mat; destruct_and?;
        repeat (apply Forall_app; split); auto with mat.
    + destruct v; cbn [body_of wf_value] in *; destruct_and?; auto with mat;
        apply Forall_app; auto with mat.
Qed.

Lemma enc_tree_ok t : wf_tree t → bytes_ok (enc_tree t).
Proof.
  induction t as [tag v|tag k ch IH] using tree_ind'; intros Hwf.
  - destruct Hwf as (? & ? & _). by apply enc_elem_ok.
  - apply wf_children in Hwf as [Ht Hch]. cbn [enc_tree].
    apply Forall_app. split; [by apply enc_elem_ok; [|destruct k]|].
    apply Forall_app. split; [|by apply bytes_ok_1].
    pose proof (Forall_mp _ _ _ Hch IH) as Hall. clear -Hall.
    induction Hall as [|t ch Ht Hch IH]; cbn; [constructor|]. apply Forall_app. auto.
Qed.

(** ** Splicing, scanning and cursors over the grammar *)

Lemma put_raw_element_at {E} tag t w :
  wf_tree t → small (enc_tree t) →
  put_raw_element (E:=E) tag (enc_tree t) w = (wapp w (enc_tree (retag tag t)), Ok ()).
Proof.
  intros Hwf Hs. unfold put_raw_element. rewrite enc_tree_split in *.
  change (Reader_new ?b) with (reader_at [] b).
  rewrite (reads_root t Hwf [] (inner t)) by done. cbn [el_value app].
  rewrite <- (app_nil_r (inner t)), copy_value_at; [done..|]. by rewrite app_nil_r.
Qed.

(** What a program does to write a tree. *)
Fixpoint put_tree {E} (t : tree) : M Writer E () :=
  match t with
  | Leaf tag v =>
      match v with
      | VInt v => put_int tag v
      | VUint v => put_uint tag v
      | VBool v => put_bool tag v
      | VF32 v => put_f32 tag v
      | VF64 v => put_f64 tag v
      | VUtf8 s => put_str tag s
      | VBytes b => put_bytes tag b
      | _ => put_null tag
      end
  | Node tag k ch =>
      (match k with
       | KStruct => start_struct tag | KArray => start_array tag | KList => start_list tag
       end) ;;!
      foldr (λ t m, put_tree t ;;! m) (ret ()) ch ;;!
      end_container
  end.

(** The elements [next] yields for a tree, in order. *)
Fixpoint flatten (t : tree) : list Element :=
  match t with
  | Leaf tag v => [{| el_tag := tag; el_value := v |}]
  | Node tag k ch =>
      {| el_tag := tag; el_value := start_of k |} :: concat (map flatten ch) ++
      [{| el_tag := Anonymous; el_value := VContainerEnd |}]
  end.

(** Call [m] until it returns [None]. *)
Fixpoint drain {A} (m : R (option A)) (fuel : nat) : R (list A) :=
  match fuel with
  | O => out_of_fuel
  | S fuel =>
      let! o := m in
      match o with
      | None => ret []
      | Some a => let! l := drain m fuel in ret (a :: l)
      end
  end.

Definition elements (b : bytes) : res TlvError (list Element) :=
  (drain next (S (length b)) (Reader_new b)).2.

Lemma writes_tree {E} t : wf_tree t → writes (E:=E) (put_tree t) (enc_tree t).
Proof.
  induction t as [tag v|tag k ch IH] using tree_ind'; intros Hwf.
  - destruct Hwf as (_ & _ & Hs). destruct v; try done; cbn [put_tree enc_tree];
      eauto using writes_put_int, writes_put_uint, writes_tagged, writes_len_prefixed.
    + eapply writes_eq, (f_equal (cons _)), symmetry, app_nil_r.
      destruct v; apply writes_control.
    + eapply writes_eq, (f_equal (cons _)), symmetry, app_nil_r. apply writes_control.
  - apply wf_children in Hwf as [_ Hch]. intros w. cbn [put_tree].
    unfold bind at 1. rewrite (start_node k tag w).
    assert (Hl : writes (E:=E) (foldr (λ t m, put_tree t ;;! m) (ret ()) ch)
      (concat (map enc_tree ch))).
    { pose proof (Forall_mp _ _ _ Hch IH) as Hall. clear -Hall.
      induction Hall as [|t ch Ht Hch IH]; cbn.
      - intros w. unfold wapp. rewrite app_nil_r. by destruct w.
      - by apply writes_seq. }
    rewrite (bind_ok _ _ _ _ _ (Hl _)). unfold end_container, bind, get, modify, wapp.
    cbn [w_depth w_buf enc_tree].
    by rewrite <- !app_assoc.
Qed.

Lemma length_flatten t : length (flatten t) = tsize t.
Proof.
  induction t as [|tag k ch IH] using tree_ind'; [done|]. cbn [flatten tsize length].
  assert (Hm : map length (map flatten ch) = map tsize ch).
  { clear -IH. induction IH as [|t ch Ht _ IH]; [done|]. cbn [map]. by rewrite Ht, IH. }
  rewrite length_app, length_concat. cbn [length]. rewrite <- Hm. unfold list_sum. cbn. lia.
Qed.

Definition drains (bs : bytes) (l : list Element) : Prop := ∀ fuel pre tl,
  small (pre ++ bs ++ tl) →
  drain next (length l + fuel) (reader_at pre (bs ++ tl)) =
  (let! k := drain next fuel in ret (l ++ k)) (reader_at (pre ++ bs) tl).

Lemma drains_nil : drains [] [].
Proof.
  intros fuel pre tl _. cbn. rewrite app_nil_r. unfold bind.
  by destruct (drain next fuel _) as [? []].
Qed.

Lemma drains_app a b l k : drains a l → drains b k → drains (a ++ b) (l ++ k).
Proof.
  intros Ha Hb fuel pre tl Hs. rewrite <- !app_assoc in *.
  rewrite length_app, <- Nat.add_assoc, Ha by done. unfold bind.
  rewrite Hb by (by rewrite <- app_assoc). unfold bind. rewrite <- app_assoc.
  destruct (drain next fuel _) as [? []]; try done. cbn. by rewrite <- app_assoc.
Qed.

Lemma drains_one a el : reads next a (Some el) → drains a [el].
Proof.
  intros Ha fuel pre tl Hs. cbn [length Nat.add drain]. unfold bind.
  rewrite (Ha _ _ Hs). by destruct (drain next fuel _) as [? []].
Qed.

Lemma drains_tree t : wf_tree t → drains (enc_tree t) (flatten t).
Proof.
  induction t as [tag v|tag k ch IH] using tree_ind'; intros Hwf;
    pose proof (reads_root _ Hwf) as Hr.
  - by apply drains_one.
  - apply wf_children in Hwf as [_ Hch]. cbn [enc_tree flatten].
    apply (drains_app _ _ [_]); [by apply drains_one|].
    apply drains_app; [|apply drains_one, reads_end].
    pose proof (Forall_mp _ _ _ Hch IH) as Hall. clear -Hall.
    induction Hall; cbn; [apply drains_nil|by apply drains_app].
Qed.

Lemma elements_trees ts :
  Forall wf_tree ts → small (concat (map enc_tree ts)) →
  elements (concat (map enc_tree ts)) = Ok (concat (map flatten ts)).
Proof.
  intros Hwf Hs. set (b := concat (map enc_tree ts)) in *.
  assert (Hd : drains b (concat (map flatten ts))).
  { unfold b. clear -Hwf. induction Hwf as [|t ts Ht Hts IH]; cbn; [apply drains_nil|].
    apply drains_app; [by apply drains_tree|done]. }
  assert (Hl : (length (concat (map flatten ts)) ≤ length b)%nat).
  { unfold b. clear -ts. induction ts as [|t ts IH]; cbn; [done|].
    rewrite !length_app, length_flatten. pose proof (tsize_length t). lia. }
  unfold elements. change (Reader_new b) with (reader_at [] b).
  rewrite <- (app_nil_r b) at 2.
  replace (S (length b)) with (length (concat (map flatten ts)) +
    S (length b - length (concat (map flatten ts))))%nat by lia.
  rewrite Hd by (by rewrite app_nil_r). cbn [drain app].
  unfold bind, next at 1, bind, get. cbn.
  rewrite app_nil_r, Z.leb_refl. cbn. by rewrite app_nil_r.
Qed.

(** The scalar fields of a struct, in order. *)
Definition leaf (t : tree) : option Element :=
  match t with Leaf tag v => Some {| el_tag := tag; el_value := v |} | Node _ _ _ => None end.
Definition leaves (ch : list tree) : list Element := omap leaf ch.

Lemma next_field_at el a pre tl :
  reads next a (Some el) → small (pre ++ a ++ tl) →
  next_field (reader_at pre (a ++ tl)) =
  (reader_at (pre ++ a) tl,
   Ok (if decide (el_value el = VContainerEnd) then None else Some el)).
Proof. intros Ha Hs. unfold next_field. erewrite bind_next by done. by case_decide. Qed.

Lemma next_scalar_loop_at ch fuel pre tl :
  Forall wf_tree ch → small (pre ++ enc_children ch ++ tl) → (length ch < fuel)%nat →
  (leaves ch = [] ∧
   next_scalar_loop fuel (reader_at pre (enc_children ch ++ tl)) =
   (reader_at (pre ++ enc_children ch) tl, Ok None)) ∨
  (∃ el ch2 a, leaves ch = el :: leaves ch2 ∧ Forall wf_tree ch2 ∧
   enc_children ch = a ++ enc_children ch2 ∧
   next_scalar_loop fuel (reader_at pre (enc_children ch ++ tl)) =
   (reader_at (pre ++ a) (enc_children ch2 ++ tl), Ok (Some el))).
Proof.
  intros Hwf. revert fuel pre.
  induction Hwf as [|t ch Ht Hch IH]; intros fuel pre Hs Hf;
    (destruct fuel as [|fuel]; [cbn in Hf; lia|]); cbn [next_scalar_loop].
  - left. split; [done|]. change (enc_children []) with [0x18] in *.
    by rewrite (bind_ok _ _ _ _ _ (next_field_at _ _ _ _ reads_end Hs)).
  - rewrite enc_children_cons in *. rewrite <- app_assoc in Hs.
    destruct t as [tag v|tag k sub].
    + right. exists {| el_tag := tag; el_value := v |}, ch, (enc_tree (Leaf tag v)).
      split_and!; [done..|]. rewrite <- app_assoc.
      rewrite (bind_ok _ _ _ _ _ (next_field_at _ _ _ _ (reads_root _ Ht) Hs)).
      cbn [root_value root_tag el_value]. destruct Ht as (_ & _ & Hv).
      by destruct v.
    + change (enc_tree (Node tag k sub)) with (enc_elem tag (start_of k) ++ enc_children sub) in *.
      rewrite <- !app_assoc in *.
      rewrite (bind_ok _ _ _ _ _ (next_field_at _ _ _ _ (reads_root _ Ht) Hs)).
      cbn [root_value root_tag el_value]. rewrite decide_False by (by destruct k). cbn [el_value root_value].
      assert (is_container_start (start_of k) = true) as -> by (by destruct k).
      apply wf_children in Ht as [_ Hsub]. rewrite (app_assoc pre) in Hs.
      rewrite (bind_ok _ _ _ _ _ (skip_container_at _ _ _ Hsub Hs)).
      destruct (IH fuel ((pre ++ enc_elem tag (start_of k)) ++ enc_children sub))
        as [[H1 H2]|(el & ch2 & a & H1 & H2 & H3 & H4)].
      * by rewrite <- app_assoc.
      * cbn in Hf. lia.
      * left. split; [done|]. rewrite H2. by rewrite <- !app_assoc.
      * right. exists el, ch2, (enc_elem tag (start_of k) ++ enc_children sub ++ a).
        split_and!; [done|done|by rewrite H3, <- !app_assoc|].
        rewrite H4. by rewrite <- !app_assoc.
Qed.

Lemma length_children ch : (length ch < length (enc_children ch))%nat.
Proof.
  pose proof (tsize_length (Node Anonymous KStruct ch)) as [H _].
  assert (length ch ≤ list_sum (map tsize ch))%nat.
  { clear H. induction ch as [|t ch IH]; [done|]. pose proof (tsize_pos t).
    change (list_sum (map tsize (t :: ch))) with (tsize t + list_sum (map tsize ch))%nat.
    cbn [length]. lia. }
  cbn [tsize inner] in H. lia.
Qed.

(** The loop [while let Some(el) = sf.next_scalar()?] over a struct's fields. *)
Lemma drain_scalars ch fuel pre tl :
  Forall wf_tree ch → small (pre ++ enc_children ch ++ tl) → (length (leaves ch) < fuel)%nat →
  drain next_scalar fuel (reader_at pre (enc_children ch ++ tl)) =
  (reader_at (pre ++ enc_children ch) tl, Ok (leaves ch)).
Proof.
  revert ch pre. induction fuel as [|fuel IH]; intros ch pre Hwf Hs Hf; [lia|].
  cbn [drain]. unfold next_scalar at 1, bind at 1, bind at 1, get. rewrite remaining_at.
  destruct (next_scalar_loop_at ch (S (length (enc_children ch ++ tl))) pre tl)
    as [[Hl ->]|(el & ch2 & a & Hl & Hwf2 & He & ->)]; [done..| | |].
  - rewrite length_app. pose proof (length_children ch). lia.
  - by rewrite Hl.
  - rewrite He in *. rewrite <- app_assoc in Hs. unfold bind.
    rewrite IH; [|done|by rewrite <- app_assoc|rewrite Hl in Hf; cbn in Hf; lia].
    by rewrite Hl, <- app_assoc.
Qed.

Lemma put_trees_writes {E} ts : Forall wf_tree ts →
  writes (E:=E) (foldr (λ t m, put_tree t ;;! m) (ret ()) ts) (concat (map enc_tree ts)).
Proof.
  induction 1 as [|t ts Ht Hts IH]; cbn.
  - intros w. unfold wapp. rewrite app_nil_r. by destruct w.
  - by apply writes_seq; [apply writes_tree|].
Qed.

Lemma drain_next_wp fuel r :
  rd_ok r → (remaining r < fuel)%nat →
  wp (drain next fuel) (λ l r', Forall wf_element l ∧ rd_pos r' = zlen (rd_buf r'))
    (λ _ _, True) r.
Proof.
  revert r. induction fuel as [|fuel IH]; intros r Hr Hf; [lia|]. cbn [drain].
  apply wp_bind. eapply wp_mono; [by apply next_wp|..]; cbn; [|done].
  intros [el|] r' (Hm & H).
  - destruct H as [He Hp]. pose proof (moves_remaining _ _ Hr Hm Hp).
    apply wp_bind. eapply wp_mono; [apply IH; [by eapply moves_ok|lia]|..]; cbn; [|done].
    intros l r'' [Hl Hend]. split; [by constructor|done].
  - destruct H as [-> Hend]. split; [constructor|done].
Qed.

(** ** Properties *)

(** A concrete message: a struct with a scalar of each width class, a nested
    list and a string. *)
Definition sample : tree :=
  Node Anonymous KStruct
    [Leaf (Context 0) (VUint 1); Leaf (Context 1) (VInt (-70000));
     Node (Context 2) KList [Leaf Anonymous VNull; Leaf Anonymous (VBool true)];
     Leaf (CommonProfile32 65539) (VUtf8 [0x68; 0xC3; 0xA9])].

Lemma sample_wf : wf_tree sample.
Proof.
  cbn. unfold in_u, in_i, zlen. cbn.
  repeat (split || constructor || unfold is_byte); lia || done.
Qed.

(** C24.  Writing any sequence of well-formed elements with the [Writer] API and
    closing it with [finish] succeeds, and reading the bytes back with
    [Reader::next] yields exactly the elements that were written, in order,
    container boundaries included, and then the end of input. *)
Theorem write_read (ts : list tree) :
  Forall wf_tree ts → small (concat (map enc_tree ts)) →
  ∃ b, finish (E:=TlvError) (foldr (λ t m, put_tree t ;;! m) (ret ()) ts) = Ok b ∧
       elements b = Ok (concat (map flatten ts)).
Proof.
  intros Hwf Hs. exists (concat (map enc_tree ts)). split.
  - unfold finish. by rewrite put_trees_writes.
  - by apply elements_trees.
Qed.

Lemma write_read_witness :
  ∃ b, finish (E:=TlvError) (put_tree sample ;;! ret ()) = Ok b ∧
       elements b = Ok (flatten sample ++ []).
Proof.
  apply (write_read [sample]); [constructor; [exact sample_wf|constructor]|].
  by vm_compute.
Defined.

(** C25.  Decoding bytes that came off the network always returns: [next] never
    panics, never reads outside the buffer, and consumes input at every step,
    so the loop ends after at most one step per byte; every element it yields
    is a value of the Rust type (integers of their width, valid UTF-8). *)
Theorem decode_any_bytes (b : bytes) :
  bytes_ok b → small b →
  returns (elements b) ∧ ∀ els, elements b = Ok els → Forall wf_element els.
Proof.
  intros Hb Hs. assert (Hr : rd_ok (Reader_new b)).
  { split; [cbn; pose proof (zlen_nonneg b); lia|by split]. }
  pose proof (drain_next_wp (S (length b)) _ Hr) as H. unfold wp, elements in *.
  destruct (drain next (S (length b)) (Reader_new b)) as [r [l|e| |]]; cbn;
    (split; [|intros; simplify_eq]); try done; apply H; unfold remaining, zlen; cbn; lia.
Qed.

Lemma decode_any_bytes_witness :
  returns (elements [0x24; 0x01; 0x2A; 0x30; 0xFF; 0x05]) ∧
  ∀ els, elements [0x24; 0x01; 0x2A; 0x30; 0xFF; 0x05] = Ok els → Forall wf_element els.
Proof.
  apply decode_any_bytes; [|by vm_compute]. repeat constructor; unfold is_byte; lia.
Defined.

(**  Copying a value out of untrusted input with [copy_value] never panics
    and always ends; when it succeeds, what it appended to the output is the
    encoding of exactly one well-formed element with the requested tag,
    the writer is at the container depth it had before. The copy of what was
    read is no longer than the input it was read from. *)
Theorem copy_value_untrusted (tag : Tag) (v : Value) (w : Writer) (r : Reader) :
  rd_ok r → wf_tag tag → wf_value v → v ≠ VContainerEnd →
  returns (copy_value tag v (w, r)).2 ∧
  ∀ s, copy_value tag v (w, r) = (s, Ok ()) →
    moves r s.2 ∧ ∃ t, wf_tree t ∧ root_tag t = tag ∧ root_value t = v ∧
      s.1 = wapp w (enc_tree t) ∧ zlen (inner t) ≤ rd_pos s.2 - rd_pos r.
Proof.
  intros Hr Ht Hv Hend. pose proof (copy_value_wp tag v w r Hr Ht Hv) as H. unfold wp in H.
  destruct (copy_value tag v (w, r)) as [s [[]|e| |]]; [| |done..].
  - split; [done|]. intros s' [= <-]. destruct H as [Hm H]. auto.
  - by split.
Qed.

Lemma copy_value_untrusted_witness :
  let r := Reader_new [0x24; 0x01; 0x2A; 0x18] in
  returns (copy_value (Context 5) VStructStart (Writer_new, r)).2 ∧
  ∀ s, copy_value (Context 5) VStructStart (Writer_new, r) = (s, Ok ()) →
    moves r s.2 ∧ ∃ t, wf_tree t ∧ root_tag t = Context 5 ∧ root_value t = VStructStart ∧
      s.1 = wapp Writer_new (enc_tree t) ∧ zlen (inner t) ≤ rd_pos s.2 - rd_pos r.
Proof.
  apply copy_value_untrusted; [|by vm_compute|done|done].
  split_and!; [by vm_compute|by vm_compute|by vm_compute|].
  repeat constructor; unfold is_byte; lia.
Defined.

(** A field walk with [StructFields] over an encoded struct returns its
    scalar fields in order, steps over every nested container however deep,
    and then leaves the reader just after the struct's end-of-container. *)
Theorem struct_fields_scalars (tag : Tag) (ch : list tree) (tl : bytes) :
  wf_tree (Node tag KStruct ch) → small (enc_tree (Node tag KStruct ch) ++ tl) →
  (StructFields_open ;;! drain next_scalar (S (length ch)))
    (Reader_new (enc_tree (Node tag KStruct ch) ++ tl)) =
  (reader_at (enc_tree (Node tag KStruct ch)) tl, Ok (leaves ch)).
Proof.
  intros Hwf Hs. change (Reader_new ?b) with (reader_at [] b).
  pose proof (reads_root _ Hwf) as Hr. apply wf_children in Hwf as [_ Hch].
  change (enc_tree (Node tag KStruct ch)) with (enc_elem tag VStructStart ++ enc_children ch) in *.
  rewrite <- app_assoc in *. unfold bind at 1, StructFields_open, bind at 1.
  cbn [root_tag root_value start_of] in Hr.
  rewrite (Hr [] (enc_children ch ++ tl)) by done. cbn [el_value app].
  rewrite decide_True by done. unfold ret at 1.
  rewrite drain_scalars; [done|done|done|]. unfold leaves.
  clear. induction ch as [|[] ch IH]; cbn in *; lia.
Qed.

Lemma struct_fields_scalars_witness :
  (StructFields_open ;;! drain next_scalar 5) (Reader_new (enc_tree sample ++ [0x14])) =
  (reader_at (enc_tree sample) [0x14],
   Ok [{| el_tag := Context 0; el_value := VUint 1 |};
       {| el_tag := Context 1; el_value := VInt (-70000) |};
       {| el_tag := CommonProfile32 65539; el_value := VUtf8 [0x68; 0xC3; 0xA9] |}]).
Proof. apply (struct_fields_scalars Anonymous); [exact sample_wf|by vm_compute]. Defined.
