(* ===== verification/TlvValue.v ===== *)
(** * Element walks and standalone values

    Models [crates/mat-device/src/core/tlv_value.rs]: the one-element encoders
    and the decoders of list writes and command fields.  Every decoder of the
    workspace that loops over the elements of a container is an instance of
    [walk]: the loop with its per-element step abstracted.  Two lemmas serve
    all of them: [walk_at] (on a well-formed container the loop folds the steps
    over the children) and [walk_safe] (on arbitrary bytes the loop ends without
    a panic and keeps the step's invariant). *)

From S2P Require Import Prelude Tlv.

(** ** Outcomes of infallible code and of [Option]-returning decoders *)

(** A function that returns no [Result]: it can only return or panic. *)
Abbreviation fin := (res Empty_set).

(** A decoder returning [Option]; [throw ()] is [None]. *)
Abbreviation OR := (M Reader ()).

(** [None] or [Some]; a panic is neither. *)
Definition some_of {A} (m : res () A) : option A :=
  match m with Ok a => Some a | _ => None end.

(** Running an infallible sequence of writer calls on a fresh [Writer]. *)
Definition to_vec (m : M Writer Empty_set ()) : fin bytes := finish m.

Lemma to_vec_writes m b : writes m b → to_vec m = Ok b.
Proof. intros Hm. unfold to_vec, finish. by rewrite Hm. Qed.

(** [r.next()] under the caller's error conversion; the end of the buffer is
    the caller's [eof]. *)
Section walk.
Context {E : Type} (conv : TlvError → E) (eof : E).

Definition adapt {A} (m : R A) : M Reader E A := λ r,
  let (r', o) := m r in (r', map_err conv o).

Definition next_el : M Reader E Element :=
  let! o := adapt next in match o with Some el => ret el | None => throw eof end.

(** [loop { match next { ContainerEnd => break, el => step } }]. *)
Fixpoint walk_loop {T} (step : T → Element → M Reader E T) (fuel : nat) (s : T) : M Reader E T :=
  match fuel with
  | O => out_of_fuel
  | S fuel =>
      let! el := next_el in
      if decide (el_value el = VContainerEnd) then ret s
      else let! s := step s el in walk_loop step fuel s
  end.

Definition walk {T} (step : T → Element → M Reader E T) (s : T) : M Reader E T :=
  let! r := get in walk_loop step (S (remaining r)) s.

Definition root_el (t : tree) : Element := {| el_tag := root_tag t; el_value := root_value t |}.

Lemma reads_adapt {A} (m : R A) a x : reads m a x → reads (adapt m) a x.
Proof. intros Hm pre tl Hs. unfold adapt. by rewrite Hm. Qed.

Lemma reads_next_el t : wf_tree t →
  reads next_el (enc_elem (root_tag t) (root_value t)) (root_el t).
Proof.
  intros Hwf. rewrite <- (app_nil_r (enc_elem _ _)).
  eapply reads_bind; [by apply reads_adapt, reads_root|apply reads_ret].
Qed.

Lemma reads_next_end : reads next_el [0x18] {| el_tag := Anonymous; el_value := VContainerEnd |}.
Proof.
  rewrite <- (app_nil_r [0x18]).
  eapply reads_bind; [apply reads_adapt, reads_end|apply reads_ret].
Qed.

(** The steps over a container's children: each consumes the rest of its child. *)
Inductive walks {T} (step : T → Element → M Reader E T) : T → list tree → T → Prop :=
  | walks_nil s : walks step s [] s
  | walks_cons s t ch s1 s2 :
      reads (step s (root_el t)) (inner t) s1 → walks step s1 ch s2 → walks step s (t :: ch) s2.

Lemma walks_app {T} (step : T → Element → M Reader E T) s a s1 b s2 :
  walks step s a s1 → walks step s1 b s2 → walks step s (a ++ b) s2.
Proof. induction 1; [done|]. intros. econstructor; eauto. Qed.

(** A step that folds a function over the children. *)
Lemma walks_map {T X} (step : T → Element → M Reader E T) (g : X → tree) (f : T → X → T) s l :
  (∀ s x, x ∈ l → reads (step s (root_el (g x))) (inner (g x)) (f s x)) →
  walks step s (map g l) (foldl f s l).
Proof.
  revert s. induction l as [|x l IH]; intros s Hl; cbn; [constructor|].
  econstructor; [apply Hl; by apply elem_of_cons; left|].
  apply IH. intros s' y Hy. apply Hl. by apply elem_of_cons; right.
Qed.

Lemma length_enc_children ch : (length ch < length (enc_children ch))%nat.
Proof.
  induction ch as [|t ch IH]; [cbn; lia|]. rewrite enc_children_cons, length_app.
  pose proof (tsize_length t). pose proof (tsize_pos t). cbn [length]. lia.
Qed.

Lemma walk_loop_at {T} (step : T → Element → M Reader E T) fuel s ch s' :
  Forall wf_tree ch → walks step s ch s' → (length ch < fuel)%nat →
  reads (walk_loop step fuel s) (enc_children ch) s'.
Proof.
  intros Hwf Hw. revert fuel Hwf.
  induction Hw as [s|s t ch s1 s2 Ht Hw IH]; intros [|fuel] Hwf Hf; [cbn in Hf; lia| |cbn in Hf; lia|];
    cbn [walk_loop].
  - change (enc_children []) with ([0x18] ++ []).
    eapply reads_bind; [apply reads_next_end|]. apply reads_ret.
  - apply Forall_cons_1 in Hwf as [Hwt Hwf].
    rewrite enc_children_cons, enc_tree_split, <- app_assoc.
    eapply reads_bind; [by apply reads_next_el|]. cbn [el_value root_el].
    rewrite decide_False by (by apply wf_root).
    eapply reads_bind; [exact Ht|]. apply IH; [done|cbn in Hf; lia].
Qed.

(** On a well-formed container the loop is the fold of its steps. *)
Lemma walk_at {T} (step : T → Element → M Reader E T) s ch s' :
  Forall wf_tree ch → walks step s ch s' → reads (walk step s) (enc_children ch) s'.
Proof.
  intros Hwf Hw pre tl Hs. unfold walk, bind, get. rewrite remaining_at.
  apply walk_loop_at; [done|done| |done]. rewrite length_app.
  pose proof (length_enc_children ch). lia.
Qed.

Lemma safe_adapt {A} (m : R A) Q : safe m Q → safe (adapt m) Q.
Proof.
  intros Hm r Hr. specialize (Hm r Hr). unfold wp, adapt in *.
  by destruct (m r) as [r' [x|e| |]].
Qed.

Lemma next_el_wp r :
  rd_ok r →
  wp next_el (λ el r', moves r r' ∧ wf_element el ∧ rd_pos r < rd_pos r' ∧
      1 + zlen (body_of (el_value el)) ≤ rd_pos r') (λ _ r', moves r r') r.
Proof.
  intros Hr. pose proof (next_wp r Hr) as Hn. pose proof (eats_next r Hr) as He.
  unfold wp, next_el, bind, adapt in *.
  destruct (next r) as [r' [[el|]|e| |]]; cbn; try naive_solver.
  destruct Hn as (? & ? & ?), He as [_ He]. split_and!; try done.
  unfold enc_elem in He. rewrite zlen_cons, zlen_app in He.
  pose proof (zlen_nonneg (tag_bytes (el_tag el))). destruct Hr. lia.
Qed.

Lemma safe_next_el : safe next_el wf_element.
Proof.
  intros r Hr. eapply wp_mono; [by apply next_el_wp|..]; cbn; naive_solver.
Qed.

(** Safe once an element of value [v] has been read. *)
Definition safe1 {A} (v : Value) (m : M Reader E A) (Q : A → Prop) : Prop :=
  ∀ r, rd_ok r → 1 + zlen (body_of v) ≤ rd_pos r →
    wp m (λ a r', moves r r' ∧ Q a) (λ _ r', moves r r') r.

Lemma safe_safe1 {A} v (m : M Reader E A) Q : safe m Q → safe1 v m Q.
Proof. intros Hm r Hr _. by apply Hm. Qed.

Lemma safe1_bind {A B} v (m : M Reader E A) (k : A → M Reader E B) P Q :
  safe1 v m P → (∀ a, P a → safe (k a) Q) → safe1 v (bind m k) Q.
Proof.
  intros Hm Hk r Hr Hp. apply wp_bind. eapply wp_mono; [by apply Hm| |auto].
  intros a r' [Hmv HP]. eapply wp_mono; [apply Hk; eauto using moves_ok|..];
    cbn; intros; destruct_and?; eauto using moves_trans.
Qed.

(** On arbitrary bytes: the loop ends without a panic, and whatever the steps
    maintain holds of its result. *)
Lemma walk_safe {T} (step : T → Element → M Reader E T) (I : T → Prop) s :
  (∀ s el, I s → wf_element el → el_value el ≠ VContainerEnd → safe1 (el_value el) (step s el) I) →
  I s → safe (walk step s) I.
Proof.
  intros Hstep HI r Hr. unfold walk. apply wp_bind. unfold wp at 1, get.
  assert (Hfuel : (remaining r < S (remaining r))%nat) by lia.
  set (fuel := S (remaining r)) in *. clearbody fuel. revert s HI r Hr Hfuel.
  induction fuel as [|fuel IH]; intros s HI r Hr Hf; [lia|]. cbn [walk_loop]. apply wp_bind.
  eapply wp_mono; [by apply next_el_wp| |done]. cbn. intros el r1 (Hm & Hwf & Hp & Hbody).
  pose proof (moves_ok _ _ Hr Hm) as Hr1. pose proof (moves_remaining _ _ Hr Hm Hp).
  case_decide as Hend; [by apply wp_ret|]. apply wp_bind.
  eapply wp_mono; [by apply Hstep| |cbn; eauto using moves_trans]. cbn.
  intros s1 r2 [Hm2 HI1]. pose proof (moves_remaining_le _ _ Hr1 Hm2).
  eapply wp_mono; [apply IH; [done|by eapply moves_ok|lia]|..]; cbn.
  - intros s2 r3 [Hm3 ?]. eauto using moves_trans.
  - eauto using moves_trans.
Qed.

(** A nested container the caller ignores. *)
Lemma reads_skip tag k ch : Forall wf_tree ch →
  reads (adapt skip_container) (inner (Node tag k ch)) ().
Proof. intros Hch. apply reads_adapt. intros pre tl Hs. by apply skip_container_at. Qed.

Lemma safe_skip : safe (adapt skip_container) (λ _, True).
Proof.
  apply safe_adapt. intros r Hr. eapply wp_mono; [by apply skip_container_wp|..]; cbn; done.
Qed.

(** [let mut w = Writer::new(); copy_value(&mut w, r, tag, value)?; w.finish()]. *)
Definition copy_to_vec (tag : Tag) (v : Value) : M Reader E bytes := λ r,
  match copy_value tag v (Writer_new, r) with
  | ((w, r'), Ok _) => (r', match w_depth w with O => Ok (w_buf w) | S _ => Panic end)
  | ((_, r'), Err e) => (r', Err (conv e))
  | ((_, r'), Panic) => (r', Panic)
  | ((_, r'), OutOfFuel) => (r', OutOfFuel)
  end.

Lemma reads_copy tag t : wf_tree t →
  reads (copy_to_vec tag (root_value t)) (inner t) (enc_tree (retag tag t)).
Proof. intros Hwf pre tl Hs. unfold copy_to_vec. by rewrite copy_value_at. Qed.

Lemma safe_copy tag v : wf_tag tag → wf_value v → v ≠ VContainerEnd →
  safe1 v (copy_to_vec tag v)
    (λ b, ∃ t, wf_tree t ∧ root_tag t = tag ∧ root_value t = v ∧ b = enc_tree t ∧
       1 + zlen (body_of v) + zlen (inner t) < 2 ^ 63).
Proof.
  intros Ht Hv Hne r Hr Hpos. pose proof (copy_value_wp tag v Writer_new r Hr Ht Hv) as Hc.
  unfold wp, copy_to_vec in *.
  destruct (copy_value tag v (Writer_new, r)) as [[w r'] [x|e| |]]; cbn in *; try done.
  destruct Hc as [Hm Hcp]. destruct (Hcp Hne) as (t & Hwf & Htag & Hval & Hw & Hsz).
  cbn in Hw, Hsz. subst w. split; [done|]. exists t. split_and!; try done.
  destruct Hm as [_ [_ Hm]]. destruct Hr as (_ & Hs & _). unfold small in Hs. cbn in Hm. lia.
Qed.
End walk.

Lemma safe_reader {E A} (m : M Reader E A) Q buf :
  safe m Q → bytes_ok buf → small buf →
  match (m (Reader_new buf)).2 with
  | Ok a => Q a | Err _ => True | _ => False
  end.
Proof.
  intros Hm Hb Hs. assert (Hr : rd_ok (Reader_new buf)).
  { unfold rd_ok; cbn. pose proof (zlen_nonneg buf). split_and!; [lia|lia|done|done]. }
  specialize (Hm _ Hr). unfold wp in Hm. destruct (m (Reader_new buf)) as [r [a|e| |]]; cbn; naive_solver.
Qed.

Lemma reads_all {E A} (m : M Reader E A) buf x :
  reads m buf x → small buf → (m (Reader_new buf)).2 = Ok x.
Proof.
  intros Hm Hs. pose proof (Hm [] [] ltac:(by rewrite app_nil_r)) as H.
  rewrite app_nil_r in H. change (Reader_new buf) with (reader_at [] buf). by rewrite H.
Qed.

#[export] Hint Resolve safe_next_el safe_skip : safe.

(** Well-formedness of the elements the device's clusters write. *)
Create HintDb wf discriminated.

Lemma wf_uint c v w : 0 ≤ c < 256 → 0 ≤ w ≤ 64 → in_u w v → wf_tree (Leaf (Context c) (VUint v)).
Proof. intros Hc Hw Hv. cbn. split; [done|]. split; [|done]. by apply (in_u_mono w). Qed.
Lemma wf_anon_uint v w : 0 ≤ w ≤ 64 → in_u w v → wf_tree (Leaf Anonymous (VUint v)).
Proof. intros Hw Hv. cbn. split; [done|]. split; [|done]. by apply (in_u_mono w). Qed.
Lemma wf_null c : 0 ≤ c < 256 → wf_tree (Leaf (Context c) VNull).
Proof. done. Qed.
Lemma wf_node c k ch : 0 ≤ c < 256 → Forall wf_tree ch → wf_tree (Node (Context c) k ch).
Proof. intros Hc Hch. by apply wf_children. Qed.
Lemma wf_anon_node k ch : Forall wf_tree ch → wf_tree (Node Anonymous k ch).
Proof. intros Hch. by apply wf_children. Qed.
Lemma wf_uints l w : 0 ≤ w ≤ 64 → Forall (in_u w) l →
  Forall wf_tree (map (λ v, Leaf Anonymous (VUint v)) l).
Proof.
  intros Hw Hl. apply List.Forall_map. eapply Forall_impl; [exact Hl|].
  intros v Hv. by eapply wf_anon_uint.
Qed.

(** Side conditions [0 ≤ c < 256] on literal tags. *)
Ltac tag_lit := lazymatch goal with |- _ ∧ _ => by (split; vm_compute; congruence) end.

(** ** Encoders

    [emits m ch]: from inside a container, [m] writes the children [ch] and
    closes the container. Every encoder of the workspace is a nest of these. *)
Definition emits {E} (m : M Writer E ()) (ch : list tree) : Prop :=
  ∀ w d, w_depth w = S d →
    m w = ({| w_buf := w_buf w ++ enc_children ch; w_depth := d |}, Ok ()).

Lemma emits_end {E} : emits (E:=E) end_container [].
Proof. intros w d Hd. unfold end_container, bind, get, modify. by rewrite Hd. Qed.

Lemma emits_cons {E} (m k : M Writer E ()) t ch :
  writes m (enc_tree t) → emits k ch → emits (m ;;! k) (t :: ch).
Proof.
  intros Hm Hk w d Hd. unfold bind. rewrite (Hm w), (Hk _ d) by done.
  cbn [w_buf wapp]. by rewrite enc_children_cons, <- app_assoc.
Qed.

(** A loop of puts, one child per item. *)
Lemma emits_list {E X} (f : X → M Writer E ()) l ts k ch :
  Forall2 (λ x t, writes (f x) (enc_tree t)) l ts → emits k ch →
  emits (foldr (λ x m, f x ;;! m) (ret ()) l ;;! k) (ts ++ ch).
Proof.
  intros Hl Hk w d Hd.
  assert (Hw : writes (foldr (λ x m, f x ;;! m) (ret ()) l) (concat (map enc_tree ts))).
  { induction Hl as [|x t l ts Hx _ IH]; cbn; [|by apply writes_seq].
    intros w'. unfold wapp. rewrite app_nil_r. by destruct w'. }
  rewrite (bind_ok _ _ _ _ _ (Hw w)), (Hk _ d) by done. cbn [w_buf wapp]. unfold enc_children.
  by rewrite map_app, concat_app, <- !app_assoc.
Qed.

Lemma emits_map {E X} (f : X → M Writer E ()) (g : X → tree) l k ch :
  (∀ x, writes (f x) (enc_tree (g x))) → emits k ch →
  emits (foldr (λ x m, f x ;;! m) (ret ()) l ;;! k) (map g l ++ ch).
Proof.
  intros Hf Hk. apply emits_list; [|done]. clear -Hf. induction l; cbn; constructor; auto.
Qed.

Lemma writes_node {E} (k : M Writer E ()) kd tag ch :
  emits k ch →
  writes ((match kd with KStruct => start_struct tag | KArray => start_array tag
           | KList => start_list tag end) ;;! k) (enc_tree (Node tag kd ch)).
Proof.
  intros Hk w. unfold bind at 1. rewrite (start_node kd tag w).
  rewrite (Hk _ (w_depth w)) by done. unfold wapp. cbn [w_buf w_depth].
  rewrite enc_tree_split. by rewrite <- app_assoc.
Qed.

Lemma writes_struct {E} (k : M Writer E ()) tag ch :
  emits k ch → writes (start_struct tag ;;! k) (enc_tree (Node tag KStruct ch)).
Proof. apply (writes_node k KStruct). Qed.
Lemma writes_array {E} (k : M Writer E ()) tag ch :
  emits k ch → writes (start_array tag ;;! k) (enc_tree (Node tag KArray ch)).
Proof. apply (writes_node k KArray). Qed.
Lemma writes_list {E} (k : M Writer E ()) tag ch :
  emits k ch → writes (start_list tag ;;! k) (enc_tree (Node tag KList ch)).
Proof. apply (writes_node k KList). Qed.

Lemma writes_null {E} tag : writes (E:=E) (put_null tag) (enc_tree (Leaf tag VNull)).
Proof. eapply writes_eq, (f_equal (cons _)), symmetry, app_nil_r. apply writes_control. Qed.

Lemma writes_bool {E} tag b : writes (E:=E) (put_bool tag b) (enc_tree (Leaf tag (VBool b))).
Proof. eapply writes_eq, (f_equal (cons _)), symmetry, app_nil_r. destruct b; apply writes_control. Qed.

Lemma writes_raw {E} tag t : wf_tree t → small (enc_tree t) →
  writes (E:=E) (put_raw_element tag (enc_tree t)) (enc_tree (retag tag t)).
Proof. intros Hwf Hs w. by apply put_raw_element_at. Qed.

Create HintDb emits discriminated.
#[export] Hint Resolve emits_end emits_cons emits_map writes_struct writes_array writes_list
  writes_put_uint writes_null writes_bool : emits.

Lemma emits_str c s {E} (k : M Writer E ()) ch : emits k ch → emits (put_str (Context c) s ;;! k) (Leaf (Context c) (VUtf8 s) :: ch).
Proof. intros Hk. apply emits_cons; [apply writes_len_prefixed|done]. Qed.
Lemma emits_bytes c b {E} (k : M Writer E ()) ch : emits k ch → emits (put_bytes (Context c) b ;;! k) (Leaf (Context c) (VBytes b) :: ch).
Proof. intros Hk. apply emits_cons; [apply writes_len_prefixed|done]. Qed.
Lemma emits_uint c v {E} (k : M Writer E ()) ch : emits k ch → emits (put_uint (Context c) v ;;! k) (Leaf (Context c) (VUint v) :: ch).
Proof. intros Hk. apply emits_cons; [apply writes_put_uint|done]. Qed.

Lemma emits_foldr {E X} (f : X → M Writer E ()) (g : X → tree) l :
  (∀ x, writes (f x) (enc_tree (g x))) → emits (foldr (λ x m, f x ;;! m) end_container l) (map g l).
Proof. intros Hf. induction l as [|x l IH]; cbn; [apply emits_end|by apply emits_cons]. Qed.

#[export] Hint Resolve emits_str emits_bytes emits_uint : emits.

Lemma safe_lift {E A} (m : res E A) (P : A → Prop) :
  match m with Ok a => P a | Err _ => True | _ => False end → safe (lift m) P.
Proof.
  intros Hm. destruct m; [by apply (safe_ret a)|by apply (safe_throw e)|done|done].
Qed.

(** ** [tlv_value.rs] *)

Definition tlv_uint (v : Z) : fin bytes := to_vec (put_uint Anonymous v).
Definition tlv_str (v : bytes) : fin bytes := to_vec (put_str Anonymous v).
Definition tlv_bool (v : bool) : fin bytes := to_vec (put_bool Anonymous v).
Definition tlv_null : fin bytes := to_vec (put_null Anonymous).

(** [.ok()??] and [.ok()?] in a function returning [Option]. *)
Definition to_none (e : TlvError) : () := ().
Definition opt_next : OR Element := next_el to_none ().
Definition opt_walk {T} (step : T → Element → OR T) (s : T) : OR T := walk to_none () step s.
Definition opt_skip : OR () := adapt to_none skip_container.

(** Leaving an [OR] computation on a fresh reader. *)
Definition run_opt {A} (m : OR A) (buf : bytes) : res () A := (m (Reader_new buf)).2.

Definition struct_list_step {A} (body : OR A) (entries : list A) (el : Element) : OR (list A) :=
  match el_value el with
  | VStructStart => let! e := body in ret (entries ++ [e])
  | _ => throw ()
  end.

Definition decode_struct_list {A} (data_tlv : bytes) (body : OR A) : res () (list A) :=
  run_opt (
    let! el := opt_next in
    if negb (bool_decide (el_value el = VArrayStart)) then throw ()
    else opt_walk (struct_list_step body) []) data_tlv.

Definition decode_single_struct {A} (data_tlv : bytes) (body : OR A) : res () A :=
  run_opt (
    let! el := opt_next in
    if negb (bool_decide (el_value el = VStructStart)) then throw () else body) data_tlv.

Definition uint_field_step (field : Z) (found : option Z) (el : Element) : OR (option Z) :=
  match el_tag el, el_value el with
  | Context t, VUint v => if t =? field then ret (Some v) else ret found
  | _, (VStructStart | VArrayStart | VListStart) => opt_skip ;;! ret found
  | _, _ => ret found
  end.

Definition decode_struct_uint_field (fields_tlv : bytes) (field : Z) : res () Z :=
  run_opt (
    let! el := opt_next in
    if negb (bool_decide (el_value el = VStructStart)) then throw ()
    else
      let! found := opt_walk (uint_field_step field) None in
      match found with Some v => ret v | None => throw () end) fields_tlv.

(** ** Sizes *)

Lemma zlen_tag t : zlen (tag_bytes t) ≤ 8.
Proof. destruct t; cbn [tag_bytes]; zl. Qed.

Lemma zlen_uint_leaf tag v : zlen (enc_tree (Leaf tag (VUint v))) ≤ 17.
Proof.
  cbn [enc_tree]. unfold enc_elem. rewrite zlen_cons, zlen_app. pose proof (zlen_tag tag).
  cbn [body_of]. rewrite zlen_le_bytes. destruct (uint_class v) as [|[|[|] ] ]; cbn; lia.
Qed.

Lemma zlen_bytes_leaf tag b : zlen (enc_tree (Leaf tag (VBytes b))) ≤ 17 + zlen b.
Proof.
  cbn [enc_tree]. unfold enc_elem, body_of, type_of. rewrite zlen_cons, !zlen_app, zlen_le_bytes.
  pose proof (zlen_tag tag). assert (Z.of_nat (class_width (len_class (zlen b))) ≤ 8); [|lia].
  unfold len_class, class_width. repeat case_match; done.
Qed.

(** A container of [n] elements of at most [B] bytes. *)
Lemma zlen_node tag k ch B : Forall (λ t, zlen (enc_tree t) ≤ B) ch →
  zlen (enc_tree (Node tag k ch)) ≤ 10 + B * zlen ch.
Proof.
  intros Hch. cbn [enc_tree]. unfold enc_elem. rewrite !zlen_app, zlen_cons, zlen_app.
  pose proof (zlen_tag tag).
  assert (zlen (body_of (start_of k)) = 0) as -> by by destruct k.
  assert (zlen (concat (map enc_tree ch)) ≤ B * zlen ch).
  { induction Hch as [|t ch Ht Hch IH]; [cbn [map concat]; unfold zlen; cbn; lia|]. cbn [map concat]. rewrite zlen_app, zlen_cons. lia. }
  change (zlen [0x18]) with 1. lia.
Qed.

(** ** What the decoders do on well-formed data, and on any data *)

(** A struct of a list that [body] decodes to [x]. *)
Definition decodes_as {A} (body : OR A) (x : A) (t : tree) : Prop :=
  ∃ tag ch, t = Node tag KStruct ch ∧ wf_tag tag ∧ Forall wf_tree ch ∧ reads body (enc_children ch) x.

Lemma decodes_as_wf {A} (body : OR A) l ts : Forall2 (decodes_as body) l ts → Forall wf_tree ts.
Proof.
  induction 1 as [|x t l ts (tag & ch & -> & Ht & Hch & _) _ IH]; constructor; [|done].
  by apply wf_children.
Qed.

Lemma walks_struct_list {A} (body : OR A) l ts acc :
  Forall2 (decodes_as body) l ts → walks (struct_list_step body) acc ts (acc ++ l).
Proof.
  intros Hl. revert acc. induction Hl as [|x t l ts (tag & ch & -> & _ & _ & Hb) _ IH]; intros acc.
  - rewrite app_nil_r. constructor.
  - econstructor; [|rewrite (app_assoc acc [x] l : acc ++ x :: l = _); apply IH].
    by apply (reads_map _ (λ e, acc ++ [e])).
Qed.

Lemma decode_struct_list_at {A} (body : OR A) l ts :
  Forall2 (decodes_as body) l ts → small (enc_tree (Node Anonymous KArray ts)) →
  decode_struct_list (enc_tree (Node Anonymous KArray ts)) body = Ok l.
Proof.
  intros Hl Hs. pose proof (decodes_as_wf _ _ _ Hl) as Hwf.
  unfold decode_struct_list, run_opt. apply reads_all; [|done].
  rewrite enc_tree_split. eapply reads_bind.
  - apply reads_next_el. by apply wf_children.
  - cbn [el_value root_el root_value start_of]. rewrite bool_decide_eq_true_2 by done. cbn [negb inner].
    apply walk_at; [done|]. by apply (walks_struct_list body l ts []).
Qed.

Lemma decode_single_struct_at {A} (body : OR A) ch x :
  Forall wf_tree ch → reads body (enc_children ch) x →
  let t := Node Anonymous KStruct ch in
  small (enc_tree t) → decode_single_struct (enc_tree t) body = Ok x.
Proof.
  intros Hwf Hb t Hs. unfold decode_single_struct, run_opt. apply reads_all; [|done].
  unfold t. rewrite enc_tree_split. eapply reads_bind.
  - apply reads_next_el. by apply wf_children.
  - cbn [el_value root_el root_value start_of]. rewrite bool_decide_eq_true_2 by done. done.
Qed.

Lemma decode_struct_list_safe {A} (body : OR A) P data :
  safe body P → bytes_ok data → small data →
  match decode_struct_list data body with Ok l => Forall P l | Err _ => True | _ => False end.
Proof.
  intros Hb Hd Hs. apply safe_reader; [|done|done].
  eapply safe_bind; [apply safe_next_el|]. intros el _. case_match; [apply safe_throw|].
  apply walk_safe; [|constructor]. intros l e Hl _ _. apply safe_safe1. unfold struct_list_step.
  destruct (el_value e); try apply safe_throw.
  eapply safe_bind; [exact Hb|]. intros x Hx. apply safe_ret, Forall_app.
  split; [done|]. by apply Forall_singleton.
Qed.

Lemma decode_single_struct_safe {A} (body : OR A) P data :
  safe body P → bytes_ok data → small data →
  match decode_single_struct data body with Ok x => P x | Err _ => True | _ => False end.
Proof.
  intros Hb Hd Hs. apply safe_reader; [|done|done].
  eapply safe_bind; [apply safe_next_el|]. intros el _. case_match; [apply safe_throw|done].
Qed.

Lemma decode_struct_uint_field_safe data field :
  bytes_ok data → small data →
  match decode_struct_uint_field data field with Ok v => in_u 64 v | Err _ => True | _ => False end.
Proof.
  intros Hd Hs. apply safe_reader; [|done|done].
  eapply safe_bind; [apply safe_next_el|]. intros el _. case_match; [apply safe_throw|].
  eapply safe_bind.
  - apply (walk_safe _ _ _ (from_option (in_u 64) True)); [|done].
    intros found e Hf [_ Hv] _. apply safe_safe1. unfold uint_field_step.
    assert (Hskip : safe (opt_skip ;;! ret found) (from_option (in_u 64) True)).
    { eapply safe_bind; [apply safe_skip|]. intros _ _. by apply safe_ret. }
    destruct (el_tag e), (el_value e); try exact Hskip; try case_match; by apply safe_ret.
  - intros [v|] Hv; [by apply safe_ret|apply safe_throw].
Qed.

(** [tlv_value::uint] read back with [next]. *)
Lemma uint_eq v : tlv_uint v = Ok (enc_elem Anonymous (VUint v)).
Proof. apply to_vec_writes, writes_put_uint. Qed.

(** ** Properties *)

(** The value the walk keeps: the last top-level [Context(field)] integer. *)
Definition last_uint (field : Z) (found : option Z) (t : tree) : option Z :=
  match t with
  | Leaf (Context f) (VUint v) => if f =? field then Some v else found
  | _ => found
  end.

Lemma reads_uint_field field found t :
  wf_tree t → reads (uint_field_step field found (root_el t)) (inner t) (last_uint field found t).
Proof.
  intros Hwf. destruct t as [tag v|tag k ch].
  - destruct Hwf as (_ & _ & Hs). unfold uint_field_step; cbn.
    destruct tag, v; try done; cbn; try case_match; apply reads_ret.
  - apply wf_children in Hwf as [_ Hch].
    assert (Hskip : reads (opt_skip ;;! ret found) (inner (Node tag k ch)) found).
    { rewrite <- (app_nil_r (inner _)). eapply reads_bind; [by apply reads_skip|apply reads_ret]. }
    unfold uint_field_step; cbn [root_el el_tag el_value root_tag root_value last_uint].
    by destruct tag, k.
Qed.

(** A command-fields struct is read as its doc says: the value of the last
    top-level [Context(field)] integer, a same-numbered tag inside a nested
    container being ignored, and [None] when there is none. *)
Theorem uint_field_last_wins tag ch field :
  wf_tree (Node tag KStruct ch) → small (enc_tree (Node tag KStruct ch)) →
  decode_struct_uint_field (enc_tree (Node tag KStruct ch)) field =
  match foldl (last_uint field) None ch with Some v => Ok v | None => Err () end.
Proof.
  intros Hwf Hs. pose proof Hwf as [Ht Hch]%wf_children.
  unfold decode_struct_uint_field, run_opt.
  set (t := Node tag KStruct ch) in *.
  assert (Hwalk : reads (opt_walk (uint_field_step field) None) (inner t) (foldl (last_uint field) None ch)).
  { apply walk_at; [done|]. generalize (@None Z). clear -Hch.
    induction Hch as [|t ch Ht Hch IH]; intros found; cbn; [constructor|].
    econstructor; [by apply reads_uint_field|]. apply IH. }
  change (Reader_new (enc_tree t)) with (reader_at [] (enc_tree t)).
  rewrite enc_tree_split in *.
  unfold bind at 1, opt_next. rewrite (reads_next_el to_none () t Hwf [] (inner t)) by done.
  cbn [el_value root_el root_value start_of t]. rewrite bool_decide_eq_true_2 by done. cbn [negb].
  unfold bind. rewrite <- (app_nil_r (inner t)), (Hwalk _ []) by (rewrite app_nil_r; done).
  by destruct (foldl _ _ _).
Qed.

(** [{0: 5, 1: {0: 9}, 0: 7}]. *)
Lemma uint_field_last_wins_witness :
  decode_struct_uint_field [0x15; 0x24; 0; 5; 0x35; 1; 0x24; 0; 9; 0x18; 0x24; 0; 7; 0x18] 0 = Ok 7.
Proof.
  pose proof (uint_field_last_wins Anonymous
    [Leaf (Context 0) (VUint 5); Node (Context 1) KStruct [Leaf (Context 0) (VUint 9)];
     Leaf (Context 0) (VUint 7)] 0) as H.
  apply H; [|done]. cbn. unfold in_u. lia.
Defined.
