(* ===== verification/Message.v ===== *)
(** * Message and protocol headers

    Models [crates/mat-controller/src/message.rs]: the message header (outer,
    authenticated but not encrypted), the protocol header (inner, encrypted)
    and the bounds-checked [Cursor] both decoders read through.

    [Codec] is the interface the two headers offer to the sealing code of
    [Crypto]: an encoder, a decoder and the two laws that relate them. *)

From S2P Require Import Prelude.

(** ** Data *)

Definition PROTOCOL_ID_SECURE_CHANNEL : Z := 0x0000.
Definition PROTOCOL_ID_INTERACTION_MODEL : Z := 0x0001.
Definition OPCODE_MRP_STANDALONE_ACK : Z := 0x10.
Definition OPCODE_STATUS_REPORT : Z := 0x40.

Definition FLAG_SOURCE_PRESENT : Z := 0x04.
Definition EXCHANGE_FLAG_INITIATOR : Z := 0x01.
Definition EXCHANGE_FLAG_ACK : Z := 0x02.
Definition EXCHANGE_FLAG_RELIABILITY : Z := 0x04.
Definition EXCHANGE_FLAG_VENDOR : Z := 0x10.

Inductive MessageError :=
  | Truncated
  | UnsupportedVersion (v : Z)
  | ReservedDestination.

Inductive Destination :=
  | NoDestination
  | Node (n : Z)
  | Group (g : Z).

Record MessageHeader := {
  session_id : Z;
  security_flags : Z;
  message_counter : Z;
  source_node_id : option Z;
  destination : Destination
}.

Record ProtocolHeader := {
  initiator : bool;
  needs_ack : bool;
  acked_counter : option Z;
  opcode : Z;
  exchange_id : Z;
  protocol_id : Z;
  vendor_id : option Z
}.

#[export] Instance MessageError_eq_dec : EqDecision MessageError.
Proof. solve_decision. Defined.
#[export] Instance Destination_eq_dec : EqDecision Destination.
Proof. solve_decision. Defined.
#[export] Instance MessageHeader_eq_dec : EqDecision MessageHeader.
Proof. solve_decision. Defined.
#[export] Instance ProtocolHeader_eq_dec : EqDecision ProtocolHeader.
Proof. solve_decision. Defined.

(** ** Cursor *)

Record Cursor := { cur_buf : bytes; cur_pos : Z }.

Abbreviation C := (M Cursor MessageError).

Definition cur_take (n : Z) : C bytes :=
  let! c := get in
  let e := cur_pos c + n in
  if zlen (cur_buf c) <? e then throw Truncated
  else
    modify (λ c, {| cur_buf := cur_buf c; cur_pos := e |}) ;;!
    ret (zslice (cur_pos c) e (cur_buf c)).

Definition cur_u8 : C Z :=
  let! s := cur_take 1 in
  match s with b :: _ => ret b | [] => panic end.
Definition cur_u16 : C Z := let! s := cur_take 2 in ret (le_val s).
Definition cur_u32 : C Z := let! s := cur_take 4 in ret (le_val s).
Definition cur_u64 : C Z := let! s := cur_take 8 in ret (le_val s).

(** [if b { Some(m?) } else { None }]. *)
Definition optionally (b : bool) (m : C Z) : C (option Z) :=
  if b then let! x := m in ret (Some x) else ret None.

(** ** Encoding and decoding *)

Definition set_if (b : bool) (bit flags : Z) : Z := if b then Z.lor flags bit else flags.
Definition has (flags bit : Z) : bool := negb (Z.land flags bit =? 0).

Definition opt_bytes (n : nat) (o : option Z) : bytes :=
  match o with Some v => le_bytes n v | None => [] end.

Definition header_flags (h : MessageHeader) : Z :=
  Z.lor (set_if (bool_decide (is_Some (source_node_id h))) FLAG_SOURCE_PRESENT 0)
    (match destination h with NoDestination => 0 | Node _ => 1 | Group _ => 2 end).

Definition MessageHeader_encode (h : MessageHeader) : bytes :=
  [header_flags h] ++ le_bytes 2 (session_id h) ++ [security_flags h] ++
  le_bytes 4 (message_counter h) ++ opt_bytes 8 (source_node_id h) ++
  match destination h with
  | NoDestination => []
  | Node n => le_bytes 8 n
  | Group g => le_bytes 2 g
  end.

Definition MessageHeader_body : C MessageHeader :=
  let! flags := cur_u8 in
  let version := Z.shiftr flags 4 in
  if negb (version =? 0) then throw (UnsupportedVersion version)
  else
    let! session_id := cur_u16 in
    let! security_flags := cur_u8 in
    let! message_counter := cur_u32 in
    let! source_node_id := optionally (has flags FLAG_SOURCE_PRESENT) cur_u64 in
    let! destination :=
      (let d := Z.land flags 0x03 in
       if d =? 1 then let! n := cur_u64 in ret (Node n)
       else if d =? 2 then let! g := cur_u16 in ret (Group g)
       else if d =? 3 then throw ReservedDestination
       else ret NoDestination) in
    ret {| session_id := session_id; security_flags := security_flags;
           message_counter := message_counter; source_node_id := source_node_id;
           destination := destination |}.

(** Runs a header body on a fresh cursor and returns the final offset. *)
Definition run_cursor {A} (m : C A) (buf : bytes) : res MessageError (A * Z) :=
  match m {| cur_buf := buf; cur_pos := 0 |} with
  | (c, Ok a) => Ok (a, cur_pos c)
  | (_, Err e) => Err e
  | (_, Panic) => Panic
  | (_, OutOfFuel) => OutOfFuel
  end.

Definition MessageHeader_decode (buf : bytes) : res MessageError (MessageHeader * Z) :=
  run_cursor MessageHeader_body buf.

Definition proto_flags (p : ProtocolHeader) : Z :=
  set_if (bool_decide (is_Some (vendor_id p))) EXCHANGE_FLAG_VENDOR
    (set_if (needs_ack p) EXCHANGE_FLAG_RELIABILITY
      (set_if (bool_decide (is_Some (acked_counter p))) EXCHANGE_FLAG_ACK
        (set_if (initiator p) EXCHANGE_FLAG_INITIATOR 0))).

Definition ProtocolHeader_encode (p : ProtocolHeader) : bytes :=
  [proto_flags p] ++ [opcode p] ++ le_bytes 2 (exchange_id p) ++
  opt_bytes 2 (vendor_id p) ++ le_bytes 2 (protocol_id p) ++
  opt_bytes 4 (acked_counter p).

Definition ProtocolHeader_body : C ProtocolHeader :=
  let! flags := cur_u8 in
  let! opcode := cur_u8 in
  let! exchange_id := cur_u16 in
  let! vendor_id := optionally (has flags EXCHANGE_FLAG_VENDOR) cur_u16 in
  let! protocol_id := cur_u16 in
  let! acked_counter := optionally (has flags EXCHANGE_FLAG_ACK) cur_u32 in
  ret {| initiator := has flags EXCHANGE_FLAG_INITIATOR;
         needs_ack := has flags EXCHANGE_FLAG_RELIABILITY;
         acked_counter := acked_counter; opcode := opcode;
         exchange_id := exchange_id; protocol_id := protocol_id;
         vendor_id := vendor_id |}.

Definition ProtocolHeader_decode (buf : bytes) : res MessageError (ProtocolHeader * Z) :=
  run_cursor ProtocolHeader_body buf.

(** ** Values of the Rust types *)

Definition wf_opt (w : Z) (o : option Z) : Prop :=
  match o with Some v => in_u w v | None => True end.

Definition wf_destination (d : Destination) : Prop :=
  match d with NoDestination => True | Node n => in_u 64 n | Group g => in_u 16 g end.

Definition wf_message (h : MessageHeader) : Prop :=
  in_u 16 (session_id h) ∧ is_byte (security_flags h) ∧ in_u 32 (message_counter h) ∧
  wf_opt 64 (source_node_id h) ∧ wf_destination (destination h).

Definition wf_protocol (p : ProtocolHeader) : Prop :=
  wf_opt 32 (acked_counter p) ∧ is_byte (opcode p) ∧ in_u 16 (exchange_id p) ∧
  in_u 16 (protocol_id p) ∧ wf_opt 16 (vendor_id p).

(** ** The codec interface *)

Class Codec (H : Type) := {
  encode : H → bytes;
  decode : bytes → res MessageError (H * Z);
  valid : H → Prop;
  encode_bytes_ok h : valid h → bytes_ok (encode h);
  (** A decoder returns the header that was encoded, and the offset where the
      bytes after it start. *)
  decode_encode h tl : valid h → decode (encode h ++ tl) = Ok (h, zlen (encode h));
  (** On arbitrary bytes a decoder returns; a decoded header is a value of the
      type, and the bytes it consumed are its encoding up to the reserved bits
      of the first octet. *)
  decode_returns b : bytes_ok b → returns (decode b);
  decode_sound b h n : bytes_ok b → decode b = Ok (h, n) →
    valid h ∧ n = zlen (encode h) ∧ n ≤ zlen b ∧ tail (encode h) = zslice 1 n b
}.

(** ** Reading what was written *)

Definition cur_at (pre bs : bytes) : Cursor := {| cur_buf := pre ++ bs; cur_pos := zlen pre |}.

(** [creads m a x]: wherever [a] comes next, [m] consumes exactly [a] and
    returns [x]. *)
Definition creads {A} (m : C A) (a : bytes) (x : A) : Prop :=
  ∀ pre tl, m (cur_at pre (a ++ tl)) = (cur_at (pre ++ a) tl, Ok x).

(** [csound m Q]: on any bytes [m] returns, and the bytes it consumed are
    related by [Q] to the value it returned. *)
Definition csound {A} (m : C A) (Q : bytes → A → Prop) : Prop :=
  ∀ pre bs, bytes_ok bs →
    match m (cur_at pre bs) with
    | (c, Ok x) => ∃ a tl, bs = a ++ tl ∧ c = cur_at (pre ++ a) tl ∧ Q a x
    | (_, Err _) => True
    | _ => False
    end.

Section cursor.
Context {A B : Type}.

Lemma creads_ret (x : A) : creads (ret x) [] x.
Proof. intros pre tl. by rewrite app_nil_r. Qed.

Lemma creads_bind (m : C A) (k : A → C B) a b x y :
  creads m a x → creads (k x) b y → creads (bind m k) (a ++ b) y.
Proof.
  intros Hm Hk pre tl. unfold bind. rewrite <- app_assoc, Hm, Hk.
  by rewrite <- app_assoc.
Qed.

Lemma creads_eq (m : C A) a b x : creads m a x → a = b → creads m b x.
Proof. by intros ? <-. Qed.

Lemma csound_ret (x : A) (Q : bytes → A → Prop) : Q [] x → csound (ret x) Q.
Proof. intros HQ pre bs _. exists [], bs. by rewrite app_nil_r. Qed.

Lemma csound_throw e (Q : bytes → A → Prop) : csound (throw e) Q.
Proof. by intros pre bs _. Qed.

Lemma csound_bind (m : C A) (k : A → C B) P (Q : bytes → B → Prop) :
  csound m P → (∀ a x, P a x → csound (k x) (λ b y, Q (a ++ b) y)) →
  csound (bind m k) Q.
Proof.
  intros Hm Hk pre bs Hbs. specialize (Hm pre bs Hbs). unfold bind.
  destruct (m (cur_at pre bs)) as [c [x|e| |]]; try done.
  destruct Hm as (a & tl & -> & -> & Ha). apply Forall_app in Hbs as [_ Htl].
  specialize (Hk a x Ha (pre ++ a) tl Htl).
  destruct (k x (cur_at (pre ++ a) tl)) as [c [y|e| |]]; try done.
  destruct Hk as (b & tl' & -> & -> & HQ). exists (a ++ b), tl'.
  by rewrite <- !app_assoc.
Qed.

Lemma csound_mono (m : C A) (P Q : bytes → A → Prop) :
  csound m P → (∀ a x, P a x → Q a x) → csound m Q.
Proof.
  intros Hm HPQ pre bs Hbs. specialize (Hm pre bs Hbs).
  destruct (m (cur_at pre bs)) as [c [x|e| |]]; naive_solver.
Qed.
End cursor.

Lemma creads_take a : creads (cur_take (zlen a)) a a.
Proof.
  intros pre tl. unfold cur_take, bind, get, modify, ret, throw. cbn.
  autorewrite with mat. pose proof (zlen_nonneg tl).
  destruct (Z.ltb_spec (zlen pre + (zlen a + zlen tl)) (zlen pre + zlen a)); [lia|].
  rewrite zslice_app_mid. unfold cur_at. by rewrite zlen_app, app_assoc.
Qed.

Lemma csound_take n : 0 ≤ n → csound (cur_take n) (λ a x, a = x ∧ zlen x = n ∧ bytes_ok x).
Proof.
  intros Hn pre bs Hbs. unfold cur_take, bind, get, modify, ret, throw. cbn.
  autorewrite with mat.
  destruct (Z.ltb_spec (zlen pre + zlen bs) (zlen pre + n)) as [|Hlt]; [done|].
  assert (Hsplit : ∃ a tl, bs = a ++ tl ∧ zlen a = n).
  { exists (take (Z.to_nat n) bs), (drop (Z.to_nat n) bs).
    split; [by rewrite take_drop|]. unfold zlen in *. rewrite length_take. lia. }
  destruct Hsplit as (a & tl & -> & Ha). exists a, tl. apply Forall_app in Hbs as [Hb _].
  rewrite <- Ha, zslice_app_mid. unfold cur_at. by rewrite <- app_assoc, zlen_app.
Qed.

Lemma creads_le n z : 0 ≤ z < 256 ^ Z.of_nat n →
  creads (let! s := cur_take (Z.of_nat n) in ret (le_val s)) (le_bytes n z) z.
Proof.
  intros Hz. rewrite <- (app_nil_r (le_bytes n z)). eapply creads_bind.
  - rewrite <- (zlen_le_bytes n z). apply creads_take.
  - rewrite le_val_bytes_small by done. apply creads_ret.
Qed.

Lemma csound_le n :
  csound (let! s := cur_take (Z.of_nat n) in ret (le_val s))
    (λ a z, a = le_bytes n z ∧ 0 ≤ z < 256 ^ Z.of_nat n).
Proof.
  eapply csound_bind; [apply csound_take; lia|]. intros a x (-> & Hl & Hb).
  apply csound_ret. rewrite app_nil_r. split.
  - rewrite <- (le_bytes_val x) at 1 by done. f_equal. unfold zlen in Hl. lia.
  - rewrite <- Hl. by apply le_val_bound.
Qed.

Lemma creads_u8 z : is_byte z → creads cur_u8 [z] z.
Proof.
  intros Hz. apply (creads_bind _ _ [z] [] [z]); [apply (creads_take [z])|apply creads_ret].
Qed.
Lemma csound_u8 : csound cur_u8 (λ a z, a = [z] ∧ is_byte z).
Proof.
  eapply csound_bind; [by apply csound_take|]. intros a [|z [|]] (-> & Hl & Hb); try done.
  - apply csound_ret. by inversion Hb.
  - unfold zlen in Hl. cbn in Hl. lia.
Qed.

Lemma creads_u16 z : in_u 16 z → creads cur_u16 (le_bytes 2 z) z.
Proof. apply (creads_le 2). Qed.
Lemma creads_u32 z : in_u 32 z → creads cur_u32 (le_bytes 4 z) z.
Proof. apply (creads_le 4). Qed.
Lemma creads_u64 z : in_u 64 z → creads cur_u64 (le_bytes 8 z) z.
Proof. apply (creads_le 8). Qed.
Lemma csound_u16 : csound cur_u16 (λ a z, a = le_bytes 2 z ∧ in_u 16 z).
Proof. apply (csound_le 2). Qed.
Lemma csound_u32 : csound cur_u32 (λ a z, a = le_bytes 4 z ∧ in_u 32 z).
Proof. apply (csound_le 4). Qed.
Lemma csound_u64 : csound cur_u64 (λ a z, a = le_bytes 8 z ∧ in_u 64 z).
Proof. apply (csound_le 8). Qed.

Lemma creads_optionally (o : option Z) n (m : C Z) :
  (∀ v, o = Some v → creads m (le_bytes n v) v) →
  creads (optionally (bool_decide (is_Some o)) m) (opt_bytes n o) o.
Proof.
  intros Hm. destruct o as [v|]; cbn; [|apply creads_ret].
  rewrite <- (app_nil_r (le_bytes n v)). eapply creads_bind; [by apply Hm|apply creads_ret].
Qed.

Lemma csound_optionally (b : bool) n w (m : C Z) :
  csound m (λ a z, a = le_bytes n z ∧ in_u w z) →
  csound (optionally b m)
    (λ a o, a = opt_bytes n o ∧ wf_opt w o ∧ b = bool_decide (is_Some o)).
Proof.
  intros Hm. destruct b; cbn; [|by apply csound_ret].
  eapply csound_bind; [done|]. intros a v [-> Hv]. apply csound_ret.
  by rewrite app_nil_r.
Qed.

Lemma run_cursor_reads {A} (m : C A) a x tl :
  creads m a x → run_cursor m (a ++ tl) = Ok (x, zlen a).
Proof.
  intros Hm. unfold run_cursor.
  change {| cur_buf := a ++ tl; cur_pos := 0 |} with (cur_at [] (a ++ tl)).
  by rewrite (Hm [] tl).
Qed.

Lemma run_cursor_sound {A} (m : C A) Q b : csound m Q → bytes_ok b →
  returns (run_cursor m b) ∧
  ∀ x n, run_cursor m b = Ok (x, n) → ∃ a tl, b = a ++ tl ∧ n = zlen a ∧ Q a x.
Proof.
  intros Hm Hb. specialize (Hm [] b Hb). unfold run_cursor, cur_at in *. cbn in Hm.
  change {| cur_buf := b; cur_pos := 0 |} with {| cur_buf := b; cur_pos := zlen (@nil Z) |}.
  destruct (m _) as [c [y|e| |]]; try done. split; [done|].
  intros x n [= <- <-]. destruct Hm as (a & tl & -> & -> & HQ). by exists a, tl.
Qed.

(** ** The two headers *)

Definition dest_code (d : Destination) : Z :=
  match d with NoDestination => 0 | Node _ => 1 | Group _ => 2 end.

Lemma header_flags_spec h :
  is_byte (header_flags h) ∧ Z.shiftr (header_flags h) 4 = 0 ∧
  has (header_flags h) FLAG_SOURCE_PRESENT = bool_decide (is_Some (source_node_id h)) ∧
  Z.land (header_flags h) 0x03 = dest_code (destination h).
Proof.
  unfold header_flags. destruct (source_node_id h), (destination h); vm_compute;
    intuition congruence.
Qed.

Lemma proto_flags_spec p :
  is_byte (proto_flags p) ∧
  has (proto_flags p) EXCHANGE_FLAG_VENDOR = bool_decide (is_Some (vendor_id p)) ∧
  has (proto_flags p) EXCHANGE_FLAG_ACK = bool_decide (is_Some (acked_counter p)) ∧
  has (proto_flags p) EXCHANGE_FLAG_INITIATOR = initiator p ∧
  has (proto_flags p) EXCHANGE_FLAG_RELIABILITY = needs_ack p.
Proof.
  unfold proto_flags.
  destruct (vendor_id p), (acked_counter p), (initiator p), (needs_ack p); vm_compute;
    intuition congruence.
Qed.

Create HintDb cursor discriminated.
#[export] Hint Resolve creads_u8 creads_u16 creads_u32 creads_u64 creads_optionally
  csound_u8 csound_u16 csound_u32 csound_u64 csound_optionally csound_throw : cursor.

Lemma creads_last {A B} (m : C A) (f : A → B) a x :
  creads m a x → creads (let! v := m in ret (f v)) a (f x).
Proof.
  intros Hm. rewrite <- (app_nil_r a). eapply creads_bind; [done|]. apply creads_ret.
Qed.

Lemma MessageHeader_reads h :
  wf_message h → creads MessageHeader_body (MessageHeader_encode h) h.
Proof.
  intros (Hs & Hf & Hc & Hn & Hd).
  destruct (header_flags_spec h) as (Hfl & Hv & Hsrc & Hdst).
  unfold MessageHeader_body, MessageHeader_encode.
  eapply creads_bind; [by auto with cursor|]. rewrite Hv, Hsrc, Hdst. cbn [Z.eqb negb].
  do 3 (eapply creads_bind; [by auto with cursor|]).
  eapply creads_bind.
  { apply creads_optionally. intros v Hv'. rewrite Hv' in Hn. by apply creads_u64. }
  rewrite <- (app_nil_r (match destination h with _ => _ end)). eapply creads_bind.
  - instantiate (1 := destination h).
    destruct (destination h); cbn [dest_code Z.eqb Pos.eqb];
      eauto using creads_ret, creads_last, creads_u64, creads_u16.
  - destruct h. apply creads_ret.
Qed.

Lemma ProtocolHeader_reads p :
  wf_protocol p → creads ProtocolHeader_body (ProtocolHeader_encode p) p.
Proof.
  intros (Ha & Ho & He & Hp & Hv).
  destruct (proto_flags_spec p) as (Hfl & Hve & Hac & Hin & Hre).
  unfold ProtocolHeader_body, ProtocolHeader_encode.
  eapply creads_bind; [by auto with cursor|]. rewrite Hve, Hac, Hin, Hre.
  do 2 (eapply creads_bind; [by auto with cursor|]).
  eapply creads_bind.
  { apply creads_optionally. intros v Hv'. rewrite Hv' in Hv. by apply creads_u16. }
  eapply creads_bind; [by auto with cursor|].
  rewrite <- (app_nil_r (opt_bytes 4 _)). eapply creads_bind.
  { apply creads_optionally. intros v Hv'. rewrite Hv' in Ha. by apply creads_u32. }
  destruct p. apply creads_ret.
Qed.

(** One step of a soundness proof. *)
Ltac cstep :=
  eapply csound_bind; [solve [eauto with cursor]|];
  let a := fresh "a" in let x := fresh "x" in let H := fresh "H" in
  intros a x H; cbv beta in H; destruct_and?; subst a.

Lemma csound_destination d :
  csound (if d =? 1 then let! n := cur_u64 in ret (Node n)
          else if d =? 2 then let! g := cur_u16 in ret (Group g)
          else if d =? 3 then throw ReservedDestination
          else ret NoDestination)
    (λ a x, wf_destination x ∧
       a = match x with NoDestination => [] | Node n => le_bytes 8 n | Group g => le_bytes 2 g end).
Proof.
  repeat case_match.
  - cstep. apply csound_ret. by rewrite app_nil_r.
  - cstep. apply csound_ret. by rewrite app_nil_r.
  - apply csound_throw.
  - by apply csound_ret.
Qed.
#[export] Hint Resolve csound_destination : cursor.

Lemma MessageHeader_sound :
  csound MessageHeader_body (λ a h, wf_message h ∧ a ≠ [] ∧ tail a = tail (MessageHeader_encode h)).
Proof.
  unfold MessageHeader_body. cstep. case_match; [apply csound_throw|].
  do 5 cstep. apply csound_ret. split_and!; [|done|].
  - by split_and!.
  - unfold MessageHeader_encode. cbn [tail app security_flags session_id message_counter
      source_node_id destination]. by rewrite !app_nil_r.
Qed.

Lemma ProtocolHeader_sound :
  csound ProtocolHeader_body (λ a p, wf_protocol p ∧ a ≠ [] ∧ tail a = tail (ProtocolHeader_encode p)).
Proof.
  unfold ProtocolHeader_body. do 6 cstep. apply csound_ret. split_and!; [|done|].
  - by split_and!.
  - unfold ProtocolHeader_encode. cbn [tail app opcode exchange_id vendor_id protocol_id
      acked_counter]. by rewrite !app_nil_r.
Qed.

Lemma opt_bytes_ok n o : bytes_ok (opt_bytes n o).
Proof. destruct o; cbn; auto with mat. Qed.
#[export] Hint Resolve opt_bytes_ok : mat.

Lemma run_cursor_header {A} (m : C A) (enc : A → bytes) (P : A → Prop) b x n :
  csound m (λ a x, P x ∧ a ≠ [] ∧ tail a = tail (enc x)) → (∀ x, enc x ≠ []) →
  bytes_ok b → run_cursor m b = Ok (x, n) →
  P x ∧ n = zlen (enc x) ∧ n ≤ zlen b ∧ tail (enc x) = zslice 1 n b.
Proof.
  intros Hm Henc Hb Hr.
  destruct (proj2 (run_cursor_sound _ _ b Hm Hb) x n Hr) as (a & tl & -> & -> & HP & Ha & Ht).
  assert (zlen a = zlen (enc x)) as Hl.
  { specialize (Henc x). destruct a as [|y a], (enc x) as [|z e]; try done.
    cbn in Ht. subst. by rewrite !zlen_cons. }
  rewrite zlen_app. pose proof (zlen_nonneg tl). split_and!; [done|done|lia|].
  rewrite <- Ht. destruct a as [|y a]; [done|]. cbn [tail].
  rewrite zlen_cons. symmetry. apply (zslice_app_mid [y] a tl).
Qed.

Lemma run_cursor_returns {A} (m : C A) Q b :
  csound m Q → bytes_ok b → returns (run_cursor m b).
Proof. intros Hm Hb. by apply (run_cursor_sound m Q b). Qed.

Lemma MessageHeader_encode_ok h : wf_message h → bytes_ok (MessageHeader_encode h).
Proof.
  intros (Hs & Hf & Hc & Hn & Hd). destruct (header_flags_spec h) as (Hfl & _).
  unfold MessageHeader_encode. destruct (destination h);
    repeat (apply Forall_app; split); auto with mat.
Qed.

Lemma ProtocolHeader_encode_ok p : wf_protocol p → bytes_ok (ProtocolHeader_encode p).
Proof.
  intros (Ha & Ho & He & Hp & Hv). destruct (proto_flags_spec p) as (Hfl & _).
  unfold ProtocolHeader_encode.
  repeat (apply Forall_app; split); auto with mat.
Qed.

#[export] Instance MessageHeader_codec : Codec MessageHeader := {|
  encode := MessageHeader_encode;
  decode := MessageHeader_decode;
  valid := wf_message;
  encode_bytes_ok := MessageHeader_encode_ok;
  decode_encode h tl Hh := run_cursor_reads _ _ _ tl (MessageHeader_reads h Hh);
  decode_returns b := run_cursor_returns _ _ b MessageHeader_sound;
  decode_sound b h n := run_cursor_header _ _ _ b h n MessageHeader_sound ltac:(done)
|}.

#[export] Instance ProtocolHeader_codec : Codec ProtocolHeader := {|
  encode := ProtocolHeader_encode;
  decode := ProtocolHeader_decode;
  valid := wf_protocol;
  encode_bytes_ok := ProtocolHeader_encode_ok;
  decode_encode h tl Hh := run_cursor_reads _ _ _ tl (ProtocolHeader_reads h Hh);
  decode_returns b := run_cursor_returns _ _ b ProtocolHeader_sound;
  decode_sound b h n := run_cursor_header _ _ _ b h n ProtocolHeader_sound ltac:(done)
|}.

(** ** Properties *)

(** A message header and a protocol header laid out back to back, as a
    datagram carries them, decode to the headers that were encoded and to the
    offset where the bytes after each start: every optional field (source node,
    destination, vendor id, acknowledged counter) survives, present or not. *)
Theorem headers_round_trip (h : MessageHeader) (p : ProtocolHeader) (tl : bytes) :
  wf_message h → wf_protocol p →
  MessageHeader_decode (MessageHeader_encode h ++ ProtocolHeader_encode p ++ tl) =
    Ok (h, zlen (MessageHeader_encode h)) ∧
  ProtocolHeader_decode (ProtocolHeader_encode p ++ tl) =
    Ok (p, zlen (ProtocolHeader_encode p)).
Proof.
  intros Hh Hp. split.
  - exact (decode_encode h _ Hh).
  - exact (decode_encode p _ Hp).
Qed.

Definition sample_header : MessageHeader :=
  {| session_id := 0x1234; security_flags := 0x01; message_counter := 0xDEADBEEF;
     source_node_id := Some 0x1122334455667788; destination := Group 0x8001 |}.
Definition sample_proto : ProtocolHeader :=
  {| initiator := true; needs_ack := true; acked_counter := Some 7; opcode := 0x20;
     exchange_id := 0xBEEF; protocol_id := 1; vendor_id := None |}.

Lemma sample_header_wf : wf_message sample_header.
Proof. split_and!; by vm_compute. Qed.
Lemma sample_proto_wf : wf_protocol sample_proto.
Proof. split_and!; by vm_compute. Qed.

Lemma headers_round_trip_witness :
  MessageHeader_decode (MessageHeader_encode sample_header ++
      ProtocolHeader_encode sample_proto ++ [1; 2; 3]) = Ok (sample_header, 18) ∧
  ProtocolHeader_decode (ProtocolHeader_encode sample_proto ++ [1; 2; 3]) =
    Ok (sample_proto, 10).
Proof.
  apply (headers_round_trip sample_header sample_proto [1; 2; 3]
    sample_header_wf sample_proto_wf).
Defined.

(** On arbitrary received bytes both header decoders return (no panic, no
    read outside the buffer); what they accept is a header of the Rust type,
    the payload offset is inside the buffer, and every byte before it except
    the first (whose reserved bits are ignored) is the one the encoder writes. *)
Theorem headers_decode_untrusted (b : bytes) :
  bytes_ok b →
  returns (MessageHeader_decode b) ∧ returns (ProtocolHeader_decode b) ∧
  (∀ h n, MessageHeader_decode b = Ok (h, n) →
     wf_message h ∧ n ≤ zlen b ∧ n = zlen (MessageHeader_encode h) ∧
     zslice 1 n b = tail (MessageHeader_encode h)) ∧
  (∀ p n, ProtocolHeader_decode b = Ok (p, n) →
     wf_protocol p ∧ n ≤ zlen b ∧ n = zlen (ProtocolHeader_encode p) ∧
     zslice 1 n b = tail (ProtocolHeader_encode p)).
Proof.
  intros Hb. split_and!; [exact (decode_returns (H:=MessageHeader) b Hb)|
    exact (decode_returns (H:=ProtocolHeader) b Hb)|..].
  - intros h n Hd. by destruct (@decode_sound _ MessageHeader_codec b h n Hb Hd) as (?&?&?&?).
  - intros p n Hd. by destruct (@decode_sound _ ProtocolHeader_codec b p n Hb Hd) as (?&?&?&?).
Qed.

Lemma headers_decode_untrusted_witness :
  returns (MessageHeader_decode [0x03; 0; 0; 0; 1; 0; 0; 0]) ∧
  returns (ProtocolHeader_decode [0x10; 0x20]).
Proof.
  split.
  - apply (headers_decode_untrusted [0x03; 0; 0; 0; 1; 0; 0; 0]).
    repeat constructor; unfold is_byte; lia.
  - apply (headers_decode_untrusted [0x10; 0x20]). repeat constructor; unfold is_byte; lia.
Defined.
