(* ===== verification/Counter.v ===== *)
(** * Message counters and the replay window

    Models [crates/mat-controller/src/counter.rs]: the outgoing counter
    [TxCounter] and the sliding window [RxWindow] over received counters.

    The specification of the window is the set of counters it has accepted;
    [window_inv] says which part of that set the 32-bit bitmap remembers. *)

From stdpp Require Import sets gmap.
From S2P Require Import Prelude.

(** ** Outgoing counter *)

(** The masked value of four bytes of the operating system's generator. *)
Definition random_initial (os_rng : bytes) : Z := Z.land (le_val os_rng) 0x0FFFFFFF + 1.

Record TxCounter := { tx_value : Z }.

Definition TxCounter_new (os_rng : bytes) : TxCounter :=
  {| tx_value := random_initial os_rng |}.

(** The counter after the call and the value returned. *)
Definition tx_next (t : TxCounter) : TxCounter * Z :=
  ({| tx_value := wrap 32 (tx_value t + 1) |}, tx_value t).

(** ** Replay window *)

Record RxWindow := { rx_max : Z; rx_bitmap : Z; rx_empty : bool }.

Definition RxWindow_new : RxWindow := {| rx_max := 0; rx_bitmap := 0; rx_empty := true |}.

(** [1u32 << n] and [x << n] for [n < 32]. *)
Definition shl32 (x n : Z) : Z := wrap 32 (Z.shiftl x n).

Definition check_and_commit (w : RxWindow) (counter : Z) : RxWindow * bool :=
  if rx_empty w then
    ({| rx_max := counter; rx_bitmap := 0; rx_empty := false |}, true)
  else if rx_max w <? counter then
    let delta := counter - rx_max w in
    let bitmap :=
      if 32 <=? delta then 0
      else Z.lor (shl32 (rx_bitmap w) delta) (shl32 1 (delta - 1)) in
    ({| rx_max := counter; rx_bitmap := bitmap; rx_empty := false |}, true)
  else if counter =? rx_max w then (w, false)
  else
    let offset := rx_max w - counter in
    if 32 <? offset then (w, false)
    else
      let bit := shl32 1 (offset - 1) in
      if negb (Z.land (rx_bitmap w) bit =? 0) then (w, false)
      else ({| rx_max := rx_max w; rx_bitmap := Z.lor (rx_bitmap w) bit;
               rx_empty := false |}, true).

(** Feeding a sequence of received counters: the final window and, for each
    counter, whether it was accepted. *)
Fixpoint check_all (w : RxWindow) (cs : list Z) : RxWindow * list bool :=
  match cs with
  | [] => (w, [])
  | c :: cs =>
      let (w1, b) := check_and_commit w c in
      let (w2, bs) := check_all w1 cs in
      (w2, b :: bs)
  end.

(** ** What the window remembers *)

Record window_inv (w : RxWindow) (seen : gset Z) : Prop := {
  inv_empty : rx_empty w = true → seen = ∅;
  inv_max_in : rx_empty w = false → rx_max w ∈ seen;
  inv_max : ∀ c, c ∈ seen → c ≤ rx_max w;
  inv_bits : ∀ i, 32 ≤ i → Z.testbit (rx_bitmap w) i = false;
  inv_sound : ∀ i, 0 ≤ i < 32 → Z.testbit (rx_bitmap w) i = true → rx_max w - 1 - i ∈ seen;
  inv_complete : ∀ i, 0 ≤ i < 31 → rx_max w - 1 - i ∈ seen → Z.testbit (rx_bitmap w) i = true;
}.

(** The abstract decision: [c] is above everything accepted so far, or inside
    the window and not accepted before. *)
Definition fresh (w : RxWindow) (seen : gset Z) (c : Z) : Prop :=
  rx_empty w = true ∨ rx_max w < c ∨ (rx_max w - 32 ≤ c ∧ c ∉ seen).

Lemma window_inv_new : window_inv RxWindow_new ∅.
Proof.
  split; cbn [RxWindow_new rx_max rx_bitmap rx_empty]; [done|done|set_solver| | |set_solver].
  - intros. apply Z.testbit_0_l.
  - intros i _. by rewrite Z.testbit_0_l.
Qed.

Lemma shl32_testbit x n i : 0 ≤ n → 0 ≤ i →
  Z.testbit (shl32 x n) i = bool_decide (i < 32) && Z.testbit x (i - n).
Proof.
  intros Hn Hi. unfold shl32, wrap. rewrite <- Z.land_ones by done.
  rewrite Z.land_spec, Z.testbit_ones_nonneg, Z.shiftl_spec by lia.
  destruct (Z.ltb_spec i 32); [rewrite bool_decide_true by done|rewrite bool_decide_false by lia];
    by rewrite ?andb_true_r, ?andb_false_r.
Qed.

Lemma shl32_1_testbit n i : 0 ≤ n < 32 → 0 ≤ i →
  Z.testbit (shl32 1 n) i = bool_decide (i = n).
Proof.
  intros Hn Hi. rewrite shl32_testbit by lia.
  destruct (decide (i = n)) as [->|Hne].
  - rewrite bool_decide_true by lia. rewrite Z.sub_diag. by rewrite bool_decide_true.
  - rewrite (bool_decide_false (i = n)) by done.
    change 1 with (2 ^ 0). rewrite Z.pow2_bits_eqb by done.
    replace (0 =? i - n) with false by lia. by rewrite andb_false_r.
Qed.

(** The bit test of the code reads one bit. *)
Lemma land_bit x n : 0 ≤ n < 32 →
  (Z.land x (shl32 1 n) =? 0) = negb (Z.testbit x n).
Proof.
  intros Hn. destruct (Z.testbit x n) eqn:Hx; cbn.
  - apply Z.eqb_neq. intros H0. assert (Z.testbit (Z.land x (shl32 1 n)) n = false) as H.
    { by rewrite H0, Z.testbit_0_l. }
    rewrite Z.land_spec, shl32_1_testbit, Hx, bool_decide_true in H by lia. done.
  - apply Z.eqb_eq, Z.bits_inj'. intros i Hi.
    rewrite Z.land_spec, shl32_1_testbit, Z.testbit_0_l by lia.
    case_bool_decide; subst; by rewrite ?Hx, ?andb_false_r.
Qed.

(** Shifting the window up by [d] and marking the old maximum. *)
Lemma shifted_testbit x d i : 1 ≤ d < 32 → 0 ≤ i →
  Z.testbit (Z.lor (shl32 x d) (shl32 1 (d - 1))) i =
  bool_decide (i < 32) && Z.testbit x (i - d) || bool_decide (i = d - 1).
Proof.
  intros Hd Hi. by rewrite Z.lor_spec, shl32_testbit, shl32_1_testbit by lia.
Qed.

Lemma window_advance w seen c :
  window_inv w seen → rx_empty w = false → rx_max w < c →
  let r := check_and_commit w c in r.2 = true ∧ window_inv r.1 ({[c]} ∪ seen).
Proof.
  intros Hinv Hne Hlt. unfold check_and_commit. rewrite Hne.
  destruct (Z.ltb_spec (rx_max w) c); [|lia]. split; [done|]. cbn [fst].
  assert (Hle : ∀ x, x ∈ ({[c]} ∪ seen : gset Z) → x ≤ c).
  { intros x Hx. apply elem_of_union in Hx as [Hx|Hx]; [set_solver by lia|].
    apply Hinv in Hx. lia. }
  destruct (Z.leb_spec 32 (c - rx_max w)).
  - split; cbn [rx_max rx_bitmap rx_empty]; [done|set_solver|done|intros; apply Z.testbit_0_l|..].
    + intros i _. by rewrite Z.testbit_0_l.
    + intros i Hi Hin. exfalso. apply elem_of_union in Hin as [Hin|Hin].
      * apply elem_of_singleton in Hin. lia.
      * apply Hinv in Hin. lia.
  - split; cbn [rx_max rx_bitmap rx_empty]; [done|set_solver|done|..].
    + intros i Hi. rewrite shifted_testbit by lia. rewrite !bool_decide_false by lia. done.
    + intros i Hi. rewrite shifted_testbit by lia. rewrite (bool_decide_true (i < 32)) by lia.
      intros Hb. apply orb_true_iff in Hb as [Hb|Hb%bool_decide_eq_true]; apply elem_of_union; right.
      * assert (0 ≤ i - (c - rx_max w)).
        { destruct (decide (0 ≤ i - (c - rx_max w))); [done|].
          rewrite Z.testbit_neg_r in Hb by lia. done. }
        cbn in Hb. apply Hinv in Hb; [|lia].
        by replace (c - 1 - i) with (rx_max w - 1 - (i - (c - rx_max w))) by lia.
      * replace (c - 1 - i) with (rx_max w) by lia. by apply Hinv.
    + intros i Hi Hin. rewrite shifted_testbit, (bool_decide_true (i < 32)) by lia.
      apply orb_true_iff. apply elem_of_union in Hin as [Hin|Hin].
      { apply elem_of_singleton in Hin. lia. }
      pose proof (inv_max _ _ Hinv _ Hin).
      destruct (decide (i = c - rx_max w - 1)); [right; by apply bool_decide_true|left].
      cbn. apply Hinv; [lia|].
      by replace (rx_max w - 1 - (i - (c - rx_max w))) with (c - 1 - i) by lia.
Qed.

(** A counter at or below the maximum. *)
Lemma window_below w seen c :
  window_inv w seen → rx_empty w = false → c ≤ rx_max w →
  let r := check_and_commit w c in
  if r.2 then rx_max w - 32 ≤ c ∧ (c ∉ seen ∨ rx_max w - c = 32) ∧ window_inv r.1 ({[c]} ∪ seen)
  else r.1 = w ∧ (c ∈ seen ∨ c < rx_max w - 32).
Proof.
  intros Hinv Hne Hle. unfold check_and_commit. rewrite Hne.
  destruct (Z.ltb_spec (rx_max w) c); [lia|].
  destruct (Z.eqb_spec c (rx_max w)) as [->|Hc].
  { split; [done|]. left. by apply Hinv. }
  destruct (Z.ltb_spec 32 (rx_max w - c)); [cbn; split; [done|lia]|].
  rewrite land_bit by lia. rewrite negb_involutive.
  set (n := rx_max w - c - 1) in *.
  destruct (Z.testbit (rx_bitmap w) n) eqn:Hb.
  - cbn. split; [done|]. left. apply Hinv in Hb; [|lia].
    by replace (rx_max w - 1 - n) with c in Hb by lia.
  - cbn [fst snd]. split_and!; [lia| |].
    + destruct (decide (rx_max w - c = 32)); [by right|left]. intros Hin.
      rewrite (inv_complete _ _ Hinv n) in Hb; [done|lia|].
      by replace (rx_max w - 1 - n) with c by lia.
    + split; cbn [rx_max rx_bitmap rx_empty]; [done| | | | |].
      * intros _. apply elem_of_union. right. by apply Hinv.
      * intros x Hx. apply elem_of_union in Hx as [Hx|Hx]; [set_solver by lia|].
        by apply Hinv.
      * intros i Hi. rewrite Z.lor_spec, shl32_1_testbit, bool_decide_false by lia.
        rewrite (inv_bits _ _ Hinv) by lia. done.
      * intros i Hi. rewrite Z.lor_spec, shl32_1_testbit by lia.
        intros Hx. apply elem_of_union. apply orb_true_iff in Hx as [Hx|Hx%bool_decide_eq_true].
        -- right. by apply Hinv.
        -- left. apply elem_of_singleton. lia.
      * intros i Hi Hin. rewrite Z.lor_spec, shl32_1_testbit by lia.
        apply orb_true_iff. apply elem_of_union in Hin as [Hin|Hin].
        -- right. apply elem_of_singleton in Hin. apply bool_decide_true. lia.
        -- left. by apply Hinv.
Qed.

(** ** Runs *)

(** The window and the set of accepted counters after a sequence of received
    counters. *)
Definition run_step (s : RxWindow * gset Z) (c : Z) : RxWindow * gset Z :=
  let (w, b) := check_and_commit s.1 c in (w, if b then {[c]} ∪ s.2 else s.2).
Definition run (cs : list Z) : RxWindow * gset Z := foldl run_step (RxWindow_new, ∅) cs.

Lemma window_step w seen c :
  window_inv w seen → window_inv (run_step (w, seen) c).1 (run_step (w, seen) c).2.
Proof.
  intros Hinv. unfold run_step. cbn [fst snd].
  destruct (rx_empty w) eqn:He.
  - pose proof (inv_empty _ _ Hinv He) as ->. unfold check_and_commit. rewrite He. cbn [fst snd].
    split; cbn [rx_max rx_bitmap rx_empty]; [done|set_solver| | | |].
    + set_solver by lia.
    + intros. apply Z.testbit_0_l.
    + intros i _. by rewrite Z.testbit_0_l.
    + intros i Hi Hin. set_solver by lia.
  - destruct (decide (rx_max w < c)).
    + pose proof (window_advance w seen c Hinv He ltac:(done)) as [Hb Hi].
      destruct (check_and_commit w c) as [w' b]. cbn in *. by subst b.
    + pose proof (window_below w seen c Hinv He ltac:(lia)) as H.
      destruct (check_and_commit w c) as [w' [|]]; cbn in *.
      * by destruct H as (_ & _ & ?).
      * by destruct H as [-> _].
Qed.

Lemma run_inv cs : window_inv (run cs).1 (run cs).2.
Proof.
  unfold run. assert (H : ∀ s, window_inv s.1 s.2 →
    window_inv (foldl run_step s cs).1 (foldl run_step s cs).2).
  { induction cs as [|c cs IH]; intros [w seen] Hs; [done|]. by apply IH, window_step. }
  apply H, window_inv_new.
Qed.

(** ** What the window forgets

    A jump of 32 or more clears the bitmap, the old maximum included. The
    counters accepted since the maximum last jumped that far are the ones the
    window can still recognise. *)
Definition recent_step (s : RxWindow * gset Z) (c : Z) : RxWindow * gset Z :=
  let (w, b) := check_and_commit s.1 c in
  (w, if b then
        if rx_empty s.1 || (32 <=? c - rx_max s.1) then {[c]} else {[c]} ∪ s.2
      else s.2).
Definition recent_run (cs : list Z) : RxWindow * gset Z :=
  foldl recent_step (RxWindow_new, ∅) cs.
Definition recent (cs : list Z) : gset Z := (recent_run cs).2.

Record recent_inv (w : RxWindow) (mem : gset Z) : Prop := {
  rec_max_in : rx_empty w = false → rx_max w ∈ mem;
  rec_max : rx_empty w = false → ∀ c, c ∈ mem → c ≤ rx_max w;
  rec_high : ∀ i, 32 ≤ i → Z.testbit (rx_bitmap w) i = false;
  rec_bits : rx_empty w = false → ∀ i, 0 ≤ i < 32 →
    Z.testbit (rx_bitmap w) i = bool_decide (rx_max w - 1 - i ∈ mem);
}.

(** At or below the maximum, the decision in terms of the remembered set. *)
Lemma below_decides w mem c :
  recent_inv w mem → rx_empty w = false → c ≤ rx_max w →
  (check_and_commit w c).2 = bool_decide (rx_max w - 32 ≤ c ∧ c ∉ mem).
Proof.
  intros Hinv Hne Hle. unfold check_and_commit. rewrite Hne.
  destruct (Z.ltb_spec (rx_max w) c); [lia|].
  destruct (Z.eqb_spec c (rx_max w)) as [->|Hc].
  { symmetry. apply bool_decide_false. intros [_ []]. by apply Hinv. }
  destruct (Z.ltb_spec 32 (rx_max w - c)).
  { symmetry. apply bool_decide_false. lia. }
  rewrite land_bit, negb_involutive, (rec_bits _ _ Hinv) by (done || lia).
  replace (rx_max w - 1 - (rx_max w - c - 1)) with c by lia.
  destruct (decide (c ∈ mem)).
  - rewrite bool_decide_true by done. symmetry. by apply bool_decide_false; intros [_ ?].
  - rewrite bool_decide_false by done. symmetry. apply bool_decide_true. split; [lia|done].
Qed.

Lemma recent_jump w mem c :
  recent_inv w mem → (rx_empty w = true ∨ 32 ≤ c - rx_max w) →
  recent_inv (recent_step (w, mem) c).1 (recent_step (w, mem) c).2.
Proof.
  intros Hinv Hj.
  assert (recent_step (w, mem) c =
    ({| rx_max := c; rx_bitmap := 0; rx_empty := false |}, {[c]})) as ->.
  { unfold recent_step, check_and_commit. cbn [fst snd].
    destruct (rx_empty w); [done|]. destruct Hj as [?|Hj]; [done|].
    destruct (Z.ltb_spec (rx_max w) c); [|lia].
    by destruct (Z.leb_spec 32 (c - rx_max w)); [|lia]. }
  split; cbn [fst snd rx_max rx_bitmap rx_empty].
  - intros _. by apply elem_of_singleton.
  - intros _ x Hx%elem_of_singleton. lia.
  - intros. apply Z.testbit_0_l.
  - intros _ i Hi. rewrite Z.testbit_0_l. symmetry. apply bool_decide_false.
    intros Hx%elem_of_singleton. lia.
Qed.

Lemma recent_advance w mem c :
  recent_inv w mem → rx_empty w = false → 0 < c - rx_max w < 32 →
  recent_inv (recent_step (w, mem) c).1 (recent_step (w, mem) c).2.
Proof.
  intros Hinv He Hd. unfold recent_step, check_and_commit. cbn [fst snd]. rewrite He.
  destruct (Z.ltb_spec (rx_max w) c); [|lia]. cbn [orb].
  destruct (Z.leb_spec 32 (c - rx_max w)); [lia|].
  split; cbn [fst snd rx_max rx_bitmap rx_empty].
  - set_solver.
  - intros _ x [->%elem_of_singleton|Hx]%elem_of_union; [done|].
    pose proof (rec_max _ _ Hinv He x Hx). lia.
  - intros i Hi. rewrite shifted_testbit by lia. by rewrite !bool_decide_false by lia.
  - intros _ i Hi. rewrite shifted_testbit, (bool_decide_true (i < 32)) by lia. cbn [andb].
    destruct (decide (i = c - rx_max w - 1)) as [->|Hn].
    { rewrite (bool_decide_true (_ = _)), orb_true_r by done. symmetry.
      apply bool_decide_true, elem_of_union. right.
      replace (c - 1 - (c - rx_max w - 1)) with (rx_max w) by lia. by apply Hinv. }
    rewrite (bool_decide_false (_ = _)), orb_false_r by done.
    destruct (decide (i < c - rx_max w)).
    + rewrite Z.testbit_neg_r by lia. symmetry. apply bool_decide_false.
      intros [Hx%elem_of_singleton|Hx]%elem_of_union; [lia|].
      pose proof (rec_max _ _ Hinv He _ Hx). lia.
    + rewrite (rec_bits _ _ Hinv) by (done || lia).
      replace (rx_max w - 1 - (i - (c - rx_max w))) with (c - 1 - i) by lia.
      apply bool_decide_ext. set_solver by lia.
Qed.

Lemma recent_below w mem c :
  recent_inv w mem → rx_empty w = false → c ≤ rx_max w →
  recent_inv (recent_step (w, mem) c).1 (recent_step (w, mem) c).2.
Proof.
  intros Hinv He Hle. unfold recent_step, check_and_commit. cbn [fst snd]. rewrite He.
  destruct (Z.ltb_spec (rx_max w) c); [lia|].
  destruct (Z.eqb_spec c (rx_max w)) as [->|Hc]; [done|].
  destruct (Z.ltb_spec 32 (rx_max w - c)); [done|].
  destruct (negb _); [done|]. cbn [orb].
  destruct (Z.leb_spec 32 (c - rx_max w)); [lia|].
  split; cbn [fst snd rx_max rx_bitmap rx_empty].
  - intros _. apply elem_of_union. right. by apply Hinv.
  - intros _ x [->%elem_of_singleton|Hx]%elem_of_union; [done|]. by apply (rec_max _ _ Hinv).
  - intros i Hi. rewrite Z.lor_spec, shl32_1_testbit, bool_decide_false by lia.
    by rewrite (rec_high _ _ Hinv).
  - intros _ i Hi. rewrite Z.lor_spec, shl32_1_testbit, (rec_bits _ _ Hinv) by (done || lia).
    destruct (decide (i = rx_max w - c - 1)) as [->|Hn].
    + rewrite (bool_decide_true (_ = _)), orb_true_r by done. symmetry.
      apply bool_decide_true. replace (rx_max w - 1 - _) with c by lia. set_solver.
    + rewrite (bool_decide_false (i = _)), orb_false_r by done. apply bool_decide_ext.
      set_solver by lia.
Qed.

Lemma recent_run_inv cs : recent_inv (recent_run cs).1 (recent_run cs).2.
Proof.
  unfold recent_run. assert (H : ∀ s, recent_inv s.1 s.2 →
    recent_inv (foldl recent_step s cs).1 (foldl recent_step s cs).2).
  { induction cs as [|c cs IH]; intros [w mem] Hs; [done|]. apply IH.
    destruct (rx_empty w) eqn:He; [apply recent_jump; auto|].
    destruct (decide (c ≤ rx_max w)); [by apply recent_below|].
    destruct (decide (32 ≤ c - rx_max w)); [apply recent_jump; auto|].
    apply recent_advance; [done..|lia]. }
  apply H. split; cbn [RxWindow_new fst snd rx_max rx_bitmap rx_empty]; [done..| |done].
  intros. apply Z.testbit_0_l.
Qed.

(** Both runs drive the same window. *)
Lemma recent_run_window cs : (recent_run cs).1 = (run cs).1.
Proof.
  unfold recent_run, run. assert (H : ∀ s t, s.1 = t.1 →
    (foldl recent_step s cs).1 = (foldl run_step t cs).1).
  { induction cs as [|c cs IH]; intros [w m] [w' m'] Hs; cbn in *; [done|].
    subst w'. apply IH. unfold recent_step, run_step. cbn [fst snd].
    by destruct (check_and_commit w c). }
  by apply H.
Qed.

(** ** Properties *)

(** C26.  After any sequence of received counters, the exact decision of
    [check_and_commit] (counter.rs: 40) in terms of the counters accepted so far:
    the first counter and every counter above the maximum are accepted; a
    counter never accepted before is accepted exactly when it is at most 32
    below the maximum; and a counter accepted before is rejected, with one
    exception, decided exactly: it is accepted again when it is exactly 32 below
    the maximum and was not accepted since the maximum last jumped by 32 or more
    ([recent]), that is, when it is the maximum from which the window jumped by
    exactly 32 and this is its first duplicate. The exception is a defect of the
    code, whose comment promises a rejection (the next theorem exhibits it). A
    rejection changes nothing. *)
Theorem rx_window_decides (cs : list Z) (c : Z) :
  let w := (run cs).1 in
  let seen := (run cs).2 in
  let (w', b) := check_and_commit w c in
  (rx_empty w = true → seen = ∅ ∧ b = true) ∧
  (rx_empty w = false →
     rx_max w ∈ seen ∧ (∀ x, x ∈ seen → x ≤ rx_max w) ∧
     (c ∉ seen → b = bool_decide (rx_max w - 32 ≤ c)) ∧
     (c ∈ seen → b = bool_decide (c = rx_max w - 32 ∧ c ∉ recent cs))) ∧
  (b = false → w' = w).
Proof.
  pose proof (run_inv cs) as Hinv. pose proof (recent_run_inv cs) as Hrec.
  fold (recent cs) in Hrec. rewrite recent_run_window in Hrec.
  destruct (run cs) as [w seen]. cbn [fst snd] in *.
  destruct (rx_empty w) eqn:He.
  { unfold check_and_commit. rewrite He. split_and!; [|done|done]. split; [|done].
    by apply Hinv. }
  destruct (decide (rx_max w < c)).
  - pose proof (window_advance w seen c Hinv He ltac:(done)) as [Hb Hi].
    destruct (check_and_commit w c) as [w' b]. cbn in *. subst b.
    split_and!; [done| |done]. intros _. split_and!; [by apply Hinv|apply Hinv| |].
    + intros _. symmetry. apply bool_decide_true. lia.
    + intros Hin. apply Hinv in Hin. lia.
  - pose proof (window_below w seen c Hinv He ltac:(lia)) as H.
    pose proof (below_decides w _ c Hrec He ltac:(lia)) as Hb.
    destruct (check_and_commit w c) as [w' b]. cbn in *.
    split_and!; [done| |by destruct b; [|intros _; apply H]].
    intros _. split_and!; [by apply Hinv|apply Hinv| |].
    + intros Hnin. destruct b; [symmetry; apply bool_decide_true, H|].
      symmetry. apply bool_decide_false. destruct H as [_ [?|?]]; [done|lia].
    + intros Hin. rewrite Hb. apply bool_decide_ext. destruct b.
      * destruct H as (? & [?|?] & _); [done|]. split; intros [? ?]; (split; [lia|done]).
      * symmetry in Hb. apply bool_decide_eq_false in Hb. split; [done|].
        intros [-> ?]. destruct Hb. split; [lia|done].
Qed.

(** A jump of exactly 32 forgets the old maximum: the counter [m] is
    accepted, [m + 32] is accepted, and then [m], a duplicate that is still
    inside the window, is accepted a second time. *)
Theorem rx_window_replays_at_32 (cs : list Z) (m : Z) :
  rx_max (run cs).1 < m ∨ cs = [] →
  (check_all (run cs).1 [m; m + 32; m]).2 = [true; true; true].
Proof.
  intros Hm. pose proof (run_inv cs) as Hinv. destruct (run cs) as [w seen] eqn:Hr.
  cbn [fst snd] in *. unfold check_all.
  assert (∃ bm, check_and_commit w m =
    ({| rx_max := m; rx_bitmap := bm; rx_empty := false |}, true)) as [bm ->].
  { unfold check_and_commit. destruct (rx_empty w) eqn:He; [by eexists|].
    destruct Hm as [Hlt| ->]; [|by injection Hr as <- <-].
    destruct (Z.ltb_spec (rx_max w) m); [by eexists|lia]. }
  unfold check_and_commit. cbn [rx_empty rx_max rx_bitmap].
  destruct (Z.ltb_spec m (m + 32)); [|lia]. replace (m + 32 - m) with 32 by lia.
  cbn [rx_empty rx_max rx_bitmap Z.leb Z.compare Pos.compare Pos.compare_cont].
  destruct (Z.ltb_spec (m + 32) m); [lia|]. destruct (Z.eqb_spec m (m + 32)); [lia|].
  by replace (m + 32 - m) with 32 by lia.
Qed.

Lemma rx_window_replays_at_32_witness :
  (check_all RxWindow_new [5; 37; 5]).2 = [true; true; true].
Proof. apply (rx_window_replays_at_32 [] 5). by right. Defined.

Fixpoint tx_values (n : nat) (t : TxCounter) : list Z :=
  match n with
  | O => []
  | S n => let (t', v) := tx_next t in v :: tx_values n t'
  end.

Lemma tx_values_lookup n i t :
  (i < n)%nat → in_u 32 (tx_value t) →
  tx_values n t !! i = Some (wrap 32 (tx_value t + Z.of_nat i)).
Proof.
  revert i t. induction n as [|n IH]; intros i t Hi Ht; [lia|].
  cbn [tx_values]. unfold tx_next. destruct i as [|i]; cbn [lookup list_lookup].
  - f_equal. rewrite Z.add_0_r. symmetry. by apply wrap_small.
  - rewrite (IH i) by (lia || by apply wrap_in_u). cbn [tx_value]. f_equal. unfold wrap.
    rewrite Z.add_mod_idemp_l by lia. f_equal. lia.
Qed.

Lemma random_initial_range b : 1 ≤ random_initial b ≤ 2 ^ 28.
Proof.
  unfold random_initial. change 0x0FFFFFFF with (Z.ones 28). rewrite Z.land_ones by done.
  pose proof (Z.mod_pos_bound (le_val b) (2 ^ 28) ltac:(lia)). lia.
Qed.

(** A [TxCounter] starts in [1, 2^28], and any 2^32 consecutive values it
    hands out are pairwise distinct 32-bit values, wrap-around included: no
    (key, nonce) pair repeats on a session before 2^32 messages were sent. *)
Theorem tx_counter_distinct (rng : bytes) (i j : nat) (n : nat) (v : Z) :
  Z.of_nat n ≤ 2 ^ 32 →
  tx_values n (TxCounter_new rng) !! i = Some v →
  tx_values n (TxCounter_new rng) !! j = Some v →
  i = j ∧ in_u 32 v ∧ 1 ≤ tx_value (TxCounter_new rng) ≤ 2 ^ 28.
Proof.
  intros Hn Hi Hj. set (t := TxCounter_new rng) in *.
  pose proof (random_initial_range rng : 1 ≤ tx_value t ≤ 2 ^ 28) as Ht.
  assert (Hlen : ∀ n t, length (tx_values n t) = n).
  { clear. induction n as [|n IH]; intros t; [done|]. cbn. by rewrite IH. }
  pose proof (lookup_lt_Some _ _ _ Hi) as Hil. pose proof (lookup_lt_Some _ _ _ Hj) as Hjl.
  rewrite Hlen in Hil, Hjl.
  assert (Ht32 : in_u 32 (tx_value t)) by (unfold in_u; lia).
  rewrite tx_values_lookup in Hi, Hj by done.
  split_and!; [|simplify_eq; by apply wrap_in_u|lia|lia].
  assert (Heq : wrap 32 (tx_value t + Z.of_nat i) = wrap 32 (tx_value t + Z.of_nat j)) by congruence.
  unfold wrap in Heq.
  pose proof (Z.div_mod (tx_value t + Z.of_nat i) (2 ^ 32) ltac:(lia)).
  pose proof (Z.div_mod (tx_value t + Z.of_nat j) (2 ^ 32) ltac:(lia)).
  rewrite Heq in *. set (a := (tx_value t + Z.of_nat i) / 2 ^ 32) in *.
  set (b := (tx_value t + Z.of_nat j) / 2 ^ 32) in *. clearbody a b.
  assert (a = b) by lia. lia.
Qed.

Lemma tx_counter_distinct_witness :
  2%nat = 2%nat ∧ in_u 32 0x8000003 ∧
  1 ≤ tx_value (TxCounter_new [0; 0; 0; 0xF8]) ≤ 2 ^ 28.
Proof.
  apply (tx_counter_distinct [0; 0; 0; 0xF8] 2 2 4 0x8000003); [lia|by vm_compute..].
Defined.
