(* ===== verification/Crypto.v ===== *)
(** * Sealing and opening secured datagrams

    Models lines 7-180 of [crates/mat-controller/src/crypto.rs]: the nonce, the
    size-checked AEAD wrappers and [seal_message] / [open_message].  AES-128-CCM
    itself (the [ccm] crate) is the parameter [Aead]; [AeadLaws] states what
    the code relies on.  ECDSA ([p256] crate) is not modelled. *)

From S2P Require Import Prelude Message.

(** ** The AEAD the code is linked with *)

(** [encrypt] and [decrypt] of [Aes128Ccm]: key, nonce, associated data, text. *)
Class Aead := {
  aead_encrypt : bytes → bytes → bytes → bytes → option bytes;
  aead_decrypt : bytes → bytes → bytes → bytes → option bytes
}.

Definition MIC_LEN : Z := 16.
Definition MAX_CCM_PAYLOAD : Z := 65535.

(** Encryption fails only on size and appends a 16-byte tag; decryption inverts
    it. *)
Class AeadLaws (A : Aead) : Prop := {
  aead_total k n a pt : zlen pt ≤ MAX_CCM_PAYLOAD → is_Some (aead_encrypt k n a pt);
  aead_length k n a pt ct : aead_encrypt k n a pt = Some ct → zlen ct = zlen pt + MIC_LEN;
  aead_inverse k n a pt ct : aead_encrypt k n a pt = Some ct → aead_decrypt k n a ct = Some pt;
  aead_bytes k n a pt ct : bytes_ok pt → aead_encrypt k n a pt = Some ct → bytes_ok ct;
  aead_dec_bytes k n a ct pt : bytes_ok ct → aead_decrypt k n a ct = Some pt → bytes_ok pt;
  aead_dec_length k n a ct pt : aead_decrypt k n a ct = Some pt → zlen ct = zlen pt + MIC_LEN
}.

(** ** Definitions *)

Inductive CryptoError := AuthFailed | PayloadTooLarge | BadKey | BadSignature.

Inductive OpenError :=
  | OpenMessage (e : MessageError)
  | OpenCrypto (e : CryptoError).

Definition build_nonce (security_flags message_counter source_node_id : Z) : bytes :=
  [security_flags] ++ le_bytes 4 message_counter ++ le_bytes 8 source_node_id.

Section crypto.
Context `{A : Aead}.

Definition encrypt_payload (key nonce aad plaintext : bytes) : res CryptoError bytes :=
  if MAX_CCM_PAYLOAD <? zlen plaintext then Err PayloadTooLarge
  else ok_or (aead_encrypt key nonce aad plaintext) PayloadTooLarge.

Definition decrypt_payload (key nonce aad ciphertext : bytes) : res CryptoError bytes :=
  if MAX_CCM_PAYLOAD + MIC_LEN <? zlen ciphertext then Err PayloadTooLarge
  else ok_or (aead_decrypt key nonce aad ciphertext) AuthFailed.

(** The node id that goes into the nonce: the header's wins. *)
Definition nonce_node (header : MessageHeader) (session_source_node_id : Z) : Z :=
  default session_source_node_id (source_node_id header).

Definition header_nonce (header : MessageHeader) (session_source_node_id : Z) : bytes :=
  build_nonce (security_flags header) (message_counter header)
    (nonce_node header session_source_node_id).

Definition seal_message (key : bytes) (header : MessageHeader) (proto : ProtocolHeader)
    (payload : bytes) (session_source_node_id : Z) : res CryptoError bytes :=
  let header_bytes := encode header in
  let nonce := header_nonce header session_source_node_id in
  let plaintext := encode proto ++ payload in
  let? ct := encrypt_payload key nonce header_bytes plaintext in
  Ok (header_bytes ++ ct).

Definition open_message (key datagram : bytes) (session_source_node_id : Z) :
    res OpenError (MessageHeader * ProtocolHeader * bytes) :=
  let? (header, payload_off) := map_err OpenMessage (decode datagram) in
  let nonce := header_nonce header session_source_node_id in
  let aad := zslice 0 payload_off datagram in
  let? plaintext := map_err OpenCrypto
    (decrypt_payload key nonce aad (drop (Z.to_nat payload_off) datagram)) in
  let? (proto, body_off) := map_err OpenMessage (decode plaintext) in
  Ok (header, proto, drop (Z.to_nat body_off) plaintext).

(** ** Lemmas *)

Lemma seal_message_ok `{!AeadLaws A} key h p payload node :
  zlen (encode p) + zlen payload ≤ MAX_CCM_PAYLOAD →
  ∃ ct, aead_encrypt key (header_nonce h node) (encode h) (encode p ++ payload) = Some ct ∧
    seal_message key h p payload node = Ok (encode h ++ ct).
Proof.
  intros Hl. unfold seal_message, encrypt_payload.
  destruct (Z.ltb_spec MAX_CCM_PAYLOAD (zlen (encode p ++ payload))) as [Hlt|Hle].
  { rewrite zlen_app in Hlt. lia. }
  destruct (aead_total key (header_nonce h node) (encode h) _ Hle) as [ct Hct].
  exists ct. by rewrite Hct.
Qed.

Lemma open_message_sealed `{!AeadLaws A} key h p payload node ct :
  wf_message h → wf_protocol p → zlen (encode p) + zlen payload ≤ MAX_CCM_PAYLOAD →
  aead_encrypt key (header_nonce h node) (encode h) (encode p ++ payload) = Some ct →
  open_message key (encode h ++ ct) node = Ok (h, p, payload).
Proof.
  intros Hh Hp Hl Hct. unfold open_message, decrypt_payload.
  rewrite (decode_encode h ct) by done. cbn [map_err res_bind].
  rewrite drop_zlen_app, zslice_0_app.
  pose proof (aead_length _ _ _ _ _ Hct) as Hlen. rewrite zlen_app in Hlen.
  destruct (Z.ltb_spec (MAX_CCM_PAYLOAD + MIC_LEN) (zlen ct)); [lia|].
  rewrite (aead_inverse _ _ _ _ _ Hct). cbn [ok_or map_err res_bind].
  rewrite (decode_encode p payload) by done. cbn [map_err res_bind]. by rewrite drop_zlen_app.
Qed.

Lemma open_message_inv key d node h p payload :
  open_message key d node = Ok (h, p, payload) →
  ∃ off pt off', decode d = Ok (h, off) ∧
    aead_decrypt key (header_nonce h node) (zslice 0 off d) (drop (Z.to_nat off) d) = Some pt ∧
    decode pt = Ok (p, off') ∧ payload = drop (Z.to_nat off') pt.
Proof.
  unfold open_message, decrypt_payload. intros H.
  destruct (decode (H:=MessageHeader) d) as [[h' off]|e| |] eqn:Hd; cbn [map_err res_bind ok_or] in H; try done.
  destruct (_ <? _) in H; [done|].
  destruct (aead_decrypt _ _ _ _) as [pt|] eqn:Hpt in H; cbn [map_err res_bind ok_or] in H; [|done].
  destruct (decode (H:=ProtocolHeader) pt) as [[p' off']|e| |] eqn:Hp; cbn [map_err res_bind ok_or] in H; try done.
  simplify_eq. by exists off, pt, off'.
Qed.

Lemma nonce_node_u64 h node : wf_message h → in_u 64 node → in_u 64 (nonce_node h node).
Proof.
  intros (_ & _ & _ & Hs & _) Hn. unfold nonce_node.
  by destruct (source_node_id h); cbn in *.
Qed.

Lemma open_message_returns `{!AeadLaws A} key d node :
  bytes_ok d → returns (open_message key d node).
Proof.
  intros Hb. unfold open_message, decrypt_payload.
  pose proof (decode_returns (H:=MessageHeader) d Hb) as Hr.
  destruct (decode (H:=MessageHeader) d) as [[h off]|e| |]; try done. cbn [map_err res_bind].
  destruct (_ <? _); [done|].
  destruct (aead_decrypt _ _ _ _) as [pt|] eqn:Hpt; [|done]. cbn [ok_or map_err res_bind].
  assert (bytes_ok pt) as Hpb.
  { eapply aead_dec_bytes; [|exact Hpt]. by apply Forall_drop. }
  pose proof (decode_returns (H:=ProtocolHeader) pt Hpb) as Hr'.
  by destruct (decode pt) as [[p off']|e| |].
Qed.
End crypto.

(** ** A concrete AEAD

    Used only to instantiate the parameter: the text in clear and a 16-byte tag
    that mixes every input. *)
Module Toy.

Definition tag (k n a pt : bytes) : bytes := le_bytes 16 (le_val (k ++ n ++ a ++ pt)).

Definition encrypt (k n a pt : bytes) : option bytes := Some (pt ++ tag k n a pt).

Definition decrypt (k n a ct : bytes) : option bytes :=
  let m := (length ct - 16)%nat in
  let pt := take m ct in
  if decide (ct = pt ++ tag k n a pt) then Some pt else None.

#[export] Instance toy_aead : Aead := {| aead_encrypt := encrypt; aead_decrypt := decrypt |}.

Lemma decrypt_encrypt k n a pt : decrypt k n a (pt ++ tag k n a pt) = Some pt.
Proof.
  unfold decrypt. assert (length (tag k n a pt) = 16%nat) as Ht by apply length_le_bytes.
  replace (length (pt ++ tag k n a pt) - 16)%nat with (length pt) by (rewrite length_app; lia).
  rewrite take_app_length. by rewrite decide_True.
Qed.

#[export] Instance toy_laws : AeadLaws toy_aead.
Proof.
  split; cbn; unfold encrypt; intros; simplify_eq.
  - by eexists.
  - unfold tag. by rewrite zlen_app, zlen_le_bytes.
  - apply decrypt_encrypt.
  - apply Forall_app. split; [done|]. apply le_bytes_ok.
  - unfold decrypt in *. case_decide; simplify_eq. by apply Forall_take.
  - unfold decrypt in *. case_decide as Hct; simplify_eq. rewrite Hct at 1. unfold tag.
    by rewrite zlen_app, zlen_le_bytes.
Qed.

End Toy.

(** ** Properties *)

#[local] Existing Instances Toy.toy_aead Toy.toy_laws.

(** A message within the AEAD's size limit is sealed, and the peer that
    opens the datagram with the same key and the sender's node id gets exactly
    the headers and the payload back; a larger one is refused with
    [PayloadTooLarge].  The datagram is the plain header, the encrypted protocol
    header and payload, and the 16-byte tag. *)
Theorem seal_open_round_trip `{A : Aead, !AeadLaws A} (key : bytes) (h : MessageHeader)
    (p : ProtocolHeader) (payload : bytes) (node : Z) :
  wf_message h → wf_protocol p →
  if bool_decide (zlen (encode p) + zlen payload ≤ 65535) then
    ∃ d, seal_message key h p payload node = Ok d ∧
      open_message key d node = Ok (h, p, payload) ∧
      zlen d = zlen (encode h) + zlen (encode p) + zlen payload + 16
  else seal_message key h p payload node = Err PayloadTooLarge.
Proof.
  intros Hh Hp. case_bool_decide as Hl.
  - destruct (seal_message_ok key h p payload node Hl) as (ct & Hct & Hs).
    exists (encode h ++ ct). split_and!; [done|by apply open_message_sealed|].
    apply aead_length in Hct. rewrite zlen_app in Hct |- *. unfold MIC_LEN in Hct. lia.
  - unfold seal_message, encrypt_payload.
    destruct (Z.ltb_spec MAX_CCM_PAYLOAD (zlen (encode p ++ payload))) as [|Hle]; [done|].
    rewrite zlen_app in Hle. unfold MAX_CCM_PAYLOAD in Hle. lia.
Qed.

Lemma seal_open_round_trip_witness :
  ∃ d, seal_message (A:=Toy.toy_aead) (replicate 16 7) sample_header sample_proto [1; 2; 3] 9 = Ok d ∧
    open_message (A:=Toy.toy_aead) (replicate 16 7) d 9 = Ok (sample_header, sample_proto, [1; 2; 3]) ∧
    zlen d = 18 + 10 + 3 + 16.
Proof.
  apply (seal_open_round_trip (A:=Toy.toy_aead) (replicate 16 7) sample_header sample_proto
    [1; 2; 3] 9 sample_header_wf sample_proto_wf).
Defined.

(** C27.  [open_message] returns on every datagram and accepts one only if the
    AEAD authenticates its whole ciphertext under the session key, with the
    nonce built from the security flags, counter and source of the very header
    it returns and with that header's bytes as associated data; and no two
    headers that differ in flags, counter or source share a nonce. *)
Theorem open_message_authenticated `{A : Aead, !AeadLaws A} (key d : bytes) (node : Z) :
  bytes_ok d →
  returns (open_message key d node) ∧
  (∀ h p payload, open_message key d node = Ok (h, p, payload) →
     wf_message h ∧ wf_protocol p ∧
     ∃ off pt, off = zlen (encode h) ∧ off ≤ zlen d ∧
       aead_decrypt key (header_nonce h node) (zslice 0 off d) (drop (Z.to_nat off) d) = Some pt ∧
       zlen pt = zlen (encode p) + zlen payload) ∧
  (∀ h1 h2, wf_message h1 → wf_message h2 → in_u 64 node →
     header_nonce h1 node = header_nonce h2 node →
     security_flags h1 = security_flags h2 ∧ message_counter h1 = message_counter h2 ∧
     nonce_node h1 node = nonce_node h2 node).
Proof.
  intros Hb. split_and!; [by apply open_message_returns| |].
  - intros h p payload Ho. apply open_message_inv in Ho as (off & pt & off' & Hd & Hpt & Hp & ->).
    destruct (decode_sound d h off Hb Hd) as (Hwh & Hoff & Hle & _).
    assert (bytes_ok pt) as Hpb.
    { eapply aead_dec_bytes; [|exact Hpt]. by apply Forall_drop. }
    destruct (decode_sound pt p off' Hpb Hp) as (Hwp & Hoff' & Hle' & _).
    split_and!; [done|done|]. exists off, pt. split_and!; [done|done|done|].
    rewrite <- Hoff'. unfold zlen in *. rewrite length_drop. lia.
  - intros h1 h2 Hw1 Hw2 Hnode Hn.
    pose proof Hw1 as (_ & Hf1 & Hc1 & Hs1 & _). pose proof Hw2 as (_ & Hf2 & Hc2 & Hs2 & _).
    unfold header_nonce, build_nonce in Hn.
    apply app_inj_1 in Hn as [[= Hf] Hn]; [|done].
    apply app_inj_1 in Hn as [Hc Hn]; [|by rewrite !length_le_bytes].
    apply (f_equal le_val) in Hc, Hn. rewrite !le_val_bytes_small in Hc by done.
    rewrite !le_val_bytes_small in Hn; [done|by apply nonce_node_u64..].
Qed.

Lemma open_message_authenticated_witness :
  returns (open_message (A:=Toy.toy_aead) (replicate 16 7) [0; 1; 0; 0; 5; 0; 0; 0; 9; 9] 9).
Proof.
  apply (open_message_authenticated (A:=Toy.toy_aead) (replicate 16 7) [0; 1; 0; 0; 5; 0; 0; 0; 9; 9] 9).
  repeat constructor; unfold is_byte; lia.
Defined.
