(* ===== verification/Exchange.v ===== *)
(** * Unsecured exchanges and MRP retransmission

    Models [crates/mat-controller/src/exchange.rs]: the retransmission loop
    [mrp_send_loop] and the deadline loop [recv_until], generic in the endpoint
    they serve (the trait [MrpEndpoint]), and [ExchangeCore], the single
    implementation behind [UnsecuredExchange] (initiator) and
    [ResponderExchange] (responder).

    The socket is a script: a list of [Event]s says what each [recv_from] sees
    and when the current deadline passes; [Net] records what was sent and can
    be told to fail a send.  Floating-point interval arithmetic (jitter,
    back-off) only decides when a deadline passes, so it is not modelled: the
    theorems hold for every script. *)

From S2P Require Import Prelude Message Counter.

(** ** The transport *)

Record SocketAddr := { ip : bytes; port : Z }.
#[export] Instance SocketAddr_eq_dec : EqDecision SocketAddr.
Proof. solve_decision. Defined.

(** [net_send_ok] scripts the result of the next sends; past its end they
    succeed.  [net_now] is the clock in milliseconds. *)
Record Net := {
  net_reliable : bool;
  net_now : Z;
  net_out : list bytes;
  net_send_ok : list bool
}.

Inductive Event :=
  | EvRecv (now : Z) (from : SocketAddr) (buf : bytes)
  | EvElapsed
  | EvRecvError.

Inductive Verdict (T : Type) :=
  | Ignore
  | Done (v : T).
Arguments Ignore {T}.
Arguments Done {T} v.

(** The trait: where the endpoint keeps its transport, and its two errors. *)
Class MrpEndpoint (S E : Type) := {
  ep_net : S → Net;
  ep_with_net : Net → S → S;
  timeout_error : E;
  io_error : E;
  ep_net_with n s : ep_net (ep_with_net n s) = n
}.

Definition net_at (now : Z) (n : Net) : Net :=
  {| net_reliable := net_reliable n; net_now := now; net_out := net_out n;
     net_send_ok := net_send_ok n |}.

Section loops.
Context {S E : Type} `{!MrpEndpoint S E}.

Definition is_reliable (s : S) : bool := net_reliable (ep_net s).

(** [transport.send_to(datagram, peer).await?]. *)
Definition send_to (datagram : bytes) : M S E () :=
  let! s := get in
  let n := ep_net s in
  match net_send_ok n with
  | false :: k =>
      modify (ep_with_net {| net_reliable := net_reliable n; net_now := net_now n;
        net_out := net_out n; net_send_ok := k |}) ;;!
      throw io_error
  | l =>
      modify (ep_with_net {| net_reliable := net_reliable n; net_now := net_now n;
        net_out := net_out n ++ [datagram]; net_send_ok := tail l |})
  end.

Definition clock (now : Z) : M S E () :=
  modify (λ s, ep_with_net (net_at now (ep_net s)) s).

Section with_callback.
Context {T : Type} (on_datagram : bytes → SocketAddr → M S E (Verdict T)).

(** The inner loop: read until the callback is done or the deadline passes
    (a script that has ended stays silent, so the deadline passes). *)
Fixpoint wait_interval (events : list Event) : M S E (Verdict T * list Event) :=
  match events with
  | [] => ret (Ignore, [])
  | EvElapsed :: rest => ret (Ignore, rest)
  | EvRecvError :: _ => throw io_error
  | EvRecv now from buf :: rest =>
      clock now ;;!
      let! v := on_datagram buf from in
      match v with
      | Done x => ret (Done x, rest)
      | Ignore => wait_interval rest
      end
  end.

(** [retries] is [max_retries - attempts]. *)
Fixpoint mrp_send_loop (datagram : bytes) (retries : nat) (events : list Event) :
    M S E (T * list Event) :=
  send_to datagram ;;!
  let! (v, rest) := wait_interval events in
  match v with
  | Done x => ret (x, rest)
  | Ignore =>
      match retries with
      | O => throw timeout_error
      | Datatypes.S r => mrp_send_loop datagram r rest
      end
  end.

Definition recv_until (on_timeout : E) (events : list Event) : M S E (T * list Event) :=
  let! (v, rest) := wait_interval events in
  match v with
  | Done x => ret (x, rest)
  | Ignore => throw on_timeout
  end.
End with_callback.
End loops.

(** ** Configuration *)

Record MrpConfig := {
  initial_interval : Z;
  active_interval : Z;
  max_retries : nat
}.

Definition PEER_ACTIVE_WINDOW : Z := 4000.

(** The first retransmission interval: the active one when the peer was heard
    from within the window. *)
Definition retrans_base (now : Z) (last_rx : option Z) (cfg : MrpConfig) : Z :=
  match last_rx with
  | Some t => if now - t <? PEER_ACTIVE_WINDOW then active_interval cfg else initial_interval cfg
  | None => initial_interval cfg
  end.

(** ** The exchange *)

Inductive ExchangeError := Timeout | Io.

Record IncomingMessage := {
  msg_header : MessageHeader;
  msg_proto : ProtocolHeader;
  msg_payload : bytes
}.

Definition is_standalone_ack (p : ProtocolHeader) : bool :=
  (protocol_id p =? PROTOCOL_ID_SECURE_CHANNEL) && (opcode p =? OPCODE_MRP_STANDALONE_ACK).

Inductive Role :=
  | Initiator (source_node_id : Z)
  | Responder (peer_ephemeral_node_id : option Z) (last_peer_counter : Z).

Record ExchangeCore := {
  ex_net : Net;
  ex_peer : SocketAddr;
  ex_id : Z;
  ex_counter : TxCounter;
  ex_rx_window : RxWindow;
  ex_last_sent_counter : option Z;
  ex_last_rx : option Z;
  ex_role : Role
}.

Definition ex_with_net (n : Net) (c : ExchangeCore) : ExchangeCore :=
  {| ex_net := n; ex_peer := ex_peer c; ex_id := ex_id c; ex_counter := ex_counter c;
     ex_rx_window := ex_rx_window c; ex_last_sent_counter := ex_last_sent_counter c;
     ex_last_rx := ex_last_rx c; ex_role := ex_role c |}.

#[export] Program Instance ExchangeCore_endpoint : MrpEndpoint ExchangeCore ExchangeError :=
  {| ep_net := ex_net; ep_with_net := ex_with_net; timeout_error := Timeout; io_error := Io |}.
Next Obligation. done. Qed.

Abbreviation X := (M ExchangeCore ExchangeError).

Definition ex_set_counter (t : TxCounter) (c : ExchangeCore) : ExchangeCore :=
  {| ex_net := ex_net c; ex_peer := ex_peer c; ex_id := ex_id c; ex_counter := t;
     ex_rx_window := ex_rx_window c; ex_last_sent_counter := ex_last_sent_counter c;
     ex_last_rx := ex_last_rx c; ex_role := ex_role c |}.
Definition ex_set_sent (o : option Z) (c : ExchangeCore) : ExchangeCore :=
  {| ex_net := ex_net c; ex_peer := ex_peer c; ex_id := ex_id c; ex_counter := ex_counter c;
     ex_rx_window := ex_rx_window c; ex_last_sent_counter := o;
     ex_last_rx := ex_last_rx c; ex_role := ex_role c |}.
(** The receive-side bookkeeping: window, time of last reception, role. *)
Definition ex_set_rx (w : RxWindow) (t : option Z) (r : Role) (c : ExchangeCore) : ExchangeCore :=
  {| ex_net := ex_net c; ex_peer := ex_peer c; ex_id := ex_id c; ex_counter := ex_counter c;
     ex_rx_window := w; ex_last_sent_counter := ex_last_sent_counter c;
     ex_last_rx := t; ex_role := r |}.

Definition is_initiator (c : ExchangeCore) : bool :=
  match ex_role c with Initiator _ => true | Responder _ _ => false end.

Definition piggyback_ack (c : ExchangeCore) : option Z :=
  match ex_role c with Initiator _ => None | Responder _ l => Some l end.

Definition build_header (c : ExchangeCore) (counter : Z) : MessageHeader :=
  match ex_role c with
  | Initiator source =>
      {| session_id := 0; security_flags := 0; message_counter := counter;
         source_node_id := Some source; destination := NoDestination |}
  | Responder peer _ =>
      {| session_id := 0; security_flags := 0; message_counter := counter;
         source_node_id := None;
         destination := match peer with Some n => Node n | None => NoDestination end |}
  end.

Definition build (protocol opc : Z) (ack_wanted : bool) (acked : option Z) (payload : bytes) :
    X (bytes * Z) :=
  let! c := get in
  let ack_wanted := ack_wanted && negb (net_reliable (ex_net c)) in
  let (t, counter) := tx_next (ex_counter c) in
  modify (ex_set_counter t) ;;!
  let proto := {| initiator := is_initiator c; needs_ack := ack_wanted;
                  acked_counter := acked; opcode := opc; exchange_id := ex_id c;
                  protocol_id := protocol; vendor_id := None |} in
  ret (encode (build_header c counter) ++ encode proto ++ payload, counter).

Definition ex_send_standalone_ack (acked : Z) : X () :=
  let! (buf, _) := build PROTOCOL_ID_SECURE_CHANNEL OPCODE_MRP_STANDALONE_ACK false (Some acked) [] in
  send_to buf.

(** A decoding failure is ignored by the caller. *)
Definition decode_or_ignore {H A S E} `{!Codec H} (buf : bytes)
    (k : H * Z → M S E (option A)) : M S E (option A) :=
  match decode buf with
  | Ok v => k v
  | Err _ => ret None
  | Panic => panic
  | OutOfFuel => out_of_fuel
  end.

Definition screen (buf : bytes) (from : SocketAddr) : X (option IncomingMessage) :=
  let! c := get in
  if negb (bool_decide (from = ex_peer c)) then ret None else
  decode_or_ignore (H:=MessageHeader) buf (λ '(header, off),
  if negb (session_id header =? 0) || negb (security_flags header =? 0) then ret None else
  decode_or_ignore (H:=ProtocolHeader) (drop (Z.to_nat off) buf) (λ '(proto, body_off),
  if negb (exchange_id proto =? ex_id c) || Bool.eqb (initiator proto) (is_initiator c)
  then ret None else
  let now := Some (net_now (ex_net c)) in
  let (w, fresh) := check_and_commit (ex_rx_window c) (message_counter header) in
  let wants := needs_ack proto && negb (net_reliable (ex_net c)) in
  let ack : X () :=
    if wants then ex_send_standalone_ack (message_counter header) else ret () in
  if negb fresh then
    modify (ex_set_rx w now (ex_role c)) ;;! ack ;;! ret None
  else
    let role := match ex_role c with
                | Initiator n => Initiator n
                | Responder p _ => Responder p (message_counter header)
                end in
    modify (ex_set_rx w now role) ;;! ack ;;!
    ret (Some {| msg_header := header; msg_proto := proto;
                 msg_payload := drop (Z.to_nat (off + body_off)) buf |}))).

Definition ex_recv (events : list Event) : X (IncomingMessage * list Event) :=
  recv_until (λ buf from,
    let! o := screen buf from in
    match o with
    | None => ret Ignore
    | Some msg => ret (if is_standalone_ack (msg_proto msg) then Ignore else Done msg)
    end) Timeout events.

(** The callback of [send_reliable]. *)
Definition await_reply (our_counter : Z) (buf : bytes) (from : SocketAddr) :
    X (Verdict (option IncomingMessage)) :=
  let! o := screen buf from in
  match o with
  | None => ret Ignore
  | Some msg =>
      if is_standalone_ack (msg_proto msg) then
        ret (if bool_decide (acked_counter (msg_proto msg) = Some our_counter)
             then Done None else Ignore)
      else ret (Done (Some msg))
  end.

Definition send_reliable (protocol opc : Z) (payload : bytes) (cfg : MrpConfig)
    (events : list Event) : X (option IncomingMessage * list Event) :=
  let! c := get in
  let ack := piggyback_ack c in
  if net_reliable (ex_net c) then
    let! (datagram, our_counter) := build protocol opc false ack payload in
    modify (ex_set_sent (Some our_counter)) ;;!
    send_to datagram ;;!
    let! (msg, rest) := ex_recv events in
    ret (Some msg, rest)
  else
    let! (datagram, our_counter) := build protocol opc true ack payload in
    modify (ex_set_sent (Some our_counter)) ;;!
    mrp_send_loop (await_reply our_counter) datagram (max_retries cfg) events.

Definition send_once (protocol opc : Z) (payload : bytes) : X () :=
  let! c := get in
  let! (datagram, our_counter) := build protocol opc true (piggyback_ack c) payload in
  modify (ex_set_sent (Some our_counter)) ;;!
  send_to datagram.

(** The callback of [send_final]: any message that acknowledges ours. *)
Definition await_ack (our_counter : Z) (buf : bytes) (from : SocketAddr) : X (Verdict ()) :=
  let! o := screen buf from in
  match o with
  | None => ret Ignore
  | Some msg =>
      ret (if bool_decide (acked_counter (msg_proto msg) = Some our_counter)
           then Done () else Ignore)
  end.

Definition send_final (protocol opc : Z) (payload : bytes) (cfg : MrpConfig)
    (events : list Event) : X (() * list Event) :=
  let! c := get in
  let ack := piggyback_ack c in
  if net_reliable (ex_net c) then
    let! (datagram, _) := build protocol opc false ack payload in
    send_to datagram ;;! ret ((), events)
  else
    let! (datagram, our_counter) := build protocol opc true ack payload in
    mrp_send_loop (await_ack our_counter) datagram (max_retries cfg) events.

(** The random draws are arguments. *)
Definition UnsecuredExchange_new (net : Net) (peer : SocketAddr) (b rng : bytes) : ExchangeCore :=
  {| ex_net := net; ex_peer := peer; ex_id := le_val (zslice 0 2 b);
     ex_counter := TxCounter_new rng; ex_rx_window := RxWindow_new;
     ex_last_sent_counter := None; ex_last_rx := None;
     ex_role := Initiator (le_val (zslice 2 10 b)) |}.

Definition ResponderExchange_adopt (net : Net) (peer : SocketAddr) (first : IncomingMessage)
    (rng : bytes) : ExchangeCore :=
  {| ex_net := net; ex_peer := peer; ex_id := exchange_id (msg_proto first);
     ex_counter := TxCounter_new rng;
     ex_rx_window := (check_and_commit RxWindow_new (message_counter (msg_header first))).1;
     ex_last_sent_counter := None; ex_last_rx := Some (net_now net);
     ex_role := Responder (source_node_id (msg_header first))
                  (message_counter (msg_header first)) |}.

(** ** Screening *)

(** The message a datagram carries for this exchange, if any: from the peer,
    decodable, unsecured, on our exchange id and from the other role. *)
Definition relevant (c : ExchangeCore) (buf : bytes) (from : SocketAddr) : option IncomingMessage :=
  if bool_decide (from = ex_peer c) then
    match MessageHeader_decode buf with
    | Ok (h, off) =>
        match ProtocolHeader_decode (drop (Z.to_nat off) buf) with
        | Ok (p, body_off) =>
            if bool_decide (session_id h = 0 ∧ security_flags h = 0 ∧
                            exchange_id p = ex_id c ∧ initiator p = negb (is_initiator c))
            then Some {| msg_header := h; msg_proto := p;
                         msg_payload := drop (Z.to_nat (off + body_off)) buf |}
            else None
        | _ => None
        end
    | _ => None
    end
  else None.

Definition ack_wanted (c : ExchangeCore) (m : IncomingMessage) : bool :=
  needs_ack (msg_proto m) && negb (net_reliable (ex_net c)).

Definition role_after (r : Role) (counter : Z) : Role :=
  match r with Initiator n => Initiator n | Responder p _ => Responder p counter end.

(** The exchange after receiving [m], before the acknowledgement goes out. *)
Definition received (c : ExchangeCore) (m : IncomingMessage) : ExchangeCore :=
  let r := check_and_commit (ex_rx_window c) (message_counter (msg_header m)) in
  ex_set_rx r.1 (Some (net_now (ex_net c)))
    (if r.2 then role_after (ex_role c) (message_counter (msg_header m)) else ex_role c) c.

Definition fresh_for (c : ExchangeCore) (m : IncomingMessage) : bool :=
  (check_and_commit (ex_rx_window c) (message_counter (msg_header m))).2.

Lemma screen_relevant c buf from :
  bytes_ok buf →
  screen buf from c =
  match relevant c buf from with
  | None => (c, Ok None)
  | Some m =>
      ((if ack_wanted c m then ex_send_standalone_ack (message_counter (msg_header m)) else ret ())
         ;;! ret (if fresh_for c m then Some m else None)) (received c m)
  end.
Proof.
  intros Hb. unfold screen, relevant, bind at 1, get at 1.
  case_bool_decide; [|done]. cbn [negb].
  unfold decode_or_ignore at 1.
  pose proof (decode_returns (H:=MessageHeader) buf Hb) as Hr. cbn [decode MessageHeader_codec] in *.
  destruct (MessageHeader_decode buf) as [[h off]|e| |]; try done.
  assert (Hb' : bytes_ok (drop (Z.to_nat off) buf)) by by apply Forall_drop.
  pose proof (decode_returns (H:=ProtocolHeader) _ Hb') as Hr'.
  unfold decode_or_ignore. cbn [decode ProtocolHeader_codec] in *.
  destruct (ProtocolHeader_decode (drop (Z.to_nat off) buf)) as [[p boff]|e| |];
    [|by case_match..|done|done].
  destruct (decide (session_id h = 0 ∧ security_flags h = 0 ∧ exchange_id p = ex_id c ∧
    initiator p = negb (is_initiator c))) as [(H1&H2&H3&H4)|Hn].
  - rewrite bool_decide_true by done. rewrite H1, H2, H3, H4, !Z.eqb_refl.
    replace (Bool.eqb _ _) with false by (by destruct (is_initiator c)). cbn [negb orb Z.eqb].
    unfold ack_wanted, received, fresh_for, role_after. cbn [msg_header msg_proto].
    destruct (check_and_commit _ _) as [w [|]]; reflexivity.
  - rewrite bool_decide_false by done.
    case_match eqn:Hc1; [done|]. apply orb_false_iff in Hc1 as [Hc1 Hc2].
    case_match eqn:Hc3; [done|]. apply orb_false_iff in Hc3 as [Hc3 Hc4].
    destruct Hn. apply negb_false_iff, Z.eqb_eq in Hc1, Hc2, Hc3.
    split_and!; [done..|]. by destruct (initiator p), (is_initiator c).
Qed.

(** ** Building *)

Definition proto_of (c : ExchangeCore) (protocol opc : Z) (wanted : bool) (acked : option Z) :
    ProtocolHeader :=
  {| initiator := is_initiator c; needs_ack := wanted && negb (net_reliable (ex_net c));
     acked_counter := acked; opcode := opc; exchange_id := ex_id c;
     protocol_id := protocol; vendor_id := None |}.

Definition our_counter (c : ExchangeCore) : Z := tx_value (ex_counter c).
Definition our_header (c : ExchangeCore) : MessageHeader := build_header c (our_counter c).

Definition built (c : ExchangeCore) (protocol opc : Z) (wanted : bool) (acked : option Z)
    (payload : bytes) : bytes :=
  MessageHeader_encode (our_header c) ++
  ProtocolHeader_encode (proto_of c protocol opc wanted acked) ++ payload.

Definition bump (c : ExchangeCore) : ExchangeCore := ex_set_counter (tx_next (ex_counter c)).1 c.

Lemma build_eq c protocol opc wanted acked payload :
  build protocol opc wanted acked payload c =
  (bump c, Ok (built c protocol opc wanted acked payload, our_counter c)).
Proof. reflexivity. Qed.

Definition wf_role (r : Role) : Prop :=
  match r with
  | Initiator n => in_u 64 n
  | Responder p l => wf_opt 64 p ∧ in_u 32 l
  end.

(** An exchange whose fields are values of their Rust types. *)
Definition wf_core (c : ExchangeCore) : Prop :=
  in_u 16 (ex_id c) ∧ in_u 32 (our_counter c) ∧ wf_role (ex_role c).

Lemma our_header_wf c : wf_core c → wf_message (our_header c).
Proof.
  intros (_ & Hc & Hr). unfold our_header, build_header.
  destruct (ex_role c) as [n|[n|] l]; cbn in *; split_and!; try done; by destruct Hr.
Qed.

Lemma proto_of_wf c protocol opc wanted acked :
  wf_core c → in_u 16 protocol → is_byte opc → wf_opt 32 acked →
  wf_protocol (proto_of c protocol opc wanted acked).
Proof. intros (Hi & _) ? ? ?. by split_and!. Qed.

(** Two ends of one exchange. *)
Definition paired (s t : ExchangeCore) : Prop :=
  ex_id s = ex_id t ∧ is_initiator s = negb (is_initiator t).

Definition built_message (c : ExchangeCore) (protocol opc : Z) (wanted : bool)
    (acked : option Z) (payload : bytes) : IncomingMessage :=
  {| msg_header := our_header c; msg_proto := proto_of c protocol opc wanted acked;
     msg_payload := payload |}.

Lemma relevant_built s t protocol opc wanted acked payload :
  wf_core s → paired s t → in_u 16 protocol → is_byte opc → wf_opt 32 acked →
  relevant t (built s protocol opc wanted acked payload) (ex_peer t) =
  Some (built_message s protocol opc wanted acked payload).
Proof.
  intros Hs [Hid Hrole] Hp Ho Ha. unfold relevant. rewrite bool_decide_true by done.
  pose proof (our_header_wf s Hs) as Hwh.
  pose proof (proto_of_wf s protocol opc wanted acked Hs Hp Ho Ha) as Hwp.
  set (ph := proto_of s protocol opc wanted acked) in *.
  unfold built. fold ph.
  pose proof (decode_encode (our_header s) (ProtocolHeader_encode ph ++ payload) Hwh) as Hd.
  pose proof (decode_encode ph payload Hwp) as Hd'.
  cbn [decode encode MessageHeader_codec ProtocolHeader_codec] in Hd, Hd'.
  rewrite Hd, drop_zlen_app, Hd'.
  rewrite bool_decide_true.
  - unfold built_message. do 2 f_equal. rewrite app_assoc, <- zlen_app. apply drop_zlen_app.
  - unfold our_header, build_header. split_and!; [by destruct (ex_role s)..|done|].
    cbn. by rewrite Hrole.
Qed.

Lemma built_ok c protocol opc wanted acked payload :
  wf_core c → in_u 16 protocol → is_byte opc → wf_opt 32 acked → bytes_ok payload →
  bytes_ok (built c protocol opc wanted acked payload).
Proof.
  intros Hc Hp Ho Ha Hb. apply Forall_app. split; [|apply Forall_app; split; [|done]].
  - by apply MessageHeader_encode_ok, our_header_wf.
  - by apply ProtocolHeader_encode_ok, proto_of_wf.
Qed.

(** A network on which the next sends succeed. *)
Definition sends (c : ExchangeCore) : Prop := net_send_ok (ex_net c) = [].

Definition sent (d : bytes) (c : ExchangeCore) : ExchangeCore :=
  ex_with_net {| net_reliable := net_reliable (ex_net c); net_now := net_now (ex_net c);
    net_out := net_out (ex_net c) ++ [d]; net_send_ok := [] |} c.

Lemma send_to_ok d c : sends c → send_to (E:=ExchangeError) d c = (sent d c, Ok ()).
Proof.
  intros Hs. unfold send_to, bind, get, modify. cbn [ep_net ExchangeCore_endpoint].
  by rewrite Hs.
Qed.

Definition ack_datagram (c : ExchangeCore) (counter : Z) : bytes :=
  built c PROTOCOL_ID_SECURE_CHANNEL OPCODE_MRP_STANDALONE_ACK false (Some counter) [].

Lemma standalone_ack_ok counter c :
  sends c →
  ex_send_standalone_ack counter c = (sent (ack_datagram c counter) (bump c), Ok ()).
Proof.
  intros Hs. unfold ex_send_standalone_ack, bind. rewrite build_eq.
  by rewrite send_to_ok.
Qed.

(** What one screened datagram does when sends succeed. *)
Definition screened (c : ExchangeCore) (m : IncomingMessage) : ExchangeCore :=
  let c' := received c m in
  if ack_wanted c m
  then sent (ack_datagram c' (message_counter (msg_header m))) (bump c')
  else c'.

Lemma screen_ok c buf from :
  bytes_ok buf → sends c →
  screen buf from c =
  match relevant c buf from with
  | None => (c, Ok None)
  | Some m => (screened c m, Ok (if fresh_for c m then Some m else None))
  end.
Proof.
  intros Hb Hs. rewrite screen_relevant by done.
  destruct (relevant c buf from) as [m|]; [|done]. unfold screened.
  destruct (ack_wanted c m); [|done].
  unfold bind. by rewrite standalone_ack_ok.
Qed.

(** ** The loops, generically *)

Definition event_ok (e : Event) : Prop :=
  match e with EvRecv _ _ buf => bytes_ok buf | _ => True end.

Section loop_rules.
Context {S E T : Type} `{!MrpEndpoint S E}.
Context (on_datagram : bytes → SocketAddr → M S E (Verdict T)).
(** [Inv n s]: the endpoint invariant after [n] transmissions of the datagram. *)
Context (datagram : bytes) (Inv : nat → S → Prop).
Context (P : bytes → SocketAddr → T → Prop).
Context (Inv_clock : ∀ n s now, Inv n s → Inv n (ep_with_net (net_at now (ep_net s)) s)).
Context (Inv_send : ∀ n s, Inv n s →
  ∃ s', send_to (E:=E) datagram s = (s', Ok ()) ∧ Inv (1 + n)%nat s').
Context (Inv_callback : ∀ n s buf from, Inv n s → bytes_ok buf →
  wp (on_datagram buf from)
    (λ v s', Inv n s' ∧ ∀ x, v = Done x → P buf from x)
    (λ e s', Inv n s' ∧ e ≠ timeout_error) s).
Context (io_not_timeout : @io_error S E _ ≠ timeout_error).

(** What a finished callback saw: one of the scripted datagrams. *)
Definition seen_in (events : list Event) (x : T) : Prop :=
  ∃ now from buf, EvRecv now from buf ∈ events ∧ P buf from x.

Lemma wait_interval_wp n s events :
  Inv n s → Forall event_ok events →
  wp (wait_interval on_datagram events)
    (λ '(v, rest) s', Inv n s' ∧ rest `suffix_of` events ∧
       ∀ x, v = Done x → seen_in events x)
    (λ e s', Inv n s' ∧ e ≠ timeout_error) s.
Proof.
  intros Hi Hev. revert s Hi. induction Hev as [|e rest He Hev IH]; intros s Hi.
  - by split_and!.
  - destruct e as [now from buf| |]; cbn [wait_interval].
    + apply wp_bind. change (wp (clock now) ?Q ?R s) with (Q () (ep_with_net (net_at now (ep_net s)) s)).
      apply wp_bind. eapply wp_mono; [apply Inv_callback; [by apply Inv_clock|exact He]|..];
        cbn beta; [|by intros].
      intros [|x] s' [Hi' HP].
      * eapply wp_mono; [by apply IH|..]; cbn beta; [|by intros].
        intros [v rest'] s'' (Hi'' & Hsuf & Hx). split_and!; [done|by apply suffix_cons_r|].
        intros x ->. destruct (Hx x eq_refl) as (now' & f' & b' & Hin & Hp).
        exists now', f', b'. split; [by apply elem_of_cons; right|done].
      * split_and!; [done|by apply suffix_cons_r|]. intros y [= <-].
        exists now, from, buf. split; [by apply elem_of_cons; left|]. by apply HP.
    + split_and!; [done|by apply suffix_cons_r|done].
    + done.
Qed.

(** The datagram goes out between once and [1 + retries] times, and the loop
    gives up only after the last. *)
Lemma mrp_send_loop_wp retries n s events :
  Inv n s → Forall event_ok events →
  wp (mrp_send_loop on_datagram datagram retries events)
    (λ '(x, rest) s', ∃ k, (1 ≤ k ≤ 1 + retries)%nat ∧ Inv (k + n) s' ∧ seen_in events x)
    (λ e s', ∃ k, (1 ≤ k ≤ 1 + retries)%nat ∧ Inv (k + n) s' ∧
       (e = timeout_error → k = (1 + retries)%nat)) s.
Proof.
  revert n s events. induction retries as [|r IH]; intros n s events Hi Hev;
    cbn [mrp_send_loop]; apply wp_bind; unfold wp at 1;
    destruct (Inv_send n s Hi) as (s1 & -> & Hi1); apply wp_bind;
    (eapply wp_mono; [by apply wait_interval_wp|..]; cbn beta;
      [|intros e s2 [Hi2 He]; exists 1%nat; split_and!; [lia|lia|done|done]]);
    intros [[|x] rest] s2 (Hi2 & Hsuf & Hx).
  - exists 1%nat. split_and!; [lia|lia|done|done].
  - exists 1%nat. split_and!; [lia|lia|done|by apply Hx].
  - assert (Forall event_ok rest) as Hrest.
    { destruct Hsuf as [pre ->]. by apply Forall_app in Hev as [_ ?]. }
    eapply wp_mono; [by apply IH|..]; cbn beta.
    + intros [x rest'] s3 (k & Hk & Hi3 & now & f & b & Hin & HP). exists (1 + k)%nat.
      split_and!; [lia|lia|by replace (1 + k + n)%nat with (k + (1 + n))%nat by lia|].
      exists now, f, b. split; [|done]. destruct Hsuf as [pre ->]. apply elem_of_app. by right.
    + intros e s3 (k & Hk & Hi3 & Ht). exists (1 + k)%nat.
      split_and!; [lia|lia|by replace (1 + k + n)%nat with (k + (1 + n))%nat by lia|].
      intros ->. rewrite Ht by done. lia.
  - exists 1%nat. split_and!; [lia|lia|done|by apply Hx].
Qed.
End loop_rules.

(** The answer arrives before the first deadline. *)
Lemma mrp_first_answer {S E T} `{!MrpEndpoint S E} (cb : bytes → SocketAddr → M S E (Verdict T))
    d retries now from buf rest s s1 s2 x :
  send_to d s = (s1, Ok ()) →
  cb buf from (ep_with_net (net_at now (ep_net s1)) s1) = (s2, Ok (Done x)) →
  mrp_send_loop cb d retries (EvRecv now from buf :: rest) s = (s2, Ok (x, rest)).
Proof.
  intros Hsend Hcb. destruct retries; cbn [mrp_send_loop]; unfold bind at 1; rewrite Hsend;
    unfold bind at 1; cbn [wait_interval]; unfold bind at 1, clock, modify;
    unfold bind at 1; by rewrite Hcb.
Qed.

(** ** The loops on an exchange *)

Lemma built_inj c c' protocol protocol' opc opc' wd wd' acked acked' payload payload' :
  wf_core c → wf_core c' → in_u 16 protocol → in_u 16 protocol' → is_byte opc → is_byte opc' →
  wf_opt 32 acked → wf_opt 32 acked' →
  built c protocol opc wd acked payload = built c' protocol' opc' wd' acked' payload' →
  our_header c = our_header c' ∧
  proto_of c protocol opc wd acked = proto_of c' protocol' opc' wd' acked'.
Proof.
  intros Hc Hc' Hp Hp' Ho Ho' Ha Ha' Heq.
  pose proof (proto_of_wf c protocol opc wd acked Hc Hp Ho Ha) as Hw.
  pose proof (proto_of_wf c' protocol' opc' wd' acked' Hc' Hp' Ho' Ha') as Hw'.
  unfold built in Heq. set (p := proto_of c _ _ _ _) in *. set (p' := proto_of c' _ _ _ _) in *.
  pose proof (decode_encode (our_header c) (ProtocolHeader_encode p ++ payload)
    (our_header_wf c Hc)) as Hd.
  pose proof (decode_encode (our_header c') (ProtocolHeader_encode p' ++ payload')
    (our_header_wf c' Hc')) as Hd'.
  cbn [decode encode MessageHeader_codec] in Hd, Hd'. rewrite Heq, Hd' in Hd.
  injection Hd as Hh _. split; [done|]. rewrite Hh in Heq. apply app_inv_head in Heq.
  pose proof (decode_encode p payload Hw) as He. pose proof (decode_encode p' payload' Hw') as He'.
  cbn [decode encode ProtocolHeader_codec] in He, He'. rewrite Heq, He' in He. clearbody p p'. congruence.
Qed.

(** Same peer, exchange and role: what makes a datagram relevant. *)
Definition same_exchange (c c' : ExchangeCore) : Prop :=
  ex_peer c = ex_peer c' ∧ ex_id c = ex_id c' ∧ is_initiator c = is_initiator c'.

Lemma relevant_same c c' buf from :
  same_exchange c c' → relevant c buf from = relevant c' buf from.
Proof. intros (H1 & H2 & H3). unfold relevant. by rewrite H1, H2, H3. Qed.

Lemma relevant_wf c buf from m :
  bytes_ok buf → relevant c buf from = Some m →
  wf_message (msg_header m) ∧ wf_protocol (msg_proto m) ∧
  exchange_id (msg_proto m) = ex_id c ∧ initiator (msg_proto m) = negb (is_initiator c).
Proof.
  intros Hb. unfold relevant. case_bool_decide; [|done].
  destruct (MessageHeader_decode buf) as [[h off]|e| |] eqn:Hd; try done.
  destruct (ProtocolHeader_decode (drop (Z.to_nat off) buf)) as [[p boff]|e| |] eqn:Hd'; try done.
  case_bool_decide as Hok; [|done]. intros [= <-]. cbn [msg_header msg_proto].
  assert (Hb' : bytes_ok (drop (Z.to_nat off) buf)) by by apply Forall_drop.
  pose proof (@decode_sound _ MessageHeader_codec buf _ _ Hb Hd) as (? & _).
  pose proof (@decode_sound _ ProtocolHeader_codec _ _ _ Hb' Hd') as (? & _). naive_solver.
Qed.

Lemma received_same c m : same_exchange c (received c m).
Proof.
  unfold received. split_and!; try done. cbn. unfold is_initiator. cbn.
  destruct (_.2), (ex_role c); done.
Qed.

Lemma screened_same c m : same_exchange c (screened c m).
Proof.
  pose proof (received_same c m) as (H1 & H2 & H3). unfold screened.
  destruct (ack_wanted c m); done.
Qed.

Lemma bump_wf c : wf_core c → wf_core (bump c).
Proof. intros (? & ? & ?). split_and!; [done| |done]. apply wrap_in_u. lia. Qed.

Lemma received_wf c m : wf_core c → wf_message (msg_header m) → wf_core (received c m).
Proof.
  intros (? & ? & Hr) (_ & _ & Hc & _). split_and!; [done|done|].
  cbn. destruct (_.2); [|done]. destruct (ex_role c); cbn in *; [done|]. by destruct Hr.
Qed.

Lemma screened_wf c m : wf_core c → wf_message (msg_header m) → wf_core (screened c m).
Proof.
  intros Hc Hm. unfold screened. pose proof (received_wf c m Hc Hm).
  destruct (ack_wanted c m); [|done]. by apply bump_wf.
Qed.

Lemma screened_sends c m : sends c → sends (screened c m).
Proof. intros Hs. unfold screened. by destruct (ack_wanted c m). Qed.

(** How often [d] is in the output of [c]. *)
Definition times (d : bytes) (c : ExchangeCore) : nat :=
  length (filter (λ x, x = d) (net_out (ex_net c))).

Lemma times_sent d d' c : times d (sent d' c) = (times d c + if decide (d' = d) then 1 else 0)%nat.
Proof.
  unfold times, sent, ex_with_net. cbn [ex_net net_out]. rewrite filter_app, length_app.
  f_equal. rewrite filter_cons. by case_decide.
Qed.

(** The retransmission invariant of an exchange that sends [d], the datagram
    it built in state [c0]. *)
Record looping (c0 : ExchangeCore) (d : bytes) (n : nat) (c : ExchangeCore) : Prop := {
  lp_sends : sends c;
  lp_unreliable : net_reliable (ex_net c) = false;
  lp_wf : wf_core c;
  lp_same : same_exchange c0 c;
  lp_times : times d c = n
}.

Lemma same_exchange_trans a b c : same_exchange a b → same_exchange b c → same_exchange a c.
Proof. intros (?&?&?) (?&?&?). split_and!; congruence. Qed.

Section looping.
Context (c0 : ExchangeCore) (protocol opc : Z) (acked : option Z) (payload : bytes).
Context (Hwf0 : wf_core c0) (Hp : in_u 16 protocol) (Ho : is_byte opc) (Ha : wf_opt 32 acked).
Context (Hunrel : net_reliable (ex_net c0) = false).

Definition reliable_datagram : bytes := built c0 protocol opc true acked payload.

Lemma ack_not_datagram c counter :
  wf_core c → in_u 32 counter → ack_datagram c counter ≠ reliable_datagram.
Proof.
  intros Hc Hk Heq. unfold ack_datagram, reliable_datagram in Heq.
  apply built_inj in Heq as [_ Heq]; try done.
  apply (f_equal needs_ack) in Heq. cbn in Heq. by rewrite Hunrel in Heq.
Qed.

Lemma looping_screened n c m :
  looping c0 reliable_datagram n c → wf_message (msg_header m) →
  looping c0 reliable_datagram n (screened c m).
Proof.
  intros [Hs Hu Hw Hsame Ht] Hm. split.
  - by apply screened_sends.
  - unfold screened. by destruct (ack_wanted c m).
  - by apply screened_wf.
  - eapply same_exchange_trans; [done|apply screened_same].
  - unfold screened. destruct (ack_wanted c m); [|done]. rewrite times_sent.
    rewrite decide_False; [by rewrite Nat.add_0_r|].
    apply ack_not_datagram; [by apply received_wf|]. by destruct Hm as (_ & _ & ? & _).
Qed.

Lemma looping_screen n c buf from :
  looping c0 reliable_datagram n c → bytes_ok buf →
  wp (screen buf from)
    (λ o c', looping c0 reliable_datagram n c' ∧ ∀ m, o = Some m → relevant c0 buf from = Some m)
    (λ _ _, False) c.
Proof.
  intros Hi Hb. unfold wp. rewrite screen_ok by (done || apply Hi).
  rewrite <- (relevant_same c0) by apply Hi.
  destruct (relevant c0 buf from) as [m|] eqn:Hr; [|done].
  pose proof (relevant_wf _ _ _ _ Hb Hr) as (Hm & _). split; [by apply looping_screened|].
  intros m'. by destruct (fresh_for c m).
Qed.

Lemma looping_clock n c now :
  looping c0 reliable_datagram n c →
  looping c0 reliable_datagram n (ex_with_net (net_at now (ex_net c)) c).
Proof. intros [Hs Hu Hw Hsame Ht]. by split. Qed.

Lemma looping_send n c :
  looping c0 reliable_datagram n c →
  ∃ c', send_to (E:=ExchangeError) reliable_datagram c = (c', Ok ()) ∧
    looping c0 reliable_datagram (1 + n) c'.
Proof.
  intros [Hs Hu Hw Hsame Ht]. exists (sent reliable_datagram c). split; [by apply send_to_ok|].
  split; try done. rewrite times_sent, Ht, decide_True by done. lia.
Qed.
End looping.

Lemma await_reply_wp c0 protocol opc acked payload n c buf from :
  wf_core c0 → in_u 16 protocol → is_byte opc → wf_opt 32 acked →
  net_reliable (ex_net c0) = false →
  looping c0 (reliable_datagram c0 protocol opc acked payload) n c → bytes_ok buf →
  wp (await_reply (our_counter c0) buf from)
    (λ v c', looping c0 (reliable_datagram c0 protocol opc acked payload) n c' ∧
       ∀ x, v = Done x → ∃ m, relevant c0 buf from = Some m ∧
         match x with
         | None => is_standalone_ack (msg_proto m) = true ∧
                   acked_counter (msg_proto m) = Some (our_counter c0)
         | Some m' => m' = m ∧ is_standalone_ack (msg_proto m) = false
         end)
    (λ e c', looping c0 (reliable_datagram c0 protocol opc acked payload) n c' ∧
       e ≠ @timeout_error ExchangeCore _ _) c.
Proof.
  intros Hwf Hp Ho Ha Hu Hi Hb. unfold await_reply. apply wp_bind.
  eapply wp_mono; [by apply looping_screen|..]; cbn beta; [|done].
  intros [m|] c' [Hi' Hm]; [|by split].
  destruct (is_standalone_ack (msg_proto m)) eqn:Hack.
  - split; [done|]. intros x Hx. case_bool_decide; simplify_eq. exists m. split; auto.
  - split; [done|]. intros x [= <-]. exists m. split; auto.
Qed.

Lemma our_header_counter c : message_counter (our_header c) = our_counter c.
Proof. unfold our_header, build_header. by destruct (ex_role c). Qed.

Lemma piggyback_wf c : wf_core c → wf_opt 32 (piggyback_ack c).
Proof.
  intros (_ & _ & Hr). unfold piggyback_ack. destruct (ex_role c); [done|apply Hr].
Qed.

(** The peer's standalone ack completes a reliable send. *)
Lemma send_reliable_acked s u protocol opc payload cfg now rest :
  wf_core s → wf_core u → paired u s → sends s → net_reliable (ex_net s) = false →
  (check_and_commit (ex_rx_window s) (our_counter u)).2 = true →
  ∃ s', send_reliable protocol opc payload cfg
      (EvRecv now (ex_peer s) (ack_datagram u (our_counter s)) :: rest) s = (s', Ok (None, rest)) ∧
    net_out (ex_net s') = net_out (ex_net s) ++ [built s protocol opc true (piggyback_ack s) payload].
Proof.
  intros Hs Hu Hp Hn Hrel Hf. set (d := built s protocol opc true (piggyback_ack s) payload).
  set (s1 := ex_set_sent (Some (our_counter s)) (bump s)).
  set (s2 := ex_with_net (net_at now (ex_net (sent d s1))) (sent d s1)).
  set (ack := ack_datagram u (our_counter s)).
  assert (Hab : bytes_ok ack).
  { apply built_ok; [done|by vm_compute|by vm_compute|apply Hs|constructor]. }
  set (a := built_message u PROTOCOL_ID_SECURE_CHANNEL OPCODE_MRP_STANDALONE_ACK false
    (Some (our_counter s)) []).
  assert (Hrecv : screen ack (ex_peer s) s2 = (screened s2 a, Ok (Some a))).
  { rewrite screen_ok by done. change (ex_peer s) with (ex_peer s2). unfold ack, ack_datagram.
    rewrite relevant_built; [|done|by destruct Hp|by vm_compute|by vm_compute|apply Hs].
    fold a. assert (fresh_for s2 a = true) as ->; [|done]. unfold fresh_for.
    change (message_counter (msg_header a)) with (message_counter (our_header u)).
    by rewrite our_header_counter. }
  exists (screened s2 a). split.
  - unfold send_reliable, bind at 1, get at 1. cbn beta iota. rewrite Hrel.
    unfold bind at 1. rewrite build_eq. fold d. unfold bind at 1, modify at 1. fold s1.
    apply mrp_first_answer with (s1 := sent d s1); [by apply send_to_ok|].
    cbn [ep_net ExchangeCore_endpoint ep_with_net]. fold s2.
    unfold await_reply, bind. rewrite Hrecv. cbn [is_standalone_ack a built_message msg_proto
      proto_of protocol_id opcode acked_counter]. by rewrite bool_decide_true.
  - unfold screened. by replace (ack_wanted s2 a) with false by done.
Qed.

(** ** Properties *)

(** Screening one received datagram.  Traffic that is not for this
    exchange (other sender, undecodable, secured, other exchange id, our own
    role) changes nothing at all.  A relevant message is delivered exactly when
    its counter is fresh for the replay window; fresh or duplicate, it refreshes
    the activity time, and when it asks for an acknowledgement on a transport
    without its own reliability, exactly one standalone ack naming its counter
    goes out. *)
Theorem screen_delivers_and_acks (c : ExchangeCore) (buf : bytes) (from : SocketAddr) :
  bytes_ok buf → sends c → wf_core c →
  match relevant c buf from with
  | None => screen buf from c = (c, Ok None)
  | Some m =>
      ∃ c', screen buf from c = (c', Ok (if fresh_for c m then Some m else None)) ∧
        ex_last_rx c' = Some (net_now (ex_net c)) ∧
        ex_rx_window c' = (check_and_commit (ex_rx_window c) (message_counter (msg_header m))).1 ∧
        if needs_ack (msg_proto m) && negb (net_reliable (ex_net c)) then
          ∃ ack, net_out (ex_net c') = net_out (ex_net c) ++ [ack] ∧
            ∀ t, paired c t →
              ∃ a, relevant t ack (ex_peer t) = Some a ∧ is_standalone_ack (msg_proto a) = true ∧
                acked_counter (msg_proto a) = Some (message_counter (msg_header m)) ∧
                needs_ack (msg_proto a) = false
        else net_out (ex_net c') = net_out (ex_net c)
  end.
Proof.
  intros Hb Hs Hw. rewrite screen_ok by done.
  destruct (relevant c buf from) as [m|] eqn:Hr; [|done].
  pose proof (relevant_wf _ _ _ _ Hb Hr) as (Hm & _).
  pose proof Hm as (_ & _ & Hcnt & _).
  pose proof (received_same c m) as (_ & Hid & Hin).
  exists (screened c m). split; [done|]. unfold screened, ack_wanted.
  destruct (needs_ack (msg_proto m) && negb (net_reliable (ex_net c))); [|done].
  split_and!; [done|done|]. eexists. split; [reflexivity|]. intros t [Hp1 Hp2].
  eexists. split; [apply relevant_built|]; [by apply received_wf| |done|by vm_compute|done|done].
  split; congruence.
Qed.

Definition alice : ExchangeCore :=
  UnsecuredExchange_new {| net_reliable := false; net_now := 0; net_out := []; net_send_ok := [] |}
    {| ip := [10; 0; 0; 2]; port := 5540 |} [0x34; 0x12; 1; 2; 3; 4; 5; 6; 7; 8] [9; 0; 0; 0].
(** What the device saw first, and the exchange it adopts from it. *)
Definition hello : IncomingMessage := built_message alice 0 0x20 true None [1; 2; 3].
Definition bob : ExchangeCore :=
  ResponderExchange_adopt {| net_reliable := false; net_now := 5; net_out := []; net_send_ok := [] |}
    {| ip := [10; 0; 0; 1]; port := 5540 |} hello [200; 0; 0; 0].

Lemma alice_wf : wf_core alice.
Proof. split_and!; by vm_compute. Qed.
Lemma bob_wf : wf_core bob.
Proof. split_and!; by vm_compute. Qed.
Lemma bytes_ok_dec (b : bytes) : forallb (λ x, (0 <=? x) && (x <? 256)) b = true → bytes_ok b.
Proof.
  intros H. apply Forall_forall. intros x Hx. rewrite forallb_forall in H.
  apply list_elem_of_In in Hx. specialize (H x Hx). unfold is_byte. lia.
Qed.

Lemma screen_delivers_and_acks_witness :
  ∃ c', screen (built (bump alice) 0 0x22 true None [4; 5]) (ex_peer bob) bob =
      (c', Ok (Some (built_message (bump alice) 0 0x22 true None [4; 5]))) ∧
    length (net_out (ex_net c')) = 1%nat.
Proof.
  pose proof (screen_delivers_and_acks bob (built (bump alice) 0 0x22 true None [4; 5]) (ex_peer bob)
    ltac:(by apply bytes_ok_dec) eq_refl bob_wf) as H.
  vm_compute in H. destruct H as (c' & H1 & _ & _ & ack & H2 & _).
  exists c'. split; [exact H1|]. vm_compute. by rewrite H2.
Defined.

(** C28.  Two ends of one exchange: what one sends with [send_reliable], the
    other's screening delivers intact (headers, opcode, payload, piggybacked
    ack) and answers with one standalone ack; that ack, fed back to the sender,
    completes [send_reliable] with [Ok(None)] after a single transmission. *)
Theorem reliable_send_completes (s t : ExchangeCore) (protocol opc : Z) (payload : bytes)
    (cfg : MrpConfig) (now : Z) (rest : list Event) :
  wf_core s → wf_core t → paired s t → sends s → sends t →
  net_reliable (ex_net s) = false → net_reliable (ex_net t) = false →
  in_u 16 protocol → is_byte opc → bytes_ok payload →
  (check_and_commit (ex_rx_window t) (our_counter s)).2 = true →
  (check_and_commit (ex_rx_window s) (our_counter t)).2 = true →
  ∃ d t' ack s' m,
    screen d (ex_peer t) t = (t', Ok (Some m)) ∧
    msg_payload m = payload ∧ opcode (msg_proto m) = opc ∧ protocol_id (msg_proto m) = protocol ∧
    acked_counter (msg_proto m) = piggyback_ack s ∧
    net_out (ex_net t') = net_out (ex_net t) ++ [ack] ∧
    send_reliable protocol opc payload cfg (EvRecv now (ex_peer s) ack :: rest) s =
      (s', Ok (None, rest)) ∧
    net_out (ex_net s') = net_out (ex_net s) ++ [d].
Proof.
  intros Hs Ht Hp Hss Hst Hu1 Hu2 Hpr Ho Hpl Hf1 Hf2.
  pose proof (piggyback_wf s Hs) as Hpig.
  set (m := built_message s protocol opc true (piggyback_ack s) payload).
  pose proof (built_ok s protocol opc true _ payload Hs Hpr Ho Hpig Hpl) as Hdb.
  set (t1 := received t m). pose proof (received_same t m) as (_ & Hid & Hin).
  assert (Ht1 : wf_core t1) by (apply received_wf; [done|by apply our_header_wf]).
  assert (Hscr : screened t m = sent (ack_datagram t1 (our_counter s)) (bump t1)).
  { unfold screened, ack_wanted, m, built_message, proto_of. cbn [msg_proto needs_ack msg_header].
    by rewrite Hu1, Hu2, our_header_counter. }
  destruct (send_reliable_acked s t1 protocol opc payload cfg now rest) as (s' & Hsend & Hout);
    [done|done| |done|done| |].
  { destruct Hp as [Hp1 Hp2]. split; [cbn; congruence|]. rewrite Hp2, negb_involutive. by symmetry. }
  { exact Hf2. }
  exists (built s protocol opc true (piggyback_ack s) payload), (screened t m),
    (ack_datagram t1 (our_counter s)), s', m.
  split_and!; try done; [|by rewrite Hscr].
  - rewrite screen_ok by done. rewrite relevant_built by done. fold m.
    assert (fresh_for t m = true) as ->; [|done]. unfold fresh_for.
    change (message_counter (msg_header m)) with (message_counter (our_header s)).
    by rewrite our_header_counter.
Qed.

Lemma reliable_send_completes_witness :
  ∃ d t' ack s' m,
    screen d (ex_peer bob) bob = (t', Ok (Some m)) ∧
    msg_payload m = [4; 5] ∧ opcode (msg_proto m) = 0x22 ∧ protocol_id (msg_proto m) = 0 ∧
    acked_counter (msg_proto m) = None ∧
    net_out (ex_net t') = net_out (ex_net bob) ++ [ack] ∧
    send_reliable 0 0x22 [4; 5] {| initial_interval := 300; active_interval := 300; max_retries := 4 |}
      (EvRecv 50 (ex_peer alice) ack :: []) (bump alice) = (s', Ok (None, [])) ∧
    net_out (ex_net s') = net_out (ex_net alice) ++ [d].
Proof.
  apply (reliable_send_completes (bump alice) bob 0 0x22 [4; 5]);
    [apply bump_wf, alice_wf|exact bob_wf|by vm_compute|by vm_compute|by vm_compute
    |by vm_compute|by vm_compute|by vm_compute|by vm_compute|by apply bytes_ok_dec
    |by vm_compute|by vm_compute].
Defined.

(** What [send_reliable] may return, given the script it saw. *)
Definition justified (c : ExchangeCore) (events : list Event) (x : option IncomingMessage) : Prop :=
  ∃ now from buf m, EvRecv now from buf ∈ events ∧ relevant c buf from = Some m ∧
    match x with
    | None => is_standalone_ack (msg_proto m) = true ∧
              acked_counter (msg_proto m) = Some (our_counter c)
    | Some m' => m' = m ∧ is_standalone_ack (msg_proto m) = false
    end.

(** C29.  [send_reliable] over UDP always ends, whatever the socket delivers:
    the datagram goes out at least once and at most [1 + max_retries] times,
    [Timeout] means every transmission was made, [None] means the peer sent a
    standalone ack for exactly our counter, and [Some] is a message of this
    exchange that arrived and is not an ack. *)
Theorem send_reliable_bounded (c : ExchangeCore) (protocol opc : Z) (payload : bytes)
    (cfg : MrpConfig) (events : list Event) :
  wf_core c → sends c → net_reliable (ex_net c) = false →
  in_u 16 protocol → is_byte opc → Forall event_ok events →
  let d := built c protocol opc true (piggyback_ack c) payload in
  let (c', r) := send_reliable protocol opc payload cfg events c in
  ∃ k, times d c' = (k + times d c)%nat ∧ (1 ≤ k ≤ 1 + max_retries cfg)%nat ∧ returns r ∧
    (r = Err Timeout → k = (1 + max_retries cfg)%nat) ∧
    (∀ x rest, r = Ok (x, rest) → justified c events x).
Proof.
  intros Hc Hs Hu Hp Ho Hev d.
  pose proof (piggyback_wf c Hc) as Hpig.
  set (c1 := ex_set_sent (Some (our_counter c)) (bump c)).
  assert (Hl : looping c d (times d c) c1).
  { split; [done|done|by apply (bump_wf c)|done|done]. }
  pose proof (mrp_send_loop_wp (await_reply (our_counter c)) d (looping c d)
    (λ buf from x, ∃ m, relevant c buf from = Some m ∧
       match x with
       | None => is_standalone_ack (msg_proto m) = true ∧
                 acked_counter (msg_proto m) = Some (our_counter c)
       | Some m' => m' = m ∧ is_standalone_ack (msg_proto m) = false
       end)
    (λ n s now, looping_clock c protocol opc (piggyback_ack c) payload n s now)
    (looping_send c protocol opc (piggyback_ack c) payload)
    (λ n s buf from Hi Hb,
       await_reply_wp c protocol opc _ payload n s buf from Hc Hp Ho Hpig Hu Hi Hb)
    ltac:(done) (max_retries cfg) (times d c) c1 events Hl Hev) as H.
  unfold send_reliable, bind at 1, get at 1. cbn beta iota. rewrite Hu.
  unfold bind at 1. rewrite build_eq. fold d. unfold bind at 1, modify at 1. fold c1.
  unfold wp in H. destruct (mrp_send_loop _ d _ events c1) as [c' [[x rest]|e| |]]; try done.
  - destruct H as (k & Hk & Hi & now & from & buf & Hin & m & Hm & Hx).
    exists k. split_and!; [apply Hi|lia|lia|done|done|].
    intros y rest' [= <- <-]. by exists now, from, buf, m.
  - destruct H as (k & Hk & Hi & Ht). exists k. split_and!; [apply Hi|lia|lia|done| |done].
    intros [= ->]. by apply Ht.
Qed.

Lemma send_reliable_bounded_witness :
  let d := built alice 0 0x20 true None [1; 2; 3] in
  let (c', r) := send_reliable 0 0x20 [1; 2; 3]
    {| initial_interval := 300; active_interval := 300; max_retries := 2 |}
    [EvRecv 10 (ex_peer bob) [1; 2; 3]; EvElapsed] alice in
  ∃ k, times d c' = (k + times d alice)%nat ∧ (1 ≤ k ≤ 3)%nat ∧ returns r ∧
    (r = Err Timeout → k = 3%nat) ∧
    (∀ x rest, r = Ok (x, rest) →
       justified alice [EvRecv 10 (ex_peer bob) [1; 2; 3]; EvElapsed] x).
Proof.
  apply (send_reliable_bounded alice 0 0x20 [1; 2; 3]);
    [exact alice_wf|done|done|by vm_compute|by vm_compute|].
  constructor; [by apply bytes_ok_dec|]. by constructor; [|constructor].
Defined.
