(* ===== verification/Im.v ===== *)
(** * Interaction Model messages

    Models [crates/mat-controller/src/im/]: the encoders and decoders of
    InvokeRequest / InvokeResponse / TimedRequest / StatusResponse
    ([invoke.rs]), WriteRequest / WriteResponse ([write.rs]), ReadRequest and
    ReportData ([read.rs], the encoder of [event.rs]), both the controller's
    and the device's direction.

    A [while let Some(el) = f.next_field()] loop is [fields], a [next_scalar]
    loop is [scalars] and a hand-rolled [loop { r.next()?.ok_or(..)? }] is
    [items]: instances of [walk] that differ in how an error is worded. *)

From Stdlib Require Import String.
From S2P Require Import Prelude Tlv TlvValue.

Inductive ImError :=
  | ImTlv (e : TlvError)
  | Malformed (msg : string)
  | UnsupportedValue
  | AttributeStatus (s : Z)
  | StatusResponse (s : Z)
  | CommandStatus (status : Z) (cluster_status : option Z).

Abbreviation IR := (M Reader ImError).

Definition OPCODE_STATUS_RESPONSE : Z := 0x01.
Definition OPCODE_READ_REQUEST : Z := 0x02.
Definition OPCODE_REPORT_DATA : Z := 0x05.
Definition OPCODE_WRITE_REQUEST : Z := 0x06.
Definition OPCODE_WRITE_RESPONSE : Z := 0x07.
Definition OPCODE_INVOKE_REQUEST : Z := 0x08.
Definition OPCODE_INVOKE_RESPONSE : Z := 0x09.
Definition OPCODE_TIMED_REQUEST : Z := 0x0A.
Definition IM_REVISION : Z := 12.

(** ** Walking and errors ([mod.rs]) *)

Definition field_err (truncated : string) (e : TlvError) : ImError :=
  match e with Truncated => Malformed truncated | other => ImTlv other end.

Definition expect_struct_start : IR () :=
  let! o := adapt ImTlv next in
  match o with
  | None => throw (Malformed "empty payload")
  | Some el =>
      match el_value el with VStructStart => ret () | _ => throw (Malformed "expected struct") end
  end.

Definition im_skip : IR () := adapt (field_err "truncated container") skip_container.

Definition fields {T} (label : string) (step : T → Element → IR T) (s : T) : IR T :=
  walk (field_err label) (Malformed label) step s.

Definition scalars {T} (label : string) (step : T → Element → IR T) (s : T) : IR T :=
  walk (field_err label) (Malformed label)
    (λ s el, if is_container_start (el_value el)
             then adapt (field_err label) skip_container ;;! ret s else step s el) s.

Definition items {T} (label : string) (step : T → Element → IR T) (s : T) : IR T :=
  walk ImTlv (Malformed label) step s.

(** The two catch-all arms: an unknown container is skipped, an unknown scalar
    ignored. *)
Definition skip_other {T} (s : T) (el : Element) : IR T :=
  if is_container_start (el_value el) then im_skip ;;! ret s else ret s.

(** [uN::try_from(v).map_err(|_| Malformed(label))?]. *)
Definition narrow_im (w : Z) (label : string) (v : Z) : IR Z :=
  match try_u w v with Some v => ret v | None => throw (Malformed label) end.

Definition im_ok_or {A} (o : option A) (label : string) : IR A :=
  match o with Some a => ret a | None => throw (Malformed label) end.

Definition run_im {A} (m : IR A) (payload : bytes) : res ImError A := (m (Reader_new payload)).2.

(** The three optional ids of a path: endpoint, cluster, and attribute, command
    or event, under three consecutive context tags. *)
Definition ids : Type := (option Z * option Z * option Z)%type.
Definition no_ids : ids := (None, None, None).

Definition put_ids (first : Z) (endpoint cluster : Z) (third : option Z) : M Writer Empty_set () :=
  put_uint (Context first) endpoint ;;!
  put_uint (Context (first + 1)) cluster ;;!
  match third with
  | Some id => put_uint (Context (first + 2)) id ;;! end_container
  | None => end_container
  end.

Definition ids_step (first : Z) (l0 l1 l2 : string) (other : ids → Element → IR ids)
    (p : ids) (el : Element) : IR ids :=
  let '(ep, cl, id) := p in
  match el_tag el, el_value el with
  | Context t, VUint v =>
      if t =? first then let! v := narrow_im 16 l0 v in ret (Some v, cl, id)
      else if t =? first + 1 then let! v := narrow_im 32 l1 v in ret (ep, Some v, id)
      else if t =? first + 2 then let! v := narrow_im 32 l2 v in ret (ep, cl, Some v)
      else ret p
  | _, _ => other p el
  end.

Definition put_attribute_path (tag : Tag) (endpoint cluster : Z) (attribute : option Z) :
    M Writer Empty_set () :=
  start_list tag ;;! put_ids 2 endpoint cluster attribute.

Definition put_status_ib (tag : Tag) (status : Z) (cluster_status : option Z) :
    M Writer Empty_set () :=
  start_struct tag ;;!
  put_uint (Context 0) status ;;!
  match cluster_status with
  | Some cs => put_uint (Context 1) cs ;;! end_container
  | None => end_container
  end.

(** ** Invoke ([invoke.rs]) *)

(** An optional raw element before the end of the container. *)
Definition put_optional_raw (tag : Tag) (raw : option bytes) (k : M Writer Empty_set ()) :
    M Writer Empty_set () :=
  match raw with Some raw => put_raw_element tag raw ;;! k | None => k end.

Definition put_command_path (endpoint cluster command : Z) : M Writer Empty_set () :=
  start_list (Context 0) ;;! put_ids 0 endpoint cluster (Some command).

Definition encode_invoke_request_inner (endpoint cluster command : Z) (fields_tlv : option bytes)
    (timed : bool) : fin bytes :=
  to_vec (
    start_struct Anonymous ;;!
    put_bool (Context 0) false ;;!
    put_bool (Context 1) timed ;;!
    (start_array (Context 2) ;;!
     (start_struct Anonymous ;;!
      put_command_path endpoint cluster command ;;!
      put_optional_raw (Context 1) fields_tlv end_container) ;;!
     end_container) ;;!
    put_uint (Context 255) IM_REVISION ;;!
    end_container).

Definition encode_invoke_request (endpoint cluster command : Z) (fields_tlv : option bytes) :
    fin bytes := encode_invoke_request_inner endpoint cluster command fields_tlv false.
Definition encode_invoke_request_timed (endpoint cluster command : Z) (fields_tlv : option bytes) :
    fin bytes := encode_invoke_request_inner endpoint cluster command fields_tlv true.

Definition encode_timed_request (timeout_ms : Z) : fin bytes :=
  to_vec (
    start_struct Anonymous ;;!
    put_uint (Context 0) timeout_ms ;;!
    put_uint (Context 255) IM_REVISION ;;!
    end_container).

Definition encode_group_invoke_request (cluster command : Z) (fields_tlv : option bytes) : fin bytes :=
  to_vec (
    start_struct Anonymous ;;!
    put_bool (Context 0) true ;;!
    put_bool (Context 1) false ;;!
    (start_array (Context 2) ;;!
     (start_struct Anonymous ;;!
      (start_list (Context 0) ;;!
       put_uint (Context 1) cluster ;;!
       put_uint (Context 2) command ;;!
       end_container) ;;!
      put_optional_raw (Context 1) fields_tlv end_container) ;;!
     end_container) ;;!
    put_uint (Context 255) IM_REVISION ;;!
    end_container).

Record InvokeRequestIn := {
  ir_endpoint : Z;
  ir_cluster : Z;
  ir_command : Z;
  ir_fields : bytes;
  ir_suppress : bool;
  ir_timed : bool
}.

Definition command_path_step : ids → Element → IR ids :=
  ids_step 0 "command path endpoint out of range" "command path cluster out of range"
    "command path command out of range" (λ p _, ret p).

Definition command_data_step (s : ids * bytes) (el : Element) : IR (ids * bytes) :=
  let '(p, fields_tlv) := s in
  match el_tag el, el_value el with
  | Context 0, VListStart =>
      let! p := scalars "truncated command path" command_path_step p in ret (p, fields_tlv)
  | Context 1, VStructStart =>
      let! raw := copy_to_vec ImTlv Anonymous VStructStart in ret (p, raw)
  | _, _ => skip_other s el
  end.

Definition decode_request_command_data_ib : IR (ids * bytes) :=
  fields "truncated command data ib" command_data_step (no_ids, []).

(** An array of structs of which only the first is interpreted. *)
Definition first_only_step {A} (unexpected : string) (decode : IR A) (s : bool * option A)
    (el : Element) : IR (bool * option A) :=
  match el_value el with
  | VStructStart =>
      if fst s then let! a := decode in ret (false, Some a) else im_skip ;;! ret s
  | _ => throw (Malformed unexpected)
  end.

Record InvokeAcc := { ia_suppress : bool; ia_timed : bool; ia_data : ids * bytes }.

Definition invoke_request_step (s : InvokeAcc) (el : Element) : IR InvokeAcc :=
  match el_tag el, el_value el with
  | Context 0, VBool b => ret {| ia_suppress := b; ia_timed := ia_timed s; ia_data := ia_data s |}
  | Context 1, VBool b => ret {| ia_suppress := ia_suppress s; ia_timed := b; ia_data := ia_data s |}
  | Context 2, VArrayStart =>
      let! (_, first) := items "truncated invoke requests"
        (first_only_step "unexpected element in invoke requests" decode_request_command_data_ib)
        (true, None) in
      ret {| ia_suppress := ia_suppress s; ia_timed := ia_timed s; ia_data := default (ia_data s) first |}
  | _, _ => skip_other s el
  end.

Definition decode_invoke_request (payload : bytes) : res ImError InvokeRequestIn :=
  run_im (
    expect_struct_start ;;!
    let! s := fields "truncated invoke request" invoke_request_step
      {| ia_suppress := false; ia_timed := false; ia_data := (no_ids, []) |} in
    let '((ep, cl, cmd), raw) := ia_data s in
    let! ep := im_ok_or ep "invoke request without endpoint" in
    let! cl := im_ok_or cl "invoke request without cluster" in
    let! cmd := im_ok_or cmd "invoke request without command" in
    ret {| ir_endpoint := ep; ir_cluster := cl; ir_command := cmd; ir_fields := raw;
           ir_suppress := ia_suppress s; ir_timed := ia_timed s |}) payload.

(** *** Invoke responses *)

Record InvokeOutcome := { io_status : Z; io_cluster_status : option Z }.
Record InvokeResponseData := {
  id_status : Z;
  id_cluster_status : option Z;
  id_fields : option bytes
}.

Definition status_ib_step (s : option Z * option Z) (el : Element) : IR (option Z * option Z) :=
  match el_tag el, el_value el with
  | Context 0, VUint v =>
      let! v := narrow_im 8 "command status code out of range" v in ret (Some v, snd s)
  | Context 1, VUint v =>
      let! v := narrow_im 8 "cluster status code out of range" v in ret (fst s, Some v)
  | _, _ => ret s
  end.

Definition decode_status_ib : IR (Z * option Z) :=
  let! (status, cluster_status) := scalars "truncated status ib" status_ib_step (None, None) in
  let! status := im_ok_or status "status ib without status" in
  ret (status, cluster_status).

Definition command_status_step (result : option (Z * option Z)) (el : Element) :
    IR (option (Z * option Z)) :=
  match el_tag el, el_value el with
  | Context 1, VStructStart => let! s := decode_status_ib in ret (Some s)
  | _, _ => skip_other result el
  end.

Definition decode_command_status_ib : IR (Z * option Z) :=
  let! result := fields "truncated command status ib" command_status_step None in
  im_ok_or result "command status ib without StatusIB".

Definition invoke_response_step (outcome : option InvokeOutcome) (el : Element) :
    IR (option InvokeOutcome) :=
  match el_tag el, el_value el with
  | Context 0, VStructStart =>
      im_skip ;;! ret (Some {| io_status := 0; io_cluster_status := None |})
  | Context 1, VStructStart =>
      let! (status, cs) := decode_command_status_ib in
      ret (Some {| io_status := status; io_cluster_status := cs |})
  | _, _ => skip_other outcome el
  end.

Definition decode_invoke_response_ib : IR InvokeOutcome :=
  let! outcome := fields "truncated invoke response ib" invoke_response_step None in
  im_ok_or outcome "invoke response ib without Command or Status".

Definition invoke_responses_step {A} (decode_ib : IR A) (result : option A) (el : Element) :
    IR (option A) :=
  match el_tag el, el_value el with
  | Context 1, VArrayStart =>
      let! (_, first) := items "truncated invoke responses"
        (first_only_step "unexpected element in invoke responses" decode_ib) (true, None) in
      ret (match first with Some a => Some a | None => result end)
  | _, _ => skip_other result el
  end.

Definition decode_first_invoke_response_ib {A} (payload : bytes) (decode_ib : IR A) : res ImError A :=
  run_im (
    expect_struct_start ;;!
    let! result := fields "truncated invoke response" (invoke_responses_step decode_ib) None in
    im_ok_or result "invoke response without InvokeResponseIB") payload.

Definition decode_invoke_response (payload : bytes) : res ImError InvokeOutcome :=
  decode_first_invoke_response_ib payload decode_invoke_response_ib.

Definition command_fields_step (s : option bytes) (el : Element) : IR (option bytes) :=
  match el_tag el, el_value el with
  | Context 1, VStructStart =>
      let! raw := copy_to_vec ImTlv Anonymous VStructStart in ret (Some raw)
  | _, _ => skip_other s el
  end.

Definition decode_command_data_ib : IR (option bytes) :=
  fields "truncated command data ib" command_fields_step None.

Definition invoke_response_data_step (result : option InvokeResponseData) (el : Element) :
    IR (option InvokeResponseData) :=
  match el_tag el, el_value el with
  | Context 0, VStructStart =>
      let! raw := decode_command_data_ib in
      ret (Some {| id_status := 0; id_cluster_status := None; id_fields := raw |})
  | Context 1, VStructStart =>
      let! (status, cs) := decode_command_status_ib in
      ret (Some {| id_status := status; id_cluster_status := cs; id_fields := None |})
  | _, _ => skip_other result el
  end.

Definition decode_invoke_response_ib_data : IR InvokeResponseData :=
  let! result := fields "truncated invoke response ib" invoke_response_data_step None in
  im_ok_or result "invoke response ib without Command or Status".

Definition decode_invoke_response_data (payload : bytes) : res ImError InvokeResponseData :=
  decode_first_invoke_response_ib payload decode_invoke_response_ib_data.

Definition encode_invoke_response_status (endpoint cluster command status : Z)
    (cluster_status : option Z) : fin bytes :=
  to_vec (
    start_struct Anonymous ;;!
    put_bool (Context 0) false ;;!
    (start_array (Context 1) ;;!
     (start_struct Anonymous ;;!
      (start_struct (Context 1) ;;!
       put_command_path endpoint cluster command ;;!
       put_status_ib (Context 1) status cluster_status ;;!
       end_container) ;;!
      end_container) ;;!
     end_container) ;;!
    put_uint (Context 255) IM_REVISION ;;!
    end_container).

Definition nonempty (b : bytes) : option bytes := match b with [] => None | _ => Some b end.

Definition encode_invoke_response_data (endpoint cluster response_command : Z) (fields_tlv : bytes) :
    fin bytes :=
  to_vec (
    start_struct Anonymous ;;!
    put_bool (Context 0) false ;;!
    (start_array (Context 1) ;;!
     (start_struct Anonymous ;;!
      (start_struct (Context 0) ;;!
       put_command_path endpoint cluster response_command ;;!
       put_optional_raw (Context 1) (nonempty fields_tlv) end_container) ;;!
      end_container) ;;!
     end_container) ;;!
    put_uint (Context 255) IM_REVISION ;;!
    end_container).

Definition encode_status_response {E} (status : Z) : res E bytes :=
  finish (start_struct Anonymous ;;!
          put_uint (Context 0) status ;;!
          put_uint (Context 255) IM_REVISION ;;!
          end_container).

Definition status_response_step (status : option Z) (el : Element) : IR (option Z) :=
  match el_tag el, el_value el with
  | Context 0, VUint v =>
      let! v := narrow_im 8 "status response code out of range" v in ret (Some v)
  | _, _ => ret status
  end.

Definition decode_status_response (payload : bytes) : res ImError Z :=
  run_im (
    expect_struct_start ;;!
    let! status := scalars "truncated status response" status_response_step None in
    im_ok_or status "status response without status") payload.

(** ** Paths and statuses ([read.rs]) *)

Definition status_code_step (status : option Z) (el : Element) : IR (option Z) :=
  match el_tag el, el_value el with
  | Context 0, VUint v =>
      let! v := narrow_im 8 "attribute status code out of range" v in ret (Some v)
  | _, _ => skip_other status el
  end.

Definition decode_status_ib_code : IR (option Z) := fields "truncated status ib" status_code_step None.

Definition attribute_status_step (status : option Z) (el : Element) : IR (option Z) :=
  match el_tag el, el_value el with
  | Context 1, VStructStart =>
      let! s := decode_status_ib_code in ret (match s with Some _ => s | None => status end)
  | _, _ => skip_other status el
  end.

Definition decode_attribute_status_ib : IR Z :=
  let! status := fields "truncated attribute status" attribute_status_step None in
  im_ok_or status "attribute status without StatusIB".

Definition attribute_path_step (s : ids * bool) (el : Element) : IR (ids * bool) :=
  match el_tag el, el_value el with
  | Context 5, (VNull | VUint _ | VInt _) => ret (fst s, true)
  | _, _ =>
      let! p := ids_step 2 "endpoint out of range" "cluster id out of range"
        "attribute id out of range" skip_other (fst s) el in
      ret (p, snd s)
  end.

Definition decode_attribute_path_ib : IR (ids * bool) :=
  items "truncated attribute path" attribute_path_step (no_ids, false).

(** ** Write ([write.rs]) *)

Definition encode_write_request_inner (endpoint cluster attribute : Z) (data_tlv : bytes)
    (timed : bool) : fin bytes :=
  to_vec (
    start_struct Anonymous ;;!
    put_bool (Context 0) false ;;!
    put_bool (Context 1) timed ;;!
    (start_array (Context 2) ;;!
     (start_struct Anonymous ;;!
      put_attribute_path (Context 1) endpoint cluster (Some attribute) ;;!
      put_raw_element (Context 2) data_tlv ;;!
      end_container) ;;!
     end_container) ;;!
    put_uint (Context 255) IM_REVISION ;;!
    end_container).

Definition encode_write_request_tlv (endpoint cluster attribute : Z) (data_tlv : bytes) : fin bytes :=
  encode_write_request_inner endpoint cluster attribute data_tlv false.
Definition encode_write_request_tlv_timed (endpoint cluster attribute : Z) (data_tlv : bytes) :
    fin bytes := encode_write_request_inner endpoint cluster attribute data_tlv true.

Record WriteAttrIn := {
  wa_path : ids;
  wa_data : bytes;
  wa_append : bool
}.

Record WriteRequestIn := { wr_timed : bool; wr_suppress : bool; wr_writes : list WriteAttrIn }.

Definition write_data_step (s : (ids * bool) * option bytes) (el : Element) :
    IR ((ids * bool) * option bytes) :=
  match el_tag el, el_value el with
  | Context 1, VListStart => let! p := decode_attribute_path_ib in ret (p, snd s)
  | Context 2, v => let! raw := copy_to_vec ImTlv Anonymous v in ret (fst s, Some raw)
  | _, _ => skip_other s el
  end.

Definition decode_write_attribute_data_ib : IR WriteAttrIn :=
  let! (p, raw) := fields "truncated attribute data" write_data_step ((no_ids, false), None) in
  let! raw := im_ok_or raw "write attribute without Data field" in
  ret {| wa_path := fst p; wa_data := raw; wa_append := snd p |}.

Definition write_requests_step (writes : list WriteAttrIn) (el : Element) : IR (list WriteAttrIn) :=
  match el_value el with
  | VStructStart => let! w := decode_write_attribute_data_ib in ret (writes ++ [w])
  | VArrayStart | VListStart => im_skip ;;! ret writes
  | _ => throw (Malformed "unexpected element in write requests")
  end.

Definition decode_write_requests_array : IR (list WriteAttrIn) :=
  items "truncated write requests" write_requests_step [].

Definition write_request_step (s : WriteRequestIn) (el : Element) : IR WriteRequestIn :=
  match el_tag el, el_value el with
  | Context 0, VBool b => ret {| wr_timed := wr_timed s; wr_suppress := b; wr_writes := wr_writes s |}
  | Context 1, VBool b => ret {| wr_timed := b; wr_suppress := wr_suppress s; wr_writes := wr_writes s |}
  | Context 2, VArrayStart =>
      let! writes := decode_write_requests_array in
      ret {| wr_timed := wr_timed s; wr_suppress := wr_suppress s; wr_writes := writes |}
  | _, _ => skip_other s el
  end.

Definition decode_write_request (payload : bytes) : res ImError WriteRequestIn :=
  run_im (
    expect_struct_start ;;!
    fields "truncated write request" write_request_step
      {| wr_timed := false; wr_suppress := false; wr_writes := [] |}) payload.

Definition write_response_step (status : option Z) (el : Element) : IR (option Z) :=
  match el_tag el, el_value el with
  | Context 0, VArrayStart =>
      let! (_, first) := items "truncated write responses"
        (first_only_step "unexpected element in write responses" decode_attribute_status_ib)
        (true, None) in
      ret (match first with Some s => Some s | None => status end)
  | _, _ => skip_other status el
  end.

Definition decode_write_response (payload : bytes) : res ImError Z :=
  run_im (
    expect_struct_start ;;!
    let! status := fields "truncated write response" write_response_step None in
    im_ok_or status "write response without AttributeStatusIB") payload.

(** One result: endpoint, cluster, attribute, status. *)
Definition WriteResult : Type := (Z * Z * Z * Z)%type.

Definition put_write_result (r : WriteResult) : M Writer Empty_set () :=
  let '(endpoint, cluster, attribute, status) := r in
  start_struct Anonymous ;;!
  put_attribute_path (Context 0) endpoint cluster (Some attribute) ;;!
  put_status_ib (Context 1) status None ;;!
  end_container.

Definition encode_write_response (results : list WriteResult) : fin bytes :=
  to_vec (
    start_struct Anonymous ;;!
    (start_array (Context 0) ;;!
     foldr (λ r m, put_write_result r ;;! m) (ret ()) results ;;!
     end_container) ;;!
    put_uint (Context 255) IM_REVISION ;;!
    end_container).

(** ** Lemmas

    The wire trees of the encoders, and the decoders' walks over them. *)

Create HintDb im discriminated.

Lemma reads_bind_nil {E A B} (m : M Reader E A) (k : A → M Reader E B) b x y :
  reads m [] x → reads (k x) b y → reads (bind m k) b y.
Proof. intros Hm Hk. by apply (reads_bind m k [] b x y). Qed.

Lemma reads_bind_end {E A B} (m : M Reader E A) (k : A → M Reader E B) b x y :
  reads m b x → reads (k x) [] y → reads (bind m k) b y.
Proof. intros Hm Hk. rewrite <- (app_nil_r b). by eapply reads_bind. Qed.

Lemma reads_narrow w label v : in_u w v → reads (narrow_im w label v) [] v.
Proof.
  intros Hv. unfold narrow_im, try_u. apply in_ub_spec in Hv as ->. apply reads_ret.
Qed.

Lemma reads_ok_or {A} (a : A) label : reads (im_ok_or (Some a) label) [] a.
Proof. apply reads_ret. Qed.

Lemma reads_im_skip tag k ch : Forall wf_tree ch → reads im_skip (inner (Node tag k ch)) ().
Proof. apply reads_skip. Qed.

(** A leaf's step reads nothing more. *)
Lemma walks_leaf {E T} (step : T → Element → M Reader E T) s tag v s1 ch s2 :
  reads (step s {| el_tag := tag; el_value := v |}) [] s1 → walks step s1 ch s2 →
  walks step s (Leaf tag v :: ch) s2.
Proof. intros H1 H2. by eapply walks_cons. Qed.

Lemma walks_node {E T} (step : T → Element → M Reader E T) s tag k sub s1 ch s2 :
  reads (step s {| el_tag := tag; el_value := start_of k |}) (enc_children sub) s1 →
  walks step s1 ch s2 → walks step s (Node tag k sub :: ch) s2.
Proof. intros H1 H2. by eapply walks_cons. Qed.

(** [next_scalar] sees a container's scalars as they are. *)
Lemma walks_scalars {T} label (step : T → Element → IR T) s ch s' :
  Forall (λ t, match t with Leaf _ _ => True | _ => False end) ch → Forall wf_tree ch →
  walks step s ch s' → reads (scalars label step s) (enc_children ch) s'.
Proof.
  intros Hl Hwf Hw. apply walk_at; [done|]. revert Hl Hwf.
  induction Hw as [s|s t ch s1 s2 Ht Hw IH]; intros Hl Hwf; [constructor|].
  apply Forall_cons in Hl as [Ht1 Hl]. apply Forall_cons in Hwf as [Hwt Hwf].
  destruct t as [tag v|]; [|done]. econstructor; [|by apply IH].
  cbn [root_el root_value el_value inner]. destruct Hwt as (_ & _ & Hv). by destruct v.
Qed.

(** A whole message: one anonymous struct. *)
Lemma run_message {A} (m : IR A) ch a :
  Forall wf_tree ch → small (enc_tree (Node Anonymous KStruct ch)) →
  reads m (enc_children ch) a →
  run_im (expect_struct_start ;;! m) (enc_tree (Node Anonymous KStruct ch)) = Ok a.
Proof.
  intros Hwf Hs Hm. apply reads_all; [|done]. rewrite enc_tree_split.
  assert (Ht : wf_tree (Node Anonymous KStruct ch)) by (by apply wf_anon_node).
  eapply reads_bind; [|exact Hm]. eapply reads_bind_end; [by apply reads_adapt, reads_root|].
  apply reads_ret.
Qed.

Lemma run_struct {A T} (walker : T → IR T) (k : T → IR A) (s0 s1 : T) ch a :
  Forall wf_tree ch → small (enc_tree (Node Anonymous KStruct ch)) →
  reads (walker s0) (enc_children ch) s1 → reads (k s1) [] a →
  run_im (expect_struct_start ;;! let! s := walker s0 in k s)
    (enc_tree (Node Anonymous KStruct ch)) = Ok a.
Proof. intros Hwf Hs Hw Hk. apply run_message; [done..|]. by eapply reads_bind_end. Qed.

(** *** Ids *)

Definition ids_tree (first endpoint cluster : Z) (third : option Z) : list tree :=
  [Leaf (Context first) (VUint endpoint); Leaf (Context (first + 1)) (VUint cluster)] ++
  match third with Some id => [Leaf (Context (first + 2)) (VUint id)] | None => [] end.

Definition ids_ok (endpoint cluster : Z) (third : option Z) : Prop :=
  in_u 16 endpoint ∧ in_u 32 cluster ∧ from_option (in_u 32) True third.

Lemma emits_put_ids first ep cl third : emits (put_ids first ep cl third) (ids_tree first ep cl third).
Proof. unfold put_ids, ids_tree. destruct third; cbn [app]; eauto with emits. Qed.

Lemma wf_ids first ep cl third :
  0 ≤ first < 250 → ids_ok ep cl third → Forall wf_tree (ids_tree first ep cl third).
Proof.
  intros Hf (He & Hc & Ht). unfold ids_tree.
  apply Forall_app. split; [|destruct third; [|done]; apply Forall_singleton; apply (wf_uint _ _ 32); by lia || done].
  apply Forall_cons. split; [by apply (wf_uint _ _ 16); lia || done|].
  apply Forall_singleton. apply (wf_uint _ _ 32); by lia || done.
Qed.

Lemma ids_leaves first ep cl third :
  Forall (λ t, match t with Leaf _ _ => True | _ => False end) (ids_tree first ep cl third).
Proof. by destruct third; repeat constructor. Qed.

(** A step that treats id tags as [ids_step] does collects the ids. *)
Lemma walks_ids {T} (f : ids → T) (step : T → Element → IR T) first l0 l1 l2 other ep cl third :
  (∀ p c v r, first ≤ c ≤ first + 2 →
     let el := {| el_tag := Context c; el_value := VUint v |} in
     step (f p) el r = bind (ids_step first l0 l1 l2 other p el) (λ p, ret (f p)) r) →
  ids_ok ep cl third →
  walks step (f no_ids) (ids_tree first ep cl third) (f (Some ep, Some cl, third)).
Proof.
  intros Hstep (He & Hc & Ht).
  assert (Hid : ∀ p c v p', first ≤ c ≤ first + 2 →
    reads (ids_step first l0 l1 l2 other p {| el_tag := Context c; el_value := VUint v |}) [] p' →
    reads (step (f p) {| el_tag := Context c; el_value := VUint v |}) [] (f p')).
  { intros p c v p' Hr Hp pre tl Hs. rewrite Hstep by done.
    by apply (reads_bind_nil _ _ [] p' (f p') Hp (reads_ret _)). }
  assert (E1 : (first + 1 =? first) = false) by lia. assert (E2 : (first + 2 =? first) = false) by lia.
  assert (E3 : (first + 2 =? first + 1) = false) by lia.
  unfold ids_tree. cbn [app].
  apply walks_leaf with (f (Some ep, None, None)).
  { apply Hid; [lia|]. cbn. rewrite Z.eqb_refl. eapply reads_bind_nil; [by apply reads_narrow|apply reads_ret]. }
  apply walks_leaf with (f (Some ep, Some cl, None)).
  { apply Hid; [lia|]. cbn. rewrite E1, Z.eqb_refl. eapply reads_bind_nil; [by apply reads_narrow|apply reads_ret]. }
  destruct third as [id|]; [|constructor].
  eapply walks_leaf; [|constructor]. apply Hid; [lia|]. cbn. rewrite E2, E3, Z.eqb_refl.
  eapply reads_bind_nil; [by apply reads_narrow|apply reads_ret].
Qed.

Lemma reads_attribute_path ep cl a : ids_ok ep cl a →
  reads decode_attribute_path_ib (enc_children (ids_tree 2 ep cl a)) ((Some ep, Some cl, a), false).
Proof.
  intros Hi. apply walk_at; [by apply wf_ids|].
  apply (walks_ids (λ p, (p, false)) _ 2 "endpoint out of range" "cluster id out of range"
    "attribute id out of range" skip_other); [|done].
  intros p c v r Hc. unfold attribute_path_step. cbn [el_tag el_value fst snd].
  assert (c = 2 ∨ c = 3 ∨ c = 4) as [-> | [-> | ->]] by lia; done.
Qed.

Lemma reads_command_path ep cl cmd : ids_ok ep cl (Some cmd) →
  reads (scalars "truncated command path" command_path_step no_ids)
    (enc_children (ids_tree 0 ep cl (Some cmd))) (Some ep, Some cl, Some cmd).
Proof.
  intros Hi. apply walks_scalars; [apply ids_leaves|by apply wf_ids|].
  apply (walks_ids (λ p, p) _ 0 "command path endpoint out of range"
    "command path cluster out of range" "command path command out of range" (λ p _, ret p)); [|done].
  intros p c v r _. unfold command_path_step, bind, ret. by destruct (ids_step _ _ _ _ _ _ _ r) as [? []].
Qed.

(** *** Statuses and spliced fields *)

Definition status_tree (tag : Tag) (status : Z) (cluster_status : option Z) : tree :=
  Node tag KStruct (Leaf (Context 0) (VUint status) ::
    match cluster_status with Some cs => [Leaf (Context 1) (VUint cs)] | None => [] end).

Definition status_ok (status : Z) (cluster_status : option Z) : Prop :=
  in_u 8 status ∧ from_option (in_u 8) True cluster_status.

Lemma writes_status tag st cs : writes (put_status_ib tag st cs) (enc_tree (status_tree tag st cs)).
Proof.
  unfold put_status_ib, status_tree. apply writes_struct, emits_cons; [apply writes_put_uint|].
  destruct cs; eauto with emits.
Qed.

Lemma wf_status c st cs : 0 ≤ c < 256 → status_ok st cs → wf_tree (status_tree (Context c) st cs).
Proof.
  intros Hc [Hs Hcs]. apply wf_node; [done|]. apply Forall_cons. split; [by apply (wf_uint 0 _ 8)|].
  destruct cs; [|done]. apply Forall_singleton. by apply (wf_uint 1 _ 8).
Qed.

(** The optional CommandFields struct: its tag and its children. *)
Definition struct_raw (f : option (Tag * list tree)) : option bytes :=
  match f with Some (tag, ch) => Some (enc_tree (Node tag KStruct ch)) | None => None end.
Definition struct_field (f : option (Tag * list tree)) : list tree :=
  match f with Some (_, ch) => [Node (Context 1) KStruct ch] | None => [] end.
Definition anon_raw (f : option (Tag * list tree)) : option bytes :=
  match f with Some (_, ch) => Some (enc_tree (Node Anonymous KStruct ch)) | None => None end.
Definition struct_ok (f : option (Tag * list tree)) : Prop :=
  match f with
  | Some (tag, ch) => wf_tree (Node tag KStruct ch) ∧ small (enc_tree (Node tag KStruct ch))
  | None => True
  end.

Lemma emits_optional_raw f k ch : struct_ok f → emits k ch →
  emits (put_optional_raw (Context 1) (struct_raw f) k) (struct_field f ++ ch).
Proof.
  intros Hf Hk. destruct f as [ [tag sub] |]; [|done]. destruct Hf as [Hwf Hs].
  apply emits_cons; [|done]. by apply (writes_raw (Context 1) (Node tag KStruct sub)).
Qed.

Lemma wf_struct_field f : struct_ok f → Forall wf_tree (struct_field f).
Proof.
  destruct f as [ [tag sub] |]; [|done]. intros [ [_ Hsub]%wf_children _].
  apply Forall_singleton, wf_node; [lia|done].
Qed.

Lemma reads_struct_copy ch : Forall wf_tree ch →
  reads (copy_to_vec ImTlv Anonymous VStructStart) (enc_children ch)
    (enc_tree (Node Anonymous KStruct ch)).
Proof. intros Hch. by apply (reads_copy ImTlv Anonymous (Node (Context 1) KStruct ch)), wf_node. Qed.

(** *** Invoke requests *)

Definition command_tree (ep cl cmd : Z) (f : option (Tag * list tree)) : tree :=
  Node Anonymous KStruct (Node (Context 0) KList (ids_tree 0 ep cl (Some cmd)) :: struct_field f).

Definition invoke_request_tree (ep cl cmd : Z) (f : option (Tag * list tree)) (timed : bool) : list tree :=
  [Leaf (Context 0) (VBool false); Leaf (Context 1) (VBool timed);
   Node (Context 2) KArray [command_tree ep cl cmd f];
   Leaf (Context 255) (VUint IM_REVISION)].

Lemma wf_revision : wf_tree (Leaf (Context 255) (VUint IM_REVISION)).
Proof. by apply (wf_uint _ _ 8). Qed.
Lemma wf_bool c b : 0 ≤ c < 256 → wf_tree (Leaf (Context c) (VBool b)).
Proof. by intros. Qed.

Lemma writes_command_path ep cl cmd :
  writes (put_command_path ep cl cmd) (enc_tree (Node (Context 0) KList (ids_tree 0 ep cl (Some cmd)))).
Proof. apply writes_list, emits_put_ids. Qed.

Lemma invoke_request_eq ep cl cmd f timed : struct_ok f →
  encode_invoke_request_inner ep cl cmd (struct_raw f) timed =
  Ok (enc_tree (Node Anonymous KStruct (invoke_request_tree ep cl cmd f timed))).
Proof.
  intros Hf. apply to_vec_writes, writes_struct.
  do 2 (apply emits_cons; [apply writes_bool|]).
  apply emits_cons; [|eauto with emits]. apply writes_array, emits_cons; [|apply emits_end].
  apply writes_struct, emits_cons; [apply writes_command_path|].
  rewrite <- (app_nil_r (struct_field f)). apply emits_optional_raw, emits_end. done.
Qed.

Lemma wf_command ep cl cmd f : ids_ok ep cl (Some cmd) → struct_ok f → wf_tree (command_tree ep cl cmd f).
Proof.
  intros Hi Hf. apply wf_anon_node, Forall_cons. split; [|by apply wf_struct_field].
  apply wf_node; [lia|]. by apply wf_ids.
Qed.

Lemma wf_invoke_request ep cl cmd f timed : ids_ok ep cl (Some cmd) → struct_ok f →
  Forall wf_tree (invoke_request_tree ep cl cmd f timed).
Proof.
  intros Hi Hf. apply Forall_cons; split; [by apply wf_bool|]. apply Forall_cons; split; [by apply wf_bool|].
  apply Forall_cons; split; [|apply Forall_singleton, wf_revision].
  apply wf_node, Forall_singleton, wf_command; by lia || done.
Qed.

Lemma reads_command_data ep cl cmd f : ids_ok ep cl (Some cmd) → struct_ok f →
  reads decode_request_command_data_ib (inner (command_tree ep cl cmd f))
    ((Some ep, Some cl, Some cmd), default [] (anon_raw f)).
Proof.
  intros Hi Hf. apply walk_at; [by apply (wf_children Anonymous KStruct), wf_command|].
  eapply walks_node; [eapply reads_bind_end; [by apply reads_command_path|apply reads_ret]|].
  destruct f as [ [tag ch] |]; [|constructor]. destruct Hf as [ [_ Hch]%wf_children _].
  eapply walks_node; [|constructor]. eapply reads_bind_end; [by apply reads_struct_copy|apply reads_ret].
Qed.

(** The first struct of an array. *)
Lemma reads_first {A} label unexpected (decode : IR A) tag ch ts a :
  Forall wf_tree (Node tag KStruct ch :: ts) →
  Forall (λ t, root_value t = VStructStart) ts → reads decode (enc_children ch) a →
  reads (items label (first_only_step unexpected decode) (true, None))
    (enc_children (Node tag KStruct ch :: ts)) (false, Some a).
Proof.
  intros Hwf Hts Ha. apply walk_at; [done|].
  eapply walks_node; [eapply reads_bind_end; [exact Ha|apply reads_ret]|].
  apply Forall_cons in Hwf as [_ Hwf]. induction ts as [|t ts IH]; [constructor|].
  apply Forall_cons in Hwf as [Ht Hwf]. apply Forall_cons in Hts as [Hr Hts].
  destruct t as [? v|tg k sub]; [by destruct Ht as (_ & _ & ?); cbn in Hr; subst v|].
  destruct k; [|done|done]. eapply walks_node; [|by apply IH].
  eapply reads_bind_end; [by apply (reads_im_skip tg KStruct), (wf_children tg KStruct)|apply reads_ret].
Qed.

Lemma decode_invoke_request_at ep cl cmd f timed : ids_ok ep cl (Some cmd) → struct_ok f →
  let t := Node Anonymous KStruct (invoke_request_tree ep cl cmd f timed) in
  small (enc_tree t) →
  decode_invoke_request (enc_tree t) =
  Ok {| ir_endpoint := ep; ir_cluster := cl; ir_command := cmd;
        ir_fields := default [] (anon_raw f); ir_suppress := false; ir_timed := timed |}.
Proof.
  intros Hi Hf t Hs. unfold decode_invoke_request.
  eapply run_struct; [by apply wf_invoke_request|done| |].
  - apply walk_at; [by apply wf_invoke_request|].
    do 2 (eapply walks_leaf; [apply reads_ret|]). eapply walks_node.
    { eapply reads_bind_end; [apply reads_first; [|constructor|by apply reads_command_data]|apply reads_ret].
      by apply Forall_singleton, wf_command. }
    eapply walks_leaf; [apply reads_ret|constructor].
  - repeat (eapply reads_bind_nil; [apply reads_ok_or|]). apply reads_ret.
Qed.

(** *** Write requests *)

Definition write_data_tree (ep cl a : Z) (t : tree) : tree :=
  Node Anonymous KStruct [Node (Context 1) KList (ids_tree 2 ep cl (Some a)); retag (Context 2) t].

Definition write_request_tree (ep cl a : Z) (t : tree) (timed : bool) : list tree :=
  [Leaf (Context 0) (VBool false); Leaf (Context 1) (VBool timed);
   Node (Context 2) KArray [write_data_tree ep cl a t];
   Leaf (Context 255) (VUint IM_REVISION)].

Lemma wf_retag tag t : wf_tree t → wf_tag tag → wf_tree (retag tag t).
Proof.
  intros Ht Htag. destruct t; [by destruct Ht|]. apply wf_children in Ht as [_ Hc]. by apply wf_children.
Qed.

Lemma retag_retag a b t : retag a (retag b t) = retag a t.
Proof. by destruct t. Qed.

Lemma write_request_eq ep cl a t timed : wf_tree t → small (enc_tree t) →
  encode_write_request_inner ep cl a (enc_tree t) timed =
  Ok (enc_tree (Node Anonymous KStruct (write_request_tree ep cl a t timed))).
Proof.
  intros Ht Hs. apply to_vec_writes, writes_struct.
  do 2 (apply emits_cons; [apply writes_bool|]).
  apply emits_cons; [|eauto with emits]. apply writes_array, emits_cons; [|apply emits_end].
  apply writes_struct, emits_cons; [apply writes_list, emits_put_ids|].
  apply emits_cons; [by apply writes_raw|apply emits_end].
Qed.

Lemma wf_attribute_path c ep cl a : 0 ≤ c < 256 → ids_ok ep cl a →
  wf_tree (Node (Context c) KList (ids_tree 2 ep cl a)).
Proof. intros Hc Hi. apply wf_node; [done|]. by apply wf_ids. Qed.

Lemma wf_write_data ep cl a t : ids_ok ep cl (Some a) → wf_tree t → wf_tree (write_data_tree ep cl a t).
Proof.
  intros Hi Ht. apply wf_anon_node, Forall_cons. split; [by apply wf_attribute_path|].
  apply Forall_singleton. by apply wf_retag.
Qed.

Lemma wf_write_request ep cl a t timed : ids_ok ep cl (Some a) → wf_tree t →
  Forall wf_tree (write_request_tree ep cl a t timed).
Proof.
  intros Hi Hf. apply Forall_cons; split; [by apply wf_bool|]. apply Forall_cons; split; [by apply wf_bool|].
  apply Forall_cons; split; [|apply Forall_singleton, wf_revision].
  by apply wf_node, Forall_singleton, wf_write_data.
Qed.

Lemma reads_write_data ep cl a t : ids_ok ep cl (Some a) → wf_tree t →
  reads decode_write_attribute_data_ib (inner (write_data_tree ep cl a t))
    {| wa_path := (Some ep, Some cl, Some a); wa_data := enc_tree (retag Anonymous t);
       wa_append := false |}.
Proof.
  intros Hi Ht. rewrite <- (retag_retag Anonymous (Context 2) t). eapply reads_bind_end.
  - apply walk_at; [by apply (wf_children Anonymous KStruct), wf_write_data|].
    eapply walks_node; [eapply reads_bind_end; [by apply reads_attribute_path|apply reads_ret]|].
    eapply walks_cons; [|constructor]. cbn [root_el].
    unfold root_el. replace (root_tag (retag (Context 2) t)) with (Context 2) by by destruct t.
    eapply reads_bind_end; [by apply (reads_copy ImTlv Anonymous (retag (Context 2) t)), wf_retag|].
    apply reads_ret.
  - eapply reads_bind_nil; [apply reads_ok_or|]. apply reads_ret.
Qed.

Lemma decode_write_request_at ep cl a t timed : ids_ok ep cl (Some a) → wf_tree t →
  let m := Node Anonymous KStruct (write_request_tree ep cl a t timed) in
  small (enc_tree m) →
  decode_write_request (enc_tree m) =
  Ok {| wr_timed := timed; wr_suppress := false;
        wr_writes := [{| wa_path := (Some ep, Some cl, Some a);
                         wa_data := enc_tree (retag Anonymous t); wa_append := false |}] |}.
Proof.
  intros Hi Ht m Hs. pose proof (wf_write_request ep cl a t timed Hi Ht) as Hwf.
  apply run_message; [done..|]. apply walk_at; [done|].
  do 2 (eapply walks_leaf; [apply reads_ret|]). eapply walks_node.
  { eapply reads_bind_end; [|apply reads_ret]. apply walk_at; [by apply Forall_singleton, wf_write_data|].
    eapply walks_node; [|constructor].
    eapply reads_bind_end; [by apply (reads_write_data ep cl a t)|apply reads_ret]. }
  eapply walks_leaf; [apply reads_ret|constructor].
Qed.

(** *** Responses *)

Definition response_tree (ib : tree) : list tree :=
  [Leaf (Context 0) (VBool false); Node (Context 1) KArray [Node Anonymous KStruct [ib]];
   Leaf (Context 255) (VUint IM_REVISION)].

Lemma wf_response ib : wf_tree ib → Forall wf_tree (response_tree ib).
Proof.
  intros Hi. apply Forall_cons; split; [by apply wf_bool|].
  apply Forall_cons; split; [|apply Forall_singleton, wf_revision].
  by apply wf_node, Forall_singleton, wf_anon_node, Forall_singleton.
Qed.

(** The shared envelope: the first InvokeResponseIB is decoded by [decode_ib]. *)
Lemma decode_first_at {A} (decode_ib : IR A) ib a :
  wf_tree ib → small (enc_tree (Node Anonymous KStruct (response_tree ib))) →
  reads decode_ib (enc_children [ib]) a →
  decode_first_invoke_response_ib (enc_tree (Node Anonymous KStruct (response_tree ib))) decode_ib = Ok a.
Proof.
  intros Hi Hs Ha. unfold decode_first_invoke_response_ib.
  eapply run_struct; [by apply wf_response|done| |apply reads_ok_or].
  apply walk_at; [by apply wf_response|].
  eapply walks_leaf; [apply reads_ret|]. eapply walks_node; [|eapply walks_leaf; [apply reads_ret|constructor] ].
  eapply reads_bind_end; [apply reads_first; [|constructor|exact Ha]|apply reads_ret].
  by apply Forall_singleton, wf_anon_node, Forall_singleton.
Qed.

Definition command_status_tree (ep cl cmd st : Z) (cs : option Z) : tree :=
  Node (Context 1) KStruct
    [Node (Context 0) KList (ids_tree 0 ep cl (Some cmd)); status_tree (Context 1) st cs].

Definition command_data_tree (ep cl cmd : Z) (f : option (Tag * list tree)) : tree :=
  Node (Context 0) KStruct (Node (Context 0) KList (ids_tree 0 ep cl (Some cmd)) :: struct_field f).

Lemma response_status_eq ep cl cmd st cs :
  encode_invoke_response_status ep cl cmd st cs =
  Ok (enc_tree (Node Anonymous KStruct (response_tree (command_status_tree ep cl cmd st cs)))).
Proof.
  apply to_vec_writes, writes_struct, emits_cons; [apply writes_bool|].
  apply emits_cons; [|eauto with emits]. apply writes_array, emits_cons; [|apply emits_end].
  apply writes_struct, emits_cons; [|apply emits_end].
  apply writes_struct, emits_cons; [apply writes_command_path|].
  apply emits_cons; [apply writes_status|apply emits_end].
Qed.

Lemma nonempty_tree t : nonempty (enc_tree t) = Some (enc_tree t).
Proof. pose proof (tsize_length t). pose proof (tsize_pos t). destruct (enc_tree t); [cbn in *; lia|done]. Qed.

Lemma response_data_eq ep cl cmd f : struct_ok f →
  encode_invoke_response_data ep cl cmd (default [] (struct_raw f)) =
  Ok (enc_tree (Node Anonymous KStruct (response_tree (command_data_tree ep cl cmd f)))).
Proof.
  intros Hf. apply to_vec_writes, writes_struct, emits_cons; [apply writes_bool|].
  apply emits_cons; [|eauto with emits]. apply writes_array, emits_cons; [|apply emits_end].
  apply writes_struct, emits_cons; [|apply emits_end].
  apply writes_struct, emits_cons; [apply writes_command_path|].
  replace (nonempty _) with (struct_raw f).
  2: { destruct f as [ [tag ch] |]; [|done]. symmetry. apply nonempty_tree. }
  rewrite <- (app_nil_r (struct_field f)). by apply emits_optional_raw, emits_end.
Qed.

Lemma reads_skip_other {T} tag k ch (s : T) : Forall wf_tree ch →
  reads (skip_other s {| el_tag := tag; el_value := start_of k |}) (enc_children ch) s.
Proof.
  intros Hch. unfold skip_other. cbn [el_value].
  replace (is_container_start (start_of k)) with true by by destruct k.
  eapply reads_bind_end; [by apply (reads_im_skip tag k)|apply reads_ret].
Qed.

Lemma wf_command_path ep cl cmd : ids_ok ep cl (Some cmd) →
  wf_tree (Node (Context 0) KList (ids_tree 0 ep cl (Some cmd))).
Proof. intros Hi. apply wf_node; [lia|]. by apply wf_ids. Qed.

Lemma wf_command_status ep cl cmd st cs : ids_ok ep cl (Some cmd) → status_ok st cs →
  wf_tree (command_status_tree ep cl cmd st cs).
Proof.
  intros Hi Hs. apply wf_node, Forall_cons; [lia|]. split; [by apply wf_command_path|].
  by apply Forall_singleton, wf_status.
Qed.

Lemma wf_command_data ep cl cmd f : ids_ok ep cl (Some cmd) → struct_ok f →
  wf_tree (command_data_tree ep cl cmd f).
Proof.
  intros Hi Hf. apply wf_node, Forall_cons; [lia|]. split; [by apply wf_command_path|].
  by apply wf_struct_field.
Qed.

Lemma reads_status_ib c st cs : 0 ≤ c < 256 → status_ok st cs →
  reads decode_status_ib (inner (status_tree (Context c) st cs)) (st, cs).
Proof.
  intros Hc Hs. pose proof (wf_status c st cs Hc Hs) as [_ Hwf]%wf_children. destruct Hs as [Hs Hcs].
  eapply reads_bind_end.
  - apply walks_scalars; [by destruct cs; repeat constructor|done|].
    eapply walks_leaf; [eapply reads_bind_nil; [by apply reads_narrow|apply reads_ret]|].
    destruct cs as [cs|]; [|constructor].
    eapply walks_leaf; [eapply reads_bind_nil; [by apply reads_narrow|apply reads_ret]|constructor].
  - destruct cs; (eapply reads_bind_nil; [apply reads_ret|apply reads_ret]).
Qed.

Lemma reads_command_status ep cl cmd st cs : ids_ok ep cl (Some cmd) → status_ok st cs →
  reads decode_command_status_ib (inner (command_status_tree ep cl cmd st cs)) (st, cs).
Proof.
  intros Hi Hs. eapply reads_bind_end; [|apply reads_ok_or].
  apply walk_at; [by apply (wf_children (Context 1) KStruct), wf_command_status|].
  eapply walks_node; [by apply reads_skip_other, wf_ids|].
  eapply walks_node; [|constructor].
  eapply reads_bind_end; [by apply (reads_status_ib 1)|apply reads_ret].
Qed.

Lemma reads_command_fields ep cl cmd f : ids_ok ep cl (Some cmd) → struct_ok f →
  reads decode_command_data_ib (inner (command_data_tree ep cl cmd f)) (anon_raw f).
Proof.
  intros Hi Hf. apply walk_at; [by apply (wf_children (Context 0) KStruct), wf_command_data|].
  eapply walks_node; [by apply reads_skip_other, wf_ids|].
  destruct f as [ [tag ch] |]; [|constructor]. destruct Hf as [ [_ Hch]%wf_children _].
  eapply walks_node; [|constructor]. eapply reads_bind_end; [by apply reads_struct_copy|apply reads_ret].
Qed.

(** A response IB whose one member [t] is decoded by [step]. *)
Lemma reads_response_ib {A} label unexpected (step : option A → Element → IR (option A)) c ch a :
  wf_tree (Node (Context c) KStruct ch) →
  reads (step None {| el_tag := Context c; el_value := VStructStart |}) (enc_children ch) (Some a) →
  reads (let! o := fields label step None in im_ok_or o unexpected)
    (enc_children [Node (Context c) KStruct ch]) a.
Proof.
  intros Hwf Hs. eapply reads_bind_end; [|apply reads_ok_or].
  apply walk_at; [by apply Forall_singleton|]. eapply walks_node; [exact Hs|constructor].
Qed.

Lemma decode_response_status_at ep cl cmd st cs : ids_ok ep cl (Some cmd) → status_ok st cs →
  let t := Node Anonymous KStruct (response_tree (command_status_tree ep cl cmd st cs)) in
  small (enc_tree t) →
  decode_invoke_response (enc_tree t) = Ok {| io_status := st; io_cluster_status := cs |} ∧
  decode_invoke_response_data (enc_tree t) =
    Ok {| id_status := st; id_cluster_status := cs; id_fields := None |}.
Proof.
  intros Hi Hs t Hsm. pose proof (wf_command_status ep cl cmd st cs Hi Hs) as Hwf.
  pose proof (reads_command_status ep cl cmd st cs Hi Hs) as Hr. cbn [inner command_status_tree] in Hr.
  unfold decode_invoke_response, decode_invoke_response_data.
  split; (apply decode_first_at; [exact Hwf|exact Hsm|apply reads_response_ib; [exact Hwf|] ]);
    cbn [invoke_response_step invoke_response_data_step el_tag el_value];
    (eapply reads_bind_end; [exact Hr|apply reads_ret]).
Qed.

Lemma decode_response_data_at ep cl cmd f : ids_ok ep cl (Some cmd) → struct_ok f →
  let t := Node Anonymous KStruct (response_tree (command_data_tree ep cl cmd f)) in
  small (enc_tree t) →
  decode_invoke_response (enc_tree t) = Ok {| io_status := 0; io_cluster_status := None |} ∧
  decode_invoke_response_data (enc_tree t) =
    Ok {| id_status := 0; id_cluster_status := None; id_fields := anon_raw f |}.
Proof.
  intros Hi Hf t Hsm. pose proof (wf_command_data ep cl cmd f Hi Hf) as Hwf.
  pose proof (reads_command_fields ep cl cmd f Hi Hf) as Hr. cbn [inner command_data_tree] in Hr.
  pose proof Hwf as [_ Hch]%wf_children. pose proof (reads_im_skip (Context 0) KStruct _ Hch) as Hk.
  cbn [inner] in Hk.
  unfold decode_invoke_response, decode_invoke_response_data.
  split; (apply decode_first_at; [exact Hwf|exact Hsm|apply reads_response_ib; [exact Hwf|] ]);
    cbn [invoke_response_step invoke_response_data_step el_tag el_value].
  - eapply reads_bind_end; [exact Hk|apply reads_ret].
  - eapply reads_bind_end; [exact Hr|apply reads_ret].
Qed.

(** *** Write responses *)

Definition write_result_tree (r : WriteResult) : tree :=
  let '(ep, cl, a, st) := r in
  Node Anonymous KStruct
    [Node (Context 0) KList (ids_tree 2 ep cl (Some a)); status_tree (Context 1) st None].

Definition write_result_ok (r : WriteResult) : Prop :=
  let '(ep, cl, a, st) := r in ids_ok ep cl (Some a) ∧ status_ok st None.

Definition write_response_tree (rs : list WriteResult) : list tree :=
  [Node (Context 0) KArray (map write_result_tree rs); Leaf (Context 255) (VUint IM_REVISION)].

Lemma write_response_eq rs :
  encode_write_response rs = Ok (enc_tree (Node Anonymous KStruct (write_response_tree rs))).
Proof.
  apply to_vec_writes, writes_struct, emits_cons; [|eauto with emits].
  apply writes_array. rewrite <- (app_nil_r (map _ _)). apply emits_map; [|apply emits_end].
  intros [ [ [ep cl] a] st]. apply writes_struct, emits_cons; [apply writes_list, emits_put_ids|].
  apply emits_cons; [apply writes_status|apply emits_end].
Qed.

Lemma wf_write_result r : write_result_ok r → wf_tree (write_result_tree r).
Proof.
  destruct r as [ [ [ep cl] a] st]. intros [Hi Hs].
  apply wf_anon_node, Forall_cons. split; [by apply wf_attribute_path|].
  by apply Forall_singleton, wf_status.
Qed.

Lemma reads_attribute_status ep cl a st : ids_ok ep cl (Some a) → status_ok st None →
  reads decode_attribute_status_ib (inner (write_result_tree (ep, cl, a, st))) st.
Proof.
  intros Hi Hs. eapply reads_bind_end; [|apply reads_ok_or].
  apply walk_at; [by apply (wf_children Anonymous KStruct), (wf_write_result (ep, cl, a, st))|].
  eapply walks_node; [by apply reads_skip_other, wf_ids|].
  eapply walks_node; [|constructor].
  assert (Hc : reads decode_status_ib_code (inner (status_tree (Context 1) st None)) (Some st)).
  { apply walk_at; [by apply (wf_children (Context 1) KStruct), (wf_status 1 st None)|].
    eapply walks_leaf; [|constructor].
    destruct Hs. eapply reads_bind_nil; [by apply reads_narrow|apply reads_ret]. }
  eapply reads_bind_end; [exact Hc|apply reads_ret].
Qed.

Lemma wf_write_response rs : Forall write_result_ok rs → Forall wf_tree (write_response_tree rs).
Proof.
  intros Hrs. apply Forall_cons; split; [|apply Forall_singleton, wf_revision].
  apply wf_node; [lia|]. apply List.Forall_map. eapply Forall_impl; [exact Hrs|apply wf_write_result].
Qed.

Lemma decode_write_response_at r rs : Forall write_result_ok (r :: rs) →
  let t := Node Anonymous KStruct (write_response_tree (r :: rs)) in
  small (enc_tree t) → decode_write_response (enc_tree t) = Ok r.2.
Proof.
  intros Hrs t Hs. pose proof (wf_write_response _ Hrs) as Hwf.
  eapply run_struct; [done|done| |apply reads_ok_or].
  apply walk_at; [done|].
  eapply walks_node; [|eapply walks_leaf; [apply reads_ret|constructor] ].
  assert (Hts : Forall (λ t, root_value t = VStructStart) (map write_result_tree rs)).
  { apply List.Forall_map, Forall_forall. by intros [ [ [? ?] ?] ?] _. }
  apply Forall_cons in Hwf as [ [_ Hwf]%wf_children _].
  apply Forall_cons in Hrs as [Hr _]. destruct r as [ [ [ep cl] a] st]. destruct Hr as [Hi Hst].
  eapply reads_bind_end; [apply reads_first; [exact Hwf|exact Hts|]|apply reads_ret].
  by apply (reads_attribute_status ep cl a st).
Qed.

Lemma status_response_at st : in_u 8 st →
  ∃ b, encode_status_response (E:=Empty_set) st = Ok b ∧
    (small b → decode_status_response b = Ok st).
Proof.
  intros Hst. set (ch := [Leaf (Context 0) (VUint st); Leaf (Context 255) (VUint IM_REVISION)]).
  assert (Hwf : Forall wf_tree ch).
  { apply Forall_cons; split; [by apply (wf_uint _ _ 8)|]. apply Forall_singleton, wf_revision. }
  exists (enc_tree (Node Anonymous KStruct ch)). split.
  - apply to_vec_writes, writes_struct; subst ch; eauto with emits.
  - intros Hs. eapply run_struct; [done|done| |apply reads_ok_or].
    apply walks_scalars; [by repeat constructor|done|].
    eapply walks_leaf; [eapply reads_bind_nil; [by apply reads_narrow|apply reads_ret]|].
    eapply walks_leaf; [apply reads_ret|constructor].
Qed.

(** ** Untrusted bytes

    Every decoder ends without a panic, and what it returns has the Rust types'
    ranges. *)

Definition ids_in (p : ids) : Prop :=
  let '(ep, cl, id) := p in
  from_option (in_u 16) True ep ∧ from_option (in_u 32) True cl ∧ from_option (in_u 32) True id.

(** Bytes cut out of the payload: one well-formed element. *)
Definition element_raw (b : bytes) : Prop :=
  ∃ t, wf_tree t ∧ root_tag t = Anonymous ∧ b = enc_tree t ∧ small b.

Lemma safe_narrow_im w label v : safe (narrow_im w label v) (in_u w).
Proof.
  unfold narrow_im. destruct (try_u w v) as [x|] eqn:Hv; [|apply safe_throw].
  apply try_u_Some in Hv as [-> Hv]. by apply safe_ret.
Qed.

Lemma safe_ok_or {A} (o : option A) label (P : A → Prop) :
  from_option P True o → safe (im_ok_or o label) P.
Proof. intros Ho. destruct o; [by apply safe_ret|apply safe_throw]. Qed.

Lemma safe_im_skip : safe im_skip (λ _, True).
Proof. apply safe_skip. Qed.

Lemma safe_skip_then {A} (a : A) (I : A → Prop) : I a → safe (im_skip ;;! ret a) I.
Proof. intros Ha. eapply safe_bind; [apply safe_im_skip|]. intros _ _. by apply safe_ret. Qed.

Lemma safe_skip_other {T} (s : T) el (I : T → Prop) : I s → safe (skip_other s el) I.
Proof.
  intros Hs. unfold skip_other. destruct (is_container_start _); [by apply safe_skip_then|by apply safe_ret].
Qed.

Lemma safe_copy_im v : wf_value v → v ≠ VContainerEnd → safe1 v (copy_to_vec ImTlv Anonymous v) element_raw.
Proof.
  intros Hv Hne r Hr Hp. eapply wp_mono; [by apply (safe_copy ImTlv Anonymous v)| |done].
  cbn. intros b r' [Hm (t & Ht & Htag & Hval & -> & Hs)]. split; [done|]. exists t. split_and!; try done.
  unfold small. rewrite enc_tree_split, zlen_app, Htag, Hval. unfold enc_elem.
  rewrite zlen_cons, zlen_app. cbn [tag_bytes]. rewrite zlen_nil. lia.
Qed.

Lemma safe_scalars {T} label (step : T → Element → IR T) (I : T → Prop) s :
  (∀ s el, I s → wf_element el → safe (step s el) I) → I s → safe (scalars label step s) I.
Proof.
  intros Hstep Hs. apply walk_safe; [|done]. intros s' el Hs' Hel _. apply safe_safe1.
  destruct (is_container_start _); [|by apply Hstep].
  eapply safe_bind; [apply safe_skip|]. intros _ _. by apply safe_ret.
Qed.

Lemma safe_payload {A} (m : IR A) Q payload :
  safe m Q → bytes_ok payload → small payload →
  match run_im (expect_struct_start ;;! m) payload with
  | Ok a => Q a | Err _ => True | _ => False
  end.
Proof.
  intros Hm. apply safe_reader. eapply (safe_bind _ _ (λ _, True)); [|done].
  eapply (safe_bind _ _ (λ _, True)).
  - apply safe_adapt. intros r Hr. eapply wp_mono; [by apply next_wp|..]; cbn; naive_solver.
  - intros [el|] _; [|apply safe_throw]. destruct (el_value el); try apply safe_throw. by apply safe_ret.
Qed.

Lemma safe_message {A T} (walker : IR T) (k : T → IR A) P (Q : A → Prop) payload :
  safe walker P → (∀ s, P s → safe (k s) Q) → bytes_ok payload → small payload →
  match run_im (expect_struct_start ;;! let! s := walker in k s) payload with
  | Ok a => Q a | Err _ => True | _ => False
  end.
Proof. intros Hw Hk. apply safe_payload. by eapply safe_bind. Qed.

Lemma safe_ids_step first l0 l1 l2 other p el :
  (∀ p, ids_in p → safe (other p el) ids_in) → ids_in p → safe (ids_step first l0 l1 l2 other p el) ids_in.
Proof.
  intros Ho Hp. pose proof (Ho p Hp) as Hop. clear Ho. unfold ids_step.
  destruct p as [ [ep cl] id]. destruct Hp as (He & Hc & Hi).
  destruct (el_tag el); try exact Hop. destruct (el_value el); try exact Hop.
  repeat (case_match; [eapply safe_bind; [apply safe_narrow_im|]; intros x Hx; by apply safe_ret|]).
  by apply safe_ret.
Qed.

Lemma safe_attribute_path : safe decode_attribute_path_ib (λ p, ids_in p.1).
Proof.
  apply walk_safe; [|done]. intros [p la] el Hp _ _. apply safe_safe1. unfold attribute_path_step.
  assert (Hids : safe (let! p := ids_step 2 "endpoint out of range" "cluster id out of range"
        "attribute id out of range" skip_other (fst (p, la)) el in ret (p, snd (p, la)))
      (λ p, ids_in p.1)).
  { eapply safe_bind; [apply safe_ids_step; [intros; by apply safe_skip_other|done]|].
    intros p' Hp'. by apply safe_ret. }
  repeat case_match; first [exact Hids | by apply safe_ret].
Qed.

Definition raw_or_empty (b : bytes) : Prop := b = [] ∨ element_raw b.
Definition status_in (s : Z * option Z) : Prop := status_ok s.1 s.2.

Definition request_in (r : InvokeRequestIn) : Prop :=
  ids_ok (ir_endpoint r) (ir_cluster r) (Some (ir_command r)) ∧ raw_or_empty (ir_fields r).
Definition response_in (d : InvokeResponseData) : Prop :=
  status_ok (id_status d) (id_cluster_status d) ∧ from_option element_raw True (id_fields d).
Definition write_in (w : WriteAttrIn) : Prop := ids_in (wa_path w) ∧ element_raw (wa_data w).

(** [total m Q]: the decoder returns something satisfying [Q] or an error. *)
Definition total {E A} (m : res E A) (Q : A → Prop) : Prop :=
  match m with Ok a => Q a | Err _ => True | _ => False end.

(** One step of a walk: an error or the end of a nested decoder. *)
Ltac safe_map H := eapply safe_bind; [exact H || apply H|]; intros ? ?; apply safe_ret.

Lemma safe_first {A} label unexpected (decode : IR A) P : safe decode P →
  safe (items label (first_only_step unexpected decode) (true, None)) (λ s, from_option P True s.2).
Proof.
  intros Hd. apply walk_safe; [|done]. intros [b o] el Ho _ _. apply safe_safe1. unfold first_only_step.
  destruct (el_value el); try apply safe_throw. destruct b; cbn [fst]; [|by apply safe_skip_then].
  by safe_map Hd.
Qed.

Lemma safe_command_path p : ids_in p →
  safe (scalars "truncated command path" command_path_step p) ids_in.
Proof.
  intros Hp0. apply safe_scalars; [|done]. intros p' el Hp _. apply safe_ids_step; [|done]. intros. by apply safe_ret.
Qed.

Lemma safe_command_data :
  safe decode_request_command_data_ib (λ s, ids_in s.1 ∧ raw_or_empty s.2).
Proof.
  apply walk_safe; [|by split; [|left] ]. intros [p raw] el [Hp Hraw] [_ Hv] Hne.
  assert (Ho : safe1 (el_value el) (skip_other (p, raw) el) (λ s, ids_in s.1 ∧ raw_or_empty s.2)).
  { apply safe_safe1. by apply safe_skip_other. }
  unfold command_data_step. repeat case_match; try exact Ho.
  - apply safe_safe1. eapply safe_bind; [by apply safe_command_path|]. intros p' Hp'. by apply safe_ret.
  - eapply safe1_bind; [by apply safe_copy_im|]. intros b Hb. apply safe_ret. by split; [|right].
Qed.

Lemma decode_invoke_request_safe payload : bytes_ok payload → small payload →
  total (decode_invoke_request payload) request_in.
Proof.
  apply (safe_message _ _ (λ s, ids_in (ia_data s).1 ∧ raw_or_empty (ia_data s).2)).
  - apply walk_safe; [|by split; [|left] ]. intros s el Hs _ _. apply safe_safe1.
    unfold invoke_request_step.
    assert (Ho : safe (skip_other s el) (λ s, ids_in (ia_data s).1 ∧ raw_or_empty (ia_data s).2))
      by by apply safe_skip_other.
    repeat case_match; try exact Ho; try (by apply safe_ret).
    eapply safe_bind; [apply safe_first, safe_command_data|]. intros [b [d|] ] Hd; by apply safe_ret.
  - intros [b t [ [ [ep cl] cmd] raw] ] [(He & Hc & Hi) Hraw]. cbn [ia_data fst snd] in *.
    eapply safe_bind; [by apply (safe_ok_or ep _ (in_u 16))|]. intros ep' Hep.
    eapply safe_bind; [by apply (safe_ok_or cl _ (in_u 32))|]. intros cl' Hcl.
    eapply safe_bind; [by apply (safe_ok_or cmd _ (in_u 32))|]. intros cmd' Hcmd. by apply safe_ret.
Qed.

Lemma safe_status_ib : safe decode_status_ib status_in.
Proof.
  eapply (safe_bind _ _ (λ s, from_option (in_u 8) True s.1 ∧ from_option (in_u 8) True s.2)).
  - apply safe_scalars; [|done]. intros [s c] el [Hs Hc] _. unfold status_ib_step.
    repeat case_match; try (by apply safe_ret); by safe_map safe_narrow_im.
  - intros [s c] [Hs Hc]. eapply safe_bind; [by apply (safe_ok_or s _ (in_u 8))|]. intros v Hv. by apply safe_ret.
Qed.

Lemma safe_command_status : safe decode_command_status_ib status_in.
Proof.
  eapply (safe_bind _ _ (from_option status_in True)); [|intros o Ho; by apply safe_ok_or].
  apply walk_safe; [|done]. intros s el Hs _ _. apply safe_safe1. unfold command_status_step.
  repeat case_match; try (by apply safe_skip_other). by safe_map safe_status_ib.
Qed.

Lemma safe_invoke_response_ib : safe decode_invoke_response_ib (λ o, status_ok (io_status o) (io_cluster_status o)).
Proof.
  eapply (safe_bind _ _ (from_option (λ o, status_ok (io_status o) (io_cluster_status o)) True));
    [|intros o Ho; by apply safe_ok_or].
  apply walk_safe; [|done]. intros s el Hs _ _. apply safe_safe1. unfold invoke_response_step.
  repeat case_match; try (by apply safe_skip_other).
  - by apply safe_skip_then.
  - eapply safe_bind; [apply safe_command_status|]. intros [v c] Hv. by apply safe_ret.
Qed.

Lemma safe_command_fields : safe decode_command_data_ib (from_option element_raw True).
Proof.
  apply walk_safe; [|done]. intros s el Hs [_ Hv] Hne.
  assert (Ho : safe1 (el_value el) (skip_other s el) (from_option element_raw True)).
  { apply safe_safe1. by apply safe_skip_other. }
  unfold command_fields_step. repeat case_match; try exact Ho.
  eapply safe1_bind; [by apply safe_copy_im|]. intros b Hb. by apply safe_ret.
Qed.

Lemma safe_invoke_response_data : safe decode_invoke_response_ib_data response_in.
Proof.
  eapply (safe_bind _ _ (from_option response_in True)); [|intros o Ho; by apply safe_ok_or].
  apply walk_safe; [|done]. intros s el Hs _ _. apply safe_safe1. unfold invoke_response_data_step.
  repeat case_match; try (by apply safe_skip_other).
  - by safe_map safe_command_fields.
  - eapply safe_bind; [apply safe_command_status|]. intros [v c] Hv. by apply safe_ret.
Qed.

Lemma decode_first_safe {A} (decode_ib : IR A) P payload : safe decode_ib P →
  bytes_ok payload → small payload → total (decode_first_invoke_response_ib payload decode_ib) P.
Proof.
  intros Hd. apply (safe_message _ _ (from_option P True)); [|intros o Ho; by apply safe_ok_or].
  apply walk_safe; [|done]. intros s el Hs _ _. apply safe_safe1. unfold invoke_responses_step.
  repeat case_match; try (by apply safe_skip_other).
  eapply safe_bind; [by apply safe_first|]. intros [b [d|] ] Hd'; by apply safe_ret.
Qed.

Lemma safe_write_data : safe decode_write_attribute_data_ib write_in.
Proof.
  eapply (safe_bind _ _ (λ s, ids_in s.1.1 ∧ from_option element_raw True s.2)).
  - apply walk_safe; [|done]. intros [p raw] el [Hp Hraw] [_ Hv] Hne.
    assert (Ho : safe1 (el_value el) (skip_other (p, raw) el) (λ s, ids_in s.1.1 ∧ from_option element_raw True s.2)).
    { apply safe_safe1. by apply safe_skip_other. }
    assert (Hcp : safe1 (el_value el) (let! raw := copy_to_vec ImTlv Anonymous (el_value el) in ret (p, Some raw))
              (λ s, ids_in s.1.1 ∧ from_option element_raw True s.2)).
    { eapply safe1_bind; [by apply safe_copy_im|]. intros b Hb. by apply safe_ret. }
    unfold write_data_step. repeat case_match; try exact Ho; try exact Hcp.
    apply safe_safe1. by safe_map safe_attribute_path.
  - intros [p raw] [Hp Hraw]. cbn [fst snd] in *.
    eapply safe_bind; [by apply (safe_ok_or raw _ element_raw)|]. intros b Hb. by apply safe_ret.
Qed.

Lemma decode_write_request_safe payload : bytes_ok payload → small payload →
  total (decode_write_request payload) (λ r, Forall write_in (wr_writes r)).
Proof.
  intros Hb Hs. assert (Hw : safe decode_write_requests_array (Forall write_in)).
  { apply walk_safe; [|done]. intros ws el Hws _ _. apply safe_safe1. unfold write_requests_step.
    case_match; try apply safe_throw; try (by apply safe_skip_then).
    safe_map safe_write_data. apply Forall_app. split; [done|]. by apply Forall_singleton. }
  revert Hb Hs. apply safe_payload, walk_safe; [|done]. intros r el Hr _ _. apply safe_safe1.
  unfold write_request_step.
  repeat case_match; try (by apply safe_skip_other); try (by apply safe_ret). by safe_map Hw.
Qed.

Lemma safe_status_code : safe decode_status_ib_code (from_option (in_u 8) True).
Proof.
  apply walk_safe; [|done]. intros s el Hs _ _. apply safe_safe1. unfold status_code_step.
  repeat case_match; try (by apply safe_skip_other). by safe_map safe_narrow_im.
Qed.

Lemma safe_attribute_status : safe decode_attribute_status_ib (in_u 8).
Proof.
  eapply (safe_bind _ _ (from_option (in_u 8) True)); [|intros o Ho; by apply safe_ok_or].
  apply walk_safe; [|done]. intros s el Hs _ _. apply safe_safe1. unfold attribute_status_step.
  repeat case_match; try (by apply safe_skip_other). 
  eapply safe_bind; [apply safe_status_code|]. intros [v|] Hv; by apply safe_ret.
Qed.

Lemma decode_write_response_safe payload : bytes_ok payload → small payload →
  total (decode_write_response payload) (in_u 8).
Proof.
  apply (safe_message _ _ (from_option (in_u 8) True)); [|intros o Ho; by apply safe_ok_or].
  apply walk_safe; [|done]. intros s el Hs _ _. apply safe_safe1. unfold write_response_step.
  repeat case_match; try (by apply safe_skip_other).
  eapply safe_bind; [apply safe_first, safe_attribute_status|]. intros [b [v|] ] Hv; by apply safe_ret.
Qed.

Lemma decode_status_response_safe payload : bytes_ok payload → small payload →
  total (decode_status_response payload) (in_u 8).
Proof.
  apply (safe_message _ _ (from_option (in_u 8) True)); [|intros o Ho; by apply safe_ok_or].
  apply safe_scalars; [|done]. intros s el Hs _. unfold status_response_step.
  repeat case_match; try (by apply safe_ret). by safe_map safe_narrow_im.
Qed.

(** ** Properties *)

(** Requests survive the wire: what the controller encodes as an invoke
    (plain or timed, with or without command fields) or as a write, the device
    decodes to the same path, timed flag and payload, the payload re-tagged
    anonymous. *)
Theorem requests_round_trip ep cl id f t timed :
  ids_ok ep cl (Some id) → struct_ok f → wf_tree t → small (enc_tree t) →
  (∃ b, encode_invoke_request_inner ep cl id (struct_raw f) timed = Ok b ∧
     (small b → decode_invoke_request b =
        Ok {| ir_endpoint := ep; ir_cluster := cl; ir_command := id;
              ir_fields := default [] (anon_raw f); ir_suppress := false; ir_timed := timed |})) ∧
  (∃ b, encode_write_request_inner ep cl id (enc_tree t) timed = Ok b ∧
     (small b → decode_write_request b =
        Ok {| wr_timed := timed; wr_suppress := false;
              wr_writes := [{| wa_path := (Some ep, Some cl, Some id);
                               wa_data := enc_tree (retag Anonymous t); wa_append := false |}] |})).
Proof.
  intros Hi Hf Ht Hs. split; eexists; split.
  - by apply invoke_request_eq.
  - intros Hb. by apply decode_invoke_request_at.
  - by apply write_request_eq.
  - intros Hb. by apply decode_write_request_at.
Qed.

(** A MoveToLevel-like timed invoke and a boolean write on endpoint 1. *)
Lemma requests_round_trip_witness :
  (∃ b, encode_invoke_request_timed 1 8 4 (Some [0x15; 0x24; 0; 9; 0x18]) = Ok b ∧
     decode_invoke_request b =
       Ok {| ir_endpoint := 1; ir_cluster := 8; ir_command := 4;
             ir_fields := [0x15; 0x24; 0; 9; 0x18]; ir_suppress := false; ir_timed := true |}) ∧
  (∃ b, encode_write_request_tlv_timed 1 8 4 [9] = Ok b ∧
     decode_write_request b =
       Ok {| wr_timed := true; wr_suppress := false;
             wr_writes := [{| wa_path := (Some 1, Some 8, Some 4); wa_data := [9]; wa_append := false |}] |}).
Proof.
  destruct (requests_round_trip 1 8 4 (Some (Anonymous, [Leaf (Context 0) (VUint 9)]))
    (Leaf Anonymous (VBool true)) true) as [ (b & Hb & Hd) (b' & Hb' & Hd')].
  - done.
  - split; [|done]. cbn. unfold in_u. lia.
  - done.
  - done.
  - split.
    + exists b. split; [exact Hb|]. apply Hd. vm_compute in Hb. by injection Hb as <-.
    + exists b'. split; [exact Hb'|]. apply Hd'. vm_compute in Hb'. by injection Hb' as <-.
Defined.

(** Responses survive the wire: both invoke-response decoders read back the
    status and cluster status of a status response and the success and fields
    of a data response, a write response is read as the status of its first
    path, and a StatusResponse as its code. *)
Theorem responses_round_trip ep cl cmd st cs f r rs :
  ids_ok ep cl (Some cmd) → status_ok st cs → struct_ok f → Forall write_result_ok (r :: rs) →
  (∃ b, encode_invoke_response_status ep cl cmd st cs = Ok b ∧
     (small b → decode_invoke_response b = Ok {| io_status := st; io_cluster_status := cs |} ∧
        decode_invoke_response_data b =
          Ok {| id_status := st; id_cluster_status := cs; id_fields := None |})) ∧
  (∃ b, encode_invoke_response_data ep cl cmd (default [] (struct_raw f)) = Ok b ∧
     (small b → decode_invoke_response b = Ok {| io_status := 0; io_cluster_status := None |} ∧
        decode_invoke_response_data b =
          Ok {| id_status := 0; id_cluster_status := None; id_fields := anon_raw f |})) ∧
  (∃ b, encode_write_response (r :: rs) = Ok b ∧ (small b → decode_write_response b = Ok r.2)) ∧
  (∃ b, encode_status_response (E:=Empty_set) st = Ok b ∧ (small b → decode_status_response b = Ok st)).
Proof.
  intros Hi Hs Hf Hrs. split_and!.
  - eexists; split; [apply response_status_eq|]. intros Hb. by apply decode_response_status_at.
  - eexists; split; [by apply response_data_eq|]. intros Hb. by apply decode_response_data_at.
  - eexists; split; [apply write_response_eq|]. intros Hb. by apply decode_write_response_at.
  - apply status_response_at, Hs.
Qed.

Lemma responses_round_trip_witness :
  ∃ b, encode_invoke_response_status 1 6 2 1 (Some 7) = Ok b ∧
    decode_invoke_response b = Ok {| io_status := 1; io_cluster_status := Some 7 |}.
Proof.
  destruct (responses_round_trip 1 6 2 1 (Some 7) None (1, 6, 0, 0) []) as [ (b & Hb & Hd) _]; try done.
  { by apply Forall_singleton. }
  exists b. split; [exact Hb|]. apply Hd. vm_compute in Hb. by injection Hb as <-.
Defined.
