(* ===== verification/Session.v ===== *)
(** * Secure sessions

    Models [crates/mat-controller/src/session/mod.rs], [session/mrp.rs] and
    [session/responder.rs]: sealing with the piggybacked acknowledgement,
    screening (decrypt, de-duplicate, acknowledge, deliver or put aside), the
    reliable senders and the device-role request intake.  The retransmission
    loops are those of [Exchange], through the class [MrpEndpoint]; the
    cipher is the [Aead] parameter of [Crypto].  Logging is left out. *)

From S2P Require Import Prelude Tlv Im Message Counter Crypto Exchange.

(** ** Data *)

Inductive SessionError :=
  | STimeout
  | Silence
  | SIo
  | SCrypto (e : CryptoError)
  | UnexpectedOpcode (op : Z).

Record SessionKeys := { i2r : bytes; r2i : bytes; attestation_challenge : bytes }.

Record SecureSession := {
  ss_net : Net;
  ss_peer : SocketAddr;
  local_session_id : Z;
  peer_session_id : Z;
  ss_keys : SessionKeys;
  local_node_id : Z;
  peer_node_id : Z;
  ss_counter : TxCounter;
  ss_rx_window : RxWindow;
  peer_initiated : list IncomingMessage;
  ss_last_rx : option Z;
  deferred_sub_err : option SessionError;
  pending_peer_ack : option (Z * Z);
  last_peer_ack : option Z
}.

Definition SecureSession_new (net : Net) (peer : SocketAddr) (local_sid peer_sid : Z)
    (keys : SessionKeys) (local_node peer_node : Z) (rng : bytes) : SecureSession :=
  {| ss_net := net; ss_peer := peer; local_session_id := local_sid;
     peer_session_id := peer_sid; ss_keys := keys; local_node_id := local_node;
     peer_node_id := peer_node; ss_counter := TxCounter_new rng;
     ss_rx_window := RxWindow_new; peer_initiated := []; ss_last_rx := None;
     deferred_sub_err := None; pending_peer_ack := None; last_peer_ack := None |}.

(** The device seals with [r2i] and opens with [i2r]. *)
Definition new_device_role (net : Net) (peer : SocketAddr) (local_sid peer_sid : Z)
    (keys : SessionKeys) (local_node peer_node : Z) (rng : bytes) : SecureSession :=
  SecureSession_new net peer local_sid peer_sid
    {| i2r := r2i keys; r2i := i2r keys; attestation_challenge := attestation_challenge keys |}
    local_node peer_node rng.

(** Field updates. *)
Definition ss_with_net (n : Net) (s : SecureSession) : SecureSession :=
  {| ss_net := n; ss_peer := ss_peer s; local_session_id := local_session_id s;
     peer_session_id := peer_session_id s; ss_keys := ss_keys s;
     local_node_id := local_node_id s; peer_node_id := peer_node_id s;
     ss_counter := ss_counter s; ss_rx_window := ss_rx_window s;
     peer_initiated := peer_initiated s; ss_last_rx := ss_last_rx s;
     deferred_sub_err := deferred_sub_err s; pending_peer_ack := pending_peer_ack s;
     last_peer_ack := last_peer_ack s |}.

(** What sealing changes. *)
Definition ss_set_tx (t : TxCounter) (p : option (Z * Z)) (s : SecureSession) : SecureSession :=
  {| ss_net := ss_net s; ss_peer := ss_peer s; local_session_id := local_session_id s;
     peer_session_id := peer_session_id s; ss_keys := ss_keys s;
     local_node_id := local_node_id s; peer_node_id := peer_node_id s;
     ss_counter := t; ss_rx_window := ss_rx_window s;
     peer_initiated := peer_initiated s; ss_last_rx := ss_last_rx s;
     deferred_sub_err := deferred_sub_err s; pending_peer_ack := p;
     last_peer_ack := last_peer_ack s |}.

(** What receiving an authenticated message changes. *)
Definition ss_set_rx (w : RxWindow) (rx : option Z) (p : option (Z * Z)) (a : option Z)
    (s : SecureSession) : SecureSession :=
  {| ss_net := ss_net s; ss_peer := ss_peer s; local_session_id := local_session_id s;
     peer_session_id := peer_session_id s; ss_keys := ss_keys s;
     local_node_id := local_node_id s; peer_node_id := peer_node_id s;
     ss_counter := ss_counter s; ss_rx_window := w;
     peer_initiated := peer_initiated s; ss_last_rx := rx;
     deferred_sub_err := deferred_sub_err s; pending_peer_ack := p;
     last_peer_ack := a |}.

Definition ss_set_queue (q : list IncomingMessage) (s : SecureSession) : SecureSession :=
  {| ss_net := ss_net s; ss_peer := ss_peer s; local_session_id := local_session_id s;
     peer_session_id := peer_session_id s; ss_keys := ss_keys s;
     local_node_id := local_node_id s; peer_node_id := peer_node_id s;
     ss_counter := ss_counter s; ss_rx_window := ss_rx_window s;
     peer_initiated := q; ss_last_rx := ss_last_rx s;
     deferred_sub_err := deferred_sub_err s; pending_peer_ack := pending_peer_ack s;
     last_peer_ack := last_peer_ack s |}.

#[export] Program Instance SecureSession_endpoint : MrpEndpoint SecureSession SessionError :=
  {| ep_net := ss_net; ep_with_net := ss_with_net; timeout_error := STimeout; io_error := SIo |}.
Next Obligation. done. Qed.

Inductive ScreenFilter :=
  | OurExchange (ex : Z)
  | PeerExchange (ex : Z)
  | AnyPeerInitiated.

Definition MAX_PEER_INITIATED_BUFFER : Z := 32.

Abbreviation SM := (M SecureSession SessionError).

(** ** Status payloads *)

Definition encode_status_report (general_code proto_id proto_code : Z) : bytes :=
  le_bytes 2 general_code ++ le_bytes 4 proto_id ++ le_bytes 2 proto_code.

Definition GENERAL_CODE_SUCCESS : Z := 0.
Definition SC_PROTOCOL_CODE_CLOSE_SESSION : Z := 2.
(** ** Operations *)

Section session.
Context `{A : Aead}.

(** The acknowledgement [seal] attaches and the pending one it leaves. *)
Definition take_pending (s : SecureSession) (exchange : Z) (acked : option Z) :
    option Z * option (Z * Z) :=
  match acked with
  | Some c => (Some c, pending_peer_ack s)
  | None =>
      match pending_peer_ack s with
      | Some (ex, c) => if ex =? exchange then (Some c, None) else (None, pending_peer_ack s)
      | None => (None, None)
      end
  end.

Definition seal (exchange : Z) (init : bool) (protocol opc : Z) (wanted : bool)
    (acked : option Z) (payload : bytes) : SM (bytes * Z) :=
  let! s := get in
  let wanted := wanted && negb (net_reliable (ss_net s)) in
  let (acked, pending) := take_pending s exchange acked in
  let (t, counter) := tx_next (ss_counter s) in
  modify (ss_set_tx t pending) ;;!
  let header := {| session_id := peer_session_id s; security_flags := 0;
                   message_counter := counter; source_node_id := None;
                   destination := NoDestination |} in
  let proto := {| initiator := init; needs_ack := wanted; acked_counter := acked;
                  opcode := opc; exchange_id := exchange; protocol_id := protocol;
                  vendor_id := None |} in
  let! datagram := lift (map_err SCrypto
    (seal_message (i2r (ss_keys s)) header proto payload (local_node_id s))) in
  ret (datagram, counter).

Definition ss_send_standalone_ack (exchange : Z) (init : bool) (acked : Z) : SM () :=
  let! (datagram, _) := seal exchange init PROTOCOL_ID_SECURE_CHANNEL
    OPCODE_MRP_STANDALONE_ACK false (Some acked) [] in
  send_to datagram.

(** Best effort: a sealing or sending error is dropped. *)
Definition attempt {B} (m : SM B) : SM () := λ s,
  match m s with
  | (s', Ok _) | (s', Err _) => (s', Ok ())
  | (s', Panic) => (s', Panic)
  | (s', OutOfFuel) => (s', OutOfFuel)
  end.

Definition send_close_session (new_exchange_id : Z) : SM () :=
  let payload := encode_status_report GENERAL_CODE_SUCCESS PROTOCOL_ID_SECURE_CHANNEL
    SC_PROTOCOL_CODE_CLOSE_SESSION in
  attempt (
    let! (datagram, _) := seal new_exchange_id true PROTOCOL_ID_SECURE_CHANNEL
      OPCODE_STATUS_REPORT false None payload in
    send_to datagram).

Definition stash (q : list IncomingMessage) (m : IncomingMessage) : list IncomingMessage :=
  (if MAX_PEER_INITIATED_BUFFER <=? zlen q then tail q else q) ++ [m].

Definition stash_peer_initiated (m : IncomingMessage) : SM () :=
  modify (λ s, ss_set_queue (stash (peer_initiated s) m) s).

Definition delivers (filter : ScreenFilter) (p : ProtocolHeader) : bool :=
  match filter with
  | OurExchange ex => (exchange_id p =? ex) && negb (initiator p)
  | PeerExchange ex => (exchange_id p =? ex) && initiator p
  | AnyPeerInitiated => initiator p
  end.

(** The part of [screen_with] after authentication. *)
Definition screen_authenticated (filter : ScreenFilter) (header : MessageHeader)
    (proto : ProtocolHeader) (payload : bytes) : SM (option IncomingMessage) :=
  let! s := get in
  let now := Some (net_now (ss_net s)) in
  let peer_ack := match acked_counter proto with
                  | Some a => Some a
                  | None => last_peer_ack s
                  end in
  let (w, fresh) := check_and_commit (ss_rx_window s) (message_counter header) in
  let wants := needs_ack proto && negb (net_reliable (ss_net s)) in
  let pending := if wants then Some (exchange_id proto, message_counter header)
                 else pending_peer_ack s in
  modify (ss_set_rx w now pending peer_ack) ;;!
  (if wants
   then ss_send_standalone_ack (exchange_id proto) (negb (initiator proto)) (message_counter header)
   else ret ()) ;;!
  if negb fresh then ret None else
  let msg := {| msg_header := header; msg_proto := proto; msg_payload := payload |} in
  if negb (delivers filter proto) then
    (if initiator proto && negb (is_standalone_ack proto)
     then stash_peer_initiated msg else ret ()) ;;!
    ret None
  else ret (Some msg).

Definition screen_with (buf : bytes) (from : SocketAddr) (filter : ScreenFilter) :
    SM (option IncomingMessage) :=
  let! s := get in
  if negb (bool_decide (from = ss_peer s)) then ret None else
  decode_or_ignore (H:=MessageHeader) buf (λ '(peek, _),
  if negb (session_id peek =? local_session_id s) then ret None else
  match open_message (r2i (ss_keys s)) buf (peer_node_id s) with
  | Ok (header, proto, payload) => screen_authenticated filter header proto payload
  | Err _ => ret None
  | Panic => panic
  | OutOfFuel => out_of_fuel
  end).

Definition ss_screen (buf : bytes) (from : SocketAddr) (exchange : Z) : SM (option IncomingMessage) :=
  screen_with buf from (OurExchange exchange).

Definition ss_recv (exchange : Z) (events : list Event) : SM (IncomingMessage * list Event) :=
  recv_until (λ buf from,
    let! o := ss_screen buf from exchange in
    match o with
    | None => ret Ignore
    | Some msg => ret (if is_standalone_ack (msg_proto msg) then Ignore else Done msg)
    end) STimeout events.

Definition ss_await_reply (exchange our : Z) (buf : bytes) (from : SocketAddr) :
    SM (Verdict (option IncomingMessage)) :=
  let! o := ss_screen buf from exchange in
  match o with
  | None => ret Ignore
  | Some msg =>
      if is_standalone_ack (msg_proto msg) then
        ret (if bool_decide (acked_counter (msg_proto msg) = Some our) then Done None else Ignore)
      else ret (Done (Some msg))
  end.

Definition ss_send_reliable (exchange protocol opc : Z) (payload : bytes) (cfg : MrpConfig)
    (events : list Event) : SM (option IncomingMessage * list Event) :=
  let! s := get in
  if net_reliable (ss_net s) then
    let! (datagram, _) := seal exchange true protocol opc false None payload in
    send_to datagram ;;!
    let! (msg, rest) := ss_recv exchange events in
    ret (Some msg, rest)
  else
    let! (datagram, our) := seal exchange true protocol opc true None payload in
    mrp_send_loop (ss_await_reply exchange our) datagram (max_retries cfg) events.

(** *** Device role *)

Definition respond_status_callback (exchange our : Z) (buf : bytes) (from : SocketAddr) :
    SM (Verdict ()) :=
  let! o := screen_with buf from (PeerExchange exchange) in
  match o with
  | None => ret Ignore
  | Some msg =>
      let acked := bool_decide (acked_counter (msg_proto msg) = Some our) in
      (if (protocol_id (msg_proto msg) =? PROTOCOL_ID_INTERACTION_MODEL) &&
          (opcode (msg_proto msg) =? OPCODE_REPORT_DATA)
       then stash_peer_initiated msg else ret ()) ;;!
      ret (if acked then Done () else Ignore)
  end.

Definition respond_status (exchange status : Z) (cfg : MrpConfig) (events : list Event) :
    SM (() * list Event) :=
  let! s := get in
  let! payload := lift (encode_status_response status) in
  if net_reliable (ss_net s) then
    let! (datagram, _) := seal exchange false PROTOCOL_ID_INTERACTION_MODEL
      OPCODE_STATUS_RESPONSE false None payload in
    send_to datagram ;;! ret ((), events)
  else
    let! (datagram, our) := seal exchange false PROTOCOL_ID_INTERACTION_MODEL
      OPCODE_STATUS_RESPONSE true None payload in
    mrp_send_loop (respond_status_callback exchange our) datagram (max_retries cfg) events.

Definition deliver_request (buf : bytes) (from : SocketAddr) : SM (option IncomingMessage) :=
  let! o := screen_with buf from AnyPeerInitiated in
  match o with
  | None => ret None
  | Some msg => ret (if is_standalone_ack (msg_proto msg) then None else Some msg)
  end.

Definition take_buffered_request : SM (option IncomingMessage) :=
  let! s := get in
  match peer_initiated s with
  | [] => ret None
  | m :: q => modify (ss_set_queue q) ;;! ret (Some m)
  end.

Definition recv_request (events : list Event) : SM (IncomingMessage * list Event) :=
  let! o := take_buffered_request in
  match o with
  | Some m => ret (m, events)
  | None =>
      recv_until (λ buf from,
        let! o := deliver_request buf from in
        ret (match o with Some msg => Done msg | None => Ignore end)) STimeout events
  end.

Definition requeue (q : list IncomingMessage) (m : IncomingMessage) : list IncomingMessage :=
  m :: (if MAX_PEER_INITIATED_BUFFER <=? zlen q then removelast q else q).

Definition requeue_buffered_request (m : IncomingMessage) : SM () :=
  modify (λ s, ss_set_queue (requeue (peer_initiated s) m) s).

Definition reply_callback (exchange our : Z) (buf : bytes) (from : SocketAddr) :
    SM (Verdict (option IncomingMessage)) :=
  let! o := screen_with buf from (PeerExchange exchange) in
  match o with
  | None =>
      let! s := get in
      ret (if bool_decide (last_peer_ack s = Some our) then Done None else Ignore)
  | Some msg =>
      let acked := bool_decide (acked_counter (msg_proto msg) = Some our) in
      if is_standalone_ack (msg_proto msg)
      then ret (if acked then Done None else Ignore)
      else ret (Done (Some msg))
  end.

Definition reply_reliable (request : IncomingMessage) (protocol opc : Z) (payload : bytes)
    (cfg : MrpConfig) (events : list Event) : SM (option IncomingMessage * list Event) :=
  let exchange := exchange_id (msg_proto request) in
  let! s := get in
  if net_reliable (ss_net s) then
    let! (datagram, _) := seal exchange false protocol opc false None payload in
    send_to datagram ;;! ret (None, events)
  else
    let! (datagram, our) := seal exchange false protocol opc true None payload in
    mrp_send_loop (reply_callback exchange our) datagram (max_retries cfg) events.
End session.

(** ** Lemmas *)

Section session_lemmas.
Context `{A : Aead, !AeadLaws A}.

(** Two ends of one session. *)
Definition linked (s t : SecureSession) : Prop :=
  r2i (ss_keys t) = i2r (ss_keys s) ∧ local_session_id t = peer_session_id s ∧
  peer_node_id t = local_node_id s.

(** A session whose fields are values of their Rust types. *)
Definition wf_session (s : SecureSession) : Prop :=
  in_u 16 (peer_session_id s) ∧ in_u 32 (tx_value (ss_counter s)) ∧ in_u 64 (local_node_id s) ∧
  match pending_peer_ack s with
  | Some (ex, c) => in_u 16 ex ∧ in_u 32 c
  | None => True
  end.

Definition ss_sends (s : SecureSession) : Prop := net_send_ok (ss_net s) = [].

(** The authenticated content of a datagram, if it has one for this session. *)
Definition opens (s : SecureSession) (buf : bytes) (from : SocketAddr) :
    option (MessageHeader * ProtocolHeader * bytes) :=
  if bool_decide (from = ss_peer s) then
    match MessageHeader_decode buf with
    | Ok (h, _) =>
        if session_id h =? local_session_id s then
          match open_message (r2i (ss_keys s)) buf (peer_node_id s) with
          | Ok x => Some x
          | _ => None
          end
        else None
    | _ => None
    end
  else None.

Lemma screen_with_opens s buf from f :
  bytes_ok buf →
  screen_with buf from f s =
  match opens s buf from with
  | None => (s, Ok None)
  | Some (h, p, pl) => screen_authenticated f h p pl s
  end.
Proof.
  intros Hb. unfold screen_with, opens, bind at 1, get at 1.
  case_bool_decide; [|done]. cbn [negb]. unfold decode_or_ignore.
  pose proof (decode_returns (H:=MessageHeader) buf Hb) as Hr. cbn [decode MessageHeader_codec] in *.
  destruct (MessageHeader_decode buf) as [[h off]|e| |]; try done.
  destruct (session_id h =? local_session_id s); [|done]. cbn [negb].
  pose proof (open_message_returns (r2i (ss_keys s)) buf (peer_node_id s) Hb) as Hr'.
  by destruct (open_message _ _ _) as [[[h' p] pl]|e| |].
Qed.

Definition sealed_header (s : SecureSession) : MessageHeader :=
  {| session_id := peer_session_id s; security_flags := 0;
     message_counter := tx_value (ss_counter s); source_node_id := None;
     destination := NoDestination |}.

Definition sealed_proto (s : SecureSession) (exchange : Z) (init : bool) (protocol opc : Z)
    (wanted : bool) (acked : option Z) : ProtocolHeader :=
  {| initiator := init; needs_ack := wanted && negb (net_reliable (ss_net s));
     acked_counter := (take_pending s exchange acked).1; opcode := opc;
     exchange_id := exchange; protocol_id := protocol; vendor_id := None |}.

(** The session after sealing one message. *)
Definition sealed (s : SecureSession) (exchange : Z) (acked : option Z) : SecureSession :=
  ss_set_tx (tx_next (ss_counter s)).1 (take_pending s exchange acked).2 s.

Lemma zlen_protocol p : zlen (ProtocolHeader_encode p) ≤ 12.
Proof.
  unfold ProtocolHeader_encode. destruct (vendor_id p), (acked_counter p); cbn [opt_bytes];
    autorewrite with mat; cbn; lia.
Qed.

Lemma take_pending_wf s exchange acked :
  wf_session s → wf_opt 32 acked → wf_opt 32 (take_pending s exchange acked).1.
Proof.
  intros (_ & _ & _ & Hp) Ha. unfold take_pending. destruct acked as [c|]; [done|].
  destruct (pending_peer_ack s) as [[ex c]|]; [|done]. destruct (ex =? exchange); [|done].
  by destruct Hp.
Qed.

Lemma sealed_wf s exchange acked : wf_session s → wf_session (sealed s exchange acked).
Proof.
  intros (? & ? & ? & Hp). split_and!; try done; [apply wrap_in_u; lia|].
  unfold sealed, take_pending. cbn. destruct acked as [c|]; [done|].
  destruct (pending_peer_ack s) as [[ex c]|]; [|done]. by destruct (ex =? exchange).
Qed.

(** What is sealed opens at the other end. *)
Lemma seal_ok s exchange init protocol opc wanted acked payload :
  wf_session s → in_u 16 exchange → in_u 16 protocol → is_byte opc → wf_opt 32 acked →
  zlen payload ≤ 65000 →
  ∃ d, seal exchange init protocol opc wanted acked payload s =
      (sealed s exchange acked, Ok (d, tx_value (ss_counter s))) ∧
    (bytes_ok payload → bytes_ok d) ∧
    ∀ t, linked s t → opens t d (ss_peer t) =
      Some (sealed_header s, sealed_proto s exchange init protocol opc wanted acked, payload).
Proof.
  intros Hs Hex Hpr Ho Ha Hl.
  set (h := sealed_header s). set (p := sealed_proto s exchange init protocol opc wanted acked).
  assert (Hh : wf_message h) by (destruct Hs as (? & ? & _); by split_and!).
  assert (Hp : wf_protocol p).
  { split_and!; try done. by apply take_pending_wf. }
  pose proof (zlen_protocol p) as Hz.
  assert (Hfit : zlen (encode p) + zlen payload ≤ MAX_CCM_PAYLOAD).
  { cbn [encode ProtocolHeader_codec]. unfold MAX_CCM_PAYLOAD. lia. }
  destruct (seal_message_ok (i2r (ss_keys s)) h p payload (local_node_id s) Hfit) as (ct & Hct & Hseal).
  exists (encode h ++ ct). split_and!.
  - unfold seal, bind at 1, get at 1. fold p.
    destruct (take_pending s exchange acked) as [ack pend] eqn:Htp.
    unfold tx_next. unfold bind at 1, modify. unfold bind at 1, lift.
    assert (p = {| initiator := init; needs_ack := wanted && negb (net_reliable (ss_net s));
      acked_counter := ack; opcode := opc; exchange_id := exchange; protocol_id := protocol;
      vendor_id := None |}) as Hpe by (unfold p, sealed_proto; by rewrite Htp).
    rewrite <- Hpe. change {| session_id := _; security_flags := _; message_counter := _;
      source_node_id := _; destination := _ |} with h. rewrite Hseal. unfold sealed. by rewrite Htp.
  - intros Hpb. apply Forall_app. split; [by apply (encode_bytes_ok h)|].
    eapply aead_bytes; [|exact Hct]. apply Forall_app. split; [by apply (encode_bytes_ok p)|done].
  - intros t (Hk & Hsid & Hn). unfold opens. rewrite bool_decide_true by done.
    pose proof (decode_encode h ct Hh) as Hd. cbn [decode MessageHeader_codec] in Hd. rewrite Hd.
    rewrite Hsid. cbn [session_id h sealed_header]. rewrite Z.eqb_refl, Hk, Hn.
    fold h. rewrite (open_message_sealed _ h p payload); try done.
Qed.

Definition ss_sent (d : bytes) (s : SecureSession) : SecureSession :=
  ss_with_net {| net_reliable := net_reliable (ss_net s); net_now := net_now (ss_net s);
    net_out := net_out (ss_net s) ++ [d]; net_send_ok := [] |} s.

Lemma ss_send_to_ok d s : ss_sends s → send_to (E:=SessionError) d s = (ss_sent d s, Ok ()).
Proof.
  intros Hs. unfold send_to, bind, get, modify. cbn [ep_net SecureSession_endpoint].
  unfold ss_sends in Hs. by rewrite Hs.
Qed.

(** [d] is a standalone ack of [s] for counter [k] on [exchange]. *)
Definition acks (s : SecureSession) (d : bytes) (exchange : Z) (init : bool) (k : Z) : Prop :=
  bytes_ok d ∧ ∀ t, linked s t → ∃ h p, opens t d (ss_peer t) = Some (h, p, []) ∧
    message_counter h = tx_value (ss_counter s) ∧ is_standalone_ack p = true ∧
    acked_counter p = Some k ∧ needs_ack p = false ∧ exchange_id p = exchange ∧ initiator p = init.

Lemma ss_standalone_ack_ok s exchange init k :
  ss_sends s → wf_session s → in_u 16 exchange → in_u 32 k →
  ∃ d, ss_send_standalone_ack exchange init k s = (ss_sent d (sealed s exchange (Some k)), Ok ()) ∧
    acks s d exchange init k.
Proof.
  intros Hn Hs Hex Hk.
  destruct (seal_ok s exchange init PROTOCOL_ID_SECURE_CHANNEL OPCODE_MRP_STANDALONE_ACK false
    (Some k) [] Hs Hex ltac:(done) ltac:(done) Hk ltac:(done)) as (d & Hseal & Hb & Ho).
  exists d. split.
  - unfold ss_send_standalone_ack, bind. rewrite Hseal. by rewrite ss_send_to_ok.
  - split; [by apply Hb|]. intros t Ht. eexists _, _. split; [by apply Ho|]. by split_and!.
Qed.

(** The session after the bookkeeping for an authenticated message. *)
Definition ss_wants (s : SecureSession) (p : ProtocolHeader) : bool :=
  needs_ack p && negb (net_reliable (ss_net s)).
Definition ss_fresh (s : SecureSession) (h : MessageHeader) : bool :=
  (check_and_commit (ss_rx_window s) (message_counter h)).2.
Definition ss_received (s : SecureSession) (h : MessageHeader) (p : ProtocolHeader) : SecureSession :=
  ss_set_rx (check_and_commit (ss_rx_window s) (message_counter h)).1
    (Some (net_now (ss_net s)))
    (if ss_wants s p then Some (exchange_id p, message_counter h) else pending_peer_ack s)
    (match acked_counter p with Some a => Some a | None => last_peer_ack s end) s.

Lemma ss_received_wf s h p :
  wf_session s → wf_message h → wf_protocol p → wf_session (ss_received s h p).
Proof.
  intros (? & ? & ? & Hp) (_ & _ & Hc & _) (_ & _ & He & _). split_and!; try done.
  cbn. by destruct (ss_wants s p).
Qed.

(** Where the acknowledgement leaves the session. *)
Definition acknowledged (s : SecureSession) (h : MessageHeader) (p : ProtocolHeader)
    (s' : SecureSession) : Prop :=
  if ss_wants s p then
    ∃ d, s' = ss_sent d (sealed (ss_received s h p) (exchange_id p) (Some (message_counter h))) ∧
      acks s d (exchange_id p) (negb (initiator p)) (message_counter h)
  else s' = ss_received s h p.

Definition put_aside (f : ScreenFilter) (p : ProtocolHeader) : bool :=
  negb (delivers f p) && (initiator p && negb (is_standalone_ack p)).

Lemma screen_authenticated_ok f h p pl s :
  ss_sends s → wf_session s → wf_message h → wf_protocol p →
  let m := {| msg_header := h; msg_proto := p; msg_payload := pl |} in
  ∃ s', acknowledged s h p s' ∧
    screen_authenticated f h p pl s =
      (if ss_fresh s h && put_aside f p then ss_set_queue (stash (peer_initiated s) m) s' else s',
       Ok (if ss_fresh s h && delivers f p then Some m else None)).
Proof.
  intros Hn Hs Hh Hp m. unfold screen_authenticated, bind at 1, get at 1.
  unfold acknowledged, ss_fresh, ss_received, put_aside, ss_wants.
  pose proof (ss_received_wf s h p Hs Hh Hp) as Hr. unfold ss_received, ss_wants in Hr.
  destruct (check_and_commit (ss_rx_window s) (message_counter h)) as [w fr]. cbn [fst snd] in *.
  unfold bind at 1, modify at 1.
  set (r := ss_set_rx _ _ _ _ s) in *.
  assert (Htail : ∀ s', peer_initiated s' = peer_initiated s →
    (if negb fr then ret None else
     if negb (delivers f p) then
       (if initiator p && negb (is_standalone_ack p) then stash_peer_initiated m else ret ()) ;;!
       ret None
     else ret (Some m)) s' =
    (if fr && (negb (delivers f p) && (initiator p && negb (is_standalone_ack p)))
     then ss_set_queue (stash (peer_initiated s) m) s' else s',
     @Ok SessionError _ (if fr && delivers f p then Some m else None))).
  { intros s' <-. destruct fr; [|done]. cbn [negb andb].
    destruct (delivers f p); [done|]. cbn [negb andb].
    by destruct (initiator p && negb (is_standalone_ack p)). }
  destruct (needs_ack p && negb (net_reliable (ss_net s))).
  - destruct (ss_standalone_ack_ok r (exchange_id p) (negb (initiator p)) (message_counter h))
      as (d & Hd & Hacks); [done|done|by destruct Hp as (_&_&?&_)|by destruct Hh as (_&_&?&_)|].
    exists (ss_sent d (sealed r (exchange_id p) (Some (message_counter h)))). split; [by exists d|].
    unfold bind at 1. rewrite Hd. by apply Htail.
  - exists r. split; [done|]. by apply Htail.
Qed.

Lemma opens_wf s buf from h p pl :
  bytes_ok buf → opens s buf from = Some (h, p, pl) → wf_message h ∧ wf_protocol p.
Proof.
  intros Hb. unfold opens. case_bool_decide; [|done].
  destruct (MessageHeader_decode buf) as [[h' off]|e| |]; try done.
  destruct (_ =? _); [|done].
  destruct (open_message _ _ _) as [x|e| |] eqn:Ho; try done. intros [= ->].
  apply open_message_inv in Ho as (o & pt & o' & Hd & Hpt & Hp & _).
  destruct (decode_sound buf h o Hb Hd) as (Hh & _). split; [done|].
  assert (bytes_ok pt) as Hpb.
  { eapply aead_dec_bytes; [|exact Hpt]. by apply Forall_drop. }
  by destruct (decode_sound pt p o' Hpb Hp) as (? & _).
Qed.

Lemma acknowledged_queue s h p s' :
  acknowledged s h p s' → peer_initiated s' = peer_initiated s.
Proof. unfold acknowledged. destruct (ss_wants s p); [by intros (d & -> & _)|by intros ->]. Qed.

Lemma stash_bound q m : zlen q ≤ MAX_PEER_INITIATED_BUFFER → zlen (stash q m) ≤ MAX_PEER_INITIATED_BUFFER.
Proof.
  unfold stash, MAX_PEER_INITIATED_BUFFER. intros Hq. rewrite zlen_app.
  change (zlen [m]) with 1. destruct (Z.leb_spec 32 (zlen q)); [|lia].
  destruct q; cbn [tail]; rewrite ?zlen_cons, ?zlen_nil in *; lia.
Qed.

(** A sealed message arriving at the other end. *)
Lemma screen_sealed s t f exchange init protocol opc wanted acked payload d :
  wf_session s → wf_session t → linked s t → ss_sends t → bytes_ok d →
  (∀ t, linked s t → opens t d (ss_peer t) =
     Some (sealed_header s, sealed_proto s exchange init protocol opc wanted acked, payload)) →
  in_u 16 exchange → in_u 16 protocol → is_byte opc → wf_opt 32 acked →
  ss_fresh t (sealed_header s) = true →
  delivers f (sealed_proto s exchange init protocol opc wanted acked) = true →
  ∃ t', acknowledged t (sealed_header s) (sealed_proto s exchange init protocol opc wanted acked) t' ∧
    screen_with d (ss_peer t) f t =
      (t', Ok (Some {| msg_header := sealed_header s;
                       msg_proto := sealed_proto s exchange init protocol opc wanted acked;
                       msg_payload := payload |})).
Proof.
  intros Hs Ht Hl Hn Hb Ho Hex Hpr Hopc Ha Hfr Hdel.
  rewrite screen_with_opens, Ho by done.
  assert (Hh : wf_message (sealed_header s)) by (destruct Hs as (? & ? & _); by split_and!).
  assert (Hp : wf_protocol (sealed_proto s exchange init protocol opc wanted acked)).
  { split_and!; try done. by apply take_pending_wf. }
  destruct (screen_authenticated_ok f _ _ payload t Hn Ht Hh Hp) as (t' & Hack & ->).
  exists t'. split; [done|]. unfold put_aside. by rewrite Hfr, Hdel.
Qed.

(** The three legs of a request over UDP. *)
Definition sealed_message (s : SecureSession) (exchange : Z) (init : bool) (protocol opc : Z)
    (payload : bytes) : IncomingMessage :=
  {| msg_header := sealed_header s;
     msg_proto := sealed_proto s exchange init protocol opc true None; msg_payload := payload |}.

Lemma sealed_header_wf s : wf_session s → wf_message (sealed_header s).
Proof. intros (? & ? & _). by split_and!. Qed.

Lemma sealed_proto_wf s exchange init protocol opc wanted acked :
  wf_session s → in_u 16 exchange → in_u 16 protocol → is_byte opc → wf_opt 32 acked →
  wf_protocol (sealed_proto s exchange init protocol opc wanted acked).
Proof. intros. split_and!; try done. by apply take_pending_wf. Qed.

Lemma not_standalone p : protocol_id p ≠ PROTOCOL_ID_SECURE_CHANNEL → is_standalone_ack p = false.
Proof. intros Hp. unfold is_standalone_ack. by apply Z.eqb_neq in Hp as ->. Qed.

(** The session after acknowledging the peer's message [k] on [exchange]. *)
Record after_ack (s s' : SecureSession) (exchange k : Z) : Prop := {
  aa_sends : ss_sends s';
  aa_wf : wf_session s';
  aa_udp : net_reliable (ss_net s') = false;
  aa_peer : ss_peer s' = ss_peer s;
  aa_to u : linked s u → linked s' u;
  aa_from u : linked u s → linked u s';
  aa_counter : tx_value (ss_counter s') = wrap 32 (tx_value (ss_counter s) + 1);
  aa_pending : pending_peer_ack s' = Some (exchange, k);
  aa_window : ss_rx_window s' = (check_and_commit (ss_rx_window s) k).1
}.

(** Acknowledging over UDP: one datagram, the sender's counter moves on. *)
Lemma acknowledged_udp s h p s' :
  acknowledged s h p s' → needs_ack p = true → net_reliable (ss_net s) = false →
  wf_session s → wf_message h → wf_protocol p →
  after_ack s s' (exchange_id p) (message_counter h) ∧
  ∃ d, acks s d (exchange_id p) (negb (initiator p)) (message_counter h) ∧
    net_out (ss_net s') = net_out (ss_net s) ++ [d].
Proof.
  intros Hack Hna Hrel Hs Hh Hp. unfold acknowledged, ss_wants in Hack. rewrite Hna, Hrel in Hack.
  destruct Hack as (d & -> & Hd). pose proof (ss_received_wf s h p Hs Hh Hp) as Hr.
  split; [|by exists d]. split; try done.
  - by apply (sealed_wf _ (exchange_id p) (Some (message_counter h))) in Hr.
  - cbn. unfold ss_wants. by rewrite Hna, Hrel.
Qed.

Lemma request_delivered s t exchange protocol opc payload d :
  wf_session s → wf_session t → linked s t → ss_sends t →
  net_reliable (ss_net s) = false → net_reliable (ss_net t) = false → bytes_ok d →
  (∀ t, linked s t → opens t d (ss_peer t) =
     Some (sealed_header s, sealed_proto s exchange true protocol opc true None, payload)) →
  in_u 16 exchange → in_u 16 protocol → protocol ≠ PROTOCOL_ID_SECURE_CHANNEL → is_byte opc →
  ss_fresh t (sealed_header s) = true →
  ∃ t1 ack, deliver_request d (ss_peer t) t =
      (t1, Ok (Some (sealed_message s exchange true protocol opc payload))) ∧
    net_out (ss_net t1) = net_out (ss_net t) ++ [ack] ∧
    after_ack t t1 exchange (tx_value (ss_counter s)).
Proof.
  intros Hs Ht Hl Hn Hus Hut Hb Ho Hex Hpr Hnsc Hop Hfr.
  destruct (screen_sealed s t AnyPeerInitiated exchange true protocol opc true None payload d)
    as (t1 & Hack & Hsc); [done..|].
  destruct (acknowledged_udp _ _ _ _ Hack) as (Haa & ack & _ & Hout);
    [by cbn; rewrite Hus|done|done|by apply sealed_header_wf|by apply sealed_proto_wf|].
  exists t1, ack. split_and!; [|done|done].
  unfold deliver_request, bind. rewrite Hsc. cbn [ret msg_proto]. by rewrite not_standalone.
Qed.

Lemma request_answered s t1 exchange protocol opc opc' request reply cfg now rest d1 d2 :
  wf_session s → wf_session t1 → linked t1 s → ss_sends s →
  net_reliable (ss_net s) = false → net_reliable (ss_net t1) = false → bytes_ok d2 →
  seal exchange true protocol opc true None request s =
    (sealed s exchange None, Ok (d1, tx_value (ss_counter s))) →
  (∀ u, linked t1 u → opens u d2 (ss_peer u) =
     Some (sealed_header t1, sealed_proto t1 exchange false protocol opc' true None, reply)) →
  in_u 16 exchange → in_u 16 protocol → protocol ≠ PROTOCOL_ID_SECURE_CHANNEL → is_byte opc' →
  ss_fresh s (sealed_header t1) = true →
  ∃ s2 ack, ss_send_reliable exchange protocol opc request cfg (EvRecv now (ss_peer s) d2 :: rest) s =
      (s2, Ok (Some (sealed_message t1 exchange false protocol opc' reply), rest)) ∧
    net_out (ss_net s2) = net_out (ss_net s) ++ [d1; ack] ∧
    acks (sealed s exchange None) ack exchange true (tx_value (ss_counter t1)).
Proof.
  intros Hs Ht Hl Hn Hus Hut Hb Hseal Ho Hex Hpr Hnsc Hop Hfr.
  set (sa := ss_sent d1 (sealed s exchange None)).
  set (sb := ss_with_net (net_at now (ss_net sa)) sa).
  assert (Hwsb : wf_session sb) by apply (sealed_wf s exchange None Hs).
  destruct (screen_sealed t1 sb (OurExchange exchange) exchange false protocol opc' true None reply d2)
    as (s2 & Hack & Hsc); [done..|by cbn; rewrite Z.eqb_refl|].
  destruct (acknowledged_udp _ _ _ _ Hack) as (_ & ack & Hacks & Hout);
    [by cbn; rewrite Hut|done|done|by apply sealed_header_wf|by apply sealed_proto_wf|].
  exists s2, ack. split_and!; [|rewrite Hout; cbn; by rewrite <- app_assoc|done].
  unfold ss_send_reliable, bind at 1, get at 1. cbn beta iota. rewrite Hus.
  unfold bind at 1. rewrite Hseal.
  apply mrp_first_answer with (s1 := sa); [by apply ss_send_to_ok|].
  change (ep_with_net (net_at now (ep_net sa)) sa) with sb.
  unfold ss_await_reply, bind at 1, ss_screen. change (ss_peer s) with (ss_peer sb).
  rewrite Hsc. cbn [msg_proto]. by rewrite not_standalone.
Qed.

Lemma reply_acknowledged t1 u exchange protocol opc' request reply cfg now rest d2 ack :
  wf_session t1 → ss_sends t1 → net_reliable (ss_net t1) = false → linked u t1 →
  seal exchange false protocol opc' true None reply t1 =
    (sealed t1 exchange None, Ok (d2, tx_value (ss_counter t1))) →
  acks u ack exchange true (tx_value (ss_counter t1)) →
  exchange_id (msg_proto request) = exchange →
  (check_and_commit (ss_rx_window t1) (tx_value (ss_counter u))).2 = true →
  ∃ t2, reply_reliable request protocol opc' reply cfg (EvRecv now (ss_peer t1) ack :: rest) t1 =
      (t2, Ok (None, rest)) ∧
    net_out (ss_net t2) = net_out (ss_net t1) ++ [d2].
Proof.
  intros Ht Hn Hu Hl Hseal [Hb Ho] Hex Hfr.
  set (ta := ss_sent d2 (sealed t1 exchange None)).
  set (tb := ss_with_net (net_at now (ss_net ta)) ta).
  assert (Hwtb : wf_session tb) by apply (sealed_wf t1 exchange None Ht).
  destruct (Ho tb Hl) as (h & p & Hop & Hk & Hsa & Ha & Hna & He & Hi).
  destruct (opens_wf _ _ _ _ _ _ Hb Hop) as [Hh Hp].
  destruct (screen_authenticated_ok (PeerExchange exchange) h p [] tb) as (t2 & Hack & Hsc); [done..|].
  assert (Hfr' : ss_fresh tb h = true) by (unfold ss_fresh; by rewrite Hk).
  assert (Hdel : delivers (PeerExchange exchange) p = true).
  { cbn. by rewrite He, Hi, Z.eqb_refl. }
  unfold put_aside in Hsc. rewrite Hfr', Hdel in Hsc. cbn [andb negb] in Hsc.
  exists t2. split.
  - unfold reply_reliable, bind at 1, get at 1. cbn beta iota. rewrite Hu, Hex.
    unfold bind at 1. rewrite Hseal.
    apply mrp_first_answer with (s1 := ta); [by apply ss_send_to_ok|].
    change (ep_with_net (net_at now (ep_net ta)) ta) with tb.
    unfold reply_callback, bind at 1. change (ss_peer t1) with (ss_peer tb).
    rewrite screen_with_opens, Hop, Hsc by done. cbn [msg_proto]. rewrite Hsa, Ha.
    by rewrite bool_decide_true.
  - unfold acknowledged, ss_wants in Hack. rewrite Hna in Hack. cbn [andb] in Hack. by subst t2.
Qed.

End session_lemmas.

(** ** A concrete session pair *)

#[local] Existing Instances Toy.toy_aead Toy.toy_laws.

Definition demo_keys : SessionKeys :=
  {| i2r := replicate 16 1; r2i := replicate 16 2; attestation_challenge := replicate 16 3 |}.
Definition udp : Net := {| net_reliable := false; net_now := 7; net_out := []; net_send_ok := [] |}.
Definition controller : SecureSession :=
  SecureSession_new udp {| ip := [10; 0; 0; 2]; port := 5540 |} 10 20 demo_keys 1 2 [1; 0; 0; 0].
Definition device : SecureSession :=
  new_device_role udp {| ip := [10; 0; 0; 1]; port := 9000 |} 20 10 demo_keys 2 1 [77; 0; 0; 0].

Lemma controller_wf : wf_session controller.
Proof. by split_and!. Qed.
Lemma device_wf : wf_session device.
Proof. by split_and!. Qed.

(** ** Properties *)

(**  What [screen_with] does with one datagram.  Anything that does not
    authenticate for this session changes nothing.  An authenticated message
    that asks for an acknowledgement over UDP is acknowledged with its own
    exchange and the opposite role, whatever the delivery filter, and recorded
    for the next piggyback; it is delivered exactly when it is fresh and passes
    the filter; a fresh peer-initiated message that misses the filter is put at
    the back of the bounded buffer instead of being lost; a duplicate is
    neither delivered nor buffered. *)
Theorem screen_with_accounts `{A : Aead, !AeadLaws A} (s : SecureSession) (buf : bytes)
    (from : SocketAddr) (f : ScreenFilter) :
  bytes_ok buf → ss_sends s → wf_session s →
  zlen (peer_initiated s) ≤ MAX_PEER_INITIATED_BUFFER →
  match opens s buf from with
  | None => screen_with buf from f s = (s, Ok None)
  | Some (h, p, pl) =>
      let m := {| msg_header := h; msg_proto := p; msg_payload := pl |} in
      let fresh := (check_and_commit (ss_rx_window s) (message_counter h)).2 in
      ∃ s', screen_with buf from f s = (s', Ok (if fresh && delivers f p then Some m else None)) ∧
        peer_initiated s' =
          (if fresh && (negb (delivers f p) && (initiator p && negb (is_standalone_ack p)))
           then stash (peer_initiated s) m else peer_initiated s) ∧
        zlen (peer_initiated s') ≤ MAX_PEER_INITIATED_BUFFER ∧
        last_peer_ack s' = match acked_counter p with Some a => Some a | None => last_peer_ack s end ∧
        if needs_ack p && negb (net_reliable (ss_net s)) then
          pending_peer_ack s' = Some (exchange_id p, message_counter h) ∧
          ∃ d, net_out (ss_net s') = net_out (ss_net s) ++ [d] ∧
            acks s d (exchange_id p) (negb (initiator p)) (message_counter h)
        else pending_peer_ack s' = pending_peer_ack s ∧ net_out (ss_net s') = net_out (ss_net s)
  end.
Proof.
  intros Hb Hn Hs Hq. rewrite screen_with_opens by done.
  destruct (opens s buf from) as [[[h p] pl]|] eqn:Ho; [|done]. intros m fresh.
  destruct (opens_wf _ _ _ _ _ _ Hb Ho) as [Hh Hp].
  destruct (screen_authenticated_ok f h p pl s Hn Hs Hh Hp) as (s' & Hack & ->).
  change (ss_fresh s h) with fresh. fold m.
  pose proof (acknowledged_queue _ _ _ _ Hack) as Hpi.
  eexists. split; [reflexivity|]. unfold put_aside, acknowledged, ss_wants in *.
  destruct (fresh && _); (split_and!; [done| | |]).
  1: { by apply stash_bound. }
  3: by rewrite Hpi.
  all: destruct (needs_ack p && negb (net_reliable (ss_net s))) eqn:Hw;
    [destruct Hack as (d & -> & Hd)|subst s'];
    cbn; unfold ss_wants; rewrite ?Hw; eauto.
Qed.

(** A request of the controller on exchange 5, as a datagram. *)
Definition demo_request : bytes :=
  match (seal 5 true 1 2 true None [9; 9] controller).2 with Ok (d, _) => d | _ => [] end.
Definition demo_message : IncomingMessage :=
  {| msg_header := sealed_header controller;
     msg_proto := sealed_proto controller 5 true 1 2 true None; msg_payload := [9; 9] |}.

Lemma demo_request_opens :
  opens device demo_request (ss_peer device) =
  Some (msg_header demo_message, msg_proto demo_message, [9; 9]).
Proof. by vm_compute. Qed.

Lemma screen_with_accounts_witness :
  ∃ t', screen_with demo_request (ss_peer device) (OurExchange 9) device = (t', Ok None) ∧
    peer_initiated t' = [demo_message] ∧ pending_peer_ack t' = Some (5, 2).
Proof.
  pose proof (screen_with_accounts device demo_request (ss_peer device) (OurExchange 9)
    ltac:(by apply bytes_ok_dec) eq_refl device_wf ltac:(done)) as H.
  rewrite demo_request_opens in H. destruct H as (t' & H1 & H2 & _ & _ & H3 & _).
  exists t'. rewrite H1, H2, H3. vm_compute. auto.
Defined.

(** C30.  A full request and reply between the two ends of a session over UDP.
    The request the controller seals is delivered by the device with its payload
    intact and acknowledged at once; the device's reply carries that
    acknowledgement again (piggybacked), so even when the standalone ack is lost
    the controller's [send_reliable], given only the reply, returns it after a
    single transmission and acknowledges it in turn; that last ack completes the
    device's [reply_reliable], also after a single transmission. *)
Theorem request_reply_completes `{A : Aead, !AeadLaws A} (s t : SecureSession)
    (exchange protocol opc opc' : Z) (request reply : bytes) (cfg : MrpConfig)
    (now now' : Z) (rest rest' : list Event) :
  wf_session s → wf_session t → linked s t → linked t s → ss_sends s → ss_sends t →
  net_reliable (ss_net s) = false → net_reliable (ss_net t) = false →
  in_u 16 exchange → in_u 16 protocol → protocol ≠ PROTOCOL_ID_SECURE_CHANNEL →
  is_byte opc → is_byte opc' → bytes_ok request → bytes_ok reply →
  zlen request ≤ 65000 → zlen reply ≤ 65000 →
  let k := tx_value (ss_counter s) in
  let w := (check_and_commit (ss_rx_window t) k).1 in
  (check_and_commit (ss_rx_window t) k).2 = true →
  (check_and_commit w (wrap 32 (k + 1))).2 = true →
  (check_and_commit (ss_rx_window s) (wrap 32 (tx_value (ss_counter t) + 1))).2 = true →
  ∃ d1 d2 ack1 ack2 t1 t2 s2 m1 m2,
    deliver_request d1 (ss_peer t) t = (t1, Ok (Some m1)) ∧ msg_payload m1 = request ∧
    reply_reliable m1 protocol opc' reply cfg (EvRecv now' (ss_peer t) ack2 :: rest') t1 =
      (t2, Ok (None, rest')) ∧
    net_out (ss_net t2) = net_out (ss_net t) ++ [ack1; d2] ∧
    ss_send_reliable exchange protocol opc request cfg (EvRecv now (ss_peer s) d2 :: rest) s =
      (s2, Ok (Some m2, rest)) ∧ msg_payload m2 = reply ∧
    acked_counter (msg_proto m2) = Some k ∧
    net_out (ss_net s2) = net_out (ss_net s) ++ [d1; ack2].
Proof.
  intros Hs Ht Hst Hts Hns Hnt Hus Hut Hex Hpr Hnsc Hop Hop' Hrq Hrp Hl1 Hl2 k w Hf1 Hf2 Hf3.
  destruct (seal_ok s exchange true protocol opc true None request) as (d1 & Hd1 & Hb1 & Ho1);
    [done..|].
  destruct (request_delivered s t exchange protocol opc request d1)
    as (t1 & ack1 & Hdel & Hout1 & Haa); [by auto..|].
  destruct (seal_ok t1 exchange false protocol opc' true None reply) as (d2 & Hd2 & Hb2 & Ho2);
    [by apply Haa|done..|].
  destruct (request_answered s t1 exchange protocol opc opc' request reply cfg now rest d1 d2)
    as (s2 & ack2 & Hans & Hout2 & Hacks); try by (auto || apply Haa).
  { unfold ss_fresh, sealed_header. cbn [message_counter]. by rewrite (aa_counter _ _ _ _ Haa). }
  destruct (reply_acknowledged t1 (sealed s exchange None) exchange protocol opc'
    (sealed_message s exchange true protocol opc request) reply cfg now' rest' d2 ack2)
    as (t2 & Hrep & Hout3); try by (apply Haa || done).
  { by rewrite (aa_window _ _ _ _ Haa). }
  do 9 eexists. split_and!; [exact Hdel|done|rewrite (aa_peer _ _ _ _ Haa) in Hrep; exact Hrep| |
    exact Hans|done| |exact Hout2].
  - rewrite Hout3, Hout1. by rewrite <- app_assoc.
  - cbn. unfold take_pending. rewrite (aa_pending _ _ _ _ Haa). by rewrite Z.eqb_refl.
Qed.

Lemma request_reply_completes_witness :
  ∃ d1 d2 ack1 ack2 t1 t2 s2 m1 m2,
    deliver_request d1 (ss_peer device) device = (t1, Ok (Some m1)) ∧ msg_payload m1 = [9; 9] ∧
    reply_reliable m1 1 5 [8] {| initial_interval := 300; active_interval := 300; max_retries := 4 |}
      [EvRecv 60 (ss_peer device) ack2] t1 = (t2, Ok (None, [])) ∧
    net_out (ss_net t2) = [] ++ [ack1; d2] ∧
    ss_send_reliable 5 1 2 [9; 9]
      {| initial_interval := 300; active_interval := 300; max_retries := 4 |}
      [EvRecv 50 (ss_peer controller) d2] controller = (s2, Ok (Some m2, [])) ∧
    msg_payload m2 = [8] ∧ acked_counter (msg_proto m2) = Some 2 ∧
    net_out (ss_net s2) = [] ++ [d1; ack2].
Proof.
  apply (request_reply_completes controller device 5 1 2 5 [9; 9] [8]);
    [exact controller_wf|exact device_wf|by split_and!|by split_and!|done|done|done|done
    |by vm_compute|by vm_compute|done|by vm_compute|by vm_compute|by apply bytes_ok_dec
    |by apply bytes_ok_dec|by vm_compute|by vm_compute|by vm_compute|by vm_compute|by vm_compute].
Defined.
