(* ===== verification/SetupCode.v ===== *)
(** * Setup codes

    Models [crates/mat-controller/src/setup_code.rs]: the base38 QR onboarding
    payload and the Verhoeff-checked manual pairing code, both directions.
    A [&str] is its list of UTF-8 bytes; the encoders' [assert!]s are [Panic]. *)

From S2P Require Import Prelude.

Inductive SetupCodeError :=
  | BadLength
  | BadChar
  | BadCheckDigit
  | BadPrefix
  | ZeroPasscode
  | PasscodeOutOfRange
  | BadFirstDigit
  | VidPidMismatch
  | NonCanonicalBase38.

Record SetupPayload := {
  version : Z;
  pl_vendor_id : Z;
  product_id : Z;
  custom_flow : Z;
  discovery_capabilities : Z;
  discriminator : Z;
  passcode : Z
}.

Record ManualCode := { mc_passcode : Z; short_discriminator : Z }.

Abbreviation SR := (res SetupCodeError).

(** ** Base38 *)

(** [0-9], [A-Z], [-] and [.]. *)
Definition BASE38_ALPHABET : bytes :=
  [48; 49; 50; 51; 52; 53; 54; 55; 56; 57; 65; 66; 67; 68; 69; 70; 71; 72; 73; 74; 75; 76;
   77; 78; 79; 80; 81; 82; 83; 84; 85; 86; 87; 88; 89; 90; 45; 46].

Definition base38_char_value (c : Z) : option Z :=
  (λ p, Z.of_nat p.1) <$> list_find (λ x, x = c) BASE38_ALPHABET.

(** [BASE38_ALPHABET[i]]. *)
Definition base38_char (i : Z) : Z := nth (Z.to_nat i) BASE38_ALPHABET 0.

Fixpoint encode_base38_chunk (value : Z) (num_chars : nat) : bytes :=
  match num_chars with
  | O => []
  | S n => base38_char (value mod 38) :: encode_base38_chunk (value / 38) n
  end.

Fixpoint base38_encode (b : bytes) : bytes :=
  match b with
  | [] => []
  | [x] => encode_base38_chunk x 2
  | [x; y] => encode_base38_chunk (Z.lor x (Z.shiftl y 8)) 4
  | x :: y :: z :: rest =>
      encode_base38_chunk (Z.lor (Z.lor x (Z.shiftl y 8)) (Z.shiftl z 16)) 5 ++
      base38_encode rest
  end.

Fixpoint chunk_value (chars : bytes) (i : nat) (value : Z) : SR Z :=
  match chars with
  | [] => Ok value
  | c :: chars =>
      let? digit := ok_or (base38_char_value c) BadChar in
      chunk_value chars (S i) (value + digit * 38 ^ Z.of_nat i)
  end.

Definition decode_base38_chunk (chars : bytes) (out_bytes : Z) : SR Z :=
  let? value := chunk_value chars 0 0 in
  if negb (Z.shiftr value (8 * out_bytes) =? 0) then Err NonCanonicalBase38
  else Ok value.

Fixpoint decode_groups (n : nat) (b : bytes) : SR bytes :=
  match n with
  | O => Ok []
  | S n =>
      let? value := decode_base38_chunk (take 5 b) 3 in
      let? rest := decode_groups n (drop 5 b) in
      Ok ([Z.land value 0xFF; Z.land (Z.shiftr value 8) 0xFF; Z.land (Z.shiftr value 16) 0xFF]
          ++ rest)
  end.

Definition decode_tail (b : bytes) : SR bytes :=
  match length b with
  | 4%nat =>
      let? value := decode_base38_chunk b 2 in
      Ok [Z.land value 0xFF; Z.land (Z.shiftr value 8) 0xFF]
  | 2%nat =>
      let? value := decode_base38_chunk b 1 in
      Ok [Z.land value 0xFF]
  | _ => Ok []
  end.

Definition is_ascii (s : bytes) : bool := forallb (λ c, c <? 128) s.

Definition base38_decode (s : bytes) : SR bytes :=
  if negb (is_ascii s) then Err BadChar else
  let tail := (length s `mod` 5)%nat in
  if negb (bool_decide (tail = 0%nat ∨ tail = 4%nat ∨ tail = 2%nat)) then Err BadLength else
  let full_groups := (length s / 5)%nat in
  let? groups := decode_groups full_groups s in
  let? last := decode_tail (drop (full_groups * 5) s) in
  Ok (groups ++ last).

(** ** The QR payload *)

Definition PAYLOAD_BYTES : nat := 11.
(** ["MT:"]. *)
Definition QR_PREFIX : bytes := [77; 84; 58].

(** The widths of the packed fields, in order. *)
Definition push_bits (acc offset value : Z) : Z := Z.lor acc (Z.shiftl value offset).

Definition pack_payload (p : SetupPayload) : SR bytes :=
  if negb (version p <=? 0x7) then Panic
  else if negb (custom_flow p <=? 0x3) then Panic
  else if negb (discriminator p <=? 0x0FFF) then Panic
  else if negb (passcode p <=? 0x07FFFFFF) then Panic
  else
    let acc := push_bits 0 0 (version p) in
    let acc := push_bits acc 3 (pl_vendor_id p) in
    let acc := push_bits acc 19 (product_id p) in
    let acc := push_bits acc 35 (custom_flow p) in
    let acc := push_bits acc 37 (discovery_capabilities p) in
    let acc := push_bits acc 45 (discriminator p) in
    let acc := push_bits acc 57 (passcode p) in
    Ok (le_bytes PAYLOAD_BYTES acc).

Definition extract_bits (acc offset bits : Z) : Z :=
  Z.land (Z.shiftr acc offset) (Z.shiftl 1 bits - 1).

Definition unpack_payload (b : bytes) : SetupPayload :=
  let acc := le_val (take PAYLOAD_BYTES b) in
  {| version := extract_bits acc 0 3;
     pl_vendor_id := extract_bits acc 3 16;
     product_id := extract_bits acc 19 16;
     custom_flow := extract_bits acc 35 2;
     discovery_capabilities := extract_bits acc 37 8;
     discriminator := extract_bits acc 45 12;
     passcode := extract_bits acc 57 27 |}.

(** [str::strip_prefix]. *)
Definition strip_prefix (p s : bytes) : option bytes :=
  if decide (take (length p) s = p) then Some (drop (length p) s) else None.

Definition parse_qr (s : bytes) : SR SetupPayload :=
  let? body := ok_or (strip_prefix QR_PREFIX s) BadPrefix in
  let? b := base38_decode body in
  if zlen b <? Z.of_nat PAYLOAD_BYTES then Err BadLength else
  let p := unpack_payload b in
  if passcode p =? 0 then Err ZeroPasscode else Ok p.

Definition encode_qr (p : SetupPayload) : SR bytes :=
  let? b := pack_payload p in
  Ok (QR_PREFIX ++ base38_encode b).

(** ** The manual pairing code *)

Definition D : list (list Z) :=
  [[0; 1; 2; 3; 4; 5; 6; 7; 8; 9];
   [1; 2; 3; 4; 0; 6; 7; 8; 9; 5];
   [2; 3; 4; 0; 1; 7; 8; 9; 5; 6];
   [3; 4; 0; 1; 2; 8; 9; 5; 6; 7];
   [4; 0; 1; 2; 3; 9; 5; 6; 7; 8];
   [5; 9; 8; 7; 6; 0; 4; 3; 2; 1];
   [6; 5; 9; 8; 7; 1; 0; 4; 3; 2];
   [7; 6; 5; 9; 8; 2; 1; 0; 4; 3];
   [8; 7; 6; 5; 9; 3; 2; 1; 0; 4];
   [9; 8; 7; 6; 5; 4; 3; 2; 1; 0]].
Definition P : list (list Z) :=
  [[0; 1; 2; 3; 4; 5; 6; 7; 8; 9];
   [1; 5; 7; 6; 2; 8; 3; 0; 9; 4];
   [5; 8; 0; 3; 7; 9; 6; 1; 4; 2];
   [8; 9; 1; 6; 0; 4; 3; 5; 2; 7];
   [9; 4; 5; 3; 1; 2; 6; 8; 7; 0];
   [4; 2; 8; 6; 5; 7; 3; 9; 0; 1];
   [2; 7; 9; 3; 8; 0; 6; 4; 1; 5];
   [7; 0; 4; 6; 9; 1; 3; 2; 5; 8]].
Definition INV : list Z := [0; 4; 3; 2; 1; 5; 6; 7; 8; 9].

(** Table lookups; the indices the code uses are always in range. *)
Definition d_ (a b : Z) : Z := nth (Z.to_nat b) (nth (Z.to_nat a) D []) 0.
Definition p_ (i d : Z) : Z := nth (Z.to_nat d) (nth (Z.to_nat i) P []) 0.
Definition inv_ (a : Z) : Z := nth (Z.to_nat a) INV 0.

(** The loop over the reversed digits, from position [i]. *)
Fixpoint verhoeff_loop (rev : list Z) (i c : Z) : Z :=
  match rev with
  | [] => c
  | d :: rev => verhoeff_loop rev (i + 1) (d_ c (p_ (i mod 8) d))
  end.

Definition verhoeff_check_digit (payload : list Z) : Z :=
  inv_ (verhoeff_loop (reverse payload) 1 0).

Definition is_ascii_digit (b : Z) : bool := (48 <=? b) && (b <=? 57).

Fixpoint digits_of (s : bytes) : SR (list Z) :=
  match s with
  | [] => Ok []
  | b :: s =>
      if is_ascii_digit b then let? l := digits_of s in Ok (b - 48 :: l) else Err BadChar
  end.

Definition digits_to_u32 (digits : list Z) : Z := foldl (λ acc d, acc * 10 + d) 0 digits.

Definition parse_manual_code (s : bytes) : SR ManualCode :=
  if negb (zlen s =? 11) && negb (zlen s =? 21) then Err BadLength else
  let? digits := digits_of s in
  let payload := removelast digits in
  let check_digit := List.last digits 0 in
  if negb (verhoeff_check_digit payload =? check_digit) then Err BadCheckDigit else
  let digit1 := nth 0 digits 0 in
  if 7 <? digit1 then Err BadFirstDigit else
  if negb (Bool.eqb (Z.shiftr digit1 2 =? 1) (zlen s =? 21)) then Err VidPidMismatch else
  let short_disc_top2 := Z.land digit1 0x3 in
  let digits2_6 := digits_to_u32 (zslice 1 6 digits) in
  let short_disc_bottom2 := Z.land (Z.shiftr digits2_6 14) 0x3 in
  let passcode_low14 := Z.land digits2_6 0x3FFF in
  let digits7_10 := digits_to_u32 (zslice 6 10 digits) in
  let pass := Z.lor (Z.shiftl digits7_10 14) passcode_low14 in
  let disc := Z.lor (Z.shiftl short_disc_top2 2) short_disc_bottom2 in
  if pass =? 0 then Err ZeroPasscode else
  if 99999998 <? pass then Err PasscodeOutOfRange else
  Ok {| mc_passcode := pass; short_discriminator := disc |}.

(** [{z:0n}] of a [u32]: the decimal digits, zero-padded to [n]; a [u32] has
    at most ten digits. *)
Fixpoint decimal (fuel : nat) (z : Z) : list Z :=
  match fuel with
  | O => []
  | S fuel => if z <? 10 then [z] else decimal fuel (z / 10) ++ [z mod 10]
  end.
Definition fmt_pad (n : nat) (z : Z) : list Z :=
  let l := decimal 10 z in replicate (n - length l) 0 ++ l.

Definition encode_manual_code (pass disc : Z) : SR bytes :=
  if negb (pass <=? 99999998) then Panic
  else if negb (disc <=? 0xF) then Panic
  else
    let digit1 := Z.shiftr disc 2 in
    let digits2_6 := Z.lor (Z.shiftl (Z.land disc 0x3) 14) (Z.land pass 0x3FFF) in
    let digits7_10 := Z.shiftr pass 14 in
    let body := map (Z.add 48) (fmt_pad 1 digit1 ++ fmt_pad 5 digits2_6 ++ fmt_pad 4 digits7_10) in
    match digits_of body with
    | Ok digits => Ok (body ++ map (Z.add 48) (fmt_pad 1 (verhoeff_check_digit digits)))
    | _ => Panic
    end.

(** ** Base38 is a bijection *)

Lemma alphabet_check :
  forallb (λ i, bool_decide (base38_char_value (base38_char (Z.of_nat i)) = Some (Z.of_nat i)) &&
                (base38_char (Z.of_nat i) <? 128)) (seq 0 38) = true.
Proof. by vm_compute. Qed.

Lemma base38_char_spec i : 0 ≤ i < 38 →
  base38_char_value (base38_char i) = Some i ∧ base38_char i < 128.
Proof.
  intros Hi. pose proof alphabet_check as H. rewrite forallb_forall in H.
  specialize (H (Z.to_nat i) ltac:(apply in_seq; lia)). rewrite Z2Nat.id in H by lia.
  apply andb_true_iff in H as [H1 H2]. apply bool_decide_eq_true in H1. split; [done|lia].
Qed.

Lemma base38_value_spec c d : base38_char_value c = Some d →
  0 ≤ d < 38 ∧ base38_char d = c.
Proof.
  unfold base38_char_value. intros H. apply fmap_Some in H as ([i x] & H & ->).
  apply list_find_Some in H as (H & -> & _). cbn. pose proof (lookup_lt_Some _ _ _ H) as Hl.
  change (length BASE38_ALPHABET) with 38%nat in Hl. split; [lia|].
  unfold base38_char. rewrite Nat2Z.id. by apply nth_lookup_Some with (d := 0) in H.
Qed.

Lemma length_chunk v n : length (encode_base38_chunk v n) = n.
Proof. revert v. induction n as [|n IH]; intros v; cbn; [done|]. by rewrite IH. Qed.

Lemma chunk_ascii v n : 0 ≤ v → Forall (λ c, c < 128) (encode_base38_chunk v n).
Proof.
  revert v. induction n as [|n IH]; intros v Hv; cbn [encode_base38_chunk]; constructor.
  - apply base38_char_spec. apply Z.mod_pos_bound. lia.
  - apply IH. by apply Z.div_pos.
Qed.

Lemma chunk_value_encode n v i acc : 0 ≤ v < 38 ^ Z.of_nat n →
  chunk_value (encode_base38_chunk v n) i acc = Ok (acc + v * 38 ^ Z.of_nat i).
Proof.
  revert v i acc. induction n as [|n IH]; intros v i acc Hv; cbn [encode_base38_chunk chunk_value].
  - rewrite Z.pow_0_r in Hv. f_equal. lia.
  - pose proof (Z.mod_pos_bound v 38 ltac:(lia)) as Hm.
    destruct (base38_char_spec (v mod 38) Hm) as [-> _]. cbn [ok_or res_bind].
    rewrite Nat2Z.inj_succ, Z.pow_succ_r in Hv by lia.
    rewrite IH by (split; [apply Z.div_pos|apply Z.div_lt_upper_bound]; lia).
    f_equal. rewrite Nat2Z.inj_succ, Z.pow_succ_r by lia.
    rewrite (Z.div_mod v 38) at 3 by lia. ring.
Qed.

Lemma chunk_value_inv chars i acc v : chunk_value chars i acc = Ok v →
  ∃ w, v = acc + w * 38 ^ Z.of_nat i ∧ 0 ≤ w < 38 ^ Z.of_nat (length chars) ∧
    encode_base38_chunk w (length chars) = chars.
Proof.
  revert i acc v. induction chars as [|c chars IH]; intros i acc v; cbn [chunk_value length].
  - intros [= ->]. exists 0. split_and!; [lia|lia|by cbn|done].
  - destruct (base38_char_value c) as [d|] eqn:Hc; cbn [ok_or res_bind]; [|done].
    intros H. apply IH in H as (w & -> & Hw & He).
    apply base38_value_spec in Hc as [Hd Hc]. exists (d + 38 * w).
    rewrite !Nat2Z.inj_succ, !Z.pow_succ_r by lia. split_and!; [ring|lia|lia|].
    cbn [encode_base38_chunk]. rewrite Z.mul_comm, Z_mod_plus_full, Z_div_plus_full by lia.
    rewrite (Z.mod_small d), (Z.div_small d), Z.add_0_l by lia. by rewrite Hc, He.
Qed.

Lemma decode_chunk_encode n v k : 0 ≤ v < 38 ^ Z.of_nat n → 0 ≤ k → v < 2 ^ (8 * k) →
  decode_base38_chunk (encode_base38_chunk v n) k = Ok v.
Proof.
  intros Hv Hk Hv2. unfold decode_base38_chunk. rewrite chunk_value_encode by done.
  rewrite Z.add_0_l, Z.mul_1_r. cbn [res_bind].
  rewrite Z.shiftr_div_pow2 by lia. rewrite Z.div_small by lia. done.
Qed.

Lemma decode_chunk_inv chars k v : 0 ≤ k → decode_base38_chunk chars k = Ok v →
  0 ≤ v < 2 ^ (8 * k) ∧ encode_base38_chunk v (length chars) = chars.
Proof.
  intros Hk. unfold decode_base38_chunk.
  destruct (chunk_value chars 0 0) as [w|e| |] eqn:Hc; cbn [res_bind]; try done.
  case_match eqn:Hz; [done|]. intros [= ->]. apply negb_false_iff, Z.eqb_eq in Hz.
  apply chunk_value_inv in Hc as (w & -> & Hw & He). rewrite Z.add_0_l, Z.mul_1_r in *.
  split; [|done]. rewrite Z.shiftr_div_pow2 in Hz by lia.
  apply Z.div_small_iff in Hz; [lia|]. pose proof (Z.pow_pos_nonneg 2 (8 * k)). lia.
Qed.

(** The bit arithmetic of one group is the little-endian value. *)
Lemma lor_shift a b n : 0 ≤ n → 0 ≤ a < 2 ^ n → Z.lor a (Z.shiftl b n) = a + b * 2 ^ n.
Proof.
  intros Hn Ha. rewrite Z.shiftl_mul_pow2 by done.
  rewrite <- Z.lxor_lor, <- Z.add_nocarry_lxor; [done|..];
    (apply Z.bits_inj'; intros i Hi; rewrite Z.land_spec, Z.bits_0;
     rewrite <- Z.shiftl_mul_pow2, Z.shiftl_spec by done;
     destruct (decide (i < n));
     [by rewrite (Z.testbit_neg_r b), andb_false_r by lia|
      rewrite <- (Z.mod_small a (2 ^ n)) by done; by rewrite Z.mod_pow2_bits_high by lia]).
Qed.

Lemma land_byte v : Z.land v 0xFF = v mod 256.
Proof. change 0xFF with (Z.ones 8). by rewrite Z.land_ones. Qed.

Lemma shift_bytes v n : 0 ≤ n → Z.land (Z.shiftr v (8 * n)) 0xFF = v / 256 ^ n mod 256.
Proof.
  intros Hn. rewrite land_byte, Z.shiftr_div_pow2 by lia. by rewrite Z.pow_mul_r by lia.
Qed.

Lemma group_bytes v :
  [Z.land v 0xFF; Z.land (Z.shiftr v 8) 0xFF; Z.land (Z.shiftr v 16) 0xFF] = le_bytes 3 v.
Proof.
  cbn [le_bytes]. change 8 with (8 * 1) at 1. change 16 with (8 * 2).
  rewrite !shift_bytes, land_byte by lia. by rewrite Z.div_div by lia.
Qed.
Lemma pair_bytes v : [Z.land v 0xFF; Z.land (Z.shiftr v 8) 0xFF] = le_bytes 2 v.
Proof.
  cbn [le_bytes]. change 8 with (8 * 1). by rewrite shift_bytes, land_byte by lia.
Qed.
Lemma single_byte v : [Z.land v 0xFF] = le_bytes 1 v.
Proof. cbn [le_bytes]. by rewrite land_byte. Qed.

Lemma lor_le2 x y : is_byte x → Z.lor x (Z.shiftl y 8) = le_val [x; y].
Proof. intros Hx. rewrite lor_shift by (unfold is_byte in *; lia). cbn. lia. Qed.
Lemma lor_le3 x y z : is_byte x → is_byte y →
  Z.lor (Z.lor x (Z.shiftl y 8)) (Z.shiftl z 16) = le_val [x; y; z].
Proof.
  unfold is_byte. intros Hx Hy. rewrite (lor_shift x) by lia.
  rewrite lor_shift by lia. cbn [le_val]. lia.
Qed.

Lemma three_ind {A} (Q : list A → Prop) :
  Q [] → (∀ x, Q [x]) → (∀ x y, Q [x; y]) →
  (∀ x y z l, Q l → Q (x :: y :: z :: l)) → ∀ l, Q l.
Proof.
  intros H0 H1 H2 H3. assert (H : ∀ n l, (length l ≤ n)%nat → Q l).
  { induction n as [|n IH]; intros [|x [|y [|z l]]] Hl; cbn in Hl; try lia; auto.
    apply H3, IH. lia. }
  intros l. by apply (H (length l)).
Qed.

(** A group of [n] bytes and its [m] characters. *)
Lemma group_round_trip b m :
  bytes_ok b → 2 ^ (8 * zlen b) ≤ 38 ^ Z.of_nat m →
  decode_base38_chunk (encode_base38_chunk (le_val b) m) (zlen b) = Ok (le_val b).
Proof.
  intros Hb Hm. pose proof (le_val_bound b Hb) as Hv. pose proof (zlen_nonneg b).
  change 256 with (2 ^ 8) in Hv. rewrite <- Z.pow_mul_r in Hv by lia.
  apply decode_chunk_encode; lia.
Qed.

Lemma drop_chunk v n l k :
  drop (n + k) (encode_base38_chunk v n ++ l) = drop k l.
Proof. rewrite <- drop_drop. by rewrite drop_app_length' by (by rewrite length_chunk). Qed.

Lemma base38_parts b : bytes_ok b →
  ∃ n t hd tl, b = hd ++ tl ∧ length (base38_encode b) = (n * 5 + t)%nat ∧
    (t = 0 ∨ t = 4 ∨ t = 2)%nat ∧
    decode_groups n (base38_encode b) = Ok hd ∧
    decode_tail (drop (n * 5) (base38_encode b)) = Ok tl.
Proof.
  induction b as [|x|x y|x y z b IH] using three_ind; intros Hb.
  - exists 0%nat, 0%nat, [], []. split_and!; auto.
  - exists 0%nat, 2%nat, [], [x]. split_and!; [done|by cbn|by auto|done|].
    change (drop _ _) with (encode_base38_chunk x 2). unfold decode_tail. rewrite length_chunk.
    replace x with (le_val [x]) at 1 by (cbn; lia).
    rewrite (group_round_trip [x] 2 Hb ltac:(done) : decode_base38_chunk _ 1 = _). cbn [res_bind].
    rewrite single_byte. f_equal. by apply (le_bytes_val [x]).
  - exists 0%nat, 4%nat, [], [x; y]. split_and!; [done|by cbn|by auto|done|].
    change (drop _ _) with (encode_base38_chunk (Z.lor x (Z.shiftl y 8)) 4).
    unfold decode_tail. rewrite length_chunk.
    rewrite lor_le2 by by apply Forall_cons in Hb as [? _].
    rewrite (group_round_trip [x; y] 4 Hb ltac:(done) : decode_base38_chunk _ 2 = _). cbn [res_bind].
    rewrite pair_bytes. f_equal. by apply (le_bytes_val [x; y]).
  - rewrite !Forall_cons in Hb. destruct Hb as (Hx & Hy & Hz & Hb).
    assert (Hg : bytes_ok [x; y; z]) by (rewrite !Forall_cons; auto with mat).
    destruct (IH Hb) as (n & t & hd & tl & -> & Hl & Ht & Hgr & Htl).
    exists (S n), t, ([x; y; z] ++ hd), tl. cbn [base38_encode].
    rewrite lor_le3 by done.
    split_and!; [done|rewrite length_app, length_chunk, Hl; lia|done| |].
    + cbn [decode_groups]. rewrite take_app_length' by (by rewrite length_chunk).
      rewrite drop_app_length' by (by rewrite length_chunk).
      rewrite (group_round_trip [x; y; z] 5 Hg ltac:(done) : decode_base38_chunk _ 3 = _). cbn [res_bind].
      rewrite Hgr. cbn [res_bind]. rewrite group_bytes. f_equal. f_equal.
      by apply (le_bytes_val [x; y; z]).
    + change (S n * 5)%nat with (5 + n * 5)%nat. by rewrite drop_chunk.
Qed.

Lemma base38_ascii b : bytes_ok b → is_ascii (base38_encode b) = true.
Proof.
  intros Hb. apply forallb_forall. intros c Hc. apply Z.ltb_lt.
  assert (Hall : Forall (λ c, c < 128) (base38_encode b)).
  { clear c Hc. induction b as [|x|x y|x y z b IH] using three_ind; cbn [base38_encode].
    - constructor.
    - apply chunk_ascii. apply Forall_cons in Hb as [Hx _]. apply Hx.
    - apply chunk_ascii. rewrite !Forall_cons in Hb. destruct Hb as (Hx & Hy & _).
      rewrite lor_le2 by done. unfold is_byte in *. cbn. lia.
    - rewrite !Forall_cons in Hb. destruct Hb as (Hx & Hy & Hz & Hb).
      apply Forall_app. split; [|by apply IH]. apply chunk_ascii.
      rewrite lor_le3 by done. unfold is_byte in *. cbn. lia. }
  rewrite Forall_forall in Hall. apply Hall. by apply list_elem_of_In.
Qed.

Lemma base38_decode_encode b : bytes_ok b → base38_decode (base38_encode b) = Ok b.
Proof.
  intros Hb. destruct (base38_parts b Hb) as (n & t & hd & tl & Hbt & Hl & Ht & Hg & Htl).
  unfold base38_decode. rewrite base38_ascii by done. cbn [negb]. rewrite Hl.
  assert (Hm : ((n * 5 + t) `mod` 5)%nat = t).
  { rewrite Nat.add_comm, Nat.Div0.mod_add. apply Nat.mod_small. lia. }
  assert (Hd : ((n * 5 + t) / 5)%nat = n).
  { rewrite Nat.add_comm, Nat.div_add by lia. rewrite Nat.div_small by lia. lia. }
  rewrite Hm, Hd. rewrite bool_decide_true by done. cbn [negb].
  rewrite Hg, Htl. cbn [res_bind]. by rewrite Hbt.
Qed.

Lemma le_val_back v n : 0 ≤ v < 2 ^ (8 * Z.of_nat n) → le_val (le_bytes n v) = v.
Proof. intros Hv. apply le_val_bytes_small. change 256 with (2 ^ 8). by rewrite <- Z.pow_mul_r by lia. Qed.

Lemma tail_inv s b t : length s = t → (t = 0 ∨ t = 4 ∨ t = 2)%nat →
  decode_tail s = Ok b → base38_encode b = s ∧ bytes_ok b.
Proof.
  unfold decode_tail. intros Ht Hor. rewrite Ht. destruct Hor as [-> | [-> | ->]].
  - intros [= <-]. apply nil_length_inv in Ht as ->. split; auto with mat.
  - destruct (decode_base38_chunk s 2) as [v|e| |] eqn:Hc; try done. cbn [res_bind].
    rewrite pair_bytes. intros [= <-]. apply decode_chunk_inv in Hc as [Hv He]; [|lia].
    pose proof (le_bytes_ok 2 v) as Hb. split; [|done].
    rewrite <- He, Ht at 1. cbn [le_bytes] in *. cbn [base38_encode].
    rewrite lor_le2 by by apply Forall_cons in Hb as [? _]. f_equal. by apply (le_val_back v 2).
  - destruct (decode_base38_chunk s 1) as [v|e| |] eqn:Hc; try done. cbn [res_bind].
    rewrite single_byte. intros [= <-]. apply decode_chunk_inv in Hc as [Hv He]; [|lia].
    split; [|exact (le_bytes_ok 1 v)]. rewrite <- He, Ht at 1. cbn [le_bytes base38_encode].
    f_equal. apply Z.mod_small. lia.
Qed.

Lemma groups_inv n t s g l : length s = (n * 5 + t)%nat → (t = 0 ∨ t = 4 ∨ t = 2)%nat →
  decode_groups n s = Ok g → decode_tail (drop (n * 5) s) = Ok l →
  base38_encode (g ++ l) = s ∧ bytes_ok (g ++ l).
Proof.
  intros Hs Ht. revert s g Hs. induction n as [|n IH]; intros s g Hs; cbn [decode_groups].
  - intros [= <-] Hl. by apply (tail_inv s l t).
  - destruct (decode_base38_chunk (take 5 s) 3) as [v|e| |] eqn:Hc; try done.
    cbn [res_bind]. destruct (decode_groups n (drop 5 s)) as [g'|e| |] eqn:Hg; try done.
    cbn [res_bind]. rewrite group_bytes. intros Hok Hl.
    assert (g = le_bytes 3 v ++ g') as -> by congruence.
    apply decode_chunk_inv in Hc as [Hv He]; [|lia].
    destruct (IH (drop 5 s) g') as [He' Hb']; [rewrite length_drop; lia|done| |].
    { by rewrite drop_drop. }
    pose proof (le_bytes_ok 3 v) as Hb. rewrite <- app_assoc. split; [|by apply Forall_app].
    rewrite <- (take_drop 5 s), <- He', <- He at 1.
    rewrite length_take, Nat.min_l by lia. cbn [le_bytes app] in *. cbn [base38_encode].
    rewrite !Forall_cons in Hb. destruct Hb as (Hx & Hy & _).
    rewrite lor_le3 by done. do 2 f_equal. by apply (le_val_back v 3).
Qed.

(** ** Packing *)

Lemma extract_field a v w o n k :
  k = o + n → 0 ≤ o → 0 ≤ n → 0 ≤ a < 2 ^ o → 0 ≤ v < 2 ^ n →
  extract_bits (a + v * 2 ^ o + w * 2 ^ k) o n = v.
Proof.
  intros -> Ho Hn Ha Hv. unfold extract_bits.
  replace (Z.shiftl 1 n - 1) with (Z.ones n) by (unfold Z.ones; lia).
  rewrite Z.land_ones, Z.shiftr_div_pow2 by lia.
  replace (a + v * 2 ^ o + w * 2 ^ (o + n)) with (a + (v + w * 2 ^ n) * 2 ^ o)
    by (rewrite Z.pow_add_r by lia; ring).
  rewrite Z.div_add, Z.div_small, Z.add_0_l by lia.
  rewrite Z_mod_plus_full. by apply Z.mod_small.
Qed.

(** A payload whose fields fit their widths. *)
Definition wf_payload (p : SetupPayload) : Prop :=
  in_u 3 (version p) ∧ in_u 16 (pl_vendor_id p) ∧ in_u 16 (product_id p) ∧
  in_u 2 (custom_flow p) ∧ in_u 8 (discovery_capabilities p) ∧
  in_u 12 (discriminator p) ∧ in_u 27 (passcode p).

Definition packed (p : SetupPayload) : Z :=
  version p + pl_vendor_id p * 2 ^ 3 + product_id p * 2 ^ 19 + custom_flow p * 2 ^ 35 +
  discovery_capabilities p * 2 ^ 37 + discriminator p * 2 ^ 45 + passcode p * 2 ^ 57.

(** Turn the innermost disjunction of a packed field into an addition. *)
Ltac lor_step :=
  match goal with
  | |- context [Z.lor ?a (Z.shiftl ?b ?n)] =>
      lazymatch a with
      | context [Z.lor] => fail
      | _ => rewrite (lor_shift a b n) by lia
      end
  end.

Lemma pack_payload_ok p : wf_payload p →
  pack_payload p = Ok (le_bytes PAYLOAD_BYTES (packed p)) ∧ 0 ≤ packed p < 2 ^ 84.
Proof.
  unfold wf_payload, in_u. intros (H1 & H2 & H3 & H4 & H5 & H6 & H7).
  assert (Hp : 0 ≤ packed p < 2 ^ 84) by (unfold packed; lia). split; [|done].
  unfold pack_payload.
  destruct (Z.leb_spec (version p) 0x7); [|lia]. destruct (Z.leb_spec (custom_flow p) 0x3); [|lia].
  destruct (Z.leb_spec (discriminator p) 0x0FFF); [|lia].
  destruct (Z.leb_spec (passcode p) 0x07FFFFFF); [|lia]. cbn [negb].
  unfold push_bits. do 2 f_equal. unfold packed.
  rewrite Z.lor_0_l, Z.shiftl_0_r. do 6 lor_step. lia.
Qed.

Lemma unpack_packed p extra : wf_payload p →
  unpack_payload (le_bytes PAYLOAD_BYTES (packed p) ++ extra) = p.
Proof.
  intros Hp. pose proof (pack_payload_ok p Hp) as [_ Hb].
  unfold wf_payload, in_u in Hp. destruct Hp as (H1 & H2 & H3 & H4 & H5 & H6 & H7).
  unfold unpack_payload. rewrite take_app_length' by (by rewrite length_le_bytes).
  unfold PAYLOAD_BYTES. rewrite (le_val_back (packed p) 11) by (change (8 * Z.of_nat 11) with 88; lia).
  destruct p as [v vid pid cf dc di pa]. unfold packed in *.
  cbn [version pl_vendor_id product_id custom_flow discovery_capabilities discriminator passcode] in *.
  f_equal.
  - rewrite <- (extract_field 0 v (vid + pid * 2 ^ 16 + cf * 2 ^ 32 + dc * 2 ^ 34 + di * 2 ^ 42 +
      pa * 2 ^ 54) 0 3 3) at 2 by lia. f_equal; lia.
  - rewrite <- (extract_field v vid (pid + cf * 2 ^ 16 + dc * 2 ^ 18 + di * 2 ^ 26 +
      pa * 2 ^ 38) 3 16 19) at 2 by lia. f_equal; lia.
  - rewrite <- (extract_field (v + vid * 2 ^ 3) pid (cf + dc * 2 ^ 2 + di * 2 ^ 10 +
      pa * 2 ^ 22) 19 16 35) at 2 by lia. f_equal; lia.
  - rewrite <- (extract_field (v + vid * 2 ^ 3 + pid * 2 ^ 19) cf (dc + di * 2 ^ 8 +
      pa * 2 ^ 20) 35 2 37) at 2 by lia. f_equal; lia.
  - rewrite <- (extract_field (v + vid * 2 ^ 3 + pid * 2 ^ 19 + cf * 2 ^ 35) dc (di +
      pa * 2 ^ 12) 37 8 45) at 2 by lia. f_equal; lia.
  - rewrite <- (extract_field (v + vid * 2 ^ 3 + pid * 2 ^ 19 + cf * 2 ^ 35 + dc * 2 ^ 37) di
      pa 45 12 57) at 2 by lia. f_equal; lia.
  - rewrite <- (extract_field (v + vid * 2 ^ 3 + pid * 2 ^ 19 + cf * 2 ^ 35 + dc * 2 ^ 37 +
      di * 2 ^ 45) pa 0 57 27 84) at 2 by lia. f_equal; lia.
Qed.

(** ** Verhoeff *)

Definition digit (d : Z) : Prop := 0 ≤ d < 10.

(** Quantifying over digits (and over the 8 permutations) by computation. *)
Definition all_below (n : nat) (f : Z → bool) : bool := forallb (λ i, f (Z.of_nat i)) (seq 0 n).

Lemma all_below_spec n f : all_below n f = true → ∀ d, 0 ≤ d < Z.of_nat n → f d = true.
Proof.
  unfold all_below. intros H d Hd. rewrite forallb_forall in H.
  specialize (H (Z.to_nat d) ltac:(apply in_seq; lia)). by rewrite Z2Nat.id in H by lia.
Qed.

Definition digitb (z : Z) : bool := (0 <=? z) && (z <? 10).

Lemma tables_in_range :
  all_below 10 (λ a, digitb (inv_ a) && all_below 10 (λ b, digitb (d_ a b))) = true ∧
  all_below 8 (λ i, all_below 10 (λ d, digitb (p_ i d))) = true.
Proof. by vm_compute. Qed.

(** [D] is a group with identity 0 and inverses [INV]; each row of [P] is
    injective. *)
Lemma tables_group :
  all_below 10 (λ a, all_below 10 (λ b, all_below 10 (λ c,
    (d_ (d_ a b) c =? d_ a (d_ b c))))) = true ∧
  all_below 10 (λ a, (d_ a 0 =? a) && (d_ 0 a =? a) && (d_ a (inv_ a) =? 0) && (d_ (inv_ a) a =? 0)) = true ∧
  all_below 8 (λ i, all_below 10 (λ x, all_below 10 (λ y,
    (x =? y) || negb (p_ i x =? p_ i y)))) = true.
Proof. by vm_compute. Qed.

(** Two different adjacent digits never commute under consecutive
    permutations. *)
Lemma tables_transposition :
  all_below 8 (λ i, all_below 10 (λ x, all_below 10 (λ y,
    (x =? y) || negb (d_ (p_ i x) (p_ ((i + 1) mod 8) y) =? d_ (p_ i y) (p_ ((i + 1) mod 8) x))))) = true.
Proof. by vm_compute. Qed.

Lemma d_digit a b : digit a → digit b → digit (d_ a b).
Proof.
  intros Ha Hb. destruct tables_in_range as [H _].
  apply (all_below_spec _ _ H) in Ha. apply andb_true_iff in Ha as [_ Ha].
  apply (all_below_spec _ _ Ha) in Hb. unfold digitb, digit in *. lia.
Qed.

Lemma inv_digit a : digit a → digit (inv_ a).
Proof.
  intros Ha. destruct tables_in_range as [H _].
  apply (all_below_spec _ _ H) in Ha. apply andb_true_iff in Ha as [Ha _].
  unfold digitb, digit in *. lia.
Qed.

Lemma p_digit i a : digit a → digit (p_ (i mod 8) a).
Proof.
  intros Ha. destruct tables_in_range as [_ H].
  pose proof (all_below_spec _ _ H (i mod 8) ltac:(apply Z.mod_pos_bound; lia)) as H1.
  apply (all_below_spec _ _ H1) in Ha.
  unfold digitb, digit in *. lia.
Qed.

Lemma d_assoc a b c : digit a → digit b → digit c → d_ (d_ a b) c = d_ a (d_ b c).
Proof.
  intros Ha Hb Hc. destruct tables_group as [H _].
  apply (all_below_spec _ _ H) in Ha. apply (all_below_spec _ _ Ha) in Hb.
  apply (all_below_spec _ _ Hb) in Hc. by apply Z.eqb_eq.
Qed.

Lemma d_unit a : digit a →
  d_ a 0 = a ∧ d_ 0 a = a ∧ d_ a (inv_ a) = 0 ∧ d_ (inv_ a) a = 0.
Proof. intros Ha. destruct tables_group as (_ & H & _). apply (all_below_spec _ _ H) in Ha. lia. Qed.

Lemma p_inj i x y : digit x → digit y → p_ (i mod 8) x = p_ (i mod 8) y → x = y.
Proof.
  intros Hx Hy Heq. destruct tables_group as (_ & _ & H).
  pose proof (all_below_spec _ _ H (i mod 8) ltac:(apply Z.mod_pos_bound; lia)) as H1.
  apply (all_below_spec _ _ H1) in Hx. apply (all_below_spec _ _ Hx) in Hy. lia.
Qed.

Lemma p_no_commute i x y : digit x → digit y → x ≠ y →
  d_ (p_ (i mod 8) x) (p_ ((i + 1) mod 8) y) ≠ d_ (p_ (i mod 8) y) (p_ ((i + 1) mod 8) x).
Proof.
  intros Hx Hy Hne. 
  pose proof (all_below_spec _ _ tables_transposition (i mod 8)
    ltac:(apply Z.mod_pos_bound; lia)) as H1.
  apply (all_below_spec _ _ H1) in Hx. apply (all_below_spec _ _ Hx) in Hy.
  rewrite Zplus_mod_idemp_l in Hy. lia.
Qed.

Lemma d_cancel_l a x y : digit a → digit x → digit y → d_ a x = d_ a y → x = y.
Proof.
  intros Ha Hx Hy H. apply (f_equal (d_ (inv_ a))) in H.
  pose proof (inv_digit a Ha). rewrite <- !d_assoc in H by done.
  destruct (d_unit a Ha) as (_ & _ & _ & Hi). rewrite Hi in H.
  destruct (d_unit x Hx) as (_ & <- & _). destruct (d_unit y Hy) as (_ & <- & _). done.
Qed.

Lemma d_cancel_r a x y : digit a → digit x → digit y → d_ x a = d_ y a → x = y.
Proof.
  intros Ha Hx Hy H. apply (f_equal (λ z, d_ z (inv_ a))) in H.
  pose proof (inv_digit a Ha). rewrite !d_assoc in H by done.
  destruct (d_unit a Ha) as (_ & _ & Hi & _). rewrite Hi in H.
  destruct (d_unit x Hx) as (<- & _). destruct (d_unit y Hy) as (<- & _). done.
Qed.

Abbreviation digits_ok := (Forall digit).

Lemma loop_app a b i c :
  verhoeff_loop (a ++ b) i c = verhoeff_loop b (i + zlen a) (verhoeff_loop a i c).
Proof.
  revert i c. induction a as [|x a IH]; intros i c; cbn [app verhoeff_loop].
  - by rewrite zlen_nil, Z.add_0_r.
  - rewrite IH, zlen_cons. f_equal. lia.
Qed.

Lemma loop_digit l i c : digits_ok l → digit c → digit (verhoeff_loop l i c).
Proof.
  intros Hl. revert i c. induction Hl as [|x l Hx Hl IH]; intros i c Hc; [done|].
  apply IH, d_digit; [done|by apply p_digit].
Qed.

Lemma loop_inj l i c c' : digits_ok l → digit c → digit c' →
  verhoeff_loop l i c = verhoeff_loop l i c' → c = c'.
Proof.
  intros Hl. revert i c c'. induction Hl as [|x l Hx Hl IH]; intros i c c' Hc Hc' H; [done|].
  pose proof (p_digit i x Hx). apply IH in H; [|by apply d_digit..].
  by eapply d_cancel_r.
Qed.

(** One changed digit, or two swapped adjacent ones, change the result. *)
Lemma loop_substitution pre post x y i :
  digits_ok pre → digits_ok post → digit x → digit y → x ≠ y →
  verhoeff_loop (pre ++ x :: post) i 0 ≠ verhoeff_loop (pre ++ y :: post) i 0.
Proof.
  intros Hpre Hpost Hx Hy Hne H. rewrite !loop_app in H. cbn [verhoeff_loop] in H.
  assert (Hc : digit (verhoeff_loop pre i 0)) by (apply loop_digit; done).
  set (j := i + zlen pre) in *.
  pose proof (p_digit j x Hx). pose proof (p_digit j y Hy).
  apply loop_inj in H; [|done|by apply d_digit..].
  apply d_cancel_l in H; [|done..]. by apply p_inj in H.
Qed.

Lemma loop_transposition pre post x y i :
  digits_ok pre → digits_ok post → digit x → digit y → x ≠ y →
  verhoeff_loop (pre ++ x :: y :: post) i 0 ≠ verhoeff_loop (pre ++ y :: x :: post) i 0.
Proof.
  intros Hpre Hpost Hx Hy Hne H. rewrite !loop_app in H. cbn [verhoeff_loop] in H.
  assert (Hc : digit (verhoeff_loop pre i 0)) by (apply loop_digit; done).
  set (j := i + zlen pre) in *.
  pose proof (p_digit j x Hx). pose proof (p_digit j y Hy).
  pose proof (p_digit (j + 1) x Hx). pose proof (p_digit (j + 1) y Hy).
  apply loop_inj in H; [|done|by repeat apply d_digit..].
  rewrite !d_assoc in H by done.
  apply d_cancel_l in H; [|done|by apply d_digit..]. by apply (p_no_commute j x y) in H.
Qed.

(** A code verifies when the loop over all its digits gives zero. *)
Lemma check_digit_verifies payload c : digits_ok payload → digit c →
  verhoeff_check_digit payload = c ↔ verhoeff_loop (reverse (payload ++ [c])) 0 0 = 0.
Proof.
  intros Hp Hc. rewrite reverse_app. cbn [reverse rev_append app verhoeff_loop].
  change (reverse [c] ++ reverse payload) with (c :: reverse payload). cbn [verhoeff_loop].
  assert (p_ (0 mod 8) c = c) as ->.
  { assert (H : all_below 10 (λ c, p_ 0 c =? c) = true) by by vm_compute.
    apply (all_below_spec _ _ H) in Hc. by apply Z.eqb_eq. }
  destruct (d_unit c Hc) as (_ & -> & _). change (0 + 1) with 1.
  unfold verhoeff_check_digit.
  assert (Hr : digits_ok (reverse payload)) by by apply Forall_reverse.
  assert (Hsplit : ∀ l i c, digits_ok l → digit c →
    verhoeff_loop l i c = d_ c (verhoeff_loop l i 0)).
  { clear. intros l i c Hl. revert i c. induction Hl as [|x l Hx Hl IH]; intros i c Hc.
    - cbn. symmetry. apply d_unit, Hc.
    - pose proof (p_digit i x Hx) as Hpx. cbn [verhoeff_loop].
      rewrite (IH _ (d_ c _)), (IH _ (d_ 0 _)) by by apply d_digit.
      destruct (d_unit _ Hpx) as (_ & -> & _).
      rewrite d_assoc; [done|done|done|by apply loop_digit]. }
  rewrite (Hsplit _ _ c) by done.
  assert (Hf : digit (verhoeff_loop (reverse payload) 1 0)) by by apply loop_digit.
  set (f := verhoeff_loop (reverse payload) 1 0) in *. split.
  - intros <-. apply d_unit, Hf.
  - intros H. apply (d_cancel_r f); [done|by apply inv_digit|done|].
    rewrite H. apply d_unit, Hf.
Qed.

Lemma digits_of_ok s : Forall (λ b, is_ascii_digit b = true) s →
  digits_of s = Ok (map (λ b, b - 48) s) ∧ digits_ok (map (λ b, b - 48) s).
Proof.
  induction 1 as [|b s Hb Hs [IH1 IH2]]; [done|]. cbn [digits_of map]. rewrite Hb, IH1.
  split; [done|]. constructor; [|done]. unfold is_ascii_digit, digit in *. lia.
Qed.

Lemma digits_of_inv s l : digits_of s = Ok l → Forall (λ b, is_ascii_digit b = true) s.
Proof.
  revert l. induction s as [|b s IH]; intros l; [constructor|]. cbn [digits_of].
  destruct (is_ascii_digit b) eqn:Hb; [|done].
  destruct (digits_of s) as [k|e| |] eqn:Hk; try done. intros _. constructor; [done|by eapply IH].
Qed.

Lemma split_last (l : list Z) : l ≠ [] → l = removelast l ++ [List.last l 0].
Proof. apply app_removelast_last. Qed.

(** The length and check-digit tests of [parse_manual_code]. *)
Lemma parse_check s : Forall (λ b, is_ascii_digit b = true) s → zlen s = 11 ∨ zlen s = 21 →
  verhoeff_loop (reverse (map (λ b, b - 48) s)) 0 0 ≠ 0 → parse_manual_code s = Err BadCheckDigit.
Proof.
  intros Hs Hl Hv. destruct (digits_of_ok s Hs) as [Hd Hok]. unfold parse_manual_code.
  replace (negb (zlen s =? 11) && negb (zlen s =? 21)) with false by lia. rewrite Hd. cbn [res_bind].
  set (l := map (λ b, b - 48) s) in *.
  assert (Hne : l ≠ []) by (unfold l; destruct s; [by destruct Hl|done]).
  rewrite (split_last l Hne) in Hv, Hok. apply Forall_app in Hok as [Hok1 Hok2].
  rewrite Forall_singleton in Hok2.
  destruct (Z.eqb_spec (verhoeff_check_digit (removelast l)) (List.last l 0)) as [He|]; [|done].
  by apply (check_digit_verifies _ _ Hok1 Hok2) in He.
Qed.

Lemma parse_checked s m : parse_manual_code s = Ok m →
  Forall (λ b, is_ascii_digit b = true) s ∧ (zlen s = 11 ∨ zlen s = 21) ∧
  verhoeff_loop (reverse (map (λ b, b - 48) s)) 0 0 = 0.
Proof.
  intros H. assert (Hs : Forall (λ b, is_ascii_digit b = true) s ∧ (zlen s = 11 ∨ zlen s = 21)).
  { unfold parse_manual_code in H. destruct (negb _ && negb _) eqn:Hl; [done|].
    destruct (digits_of s) as [l|e| |] eqn:Hd; try done. split; [by eapply digits_of_inv|].
    apply andb_false_iff in Hl. by rewrite !negb_false_iff, !Z.eqb_eq in Hl. }
  destruct Hs as [Hs Hl]. split_and!; [done|done|].
  destruct (decide (verhoeff_loop (reverse (map (λ b, b - 48) s)) 0 0 = 0)) as [|Hv]; [done|].
  rewrite parse_check in H by done. done.
Qed.

(** The two classic typing errors. *)
Inductive typo : bytes → bytes → Prop :=
  | Substituted pre x y post : x ≠ y → is_ascii_digit y = true →
      typo (pre ++ x :: post) (pre ++ y :: post)
  | Transposed pre x y post : x ≠ y → typo (pre ++ x :: y :: post) (pre ++ y :: x :: post).

Lemma reverse_mid {A} (a c : list A) x : reverse (a ++ x :: c) = reverse c ++ x :: reverse a.
Proof. by rewrite reverse_app, reverse_cons, <- app_assoc. Qed.

Lemma typo_detected s s' : typo s s' → Forall (λ b, is_ascii_digit b = true) s →
  Forall (λ b, is_ascii_digit b = true) s' ∧ zlen s' = zlen s ∧
  verhoeff_loop (reverse (map (λ b, b - 48) s)) 0 0 ≠
  verhoeff_loop (reverse (map (λ b, b - 48) s')) 0 0.
Proof.
  intros [pre x y post Hne Hy|pre x y post Hne] Hs.
  - assert (Hs' : Forall (λ b, is_ascii_digit b = true) (pre ++ y :: post)).
    { rewrite !Forall_app, !Forall_cons in *. naive_solver. }
    split_and!; [done|by zl|]. destruct (digits_of_ok _ Hs) as [_ Hd].
    destruct (digits_of_ok _ Hs') as [_ Hd']. rewrite !map_app in *. cbn [map] in *.
    rewrite !Forall_app, !Forall_cons in Hd, Hd'.
    rewrite !reverse_mid.
    destruct_and!. apply loop_substitution; rewrite ?Forall_reverse; done || lia.
  - assert (Hs' : Forall (λ b, is_ascii_digit b = true) (pre ++ y :: x :: post)).
    { rewrite !Forall_app, !Forall_cons in *. naive_solver. }
    split_and!; [done|by zl|]. destruct (digits_of_ok _ Hs) as [_ Hd].
    rewrite !map_app in *. cbn [map] in *. rewrite !Forall_app, !Forall_cons in Hd.
    rewrite !reverse_mid, !reverse_cons, <- !app_assoc. cbn [app].
    destruct_and!. apply loop_transposition; rewrite ?Forall_reverse; done || lia.
Qed.

(** ** Fixed-width decimals *)

Fixpoint digits_n (n : nat) (z : Z) : list Z :=
  match n with O => [] | S n => digits_n n (z / 10) ++ [z mod 10] end.

Lemma length_digits_n n z : length (digits_n n z) = n.
Proof. revert z. induction n as [|n IH]; intros z; cbn; [done|]. rewrite length_app, IH. cbn. lia. Qed.

Lemma zlen_digits_n n z : zlen (digits_n n z) = Z.of_nat n.
Proof. unfold zlen. by rewrite length_digits_n. Qed.

Lemma digits_n_0 n : digits_n n 0 = replicate n 0.
Proof.
  induction n as [|n IH]; [done|]. cbn [digits_n]. change (0 / 10) with 0. rewrite IH.
  change [0 mod 10] with (replicate 1 0). rewrite <- replicate_add. f_equal. lia.
Qed.

Lemma decimal_digits fuel n z : 0 ≤ z < 10 ^ Z.of_nat n → (0 < n ≤ fuel)%nat →
  (length (decimal fuel z) ≤ n)%nat ∧
  replicate (n - length (decimal fuel z)) 0 ++ decimal fuel z = digits_n n z.
Proof.
  revert n z. induction fuel as [|fuel IH]; intros n z Hz Hn; [lia|]. cbn [decimal].
  destruct n as [|n]; [lia|]. rewrite Nat2Z.inj_succ, Z.pow_succ_r in Hz by lia.
  destruct (Z.ltb_spec z 10).
  - cbn [length digits_n]. split; [lia|]. rewrite Z.div_small, Z.mod_small, digits_n_0 by lia.
    do 2 f_equal. lia.
  - destruct n as [|n]; [cbn in Hz; lia|].
    destruct (IH (S n) (z / 10)) as [Hl Hd].
    { split; [apply Z.div_pos; lia|apply Z.div_lt_upper_bound; lia]. }
    { lia. }
    rewrite length_app. cbn [length]. split; [lia|]. change (digits_n (S (S n)) z) with
      (digits_n (S n) (z / 10) ++ [z mod 10]). rewrite <- Hd, <- app_assoc. do 2 f_equal. lia.
Qed.

Lemma fmt_pad_digits n z : 0 ≤ z < 10 ^ Z.of_nat n → (0 < n ≤ 10)%nat → fmt_pad n z = digits_n n z.
Proof. intros Hz Hn. by apply decimal_digits. Qed.

Lemma digits_n_ok n z : 0 ≤ z → digits_ok (digits_n n z).
Proof.
  revert z. induction n as [|n IH]; intros z Hz; cbn [digits_n]; [constructor|].
  apply Forall_app. split; [by apply IH, Z.div_pos|]. apply Forall_singleton.
  apply Z.mod_pos_bound. lia.
Qed.

Lemma digits_to_u32_n n z : 0 ≤ z < 10 ^ Z.of_nat n → digits_to_u32 (digits_n n z) = z.
Proof.
  unfold digits_to_u32. revert z. induction n as [|n IH]; intros z Hz; [cbn in *; lia|].
  rewrite Nat2Z.inj_succ, Z.pow_succ_r in Hz by lia.
  cbn [digits_n]. rewrite foldl_app. cbn [foldl]. rewrite IH.
  - rewrite (Z.div_mod z 10) at 3 by lia. lia.
  - split; [apply Z.div_pos; lia|apply Z.div_lt_upper_bound; lia].
Qed.

(** ** The manual code round trip *)

Definition manual_digits (pass disc : Z) : list Z :=
  digits_n 1 (disc / 4) ++ digits_n 5 (disc mod 4 * 2 ^ 14 + pass mod 2 ^ 14) ++
  digits_n 4 (pass / 2 ^ 14).

Lemma manual_digits_ok pass disc : 0 ≤ pass → 0 ≤ disc → digits_ok (manual_digits pass disc).
Proof.
  intros Hp Hd. pose proof (Z.mod_pos_bound disc 4 ltac:(lia)).
  pose proof (Z.mod_pos_bound pass (2 ^ 14) ltac:(lia)).
  unfold manual_digits. apply Forall_app. split; [|apply Forall_app; split];
    apply digits_n_ok; [by apply Z.div_pos|lia|by apply Z.div_pos].
Qed.

Lemma map_sub_add l : map (λ b, b - 48) (map (Z.add 48) l) = l.
Proof.
  induction l as [|d l IH]; [done|]. cbn [map]. rewrite IH. f_equal. lia.
Qed.

Lemma ascii_digits l : digits_ok l → Forall (λ b, is_ascii_digit b = true) (map (Z.add 48) l).
Proof.
  induction 1 as [|d l Hd Hl IH]; cbn [map]; constructor; [|done].
  unfold is_ascii_digit, digit in *. lia.
Qed.

Lemma encode_manual_ok pass disc : 0 ≤ pass ≤ 99999998 → 0 ≤ disc ≤ 15 →
  encode_manual_code pass disc =
  Ok (map (Z.add 48) (manual_digits pass disc ++
      [verhoeff_check_digit (manual_digits pass disc)])).
Proof.
  intros Hp Hd. unfold encode_manual_code.
  destruct (Z.leb_spec pass 99999998); [|lia]. destruct (Z.leb_spec disc 0xF); [|lia]. cbn [negb].
  change 0x3FFF with (Z.ones 14). change 0x3 with (Z.ones 2). rewrite !Z.land_ones by lia.
  pose proof (Z.mod_pos_bound pass (2 ^ 14) ltac:(lia)).
  rewrite !Z.shiftr_div_pow2, Z.lor_comm, lor_shift by lia.
  assert (0 ≤ disc / 4 < 4) by (split; [apply Z.div_pos|apply Z.div_lt_upper_bound]; lia).
  assert (0 ≤ pass / 2 ^ 14 < 10 ^ 4) by (split; [apply Z.div_pos|apply Z.div_lt_upper_bound]; lia).
  pose proof (Z.mod_pos_bound disc (2 ^ 2) ltac:(lia)).
  change (2 ^ 2) with 4 in *.
  rewrite (fmt_pad_digits 1), (fmt_pad_digits 5), (fmt_pad_digits 4) by first [lia | cbn; lia].
  replace (pass mod 2 ^ 14 + disc mod 4 * 2 ^ 14) with (disc mod 4 * 2 ^ 14 + pass mod 2 ^ 14) by lia.
  fold (manual_digits pass disc). set (l := manual_digits pass disc).
  assert (Hl : digits_ok l) by (apply manual_digits_ok; lia).
  destruct (digits_of_ok _ (ascii_digits l Hl)) as [-> _]. rewrite map_sub_add.
  assert (Hc : digit (verhoeff_check_digit l)).
  { apply inv_digit, loop_digit; [by apply Forall_reverse|done]. }
  unfold digit in Hc. rewrite (fmt_pad_digits 1) by first [lia | cbn; lia]. rewrite map_app.
  do 3 f_equal. cbn. by rewrite Z.mod_small.
Qed.

Lemma manual_ranges pass disc : 0 ≤ pass ≤ 99999998 → 0 ≤ disc ≤ 15 →
  0 ≤ disc / 4 < 4 ∧ 0 ≤ pass / 2 ^ 14 < 10 ^ 4 ∧ 0 ≤ disc mod 4 < 4 ∧
  0 ≤ pass mod 2 ^ 14 < 2 ^ 14.
Proof.
  intros Hp Hd. split_and!; try (apply Z.div_pos; lia); try (apply Z.div_lt_upper_bound; lia);
    apply Z.mod_pos_bound; lia.
Qed.

(** The three fields [parse_manual_code] slices out. *)
Lemma manual_slices pass disc c : 0 ≤ pass ≤ 99999998 → 0 ≤ disc ≤ 15 →
  nth 0 (manual_digits pass disc ++ [c]) 0 = disc / 4 ∧
  digits_to_u32 (zslice 1 6 (manual_digits pass disc ++ [c])) =
    disc mod 4 * 2 ^ 14 + pass mod 2 ^ 14 ∧
  digits_to_u32 (zslice 6 10 (manual_digits pass disc ++ [c])) = pass / 2 ^ 14.
Proof.
  intros Hp Hd. destruct (manual_ranges pass disc Hp Hd) as (H1 & H2 & H3 & H4).
  split; [cbn [manual_digits digits_n app nth]; apply Z.mod_small; lia|].
  unfold manual_digits. rewrite <- !app_assoc.
  pose proof (zslice_app_mid (digits_n 1 (disc / 4))
    (digits_n 5 (disc mod 4 * 2 ^ 14 + pass mod 2 ^ 14)) (digits_n 4 (pass / 2 ^ 14) ++ [c])) as Hs1.
  pose proof (zslice_app_mid (digits_n 1 (disc / 4) ++ digits_n 5 (disc mod 4 * 2 ^ 14 + pass mod 2 ^ 14))
    (digits_n 4 (pass / 2 ^ 14)) [c]) as Hs2.
  rewrite <- app_assoc in Hs2.
  rewrite !zlen_digits_n in Hs1. rewrite !zlen_app, !zlen_digits_n in Hs2.
  change (Z.of_nat 1 + Z.of_nat 5 + Z.of_nat 4) with 10 in Hs2.
  change (Z.of_nat 1 + Z.of_nat 5) with 6 in Hs1, Hs2. change (Z.of_nat 1) with 1 in Hs1.
  rewrite Hs1, Hs2, !digits_to_u32_n by (cbn; lia). done.
Qed.

(** Reassembling the passcode and the discriminator from them. *)
Lemma manual_bits pass disc : 0 ≤ pass ≤ 99999998 → 0 ≤ disc ≤ 15 →
  let f := disc mod 4 * 2 ^ 14 + pass mod 2 ^ 14 in
  Z.shiftr (disc / 4) 2 = 0 ∧
  Z.lor (Z.shiftl (pass / 2 ^ 14) 14) (Z.land f 0x3FFF) = pass ∧
  Z.lor (Z.shiftl (Z.land (disc / 4) 0x3) 2) (Z.land (Z.shiftr f 14) 0x3) = disc.
Proof.
  intros Hp Hd f. destruct (manual_ranges pass disc Hp Hd) as (H1 & H2 & H3 & H4).
  unfold f. change 0x3FFF with (Z.ones 14). change 0x3 with (Z.ones 2).
  rewrite !Z.land_ones, !Z.shiftr_div_pow2, (Z.div_small (disc / 4)) by lia.
  rewrite (Z.add_comm (disc mod 4 * 2 ^ 14)), Z.div_add, Z.mod_add by lia.
  rewrite (Z.div_small (pass mod 2 ^ 14)), Z.mod_mod, Z.add_0_l by lia.
  change (2 ^ 2) with 4. rewrite (Z.mod_mod disc), (Z.mod_small (disc / 4)) by lia.
  rewrite (Z.lor_comm (Z.shiftl (pass / 2 ^ 14) 14)), (Z.lor_comm (Z.shiftl (disc / 4) 2)).
  rewrite !lor_shift by lia. change (2 ^ 2) with 4. split_and!; [done| |].
  - rewrite (Z.div_mod pass (2 ^ 14)) at 3 by lia. lia.
  - rewrite (Z.div_mod disc 4) at 3 by lia. lia.
Qed.

Lemma parse_manual_ok pass disc : 1 ≤ pass ≤ 99999998 → 0 ≤ disc ≤ 15 →
  parse_manual_code (map (Z.add 48) (manual_digits pass disc ++
      [verhoeff_check_digit (manual_digits pass disc)])) =
  Ok {| mc_passcode := pass; short_discriminator := disc |}.
Proof.
  intros Hp Hd. set (l := manual_digits pass disc).
  destruct (manual_ranges pass disc) as (Hr & _); [lia|done|].
  destruct (manual_slices pass disc (verhoeff_check_digit l)) as (H0 & H1 & H2); [lia|done|].
  destruct (manual_bits pass disc) as (Hb0 & Hb1 & Hb2); [lia|done|].
  assert (Hl : digits_ok l) by (apply manual_digits_ok; lia).
  assert (Hc : digit (verhoeff_check_digit l)).
  { apply inv_digit, loop_digit; [by apply Forall_reverse|done]. }
  assert (Hall : digits_ok (l ++ [verhoeff_check_digit l])) by (apply Forall_app; by rewrite Forall_singleton).
  unfold parse_manual_code.
  assert (Hz : zlen (map (Z.add 48) (l ++ [verhoeff_check_digit l])) = 11).
  { unfold zlen. rewrite length_map, length_app. unfold l, manual_digits.
    by rewrite !length_app, !length_digits_n. }
  rewrite Hz. cbn [Z.eqb Pos.eqb negb andb].
  destruct (digits_of_ok _ (ascii_digits _ Hall)) as [-> _]. rewrite map_sub_add. cbn [res_bind].
  rewrite removelast_last, last_last, Z.eqb_refl. cbn [negb].
  fold l in H0, H1, H2. rewrite H0, H1, H2, Hb0, Hb1, Hb2. destruct (Z.ltb_spec 7 (disc / 4)); [lia|].
  cbn [Z.eqb Bool.eqb negb].
  destruct (Z.eqb_spec pass 0); [lia|]. by destruct (Z.ltb_spec 99999998 pass); [lia|].
Qed.

(** ** Properties *)

(** The base38 codec is a bijection between byte strings and the strings
    it accepts: decoding inverts encoding, and every accepted string is the
    encoding of what it decodes to, so a payload has exactly one accepted
    spelling. *)
Theorem base38_bijection :
  (∀ b, bytes_ok b → base38_decode (base38_encode b) = Ok b) ∧
  (∀ s b, base38_decode s = Ok b → base38_encode b = s ∧ bytes_ok b).
Proof.
  split; [exact base38_decode_encode|]. intros s b. unfold base38_decode.
  destruct (is_ascii s); [|done]. cbn [negb].
  case_bool_decide as Ht; [|done]. cbn [negb].
  destruct (decode_groups (length s / 5) s) as [g|e| |] eqn:Hg; try done. cbn [res_bind].
  destruct (decode_tail _) as [l|e| |] eqn:Hl; try done. cbn [res_bind]. intros [= <-].
  eapply groups_inv; [|exact Ht|exact Hg|exact Hl].
  rewrite Nat.mul_comm. apply Nat.div_mod. lia.
Qed.

(** A packed payload, with anything after it, parses back. *)
Lemma qr_parses p e : wf_payload p → passcode p ≠ 0 → bytes_ok e →
  parse_qr (QR_PREFIX ++ base38_encode (le_bytes PAYLOAD_BYTES (packed p) ++ e)) = Ok p.
Proof.
  intros Hp Hpass He. unfold parse_qr, strip_prefix. rewrite take_app_length, drop_app_length.
  rewrite decide_True by done. cbn [ok_or res_bind].
  rewrite base38_decode_encode by (apply Forall_app; auto with mat). cbn [res_bind].
  rewrite zlen_app, zlen_le_bytes. pose proof (zlen_nonneg e).
  destruct (Z.ltb_spec (Z.of_nat PAYLOAD_BYTES + zlen e) (Z.of_nat PAYLOAD_BYTES)); [lia|].
  rewrite unpack_packed by done. by destruct (Z.eqb_spec (passcode p) 0).
Qed.

(**  Every setup payload whose fields fit their widths and whose passcode is
    not zero survives the QR round trip, with optional TLV data after it ignored;
    [parse_qr] does not check the passcode's Matter maximum that
    [parse_manual_code] enforces, so passcodes above 99,999,998 are accepted. *)
Theorem qr_round_trip (p : SetupPayload) (extra : bytes) :
  wf_payload p → passcode p ≠ 0 → bytes_ok extra →
  ∃ s b, pack_payload p = Ok b ∧ encode_qr p = Ok s ∧ parse_qr s = Ok p ∧
    parse_qr (QR_PREFIX ++ base38_encode (b ++ extra)) = Ok p.
Proof.
  intros Hp Hpass Hex. destruct (pack_payload_ok p Hp) as [Hpack _].
  exists (QR_PREFIX ++ base38_encode (le_bytes PAYLOAD_BYTES (packed p))),
    (le_bytes PAYLOAD_BYTES (packed p)).
  split_and!; [done|by unfold encode_qr; rewrite Hpack| |by apply qr_parses].
  pose proof (qr_parses p [] Hp Hpass bytes_ok_nil) as H. by rewrite app_nil_r in H.
Qed.

Lemma qr_round_trip_witness :
  ∃ s b, pack_payload {| version := 0; pl_vendor_id := 0xFFF1; product_id := 0x8000; custom_flow := 0;
      discovery_capabilities := 4; discriminator := 3840; passcode := 100000000 |} = Ok b ∧
    encode_qr {| version := 0; pl_vendor_id := 0xFFF1; product_id := 0x8000; custom_flow := 0;
      discovery_capabilities := 4; discriminator := 3840; passcode := 100000000 |} = Ok s ∧
    parse_qr s = Ok {| version := 0; pl_vendor_id := 0xFFF1; product_id := 0x8000; custom_flow := 0;
      discovery_capabilities := 4; discriminator := 3840; passcode := 100000000 |} ∧
    parse_qr (QR_PREFIX ++ base38_encode (b ++ [0x15; 0x18])) =
      Ok {| version := 0; pl_vendor_id := 0xFFF1; product_id := 0x8000; custom_flow := 0;
        discovery_capabilities := 4; discriminator := 3840; passcode := 100000000 |}.
Proof.
  apply (qr_round_trip {| version := 0; pl_vendor_id := 0xFFF1; product_id := 0x8000; custom_flow := 0;
    discovery_capabilities := 4; discriminator := 3840; passcode := 100000000 |} [0x15; 0x18]).
  - unfold wf_payload, in_u. cbn. lia.
  - done.
  - rewrite !Forall_cons. unfold is_byte. split_and!; lia || constructor.
Defined.

(**  A manual pairing code of a valid passcode and short discriminator is an
    11-digit string that parses back to exactly them; out-of-domain arguments
    make the encoder panic. *)
Theorem manual_code_round_trip (pass disc : Z) :
  1 ≤ pass → 0 ≤ disc →
  if bool_decide (pass ≤ 99999998 ∧ disc ≤ 15) then
    ∃ s, encode_manual_code pass disc = Ok s ∧ zlen s = 11 ∧
      parse_manual_code s = Ok {| mc_passcode := pass; short_discriminator := disc |}
  else encode_manual_code pass disc = Panic.
Proof.
  intros Hp Hd. case_bool_decide as Hok.
  - eexists. split_and!; [apply encode_manual_ok; lia| |apply parse_manual_ok; lia].
    unfold zlen. rewrite length_map, length_app. unfold manual_digits.
    by rewrite !length_app, !length_digits_n.
  - unfold encode_manual_code. destruct (Z.leb_spec pass 99999998); [|done]. cbn [negb].
    destruct (Z.leb_spec disc 0xF); [lia|done].
Qed.

Lemma manual_code_round_trip_witness :
  ∃ s, encode_manual_code 20202021 15 = Ok s ∧ zlen s = 11 ∧
    parse_manual_code s = Ok {| mc_passcode := 20202021; short_discriminator := 15 |}.
Proof. apply (manual_code_round_trip 20202021 15); lia. Defined.

(**  Any single wrong digit and any swap of two different adjacent digits in
    an accepted manual code (11 or 21 digits, check digit included) is refused
    with [BadCheckDigit]. *)
Theorem manual_code_detects_typos (s s' : bytes) (m : ManualCode) :
  parse_manual_code s = Ok m → typo s s' → parse_manual_code s' = Err BadCheckDigit.
Proof.
  intros Hm Ht. destruct (parse_checked s m Hm) as (Hs & Hl & Hv).
  destruct (typo_detected s s' Ht Hs) as (Hs' & Hl' & Hne).
  apply parse_check; [done|by rewrite Hl'|congruence].
Qed.

Lemma manual_code_detects_typos_witness :
  parse_manual_code [52; 51; 57; 55; 48; 49; 49; 50; 51; 51; 50] = Err BadCheckDigit.
Proof.
  apply (manual_code_detects_typos [51; 52; 57; 55; 48; 49; 49; 50; 51; 51; 50] _
    {| mc_passcode := 20202021; short_discriminator := 15 |}); [by vm_compute|].
  by apply (Transposed [] 51 52 [57; 55; 48; 49; 49; 50; 51; 51; 50]).
Defined.
