(* ===== verification/Btp.v ===== *)
(** * BTP: message transport over Bluetooth LE

    Models [crates/mat-controller/src/btp.rs]: the handshake and packet codecs,
    the [Reassembler], and the session actor ([process_incoming],
    [send_message], [run_session]) with its sequence numbers, acknowledgements
    and send window.

    The GATT link is a record of what was written; what the actor receives
    while it waits for the window to open is a script of [Indication]s, and
    [run_session]'s select loop is the step relation [session_step]. *)

From Stdlib Require Import String.
From S2P Require Import Prelude.

(** ** Packets *)

Definition FLAG_B : Z := 0x01.
Definition FLAG_E : Z := 0x04.
Definition FLAG_A : Z := 0x08.
Definition FLAG_M : Z := 0x20.
Definition FLAG_H : Z := 0x40.
Definition MGMT_OPCODE_HANDSHAKE : Z := 0x6C.
Definition BTP_VERSION : Z := 4.

Inductive BtpError :=
  | Handshake (msg : string)
  | Protocol (msg : string)
  | Closed
  | BtpTimeout (msg : string)
  | Gatt (msg : string).

Record BtpParams := { bp_version : Z; segment_size : Z; window_size : Z }.

Definition handshake_flags : Z := Z.lor (Z.lor (Z.lor FLAG_H FLAG_M) FLAG_B) FLAG_E.

Definition handshake_request (window : Z) : bytes :=
  [handshake_flags; MGMT_OPCODE_HANDSHAKE; BTP_VERSION; 0; 0; 0; 0; 0; window].

Definition byte_at (b : bytes) (i : nat) : Z := nth i b 0.

Definition decode_handshake_response (buf : bytes) : res BtpError BtpParams :=
  if zlen buf <? 6 then Err (Handshake "short handshake response")
  else if negb (byte_at buf 0 =? handshake_flags) || negb (byte_at buf 1 =? MGMT_OPCODE_HANDSHAKE)
  then Err (Handshake "not a handshake response")
  else
    let version := byte_at buf 2 in
    if negb (version =? BTP_VERSION) then Err (Handshake "unsupported btp version") else
    let segment_size := le_val [byte_at buf 3; byte_at buf 4] in
    if segment_size <? 20 then Err (Handshake "segment size too small") else
    let window_size := byte_at buf 5 in
    if window_size =? 0 then Err (Handshake "zero window") else
    Ok {| bp_version := version; segment_size := segment_size; window_size := window_size |}.

Inductive SegmentPos :=
  | First (ending : bool)
  | Middle
  | Last.

Definition data_flags (ack : option Z) (position : SegmentPos) : Z :=
  let flags := match position with
               | First ending => Z.lor FLAG_B (if ending then FLAG_E else 0)
               | Middle => 0
               | Last => FLAG_E
               end in
  match ack with Some _ => Z.lor flags FLAG_A | None => flags end.

Definition encode_data_packet (seq : Z) (ack : option Z) (position : SegmentPos)
    (msg_len : option Z) (payload : bytes) : bytes :=
  [data_flags ack position] ++
  (match ack with Some a => [a] | None => [] end) ++ [seq] ++
  (match msg_len with Some len => le_bytes 2 len | None => [] end) ++ payload.

Definition encode_standalone_ack (seq ack : Z) : bytes := [FLAG_A; ack; seq].

Definition segment_payload_capacity (segment_size : Z) (first with_ack : bool) : Z :=
  let header := 1 + (if with_ack then 1 else 0) + 1 + (if first then 2 else 0) in
  saturating_sub segment_size header.

Record Packet := {
  beginning : bool;
  ending : bool;
  pkt_ack : option Z;
  pkt_seq : Z;
  msg_len : option Z;
  pkt_payload : bytes
}.

Definition flag (flags bit : Z) : bool := negb (Z.land flags bit =? 0).

Definition Packet_decode (buf : bytes) : res BtpError Packet :=
  match buf with
  | [] => Err (Protocol "empty packet")
  | flags :: b =>
      if flag flags FLAG_H then Err (Protocol "unexpected handshake packet") else
      let? (ack, b) :=
        (if flag flags FLAG_A then
           match b with [] => Err (Protocol "truncated ack") | a :: b => Ok (Some a, b) end
         else Ok (None, b)) in
      let? (seq, b) :=
        (match b with [] => Err (Protocol "truncated seq") | s :: b => Ok (s, b) end) in
      let? (len, b) :=
        (if flag flags FLAG_B then
           match b with
           | x :: y :: b => Ok (Some (le_val [x; y]), b)
           | _ => Err (Protocol "truncated len")
           end
         else Ok (None, b)) in
      Ok {| beginning := flag flags FLAG_B; ending := flag flags FLAG_E; pkt_ack := ack;
            pkt_seq := seq; msg_len := len; pkt_payload := b |}
  end.

(** ** Reassembly *)

Record Reassembler := { ra_buf : bytes; ra_expected : option Z }.

Definition Reassembler_new : Reassembler := {| ra_buf := []; ra_expected := None |}.

Definition reassembler_push (pkt : Packet) : M Reassembler BtpError (option bytes) :=
  let! r := get in
  let append : M Reassembler BtpError (option bytes) :=
    let! r := get in
    match ra_expected r with
    | None => panic
    | Some expected =>
        let buf := ra_buf r ++ pkt_payload pkt in
        if expected <? zlen buf then
          modify (λ _, {| ra_buf := buf; ra_expected := None |}) ;;!
          throw (Protocol "message longer than declared")
        else if ending pkt then
          if negb (zlen buf =? expected) then
            modify (λ _, {| ra_buf := buf; ra_expected := None |}) ;;!
            throw (Protocol "message length mismatch")
          else
            modify (λ _, {| ra_buf := []; ra_expected := None |}) ;;!
            ret (Some buf)
        else
          modify (λ _, {| ra_buf := buf; ra_expected := Some expected |}) ;;!
          ret None
    end in
  if beginning pkt then
    match ra_expected r with
    | Some _ => throw (Protocol "beginning segment mid-message")
    | None =>
        match msg_len pkt with
        | None => throw (Protocol "no msg_len")
        | Some len =>
            modify (λ _, {| ra_buf := []; ra_expected := Some len |}) ;;! append
        end
    end
  else
    match ra_expected r with
    | None =>
        match pkt_payload pkt with
        | [] => ret None
        | _ => throw (Protocol "continuation without beginning")
        end
    | Some _ => append
    end.

(** ** The session *)

Definition PROPOSED_WINDOW : Z := 6.
Definition ACK_TIMEOUT : Z := 15000.

Record SessionState := {
  tx_seq : Z;
  peer_acked : Z;
  unacked : Z;
  last_rx_seq : Z;
  pending_ack : bool;
  reasm : Reassembler;
  last_ack_progress : Z;
  segs_since_ack : Z
}.

Definition SessionState_new (now : Z) : SessionState :=
  {| tx_seq := 0; peer_acked := wrap 8 (0 - 1); unacked := 0; last_rx_seq := 0;
     pending_ack := false; reasm := Reassembler_new; last_ack_progress := now;
     segs_since_ack := 0 |}.

(** The actor: its state, the clock, what it wrote to the link and handed to
    the application, and whether the two channels are still open. *)
Record Actor := {
  ac_st : SessionState;
  ac_now : Z;
  ac_writes : list bytes;
  ac_delivered : list bytes;
  ac_link_open : bool;
  ac_app_open : bool
}.

Abbreviation AM := (M Actor BtpError).

Definition set_st (f : SessionState → SessionState) (a : Actor) : Actor :=
  {| ac_st := f (ac_st a); ac_now := ac_now a; ac_writes := ac_writes a;
     ac_delivered := ac_delivered a; ac_link_open := ac_link_open a;
     ac_app_open := ac_app_open a |}.
Definition set_now (now : Z) (a : Actor) : Actor :=
  {| ac_st := ac_st a; ac_now := now; ac_writes := ac_writes a;
     ac_delivered := ac_delivered a; ac_link_open := ac_link_open a;
     ac_app_open := ac_app_open a |}.

(** [link.writes.send(frame).await.map_err(|_| Closed)?]. *)
Definition write_frame (frame : bytes) : AM () :=
  let! a := get in
  if ac_link_open a then
    modify (λ a, {| ac_st := ac_st a; ac_now := ac_now a; ac_writes := ac_writes a ++ [frame];
      ac_delivered := ac_delivered a; ac_link_open := ac_link_open a;
      ac_app_open := ac_app_open a |})
  else throw Closed.

(** [in_tx.send(msg).await]. *)
Definition deliver (msg : bytes) : AM () :=
  let! a := get in
  if ac_app_open a then
    modify (λ a, {| ac_st := ac_st a; ac_now := ac_now a; ac_writes := ac_writes a;
      ac_delivered := ac_delivered a ++ [msg]; ac_link_open := ac_link_open a;
      ac_app_open := ac_app_open a |})
  else throw Closed.

(** The bookkeeping of [process_incoming] before reassembly. *)
Definition rx_ack (now a : Z) (newly : Z) (st : SessionState) : SessionState :=
  {| tx_seq := tx_seq st; peer_acked := a; unacked := unacked st - newly;
     last_rx_seq := last_rx_seq st; pending_ack := pending_ack st; reasm := reasm st;
     last_ack_progress := if 0 <? newly then now else last_ack_progress st;
     segs_since_ack := segs_since_ack st |}.
Definition rx_seq (s : Z) (payload : bytes) (st : SessionState) : SessionState :=
  {| tx_seq := tx_seq st; peer_acked := peer_acked st; unacked := unacked st;
     last_rx_seq := s; pending_ack := true; reasm := reasm st;
     last_ack_progress := last_ack_progress st;
     segs_since_ack := match payload with
                       | [] => segs_since_ack st
                       | _ => saturating_add 8 (segs_since_ack st) 1
                       end |}.
Definition set_reasm (r : Reassembler) (st : SessionState) : SessionState :=
  {| tx_seq := tx_seq st; peer_acked := peer_acked st; unacked := unacked st;
     last_rx_seq := last_rx_seq st; pending_ack := pending_ack st; reasm := r;
     last_ack_progress := last_ack_progress st; segs_since_ack := segs_since_ack st |}.

Definition process_incoming (pkt : Packet) : AM (option bytes) :=
  let! a := get in
  (match pkt_ack pkt with
   | Some k =>
       let newly := wrap 8 (k - peer_acked (ac_st a)) in
       if unacked (ac_st a) <? newly then throw (Protocol "ack for unsent frame")
       else modify (set_st (rx_ack (ac_now a) k newly))
   | None => ret ()
   end) ;;!
  let! a := get in
  if negb (pkt_seq pkt =? wrap 8 (last_rx_seq (ac_st a) + 1))
  then throw (Protocol "out-of-order seq")
  else
    modify (set_st (rx_seq (pkt_seq pkt) (pkt_payload pkt))) ;;!
    let! a := get in
    let (r, o) := reassembler_push pkt (reasm (ac_st a)) in
    modify (set_st (set_reasm r)) ;;! lift o.

(** Taking the next sequence number, with or without paying the owed ack. *)
Definition tx_frame (acking : bool) (st : SessionState) : SessionState :=
  {| tx_seq := wrap 8 (tx_seq st + 1); peer_acked := peer_acked st;
     unacked := saturating_add 8 (unacked st) 1; last_rx_seq := last_rx_seq st;
     pending_ack := if acking then false else pending_ack st; reasm := reasm st;
     last_ack_progress := last_ack_progress st;
     segs_since_ack := if acking then 0 else segs_since_ack st |}.

Definition send_standalone : AM () :=
  let! a := get in
  let seq := tx_seq (ac_st a) in
  modify (set_st (tx_frame true)) ;;!
  write_frame (encode_standalone_ack seq (last_rx_seq (ac_st a))).

Definition maybe_send_proactive_ack (params : BtpParams) : AM () :=
  let! a := get in
  let st := ac_st a in
  let threshold := Z.max 1 (window_size params / 2) in
  if pending_ack st && (threshold <=? segs_since_ack st) && (unacked st <? window_size params)
  then send_standalone else ret ().

(** What [link.indications.recv()] sees under a timeout. *)
Inductive Indication :=
  | Frame (now : Z) (frame : bytes)
  | LinkClosed
  | NoFrame.

(** [while st.unacked >= params.window_size { .. }]; a script that has ended
    stays silent, so the wait times out. *)
Fixpoint wait_window (params : BtpParams) (inds : list Indication) : AM (list Indication) :=
  let! a := get in
  if unacked (ac_st a) <? window_size params then ret inds else
  match inds with
  | [] | NoFrame :: _ => throw (BtpTimeout "window ack")
  | LinkClosed :: _ => throw Closed
  | Frame now frame :: rest =>
      modify (set_now now) ;;!
      let! pkt := lift (Packet_decode frame) in
      let! o := process_incoming pkt in
      (match o with
       | Some m =>
           deliver m ;;!
           let! a := get in
           if unacked (ac_st a) <? window_size params then send_standalone else ret ()
       | None => maybe_send_proactive_ack params
       end) ;;!
      wait_window params rest
  end.

(** One frame of [send_message]: the bytes from [off]; returns the new offset. *)
Definition send_segment (params : BtpParams) (msg : bytes) (off : Z) (first : bool) : AM Z :=
  let! a := get in
  let st := ac_st a in
  let with_ack := pending_ack st && first in
  let cap := segment_payload_capacity (segment_size params) first with_ack in
  let e := Z.min (off + cap) (zlen msg) in
  let ending := e =? zlen msg in
  let pos := if first then First ending else if ending then Last else Middle in
  modify (set_st (tx_frame with_ack)) ;;!
  write_frame (encode_data_packet (tx_seq st) (if with_ack then Some (last_rx_seq st) else None) pos
    (if first then Some (wrap 16 (zlen msg)) else None) (zslice off e msg)) ;;!
  ret e.

Fixpoint send_loop (fuel : nat) (params : BtpParams) (msg : bytes) (off : Z) (first : bool)
    (inds : list Indication) : AM (list Indication) :=
  if negb first && (zlen msg <=? off) then ret inds else
  match fuel with
  | O => out_of_fuel
  | S fuel =>
      let! inds := wait_window params inds in
      let! off := send_segment params msg off first in
      send_loop fuel params msg off false inds
  end.

(** Every segment but possibly the first carries at least one byte (segment
    sizes below 20 are refused by the handshake), so [2 + length msg] steps are
    enough. *)
Definition send_message (params : BtpParams) (msg : bytes) (inds : list Indication) :
    AM (list Indication) :=
  if 65535 <? zlen msg then throw (Protocol "message too long for btp")
  else send_loop (2 + length msg) params msg 0 true inds.

(** [run_session]'s branches; [None] when the loop breaks. *)
Definition on_indication (params : BtpParams) (frame : bytes) : AM () :=
  let! pkt := lift (Packet_decode frame) in
  let! o := process_incoming pkt in
  match o with
  | Some m => deliver m
  | None => maybe_send_proactive_ack params
  end.

Definition on_keepalive (params : BtpParams) : AM () :=
  let! a := get in
  let st := ac_st a in
  if (0 <? unacked st) && (ACK_TIMEOUT <=? ac_now a - last_ack_progress st) then throw Closed
  else if pending_ack st && (unacked st <? window_size params) then send_standalone
  else ret ().

(** Frames and messages are [Vec<u8>]s. *)
Definition ind_ok (i : Indication) : Prop :=
  match i with Frame _ frame => bytes_ok frame | _ => True end.

(** The select loop: each branch that returns normally continues the session
    (a failing branch ends it). The channels may close at any time. *)
Inductive session_step (params : BtpParams) : Actor → Actor → Prop :=
  | step_indication a now frame a' :
      bytes_ok frame →
      on_indication params frame (set_now now a) = (a', Ok ()) →
      session_step params a a'
  | step_send a now msg inds rest a' :
      bytes_ok msg → Forall ind_ok inds →
      send_message params msg inds (set_now now a) = (a', Ok rest) →
      session_step params a a'
  | step_keepalive a now a' :
      on_keepalive params (set_now now a) = (a', Ok ()) →
      session_step params a a'
  | step_close a link app :
      session_step params a
        {| ac_st := ac_st a; ac_now := ac_now a; ac_writes := ac_writes a;
           ac_delivered := ac_delivered a; ac_link_open := link && ac_link_open a;
           ac_app_open := app && ac_app_open a |}.

Definition session_start (now : Z) : Actor :=
  {| ac_st := SessionState_new now; ac_now := now; ac_writes := []; ac_delivered := [];
     ac_link_open := true; ac_app_open := true |}.

Inductive reachable (params : BtpParams) : Actor → Prop :=
  | reach_start now : reachable params (session_start now)
  | reach_step a a' : reachable params a → session_step params a a' → reachable params a'.

(** The receiving side of a link: every frame decoded and pushed, the
    completed messages collected. *)
Fixpoint reassemble (frames : list bytes) : M Reassembler BtpError (list bytes) :=
  match frames with
  | [] => ret []
  | f :: rest =>
      let! pkt := lift (Packet_decode f) in
      let! o := reassembler_push pkt in
      let! ms := reassemble rest in
      ret (match o with Some m => m :: ms | None => ms end)
  end.

(** ** What the handshake guarantees *)

Definition params_ok (p : BtpParams) : Prop :=
  20 ≤ segment_size p < 2 ^ 16 ∧ 1 ≤ window_size p < 2 ^ 8.

(** Declared length and buffer of the reassembler. *)
Definition reasm_ok (r : Reassembler) : Prop :=
  match ra_expected r with
  | Some e => zlen (ra_buf r) ≤ e < 2 ^ 16
  | None => True
  end.

Definition state_ok (p : BtpParams) (st : SessionState) : Prop :=
  is_byte (tx_seq st) ∧ is_byte (peer_acked st) ∧ is_byte (last_rx_seq st) ∧
  unacked st = wrap 8 (tx_seq st - 1 - peer_acked st) ∧
  unacked st ≤ window_size p ∧ reasm_ok (reasm st).

(** The frame written at position [i] of the session: it decodes, carries the
    sequence number [i] modulo 256 and fits a segment. *)
Definition frame_ok (p : BtpParams) (i : nat) (f : bytes) : Prop :=
  zlen f ≤ segment_size p ∧
  ∃ pkt, Packet_decode f = Ok pkt ∧ pkt_seq pkt = wrap 8 (Z.of_nat i).

Definition session_ok (p : BtpParams) (a : Actor) : Prop :=
  state_ok p (ac_st a) ∧
  tx_seq (ac_st a) = wrap 8 (zlen (ac_writes a)) ∧
  (∀ i f, ac_writes a !! i = Some f → frame_ok p i f) ∧
  Forall (λ m, zlen m < 2 ^ 16) (ac_delivered a).

Lemma handshake_params_ok buf p :
  bytes_ok buf → decode_handshake_response buf = Ok p → params_ok p.
Proof.
  intros Hb. unfold decode_handshake_response.
  assert (Hn : ∀ i, is_byte (byte_at buf i)).
  { intros i. unfold byte_at. destruct (decide (i < length buf)%nat) as [Hi|Hi].
    - apply (proj1 (List.Forall_forall is_byte buf) Hb). by apply nth_In.
    - rewrite nth_overflow by lia. unfold is_byte. lia. }
  pose proof (Hn 3%nat). pose proof (Hn 4%nat). pose proof (Hn 5%nat). unfold is_byte in *.
  repeat case_match; intros [= <-]; unfold params_ok; cbn in *; lia.
Qed.

(** ** Frames decode to what was sent *)

Lemma data_flags_bits ack pos :
  flag (data_flags ack pos) FLAG_H = false ∧
  flag (data_flags ack pos) FLAG_A = bool_decide (is_Some ack) ∧
  flag (data_flags ack pos) FLAG_B = match pos with First _ => true | _ => false end ∧
  flag (data_flags ack pos) FLAG_E = match pos with First e => e | Middle => false | Last => true end.
Proof. destruct ack, pos as [[]| |]; done. Qed.

(** [msg_len] is given exactly for a first segment (the [debug_assert!]). *)
Definition len_matches (pos : SegmentPos) (len : option Z) : Prop :=
  match pos, len with First _, Some n => in_u 16 n | First _, None => False
  | _, None => True | _, Some _ => False end.

Lemma packet_round_trip seq ack pos len payload :
  len_matches pos len →
  Packet_decode (encode_data_packet seq ack pos len payload) =
  Ok {| beginning := match pos with First _ => true | _ => false end;
        ending := match pos with First e => e | Middle => false | Last => true end;
        pkt_ack := ack; pkt_seq := seq; msg_len := len; pkt_payload := payload |}.
Proof.
  intros Hl. unfold encode_data_packet, Packet_decode. cbn [app].
  destruct (data_flags_bits ack pos) as (-> & -> & -> & ->).
  assert (Hn : ∀ n, in_u 16 n → le_val [n mod 256; n / 256 mod 256] = n)
    by (intros n; exact (le_val_bytes_small 2 n)).
  destruct ack, pos, len; try done; cbn [app res_bind le_bytes];
    rewrite ?bool_decide_eq_true_2, ?bool_decide_eq_false_2 by (try done; by intros [? ?]);
    cbn [res_bind]; rewrite ?Hn by done; done.
Qed.

(** ** Every operation keeps the session invariant *)

Section session.
Context (p : BtpParams) (Hp : params_ok p).

Lemma Packet_decode_bytes f pkt :
  bytes_ok f → Packet_decode f = Ok pkt →
  from_option is_byte True (pkt_ack pkt) ∧ is_byte (pkt_seq pkt) ∧
  from_option (in_u 16) True (msg_len pkt) ∧ (beginning pkt = true → is_Some (msg_len pkt)).
Proof.
  intros Hf. assert (Hle : ∀ x y, is_byte x → is_byte y → in_u 16 (le_val [x; y])).
  { intros x y Hx Hy. apply (le_val_bound [x; y]).
    constructor; auto with mat. }
  destruct Hf as [|flags b _ Hb]; [done|]. unfold Packet_decode.
  destruct (flag flags FLAG_H); [done|].
  destruct (flag flags FLAG_A), (flag flags FLAG_B); cbn;
    repeat (match goal with
            | H : bytes_ok ?b |- context [match ?b with _ => _ end] =>
                destruct H; cbn; try done
            end);
    intros [= <-]; cbn; naive_solver.
Qed.

Lemma Packet_decode_returns f : returns (Packet_decode f).
Proof.
  destruct f as [|flags b]; [done|]. cbn.
  repeat (case_match; cbn; try done).
Qed.

Lemma reassembler_push_wp pkt r :
  (beginning pkt = true → ∃ n, msg_len pkt = Some n ∧ in_u 16 n) → reasm_ok r →
  wp (reassembler_push pkt)
     (λ o r', reasm_ok r' ∧ from_option (λ m, zlen m < 2 ^ 16) True o) (λ _ _, True) r.
Proof.
  intros Hlen Hr. unfold reasm_ok, wp, reassembler_push, bind, get, modify, throw, ret, in_u in *.
  destruct (beginning pkt).
  - destruct (ra_expected r); [done|]. destruct Hlen as (n & -> & Hn); [done|]. cbn.
    repeat (case_match; simplify_eq/=); cbn; split; try done; try lia.
  - destruct (ra_expected r) as [n|] eqn:E; [|destruct (pkt_payload pkt); cbn; by rewrite ?E].
    cbn. rewrite E. repeat (case_match; simplify_eq/=); cbn; split; try done; try lia.
Qed.

Lemma state_ok_set_st a f :
  session_ok p a → state_ok p (f (ac_st a)) → tx_seq (f (ac_st a)) = tx_seq (ac_st a) →
  session_ok p (set_st f a).
Proof. unfold session_ok, set_st; cbn. intros (? & ? & ? & ?) ? ->. auto. Qed.

Lemma unacked_bounds st : state_ok p st → 0 ≤ unacked st < 256.
Proof. intros (_ & _ & _ & -> & _). pose proof (wrap_in_u 8). unfold in_u in *. naive_solver lia. Qed.

Lemma mod_sub_small x k q :
  (k - q) mod 256 ≤ (x - q) mod 256 → (x - k) mod 256 = (x - q) mod 256 - (k - q) mod 256.
Proof.
  intros H. symmetry. apply (Z.mod_unique _ _ ((x - q) / 256 - (k - q) / 256)).
  - pose proof (Z.mod_pos_bound (x - q) 256). pose proof (Z.mod_pos_bound (k - q) 256). lia.
  - pose proof (Z.div_mod (x - q) 256). pose proof (Z.div_mod (k - q) 256). lia.
Qed.

(** An acknowledgement of a frame in flight shrinks the window's use. *)
Lemma rx_ack_ok st k now :
  state_ok p st → is_byte k → wrap 8 (k - peer_acked st) ≤ unacked st →
  state_ok p (rx_ack now k (wrap 8 (k - peer_acked st)) st).
Proof.
  intros (Htx & Hpa & Hrx & Hun & Hw & Hr) Hk Hn.
  unfold state_ok, rx_ack; cbn. split_and!; try done.
  - rewrite Hun in Hn |- *. clear Hun Hw. unfold wrap, is_byte in *.
    change (2 ^ 8) with 256 in *.
    symmetry. apply (mod_sub_small (tx_seq st - 1) k (peer_acked st)); done.
  - pose proof (wrap_in_u 8 (k - peer_acked st)). unfold in_u in *. lia.
Qed.

Lemma process_incoming_wp pkt a :
  session_ok p a →
  from_option is_byte True (pkt_ack pkt) → is_byte (pkt_seq pkt) →
  (beginning pkt = true → ∃ n, msg_len pkt = Some n ∧ in_u 16 n) →
  wp (process_incoming pkt)
     (λ o a', session_ok p a' ∧ from_option (λ m, zlen m < 2 ^ 16) True o ∧
       ac_writes a' = ac_writes a)
     (λ _ _, True) a.
Proof.
  intros Ha Hk Hs Hlen. unfold process_incoming. apply wp_bind.
  unfold wp at 1, get. apply wp_bind.
  eapply (wp_mono _ (λ _ a', session_ok p a' ∧ ac_writes a' = ac_writes a) _ (λ _ _, True)); [| |done].
  { destruct (pkt_ack pkt) as [k|]; [|done]. case_match; [done|]. split; [|done].
    apply state_ok_set_st; try done. apply rx_ack_ok; [apply Ha|done|lia]. }
  clear Ha. intros _ a1 [Ha <-]. clear a. rename a1 into a. apply wp_bind. unfold wp at 1, get.
  destruct (negb (pkt_seq pkt =? wrap 8 (last_rx_seq (ac_st a) + 1))); [done|].
  pose proof (reassembler_push_wp pkt (reasm (ac_st a)) Hlen) as Hr.
  destruct Ha as (Hst & Ha'). pose proof Hst as (? & ? & ? & ? & ? & Hrk).
  specialize (Hr Hrk). unfold wp, bind, modify, get, lift in *.
  cbn [ac_st set_st reasm rx_seq].
  destruct (reassembler_push pkt (reasm (ac_st a))) as [r' [o|e| |]]; cbn; try done.
  destruct Hr as [Hr Ho]. split; [|done].
  apply (state_ok_set_st (set_st (rx_seq (pkt_seq pkt) (pkt_payload pkt)) a)); try done.
Qed.

(** Writing a frame that carries the next sequence number. *)
Lemma write_next_wp (acking : bool) frame a :
  session_ok p a → unacked (ac_st a) < window_size p →
  (∀ n, tx_seq (ac_st a) = wrap 8 (Z.of_nat n) → frame_ok p n frame) →
  wp (modify (set_st (tx_frame acking)) ;;! write_frame frame)
     (λ _ a', session_ok p a' ∧ ac_writes a' = ac_writes a ++ [frame] ∧
       ac_st a' = tx_frame acking (ac_st a)) (λ _ _, True) a.
Proof.
  intros (Hst & Htx & Hfr & Hd) Hu Hf.
  pose proof (unacked_bounds _ Hst) as Hub. destruct Hp as [_ Hw].
  unfold wp, bind, modify, write_frame, get, throw. cbn.
  destruct (ac_link_open a); cbn; [|done]. split; [|done].
  unfold session_ok; cbn. split_and!; try done.
  - destruct Hst as (H1 & H2 & H3 & H4 & H5 & H6). unfold state_ok, tx_frame; cbn.
    split_and!; try done; [by apply (wrap_in_u 8)| |unfold saturating_add; lia].
    unfold saturating_add. rewrite H4 in *. unfold wrap in *. change (2 ^ 8) with 256 in *.
    rewrite Z.min_l by lia. apply (Z.mod_unique _ _ ((tx_seq (ac_st a) - 1 - peer_acked (ac_st a)) / 256
      - (tx_seq (ac_st a) + 1) / 256)); [lia|].
    pose proof (Z.div_mod (tx_seq (ac_st a) - 1 - peer_acked (ac_st a)) 256).
    pose proof (Z.div_mod (tx_seq (ac_st a) + 1) 256). lia.
  - rewrite Htx. unfold wrap. rewrite Zplus_mod_idemp_l. f_equal. zl.
  - intros i f. rewrite lookup_app_Some.
    intros [?|[Hi Hl]]; [by apply Hfr|].
    apply list_lookup_singleton_Some in Hl as [Hi' <-]. apply Hf. rewrite Htx.
    unfold zlen. do 2 f_equal. lia.
Qed.

Lemma standalone_frame_ok seq ack n :
  is_byte seq → seq = wrap 8 (Z.of_nat n) → frame_ok p n (encode_standalone_ack seq ack).
Proof.
  intros _ ->. split.
  - destruct Hp. unfold encode_standalone_ack. zl.
  - eexists. by split.
Qed.

Lemma send_standalone_wp a :
  session_ok p a → unacked (ac_st a) < window_size p →
  wp send_standalone (λ _ a', session_ok p a' ∧
    ∃ seq ack, ac_writes a' = ac_writes a ++ [encode_standalone_ack seq ack]) (λ _ _, True) a.
Proof.
  intros Ha Hu. unfold send_standalone. apply wp_bind. unfold wp at 1, get.
  eapply wp_mono; [apply write_next_wp; try done| |done].
  - intros n Hn. apply standalone_frame_ok; [apply Ha|done].
  - cbn. intros _ a' (Ha' & Hw & _). split; [done|]. eauto.
Qed.

(** ** Acknowledgement frames and the wait for the window *)

Definition is_ack_frame (f : bytes) : Prop := ∃ s k, f = encode_standalone_ack s k.

(** [a'] continues [a], having written only acknowledgements. *)
Definition only_acks (a a' : Actor) : Prop :=
  ∃ fs, ac_writes a' = ac_writes a ++ fs ∧ Forall is_ack_frame fs.

Lemma only_acks_same a a' : ac_writes a' = ac_writes a → only_acks a a'.
Proof. intros H. exists []. by rewrite app_nil_r. Qed.

Lemma only_acks_trans a b c : only_acks a b → only_acks b c → only_acks a c.
Proof.
  intros (f1 & H1 & A1) (f2 & H2 & A2). exists (f1 ++ f2). rewrite H2, H1, <- app_assoc.
  split; [done|]. by apply Forall_app.
Qed.

Definition keeps_session (a : Actor) {A} (_ : A) (a' : Actor) : Prop :=
  session_ok p a' ∧ only_acks a a'.

Lemma send_standalone_keeps a :
  session_ok p a → unacked (ac_st a) < window_size p →
  wp send_standalone (keeps_session a) (λ _ _, True) a.
Proof.
  intros Ha Hu. eapply wp_mono; [by apply send_standalone_wp| |done].
  intros ? a' (? & s & k & Hw). split; [done|]. exists [encode_standalone_ack s k].
  split; [done|]. constructor; [by eexists _, _|done].
Qed.

Lemma proactive_ack_keeps a :
  session_ok p a → wp (maybe_send_proactive_ack p) (keeps_session a) (λ _ _, True) a.
Proof.
  intros Ha. apply wp_bind. unfold wp at 1, get.
  destruct (unacked (ac_st a) <? window_size p) eqn:Hu.
  - case_match; [apply send_standalone_keeps; [done|lia]|].
    split; [done|by apply only_acks_same].
  - rewrite andb_false_r. split; [done|by apply only_acks_same].
Qed.

Lemma deliver_keeps m a :
  session_ok p a → zlen m < 2 ^ 16 → wp (deliver m) (keeps_session a) (λ _ _, True) a.
Proof.
  intros (? & ? & ? & Hd) Hm. apply wp_bind. unfold wp at 1, get.
  case_match; [|done]. split; [|by apply only_acks_same].
  unfold session_ok; cbn. split_and!; try done. apply Forall_app. split; [done|].
  by apply Forall_singleton.
Qed.

(** Chaining two steps that keep the session. *)
Lemma keeps_bind {A B} (m : AM A) (k : A → AM B) a Q :
  wp m (keeps_session a) (λ _ _, True) a →
  (∀ x a1, session_ok p a1 → only_acks a a1 → wp (k x) Q (λ _ _, True) a1) →
  wp (bind m k) Q (λ _ _, True) a.
Proof.
  intros Hm Hk. apply wp_bind. eapply wp_mono; [exact Hm|intros ? ? []; by apply Hk|done].
Qed.

Lemma keeps_trans {A} (m : AM A) a a1 :
  wp m (keeps_session a1) (λ _ _, True) a1 → only_acks a a1 →
  wp m (keeps_session a) (λ _ _, True) a1.
Proof.
  intros Hm H1. eapply wp_mono; [exact Hm| |done].
  intros x a2 [? ?]. split; [done|]. by eapply only_acks_trans.
Qed.

Lemma decode_process_keeps f a :
  session_ok p a → bytes_ok f →
  wp (let! pkt := lift (Packet_decode f) in process_incoming pkt)
     (λ o a', keeps_session a o a' ∧ from_option (λ m, zlen m < 2 ^ 16) True o) (λ _ _, True) a.
Proof.
  intros Ha Hf. unfold wp, bind, lift.
  pose proof (Packet_decode_returns f) as Hret.
  destruct (Packet_decode f) as [pkt|e| |] eqn:Hd; try done.
  destruct (Packet_decode_bytes _ _ Hf Hd) as (H1 & H2 & H3 & H4).
  eapply wp_mono; [apply process_incoming_wp; try done| |done].
  - intros Hb. destruct (H4 Hb) as [n Hn]. exists n. rewrite Hn in H3 |- *. done.
  - intros o a' (? & ? & ?). split; [|done]. split; [done|by apply only_acks_same].
Qed.

(** Receiving a frame, whatever is done with a completed message. *)
Lemma receive_wp {B} f a (k : option bytes → AM B) Q :
  session_ok p a → bytes_ok f →
  (∀ o a1, session_ok p a1 → only_acks a a1 → from_option (λ m, zlen m < 2 ^ 16) True o →
    wp (k o) Q (λ _ _, True) a1) →
  wp (let! pkt := lift (Packet_decode f) in let! o := process_incoming pkt in k o)
     Q (λ _ _, True) a.
Proof.
  intros Ha Hf Hk.
  assert (wp (let! o := (let! pkt := lift (Packet_decode f) in process_incoming pkt) in k o)
     Q (λ _ _, True) a) as H.
  { apply wp_bind. eapply wp_mono; [by apply decode_process_keeps| |done].
    intros o a1 [[? ?] ?]. auto. }
  revert H. unfold wp, bind, lift. by destruct (Packet_decode f).
Qed.

(** The acknowledgement policy of the window wait. *)
Lemma wait_ack_keeps o a :
  session_ok p a → from_option (λ m, zlen m < 2 ^ 16) True o →
  wp (match o with
      | Some m =>
          deliver m ;;!
          let! a := get in
          if unacked (ac_st a) <? window_size p then send_standalone else ret ()
      | None => maybe_send_proactive_ack p
      end) (keeps_session a) (λ _ _, True) a.
Proof.
  intros Ha Ho. destruct o as [m|]; [|by apply proactive_ack_keeps].
  apply keeps_bind; [by apply deliver_keeps|]. intros _ a1 Ha1 H1.
  apply wp_bind. unfold wp at 1, get. case_match.
  - apply keeps_trans; [|done]. apply send_standalone_keeps; [done|lia].
  - by split.
Qed.

Lemma wait_window_keeps inds a :
  session_ok p a → Forall ind_ok inds →
  wp (wait_window p inds)
     (λ rest a', keeps_session a rest a' ∧ Forall ind_ok rest ∧ unacked (ac_st a') < window_size p)
     (λ _ _, True) a.
Proof.
  intros Ha Hi. revert a Ha. induction Hi as [|i inds Hi Hinds IH]; intros a Ha; cbn [wait_window];
    apply wp_bind; unfold wp at 1, get; destruct (Z.ltb_spec (unacked (ac_st a)) (window_size p)).
  1, 3: split_and!; auto; by split; [|apply only_acks_same].
  { done. }
  destruct i as [now f| |]; [|done|done].
  apply wp_bind. unfold wp at 1, modify.
  apply (receive_wp f (set_now now a)); [done|done|]. intros o a1 Ha1 H1 Ho.
  apply keeps_bind; [by apply wait_ack_keeps|]. intros _ a2 Ha2 H2.
  eapply wp_mono; [by apply IH| |done].
  intros rest a3 [[Ha3 H3] Hr]. split; [|done]. split; [done|].
  exact (only_acks_trans (set_now now a) _ _ H1 (only_acks_trans _ _ _ H2 H3)).
Qed.

(** ** Segments reassemble to the message *)

Definition rx_at (msg : bytes) (off : Z) (first : bool) (r : Reassembler) : Prop :=
  if first then ra_expected r = None
  else r = {| ra_buf := zslice 0 off msg; ra_expected := Some (zlen msg) |}.

Definition segment_end (msg : bytes) (off cap : Z) : Z := Z.min (off + cap) (zlen msg).
Definition segment_pos (msg : bytes) (e : Z) (first : bool) : SegmentPos :=
  let ending := e =? zlen msg in
  if first then First ending else if ending then Last else Middle.

Definition segment_frame (seq : Z) (ack : option Z) (msg : bytes) (off e : Z) (first : bool) :=
  encode_data_packet seq ack (segment_pos msg e first)
    (if first then Some (wrap 16 (zlen msg)) else None) (zslice off e msg).

Lemma segment_decodes seq ack msg off e first :
  zlen msg < 2 ^ 16 →
  ∃ pkt, Packet_decode (segment_frame seq ack msg off e first) = Ok pkt ∧
    pkt_seq pkt = seq ∧ beginning pkt = first ∧ ending pkt = (e =? zlen msg) ∧
    msg_len pkt = (if first then Some (zlen msg) else None) ∧ pkt_payload pkt = zslice off e msg.
Proof.
  intros Hl. pose proof (zlen_nonneg msg). unfold segment_frame.
  rewrite (wrap_small 16) by (unfold in_u; lia).
  rewrite packet_round_trip.
  - eexists; split; [done|]. unfold segment_pos. destruct first, (e =? zlen msg); done.
  - unfold segment_pos, len_matches, in_u. destruct first, (e =? zlen msg); done || lia.
Qed.

Lemma push_segment pkt msg off e first r :
  zlen msg < 2 ^ 16 → 0 ≤ off ≤ e → e ≤ zlen msg → (first = true → off = 0) →
  rx_at msg off first r →
  beginning pkt = first → ending pkt = (e =? zlen msg) →
  msg_len pkt = (if first then Some (zlen msg) else None) →
  pkt_payload pkt = zslice off e msg →
  ∃ r', reassembler_push pkt r = (r', Ok (if e =? zlen msg then Some msg else None)) ∧
    if e =? zlen msg then ra_expected r' = None else rx_at msg e false r'.
Proof.
  intros Hl Ho He H0 Hr Hb Hend Hlen Hpay.
  unfold reassembler_push, bind, get, modify, ret, throw.
  assert (Hbuf : zslice 0 off msg ++ zslice off e msg = zslice 0 e msg) by (apply zslice_extend; lia).
  pose proof (zlen_zslice_0 msg e ltac:(lia)) as Hz.
  assert (zlen msg <? e = false) as Hlt by lia.
  rewrite Hb, Hend, Hlen, Hpay. destruct first; cbn [rx_at] in Hr.
  - rewrite Hr. cbn. rewrite (H0 eq_refl), Hz, Hlt. clear Hend Hlt.
    destruct (Z.eqb_spec e (zlen msg)) as [->|]; cbn;
      (eexists; split; [by rewrite ?zslice_full|done]).
  - rewrite Hr. cbn. rewrite Hbuf, Hz, Hlt. clear Hend Hlt.
    destruct (Z.eqb_spec e (zlen msg)) as [->|]; cbn;
      (eexists; split; [by rewrite ?zslice_full|done]).
Qed.

Lemma push_ack s k r :
  (∀ e, ra_expected r = Some e → zlen (ra_buf r) ≤ e) →
  ∃ pkt, Packet_decode (encode_standalone_ack s k) = Ok pkt ∧ reassembler_push pkt r = (r, Ok None).
Proof.
  intros Hr. eexists. split; [reflexivity|].
  destruct r as [buf [e|]]; [|done].
  unfold reassembler_push, bind, get, modify, ret; cbn.
  change (flag FLAG_A FLAG_B) with false. change (flag FLAG_A FLAG_E) with false. cbn.
  specialize (Hr _ eq_refl). cbn in Hr. rewrite app_nil_r.
  by replace (e <? zlen buf) with false by lia.
Qed.

Lemma reassemble_acks fs r :
  Forall is_ack_frame fs → (∀ e, ra_expected r = Some e → zlen (ra_buf r) ≤ e) →
  reassemble fs r = (r, Ok []).
Proof.
  intros Hfs Hr. induction Hfs as [|f fs (s & k & ->) _ IH]; [done|].
  destruct (push_ack s k r Hr) as (pkt & Hd & Hpush). cbn [reassemble].
  rewrite Hd. by rewrite (bind_ok _ _ r r pkt eq_refl), (bind_ok _ _ _ _ _ Hpush), (bind_ok _ _ _ _ _ IH).
Qed.

Lemma reassemble_app fs gs r r1 r2 ms ns :
  reassemble fs r = (r1, Ok ms) → reassemble gs r1 = (r2, Ok ns) →
  reassemble (fs ++ gs) r = (r2, Ok (ms ++ ns)).
Proof.
  revert r ms. induction fs as [|f fs IH]; intros r ms; cbn [reassemble app].
  { intros [= <- <-]. done. }
  intros H Hg. apply bind_inv_ok in H as (s1 & pkt & Hd & H).
  apply bind_inv_ok in H as (s2 & o & Hp' & H).
  apply bind_inv_ok in H as (s3 & ms' & Hr & [= <- <-]).
  rewrite (bind_ok _ _ _ _ _ Hd), (bind_ok _ _ _ _ _ Hp'), (bind_ok _ _ _ _ _ (IH _ _ Hr Hg)).
  unfold ret. by destruct o.
Qed.
Lemma zlen_segment_frame seq ack msg off e first :
  0 ≤ off ≤ e → e ≤ zlen msg →
  zlen (segment_frame seq ack msg off e first) =
  2 + (if ack is Some _ then 1 else 0) + (if first then 2 else 0) + (e - off).
Proof.
  intros Ho He. unfold segment_frame, encode_data_packet.
  pose proof (zlen_zslice off e msg Ho He) as Hz.
  destruct ack, first; rewrite ?zlen_app, ?zlen_cons, ?zlen_le_bytes, ?zlen_nil, Hz; lia.
Qed.

(** One segment on the sending side: what it writes and what the receiver makes
    of it. *)
Lemma send_segment_wp msg off first a r :
  session_ok p a → unacked (ac_st a) < window_size p → zlen msg < 2 ^ 16 →
  0 ≤ off ≤ zlen msg → (first = true → off = 0) → (first = false → off < zlen msg) →
  rx_at msg off first r →
  wp (send_segment p msg off first)
     (λ e a', session_ok p a' ∧ ∃ f r', ac_writes a' = ac_writes a ++ [f] ∧
        off ≤ e ≤ zlen msg ∧ (e = zlen msg ∨ off < e) ∧
        reassemble [f] r = (r', Ok (if e =? zlen msg then [msg] else [])) ∧
        if e =? zlen msg then ra_expected r' = None else rx_at msg e false r')
     (λ _ _, True) a.
Proof.
  intros Ha Hu Hl Ho H0 Hf Hr. unfold send_segment. apply wp_bind. unfold wp at 1, get.
  set (acking := pending_ack (ac_st a) && first).
  set (cap := segment_payload_capacity (segment_size p) first acking).
  assert (Hcap : 15 ≤ cap ∧ cap + 5 - (if first then 0 else 2) - (if acking then 0 else 1) = segment_size p).
  { destruct Hp as [Hs _]. unfold cap, segment_payload_capacity, saturating_sub.
    destruct first, acking; lia. }
  set (e := Z.min (off + cap) (zlen msg)).
  assert (He : off ≤ e ≤ zlen msg ∧ (e = zlen msg ∨ off < e) ∧ e ≤ off + cap) by lia.
  clearbody e. destruct He as (He & Hprog & Hec).
  set (ack := if acking then Some (last_rx_seq (ac_st a)) else None).
  destruct (segment_decodes (tx_seq (ac_st a)) ack msg off e first Hl) as (pkt & Hd & Hs & Hb & Hend & Hml & Hpay).
  set (f := segment_frame (tx_seq (ac_st a)) ack msg off e first) in Hd.
  change (wp (modify (set_st (tx_frame acking)) ;;! (write_frame f ;;! ret e))
    (λ e a', session_ok p a' ∧ ∃ f r', ac_writes a' = ac_writes a ++ [f] ∧
        off ≤ e ≤ zlen msg ∧ (e = zlen msg ∨ off < e) ∧
        reassemble [f] r = (r', Ok (if e =? zlen msg then [msg] else [])) ∧
        if e =? zlen msg then ra_expected r' = None else rx_at msg e false r') (λ _ _, True) a).
  destruct (push_segment pkt msg off e first r Hl ltac:(lia) ltac:(lia) H0 Hr Hb Hend Hml Hpay)
    as (r' & Hpush & Hr').
  assert (Hre : reassemble [f] r = (r', Ok (if e =? zlen msg then [msg] else []))).
  { cbn [reassemble]. rewrite Hd. rewrite (bind_ok _ _ r r pkt eq_refl), (bind_ok _ _ _ _ _ Hpush).
    by destruct (e =? zlen msg). }
  assert (Hlen : zlen f ≤ segment_size p).
  { unfold f. rewrite zlen_segment_frame by lia. unfold ack. destruct first, acking; lia. }
  clearbody f.
  assert (Hfr : ∀ n, tx_seq (ac_st a) = wrap 8 (Z.of_nat n) → frame_ok p n f).
  { intros n Hn. split; [done|]. exists pkt. by rewrite Hs. }
  pose proof (write_next_wp acking f a Ha Hu Hfr) as Hw.
  unfold wp, bind, ret in Hw |- *. cbn -[write_frame] in Hw |- *.
  destruct (write_frame f (set_st (tx_frame acking) a)) as [a' [[]|er| |]]; try done.
  destruct Hw as (Hok & Hwr & _). split; [done|]. exists f, r'. done.
Qed.
(** The frames [a'] wrote after [a] carry exactly the message [msg]. *)
Definition transmits (msg : bytes) (r : Reassembler) (a a' : Actor) : Prop :=
  ∃ fs r', ac_writes a' = ac_writes a ++ fs ∧ reassemble fs r = (r', Ok [msg]) ∧
    ra_expected r' = None.

Lemma rx_at_open msg off first r e :
  0 ≤ off ≤ zlen msg → rx_at msg off first r → ra_expected r = Some e → zlen (ra_buf r) ≤ e.
Proof.
  intros Ho. destruct first; cbn; [congruence|]. intros -> [= <-]. cbn.
  rewrite zlen_zslice_0; lia.
Qed.

(** Frames before the end of the message, then the rest of it. *)
Lemma transmits_prefix msg r r1 a a1 a2 fs :
  ac_writes a1 = ac_writes a ++ fs → reassemble fs r = (r1, Ok []) →
  transmits msg r1 a1 a2 → transmits msg r a a2.
Proof.
  intros H1 Hr (gs & r' & H2 & Hg & He). exists (fs ++ gs), r'. split_and!; [|exact (reassemble_app _ _ _ _ _ _ _ Hr Hg)|done].
  by rewrite H2, H1, app_assoc.
Qed.

Lemma send_loop_done fuel msg off inds a :
  zlen msg ≤ off → send_loop fuel p msg off false inds a = (a, Ok inds).
Proof. intros H. destruct fuel; cbn; by replace (zlen msg <=? off) with true by lia. Qed.

Lemma send_loop_wp fuel msg off first inds a r :
  session_ok p a → Forall ind_ok inds → zlen msg < 2 ^ 16 →
  0 ≤ off ≤ zlen msg → (first = true → off = 0) → (first = false → off < zlen msg) →
  rx_at msg off first r → zlen msg - off < Z.of_nat fuel →
  wp (send_loop fuel p msg off first inds)
     (λ _ a', session_ok p a' ∧ transmits msg r a a') (λ _ _, True) a.
Proof.
  revert off first inds a r. induction fuel as [|fuel IH];
    intros off first inds a r Ha Hi Hl Ho H0 Hf Hr Hfuel; [lia|].
  cbn [send_loop]. replace (negb first && (zlen msg <=? off)) with false by (destruct first; [done|lia]).
  apply wp_bind. eapply wp_mono; [by apply wait_window_keeps| |done].
  intros inds1 a1 ((Ha1 & fs & Hw1 & Hacks) & Hi1 & Hu1).
  pose proof (reassemble_acks fs r Hacks (λ e, rx_at_open msg off first r e Ho Hr)) as Hre.
  apply wp_bind. eapply wp_mono; [by apply (send_segment_wp msg off first a1 r)| |done].
  intros e a2 (Ha2 & f & r' & Hw2 & He & Hprog & Hre2 & Hr').
  destruct (Z.eqb_spec e (zlen msg)) as [->|Hne].
  - unfold wp. rewrite send_loop_done by lia. split; [done|].
    apply (transmits_prefix _ _ r _ a1 _ fs); [done|done|]. by exists [f], r'.
  - eapply wp_mono; [apply (IH e false inds1 a2 r'); try done; lia| |done].
    intros rest a3 [Ha3 Ht]. split; [done|].
    apply (transmits_prefix _ _ r _ a1 _ fs); [done|done|].
    by apply (transmits_prefix _ _ r' _ a2 _ [f]).
Qed.

Lemma send_message_wp msg inds a r :
  session_ok p a → Forall ind_ok inds → ra_expected r = None →
  wp (send_message p msg inds) (λ _ a', session_ok p a' ∧ transmits msg r a a') (λ _ _, True) a.
Proof.
  intros Ha Hi Hr. unfold send_message. case_match; [done|].
  apply send_loop_wp; try done; unfold zlen in *; lia.
Qed.

Lemma on_indication_wp f a :
  session_ok p a → bytes_ok f →
  wp (on_indication p f) (λ _ a', session_ok p a') (λ _ _, True) a.
Proof.
  intros Ha Hf. apply receive_wp; try done. intros [m|] a1 Ha1 _ Hm.
  - eapply wp_mono; [by apply deliver_keeps|by intros ? ? []|done].
  - eapply wp_mono; [by apply proactive_ack_keeps|by intros ? ? []|done].
Qed.

Lemma on_keepalive_wp a :
  session_ok p a → wp (on_keepalive p) (λ _ a', session_ok p a') (λ _ _, True) a.
Proof.
  intros Ha. apply wp_bind. unfold wp at 1, get. case_match; [done|]. case_match; [|done].
  eapply wp_mono; [apply send_standalone_keeps; [done|lia]|by intros ? ? []|done].
Qed.

Lemma session_step_ok a a' : session_ok p a → session_step p a a' → session_ok p a'.
Proof.
  intros Ha. assert (Hnow : ∀ now, session_ok p (set_now now a)) by done.
  assert (Hwp : ∀ B (m : AM B) now x, wp m (λ _ a', session_ok p a') (λ _ _, True) (set_now now a) →
    m (set_now now a) = (a', Ok x) → session_ok p a').
  { unfold wp. intros B m now x Hm Hx. by rewrite Hx in Hm. }
  destruct 1 as [a now f a'|a now msg inds rest a'|a now a'|a].
  - eapply Hwp; [by apply on_indication_wp|done].
  - eapply Hwp; [|done]. eapply wp_mono; [by apply (send_message_wp _ _ _ Reassembler_new)| |done].
    by intros ? ? [].
  - eapply Hwp; [by apply on_keepalive_wp|done].
  - done.
Qed.

Lemma session_start_ok now : session_ok p (session_start now).
Proof.
  destruct Hp as [_ Hw]. unfold session_ok, state_ok, session_start; cbn.
  unfold is_byte. split_and!; try done; lia.
Qed.

Lemma reachable_ok a : reachable p a → session_ok p a.
Proof. induction 1; [apply session_start_ok|by eapply session_step_ok]. Qed.
End session.

(** ** When the window is open, sending succeeds *)

Lemma wait_window_open p inds a :
  unacked (ac_st a) < window_size p → wait_window p inds a = (a, Ok inds).
Proof.
  intros H. destruct inds; cbn; unfold bind, get;
    by replace (unacked (ac_st a) <? window_size p) with true by lia.
Qed.

Lemma send_segment_open p msg off first a :
  params_ok p → ac_link_open a = true → 0 ≤ unacked (ac_st a) < 255 →
  ∃ e a', send_segment p msg off first a = (a', Ok e) ∧
    (e = zlen msg ∨ off + (segment_size p - 5) ≤ e < zlen msg) ∧
    unacked (ac_st a') = unacked (ac_st a) + 1 ∧ ac_link_open a' = true.
Proof.
  intros [Hp _] Hopen Hu. unfold send_segment, bind, get, modify, write_frame, ret; cbn.
  rewrite Hopen. eexists _, _. split; [done|].
  split; [|by cbn; unfold saturating_add; split; [lia|]].
  unfold segment_payload_capacity, saturating_sub.
  destruct first, (pending_ack (ac_st a)); cbn; lia.
Qed.

Lemma send_loop_open p fuel msg off first inds a :
  params_ok p → ac_link_open a = true → (first = false → off < zlen msg) →
  0 ≤ unacked (ac_st a) < window_size p → zlen msg - off < Z.of_nat fuel →
  0 ≤ off ≤ zlen msg → zlen msg - off ≤ (window_size p - unacked (ac_st a)) * (segment_size p - 5) →
  ∃ a', send_loop fuel p msg off first inds a = (a', Ok inds).
Proof.
  intros Hp. revert off first a. induction fuel as [|fuel IH];
    intros off first a Hopen Hf Hu Hfuel Ho Hroom; [lia|].
  destruct (send_segment_open p msg off first a Hp Hopen) as (e & a1 & Hs & He & Hu1 & Hopen1).
  { destruct Hp. lia. }
  cbn [send_loop]. replace (negb first && (zlen msg <=? off)) with false by (destruct first; [done|lia]).
  rewrite (bind_ok _ _ _ _ _ (wait_window_open p inds a ltac:(lia))), (bind_ok _ _ _ _ _ Hs).
  destruct He as [->|He].
  { exists a1. apply send_loop_done. lia. }
  destruct Hp as [Hseg Hwin].
  assert (zlen msg - e ≤ (window_size p - unacked (ac_st a1)) * (segment_size p - 5)) by (rewrite Hu1; nia).
  apply IH; try done; try lia. split; nia.
Qed.

(** ** Properties *)

(** Runs used as witnesses: a small link and two short messages. *)
Definition demo_params : BtpParams := {| bp_version := 4; segment_size := 20; window_size := 2 |}.
Definition demo_msg : bytes := replicate 40 7.

(** Through every interleaving of indications, application sends, keepalive
    ticks and channel closures, a session whose parameters came from a
    handshake response keeps its window accounting exact: the frames counted
    as unacknowledged are the sequence numbers after the peer's last
    acknowledgement, never more than the negotiated window, so the
    saturating counter never saturates; the frames written decode to
    consecutive sequence numbers starting at 0 and none is longer than the
    negotiated segment size; and every message handed to the application fits
    the 16-bit length. *)
Theorem session_invariant resp p a :
  bytes_ok resp → decode_handshake_response resp = Ok p → reachable p a →
  let st := ac_st a in
  unacked st = (tx_seq st - 1 - peer_acked st) mod 256 ∧ unacked st ≤ window_size p ∧
  tx_seq st = zlen (ac_writes a) mod 256 ∧
  (∀ i f, ac_writes a !! i = Some f → zlen f ≤ segment_size p ∧
    ∃ pkt, Packet_decode f = Ok pkt ∧ pkt_seq pkt = Z.of_nat i mod 256) ∧
  Forall (λ m, zlen m < 2 ^ 16) (ac_delivered a).
Proof.
  intros Hb Hd Hr. pose proof (handshake_params_ok _ _ Hb Hd) as Hp.
  destruct (reachable_ok p Hp a Hr) as ((_ & _ & _ & Hun & Hw & _) & Htx & Hf & Hm). done.
Qed.

(** C31. A message sent over a link in any good state either fails with an error
    or puts on the link frames from which a receiver with no message in
    progress reassembles exactly that message, whatever acknowledgements and
    incoming messages are handled while the window is full. *)
Theorem send_message_reassembles p msg inds a r :
  params_ok p → session_ok p a → Forall ind_ok inds → ra_expected r = None →
  match send_message p msg inds a with
  | (a', Ok _) =>
      ∃ fs r', ac_writes a' = ac_writes a ++ fs ∧ reassemble fs r = (r', Ok [msg]) ∧
        ra_expected r' = None
  | (_, Err _) => True
  | _ => False
  end.
Proof.
  intros Hp Ha Hi Hr. pose proof (send_message_wp p Hp msg inds a r Ha Hi Hr) as H.
  unfold wp in H. destruct (send_message p msg inds a) as [a' [x|e| |]]; try done.
  apply H.
Qed.

(** Sending succeeds, without waiting for anything, when the link is open and
    the message fits in what is left of the peer's window (counting five header
    bytes per segment). *)
Theorem send_message_completes p msg inds a :
  params_ok p → ac_link_open a = true → zlen msg < 2 ^ 16 →
  0 ≤ unacked (ac_st a) < window_size p →
  zlen msg ≤ (window_size p - unacked (ac_st a)) * (segment_size p - 5) →
  ∃ a', send_message p msg inds a = (a', Ok inds).
Proof.
  intros Hp Hopen Hl Hu Hroom. unfold send_message.
  replace (65535 <? zlen msg) with false by lia.
  pose proof (zlen_nonneg msg). apply send_loop_open; try done; try lia; unfold zlen in *; lia.
Qed.

Lemma send_message_completes_witness :
  ∃ a', send_message demo_params (replicate 30 7) [] (session_start 0) = (a', Ok []).
Proof.
  apply (send_message_completes demo_params (replicate 30 7) [] (session_start 0));
    [by split|done|done|done|done].
Defined.

(** The peer acknowledges the first two frames while the message of 40 bytes
    is being sent through a window of two. *)
Lemma send_message_reassembles_witness :
  ∃ a', send_message demo_params demo_msg [Frame 5 [0x08; 0x01; 0x01]] (session_start 0)
      = (a', Ok []) ∧
    ∃ fs r', ac_writes a' = [] ++ fs ∧ reassemble fs Reassembler_new = (r', Ok [demo_msg]) ∧
      ra_expected r' = None.
Proof.
  pose proof (send_message_reassembles demo_params demo_msg [Frame 5 [0x08; 0x01; 0x01]]
    (session_start 0) Reassembler_new) as H.
  assert (Hp : params_ok demo_params) by (by split).
  specialize (H Hp (session_start_ok demo_params Hp 0)).
  destruct (send_message demo_params demo_msg [Frame 5 [0x08; 0x01; 0x01]] (session_start 0))
    as [a' o] eqn:E.
  assert (o = Ok []) as ->.
  { change o with (snd (a', o)). rewrite <- E. reflexivity. }
  exists a'. split; [done|]. apply H; [|done].
  constructor; [|constructor]. unfold ind_ok.
  repeat (apply Forall_cons; split; [unfold is_byte; lia|]). constructor.
Defined.

Lemma session_invariant_witness :
  let a := fst (send_message demo_params (replicate 30 7) [] (session_start 0)) in
  unacked (ac_st a) = 2 ∧ unacked (ac_st a) ≤ 2 ∧ tx_seq (ac_st a) = zlen (ac_writes a) mod 256.
Proof.
  pose proof (session_invariant [0x65; 0x6C; 4; 20; 0; 2] demo_params
    (fst (send_message demo_params (replicate 30 7) [] (session_start 0)))) as H.
  assert (Hb : bytes_ok [0x65; 0x6C; 4; 20; 0; 2]).
  { repeat (apply Forall_cons; split; [unfold is_byte; lia|]). constructor. }
  specialize (H Hb eq_refl).
  assert (Hr : reachable demo_params (fst (send_message demo_params (replicate 30 7) [] (session_start 0)))).
  { eapply reach_step; [apply (reach_start _ 0)|].
    apply (step_send _ _ 0 (replicate 30 7) [] []); [|done|reflexivity].
    apply Forall_replicate. unfold is_byte. lia. }
  destruct (H Hr) as (H1 & H2 & H3 & _). split_and!; [exact H1|exact H2|exact H3].
Defined.
