(* ===== verification/Handler.v ===== *)
(** * What a cluster implementation promises to the dispatcher

    Models the vocabulary shared by the device's data-model dispatcher and its
    clusters: the CASE authenticated tags
    ([crates/mat-controller/src/cert.rs]), the session's [Subject]
    ([core/access_control.rs]), the event and stimulus types
    ([core/events.rs], [core/stimulus.rs]), the per-request contexts and the
    [ClusterHandler] trait ([core/datamodel/mod.rs]).

    Handlers of one device share stores (the ACL, the fabric table) behind
    [Arc<Mutex<..>>], so a handler here is a record of operations on a world
    [W] that holds every handler's own state and the shared stores. *)

From Stdlib Require Import String.
From S2P Require Import Prelude Tlv TlvValue.

(** ** Status codes and attribute ids of [im/mod.rs] *)

Definition STATUS_SUCCESS : Z := 0x00.
Definition STATUS_FAILURE : Z := 0x01.
Definition STATUS_UNSUPPORTED_ACCESS : Z := 0x7E.
Definition STATUS_UNSUPPORTED_ENDPOINT : Z := 0x7F.
Definition STATUS_INVALID_ACTION : Z := 0x80.
Definition STATUS_UNSUPPORTED_COMMAND : Z := 0x81.
Definition STATUS_INVALID_COMMAND : Z := 0x85.
Definition STATUS_UNSUPPORTED_ATTRIBUTE : Z := 0x86.
Definition STATUS_CONSTRAINT_ERROR : Z := 0x87.
Definition STATUS_UNSUPPORTED_WRITE : Z := 0x88.
Definition STATUS_RESOURCE_EXHAUSTED : Z := 0x89.
Definition STATUS_NOT_FOUND : Z := 0x8B.
Definition STATUS_UNSUPPORTED_EVENT : Z := 0x8F.
Definition STATUS_UNSUPPORTED_CLUSTER : Z := 0xC3.
Definition ATTR_GENERATED_COMMAND_LIST : Z := 0xFFF8.
Definition ATTR_ACCEPTED_COMMAND_LIST : Z := 0xFFF9.
Definition ATTR_ATTRIBUTE_LIST : Z := 0xFFFB.
Definition ATTR_FEATURE_MAP : Z := 0xFFFC.
Definition ATTR_CLUSTER_REVISION : Z := 0xFFFD.

(** ** CASE authenticated tags ([cert.rs]) *)

Definition cat_identifier (cat : Z) : Z := wrap 16 (Z.shiftr cat 16).
Definition cat_version (cat : Z) : Z := wrap 16 (Z.land cat 0xFFFF).

(** [[u32; 3]], 0 in an empty slot. *)
Definition CaseAuthTags : Type := (Z * Z * Z)%type.
Definition CaseAuthTags_MAX : Z := 3.
Definition CaseAuthTags_default : CaseAuthTags := (0, 0, 0).
Definition cats_array (c : CaseAuthTags) : list Z := let '(x, y, z) := c in [x; y; z].

Fixpoint cats_valid (prev cats : list Z) : bool :=
  match cats with
  | [] => true
  | cat :: rest =>
      negb (cat_version cat =? 0) &&
      negb (existsb (λ p, cat_identifier p =? cat_identifier cat) prev) &&
      cats_valid (prev ++ [cat]) rest
  end.

Definition CaseAuthTags_new (cats : list Z) : option CaseAuthTags :=
  if CaseAuthTags_MAX <? zlen cats then None
  else if cats_valid [] cats then Some (nth 0 cats 0, nth 1 cats 0, nth 2 cats 0)
  else None.

Fixpoint take_while {A} (f : A → bool) (l : list A) : list A :=
  match l with [] => [] | x :: l => if f x then x :: take_while f l else [] end.

Definition cats_iter (c : CaseAuthTags) : list Z := take_while (λ c, negb (c =? 0)) (cats_array c).

(** ** The session's identity *)

Record Subject := { node_id : Z; cats : CaseAuthTags; sub_group_id : option Z }.

Definition Subject_new (node : Z) (c : CaseAuthTags) : Subject :=
  {| node_id := node; cats := c; sub_group_id := None |}.
Definition Subject_node (node : Z) : Subject := Subject_new node CaseAuthTags_default.
Definition Subject_group (g : Z) : Subject :=
  {| node_id := 0; cats := CaseAuthTags_default; sub_group_id := Some g |}.

(** ** Events and stimuli *)

Inductive EventPriority := Debug | Info | Critical.

Record EmittedEvent := { em_event : Z; em_priority : EventPriority; em_data : option bytes }.

Inductive PressKind := Short | Long | Multi (n : Z).
Inductive Stimulus := Press (k : PressKind) | SetState (b : bool).
Inductive StimulusReply := Applied | Unsupported | Rejected (reason : string).
Inductive StimulusError := UnknownEndpoint | StimulusUnsupported | StimulusRejected (reason : string).

(** ** Request contexts and replies *)

Record InvokeCtx := {
  attestation_challenge : bytes;
  ctx_changed : list Z;
  ctx_fabric : Z;
  ctx_subject : Subject;
  ctx_events : list EmittedEvent
}.

Record ReadCtx := { rc_fabric : Z; rc_filtered : bool; rc_subject : Subject }.

Inductive InvokeReply :=
  | RStatus (status : Z)
  | RClusterStatus (status cluster_status : Z)
  | RData (response_command : Z) (fields_tlv : bytes).

(** [ctx.changed.push(a)], [ctx.events.push(e)] and the two [clear]s. *)
Definition push_changed (a : Z) (c : InvokeCtx) : InvokeCtx :=
  {| attestation_challenge := attestation_challenge c; ctx_changed := ctx_changed c ++ [a];
     ctx_fabric := ctx_fabric c; ctx_subject := ctx_subject c; ctx_events := ctx_events c |}.
Definition push_event (e : EmittedEvent) (c : InvokeCtx) : InvokeCtx :=
  {| attestation_challenge := attestation_challenge c; ctx_changed := ctx_changed c;
     ctx_fabric := ctx_fabric c; ctx_subject := ctx_subject c; ctx_events := ctx_events c ++ [e] |}.
Definition clear_ctx (c : InvokeCtx) : InvokeCtx :=
  {| attestation_challenge := attestation_challenge c; ctx_changed := [];
     ctx_fabric := ctx_fabric c; ctx_subject := ctx_subject c; ctx_events := [] |}.

Definition PRIVILEGE_VIEW : Z := 1.
Definition PRIVILEGE_PROXY_VIEW : Z := 2.
Definition PRIVILEGE_OPERATE : Z := 3.
Definition PRIVILEGE_MANAGE : Z := 4.
Definition PRIVILEGE_ADMINISTER : Z := 5.

(** ** The trait

    A mutating operation sees the world and the context and returns both; a
    panic of the handler is the panic of the call. *)
Record ClusterHandler (W : Type) := {
  cluster_id : Z;
  attributes : list Z;
  h_read : W → Z → ReadCtx → fin (option bytes);
  h_invoke : Z → bytes → M (W * InvokeCtx) Empty_set InvokeReply;
  accepted_commands : list Z;
  generated_commands : list Z;
  h_write : Z → bytes → bool → M (W * InvokeCtx) Z ();
  feature_map : Z;
  revision : Z;
  read_privilege : Z → Z;
  write_privilege : Z → Z;
  invoke_privilege : Z → Z;
  events : list Z;
  event_privilege : Z → Z;
  h_stimulate : Stimulus → M (W * InvokeCtx) Empty_set StimulusReply
}.
Arguments cluster_id {W} c.
Arguments attributes {W} c.
Arguments h_read {W} c w a ctx.
Arguments h_invoke {W} c cmd fields.
Arguments accepted_commands {W} c.
Arguments generated_commands {W} c.
Arguments h_write {W} c a data append.
Arguments feature_map {W} c.
Arguments revision {W} c.
Arguments read_privilege {W} c a.
Arguments write_privilege {W} c a.
Arguments invoke_privilege {W} c cmd.
Arguments events {W} c.
Arguments event_privilege {W} c e.
Arguments h_stimulate {W} c s.

(** The trait's provided methods. *)
Section defaults.
Context {W : Type}.
Definition default_write (a : Z) (data : bytes) (append : bool) :
    M (W * InvokeCtx) Z () := throw STATUS_UNSUPPORTED_WRITE.
Definition default_stimulate (s : Stimulus) : M (W * InvokeCtx) Empty_set StimulusReply :=
  ret Unsupported.
End defaults.

(** ** Facts *)

Lemma cats_valid_nonzero p l : cats_valid p l = true → Forall (λ x, x ≠ 0) l.
Proof.
  revert p. induction l as [|x l IH]; intros p; cbn; [constructor|].
  rewrite !andb_true_iff. intros [[Hv _] Hr]. constructor; [|by eapply IH].
  intros ->. done.
Qed.

(** The tags a NOC was parsed into are the ones the ACL iterates over. *)
Lemma cats_iter_new l c : CaseAuthTags_new l = Some c → cats_iter c = l.
Proof.
  unfold CaseAuthTags_new. destruct (Z.ltb_spec CaseAuthTags_MAX (zlen l)) as [|Hlen]; [done|].
  destruct (cats_valid [] l) eqn:Hv; [|done]. intros [= <-].
  apply cats_valid_nonzero in Hv as Hn. clear Hv.
  unfold cats_iter, cats_array, CaseAuthTags_MAX, zlen in *.
  destruct Hn as [|x l Hx Hn]; [done|]. destruct Hn as [|y l Hy Hn].
  { cbn. by destruct (Z.eqb_spec x 0). }
  destruct Hn as [|z l Hz Hn].
  { cbn. by destruct (Z.eqb_spec x 0), (Z.eqb_spec y 0). }
  destruct l; [|cbn [length] in Hlen; lia].
  cbn. by destruct (Z.eqb_spec x 0), (Z.eqb_spec y 0), (Z.eqb_spec z 0).
Qed.

(** ** The contract of a cluster

    What the dispatcher relies on: on a world satisfying [I] no operation
    panics, [I] is kept, the caller's identity in the context is left alone,
    and everything handed back has the Rust types' ranges - a value read is one
    well-formed element, a status is a byte, changed attributes and events have
    32-bit ids. *)

(** One well-formed TLV element. *)
Definition element_bytes (b : bytes) : Prop := ∃ t, wf_tree t ∧ b = enc_tree t.

Definition emitted_ok (e : EmittedEvent) : Prop :=
  in_u 32 (em_event e) ∧ from_option element_bytes True (em_data e).

(** Response fields: absent, or one struct. *)
Definition fields_bytes (b : bytes) : Prop :=
  b = [] ∨ ∃ tag ch, wf_tree (Node tag KStruct ch) ∧ b = enc_tree (Node tag KStruct ch) ∧ small b.

Definition reply_ok (r : InvokeReply) : Prop :=
  match r with
  | RStatus s => in_u 8 s
  | RClusterStatus s cs => in_u 8 s ∧ in_u 8 cs
  | RData cmd f => in_u 32 cmd ∧ fields_bytes f
  end.

(** What a handler may do to the context: report changes and events. *)
Definition ctx_kept (c c' : InvokeCtx) : Prop :=
  attestation_challenge c' = attestation_challenge c ∧ ctx_fabric c' = ctx_fabric c ∧
  ctx_subject c' = ctx_subject c ∧
  (Forall (in_u 32) (ctx_changed c) → Forall (in_u 32) (ctx_changed c')) ∧
  (Forall emitted_ok (ctx_events c) → Forall emitted_ok (ctx_events c')).

(** The fabric index of a context is a [u8]. *)
Definition ctx_typed (c : InvokeCtx) : Prop := in_u 8 (ctx_fabric c).

Class HandlerOk {W} (I : W → Prop) (h : ClusterHandler W) : Prop := {
  ho_cluster : in_u 32 (cluster_id h);
  ho_attributes : Forall (in_u 32) (attributes h);
  ho_accepted : Forall (in_u 32) (accepted_commands h);
  ho_generated : Forall (in_u 32) (generated_commands h);
  ho_feature_map : in_u 32 (feature_map h);
  ho_revision : in_u 16 (revision h);
  ho_read w a ctx : I w →
    ∃ o, h_read h w a ctx = Ok o ∧ from_option element_bytes True o;
  ho_invoke w c cmd f : I w → ctx_typed c → bytes_ok f → small f →
    ∃ w' c' r, h_invoke h cmd f (w, c) = ((w', c'), Ok r) ∧ I w' ∧ ctx_kept c c' ∧ reply_ok r;
  ho_write w c a data append : I w → ctx_typed c → bytes_ok data → small data →
    ∃ w' c' r, h_write h a data append (w, c) = ((w', c'), r) ∧ I w' ∧ ctx_kept c c' ∧
      match r with Ok _ => True | Err s => in_u 8 s | _ => False end;
  ho_stimulate w c s : I w →
    ∃ w' c' r, h_stimulate h s (w, c) = ((w', c'), Ok r) ∧ I w' ∧ ctx_kept c c'
}.

Lemma ctx_typed_kept c c' : ctx_kept c c' → ctx_typed c → ctx_typed c'.
Proof. intros (_ & Hf & _). unfold ctx_typed. by rewrite Hf. Qed.

Lemma ctx_kept_refl c : ctx_kept c c.
Proof. unfold ctx_kept. naive_solver. Qed.

Lemma ctx_kept_changed a c : in_u 32 a → ctx_kept c (push_changed a c).
Proof.
  intros Ha. unfold ctx_kept, push_changed. cbn. split_and!; try done. intros Hc. apply Forall_app.
  split; [done|by apply Forall_singleton].
Qed.

Lemma ctx_kept_event e c : emitted_ok e → ctx_kept c (push_event e c).
Proof.
  intros He. unfold ctx_kept, push_event. cbn. split_and!; try done. intros Hc. apply Forall_app.
  split; [done|by apply Forall_singleton].
Qed.

Lemma ctx_kept_trans c1 c2 c3 : ctx_kept c1 c2 → ctx_kept c2 c3 → ctx_kept c1 c3.
Proof.
  intros (A1 & B1 & C1 & D1 & E1) (A2 & B2 & C2 & D2 & E2). unfold ctx_kept.
  split_and!; try congruence; auto.
Qed.

Lemma element_uint v w : 0 ≤ w ≤ 64 → in_u w v → ∃ b, tlv_uint v = Ok b ∧ element_bytes b.
Proof.
  intros Hw Hv. exists (enc_tree (Leaf Anonymous (VUint v))). split.
  - apply to_vec_writes, writes_put_uint.
  - eexists. split; [|done]. by apply (wf_anon_uint _ w).
Qed.

Lemma element_bool b : ∃ x, tlv_bool b = Ok x ∧ element_bytes x.
Proof.
  exists (enc_tree (Leaf Anonymous (VBool b))). split.
  - apply to_vec_writes, writes_bool.
  - by exists (Leaf Anonymous (VBool b)).
Qed.

Lemma element_null : ∃ x, tlv_null = Ok x ∧ element_bytes x.
Proof.
  exists (enc_tree (Leaf Anonymous VNull)). split.
  - apply to_vec_writes, writes_null.
  - by exists (Leaf Anonymous VNull).
Qed.
