(* ===== verification/Report.v ===== *)
(** * Reads, reports, events and subscriptions on the wire

    Models [crates/mat-controller/src/im/read.rs], [event.rs] and
    [subscribe.rs]: the ReadRequest and SubscribeRequest of the controller and
    their decoders on the device, the ReportData the device encodes (attribute
    reports, statuses, events) and its decoders on the controller.

    The value decoder of a report (JSON or a scalar) is a parameter [decode] of
    the walk, as in the source ([DataDecoder<D>]). *)

From Stdlib Require Import String.
From S2P Require Import Prelude Tlv TlvValue Handler Im.

(** ** Read requests ([read.rs]) *)

Definition encode_read_request_inner (endpoint cluster : Z) (attribute : option Z) : fin bytes :=
  to_vec (
    start_struct Anonymous ;;!
    (start_array (Context 0) ;;!
     put_attribute_path Anonymous endpoint cluster attribute ;;!
     end_container) ;;!
    put_bool (Context 3) true ;;!
    put_uint (Context 255) IM_REVISION ;;!
    end_container).

Definition encode_read_request (endpoint cluster attribute : Z) : fin bytes :=
  encode_read_request_inner endpoint cluster (Some attribute).
Definition encode_read_request_cluster (endpoint cluster : Z) : fin bytes :=
  encode_read_request_inner endpoint cluster None.

Definition AttrPathIn : Type := ids.

Record ReadRequestIn := { rr_paths : list AttrPathIn; rr_filtered : bool }.

Definition attribute_requests_step (paths : list AttrPathIn) (el : Element) : IR (list AttrPathIn) :=
  match el_value el with
  | VListStart => let! p := decode_attribute_path_ib in ret (paths ++ [fst p])
  | VStructStart | VArrayStart => im_skip ;;! ret paths
  | _ => throw (Malformed "unexpected element in attribute requests")
  end.

Definition decode_attribute_requests : IR (list AttrPathIn) :=
  items "truncated attribute requests" attribute_requests_step [].

Definition read_request_step (s : list AttrPathIn * option bool) (el : Element) :
    IR (list AttrPathIn * option bool) :=
  match el_tag el, el_value el with
  | Context 0, VArrayStart => let! paths := decode_attribute_requests in ret (paths, snd s)
  | Context 3, VBool b => ret (fst s, Some b)
  | _, _ => skip_other s el
  end.

Definition decode_read_request_message (payload : bytes) : res ImError ReadRequestIn :=
  run_im (
    expect_struct_start ;;!
    let! (paths, filtered) := fields "truncated read request" read_request_step ([], None) in
    ret {| rr_paths := paths; rr_filtered := default true filtered |}) payload.

Definition decode_read_request (payload : bytes) : res ImError (list AttrPathIn) :=
  res_bind (decode_read_request_message payload) (λ r, Ok (rr_paths r)).

(** ** Events ([event.rs]) *)

Definition priority_code (p : EventPriority) : Z :=
  match p with Debug => 0 | Info => 1 | Critical => 2 end.

Definition from_wire (v : Z) : option EventPriority :=
  if v =? 0 then Some Debug else if v =? 1 then Some Info else if v =? 2 then Some Critical else None.

Record EventPathIn := { ep_path : ids; ep_urgent : bool }.
Definition EventPathIn_default : EventPathIn := {| ep_path := no_ids; ep_urgent := false |}.
Definition WILDCARD_URGENT : EventPathIn := {| ep_path := no_ids; ep_urgent := true |}.

(** An optional scalar before the rest of the container. *)
Definition put_opt_uint (tag : Tag) (v : option Z) (k : M Writer Empty_set ()) : M Writer Empty_set () :=
  match v with Some v => put_uint tag v ;;! k | None => k end.

Definition encode_event_path_ib (tag : Tag) (p : EventPathIn) : M Writer Empty_set () :=
  let '(endpoint, cluster, event) := ep_path p in
  start_list tag ;;!
  put_opt_uint (Context 1) endpoint
    (put_opt_uint (Context 2) cluster
      (put_opt_uint (Context 3) event
        (if ep_urgent p then put_bool (Context 4) true ;;! end_container else end_container))).

Definition event_path_step (p : EventPathIn) (el : Element) : IR EventPathIn :=
  match el_tag el, el_value el with
  | Context 4, VBool b => ret {| ep_path := ep_path p; ep_urgent := b |}
  | _, _ =>
      let! i := ids_step 1 "endpoint out of range" "cluster id out of range"
        "event id out of range" (λ p _, ret p) (ep_path p) el in
      ret {| ep_path := i; ep_urgent := ep_urgent p |}
  end.

Definition decode_event_path_ib : IR EventPathIn :=
  scalars "truncated event path" event_path_step EventPathIn_default.

Definition event_requests_step (out : list EventPathIn) (el : Element) : IR (list EventPathIn) :=
  match el_value el with
  | VListStart => let! p := decode_event_path_ib in ret (out ++ [p])
  | VStructStart | VArrayStart => im_skip ;;! ret out
  | _ => throw (Malformed "unexpected element in event requests")
  end.

Definition decode_event_requests : IR (list EventPathIn) :=
  items "truncated event requests" event_requests_step [].

Definition event_min_step (min : option Z) (el : Element) : IR (option Z) :=
  match el_tag el, el_value el with
  | Context 1, VUint v => ret (match min with None => Some v | Some _ => min end)
  | _, _ => ret min
  end.

Definition event_filters_step (min : option Z) (el : Element) : IR (option Z) :=
  match el_value el with
  | VStructStart => scalars "truncated event filter" event_min_step min
  | VArrayStart | VListStart => im_skip ;;! ret min
  | _ => throw (Malformed "unexpected element in event filters")
  end.

Definition decode_event_filters : IR (option Z) :=
  items "truncated event filters" event_filters_step None.

(** *** Event reports, the controller's side *)

Inductive EventTimestamp :=
  | TsEpoch (v : Z) | TsSystem (v : Z) | TsDeltaEpoch (v : Z) | TsDeltaSystem (v : Z).

Record EventData (D : Type) := {
  ed_endpoint : Z;
  ed_cluster : Z;
  ed_event : Z;
  ed_number : Z;
  ed_priority : EventPriority;
  ed_timestamp : option EventTimestamp;
  ed_data : option D
}.
Arguments ed_endpoint {D} e.
Arguments ed_cluster {D} e.
Arguments ed_event {D} e.
Arguments ed_number {D} e.
Arguments ed_priority {D} e.
Arguments ed_timestamp {D} e.
Arguments ed_data {D} e.

Inductive EventReport (D : Type) :=
  | EData (d : EventData D)
  | EStatus (path : ids) (status : Z).
Arguments EData {D} d.
Arguments EStatus {D} path status.

Section event_reports.
Context {D : Type} (decode : Element → IR D).

Definition event_status_code_step (status : option Z) (el : Element) : IR (option Z) :=
  match el_tag el, el_value el with
  | Context 0, VUint v => let! v := narrow_im 8 "status out of range" v in ret (Some v)
  | _, _ => ret status
  end.

Definition event_status_step (s : EventPathIn * option Z) (el : Element) : IR (EventPathIn * option Z) :=
  match el_tag el, el_value el with
  | Context 0, VListStart => let! p := decode_event_path_ib in ret (p, snd s)
  | Context 1, VStructStart =>
      let! status := scalars "truncated status ib" event_status_code_step (snd s) in
      ret (fst s, status)
  | _, _ => skip_other s el
  end.

Definition decode_event_status_ib : IR (EventReport D) :=
  let! (path, status) := fields "truncated event status" event_status_step (EventPathIn_default, None) in
  let! status := im_ok_or status "event status without status" in
  ret (EStatus (ep_path path) status).

Record EventFields := {
  ef_path : ids;
  ef_number : option Z;
  ef_priority : option EventPriority;
  ef_ts : option EventTimestamp;
  ef_data : option D
}.

Definition ef_with_ts (s : EventFields) (t : EventTimestamp) : EventFields :=
  {| ef_path := ef_path s; ef_number := ef_number s; ef_priority := ef_priority s;
     ef_ts := Some t; ef_data := ef_data s |}.

Definition event_data_step (s : EventFields) (el : Element) : IR EventFields :=
  match el_tag el, el_value el with
  | Context 0, VListStart =>
      let! p := decode_event_path_ib in
      ret {| ef_path := ep_path p; ef_number := ef_number s; ef_priority := ef_priority s;
             ef_ts := ef_ts s; ef_data := ef_data s |}
  | Context 1, VUint v =>
      ret {| ef_path := ef_path s; ef_number := Some v; ef_priority := ef_priority s;
             ef_ts := ef_ts s; ef_data := ef_data s |}
  | Context 2, VUint v =>
      let! p := im_ok_or (from_wire v) "unknown event priority" in
      ret {| ef_path := ef_path s; ef_number := ef_number s; ef_priority := Some p;
             ef_ts := ef_ts s; ef_data := ef_data s |}
  | Context 3, VUint v => ret (ef_with_ts s (TsEpoch v))
  | Context 4, VUint v => ret (ef_with_ts s (TsSystem v))
  | Context 5, VUint v => ret (ef_with_ts s (TsDeltaEpoch v))
  | Context 6, VUint v => ret (ef_with_ts s (TsDeltaSystem v))
  | Context 7, _ =>
      let! d := decode el in
      ret {| ef_path := ef_path s; ef_number := ef_number s; ef_priority := ef_priority s;
             ef_ts := ef_ts s; ef_data := Some d |}
  | _, _ => skip_other s el
  end.

(** A delta timestamp is resolved against the previous absolute one. *)
Definition resolve_ts (ts prev : option EventTimestamp) : option EventTimestamp :=
  match ts, prev with
  | Some (TsDeltaEpoch d), Some (TsEpoch p) => Some (TsEpoch (wrap 64 (p + d)))
  | Some (TsDeltaSystem d), Some (TsSystem p) => Some (TsSystem (wrap 64 (p + d)))
  | other, _ => other
  end.

Definition next_prev (resolved prev : option EventTimestamp) : option EventTimestamp :=
  match resolved with Some (TsEpoch _ | TsSystem _) => resolved | _ => prev end.

Definition decode_event_data_ib (prev : option EventTimestamp) :
    IR (EventData D * option EventTimestamp) :=
  let! s := fields "truncated event data" event_data_step
    {| ef_path := no_ids; ef_number := None; ef_priority := None; ef_ts := None; ef_data := None |} in
  let resolved := resolve_ts (ef_ts s) prev in
  match ef_path s with
  | (Some endpoint, Some cluster, Some event) =>
      let! number := im_ok_or (ef_number s) "event data without number" in
      let! priority := im_ok_or (ef_priority s) "event data without priority" in
      ret ({| ed_endpoint := endpoint; ed_cluster := cluster; ed_event := event;
              ed_number := number; ed_priority := priority; ed_timestamp := resolved;
              ed_data := ef_data s |}, next_prev resolved prev)
  | _ => throw (Malformed "event data with incomplete path")
  end.

Definition event_report_step (s : option (EventReport D) * option EventTimestamp) (el : Element) :
    IR (option (EventReport D) * option EventTimestamp) :=
  match el_tag el, el_value el with
  | Context 0, VStructStart => let! r := decode_event_status_ib in ret (Some r, snd s)
  | Context 1, VStructStart =>
      let! (d, prev) := decode_event_data_ib (snd s) in ret (Some (EData d), prev)
  | _, _ => skip_other s el
  end.

Definition decode_event_report_ib (prev : option EventTimestamp) :
    IR (EventReport D * option EventTimestamp) :=
  let! (out, prev) := fields "truncated event report" event_report_step (None, prev) in
  let! out := im_ok_or out "event report without data or status" in
  ret (out, prev).

Definition event_items_step (s : list (EventReport D) * option EventTimestamp) (el : Element) :
    IR (list (EventReport D) * option EventTimestamp) :=
  match el_value el with
  | VStructStart =>
      let! (rep, prev) := decode_event_report_ib (snd s) in ret (fst s ++ [rep], prev)
  | _ => throw (Malformed "unexpected element in event reports")
  end.

Definition event_reports_step (out : list (EventReport D)) (el : Element) : IR (list (EventReport D)) :=
  match el_tag el, el_value el with
  | Context 2, VArrayStart =>
      let! (out, _) := items "truncated event reports" event_items_step (out, None) in ret out
  | _, _ => skip_other out el
  end.

Definition decode_event_reports (payload : bytes) : res ImError (list (EventReport D)) :=
  run_im (expect_struct_start ;;! fields "truncated report data" event_reports_step []) payload.
End event_reports.

(** ** Attribute reports, the controller's side ([read.rs]) *)

Record ReportIb (D : Type) := {
  ri_path : ids;
  ri_append : bool;
  ri_data : option D;
  ri_status : option Z;
  ri_has_data : bool
}.
Arguments ri_path {D} r.
Arguments ri_append {D} r.
Arguments ri_data {D} r.
Arguments ri_status {D} r.
Arguments ri_has_data {D} r.

Record ReportDataOf (D : Type) := {
  rd_reports : list (ReportIb D);
  rd_subscription : option Z;
  rd_more : bool;
  rd_suppress : bool
}.
Arguments rd_reports {D} r.
Arguments rd_subscription {D} r.
Arguments rd_more {D} r.
Arguments rd_suppress {D} r.

Definition attribute_status_full_step (s : ids * option Z) (el : Element) : IR (ids * option Z) :=
  match el_tag el, el_value el with
  | Context 0, VListStart => let! p := decode_attribute_path_ib in ret (fst p, snd s)
  | Context 1, VStructStart =>
      let! c := decode_status_ib_code in ret (fst s, match c with Some _ => c | None => snd s end)
  | _, _ => skip_other s el
  end.

Definition decode_attribute_status_ib_full : IR (ids * Z) :=
  let! (path, status) := fields "truncated attribute status" attribute_status_full_step (no_ids, None) in
  let! status := im_ok_or status "attribute status without StatusIB" in
  ret (path, status).

Section attribute_reports.
Context {D : Type} (decode : Element → IR D).

Definition attribute_data_full_step (s : (ids * bool) * option D) (el : Element) :
    IR ((ids * bool) * option D) :=
  match el_tag el, el_value el with
  | Context 1, VListStart => let! p := decode_attribute_path_ib in ret (p, snd s)
  | Context 2, _ => let! d := decode el in ret (fst s, Some d)
  | _, _ => skip_other s el
  end.

Definition decode_attribute_data_ib_full : IR ((ids * bool) * option D) :=
  fields "truncated attribute data" attribute_data_full_step ((no_ids, false), None).

Definition attribute_report_full_step (s : ReportIb D) (el : Element) : IR (ReportIb D) :=
  match el_tag el, el_value el with
  | Context 0, VStructStart =>
      let! (path, status) := decode_attribute_status_ib_full in
      ret {| ri_path := path; ri_append := ri_append s; ri_data := ri_data s;
             ri_status := Some status; ri_has_data := ri_has_data s |}
  | Context 1, VStructStart =>
      let! ((path, append), data) := decode_attribute_data_ib_full in
      ret {| ri_path := path; ri_append := append; ri_data := data;
             ri_status := ri_status s; ri_has_data := true |}
  | _, _ => skip_other s el
  end.

Definition ReportIb_empty : ReportIb D :=
  {| ri_path := no_ids; ri_append := false; ri_data := None; ri_status := None; ri_has_data := false |}.

Definition decode_attribute_report_ib_full : IR (ReportIb D) :=
  fields "truncated attribute report" attribute_report_full_step ReportIb_empty.

Definition report_items_step (reports : list (ReportIb D)) (el : Element) : IR (list (ReportIb D)) :=
  match el_value el with
  | VStructStart => let! r := decode_attribute_report_ib_full in ret (reports ++ [r])
  | _ => throw (Malformed "unexpected element in attribute reports")
  end.

Definition report_data_step (s : ReportDataOf D) (el : Element) : IR (ReportDataOf D) :=
  match el_tag el, el_value el with
  | Context 0, VUint v =>
      let! v := narrow_im 32 "subscription id out of range" v in
      ret {| rd_reports := rd_reports s; rd_subscription := Some v; rd_more := rd_more s;
             rd_suppress := rd_suppress s |}
  | Context 1, VArrayStart =>
      let! reports := items "truncated attribute reports" report_items_step (rd_reports s) in
      ret {| rd_reports := reports; rd_subscription := rd_subscription s; rd_more := rd_more s;
             rd_suppress := rd_suppress s |}
  | Context 3, VBool b =>
      ret {| rd_reports := rd_reports s; rd_subscription := rd_subscription s; rd_more := b;
             rd_suppress := rd_suppress s |}
  | Context 4, VBool b =>
      ret {| rd_reports := rd_reports s; rd_subscription := rd_subscription s; rd_more := rd_more s;
             rd_suppress := b |}
  | _, _ => skip_other s el
  end.

Definition decode_report_data_with (payload : bytes) : res ImError (ReportDataOf D) :=
  run_im (
    expect_struct_start ;;!
    fields "truncated report data" report_data_step
      {| rd_reports := []; rd_subscription := None; rd_more := false; rd_suppress := false |}) payload.
End attribute_reports.

(** [value_to_im]: a scalar as it is, a container refused; an [ImValue] is the
    scalar [Value] it was made of. *)
Definition value_to_im (v : Value) : res ImError Value :=
  match v with
  | VStructStart | VArrayStart | VListStart => Err UnsupportedValue
  | VContainerEnd => Err (Malformed "unexpected container end as data value")
  | v => Ok v
  end.

Definition data_to_im (first : Element) : IR (res ImError Value) :=
  match el_value first with
  | VStructStart | VArrayStart | VListStart => im_skip ;;! ret (Err UnsupportedValue)
  | v => ret (value_to_im v)
  end.

(** [decode_single_attribute_report]. *)
Definition single_outcome (first : ReportIb (res ImError Value)) : res ImError (res ImError Value) :=
  let? value :=
    match ri_data first with
    | Some v => res_bind v (λ v, Ok (Some v))
    | None =>
        if ri_has_data first then Err (Malformed "attribute data without Data field") else Ok None
    end in
  match ri_status first, value with
  | Some status, _ => Ok (Err (AttributeStatus status))
  | None, Some v => Ok (Ok v)
  | None, None => Err (Malformed "empty report")
  end.

Definition decode_single_attribute_report (payload : bytes) :
    res ImError (bool * res ImError Value) :=
  let? msg := decode_report_data_with data_to_im payload in
  if rd_more msg then Err (Malformed "chunked report data unsupported")
  else match rd_reports msg with
       | [] => Err (Malformed "empty report")
       | first :: _ =>
           let? outcome := single_outcome first in
           Ok (rd_suppress msg, outcome)
       end.

(** ** ReportData, the device's side *)

Record AttrReportOut := {
  ar_endpoint : Z;
  ar_cluster : Z;
  ar_attribute : Z;
  ar_data_version : Z;
  ar_value : bytes
}.

Inductive ReportEntryOut :=
  | REData (r : AttrReportOut)
  | REStatus (endpoint cluster attribute status : Z).

Definition encode_attribute_report_ib (entry : ReportEntryOut) : M Writer Empty_set () :=
  start_struct Anonymous ;;!
  match entry with
  | REData r =>
      (start_struct (Context 1) ;;!
       put_uint (Context 0) (ar_data_version r) ;;!
       put_attribute_path (Context 1) (ar_endpoint r) (ar_cluster r) (Some (ar_attribute r)) ;;!
       put_raw_element (Context 2) (ar_value r) ;;!
       end_container) ;;!
      end_container
  | REStatus endpoint cluster attribute status =>
      (start_struct (Context 0) ;;!
       put_attribute_path (Context 0) endpoint cluster (Some attribute) ;;!
       put_status_ib (Context 1) status None ;;!
       end_container) ;;!
      end_container
  end.

Record EventReportOut := {
  ev_endpoint : Z;
  ev_cluster : Z;
  ev_event : Z;
  ev_number : Z;
  ev_priority : EventPriority;
  ev_timestamp : Z;
  ev_data : option bytes
}.

Inductive EventEntryOut :=
  | EEData (d : EventReportOut)
  | EEStatus (endpoint cluster event status : Z).

Definition event_path (endpoint cluster event : Z) : EventPathIn :=
  {| ep_path := (Some endpoint, Some cluster, Some event); ep_urgent := false |}.

Definition encode_event_entry (ev : EventEntryOut) : M Writer Empty_set () :=
  start_struct Anonymous ;;!
  match ev with
  | EEData d =>
      (start_struct (Context 1) ;;!
       encode_event_path_ib (Context 0) (event_path (ev_endpoint d) (ev_cluster d) (ev_event d)) ;;!
       put_uint (Context 1) (ev_number d) ;;!
       put_uint (Context 2) (priority_code (ev_priority d)) ;;!
       put_uint (Context 4) (ev_timestamp d) ;;!
       put_optional_raw (Context 7) (ev_data d) end_container) ;;!
      end_container
  | EEStatus endpoint cluster event status =>
      (start_struct (Context 0) ;;!
       encode_event_path_ib (Context 0) (event_path endpoint cluster event) ;;!
       put_status_ib (Context 1) status None ;;!
       end_container) ;;!
      end_container
  end.

(** A loop over entries. *)
Definition put_all {X} (put : X → M Writer Empty_set ()) (l : list X) : M Writer Empty_set () :=
  foldr (λ x m, put x ;;! m) (ret ()) l.

(** The tail of a report: MoreChunkedMessages, SuppressResponse, revision. *)
Definition report_trailer (suppress_response more_chunks : bool) : M Writer Empty_set () :=
  let rest := put_bool (Context 4) suppress_response ;;!
              put_uint (Context 255) IM_REVISION ;;! end_container in
  if more_chunks then put_bool (Context 3) true ;;! rest else rest.

Definition report_events (events : list EventEntryOut) (k : M Writer Empty_set ()) :
    M Writer Empty_set () :=
  match events with
  | [] => k
  | _ => (start_array (Context 2) ;;! put_all encode_event_entry events ;;! end_container) ;;! k
  end.

Definition encode_report_data_full (attrs : list ReportEntryOut) (events : list EventEntryOut)
    (suppress_response : bool) (subscription_id : option Z) (more_chunks : bool) : fin bytes :=
  to_vec (
    start_struct Anonymous ;;!
    put_opt_uint (Context 0) subscription_id
      ((start_array (Context 1) ;;! put_all encode_attribute_report_ib attrs ;;! end_container) ;;!
       report_events events (report_trailer suppress_response more_chunks))).

Definition encode_report_data_entries (entries : list ReportEntryOut) (suppress_response : bool)
    (subscription_id : option Z) (more_chunks : bool) : fin bytes :=
  encode_report_data_full entries [] suppress_response subscription_id more_chunks.

Definition encode_report_data (reports : list AttrReportOut) (suppress_response : bool) : fin bytes :=
  encode_report_data_entries (map REData reports) suppress_response None false.

(** ** Subscriptions ([subscribe.rs]) *)

Record SubscribeSpec := {
  sp_min_floor : Z;
  sp_max_ceiling : Z;
  sp_keep : bool;
  sp_clusters : list Z;
  sp_event_paths : list EventPathIn;
  sp_event_min : option Z
}.

Definition put_cluster_path (cluster : Z) : M Writer Empty_set () :=
  start_list Anonymous ;;! put_uint (Context 3) cluster ;;! end_container.

Definition put_event_paths (paths : list EventPathIn) (k : M Writer Empty_set ()) : M Writer Empty_set () :=
  match paths with
  | [] => k
  | _ =>
      (start_array (Context 4) ;;! put_all (encode_event_path_ib Anonymous) paths ;;! end_container) ;;! k
  end.

Definition put_event_min (min : option Z) (k : M Writer Empty_set ()) : M Writer Empty_set () :=
  match min with
  | Some min =>
      (start_array (Context 5) ;;!
       (start_struct Anonymous ;;! put_uint (Context 1) min ;;! end_container) ;;!
       end_container) ;;! k
  | None => k
  end.

Definition put_clusters (clusters : list Z) : M Writer Empty_set () :=
  match clusters with
  | [] => start_list Anonymous ;;! end_container
  | _ => put_all put_cluster_path clusters
  end.

Definition encode_subscribe_request_full (spec : SubscribeSpec) : fin bytes :=
  to_vec (
    start_struct Anonymous ;;!
    put_bool (Context 0) (sp_keep spec) ;;!
    put_uint (Context 1) (sp_min_floor spec) ;;!
    put_uint (Context 2) (sp_max_ceiling spec) ;;!
    (start_array (Context 3) ;;! put_clusters (sp_clusters spec) ;;! end_container) ;;!
    put_event_paths (sp_event_paths spec)
      (put_event_min (sp_event_min spec)
        (put_bool (Context 7) true ;;!
         put_uint (Context 255) IM_REVISION ;;!
         end_container))).

Definition encode_subscribe_request (min_floor max_ceiling : Z) (keep : bool) (clusters : list Z) :
    fin bytes :=
  encode_subscribe_request_full
    {| sp_min_floor := min_floor; sp_max_ceiling := max_ceiling; sp_keep := keep;
       sp_clusters := clusters; sp_event_paths := []; sp_event_min := None |}.

Record SubscribeAcc := {
  sa_keep : option bool;
  sa_min : option Z;
  sa_max : option Z;
  sa_paths : list AttrPathIn;
  sa_filtered : option bool;
  sa_event_paths : list EventPathIn;
  sa_event_min : option Z
}.

Record SubscribeRequestIn := {
  sr_keep : bool;
  sr_min_floor : Z;
  sr_max_ceiling : Z;
  sr_paths : list AttrPathIn;
  sr_filtered : bool;
  sr_event_paths : list EventPathIn;
  sr_event_min : option Z
}.

Definition subscribe_request_step (s : SubscribeAcc) (el : Element) : IR SubscribeAcc :=
  let '(Build_SubscribeAcc keep min max paths filtered event_paths event_min) := s in
  match el_tag el, el_value el with
  | Context 0, VBool b => ret (Build_SubscribeAcc (Some b) min max paths filtered event_paths event_min)
  | Context 1, VUint v =>
      let! v := narrow_im 16 "min interval floor out of range" v in
      ret (Build_SubscribeAcc keep (Some v) max paths filtered event_paths event_min)
  | Context 2, VUint v =>
      let! v := narrow_im 16 "max interval ceiling out of range" v in
      ret (Build_SubscribeAcc keep min (Some v) paths filtered event_paths event_min)
  | Context 3, VArrayStart =>
      let! paths := decode_attribute_requests in
      ret (Build_SubscribeAcc keep min max paths filtered event_paths event_min)
  | Context 4, VArrayStart =>
      let! event_paths := decode_event_requests in
      ret (Build_SubscribeAcc keep min max paths filtered event_paths event_min)
  | Context 5, VArrayStart =>
      let! event_min := decode_event_filters in
      ret (Build_SubscribeAcc keep min max paths filtered event_paths event_min)
  | Context 7, VBool b => ret (Build_SubscribeAcc keep min max paths (Some b) event_paths event_min)
  | _, _ => skip_other s el
  end.

Definition SubscribeAcc_empty : SubscribeAcc := Build_SubscribeAcc None None None [] None [] None.

Definition decode_subscribe_request (payload : bytes) : res ImError SubscribeRequestIn :=
  run_im (
    expect_struct_start ;;!
    let! s := fields "truncated subscribe request" subscribe_request_step SubscribeAcc_empty in
    let! keep := im_ok_or (sa_keep s) "subscribe request without keep_subscriptions" in
    let! min := im_ok_or (sa_min s) "subscribe request without min interval floor" in
    let! max := im_ok_or (sa_max s) "subscribe request without max interval ceiling" in
    ret {| sr_keep := keep; sr_min_floor := min; sr_max_ceiling := max; sr_paths := sa_paths s;
           sr_filtered := default true (sa_filtered s); sr_event_paths := sa_event_paths s;
           sr_event_min := sa_event_min s |}) payload.

Definition subscribe_response_step (s : option Z * option Z) (el : Element) : IR (option Z * option Z) :=
  match el_tag el, el_value el with
  | Context 0, VUint v =>
      let! v := narrow_im 32 "subscription id out of range" v in ret (Some v, snd s)
  | Context 2, VUint v =>
      let! v := narrow_im 16 "max interval out of range" v in ret (fst s, Some v)
  | _, _ => ret s
  end.

(** A SubscribeResponse: id and max interval. *)
Definition decode_subscribe_response (payload : bytes) : res ImError (Z * Z) :=
  run_im (
    expect_struct_start ;;!
    let! (id, max_interval) := scalars "truncated subscribe response" subscribe_response_step (None, None) in
    let! id := im_ok_or id "subscribe response without id" in
    let! max_interval := im_ok_or max_interval "subscribe response without max interval" in
    ret (id, max_interval)) payload.

Definition encode_subscribe_response (subscription_id max_interval_s : Z) : fin bytes :=
  to_vec (
    start_struct Anonymous ;;!
    put_uint (Context 0) subscription_id ;;!
    put_uint (Context 2) max_interval_s ;;!
    put_uint (Context 255) IM_REVISION ;;!
    end_container).

(** ** Lemmas *)

Definition opt_leaf (tag : Z) (v : option Z) : list tree :=
  match v with Some v => [Leaf (Context tag) (VUint v)] | None => [] end.

Lemma emits_opt_uint tag v k ch : emits k ch → emits (put_opt_uint (Context tag) v k) (opt_leaf tag v ++ ch).
Proof. intros Hk. destruct v; [|done]. apply emits_cons; [apply writes_put_uint|done]. Qed.

Lemma wf_opt_leaf tag w v : 0 ≤ tag < 256 → 0 ≤ w ≤ 64 → from_option (in_u w) True v →
  Forall wf_tree (opt_leaf tag v).
Proof. intros Ht Hw Hv. destruct v; [|done]. by apply Forall_singleton, (wf_uint _ _ w). Qed.

Lemma emits_put_all {X} (f : X → M Writer Empty_set ()) (g : X → tree) l k ch :
  (∀ x, writes (f x) (enc_tree (g x))) → emits k ch → emits (put_all f l ;;! k) (map g l ++ ch).
Proof. apply emits_map. Qed.

Lemma emits_put_all2 {X} (f : X → M Writer Empty_set ()) l ts k ch :
  Forall2 (λ x t, writes (f x) (enc_tree t)) l ts → emits k ch → emits (put_all f l ;;! k) (ts ++ ch).
Proof. apply emits_list. Qed.

(** A walk over children that are decoded one by one into a list. *)
Lemma walks_append {X Y} (step : list Y → Element → IR (list Y)) (g : X → tree) (h : X → Y) l acc :
  (∀ acc x, x ∈ l → reads (step acc (root_el (g x))) (inner (g x)) (acc ++ [h x])) →
  walks step acc (map g l) (acc ++ map h l).
Proof.
  revert acc. induction l as [|x l IH]; intros acc Hl; cbn; [rewrite app_nil_r; constructor|].
  econstructor; [apply Hl; by apply elem_of_cons; left|].
  replace (acc ++ h x :: map h l) with ((acc ++ [h x]) ++ map h l) by by rewrite <- app_assoc.
  apply IH.
  intros acc' y Hy. apply Hl. by apply elem_of_cons; right.
Qed.

(** *** Paths of read and subscribe requests *)

Definition path_tree (ep cl : Z) (a : option Z) : tree := Node Anonymous KList (ids_tree 2 ep cl a).

Definition read_request_tree (ep cl : Z) (a : option Z) : list tree :=
  [Node (Context 0) KArray [path_tree ep cl a]; Leaf (Context 3) (VBool true);
   Leaf (Context 255) (VUint IM_REVISION)].

Lemma read_request_eq ep cl a :
  encode_read_request_inner ep cl a = Ok (enc_tree (Node Anonymous KStruct (read_request_tree ep cl a))).
Proof.
  apply to_vec_writes, writes_struct, emits_cons; [|eauto with emits].
  apply writes_array, emits_cons; [|apply emits_end]. apply writes_list, emits_put_ids.
Qed.

Lemma wf_path ep cl a : ids_ok ep cl a → wf_tree (path_tree ep cl a).
Proof. intros Hi. apply wf_anon_node. by apply wf_ids. Qed.

Lemma reads_path_list ep cl a : ids_ok ep cl a →
  reads decode_attribute_requests (enc_children [path_tree ep cl a]) [(Some ep, Some cl, a)].
Proof.
  intros Hi. apply walk_at; [by apply Forall_singleton, wf_path|].
  eapply walks_node; [|constructor].
  eapply reads_bind_end; [by apply reads_attribute_path|apply reads_ret].
Qed.

Lemma decode_read_request_at ep cl a : ids_ok ep cl a →
  let t := Node Anonymous KStruct (read_request_tree ep cl a) in
  small (enc_tree t) →
  decode_read_request_message (enc_tree t) =
    Ok {| rr_paths := [(Some ep, Some cl, a)]; rr_filtered := true |}.
Proof.
  intros Hi t Hs.
  assert (Hwf : Forall wf_tree (read_request_tree ep cl a)).
  { apply Forall_cons; split; [by apply wf_node, Forall_singleton, wf_path|].
    apply Forall_cons; split; [done|]. apply Forall_singleton, wf_revision. }
  apply (run_struct _ _ _ ([(Some ep, Some cl, a)], Some true)); [done|done| |apply reads_ret].
  apply walk_at; [done|].
  eapply walks_node; [eapply reads_bind_end; [by apply reads_path_list|apply reads_ret]|].
  do 2 (eapply walks_leaf; [apply reads_ret|]). constructor.
Qed.

(** *** Event paths *)

Definition event_ids_tree (p : ids) : list tree :=
  let '(ep, cl, ev) := p in opt_leaf 1 ep ++ opt_leaf 2 cl ++ opt_leaf 3 ev.

Definition urgent_tree (u : bool) : list tree := if u then [Leaf (Context 4) (VBool true)] else [].

Definition event_path_tree (tag : Tag) (p : EventPathIn) : tree :=
  Node tag KList (event_ids_tree (ep_path p) ++ urgent_tree (ep_urgent p)).

Lemma writes_event_path tag p : writes (encode_event_path_ib tag p) (enc_tree (event_path_tree tag p)).
Proof.
  unfold encode_event_path_ib, event_path_tree, event_ids_tree. destruct p as [ [ [ep cl] ev] u].
  cbn [ep_path ep_urgent]. apply writes_list. rewrite <- !app_assoc. do 3 apply emits_opt_uint.
  destruct u; eauto with emits.
Qed.

Lemma wf_event_path tag p : wf_tag tag → ids_in (ep_path p) → wf_tree (event_path_tree tag p).
Proof.
  unfold event_path_tree, event_ids_tree. destruct p as [ [ [ep cl] ev] u]. intros Ht (He & Hc & Hv).
  cbn [ep_path ep_urgent]. apply wf_children. split; [done|]. rewrite !Forall_app. split_and!.
  - by apply (wf_opt_leaf _ 16).
  - by apply (wf_opt_leaf _ 32).
  - by apply (wf_opt_leaf _ 32).
  - destruct u; [|done]. by apply Forall_singleton.
Qed.

(** One optional id of an event path. *)
Lemma walks_event_id c v p p' u :
  (1 ≤ c ≤ 3) → (v = None → p' = p) →
  (∀ x, v = Some x → reads (ids_step 1 "endpoint out of range" "cluster id out of range"
     "event id out of range" (λ p _, ret p) p {| el_tag := Context c; el_value := VUint x |}) [] p') →
  walks event_path_step {| ep_path := p; ep_urgent := u |} (opt_leaf c v)
    {| ep_path := p'; ep_urgent := u |}.
Proof.
  intros Hc Hn Hs. destruct v as [x|]; [|by rewrite Hn; [constructor|] ].
  eapply walks_leaf; [|constructor].
  assert (c = 1 ∨ c = 2 ∨ c = 3) as [-> | [-> | ->]] by lia;
    (eapply reads_bind_nil; [by apply Hs|apply reads_ret]).
Qed.

Lemma reads_event_path tag p : wf_tag tag → ids_in (ep_path p) →
  reads decode_event_path_ib (inner (event_path_tree tag p)) p.
Proof.
  intros Ht Hi. pose proof (wf_event_path tag p Ht Hi) as [_ Hwf]%wf_children. revert Hwf Hi.
  unfold event_path_tree, event_ids_tree. destruct p as [ [ [ep cl] ev] u]. cbn [ep_path ep_urgent].
  intros Hwf (He & Hc & Hv). apply walks_scalars; [|exact Hwf|].
  { destruct ep, cl, ev, u; repeat constructor. }
  cbn [inner]. rewrite <- !app_assoc.
  apply walks_app with {| ep_path := (ep, None, None); ep_urgent := false |}.
  { apply walks_event_id; [lia|by intros ->|]. intros x ->.
    eapply reads_bind_nil; [by apply reads_narrow|apply reads_ret]. }
  apply walks_app with {| ep_path := (ep, cl, None); ep_urgent := false |}.
  { apply walks_event_id; [lia|by intros ->|]. intros x ->.
    eapply reads_bind_nil; [by apply reads_narrow|apply reads_ret]. }
  apply walks_app with {| ep_path := (ep, cl, ev); ep_urgent := false |}.
  { apply walks_event_id; [lia|by intros ->|]. intros x ->.
    eapply reads_bind_nil; [by apply reads_narrow|apply reads_ret]. }
  destruct u; [|constructor]. eapply walks_leaf; [apply reads_ret|constructor].
Qed.

(** *** Subscribe requests *)

Definition cluster_path_tree (cluster : Z) : tree :=
  Node Anonymous KList [Leaf (Context 3) (VUint cluster)].

Definition clusters_tree (clusters : list Z) : list tree :=
  match clusters with [] => [Node Anonymous KList []] | _ => map cluster_path_tree clusters end.

(** The paths a subscription to [clusters] asks for. *)
Definition cluster_paths (clusters : list Z) : list AttrPathIn :=
  match clusters with [] => [no_ids] | _ => map (λ c, (None, Some c, None)) clusters end.

Definition event_paths_tree (paths : list EventPathIn) : list tree :=
  match paths with [] => [] | _ => [Node (Context 4) KArray (map (event_path_tree Anonymous) paths)] end.

Definition event_min_tree (min : option Z) : list tree :=
  match min with
  | Some min => [Node (Context 5) KArray [Node Anonymous KStruct [Leaf (Context 1) (VUint min)]]]
  | None => []
  end.

Definition subscribe_tree (sp : SubscribeSpec) : list tree :=
  [Leaf (Context 0) (VBool (sp_keep sp)); Leaf (Context 1) (VUint (sp_min_floor sp));
   Leaf (Context 2) (VUint (sp_max_ceiling sp)); Node (Context 3) KArray (clusters_tree (sp_clusters sp))] ++
  event_paths_tree (sp_event_paths sp) ++ event_min_tree (sp_event_min sp) ++
  [Leaf (Context 7) (VBool true); Leaf (Context 255) (VUint IM_REVISION)].

Definition spec_ok (sp : SubscribeSpec) : Prop :=
  in_u 16 (sp_min_floor sp) ∧ in_u 16 (sp_max_ceiling sp) ∧ Forall (in_u 32) (sp_clusters sp) ∧
  Forall (λ p, ids_in (ep_path p)) (sp_event_paths sp) ∧ from_option (in_u 64) True (sp_event_min sp).

Lemma emits_clusters clusters : emits (put_clusters clusters ;;! end_container) (clusters_tree clusters).
Proof.
  destruct clusters as [|c cs].
  - apply emits_cons; [apply writes_list, emits_end|apply emits_end].
  - rewrite <- (app_nil_r (clusters_tree _)). apply emits_put_all; [|apply emits_end].
    intros x. apply writes_list, emits_cons; [apply writes_put_uint|apply emits_end].
Qed.

Lemma emits_event_paths paths k ch : emits k ch →
  emits (put_event_paths paths k) (event_paths_tree paths ++ ch).
Proof.
  intros Hk. destruct paths as [|p ps]; [done|]. apply emits_cons; [|done].
  apply writes_array. rewrite <- (app_nil_r (map _ _)). apply emits_put_all; [|apply emits_end].
  intros x. apply writes_event_path.
Qed.

Lemma emits_event_min min k ch : emits k ch → emits (put_event_min min k) (event_min_tree min ++ ch).
Proof.
  intros Hk. destruct min; [|done]. apply emits_cons; [|done].
  apply writes_array, emits_cons; [|apply emits_end].
  apply writes_struct, emits_cons; [apply writes_put_uint|apply emits_end].
Qed.

Lemma subscribe_request_eq sp :
  encode_subscribe_request_full sp = Ok (enc_tree (Node Anonymous KStruct (subscribe_tree sp))).
Proof.
  apply to_vec_writes, writes_struct. unfold subscribe_tree. cbn [app].
  apply emits_cons; [apply writes_bool|]. do 2 (apply emits_cons; [apply writes_put_uint|]).
  apply emits_cons; [apply writes_array, emits_clusters|].
  apply emits_event_paths, emits_event_min. eauto with emits.
Qed.

Lemma wf_clusters cs : Forall (in_u 32) cs → Forall wf_tree (clusters_tree cs).
Proof.
  intros Hcs. destruct cs as [|c cs]; [by apply Forall_singleton|]. apply List.Forall_map.
  eapply Forall_impl; [exact Hcs|]. intros x Hx. apply wf_anon_node, Forall_singleton. by apply (wf_uint _ _ 32).
Qed.

Lemma wf_event_paths ps : Forall (λ p, ids_in (ep_path p)) ps →
  Forall wf_tree (map (event_path_tree Anonymous) ps).
Proof.
  intros Hps. apply List.Forall_map. eapply Forall_impl; [exact Hps|]. intros p Hp. by apply wf_event_path.
Qed.

Lemma wf_subscribe sp : spec_ok sp → Forall wf_tree (subscribe_tree sp).
Proof.
  intros (Hm & HM & Hcs & Hps & He). unfold subscribe_tree. rewrite !Forall_app. split_and!.
  - repeat (apply Forall_cons; split); [done|by apply (wf_uint _ _ 16)..| |done].
    apply wf_node; [lia|]. by apply wf_clusters.
  - unfold event_paths_tree. case_match eqn:Hp; [done|]. rewrite <- Hp in *.
    apply Forall_singleton, wf_node; [lia|]. by apply wf_event_paths.
  - unfold event_min_tree. destruct (sp_event_min sp); [|done].
    apply Forall_singleton, wf_node, Forall_singleton, wf_anon_node, Forall_singleton; [lia|].
    by apply (wf_uint _ _ 64).
  - apply Forall_cons; split; [done|]. apply Forall_singleton, wf_revision.
Qed.

Lemma reads_clusters cs : Forall (in_u 32) cs →
  reads decode_attribute_requests (enc_children (clusters_tree cs)) (cluster_paths cs).
Proof.
  intros Hcs. apply walk_at; [by apply wf_clusters|].
  assert (Hnil : reads decode_attribute_path_ib (enc_children []) (no_ids, false)).
  { apply walk_at; constructor. }
  destruct cs as [|c cs].
  { eapply walks_node; [|constructor]. eapply reads_bind_end; [exact Hnil|apply reads_ret]. }
  apply (walks_append attribute_requests_step cluster_path_tree (λ c, (None, Some c, None)) (c :: cs) []).
  intros acc x Hx. rewrite Forall_forall in Hcs.
  assert (Hr : reads decode_attribute_path_ib (enc_children [Leaf (Context 3) (VUint x)])
            ((None, Some x, None), false)).
  { apply walk_at; [by apply Forall_singleton, (wf_uint _ _ 32); [| |apply Hcs]|].
    eapply walks_leaf; [|constructor].
    eapply reads_bind_nil; [eapply reads_bind_nil; [by apply reads_narrow, Hcs|apply reads_ret]|apply reads_ret]. }
  eapply reads_bind_end; [exact Hr|apply reads_ret].
Qed.

Lemma reads_event_paths ps : Forall (λ p, ids_in (ep_path p)) ps →
  reads decode_event_requests (enc_children (map (event_path_tree Anonymous) ps)) ps.
Proof.
  intros Hps. apply walk_at; [by apply wf_event_paths|].
  rewrite <- (map_id ps) at 2. apply (walks_append _ _ (λ p, p) ps []).
  intros acc p Hp. rewrite Forall_forall in Hps.
  eapply reads_bind_end; [by apply (reads_event_path Anonymous), Hps|apply reads_ret].
Qed.

Lemma reads_event_min m : in_u 64 m →
  reads decode_event_filters (enc_children [Node Anonymous KStruct [Leaf (Context 1) (VUint m)]]) (Some m).
Proof.
  intros Hm. assert (Hl : Forall wf_tree [Leaf (Context 1) (VUint m)]).
  { by apply Forall_singleton, (wf_uint _ _ 64). }
  apply walk_at; [by apply Forall_singleton, wf_anon_node|].
  eapply walks_node; [|constructor].
  apply walks_scalars; [by repeat constructor|done|].
  eapply walks_leaf; [apply reads_ret|constructor].
Qed.

Definition subscribe_acc (sp : SubscribeSpec) (evs : list EventPathIn) (min : option Z)
    (filtered : option bool) : SubscribeAcc :=
  Build_SubscribeAcc (Some (sp_keep sp)) (Some (sp_min_floor sp)) (Some (sp_max_ceiling sp))
    (cluster_paths (sp_clusters sp)) filtered evs min.

Lemma walks_subscribe sp : spec_ok sp →
  walks subscribe_request_step SubscribeAcc_empty (subscribe_tree sp)
    (subscribe_acc sp (sp_event_paths sp) (sp_event_min sp) (Some true)).
Proof.
  intros (Hm & HM & Hcs & Hps & He). unfold subscribe_tree.
  apply walks_app with (subscribe_acc sp [] None None).
  { eapply walks_leaf; [apply reads_ret|].
    do 2 (eapply walks_leaf; [eapply reads_bind_nil; [by apply reads_narrow|apply reads_ret]|]).
    eapply walks_node; [eapply reads_bind_end; [by apply reads_clusters|apply reads_ret]|constructor]. }
  apply walks_app with (subscribe_acc sp (sp_event_paths sp) None None).
  { unfold event_paths_tree. case_match eqn:Hp; [constructor|]. rewrite <- Hp in *.
    eapply walks_node; [eapply reads_bind_end; [by apply reads_event_paths|apply reads_ret]|constructor]. }
  apply walks_app with (subscribe_acc sp (sp_event_paths sp) (sp_event_min sp) None).
  { unfold event_min_tree. destruct (sp_event_min sp) as [m|]; [|constructor].
    eapply walks_node; [eapply reads_bind_end; [by apply reads_event_min|apply reads_ret]|constructor]. }
  do 2 (eapply walks_leaf; [apply reads_ret|]). constructor.
Qed.

Lemma decode_subscribe_request_at sp : spec_ok sp →
  let t := Node Anonymous KStruct (subscribe_tree sp) in
  small (enc_tree t) →
  decode_subscribe_request (enc_tree t) =
  Ok {| sr_keep := sp_keep sp; sr_min_floor := sp_min_floor sp; sr_max_ceiling := sp_max_ceiling sp;
        sr_paths := cluster_paths (sp_clusters sp); sr_filtered := true;
        sr_event_paths := sp_event_paths sp; sr_event_min := sp_event_min sp |}.
Proof.
  intros Hsp t Hs. pose proof (wf_subscribe sp Hsp) as Hwf.
  eapply run_struct; [done|done|apply walk_at; [done|by apply walks_subscribe]|].
  repeat (eapply reads_bind_nil; [apply reads_ok_or|]). apply reads_ret.
Qed.

Lemma subscribe_response_at id i : in_u 32 id → in_u 16 i →
  ∃ b, encode_subscribe_response id i = Ok b ∧ (small b → decode_subscribe_response b = Ok (id, i)).
Proof.
  intros Hid Hi. set (ch := [Leaf (Context 0) (VUint id); Leaf (Context 2) (VUint i);
                            Leaf (Context 255) (VUint IM_REVISION)]).
  assert (Hwf : Forall wf_tree ch).
  { apply Forall_cons; split; [by apply (wf_uint _ _ 32)|]. apply Forall_cons; split; [by apply (wf_uint _ _ 16)|].
    apply Forall_singleton, wf_revision. }
  exists (enc_tree (Node Anonymous KStruct ch)). split.
  - apply to_vec_writes, writes_struct; subst ch; eauto with emits.
  - intros Hs. apply (run_struct _ _ _ (Some id, Some i)); [done|done| |].
    + apply walks_scalars; [by repeat constructor|done|].
      do 2 (eapply walks_leaf; [eapply reads_bind_nil; [by apply reads_narrow|apply reads_ret]|]).
      eapply walks_leaf; [apply reads_ret|constructor].
    + repeat (eapply reads_bind_nil; [apply reads_ok_or|]). apply reads_ret.
Qed.

(** *** Reports *)

Section reports.
Context {D : Type} (decode : Element → IR D).

(** The value decoder reads the element [t] as [d]. *)
Definition decodes (t : tree) (d : D) : Prop := reads (decode (root_el t)) (inner t) d.

Definition value_ok (t : tree) : Prop := wf_tree t ∧ small (enc_tree t).

(** An entry, its tree, and what the controller decodes it to. *)
Inductive attr_entry : ReportEntryOut → tree → ReportIb D → Prop :=
  | attr_data ep cl a dv t d :
      ids_ok ep cl (Some a) → in_u 32 dv → value_ok t → decodes (retag (Context 2) t) d →
      attr_entry
        (REData {| ar_endpoint := ep; ar_cluster := cl; ar_attribute := a; ar_data_version := dv;
                   ar_value := enc_tree t |})
        (Node Anonymous KStruct
          [Node (Context 1) KStruct
             [Leaf (Context 0) (VUint dv); Node (Context 1) KList (ids_tree 2 ep cl (Some a));
              retag (Context 2) t] ])
        {| ri_path := (Some ep, Some cl, Some a); ri_append := false; ri_data := Some d;
           ri_status := None; ri_has_data := true |}
  | attr_status ep cl a st :
      ids_ok ep cl (Some a) → in_u 8 st →
      attr_entry (REStatus ep cl a st)
        (Node Anonymous KStruct
          [Node (Context 0) KStruct
             [Node (Context 0) KList (ids_tree 2 ep cl (Some a)); status_tree (Context 1) st None] ])
        {| ri_path := (Some ep, Some cl, Some a); ri_append := false; ri_data := None;
           ri_status := Some st; ri_has_data := false |}.

Lemma attr_entry_writes e t ib : attr_entry e t ib → writes (encode_attribute_report_ib e) (enc_tree t).
Proof.
  destruct 1 as [ep cl a dv t d Hi Hdv [Hwf Hs] Hd|ep cl a st Hi Hst];
    (apply writes_struct, emits_cons; [|apply emits_end]); cbn [ar_endpoint ar_cluster ar_attribute ar_data_version ar_value].
  - apply writes_struct, emits_cons; [apply writes_put_uint|].
    apply emits_cons; [apply writes_list, emits_put_ids|].
    apply emits_cons; [by apply writes_raw|apply emits_end].
  - apply writes_struct, emits_cons; [apply writes_list, emits_put_ids|].
    apply emits_cons; [apply writes_status|apply emits_end].
Qed.

Lemma attr_entry_wf e t ib : attr_entry e t ib → wf_tree t.
Proof.
  destruct 1 as [ep cl a dv t d Hi Hdv [Hwf Hs] Hd|ep cl a st Hi Hst];
    (apply wf_anon_node, Forall_singleton, wf_node; [lia|]).
  - apply Forall_cons; split; [by apply (wf_uint _ _ 32)|].
    apply Forall_cons; split; [by apply wf_attribute_path|]. by apply Forall_singleton, wf_retag.
  - apply Forall_cons; split; [by apply wf_attribute_path|]. by apply Forall_singleton, wf_status.
Qed.

Lemma reads_status_full ep cl a st : ids_ok ep cl (Some a) → in_u 8 st →
  reads decode_attribute_status_ib_full
    (enc_children [Node (Context 0) KList (ids_tree 2 ep cl (Some a)); status_tree (Context 1) st None])
    ((Some ep, Some cl, Some a), st).
Proof.
  intros Hi Hst. pose proof (conj Hst I : status_ok st None) as Hs.
  assert (Hc : reads decode_status_ib_code (inner (status_tree (Context 1) st None)) (Some st)).
  { apply walk_at; [by apply (wf_children (Context 1) KStruct), (wf_status 1 st None)|].
    eapply walks_leaf; [|constructor]. eapply reads_bind_nil; [by apply reads_narrow|apply reads_ret]. }
  eapply (reads_bind_end _ _ _ ((Some ep, Some cl, Some a), Some st)).
  - apply walk_at.
    { apply Forall_cons; split; [by apply wf_attribute_path|]. by apply Forall_singleton, wf_status. }
    eapply walks_node; [eapply reads_bind_end; [by apply reads_attribute_path|apply reads_ret]|].
    eapply walks_node; [|constructor]. eapply reads_bind_end; [exact Hc|apply reads_ret].
  - eapply reads_bind_nil; [apply reads_ok_or|apply reads_ret].
Qed.

Lemma reads_data_full ep cl a dv t d : ids_ok ep cl (Some a) → in_u 32 dv → wf_tree t →
  decodes (retag (Context 2) t) d →
  reads (decode_attribute_data_ib_full decode)
    (enc_children [Leaf (Context 0) (VUint dv); Node (Context 1) KList (ids_tree 2 ep cl (Some a));
                   retag (Context 2) t])
    (((Some ep, Some cl, Some a), false), Some d).
Proof.
  intros Hi Hdv Hwf Hd. apply walk_at.
  { apply Forall_cons; split; [by apply (wf_uint _ _ 32)|].
    apply Forall_cons; split; [by apply wf_attribute_path|]. by apply Forall_singleton, wf_retag. }
  eapply walks_leaf; [apply reads_ret|].
  eapply walks_node; [eapply reads_bind_end; [by apply reads_attribute_path|apply reads_ret]|].
  eapply walks_cons; [|constructor]. unfold decodes in Hd.
  assert (Ht : el_tag (root_el (retag (Context 2) t)) = Context 2) by by destruct t.
  unfold attribute_data_full_step. rewrite Ht.
  eapply reads_bind_end; [exact Hd|apply reads_ret].
Qed.

Lemma attr_entry_reads e t ib : attr_entry e t ib →
  reads (decode_attribute_report_ib_full decode) (inner t) ib.
Proof.
  intros He. pose proof (attr_entry_wf _ _ _ He) as Hwf. revert Hwf.
  destruct He as [ep cl a dv t d Hi Hdv [Hwt Hs] Hd|ep cl a st Hi Hst];
    intros [_ Hwf]%wf_children; (apply walk_at; [exact Hwf|]); (eapply walks_node; [|constructor]).
  - eapply reads_bind_end; [by apply (reads_data_full ep cl a dv t d)|apply reads_ret].
  - eapply reads_bind_end; [by apply (reads_status_full ep cl a st)|apply reads_ret].
Qed.

Lemma attr_entry_struct e t ib : attr_entry e t ib → el_value (root_el t) = VStructStart.
Proof. by destruct 1. Qed.

Lemma walks_reports es ts ibs acc : Forall3 attr_entry es ts ibs →
  walks (report_items_step decode) acc ts (acc ++ ibs).
Proof.
  intros Hall. revert acc.
  induction Hall as [|e t ib es ts ibs Ht Hall IH]; intros acc; [rewrite app_nil_r; constructor|].
  econstructor.
  - unfold report_items_step. rewrite (attr_entry_struct _ _ _ Ht).
    eapply reads_bind_end; [by eapply attr_entry_reads|apply reads_ret].
  - replace (acc ++ ib :: ibs) with ((acc ++ [ib]) ++ ibs) by by rewrite <- app_assoc. apply IH.
Qed.

(** An event entry, its tree, and what the controller decodes it to. *)
Inductive event_entry : EventEntryOut → tree → EventReport D → Prop :=
  | event_data ep cl ev n pr ts (data : option (tree * D)) :
      ids_in (Some ep, Some cl, Some ev) → in_u 64 n → in_u 64 ts →
      from_option (λ p, value_ok p.1 ∧ decodes (retag (Context 7) p.1) p.2) True data →
      event_entry
        (EEData {| ev_endpoint := ep; ev_cluster := cl; ev_event := ev; ev_number := n;
                   ev_priority := pr; ev_timestamp := ts;
                   ev_data := match data with Some (t, _) => Some (enc_tree t) | None => None end |})
        (Node Anonymous KStruct
          [Node (Context 1) KStruct
             ([event_path_tree (Context 0) (event_path ep cl ev); Leaf (Context 1) (VUint n);
               Leaf (Context 2) (VUint (priority_code pr)); Leaf (Context 4) (VUint ts)] ++
              match data with Some (t, _) => [retag (Context 7) t] | None => [] end)])
        (EData {| ed_endpoint := ep; ed_cluster := cl; ed_event := ev; ed_number := n;
                  ed_priority := pr; ed_timestamp := Some (TsSystem ts);
                  ed_data := match data with Some (_, d) => Some d | None => None end |})
  | event_status ep cl ev st :
      ids_in (Some ep, Some cl, Some ev) → in_u 8 st →
      event_entry (EEStatus ep cl ev st)
        (Node Anonymous KStruct
          [Node (Context 0) KStruct
             [event_path_tree (Context 0) (event_path ep cl ev); status_tree (Context 1) st None] ])
        (EStatus (Some ep, Some cl, Some ev) st).

Lemma event_entry_writes e t r : event_entry e t r → writes (encode_event_entry e) (enc_tree t).
Proof.
  destruct 1 as [ep cl ev n pr ts data Hi Hn Hts Hd|ep cl ev st Hi Hst];
    (apply writes_struct, emits_cons; [|apply emits_end]);
    cbn [ev_endpoint ev_cluster ev_event ev_number ev_priority ev_timestamp ev_data].
  - apply writes_struct. cbn [app]. apply emits_cons; [apply writes_event_path|].
    do 3 (apply emits_cons; [apply writes_put_uint|]).
    destruct data as [ [t d] |]; [|apply emits_end]. destruct Hd as [ [Hwf Hs] _].
    apply emits_cons; [by apply writes_raw|apply emits_end].
  - apply writes_struct, emits_cons; [apply writes_event_path|].
    apply emits_cons; [apply writes_status|apply emits_end].
Qed.

Lemma wf_event_fields ep cl ev n pr ts (data : option (tree * D)) :
  ids_in (Some ep, Some cl, Some ev) → in_u 64 n → in_u 64 ts →
  from_option (λ p, value_ok p.1 ∧ decodes (retag (Context 7) p.1) p.2) True data →
  Forall wf_tree ([event_path_tree (Context 0) (event_path ep cl ev); Leaf (Context 1) (VUint n);
    Leaf (Context 2) (VUint (priority_code pr)); Leaf (Context 4) (VUint ts)] ++
    match data with Some (t, _) => [retag (Context 7) t] | None => [] end).
Proof.
  intros Hi Hn Hts Hd. apply Forall_app. split.
  - apply Forall_cons; split; [by apply wf_event_path|]. apply Forall_cons; split; [by apply (wf_uint _ _ 64)|].
    apply Forall_cons; split; [by apply (wf_uint _ _ 8); [| |destruct pr]|].
    by apply Forall_singleton, (wf_uint _ _ 64).
  - destruct data as [ [t d] |]; [|done]. apply Forall_singleton. by apply wf_retag; [apply Hd|].
Qed.

Lemma event_entry_wf e t r : event_entry e t r → wf_tree t.
Proof.
  destruct 1 as [ep cl ev n pr ts data Hi Hn Hts Hd|ep cl ev st Hi Hst];
    (apply wf_anon_node, Forall_singleton, wf_node; [lia|]).
  - by apply wf_event_fields.
  - apply Forall_cons; split; [by apply wf_event_path|]. by apply Forall_singleton, wf_status.
Qed.

Lemma from_wire_code pr : from_wire (priority_code pr) = Some pr.
Proof. by destruct pr. Qed.

Lemma reads_event_data ep cl ev n pr ts (data : option (tree * D)) prev :
  ids_in (Some ep, Some cl, Some ev) → in_u 64 n → in_u 64 ts →
  from_option (λ p, value_ok p.1 ∧ decodes (retag (Context 7) p.1) p.2) True data →
  reads (decode_event_data_ib decode prev)
    (enc_children ([event_path_tree (Context 0) (event_path ep cl ev); Leaf (Context 1) (VUint n);
       Leaf (Context 2) (VUint (priority_code pr)); Leaf (Context 4) (VUint ts)] ++
       match data with Some (t, _) => [retag (Context 7) t] | None => [] end))
    ({| ed_endpoint := ep; ed_cluster := cl; ed_event := ev; ed_number := n;
        ed_priority := pr; ed_timestamp := Some (TsSystem ts);
        ed_data := match data with Some (_, d) => Some d | None => None end |}, Some (TsSystem ts)).
Proof.
  intros Hi Hn Hts Hd. pose proof (wf_event_fields ep cl ev n pr ts data Hi Hn Hts Hd) as Hwf.
  eapply (reads_bind_end _ _ _
    {| ef_path := (Some ep, Some cl, Some ev); ef_number := Some n; ef_priority := Some pr;
       ef_ts := Some (TsSystem ts); ef_data := match data with Some (_, d) => Some d | None => None end |}).
  - apply walk_at; [exact Hwf|]. cbn [app].
    eapply walks_cons; [eapply reads_bind_end; [by apply (reads_event_path (Context 0))|apply reads_ret]|].
    eapply walks_leaf; [apply reads_ret|].
    eapply walks_leaf; [eapply reads_bind_nil; [rewrite from_wire_code; apply reads_ok_or|apply reads_ret]|].
    eapply walks_leaf; [apply reads_ret|].
    destruct data as [ [t d] |]; [|constructor]. destruct Hd as [_ Hd].
    eapply walks_cons; [|constructor]. unfold decodes in Hd. cbn [fst snd] in Hd.
    assert (Ht : el_tag (root_el (retag (Context 7) t)) = Context 7) by by destruct t.
    unfold event_data_step. rewrite Ht. eapply reads_bind_end; [exact Hd|apply reads_ret].
  - cbn [ef_path ef_number ef_priority ef_ts ef_data].
    do 2 (eapply reads_bind_nil; [apply reads_ok_or|]). destruct prev as [ []|]; apply reads_ret.
Qed.

Lemma reads_event_status ep cl ev st : ids_in (Some ep, Some cl, Some ev) → in_u 8 st →
  reads (decode_event_status_ib (D:=D))
    (enc_children [event_path_tree (Context 0) (event_path ep cl ev); status_tree (Context 1) st None])
    (EStatus (Some ep, Some cl, Some ev) st).
Proof.
  intros Hi Hst. pose proof (conj Hst I : status_ok st None) as Hs.
  assert (Hc : reads (scalars "truncated status ib" event_status_code_step None)
                 (inner (status_tree (Context 1) st None)) (Some st)).
  { apply walks_scalars; [by repeat constructor|by apply (wf_children (Context 1) KStruct), (wf_status 1 st None)|].
    eapply walks_leaf; [|constructor]. eapply reads_bind_nil; [by apply reads_narrow|apply reads_ret]. }
  eapply (reads_bind_end _ _ _ (event_path ep cl ev, Some st)).
  - apply walk_at.
    { apply Forall_cons; split; [by apply wf_event_path|]. by apply Forall_singleton, wf_status. }
    eapply walks_cons; [eapply reads_bind_end; [by apply (reads_event_path (Context 0))|apply reads_ret]|].
    eapply walks_node; [|constructor]. eapply reads_bind_end; [exact Hc|apply reads_ret].
  - eapply reads_bind_nil; [apply reads_ok_or|apply reads_ret].
Qed.

Lemma event_entry_reads e t r prev : event_entry e t r →
  ∃ prev', reads (decode_event_report_ib decode prev) (inner t) (r, prev').
Proof.
  intros He. pose proof (event_entry_wf _ _ _ He) as Hwf. revert Hwf.
  destruct He as [ep cl ev n pr ts data Hi Hn Hts Hd|ep cl ev st Hi Hst]; intros [_ Hwf]%wf_children;
    eexists; (eapply (reads_bind_end _ _ _ (Some _, _));
      [|eapply reads_bind_nil; [apply reads_ok_or|apply reads_ret] ]);
    (apply walk_at; [exact Hwf|]); (eapply walks_node; [|constructor]).
  - eapply reads_bind_end; [by apply (reads_event_data ep cl ev n pr ts data prev)|apply reads_ret].
  - eapply reads_bind_end; [by apply (reads_event_status ep cl ev st)|apply reads_ret].
Qed.

Lemma event_entry_struct e t r : event_entry e t r → el_value (root_el t) = VStructStart.
Proof. by destruct 1. Qed.

Lemma walks_events es ts rs acc prev : Forall3 event_entry es ts rs →
  ∃ prev', walks (event_items_step decode) (acc, prev) ts (acc ++ rs, prev').
Proof.
  intros Hall. revert acc prev.
  induction Hall as [|e t r es ts rs Ht Hall IH]; intros acc prev.
  { exists prev. rewrite app_nil_r. constructor. }
  destruct (event_entry_reads _ _ _ prev Ht) as [prev1 Hr].
  destruct (IH (acc ++ [r]) prev1) as [prev' Hw]. exists prev'. econstructor.
  - unfold event_items_step. rewrite (event_entry_struct _ _ _ Ht).
    eapply reads_bind_end; [exact Hr|apply reads_ret].
  - by rewrite <- app_assoc in Hw.
Qed.

(** *** The whole message *)

Definition events_tree (ts : list tree) : list tree :=
  match ts with [] => [] | _ => [Node (Context 2) KArray ts] end.

Definition trailer_tree (suppress more : bool) : list tree :=
  (if more then [Leaf (Context 3) (VBool true)] else []) ++
  [Leaf (Context 4) (VBool suppress); Leaf (Context 255) (VUint IM_REVISION)].

Definition report_tree (ats ets : list tree) (suppress : bool) (sub : option Z) (more : bool) : list tree :=
  opt_leaf 0 sub ++ [Node (Context 1) KArray ats] ++ events_tree ets ++ trailer_tree suppress more.

Lemma report_data_eq attrs events ats ibs ets reps suppress sub more :
  Forall3 attr_entry attrs ats ibs → Forall3 event_entry events ets reps →
  encode_report_data_full attrs events suppress sub more =
  Ok (enc_tree (Node Anonymous KStruct (report_tree ats ets suppress sub more))).
Proof.
  intros Ha He. apply to_vec_writes, writes_struct, emits_opt_uint.
  cbn [app]. apply emits_cons.
  { apply writes_array. rewrite <- (app_nil_r ats). apply emits_put_all2; [|apply emits_end].
    clear -Ha. induction Ha; constructor; eauto using attr_entry_writes. }
  assert (Ht : emits (report_trailer suppress more) (trailer_tree suppress more)).
  { unfold report_trailer, trailer_tree. cbv zeta. destruct more; cbn [app]; eauto with emits. }
  destruct He as [|e t r events ets reps Het He]; [exact Ht|]. apply emits_cons; [|exact Ht].
  apply writes_array. rewrite <- (app_nil_r (t :: ets)). apply emits_put_all2; [|apply emits_end].
  constructor; [by eapply event_entry_writes|].
  clear -He. induction He; constructor; eauto using event_entry_writes.
Qed.

Lemma attr_entries_wf attrs ats ibs : Forall3 attr_entry attrs ats ibs → Forall wf_tree ats.
Proof. induction 1; constructor; eauto using attr_entry_wf. Qed.
Lemma event_entries_wf events ets reps : Forall3 event_entry events ets reps → Forall wf_tree ets.
Proof. induction 1; constructor; eauto using event_entry_wf. Qed.

Lemma wf_report ats ets suppress sub more :
  Forall wf_tree ats → Forall wf_tree ets → from_option (in_u 32) True sub →
  Forall wf_tree (report_tree ats ets suppress sub more).
Proof.
  intros Ha He Hs. unfold report_tree, trailer_tree. rewrite !Forall_app. split_and!.
  - by apply (wf_opt_leaf _ 32).
  - by apply Forall_singleton, wf_node.
  - destruct He as [|t ts Ht Hts]; [done|]. apply Forall_singleton, wf_node; [lia|]. by constructor.
  - destruct more; [by apply Forall_singleton|done].
  - apply Forall_cons; split; [done|]. apply Forall_singleton, wf_revision.
Qed.

Lemma walks_report_data ats ets attrs ibs suppress sub more :
  Forall3 attr_entry attrs ats ibs → Forall wf_tree ets → from_option (in_u 32) True sub →
  walks (report_data_step decode)
    {| rd_reports := []; rd_subscription := None; rd_more := false; rd_suppress := false |}
    (report_tree ats ets suppress sub more)
    {| rd_reports := ibs; rd_subscription := sub; rd_more := more; rd_suppress := suppress |}.
Proof.
  intros Ha He Hs.
  apply walks_app with {| rd_reports := []; rd_subscription := sub; rd_more := false; rd_suppress := false |}.
  { destruct sub as [s|]; [|constructor].
    eapply walks_leaf; [eapply reads_bind_nil; [by apply reads_narrow|apply reads_ret]|constructor]. }
  apply walks_app with {| rd_reports := ibs; rd_subscription := sub; rd_more := false; rd_suppress := false |}.
  { eapply walks_node; [|constructor]. eapply reads_bind_end; [|apply reads_ret].
    apply walk_at; [by eapply attr_entries_wf|]. by apply (walks_reports attrs ats ibs []). }
  apply walks_app with {| rd_reports := ibs; rd_subscription := sub; rd_more := false; rd_suppress := false |}.
  { destruct He as [|t ts Ht Hts]; [constructor|].
    eapply walks_node; [|constructor]. apply (reads_skip_other (Context 2) KArray). by constructor. }
  unfold trailer_tree.
  apply walks_app with {| rd_reports := ibs; rd_subscription := sub; rd_more := more; rd_suppress := false |}.
  { destruct more; [|constructor]. eapply walks_leaf; [apply reads_ret|constructor]. }
  do 2 (eapply walks_leaf; [apply reads_ret|]). constructor.
Qed.

Lemma walks_event_reports ats ets events reps suppress sub more :
  Forall wf_tree ats → Forall3 event_entry events ets reps →
  walks (event_reports_step decode) [] (report_tree ats ets suppress sub more) reps.
Proof.
  intros Ha He.
  apply walks_app with (@nil (EventReport D)).
  { destruct sub; [|constructor]. eapply walks_leaf; [apply reads_ret|constructor]. }
  apply walks_app with (@nil (EventReport D)).
  { eapply walks_node; [|constructor]. by apply (reads_skip_other (Context 1) KArray). }
  apply walks_app with reps.
  { destruct (walks_events events ets reps [] None He) as [prev' Hw].
    pose proof (event_entries_wf _ _ _ He) as Hwf.
    destruct He as [|e t r events ets reps Het He]; [constructor|].
    eapply walks_node; [|constructor].
    eapply reads_bind_end; [apply walk_at; [exact Hwf|exact Hw]|apply reads_ret]. }
  unfold trailer_tree. apply walks_app with reps.
  { destruct more; [|constructor]. eapply walks_leaf; [apply reads_ret|constructor]. }
  do 2 (eapply walks_leaf; [apply reads_ret|]). constructor.
Qed.
End reports.

(** ** Properties *)

(** A report survives the wire: whatever attribute data, attribute
    statuses, event data and event statuses the device puts in a ReportData,
    with or without a subscription id and the more-chunks flag, the
    controller's attribute decoder returns the attribute entries in order with
    their paths and decoded values and the flags, and its event decoder the
    event entries in order with their paths, numbers, priorities and
    timestamps. *)
Theorem report_round_trip {D} (decode : Element → IR D) attrs ats ibs events ets reps suppress sub more :
  Forall3 (attr_entry decode) attrs ats ibs → Forall3 (event_entry decode) events ets reps →
  from_option (in_u 32) True sub →
  ∃ b, encode_report_data_full attrs events suppress sub more = Ok b ∧
    (small b →
     decode_report_data_with decode b =
       Ok {| rd_reports := ibs; rd_subscription := sub; rd_more := more; rd_suppress := suppress |} ∧
     decode_event_reports decode b = Ok reps).
Proof.
  intros Ha He Hs. eexists. split; [by eapply report_data_eq|]. intros Hb.
  assert (Hwf : Forall wf_tree (report_tree ats ets suppress sub more)).
  { apply wf_report; [by eapply attr_entries_wf|by eapply event_entries_wf|done]. }
  split; (apply run_message; [exact Hwf|exact Hb|apply walk_at; [exact Hwf|] ]).
  - eapply walks_report_data; [exact Ha|by eapply event_entries_wf|exact Hs].
  - by eapply walks_event_reports; [eapply attr_entries_wf|].
Qed.

Lemma data_to_im_scalar t : match t with Leaf _ v => wf_tree t | _ => False end →
  reads (data_to_im (root_el t)) (inner t) (Ok (root_value t)).
Proof. destruct t as [tag v|]; [|done]. intros (_ & _ & Hv). destruct v; try done; apply reads_ret. Qed.

(** The OnOff attribute of endpoint 1 and one Info event with the scalar
    decoder. *)
Lemma report_round_trip_witness :
  ∃ b, encode_report_data_full
         [REData {| ar_endpoint := 1; ar_cluster := 6; ar_attribute := 0; ar_data_version := 7; ar_value := [9] |}]
         [EEData {| ev_endpoint := 1; ev_cluster := 59; ev_event := 1; ev_number := 5; ev_priority := Info;
                    ev_timestamp := 100; ev_data := None |}] true (Some 3) false = Ok b ∧
    decode_report_data_with data_to_im b =
      Ok {| rd_reports := [{| ri_path := (Some 1, Some 6, Some 0); ri_append := false;
              ri_data := Some (Ok (VBool true)); ri_status := None; ri_has_data := true |}];
            rd_subscription := Some 3; rd_more := false; rd_suppress := true |} ∧
    decode_event_reports data_to_im b =
      Ok [EData {| ed_endpoint := 1; ed_cluster := 59; ed_event := 1; ed_number := 5; ed_priority := Info;
                   ed_timestamp := Some (TsSystem 100); ed_data := None |}].
Proof.
  edestruct (report_round_trip data_to_im) as (b & Hb & Hd).
  - apply Forall3_cons; [|apply Forall3_nil].
    apply (attr_data data_to_im 1 6 0 7 (Leaf Anonymous (VBool true)) (Ok (VBool true))); try done.
    by apply data_to_im_scalar.
  - apply Forall3_cons; [|apply Forall3_nil]. apply (event_data data_to_im 1 59 1 5 Info 100 None); done.
  - instantiate (1 := Some 3). done.
  - exists b. split; [exact Hb|]. apply Hd. vm_compute in Hb. by injection Hb as <-.
Defined.

(** Read and subscribe requests survive the wire: the device sees the one
    path of a read (wildcard attribute included) with fabric filtering on, a
    subscription's intervals, keep flag, event paths, event minimum and cluster
    paths - the full wildcard when no cluster is named - and the controller the
    id and interval of the SubscribeResponse. *)
Theorem read_subscribe_round_trip ep cl a sp id :
  ids_ok ep cl a → spec_ok sp → in_u 32 id →
  (∃ b, encode_read_request_inner ep cl a = Ok b ∧
     (small b → decode_read_request_message b =
        Ok {| rr_paths := [(Some ep, Some cl, a)]; rr_filtered := true |})) ∧
  (∃ b, encode_subscribe_request_full sp = Ok b ∧
     (small b → decode_subscribe_request b =
        Ok {| sr_keep := sp_keep sp; sr_min_floor := sp_min_floor sp; sr_max_ceiling := sp_max_ceiling sp;
              sr_paths := cluster_paths (sp_clusters sp); sr_filtered := true;
              sr_event_paths := sp_event_paths sp; sr_event_min := sp_event_min sp |})) ∧
  (∃ b, encode_subscribe_response id (sp_max_ceiling sp) = Ok b ∧
     (small b → decode_subscribe_response b = Ok (id, sp_max_ceiling sp))).
Proof.
  intros Hi Hsp Hid. split_and!.
  - eexists. split; [apply read_request_eq|]. intros Hb. by apply decode_read_request_at.
  - eexists. split; [apply subscribe_request_eq|]. intros Hb. by apply decode_subscribe_request_at.
  - apply subscribe_response_at; [done|apply Hsp].
Qed.

(** A wildcard read of OnOff and a subscription to it with urgent events from
    number 3. *)
Lemma read_subscribe_round_trip_witness :
  ∃ b, encode_subscribe_request_full
         {| sp_min_floor := 1; sp_max_ceiling := 60; sp_keep := true; sp_clusters := [6; 8];
            sp_event_paths := [WILDCARD_URGENT]; sp_event_min := Some 3 |} = Ok b ∧
    decode_subscribe_request b =
      Ok {| sr_keep := true; sr_min_floor := 1; sr_max_ceiling := 60;
            sr_paths := [(None, Some 6, None); (None, Some 8, None)]; sr_filtered := true;
            sr_event_paths := [WILDCARD_URGENT]; sr_event_min := Some 3 |}.
Proof.
  destruct (read_subscribe_round_trip 1 6 None
    {| sp_min_floor := 1; sp_max_ceiling := 60; sp_keep := true; sp_clusters := [6; 8];
       sp_event_paths := [WILDCARD_URGENT]; sp_event_min := Some 3 |} 9) as (_ & (b & Hb & Hd) & _); try done.
  { split_and!; try done; by repeat constructor. }
  exists b. split; [exact Hb|]. apply Hd. vm_compute in Hb. by injection Hb as <-.
Defined.

(** ** Untrusted bytes *)

Definition status_path_in (p : ids * Z) : Prop := ids_in p.1 ∧ in_u 8 p.2.

Lemma safe_attribute_requests : safe decode_attribute_requests (Forall ids_in).
Proof.
  apply walk_safe; [|done]. intros ps el Hps _ _. apply safe_safe1. unfold attribute_requests_step.
  case_match; try apply safe_throw; try (by apply safe_skip_then).
  safe_map safe_attribute_path. apply Forall_app. split; [done|]. by apply Forall_singleton.
Qed.

Lemma decode_read_request_safe payload : bytes_ok payload → small payload →
  total (decode_read_request_message payload) (λ r, Forall ids_in (rr_paths r)).
Proof.
  apply (safe_message _ _ (λ s, Forall ids_in s.1)); [|intros [ps o] Hps; by apply safe_ret].
  apply walk_safe; [|done]. intros s el Hs _ _. apply safe_safe1. unfold read_request_step.
  repeat case_match; try (by apply safe_skip_other); try (by apply safe_ret).
  by safe_map safe_attribute_requests.
Qed.

Lemma safe_event_path : safe decode_event_path_ib (λ p, ids_in (ep_path p)).
Proof.
  apply safe_scalars; [|done]. intros [p u] el Hp _. cbn [ep_path] in Hp.
  assert (Hids : safe (let! i := ids_step 1 "endpoint out of range" "cluster id out of range"
      "event id out of range" (λ p _, ret p) p el in ret {| ep_path := i; ep_urgent := u |})
      (λ p, ids_in (ep_path p))).
  { eapply safe_bind; [apply safe_ids_step; [intros; by apply safe_ret|done]|]. intros i Hi. by apply safe_ret. }
  unfold event_path_step. cbn [ep_path ep_urgent].
  repeat case_match; first [exact Hids | by apply safe_ret].
Qed.

Lemma safe_event_requests : safe decode_event_requests (Forall (λ p, ids_in (ep_path p))).
Proof.
  apply walk_safe; [|done]. intros ps el Hps _ _. apply safe_safe1. unfold event_requests_step.
  case_match; try apply safe_throw; try (by apply safe_skip_then).
  safe_map safe_event_path. apply Forall_app. split; [done|]. by apply Forall_singleton.
Qed.

Lemma safe_event_filters : safe decode_event_filters (from_option (in_u 64) True).
Proof.
  apply walk_safe; [|done]. intros m el Hm _ _. apply safe_safe1. unfold event_filters_step.
  case_match; try apply safe_throw; try (by apply safe_skip_then).
  apply safe_scalars; [|done]. intros m' e Hm' [_ Hv]. unfold event_min_step.
  repeat case_match; by apply safe_ret.
Qed.

Definition subscribe_in (r : SubscribeRequestIn) : Prop :=
  in_u 16 (sr_min_floor r) ∧ in_u 16 (sr_max_ceiling r) ∧ Forall ids_in (sr_paths r) ∧
  Forall (λ p, ids_in (ep_path p)) (sr_event_paths r) ∧ from_option (in_u 64) True (sr_event_min r).

Definition subscribe_acc_in (s : SubscribeAcc) : Prop :=
  from_option (in_u 16) True (sa_min s) ∧ from_option (in_u 16) True (sa_max s) ∧
  Forall ids_in (sa_paths s) ∧ Forall (λ p, ids_in (ep_path p)) (sa_event_paths s) ∧
  from_option (in_u 64) True (sa_event_min s).

Lemma safe_subscribe_step s el : subscribe_acc_in s → safe (subscribe_request_step s el) subscribe_acc_in.
Proof.
  intros Hs. assert (Ho : safe (skip_other s el) subscribe_acc_in) by by apply safe_skip_other.
  unfold subscribe_request_step. destruct s as [keep mn mx ps fi evs em].
  destruct Hs as (Hmn & Hmx & Hps & Hevs & Hem). cbn in Hmn, Hmx, Hps, Hevs, Hem.
  repeat case_match; try exact Ho; try (by apply safe_ret).
  all: first [by safe_map safe_narrow_im | by safe_map safe_attribute_requests
             | by safe_map safe_event_requests | by safe_map safe_event_filters].
Qed.

Lemma decode_subscribe_request_safe payload : bytes_ok payload → small payload →
  total (decode_subscribe_request payload) subscribe_in.
Proof.
  apply (safe_message _ _ subscribe_acc_in).
  - apply walk_safe; [|done]. intros s el Hs _ _. by apply safe_safe1, safe_subscribe_step.
  - intros s (Hmn & Hmx & Hps & Hevs & Hem).
    eapply safe_bind; [by apply (safe_ok_or _ _ (λ _, True)); destruct (sa_keep s)|]. intros k _.
    eapply safe_bind; [by apply (safe_ok_or (sa_min s) _ (in_u 16))|]. intros mn' Hmn'.
    eapply safe_bind; [by apply (safe_ok_or (sa_max s) _ (in_u 16))|]. intros mx' Hmx'. by apply safe_ret.
Qed.

Lemma decode_subscribe_response_safe payload : bytes_ok payload → small payload →
  total (decode_subscribe_response payload) (λ p, in_u 32 p.1 ∧ in_u 16 p.2).
Proof.
  apply (safe_message _ _ (λ s, from_option (in_u 32) True s.1 ∧ from_option (in_u 16) True s.2)).
  - apply safe_scalars; [|done]. intros s el [H1 H2] _. unfold subscribe_response_step.
    repeat case_match; try (by apply safe_ret); by safe_map safe_narrow_im.
  - intros [i m] [H1 H2]. cbn [fst snd] in *.
    eapply safe_bind; [by apply (safe_ok_or i _ (in_u 32))|]. intros i' Hi.
    eapply safe_bind; [by apply (safe_ok_or m _ (in_u 16))|]. intros m' Hm. by apply safe_ret.
Qed.

Lemma safe_status_full : safe decode_attribute_status_ib_full status_path_in.
Proof.
  eapply (safe_bind _ _ (λ s, ids_in s.1 ∧ from_option (in_u 8) True s.2)).
  - apply walk_safe; [|done]. intros [p o] el [Hp Ho] _ _. apply safe_safe1.
    unfold attribute_status_full_step.
    repeat case_match; try (by apply safe_skip_other).
    + by safe_map safe_attribute_path.
    + eapply safe_bind; [apply safe_status_code|]. intros [v|] Hv; by apply safe_ret.
  - intros [p o] [Hp Ho]. eapply safe_bind; [by apply (safe_ok_or o _ (in_u 8))|]. intros v Hv. by apply safe_ret.
Qed.

(** A value decoder that is total inside a container. *)
Definition decoder_safe {D} (decode : Element → IR D) (P : D → Prop) : Prop :=
  ∀ el, wf_element el → el_value el ≠ VContainerEnd → safe1 (el_value el) (decode el) P.

Section reports_safe.
Context {D : Type} (decode : Element → IR D) (P : D → Prop) (Hdec : decoder_safe decode P).

Definition ib_in (r : ReportIb D) : Prop :=
  ids_in (ri_path r) ∧ from_option P True (ri_data r) ∧ from_option (in_u 8) True (ri_status r).

Lemma safe_data_full : safe (decode_attribute_data_ib_full decode)
  (λ s, ids_in s.1.1 ∧ from_option P True s.2).
Proof.
  apply walk_safe; [|done]. intros [p o] el [Hp Ho] Hel Hne.
  assert (Hs : safe1 (el_value el) (skip_other (p, o) el) (λ s, ids_in s.1.1 ∧ from_option P True s.2)).
  { apply safe_safe1. by apply safe_skip_other. }
  assert (Hd : safe1 (el_value el) (let! d := decode el in ret (p, Some d)) (λ s, ids_in s.1.1 ∧ from_option P True s.2)).
  { eapply safe1_bind; [by apply Hdec|]. intros d Hd. by apply safe_ret. }
  unfold attribute_data_full_step. repeat case_match; try exact Hs; try exact Hd.
  apply safe_safe1. by safe_map safe_attribute_path.
Qed.

Lemma safe_report_full : safe (decode_attribute_report_ib_full decode) ib_in.
Proof.
  apply walk_safe; [|done]. intros s el (Hp & Hd & Hs) _ _. apply safe_safe1.
  unfold attribute_report_full_step.
  repeat case_match; try (by apply safe_skip_other).
  - eapply safe_bind; [apply safe_status_full|]. intros [path v] [Hp' Hv]. by apply safe_ret.
  - eapply safe_bind; [apply safe_data_full|]. intros [ [path la] d] [Hp' Hd']. by apply safe_ret.
Qed.

Lemma decode_report_data_safe payload : bytes_ok payload → small payload →
  total (decode_report_data_with decode payload)
    (λ r, Forall ib_in (rd_reports r) ∧ from_option (in_u 32) True (rd_subscription r)).
Proof.
  apply safe_payload, walk_safe; [|done]. intros s el [Hr Hs] _ _. apply safe_safe1.
  assert (Hi : safe (items "truncated attribute reports" (report_items_step decode) (rd_reports s)) (Forall ib_in)).
  { apply walk_safe; [|done]. intros rs e Hrs _ _. apply safe_safe1. unfold report_items_step.
    case_match; try apply safe_throw. safe_map safe_report_full.
    apply Forall_app. split; [done|]. by apply Forall_singleton. }
  unfold report_data_step.
  repeat case_match; try (by apply safe_skip_other); try (by apply safe_ret).
  - by safe_map safe_narrow_im.
  - by safe_map Hi.
Qed.

(** *** Events *)

Definition event_data_in (d : EventData D) : Prop :=
  in_u 16 (ed_endpoint d) ∧ in_u 32 (ed_cluster d) ∧ in_u 32 (ed_event d) ∧ in_u 64 (ed_number d) ∧
  from_option P True (ed_data d).

Definition event_in (r : EventReport D) : Prop :=
  match r with EData d => event_data_in d | EStatus path status => ids_in path ∧ in_u 8 status end.

Definition event_fields_in (s : EventFields (D:=D)) : Prop :=
  ids_in (ef_path s) ∧ from_option (in_u 64) True (ef_number s) ∧ from_option P True (ef_data s).

Lemma safe_event_status : safe (decode_event_status_ib (D:=D)) event_in.
Proof.
  eapply (safe_bind _ _ (λ s, ids_in (ep_path s.1) ∧ from_option (in_u 8) True s.2)).
  - apply walk_safe; [|done]. intros [p o] el [Hp Ho] _ _. apply safe_safe1. unfold event_status_step.
    repeat case_match; try (by apply safe_skip_other).
    + by safe_map safe_event_path.
    + eapply (safe_bind _ _ (from_option (in_u 8) True)); [|intros o' Ho'; by apply safe_ret].
      apply safe_scalars; [|done]. intros o' e Ho' _. unfold event_status_code_step.
      repeat case_match; try (by apply safe_ret). by safe_map safe_narrow_im.
  - intros [p o] [Hp Ho]. eapply safe_bind; [by apply (safe_ok_or o _ (in_u 8))|]. intros v Hv. by apply safe_ret.
Qed.

Lemma safe_event_data_step s el : event_fields_in s → wf_element el → el_value el ≠ VContainerEnd →
  safe1 (el_value el) (event_data_step decode s el) event_fields_in.
Proof.
  intros (Hp & Hn & Hd) Hel Hne.
  assert (Ho : safe1 (el_value el) (skip_other s el) event_fields_in) by by apply safe_safe1, safe_skip_other.
  assert (Hdata : safe1 (el_value el) (let! d := decode el in
      ret {| ef_path := ef_path s; ef_number := ef_number s; ef_priority := ef_priority s;
             ef_ts := ef_ts s; ef_data := Some d |}) event_fields_in).
  { eapply safe1_bind; [by apply Hdec|]. intros d Hd'. by apply safe_ret. }
  assert (Hpr : ∀ v, safe (im_ok_or (from_wire v) "unknown event priority") (λ _, True)).
  { intros v. apply safe_ok_or. by destruct (from_wire v). }
  pose proof Hel as [_ Hv]. unfold event_data_step.
  repeat case_match;
    lazymatch goal with
    | |- safe1 _ (skip_other _ _) _ => exact Ho
    | |- safe1 _ (bind (decode _) _) _ => exact Hdata
    | |- safe1 _ (ret _) _ => by apply safe_safe1, safe_ret
    | |- safe1 _ (bind decode_event_path_ib _) _ => apply safe_safe1; by safe_map safe_event_path
    | |- _ => apply safe_safe1; by safe_map Hpr
    end.
Qed.

Lemma safe_event_data prev : safe (decode_event_data_ib decode prev) (λ r, event_data_in r.1).
Proof.
  eapply (safe_bind _ _ event_fields_in).
  - apply walk_safe; [|done]. intros s el Hs Hel Hne. by apply safe_event_data_step.
  - intros [ [ [ [ep|] [cl|] ] [ev|] ] n pr ts d] [(He & Hc & Hv) [Hn Hd]]; try apply safe_throw.
    cbn [ef_path ef_number ef_priority ef_ts ef_data from_option] in *. cbv zeta.
    eapply safe_bind; [by apply (safe_ok_or n _ (in_u 64))|]. intros n' Hn'.
    eapply safe_bind; [by apply (safe_ok_or pr _ (λ _, True)); destruct pr|]. intros pr' _. by apply safe_ret.
Qed.

Lemma safe_event_report prev : safe (decode_event_report_ib decode prev) (λ r, event_in r.1).
Proof.
  eapply (safe_bind _ _ (λ s, from_option event_in True s.1)).
  - apply walk_safe; [|done]. intros [o pv] el Ho _ _. apply safe_safe1. unfold event_report_step.
    repeat case_match; try (by apply safe_skip_other).
    + by safe_map safe_event_status.
    + eapply safe_bind; [apply safe_event_data|]. intros [d pv'] Hd. by apply safe_ret.
  - intros [o pv] Ho. eapply safe_bind; [by apply (safe_ok_or o _ event_in)|]. intros r Hr. by apply safe_ret.
Qed.

Lemma decode_event_reports_safe payload : bytes_ok payload → small payload →
  total (decode_event_reports decode payload) (Forall event_in).
Proof.
  apply safe_payload, walk_safe; [|done]. intros out el Hout _ _. apply safe_safe1.
  assert (Hi : safe (items "truncated event reports" (event_items_step decode) (out, None))
                 (λ s, Forall event_in s.1)).
  { apply walk_safe; [|done]. intros [rs pv] e Hrs _ _. apply safe_safe1. unfold event_items_step.
    case_match; try apply safe_throw. eapply safe_bind; [apply safe_event_report|]. intros [r pv'] Hr.
    apply safe_ret, Forall_app. split; [done|]. by apply Forall_singleton. }
  unfold event_reports_step. repeat case_match; try (by apply safe_skip_other).
  eapply safe_bind; [exact Hi|]. intros [rs pv] Hrs. by apply safe_ret.
Qed.
End reports_safe.

(** The scalar decoder of [read_attribute]. *)
Lemma data_to_im_safe : decoder_safe data_to_im (λ d, match d with Ok v => wf_value v | _ => True end).
Proof.
  intros el [_ Hv] Hne. apply safe_safe1. unfold data_to_im.
  destruct (el_value el); try (by apply safe_ret); by apply safe_skip_then.
Qed.

(** C32. Every Interaction Model decoder of the workspace is total on arbitrary
    bytes: it returns a message whose numbers fit the Rust types and whose raw
    payloads are single well-formed elements, or an error - never a panic, never
    a walk past the payload. For ReportData this holds of any value decoder that
    is itself total. *)
Theorem im_decoders_untrusted {D} (decode : Element → IR D) (P : D → Prop) payload :
  decoder_safe decode P → bytes_ok payload → small payload →
  total (decode_invoke_request payload) request_in ∧
  total (decode_invoke_response payload) (λ o, status_ok (io_status o) (io_cluster_status o)) ∧
  total (decode_invoke_response_data payload) response_in ∧
  total (decode_status_response payload) (in_u 8) ∧
  total (decode_write_request payload) (λ r, Forall write_in (wr_writes r)) ∧
  total (decode_write_response payload) (in_u 8) ∧
  total (decode_read_request_message payload) (λ r, Forall ids_in (rr_paths r)) ∧
  total (decode_subscribe_request payload) subscribe_in ∧
  total (decode_subscribe_response payload) (λ p, in_u 32 p.1 ∧ in_u 16 p.2) ∧
  total (decode_report_data_with decode payload)
    (λ r, Forall (ib_in P) (rd_reports r) ∧ from_option (in_u 32) True (rd_subscription r)) ∧
  total (decode_event_reports decode payload) (Forall (event_in P)).
Proof.
  intros Hdec Hb Hs. split_and!.
  - by apply decode_invoke_request_safe.
  - exact (decode_first_safe _ _ payload safe_invoke_response_ib Hb Hs).
  - exact (decode_first_safe _ _ payload safe_invoke_response_data Hb Hs).
  - by apply decode_status_response_safe.
  - by apply decode_write_request_safe.
  - by apply decode_write_response_safe.
  - by apply decode_read_request_safe.
  - by apply decode_subscribe_request_safe.
  - by apply decode_subscribe_response_safe.
  - by apply decode_report_data_safe.
  - by apply decode_event_reports_safe.
Qed.

(** A truncated report is refused. *)
Lemma im_decoders_untrusted_witness :
  bytes_ok [0x15; 0x36; 1; 0x15] ∧
  decode_report_data_with data_to_im [0x15; 0x36; 1; 0x15] = Err (Malformed "truncated attribute report") ∧
  total (decode_report_data_with data_to_im [0x15; 0x36; 1; 0x15])
    (λ r, Forall (ib_in (λ d, match d with Ok v => wf_value v | _ => True end)) (rd_reports r) ∧
          from_option (in_u 32) True (rd_subscription r)).
Proof.
  assert (Hb : bytes_ok [0x15; 0x36; 1; 0x15]) by by repeat (apply Forall_cons; split).
  split; [exact Hb|]. split; [reflexivity|].
  apply (im_decoders_untrusted data_to_im _ _ data_to_im_safe Hb). done.
Defined.
