(* ===== verification/AccessControl.v ===== *)
(** * Access control

    Models [crates/mat-device/src/core/access_control.rs]: the ACL table shared
    by the AccessControl cluster and the commissioning code ([AclStore]), the
    decision [check], the entry codec, the constraints [validate_entry] and the
    cluster handler. [net/store.rs]'s file backend is the [AclPersist] trait
    object: the tables it was asked to save. A failed save is ignored by the
    code, so its outcome is not modelled. *)

From stdpp Require Import relations.
From S2P Require Import Prelude Tlv TlvValue Handler.

(** ** Subjects *)

Definition AUTH_MODE_CASE : Z := 2.
Definition AUTH_MODE_GROUP : Z := 3.
Definition ACL_SUBJECTS_PER_ENTRY : Z := 4.
Definition ACL_TARGETS_PER_ENTRY : Z := 3.
Definition ACL_ENTRIES_PER_FABRIC : Z := 4.
Definition CAT_SUBJECT_PREFIX : Z := 0xFFFFFFFD.
Definition OPERATIONAL_NODE_ID_MAX : Z := 0xFFFFFFEFFFFFFFFF.

Definition cat_subject (cat : Z) : Z := Z.lor (Z.shiftl CAT_SUBJECT_PREFIX 32) cat.

Inductive SubjectKind := Node_subject | Cat_subject.

Definition subject_kind (subject : Z) : option SubjectKind :=
  if (1 <=? subject) && (subject <=? OPERATIONAL_NODE_ID_MAX) then Some Node_subject
  else if (Z.shiftr subject 32 =? CAT_SUBJECT_PREFIX) && negb (cat_version (wrap 32 subject) =? 0)
  then Some Cat_subject
  else None.

Definition is_group_subject (subject : Z) : bool := (1 <=? subject) && (subject <=? 0xFFFF).

(** [Subject::matches]. *)
Definition matches (s : Subject) (acl_subject : Z) : bool :=
  if negb (Z.shiftr acl_subject 32 =? CAT_SUBJECT_PREFIX) then acl_subject =? node_id s
  else
    let wanted := wrap 32 acl_subject in
    if cat_version wanted =? 0 then false
    else existsb (λ have,
      (cat_identifier have =? cat_identifier wanted) && (cat_version wanted <=? cat_version have))
      (cats_iter (cats s)).

(** ** Entries and targets *)

Record AclDeviceEntry := {
  privilege : Z;
  auth_mode : Z;
  subjects : list Z;
  targets_raw : option bytes;
  fabric_index : Z
}.

Definition with_fabric (fabric : Z) (e : AclDeviceEntry) : AclDeviceEntry :=
  {| privilege := privilege e; auth_mode := auth_mode e; subjects := subjects e;
     targets_raw := targets_raw e; fabric_index := fabric |}.

Record AclTargetDev := {
  t_cluster : option Z;
  t_endpoint : option Z;
  t_device_type : option Z
}.

Definition no_target : AclTargetDev :=
  {| t_cluster := None; t_endpoint := None; t_device_type := None |}.

(** [uN::try_from(v).ok()?] in a decoder. *)
Definition narrow (w v : Z) : OR Z := match try_u w v with Some v => ret v | None => throw () end.

Definition target_step (t : AclTargetDev) (el : Element) : OR AclTargetDev :=
  match el_tag el, el_value el with
  | Context f, VUint v =>
      if f =? 0 then let! c := narrow 32 v in
        ret {| t_cluster := Some c; t_endpoint := t_endpoint t; t_device_type := t_device_type t |}
      else if f =? 1 then let! e := narrow 16 v in
        ret {| t_cluster := t_cluster t; t_endpoint := Some e; t_device_type := t_device_type t |}
      else if f =? 2 then let! d := narrow 32 v in
        ret {| t_cluster := t_cluster t; t_endpoint := t_endpoint t; t_device_type := Some d |}
      else throw ()
  | Context f, VNull => if (f =? 0) || (f =? 1) || (f =? 2) then ret t else throw ()
  | _, _ => throw ()
  end.

Definition decode_acl_target_body : OR AclTargetDev := opt_walk target_step no_target.

Definition decode_targets (raw : bytes) : res () (list AclTargetDev) :=
  decode_struct_list raw decode_acl_target_body.

(** ** The decision *)

Definition subject_matches_entry (s : Subject) (e : AclDeviceEntry) : bool :=
  match sub_group_id s with
  | None =>
      if auth_mode e =? AUTH_MODE_CASE
      then (match subjects e with [] => true | _ => existsb (matches s) (subjects e) end)
      else false
  | Some group_id =>
      if auth_mode e =? AUTH_MODE_GROUP
      then (match subjects e with [] => true | _ => existsb (λ x, x =? group_id) (subjects e) end)
      else false
  end.

Definition privilege_grants (entry_privilege required : Z) : bool :=
  if entry_privilege =? PRIVILEGE_ADMINISTER then true
  else if entry_privilege =? PRIVILEGE_MANAGE then
    (required =? PRIVILEGE_MANAGE) || (required =? PRIVILEGE_OPERATE) || (required =? PRIVILEGE_VIEW)
  else if entry_privilege =? PRIVILEGE_OPERATE then
    (required =? PRIVILEGE_OPERATE) || (required =? PRIVILEGE_VIEW)
  else if entry_privilege =? PRIVILEGE_PROXY_VIEW then
    (required =? PRIVILEGE_PROXY_VIEW) || (required =? PRIVILEGE_VIEW)
  else if entry_privilege =? PRIVILEGE_VIEW then required =? PRIVILEGE_VIEW
  else false.

Definition is_none_or (o : option Z) (v : Z) : bool :=
  match o with None => true | Some x => x =? v end.

Definition target_matches (endpoint cluster : Z) (t : AclTargetDev) : bool :=
  is_none_or (t_cluster t) cluster && is_none_or (t_endpoint t) endpoint &&
  (match t_device_type t with None => true | Some _ => false end).

(** [decode_targets] never panics ([decode_targets_safe]). *)
Definition targets_match (raw : option bytes) (endpoint cluster : Z) : bool :=
  match raw with
  | None => true
  | Some raw =>
      match some_of (decode_targets raw) with
      | None => false
      | Some targets => existsb (target_matches endpoint cluster) targets
      end
  end.

(** ** The store *)

Record AclStore := {
  acl_entries : list AclDeviceEntry;
  (** every table handed to [AclPersist::save]; [None] without a backend *)
  acl_saved : option (list (list AclDeviceEntry))
}.

Definition AclStore_new : AclStore := {| acl_entries := []; acl_saved := None |}.

(** [with_persist]: the outcome of [load] decides what the table starts with. *)
Definition AclStore_with_persist (loaded : option (list AclDeviceEntry)) : AclStore :=
  {| acl_entries := default [] loaded; acl_saved := Some [] |}.

Definition acl_save (entries : list AclDeviceEntry) (s : AclStore) : AclStore :=
  {| acl_entries := entries; acl_saved := (λ log, log ++ [entries]) <$> acl_saved s |}.

Definition on_fabric (fabric : Z) (e : AclDeviceEntry) : bool := fabric_index e =? fabric.

Definition add_case_admin (fabric case_admin_subject : Z) (s : AclStore) : AclStore :=
  acl_save (acl_entries s ++
    [{| privilege := PRIVILEGE_ADMINISTER; auth_mode := AUTH_MODE_CASE;
        subjects := [case_admin_subject]; targets_raw := None; fabric_index := fabric |}]) s.

Definition purge_fabric (fabric : Z) (s : AclStore) : AclStore :=
  acl_save (List.filter (λ e, negb (on_fabric fabric e)) (acl_entries s)) s.

Definition check (s : AclStore) (fabric : Z) (subject : Subject) (required endpoint cluster : Z) : bool :=
  if fabric =? 0 then false
  else existsb (λ e,
    on_fabric fabric e && subject_matches_entry subject e &&
    privilege_grants (privilege e) required && targets_match (targets_raw e) endpoint cluster)
    (acl_entries s).

Definition entries_for (fabric : Z) (s : AclStore) : list AclDeviceEntry :=
  List.filter (on_fabric fabric) (acl_entries s).

Definition replace_fabric (fabric : Z) (entries : list AclDeviceEntry) (s : AclStore) : AclStore :=
  acl_save (List.filter (λ e, negb (on_fabric fabric e)) (acl_entries s) ++ entries) s.

Definition append_to_fabric (e : AclDeviceEntry) (s : AclStore) : AclStore :=
  acl_save (acl_entries s ++ [e]) s.

(** ** Constraints *)

Definition is_valid_cluster_id (cluster : Z) : bool :=
  let low := Z.land cluster 0xFFFF in
  (low <=? 0x7FFF) || ((0xFC00 <=? low) && (low <=? 0xFFFE)).

Definition is_valid_device_type_id (device_type : Z) : bool := Z.land device_type 0xFFFF <=? 0xBFFF.

Definition valid_target (t : AclTargetDev) : bool :=
  match t with
  | {| t_cluster := None; t_endpoint := None; t_device_type := None |} => false
  | {| t_endpoint := Some _; t_device_type := Some _ |} => false
  | _ =>
      (match t_cluster t with Some c => is_valid_cluster_id c | None => true end) &&
      (match t_endpoint t with Some e => negb (e =? 0xFFFF) | None => true end) &&
      (match t_device_type t with Some d => is_valid_device_type_id d | None => true end)
  end.

Definition validate_targets (raw : bytes) : res Z () :=
  match decode_targets raw with
  | Ok targets =>
      if ACL_TARGETS_PER_ENTRY <? zlen targets then Err STATUS_CONSTRAINT_ERROR
      else if forallb valid_target targets then Ok () else Err STATUS_CONSTRAINT_ERROR
  | Err _ => Err STATUS_CONSTRAINT_ERROR
  | Panic => Panic
  | OutOfFuel => OutOfFuel
  end.

Definition validate_entry (e : AclDeviceEntry) : res Z () :=
  if negb ((PRIVILEGE_VIEW <=? privilege e) && (privilege e <=? PRIVILEGE_ADMINISTER))
  then Err STATUS_CONSTRAINT_ERROR else
  let? _ := (
    if auth_mode e =? AUTH_MODE_CASE then
      if forallb (λ s, match subject_kind s with Some _ => true | None => false end) (subjects e)
      then Ok () else Err STATUS_CONSTRAINT_ERROR
    else if auth_mode e =? AUTH_MODE_GROUP then
      if privilege e =? PRIVILEGE_ADMINISTER then Err STATUS_CONSTRAINT_ERROR
      else if forallb is_group_subject (subjects e) then Ok () else Err STATUS_CONSTRAINT_ERROR
    else Err STATUS_CONSTRAINT_ERROR) in
  if ACL_SUBJECTS_PER_ENTRY <? zlen (subjects e) then Err STATUS_CONSTRAINT_ERROR else
  match targets_raw e with None => Ok () | Some raw => validate_targets raw end.

(** ** The entry codec *)

Definition write_acl_entry (e : AclDeviceEntry) : M Writer Empty_set () :=
  start_struct Anonymous ;;!
  put_uint (Context 1) (privilege e) ;;!
  put_uint (Context 2) (auth_mode e) ;;!
  (start_array (Context 3) ;;!
   foldr (λ s m, put_uint Anonymous s ;;! m) (ret ()) (subjects e) ;;!
   end_container) ;;!
  (match targets_raw e with
   | None => put_null (Context 4)
   | Some raw => put_raw_element (Context 4) raw
   end) ;;!
  put_uint (Context 254) (fabric_index e) ;;!
  end_container.

Definition encode_acl_entries (entries : list AclDeviceEntry) : fin bytes :=
  to_vec (
    start_array Anonymous ;;!
    foldr (λ e m, write_acl_entry e ;;! m) (ret ()) entries ;;!
    end_container).

(** The locals of [decode_acl_entry_body]. *)
Record EntryFields := {
  ef_privilege : option Z;
  ef_auth_mode : option Z;
  ef_subjects : list Z;
  ef_targets : option bytes;
  ef_fabric : Z
}.

Definition no_fields : EntryFields :=
  {| ef_privilege := None; ef_auth_mode := None; ef_subjects := []; ef_targets := None; ef_fabric := 0 |}.

Definition set_privilege (v : option Z) (f : EntryFields) : EntryFields :=
  {| ef_privilege := v; ef_auth_mode := ef_auth_mode f; ef_subjects := ef_subjects f;
     ef_targets := ef_targets f; ef_fabric := ef_fabric f |}.
Definition set_auth_mode (v : option Z) (f : EntryFields) : EntryFields :=
  {| ef_privilege := ef_privilege f; ef_auth_mode := v; ef_subjects := ef_subjects f;
     ef_targets := ef_targets f; ef_fabric := ef_fabric f |}.
Definition set_subjects (l : list Z) (f : EntryFields) : EntryFields :=
  {| ef_privilege := ef_privilege f; ef_auth_mode := ef_auth_mode f; ef_subjects := l;
     ef_targets := ef_targets f; ef_fabric := ef_fabric f |}.
Definition set_targets (o : option bytes) (f : EntryFields) : EntryFields :=
  {| ef_privilege := ef_privilege f; ef_auth_mode := ef_auth_mode f; ef_subjects := ef_subjects f;
     ef_targets := o; ef_fabric := ef_fabric f |}.
Definition set_ef_fabric (v : Z) (f : EntryFields) : EntryFields :=
  {| ef_privilege := ef_privilege f; ef_auth_mode := ef_auth_mode f; ef_subjects := ef_subjects f;
     ef_targets := ef_targets f; ef_fabric := v |}.

Definition subject_step (l : list Z) (el : Element) : OR (list Z) :=
  match el_value el with VUint v => ret (l ++ [v]) | _ => throw () end.

Definition entry_step (f : EntryFields) (el : Element) : OR EntryFields :=
  let other := if is_container_start (el_value el) then opt_skip ;;! ret f else ret f in
  match el_tag el with
  | Context t =>
      if t =? 1 then
        match el_value el with VUint v => ret (set_privilege (try_u 8 v) f) | _ => other end
      else if t =? 2 then
        match el_value el with VUint v => ret (set_auth_mode (try_u 8 v) f) | _ => other end
      else if t =? 3 then
        match el_value el with
        | VNull => ret (set_subjects [] f)
        | VArrayStart => let! l := opt_walk subject_step (ef_subjects f) in ret (set_subjects l f)
        | _ => other
        end
      else if t =? 4 then
        match el_value el with
        | VNull => ret (set_targets None f)
        | VArrayStart =>
            let! raw := copy_to_vec to_none Anonymous VArrayStart in ret (set_targets (Some raw) f)
        | _ => other
        end
      else if t =? 254 then
        match el_value el with
        | VUint v => let! v := narrow 8 v in ret (set_ef_fabric v f)
        | _ => other
        end
      else other
  | _ => other
  end.

Definition entry_of (f : EntryFields) : OR AclDeviceEntry :=
  match ef_privilege f, ef_auth_mode f with
  | Some p, Some m =>
      ret {| privilege := p; auth_mode := m; subjects := ef_subjects f; targets_raw := ef_targets f;
             fabric_index := ef_fabric f |}
  | _, _ => throw ()
  end.

Definition decode_acl_entry_body : OR AclDeviceEntry :=
  let! f := opt_walk entry_step no_fields in entry_of f.

(** ** The cluster handler *)

Definition ATTR_ACL : Z := 0.
Definition ATTR_ACL_SUBJECTS_PER_ENTRY : Z := 2.
Definition ATTR_ACL_TARGETS_PER_ENTRY : Z := 3.
Definition ATTR_ACL_ENTRIES_PER_FABRIC : Z := 4.
Definition CLUSTER_ACCESS_CONTROL : Z := 0x1F.

Definition acl_read (s : AclStore) (attribute : Z) (ctx : ReadCtx) : fin (option bytes) :=
  if attribute =? ATTR_ACL then
    let? b := encode_acl_entries (entries_for (rc_fabric ctx) s) in Ok (Some b)
  else if attribute =? ATTR_ACL_SUBJECTS_PER_ENTRY then
    let? b := tlv_uint ACL_SUBJECTS_PER_ENTRY in Ok (Some b)
  else if attribute =? ATTR_ACL_TARGETS_PER_ENTRY then
    let? b := tlv_uint ACL_TARGETS_PER_ENTRY in Ok (Some b)
  else if attribute =? ATTR_ACL_ENTRIES_PER_FABRIC then
    let? b := tlv_uint ACL_ENTRIES_PER_FABRIC in Ok (Some b)
  else Ok None.

(** [let Some(x) = m else { return Err(CONSTRAINT_ERROR) }]. *)
Definition or_constraint {A} (m : res () A) : res Z A := map_err (λ _, STATUS_CONSTRAINT_ERROR) m.

Fixpoint validate_all (entries : list AclDeviceEntry) : res Z () :=
  match entries with
  | [] => Ok ()
  | e :: rest => let? _ := validate_entry e in validate_all rest
  end.

Definition on_store (f : AclStore → AclStore) : M (AclStore * InvokeCtx) Z () :=
  modify (λ '(s, c), (f s, c)).

Definition acl_write (attribute : Z) (data_tlv : bytes) (list_append : bool) :
    M (AclStore * InvokeCtx) Z () :=
  if negb (attribute =? ATTR_ACL) then throw STATUS_UNSUPPORTED_WRITE else
  let! (s, ctx) := get in
  if ctx_fabric ctx =? 0 then throw STATUS_UNSUPPORTED_ACCESS else
  (if list_append then
     let! entry := lift (or_constraint (decode_single_struct data_tlv decode_acl_entry_body)) in
     lift (validate_entry entry) ;;!
     if ACL_ENTRIES_PER_FABRIC <=? zlen (entries_for (ctx_fabric ctx) s)
     then throw STATUS_RESOURCE_EXHAUSTED
     else on_store (append_to_fabric (with_fabric (ctx_fabric ctx) entry))
   else
     let! entries := lift (or_constraint (decode_struct_list data_tlv decode_acl_entry_body)) in
     lift (validate_all entries) ;;!
     if ACL_ENTRIES_PER_FABRIC <? zlen entries then throw STATUS_RESOURCE_EXHAUSTED
     else on_store (replace_fabric (ctx_fabric ctx) (map (with_fabric (ctx_fabric ctx)) entries))) ;;!
  modify (λ '(s, c), (s, push_changed ATTR_ACL c)).

(** A world that holds the ACL store shared by the handler, the dispatcher and
    the commissioning code. *)
Class HasAcl (W : Type) := {
  acl_of : W → AclStore;
  with_acl : AclStore → W → W;
  acl_of_with : ∀ s w, acl_of (with_acl s w) = s
}.

Definition AccessControlHandler {W} `{HasAcl W} : ClusterHandler W := {|
  cluster_id := CLUSTER_ACCESS_CONTROL;
  attributes := [ATTR_ACL; ATTR_ACL_SUBJECTS_PER_ENTRY; ATTR_ACL_TARGETS_PER_ENTRY;
                 ATTR_ACL_ENTRIES_PER_FABRIC];
  h_read w a ctx := acl_read (acl_of w) a ctx;
  h_invoke _ _ := ret (RStatus STATUS_UNSUPPORTED_COMMAND);
  accepted_commands := [];
  generated_commands := [];
  h_write a data append := λ '(w, c),
    let '((s, c), o) := acl_write a data append (acl_of w, c) in ((with_acl s w, c), o);
  feature_map := 0;
  revision := 2;
  read_privilege a := if a =? ATTR_ACL then PRIVILEGE_ADMINISTER else PRIVILEGE_VIEW;
  write_privilege _ := PRIVILEGE_ADMINISTER;
  invoke_privilege _ := PRIVILEGE_OPERATE;
  events := [];
  event_privilege _ := PRIVILEGE_VIEW;
  h_stimulate := default_stimulate
|}.

(** ** What is stored is well formed *)

Definition raw_ok (raw : bytes) : Prop :=
  ∃ ch, Forall wf_tree ch ∧ raw = enc_tree (Node Anonymous KArray ch) ∧ small raw.

Definition entry_ok (e : AclDeviceEntry) : Prop :=
  in_u 8 (privilege e) ∧ in_u 8 (auth_mode e) ∧ Forall (in_u 64) (subjects e) ∧
  from_option raw_ok True (targets_raw e) ∧ in_u 8 (fabric_index e).

Definition store_ok (s : AclStore) : Prop := Forall entry_ok (acl_entries s).

(** *** The encoder *)

Definition subject_tree (v : Z) : tree := Leaf Anonymous (VUint v).

(** The element of [Context(4)]. *)
Definition targets_tree (raw : option bytes) (t : tree) : Prop :=
  match raw with
  | None => t = Leaf (Context 4) VNull
  | Some raw => ∃ ch, Forall wf_tree ch ∧ raw = enc_tree (Node Anonymous KArray ch) ∧ small raw ∧
                  t = Node (Context 4) KArray ch
  end.

Definition entry_children (e : AclDeviceEntry) (targets : tree) : list tree :=
  [Leaf (Context 1) (VUint (privilege e)); Leaf (Context 2) (VUint (auth_mode e));
   Node (Context 3) KArray (map subject_tree (subjects e)); targets;
   Leaf (Context 254) (VUint (fabric_index e))].

Definition entry_tree (e : AclDeviceEntry) (t : tree) : Prop :=
  ∃ targets, targets_tree (targets_raw e) targets ∧
    t = Node Anonymous KStruct (entry_children e targets).

Lemma entry_has_tree e : entry_ok e → ∃ t, entry_tree e t.
Proof.
  intros (_ & _ & _ & Ht & _). unfold entry_tree, targets_tree.
  destruct (targets_raw e) as [raw|]; [|by eauto].
  destruct Ht as (ch & Hch & -> & Hs). eauto 10.
Qed.

Lemma targets_tree_wf raw t : targets_tree raw t → wf_tree t.
Proof.
  destruct raw as [raw|]; cbn; [|intros ->; cbn; unfold in_u; lia].
  intros (ch & Hch & _ & _ & ->). apply wf_children. split; [cbn; unfold in_u; lia|done].
Qed.

Lemma entry_children_wf e targets :
  entry_ok e → targets_tree (targets_raw e) targets → Forall wf_tree (entry_children e targets).
Proof.
  intros (Hp & Ha & Hs & _ & Hf) Ht. apply targets_tree_wf in Ht.
  unfold entry_children. apply Forall_cons. split; [by apply (wf_uint 1 _ 8)|].
  apply Forall_cons. split; [by apply (wf_uint 2 _ 8)|].
  apply Forall_cons. split; [by apply wf_node, (wf_uints _ 64)|].
  apply Forall_cons. split; [done|]. apply Forall_singleton. by apply (wf_uint 254 _ 8).
Qed.

Lemma writes_targets raw t : targets_tree raw t →
  writes (match raw with
          | None => put_null (Context 4)
          | Some raw => put_raw_element (E:=Empty_set) (Context 4) raw
          end) (enc_tree t).
Proof.
  destruct raw as [raw|]; [|intros ->; apply writes_null].
  intros (ch & Hch & -> & Hs & ->). apply (writes_raw _ (Node Anonymous KArray ch)); [by apply wf_anon_node|done].
Qed.

Lemma writes_entry e t : entry_tree e t → writes (write_acl_entry e) (enc_tree t).
Proof.
  intros (targets & Ht & ->). unfold write_acl_entry, entry_children.
  apply writes_struct.
  apply emits_cons; [apply writes_put_uint|].
  apply emits_cons; [apply writes_put_uint|].
  apply emits_cons.
  { apply writes_array. rewrite <- (app_nil_r (map _ _)).
    apply emits_map; [|apply emits_end]. intros v. apply writes_put_uint. }
  apply emits_cons; [by apply writes_targets|].
  apply emits_cons; [apply writes_put_uint|]. apply emits_end.
Qed.

Lemma encode_entries_eq es ts : Forall2 entry_tree es ts →
  encode_acl_entries es = Ok (enc_tree (Node Anonymous KArray ts)).
Proof.
  intros Hes. apply to_vec_writes, writes_array. rewrite <- (app_nil_r ts).
  apply emits_list; [|apply emits_end]. eapply Forall2_impl; [exact Hes|]. apply writes_entry.
Qed.

Lemma entries_have_trees es : Forall entry_ok es → ∃ ts, Forall2 entry_tree es ts.
Proof.
  induction 1 as [|e es He _ [ts IH]]; [by exists []|].
  destruct (entry_has_tree e He) as [t Ht]. exists (t :: ts). by constructor.
Qed.

(** *** The decoder reads what the encoder wrote *)

Definition done_fields (e : AclDeviceEntry) : EntryFields :=
  {| ef_privilege := Some (privilege e); ef_auth_mode := Some (auth_mode e);
     ef_subjects := subjects e; ef_targets := targets_raw e; ef_fabric := fabric_index e |}.

Lemma try_u_ok w v : in_u w v → try_u w v = Some v.
Proof. intros H. by apply try_u_Some. Qed.

Lemma reads_subjects l acc :
  Forall (in_u 64) l →
  reads (opt_walk subject_step acc) (enc_children (map subject_tree l)) (acc ++ l).
Proof.
  intros Hl. apply walk_at; [by apply (wf_uints _ 64)|].
  revert acc. induction Hl as [|v l Hv Hl IH]; intros acc; cbn; [rewrite app_nil_r; constructor|].
  econstructor; [apply reads_ret|]. rewrite (app_assoc acc [v] l : acc ++ v :: l = _). apply IH.
Qed.

Lemma walks_entry e targets :
  entry_ok e → targets_tree (targets_raw e) targets →
  walks entry_step no_fields (entry_children e targets) (done_fields e).
Proof.
  intros (Hp & Ha & Hs & _ & Hf) Ht. unfold entry_children.
  eapply walks_cons; [apply reads_ret|]. eapply walks_cons; [apply reads_ret|].
  eapply walks_cons.
  { cbn. apply (reads_map _ (λ l, set_subjects l _)). by apply reads_subjects. }
  eapply walks_cons with (s1 := set_targets (targets_raw e) _).
  { destruct (targets_raw e) as [raw|].
    - destruct Ht as (ch & Hch & -> & _ & ->).
      apply (reads_map _ (λ raw, set_targets (Some raw) _)).
      by apply (reads_copy to_none Anonymous (Node (Context 4) KArray ch)), wf_node.
    - rewrite Ht. apply reads_ret. }
  eapply walks_cons.
  { unfold entry_step; cbn. unfold narrow. rewrite try_u_ok by done. apply (reads_map (ret _) (λ v, set_ef_fabric v _)), reads_ret. }
  unfold done_fields, set_privilege, set_auth_mode, set_subjects, set_targets, set_ef_fabric; cbn.
  rewrite !try_u_ok by done. constructor.
Qed.

Lemma reads_entry_body e targets :
  entry_ok e → targets_tree (targets_raw e) targets →
  reads decode_acl_entry_body (enc_children (entry_children e targets)) e.
Proof.
  intros He Ht. rewrite <- (app_nil_r (enc_children _)). eapply reads_bind.
  - apply walk_at; [by apply entry_children_wf|by apply walks_entry].
  - destruct e. apply reads_ret.
Qed.

Lemma entries_decode es ts : Forall entry_ok es → Forall2 entry_tree es ts →
  Forall2 (decodes_as decode_acl_entry_body) es ts.
Proof.
  intros Hok. induction 1 as [|e t es ts (targets & Ht & ->) _ IH]; constructor.
  - apply Forall_cons_1 in Hok as [He _]. exists Anonymous, (entry_children e targets).
    split_and!; [done|done|by apply entry_children_wf|by apply reads_entry_body].
  - apply IH. by apply Forall_cons_1 in Hok as [_ Hok].
Qed.

(** *** The decoder on arbitrary bytes *)

Lemma narrow_safe w v : safe (narrow w v) (in_u w).
Proof.
  unfold narrow. destruct (try_u w v) as [x|] eqn:Hx; [|apply safe_throw].
  apply try_u_Some in Hx as [-> Hv]. by apply safe_ret.
Qed.

Definition target_ok (t : AclTargetDev) : Prop :=
  from_option (in_u 32) True (t_cluster t) ∧ from_option (in_u 16) True (t_endpoint t) ∧
  from_option (in_u 32) True (t_device_type t).

Lemma target_body_safe : safe decode_acl_target_body target_ok.
Proof.
  apply walk_safe; [|done]. intros t el (Hc & He & Hd) _ _. apply safe_safe1. unfold target_step.
  destruct (el_tag el), (el_value el); try apply safe_throw;
    repeat case_match; try apply safe_throw; try (by apply safe_ret);
    (eapply safe_bind; [apply narrow_safe|]; intros x Hx; by apply safe_ret).
Qed.

Lemma decode_targets_safe raw : bytes_ok raw → small raw →
  match decode_targets raw with Ok l => Forall target_ok l | Err _ => True | _ => False end.
Proof. apply decode_struct_list_safe, target_body_safe. Qed.

Definition fields_ok (f : EntryFields) : Prop :=
  from_option (in_u 8) True (ef_privilege f) ∧ from_option (in_u 8) True (ef_auth_mode f) ∧
  Forall (in_u 64) (ef_subjects f) ∧
  from_option raw_ok True (ef_targets f) ∧ in_u 8 (ef_fabric f).

Lemma try_u_bound w v : from_option (in_u w) True (try_u w v).
Proof.
  destruct (try_u w v) as [x|] eqn:H; [|done]. by apply try_u_Some in H as [-> ?].
Qed.

Lemma subjects_safe l : Forall (in_u 64) l → safe (opt_walk subject_step l) (Forall (in_u 64)).
Proof.
  intros Hl. apply walk_safe; [|done]. intros l' el Hl' [_ Hv] _. apply safe_safe1. unfold subject_step.
  destruct (el_value el); try apply safe_throw. apply safe_ret, Forall_app.
  split; [done|]. by apply Forall_singleton.
Qed.

Lemma targets_copy_safe : safe1 VArrayStart (copy_to_vec to_none Anonymous VArrayStart) raw_ok.
Proof.
  intros r Hr Hp. eapply wp_mono; [by apply safe_copy| |done]. cbn.
  intros raw r' [Hm (t & Hwf & Htag & Hval & -> & Hs)]. split; [done|].
  destruct t as [tag v|tag k ch].
  { destruct Hwf as (_ & _ & Hsc). cbn in Hval. by subst v. }
  cbn in Htag, Hval. subst tag. destruct k; try done.
  apply wf_children in Hwf as [_ Hch]. exists ch. split_and!; [done|done|].
  unfold small. rewrite enc_tree_split, zlen_app. cbn [root_tag root_value start_of].
  change (zlen (enc_elem Anonymous VArrayStart)) with 1.
  cbn [inner body_of] in *. rewrite zlen_nil in Hs. lia.
Qed.

Lemma entry_step_safe f el :
  fields_ok f → wf_element el → safe1 (el_value el) (entry_step f el) fields_ok.
Proof.
  intros Hf [_ Hv]. pose proof Hf as (Hp & Ha & Hs & Ht & Hi).
  assert (Hother : safe1 (el_value el) (if is_container_start (el_value el) then opt_skip ;;! ret f else ret f) fields_ok).
  { apply safe_safe1. case_match; [|by apply safe_ret]. eapply safe_bind; [apply safe_skip|]. intros _ _. by apply safe_ret. }
  unfold entry_step. destruct (el_tag el); try exact Hother.
  repeat (case_match; try exact Hother).
  all: try (apply safe_safe1, safe_ret; unfold fields_ok; cbn; split_and!; try done; apply try_u_bound).
  all: eapply safe1_bind; [first [by apply safe_safe1, subjects_safe | apply targets_copy_safe
    | apply safe_safe1, narrow_safe]|].
  all: intros x Hx; apply safe_ret; by split_and!.
Qed.

Lemma entry_body_safe : safe decode_acl_entry_body entry_ok.
Proof.
  eapply safe_bind.
  - apply (walk_safe _ _ _ fields_ok); [intros; by apply entry_step_safe|].
    unfold fields_ok; cbn. split_and!; try done; constructor.
  - intros f (Hp & Ha & Hs & Ht & Hi). unfold entry_of.
    destruct (ef_privilege f), (ef_auth_mode f); try apply safe_throw.
    by apply safe_ret.
Qed.

(** ** What the ACL grants, declaratively *)

(** A subject of an entry names the session. *)
Inductive names_subject (s : Subject) (x : Z) : Prop :=
  | names_node : Z.shiftr x 32 ≠ CAT_SUBJECT_PREFIX → x = node_id s → names_subject s x
  | names_cat id v have :
      x = CAT_SUBJECT_PREFIX * 2 ^ 32 + id * 2 ^ 16 + v → in_u 16 id → 1 ≤ v < 2 ^ 16 →
      v ≤ have < 2 ^ 16 → id * 2 ^ 16 + have ∈ cats_iter (cats s) → names_subject s x.

(** An entry names the session: wildcard or one of its subjects, and only for
    its own authentication mode. *)
Inductive names_session (s : Subject) (e : AclDeviceEntry) : Prop :=
  | names_case : auth_mode e = AUTH_MODE_CASE → sub_group_id s = None →
      (subjects e = [] ∨ ∃ x, x ∈ subjects e ∧ names_subject s x) → names_session s e
  | names_group g : auth_mode e = AUTH_MODE_GROUP → sub_group_id s = Some g →
      (subjects e = [] ∨ g ∈ subjects e) → names_session s e.

(** The privilege lattice by its covering pairs. *)
Inductive includes_step : Z → Z → Prop :=
  | proxy_view_includes : includes_step PRIVILEGE_PROXY_VIEW PRIVILEGE_VIEW
  | operate_includes : includes_step PRIVILEGE_OPERATE PRIVILEGE_VIEW
  | manage_includes : includes_step PRIVILEGE_MANAGE PRIVILEGE_OPERATE
  | administer_includes : includes_step PRIVILEGE_ADMINISTER PRIVILEGE_MANAGE
  | administer_includes_proxy : includes_step PRIVILEGE_ADMINISTER PRIVILEGE_PROXY_VIEW.

Definition covers (raw : option bytes) (endpoint cluster : Z) : Prop :=
  raw = None ∨ ∃ b ts t, raw = Some b ∧ decode_targets b = Ok ts ∧ t ∈ ts ∧
    (t_cluster t = None ∨ t_cluster t = Some cluster) ∧
    (t_endpoint t = None ∨ t_endpoint t = Some endpoint) ∧ t_device_type t = None.

Definition is_privilege (p : Z) : Prop := PRIVILEGE_VIEW ≤ p ≤ PRIVILEGE_ADMINISTER.

Lemma existsb_in {A} (f : A → bool) l : existsb f l = true ↔ ∃ x, x ∈ l ∧ f x = true.
Proof.
  rewrite existsb_exists. split; intros (x & Hx & Hf); exists x; by rewrite ?list_elem_of_In in *.
Qed.

Lemma cat_split x : in_u 32 x →
  x = cat_identifier x * 2 ^ 16 + cat_version x ∧ in_u 16 (cat_identifier x) ∧ in_u 16 (cat_version x).
Proof.
  unfold cat_identifier, cat_version, in_u, wrap. intros Hx.
  change 0xFFFF with (Z.ones 16). rewrite Z.land_ones, Z.shiftr_div_pow2 by lia. 
  rewrite (Z.mod_small (x / 2 ^ 16)) by (split; [apply Z.div_pos; lia|apply Z.div_lt_upper_bound; lia]).
  rewrite Z.mod_mod by lia. pose proof (Z.div_mod x (2 ^ 16)). pose proof (Z.mod_pos_bound x (2 ^ 16)).
  lia.
Qed.

Lemma cat_join id v : in_u 16 id → in_u 16 v →
  cat_identifier (id * 2 ^ 16 + v) = id ∧ cat_version (id * 2 ^ 16 + v) = v.
Proof.
  unfold cat_identifier, cat_version, in_u, wrap. intros Hid Hv.
  change 0xFFFF with (Z.ones 16). rewrite Z.land_ones, Z.shiftr_div_pow2 by lia.
  rewrite Z.div_add_l, (Z.div_small v), Z.add_0_r by lia.
  rewrite (Z.add_comm (id * _)), Z_mod_plus_full, Z.mod_mod, !Z.mod_small by lia. done.
Qed.

Lemma cat_subject_split x : in_u 64 x → Z.shiftr x 32 = CAT_SUBJECT_PREFIX →
  x = CAT_SUBJECT_PREFIX * 2 ^ 32 + wrap 32 x.
Proof.
  intros Hx Hp. rewrite Z.shiftr_div_pow2 in Hp by lia. unfold wrap.
  pose proof (Z.div_mod x (2 ^ 32)). lia.
Qed.

Lemma cat_subject_parts w : in_u 32 w →
  Z.shiftr (CAT_SUBJECT_PREFIX * 2 ^ 32 + w) 32 = CAT_SUBJECT_PREFIX ∧
  wrap 32 (CAT_SUBJECT_PREFIX * 2 ^ 32 + w) = w.
Proof.
  unfold in_u, wrap. intros Hw. rewrite Z.shiftr_div_pow2 by lia. split.
  - rewrite Z.div_add_l, Z.div_small by lia. lia.
  - rewrite Z.add_comm, Z_mod_plus_full. by apply Z.mod_small.
Qed.

Lemma cat_parts id v : in_u 16 id → in_u 16 v →
  let x := CAT_SUBJECT_PREFIX * 2 ^ 32 + id * 2 ^ 16 + v in
  Z.shiftr x 32 = CAT_SUBJECT_PREFIX ∧ cat_identifier (wrap 32 x) = id ∧ cat_version (wrap 32 x) = v.
Proof.
  intros Hid Hv x. unfold x. rewrite <- Z.add_assoc.
  destruct (cat_subject_parts (id * 2 ^ 16 + v)) as [-> ->]; [unfold in_u in *; lia|].
  split; [done|]. by apply cat_join.
Qed.

Lemma matches_spec s x : in_u 64 x → Forall (in_u 32) (cats_iter (cats s)) →
  matches s x = true ↔ names_subject s x.
Proof.
  intros Hx Hcats. unfold matches.
  destruct (Z.eqb_spec (Z.shiftr x 32) CAT_SUBJECT_PREFIX) as [Hp|Hp]; cbn [negb].
  2:{ rewrite Z.eqb_eq. split; [by apply names_node|]. intros [?|id v have -> Hid Hv]; [done|].
      destruct Hp. apply (cat_parts id v Hid). unfold in_u. lia. }
  pose proof (cat_subject_split x Hx Hp) as Hsplit.
  destruct (cat_split (wrap 32 x)) as (Hw & Hid & Hv); [by apply wrap_in_u|].
  assert (Hcat : ∀ id v, x = CAT_SUBJECT_PREFIX * 2 ^ 32 + id * 2 ^ 16 + v → in_u 16 id →
    1 ≤ v < 2 ^ 16 → cat_identifier (wrap 32 x) = id ∧ cat_version (wrap 32 x) = v).
  { intros id v -> Hid' Hv'. apply (cat_parts id v Hid'). unfold in_u. lia. }
  destruct (Z.eqb_spec (cat_version (wrap 32 x)) 0) as [H0|H0].
  { split; [done|]. intros [?|id v have Heq Hid' Hv' Hh _]; [done|].
    destruct (Hcat id v Heq Hid' Hv'). lia. }
  rewrite existsb_in. split.
  - intros (c & Hc & Hm). apply andb_true_iff in Hm as [Hi Hle].
    destruct (cat_split c) as (Hcs & _ & Hcv); [exact (proj1 (Forall_forall _ _) Hcats c Hc)|].
    apply (names_cat s x (cat_identifier (wrap 32 x)) (cat_version (wrap 32 x)) (cat_version c));
      try done; unfold in_u in *; try lia.
    rewrite <- (proj1 (Z.eqb_eq _ _) Hi), <- Hcs. done.
  - intros [?|id v have Heq Hid' Hv' Hh Hin]; [done|].
    destruct (Hcat id v Heq Hid' Hv') as [-> ->]. exists (id * 2 ^ 16 + have). split; [done|].
    destruct (cat_join id have Hid') as [-> ->]; [unfold in_u; lia|]. lia.
Qed.

Lemma session_spec s e : Forall (in_u 64) (subjects e) → Forall (in_u 32) (cats_iter (cats s)) →
  subject_matches_entry s e = true ↔ names_session s e.
Proof.
  intros Hs Hcats. unfold subject_matches_entry. destruct (sub_group_id s) as [g|] eqn:Hg.
  - destruct (Z.eqb_spec (auth_mode e) AUTH_MODE_GROUP) as [Ha|Ha].
    2:{ split; [done|]. intros []; congruence. }
    trans (subjects e = [] ∨ existsb (λ x, x =? g) (subjects e) = true).
    { destruct (subjects e); [naive_solver|]. split; [by right|]. by intros []. }
    rewrite existsb_in. setoid_rewrite Z.eqb_eq. split.
    + intros Hl. apply (names_group s e g); [done..|]. naive_solver.
    + intros [|g' _ Hg' Hl]; [congruence|]. naive_solver.
  - destruct (Z.eqb_spec (auth_mode e) AUTH_MODE_CASE) as [Ha|Ha].
    2:{ split; [done|]. intros []; congruence. }
    trans (subjects e = [] ∨ existsb (matches s) (subjects e) = true).
    { destruct (subjects e); [naive_solver|]. split; [by right|]. by intros []. }
    rewrite existsb_in. rewrite Forall_forall in Hs. split.
    + intros Hl. apply names_case; [done..|]. destruct Hl as [?|(x & Hx & Hm)]; [by left|right].
      exists x. split; [done|]. apply matches_spec; auto.
    + intros [_ _ Hl|]; [|congruence]. destruct Hl as [?|(x & Hx & Hm)]; [by left|right].
      exists x. split; [done|]. apply matches_spec; auto.
Qed.

Lemma includes_range p r : includes_step p r → is_privilege p ∧ is_privilege r.
Proof. destruct 1; vm_compute; repeat split; congruence. Qed.

Lemma grants_step p q r : includes_step p q → is_privilege r →
  privilege_grants q r = true → privilege_grants p r = true.
Proof.
  intros Hs Hr Hg. unfold is_privilege, PRIVILEGE_VIEW, PRIVILEGE_ADMINISTER in Hr.
  assert (r = 1 ∨ r = 2 ∨ r = 3 ∨ r = 4 ∨ r = 5) as Hcase by lia.
  destruct Hs; destruct_or! Hcase; subst; done.
Qed.

Lemma privilege_spec p r : is_privilege r →
  privilege_grants p r = true ↔ rtc includes_step p r.
Proof.
  intros Hr. split.
  - intros Hg. unfold is_privilege, PRIVILEGE_VIEW, PRIVILEGE_ADMINISTER in Hr.
    assert (r = 1 ∨ r = 2 ∨ r = 3 ∨ r = 4 ∨ r = 5) as Hcase by lia.
    assert (p = 1 ∨ p = 2 ∨ p = 3 ∨ p = 4 ∨ p = 5) as Hpcase.
    { unfold privilege_grants, PRIVILEGE_VIEW, PRIVILEGE_PROXY_VIEW, PRIVILEGE_OPERATE,
        PRIVILEGE_MANAGE, PRIVILEGE_ADMINISTER in Hg. repeat case_match; lia || done. }
    clear Hr. destruct_or! Hpcase; destruct_or! Hcase; subst; try done; try apply rtc_refl;
      eauto 6 using rtc_once, rtc_l, proxy_view_includes, operate_includes, manage_includes,
        administer_includes, administer_includes_proxy.
  - intros Hs. induction Hs as [p|p q r Hpq _ IH].
    + unfold is_privilege, PRIVILEGE_VIEW, PRIVILEGE_ADMINISTER in Hr.
      assert (p = 1 ∨ p = 2 ∨ p = 3 ∨ p = 4 ∨ p = 5) as Hcase by lia.
      by destruct_or! Hcase; subst.
    + eapply grants_step; eauto.
Qed.

Lemma target_matches_spec ep cl t :
  target_matches ep cl t = true ↔
  (t_cluster t = None ∨ t_cluster t = Some cl) ∧
  (t_endpoint t = None ∨ t_endpoint t = Some ep) ∧ t_device_type t = None.
Proof.
  unfold target_matches. rewrite !andb_true_iff.
  assert (Hn : ∀ o v, is_none_or o v = true ↔ o = None ∨ o = Some v).
  { intros [x|] v; cbn; [rewrite Z.eqb_eq|]; naive_solver. }
  rewrite !Hn. destruct (t_device_type t); naive_solver.
Qed.

Lemma targets_spec raw ep cl : targets_match raw ep cl = true ↔ covers raw ep cl.
Proof.
  unfold targets_match, covers. destruct raw as [b|]; [|naive_solver].
  destruct (decode_targets b) as [ts|e| |] eqn:Hd; cbn [some_of].
  2-4: split; [done|]; intros [?|(b' & ts' & t & [= <-] & Hd' & _)]; congruence.
  rewrite existsb_in. setoid_rewrite target_matches_spec. split.
  - intros (t & Ht & ?). right. by exists b, ts, t.
  - intros [?|(b' & ts' & t & [= <-] & Hd' & Ht & ?)]; [done|].
    rewrite Hd in Hd'. injection Hd' as <-. by exists t.
Qed.

(** ** What a write accepts *)

Definition valid_subjects (e : AclDeviceEntry) : Prop :=
  (auth_mode e = AUTH_MODE_CASE ∧ Forall (λ s, is_Some (subject_kind s)) (subjects e)) ∨
  (auth_mode e = AUTH_MODE_GROUP ∧ privilege e ≠ PRIVILEGE_ADMINISTER ∧
   Forall (λ g, 1 ≤ g ≤ 0xFFFF) (subjects e)).

(** The constraints of [AccessControlEntryStruct]. *)
Definition entry_valid (e : AclDeviceEntry) : Prop :=
  is_privilege (privilege e) ∧ valid_subjects e ∧ zlen (subjects e) ≤ ACL_SUBJECTS_PER_ENTRY ∧
  match targets_raw e with
  | None => True
  | Some raw => ∃ ts, decode_targets raw = Ok ts ∧ zlen ts ≤ ACL_TARGETS_PER_ENTRY ∧
                  Forall (λ t, valid_target t = true) ts
  end.

Lemma forallb_Forall {A} (f : A → bool) (P : A → Prop) l :
  (∀ x, f x = true ↔ P x) → forallb f l = true ↔ Forall P l.
Proof.
  intros Hf. rewrite forallb_forall, List.Forall_forall. by setoid_rewrite Hf.
Qed.

Lemma subjects_spec e :
  (if auth_mode e =? AUTH_MODE_CASE then
      if forallb (λ s, match subject_kind s with Some _ => true | None => false end) (subjects e)
      then Ok () else Err STATUS_CONSTRAINT_ERROR
    else if auth_mode e =? AUTH_MODE_GROUP then
      if privilege e =? PRIVILEGE_ADMINISTER then Err STATUS_CONSTRAINT_ERROR
      else if forallb is_group_subject (subjects e) then Ok () else Err STATUS_CONSTRAINT_ERROR
    else Err STATUS_CONSTRAINT_ERROR) = @Ok Z () () ↔ valid_subjects e.
Proof.
  unfold valid_subjects.
  assert (Hk : ∀ s, match subject_kind s with Some _ => true | None => false end = true ↔
    is_Some (subject_kind s)).
  { intros s. destruct (subject_kind s); split; try done. }
  assert (Hg : ∀ g, is_group_subject g = true ↔ 1 ≤ g ≤ 0xFFFF).
  { intros g. unfold is_group_subject. lia. }
  rewrite <- (forallb_Forall _ _ (subjects e) Hk), <- (forallb_Forall _ _ (subjects e) Hg).
  destruct (Z.eqb_spec (auth_mode e) AUTH_MODE_CASE) as [Ha|Ha].
  { rewrite Ha. destruct (forallb _ (subjects e)); split; try done; naive_solver. }
  destruct (Z.eqb_spec (auth_mode e) AUTH_MODE_GROUP) as [Hb|Hb]; [|naive_solver].
  destruct (Z.eqb_spec (privilege e) PRIVILEGE_ADMINISTER); [naive_solver|].
  destruct (forallb is_group_subject (subjects e)); naive_solver.
Qed.

Lemma validate_spec e : validate_entry e = Ok () ↔ entry_valid e.
Proof.
  unfold validate_entry, entry_valid, is_privilege. rewrite <- subjects_spec.
  destruct (Z.leb_spec PRIVILEGE_VIEW (privilege e)), (Z.leb_spec (privilege e) PRIVILEGE_ADMINISTER);
    cbn [andb negb]; [|split; [done|lia]..].
  destruct (if auth_mode e =? AUTH_MODE_CASE then _ else _) as [[]|st| |];
    cbn [res_bind]; [|split; [done|naive_solver]..].
  destruct (Z.ltb_spec ACL_SUBJECTS_PER_ENTRY (zlen (subjects e))); [split; [done|naive_solver lia]|].
  destruct (targets_raw e) as [raw|]; [|by split].
  unfold validate_targets. destruct (decode_targets raw) as [ts|st| |]; [|split; [done|naive_solver]..].
  pose proof (forallb_Forall valid_target _ ts (λ t, iff_refl _)) as Hf.
  destruct (Z.ltb_spec ACL_TARGETS_PER_ENTRY (zlen ts)).
  { split; [done|]. intros (_ & _ & _ & ts' & [= <-] & ? & _). lia. }
  destruct (forallb valid_target ts); split; try done.
  - intros _. split_and!; try done. exists ts. split_and!; try done. by apply Hf.
  - intros (_ & _ & _ & ts' & [= <-] & _ & Hv). by apply Hf in Hv.
Qed.

Lemma raw_decodes raw : raw_ok raw →
  match decode_targets raw with Ok l => Forall target_ok l | Err _ => True | _ => False end.
Proof.
  intros (ch & Hch & -> & Hs). apply decode_targets_safe; [|done]. by apply enc_tree_ok, wf_anon_node.
Qed.

(** [validate_entry] answers, and its only error is [CONSTRAINT_ERROR]. *)
Lemma validate_returns e : entry_ok e →
  validate_entry e = Ok () ∨ validate_entry e = Err STATUS_CONSTRAINT_ERROR.
Proof.
  intros (_ & _ & _ & Ht & _).
  assert (Hraw : match targets_raw e with None => Ok () | Some raw => validate_targets raw end = Ok () ∨
    match targets_raw e with None => Ok () | Some raw => validate_targets raw end =
    Err STATUS_CONSTRAINT_ERROR).
  { destruct (targets_raw e) as [raw|]; [|by left]. pose proof (raw_decodes raw Ht).
    unfold validate_targets. repeat case_match; auto; done. }
  unfold validate_entry, res_bind.
  repeat (case_match; simplify_eq; try (by right); try exact Hraw).
Qed.

Lemma validate_all_spec es : Forall entry_ok es →
  (validate_all es = Ok () ∧ Forall entry_valid es) ∨ validate_all es = Err STATUS_CONSTRAINT_ERROR.
Proof.
  induction 1 as [|e es He _ IH]; cbn; [by left|].
  destruct (validate_returns e He) as [Hv|Hv]; rewrite Hv; cbn; [|by right].
  destruct IH as [ [-> ?] | ->]; [left|by right]. split; [done|]. constructor; [by apply validate_spec|done].
Qed.

(** *** Tables by fabric *)

Lemma filter_other f f' l : f' ≠ f →
  List.filter (on_fabric f') (List.filter (λ e, negb (on_fabric f e)) l) =
  List.filter (on_fabric f') l.
Proof.
  intros Hne. induction l as [|e l IH]; [done|]. cbn. unfold on_fabric in *.
  destruct (Z.eqb_spec (fabric_index e) f) as [->|]; cbn; [|by rewrite IH].
  by destruct (Z.eqb_spec f f').
Qed.

Lemma filter_same f l :
  List.filter (on_fabric f) (List.filter (λ e, negb (on_fabric f e)) l) = [].
Proof. induction l as [|e l IH]; [done|]. cbn. destruct (on_fabric f e) eqn:He; cbn; rewrite ?He; done. Qed.

Lemma filter_all f l : Forall (λ e, fabric_index e = f) l → List.filter (on_fabric f) l = l.
Proof.
  induction 1 as [|e l He _ IH]; [done|]. cbn. unfold on_fabric at 1.
  rewrite He, Z.eqb_refl. by rewrite IH.
Qed.

Lemma filter_none f f' l : f' ≠ f → Forall (λ e, fabric_index e = f) l →
  List.filter (on_fabric f') l = [].
Proof.
  intros Hne. induction 1 as [|e l He _ IH]; [done|]. cbn. unfold on_fabric at 1.
  rewrite He. by destruct (Z.eqb_spec f f').
Qed.

Lemma entries_replace f f' es s : Forall (λ e, fabric_index e = f) es →
  entries_for f' (replace_fabric f es s) = if decide (f' = f) then es else entries_for f' s.
Proof.
  intros Hes. unfold entries_for, replace_fabric, acl_save; cbn. rewrite List.filter_app.
  case_decide as Hf; [subst f'; by rewrite filter_same, filter_all|].
  by rewrite filter_other, (filter_none f f' es), app_nil_r.
Qed.

Lemma entries_append f' e s :
  entries_for f' (append_to_fabric e s) =
  entries_for f' s ++ if decide (f' = fabric_index e) then [e] else [].
Proof.
  unfold entries_for, append_to_fabric, acl_save; cbn. rewrite List.filter_app. f_equal.
  cbn. unfold on_fabric. case_decide; [by subst; rewrite Z.eqb_refl|].
  by destruct (Z.eqb_spec (fabric_index e) f').
Qed.

Lemma entries_for_ok f s : store_ok s → Forall entry_ok (entries_for f s).
Proof.
  intros Hs. apply List.Forall_forall. intros e He.
  apply List.filter_In in He as [He _]. by apply (proj1 (List.Forall_forall _ _) Hs).
Qed.

Lemma filter_ok (P : AclDeviceEntry → Prop) f l : Forall P l → Forall P (List.filter f l).
Proof.
  intros Hs. apply List.Forall_forall. intros e He.
  apply List.filter_In in He as [He _]. by apply (proj1 (List.Forall_forall P l) Hs).
Qed.

Lemma with_fabric_ok f e : in_u 8 f → entry_ok e → entry_ok (with_fabric f e).
Proof. unfold entry_ok, with_fabric; cbn. naive_solver. Qed.

Lemma map_with_fabric f es :
  Forall (λ e, fabric_index e = f) (map (with_fabric f) es).
Proof. induction es; cbn; by constructor. Qed.

(** Success changes the writer's fabric only, to entries that satisfy the
    constraints; failure changes nothing. *)
Lemma acl_write_append data s ctx :
  bytes_ok data → small data → in_u 8 (ctx_fabric ctx) → ctx_fabric ctx ≠ 0 → store_ok s →
  match acl_write ATTR_ACL data true (s, ctx) with
  | ((s', ctx'), Ok _) => ∃ e, entry_ok e ∧ entry_valid e ∧ fabric_index e = ctx_fabric ctx ∧
      s' = append_to_fabric e s ∧ zlen (entries_for (ctx_fabric ctx) s) < ACL_ENTRIES_PER_FABRIC ∧
      ctx' = push_changed ATTR_ACL ctx
  | ((s', ctx'), Err st) => s' = s ∧ ctx' = ctx
  | _ => False
  end.
Proof.
  intros Hd Hsm Hf Hf0 Hs. unfold acl_write. cbn [negb Z.eqb ATTR_ACL].
  unfold bind at 1, get. destruct (Z.eqb_spec (ctx_fabric ctx) 0); [done|].
  pose proof (decode_single_struct_safe _ _ data entry_body_safe Hd Hsm) as Hdec.
  unfold bind, lift, or_constraint. destruct (decode_single_struct _ _) as [e|[]| |]; cbn; try done.
  destruct (validate_returns e Hdec) as [Hv|Hv]; rewrite Hv; cbn; [|done].
  destruct (Z.leb_spec ACL_ENTRIES_PER_FABRIC (zlen (entries_for (ctx_fabric ctx) s))); cbn; [done|].
  exists (with_fabric (ctx_fabric ctx) e).
  split_and!; try done; [by apply with_fabric_ok|].
  apply validate_spec in Hv. exact Hv.
Qed.

Lemma acl_write_replace data s ctx :
  bytes_ok data → small data → in_u 8 (ctx_fabric ctx) → ctx_fabric ctx ≠ 0 → store_ok s →
  match acl_write ATTR_ACL data false (s, ctx) with
  | ((s', ctx'), Ok _) => ∃ es, Forall entry_ok es ∧ Forall entry_valid es ∧
      Forall (λ e, fabric_index e = ctx_fabric ctx) es ∧
      s' = replace_fabric (ctx_fabric ctx) es s ∧ zlen es ≤ ACL_ENTRIES_PER_FABRIC ∧
      ctx' = push_changed ATTR_ACL ctx
  | ((s', ctx'), Err st) => s' = s ∧ ctx' = ctx
  | _ => False
  end.
Proof.
  intros Hd Hsm Hf Hf0 Hs. unfold acl_write. cbn [negb Z.eqb ATTR_ACL].
  unfold bind at 1, get. destruct (Z.eqb_spec (ctx_fabric ctx) 0); [done|].
  pose proof (decode_struct_list_safe _ _ data entry_body_safe Hd Hsm) as Hdec.
  unfold bind, lift, or_constraint. destruct (decode_struct_list _ _) as [es|[]| |]; cbn; try done.
  destruct (validate_all_spec es Hdec) as [ [Hv Hval] | Hv]; rewrite Hv; cbn; [|done].
  destruct (Z.ltb_spec ACL_ENTRIES_PER_FABRIC (zlen es)); cbn; [done|].
  exists (map (with_fabric (ctx_fabric ctx)) es).
  split_and!; try done; [| |by apply map_with_fabric|unfold zlen in *; by rewrite length_map].
  - apply List.Forall_map. eapply Forall_impl; [exact Hdec|]. intros e. by apply with_fabric_ok.
  - apply List.Forall_map. eapply Forall_impl; [exact Hval|]. done.
Qed.

(** ** Properties *)

(** C23. The ACL decision is the declarative policy: access is granted exactly
    when the session has a fabric and some entry of that fabric names the
    session (by node id, by a CASE tag of the same identifier and at least the
    entry's version, or by group, each only under its own authentication
    mode), holds a privilege at or above the required one in the lattice, and
    covers the endpoint and cluster with a target that has no device type. *)
Theorem check_decides s fabric subject required endpoint cluster :
  store_ok s → Forall (in_u 32) (cats_iter (cats subject)) → is_privilege required →
  check s fabric subject required endpoint cluster = true ↔
  fabric ≠ 0 ∧ ∃ e, e ∈ acl_entries s ∧ fabric_index e = fabric ∧ names_session subject e ∧
    rtc includes_step (privilege e) required ∧ covers (targets_raw e) endpoint cluster.
Proof.
  intros Hok Hcats Hreq. unfold check. destruct (Z.eqb_spec fabric 0) as [|Hf]; [naive_solver|].
  assert (Hentry : ∀ e, e ∈ acl_entries s →
    subject_matches_entry subject e = true ↔ names_session subject e).
  { intros e He. apply session_spec; [|done].
    by destruct (proj1 (Forall_forall _ _) Hok e He) as (_ & _ & Hs & _). }
  rewrite existsb_in. setoid_rewrite andb_true_iff. setoid_rewrite andb_true_iff.
  setoid_rewrite andb_true_iff. unfold on_fabric.
  setoid_rewrite Z.eqb_eq. setoid_rewrite (λ p, privilege_spec p required Hreq).
  setoid_rewrite targets_spec. naive_solver.
Qed.

(** An Operate entry for the CAT 0x0001_0002 (or later) on endpoint 1. *)
Definition demo_store : AclStore :=
  {| acl_entries :=
      [{| privilege := PRIVILEGE_OPERATE; auth_mode := AUTH_MODE_CASE;
          subjects := [0xFFFFFFFD00010002];
          targets_raw := Some [0x16; 0x15; 0x34; 0; 0x24; 1; 1; 0x18; 0x18];
          fabric_index := 1 |}];
     acl_saved := None |}.

Definition demo_subject : Subject := Subject_new 7 (0x00010003, 0, 0).

Lemma demo_store_ok : store_ok demo_store.
Proof.
  apply Forall_singleton. unfold entry_ok; cbn. split_and!; try done.
  - by apply Forall_singleton.
  - exists [Node Anonymous KStruct [Leaf (Context 0) VNull; Leaf (Context 1) (VUint 1)]].
    split_and!; [|done|done]. apply Forall_singleton, wf_anon_node.
    apply Forall_cons. split; [by apply wf_null|]. apply Forall_singleton. by apply (wf_uint 1 1 8).
Qed.

Lemma check_decides_witness :
  check demo_store 1 demo_subject PRIVILEGE_VIEW 1 6 = true ∧
  ∃ e, e ∈ acl_entries demo_store ∧ rtc includes_step (privilege e) PRIVILEGE_VIEW.
Proof.
  assert (Hc : check demo_store 1 demo_subject PRIVILEGE_VIEW 1 6 = true) by reflexivity.
  split; [exact Hc|].
  destruct (proj1 (check_decides demo_store 1 demo_subject PRIVILEGE_VIEW 1 6 demo_store_ok
    ltac:(by apply Forall_singleton) ltac:(by split)) Hc)
    as (_ & e & He & _ & _ & Hp & _).
  exists e. split; [exact He|exact Hp].
Defined.


(** A write of the ACL attribute from untrusted bytes never panics. When it
    is accepted the attribute is the ACL, the session has a fabric, every other
    fabric's entries are untouched, the writing fabric has its old entries (on
    append) followed by new ones that satisfy every constraint and carry that
    fabric's index whatever the data said, at most four in all, and the table
    stays well formed. When it is refused nothing changed. *)
Theorem acl_write_sound attribute data append s ctx :
  bytes_ok data → small data → in_u 8 (ctx_fabric ctx) → store_ok s →
  let fabric := ctx_fabric ctx in
  match acl_write attribute data append (s, ctx) with
  | ((s', ctx'), Ok _) =>
      attribute = ATTR_ACL ∧ fabric ≠ 0 ∧ ctx' = push_changed ATTR_ACL ctx ∧ store_ok s' ∧
      (∀ f, f ≠ fabric → entries_for f s' = entries_for f s) ∧
      zlen (entries_for fabric s') ≤ ACL_ENTRIES_PER_FABRIC ∧
      ∃ es, entries_for fabric s' = (if append then entries_for fabric s else []) ++ es ∧
        Forall (λ e, entry_valid e ∧ fabric_index e = fabric) es
  | ((s', ctx'), Err _) => s' = s ∧ ctx' = ctx
  | _ => False
  end.
Proof.
  intros Hd Hsm Hf Hs fabric. subst fabric.
  destruct (Z.eqb_spec attribute ATTR_ACL) as [->|Ha].
  2:{ unfold acl_write. by destruct (Z.eqb_spec attribute ATTR_ACL). }
  destruct (Z.eqb_spec (ctx_fabric ctx) 0) as [H0|H0].
  { unfold acl_write. cbn. unfold bind, get. by rewrite H0. }
  destruct append.
  - pose proof (acl_write_append data s ctx Hd Hsm Hf H0 Hs) as H.
    destruct (acl_write _ _ _ _) as [ [s' ctx'] [x|e| |]]; try done.
    destruct H as (e & He & Hv & Hfab & -> & Hlen & ->).  split_and!; try done.
    + apply Forall_app. split; [done|]. by apply Forall_singleton.
    + intros f Hne. rewrite entries_append, decide_False by congruence. apply app_nil_r.
    + rewrite entries_append, decide_True, zlen_app by done. rewrite zlen_cons, zlen_nil. lia.
    + exists [e]. rewrite entries_append, decide_True by done. split; [done|]. by apply Forall_singleton.
  - pose proof (acl_write_replace data s ctx Hd Hsm Hf H0 Hs) as H.
    destruct (acl_write _ _ _ _) as [ [s' ctx'] [x|e| |]]; try done.
    destruct H as (es & He & Hv & Hfab & -> & Hlen & ->).  split_and!; try done.
    + apply Forall_app. split; [by apply filter_ok|done].
    + intros f Hne. by rewrite entries_replace, decide_False.
    + by rewrite entries_replace, decide_True.
    + exists es. rewrite entries_replace, decide_True by done. split; [done|].
      by apply Forall_and.
Qed.

Definition demo_ctx : InvokeCtx :=
  {| attestation_challenge := []; ctx_changed := []; ctx_fabric := 1;
     ctx_subject := demo_subject; ctx_events := [] |}.

(** An array of one View entry for node 9, claiming fabric 5. *)
Definition demo_write : bytes :=
  [0x16; 0x15; 0x24; 1; 1; 0x24; 2; 2; 0x36; 3; 0x04; 9; 0x18; 0x34; 4; 0x24; 254; 5; 0x18; 0x18].

Lemma acl_write_sound_witness :
  (acl_write ATTR_ACL demo_write false (demo_store, demo_ctx)).2 = Ok () ∧
  match acl_write ATTR_ACL demo_write false (demo_store, demo_ctx) with
  | ((s', ctx'), Ok _) => store_ok s' ∧ zlen (entries_for 1 s') ≤ ACL_ENTRIES_PER_FABRIC
  | _ => False
  end.
Proof.
  pose proof (acl_write_sound ATTR_ACL demo_write false demo_store demo_ctx) as H.
  assert (Hb : bytes_ok demo_write).
  { repeat (apply Forall_cons; split; [unfold is_byte; lia|]). constructor. }
  specialize (H Hb ltac:(done) ltac:(by split) demo_store_ok).
  assert (Hok : (acl_write ATTR_ACL demo_write false (demo_store, demo_ctx)).2 = Ok ()) by reflexivity.
  split; [exact Hok|].
  destruct (acl_write ATTR_ACL demo_write false (demo_store, demo_ctx)) as [ [s' ctx'] [x|e| |]];
    try discriminate Hok.
  destruct H as (_ & _ & _ & Hs & _ & Hl & _). split; [exact Hs|exact Hl].
Defined.

(** The ACL attribute round-trips: what a read returns decodes to exactly the
    reading fabric's entries, and writing it back whole leaves every fabric's
    entries as they were. *)
Theorem acl_read_write_back s rctx ctx :
  store_ok s → rc_fabric rctx = ctx_fabric ctx → in_u 8 (ctx_fabric ctx) → ctx_fabric ctx ≠ 0 →
  Forall entry_valid (entries_for (ctx_fabric ctx) s) →
  zlen (entries_for (ctx_fabric ctx) s) ≤ ACL_ENTRIES_PER_FABRIC →
  ∃ b, acl_read s ATTR_ACL rctx = Ok (Some b) ∧
    (small b →
     decode_struct_list b decode_acl_entry_body = Ok (entries_for (ctx_fabric ctx) s) ∧
     ∃ s', acl_write ATTR_ACL b false (s, ctx) = ((s', push_changed ATTR_ACL ctx), Ok ()) ∧
       ∀ f, entries_for f s' = entries_for f s).
Proof.
  intros Hs Hr Hf H0 Hv Hlen. set (f := ctx_fabric ctx) in *.
  pose proof (entries_for_ok f s Hs) as Hok.
  destruct (entries_have_trees _ Hok) as [ts Hts].
  exists (enc_tree (Node Anonymous KArray ts)). split.
  { unfold acl_read; cbn. by rewrite Hr, (encode_entries_eq _ _ Hts). }
  intros Hsm. pose proof (decode_struct_list_at _ _ _ (entries_decode _ _ Hok Hts) Hsm) as Hdec.
  split; [exact Hdec|].
  assert (Hall : validate_all (entries_for f s) = Ok ()).
  { clear -Hv. induction Hv as [|e es He _ IH]; [done|]. cbn.
    by rewrite (proj2 (validate_spec e) He). }
  assert (Hfab : Forall (λ e, fabric_index e = f) (entries_for f s)).
  { apply List.Forall_forall. intros e He. apply List.filter_In in He as [_ He]. by apply Z.eqb_eq. }
  assert (Hmap : map (with_fabric f) (entries_for f s) = entries_for f s).
  { clear -Hfab. induction Hfab as [|[] es He _ IH]; [done|]. cbn in *. by rewrite IH, <- He. }
  exists (replace_fabric f (entries_for f s) s). split.
  - unfold acl_write. cbn [negb Z.eqb ATTR_ACL]. unfold bind at 1, get. fold f.
    destruct (Z.eqb_spec f 0); [done|]. unfold bind, lift, or_constraint. rewrite Hdec. cbn.
    rewrite Hall. destruct (Z.ltb_spec ACL_ENTRIES_PER_FABRIC (zlen (entries_for f s))); [lia|].
    cbn. by rewrite Hmap.
  - intros f'. rewrite entries_replace by done. case_decide; [by subst|done].
Qed.

Lemma demo_entries_valid : Forall entry_valid (entries_for 1 demo_store).
Proof.
  change (entries_for 1 demo_store) with (acl_entries demo_store).
  apply Forall_singleton. by apply validate_spec.
Qed.

Lemma acl_read_write_back_witness :
  ∃ b, acl_read demo_store ATTR_ACL {| rc_fabric := 1; rc_filtered := true; rc_subject := demo_subject |}
      = Ok (Some b) ∧
    (small b →
     decode_struct_list b decode_acl_entry_body = Ok (entries_for 1 demo_store) ∧
     ∃ s', acl_write ATTR_ACL b false (demo_store, demo_ctx)
         = ((s', push_changed ATTR_ACL demo_ctx), Ok ()) ∧
       ∀ f, entries_for f s' = entries_for f demo_store).
Proof.
  apply (acl_read_write_back demo_store
    {| rc_fabric := 1; rc_filtered := true; rc_subject := demo_subject |} demo_ctx).
  - exact demo_store_ok.
  - reflexivity.
  - by split.
  - done.
  - exact demo_entries_valid.
  - done.
Defined.

Lemma check_entries s fabric subject required endpoint cluster :
  check s fabric subject required endpoint cluster =
  negb (fabric =? 0) && existsb (λ e, subject_matches_entry subject e &&
    privilege_grants (privilege e) required && targets_match (targets_raw e) endpoint cluster)
    (entries_for fabric s).
Proof.
  unfold check, entries_for. destruct (fabric =? 0); [done|]. cbn [negb andb].
  induction (acl_entries s) as [|e l IH]; [done|]. cbn. rewrite IH.
  by destruct (on_fabric fabric e); cbn.
Qed.

Lemma entries_purge f f' s :
  entries_for f' (purge_fabric f s) = if decide (f' = f) then [] else entries_for f' s.
Proof.
  unfold entries_for, purge_fabric, acl_save; cbn.
  case_decide as Hf; [subst; apply filter_same|by apply filter_other].
Qed.

(** What the commissioning code does to the table has the effect it needs on
    decisions: after [purge_fabric] nothing is granted on that fabric and every
    decision on the others is as before; after [add_case_admin] the named node
    may do everything on its fabric, nothing granted before is lost, and other
    fabrics are unaffected. *)
Theorem acl_lifecycle s fabric node :
  fabric ≠ 0 → Z.shiftr node 32 ≠ CAT_SUBJECT_PREFIX →
  (∀ subject required endpoint cluster,
    check (purge_fabric fabric s) fabric subject required endpoint cluster = false) ∧
  (∀ f subject required endpoint cluster, f ≠ fabric →
    check (purge_fabric fabric s) f subject required endpoint cluster =
    check s f subject required endpoint cluster) ∧
  (∀ c required endpoint cluster,
    check (add_case_admin fabric node s) fabric (Subject_new node c) required endpoint cluster = true) ∧
  (∀ f subject required endpoint cluster,
    check s f subject required endpoint cluster = true →
    check (add_case_admin fabric node s) f subject required endpoint cluster = true) ∧
  (∀ f subject required endpoint cluster, f ≠ fabric →
    check (add_case_admin fabric node s) f subject required endpoint cluster =
    check s f subject required endpoint cluster).
Proof.
  intros H0 Hn.
  set (e := {| privilege := PRIVILEGE_ADMINISTER; auth_mode := AUTH_MODE_CASE; subjects := [node];
               targets_raw := None; fabric_index := fabric |}).
  assert (Hadd : ∀ f, entries_for f (add_case_admin fabric node s) =
    entries_for f s ++ if decide (f = fabric) then [e] else []) by (intros f; apply (entries_append f e)).
  split_and!; intros *.
  - rewrite check_entries, entries_purge, decide_True by done. apply andb_false_r.
  - intros Hf. by rewrite !check_entries, entries_purge, decide_False.
  - rewrite check_entries, Hadd, decide_True, existsb_app by done. cbn.
    unfold matches; cbn. destruct (Z.eqb_spec (Z.shiftr node 32) CAT_SUBJECT_PREFIX); [done|]. cbn.
    rewrite Z.eqb_refl. destruct (Z.eqb_spec fabric 0); [done|]. by rewrite orb_true_r.
  - rewrite !check_entries, Hadd, existsb_app. intros [-> ->]%andb_true_iff. done.
  - intros Hf. by rewrite !check_entries, Hadd, decide_False, app_nil_r.
Qed.

Lemma acl_lifecycle_witness :
  check (add_case_admin 1 7 AclStore_new) 1 (Subject_new 7 CaseAuthTags_default) PRIVILEGE_ADMINISTER 0 0x1F
  = true ∧
  check (purge_fabric 1 (add_case_admin 1 7 AclStore_new)) 1 (Subject_new 7 CaseAuthTags_default)
    PRIVILEGE_VIEW 0 0x1F = false.
Proof.
  pose proof (acl_lifecycle AclStore_new 1 7 ltac:(done) ltac:(done)) as (_ & _ & Ha & _).
  pose proof (acl_lifecycle (add_case_admin 1 7 AclStore_new) 1 7 ltac:(done) ltac:(done)) as (Hp & _).
  split; [apply Ha|apply Hp].
Defined.
