(* ===== verification/Events.v ===== *)
(** * The device's event log

    Models [crates/mat-device/src/core/events.rs]: a bounded FIFO of events
    with node-wide increasing numbers.  [el_append] numbers and stores an event,
    dropping the oldest when the log is full; [since] selects by number. *)

From Stdlib Require Import Sorted.
From S2P Require Import Prelude Handler.

Record StoredEvent := {
  se_number : Z;
  se_endpoint : Z;
  se_cluster : Z;
  se_event : Z;
  se_priority : EventPriority;
  se_timestamp : Z;
  se_data : option bytes
}.

Record EventLog := {
  next_number : Z;
  el_entries : list StoredEvent;
  el_cap : Z
}.

Definition DEFAULT_CAP : Z := 64.

Definition EventLog_new (first_number cap : Z) : EventLog :=
  {| next_number := first_number; el_entries := []; el_cap := Z.max cap 1 |}.

Definition EventLog_default : EventLog := EventLog_new 1 DEFAULT_CAP.

Definition el_append (endpoint cluster : Z) (ev : EmittedEvent) (timestamp : Z) (l : EventLog) :
    EventLog * Z :=
  let number := next_number l in
  let kept := if zlen (el_entries l) =? el_cap l then drop 1 (el_entries l) else el_entries l in
  ({| next_number := wrap 64 (number + 1);
      el_entries := kept ++
        [{| se_number := number; se_endpoint := endpoint; se_cluster := cluster;
            se_event := em_event ev; se_priority := em_priority ev; se_timestamp := timestamp;
            se_data := em_data ev |}];
      el_cap := el_cap l |}, number).

Definition since (min : Z) (l : EventLog) : list StoredEvent :=
  List.filter (λ e, min <=? se_number e) (el_entries l).

(** One event of a run of appends. *)
Record Emission := { e_endpoint : Z; e_cluster : Z; e_event : EmittedEvent; e_time : Z }.

Definition append_one (l : EventLog) (x : Emission) : EventLog :=
  fst (el_append (e_endpoint x) (e_cluster x) (e_event x) (e_time x) l).

(** ** What the log holds *)

(** The emission [x] stored under number [n]. *)
Definition stored (n : Z) (x : Emission) : StoredEvent :=
  {| se_number := n; se_endpoint := e_endpoint x; se_cluster := e_cluster x;
     se_event := em_event (e_event x); se_priority := em_priority (e_event x);
     se_timestamp := e_time x; se_data := em_data (e_event x) |}.

Fixpoint number_from (n : Z) (xs : list Emission) : list StoredEvent :=
  match xs with [] => [] | x :: xs => stored n x :: number_from (n + 1) xs end.

Definition last_n {A} (n : Z) (l : list A) : list A := drop (Z.to_nat (zlen l - n)) l.

Lemma number_from_app n xs ys :
  number_from n (xs ++ ys) = number_from n xs ++ number_from (n + zlen xs) ys.
Proof.
  revert n. induction xs as [|x xs IH]; intros n; cbn; [by rewrite zlen_nil, Z.add_0_r|].
  rewrite IH, zlen_cons. do 3 f_equal. lia.
Qed.

Lemma zlen_number_from n xs : zlen (number_from n xs) = zlen xs.
Proof. revert n. induction xs; intros n; cbn; rewrite ?zlen_cons, ?IHxs; done. Qed.

Lemma last_n_snoc {A} cap (l : list A) x : 1 ≤ cap →
  (if zlen (last_n cap l) =? cap then drop 1 (last_n cap l) else last_n cap l) ++ [x] =
  last_n cap (l ++ [x]).
Proof.
  intros Hc. unfold last_n. rewrite zlen_app. change (zlen [x]) with 1.
  assert (Hlen : zlen (drop (Z.to_nat (zlen l - cap)) l) = Z.min (zlen l) cap).
  { unfold zlen. rewrite length_drop. lia. }
  rewrite Hlen. pose proof (zlen_nonneg l).
  destruct (Z.eqb_spec (Z.min (zlen l) cap) cap).
  - rewrite drop_drop, drop_app_le by (unfold zlen in *; lia). do 2 f_equal. lia.
  - replace (Z.to_nat (zlen l - cap)) with 0%nat by lia.
    by replace (Z.to_nat (zlen l + 1 - cap)) with 0%nat by lia.
Qed.

(** The log of a run: the last [cap] events of everything appended. *)
Definition log_of (first cap : Z) (xs : list Emission) : EventLog :=
  {| next_number := first + zlen xs; el_entries := last_n cap (number_from first xs); el_cap := cap |}.

Lemma append_log_of first cap xs x :
  1 ≤ cap → 0 ≤ first → first + zlen xs + 1 < 2 ^ 64 →
  append_one (log_of first cap xs) x = log_of first cap (xs ++ [x]).
Proof.
  intros Hc Hf Hlt. unfold append_one, el_append, log_of. cbn [fst next_number el_entries el_cap].
  rewrite number_from_app, zlen_app. change (zlen [x]) with 1. pose proof (zlen_nonneg xs).
  f_equal; [rewrite wrap_small; [lia|unfold in_u; lia]|]. by apply last_n_snoc.
Qed.

Lemma appends_log_of first cap xs :
  1 ≤ cap → 0 ≤ first → first + zlen xs < 2 ^ 64 →
  foldl append_one (EventLog_new first cap) xs = log_of first cap xs.
Proof.
  intros Hc Hf. induction xs as [|x xs IH] using rev_ind; intros Hlt.
  { unfold log_of, EventLog_new, last_n. cbn [number_from]. rewrite zlen_nil, Z.add_0_r, drop_nil.
    by replace (Z.max cap 1) with cap by lia. }
  rewrite zlen_app in Hlt. change (zlen [x]) with 1 in Hlt.
  rewrite foldl_snoc, IH by lia. by apply append_log_of; [..|lia].
Qed.

(** Stored numbers strictly increase. *)
Definition ascending (l : list Z) : Prop := StronglySorted Z.lt l.

Lemma number_from_lower n xs e : e ∈ number_from n xs → n ≤ se_number e < n + zlen xs.
Proof.
  revert n. induction xs as [|x xs IH]; intros n; cbn; [by intros ?%not_elem_of_nil|].
  rewrite elem_of_cons, zlen_cons. pose proof (zlen_nonneg xs).
  intros [-> | He]; [cbn; lia|]. apply IH in He. lia.
Qed.

Lemma number_from_ascending n xs : ascending (map se_number (number_from n xs)).
Proof.
  revert n. induction xs as [|x xs IH]; intros n; cbn; constructor; [apply IH|].
  apply Forall_forall. intros m (e & -> & He)%list_elem_of_fmap. apply number_from_lower in He. cbn. lia.
Qed.

(** A well-formed log: within capacity, every number issued, ascending. *)
Definition log_ok (l : EventLog) : Prop :=
  zlen (el_entries l) ≤ el_cap l ∧ 1 ≤ el_cap l ∧
  ascending (map se_number (el_entries l)) ∧ Forall (λ e, 0 ≤ se_number e < next_number l) (el_entries l).

Lemma ascending_drop n l : ascending l → ascending (drop n l).
Proof.
  revert l. induction n as [|n IH]; intros l Hl; [done|]. destruct Hl; cbn; [constructor|by apply IH].
Qed.

Lemma ascending_snoc l x : ascending l → Forall (λ y, y < x) l → ascending (l ++ [x]).
Proof.
  induction 1 as [|y l Hl IH Hy]; intros Hx; cbn; [by repeat constructor|].
  apply Forall_cons in Hx as [Hyx Hx]. constructor; [by apply IH|].
  apply Forall_app. split; [done|by apply Forall_singleton].
Qed.

Lemma append_ok ep cl ev ts l :
  log_ok l → 0 ≤ next_number l < 2 ^ 64 - 1 →
  log_ok (el_append ep cl ev ts l).1 ∧ next_number (el_append ep cl ev ts l).1 = next_number l + 1 ∧
  (el_append ep cl ev ts l).2 = next_number l.
Proof.
  intros (Hcap & Hc & Hasc & Hall) Hn. unfold el_append. cbn [fst snd next_number].
  assert (Hw : wrap 64 (next_number l + 1) = next_number l + 1) by (apply wrap_small; unfold in_u; lia).
  split; [|done]. unfold log_ok. cbn [el_entries el_cap next_number]. rewrite Hw.
  set (kept := if zlen (el_entries l) =? el_cap l then drop 1 (el_entries l) else el_entries l).
  assert (Hk : ∃ n, kept = drop n (el_entries l) ∧ zlen kept + 1 ≤ el_cap l).
  { subst kept. destruct (Z.eqb_spec (zlen (el_entries l)) (el_cap l)).
    - exists 1%nat. split; [done|]. unfold zlen in *. rewrite length_drop. lia.
    - exists 0%nat. split; [done|]. lia. }
  destruct Hk as (n & -> & Hlen). rewrite zlen_app. change (zlen [_]) with 1.
  assert (Hd : Forall (λ e, 0 ≤ se_number e < next_number l) (drop n (el_entries l))) by by apply Forall_drop.
  split_and!; [lia|done| |].
  - rewrite map_app. apply ascending_snoc; [rewrite <- skipn_map; by apply ascending_drop|].
    apply List.Forall_map. eapply Forall_impl; [exact Hd|]. cbn. lia.
  - apply Forall_app. split; [|apply Forall_singleton; cbn; lia].
    eapply Forall_impl; [exact Hd|]. cbn. lia.
Qed.

Lemma EventLog_new_ok first cap : log_ok (EventLog_new first cap).
Proof. unfold log_ok, EventLog_new. cbn. rewrite zlen_nil. split_and!; try lia; constructor. Qed.
