(* ===== verification/Clusters.v ===== *)
(** * The device's small clusters

    Models [crates/mat-device/src/core/]: [onoff.rs], [boolean_state.rs],
    [generic_switch.rs] and [identify.rs].

    A cluster's state, shared with the rest of the program through an [Arc] in
    the code, is a component of the world reached by a [Lens].  Each handler
    keeps the contract [HandlerOk]; the instances are what a node built of them
    needs. *)

From Stdlib Require Import String.
From S2P Require Import Prelude Tlv TlvValue Handler.

(** ** Shared state *)

Record Lens (W A : Type) := {
  view : W → A;
  update : A → W → W
}.
Arguments view {W A} l w.
Arguments update {W A} l a w.

(** ** OnOff *)

Definition CLUSTER_ON_OFF : Z := 0x0006.
Definition ATTR_ON_OFF : Z := 0x0000.
Definition CMD_ON_OFF_OFF : Z := 0x00.
Definition CMD_ON_OFF_ON : Z := 0x01.
Definition CMD_ON_OFF_TOGGLE : Z := 0x02.

Definition some_value (m : fin bytes) : fin (option bytes) := let? b := m in Ok (Some b).

Section on_off.
Context {W : Type} (l : Lens W bool).

Definition on_off_target (w : W) (cmd : Z) : option bool :=
  if cmd =? CMD_ON_OFF_ON then Some true
  else if cmd =? CMD_ON_OFF_OFF then Some false
  else if cmd =? CMD_ON_OFF_TOGGLE then Some (negb (view l w))
  else None.

Definition on_off_invoke (cmd : Z) (fields : bytes) : M (W * InvokeCtx) Empty_set InvokeReply :=
  λ '(w, c),
    match on_off_target w cmd with
    | None => ((w, c), Ok (RStatus STATUS_UNSUPPORTED_COMMAND))
    | Some new =>
        ((update l new w, if Bool.eqb (view l w) new then c else push_changed ATTR_ON_OFF c),
         Ok (RStatus STATUS_SUCCESS))
    end.

Definition OnOffHandler : ClusterHandler W := {|
  cluster_id := CLUSTER_ON_OFF;
  attributes := [ATTR_ON_OFF];
  h_read w a ctx := if a =? ATTR_ON_OFF then some_value (tlv_bool (view l w)) else Ok None;
  h_invoke := on_off_invoke;
  accepted_commands := [CMD_ON_OFF_OFF; CMD_ON_OFF_ON; CMD_ON_OFF_TOGGLE];
  generated_commands := [];
  h_write := default_write;
  feature_map := 0;
  revision := 6;
  read_privilege _ := PRIVILEGE_VIEW;
  write_privilege _ := PRIVILEGE_OPERATE;
  invoke_privilege _ := PRIVILEGE_OPERATE;
  events := [];
  event_privilege _ := PRIVILEGE_VIEW;
  h_stimulate := default_stimulate
|}.
End on_off.

(** ** BooleanState *)

Definition CLUSTER_BOOLEAN_STATE : Z := 0x0045.
Definition ATTR_BS_STATE_VALUE : Z := 0x0000.
Definition EVENT_BS_STATE_CHANGE : Z := 0x00.

(** A command of a cluster that has none. *)
Definition no_commands {W} (cmd : Z) (fields : bytes) : M (W * InvokeCtx) Empty_set InvokeReply :=
  ret (RStatus STATUS_UNSUPPORTED_COMMAND).

Section boolean_state.
Context {W : Type} (l : Lens W bool).

Definition state_change_data (new : bool) : fin bytes :=
  to_vec (start_struct Anonymous ;;! put_bool (Context 0) new ;;! end_container).

Definition boolean_state_stimulate (s : Stimulus) : M (W * InvokeCtx) Empty_set StimulusReply :=
  λ '(w, c),
    match s with
    | SetState new =>
        let w' := update l new w in
        if Bool.eqb (view l w) new then ((w', c), Ok Applied)
        else
          let c := push_changed ATTR_BS_STATE_VALUE c in
          match state_change_data new with
          | Ok b =>
              ((w', push_event {| em_event := EVENT_BS_STATE_CHANGE; em_priority := Info;
                                  em_data := Some b |} c), Ok Applied)
          | _ => ((w', c), Panic)
          end
    | _ => ((w, c), Ok Unsupported)
    end.

Definition BooleanStateHandler : ClusterHandler W := {|
  cluster_id := CLUSTER_BOOLEAN_STATE;
  attributes := [ATTR_BS_STATE_VALUE];
  h_read w a ctx := if a =? ATTR_BS_STATE_VALUE then some_value (tlv_bool (view l w)) else Ok None;
  h_invoke := no_commands;
  accepted_commands := [];
  generated_commands := [];
  h_write := default_write;
  feature_map := 0;
  revision := 1;
  read_privilege _ := PRIVILEGE_VIEW;
  write_privilege _ := PRIVILEGE_OPERATE;
  invoke_privilege _ := PRIVILEGE_OPERATE;
  events := [EVENT_BS_STATE_CHANGE];
  event_privilege _ := PRIVILEGE_VIEW;
  h_stimulate := boolean_state_stimulate
|}.
End boolean_state.

(** ** GenericSwitch *)

Definition CLUSTER_SWITCH : Z := 0x003B.
Definition ATTR_SWITCH_NUMBER_OF_POSITIONS : Z := 0x0000.
Definition ATTR_SWITCH_CURRENT_POSITION : Z := 0x0001.
Definition ATTR_SWITCH_MULTI_PRESS_MAX : Z := 0x0002.
Definition EVENT_SWITCH_INITIAL_PRESS : Z := 0x01.
Definition EVENT_SWITCH_LONG_PRESS : Z := 0x02.
Definition EVENT_SWITCH_SHORT_RELEASE : Z := 0x03.
Definition EVENT_SWITCH_LONG_RELEASE : Z := 0x04.
Definition EVENT_SWITCH_MULTI_PRESS_ONGOING : Z := 0x05.
Definition EVENT_SWITCH_MULTI_PRESS_COMPLETE : Z := 0x06.
Definition SWITCH_FEATURES : Z := Z.lor (Z.lor (Z.lor 0x02 0x04) 0x08) 0x10.
Definition NUMBER_OF_POSITIONS : Z := 2.
Definition MULTI_PRESS_MAX : Z := 3.

Section generic_switch.
Context {W : Type} (l : Lens W Z).

Definition one_field (v : Z) : fin bytes :=
  to_vec (start_struct Anonymous ;;! put_uint (Context 0) v ;;! end_container).

Definition two_fields (a b : Z) : fin bytes :=
  to_vec (start_struct Anonymous ;;! put_uint (Context 0) a ;;! put_uint (Context 1) b ;;! end_container).

(** [ctx.events.push(info(event, data))]. *)
Definition push_info (event : Z) (data : fin bytes) : M (W * InvokeCtx) Empty_set () :=
  let! b := lift data in
  modify (λ '(w, c), (w, push_event {| em_event := event; em_priority := Info; em_data := Some b |} c)).

(** The further presses of a multi press, [i], [i + 1], ... *)
Fixpoint more_presses (i : Z) (n : nat) : M (W * InvokeCtx) Empty_set () :=
  match n with
  | O => ret ()
  | S n =>
      push_info EVENT_SWITCH_INITIAL_PRESS (one_field 1) ;;!
      push_info EVENT_SWITCH_MULTI_PRESS_ONGOING (two_fields 1 i) ;;!
      push_info EVENT_SWITCH_SHORT_RELEASE (one_field 1) ;;!
      more_presses (i + 1) n
  end.

Definition switch_stimulate (s : Stimulus) : M (W * InvokeCtx) Empty_set StimulusReply :=
  match s with
  | Press Short =>
      push_info EVENT_SWITCH_INITIAL_PRESS (one_field 1) ;;!
      push_info EVENT_SWITCH_SHORT_RELEASE (one_field 1) ;;!
      ret Applied
  | Press Long =>
      push_info EVENT_SWITCH_INITIAL_PRESS (one_field 1) ;;!
      push_info EVENT_SWITCH_LONG_PRESS (one_field 1) ;;!
      push_info EVENT_SWITCH_LONG_RELEASE (one_field 1) ;;!
      ret Applied
  | Press (Multi n) =>
      if n <? 2 then ret (Rejected "multi press count must be at least 2")
      else if MULTI_PRESS_MAX <? n then ret (Rejected "multi press count exceeds MultiPressMax")
      else
        push_info EVENT_SWITCH_INITIAL_PRESS (one_field 1) ;;!
        push_info EVENT_SWITCH_SHORT_RELEASE (one_field 1) ;;!
        more_presses 2 (Z.to_nat (n - 1)) ;;!
        push_info EVENT_SWITCH_MULTI_PRESS_COMPLETE (two_fields 1 n) ;;!
        ret Applied
  | SetState _ => ret Unsupported
  end.

Definition switch_read (w : W) (a : Z) (ctx : ReadCtx) : fin (option bytes) :=
  if a =? ATTR_SWITCH_NUMBER_OF_POSITIONS then some_value (tlv_uint NUMBER_OF_POSITIONS)
  else if a =? ATTR_SWITCH_CURRENT_POSITION then some_value (tlv_uint (view l w))
  else if a =? ATTR_SWITCH_MULTI_PRESS_MAX then some_value (tlv_uint MULTI_PRESS_MAX)
  else Ok None.

Definition GenericSwitchHandler : ClusterHandler W := {|
  cluster_id := CLUSTER_SWITCH;
  attributes := [ATTR_SWITCH_NUMBER_OF_POSITIONS; ATTR_SWITCH_CURRENT_POSITION;
                 ATTR_SWITCH_MULTI_PRESS_MAX];
  h_read := switch_read;
  h_invoke := no_commands;
  accepted_commands := [];
  generated_commands := [];
  h_write := default_write;
  feature_map := SWITCH_FEATURES;
  revision := 2;
  read_privilege _ := PRIVILEGE_VIEW;
  write_privilege _ := PRIVILEGE_OPERATE;
  invoke_privilege _ := PRIVILEGE_OPERATE;
  events := [EVENT_SWITCH_INITIAL_PRESS; EVENT_SWITCH_LONG_PRESS; EVENT_SWITCH_SHORT_RELEASE;
             EVENT_SWITCH_LONG_RELEASE; EVENT_SWITCH_MULTI_PRESS_ONGOING;
             EVENT_SWITCH_MULTI_PRESS_COMPLETE];
  event_privilege _ := PRIVILEGE_VIEW;
  h_stimulate := switch_stimulate
|}.
End generic_switch.

(** ** Identify

    [deadline] is the shared deadline, [clock] the instant [Instant::now()]
    returns; both in nanoseconds. *)

Definition CLUSTER_IDENTIFY : Z := 0x0003.
Definition ATTR_IDENTIFY_TIME : Z := 0x0000.
Definition ATTR_IDENTIFY_TYPE : Z := 0x0001.
Definition CMD_IDENTIFY : Z := 0x00.
Definition CMD_IDENTIFY_TRIGGER_EFFECT : Z := 0x40.
Definition IDENTIFY_TYPE_NONE : Z := 0x00.
Definition NANOS : Z := 1000000000.

Section identify.
Context {W : Type} (deadline : Lens W (option Z)) (clock : W → Z).

Definition is_identifying (w : W) : bool :=
  match view deadline w with Some d => clock w <? d | None => false end.

Definition remaining_secs (w : W) : Z :=
  match view deadline w with Some d => saturating_sub d (clock w) / NANOS | None => 0 end.

Definition decode_identify_time (fields : bytes) : option Z :=
  match decode_struct_uint_field fields 0 with Ok v => try_u 16 v | _ => None end.

Definition identify_invoke (cmd : Z) (fields : bytes) : M (W * InvokeCtx) Empty_set InvokeReply :=
  λ '(w, c),
    if cmd =? CMD_IDENTIFY then
      match decode_identify_time fields with
      | None => ((w, c), Ok (RStatus STATUS_INVALID_COMMAND))
      | Some secs =>
          ((update deadline (if secs =? 0 then None else Some (clock w + secs * NANOS)) w,
            push_changed ATTR_IDENTIFY_TIME c), Ok (RStatus STATUS_SUCCESS))
      end
    else if cmd =? CMD_IDENTIFY_TRIGGER_EFFECT then ((w, c), Ok (RStatus STATUS_SUCCESS))
    else ((w, c), Ok (RStatus STATUS_UNSUPPORTED_COMMAND)).

Definition identify_read (w : W) (a : Z) (ctx : ReadCtx) : fin (option bytes) :=
  if a =? ATTR_IDENTIFY_TIME then some_value (tlv_uint (remaining_secs w))
  else if a =? ATTR_IDENTIFY_TYPE then some_value (tlv_uint IDENTIFY_TYPE_NONE)
  else Ok None.

Definition IdentifyHandler : ClusterHandler W := {|
  cluster_id := CLUSTER_IDENTIFY;
  attributes := [ATTR_IDENTIFY_TIME; ATTR_IDENTIFY_TYPE];
  h_read := identify_read;
  h_invoke := identify_invoke;
  accepted_commands := [CMD_IDENTIFY; CMD_IDENTIFY_TRIGGER_EFFECT];
  generated_commands := [];
  h_write := default_write;
  feature_map := 0;
  revision := 4;
  read_privilege _ := PRIVILEGE_VIEW;
  write_privilege _ := PRIVILEGE_OPERATE;
  invoke_privilege _ := PRIVILEGE_MANAGE;
  events := [];
  event_privilege _ := PRIVILEGE_VIEW;
  h_stimulate := default_stimulate
|}.
End identify.

(** ** The contract holds *)

(** Updates through the lens keep the world's invariant. *)
Class LensKeeps {W A} (I : W → Prop) (P : A → Prop) (l : Lens W A) : Prop :=
  lens_keeps a w : I w → P a → I (update l a w).

Section contract.
Context {W : Type} (I : W → Prop).

Lemma some_value_ok (m : fin bytes) : (∃ b, m = Ok b ∧ element_bytes b) →
  ∃ o, some_value m = Ok o ∧ from_option element_bytes True o.
Proof. intros (b & -> & Hb). by exists (Some b). Qed.

Lemma none_value_ok : ∃ o : option bytes, Ok (E:=Empty_set) None = Ok o ∧ from_option element_bytes True o.
Proof. by exists None. Qed.

Lemma no_commands_ok w (c : InvokeCtx) cmd f : I w →
  ∃ w' c' r, no_commands cmd f (w, c) = ((w', c'), Ok r) ∧ I w' ∧ ctx_kept c c' ∧ reply_ok r.
Proof. intros Hw. do 3 eexists. split_and!; [done|done|apply ctx_kept_refl|done]. Qed.

Lemma default_write_ok w (c : InvokeCtx) a data append : I w →
  ∃ w' c' r, default_write a data append (w, c) = ((w', c'), r) ∧ I w' ∧ ctx_kept c c' ∧
    match r with Ok _ => True | Err s => in_u 8 s | _ => False end.
Proof. intros Hw. do 3 eexists. split_and!; [done|done|apply ctx_kept_refl|done]. Qed.

Lemma default_stimulate_ok w (c : InvokeCtx) s : I w →
  ∃ w' c' r, default_stimulate s (w, c) = ((w', c'), Ok r) ∧ I w' ∧ ctx_kept c c'.
Proof. intros Hw. do 3 eexists. split_and!; [done|done|apply ctx_kept_refl]. Qed.

#[local] Arguments some_value : simpl never.
#[local] Arguments tlv_bool : simpl never.
#[local] Arguments tlv_uint : simpl never.
#[local] Arguments state_change_data : simpl never.
#[local] Arguments switch_stimulate : simpl never.
#[local] Arguments identify_invoke : simpl never.
#[local] Arguments identify_read : simpl never.

(** Literal ids. *)
Ltac ids := repeat (apply Forall_cons; split); first [apply Forall_nil; done | done].

Hint Resolve no_commands_ok default_write_ok default_stimulate_ok none_value_ok element_bool : core.

#[export] Instance OnOff_ok l : LensKeeps I (λ _ : bool, True) l → HandlerOk I (OnOffHandler l).
Proof.
  intros Hl. split; try done; try ids; cbn; auto.
  - intros w a ctx Hw. case_match; [|done]. by apply some_value_ok.
  - intros w c cmd f Hw _ _ _. unfold on_off_invoke. destruct (on_off_target l w cmd) as [new|].
    + do 3 eexists. split_and!; [done|by apply lens_keeps| |done].
      case_match; [apply ctx_kept_refl|by apply ctx_kept_changed].
    + do 3 eexists. split_and!; [done|done|apply ctx_kept_refl|done].
Qed.

Lemma state_change_data_ok new : ∃ b, state_change_data new = Ok b ∧ element_bytes b.
Proof.
  exists (enc_tree (Node Anonymous KStruct [Leaf (Context 0) (VBool new)])). split.
  - apply to_vec_writes, writes_struct, emits_cons; [apply writes_bool|apply emits_end].
  - eexists. split; [|done]. by apply wf_anon_node, Forall_singleton.
Qed.

#[export] Instance BooleanState_ok l : LensKeeps I (λ _ : bool, True) l → HandlerOk I (BooleanStateHandler l).
Proof.
  intros Hl. split; try done; try ids; cbn; auto.
  - intros w a ctx Hw. case_match; [|done]. by apply some_value_ok.
  - intros w c s Hw. unfold boolean_state_stimulate. destruct s as [|new].
    { do 3 eexists. split_and!; [done|done|apply ctx_kept_refl]. }
    cbv zeta. destruct (state_change_data_ok new) as (b & -> & Hb). case_match.
    + do 3 eexists. split_and!; [done|by apply lens_keeps|apply ctx_kept_refl].
    + do 3 eexists. split_and!; [done|by apply lens_keeps|].
      eapply ctx_kept_trans; [by apply ctx_kept_changed|by apply ctx_kept_event].
Qed.

Lemma one_field_ok v : in_u 8 v → ∃ b, one_field v = Ok b ∧ element_bytes b.
Proof.
  intros Hv. exists (enc_tree (Node Anonymous KStruct [Leaf (Context 0) (VUint v)])). split.
  - apply to_vec_writes, writes_struct, emits_cons; [apply writes_put_uint|apply emits_end].
  - eexists. split; [|done]. by apply wf_anon_node, Forall_singleton, (wf_uint _ _ 8).
Qed.

Lemma two_fields_ok a b : in_u 8 a → in_u 8 b → ∃ x, two_fields a b = Ok x ∧ element_bytes x.
Proof.
  intros Ha Hb. exists (enc_tree (Node Anonymous KStruct [Leaf (Context 0) (VUint a); Leaf (Context 1) (VUint b)])).
  split.
  - apply to_vec_writes, writes_struct; eauto with emits.
  - eexists. split; [|done]. apply wf_anon_node, Forall_cons. split; [by apply (wf_uint _ _ 8)|].
    by apply Forall_singleton, (wf_uint _ _ 8).
Qed.

(** Pushing events keeps the world and the context. *)
Definition pushes {A} (m : M (W * InvokeCtx) Empty_set A) : Prop :=
  ∀ w c, I w → ∃ c' a, m (w, c) = ((w, c'), Ok a) ∧ ctx_kept c c'.

Lemma pushes_ret {A} (a : A) : pushes (ret a).
Proof. intros w c _. do 2 eexists. split; [done|apply ctx_kept_refl]. Qed.

Lemma pushes_bind {A B} (m : M (W * InvokeCtx) Empty_set A) (k : A → M (W * InvokeCtx) Empty_set B) :
  pushes m → (∀ a, pushes (k a)) → pushes (bind m k).
Proof.
  intros Hm Hk w c Hw. destruct (Hm w c Hw) as (c1 & a & E1 & K1).
  destruct (Hk a w c1 Hw) as (c2 & b & E2 & K2).
  exists c2, b. unfold bind. rewrite E1. split; [done|by eapply ctx_kept_trans].
Qed.

Lemma pushes_info e d : in_u 32 e → (∃ b, d = Ok b ∧ element_bytes b) → pushes (push_info e d).
Proof.
  intros He (b & -> & Hb) w c _. do 2 eexists. split; [done|]. by apply ctx_kept_event.
Qed.

Lemma pushes_more i n : 0 ≤ i → i + Z.of_nat n ≤ 256 → pushes (more_presses i n).
Proof.
  revert i. induction n as [|n IH]; intros i Hi Hn; cbn [more_presses]; [apply pushes_ret|].
  assert (Hu : in_u 8 i) by (unfold in_u; lia).
  apply pushes_bind; [by apply pushes_info, one_field_ok|]. intros _.
  apply pushes_bind; [by apply pushes_info, two_fields_ok|]. intros _.
  apply pushes_bind; [by apply pushes_info, one_field_ok|]. intros _. apply IH; lia.
Qed.

Lemma pushes_switch s : pushes (switch_stimulate s).
Proof.
  unfold switch_stimulate. destruct s as [ [| |n] |b]; try apply pushes_ret.
  - repeat (apply pushes_bind; [by apply pushes_info, one_field_ok|]; intros _). apply pushes_ret.
  - repeat (apply pushes_bind; [by apply pushes_info, one_field_ok|]; intros _). apply pushes_ret.
  - destruct (Z.ltb_spec n 2); [apply pushes_ret|].
    destruct (Z.ltb_spec MULTI_PRESS_MAX n); [apply pushes_ret|]. unfold MULTI_PRESS_MAX in *.
    repeat (apply pushes_bind; [by apply pushes_info, one_field_ok|]; intros _).
    apply pushes_bind; [apply pushes_more; lia|]. intros _.
    apply pushes_bind; [apply pushes_info; [done|apply two_fields_ok; [done|unfold in_u; lia]]|]. intros _.
    apply pushes_ret.
Qed.

#[export] Instance GenericSwitch_ok (l : Lens W Z) : (∀ w, I w → in_u 8 (view l w)) →
  HandlerOk I (GenericSwitchHandler l).
Proof.
  intros Hl. split; try done; try ids; cbn; auto.
  - intros w a ctx Hw. unfold switch_read.
    repeat case_match; try done; apply some_value_ok, (element_uint _ 8); try done; by auto.
  - intros w c s Hw. destruct (pushes_switch s w c Hw) as (c' & a & -> & Hk). by do 3 eexists.
Qed.

#[export] Instance Identify_ok (d : Lens W (option Z)) clock :
  (∀ w, I w → 0 ≤ clock w ∧ from_option (λ x, x < 2 ^ 64 * NANOS) True (view d w)) →
  (∀ w x, I w → from_option (λ t, t ≤ clock w + 65535 * NANOS) True x → I (update d x w)) →
  HandlerOk I (IdentifyHandler d clock).
Proof.
  intros Hb Hu. split; try done; try ids; cbn; auto.
  - intros w a ctx Hw. unfold identify_read, remaining_secs, saturating_sub. destruct (Hb w Hw) as [Hc Hd].
    repeat case_match; try done; apply some_value_ok, (element_uint _ 64); try done.
    cbn in Hd. unfold in_u, NANOS in *. split; [apply Z.div_pos; lia|apply Z.div_lt_upper_bound; lia].
  - intros w c cmd f Hw _ Hf Hs. unfold identify_invoke, decode_identify_time.
    destruct (cmd =? CMD_IDENTIFY).
    + destruct (decode_struct_uint_field f 0) as [v| | |]; try destruct (try_u 16 v) as [secs|] eqn:Hv;
        do 3 eexists; (split_and!; [done| |first [apply ctx_kept_refl | by apply ctx_kept_changed]|done]);
        try done.
      apply Hu; [done|]. apply try_u_Some in Hv as [-> Hv]. unfold in_u, NANOS in *.
      case_match; cbn; [done|lia].
    + case_match; do 3 eexists; (split_and!; [done|done|apply ctx_kept_refl|done]).
Qed.
End contract.
