(* ===== verification/DataModel.v ===== *)
(** * The device's data model

    Models [crates/mat-device/src/core/datamodel/mod.rs], [read.rs] and
    [events.rs]: the [Node] that holds the endpoints and their clusters, the
    data versions, the event log and a handle on the ACL store, and serves
    reads, writes, invokes, group invokes, events and stimuli.

    The state of a request is the node, the world the clusters live in and the
    [InvokeCtx] of the caller. *)

From Stdlib Require Import String Sorted.
From stdpp Require Import gmap.
From S2P Require Import Prelude Tlv TlvValue Handler Im Report AccessControl Events.

Definition INITIAL_DATA_VERSION : Z := 1.
Definition CLUSTER_DESCRIPTOR : Z := 0x001D.
Definition ATTR_SERVER_LIST : Z := 0x0001.
Definition ATTR_PARTS_LIST : Z := 0x0003.

Record Node (W : Type) := {
  endpoints : list (Z * list (ClusterHandler W));
  versions : gmap (Z * Z) Z;
  version_base : Z;
  nd_acl : option (W → AclStore);
  event_log : EventLog
}.
Arguments endpoints {W} n.
Arguments versions {W} n.
Arguments version_base {W} n.
Arguments nd_acl {W} n.
Arguments event_log {W} n.

(** A changed attribute: endpoint, cluster, attribute. *)
Definition Change : Type := (Z * Z * Z)%type.

Record ImOutcome := { out_opcode : Z; out_payload : bytes; out_changed : list Change }.

Definition unchanged (opcode : Z) (payload : bytes) : ImOutcome :=
  {| out_opcode := opcode; out_payload := payload; out_changed := [] |}.

Inductive ImServerError := SeDecode (e : ImError) | SeUnsupportedOpcode (op : Z) | SeNoReply.

Record GroupInvokeIn := { gi_cluster : Z; gi_command : Z; gi_fields : bytes }.

Record StimulusOutcome := { so_changed : list Change; so_event_numbers : list Z }.

(** An infallible computation inside a fallible one. *)
Definition ok_fin {E A} (m : fin A) : res E A := map_err (λ e : Empty_set, match e with end) m.

(** A loop that pushes what each item yields. *)
Fixpoint collect {X Y} (f : X → fin (list Y)) (l : list X) : fin (list Y) :=
  match l with
  | [] => Ok []
  | x :: l => let? a := f x in let? b := collect f l in Ok (a ++ b)
  end.

(** The sort of [events.rs]: stable, by key. *)
Fixpoint insert_by {A} (key : A → Z) (x : A) (l : list A) : list A :=
  match l with
  | [] => [x]
  | y :: l' => if key x <=? key y then x :: l else y :: insert_by key x l'
  end.
Definition sort_by {A} (key : A → Z) (l : list A) : list A := foldr (insert_by key) [] l.

Section node.
Context {W : Type}.
Notation Node := (Node W).
Notation Handler := (ClusterHandler W).

Definition Node_new : Node :=
  {| endpoints := []; versions := ∅; version_base := INITIAL_DATA_VERSION; nd_acl := None;
     event_log := EventLog_default |}.

Definition with_endpoints (e : list (Z * list Handler)) (n : Node) : Node :=
  {| endpoints := e; versions := versions n; version_base := version_base n; nd_acl := nd_acl n;
     event_log := event_log n |}.

Definition add_endpoint (endpoint : Z) (clusters : list Handler) (n : Node) : Node :=
  with_endpoints (endpoints n ++ [(endpoint, clusters)]) n.

Fixpoint push_cluster (endpoint : Z) (h : Handler) (eps : list (Z * list Handler)) :
    list (Z * list Handler) :=
  match eps with
  | [] => [(endpoint, [h])]
  | (id, cs) :: eps =>
      if id =? endpoint then (id, cs ++ [h]) :: eps else (id, cs) :: push_cluster endpoint h eps
  end.

Definition add_cluster (endpoint : Z) (h : Handler) (n : Node) : Node :=
  with_endpoints (push_cluster endpoint h (endpoints n)) n.

Definition data_version (n : Node) (endpoint cluster : Z) : Z :=
  default (version_base n) (versions n !! (endpoint, cluster)).

Definition set_data_version_base (base : Z) (n : Node) : Node :=
  {| endpoints := endpoints n; versions := versions n; version_base := base; nd_acl := nd_acl n;
     event_log := event_log n |}.

Definition set_acl_store (s : W → AclStore) (n : Node) : Node :=
  {| endpoints := endpoints n; versions := versions n; version_base := version_base n;
     nd_acl := Some s; event_log := event_log n |}.

Definition set_event_log (l : EventLog) (n : Node) : Node :=
  {| endpoints := endpoints n; versions := versions n; version_base := version_base n;
     nd_acl := nd_acl n; event_log := l |}.

Definition next_event_number (n : Node) : Z := next_number (event_log n).

(** ** Lookup and access checks *)

Definition clusters_at (n : Node) (endpoint : Z) : option (list Handler) :=
  option_map snd (List.find (λ p, fst p =? endpoint) (endpoints n)).

Definition find_cluster (cluster : Z) (cs : list Handler) : option Handler :=
  List.find (λ h, cluster_id h =? cluster) cs.

Definition handler_for (n : Node) (endpoint cluster : Z) : option Handler :=
  match clusters_at n endpoint with Some cs => find_cluster cluster cs | None => None end.

Definition handler_mut (n : Node) (endpoint cluster : Z) : res Z Handler :=
  match clusters_at n endpoint with
  | None => Err STATUS_UNSUPPORTED_ENDPOINT
  | Some cs =>
      match find_cluster cluster cs with None => Err STATUS_UNSUPPORTED_CLUSTER | Some h => Ok h end
  end.

Definition acl_allows (n : Node) (w : W) (fabric : Z) (subject : Subject)
    (required endpoint cluster : Z) : bool :=
  if fabric =? 0 then true
  else match nd_acl n with
       | Some store => check (store w) fabric subject required endpoint cluster
       | None => true
       end.

Definition is_global_attribute (a : Z) : bool := (0xFFF8 <=? a) && (a <=? 0xFFFD).

Definition read_privilege_for (h : Handler) (a : Z) : Z :=
  if is_global_attribute a then PRIVILEGE_VIEW else read_privilege h a.

(** ** Changes and events *)

Definition NodeState : Type := (Node * W * InvokeCtx)%type.
Definition NM := M NodeState.

Definition bump_version (endpoint cluster : Z) (n : Node) : Node :=
  {| endpoints := endpoints n;
     versions := <[(endpoint, cluster) := wrap 32 (data_version n endpoint cluster + 1)]> (versions n);
     version_base := version_base n; nd_acl := nd_acl n; event_log := event_log n |}.

Fixpoint append_all (endpoint cluster ts : Z) (evs : list EmittedEvent) (l : EventLog) :
    EventLog * list Z :=
  match evs with
  | [] => (l, [])
  | ev :: evs =>
      let '(l, number) := el_append endpoint cluster ev ts l in
      let '(l, numbers) := append_all endpoint cluster ts evs l in
      (l, number :: numbers)
  end.

(** [commit_changes], [drain_events] included. *)
Definition commit_changes {E} (endpoint cluster ts : Z) : NM E (list Change * list Z) :=
  λ '(n, w, c),
    let changed := map (λ a, (endpoint, cluster, a)) (ctx_changed c) in
    let n := match changed with [] => n | _ => bump_version endpoint cluster n end in
    let '(log, numbers) := append_all endpoint cluster ts (ctx_events c) (event_log n) in
    ((set_event_log log n, w, clear_ctx c), Ok (changed, numbers)).

(** A call of a handler on the world and the context. *)
Definition call {E E' A B} (f : res E' A → res E B) (m : M (W * InvokeCtx) E' A) : NM E B :=
  λ '(n, w, c), let '((w, c), r) := m (w, c) in ((n, w, c), f r).

Definition clear_lists {E} : NM E () := modify (λ '(n, w, c), (n, w, clear_ctx c)).

(** ** Invoke *)

Definition invoke_on_endpoint {E} (endpoint cluster command : Z) (fields_tlv : bytes) :
    NM E (res Z (InvokeReply * list Change)) :=
  let! (n, w, c) := get in
  match handler_mut n endpoint cluster with
  | Ok h =>
      if negb (acl_allows n w (ctx_fabric c) (ctx_subject c) (invoke_privilege h command) endpoint cluster)
      then ret (Err STATUS_UNSUPPORTED_ACCESS)
      else
        clear_lists ;;!
        let! reply := call (ok_fin (E:=E)) (h_invoke h command fields_tlv) in
        let! (changed, _) := commit_changes endpoint cluster 0 in
        ret (Ok (reply, changed))
  | Err status => ret (Err status)
  | _ => panic
  end.

(** The response of an executed command. *)
Definition encode_reply (r : InvokeRequestIn) (reply : InvokeReply) : fin bytes :=
  match reply with
  | RStatus status =>
      encode_invoke_response_status (ir_endpoint r) (ir_cluster r) (ir_command r) status None
  | RClusterStatus status cs =>
      encode_invoke_response_status (ir_endpoint r) (ir_cluster r) (ir_command r) status (Some cs)
  | RData response_command fields_tlv =>
      encode_invoke_response_data (ir_endpoint r) (ir_cluster r) response_command fields_tlv
  end.

Definition decode_or {A} (m : res ImError A) : NM ImServerError A := lift (map_err SeDecode m).

(** The two arms of [handle_invoke]'s [match invoke_on_endpoint(..)]. *)
Definition invoke_answer (r : InvokeRequestIn) (o : res Z (InvokeReply * list Change)) :
    NM ImServerError ImOutcome :=
  match o with
  | Err status =>
      let! p := lift (ok_fin (encode_invoke_response_status (ir_endpoint r) (ir_cluster r) (ir_command r)
                                status None)) in
      ret (unchanged OPCODE_INVOKE_RESPONSE p)
  | Ok (reply, changed) =>
      let! p := lift (ok_fin (encode_reply r reply)) in
      ret {| out_opcode := OPCODE_INVOKE_RESPONSE; out_payload := p; out_changed := changed |}
  | _ => panic
  end.

Definition handle_invoke (payload : bytes) : NM ImServerError ImOutcome :=
  let! r := decode_or (decode_invoke_request payload) in
  let! o := invoke_on_endpoint (ir_endpoint r) (ir_cluster r) (ir_command r) (ir_fields r) in
  invoke_answer r o.

(** One endpoint's pass over the invokes of a group message. *)
Fixpoint group_invokes (endpoint : Z) (invokes : list GroupInvokeIn) (changed : list Change) :
    NM Empty_set (list Change) :=
  match invokes with
  | [] => ret changed
  | i :: invokes =>
      let! o := invoke_on_endpoint endpoint (gi_cluster i) (gi_command i) (gi_fields i) in
      group_invokes endpoint invokes
        (match o with Ok (_, c) => changed ++ c | _ => changed end)
  end.

Fixpoint handle_group_invoke_loop (eps : list Z) (invokes : list GroupInvokeIn) (changed : list Change) :
    NM Empty_set (list Change) :=
  match eps with
  | [] => ret changed
  | ep :: eps =>
      let! changed := group_invokes ep invokes changed in
      handle_group_invoke_loop eps invokes changed
  end.

Definition handle_group_invoke (eps : list Z) (invokes : list GroupInvokeIn) :
    NM Empty_set (list Change) := handle_group_invoke_loop eps invokes [].

(** ** Write *)

(** [match handler.write(..) { Ok(()) => SUCCESS, Err(status) => status }]. *)
Definition status_of (r : res Z ()) : res ImServerError Z :=
  match r with
  | Ok _ => Ok STATUS_SUCCESS
  | Err s => Ok s
  | Panic => Panic
  | OutOfFuel => OutOfFuel
  end.

Definition write_one (wa : WriteAttrIn) : NM ImServerError (WriteResult * list Change) :=
  match wa_path wa with
  | (Some endpoint, Some cluster, Some attribute) =>
      let! (n, w, c) := get in
      match handler_mut n endpoint cluster with
      | Ok h =>
          if negb (acl_allows n w (ctx_fabric c) (ctx_subject c) (write_privilege h attribute)
                     endpoint cluster)
          then ret ((endpoint, cluster, attribute, STATUS_UNSUPPORTED_ACCESS), [])
          else
            clear_lists ;;!
            let! status := call status_of (h_write h attribute (wa_data wa) (wa_append wa)) in
            let! (changed, _) := commit_changes endpoint cluster 0 in
            ret ((endpoint, cluster, attribute, status), changed)
      | Err status => ret ((endpoint, cluster, attribute, status), [])
      | _ => panic
      end
  | (ep, cl, a) => ret ((default 0 ep, default 0 cl, default 0 a, STATUS_INVALID_COMMAND), [])
  end.

Fixpoint write_all (writes : list WriteAttrIn) (results : list WriteResult) (changed : list Change) :
    NM ImServerError (list WriteResult * list Change) :=
  match writes with
  | [] => ret (results, changed)
  | wa :: writes =>
      let! (r, c) := write_one wa in write_all writes (results ++ [r]) (changed ++ c)
  end.

Definition handle_write (payload : bytes) : NM ImServerError ImOutcome :=
  let! r := decode_or (decode_write_request payload) in
  let! (results, changed) := write_all (wr_writes r) [] [] in
  let! p := lift (ok_fin (encode_write_response results)) in
  ret {| out_opcode := OPCODE_WRITE_RESPONSE; out_payload := p; out_changed := changed |}.

(** ** Read *)

Definition encode_ids (ids : list Z) : fin bytes :=
  to_vec (start_array Anonymous ;;!
          foldr (λ v m, put_uint Anonymous v ;;! m) (ret ()) ids ;;!
          end_container).

Definition encode_server_list (cs : list Handler) : fin bytes := encode_ids (map cluster_id cs).

Definition encode_parts_list (eps : list (Z * list Handler)) : fin bytes :=
  encode_ids (List.filter (λ id, negb (id =? 0)) (map fst eps)).

Definition GLOBAL_ATTRIBUTE_IDS : list Z :=
  [ATTR_GENERATED_COMMAND_LIST; ATTR_ACCEPTED_COMMAND_LIST; ATTR_ATTRIBUTE_LIST; ATTR_FEATURE_MAP;
   ATTR_CLUSTER_REVISION].

Definition encode_attribute_list (h : Handler) : fin bytes :=
  encode_ids (attributes h ++ GLOBAL_ATTRIBUTE_IDS).

Definition encode_command_list (ids : list Z) : fin bytes := encode_ids ids.

Definition some_fin {A} (m : fin A) : fin (option A) := let? a := m in Ok (Some a).

Record ExpandCtx := { ex_endpoint : Z; ex_clusters : list Handler; ex_ctx : ReadCtx }.

Definition read_allowed (n : Node) (w : W) (x : ExpandCtx) (h : Handler) (a : Z) : bool :=
  acl_allows n w (rc_fabric (ex_ctx x)) (rc_subject (ex_ctx x)) (read_privilege_for h a)
    (ex_endpoint x) (cluster_id h).

Definition read_attribute_value (n : Node) (w : W) (x : ExpandCtx) (h : Handler) (a : Z) :
    fin (option bytes) :=
  if (cluster_id h =? CLUSTER_DESCRIPTOR) && (a =? ATTR_SERVER_LIST)
  then some_fin (encode_server_list (ex_clusters x))
  else if (cluster_id h =? CLUSTER_DESCRIPTOR) && (a =? ATTR_PARTS_LIST) && (ex_endpoint x =? 0)
  then some_fin (encode_parts_list (endpoints n))
  else if a =? ATTR_CLUSTER_REVISION then some_fin (tlv_uint (revision h))
  else if a =? ATTR_FEATURE_MAP then some_fin (tlv_uint (feature_map h))
  else if a =? ATTR_ATTRIBUTE_LIST then some_fin (encode_attribute_list h)
  else if a =? ATTR_ACCEPTED_COMMAND_LIST then some_fin (encode_command_list (accepted_commands h))
  else if a =? ATTR_GENERATED_COMMAND_LIST then some_fin (encode_command_list (generated_commands h))
  else h_read h w a (ex_ctx x).

Definition data_entry (n : Node) (x : ExpandCtx) (h : Handler) (a : Z) (value : bytes) : ReportEntryOut :=
  REData {| ar_endpoint := ex_endpoint x; ar_cluster := cluster_id h; ar_attribute := a;
            ar_data_version := data_version n (ex_endpoint x) (cluster_id h); ar_value := value |}.

(** One attribute of a wildcard: silent when denied or absent. *)
Definition expand_one (n : Node) (w : W) (x : ExpandCtx) (h : Handler) (a : Z) :
    fin (list ReportEntryOut) :=
  if negb (read_allowed n w x h a) then Ok []
  else
    let? v := read_attribute_value n w x h a in
    Ok (match v with Some value => [data_entry n x h a value] | None => [] end).

Definition expand_attribute (n : Node) (w : W) (x : ExpandCtx) (h : Handler) (attribute : option Z)
    (concrete_so_far : bool) : fin (list ReportEntryOut) :=
  match attribute with
  | Some a =>
      if negb (read_allowed n w x h a) then
        Ok (if concrete_so_far
            then [REStatus (ex_endpoint x) (cluster_id h) a STATUS_UNSUPPORTED_ACCESS] else [])
      else
        let? v := read_attribute_value n w x h a in
        Ok (match v with
            | Some value => [data_entry n x h a value]
            | None =>
                if concrete_so_far
                then [REStatus (ex_endpoint x) (cluster_id h) a STATUS_UNSUPPORTED_ATTRIBUTE] else []
            end)
  | None => collect (expand_one n w x h) (attributes h)
  end.

Definition expand_cluster (n : Node) (w : W) (x : ExpandCtx) (cluster attribute : option Z)
    (endpoint_concrete : bool) : fin (list ReportEntryOut) :=
  match cluster with
  | Some cl =>
      match find_cluster cl (ex_clusters x) with
      | Some h => expand_attribute n w x h attribute endpoint_concrete
      | None =>
          Ok (if endpoint_concrete
              then [REStatus (ex_endpoint x) cl (default 0 attribute) STATUS_UNSUPPORTED_CLUSTER]
              else [])
      end
  | None => collect (λ h, expand_attribute n w x h attribute false) (ex_clusters x)
  end.

Definition expand_endpoint (n : Node) (w : W) (ctx : ReadCtx) (path : AttrPathIn) :
    fin (list ReportEntryOut) :=
  let '(endpoint, cluster, attribute) := path in
  match endpoint with
  | Some ep =>
      match clusters_at n ep with
      | Some cs =>
          expand_cluster n w {| ex_endpoint := ep; ex_clusters := cs; ex_ctx := ctx |} cluster attribute true
      | None =>
          Ok [REStatus ep (default 0 cluster) (default 0 attribute) STATUS_UNSUPPORTED_ENDPOINT]
      end
  | None =>
      collect (λ '(ep, cs),
        expand_cluster n w {| ex_endpoint := ep; ex_clusters := cs; ex_ctx := ctx |} cluster attribute false)
        (endpoints n)
  end.

Definition read_entries (n : Node) (w : W) (paths : list AttrPathIn) (ctx : ReadCtx) :
    fin (list ReportEntryOut) := collect (expand_endpoint n w ctx) paths.

(** *** Chunks *)

(** The greedy batching of [read_chunks]: [current] is the batch being filled. *)
Fixpoint batch_loop (budget : Z) (sub : option Z) (entries current : list ReportEntryOut)
    (batches : list (list ReportEntryOut)) : fin (list (list ReportEntryOut)) :=
  match entries with
  | [] => Ok (batches ++ [current])
  | entry :: entries =>
      let candidate := current ++ [entry] in
      let? p := encode_report_data_entries candidate false sub true in
      if (budget <? zlen p) && negb (bool_decide (current = []))
      then batch_loop budget sub entries [entry] (batches ++ [current])
      else batch_loop budget sub entries candidate batches
  end.

Definition encode_chunk (sub : option Z) (trailer_follows is_last : bool) (batch : list ReportEntryOut) :
    fin bytes :=
  encode_report_data_entries batch
    (is_last && negb (bool_decide (is_Some sub)) && negb trailer_follows) sub
    (negb is_last || trailer_follows).

Fixpoint encode_chunks (sub : option Z) (trailer_follows : bool) (batches : list (list ReportEntryOut)) :
    fin (list bytes) :=
  match batches with
  | [] => Ok []
  | batch :: rest =>
      let? p := encode_chunk sub trailer_follows (bool_decide (rest = [])) batch in
      let? ps := encode_chunks sub trailer_follows rest in
      Ok (p :: ps)
  end.

Definition read_chunks (n : Node) (w : W) (paths : list AttrPathIn) (ctx : ReadCtx) (budget : Z)
    (sub : option Z) (trailer_follows : bool) : fin (list bytes) :=
  let? entries := read_entries n w paths ctx in
  let? batches := batch_loop budget sub entries [] [] in
  encode_chunks sub trailer_follows batches.

Definition USIZE_MAX : Z := 2 ^ 64 - 1.

Definition handle_read (payload : bytes) (ctx : ReadCtx) : NM ImServerError ImOutcome :=
  let! paths := decode_or (decode_read_request payload) in
  let! (n, w, c) := get in
  let! chunks := lift (ok_fin (read_chunks n w paths ctx USIZE_MAX None false)) in
  match chunks with
  | p :: _ => ret (unchanged OPCODE_REPORT_DATA p)
  | [] => panic
  end.

(** *** [has_readable_path] *)

Fixpoint any_fin {X} (f : X → fin bool) (l : list X) : fin bool :=
  match l with
  | [] => Ok false
  | x :: l => let? b := f x in if b then Ok true else any_fin f l
  end.

Definition opt_matches (o : option Z) (v : Z) : bool :=
  match o with Some x => x =? v | None => true end.

Definition handler_readable (n : Node) (w : W) (x : ExpandCtx) (attribute : option Z) (h : Handler) :
    fin bool :=
  match attribute with
  | Some a =>
      if read_allowed n w x h a
      then let? v := read_attribute_value n w x h a in Ok (bool_decide (is_Some v))
      else Ok false
  | None => Ok (existsb (read_allowed n w x h) (attributes h))
  end.

Definition path_readable (n : Node) (w : W) (ctx : ReadCtx) (path : AttrPathIn) : fin bool :=
  let '(endpoint, cluster, attribute) := path in
  match path with
  | (Some _, Some _, Some _) => Ok true
  | _ =>
      any_fin (λ '(ep, cs),
        any_fin (handler_readable n w {| ex_endpoint := ep; ex_clusters := cs; ex_ctx := ctx |} attribute)
          (List.filter (λ h, opt_matches cluster (cluster_id h)) cs))
        (List.filter (λ p, opt_matches endpoint (fst p)) (endpoints n))
  end.

Definition has_readable_path (n : Node) (w : W) (paths : list AttrPathIn) (ctx : ReadCtx) : fin bool :=
  any_fin (path_readable n w ctx) paths.

(** ** Events *)

Definition concrete_event_path_status (n : Node) (endpoint cluster event : Z) : option Z :=
  match clusters_at n endpoint with
  | None => Some STATUS_UNSUPPORTED_ENDPOINT
  | Some cs =>
      match find_cluster cluster cs with
      | None => Some STATUS_UNSUPPORTED_CLUSTER
      | Some h => if existsb (Z.eqb event) (events h) then None else Some STATUS_UNSUPPORTED_EVENT
      end
  end.

Definition event_path_matches (path : EventPathIn) (e : StoredEvent) : bool :=
  let '(endpoint, cluster, event) := ep_path path in
  opt_matches endpoint (se_endpoint e) && opt_matches cluster (se_cluster e) &&
  opt_matches event (se_event e).

Definition event_visible (n : Node) (w : W) (ctx : ReadCtx) (e : StoredEvent) : bool :=
  match handler_for n (se_endpoint e) (se_cluster e) with
  | None => false
  | Some h =>
      acl_allows n w (rc_fabric ctx) (rc_subject ctx) (event_privilege h (se_event e))
        (se_endpoint e) (se_cluster e)
  end.

Definition event_out (e : StoredEvent) : EventEntryOut :=
  EEData {| ev_endpoint := se_endpoint e; ev_cluster := se_cluster e; ev_event := se_event e;
            ev_number := se_number e; ev_priority := se_priority e; ev_timestamp := se_timestamp e;
            ev_data := se_data e |}.

(** One path over the stored events: [seen] numbers are not reported twice. *)
Fixpoint event_scan (n : Node) (w : W) (ctx : ReadCtx) (path : EventPathIn) (es : list StoredEvent)
    (out : list EventEntryOut) (seen : list Z) : list EventEntryOut * list Z :=
  match es with
  | [] => (out, seen)
  | e :: es =>
      if existsb (Z.eqb (se_number e)) seen || negb (event_path_matches path e)
      then event_scan n w ctx path es out seen
      else if negb (event_visible n w ctx e) then event_scan n w ctx path es out seen
      else event_scan n w ctx path es (out ++ [event_out e]) (se_number e :: seen)
  end.

Definition event_path_step (n : Node) (w : W) (ctx : ReadCtx) (min : Z)
    (s : list EventEntryOut * list Z) (path : EventPathIn) : list EventEntryOut * list Z :=
  let '(out, seen) := s in
  match ep_path path with
  | (Some endpoint, Some cluster, Some event) =>
      match concrete_event_path_status n endpoint cluster event with
      | Some status => (out ++ [EEStatus endpoint cluster event status], seen)
      | None => event_scan n w ctx path (since min (event_log n)) out seen
      end
  | _ => event_scan n w ctx path (since min (event_log n)) out seen
  end.

Definition event_key (e : EventEntryOut) : Z :=
  match e with EEData d => ev_number d | EEStatus _ _ _ _ => 0 end.

Definition event_entries (n : Node) (w : W) (paths : list EventPathIn) (event_min : Z) (ctx : ReadCtx) :
    list EventEntryOut :=
  sort_by event_key (fst (foldl (event_path_step n w ctx event_min) ([], []) paths)).

Definition has_readable_event_path (n : Node) (w : W) (paths : list EventPathIn) (ctx : ReadCtx) : bool :=
  existsb (λ path,
    let '(endpoint, cluster, event) := ep_path path in
    match ep_path path with
    | (Some _, Some _, Some _) => true
    | _ =>
        existsb (λ '(ep, cs),
          existsb (λ h,
            existsb (λ e, acl_allows n w (rc_fabric ctx) (rc_subject ctx) (event_privilege h e) ep
                            (cluster_id h))
              (List.filter (opt_matches event) (events h)))
            (List.filter (λ h, opt_matches cluster (cluster_id h)) cs))
          (List.filter (λ p, opt_matches endpoint (fst p)) (endpoints n))
    end) paths.

Definition recent_events (n : Node) (min : Z) : list StoredEvent := since min (event_log n).

(** ** Stimuli *)

Definition InvokeCtx_default : InvokeCtx :=
  {| attestation_challenge := replicate 16 0; ctx_changed := []; ctx_fabric := 0;
     ctx_subject := Subject_node 0; ctx_events := [] |}.

(** The first cluster of the endpoint that takes the stimulus. *)
Fixpoint stimulate_loop (s : Stimulus) (cs : list Handler) : M (W * InvokeCtx) StimulusError (option Z) :=
  match cs with
  | [] => ret None
  | h :: cs =>
      modify (λ '(w, c), (w, clear_ctx c)) ;;!
      let! reply := (λ st, let (st, r) := h_stimulate h s st in (st, ok_fin r)) in
      match reply with
      | Unsupported => stimulate_loop s cs
      | Rejected reason => throw (StimulusRejected reason)
      | Applied => ret (Some (cluster_id h))
      end
  end.

(** The method makes its own context; the caller's is untouched. *)
Definition stimulate (endpoint : Z) (s : Stimulus) (ts : Z) : M (Node * W) StimulusError StimulusOutcome :=
  λ '(n, w),
    match clusters_at n endpoint with
    | None => ((n, w), Err UnknownEndpoint)
    | Some cs =>
        let m : NM StimulusError StimulusOutcome :=
          let! target := call id (stimulate_loop s cs) in
          match target with
          | None => throw StimulusUnsupported
          | Some cluster =>
              let! (changed, numbers) := commit_changes endpoint cluster ts in
              ret {| so_changed := changed; so_event_numbers := numbers |}
          end in
        let '((n, w, _), r) := m (n, w, InvokeCtx_default) in ((n, w), r)
    end.

(** ** The dispatcher *)

Definition handle_im (opcode : Z) (payload : bytes) (ctx : ReadCtx) : NM ImServerError ImOutcome :=
  if opcode =? OPCODE_READ_REQUEST then handle_read payload ctx
  else if opcode =? OPCODE_INVOKE_REQUEST then handle_invoke payload
  else if opcode =? OPCODE_WRITE_REQUEST then handle_write payload
  else if opcode =? OPCODE_STATUS_RESPONSE then throw SeNoReply
  else if opcode =? OPCODE_TIMED_REQUEST then
    let! p := lift (encode_status_response STATUS_SUCCESS) in
    ret (unchanged OPCODE_STATUS_RESPONSE p)
  else
    let! p := lift (encode_status_response STATUS_INVALID_ACTION) in
    ret (unchanged OPCODE_STATUS_RESPONSE p).
End node.
