(* ===== verification/NodeSafety.v ===== *)
(** * The data model serves arbitrary requests safely

    Over clusters that keep the contract [HandlerOk], the dispatcher of
    [DataModel] keeps the node's invariant on every opcode and every payload,
    never panics and answers with one well-formed message. *)

From stdpp Require Import gmap.
From S2P Require Import Prelude Tlv TlvValue Handler Im Report AccessControl Events DataModel Clusters.

Abbreviation TNode := Tlv.Node.

Section safety.
Context {W : Type} (I : W → Prop).

Definition endpoint_ok (p : Z * list (ClusterHandler W)) : Prop :=
  in_u 16 p.1 ∧ Forall (HandlerOk I) p.2.

Definition node_ok (n : Node W) : Prop :=
  Forall endpoint_ok (endpoints n) ∧ in_u 32 (version_base n) ∧
  map_Forall (λ _ v, in_u 32 v) (versions n).

Definition change_ok (c : Change) : Prop :=
  let '(ep, cl, a) := c in in_u 16 ep ∧ in_u 32 cl ∧ in_u 32 a.

Definition ctx_ok (c : InvokeCtx) : Prop :=
  Forall (in_u 32) (ctx_changed c) ∧ Forall emitted_ok (ctx_events c).

Lemma ctx_ok_clear c : ctx_ok (clear_ctx c).
Proof. by split. Qed.

Lemma ctx_ok_kept c c' : ctx_kept c c' → ctx_ok c → ctx_ok c'.
Proof. intros (_ & _ & _ & H1 & H2) [H3 H4]. split; auto. Qed.

(** ** Lookup *)

Lemma find_some_in {A} (f : A → bool) l x : List.find f l = Some x → x ∈ l ∧ f x = true.
Proof. intros [H1 H2]%List.find_some. by rewrite list_elem_of_In. Qed.

Lemma clusters_at_in (n : Node W) ep cs : clusters_at n ep = Some cs → (ep, cs) ∈ endpoints n.
Proof.
  unfold clusters_at. destruct (List.find _ _) as [ [ep' cs'] |] eqn:Hf; [|done].
  intros [= <-]. apply find_some_in in Hf as [Hin Heq]. cbn in *. by apply Z.eqb_eq in Heq as <-.
Qed.

Lemma find_cluster_in (cs : list (ClusterHandler W)) cl h :
  find_cluster cl cs = Some h → h ∈ cs ∧ cluster_id h = cl.
Proof. intros [Hin Heq]%find_some_in. by apply Z.eqb_eq in Heq. Qed.

Lemma endpoint_in n ep cs : node_ok n → (ep, cs) ∈ endpoints n → in_u 16 ep ∧ Forall (HandlerOk I) cs.
Proof. intros [He _] Hin. rewrite Forall_forall in He. by apply (He _ Hin). Qed.

Lemma handler_mut_ok n ep cl : node_ok n →
  match handler_mut n ep cl with
  | Ok h => HandlerOk I h ∧ cluster_id h = cl ∧ in_u 16 ep ∧ handler_for n ep cl = Some h
  | Err s => in_u 8 s
  | _ => False
  end.
Proof.
  intros Hn. unfold handler_mut, handler_for. destruct (clusters_at n ep) as [cs|] eqn:Hc; [|done].
  destruct (find_cluster cl cs) as [h|] eqn:Hh; [|done].
  apply clusters_at_in in Hc. apply find_cluster_in in Hh as [Hin Heq].
  destruct (endpoint_in _ _ _ Hn Hc) as [He Hcs]. rewrite Forall_forall in Hcs. auto.
Qed.

Lemma data_version_ok n ep cl : node_ok n → in_u 32 (data_version n ep cl).
Proof.
  intros (_ & Hb & Hv). unfold data_version. destruct (versions n !! (ep, cl)) eqn:Hl; [|done].
  by apply (Hv _ _ Hl).
Qed.

(** ** Changes *)

Lemma bump_ok n ep cl : node_ok n → node_ok (bump_version ep cl n).
Proof.
  intros (He & Hb & Hv). split_and!; [done|done|]. apply map_Forall_insert_2; [|done].
  by apply wrap_in_u.
Qed.

Lemma set_event_log_ok n l : node_ok n → node_ok (set_event_log l n).
Proof. done. Qed.

Lemma commit_wp {E} ep cl ts n w c :
  node_ok n → ctx_ok c → in_u 16 ep → in_u 32 cl →
  wp (commit_changes (E:=E) ep cl ts)
    (λ r '(n', w', c'), node_ok n' ∧ w' = w ∧ c' = clear_ctx c ∧ endpoints n' = endpoints n ∧ nd_acl n' = nd_acl n ∧
       Forall change_ok r.1) (λ _ _, False) (n, w, c).
Proof.
  intros Hn [Hc _] He Hcl. unfold wp, commit_changes.
  destruct (append_all _ _ _ _ _) as [log numbers].
  split_and!; try done.
  - apply set_event_log_ok. destruct (map _ _); [done|by apply bump_ok].
  - by destruct (map _ _).
  - by destruct (map _ _).
  - cbn [fst]. apply List.Forall_map. eapply Forall_impl; [exact Hc|]. by intros a Ha.
Qed.

(** ** Invoke *)

(** What an invoke answers once its command was carried out or refused. *)
Definition invoke_result_ok (o : res Z (InvokeReply * list Change)) : Prop :=
  match o with
  | Ok (r, ch) => reply_ok r ∧ Forall change_ok ch
  | Err s => in_u 8 s
  | _ => False
  end.

Definition changes_in (o : res Z (InvokeReply * list Change)) : list Change :=
  match o with Ok (_, ch) => ch | _ => [] end.

Lemma invoke_on_endpoint_wp {E} ep cl cmd f n w c :
  node_ok n → I w → ctx_typed c → bytes_ok f → small f →
  wp (invoke_on_endpoint (E:=E) ep cl cmd f)
    (λ o '(n', w', c'), node_ok n' ∧ I w' ∧ endpoints n' = endpoints n ∧
       invoke_result_ok o) (λ _ _, False) (n, w, c).
Proof.
  intros Hn Hw Hty Hf Hs. unfold invoke_on_endpoint. apply wp_bind. unfold wp at 1, get. cbn beta iota.
  pose proof (handler_mut_ok n ep cl Hn) as Hh.
  destruct (handler_mut n ep cl) as [h|s| |]; [|by apply wp_ret|done|done].
  destruct Hh as (Hh & Hcl & Hep & _).
  case_match; [by apply wp_ret|].
  apply wp_bind. unfold wp at 1, clear_lists, modify. apply wp_bind. unfold wp at 1, call.
  destruct (ho_invoke w (clear_ctx c) cmd f Hw Hty Hf Hs) as (w' & c' & r & -> & Hw' & Hk & Hr).
  cbn [ok_fin map_err]. apply wp_bind.
  eapply wp_mono; [apply commit_wp; [done|by eapply ctx_ok_kept, ctx_ok_clear|done|]| |done].
  { rewrite <- Hcl. apply ho_cluster. }
  intros [ch nums] [ [n' w''] c''] (Hn' & -> & _ & He & _ & Hch). apply wp_ret. by split_and!.
Qed.

(** ** Answers *)

(** One anonymous struct: what every payload of the protocol is. *)
Definition message_ok (b : bytes) : Prop :=
  ∃ ch, Forall wf_tree ch ∧ b = enc_tree (TNode Anonymous KStruct ch).

Lemma status_message ep cl cmd st cs : ids_ok ep cl (Some cmd) → status_ok st cs →
  ∃ b, encode_invoke_response_status ep cl cmd st cs = Ok b ∧ message_ok b.
Proof.
  intros Hi Hs. eexists. split; [apply response_status_eq|].
  eexists. split; [|done]. by apply wf_response, wf_command_status.
Qed.

Lemma data_message ep cl cmd f : ids_ok ep cl (Some cmd) → fields_bytes f →
  ∃ b, encode_invoke_response_data ep cl cmd f = Ok b ∧ message_ok b.
Proof.
  intros Hi Hf.
  assert (∃ s, f = default [] (struct_raw s) ∧ struct_ok s) as (s & -> & Hs).
  { destruct Hf as [-> | (tag & ch & Hwf & -> & Hs)]; [by exists None|]. by exists (Some (tag, ch)). }
  eexists. split; [by apply response_data_eq|].
  eexists. split; [|done]. by apply wf_response, wf_command_data.
Qed.

Lemma write_message rs : Forall write_result_ok rs →
  ∃ b, encode_write_response rs = Ok b ∧ message_ok b.
Proof.
  intros Hrs. eexists. split; [apply write_response_eq|].
  eexists. split; [|done]. by apply wf_write_response.
Qed.

Lemma status_response_message st : in_u 8 st →
  ∃ b, encode_status_response (E:=ImServerError) st = Ok b ∧ message_ok b.
Proof.
  intros Hst. exists (enc_tree (TNode Anonymous KStruct
    [Leaf (Context 0) (VUint st); Leaf (Context 255) (VUint IM_REVISION)])). split.
  - unfold encode_status_response, finish. 
    rewrite (writes_struct (E:=ImServerError) _ _ [Leaf (Context 0) (VUint st); Leaf (Context 255) (VUint IM_REVISION)]);
      [done|eauto with emits].
  - eexists. split; [|done]. apply Forall_cons; split; [by apply (wf_uint _ _ 8)|].
    apply Forall_singleton, wf_revision.
Qed.

Definition outcome_ok (o : ImOutcome) : Prop :=
  message_ok (out_payload o) ∧ Forall change_ok (out_changed o).

(** The payload did not parse, and nothing happened. *)
Definition refused (s : NodeState (W:=W)) (e : ImServerError) (s' : NodeState) : Prop :=
  s' = s ∧ ∃ d, e = SeDecode d.

(** The request was served with a response of opcode [op]. *)
Definition served (n : Node W) (op : Z) (o : ImOutcome) (s : NodeState) : Prop :=
  let '(n', w', _) := s in
  node_ok n' ∧ I w' ∧ endpoints n' = endpoints n ∧ out_opcode o = op ∧ outcome_ok o.

Lemma element_raw_ok f : element_raw f → bytes_ok f ∧ small f.
Proof. intros (t & Hwf & _ & -> & Hs). split; [by apply enc_tree_ok|done]. Qed.

Lemma raw_or_empty_ok f : raw_or_empty f → bytes_ok f ∧ small f.
Proof. intros [-> | Hf]; [by split|by apply element_raw_ok]. Qed.

(** ** Handlers *)

Lemma invoke_answer_wp r o (s : NodeState (W:=W)) :
  ids_ok (ir_endpoint r) (ir_cluster r) (Some (ir_command r)) → invoke_result_ok o →
  wp (invoke_answer r o)
    (λ out s', s' = s ∧ out_opcode out = OPCODE_INVOKE_RESPONSE ∧ outcome_ok out ∧
       out_changed out = changes_in o)
    (λ _ _, False) s.
Proof.
  intros Hi Ho. destruct o as [ [reply ch] |st| |]; try done; cbn [invoke_answer]; apply wp_bind;
    unfold wp at 1, lift.
  - destruct Ho as [Hr Hch].
    assert (∃ b, encode_reply r reply = Ok b ∧ message_ok b) as (b & -> & Hm).
    { destruct reply as [st|st cs|cmd f]; cbn in *.
      - by apply status_message.
      - by apply status_message.
      - destruct Hi as (? & ? & ?), Hr. by apply data_message. }
    apply wp_ret. by split_and!.
  - destruct (status_message _ _ _ st None Hi (conj Ho Logic.I)) as (b & -> & Hm).
    apply wp_ret. by split_and!.
Qed.

Lemma handle_invoke_wp payload n w c :
  node_ok n → I w → ctx_typed c → bytes_ok payload → small payload →
  wp (handle_invoke payload) (λ o s, served n OPCODE_INVOKE_RESPONSE o s) (refused (n, w, c)) (n, w, c).
Proof.
  intros Hn Hw Hty Hb Hs. unfold handle_invoke. apply wp_bind.
  pose proof (decode_invoke_request_safe payload Hb Hs) as Hd. unfold wp at 1, decode_or, lift.
  destruct (decode_invoke_request payload) as [r|e| |]; cbn [map_err]; try done; try (by split; [|eexists]).
  destruct Hd as [Hi Hraw]. destruct (raw_or_empty_ok _ Hraw) as [Hfb Hfs]. apply wp_bind.
  eapply wp_mono; [by apply invoke_on_endpoint_wp| |done].
  intros o [ [n' w'] c'] (Hn' & Hw' & He & Ho).
  eapply wp_mono; [by apply invoke_answer_wp| |done]. intros out s (-> & Hop & Hout & _). by split_and!.
Qed.

Lemma write_one_wp wa n w c :
  node_ok n → I w → ctx_typed c → write_in wa →
  wp (write_one wa)
    (λ r '(n', w', c'), node_ok n' ∧ I w' ∧ endpoints n' = endpoints n ∧ ctx_typed c' ∧
       write_result_ok r.1 ∧ Forall change_ok r.2) (λ _ _, False) (n, w, c).
Proof.
  intros Hn Hw Hty [Hp Hd]. destruct (element_raw_ok _ Hd) as [Hb Hs]. unfold write_one.
  destruct (wa_path wa) as [ [ [ep|] [cl|] ] [a|] ] eqn:Hpath; cbn in Hp; destruct_and?;
    try (apply wp_ret; by split_and!).
  apply wp_bind. unfold wp at 1, get. cbn beta iota.
  pose proof (handler_mut_ok n ep cl Hn) as Hh.
  destruct (handler_mut n ep cl) as [h|st| |]; [|apply wp_ret; by split_and!|done|done].
  destruct Hh as (Hh & Hcl & Hep & _).
  case_match; [apply wp_ret; by split_and!|].
  apply wp_bind. unfold wp at 1, clear_lists, modify. apply wp_bind. unfold wp at 1, call.
  destruct (ho_write w (clear_ctx c) a (wa_data wa) (wa_append wa) Hw Hty Hb Hs)
    as (w' & c' & r & -> & Hw' & Hk & Hr).
  assert (∃ st, status_of r = Ok st ∧ in_u 8 st) as (st & -> & Hst).
  { destruct r as [u|st| |]; try done; cbn; eauto. by exists STATUS_SUCCESS. }
  apply wp_bind. eapply wp_mono; [by apply commit_wp; [..|eapply ctx_ok_kept, ctx_ok_clear| |]| |done].
  intros [ch nums] [ [n' w''] c''] (Hn' & -> & -> & He & _ & Hch). apply wp_ret.
  pose proof (ctx_typed_kept _ _ Hk Hty : ctx_typed (clear_ctx c')). by split_and!.
Qed.

Lemma write_all_wp ws results changed n w c :
  node_ok n → I w → ctx_typed c → Forall write_in ws → Forall write_result_ok results → Forall change_ok changed →
  wp (write_all ws results changed)
    (λ r '(n', w', c'), node_ok n' ∧ I w' ∧ endpoints n' = endpoints n ∧
       Forall write_result_ok r.1 ∧ Forall change_ok r.2) (λ _ _, False) (n, w, c).
Proof.
  revert results changed n w c. induction ws as [|wa ws IH]; intros results changed n w c Hn Hw Hty Hws Hr Hc.
  { apply wp_ret. by split_and!. }
  apply Forall_cons in Hws as [Hwa Hws]. cbn [write_all]. apply wp_bind.
  eapply wp_mono; [by apply write_one_wp| |done].
  intros [r ch] [ [n' w'] c'] (Hn' & Hw' & He & Hty' & Hr' & Hch').
  eapply wp_mono; [apply IH; [done|done|done|done| |]| |done].
  - apply Forall_app. split; [done|by apply Forall_singleton].
  - by apply Forall_app.
  - intros [rs chs] [ [n2 w2] c2] (Hn2 & Hw2 & He2 & Hrs & Hcs). rewrite He in He2. by split_and!.
Qed.

Lemma handle_write_wp payload n w c :
  node_ok n → I w → ctx_typed c → bytes_ok payload → small payload →
  wp (handle_write payload) (λ o s, served n OPCODE_WRITE_RESPONSE o s) (refused (n, w, c)) (n, w, c).
Proof.
  intros Hn Hw Hty Hb Hs. unfold handle_write. apply wp_bind.
  pose proof (decode_write_request_safe payload Hb Hs) as Hd. unfold wp at 1, decode_or, lift.
  destruct (decode_write_request payload) as [r|e| |]; cbn [map_err]; try done; try (by split; [|eexists]).
  cbn in Hd. apply wp_bind. eapply wp_mono; [by apply write_all_wp| |done].
  intros [results changed] [ [n' w'] c'] (Hn' & Hw' & He & Hr & Hc). apply wp_bind.
  destruct (write_message results Hr) as (b & Hbe & Hm).
  unfold wp at 1, lift. rewrite Hbe. cbn [ok_fin map_err]. apply wp_ret. by split_and!.
Qed.

(** ** Reads *)

(** An entry the encoder accepts. *)
Definition entry_ok (e : ReportEntryOut) : Prop := ∃ t ib, attr_entry data_to_im e t ib.

Lemma data_to_im_any t : wf_tree t → ∃ d, decodes data_to_im t d.
Proof.
  intros Hwf. destruct t as [tag v|tag k ch].
  - exists (Ok v). by apply (data_to_im_scalar (Leaf tag v)).
  - exists (Err UnsupportedValue). apply wf_children in Hwf as [_ Hch].
    unfold decodes, data_to_im. cbn [root_el root_value el_value].
    destruct k; (eapply reads_bind_end; [by apply reads_im_skip|apply reads_ret]).
Qed.

Lemma data_entry_ok ep cl a dv v : ids_ok ep cl (Some a) → in_u 32 dv → element_bytes v → small v →
  entry_ok (REData {| ar_endpoint := ep; ar_cluster := cl; ar_attribute := a; ar_data_version := dv;
                      ar_value := v |}).
Proof.
  intros Hi Hdv (t & Hwf & ->) Hs.
  destruct (data_to_im_any (retag (Context 2) t)) as [d Hd]; [by apply wf_retag|].
  do 2 eexists. by apply (attr_data data_to_im ep cl a dv t d).
Qed.

Lemma status_entry_ok ep cl a st : ids_ok ep cl (Some a) → in_u 8 st → entry_ok (REStatus ep cl a st).
Proof. intros Hi Hs. do 2 eexists. by apply attr_status. Qed.

Lemma entries_trees es : Forall entry_ok es → ∃ ts ibs, Forall3 (attr_entry data_to_im) es ts ibs.
Proof.
  induction 1 as [|e es (t & ib & He) _ (ts & ibs & IH)]; [by do 2 eexists; constructor|].
  do 2 eexists. by constructor.
Qed.

Lemma entries_message es suppress sub more : Forall entry_ok es → from_option (in_u 32) True sub →
  ∃ b, encode_report_data_entries es suppress sub more = Ok b ∧ message_ok b.
Proof.
  intros Hes Hs. destruct (entries_trees _ Hes) as (ts & ibs & Ht).
  eexists. split; [eapply report_data_eq; [exact Ht|constructor]|].
  eexists. split; [|done]. apply wf_report; [by eapply attr_entries_wf|constructor|done].
Qed.

Lemma encode_ids_ok l : Forall (in_u 32) l → ∃ b, encode_ids l = Ok b ∧ element_bytes b.
Proof.
  intros Hl. exists (enc_tree (TNode Anonymous KArray (map (λ v, Leaf Anonymous (VUint v)) l))). split.
  - apply to_vec_writes, writes_array. rewrite <- (app_nil_r (map _ _)).
    apply emits_map; [|apply emits_end]. intros v. apply writes_put_uint.
  - eexists. split; [|done]. by apply wf_anon_node, (wf_uints _ 32).
Qed.

Lemma some_fin_ok (m : fin bytes) : (∃ b, m = Ok b ∧ element_bytes b) →
  ∃ o, some_fin m = Ok o ∧ from_option element_bytes True o.
Proof. intros (b & -> & Hb). by exists (Some b). Qed.

Lemma filter_nonzero_ok (l : list Z) : Forall (in_u 16) l →
  Forall (in_u 32) (List.filter (λ id, negb (id =? 0)) l).
Proof.
  induction 1 as [|x l Hx Hl IH]; cbn; [done|]. destruct (x =? 0); cbn; [done|].
  constructor; [by apply (in_u_mono 16); lia || done|done].
Qed.

Lemma read_value_ok n w x h a : node_ok n → I w → HandlerOk I h → Forall (HandlerOk I) (ex_clusters x) →
  ∃ o, read_attribute_value n w x h a = Ok o ∧ from_option element_bytes True o.
Proof.
  intros Hn Hw Hh Hcs. unfold read_attribute_value.
  repeat case_match; try (apply some_fin_ok); try (by apply ho_read).
  - apply encode_ids_ok, List.Forall_map. eapply Forall_impl; [exact Hcs|]. intros h' Hh'. apply ho_cluster.
  - apply encode_ids_ok, filter_nonzero_ok, List.Forall_map. eapply Forall_impl; [apply Hn|]. by intros [] [].
  - apply (element_uint _ 16); [lia|apply ho_revision].
  - apply (element_uint _ 32); [lia|apply ho_feature_map].
  - apply encode_ids_ok, Forall_app. split; [apply ho_attributes|by repeat constructor].
  - apply encode_ids_ok, ho_accepted.
  - apply encode_ids_ok, ho_generated.
Qed.

(** Values in memory are shorter than [isize::MAX]. *)
Definition values_fit (n : Node W) (w : W) (ctx : ReadCtx) : Prop :=
  ∀ ep cs h a b, (ep, cs) ∈ endpoints n → h ∈ cs →
    read_attribute_value n w {| ex_endpoint := ep; ex_clusters := cs; ex_ctx := ctx |} h a = Ok (Some b) →
    small b.

Lemma collect_ok {X Y} (f : X → fin (list Y)) (P : Y → Prop) l :
  (∀ x, x ∈ l → ∃ ys, f x = Ok ys ∧ Forall P ys) → ∃ ys, collect f l = Ok ys ∧ Forall P ys.
Proof.
  induction l as [|x l IH]; intros Hf; cbn; [by eexists|].
  destruct (Hf x) as (a & -> & Ha); [by apply elem_of_cons; left|]. cbn.
  destruct IH as (b & -> & Hb); [intros; apply Hf; by apply elem_of_cons; right|]. cbn.
  eexists. split; [done|]. by apply Forall_app.
Qed.

Section expand.
Context (n : Node W) (w : W) (ctx : ReadCtx) (Hn : node_ok n) (Hw : I w) (Hfit : values_fit n w ctx).
Context (ep : Z) (cs : list (ClusterHandler W)) (Hin : (ep, cs) ∈ endpoints n).
Let x := {| ex_endpoint := ep; ex_clusters := cs; ex_ctx := ctx |}.

Lemma value_entry_ok h a b : h ∈ cs → in_u 32 a → read_attribute_value n w x h a = Ok (Some b) →
  entry_ok (data_entry n x h a b).
Proof.
  intros Hh Ha Hr. destruct (endpoint_in _ _ _ Hn Hin) as [Hep Hcs].
  pose proof (proj1 (Forall_forall _ _) Hcs _ Hh) as Hok.
  destruct (read_value_ok n w x h a Hn Hw Hok Hcs) as (o & Ho & He).
  rewrite Hr in Ho. injection Ho as <-.
  apply data_entry_ok; [|by apply data_version_ok|done|by eapply Hfit].
  split_and!; [done|apply ho_cluster|done].
Qed.

Lemma expand_attribute_ok h attr conc : h ∈ cs → from_option (in_u 32) True attr →
  ∃ out, expand_attribute n w x h attr conc = Ok out ∧ Forall entry_ok out.
Proof.
  intros Hh Ha. destruct (endpoint_in _ _ _ Hn Hin) as [Hep Hcs].
  pose proof (proj1 (Forall_forall _ _) Hcs _ Hh) as Hok.
  assert (Hst : ∀ a st, in_u 32 a → in_u 8 st → entry_ok (REStatus ep (cluster_id h) a st)).
  { intros a st Hia Hs. apply status_entry_ok; [|done]. split_and!; [done|apply ho_cluster|done]. }
  destruct attr as [a|]; cbn [expand_attribute].
  - case_match; [destruct conc; eexists; split; try done; by apply Forall_singleton, Hst|].
    destruct (read_value_ok n w x h a Hn Hw Hok Hcs) as (o & Ho & He). rewrite Ho. cbn.
    destruct o as [b|]; [|destruct conc]; eexists; split; try done; apply Forall_singleton; [|by apply Hst].
    by apply value_entry_ok.
  - apply collect_ok. intros a Hia. unfold expand_one. case_match; [by eexists|].
    pose proof (proj1 (Forall_forall _ _) (ho_attributes (h := h)) _ Hia) as Hau.
    destruct (read_value_ok n w x h a Hn Hw Hok Hcs) as (o & Ho & He). rewrite Ho. cbn.
    destruct o as [b|]; eexists; split; try done. by apply Forall_singleton, value_entry_ok.
Qed.

Lemma expand_cluster_ok cl attr conc : from_option (in_u 32) True cl → from_option (in_u 32) True attr →
  ∃ out, expand_cluster n w x cl attr conc = Ok out ∧ Forall entry_ok out.
Proof.
  intros Hcl Ha. destruct (endpoint_in _ _ _ Hn Hin) as [Hep Hcs].
  destruct cl as [cl|]; cbn [expand_cluster].
  - destruct (find_cluster cl _) as [h|] eqn:Hf.
    + apply find_cluster_in in Hf as [Hh _]. by apply expand_attribute_ok.
    + destruct conc; eexists; split; try done. apply Forall_singleton, status_entry_ok; [|done].
      split_and!; [done|done|by destruct attr].
  - apply collect_ok. intros h Hh. by apply expand_attribute_ok.
Qed.
End expand.

Lemma read_entries_ok n w paths ctx :
  node_ok n → I w → values_fit n w ctx → Forall ids_in paths →
  ∃ out, read_entries n w paths ctx = Ok out ∧ Forall entry_ok out.
Proof.
  intros Hn Hw Hfit Hp. apply collect_ok. intros path Hin.
  pose proof (proj1 (Forall_forall _ _) Hp _ Hin) as Hids. clear Hin.
  destruct path as [ [ep cl] a]. destruct Hids as (He & Hc & Ha). unfold expand_endpoint.
  destruct ep as [ep|].
  - destruct (clusters_at n ep) as [cs|] eqn:Hcs.
    + apply clusters_at_in in Hcs. by apply expand_cluster_ok.
    + eexists. split; [done|]. apply Forall_singleton, status_entry_ok; [|done].
      split_and!; [done|by destruct cl|by destruct a].
  - apply collect_ok. intros [ep cs] Hin. by apply expand_cluster_ok.
Qed.

Lemma batch_loop_ok budget sub entries current batches :
  from_option (in_u 32) True sub → Forall entry_ok entries → Forall entry_ok current →
  Forall (Forall entry_ok) batches →
  ∃ bs, batch_loop budget sub entries current batches = Ok bs ∧ Forall (Forall entry_ok) bs ∧ bs ≠ [].
Proof.
  intros Hs He. revert current batches.
  induction He as [|e es He Hes IH]; intros current batches Hc Hb; cbn [batch_loop].
  { eexists. split_and!; [done| |by destruct batches]. apply Forall_app. split; [done|by apply Forall_singleton]. }
  assert (Hcand : Forall entry_ok (current ++ [e])).
  { apply Forall_app. split; [done|by apply Forall_singleton]. }
  destruct (entries_message _ false sub true Hcand Hs) as (p & -> & _). cbn [res_bind].
  case_match; apply IH; try done; [by apply Forall_singleton|].
  apply Forall_app. split; [done|by apply Forall_singleton].
Qed.

Lemma encode_chunks_ok sub trailer bs :
  from_option (in_u 32) True sub → Forall (Forall entry_ok) bs →
  ∃ ps, encode_chunks sub trailer bs = Ok ps ∧ Forall message_ok ps ∧ length ps = length bs.
Proof.
  intros Hs. induction 1 as [|b bs Hb Hbs (ps & IH & Hps & Hl)]; cbn [encode_chunks]; [by eexists|].
  destruct (entries_message b
    (bool_decide (bs = []) && negb (bool_decide (is_Some sub)) && negb trailer) sub
    (negb (bool_decide (bs = [])) || trailer) Hb Hs) as (p & Hp & Hm).
  unfold encode_chunk. rewrite Hp. cbn [res_bind]. rewrite IH. cbn [res_bind].
  eexists. split_and!; [done|by constructor|cbn; by rewrite Hl].
Qed.

Lemma read_chunks_ok n w paths ctx budget sub trailer :
  node_ok n → I w → values_fit n w ctx → Forall ids_in paths → from_option (in_u 32) True sub →
  ∃ ps, read_chunks n w paths ctx budget sub trailer = Ok ps ∧ Forall message_ok ps ∧ ps ≠ [].
Proof.
  intros Hn Hw Hfit Hp Hs. unfold read_chunks.
  destruct (read_entries_ok n w paths ctx Hn Hw Hfit Hp) as (es & -> & Hes). cbn [res_bind].
  destruct (batch_loop_ok budget sub es [] [] Hs Hes) as (bs & -> & Hbs & Hne); [done|done|]. cbn [res_bind].
  destruct (encode_chunks_ok sub trailer bs Hs Hbs) as (ps & -> & Hps & Hl).
  exists ps. split_and!; [done|done|]. by destruct ps, bs.
Qed.

Lemma handle_read_wp payload ctx n w c :
  node_ok n → I w → values_fit n w ctx → bytes_ok payload → small payload →
  wp (handle_read payload ctx) 
    (λ o s, served n OPCODE_REPORT_DATA o s ∧ s = (n, w, c) ∧ out_changed o = []) (refused (n, w, c)) (n, w, c).
Proof.
  intros Hn Hw Hfit Hb Hs. unfold handle_read, decode_read_request. apply wp_bind.
  pose proof (decode_read_request_safe payload Hb Hs) as Hd. unfold wp at 1, decode_or, lift.
  destruct (decode_read_request_message payload) as [r|e| |]; cbn [map_err res_bind]; try done; try (by split; [|eexists]).
  cbn in Hd. apply wp_bind. unfold wp at 1, get. apply wp_bind.
  destruct (read_chunks_ok n w (rr_paths r) ctx USIZE_MAX None false) as (ps & Hps & Hm & Hne); try done.
  unfold wp at 1, lift. rewrite Hps. cbn [ok_fin map_err].
  destruct ps as [|p ps]; [done|]. apply Forall_cons in Hm as [Hm _]. apply wp_ret. by split_and!.
Qed.

(** The response opcode of each request. *)
Definition response_opcode (opcode : Z) : Z :=
  if opcode =? OPCODE_READ_REQUEST then OPCODE_REPORT_DATA
  else if opcode =? OPCODE_INVOKE_REQUEST then OPCODE_INVOKE_RESPONSE
  else if opcode =? OPCODE_WRITE_REQUEST then OPCODE_WRITE_RESPONSE
  else OPCODE_STATUS_RESPONSE.

Definition mutating (opcode : Z) : bool :=
  (opcode =? OPCODE_INVOKE_REQUEST) || (opcode =? OPCODE_WRITE_REQUEST).

Lemma status_outcome_wp st n w c : node_ok n → I w → in_u 8 st →
  wp (let! p := lift (encode_status_response st) in ret (unchanged OPCODE_STATUS_RESPONSE p))
    (λ o s, served n OPCODE_STATUS_RESPONSE o s ∧ s = (n, w, c) ∧ out_changed o = []) (λ (_ : ImServerError) _, False) (n, w, c).
Proof.
  intros Hn Hw Hst. apply wp_bind. destruct (status_response_message st Hst) as (b & Hb & Hm).
  unfold wp at 1, lift. rewrite Hb. apply wp_ret. by split_and!.
Qed.

(** C13. Whatever the opcode and the bytes of the payload, a node built of
    clusters that keep their contract does not panic and keeps its invariant:
    it answers with one well-formed message of the opcode the request calls for,
    and only an invoke or a write changes anything; when it has no answer - the
    payload does not parse, or it is itself a StatusResponse - its state is as
    it was. *)
Theorem handle_im_serves n w c opcode payload ctx :
  node_ok n → I w → ctx_typed c → values_fit n w ctx → bytes_ok payload → small payload →
  wp (handle_im opcode payload ctx)
    (λ o s, served n (response_opcode opcode) o s ∧ (mutating opcode = false → s = (n, w, c) ∧ out_changed o = []))
    (λ e s, s = (n, w, c) ∧ (e = SeNoReply ↔ opcode = OPCODE_STATUS_RESPONSE)) (n, w, c).
Proof.
  intros Hn Hw Hty Hfit Hb Hs. unfold handle_im, response_opcode, mutating.
  assert (Hr : ∀ e s, refused (n, w, c) e s → opcode ≠ OPCODE_STATUS_RESPONSE →
    s = (n, w, c) ∧ (e = SeNoReply ↔ opcode = OPCODE_STATUS_RESPONSE)).
  { intros e s [-> [d ->] ] Ho. by split. }
  destruct (Z.eqb_spec opcode OPCODE_READ_REQUEST) as [-> |].
  { eapply wp_mono; [by apply handle_read_wp| |]; [by intros o s (? & ? & ?)|intros; by apply Hr]. }
  destruct (Z.eqb_spec opcode OPCODE_INVOKE_REQUEST) as [-> |].
  { eapply wp_mono; [by apply handle_invoke_wp|by intros|intros; by apply Hr]. }
  destruct (Z.eqb_spec opcode OPCODE_WRITE_REQUEST) as [-> |].
  { eapply wp_mono; [by apply handle_write_wp|by intros|intros; by apply Hr]. }
  destruct (Z.eqb_spec opcode OPCODE_STATUS_RESPONSE) as [-> |]; [by apply wp_throw|].
  destruct (opcode =? OPCODE_TIMED_REQUEST);
    (eapply wp_mono; [by apply status_outcome_wp|by intros o s (? & ? & ?)|done]).
Qed.
End safety.

(** A light with a contact sensor, on one endpoint. *)
Definition fst_lens : Lens (bool * bool) bool := {| view := fst; update b w := (b, snd w) |}.
Definition snd_lens : Lens (bool * bool) bool := {| view := snd; update b w := (fst w, b) |}.

Definition light_node : Node (bool * bool) :=
  add_endpoint 1 [OnOffHandler fst_lens; BooleanStateHandler snd_lens] Node_new.

Definition any_world (w : bool * bool) : Prop := True.

Lemma light_node_ok : node_ok any_world light_node.
Proof.
  assert (LensKeeps any_world (λ _, True) fst_lens) by done.
  assert (LensKeeps any_world (λ _, True) snd_lens) by done.
  split_and!; [|done|apply map_Forall_empty].
  apply Forall_singleton. split; [done|]. cbn [snd]. apply Forall_cons. split; [apply _|].
  apply Forall_singleton. apply _.
Qed.

Lemma light_values_fit w ctx : values_fit light_node w ctx.
Proof.
  intros ep cs h a b [= -> ->]%list_elem_of_singleton Hh. destruct w as [ [] [] ];
    apply elem_of_cons in Hh as [-> | ->%list_elem_of_singleton];
    unfold read_attribute_value, cluster_id, h_read, OnOffHandler, BooleanStateHandler;
    repeat case_match; intros Hr; vm_compute in Hr; simplify_eq; done.
Qed.

Definition toggle_request : bytes :=
  enc_tree (TNode Anonymous KStruct
    [Leaf (Context 0) (VBool false); Leaf (Context 1) (VBool false);
     TNode (Context 2) KArray
       [TNode Anonymous KStruct
          [TNode (Context 0) KList
             [Leaf (Context 0) (VUint 1); Leaf (Context 1) (VUint CLUSTER_ON_OFF);
              Leaf (Context 2) (VUint CMD_ON_OFF_TOGGLE)];
           TNode (Context 1) KStruct []] ];
     Leaf (Context 255) (VUint IM_REVISION)]).

(** The light toggles, and its data version moves. *)
Lemma handle_im_serves_witness :
  let s := (light_node, (false, false), InvokeCtx_default) in
  let run := handle_im OPCODE_INVOKE_REQUEST toggle_request
               {| rc_fabric := 0; rc_filtered := false; rc_subject := Subject_node 0 |} s in
  wp (handle_im OPCODE_INVOKE_REQUEST toggle_request
        {| rc_fabric := 0; rc_filtered := false; rc_subject := Subject_node 0 |})
    (λ o s', served any_world light_node OPCODE_INVOKE_RESPONSE o s')
    (λ _ s', s' = s) s ∧
  (match run with
   | ((n, w, _), Ok o) =>
       w = (true, false) ∧ data_version n 1 CLUSTER_ON_OFF = 2 ∧
       data_version n 1 CLUSTER_BOOLEAN_STATE = 1 ∧ out_changed o = [(1, CLUSTER_ON_OFF, ATTR_ON_OFF)]
   | _ => False
   end).
Proof.
  cbv zeta. split; [|vm_compute; done].
  eapply wp_mono.
  - apply (handle_im_serves any_world light_node (false, false) InvokeCtx_default OPCODE_INVOKE_REQUEST
             toggle_request {| rc_fabric := 0; rc_filtered := false; rc_subject := Subject_node 0 |}
             light_node_ok Logic.I).
    + done.
    + apply light_values_fit.
    + by vm_compute; repeat constructor.
    + by vm_compute.
  - intros o s' [Hs _]. exact Hs.
  - intros e s' [Hs _]. exact Hs.
Defined.
