(* ===== verification/NodeAccess.v ===== *)
(** * Who may change a node, and what is recorded

    The abstract view of the mutating requests of [DataModel]: a labelled step
    is one handler call the ACL permits to the caller, together with the record
    the node keeps of it (the cluster's data version and the event log).  An
    invoke, a write or a group invoke is a sequence of such steps and nothing
    else. *)

From stdpp Require Import gmap.
From S2P Require Import Prelude Tlv TlvValue Handler Im Report AccessControl Events DataModel Clusters NodeSafety.

(** One executed operation: where it ran, which attributes it changed and which
    events it raised. *)
Record Label := {
  lb_endpoint : Z;
  lb_cluster : Z;
  lb_changed : list Z;
  lb_events : list EmittedEvent
}.

Definition label_changes (l : Label) : list Change :=
  map (λ a, (lb_endpoint l, lb_cluster l, a)) (lb_changed l).

Definition changes_of (ls : list Label) : list Change := flat_map label_changes ls.

Definition emissions (ts : Z) (l : Label) : list Emission :=
  map (λ e, {| e_endpoint := lb_endpoint l; e_cluster := lb_cluster l; e_event := e; e_time := ts |})
    (lb_events l).

Section access.
Context {W : Type}.

(** What the node keeps of an operation: the data version of the cluster moves
    when an attribute changed, and every event is appended to the log. *)
Definition recorded (ts : Z) (l : Label) (n : Node W) : Node W :=
  {| endpoints := endpoints n;
     versions :=
       match lb_changed l with
       | [] => versions n
       | _ => <[(lb_endpoint l, lb_cluster l) :=
                  wrap 32 (data_version n (lb_endpoint l) (lb_cluster l) + 1)]> (versions n)
       end;
     version_base := version_base n;
     nd_acl := nd_acl n;
     event_log := foldl append_one (event_log n) (emissions ts l) |}.

Section caller.
Context (fabric : Z) (subject : Subject).

Definition caller (c : InvokeCtx) : Prop := ctx_fabric c = fabric ∧ ctx_subject c = subject.

Definition label (ep cl : Z) (c : InvokeCtx) : Label :=
  {| lb_endpoint := ep; lb_cluster := cl; lb_changed := ctx_changed c; lb_events := ctx_events c |}.

(** A handler call the ACL permits to the caller at that moment. *)
Inductive permitted : Node W * W → Label → Node W * W → Prop :=
  | permitted_invoke n w ep cl h cmd f c w' c' r :
      handler_for n ep cl = Some h →
      acl_allows n w fabric subject (invoke_privilege h cmd) ep cl = true →
      caller c →
      h_invoke h cmd f (w, clear_ctx c) = ((w', c'), Ok r) →
      permitted (n, w) (label ep cl c') (recorded 0 (label ep cl c') n, w')
  | permitted_write n w ep cl h a data append c w' c' r :
      handler_for n ep cl = Some h →
      acl_allows n w fabric subject (write_privilege h a) ep cl = true →
      caller c →
      h_write h a data append (w, clear_ctx c) = ((w', c'), r) →
      permitted (n, w) (label ep cl c') (recorded 0 (label ep cl c') n, w').

Inductive run : Node W * W → list Label → Node W * W → Prop :=
  | run_nil s : run s [] s
  | run_cons s l s' ls s'' : permitted s l s' → run s' ls s'' → run s (l :: ls) s''.

Lemma run_one s l s' : permitted s l s' → run s [l] s'.
Proof. intros H. by eapply run_cons; [|apply run_nil]. Qed.

Lemma run_app s ls s' ls' s'' : run s ls s' → run s' ls' s'' → run s (ls ++ ls') s''.
Proof. induction 1; intros H'; [done|]. cbn. eapply run_cons; eauto. Qed.

End caller.

Lemma changes_app ls ls' : changes_of (ls ++ ls') = changes_of ls ++ changes_of ls'.
Proof. apply flat_map_app. Qed.

Lemma append_all_fst ep cl ts evs l :
  fst (append_all ep cl ts evs l) =
  foldl append_one l (map (λ e, {| e_endpoint := ep; e_cluster := cl; e_event := e; e_time := ts |}) evs).
Proof.
  revert l. induction evs as [|e evs IH]; intros l; [done|]. cbn [append_all map foldl].
  unfold append_one at 2. cbn [e_endpoint e_cluster e_event e_time].
  destruct (el_append ep cl e ts l) as [l' k]. cbn [fst]. rewrite <- IH.
  by destruct (append_all ep cl ts evs l').
Qed.

Lemma commit_recorded {E} ep cl ts n w c :
  wp (commit_changes (E:=E) (W:=W) ep cl ts)
    (λ r s, s = (recorded ts (label ep cl c) n, w, clear_ctx c) ∧ r.1 = label_changes (label ep cl c))
    (λ _ _, False) (n, w, c).
Proof.
  unfold wp, commit_changes. destruct (append_all _ _ _ _ _) as [log numbers] eqn:Ha. split; [|done].
  pose proof (append_all_fst ep cl ts (ctx_events c) (event_log n)) as Hl.
  assert (log = foldl append_one (event_log n) (emissions ts (label ep cl c))) as ->.
  { unfold emissions. cbn [label lb_endpoint lb_cluster lb_events]. rewrite <- Hl.
    destruct (ctx_changed c); cbn in Ha; by rewrite Ha. }
  unfold recorded. cbn [label lb_changed]. by destruct (ctx_changed c).
Qed.
End access.

Section served.
Context {W : Type} (I : W → Prop) (fabric : Z) (subject : Subject) (Hfabric : in_u 8 fabric).

Lemma caller_typed c : caller fabric subject c → ctx_typed c.
Proof. intros [<- _]. exact Hfabric. Qed.

Lemma caller_kept c c' : ctx_kept c c' → caller fabric subject c → caller fabric subject c'.
Proof. intros (_ & Hf & Hs & _) [? ?]. split; congruence. Qed.

Lemma recorded_ok ts ep cl c (n : Node W) : node_ok I n → node_ok I (recorded ts (label ep cl c) n).
Proof.
  intros Hn. pose proof Hn as (He & Hb & Hv). split_and!; [done|done|]. unfold recorded. cbn [versions].
  destruct (lb_changed _); [done|]. apply map_Forall_insert_2; [by apply wrap_in_u|done].
Qed.

(** A run of permitted steps from [s], its labels described by [P]. *)
Definition ran (s : Node W * W) (P : list Label → Prop) (s' : NodeState) : Prop :=
  let '(n', w', c') := s' in
  node_ok I n' ∧ I w' ∧ endpoints n' = endpoints s.1 ∧ caller fabric subject c' ∧
  ∃ ls, run fabric subject s ls (n', w') ∧ P ls.

Lemma ran_nil n w c (P : list Label → Prop) :
  node_ok I n → I w → caller fabric subject c → P [] → ran (n, w) P (n, w, c).
Proof. intros Hn Hw Hc HP. split_and!; try done. exists []. split; [apply run_nil|done]. Qed.

Lemma ran_step n w l n' w' c (P : list Label → Prop) :
  node_ok I n' → I w' → endpoints n' = endpoints n → caller fabric subject c →
  permitted fabric subject (n, w) l (n', w') → P [l] → ran (n, w) P (n', w', c).
Proof. intros. split_and!; try done. exists [l]. split; [by apply run_one|done]. Qed.

Lemma ran_trans s n1 w1 c1 P1 P2 (P : list Label → Prop) s2 :
  ran s P1 (n1, w1, c1) → ran (n1, w1) P2 s2 → (∀ l1 l2, P1 l1 → P2 l2 → P (l1 ++ l2)) → ran s P s2.
Proof.
  destruct s2 as [ [n2 w2] c2].
  intros (_ & _ & E1 & _ & l1 & R1 & H1) (N2 & W2 & E2 & C2 & l2 & R2 & H2) HP. cbn [fst] in E2.
  split_and!; try done; [congruence|]. exists (l1 ++ l2). split; [by eapply run_app|by apply HP].
Qed.

Definition at_endpoint (ep : Z) (l : Label) : Prop := lb_endpoint l = ep.

Lemma invoke_on_endpoint_run {E} ep cl cmd f n w c :
  node_ok I n → I w → bytes_ok f → small f → caller fabric subject c →
  wp (invoke_on_endpoint (E:=E) ep cl cmd f)
    (λ o, ran (n, w) (λ ls, Forall (at_endpoint ep) ls ∧
       changes_of ls = changes_in o))
    (λ _ _, False) (n, w, c).
Proof.
  intros Hn Hw Hf Hs Hcall. pose proof (caller_typed c Hcall) as Hty. unfold invoke_on_endpoint. apply wp_bind. unfold wp at 1, get. cbn beta iota.
  pose proof (handler_mut_ok I n ep cl Hn) as Hh.
  destruct (handler_mut n ep cl) as [h|s| |]; [|by apply wp_ret, ran_nil|done|done].
  destruct Hh as (Hh & Hcl & Hep & Hfor).
  destruct Hcall as [Hcf Hcs]. rewrite Hcf, Hcs.
  destruct (acl_allows _ _ _ _ _ _ _) eqn:Hacl; cbn [negb]; [|by apply wp_ret, ran_nil].
  apply wp_bind. unfold wp at 1, clear_lists, modify. apply wp_bind. unfold wp at 1, call.
  destruct (ho_invoke w (clear_ctx c) cmd f Hw Hty Hf Hs) as (w' & c' & r & Hinv & Hw' & Hk & Hr).
  rewrite Hinv. cbn [ok_fin map_err]. apply wp_bind. eapply wp_mono; [apply commit_recorded| |done].
  intros [ch nums] s [-> Hch]. cbn [fst] in Hch. subst ch. apply wp_ret.
  eapply ran_step; [by apply recorded_ok|done|done| | |].
  - by apply (caller_kept _ _ Hk).
  - by eapply permitted_invoke.
  - split; [by apply Forall_singleton|]. cbn. by rewrite app_nil_r.
Qed.

Lemma write_one_run wa n w c :
  node_ok I n → I w → write_in wa → caller fabric subject c →
  wp (write_one wa) (λ r, ran (n, w) (λ ls, changes_of ls = r.2)) (λ _ _, False) (n, w, c).
Proof.
  intros Hn Hw [Hp Hd] Hcall. pose proof (caller_typed c Hcall) as Hty. destruct (element_raw_ok _ Hd) as [Hb Hs]. unfold write_one.
  destruct (wa_path wa) as [ [ [ep|] [cl|] ] [a|] ]; try by apply wp_ret, ran_nil.
  apply wp_bind. unfold wp at 1, get. cbn beta iota.
  pose proof (handler_mut_ok I n ep cl Hn) as Hh.
  destruct (handler_mut n ep cl) as [h|st| |]; [|by apply wp_ret, ran_nil|done|done].
  destruct Hh as (Hh & Hcl & Hep & Hfor).
  destruct Hcall as [Hcf Hcs]. rewrite Hcf, Hcs.
  destruct (acl_allows _ _ _ _ _ _ _) eqn:Hacl; cbn [negb]; [|by apply wp_ret, ran_nil].
  apply wp_bind. unfold wp at 1, clear_lists, modify. apply wp_bind. unfold wp at 1, call.
  destruct (ho_write w (clear_ctx c) a (wa_data wa) (wa_append wa) Hw Hty Hb Hs)
    as (w' & c' & r & Hwr & Hw' & Hk & Hr).
  rewrite Hwr. assert (∃ st, status_of r = Ok st) as [st ->] by (destruct r; try done; by eexists).
  apply wp_bind. eapply wp_mono; [apply commit_recorded| |done].
  intros [ch nums] s [-> Hch]. cbn [fst] in Hch. subst ch. apply wp_ret.
  eapply ran_step; [by apply recorded_ok|done|done| | |].
  - by apply (caller_kept _ _ Hk).
  - by eapply permitted_write.
  - cbn. by rewrite app_nil_r.
Qed.

Lemma write_all_run ws results changed n w c :
  node_ok I n → I w → Forall write_in ws → caller fabric subject c →
  wp (write_all ws results changed) (λ r, ran (n, w) (λ ls, r.2 = changed ++ changes_of ls))
    (λ _ _, False) (n, w, c).
Proof.
  revert results changed n w c. induction ws as [|wa ws IH]; intros results changed n w c Hn Hw Hws Hc.
  { apply wp_ret, ran_nil; [done..|]. cbn. by rewrite app_nil_r. }
  apply Forall_cons in Hws as [Hwa Hws]. cbn [write_all]. apply wp_bind.
  eapply wp_mono; [by apply write_one_run| |done].
  intros [r ch] [ [n' w'] c'] Hran. pose proof Hran as (Hn' & Hw' & _ & Hc' & _).
  eapply wp_mono; [by apply IH| |done].
  intros [rs chs] s2 Hran2. eapply ran_trans; [exact Hran|exact Hran2|].
  cbn [snd]. intros l1 l2 <- ->. by rewrite changes_app, app_assoc.
Qed.

Lemma group_invokes_run ep invokes changed n w c :
  node_ok I n → I w → Forall (λ i, bytes_ok (gi_fields i) ∧ small (gi_fields i)) invokes →
  caller fabric subject c →
  wp (group_invokes ep invokes changed)
    (λ ch, ran (n, w) (λ ls, Forall (at_endpoint ep) ls ∧ ch = changed ++ changes_of ls))
    (λ _ _, False) (n, w, c).
Proof.
  revert changed n w c. induction invokes as [|i invs IH]; intros changed n w c Hn Hw Hi Hc.
  { apply wp_ret, ran_nil; [done..|]. cbn. by rewrite app_nil_r. }
  apply Forall_cons in Hi as [ [Hb Hs] Hi]. cbn [group_invokes]. apply wp_bind.
  eapply wp_mono; [by apply invoke_on_endpoint_run| |done].
  intros o [ [n' w'] c'] Hran. pose proof Hran as (Hn' & Hw' & _ & Hc' & _).
  eapply wp_mono; [by apply IH| |done].
  intros ch s2 Hran2. eapply ran_trans; [exact Hran|exact Hran2|]. cbn beta.
  intros l1 l2 [He1 Hc1] [He2 ->]. split; [by apply Forall_app|]. rewrite changes_app, Hc1, app_assoc.
  f_equal. destruct o as [ [r ch] |st| |]; by rewrite ?app_nil_r.
Qed.

Lemma group_invoke_loop_run eps invokes changed n w c :
  node_ok I n → I w → Forall (λ i, bytes_ok (gi_fields i) ∧ small (gi_fields i)) invokes →
  caller fabric subject c →
  wp (handle_group_invoke_loop eps invokes changed)
    (λ ch, ran (n, w) (λ ls, Forall (λ l, lb_endpoint l ∈ eps) ls ∧ ch = changed ++ changes_of ls))
    (λ _ _, False) (n, w, c).
Proof.
  revert changed n w c. induction eps as [|ep eps IH]; intros changed n w c Hn Hw Hi Hc.
  { apply wp_ret, ran_nil; [done..|]. cbn. by rewrite app_nil_r. }
  cbn [handle_group_invoke_loop]. apply wp_bind. eapply wp_mono; [by apply group_invokes_run| |done].
  intros ch [ [n' w'] c'] Hran. pose proof Hran as (Hn' & Hw' & _ & Hc' & _).
  eapply wp_mono; [by apply IH| |done].
  intros ch' s2 Hran2. eapply ran_trans; [exact Hran|exact Hran2|]. cbn beta.
  intros l1 l2 [He1 ->] [He2 ->]. split; [|by rewrite changes_app, app_assoc].
  apply Forall_app. split; (eapply Forall_impl; [eassumption|]); unfold at_endpoint; set_solver.
Qed.
End served.

(** The requests themselves. *)
Section handlers.
Context {W : Type} (I : W → Prop) (fabric : Z) (subject : Subject) (Hfabric : in_u 8 fabric).

Lemma handle_invoke_run payload n w c :
  node_ok I n → I w → bytes_ok payload → small payload → caller fabric subject c →
  wp (handle_invoke payload) (λ o, ran I fabric subject (n, w) (λ ls, out_changed o = changes_of ls))
    (λ _ s, s = (n, w, c)) (n, w, c).
Proof.
  intros Hn Hw Hb Hs Hc. pose proof (caller_typed fabric subject Hfabric c Hc) as Hty. unfold handle_invoke. apply wp_bind.
  pose proof (decode_invoke_request_safe payload Hb Hs) as Hd. unfold wp at 1, decode_or, lift.
  destruct (decode_invoke_request payload) as [r|e| |]; cbn [map_err]; try done.
  destruct Hd as [Hi Hraw]. destruct (raw_or_empty_ok _ Hraw) as [Hfb Hfs]. apply wp_bind.
  eapply wp_mono; [apply wp_and; [by apply (invoke_on_endpoint_wp I)|by apply (invoke_on_endpoint_run I fabric subject)]| |
                   by intros e s [] ].
  intros o [ [n' w'] c'] [(_ & _ & _ & Ho) Hran].
  eapply wp_mono; [by apply invoke_answer_wp| |done]. intros out s (-> & _ & _ & ->).
  destruct Hran as (? & ? & ? & ? & ls & ? & _ & Hls). do 4 (split; [done|]). exists ls. split; [done|].
  by rewrite Hls.
Qed.

Lemma handle_write_run payload n w c :
  node_ok I n → I w → bytes_ok payload → small payload → caller fabric subject c →
  wp (handle_write payload) (λ o, ran I fabric subject (n, w) (λ ls, out_changed o = changes_of ls))
    (λ _ s, s = (n, w, c)) (n, w, c).
Proof.
  intros Hn Hw Hb Hs Hc. pose proof (caller_typed fabric subject Hfabric c Hc) as Hty. unfold handle_write. apply wp_bind.
  pose proof (decode_write_request_safe payload Hb Hs) as Hd. unfold wp at 1, decode_or, lift.
  destruct (decode_write_request payload) as [r|e| |]; cbn [map_err]; try done. cbn in Hd. apply wp_bind.
  eapply wp_mono; [apply wp_and; [by apply (write_all_wp I)|by apply (write_all_run I fabric subject)]| |by intros e s [] ].
  intros [results changed] [ [n' w'] c'] [(_ & _ & _ & Hr & _) Hran]. cbn [fst] in Hr.
  apply wp_bind. destruct (write_message results Hr) as (b & Hbe & _).
  unfold wp at 1, lift. rewrite Hbe. exact Hran.
Qed.
End handlers.

Section requests.
Context {W : Type} (I : W → Prop) (fabric : Z) (subject : Subject) (Hfabric : in_u 8 fabric).

(** C7. Everything a request changes on the node and in its clusters is a
    sequence of handler calls the ACL permits to the caller: an invoke or a
    write executes only those steps, records each (a cluster's data version
    moves exactly when an attribute changed, events go to the log) and reports
    exactly the recorded changes; any other opcode executes none. *)
Theorem requests_need_permission n w c opcode payload ctx :
  node_ok I n → I w → values_fit n w ctx → caller fabric subject c → bytes_ok payload → small payload →
  wp (handle_im opcode payload ctx)
    (λ o '(n', w', c'), ∃ ls, run fabric subject (n, w) ls (n', w') ∧ out_changed o = changes_of ls ∧
       (mutating opcode = false → ls = []))
    (λ _ s, s = (n, w, c)) (n, w, c).
Proof.
  intros Hn Hw Hfit Hc Hb Hs. unfold handle_im, mutating.
  assert (Hnil : ∃ ls, run fabric subject (n, w) ls (n, w) ∧ [] = changes_of ls ∧ (false = false → ls = [])).
  { exists []. split_and!; [apply run_nil|done|done]. }
  destruct (Z.eqb_spec opcode OPCODE_READ_REQUEST) as [-> |].
  { eapply wp_mono; [by apply handle_read_wp| |by intros e s [-> _] ].
    intros o [ [n' w'] c'] (_ & [= -> -> ->] & ->). exact Hnil. }
  destruct (Z.eqb_spec opcode OPCODE_INVOKE_REQUEST) as [-> |].
  { eapply wp_mono; [by apply handle_invoke_run| |by intros e s ->].
    intros o [ [n' w'] c'] (_ & _ & _ & _ & ls & Hrun & ->). by exists ls. }
  destruct (Z.eqb_spec opcode OPCODE_WRITE_REQUEST) as [-> |].
  { eapply wp_mono; [by apply handle_write_run| |by intros e s ->].
    intros o [ [n' w'] c'] (_ & _ & _ & _ & ls & Hrun & ->). by exists ls. }
  destruct (Z.eqb_spec opcode OPCODE_STATUS_RESPONSE) as [-> |]; [by apply wp_throw|].
  destruct (opcode =? OPCODE_TIMED_REQUEST);
    (eapply wp_mono; [by apply (status_outcome_wp I)| |done];
     intros o [ [n' w'] c'] (_ & [= -> -> ->] & ->); exact Hnil).
Qed.

(** A group message runs its invokes on the member endpoints only: whatever
    the endpoints and the commands, nothing panics, the node keeps its invariant
    and every executed step is one the ACL permits to the group's subject, on an
    endpoint of the list; the changes reported are those of the steps. *)
Theorem group_invoke_needs_permission n w c eps invokes :
  node_ok I n → I w → caller fabric subject c →
  Forall (λ i, bytes_ok (gi_fields i) ∧ small (gi_fields i)) invokes →
  wp (handle_group_invoke eps invokes)
    (λ ch '(n', w', c'), node_ok I n' ∧ I w' ∧ endpoints n' = endpoints n ∧
       ∃ ls, run fabric subject (n, w) ls (n', w') ∧ ch = changes_of ls ∧
         Forall (λ l, lb_endpoint l ∈ eps) ls)
    (λ _ _, False) (n, w, c).
Proof.
  intros Hn Hw Hc Hi. eapply wp_mono; [by apply group_invoke_loop_run| |done].
  intros ch [ [n' w'] c'] (Hn' & Hw' & He & _ & ls & Hrun & Hls & ->). split_and!; try done.
  exists ls. by split_and!.
Qed.
End requests.

(** The light, guarded by one Operate entry for node 5 and one for group 9, on
    fabric 1. *)
Definition operate_for (mode subj : Z) : AclDeviceEntry :=
  {| privilege := PRIVILEGE_OPERATE; auth_mode := mode; subjects := [subj]; targets_raw := None;
     fabric_index := 1 |}.

Definition guarded_light : Node (bool * bool) :=
  set_acl_store (λ _, {| acl_entries := [operate_for AUTH_MODE_CASE 5; operate_for AUTH_MODE_GROUP 9];
                         acl_saved := None |}) light_node.

Lemma guarded_light_ok : node_ok any_world guarded_light.
Proof. exact light_node_ok. Qed.

Lemma guarded_values_fit w ctx : values_fit guarded_light w ctx.
Proof. exact (light_values_fit w ctx). Qed.

Definition ctx_for (fabric : Z) (s : Subject) : InvokeCtx :=
  {| attestation_challenge := replicate 16 0; ctx_changed := []; ctx_fabric := fabric;
     ctx_subject := s; ctx_events := [] |}.

Definition read_ctx_for (fabric : Z) (s : Subject) : ReadCtx :=
  {| rc_fabric := fabric; rc_filtered := false; rc_subject := s |}.

Lemma fabric_1 : in_u 8 1.
Proof. done. Qed.

(** Node 5 toggles the light; node 6 gets an answer and nothing happens. *)
Lemma requests_need_permission_witness :
  let toggle k := handle_im OPCODE_INVOKE_REQUEST toggle_request (read_ctx_for 1 (Subject_node k))
                    (guarded_light, (false, false), ctx_for 1 (Subject_node k)) in
  wp (handle_im OPCODE_INVOKE_REQUEST toggle_request (read_ctx_for 1 (Subject_node 5)))
    (λ o '(n', w', c'), ∃ ls, run 1 (Subject_node 5) (guarded_light, (false, false)) ls (n', w') ∧
       out_changed o = changes_of ls)
    (λ _ _, True) (guarded_light, (false, false), ctx_for 1 (Subject_node 5)) ∧
  match toggle 5 with
  | ((n, w, _), Ok o) => w = (true, false) ∧ out_changed o = [(1, CLUSTER_ON_OFF, ATTR_ON_OFF)]
  | _ => False
  end ∧
  match toggle 6 with
  | ((n, w, _), Ok o) => w = (false, false) ∧ versions n = ∅ ∧ out_changed o = []
  | _ => False
  end.
Proof.
  cbv zeta. split_and!; [|by vm_compute|by vm_compute].
  eapply wp_mono.
  - apply (requests_need_permission any_world 1 (Subject_node 5) fabric_1 guarded_light (false, false)
             (ctx_for 1 (Subject_node 5)) OPCODE_INVOKE_REQUEST toggle_request
             (read_ctx_for 1 (Subject_node 5)) guarded_light_ok Logic.I (guarded_values_fit _ _)).
    + done.
    + by vm_compute; repeat constructor.
    + by vm_compute.
  - intros o [ [n' w'] c'] (ls & Hrun & Hch & _). by exists ls.
  - done.
Defined.

(** Group 9 switches the light of endpoint 1 on; the unknown endpoint 2 is
    passed over. *)
Lemma group_invoke_needs_permission_witness :
  let on := {| gi_cluster := CLUSTER_ON_OFF; gi_command := CMD_ON_OFF_ON; gi_fields := [] |} in
  let c := ctx_for 1 (Subject_group 9) in
  wp (handle_group_invoke [2; 1] [on])
    (λ ch '(n', w', c'), ∃ ls, run 1 (Subject_group 9) (guarded_light, (false, false)) ls (n', w') ∧
       ch = changes_of ls)
    (λ _ _, False) (guarded_light, (false, false), c) ∧
  match handle_group_invoke [2; 1] [on] (guarded_light, (false, false), c) with
  | ((_, w, _), Ok ch) => w = (true, false) ∧ ch = [(1, CLUSTER_ON_OFF, ATTR_ON_OFF)]
  | _ => False
  end.
Proof.
  cbv zeta. split; [|by vm_compute].
  eapply wp_mono.
  - apply (group_invoke_needs_permission any_world 1 (Subject_group 9) fabric_1 guarded_light (false, false)
             (ctx_for 1 (Subject_group 9)) [2; 1] _ guarded_light_ok Logic.I); [done|].
    by apply Forall_singleton.
  - intros ch [ [n' w'] c'] (_ & _ & _ & ls & Hrun & Hch & _). by exists ls.
  - done.
Defined.
