(* ===== verification/NodeRead.v ===== *)
(** * What a read reports

    The reads of [DataModel] against a declarative account of the expansion
    ([answers]: which entries a path calls for), and the chunking of a report
    against the promises of [read_chunks]' documentation. *)

From stdpp Require Import gmap.
From S2P Require Import Prelude Tlv TlvValue Handler Im Report AccessControl Events DataModel Clusters NodeSafety NodeAccess.

Lemma elem_of_collect {X Y} (f : X → fin (list Y)) l out y :
  collect f l = Ok out → y ∈ out ↔ ∃ x ys, x ∈ l ∧ f x = Ok ys ∧ y ∈ ys.
Proof.
  revert out. induction l as [|x l IH]; intros out; cbn.
  { intros [= <-]. split; [by intros ?%not_elem_of_nil|]. by intros (? & ? & ?%not_elem_of_nil & _). }
  destruct (f x) as [a| | |] eqn:Hf; try done. cbn. destruct (collect f l) as [b| | |] eqn:Hl; try done.
  cbn. intros [= <-]. rewrite elem_of_app, (IH b) by done. split.
  - intros [Hy | (x' & ys & Hx & Hfx & Hy)]; [exists x, a|exists x', ys]; rewrite elem_of_cons; auto.
  - intros (x' & ys & Hx & Hfx & Hy). apply elem_of_cons in Hx as [-> | Hx]; [|eauto 6].
    rewrite Hf in Hfx. injection Hfx as <-. by left.
Qed.

Lemma collect_total {X Y} (f : X → fin (list Y)) l out x :
  collect f l = Ok out → x ∈ l → ∃ ys, f x = Ok ys.
Proof.
  revert out. induction l as [|y l IH]; intros out; cbn; [by intros _ ?%not_elem_of_nil|].
  destruct (f y) as [a| | |] eqn:Hf; try done. cbn. destruct (collect f l) as [b| | |] eqn:Hl; try done.
  intros _ [-> | Hx]%elem_of_cons; [by exists a|by eapply IH].
Qed.

(** Looking an element up by a key that is unique in the list. *)
Lemma find_unique {A} (key : A → Z) l x :
  NoDup (map key l) → x ∈ l → List.find (λ y, key y =? key x) l = Some x.
Proof.
  induction l as [|y l IH]; cbn; [by intros _ ?%not_elem_of_nil|].
  rewrite NoDup_cons. intros [Hy Hnd] Hx. apply elem_of_cons in Hx as [-> | Hx]; [by rewrite Z.eqb_refl|].
  destruct (Z.eqb_spec (key y) (key x)) as [Heq|]; [|by apply IH].
  destruct Hy. rewrite Heq. by apply (list_elem_of_fmap_2 key).
Qed.

Section exact.
Context {W : Type} (I : W → Prop) (n : Node W) (w : W) (ctx : ReadCtx).

(** Endpoint and cluster ids are distinct. *)
Definition distinct : Prop :=
  NoDup (map fst (endpoints n)) ∧ Forall (λ p : Z * list (ClusterHandler W), NoDup (map cluster_id p.2)) (endpoints n).

(** Attribute [a] of cluster [h] at endpoint [ep] is one the path selects. *)
Definition selects (path : AttrPathIn) (ep : Z) (cs : list (ClusterHandler W)) (h : ClusterHandler W)
    (a : Z) : Prop :=
  let '(endpoint, cluster, attribute) := path in
  (ep, cs) ∈ endpoints n ∧ h ∈ cs ∧ opt_matches endpoint ep = true ∧
  opt_matches cluster (cluster_id h) = true ∧
  match attribute with Some x => x = a | None => a ∈ attributes h end.

Definition at_ep (ep : Z) (cs : list (ClusterHandler W)) : ExpandCtx :=
  {| ex_endpoint := ep; ex_clusters := cs; ex_ctx := ctx |}.

(** The entries a path calls for: a value for every selected attribute the
    caller may read, and a status where the path names something concretely
    that is not there or not allowed. *)
Inductive answers : AttrPathIn → ReportEntryOut → Prop :=
  | ans_data path ep cs h a v :
      selects path ep cs h a → read_allowed n w (at_ep ep cs) h a = true →
      read_attribute_value n w (at_ep ep cs) h a = Ok (Some v) →
      answers path (data_entry n (at_ep ep cs) h a v)
  | ans_no_endpoint ep cluster attribute :
      ep ∉ map fst (endpoints n) →
      answers (Some ep, cluster, attribute)
        (REStatus ep (default 0 cluster) (default 0 attribute) STATUS_UNSUPPORTED_ENDPOINT)
  | ans_no_cluster ep cs cl attribute :
      (ep, cs) ∈ endpoints n → cl ∉ map cluster_id cs →
      answers (Some ep, Some cl, attribute)
        (REStatus ep cl (default 0 attribute) STATUS_UNSUPPORTED_CLUSTER)
  | ans_denied ep cs h a :
      (ep, cs) ∈ endpoints n → h ∈ cs → read_allowed n w (at_ep ep cs) h a = false →
      answers (Some ep, Some (cluster_id h), Some a)
        (REStatus ep (cluster_id h) a STATUS_UNSUPPORTED_ACCESS)
  | ans_no_attribute ep cs h a :
      (ep, cs) ∈ endpoints n → h ∈ cs → read_allowed n w (at_ep ep cs) h a = true →
      read_attribute_value n w (at_ep ep cs) h a = Ok None →
      answers (Some ep, Some (cluster_id h), Some a)
        (REStatus ep (cluster_id h) a STATUS_UNSUPPORTED_ATTRIBUTE).

Lemma clusters_at_iff ep cs : distinct → clusters_at n ep = Some cs ↔ (ep, cs) ∈ endpoints n.
Proof.
  intros [Hd _]. split; [apply clusters_at_in|]. intros Hin. unfold clusters_at.
  by rewrite (find_unique fst _ (ep, cs)).
Qed.

Lemma clusters_at_none ep : clusters_at n ep = None ↔ ep ∉ map fst (endpoints n).
Proof.
  unfold clusters_at. split.
  - intros Hf Hin. apply list_elem_of_fmap in Hin as ([ep' cs] & -> & Hin).
    destruct (List.find _ _) eqn:Hfind; [done|].
    apply list_elem_of_In in Hin. apply (List.find_none _ _ Hfind) in Hin. cbn in Hin. lia.
  - intros Hni. destruct (List.find _ _) as [ [ep' cs] |] eqn:Hfind; [|done].
    apply find_some_in in Hfind as [Hin Heq]. cbn in Heq. destruct Hni. apply list_elem_of_fmap.
    exists (ep', cs). split; [cbn; lia|done].
Qed.

Lemma find_cluster_iff ep cs h : distinct → (ep, cs) ∈ endpoints n → h ∈ cs →
  find_cluster (cluster_id h) cs = Some h.
Proof.
  intros [_ Hd] Hin Hh. rewrite Forall_forall in Hd. apply find_unique; [by apply (Hd _ Hin)|done].
Qed.

Lemma find_cluster_none cl (cs : list (ClusterHandler W)) :
  find_cluster cl cs = None ↔ cl ∉ map cluster_id cs.
Proof.
  split.
  - intros Hf Hin. apply list_elem_of_fmap in Hin as (h & -> & Hin).
    apply list_elem_of_In in Hin. apply (List.find_none _ _ Hf) in Hin. cbn in Hin. lia.
  - intros Hni. destruct (find_cluster cl cs) as [h|] eqn:Hf; [|done]. destruct Hni.
    apply find_cluster_in in Hf as [Hin <-]. by apply (list_elem_of_fmap_2 cluster_id).
Qed.

(** The entries of one cluster. *)
Definition cluster_answers (x : ExpandCtx) (h : ClusterHandler W) (attribute : option Z) (conc : bool)
    (e : ReportEntryOut) : Prop :=
  (∃ a v, match attribute with Some y => y = a | None => a ∈ attributes h end ∧
     read_allowed n w x h a = true ∧ read_attribute_value n w x h a = Ok (Some v) ∧
     e = data_entry n x h a v) ∨
  (conc = true ∧ ∃ a, attribute = Some a ∧
     ((read_allowed n w x h a = false ∧
       e = REStatus (ex_endpoint x) (cluster_id h) a STATUS_UNSUPPORTED_ACCESS) ∨
      (read_allowed n w x h a = true ∧ read_attribute_value n w x h a = Ok None ∧
       e = REStatus (ex_endpoint x) (cluster_id h) a STATUS_UNSUPPORTED_ATTRIBUTE))).

Lemma elem_of_one {A} (e x : A) : e ∈ [x] ↔ e = x.
Proof. apply list_elem_of_singleton. Qed.

Lemma expand_attribute_iff x h attribute conc out e :
  expand_attribute n w x h attribute conc = Ok out →
  e ∈ out ↔ cluster_answers x h attribute conc e.
Proof.
  unfold cluster_answers. destruct attribute as [a|]; cbn [expand_attribute].
  - destruct (read_allowed n w x h a) eqn:Hr; cbn [negb].
    + destruct (read_attribute_value n w x h a) as [ [v|] | | |] eqn:Hv; try done; cbn [res_bind].
      * intros [= <-]. rewrite elem_of_one. naive_solver congruence.
      * destruct conc; intros [= <-]; rewrite ?elem_of_one; [naive_solver congruence|].
        split; [by intros ?%not_elem_of_nil|]. naive_solver congruence.
    + destruct conc; intros [= <-]; rewrite ?elem_of_one; [naive_solver congruence|].
      split; [by intros ?%not_elem_of_nil|]. naive_solver congruence.
  - intros Hc. rewrite (elem_of_collect _ _ _ _ Hc). split.
    + intros (a & ys & Ha & Hone & He). left. unfold expand_one in Hone.
      destruct (read_allowed n w x h a) eqn:Hr; cbn [negb] in Hone.
      2: { injection Hone as <-. by apply not_elem_of_nil in He. }
      destruct (read_attribute_value n w x h a) as [ [v|] | | |] eqn:Hv; try done; injection Hone as <-.
      * apply elem_of_one in He as ->. eauto 7.
      * by apply not_elem_of_nil in He.
    + intros [(a & v & Ha & Hr & Hv & ->) | (_ & a & ? & _)]; [|done].
      exists a, [data_entry n x h a v]. split_and!; [done| |by apply elem_of_one].
      unfold expand_one. by rewrite Hr, Hv.
Qed.

Lemma expand_cluster_iff ep cs cluster attribute conc out e :
  distinct → (ep, cs) ∈ endpoints n →
  expand_cluster n w (at_ep ep cs) cluster attribute conc = Ok out →
  e ∈ out ↔
    (∃ h, h ∈ cs ∧ opt_matches cluster (cluster_id h) = true ∧
       cluster_answers (at_ep ep cs) h attribute (conc && bool_decide (is_Some cluster)) e) ∨
    (conc = true ∧ ∃ cl, cluster = Some cl ∧ cl ∉ map cluster_id cs ∧
       e = REStatus ep cl (default 0 attribute) STATUS_UNSUPPORTED_CLUSTER).
Proof.
  intros Hd Hin. destruct cluster as [cl|]; cbn [expand_cluster opt_matches].
  - cbn [at_ep ex_clusters]. rewrite bool_decide_true, andb_true_r by eauto.
    destruct (find_cluster cl cs) as [h|] eqn:Hf.
    + intros Hx. rewrite (expand_attribute_iff _ _ _ _ _ _ Hx).
      apply find_cluster_in in Hf as [Hh Hcl]. split.
      * intros He. left. exists h. split_and!; [done|lia|done].
      * intros [(h' & Hh' & Hm & He) | (_ & cl' & [= <-] & Hni & _)].
        -- assert (cluster_id h' = cluster_id h) as Heq by lia.
           pose proof (find_cluster_iff _ _ h' Hd Hin Hh') as H1.
           rewrite Heq, (find_cluster_iff _ _ h Hd Hin Hh) in H1. by injection H1 as ->.
        -- destruct Hni. rewrite <- Hcl. by apply (list_elem_of_fmap_2 cluster_id).
    + apply find_cluster_none in Hf as Hni. intros Hx. split.
      * intros He. right. destruct conc; injection Hx as <-; [|by apply not_elem_of_nil in He].
        apply elem_of_one in He as ->. split; [done|]. by exists cl.
      * intros [(h & Hh & Hm & _) | (-> & cl' & [= <-] & _ & ->)].
        -- destruct Hni. apply Z.eqb_eq in Hm as ->. by apply (list_elem_of_fmap_2 cluster_id).
        -- injection Hx as <-. by apply elem_of_one.
  - intros Hx. rewrite (elem_of_collect _ _ _ _ Hx). rewrite bool_decide_false, andb_false_r by by intros [].
    split.
    + intros (h & ys & Hh & Hy & He). left. exists h. rewrite (expand_attribute_iff _ _ _ _ _ _ Hy) in He. done.
    + intros [(h & Hh & _ & He) | (_ & cl & ? & _)]; [|done].
      destruct (collect_total _ _ _ h Hx Hh) as [ys Hy]. exists h, ys.
      rewrite (expand_attribute_iff _ _ _ _ _ _ Hy). done.
Qed.

Lemma answers_cluster ep cs endpoint cluster attribute h e :
  (ep, cs) ∈ endpoints n → h ∈ cs → opt_matches endpoint ep = true →
  opt_matches cluster (cluster_id h) = true →
  cluster_answers (at_ep ep cs) h attribute (bool_decide (is_Some endpoint) && bool_decide (is_Some cluster)) e →
  answers (endpoint, cluster, attribute) e.
Proof.
  intros Hin Hh He Hc [(a & v & Ha & Hr & Hv & ->) | (Hconc & a & -> & Hst)].
  - by eapply ans_data.
  - destruct endpoint as [ep'|], cluster as [cl|]; try done. cbn in He, Hc.
    apply Z.eqb_eq in He as ->. apply Z.eqb_eq in Hc as ->.
    destruct Hst as [ [Hr ->] | (Hr & Hv & ->)]; [by eapply ans_denied|by eapply ans_no_attribute].
Qed.

Lemma answers_inv path e : distinct → answers path e →
  let '(endpoint, cluster, attribute) := path in
  (∃ ep cs h, (ep, cs) ∈ endpoints n ∧ h ∈ cs ∧ opt_matches endpoint ep = true ∧
     opt_matches cluster (cluster_id h) = true ∧
     cluster_answers (at_ep ep cs) h attribute
       (bool_decide (is_Some endpoint) && bool_decide (is_Some cluster)) e) ∨
  (∃ ep, endpoint = Some ep ∧
     ((ep ∉ map fst (endpoints n) ∧
       e = REStatus ep (default 0 cluster) (default 0 attribute) STATUS_UNSUPPORTED_ENDPOINT) ∨
      (∃ cs cl, (ep, cs) ∈ endpoints n ∧ cluster = Some cl ∧ cl ∉ map cluster_id cs ∧
       e = REStatus ep cl (default 0 attribute) STATUS_UNSUPPORTED_CLUSTER))).
Proof.
  intros Hd. destruct 1 as [ [ [endpoint cluster] attribute] ep cs h a v Hsel Hr Hv | | |
                             ep cs h a Hin Hh Hr|ep cs h a Hin Hh Hr Hv].
  - destruct Hsel as (Hin & Hh & He & Hc & Ha). left. exists ep, cs, h. split_and!; try done.
    left. by exists a, v.
  - right. eauto.
  - right. eauto 10.
  - left. exists ep, cs, h. cbn [opt_matches]. rewrite !Z.eqb_refl. split_and!; try done.
    right. split; [done|]. exists a. auto.
  - left. exists ep, cs, h. cbn [opt_matches]. rewrite !Z.eqb_refl. split_and!; try done.
    right. split; [done|]. exists a. auto.
Qed.

Lemma expand_endpoint_iff path out e :
  distinct → expand_endpoint n w ctx path = Ok out → e ∈ out ↔ answers path e.
Proof.
  intros Hd. destruct path as [ [endpoint cluster] attribute]. unfold expand_endpoint. intros Hx.
  assert (Hdir : answers (endpoint, cluster, attribute) e → e ∈ out).
  { intros Ha. apply answers_inv in Ha; [|done].
    destruct endpoint as [ep|].
    - destruct (clusters_at n ep) as [cs|] eqn:Hcs.
      + apply clusters_at_iff in Hcs as Hin; [|done]. rewrite (expand_cluster_iff _ _ _ _ _ _ _ Hd Hin Hx).
        destruct Ha as [(ep' & cs' & h & Hin' & Hh & He & Hc & Ha) | (ep' & [= <-] & Ha)].
        * cbn in He. apply Z.eqb_eq in He as <-. apply (clusters_at_iff _ _ Hd) in Hin'.
          rewrite Hcs in Hin'. injection Hin' as <-. left. by exists h.
        * destruct Ha as [ [Hni _] | (cs' & cl & Hin' & -> & Hni & ->)].
          -- destruct Hni. by apply (list_elem_of_fmap_2 fst) in Hin.
          -- apply (clusters_at_iff _ _ Hd) in Hin'. rewrite Hcs in Hin'. injection Hin' as <-. eauto 6.
      + injection Hx as <-. apply elem_of_one. apply clusters_at_none in Hcs.
        destruct Ha as [(ep' & cs' & h & Hin' & Hh & He & _) | (ep' & [= <-] & Ha)].
        * cbn in He. apply Z.eqb_eq in He as <-. destruct Hcs. by apply (list_elem_of_fmap_2 fst) in Hin'.
        * destruct Ha as [ [_ ->] | (cs' & cl & Hin' & _)]; [done|].
          destruct Hcs. by apply (list_elem_of_fmap_2 fst) in Hin'.
    - destruct Ha as [(ep & cs & h & Hin & Hh & _ & Hc & Ha) | (? & ? & _)]; [|done].
      apply (elem_of_collect _ _ _ _ Hx). destruct (collect_total _ _ _ _ Hx Hin) as [ys Hy].
      exists (ep, cs), ys. split_and!; [done|done|].
      apply (expand_cluster_iff _ _ _ _ _ _ _ Hd Hin Hy). left. by exists h. }
  split; [|exact Hdir]. intros He. destruct endpoint as [ep|].
  - destruct (clusters_at n ep) as [cs|] eqn:Hcs.
    + apply clusters_at_iff in Hcs as Hin; [|done].
      apply (expand_cluster_iff _ _ _ _ _ _ _ Hd Hin Hx) in He.
      destruct He as [(h & Hh & Hc & He) | (_ & cl & -> & Hni & ->)]; [|by eapply ans_no_cluster].
      eapply (answers_cluster ep cs); try done. cbn. lia.
    + injection Hx as <-. apply elem_of_one in He as ->. by apply ans_no_endpoint, clusters_at_none.
  - apply (elem_of_collect _ _ _ _ Hx) in He as ([ep cs] & ys & Hin & Hy & He).
    apply (expand_cluster_iff _ _ _ _ _ _ _ Hd Hin Hy) in He.
    destruct He as [(h & Hh & Hc & He) | (? & _)]; [|done]. by eapply (answers_cluster ep cs).
Qed.

(** C8. A read reports exactly what its paths call for: on a node whose ids are
    distinct every entry is the permitted value of an attribute some path
    selects, with the data version of its cluster, or the status of a concretely
    named endpoint, cluster or attribute that is absent or refused - and every
    such value and status is reported. *)
Theorem read_entries_exact paths :
  node_ok I n → I w → values_fit n w ctx → distinct → Forall ids_in paths →
  ∃ out, read_entries n w paths ctx = Ok out ∧
    ∀ e, e ∈ out ↔ ∃ path, path ∈ paths ∧ answers path e.
Proof.
  intros Hn Hw Hfit Hd Hp. destruct (read_entries_ok I n w paths ctx Hn Hw Hfit Hp) as (out & Hout & _).
  exists out. split; [done|]. intros e. rewrite (elem_of_collect _ _ _ _ Hout). split.
  - intros (path & ys & Hin & Hy & He). exists path. split; [done|]. by apply (expand_endpoint_iff _ _ _ Hd Hy).
  - intros (path & Hin & Ha). destruct (collect_total _ _ _ _ Hout Hin) as [ys Hy].
    exists path, ys. split_and!; [done|done|]. by apply (expand_endpoint_iff _ _ _ Hd Hy).
Qed.
End exact.

(** ** Chunks *)

Section chunks.
Context (budget : Z) (sub : option Z).

(** The size a batch is probed at. *)
Definition probes (b : list ReportEntryOut) (len : Z) : Prop :=
  ∃ q, encode_report_data_entries b false sub true = Ok q ∧ zlen q = len.

Definition fits (b : list ReportEntryOut) : Prop :=
  (1 < length b)%nat → ∃ len, probes b len ∧ len ≤ budget.

(** No batch could have taken the first entry of the next one. *)
Definition greedy (bs : list (list ReportEntryOut)) : Prop :=
  ∀ i b e b', bs !! i = Some b → bs !! S i = Some (e :: b') → ∃ len, probes (b ++ [e]) len ∧ budget < len.

Lemma greedy_cons b bs :
  (∀ e b', head bs = Some (e :: b') → ∃ len, probes (b ++ [e]) len ∧ budget < len) → greedy bs →
  greedy (b :: bs).
Proof.
  intros Hb Hbs [|i] b0 e b' H1 H2; cbn in H1, H2; [|by eapply Hbs].
  injection H1 as <-. apply (Hb e b'). by destruct bs.
Qed.

Lemma batch_loop_spec entries current batches bs :
  batch_loop budget sub entries current batches = Ok bs → fits current →
  ∃ rest, bs = batches ++ rest ∧ concat rest = current ++ entries ∧ rest ≠ [] ∧
    Forall fits rest ∧ greedy rest ∧ (current ≠ [] → ∃ tl, head rest = Some (current ++ tl)) ∧
    (Forall (λ b, b ≠ []) rest ∨ rest = [ [] ]).
Proof.
  revert current batches. induction entries as [|e es IH]; intros current batches; cbn [batch_loop].
  { intros [= <-] Hf. exists [current]. split_and!.
    - done.
    - cbn. by rewrite !app_nil_r.
    - done.
    - by apply Forall_singleton.
    - intros [|i] ? ? ?; cbn; [done|]. by destruct i.
    - intros _. exists []. by rewrite app_nil_r.
    - destruct current; [by right|]. left. by apply Forall_singleton. }
  destruct (encode_report_data_entries (current ++ [e]) false sub true) as [q| | |] eqn:Hq; try done.
  cbn [res_bind]. destruct (Z.ltb_spec budget (zlen q)) as [Hlt|Hle].
  - destruct (bool_decide_reflect (current = [])) as [->|Hne]; cbn [negb andb]; intros Hb Hf.
    + apply IH in Hb as (rest & -> & Hc & Hne & Hfs & Hg & Hh & Hn); [|intros Hl; cbn in Hl; lia].
      exists rest. split_and!; try done.
    + apply IH in Hb as (rest & -> & Hc & Hne' & Hfs & Hg & Hh & Hn); [|intros Hl; cbn in Hl; lia].
      destruct (Hh ltac:(done)) as [tl Htl].
      exists (current :: rest). split_and!.
      * by rewrite <- app_assoc.
      * by rewrite concat_cons, Hc.
      * done.
      * by constructor.
      * apply greedy_cons; [|done]. intros e' b' He'. rewrite Htl in He'. injection He' as <- _.
        exists (zlen q). split; [by exists q|done].
      * intros _. exists []. by rewrite app_nil_r.
      * left. constructor; [done|]. destruct Hn as [|Hn]; [done|]. by rewrite Hn in Htl.
  - cbn [andb]. intros Hb Hf.
    apply IH in Hb as (rest & -> & Hc & Hne & Hfs & Hg & Hh & Hn).
    2: { intros _. exists (zlen q). split; [by exists q|done]. }
    exists rest. split_and!; try done.
    + by rewrite Hc, <- app_assoc.
    + intros _. destruct (Hh ltac:(by destruct current)) as [tl ->]. exists (e :: tl).
      by rewrite <- app_assoc.
Qed.

(** The decoded form of an entry. *)
Definition carried (e : ReportEntryOut) (ib : ReportIb _) : Prop := ∃ t, attr_entry data_to_im e t ib.

Lemma entries_carried es ts ibs : Forall3 (attr_entry data_to_im) es ts ibs → Forall2 carried es ibs.
Proof. induction 1; constructor; [by eexists|done]. Qed.

(** What a batch is encoded as: no longer than it was probed, and read back as
    its entries. *)
Lemma chunk_encoded b suppress more : Forall entry_ok b → from_option (in_u 32) True sub →
  ∃ p, encode_report_data_entries b suppress sub more = Ok p ∧
    (∀ len, probes b len → zlen p ≤ len) ∧
    (small p → ∃ ibs, Forall2 carried b ibs ∧
       decode_report_data_with data_to_im p =
         Ok {| rd_reports := ibs; rd_subscription := sub; rd_more := more; rd_suppress := suppress |}).
Proof.
  intros Hb Hs. destruct (entries_trees _ Hb) as (ts & ibs & Ht).
  eexists. split_and!; [eapply report_data_eq; [exact Ht|constructor]| |].
  - intros len (q & Hq & <-).
    assert (Hq' := report_data_eq data_to_im b [] ts ibs [] [] false sub true Ht (Forall3_nil _)).
    unfold encode_report_data_entries in Hq. rewrite Hq' in Hq. injection Hq as <-.
    unfold report_tree.
    assert (Htr : zlen (concat (map enc_tree (trailer_tree suppress more))) ≤
                  zlen (concat (map enc_tree (trailer_tree false true)))) by by destruct suppress, more.
    revert Htr. generalize (trailer_tree suppress more) (trailer_tree false true). intros T1 T2 Htr.
    cbn [enc_tree]. rewrite !map_app, !concat_app. clear -Htr.
    change (enc_elem Anonymous (start_of KStruct)) with [0x15]. zl.
  - intros Hsm. exists ibs. split; [by eapply entries_carried|].
    assert (Hwf : Forall wf_tree (report_tree ts [] suppress sub more)).
    { apply wf_report; [by eapply attr_entries_wf|constructor|done]. }
    apply run_message; [exact Hwf|exact Hsm|]. apply walk_at; [exact Hwf|].
    eapply walks_report_data; [exact Ht|constructor|exact Hs].
Qed.

Lemma encode_chunks_nth trailer bs ps i p :
  encode_chunks sub trailer bs = Ok ps → ps !! i = Some p →
  ∃ b, bs !! i = Some b ∧ encode_chunk sub trailer (bool_decide (S i = length ps)) b = Ok p.
Proof.
  revert ps i. induction bs as [|b bs IH]; intros ps i; cbn [encode_chunks]; [by intros [= <-]|].
  destruct (encode_chunk _ _ _ b) as [q| | |] eqn:Hq; try done. cbn [res_bind].
  destruct (encode_chunks sub trailer bs) as [qs| | |] eqn:Hqs; try done. cbn [res_bind].
  intros [= <-]. assert (Hlen : length qs = length bs).
  { clear -Hqs. revert qs Hqs. induction bs as [|b bs IH]; cbn; intros qs; [by intros [= <-]|].
    destruct (encode_chunk _ _ _ b); try done. cbn. destruct (encode_chunks sub trailer bs); try done. cbn.
    intros [= <-]. cbn. by rewrite (IH _ eq_refl). }
  destruct i as [|i]; cbn [lookup list_lookup].
  - intros [= <-]. exists b. split; [done|]. rewrite <- Hq. f_equal. apply bool_decide_ext.
    cbn [length]. rewrite Hlen. destruct bs; cbn; split; try done; lia.
  - intros Hi. destruct (IH _ _ eq_refl Hi) as (b' & Hb' & Hp). exists b'. split; [done|]. rewrite <- Hp.
    f_equal. apply bool_decide_ext. cbn [length]. lia.
Qed.
End chunks.

Section deliver.
Context {W : Type} (I : W → Prop) (n : Node W) (w : W) (ctx : ReadCtx).

(** How a report is cut into chunks, and what each chunk decodes to. *)
Lemma chunks_arrive paths budget sub trailer :
  node_ok I n → I w → values_fit n w ctx → Forall ids_in paths → from_option (in_u 32) True sub →
  ∃ entries batches ps,
    read_entries n w paths ctx = Ok entries ∧ concat batches = entries ∧
    read_chunks n w paths ctx budget sub trailer = Ok ps ∧ ps ≠ [] ∧ length ps = length batches ∧
    greedy budget sub batches ∧ (Forall (λ b, b ≠ []) batches ∨ batches = [ [] ]) ∧
    ∀ i p, ps !! i = Some p → ∃ b, batches !! i = Some b ∧
      ((1 < length b)%nat → zlen p ≤ budget) ∧
      (small p → ∃ ibs, Forall2 carried b ibs ∧
         decode_report_data_with data_to_im p =
           Ok {| rd_reports := ibs; rd_subscription := sub;
                 rd_more := bool_decide (S i ≠ length ps) || trailer;
                 rd_suppress := bool_decide (S i = length ps) && bool_decide (sub = None) && negb trailer |}).
Proof.
  intros Hn Hw Hfit Hp Hs.
  destruct (read_entries_ok I n w paths ctx Hn Hw Hfit Hp) as (es & Hes & Hok).
  destruct (batch_loop_ok budget sub es [] [] Hs Hok) as (bs & Hbs & Hbok & _); [done|done|].
  destruct (encode_chunks_ok sub trailer bs Hs Hbok) as (ps & Hps & _ & Hlen).
  destruct (batch_loop_spec _ _ _ _ _ _ Hbs) as (rest & -> & Hc & Hne & Hf & Hg & _ & Hn0);
    [intros Hl; cbn in Hl; lia|].
  exists es, rest, ps. split_and!; try done.
  - unfold read_chunks. rewrite Hes. cbn [res_bind]. by rewrite Hbs.
  - by destruct ps, rest.
  - intros i p Hi. destruct (encode_chunks_nth _ _ _ _ _ _ Hps Hi) as (b & Hb & Hp').
    exists b. split; [done|]. unfold encode_chunk in Hp'.
    pose proof (proj1 (Forall_lookup _ _) Hbok _ _ Hb) as Hbo.
    pose proof (proj1 (Forall_lookup _ _) Hf _ _ Hb) as Hbf.
    destruct (chunk_encoded sub b
      (bool_decide (S i = length ps) && negb (bool_decide (is_Some sub)) && negb trailer)
      (negb (bool_decide (S i = length ps)) || trailer) Hbo Hs) as (p' & Hp2 & Hsz & Hdec).
    rewrite Hp' in Hp2. injection Hp2 as <-. split.
    + intros Hl. destruct (Hbf Hl) as (len & Hpr & Hle). specialize (Hsz _ Hpr). lia.
    + intros Hsm. destruct (Hdec Hsm) as (ibs & Hibs & ->). exists ibs. split; [done|].
      do 2 f_equal; [by rewrite bool_decide_not|]. do 2 f_equal. by destruct sub.
Qed.

(** A report reaches the reader whole, whatever the budget: the chunks of a
    read partition its entries in order, and the controller decodes each chunk
    to its entries' paths and values with the more-chunks flag on every chunk
    that is followed by another; only the last chunk of a plain read suppresses
    the response.  A chunk of several entries is within the budget, none but the
    only chunk of an empty report is empty, and a chunk is closed only because
    the next entry would not have fitted. *)
Theorem read_chunks_deliver paths budget sub trailer :
  node_ok I n → I w → values_fit n w ctx → Forall ids_in paths → from_option (in_u 32) True sub →
  ∃ entries batches ps,
    read_entries n w paths ctx = Ok entries ∧ concat batches = entries ∧
    read_chunks n w paths ctx budget sub trailer = Ok ps ∧ ps ≠ [] ∧ length ps = length batches ∧
    greedy budget sub batches ∧ (Forall (λ b, b ≠ []) batches ∨ batches = [ [] ]) ∧
    ∀ i p, ps !! i = Some p → ∃ b, batches !! i = Some b ∧
      ((1 < length b)%nat → zlen p ≤ budget) ∧
      (small p → ∃ ibs, Forall2 carried b ibs ∧
         decode_report_data_with data_to_im p =
           Ok {| rd_reports := ibs; rd_subscription := sub;
                 rd_more := bool_decide (S i ≠ length ps) || trailer;
                 rd_suppress := bool_decide (S i = length ps) && bool_decide (sub = None) && negb trailer |}).
Proof. apply chunks_arrive. Qed.
End deliver.

Lemma guarded_distinct : distinct guarded_light.
Proof. split; [|apply Forall_singleton]; by apply (bool_decide_unpack _). Qed.

(** The OnOff attribute, everything, and an endpoint that is not there. *)
Definition three_paths : list AttrPathIn :=
  [(Some 1, Some CLUSTER_ON_OFF, Some ATTR_ON_OFF); (None, None, None); (Some 2, None, None)].

Lemma three_paths_ok : Forall ids_in three_paths.
Proof. unfold three_paths. rewrite !Forall_cons. by split_and!. Qed.

(** Node 5 may read, node 6 may not. *)
Lemma read_entries_exact_witness :
  (∃ out, read_entries guarded_light (true, false) three_paths (read_ctx_for 1 (Subject_node 5)) = Ok out ∧
     ∀ e, e ∈ out ↔ ∃ path, path ∈ three_paths ∧
       answers guarded_light (true, false) (read_ctx_for 1 (Subject_node 5)) path e) ∧
  read_entries guarded_light (true, false) three_paths (read_ctx_for 1 (Subject_node 5)) =
    Ok [REData {| ar_endpoint := 1; ar_cluster := 6; ar_attribute := 0; ar_data_version := 1; ar_value := [9] |};
        REData {| ar_endpoint := 1; ar_cluster := 6; ar_attribute := 0; ar_data_version := 1; ar_value := [9] |};
        REData {| ar_endpoint := 1; ar_cluster := 69; ar_attribute := 0; ar_data_version := 1; ar_value := [8] |};
        REStatus 2 0 0 STATUS_UNSUPPORTED_ENDPOINT] ∧
  read_entries guarded_light (true, false) three_paths (read_ctx_for 1 (Subject_node 6)) =
    Ok [REStatus 1 6 0 STATUS_UNSUPPORTED_ACCESS; REStatus 2 0 0 STATUS_UNSUPPORTED_ENDPOINT].
Proof.
  split_and!; [|by vm_compute|by vm_compute].
  apply (read_entries_exact any_world guarded_light (true, false) (read_ctx_for 1 (Subject_node 5)) three_paths
           guarded_light_ok Logic.I (guarded_values_fit _ _) guarded_distinct).
  exact three_paths_ok.
Defined.

(** With a budget of 60 bytes the four entries go out in several chunks. *)
Lemma read_chunks_deliver_witness :
  (∃ entries batches ps,
     read_entries guarded_light (true, false) three_paths (read_ctx_for 1 (Subject_node 5)) = Ok entries ∧
     concat batches = entries ∧
     read_chunks guarded_light (true, false) three_paths (read_ctx_for 1 (Subject_node 5)) 60 None false = Ok ps ∧
     length ps = length batches) ∧
  (let? ps := read_chunks guarded_light (true, false) three_paths (read_ctx_for 1 (Subject_node 5)) 60 None false
   in Ok (map zlen ps)) = Ok [56; 55].
Proof.
  split; [|vm_compute].
  - edestruct (read_chunks_deliver any_world guarded_light (true, false) (read_ctx_for 1 (Subject_node 5))
                 three_paths 60 None false guarded_light_ok Logic.I (guarded_values_fit _ _))
      as (es & bs & ps & Hes & Hbs & Hps & _ & Hlen & _); [|done|].
    + exact three_paths_ok.
    + by exists es, bs, ps.
  - done.
Defined.
