(* ===== verification/NodeEvents.v ===== *)
(** * Which events a node reports

    [event_entries] of [DataModel] against a declarative account: the stored
    events some path matches and the caller may see, once each, in number
    order; together with what the log holds after a run of appends. *)

From Stdlib Require Import Sorted.
From stdpp Require Import gmap.
From S2P Require Import Prelude Tlv TlvValue Handler Im Report AccessControl Events DataModel Clusters NodeSafety NodeAccess NodeRead.

(** ** The sort *)

Lemma insert_by_Permutation {A} (key : A → Z) x l : insert_by key x l ≡ₚ x :: l.
Proof.
  induction l as [|y l IH]; cbn; [done|]. case_match; [done|]. rewrite IH. apply Permutation_swap.
Qed.

Lemma sort_by_Permutation {A} (key : A → Z) l : sort_by key l ≡ₚ l.
Proof.
  induction l as [|x l IH]; [done|]. unfold sort_by. cbn [foldr]. rewrite insert_by_Permutation.
  by constructor.
Qed.

Definition sorted_by {A} (key : A → Z) : list A → Prop := StronglySorted (λ x y, key x ≤ key y).

Lemma insert_by_sorted {A} (key : A → Z) x l : sorted_by key l → sorted_by key (insert_by key x l).
Proof.
  induction 1 as [|y l Hl IH Hy]; cbn; [by repeat constructor|].
  destruct (Z.leb_spec (key x) (key y)).
  - constructor; [by constructor|]. constructor; [done|]. eapply Forall_impl; [exact Hy|]. cbn. lia.
  - constructor; [done|]. rewrite insert_by_Permutation. constructor; [lia|done].
Qed.

Lemma sort_by_sorted {A} (key : A → Z) l : sorted_by key (sort_by key l).
Proof. induction l as [|x l IH]; [constructor|]. by apply insert_by_sorted. Qed.

(** The event numbers reported. *)
Definition number_of (e : EventEntryOut) : option Z :=
  match e with EEData d => Some (ev_number d) | EEStatus _ _ _ _ => None end.

Definition numbers (out : list EventEntryOut) : list Z := omap number_of out.

Lemma numbers_ascending out : sorted_by event_key out → NoDup (numbers out) → ascending (numbers out).
Proof.
  unfold numbers. induction 1 as [|x l Hl IH Hx]; cbn; [constructor|].
  destruct x as [d|ep cl ev st]; cbn; [|done]. rewrite NoDup_cons. intros [Hd Hnd].
  constructor; [by apply IH|]. apply Forall_forall. intros k Hk.
  assert (k ≠ ev_number d) by by intros ->.
  apply list_elem_of_omap in Hk as (y & Hy & Hny). destruct y as [d'|]; [|done]. injection Hny as <-.
  rewrite Forall_forall in Hx. specialize (Hx _ Hy). cbn in Hx. lia.
Qed.

Section events.
Context {W : Type} (n : Node W) (w : W) (ctx : ReadCtx) (event_min : Z).

(** The path asks for the event, which the node still serves and the caller may see. *)
Definition wanted (path : EventPathIn) (e : StoredEvent) : Prop :=
  e ∈ el_entries (event_log n) ∧ event_min ≤ se_number e ∧ event_path_matches path e = true ∧
  event_visible n w ctx e = true.

(** What a concretely named event that the node does not have is answered. *)
Definition path_refusal (path : EventPathIn) : option EventEntryOut :=
  match ep_path path with
  | (Some ep, Some cl, Some ev) =>
      match concrete_event_path_status n ep cl ev with
      | Some st => Some (EEStatus ep cl ev st)
      | None => None
      end
  | _ => None
  end.

Definition event_answers (path : EventPathIn) (x : EventEntryOut) : Prop :=
  match path_refusal path with
  | Some st => x = st
  | None => ∃ e, wanted path e ∧ x = event_out e
  end.

Lemma elem_of_since e : e ∈ since event_min (event_log n) ↔ e ∈ el_entries (event_log n) ∧ event_min ≤ se_number e.
Proof. unfold since. rewrite !list_elem_of_In, List.filter_In, Z.leb_le. done. Qed.

Lemma event_step_refusal out seen path :
  event_path_step n w ctx event_min (out, seen) path =
  match path_refusal path with
  | Some st => (out ++ [st], seen)
  | None => event_scan n w ctx path (since event_min (event_log n)) out seen
  end.
Proof.
  unfold event_path_step, path_refusal. destruct (ep_path path) as [ [ [ep|] [cl|] ] [ev|] ]; try done.
  by destruct (concrete_event_path_status n ep cl ev).
Qed.

Context (Hlog : log_ok (event_log n)).

Lemma log_number_inj e e' : e ∈ el_entries (event_log n) → e' ∈ el_entries (event_log n) →
  se_number e = se_number e' → e = e'.
Proof.
  destruct Hlog as (_ & _ & Hasc & _). unfold ascending in Hasc. revert Hasc.
  generalize (el_entries (event_log n)). induction l as [|x l IH]; cbn; [by intros _ ?%not_elem_of_nil|].
  inversion 1 as [|? ? Hl Hx]; subst. rewrite !elem_of_cons.
  assert (Hlt : ∀ y, y ∈ l → se_number x < se_number y).
  { intros y Hy. rewrite Forall_forall in Hx. apply Hx. by apply (list_elem_of_fmap_2 se_number). }
  intros [-> | He] [-> | He'] Heq; [done|apply Hlt in He'; lia|apply Hlt in He; lia|by apply IH].
Qed.

(** The accumulator: what was reported comes from the log, each number is
    reported at most once, and [seen] holds the reported numbers. *)
Definition scan_inv (s : list EventEntryOut * list Z) : Prop :=
  let '(out, seen) := s in
  NoDup (numbers out) ∧ (∀ k, k ∈ seen ↔ k ∈ numbers out) ∧
  (∀ x, x ∈ out → is_Some (number_of x) → ∃ e, e ∈ el_entries (event_log n) ∧ x = event_out e).

Lemma numbers_snoc out e : numbers (out ++ [event_out e]) = numbers out ++ [se_number e].
Proof. unfold numbers. by rewrite omap_app. Qed.

Lemma seen_reported out seen e : scan_inv (out, seen) → e ∈ el_entries (event_log n) →
  se_number e ∈ seen → event_out e ∈ out.
Proof.
  intros (_ & Hs & Ho) He Hk. apply Hs in Hk. apply list_elem_of_omap in Hk as (x & Hx & Hn).
  destruct (Ho x Hx) as (e' & He' & ->); [by eexists|].
  injection Hn as Hn. by rewrite (log_number_inj e e').
Qed.

Lemma event_scan_spec path es out seen :
  (∀ e, e ∈ es → e ∈ el_entries (event_log n)) → scan_inv (out, seen) →
  let s := event_scan n w ctx path es out seen in
  scan_inv s ∧
  ∀ x, x ∈ s.1 ↔ x ∈ out ∨
    ∃ e, e ∈ es ∧ event_path_matches path e = true ∧ event_visible n w ctx e = true ∧ x = event_out e.
Proof.
  revert out seen. induction es as [|e es IH]; intros out seen Hes Hinv; cbn [event_scan].
  { split; [done|]. intros x. split; [by left|]. by intros [|(? & ?%not_elem_of_nil & _)]. }
  assert (He : e ∈ el_entries (event_log n)) by by apply Hes, elem_of_cons; left.
  assert (Hes' : ∀ e, e ∈ es → e ∈ el_entries (event_log n)) by by intros; apply Hes, elem_of_cons; right.
  (* An event that adds nothing. *)
  assert (Hskip : (event_path_matches path e = true → event_visible n w ctx e = true → event_out e ∈ out) →
    let s := event_scan n w ctx path es out seen in
    scan_inv s ∧ ∀ x, x ∈ s.1 ↔ x ∈ out ∨
      ∃ e', e' ∈ e :: es ∧ event_path_matches path e' = true ∧ event_visible n w ctx e' = true ∧
        x = event_out e').
  { intros Hin. destruct (IH out seen Hes' Hinv) as [H1 H2]. split; [done|]. intros x. rewrite H2.
    setoid_rewrite elem_of_cons. naive_solver. }
  destruct (existsb (Z.eqb (se_number e)) seen) eqn:Hs; cbn [orb].
  { apply Hskip. intros _ _. apply List.existsb_exists in Hs as (k & Hk & Heq).
    apply (seen_reported _ _ _ Hinv He). rewrite list_elem_of_In. apply Z.eqb_eq in Heq as ->. done. }
  destruct (event_path_matches path e) eqn:Hm; cbn [negb]; [|by apply Hskip].
  destruct (event_visible n w ctx e) eqn:Hv; cbn [negb]; [|by apply Hskip].
  assert (Hns : se_number e ∉ seen).
  { intros Hin. assert (existsb (Z.eqb (se_number e)) seen = true); [|congruence].
    apply List.existsb_exists. exists (se_number e). rewrite <- list_elem_of_In. split; [done|lia]. }
  destruct Hinv as (Hnd & Hsn & Ho).
  destruct (IH (out ++ [event_out e]) (se_number e :: seen) Hes') as [H1 H2].
  { split_and!.
    - rewrite numbers_snoc. apply NoDup_app. split_and!; [done| |apply NoDup_singleton].
      intros k Hk ->%list_elem_of_singleton. by apply Hns, Hsn.
    - intros k. rewrite numbers_snoc, elem_of_app, elem_of_cons, list_elem_of_singleton, Hsn. tauto.
    - intros x [Hx | ->%list_elem_of_singleton]%elem_of_app Hsome; [by apply Ho|by exists e]. }
  split; [done|]. intros x. rewrite H2. rewrite elem_of_app, list_elem_of_singleton.
  setoid_rewrite elem_of_cons. naive_solver.
Qed.

Lemma event_step_spec path s :
  scan_inv s →
  scan_inv (event_path_step n w ctx event_min s path) ∧
  ∀ x, x ∈ (event_path_step n w ctx event_min s path).1 ↔ x ∈ s.1 ∨ event_answers path x.
Proof.
  destruct s as [out seen]. intros Hinv. rewrite event_step_refusal. unfold event_answers.
  destruct (path_refusal path) as [st|] eqn:Hr.
  - assert (Hn : number_of st = None).
    { unfold path_refusal in Hr. repeat case_match; try done. by injection Hr as <-. }
    destruct Hinv as (Hnd & Hs & Ho). cbn [fst]. split.
    + unfold scan_inv, numbers. rewrite omap_app. cbn. rewrite Hn, app_nil_r. split_and!; [done|done|].
      intros x [Hx | ->%list_elem_of_singleton]%elem_of_app Hsome; [by apply Ho|].
      rewrite Hn in Hsome. by destruct Hsome.
    + intros x. by rewrite elem_of_app, list_elem_of_singleton.
  - destruct (event_scan_spec path (since event_min (event_log n)) out seen) as [H1 H2]; [|done|].
    { by intros e [? _]%elem_of_since. }
    split; [done|]. intros x. rewrite H2. cbn [fst]. unfold wanted. setoid_rewrite elem_of_since. naive_solver.
Qed.

Lemma event_paths_spec paths s :
  scan_inv s →
  let r := foldl (event_path_step n w ctx event_min) s paths in
  scan_inv r ∧ ∀ x, x ∈ r.1 ↔ x ∈ s.1 ∨ ∃ path, path ∈ paths ∧ event_answers path x.
Proof.
  revert s. induction paths as [|path paths IH]; intros s Hinv; cbn.
  { split; [done|]. intros x. split; [by left|]. by intros [|(? & ?%not_elem_of_nil & _)]. }
  destruct (event_step_spec path s Hinv) as [H1 H2]. destruct (IH _ H1) as [H3 H4].
  split; [done|]. intros x. rewrite H4, H2. setoid_rewrite elem_of_cons. naive_solver.
Qed.
End events.

Lemma appends_ok l xs : log_ok l → 0 ≤ next_number l → next_number l + zlen xs < 2 ^ 64 →
  log_ok (foldl append_one l xs).
Proof.
  revert l. induction xs as [|x xs IH]; intros l Hl Hn Hlt; [done|]. rewrite zlen_cons in Hlt.
  pose proof (zlen_nonneg xs). cbn [foldl].
  destruct (append_ok (e_endpoint x) (e_cluster x) (e_event x) (e_time x) l Hl) as (Hok & Hnext & _); [lia|].
  unfold append_one at 2. apply IH; [done|lia|lia].
Qed.

(** On a node whose log was filled by any run of appends, the log holds the
    last events of the run up to its capacity, numbered consecutively from the
    first number, and an event read reports exactly what its paths call for:
    every stored event from [event_min] on that some path asks for and the
    caller may see, once, in ascending order of number, and the status of every
    concretely named event that the node does not have. *)
Theorem event_entries_exact {W} (n : Node W) w ctx paths event_min first cap xs :
  1 ≤ cap → 0 ≤ first → first + zlen xs < 2 ^ 64 →
  event_log n = foldl append_one (EventLog_new first cap) xs →
  let out := event_entries n w paths event_min ctx in
  el_entries (event_log n) = last_n cap (number_from first xs) ∧
  (∀ x, x ∈ out ↔ ∃ path, path ∈ paths ∧ event_answers n w ctx event_min path x) ∧
  ascending (numbers out) ∧ sorted_by event_key out.
Proof.
  intros Hc Hf Hlt Hlog. cbv zeta.
  assert (Hok : log_ok (event_log n)).
  { rewrite Hlog. apply appends_ok; [apply EventLog_new_ok|done|done]. }
  destruct (event_paths_spec n w ctx event_min Hok paths ([], [])) as [Hinv Hin].
  { split_and!; [constructor|done|]. by intros x ?%not_elem_of_nil. }
  unfold event_entries. destruct (foldl _ _ paths) as [out seen]. destruct Hinv as (Hnd & _). cbn [fst] in *.
  split_and!.
  - by rewrite Hlog, appends_log_of.
  - intros x. rewrite sort_by_Permutation, Hin. split; [|by right].
    by intros [?%not_elem_of_nil|].
  - apply numbers_ascending; [apply sort_by_sorted|]. unfold numbers. by rewrite sort_by_Permutation.
  - apply sort_by_sorted.
Qed.

(** Three contact changes in a log that keeps two. *)
Definition contact_change (b : Z) : Emission :=
  {| e_endpoint := 1; e_cluster := CLUSTER_BOOLEAN_STATE;
     e_event := {| em_event := EVENT_BS_STATE_CHANGE; em_priority := Info; em_data := Some [21; b; 24] |};
     e_time := 10 |}.

Definition eventful : Node (bool * bool) :=
  set_event_log (foldl append_one (EventLog_new 1 2) [contact_change 1; contact_change 2; contact_change 3])
    guarded_light.

Definition event_path (ep cl ev : option Z) : EventPathIn :=
  {| ep_path := (ep, cl, ev); ep_urgent := false |}.

(** The oldest change is gone; the two kept are reported once although two paths
    ask for them, after the status of the event that does not exist. *)
Lemma event_entries_exact_witness :
  let paths := [event_path (Some 1) None None; event_path (Some 1) (Some 69) (Some 0);
                event_path (Some 1) (Some 69) (Some 7)] in
  let out := event_entries eventful (true, false) paths 0 (read_ctx_for 1 (Subject_node 5)) in
  (el_entries (event_log eventful) =
     last_n 2 (number_from 1 [contact_change 1; contact_change 2; contact_change 3]) ∧
   (∀ x, x ∈ out ↔ ∃ path, path ∈ paths ∧
      event_answers eventful (true, false) (read_ctx_for 1 (Subject_node 5)) 0 path x) ∧
   ascending (numbers out) ∧ sorted_by event_key out) ∧
  numbers out = [2; 3] ∧ length out = 3%nat ∧
  event_entries eventful (true, false) paths 0 (read_ctx_for 1 (Subject_node 6)) =
    [EEStatus 1 69 7 STATUS_UNSUPPORTED_EVENT].
Proof.
  cbv zeta. split; [|by split_and!; vm_compute].
  apply (event_entries_exact eventful (true, false) (read_ctx_for 1 (Subject_node 5)) _ 0 1 2
           [contact_change 1; contact_change 2; contact_change 3]); done.
Defined.
