(* ===== verification/Groups.v ===== *)
(** * Groups: membership, the Groups cluster and group invokes

    Models [crates/mat-device/src/core/group_membership.rs] (the membership
    table every endpoint shares), [groups.rs] (the cluster server over it) and
    [group_invoke.rs] (the decoder of an InvokeRequest sent to a group).

    The table is a component of the world, reached by a lens as in [Clusters];
    the tables handed to the persistence backend are kept as a list. *)

From Stdlib Require Import String.
From stdpp Require Import gmap.
From S2P Require Import Prelude Tlv TlvValue Handler Im AccessControl DataModel Clusters.

(** ** The membership table *)

Definition GROUP_TABLE_CAPACITY : Z := 16.

Record GroupMember := { gm_fabric : Z; gm_group : Z; gm_endpoint : Z }.

#[export] Instance GroupMember_eq_dec : EqDecision GroupMember.
Proof. solve_decision. Defined.

Record GroupMembershipStore := {
  gs_members : list GroupMember;
  gs_saved : option (list (list GroupMember))
}.

Definition GroupMembershipStore_new : GroupMembershipStore := {| gs_members := []; gs_saved := None |}.

(** [with_persist]: [loaded] is what the backend's [load] returned, if it did. *)
Definition GroupMembershipStore_with_persist (loaded : option (list GroupMember)) : GroupMembershipStore :=
  {| gs_members := default [] loaded; gs_saved := Some [] |}.

Definition gs_set (members : list GroupMember) (s : GroupMembershipStore) : GroupMembershipStore :=
  {| gs_members := members; gs_saved := gs_saved s |}.

Definition gs_save (s : GroupMembershipStore) : GroupMembershipStore :=
  {| gs_members := gs_members s; gs_saved := (λ log, log ++ [gs_members s]) <$> gs_saved s |}.

Definition is_member (m : GroupMember) (l : list GroupMember) : bool := bool_decide (m ∈ l).

Definition gs_contains (fabric group endpoint : Z) (s : GroupMembershipStore) : bool :=
  is_member {| gm_fabric := fabric; gm_group := group; gm_endpoint := endpoint |} (gs_members s).

Definition count_for_endpoint (endpoint : Z) (s : GroupMembershipStore) : Z :=
  zlen (List.filter (λ m, gm_endpoint m =? endpoint) (gs_members s)).

Definition gs_add (fabric group endpoint : Z) : M GroupMembershipStore Z () := λ s,
  let member := {| gm_fabric := fabric; gm_group := group; gm_endpoint := endpoint |} in
  if is_member member (gs_members s) then (s, Ok ())
  else if GROUP_TABLE_CAPACITY <=? count_for_endpoint endpoint s then (s, Err STATUS_RESOURCE_EXHAUSTED)
  else (gs_save (gs_set (gs_members s ++ [member]) s), Ok ()).

(** [retain] followed by [save] when it removed something. *)
Definition retain (keep : GroupMember → bool) (s : GroupMembershipStore) : GroupMembershipStore * Z :=
  let kept := List.filter keep (gs_members s) in
  let removed := zlen (gs_members s) - zlen kept in
  ((if removed =? 0 then gs_set kept s else gs_save (gs_set kept s)), removed).

Definition gs_remove (fabric group endpoint : Z) (s : GroupMembershipStore) : GroupMembershipStore * bool :=
  let '(s, removed) := retain (λ m, negb (bool_decide
    (m = {| gm_fabric := fabric; gm_group := group; gm_endpoint := endpoint |}))) s in
  (s, negb (removed =? 0)).

Definition gs_remove_all (fabric endpoint : Z) (s : GroupMembershipStore) : GroupMembershipStore :=
  fst (retain (λ m, negb ((gm_fabric m =? fabric) && (gm_endpoint m =? endpoint))) s).

Definition groups_for (fabric endpoint : Z) (s : GroupMembershipStore) : list Z :=
  map gm_group (List.filter (λ m, (gm_fabric m =? fabric) && (gm_endpoint m =? endpoint)) (gs_members s)).

Definition endpoints_for (fabric group : Z) (s : GroupMembershipStore) : list Z :=
  map gm_endpoint (List.filter (λ m, (gm_fabric m =? fabric) && (gm_group m =? group)) (gs_members s)).

(** Distinct pairs in order of first occurrence. *)
Definition groups_by_fabric (s : GroupMembershipStore) : list (Z * Z) :=
  foldl (λ out m, if bool_decide ((gm_fabric m, gm_group m) ∈ out) then out
                  else out ++ [(gm_fabric m, gm_group m)]) [] (gs_members s).

Definition gs_purge_fabric (fabric : Z) (s : GroupMembershipStore) : GroupMembershipStore :=
  gs_save (gs_set (List.filter (λ m, negb (gm_fabric m =? fabric)) (gs_members s)) s).

Definition retain_endpoints (live : list Z) (s : GroupMembershipStore) : GroupMembershipStore * Z :=
  retain (λ m, bool_decide (gm_endpoint m ∈ live)) s.

(** ** The cluster *)

Definition CLUSTER_GROUPS : Z := 0x0004.
Definition CMD_ADD_GROUP : Z := 0x00.
Definition CMD_VIEW_GROUP : Z := 0x01.
Definition CMD_GET_GROUP_MEMBERSHIP : Z := 0x02.
Definition CMD_REMOVE_GROUP : Z := 0x03.
Definition CMD_REMOVE_ALL_GROUPS : Z := 0x04.
Definition CMD_ADD_GROUP_IF_IDENTIFYING : Z := 0x05.
Definition ATTR_GROUPS_NAME_SUPPORT : Z := 0x0000.
Definition RESP_ADD_GROUP : Z := 0x00.
Definition RESP_VIEW_GROUP : Z := 0x01.
Definition RESP_GET_GROUP_MEMBERSHIP : Z := 0x02.
Definition RESP_REMOVE_GROUP : Z := 0x03.

Definition decode_group_id (fields : bytes) : option Z :=
  match decode_struct_uint_field fields 0 with Ok v => try_u 16 v | _ => None end.

Definition group_item_step (groups : list Z) (el : Element) : OR (list Z) :=
  match el_value el with
  | VUint v => let! g := narrow 16 v in ret (groups ++ [g])
  | _ => throw ()
  end.

(** A container other than the list is not skipped: the walk goes through its
    elements and its end ends the walk. *)
Definition group_list_step (groups : list Z) (el : Element) : OR (list Z) :=
  match el_tag el, el_value el with
  | Context 0, VArrayStart => opt_walk group_item_step groups
  | _, _ => ret groups
  end.

Definition decode_group_list (fields : bytes) : res () (list Z) :=
  run_opt (
    let! el := opt_next in
    if negb (bool_decide (el_value el = VStructStart)) then throw ()
    else opt_walk group_list_step []) fields.

Definition group_status_fields (response_command status group : Z) : fin bytes :=
  to_vec (
    start_struct Anonymous ;;!
    put_uint (Context 0) status ;;!
    put_uint (Context 1) group ;;!
    (if response_command =? RESP_VIEW_GROUP then put_str (Context 2) [] ;;! end_container
     else end_container)).

Definition membership_fields (capacity : Z) (groups : list Z) : fin bytes :=
  to_vec (
    start_struct Anonymous ;;!
    put_uint (Context 0) capacity ;;!
    (start_array (Context 1) ;;!
     foldr (λ g m, put_uint Anonymous g ;;! m) end_container groups) ;;!
    end_container).

Section handler.
Context {W : Type} (store : Lens W GroupMembershipStore) (deadline : Lens W (option Z)) (clock : W → Z)
  (endpoint : Z).

Definition GS (A : Type) : Type := M (W * InvokeCtx) Empty_set A.

(** [GroupsHandler::add]. *)
Definition groups_add (fabric group : Z) : GS Z := λ '(w, c),
  if group =? 0 then ((w, c), Ok STATUS_CONSTRAINT_ERROR)
  else
    let '(s, r) := gs_add fabric group endpoint (view store w) in
    ((update store s w, c),
     match r with
     | Ok _ => Ok STATUS_SUCCESS
     | Err status => Ok status
     | Panic => Panic
     | OutOfFuel => OutOfFuel
     end).

Definition status_response (response_command status group : Z) : GS InvokeReply :=
  let! f := lift (group_status_fields response_command status group) in ret (RData response_command f).

(** [let Some(group_id) = decode_group_id(..) else { return INVALID_COMMAND }]. *)
Definition with_group_id (fields : bytes) (k : Z → GS InvokeReply) : GS InvokeReply :=
  match decode_group_id fields with
  | None => ret (RStatus STATUS_INVALID_COMMAND)
  | Some g => k g
  end.

Definition add_group (fabric g : Z) : GS InvokeReply :=
  let! status := groups_add fabric g in status_response RESP_ADD_GROUP status g.

Definition view_group (fabric g : Z) : GS InvokeReply :=
  let! (w, c) := get in
  status_response RESP_VIEW_GROUP
    (if g =? 0 then STATUS_CONSTRAINT_ERROR
     else if gs_contains fabric g endpoint (view store w) then STATUS_SUCCESS else STATUS_NOT_FOUND) g.

(** [GROUP_TABLE_CAPACITY - count] is a checked [usize] subtraction. *)
Definition get_group_membership (fabric : Z) (fields : bytes) : GS InvokeReply :=
  match decode_group_list fields with
  | Ok requested =>
      let! (w, c) := get in
      let mine := groups_for fabric endpoint (view store w) in
      let matching := List.filter
        (λ g, bool_decide (requested = []) || existsb (Z.eqb g) requested) mine in
      let count := count_for_endpoint endpoint (view store w) in
      if GROUP_TABLE_CAPACITY <? count then panic
      else
        let! f := lift (membership_fields (GROUP_TABLE_CAPACITY - count) matching) in
        ret (RData RESP_GET_GROUP_MEMBERSHIP f)
  | Err _ => ret (RStatus STATUS_INVALID_COMMAND)
  | Panic => panic
  | OutOfFuel => out_of_fuel
  end.

Definition remove_group (fabric g : Z) : GS InvokeReply := λ '(w, c),
  if g =? 0 then status_response RESP_REMOVE_GROUP STATUS_CONSTRAINT_ERROR g (w, c)
  else
    let '(s, removed) := gs_remove fabric g endpoint (view store w) in
    status_response RESP_REMOVE_GROUP (if removed then STATUS_SUCCESS else STATUS_NOT_FOUND) g
      (update store s w, c).

Definition add_group_if_identifying (fabric g : Z) : GS InvokeReply :=
  if g =? 0 then ret (RStatus STATUS_CONSTRAINT_ERROR)
  else
    let! (w, c) := get in
    if negb (is_identifying deadline clock w) then ret (RStatus STATUS_SUCCESS)
    else let! status := groups_add fabric g in ret (RStatus status).

Definition groups_invoke (cmd : Z) (fields : bytes) : GS InvokeReply :=
  let! (w, c) := get in
  let fabric := ctx_fabric c in
  if cmd =? CMD_ADD_GROUP then with_group_id fields (add_group fabric)
  else if cmd =? CMD_VIEW_GROUP then with_group_id fields (view_group fabric)
  else if cmd =? CMD_GET_GROUP_MEMBERSHIP then get_group_membership fabric fields
  else if cmd =? CMD_REMOVE_GROUP then with_group_id fields (remove_group fabric)
  else if cmd =? CMD_REMOVE_ALL_GROUPS then
    modify (λ '(w, c), (update store (gs_remove_all fabric endpoint (view store w)) w, c)) ;;!
    ret (RStatus STATUS_SUCCESS)
  else if cmd =? CMD_ADD_GROUP_IF_IDENTIFYING then with_group_id fields (add_group_if_identifying fabric)
  else ret (RStatus STATUS_UNSUPPORTED_COMMAND).

Definition groups_invoke_privilege (cmd : Z) : Z :=
  if (cmd =? CMD_ADD_GROUP) || (cmd =? CMD_REMOVE_GROUP) || (cmd =? CMD_REMOVE_ALL_GROUPS) ||
     (cmd =? CMD_ADD_GROUP_IF_IDENTIFYING)
  then PRIVILEGE_MANAGE else PRIVILEGE_OPERATE.

Definition groups_read (w : W) (a : Z) (ctx : ReadCtx) : fin (option bytes) :=
  if a =? ATTR_GROUPS_NAME_SUPPORT then some_value (tlv_uint 0) else Ok None.

Definition GroupsHandler : ClusterHandler W := {|
  cluster_id := CLUSTER_GROUPS;
  attributes := [ATTR_GROUPS_NAME_SUPPORT];
  h_read := groups_read;
  h_invoke := groups_invoke;
  accepted_commands := [CMD_ADD_GROUP; CMD_VIEW_GROUP; CMD_GET_GROUP_MEMBERSHIP; CMD_REMOVE_GROUP;
                        CMD_REMOVE_ALL_GROUPS; CMD_ADD_GROUP_IF_IDENTIFYING];
  generated_commands := [RESP_ADD_GROUP; RESP_VIEW_GROUP; RESP_GET_GROUP_MEMBERSHIP; RESP_REMOVE_GROUP];
  h_write := default_write;
  feature_map := 0;
  revision := 4;
  read_privilege _ := PRIVILEGE_VIEW;
  write_privilege _ := PRIVILEGE_OPERATE;
  invoke_privilege := groups_invoke_privilege;
  events := [];
  event_privilege _ := PRIVILEGE_VIEW;
  h_stimulate := default_stimulate
|}.
End handler.

(** ** Group invokes *)

Definition skip_group : IR () := adapt ImTlv skip_container.

Definition group_skip_other {T} (s : T) (el : Element) : IR T :=
  if is_container_start (el_value el) then skip_group ;;! ret s else ret s.

(** The command path of a group invoke: an endpoint is ignored. *)
Definition group_path_step (s : option Z * option Z) (el : Element) : IR (option Z * option Z) :=
  let '(cluster, command) := s in
  match el_tag el, el_value el with
  | Context 1, VUint v => let! v := narrow_im 32 "cluster out of range" v in ret (Some v, command)
  | Context 2, VUint v => let! v := narrow_im 32 "command out of range" v in ret (cluster, Some v)
  | _, _ => group_skip_other s el
  end.

Definition group_data_step (s : option Z * option Z * bytes) (el : Element) :
    IR (option Z * option Z * bytes) :=
  let '(path, fields) := s in
  match el_tag el, el_value el with
  | Context 0, VListStart =>
      let! path := items "truncated command path" group_path_step path in ret (path, fields)
  | Context 1, VStructStart =>
      let! raw := copy_to_vec ImTlv Anonymous VStructStart in ret (path, raw)
  | _, _ => group_skip_other s el
  end.

Definition decode_command_data_ib : IR GroupInvokeIn :=
  let! (cluster, command, fields) := items "truncated command data ib" group_data_step (None, None, []) in
  let! cluster := im_ok_or cluster "command path without cluster" in
  let! command := im_ok_or command "command path without command" in
  ret {| gi_cluster := cluster; gi_command := command; gi_fields := fields |}.

Definition group_requests_step (out : list GroupInvokeIn) (el : Element) : IR (list GroupInvokeIn) :=
  match el_value el with
  | VStructStart => let! i := decode_command_data_ib in ret (out ++ [i])
  | VArrayStart | VListStart => skip_group ;;! ret out
  | _ => ret out
  end.

Definition group_request_step (out : list GroupInvokeIn) (el : Element) : IR (list GroupInvokeIn) :=
  match el_tag el, el_value el with
  | Context 2, VArrayStart => items "truncated invoke requests" group_requests_step out
  | _, _ => group_skip_other out el
  end.

Definition decode_group_invoke_request (payload : bytes) : res ImError (list GroupInvokeIn) :=
  run_im (
    let! el := next_el ImTlv (Malformed "empty invoke request") in
    if negb (bool_decide (el_value el = VStructStart))
    then throw (Malformed "invoke request is not a struct")
    else items "truncated invoke request" group_request_step []) payload.

(** ** The table as a set

    What the cluster promises, stated over the set of (fabric, group, endpoint)
    memberships. *)

Definition triple (m : GroupMember) : Z * Z * Z := (gm_fabric m, gm_group m, gm_endpoint m).

Definition memberships (s : GroupMembershipStore) : gset (Z * Z * Z) :=
  list_to_set (map triple (gs_members s)).

Definition groups_on (endpoint : Z) (G : gset (Z * Z * Z)) : Z :=
  Z.of_nat (size (filter (λ t, t.2 = endpoint) G)).

Inductive GroupReply :=
  | GStatus (status : Z)
  | GResponse (response_command status group : Z)
  | GMembership (capacity : Z) (groups : list Z).

Definition spec_add (fabric g ep : Z) (G : gset (Z * Z * Z)) : gset (Z * Z * Z) * Z :=
  if decide (g = 0) then (G, STATUS_CONSTRAINT_ERROR)
  else if decide ((fabric, g, ep) ∈ G) then (G, STATUS_SUCCESS)
  else if decide (GROUP_TABLE_CAPACITY ≤ groups_on ep G) then (G, STATUS_RESOURCE_EXHAUSTED)
  else ({[(fabric, g, ep)]} ∪ G, STATUS_SUCCESS).

Definition spec_lookup (fabric g ep : Z) (G : gset (Z * Z * Z)) : Z :=
  if decide (g = 0) then STATUS_CONSTRAINT_ERROR
  else if decide ((fabric, g, ep) ∈ G) then STATUS_SUCCESS else STATUS_NOT_FOUND.

(** A command on endpoint [ep] from [fabric]: the new set and the reply. *)
Inductive groups_spec (fabric ep : Z) (identifying : bool) (G : gset (Z * Z * Z)) (fields : bytes) :
    Z → gset (Z * Z * Z) → GroupReply → Prop :=
  | sp_malformed_id cmd :
      cmd ∈ [CMD_ADD_GROUP; CMD_VIEW_GROUP; CMD_REMOVE_GROUP; CMD_ADD_GROUP_IF_IDENTIFYING] →
      decode_group_id fields = None →
      groups_spec fabric ep identifying G fields cmd G (GStatus STATUS_INVALID_COMMAND)
  | sp_add g : decode_group_id fields = Some g →
      groups_spec fabric ep identifying G fields CMD_ADD_GROUP (spec_add fabric g ep G).1
        (GResponse RESP_ADD_GROUP (spec_add fabric g ep G).2 g)
  | sp_view g : decode_group_id fields = Some g →
      groups_spec fabric ep identifying G fields CMD_VIEW_GROUP G
        (GResponse RESP_VIEW_GROUP (spec_lookup fabric g ep G) g)
  | sp_malformed_list : some_of (decode_group_list fields) = None →
      groups_spec fabric ep identifying G fields CMD_GET_GROUP_MEMBERSHIP G
        (GStatus STATUS_INVALID_COMMAND)
  | sp_membership requested groups : decode_group_list fields = Ok requested →
      NoDup groups →
      (∀ g, g ∈ groups ↔ (fabric, g, ep) ∈ G ∧ (requested = [] ∨ g ∈ requested)) →
      groups_spec fabric ep identifying G fields CMD_GET_GROUP_MEMBERSHIP G
        (GMembership (GROUP_TABLE_CAPACITY - groups_on ep G) groups)
  | sp_remove g : decode_group_id fields = Some g →
      groups_spec fabric ep identifying G fields CMD_REMOVE_GROUP
        (if decide (g = 0) then G else G ∖ {[(fabric, g, ep)]})
        (GResponse RESP_REMOVE_GROUP (spec_lookup fabric g ep G) g)
  | sp_remove_all :
      groups_spec fabric ep identifying G fields CMD_REMOVE_ALL_GROUPS
        (filter (λ t, ¬ (t.1.1 = fabric ∧ t.2 = ep)) G) (GStatus STATUS_SUCCESS)
  | sp_add_if g : decode_group_id fields = Some g → g = 0 ∨ identifying = true →
      groups_spec fabric ep identifying G fields CMD_ADD_GROUP_IF_IDENTIFYING (spec_add fabric g ep G).1
        (GStatus (spec_add fabric g ep G).2)
  | sp_not_identifying g : decode_group_id fields = Some g → g ≠ 0 → identifying = false →
      groups_spec fabric ep identifying G fields CMD_ADD_GROUP_IF_IDENTIFYING G (GStatus STATUS_SUCCESS)
  | sp_unknown cmd :
      cmd ∉ [CMD_ADD_GROUP; CMD_VIEW_GROUP; CMD_GET_GROUP_MEMBERSHIP; CMD_REMOVE_GROUP;
             CMD_REMOVE_ALL_GROUPS; CMD_ADD_GROUP_IF_IDENTIFYING] →
      groups_spec fabric ep identifying G fields cmd G (GStatus STATUS_UNSUPPORTED_COMMAND).

Definition member_ok (m : GroupMember) : Prop :=
  in_u 8 (gm_fabric m) ∧ in_u 16 (gm_group m) ∧ in_u 16 (gm_endpoint m).

(** No duplicates, typed rows, no endpoint above its capacity. *)
Definition table_ok (s : GroupMembershipStore) : Prop :=
  NoDup (gs_members s) ∧ Forall member_ok (gs_members s) ∧
  ∀ ep, count_for_endpoint ep s ≤ GROUP_TABLE_CAPACITY.

Lemma triple_inj m m' : triple m = triple m' → m = m'.
Proof. destruct m, m'. unfold triple. cbn. congruence. Qed.

Lemma elem_of_memberships f g ep s :
  (f, g, ep) ∈ memberships s ↔ {| gm_fabric := f; gm_group := g; gm_endpoint := ep |} ∈ gs_members s.
Proof.
  unfold memberships. rewrite elem_of_list_to_set, list_elem_of_fmap. split.
  - intros (m & Heq & Hm). destruct m. unfold triple in Heq. cbn in Heq. by simplify_eq.
  - intros Hm. eexists. by split; [|exact Hm].
Qed.

Lemma elem_of_filter_list {A} (f : A → bool) l x : x ∈ List.filter f l ↔ x ∈ l ∧ f x = true.
Proof. by rewrite !list_elem_of_In, List.filter_In. Qed.

Lemma NoDup_filter_list {A} (f : A → bool) l : NoDup l → NoDup (List.filter f l).
Proof.
  induction 1 as [|x l Hx Hl IH]; cbn; [constructor|]. destruct (f x); [|done].
  constructor; [|done]. rewrite elem_of_filter_list. naive_solver.
Qed.

(** A count over the list is a cardinality of the set. *)
Lemma count_is_size ep s : NoDup (gs_members s) →
  count_for_endpoint ep s = groups_on ep (memberships s).
Proof.
  intros Hnd. unfold count_for_endpoint, groups_on, zlen. f_equal.
  assert (filter (λ t : Z * Z * Z, t.2 = ep) (memberships s) =
          list_to_set (map triple (List.filter (λ m, gm_endpoint m =? ep) (gs_members s)))) as ->.
  { apply set_eq. intros [ [f g] e]. rewrite elem_of_filter, elem_of_memberships.
    rewrite elem_of_list_to_set, list_elem_of_fmap. cbn. split.
    - intros [-> Hm]. eexists. split; [|by apply elem_of_filter_list; split; [exact Hm|cbn; lia] ]. done.
    - intros (m & Heq & [Hm He]%elem_of_filter_list). destruct m. unfold triple in Heq. cbn in *. simplify_eq.
      split; [lia|done]. }
  rewrite size_list_to_set; [by rewrite length_map|].
  apply NoDup_fmap_2_strong; [|by apply NoDup_filter_list]. intros x y _ _. apply triple_inj.
Qed.

(** *** Operations on the table *)

Lemma table_ok_save s : table_ok s → table_ok (gs_save s).
Proof. done. Qed.

Lemma memberships_save s : memberships (gs_save s) = memberships s.
Proof. done. Qed.

Lemma count_sublist {A} (f : A → bool) l :
  zlen (List.filter f l) ≤ zlen l.
Proof.
  unfold zlen. induction l as [|x l IH]; cbn; [done|]. destruct (f x); cbn [length]; lia.
Qed.

Lemma filter_comm {A} (f g : A → bool) l : List.filter f (List.filter g l) = List.filter g (List.filter f l).
Proof.
  induction l as [|x l IH]; [done|]. cbn.
  destruct (g x) eqn:Hg, (f x) eqn:Hf; cbn; rewrite ?Hg, ?Hf, IH; done.
Qed.

Lemma filter_table_ok keep s : table_ok s → table_ok (gs_set (List.filter keep (gs_members s)) s).
Proof.
  intros (Hnd & Hok & Hc). split_and!; cbn [gs_set gs_members].
  - by apply NoDup_filter_list.
  - apply Forall_forall. intros m [Hm _]%elem_of_filter_list. rewrite Forall_forall in Hok. by apply Hok.
  - intros ep. specialize (Hc ep). unfold count_for_endpoint in *. cbn [gs_set gs_members].
    rewrite filter_comm. etransitivity; [apply count_sublist|done].
Qed.

Lemma retain_ok keep s : table_ok s →
  table_ok (retain keep s).1 ∧ gs_members (retain keep s).1 = List.filter keep (gs_members s).
Proof.
  intros Hs. unfold retain. destruct (_ =? 0); cbn [fst]; (split; [|done]); by apply filter_table_ok.
Qed.

Lemma retain_removed keep s : (retain keep s).2 = 0 ↔ Forall (λ m, keep m = true) (gs_members s).
Proof.
  unfold retain. assert (∀ l, zlen l - zlen (List.filter keep l) = 0 ↔ Forall (λ m, keep m = true) l) as H.
  { induction l as [|x l IH]; [done|]. cbn [List.filter]. rewrite Forall_cons, <- IH.
    destruct (keep x) eqn:Hx; rewrite ?zlen_cons.
    - split; [split; [done|lia]|lia].
    - pose proof (count_sublist keep l). split; [lia|by intros [? _] ]. }
  rewrite <- H. by destruct (_ =? 0).
Qed.

Lemma gs_add_spec f g ep s :
  table_ok s → in_u 8 f → in_u 16 g → in_u 16 ep → g ≠ 0 →
  table_ok (gs_add f g ep s).1 ∧ memberships (gs_add f g ep s).1 = (spec_add f g ep (memberships s)).1 ∧
  match (gs_add f g ep s).2 with
  | Ok _ => (spec_add f g ep (memberships s)).2 = STATUS_SUCCESS
  | Err st => (spec_add f g ep (memberships s)).2 = st ∧ in_u 8 st
  | _ => False
  end.
Proof.
  intros Hs Hf Hg He Hg0. pose proof Hs as (Hnd & Hok & Hc). unfold gs_add, spec_add, is_member.
  rewrite (decide_False (P := g = 0)) by done. cbv zeta.
  rewrite (bool_decide_ext _ _ (symmetry (elem_of_memberships f g ep s))).
  case_bool_decide as Hin; [by rewrite (decide_True (P := (f, g, ep) ∈ memberships s)) by done|].
  rewrite (decide_False (P := (f, g, ep) ∈ memberships s)) by done. rewrite (count_is_size ep s Hnd).
  destruct (Z.leb_spec GROUP_TABLE_CAPACITY (groups_on ep (memberships s))) as [Hle|Hlt].
  { by rewrite decide_True. }
  rewrite decide_False by lia. cbn [fst snd]. split_and!; [| |done].
  2: { unfold memberships. cbn. rewrite map_app, list_to_set_app_L. cbn. set_solver. }
  apply table_ok_save. rewrite elem_of_memberships in Hin. split_and!; cbn [gs_set gs_members].
  - apply NoDup_app. split_and!; [done| |apply NoDup_singleton].
    by intros m Hm ->%list_elem_of_singleton.
  - apply Forall_app. split; [done|by apply Forall_singleton].
  - intros ep'. unfold count_for_endpoint. cbn [gs_set gs_members]. rewrite List.filter_app, zlen_app.
    specialize (Hc ep'). rewrite <- (count_is_size ep s Hnd) in Hlt. unfold count_for_endpoint in *.
    cbn [List.filter gm_endpoint]. destruct (Z.eqb_spec ep ep') as [->|]; zl.
Qed.

Lemma gs_remove_spec f g ep s : table_ok s →
  table_ok (gs_remove f g ep s).1 ∧
  memberships (gs_remove f g ep s).1 = memberships s ∖ {[(f, g, ep)]} ∧
  (gs_remove f g ep s).2 = bool_decide ((f, g, ep) ∈ memberships s).
Proof.
  intros Hs. unfold gs_remove. set (keep := λ m, negb _).
  destruct (retain_ok keep s Hs) as [Hok Hm]. pose proof (retain_removed keep s) as Hr.
  destruct (retain keep s) as [s' removed]. cbn [fst snd] in *. split_and!; [done| |].
  - apply set_eq. intros [ [f' g'] ep']. rewrite elem_of_difference, elem_of_singleton, !elem_of_memberships.
    rewrite Hm, elem_of_filter_list. unfold keep. rewrite negb_true_iff, bool_decide_eq_false. naive_solver.
  - rewrite (bool_decide_ext _ _ (elem_of_memberships f g ep s)). case_bool_decide as Hin.
    + apply negb_true_iff, Z.eqb_neq. intros ->. destruct Hr as [Hr _]. specialize (Hr eq_refl).
      rewrite Forall_forall in Hr. specialize (Hr _ Hin). unfold keep in Hr. by rewrite bool_decide_true in Hr.
    + apply negb_false_iff, Z.eqb_eq, Hr, Forall_forall. intros m Hm'. unfold keep.
      apply negb_true_iff, bool_decide_eq_false. by intros ->.
Qed.

Lemma gs_remove_all_spec f ep s : table_ok s →
  table_ok (gs_remove_all f ep s) ∧
  memberships (gs_remove_all f ep s) = filter (λ t, ¬ (t.1.1 = f ∧ t.2 = ep)) (memberships s).
Proof.
  intros Hs. unfold gs_remove_all. set (keep := λ m, negb _).
  destruct (retain_ok keep s Hs) as [Hok Hm]. split; [done|].
  apply set_eq. intros [ [f' g'] ep']. rewrite elem_of_filter, !elem_of_memberships, Hm, elem_of_filter_list.
  unfold keep. cbn. rewrite negb_true_iff, andb_false_iff, !Z.eqb_neq. clear. destruct (decide (f' = f)); naive_solver.
Qed.

Lemma gs_contains_spec f g ep s : gs_contains f g ep s = bool_decide ((f, g, ep) ∈ memberships s).
Proof. apply bool_decide_ext. by rewrite elem_of_memberships. Qed.

Lemma groups_for_spec f ep s g : g ∈ groups_for f ep s ↔ (f, g, ep) ∈ memberships s.
Proof.
  unfold groups_for. rewrite list_elem_of_fmap, elem_of_memberships. split.
  - intros (m & -> & [Hm Hk]%elem_of_filter_list). destruct m. cbn in *.
    rewrite andb_true_iff, !Z.eqb_eq in Hk. by destruct Hk as [-> ->].
  - intros Hm. eexists. split; [|apply elem_of_filter_list; split; [exact Hm|] ]; [done|]. cbn.
    by rewrite !Z.eqb_refl.
Qed.

Lemma groups_for_NoDup f ep s : NoDup (gs_members s) → NoDup (groups_for f ep s).
Proof.
  intros Hnd. apply NoDup_fmap_2_strong; [|by apply NoDup_filter_list].
  intros [f1 g1 e1] [f2 g2 e2] [_ H1]%elem_of_filter_list [_ H2]%elem_of_filter_list. cbn in *.
  rewrite andb_true_iff, !Z.eqb_eq in H1, H2. destruct H1 as [-> ->], H2 as [-> ->]. congruence.
Qed.

Lemma endpoints_for_spec f g s ep : ep ∈ endpoints_for f g s ↔ (f, g, ep) ∈ memberships s.
Proof.
  unfold endpoints_for. rewrite list_elem_of_fmap, elem_of_memberships. split.
  - intros (m & -> & [Hm Hk]%elem_of_filter_list). destruct m. cbn in *.
    rewrite andb_true_iff, !Z.eqb_eq in Hk. by destruct Hk as [-> ->].
  - intros Hm. eexists. split; [|apply elem_of_filter_list; split; [exact Hm|] ]; [done|]. cbn.
    by rewrite !Z.eqb_refl.
Qed.

(** *** Decoders and replies *)

Lemma decode_group_id_ok fields g : decode_group_id fields = Some g → in_u 16 g.
Proof.
  unfold decode_group_id. destruct (decode_struct_uint_field fields 0); try done.
  by intros [-> ?]%try_u_Some.
Qed.

Lemma decode_group_list_safe fields : bytes_ok fields → small fields →
  match decode_group_list fields with Ok l => Forall (in_u 16) l | Err _ => True | _ => False end.
Proof.
  intros Hb Hs. apply safe_reader; [|done|done].
  eapply safe_bind; [apply safe_next_el|]. intros el _. case_match; [apply safe_throw|].
  apply walk_safe; [|done]. intros l e Hl _ _. apply safe_safe1. unfold group_list_step.
  repeat case_match; try (by apply safe_ret).
  apply walk_safe; [|done]. intros l' e' Hl' _ _. apply safe_safe1. unfold group_item_step.
  repeat case_match; try apply safe_throw.
  eapply safe_bind; [apply narrow_safe|]. intros x Hx. apply safe_ret, Forall_app.
  split; [done|by apply Forall_singleton].
Qed.

Definition reply_of (r : GroupReply) : fin InvokeReply :=
  match r with
  | GStatus s => Ok (RStatus s)
  | GResponse cmd st g => let? f := group_status_fields cmd st g in Ok (RData cmd f)
  | GMembership cap gs => let? f := membership_fields cap gs in Ok (RData RESP_GET_GROUP_MEMBERSHIP f)
  end.

Lemma wf_no_name : wf_tree (Leaf (Context 2) (VUtf8 [])).
Proof. split_and!; [done|..|done]; by repeat split. Qed.

Lemma status_fields_ok cmd st g : in_u 8 st → in_u 16 g →
  ∃ b, group_status_fields cmd st g = Ok b ∧ fields_bytes b.
Proof.
  intros Hst Hg.
  pose (name := if cmd =? RESP_VIEW_GROUP then [Leaf (Context 2) (VUtf8 [])] else []).
  pose (ch := [Leaf (Context 0) (VUint st); Leaf (Context 1) (VUint g)] ++ name).
  exists (enc_tree (Tlv.Node Anonymous KStruct ch)). split.
  - apply to_vec_writes, writes_struct. unfold ch. cbn [app].
    apply emits_cons; [apply writes_put_uint|]. apply emits_cons; [apply writes_put_uint|].
    unfold name. destruct (cmd =? RESP_VIEW_GROUP); [|apply emits_end].
    apply emits_cons; [apply (writes_tree (Leaf (Context 2) (VUtf8 [])) wf_no_name)|apply emits_end].
  - right. do 2 eexists. split_and!; [|done|].
    + apply wf_anon_node, Forall_app. split.
      * apply Forall_cons. split; [by apply (wf_uint _ _ 8)|]. by apply Forall_singleton, (wf_uint _ _ 16).
      * unfold name. destruct (cmd =? RESP_VIEW_GROUP); [|done]. by apply Forall_singleton, wf_no_name.
    + unfold small. assert (Hch : Forall (λ t, zlen (enc_tree t) ≤ 17) ch).
      { unfold ch. rewrite Forall_app, !Forall_cons. split_and!; try apply zlen_uint_leaf; [done|].
        unfold name. destruct (cmd =? RESP_VIEW_GROUP); [by apply Forall_singleton|done]. }
      pose proof (zlen_node Anonymous KStruct ch 17 Hch).
      assert (zlen ch ≤ 3) by by (unfold ch, name; destruct (cmd =? RESP_VIEW_GROUP)). lia.
Qed.

Lemma membership_fields_ok cap gs : in_u 8 cap → Forall (in_u 16) gs → zlen gs ≤ GROUP_TABLE_CAPACITY →
  ∃ b, membership_fields cap gs = Ok b ∧ fields_bytes b.
Proof.
  intros Hc Hg Hl.
  pose (items := map (λ g, Leaf Anonymous (VUint g)) gs).
  exists (enc_tree (Tlv.Node Anonymous KStruct
    [Leaf (Context 0) (VUint cap); Tlv.Node (Context 1) KArray items])). split.
  - apply to_vec_writes, writes_struct. apply emits_cons; [apply writes_put_uint|].
    apply emits_cons; [|apply emits_end]. apply writes_array. unfold items.
    clear. induction gs as [|g gs IH]; cbn; [apply emits_end|].
    apply emits_cons; [apply writes_put_uint|exact IH].
  - assert (Hi : Forall (λ t, zlen (enc_tree t) ≤ 17) items).
    { apply List.Forall_map, Forall_forall. intros g _. apply zlen_uint_leaf. }
    right. do 2 eexists. split_and!; [|done|].
    + apply wf_anon_node, Forall_cons. split; [by apply (wf_uint _ _ 8)|].
      apply Forall_singleton, wf_node; [done|]. by apply (wf_uints _ 16).
    + unfold small. pose proof (zlen_node (Context 1) KArray items 17 Hi) as Hn.
      assert (zlen items ≤ 16) by by (unfold items, zlen; rewrite length_map).
      pose proof (zlen_uint_leaf (Context 0) cap).
      assert (Hch : Forall (λ t, zlen (enc_tree t) ≤ 282)
                [Leaf (Context 0) (VUint cap); Tlv.Node (Context 1) KArray items]).
      { rewrite !Forall_cons. split_and!; [lia|lia|done]. }
      pose proof (zlen_node Anonymous KStruct _ 282 Hch) as H2. change (zlen [_; _]) with 2 in H2. lia.
Qed.

Lemma if_bool_decide {A} P `{Decision P} (x y : A) :
  (if bool_decide P then x else y) = (if decide P then x else y).
Proof. by case_bool_decide; [rewrite decide_True|rewrite decide_False]. Qed.

Lemma existsb_eqb (l : list Z) g : existsb (Z.eqb g) l = true ↔ g ∈ l.
Proof.
  rewrite List.existsb_exists. setoid_rewrite <- list_elem_of_In. setoid_rewrite Z.eqb_eq. naive_solver.
Qed.

Lemma groups_for_count f ep s : zlen (groups_for f ep s) ≤ count_for_endpoint ep s.
Proof.
  unfold groups_for, count_for_endpoint, zlen. rewrite length_map.
  induction (gs_members s) as [|m l IH]; cbn; [done|].
  destruct (gm_fabric m =? f), (gm_endpoint m =? ep); cbn [andb length]; lia.
Qed.

(** *** The cluster implements its specification *)

Class LensLaws {W A} (l : Lens W A) : Prop := {
  view_update a w : view l (update l a w) = a;
  update_view w : update l (view l w) w = w
}.

Section refinement.
Context {W : Type} (store : Lens W GroupMembershipStore) (deadline : Lens W (option Z)) (clock : W → Z)
  (endpoint : Z).
Context {Hlens : LensLaws store} (Hep : in_u 16 endpoint).

(** The outcome of a command on [s]: the world with [s'] and the reply. *)
Definition implements (cmd : Z) (fields : bytes) (w : W) (c : InvokeCtx) (m : GS (W:=W) InvokeReply) : Prop :=
  ∃ s' reply r,
    m (w, c) = ((update store s' w, c), Ok r) ∧ reply_of reply = Ok r ∧ reply_ok r ∧ table_ok s' ∧
    groups_spec (ctx_fabric c) endpoint (is_identifying deadline clock w) (memberships (view store w)) fields
      cmd (memberships s') reply.

Context (w : W) (c : InvokeCtx) (Hs : table_ok (view store w)) (Hf : in_u 8 (ctx_fabric c)).
Context (fields : bytes) (Hb : bytes_ok fields) (Hsm : small fields).
Notation fabric := (ctx_fabric c).
Notation G := (memberships (view store w)).

Lemma implements_status cmd st : in_u 8 st →
  groups_spec fabric endpoint (is_identifying deadline clock w) G fields cmd G (GStatus st) →
  implements cmd fields w c (ret (RStatus st)).
Proof.
  intros Hst Hsp. exists (view store w), (GStatus st), (RStatus st). rewrite update_view. by split_and!.
Qed.

Lemma response_of cmd st g : in_u 8 st → in_u 16 g → in_u 32 cmd →
  ∃ r, reply_of (GResponse cmd st g) = Ok r ∧ reply_ok r ∧
    ∀ s, status_response (W:=W) cmd st g s = (s, Ok r).
Proof.
  intros Hst Hg Hc. destruct (status_fields_ok cmd st g Hst Hg) as (b & Hb' & Hfb).
  exists (RData cmd b). cbn [reply_of]. rewrite Hb'. split_and!; try done.
  intros s. unfold status_response, bind, lift. by rewrite Hb'.
Qed.

Lemma spec_lookup_ok g : in_u 8 (spec_lookup fabric g endpoint G).
Proof. unfold spec_lookup. by repeat case_decide. Qed.

Lemma spec_add_ok g : in_u 8 (spec_add fabric g endpoint G).2.
Proof. unfold spec_add. by repeat case_decide. Qed.

Lemma groups_add_run g : in_u 16 g → ∃ s',
  groups_add store endpoint fabric g (w, c) =
    ((update store s' w, c), Ok (spec_add fabric g endpoint G).2) ∧
  table_ok s' ∧ memberships s' = (spec_add fabric g endpoint G).1.
Proof.
  intros Hg. unfold groups_add. destruct (Z.eqb_spec g 0) as [->|Hg0].
  { exists (view store w). rewrite update_view. by split_and!. }
  destruct (gs_add_spec fabric g endpoint (view store w) Hs Hf Hg Hep Hg0) as (Hok & Hm & Hst).
  destruct (gs_add fabric g endpoint (view store w)) as [s' r]. cbn [fst snd] in *. exists s'.
  split_and!; [|done|done]. destruct r as [u|st| |]; [by rewrite Hst|by destruct Hst as [-> _]|done|done].
Qed.

Lemma add_group_implements g : decode_group_id fields = Some g →
  implements CMD_ADD_GROUP fields w c (add_group store endpoint fabric g).
Proof.
  intros Hd. pose proof (decode_group_id_ok _ _ Hd) as Hg.
  destruct (groups_add_run g Hg) as (s' & Hrun & Hok & Hm).
  destruct (response_of RESP_ADD_GROUP _ g (spec_add_ok g) Hg) as (r & Hr & Hro & Hst); [done|].
  exists s'. do 2 eexists. split_and!; [|exact Hr|done|done|rewrite Hm; by apply sp_add].
  unfold add_group, bind. rewrite Hrun. apply Hst.
Qed.

Lemma view_group_implements g : decode_group_id fields = Some g →
  implements CMD_VIEW_GROUP fields w c (view_group store endpoint fabric g).
Proof.
  intros Hd. pose proof (decode_group_id_ok _ _ Hd) as Hg.
  destruct (response_of RESP_VIEW_GROUP _ g (spec_lookup_ok g) Hg) as (r & Hr & Hro & Hst); [done|].
  exists (view store w). do 2 eexists. split_and!; [|exact Hr|done|done|by apply sp_view].
  unfold view_group, bind, get. rewrite update_view, gs_contains_spec, <- Hst.
  unfold spec_lookup. destruct (Z.eqb_spec g 0); [by rewrite decide_True|]. rewrite decide_False by done.
  by rewrite if_bool_decide.
Qed.

Lemma remove_group_implements g : decode_group_id fields = Some g →
  implements CMD_REMOVE_GROUP fields w c (remove_group store endpoint fabric g).
Proof.
  intros Hd. pose proof (decode_group_id_ok _ _ Hd) as Hg.
  destruct (response_of RESP_REMOVE_GROUP _ g (spec_lookup_ok g) Hg) as (r & Hr & Hro & Hst); [done|].
  pose proof (sp_remove fabric endpoint (is_identifying deadline clock w) G fields g Hd) as Hsp.
  unfold remove_group. unfold spec_lookup in Hr, Hst, Hsp. destruct (Z.eqb_spec g 0) as [->|Hg0].
  - rewrite decide_True in * by done. exists (view store w). do 2 eexists. rewrite update_view.
    split_and!; [apply Hst|exact Hr|done|done|exact Hsp].
  - rewrite !(decide_False (P := g = 0)) in * by done.
    destruct (gs_remove_spec fabric g endpoint (view store w) Hs) as (Hok & Hm & Hrem).
    destruct (gs_remove fabric g endpoint (view store w)) as [s' removed] eqn:Hrm. cbn [fst snd] in *.
    exists s'. do 2 eexists. split_and!; [|exact Hr|done|done|by rewrite Hm].
    rewrite Hrm, Hrem, if_bool_decide. apply Hst.
Qed.

Lemma add_if_implements g : decode_group_id fields = Some g →
  implements CMD_ADD_GROUP_IF_IDENTIFYING fields w c
    (add_group_if_identifying store deadline clock endpoint fabric g).
Proof.
  intros Hd. pose proof (decode_group_id_ok _ _ Hd) as Hg. unfold add_group_if_identifying.
  destruct (Z.eqb_spec g 0) as [->|Hg0].
  { apply implements_status; [done|]. pose proof (sp_add_if fabric endpoint (is_identifying deadline clock w) G
      fields 0 Hd (or_introl eq_refl)) as Hsp. exact Hsp. }
  destruct (is_identifying deadline clock w) eqn:Hi.
  - destruct (groups_add_run g Hg) as (s' & Hrun & Hok & Hm).
    exists s', (GStatus (spec_add fabric g endpoint G).2), (RStatus (spec_add fabric g endpoint G).2).
    split_and!; [|done|apply spec_add_ok|done|rewrite Hm, Hi; apply sp_add_if; by auto].
    unfold bind, get. rewrite Hi. cbn [negb]. by rewrite Hrun.
  - exists (view store w), (GStatus STATUS_SUCCESS), (RStatus STATUS_SUCCESS). rewrite update_view.
    split_and!; [|done|done|done|rewrite Hi; by eapply sp_not_identifying].
    unfold bind, get. by rewrite Hi.
Qed.

Lemma membership_implements :
  implements CMD_GET_GROUP_MEMBERSHIP fields w c (get_group_membership store endpoint fabric fields).
Proof.
  unfold get_group_membership. pose proof (decode_group_list_safe fields Hb Hsm) as Hsafe.
  destruct (decode_group_list fields) as [req|u| |] eqn:Hd; [|..|done|done].
  2: { apply implements_status; [done|]. apply sp_malformed_list. by rewrite Hd. }
  pose proof Hs as (Hnd & Hok & Hcap). specialize (Hcap endpoint).
  pose (gs := List.filter (λ g, bool_decide (req = []) || existsb (Z.eqb g) req)
    (groups_for fabric endpoint (view store w))).
  assert (Hgs : ∀ g, g ∈ gs ↔ (fabric, g, endpoint) ∈ G ∧ (req = [] ∨ g ∈ req)).
  { intros g. unfold gs. rewrite elem_of_filter_list, groups_for_spec, orb_true_iff, bool_decide_eq_true.
    by rewrite existsb_eqb. }
  assert (Hnd' : NoDup gs) by by apply NoDup_filter_list, groups_for_NoDup.
  assert (Hty : Forall (in_u 16) gs).
  { apply Forall_forall. intros g [Hg _]%Hgs. apply elem_of_memberships in Hg.
    rewrite Forall_forall in Hok. by destruct (Hok _ Hg) as (_ & ? & _). }
  assert (Hlen : zlen gs ≤ GROUP_TABLE_CAPACITY).
  { etransitivity; [|exact Hcap]. etransitivity; [apply count_sublist|]. apply groups_for_count. }
  assert (Hc0 : in_u 8 (GROUP_TABLE_CAPACITY - count_for_endpoint endpoint (view store w))).
  { pose proof (zlen_nonneg (List.filter (λ m, gm_endpoint m =? endpoint) (gs_members (view store w)))).
    unfold count_for_endpoint, GROUP_TABLE_CAPACITY, in_u in *. lia. }
  destruct (membership_fields_ok _ gs Hc0 Hty Hlen) as (b & Hbe & Hfb).
  exists (view store w), (GMembership (GROUP_TABLE_CAPACITY - groups_on endpoint G) gs),
    (RData RESP_GET_GROUP_MEMBERSHIP b).
  rewrite update_view. split_and!; try done.
  - unfold bind, get, lift. destruct (Z.ltb_spec GROUP_TABLE_CAPACITY
      (count_for_endpoint endpoint (view store w))); [lia|]. fold gs. by rewrite Hbe.
  - cbn [reply_of]. by rewrite <- (count_is_size endpoint _ Hnd), Hbe.
  - by eapply sp_membership.
Qed.

Lemma with_id_implements cmd k :
  cmd ∈ [CMD_ADD_GROUP; CMD_VIEW_GROUP; CMD_REMOVE_GROUP; CMD_ADD_GROUP_IF_IDENTIFYING] →
  (∀ g, decode_group_id fields = Some g → implements cmd fields w c (k g)) →
  implements cmd fields w c (with_group_id fields k).
Proof.
  intros Hc Hk. unfold with_group_id. destruct (decode_group_id fields) as [g|] eqn:Hd; [by apply Hk|].
  apply implements_status; [done|]. by apply sp_malformed_id.
Qed.

Lemma groups_invoke_implements cmd :
  implements cmd fields w c (groups_invoke store deadline clock endpoint cmd fields).
Proof.
  assert (Hget : ∀ k, implements cmd fields w c (k (w, c)) → implements cmd fields w c (let! s := get in k s))
    by (intros k Hk; exact Hk).
  unfold groups_invoke. apply Hget.
  destruct (Z.eqb_spec cmd CMD_ADD_GROUP) as [->|]; [apply with_id_implements; [set_solver|apply add_group_implements] |].
  destruct (Z.eqb_spec cmd CMD_VIEW_GROUP) as [->|]; [apply with_id_implements; [set_solver|apply view_group_implements] |].
  destruct (Z.eqb_spec cmd CMD_GET_GROUP_MEMBERSHIP) as [->|]; [apply membership_implements|].
  destruct (Z.eqb_spec cmd CMD_REMOVE_GROUP) as [->|]; [apply with_id_implements; [set_solver|apply remove_group_implements] |].
  destruct (Z.eqb_spec cmd CMD_REMOVE_ALL_GROUPS) as [->|].
  { destruct (gs_remove_all_spec fabric endpoint (view store w) Hs) as [Hok Hm].
    exists (gs_remove_all fabric endpoint (view store w)), (GStatus STATUS_SUCCESS), (RStatus STATUS_SUCCESS).
    split_and!; [done|done|done|exact Hok|]. rewrite Hm. apply sp_remove_all. }
  destruct (Z.eqb_spec cmd CMD_ADD_GROUP_IF_IDENTIFYING) as [->|];
    [apply with_id_implements; [set_solver|apply add_if_implements] |].
  apply implements_status; [done|]. apply sp_unknown. set_solver.
Qed.

(** C33. The Groups cluster implements its specification over the set of
    memberships, for every command and any bytes: the reply and the new set are
    the specified ones, so only the invoking fabric's memberships of the
    cluster's own endpoint change, and the table stays free of duplicates and
    within the capacity of every endpoint. *)
Theorem groups_cluster_refines cmd :
  implements cmd fields w c (groups_invoke store deadline clock endpoint cmd fields).
Proof. apply groups_invoke_implements. Qed.
End refinement.

(** AddGroup(5) from fabric 2 on endpoint 1, next to another fabric's row. *)
Definition member_lens : Lens (GroupMembershipStore * option Z) GroupMembershipStore :=
  {| view := fst; update s w := (s, snd w) |}.
Definition deadline_lens : Lens (GroupMembershipStore * option Z) (option Z) :=
  {| view := snd; update d w := (fst w, d) |}.

#[export] Instance member_lens_laws : LensLaws member_lens.
Proof. split; [done|by intros [s d] ]. Qed.

Definition one_member : GroupMembershipStore :=
  gs_set [ {| gm_fabric := 1; gm_group := 5; gm_endpoint := 1 |} ] GroupMembershipStore_new.

Definition add_group_fields : bytes :=
  enc_tree (Tlv.Node Anonymous KStruct [Leaf (Context 0) (VUint 5); Leaf (Context 1) (VUtf8 [])]).

Definition fabric_two : InvokeCtx := {|
  attestation_challenge := replicate 16 0; ctx_changed := []; ctx_fabric := 2;
  ctx_subject := Subject_node 7; ctx_events := []
|}.

Lemma groups_cluster_refines_witness :
  let m := groups_invoke member_lens deadline_lens (λ _, 0) 1 CMD_ADD_GROUP add_group_fields in
  implements member_lens deadline_lens (λ _, 0) 1 CMD_ADD_GROUP add_group_fields (one_member, None)
    fabric_two m ∧
  groups_for 2 1 (fst (fst (fst (m ((one_member, None), fabric_two))))) = [5].
Proof.
  cbv zeta. split; [|vm_compute; done].
  apply (groups_cluster_refines member_lens deadline_lens (λ _, 0) 1); try done.
  - split; [apply NoDup_singleton|]. split; [apply Forall_singleton; by split_and!|]. intros ep.
    unfold count_for_endpoint. cbn. by case_match.
  - by vm_compute; repeat constructor.
Defined.

#[export] Instance Groups_ok {W} (I : W → Prop) (store : Lens W GroupMembershipStore) deadline clock endpoint :
  LensLaws store → in_u 16 endpoint → (∀ w, I w → table_ok (view store w)) →
  LensKeeps I table_ok store → HandlerOk I (GroupsHandler store deadline clock endpoint).
Proof.
  intros Hl Hep Ht Hk. split; try done; try (by repeat (apply Forall_cons; split; [done|])).
  - intros w a ctx Hw. cbn [h_read GroupsHandler]. unfold groups_read. case_match; [|by exists None].
    apply some_value_ok. by apply (element_uint _ 8).
  - intros w c cmd f Hw Hty Hf Hs. cbn [h_invoke GroupsHandler].
    destruct (groups_invoke_implements store deadline clock endpoint Hep w c (Ht w Hw) Hty f Hf Hs cmd)
      as (s' & reply & r & Hrun & _ & Hr & Hok & _).
    exists (update store s' w), c, r. split_and!; [done|by apply Hk|apply ctx_kept_refl|done].
  - intros w c a data append Hw _ _ _. by apply default_write_ok.
  - intros w c s Hw. by apply default_stimulate_ok.
Qed.

(** ** Group requests *)

Lemma safe_group_skip {T} (s : T) el (P : T → Prop) : P s → safe (group_skip_other s el) P.
Proof.
  intros Hs. unfold group_skip_other. case_match; [|by apply safe_ret].
  eapply safe_bind; [apply safe_skip|]. intros _ _. by apply safe_ret.
Qed.

Definition path_ok (p : option Z * option Z) : Prop :=
  from_option (in_u 32) True p.1 ∧ from_option (in_u 32) True p.2.

Definition invoke_in_ok (i : GroupInvokeIn) : Prop :=
  in_u 32 (gi_cluster i) ∧ in_u 32 (gi_command i) ∧ raw_or_empty (gi_fields i).

Lemma safe_group_path p : path_ok p → safe (items "truncated command path" group_path_step p) path_ok.
Proof.
  intros Hp. apply walk_safe; [|done]. intros [cl cmd] el [H1 H2] _ _. apply safe_safe1.
  unfold group_path_step.
  assert (Ho : safe (group_skip_other (cl, cmd) el) path_ok) by by apply safe_group_skip.
  repeat case_match; try exact Ho;
    (eapply safe_bind; [apply safe_narrow_im|]; intros x Hx; by apply safe_ret).
Qed.

Lemma safe_group_data : safe decode_command_data_ib invoke_in_ok.
Proof.
  eapply (safe_bind _ _ (λ s, path_ok s.1 ∧ raw_or_empty s.2)).
  - apply walk_safe; [|by split; [|left] ]. intros [p raw] el [Hp Hr] [_ Hv] _.
    assert (Ho : safe1 (el_value el) (group_skip_other (p, raw) el) (λ s, path_ok s.1 ∧ raw_or_empty s.2)).
    { apply safe_safe1. by apply safe_group_skip. }
    unfold group_data_step. repeat case_match; try exact Ho.
    + apply safe_safe1. eapply safe_bind; [by apply safe_group_path|]. intros p' Hp'. by apply safe_ret.
    + eapply safe1_bind; [by apply safe_copy_im|]. intros b Hb. apply safe_ret. by split; [|right].
  - intros [ [cl cmd] raw] [ [H1 H2] Hr]. cbn [fst snd] in *.
    eapply safe_bind; [by apply (safe_ok_or cl _ (in_u 32))|]. intros cl' Hcl.
    eapply safe_bind; [by apply (safe_ok_or cmd _ (in_u 32))|]. intros cmd' Hcmd. by apply safe_ret.
Qed.

Lemma decode_group_invoke_request_safe payload : bytes_ok payload → small payload →
  match decode_group_invoke_request payload with
  | Ok l => Forall invoke_in_ok l | Err _ => True | _ => False
  end.
Proof.
  intros Hb Hs. apply safe_reader; [|done|done].
  eapply safe_bind; [apply safe_next_el|]. intros el _. case_match; [apply safe_throw|].
  apply walk_safe; [|done]. intros out e Hout _ _. apply safe_safe1. unfold group_request_step.
  assert (Ho : safe (group_skip_other out e) (Forall invoke_in_ok)) by by apply safe_group_skip.
  repeat case_match; try exact Ho.
  apply walk_safe; [|done]. intros out' e' Hout' _ _. apply safe_safe1. unfold group_requests_step.
  assert (Hskip : safe (skip_group ;;! ret out') (Forall invoke_in_ok)).
  { eapply safe_bind; [apply safe_skip|]. intros _ _. by apply safe_ret. }
  repeat case_match; try exact Hskip; try (by apply safe_ret).
  eapply safe_bind; [apply safe_group_data|]. intros i Hi. apply safe_ret, Forall_app.
  split; [done|by apply Forall_singleton].
Qed.

(** What the controller sends to a group. *)
Definition group_command_tree (cl cmd : Z) (f : option (Tag * list tree)) : tree :=
  Tlv.Node Anonymous KStruct
    (Tlv.Node (Context 0) KList [Leaf (Context 1) (VUint cl); Leaf (Context 2) (VUint cmd)] :: struct_field f).

Definition group_request_tree (cl cmd : Z) (f : option (Tag * list tree)) : list tree :=
  [Leaf (Context 0) (VBool true); Leaf (Context 1) (VBool false);
   Tlv.Node (Context 2) KArray [group_command_tree cl cmd f];
   Leaf (Context 255) (VUint IM_REVISION)].

Lemma group_request_eq cl cmd f : struct_ok f →
  encode_group_invoke_request cl cmd (struct_raw f) =
  Ok (enc_tree (Tlv.Node Anonymous KStruct (group_request_tree cl cmd f))).
Proof.
  intros Hf. apply to_vec_writes, writes_struct.
  do 2 (apply emits_cons; [apply writes_bool|]).
  apply emits_cons; [|eauto with emits]. apply writes_array, emits_cons; [|apply emits_end].
  apply writes_struct, emits_cons; [apply writes_list; eauto with emits|].
  rewrite <- (app_nil_r (struct_field f)). apply emits_optional_raw, emits_end. done.
Qed.

Lemma wf_group_path cl cmd : in_u 32 cl → in_u 32 cmd →
  Forall wf_tree [Leaf (Context 1) (VUint cl); Leaf (Context 2) (VUint cmd)].
Proof.
  intros Hc Hm. apply Forall_cons; split; [by apply (wf_uint _ _ 32)|].
  by apply Forall_singleton, (wf_uint _ _ 32).
Qed.

Lemma wf_group_command cl cmd f : in_u 32 cl → in_u 32 cmd → struct_ok f →
  wf_tree (group_command_tree cl cmd f).
Proof.
  intros Hc Hm Hf. apply wf_anon_node, Forall_cons. split; [|by apply wf_struct_field].
  by apply wf_node, wf_group_path.
Qed.

Lemma wf_group_request cl cmd f : in_u 32 cl → in_u 32 cmd → struct_ok f →
  Forall wf_tree (group_request_tree cl cmd f).
Proof.
  intros Hc Hm Hf. apply Forall_cons; split; [by apply wf_bool|]. apply Forall_cons; split; [by apply wf_bool|].
  apply Forall_cons; split; [|apply Forall_singleton, wf_revision].
  by apply wf_node, Forall_singleton, wf_group_command.
Qed.

Lemma reads_group_command cl cmd f : in_u 32 cl → in_u 32 cmd → struct_ok f →
  reads decode_command_data_ib (inner (group_command_tree cl cmd f))
    {| gi_cluster := cl; gi_command := cmd; gi_fields := default [] (anon_raw f) |}.
Proof.
  intros Hc Hm Hf. unfold decode_command_data_ib.
  eapply (reads_bind_end _ _ _ (Some cl, Some cmd, default [] (anon_raw f))).
  - apply walk_at; [by apply (wf_children Anonymous KStruct), wf_group_command|].
    eapply (walks_node _ _ _ _ _ (Some cl, Some cmd, [])).
    { eapply (reads_bind_end _ _ _ (Some cl, Some cmd)); [|apply reads_ret].
      apply walk_at; [by apply wf_group_path|].
      eapply walks_leaf; [eapply reads_bind_nil; [by apply reads_narrow|apply reads_ret]|].
      eapply walks_leaf; [eapply reads_bind_nil; [by apply reads_narrow|apply reads_ret]|constructor]. }
    destruct f as [ [tag ch] |]; [|constructor]. destruct Hf as [ [_ Hch]%wf_children _].
    eapply walks_node; [|constructor]. eapply reads_bind_end; [by apply reads_struct_copy|apply reads_ret].
  - eapply reads_bind_nil; [apply reads_ok_or|]. eapply reads_bind_nil; [apply reads_ok_or|apply reads_ret].
Qed.

Lemma group_request_decoded cl cmd f b : in_u 32 cl → in_u 32 cmd → struct_ok f →
  encode_group_invoke_request cl cmd (struct_raw f) = Ok b → small b →
  decode_group_invoke_request b =
    Ok [{| gi_cluster := cl; gi_command := cmd; gi_fields := default [] (anon_raw f) |}].
Proof.
  intros Hc Hm Hf Hb Hs. rewrite group_request_eq in Hb by done.
  assert (b = enc_tree (Tlv.Node Anonymous KStruct (group_request_tree cl cmd f))) as -> by congruence.
  pose proof (wf_group_request cl cmd f Hc Hm Hf) as Hwf.
  unfold decode_group_invoke_request, run_im. apply reads_all; [|done].
  rewrite enc_tree_split. eapply reads_bind; [by apply reads_next_el, wf_anon_node|].
  cbn [el_value root_el root_value]. apply walk_at; [done|].
  do 2 (eapply walks_leaf; [apply reads_ret|]).
  eapply walks_node; [|eapply walks_leaf; [apply reads_ret|constructor] ].
  apply walk_at; [by apply Forall_singleton, wf_group_command|].
  eapply walks_node; [|constructor]. eapply reads_bind_end; [by apply reads_group_command|apply reads_ret].
Qed.
