(* ===== verification/Fabrics.v ===== *)
(** * Fabrics

    Models [crates/mat-device/src/core/fabric_store.rs] (the device's fabric
    table) and the key derivations of [crates/mat-controller/src/fabric.rs].
    HKDF-SHA256 is third-party code: a parameter.  The persistence backend is a
    function saying which saves succeed. *)

From Stdlib Require Import String.
From stdpp Require Import gmap.
From S2P Require Import Prelude Tlv TlvValue.

(** ** Derivations *)

(** [hkdf salt ikm info n]: the first [n] bytes of HKDF-SHA256. *)
Class Hkdf := hkdf : option bytes → bytes → bytes → Z → bytes.

Class HkdfLaws `{Hkdf} : Prop := {
  hkdf_length salt ikm info n : 0 ≤ n → zlen (hkdf salt ikm info n) = n;
  hkdf_bytes salt ikm info n : bytes_ok (hkdf salt ikm info n)
}.

(** The bytes of a literal. *)
Definition ascii (s : string) : bytes :=
  map (λ c, Z.of_N (Ascii.N_of_ascii c)) (list_ascii_of_string s).

Definition be_bytes (n : nat) (z : Z) : bytes := rev (le_bytes n z).

Section derive.
Context `{Hkdf}.

Definition compressed_fabric_id (root_public_key : bytes) (fabric_id : Z) : bytes :=
  hkdf (Some (be_bytes 8 fabric_id)) (drop 1 root_public_key) (ascii "CompressedFabric") 8.

Definition derive_ipk_operational (epoch_key compressed_fabric_id : bytes) : bytes :=
  hkdf (Some compressed_fabric_id) epoch_key (ascii "GroupKey v1.0") 16.

Definition derive_group_session_id (operational_key : bytes) : Z :=
  le_val (rev (hkdf None operational_key (ascii "GroupKeyHash") 2)).

Definition CHIP_TOOL_DEFAULT_IPK_EPOCH : bytes := ascii "temporary ipk 01".

Definition verify_default_ipk_epoch (root_public_key : bytes) (fabric_id : Z) (ipk_operational : bytes) : bool :=
  bool_decide (derive_ipk_operational CHIP_TOOL_DEFAULT_IPK_EPOCH
                 (compressed_fabric_id root_public_key fabric_id) = ipk_operational).
End derive.

(** ** The table *)

Record FabricEntry := {
  fe_index : Z;
  fe_root_tlv : bytes;
  fe_noc_tlv : bytes;
  fe_icac_tlv : option bytes;
  fe_op_private_key : bytes;
  fe_ipk_operational : bytes;
  fe_node_id : Z;
  fe_fabric_id : Z;
  fe_root_public_key : bytes;
  fe_admin_subject : Z;
  fe_admin_vendor_id : Z;
  fe_label : bytes
}.

Definition set_label (label : bytes) (e : FabricEntry) : FabricEntry :=
  {| fe_index := fe_index e; fe_root_tlv := fe_root_tlv e; fe_noc_tlv := fe_noc_tlv e;
     fe_icac_tlv := fe_icac_tlv e; fe_op_private_key := fe_op_private_key e;
     fe_ipk_operational := fe_ipk_operational e; fe_node_id := fe_node_id e;
     fe_fabric_id := fe_fabric_id e; fe_root_public_key := fe_root_public_key e;
     fe_admin_subject := fe_admin_subject e; fe_admin_vendor_id := fe_admin_vendor_id e;
     fe_label := label |}.

(** [persist]: [None] without a backend; otherwise the error, if any, of saving
    a table. *)
Record FabricStore := {
  fs_entries : list FabricEntry;
  fs_persist : option (list FabricEntry → option string)
}.

Definition FabricStore_new : FabricStore := {| fs_entries := []; fs_persist := None |}.

Definition FabricStore_with_persist (save : list FabricEntry → option string)
    (loaded : option (list FabricEntry)) : FabricStore :=
  {| fs_entries := default [] loaded; fs_persist := Some save |}.

Definition with_entries (l : list FabricEntry) (s : FabricStore) : FabricStore :=
  {| fs_entries := l; fs_persist := fs_persist s |}.

(** [persist.save(&self.entries)], when there is a backend. *)
Definition fs_save (l : list FabricEntry) (s : FabricStore) : res string () :=
  match fs_persist s with
  | Some save => match save l with Some msg => Err msg | None => Ok () end
  | None => Ok ()
  end.

(** [m + 1] is a checked [u8] addition. *)
Definition next_fabric_index (s : FabricStore) : fin Z :=
  match map fe_index (fs_entries s) with
  | [] => Ok 1
  | x :: l => let m := foldl Z.max x l in if 255 <? m + 1 then Panic else Ok (m + 1)
  end.

Definition fs_insert (e : FabricEntry) : M FabricStore string () := λ s,
  let l := fs_entries s ++ [e] in
  match fs_save l s with
  | Ok _ => (with_entries l s, Ok ())
  | Err msg => (with_entries (fs_entries s) s, Err msg)
  | Panic => (with_entries l s, Panic)
  | OutOfFuel => (with_entries l s, OutOfFuel)
  end.

(** [entries.remove(pos)] at the first match. *)
Fixpoint remove_first {A} (f : A → bool) (l : list A) : option (list A) :=
  match l with
  | [] => None
  | x :: l => if f x then Some l else option_map (cons x) (remove_first f l)
  end.

Definition fs_remove (index : Z) : M FabricStore string bool := λ s,
  match remove_first (λ e, fe_index e =? index) (fs_entries s) with
  | None => (s, Ok false)
  | Some l => (with_entries l s, let? _ := fs_save l s in Ok true)
  end.

(** [if let Some(x) = iter_mut().find(f) { *x = g(x) }]. *)
Fixpoint update_first {A} (f : A → bool) (g : A → A) (l : list A) : option (list A) :=
  match l with
  | [] => None
  | x :: l => if f x then Some (g x :: l) else option_map (cons x) (update_first f g l)
  end.

Definition fs_update_label (index : Z) (label : bytes) : M FabricStore string bool := λ s,
  match update_first (λ e, fe_index e =? index) (set_label label) (fs_entries s) with
  | None => (s, Ok false)
  | Some l => (with_entries l s, let? _ := fs_save l s in Ok true)
  end.

Definition find_fabric (index : Z) (l : list FabricEntry) : option FabricEntry :=
  List.find (λ e, fe_index e =? index) l.

(** ** Facts *)

(** Indices are bytes, non-zero and distinct. *)
Definition fabrics_ok (s : FabricStore) : Prop :=
  NoDup (map fe_index (fs_entries s)) ∧ Forall (λ e, 1 ≤ fe_index e ≤ 255) (fs_entries s).

Lemma foldl_max x l : x ≤ foldl Z.max x l ∧ Forall (λ y, y ≤ foldl Z.max x l) l.
Proof.
  revert x. induction l as [|y l IH]; intros x; cbn; [by split|].
  destruct (IH (Z.max x y)) as [H1 H2]. split; [lia|]. constructor; [lia|done].
Qed.

(** The next index is free, and installing an entry under it keeps the table
    well formed, whether or not the save succeeds. *)
Lemma next_index_free s i : fabrics_ok s → next_fabric_index s = Ok i →
  1 ≤ i ≤ 255 ∧ i ∉ map fe_index (fs_entries s).
Proof.
  intros [_ Hr]. unfold next_fabric_index.
  assert (Hr' : Forall (λ y, 1 ≤ y ≤ 255) (map fe_index (fs_entries s))) by by apply List.Forall_map.
  destruct (map fe_index (fs_entries s)) as [|x l]; [intros [= <-]; split; [lia|apply not_elem_of_nil] |].
  destruct (foldl_max x l) as [H1 H2]. destruct (255 <? _) eqn:Hm; [done|].
  apply Z.ltb_ge in Hm. intros [= <-].
  apply Forall_cons in Hr' as [Hx _]. split; [lia|].
  intros [Heq | Hin]%elem_of_cons; [lia|]. rewrite Forall_forall in H2. specialize (H2 _ Hin). lia.
Qed.

(** ** The table as a map from index to fabric *)

Definition entries_map (l : list FabricEntry) : gmap Z FabricEntry :=
  list_to_map (map (λ e, (fe_index e, e)) l).

Definition fabric_map (s : FabricStore) : gmap Z FabricEntry := entries_map (fs_entries s).

Lemma entries_map_cons e l : entries_map (e :: l) = <[fe_index e := e]> (entries_map l).
Proof. done. Qed.
#[local] Arguments entries_map : simpl never.

Lemma fst_entries l : (map (λ e, (fe_index e, e)) l).*1 = map fe_index l.
Proof. induction l; cbn; congruence. Qed.

Lemma find_fabric_map i s : find_fabric i (fs_entries s) = fabric_map s !! i.
Proof.
  unfold find_fabric, fabric_map. induction (fs_entries s) as [|e l IH]; [done|]. rewrite entries_map_cons. cbn.
  destruct (Z.eqb_spec (fe_index e) i) as [->|Hne]; [by rewrite lookup_insert_eq|].
  by rewrite lookup_insert_ne.
Qed.

Lemma fabric_free s i : i ∉ map fe_index (fs_entries s) ↔ fabric_map s !! i = None.
Proof. unfold fabric_map, entries_map. by rewrite <- not_elem_of_list_to_map, fst_entries. Qed.

Lemma foldl_max_in x l : foldl Z.max x l ∈ x :: l.
Proof.
  revert x. induction l as [|y l IH]; intros x; cbn; [by apply elem_of_cons; left|].
  specialize (IH (Z.max x y)). rewrite !elem_of_cons in *. destruct IH as [-> | IH]; [|auto].
  destruct (Z.max_spec x y) as [ [_ ->] | [_ ->] ]; auto.
Qed.

Lemma next_index_full s : fabrics_ok s → next_fabric_index s = Panic → is_Some (fabric_map s !! 255).
Proof.
  intros [_ Hr]. unfold next_fabric_index.
  assert (Hr' : Forall (λ y, 1 ≤ y ≤ 255) (map fe_index (fs_entries s))) by by apply List.Forall_map.
  destruct (map fe_index (fs_entries s)) as [|x l] eqn:Hl; [done|].
  pose proof (foldl_max_in x l) as Hin. destruct (255 <? _) eqn:Hm; [|done]. intros _. apply Z.ltb_lt in Hm.
  rewrite Forall_forall in Hr'. specialize (Hr' _ Hin).
  replace (foldl Z.max x l) with 255 in Hin by lia. rewrite <- Hl in Hin.
  destruct (fabric_map s !! 255) eqn:Hf; [by eexists|]. by apply fabric_free in Hf.
Qed.

Lemma map_snoc s e : fabric_map s !! fe_index e = None →
  fabric_map (with_entries (fs_entries s ++ [e]) s) = <[fe_index e := e]> (fabric_map s).
Proof.
  intros Hfree%fabric_free. unfold fabric_map, entries_map. cbn [fs_entries with_entries]. rewrite map_app. cbn [map].
  rewrite list_to_map_snoc; [done|]. by rewrite fst_entries.
Qed.

(** [iter().find]/[position] on a table without duplicate indices. *)
Lemma remove_first_map i l : NoDup (map fe_index l) →
  match remove_first (λ e, fe_index e =? i) l with
  | Some l' => is_Some (entries_map l !! i) ∧
      entries_map l' = delete i (entries_map l) ∧
      sublist (map fe_index l') (map fe_index l) ∧ sublist l' l
  | None => entries_map l !! i = None
  end.
Proof.
  induction l as [|e l IH]; [done|]. intros [Hnin Hnd]%NoDup_cons. rewrite !entries_map_cons. cbn.
  destruct (Z.eqb_spec (fe_index e) i) as [<-|Hne].
  - rewrite lookup_insert_eq. split; [done|]. split; [|split; by constructor].
    rewrite delete_insert_eq, delete_id; [done|]. by apply (fabric_free (with_entries l FabricStore_new)).
  - specialize (IH Hnd). destruct (remove_first _ l) as [l'|]; cbn; rewrite lookup_insert_ne by done; [|done].
    destruct IH as (H1 & H2 & H3 & H4). split; [done|]. split; [|split; by constructor].
    by rewrite entries_map_cons, H2, delete_insert_ne.
Qed.

Lemma update_first_map i label l : NoDup (map fe_index l) →
  match update_first (λ e, fe_index e =? i) (set_label label) l with
  | Some l' => is_Some (entries_map l !! i) ∧
      entries_map l' = alter (set_label label) i (entries_map l) ∧
      map fe_index l' = map fe_index l
  | None => entries_map l !! i = None
  end.
Proof.
  induction l as [|e l IH]; [done|]. intros [Hnin Hnd]%NoDup_cons. rewrite !entries_map_cons. cbn.
  destruct (Z.eqb_spec (fe_index e) i) as [<-|Hne]; cbn.
  - rewrite lookup_insert_eq. split; [done|]. split; [|done]. by rewrite entries_map_cons, alter_insert_eq.
  - specialize (IH Hnd). destruct (update_first _ _ l) as [l'|]; cbn; rewrite lookup_insert_ne by done; [|done].
    destruct IH as (H1 & H2 & H3). split; [done|]. split; [|by rewrite H3].
    by rewrite entries_map_cons, H2, alter_insert_ne.
Qed.

(** An answer of an update: the save's error, or whether the index was there. *)
Definition answers (s : FabricStore) (i : Z) (r : res string bool) : Prop :=
  match fabric_map s !! i with
  | None => r = Ok false
  | Some _ => r = Ok true ∨ ∃ msg, r = Err msg
  end.

Lemma saved_answer l s : (let? _ := fs_save l s in Ok true) = Ok true ∨
  ∃ msg, (let? _ := fs_save l s in Ok true) = Err msg.
Proof. unfold fs_save. repeat case_match; simplify_eq; cbn; eauto. Qed.

Lemma insert_refines e s : fabrics_ok s → next_fabric_index s = Ok (fe_index e) →
  fs_insert e s = (s, snd (fs_insert e s)) ∧ (∃ msg, snd (fs_insert e s) = Err msg) ∨
  ∃ s', fs_insert e s = (s', Ok ()) ∧ fabrics_ok s' ∧ fs_persist s' = fs_persist s ∧
    fabric_map s' = <[fe_index e := e]> (fabric_map s).
Proof.
  intros Hs Hi. destruct (next_index_free _ _ Hs Hi) as [Hr Hfree]. destruct Hs as [Hnd Hall].
  unfold fs_insert. destruct (fs_save _ s) as [ []|msg| |] eqn:Hsave.
  - right. eexists. split; [done|]. split; [|split; [done|by apply map_snoc, fabric_free] ].
    split; cbn [fs_entries with_entries].
    + rewrite map_app. apply NoDup_app. split_and!; [done| |apply NoDup_singleton].
      by intros x Hx ->%list_elem_of_singleton.
    + apply Forall_app. split; [done|by apply Forall_singleton].
  - left. split; [by destruct s|by exists msg].
  - exfalso. unfold fs_save in Hsave. by repeat case_match.
  - exfalso. unfold fs_save in Hsave. by repeat case_match.
Qed.

Lemma remove_refines i s : fabrics_ok s →
  let '(s', r) := fs_remove i s in
  fabrics_ok s' ∧ fs_persist s' = fs_persist s ∧ fabric_map s' = delete i (fabric_map s) ∧ answers s i r.
Proof.
  intros [Hnd Hall]. unfold fs_remove, answers, fabric_map.
  pose proof (remove_first_map i (fs_entries s) Hnd) as H. destruct (remove_first _ _) as [l|].
  - destruct H as ([x Hx] & H2 & H3 & H4). rewrite Hx. cbn [fs_entries with_entries].
    split_and!; [|done|done|apply saved_answer]. split; cbn [fs_entries with_entries].
    + by apply (sublist_NoDup _ (map fe_index (fs_entries s))).
    + rewrite Forall_forall in *. intros e He. apply Hall. by apply (elem_of_sublist l).
  - rewrite H. split_and!; [by split|done|by rewrite delete_id|done].
Qed.

Lemma label_refines i label s : fabrics_ok s →
  let '(s', r) := fs_update_label i label s in
  fabrics_ok s' ∧ fs_persist s' = fs_persist s ∧
  fabric_map s' = alter (set_label label) i (fabric_map s) ∧ answers s i r.
Proof.
  intros [Hnd Hall]. unfold fs_update_label, answers, fabric_map.
  pose proof (update_first_map i label (fs_entries s) Hnd) as H. destruct (update_first _ _ _) as [l|].
  - destruct H as ([x Hx] & H2 & H3). rewrite Hx. cbn [fs_entries with_entries].
    split_and!; [|done|done|apply saved_answer]. split; cbn [fs_entries with_entries].
    + by rewrite H3.
    + rewrite <- (List.Forall_map fe_index (λ y, 1 ≤ y ≤ 255)) in *. by rewrite H3.
  - rewrite H. split_and!; [by split|done| |done]. symmetry. apply map_eq. intros j.
    destruct (decide (i = j)) as [<-|]; [by rewrite lookup_alter_eq, H|by rewrite lookup_alter_ne].
Qed.

(** The fabric table refines a map from index to fabric, and stays well
    formed (distinct indices from 1 to 255).  The next index is free, or the
    table holds index 255 and asking for one overflows.  Installing a fabric
    there adds exactly it, or leaves the table as it was when the save fails;
    removing a fabric and renaming it happen in memory whether or not the save
    succeeds, touch no other fabric, and answer whether the index was there. *)
Theorem fabric_table_refines s : fabrics_ok s →
  match next_fabric_index s with
  | Ok i => 1 ≤ i ≤ 255 ∧ fabric_map s !! i = None
  | Panic => is_Some (fabric_map s !! 255)
  | _ => False
  end ∧
  (∀ i, find_fabric i (fs_entries s) = fabric_map s !! i) ∧
  (∀ e, next_fabric_index s = Ok (fe_index e) →
    fs_insert e s = (s, snd (fs_insert e s)) ∧ (∃ msg, snd (fs_insert e s) = Err msg) ∨
    ∃ s', fs_insert e s = (s', Ok ()) ∧ fabrics_ok s' ∧ fs_persist s' = fs_persist s ∧
      fabric_map s' = <[fe_index e := e]> (fabric_map s)) ∧
  (∀ i, let '(s', r) := fs_remove i s in
    fabrics_ok s' ∧ fs_persist s' = fs_persist s ∧ fabric_map s' = delete i (fabric_map s) ∧ answers s i r) ∧
  (∀ i label, let '(s', r) := fs_update_label i label s in
    fabrics_ok s' ∧ fs_persist s' = fs_persist s ∧
    fabric_map s' = alter (set_label label) i (fabric_map s) ∧ answers s i r).
Proof.
  intros Hs. split; [|split_and!].
  - destruct (next_fabric_index s) as [i|e| |] eqn:Hi; [|done| |].
    + destruct (next_index_free _ _ Hs Hi). by rewrite <- fabric_free.
    + by apply next_index_full.
    + unfold next_fabric_index in Hi. by repeat case_match.
  - intros i. apply find_fabric_map.
  - intros e. by apply insert_refines.
  - intros i. by apply remove_refines.
  - intros i label. by apply label_refines.
Qed.

Definition sample_fabric (index : Z) : FabricEntry := {|
  fe_index := index; fe_root_tlv := []; fe_noc_tlv := []; fe_icac_tlv := None; fe_op_private_key := [];
  fe_ipk_operational := []; fe_node_id := 1; fe_fabric_id := index; fe_root_public_key := [];
  fe_admin_subject := 1; fe_admin_vendor_id := 0; fe_label := []
|}.

(** Indices 1 and 3 are taken and every save fails: the next index is 4, an
    insert changes nothing, a removal happens. *)
Lemma fabric_table_refines_witness :
  let s := with_entries [sample_fabric 1; sample_fabric 3] (FabricStore_with_persist (λ _, Some "disk"%string) None) in
  next_fabric_index s = Ok 4 ∧ fs_insert (sample_fabric 4) s = (s, Err "disk"%string) ∧
  let '(s', r) := fs_remove 3 s in
  r = Err "disk"%string ∧ fabric_map s' = delete 3 (fabric_map s).
Proof.
  cbv zeta. split; [by vm_compute|]. split; [by vm_compute|].
  destruct (fabric_table_refines (with_entries [sample_fabric 1; sample_fabric 3]
              (FabricStore_with_persist (λ _, Some "disk"%string) None))) as (_ & _ & _ & Hr & _).
  - split; cbn; [|by repeat constructor]. apply NoDup_cons. split; [|apply NoDup_singleton].
    by intros ?%list_elem_of_singleton.
  - specialize (Hr 3). revert Hr. cbn [fs_remove]. intros (_ & _ & Hm & _). by split.
Defined.
