(* ===== verification/GroupKeys.v ===== *)
(** * Group keys: the key set table and the GroupKeyManagement cluster

    Models [crates/mat-device/src/core/group_key_management.rs] and the field
    encoders of [crates/mat-controller/src/im/cmdfields.rs] that feed it.  The
    table and the membership table are components of the world, reached by
    lenses; the tables handed to the persistence backend are kept as a list. *)

From Stdlib Require Import String Sorted.
From stdpp Require Import gmap.
From S2P Require Import Prelude Tlv TlvValue Handler Im AccessControl DataModel Clusters Groups Fabrics.

(** ** The table *)

Definition MAX_GROUPS_PER_FABRIC : Z := 16.
Definition MAX_GROUP_KEYS_PER_FABRIC : Z := 1.
Definition CLUSTER_GROUP_KEY_MANAGEMENT : Z := 0x003F.
Definition CMD_KEY_SET_WRITE : Z := 0x00.
Definition CMD_KEY_SET_READ : Z := 0x01.
Definition RESP_KEY_SET_READ : Z := 0x02.
Definition CMD_KEY_SET_REMOVE : Z := 0x03.
Definition CMD_KEY_SET_READ_ALL_INDICES : Z := 0x04.
Definition RESP_KEY_SET_READ_ALL_INDICES : Z := 0x05.
Definition ATTR_GROUP_KEY_MAP : Z := 0x0000.
Definition ATTR_GROUP_TABLE : Z := 0x0001.
Definition ATTR_MAX_GROUPS_PER_FABRIC : Z := 0x0002.
Definition ATTR_MAX_GROUP_KEYS_PER_FABRIC : Z := 0x0003.
Definition IPK_KEY_SET_ID : Z := 0.

Record GroupKeySet := {
  ks_fabric : Z;
  ks_id : Z;
  ks_key0 : bytes;
  ks_start0 : Z;
  ks_key1 : option bytes;
  ks_start1 : Z;
  ks_key2 : option bytes;
  ks_start2 : Z
}.

Definition ks_epochs (k : GroupKeySet) : list (bytes * Z) :=
  [(ks_key0 k, ks_start0 k)] ++
  (match ks_key1 k with Some key => [(key, ks_start1 k)] | None => [] end) ++
  (match ks_key2 k with Some key => [(key, ks_start2 k)] | None => [] end).

Record GroupKeyMapEntry := { mk_fabric : Z; mk_group : Z; mk_keyset : Z }.

Record GroupKeyStore := {
  gk_keysets : list GroupKeySet;
  gk_map : list GroupKeyMapEntry;
  gk_saved : option (list (list GroupKeySet * list GroupKeyMapEntry))
}.

Definition GroupKeyStore_new : GroupKeyStore := {| gk_keysets := []; gk_map := []; gk_saved := None |}.

Definition GroupKeyStore_with_persist (loaded : option (list GroupKeySet * list GroupKeyMapEntry)) :
    GroupKeyStore :=
  {| gk_keysets := default [] (fst <$> loaded); gk_map := default [] (snd <$> loaded); gk_saved := Some [] |}.

Definition gk_set (keysets : list GroupKeySet) (m : list GroupKeyMapEntry) (s : GroupKeyStore) : GroupKeyStore :=
  {| gk_keysets := keysets; gk_map := m; gk_saved := gk_saved s |}.

Definition gk_save (s : GroupKeyStore) : GroupKeyStore :=
  {| gk_keysets := gk_keysets s; gk_map := gk_map s;
     gk_saved := (λ log, log ++ [(gk_keysets s, gk_map s)]) <$> gk_saved s |}.

Definition keyset_at (fabric id : Z) (k : GroupKeySet) : bool :=
  (ks_fabric k =? fabric) && (ks_id k =? id).

(** The [i]th epoch of the slice, if any: its key, and its start time or 0. *)
Definition epoch_slot (epochs : list (bytes * Z)) (i : nat) : option bytes * Z :=
  match epochs !! i with Some (k, t) => (Some k, t) | None => (None, 0) end.

Definition with_epochs (key0 : bytes) (epochs : list (bytes * Z)) (fabric id : Z) : GroupKeySet :=
  {| ks_fabric := fabric; ks_id := id; ks_key0 := key0; ks_start0 := snd (epoch_slot epochs 0);
     ks_key1 := fst (epoch_slot epochs 1); ks_start1 := snd (epoch_slot epochs 1);
     ks_key2 := fst (epoch_slot epochs 2); ks_start2 := snd (epoch_slot epochs 2) |}.

(** No epoch or more than three is a bug of the caller: the [debug_assert!]. *)
Definition upsert_keyset_epochs (fabric id : Z) (epochs : list (bytes * Z)) : M GroupKeyStore Z () := λ s,
  match epochs with
  | [] => (s, Panic)
  | (key0, _) :: _ =>
      if 3 <? zlen epochs then (s, Panic)
      else
        match update_first (keyset_at fabric id)
                (λ k, with_epochs key0 epochs (ks_fabric k) (ks_id k)) (gk_keysets s) with
        | Some keysets => (gk_save (gk_set keysets (gk_map s) s), Ok ())
        | None =>
            let count := zlen (List.filter
              (λ k, (ks_fabric k =? fabric) && negb (ks_id k =? IPK_KEY_SET_ID)) (gk_keysets s)) in
            if negb (id =? IPK_KEY_SET_ID) && (MAX_GROUP_KEYS_PER_FABRIC <=? count)
            then (s, Err STATUS_RESOURCE_EXHAUSTED)
            else (gk_save (gk_set (gk_keysets s ++ [with_epochs key0 epochs fabric id]) (gk_map s) s), Ok ())
        end
  end.

Definition upsert_keyset (fabric id : Z) (key0 : bytes) (start0 : Z) : M GroupKeyStore Z () :=
  upsert_keyset_epochs fabric id [(key0, start0)].

Definition find_keyset (fabric id : Z) (s : GroupKeyStore) : option GroupKeySet :=
  List.find (keyset_at fabric id) (gk_keysets s).

Definition ipk_keyset (fabric : Z) (s : GroupKeyStore) : option GroupKeySet :=
  find_keyset fabric IPK_KEY_SET_ID s.

Definition row_of (fabric id : Z) (m : GroupKeyMapEntry) : bool :=
  (mk_fabric m =? fabric) && (mk_keyset m =? id).

Definition remove_keyset (fabric id : Z) : M GroupKeyStore Z bool := λ s,
  let keysets := List.filter (λ k, negb (keyset_at fabric id k)) (gk_keysets s) in
  if zlen keysets =? zlen (gk_keysets s) then (gk_set keysets (gk_map s) s, Err STATUS_NOT_FOUND)
  else
    let rows := List.filter (λ m, negb (row_of fabric id m)) (gk_map s) in
    (gk_save (gk_set keysets rows s), Ok (negb (zlen rows =? zlen (gk_map s)))).

Definition keyset_ids_for (fabric : Z) (s : GroupKeyStore) : list Z :=
  map ks_id (List.filter (λ k, ks_fabric k =? fabric) (gk_keysets s)).

Definition keyset_exists (fabric id : Z) (s : GroupKeyStore) : bool :=
  existsb (keyset_at fabric id) (gk_keysets s).

Definition gk_purge_fabric (fabric : Z) (s : GroupKeyStore) : GroupKeyStore :=
  gk_save (gk_set (List.filter (λ k, negb (ks_fabric k =? fabric)) (gk_keysets s))
             (List.filter (λ m, negb (mk_fabric m =? fabric)) (gk_map s)) s).

Definition replace_fabric_map (fabric : Z) (entries : list (Z * Z)) (s : GroupKeyStore) : GroupKeyStore :=
  gk_save (gk_set (gk_keysets s)
    (List.filter (λ m, negb (mk_fabric m =? fabric)) (gk_map s) ++
     map (λ '(g, k), {| mk_fabric := fabric; mk_group := g; mk_keyset := k |}) entries) s).

Definition append_map_entry (fabric g k : Z) (s : GroupKeyStore) : GroupKeyStore :=
  gk_save (gk_set (gk_keysets s)
    (gk_map s ++ [ {| mk_fabric := fabric; mk_group := g; mk_keyset := k |} ]) s).

Definition map_entries_for (fabric : Z) (s : GroupKeyStore) : list (Z * Z) :=
  map (λ m, (mk_group m, mk_keyset m)) (List.filter (λ m, mk_fabric m =? fabric) (gk_map s)).

Definition all_map_entries (s : GroupKeyStore) : list (Z * Z * Z) :=
  map (λ m, (mk_fabric m, mk_group m, mk_keyset m)) (gk_map s).

(** ** Field codecs *)

Inductive KeySetWriteError := KsMalformed | KsConstraint.

Definition ks_malformed (e : TlvError) : KeySetWriteError := KsMalformed.
Abbreviation KR := (M Reader KeySetWriteError).

(** The locals of [decode_key_set_write_fields]; slot [i] is at position [i]. *)
Record KeySetFields := {
  kf_id : option Z;
  kf_policy : option Z;
  kf_keys : list (option bytes);
  kf_starts : list (option Z)
}.

Definition kf_set_key (i : nat) (b : bytes) (f : KeySetFields) : KeySetFields :=
  {| kf_id := kf_id f; kf_policy := kf_policy f; kf_keys := <[i := Some b]> (kf_keys f);
     kf_starts := kf_starts f |}.
Definition kf_set_start (i : nat) (v : Z) (f : KeySetFields) : KeySetFields :=
  {| kf_id := kf_id f; kf_policy := kf_policy f; kf_keys := kf_keys f;
     kf_starts := <[i := Some v]> (kf_starts f) |}.

Definition ks_skip_other {T} (s : T) (el : Element) : KR T :=
  match el_value el with
  | VStructStart | VArrayStart | VListStart => adapt ks_malformed skip_container ;;! ret s
  | _ => ret s
  end.

Definition key_set_step (f : KeySetFields) (el : Element) : KR KeySetFields :=
  match el_tag el, el_value el with
  | Context 0, VUint v =>
      ret {| kf_id := try_u 16 v; kf_policy := kf_policy f; kf_keys := kf_keys f; kf_starts := kf_starts f |}
  | Context 1, VUint v =>
      ret {| kf_id := kf_id f; kf_policy := try_u 8 v; kf_keys := kf_keys f; kf_starts := kf_starts f |}
  | Context 2, VBytes b => ret (kf_set_key 0 b f)
  | Context 4, VBytes b => ret (kf_set_key 1 b f)
  | Context 6, VBytes b => ret (kf_set_key 2 b f)
  | Context 3, VUint v => ret (kf_set_start 0 v f)
  | Context 5, VUint v => ret (kf_set_start 1 v f)
  | Context 7, VUint v => ret (kf_set_start 2 v f)
  | _, _ => ks_skip_other f el
  end.

Definition key_set_write_step (f : KeySetFields) (el : Element) : KR KeySetFields :=
  match el_tag el, el_value el with
  | Context 0, VStructStart => walk ks_malformed KsMalformed key_set_step f
  | _, _ => ks_skip_other f el
  end.

(** The closure [key]: absent, or exactly 16 bytes. *)
Definition slot_key (f : KeySetFields) (slot : nat) : res KeySetWriteError (option bytes) :=
  match kf_keys f !! slot with
  | Some (Some b) => if zlen b =? 16 then Ok (Some b) else Err KsConstraint
  | _ => Ok None
  end.

Definition slot_start (f : KeySetFields) (slot : nat) : option Z := default None (kf_starts f !! slot).

(** [for slot in 1..3]; [prev] is [epochs[slot - 1].1]. *)
Fixpoint later_epochs (f : KeySetFields) (slots : list nat) (prev : Z) (epochs : list (bytes * Z)) :
    res KeySetWriteError (list (bytes * Z)) :=
  match slots with
  | [] => Ok epochs
  | slot :: slots =>
      let? k := slot_key f slot in
      match k with
      | None =>
          if (slot =? 1)%nat && bool_decide (is_Some (default None (kf_keys f !! 2%nat)))
          then Err KsConstraint else Ok epochs
      | Some k =>
          let? start := ok_or (slot_start f slot) KsConstraint in
          if (start =? 0) || (start <=? prev) then Err KsConstraint
          else later_epochs f slots start (epochs ++ [(k, start)])
      end
  end.

Definition key_set_of (f : KeySetFields) : res KeySetWriteError (Z * list (bytes * Z)) :=
  let? id := ok_or (kf_id f) KsConstraint in
  let? policy := ok_or (kf_policy f) KsConstraint in
  if negb (policy =? 0) then Err KsConstraint else
  let? k0 := slot_key f 0 in
  let? key0 := ok_or k0 KsConstraint in
  let start0 := default 0 (slot_start f 0) in
  let? epochs := later_epochs f [1%nat; 2%nat] start0 [(key0, start0)] in
  Ok (id, epochs).

Definition no_key_set_fields : KeySetFields :=
  {| kf_id := None; kf_policy := None; kf_keys := [None; None; None]; kf_starts := [None; None; None] |}.

Definition read_key_set_write_fields : KR (Z * list (bytes * Z)) :=
  let! el := next_el ks_malformed KsMalformed in
  if negb (bool_decide (el_value el = VStructStart)) then throw KsMalformed
  else
    let! f := walk ks_malformed KsMalformed key_set_write_step no_key_set_fields in
    lift (key_set_of f).

Definition decode_key_set_write_fields (data : bytes) : res KeySetWriteError (Z * list (bytes * Z)) :=
  snd (read_key_set_write_fields (Reader_new data)).

Definition write_map_row (row : Z * Z * Z) : M Writer Empty_set () :=
  let '(fabric, g, k) := row in
  start_struct Anonymous ;;!
  put_uint (Context 1) g ;;!
  put_uint (Context 2) k ;;!
  put_uint (Context 254) fabric ;;!
  end_container.

Definition encode_group_key_map (entries : list (Z * Z * Z)) : fin bytes :=
  to_vec (start_array Anonymous ;;! foldr (λ e m, write_map_row e ;;! m) end_container entries).

Definition map_entry_step (s : option Z * option Z) (el : Element) : OR (option Z * option Z) :=
  match el_tag el, el_value el with
  | Context 1, VUint v => ret (try_u 16 v, snd s)
  | Context 2, VUint v => ret (fst s, try_u 16 v)
  | _, (VStructStart | VArrayStart | VListStart) => opt_skip ;;! ret s
  | _, _ => ret s
  end.

Definition decode_group_key_map_entry_body : OR (Z * Z) :=
  let! (g, k) := opt_walk map_entry_step (None, None) in
  let! g := lift (ok_or g ()) in
  let! k := lift (ok_or k ()) in
  ret (g, k).

Definition decode_key_set_id (fields : bytes) : option Z :=
  match decode_struct_uint_field fields 0 with Ok v => try_u 16 v | _ => None end.

Definition encode_key_set_read_response (id start0 : Z) : fin bytes :=
  to_vec (
    start_struct Anonymous ;;!
    (start_struct (Context 0) ;;!
     put_uint (Context 0) id ;;!
     put_uint (Context 1) 0 ;;!
     put_null (Context 2) ;;!
     put_uint (Context 3) start0 ;;!
     put_null (Context 4) ;;!
     put_null (Context 5) ;;!
     put_null (Context 6) ;;!
     put_null (Context 7) ;;!
     end_container) ;;!
    end_container).

(** The row of a group in GroupTable. *)
Definition write_group_row (row : Z * Z * list Z) : M Writer Empty_set () :=
  let '(fabric, g, endpoints) := row in
  start_struct Anonymous ;;!
  put_uint (Context 1) g ;;!
  (start_array (Context 2) ;;!
   foldr (λ e m, put_uint Anonymous e ;;! m) end_container endpoints) ;;!
  put_uint (Context 254) fabric ;;!
  end_container.

Definition group_table_rows (ctx : ReadCtx) (s : GroupMembershipStore) : list (Z * Z * list Z) :=
  map (λ '(f, g), (f, g, endpoints_for f g s))
    (List.filter (λ '(f, g), negb (rc_filtered ctx && negb (f =? rc_fabric ctx))) (groups_by_fabric s)).

Definition encode_group_table (rows : list (Z * Z * list Z)) : fin bytes :=
  to_vec (start_array Anonymous ;;! foldr (λ e m, write_group_row e ;;! m) end_container rows).

Definition encode_indices (ids : list Z) : fin bytes :=
  to_vec (
    start_struct Anonymous ;;!
    (start_array (Context 0) ;;!
     foldr (λ id m, put_uint Anonymous id ;;! m) end_container ids) ;;!
    end_container).

(** *** The controller's encoders *)

(** Slot [i] of the struct, from [slot]. *)
Definition put_slot (key_tag start_tag : Z) (slot : option bytes * Z) : M Writer Empty_set () :=
  match slot with
  | (Some key, start) => put_bytes (Context key_tag) key ;;! put_uint (Context start_tag) start
  | (None, _) => put_null (Context key_tag) ;;! put_null (Context start_tag)
  end.

Definition encode_key_set_write_fields_multi (id : Z) (epochs : list (bytes * Z)) : fin bytes :=
  if (zlen epochs <? 1) || (3 <? zlen epochs) then Panic
  else to_vec (
    start_struct Anonymous ;;!
    (start_struct (Context 0) ;;!
     put_uint (Context 0) id ;;!
     put_uint (Context 1) 0 ;;!
     put_slot 2 3 (epoch_slot epochs 0) ;;!
     put_slot 4 5 (epoch_slot epochs 1) ;;!
     put_slot 6 7 (epoch_slot epochs 2) ;;!
     end_container) ;;!
    end_container).

Definition encode_key_set_write_fields (id : Z) (epoch_key : bytes) : fin bytes :=
  encode_key_set_write_fields_multi id [(epoch_key, 1)].

Definition encode_group_key_map_tlv (entries : list (Z * Z)) : fin bytes :=
  to_vec (
    start_array Anonymous ;;!
    foldr (λ '(g, k) m,
      (start_struct Anonymous ;;!
       put_uint (Context 1) g ;;!
       put_uint (Context 2) k ;;!
       end_container) ;;! m) end_container entries).

(** ** The cluster *)

Section handler.
Context {W : Type} (store : Lens W GroupKeyStore) (membership : Lens W GroupMembershipStore).

(** An operation of the store inside a handler. *)
Definition on_keys {E A} (m : M GroupKeyStore E A) : M (W * InvokeCtx) E A := λ '(w, c),
  let '(s, r) := m (view store w) in ((update store s w, c), r).

Definition check_map_entry (fabric : Z) (entry : Z * Z) (s : GroupKeyStore) : res Z () :=
  if (fst entry =? 0) || negb (keyset_exists fabric (snd entry) s) then Err STATUS_CONSTRAINT_ERROR
  else Ok ().

Fixpoint check_map_entries (fabric : Z) (entries : list (Z * Z)) (s : GroupKeyStore) : res Z () :=
  match entries with
  | [] => Ok ()
  | e :: entries => let? _ := check_map_entry fabric e s in check_map_entries fabric entries s
  end.

Definition group_keys_read (w : W) (a : Z) (ctx : ReadCtx) : fin (option bytes) :=
  if a =? ATTR_GROUP_KEY_MAP then
    some_value (encode_group_key_map
      (if rc_filtered ctx
       then map (λ '(g, k), (rc_fabric ctx, g, k)) (map_entries_for (rc_fabric ctx) (view store w))
       else all_map_entries (view store w)))
  else if a =? ATTR_GROUP_TABLE then some_value (encode_group_table (group_table_rows ctx (view membership w)))
  else if a =? ATTR_MAX_GROUPS_PER_FABRIC then some_value (tlv_uint MAX_GROUPS_PER_FABRIC)
  else if a =? ATTR_MAX_GROUP_KEYS_PER_FABRIC then some_value (tlv_uint MAX_GROUP_KEYS_PER_FABRIC)
  else Ok None.

Definition GK (A : Type) : Type := M (W * InvokeCtx) Empty_set A.

(** The status an operation of the store ends with. *)
Definition status_of_keys {A} (m : M GroupKeyStore Z A) (k : A → GK InvokeReply) : GK InvokeReply := λ s,
  let '(s, r) := on_keys m s in
  match r with
  | Ok a => k a s
  | Err status => (s, Ok (RStatus status))
  | Panic => (s, Panic)
  | OutOfFuel => (s, OutOfFuel)
  end.

Definition key_set_write (fabric : Z) (fields : bytes) : GK InvokeReply :=
  match decode_key_set_write_fields fields with
  | Ok (id, epochs) =>
      status_of_keys (upsert_keyset_epochs fabric id epochs) (λ _, ret (RStatus STATUS_SUCCESS))
  | Err KsMalformed => ret (RStatus STATUS_INVALID_COMMAND)
  | Err KsConstraint => ret (RStatus STATUS_CONSTRAINT_ERROR)
  | Panic => panic
  | OutOfFuel => out_of_fuel
  end.

(** [let Some(keyset_id) = decode_key_set_id(..) else { return INVALID_COMMAND }]. *)
Definition with_key_set_id (fields : bytes) (k : Z → GK InvokeReply) : GK InvokeReply :=
  match decode_key_set_id fields with
  | None => ret (RStatus STATUS_INVALID_COMMAND)
  | Some id => k id
  end.

Definition key_set_read (fabric id : Z) : GK InvokeReply :=
  let! (w, c) := get in
  match find_keyset fabric id (view store w), id =? IPK_KEY_SET_ID with
  | Some ks, _ =>
      let! f := lift (encode_key_set_read_response id (ks_start0 ks)) in ret (RData RESP_KEY_SET_READ f)
  | None, true => let! f := lift (encode_key_set_read_response id 0) in ret (RData RESP_KEY_SET_READ f)
  | None, false => ret (RStatus STATUS_NOT_FOUND)
  end.

Definition key_set_remove (fabric id : Z) : GK InvokeReply :=
  if id =? IPK_KEY_SET_ID then ret (RStatus STATUS_INVALID_COMMAND)
  else
    status_of_keys (remove_keyset fabric id) (λ map_changed,
      (if map_changed then modify (λ '(w, c), (w, push_changed ATTR_GROUP_KEY_MAP c)) else ret ()) ;;!
      ret (RStatus STATUS_SUCCESS)).

Definition key_set_read_all_indices (fabric : Z) : GK InvokeReply :=
  let! (w, c) := get in
  let ids := IPK_KEY_SET_ID ::
    List.filter (λ id, negb (id =? IPK_KEY_SET_ID)) (keyset_ids_for fabric (view store w)) in
  let! f := lift (encode_indices ids) in ret (RData RESP_KEY_SET_READ_ALL_INDICES f).

Definition group_keys_invoke (cmd : Z) (fields : bytes) : GK InvokeReply :=
  if negb ((cmd =? CMD_KEY_SET_WRITE) || (cmd =? CMD_KEY_SET_READ) || (cmd =? CMD_KEY_SET_REMOVE) ||
           (cmd =? CMD_KEY_SET_READ_ALL_INDICES))
  then ret (RStatus STATUS_UNSUPPORTED_COMMAND)
  else
    let! (w, c) := get in
    let fabric := ctx_fabric c in
    if fabric =? 0 then ret (RStatus STATUS_UNSUPPORTED_ACCESS)
    else if cmd =? CMD_KEY_SET_WRITE then key_set_write fabric fields
    else if cmd =? CMD_KEY_SET_READ then with_key_set_id fields (key_set_read fabric)
    else if cmd =? CMD_KEY_SET_REMOVE then with_key_set_id fields (key_set_remove fabric)
    else if cmd =? CMD_KEY_SET_READ_ALL_INDICES then key_set_read_all_indices fabric
    else panic.

Definition group_keys_write (a : Z) (data : bytes) (append : bool) : M (W * InvokeCtx) Z () :=
  if negb (a =? ATTR_GROUP_KEY_MAP) then throw STATUS_UNSUPPORTED_WRITE else
  let! (w, c) := get in
  let fabric := ctx_fabric c in
  if fabric =? 0 then throw STATUS_UNSUPPORTED_ACCESS else
  (if append then
     let! (g, k) := lift (or_constraint (decode_single_struct data decode_group_key_map_entry_body)) in
     lift (check_map_entry fabric (g, k) (view store w)) ;;!
     on_keys (modify (append_map_entry fabric g k))
   else
     let! entries := lift (or_constraint (decode_struct_list data decode_group_key_map_entry_body)) in
     lift (check_map_entries fabric entries (view store w)) ;;!
     on_keys (modify (replace_fabric_map fabric entries))) ;;!
  modify (λ '(w, c), (w, push_changed ATTR_GROUP_KEY_MAP c)).

Definition GroupKeyManagementHandler : ClusterHandler W := {|
  cluster_id := CLUSTER_GROUP_KEY_MANAGEMENT;
  attributes := [ATTR_GROUP_KEY_MAP; ATTR_GROUP_TABLE; ATTR_MAX_GROUPS_PER_FABRIC;
                 ATTR_MAX_GROUP_KEYS_PER_FABRIC];
  h_read := group_keys_read;
  h_invoke := group_keys_invoke;
  accepted_commands := [CMD_KEY_SET_WRITE; CMD_KEY_SET_READ; CMD_KEY_SET_REMOVE; CMD_KEY_SET_READ_ALL_INDICES];
  generated_commands := [RESP_KEY_SET_READ; RESP_KEY_SET_READ_ALL_INDICES];
  h_write := group_keys_write;
  feature_map := 0;
  revision := 2;
  read_privilege _ := PRIVILEGE_VIEW;
  write_privilege _ := PRIVILEGE_MANAGE;
  invoke_privilege _ := PRIVILEGE_ADMINISTER;
  events := [];
  event_privilege _ := PRIVILEGE_VIEW;
  h_stimulate := default_stimulate
|}.
End handler.

(** ** The invariant of the table *)

Definition epoch_ok (e : bytes * Z) : Prop := zlen (fst e) = 16 ∧ bytes_ok (fst e) ∧ in_u 64 (snd e).

(** One to three keys of 16 bytes, with increasing start times. *)
Definition epochs_ok (l : list (bytes * Z)) : Prop :=
  1 ≤ zlen l ≤ 3 ∧ Forall epoch_ok l ∧ StronglySorted Z.lt (map snd l).

Definition keyset_ok (k : GroupKeySet) : Prop :=
  in_u 8 (ks_fabric k) ∧ in_u 16 (ks_id k) ∧ epochs_ok (ks_epochs k).

Definition group_key_count (fabric : Z) (keysets : list GroupKeySet) : Z :=
  zlen (List.filter (λ k, (ks_fabric k =? fabric) && negb (ks_id k =? IPK_KEY_SET_ID)) keysets).

Definition keyset_name (k : GroupKeySet) : Z * Z := (ks_fabric k, ks_id k).

Definition row_ok (s : GroupKeyStore) (m : GroupKeyMapEntry) : Prop :=
  in_u 8 (mk_fabric m) ∧ in_u 16 (mk_group m) ∧ mk_group m ≠ 0 ∧ in_u 16 (mk_keyset m) ∧
  keyset_exists (mk_fabric m) (mk_keyset m) s = true.

(** Key sets are named by fabric and id and well formed, a fabric has at most one
    besides its IPK, and no row of the map dangles. *)
Definition keys_ok (s : GroupKeyStore) : Prop :=
  NoDup (map keyset_name (gk_keysets s)) ∧ Forall keyset_ok (gk_keysets s) ∧
  (∀ fabric, group_key_count fabric (gk_keysets s) ≤ MAX_GROUP_KEYS_PER_FABRIC) ∧
  Forall (row_ok s) (gk_map s).

Lemma keyset_at_name f i k : keyset_at f i k = true ↔ keyset_name k = (f, i).
Proof. unfold keyset_at, keyset_name. rewrite andb_true_iff, !Z.eqb_eq. split; [by intros [-> ->]|by intros [=]]. Qed.

Lemma exists_name f i s : keyset_exists f i s = true ↔ (f, i) ∈ map keyset_name (gk_keysets s).
Proof.
  unfold keyset_exists. rewrite List.existsb_exists, list_elem_of_fmap.
  setoid_rewrite <- list_elem_of_In. setoid_rewrite keyset_at_name. naive_solver.
Qed.

(** Epochs survive being laid out in slots. *)
Lemma ks_epochs_with key0 start0 l f i : zlen ((key0, start0) :: l) ≤ 3 →
  ks_epochs (with_epochs key0 ((key0, start0) :: l) f i) = (key0, start0) :: l.
Proof.
  rewrite zlen_cons. intros Hl. destruct l as [|[k1 t1] [|[k2 t2] [|x l] ] ]; try done.
  rewrite !zlen_cons in Hl. pose proof (zlen_nonneg l). lia.
Qed.

Lemma with_epochs_ok epochs f i key0 start0 l : epochs = (key0, start0) :: l → in_u 8 f → in_u 16 i →
  epochs_ok epochs → keyset_ok (with_epochs key0 epochs f i).
Proof.
  intros -> Hf Hi He. do 2 (split; [done|]). rewrite ks_epochs_with; [done|].
  by destruct He as [ [_ ?] _].
Qed.

Lemma update_first_spec {A} (f : A → bool) g l l' : update_first f g l = Some l' →
  ∃ a x b, l = a ++ x :: b ∧ l' = a ++ g x :: b ∧ f x = true ∧ Forall (λ y, f y = false) a.
Proof.
  revert l'. induction l as [|y l IH]; intros l'; cbn; [done|]. destruct (f y) eqn:Hf.
  - intros [= <-]. exists [], y, l. by split_and!.
  - destruct (update_first f g l) as [k|]; [|done]. intros [= <-].
    destruct (IH k eq_refl) as (a & x & b & -> & -> & Hx & Ha). exists (y :: a), x, b.
    split_and!; try done. by constructor.
Qed.

Lemma update_first_none {A} (f : A → bool) g l : update_first f g l = None → Forall (λ y, f y = false) l.
Proof.
  induction l as [|y l IH]; cbn; [constructor|]. destruct (f y) eqn:Hf; [done|].
  destruct (update_first f g l); [done|]. constructor; auto.
Qed.

Lemma count_app f l k : group_key_count f (l ++ k) = group_key_count f l + group_key_count f k.
Proof. unfold group_key_count. rewrite List.filter_app. apply zlen_app. Qed.

Lemma count_cons f k l : group_key_count f (k :: l) = group_key_count f [k] + group_key_count f l.
Proof. apply (count_app f [k] l). Qed.

Lemma count_one f k k' : keyset_name k = keyset_name k' → group_key_count f [k] = group_key_count f [k'].
Proof. unfold keyset_name, group_key_count. cbn. intros [= -> ->]. by destruct (_ && _). Qed.

(** The rows survive a change that keeps the key sets they name. *)
Lemma rows_kept s s' : gk_map s' = gk_map s →
  (∀ x, x ∈ map keyset_name (gk_keysets s) → x ∈ map keyset_name (gk_keysets s')) →
  Forall (row_ok s) (gk_map s) → Forall (row_ok s') (gk_map s').
Proof.
  intros -> Hsub Hall. eapply Forall_impl; [exact Hall|]. intros m (H1 & H2 & H3 & H4 & H5%exists_name). do 4 (split; [done|]).
  by apply exists_name, Hsub.
Qed.

Lemma keys_ok_save s : keys_ok s → keys_ok (gk_save s).
Proof. done. Qed.

Lemma replace_keys_ok s a x y b : gk_keysets s = a ++ x :: b → keyset_name y = keyset_name x →
  keyset_ok y → keys_ok s → keys_ok (gk_set (a ++ y :: b) (gk_map s) s).
Proof.
  intros Hl Hn Hy (Hnd & Hks & Hc & Hm).
  assert (Hnames : map keyset_name (a ++ y :: b) = map keyset_name (gk_keysets s)).
  { rewrite Hl, !map_app. cbn. by rewrite Hn. }
  split; cbn [gk_keysets gk_set]; [by rewrite Hnames|]. split; [|split].
  - rewrite Hl in Hks. rewrite Forall_app, Forall_cons in *. naive_solver.
  - intros f. specialize (Hc f). rewrite Hl in Hc. rewrite count_app, count_cons in *.
    by rewrite (count_one f y x).
  - apply (rows_kept s); [done| |done]. intros n. cbn [gk_keysets gk_set]. by rewrite Hnames.
Qed.

Lemma push_keys_ok s y : keyset_name y ∉ map keyset_name (gk_keysets s) → keyset_ok y →
  ks_id y = IPK_KEY_SET_ID ∨ group_key_count (ks_fabric y) (gk_keysets s) < MAX_GROUP_KEYS_PER_FABRIC →
  keys_ok s → keys_ok (gk_set (gk_keysets s ++ [y]) (gk_map s) s).
Proof.
  intros Hfree Hy Hroom (Hnd & Hks & Hc & Hm). split; cbn [gk_keysets gk_set]; [|split; [|split] ].
  - rewrite map_app. apply NoDup_app. split; [done|]. split; [|apply NoDup_singleton].
    by intros x Hx ->%list_elem_of_singleton.
  - apply Forall_app. split; [done|by apply Forall_singleton].
  - intros f. specialize (Hc f). rewrite count_app. unfold group_key_count at 2. cbn.
    destruct (Z.eqb_spec (ks_fabric y) f) as [<-|]; [|cbn; rewrite zlen_nil; lia].
    destruct (Z.eqb_spec (ks_id y) IPK_KEY_SET_ID) as [|Hne]; cbn; [rewrite zlen_nil; lia|].
    destruct Hroom as [|Hroom]; [done|]. change (zlen [y]) with 1. unfold MAX_GROUP_KEYS_PER_FABRIC in *. lia.
  - apply (rows_kept s); [done| |done]. intros n. cbn [gk_keysets gk_set]. rewrite map_app. set_solver.
Qed.

Lemma find_app_no f l k : Forall (λ x : GroupKeySet, f x = false) l → List.find f (l ++ k) = List.find f k.
Proof. induction 1 as [|x l Hx Hl IH]; [done|]. cbn. by rewrite Hx. Qed.

Lemma find_none f l : Forall (λ x : GroupKeySet, f x = false) l → List.find f l = None.
Proof. intros H. rewrite <- (app_nil_r l). by rewrite find_app_no. Qed.

(** A look-up of another name does not see the change of one key set. *)
Lemma find_other f a x y b : f x = false → f y = false →
  List.find f (a ++ x :: b) = List.find (A:=GroupKeySet) f (a ++ y :: b).
Proof.
  intros Hx Hy. induction a as [|z a IH]; cbn; [by rewrite Hx, Hy|]. by destruct (f z).
Qed.

Lemma keyset_at_other f i f' i' k : keyset_name k = (f, i) → (f', i') ≠ (f, i) → keyset_at f' i' k = false.
Proof. intros Hn Hne. apply not_true_iff_false. rewrite keyset_at_name. congruence. Qed.

Lemma not_at_name f i l : Forall (λ k, keyset_at f i k = false) l → (f, i) ∉ map keyset_name l.
Proof.
  intros H (k & Hn & Hk)%list_elem_of_fmap. rewrite Forall_forall in H. specialize (H k Hk).
  symmetry in Hn. apply keyset_at_name in Hn. congruence.
Qed.

(** What a write of a key set does: the named key set holds exactly the given
    epochs, every other is untouched. *)
Definition keyset_written (f i : Z) (epochs : list (bytes * Z)) (s s' : GroupKeyStore) : Prop :=
  ks_epochs <$> find_keyset f i s' = Some epochs ∧
  ∀ f' i', (f', i') ≠ (f, i) → find_keyset f' i' s' = find_keyset f' i' s.

(** A new key set other than the IPK needs room. *)
Definition no_room (f i : Z) (s : GroupKeyStore) : Prop :=
  i ≠ IPK_KEY_SET_ID ∧ find_keyset f i s = None ∧
  MAX_GROUP_KEYS_PER_FABRIC ≤ group_key_count f (gk_keysets s).

Lemma find_at f i a x b : Forall (λ k, keyset_at f i k = false) a → keyset_at f i x = true →
  List.find (keyset_at f i) (a ++ x :: b) = Some x.
Proof. intros Ha Hx. rewrite find_app_no by done. cbn. by rewrite Hx. Qed.

Lemma upsert_spec f i epochs s : keys_ok s → in_u 8 f → in_u 16 i → epochs_ok epochs →
  ∃ s' r, upsert_keyset_epochs f i epochs s = (s', r) ∧ keys_ok s' ∧ gk_map s' = gk_map s ∧
    match r with
    | Ok _ => keyset_written f i epochs s s' ∧ ¬ no_room f i s
    | Err e => e = STATUS_RESOURCE_EXHAUSTED ∧ s' = s ∧ no_room f i s
    | _ => False
    end.
Proof.
  intros Hs Hf Hi He. unfold upsert_keyset_epochs.
  destruct epochs as [|[key0 start0] l]; [destruct He as [ [H _] _]; by vm_compute in H|].
  destruct (Z.ltb_spec 3 (zlen ((key0, start0) :: l))) as [|H3]; [destruct He; lia|].
  pose proof (ks_epochs_with key0 start0 l f i H3) as Hw.
  assert (Hnew : keyset_ok (with_epochs key0 ((key0, start0) :: l) f i)) by (by eapply with_epochs_ok).
  remember ((key0, start0) :: l) as epochs eqn:Heq. clear Heq H3.
  destruct (update_first _ _ _) as [keysets|] eqn:Hu.
  - apply update_first_spec in Hu as (a & x & b & Hl & -> & Hx & Ha). pose proof Hx as Hx'.
    apply keyset_at_name in Hx. injection Hx as Hxf Hxi. rewrite Hxf, Hxi.
    eexists _, _. split; [done|]. split; [|split; [done|split; [split|] ] ]; cycle -1.
    { intros (_ & Hnone & _). unfold find_keyset in Hnone. by rewrite Hl, (find_at f i a x b) in Hnone. }
    + apply keys_ok_save. apply (replace_keys_ok s a x); [done|by apply keyset_at_name in Hx'|done|done].
    + unfold find_keyset. cbn [gk_keysets gk_save gk_set]. rewrite find_app_no by done. cbn [List.find].
      replace (keyset_at f i _) with true by (symmetry; by apply keyset_at_name).
      change (Some (ks_epochs (with_epochs key0 epochs f i)) = Some epochs). by rewrite Hw.
    + intros f' i' Hne. unfold find_keyset. cbn [gk_keysets gk_save gk_set]. rewrite Hl.
      apply find_other; apply (keyset_at_other f i); try done. by apply keyset_at_name.
  - apply update_first_none in Hu.
    assert (Hfind : find_keyset f i s = None) by by apply find_none.
    change (zlen (List.filter _ (gk_keysets s))) with (group_key_count f (gk_keysets s)).
    destruct (negb (i =? IPK_KEY_SET_ID) && (MAX_GROUP_KEYS_PER_FABRIC <=? group_key_count f (gk_keysets s))) eqn:Hfull.
    { apply andb_true_iff in Hfull as [Hne%negb_true_iff%Z.eqb_neq Hmax%Z.leb_le].
      eexists _, _. split; [done|]. by split_and!. }
    eexists _, _. split; [done|]. split; [|split; [done|split; [split|] ] ]; cycle -1.
    { intros (Hne & _ & Hmax). apply andb_false_iff in Hfull as [H%negb_false_iff%Z.eqb_eq|H%Z.leb_gt]; lia. }
    + apply keys_ok_save, push_keys_ok; [by apply not_at_name|done| |done]. cbn [ks_id ks_fabric with_epochs].
      apply andb_false_iff in Hfull as [H%negb_false_iff%Z.eqb_eq|H%Z.leb_gt]; [by left|by right].
    + unfold find_keyset. cbn [gk_keysets gk_save gk_set]. rewrite find_app_no by done. cbn [List.find].
      replace (keyset_at f i _) with true by (symmetry; by apply keyset_at_name).
      change (Some (ks_epochs (with_epochs key0 epochs f i)) = Some epochs). by rewrite Hw.
    + intros f' i' Hne. unfold find_keyset. cbn [gk_keysets gk_save gk_set].
      assert (Hn : keyset_at f' i' (with_epochs key0 epochs f i) = false) by by apply (keyset_at_other f i).
      generalize (gk_keysets s). intros k. induction k as [|z k IH]; cbn; [by rewrite Hn|]. by destruct (keyset_at _ _ z).
Qed.

Lemma NoDup_map_filter {A B} (g : A → B) f l : NoDup (map g l) → NoDup (map g (List.filter f l)).
Proof.
  induction l as [|x l IH]; cbn; [done|]. intros [Hx Hl]%NoDup_cons. destruct (f x); [|by apply IH].
  cbn. apply NoDup_cons. split; [|by apply IH]. intros (y & Heq & [Hy _]%elem_of_filter_list)%list_elem_of_fmap.
  apply Hx. rewrite Heq. by apply (list_elem_of_fmap_2 g).
Qed.

Lemma filter_keys_ok keep (keeprow : GroupKeyMapEntry → bool) s :
  (∀ k m, k ∈ gk_keysets s → m ∈ gk_map s → keyset_name k = (mk_fabric m, mk_keyset m) →
     keeprow m = true → keep k = true) →
  keys_ok s → keys_ok (gk_set (List.filter keep (gk_keysets s)) (List.filter keeprow (gk_map s)) s).
Proof.
  intros Hkeep (Hnd & Hks & Hc & Hm). split; cbn [gk_keysets gk_set]; [|split; [|split] ].
  - by apply NoDup_map_filter.
  - apply Forall_forall. intros k [Hk _]%elem_of_filter_list. rewrite Forall_forall in Hks. by apply Hks.
  - intros f. unfold group_key_count in *. rewrite filter_comm. etransitivity; [apply count_sublist|apply Hc].
  - apply Forall_forall. intros m [Hin Hk]%elem_of_filter_list. rewrite Forall_forall in Hm.
    destruct (Hm m Hin) as (H1 & H2 & H3 & H4 & H5). do 4 (split; [done|]).
    apply exists_name in H5. apply list_elem_of_fmap in H5 as (k & Hn & Hki).
    apply exists_name, list_elem_of_fmap. exists k. split; [done|]. apply elem_of_filter_list.
    split; [done|]. by apply (Hkeep k m).
Qed.

Lemma filter_zlen_same {A} (f : A → bool) l : zlen (List.filter f l) = zlen l → List.filter f l = l.
Proof.
  induction l as [|x l IH]; cbn; [done|]. destruct (f x); rewrite ?zlen_cons.
  - intros H. f_equal. apply IH. lia.
  - pose proof (count_sublist f l). lia.
Qed.

(** Removing a key set takes its rows with it. *)
Lemma remove_spec f i s : keys_ok s →
  ∃ s' r, remove_keyset f i s = (s', r) ∧ keys_ok s' ∧
    match r with
    | Ok _ => find_keyset f i s' = None ∧ gk_map s' = List.filter (λ m, negb (row_of f i m)) (gk_map s)
    | Err e => e = STATUS_NOT_FOUND ∧ gk_keysets s' = gk_keysets s ∧ gk_map s' = gk_map s
    | _ => False
    end.
Proof.
  intros Hs. unfold remove_keyset. destruct (Z.eqb_spec (zlen (List.filter (λ k, negb (keyset_at f i k)) (gk_keysets s))) (zlen (gk_keysets s))) as [Heq|_].
  - apply filter_zlen_same in Heq. rewrite Heq. eexists _, _. split; [done|]. split; [by destruct s|done].
  - eexists _, _. split; [done|]. split; [|split; [|done] ].
    + apply keys_ok_save, filter_keys_ok; [|done]. intros k m _ _ Hn Hrow.
      apply negb_true_iff. apply negb_true_iff in Hrow. apply not_true_iff_false. rewrite keyset_at_name, Hn.
      intros [= H1 H2]. unfold row_of in Hrow. rewrite H1, H2, !Z.eqb_refl in Hrow. done.
    + apply find_none, Forall_forall. cbn. by intros k [_ Hk%negb_true_iff]%elem_of_filter_list.
Qed.

Lemma purge_keys_ok f s : keys_ok s → keys_ok (gk_purge_fabric f s).
Proof.
  intros Hs. apply keys_ok_save, filter_keys_ok; [|done]. by intros k m _ _ [= -> _].
Qed.

Lemma rows_ok_set rows s : keys_ok s → Forall (row_ok s) rows → keys_ok (gk_set (gk_keysets s) rows s).
Proof. intros (H1 & H2 & H3 & _) Hr. by split_and!. Qed.

Lemma check_map_entry_ok (f g k : Z) s : in_u 8 f → in_u 16 g → in_u 16 k → check_map_entry f (g, k) s = Ok () →
  row_ok s {| mk_fabric := f; mk_group := g; mk_keyset := k |}.
Proof.
  unfold check_map_entry. cbn. intros Hf Hg Hk. destruct (Z.eqb_spec g 0); cbn; [done|].
  destruct (keyset_exists f k s) eqn:He; [|done]. by do 4 (split; [done|]).
Qed.

Lemma check_map_entries_ok (f : Z) l s : in_u 8 f → Forall (λ e, in_u 16 (fst e) ∧ in_u 16 (snd e)) l →
  match check_map_entries f l s with
  | Ok _ => Forall (row_ok s) (map (λ '(g, k), {| mk_fabric := f; mk_group := g; mk_keyset := k |}) l)
  | Err e => e = STATUS_CONSTRAINT_ERROR
  | _ => False
  end.
Proof.
  intros Hf. induction 1 as [|[g k] l [Hg Hk] Hl IH]; cbn [check_map_entries]; [constructor|].
  destruct (check_map_entry f (g, k) s) as [ []|e| |] eqn:Hc; cbn [res_bind].
  - destruct (check_map_entries f l s); try done. constructor; [by apply check_map_entry_ok|done].
  - unfold check_map_entry in Hc. by destruct (_ || _); simplify_eq.
  - unfold check_map_entry in Hc. by destruct (_ || _).
  - unfold check_map_entry in Hc. by destruct (_ || _).
Qed.

Lemma append_keys_ok f g k s : keys_ok s → row_ok s {| mk_fabric := f; mk_group := g; mk_keyset := k |} →
  keys_ok (append_map_entry f g k s).
Proof.
  intros Hs Hr. apply keys_ok_save, rows_ok_set; [done|]. apply Forall_app.
  split; [apply Hs|by apply Forall_singleton].
Qed.

Lemma replace_map_ok f l s : keys_ok s →
  Forall (row_ok s) (map (λ '(g, k), {| mk_fabric := f; mk_group := g; mk_keyset := k |}) l) →
  keys_ok (replace_fabric_map f l s).
Proof.
  intros Hs Hr. apply keys_ok_save, rows_ok_set; [done|]. apply Forall_app. split; [|done].
  apply Forall_forall. intros m [Hm _]%elem_of_filter_list. destruct Hs as (_ & _ & _ & Hs).
  rewrite Forall_forall in Hs. by apply Hs.
Qed.

(** ** The field decoders *)

Definition fields_typed (f : KeySetFields) : Prop :=
  from_option (in_u 16) True (kf_id f) ∧ length (kf_keys f) = 3%nat ∧ length (kf_starts f) = 3%nat ∧
  Forall (from_option bytes_ok True) (kf_keys f) ∧ Forall (from_option (in_u 64) True) (kf_starts f).

Lemma slot_key_ok f i : fields_typed f →
  match slot_key f i with
  | Ok (Some k) => zlen k = 16 ∧ bytes_ok k ∧ kf_keys f !! i = Some (Some k)
  | Ok None => kf_keys f !! i = Some None ∨ kf_keys f !! i = None
  | Err e => True
  | _ => False
  end.
Proof.
  intros (_ & _ & _ & Hk & _). unfold slot_key. destruct (kf_keys f !! i) as [ [k|]|] eqn:Hl; [|by left|by right].
  destruct (Z.eqb_spec (zlen k) 16); [|done]. split_and!; [done| |done].
  by apply (Forall_lookup_1 _ _ _ _ Hk Hl).
Qed.

Lemma slot_start_ok f i t : fields_typed f → slot_start f i = Some t → in_u 64 t.
Proof.
  intros (_ & _ & _ & _ & Hs). unfold slot_start. destruct (kf_starts f !! i) as [ [x|]|] eqn:Hl; try done.
  intros [= <-]. by apply (Forall_lookup_1 _ _ _ _ Hs Hl).
Qed.

Lemma sorted_snoc l x y : StronglySorted Z.lt (l ++ [x]) → x < y → StronglySorted Z.lt ((l ++ [x]) ++ [y]).
Proof.
  intros Hs Hlt. induction l as [|z l IH]; cbn in *.
  - repeat constructor. done.
  - apply StronglySorted_inv in Hs as [Hs Hz]. constructor; [by apply IH|].
    rewrite !Forall_app, !Forall_singleton in *. destruct Hz as [? ?]. split_and!; [done|done|lia].
Qed.

(** The loop extends a non-empty increasing list of epochs. *)
Lemma later_epochs_ok f slots prev k0 l :
  fields_typed f → Forall epoch_ok (l ++ [(k0, prev)]) → StronglySorted Z.lt (map snd (l ++ [(k0, prev)])) →
  match later_epochs f slots prev (l ++ [(k0, prev)]) with
  | Ok r => Forall epoch_ok r ∧ StronglySorted Z.lt (map snd r) ∧ zlen l + 1 ≤ zlen r ≤ zlen l + 1 + zlen slots
  | Err _ => True
  | _ => False
  end.
Proof.
  intros Hf. revert prev k0 l. induction slots as [|i slots IH]; intros prev k0 l Hok Hs; cbn [later_epochs].
  { do 2 (split; [done|]). clear. zl. }
  pose proof (slot_key_ok f i Hf) as Hk. destruct (slot_key f i) as [ [k|]|e| |]; cbn [res_bind]; try done.
  - destruct Hk as (Hl & Hb & _). destruct (slot_start f i) as [t|] eqn:Ht; cbn [ok_or res_bind]; [|done].
    destruct (Z.eqb_spec t 0); [done|]. destruct (Z.leb_spec t prev); [done|]. cbn [orb].
    assert (Hok' : Forall epoch_ok ((l ++ [(k0, prev)]) ++ [(k, t)])).
    { apply Forall_app. split; [done|]. apply Forall_singleton. do 2 (split; [done|]).
      by apply (slot_start_ok f i). }
    assert (Hs' : StronglySorted Z.lt (map snd ((l ++ [(k0, prev)]) ++ [(k, t)]))).
    { rewrite map_app in *. cbn [map snd] in *. rewrite map_app in *. by apply sorted_snoc. }
    specialize (IH t k (l ++ [(k0, prev)]) Hok' Hs').
    destruct (later_epochs _ _ _ _) as [r|e| |]; try done.
    destruct IH as (H1 & H2 & H3). do 2 (split; [done|]). clear -H3. zl.
  - destruct (_ && _); [done|]. do 2 (split; [done|]). clear. pose proof (zlen_nonneg slots). zl.
Qed.

Lemma key_set_of_ok f : fields_typed f →
  match key_set_of f with
  | Ok (id, epochs) => in_u 16 id ∧ epochs_ok epochs
  | Err _ => True
  | _ => False
  end.
Proof.
  intros Hf. unfold key_set_of. destruct (kf_id f) as [id|] eqn:Hid; cbn [ok_or res_bind]; [|done].
  destruct (kf_policy f) as [p|]; cbn [ok_or res_bind]; [|done]. destruct (p =? 0); cbn [negb]; [|done].
  pose proof (slot_key_ok f 0 Hf) as Hk.
  destruct (slot_key f 0) as [ [k|]|e| |]; cbn [res_bind ok_or]; try done. destruct Hk as (Hl & Hb & _).
  assert (Hst : in_u 64 (default 0 (slot_start f 0))).
  { destruct (slot_start f 0) as [t|] eqn:Ht; [by apply (slot_start_ok f 0)|done]. }
  generalize dependent (default 0 (slot_start f 0)). intros st Hst.
  pose proof (later_epochs_ok f [1%nat; 2%nat] st k [] Hf) as Hlater. cbn [app map] in Hlater.
  destruct (later_epochs _ _ _ _) as [r|e| |]; cbn [res_bind];
    (destruct Hlater as (H1 & H2 & H3) || destruct Hlater || idtac); try done.
  all: try (by apply Forall_singleton); try (by repeat constructor).
  split; [by destruct Hf as [Hf _]; rewrite Hid in Hf|]. split; [rewrite zlen_nil in H3; change (zlen [_; _]) with 2 in H3; lia|done].
Qed.

Lemma safe_ks_skip {T} (s : T) el (P : T → Prop) : P s → safe (ks_skip_other s el) P.
Proof.
  intros Hs. unfold ks_skip_other. case_match; try (by apply safe_ret);
    (eapply safe_bind; [apply safe_skip|]; intros _ _; by apply safe_ret).
Qed.

Lemma try_u_typed w v : from_option (in_u w) True (try_u w v).
Proof. destruct (try_u w v) eqn:H; [|done]. by apply try_u_Some in H as [-> ?]. Qed.

Lemma fields_typed_key f i b : fields_typed f → bytes_ok b → fields_typed (kf_set_key i b f).
Proof.
  intros (H1 & H2 & H3 & H4 & H5) Hb. split; [done|]. cbn [kf_keys kf_starts kf_set_key].
  rewrite length_insert. do 2 (split; [done|]). split; [by apply Forall_insert|done].
Qed.

Lemma fields_typed_start f i v : fields_typed f → in_u 64 v → fields_typed (kf_set_start i v f).
Proof.
  intros (H1 & H2 & H3 & H4 & H5) Hv. split; [done|]. cbn [kf_keys kf_starts kf_set_start].
  rewrite length_insert. do 3 (split; [done|]). by apply Forall_insert.
Qed.

Lemma safe_key_set f el : fields_typed f → wf_element el → safe (key_set_step f el) fields_typed.
Proof.
  intros Hf [_ Hv]. assert (Ho : safe (ks_skip_other f el) fields_typed) by by apply safe_ks_skip.
  unfold key_set_step. destruct (el_value el) as [ |v|?|?|?|?|b| | | | |] eqn:Hel; cbn in Hv;
    repeat case_match; try exact Ho; apply safe_ret;
    try (by apply fields_typed_start); try (apply fields_typed_key; [done|by destruct Hv]);
    (split; [apply try_u_typed || exact (proj1 Hf)|exact (proj2 Hf)]).
Qed.

Lemma safe_key_set_write f el : fields_typed f → safe (key_set_write_step f el) fields_typed.
Proof.
  intros Hf. assert (Ho : safe (ks_skip_other f el) fields_typed) by by apply safe_ks_skip.
  unfold key_set_write_step. repeat case_match; try exact Ho.
  apply walk_safe; [|done]. intros f' e Hf' Hwf _. by apply safe_safe1, safe_key_set.
Qed.

Lemma no_fields_typed : fields_typed no_key_set_fields.
Proof. do 3 (split; [done|]). cbn. split; by rewrite !Forall_cons. Qed.

Lemma decode_key_set_write_safe data : bytes_ok data → small data →
  match decode_key_set_write_fields data with
  | Ok r => in_u 16 (fst r) ∧ epochs_ok (snd r)
  | Err _ => True
  | _ => False
  end.
Proof.
  intros Hb Hs. apply safe_reader; [|done|done].
  eapply safe_bind; [apply safe_next_el|]. intros el _. case_match; [apply safe_throw|].
  eapply (safe_bind _ _ fields_typed).
  - apply walk_safe; [|exact no_fields_typed]. intros f e Hf _ _. by apply safe_safe1, safe_key_set_write.
  - intros f Hf. apply safe_lift. pose proof (key_set_of_ok f Hf) as H0. by destruct (key_set_of f) as [ [? ?]|?| |].
Qed.

Lemma safe_map_entry : safe decode_group_key_map_entry_body (λ e, in_u 16 (fst e) ∧ in_u 16 (snd e)).
Proof.
  eapply (safe_bind _ _ (λ s, from_option (in_u 16) True (fst s) ∧ from_option (in_u 16) True (snd s))).
  - apply walk_safe; [|done]. intros [g k] el [Hg Hk] _ _. apply safe_safe1. unfold map_entry_step. cbn [fst snd].
    assert (Hskip : safe (opt_skip ;;! ret (g, k))
              (λ s, from_option (in_u 16) True (fst s) ∧ from_option (in_u 16) True (snd s))).
    { eapply safe_bind; [apply safe_skip|]. intros _ _. by apply safe_ret. }
    repeat case_match; try exact Hskip; apply safe_ret; (split; [done || apply try_u_typed|done || apply try_u_typed]).
  - intros [g k] [Hg Hk]. cbn [fst snd] in *.
    eapply (safe_bind _ _ (in_u 16)); [apply safe_lift; by destruct g|]. intros g' Hg'.
    eapply (safe_bind _ _ (in_u 16)); [apply safe_lift; by destruct k|]. intros k' Hk'. by apply safe_ret.
Qed.

Lemma decode_key_set_id_ok fields id : decode_key_set_id fields = Some id → in_u 16 id.
Proof. apply decode_group_id_ok. Qed.

(** *** What the controller sends *)

Definition slot_tree (key_tag start_tag : Z) (slot : option bytes * Z) : list tree :=
  match slot with
  | (Some key, start) => [Leaf (Context key_tag) (VBytes key); Leaf (Context start_tag) (VUint start)]
  | (None, _) => [Leaf (Context key_tag) VNull; Leaf (Context start_tag) VNull]
  end.

Definition key_set_children (id : Z) (epochs : list (bytes * Z)) : list tree :=
  [Leaf (Context 0) (VUint id); Leaf (Context 1) (VUint 0)] ++ slot_tree 2 3 (epoch_slot epochs 0) ++
  slot_tree 4 5 (epoch_slot epochs 1) ++ slot_tree 6 7 (epoch_slot epochs 2).

Lemma emits_seq {E} (m k : M Writer E ()) ts ch :
  writes m (concat (map enc_tree ts)) → emits k ch → emits (m ;;! k) (ts ++ ch).
Proof.
  intros Hw Hk w d Hd. rewrite (bind_ok _ _ _ _ _ (Hw w)), (Hk _ d) by done. cbn [w_buf wapp].
  unfold enc_children. by rewrite map_app, concat_app, <- !app_assoc.
Qed.

Lemma writes_slot kt st slot : writes (put_slot kt st slot) (concat (map enc_tree (slot_tree kt st slot))).
Proof.
  destruct slot as [ [k|] t]; cbn [put_slot slot_tree map concat]; rewrite app_nil_r; apply writes_seq.
  - apply writes_len_prefixed.
  - apply writes_put_uint.
  - apply writes_null.
  - apply writes_null.
Qed.

Definition key_set_tree (id : Z) (epochs : list (bytes * Z)) : tree :=
  Tlv.Node Anonymous KStruct [Tlv.Node (Context 0) KStruct (key_set_children id epochs)].

Lemma encode_key_set_write_at id epochs : 1 ≤ zlen epochs ≤ 3 →
  encode_key_set_write_fields_multi id epochs = Ok (enc_tree (key_set_tree id epochs)).
Proof.
  intros Hl. unfold encode_key_set_write_fields_multi.
  destruct (Z.ltb_spec (zlen epochs) 1); [lia|]. destruct (Z.ltb_spec 3 (zlen epochs)); [lia|]. cbn [orb].
  apply to_vec_writes, writes_struct. apply emits_cons; [|apply emits_end].
  apply writes_struct. apply emits_cons; [apply writes_put_uint|]. apply emits_cons; [apply writes_put_uint|].
  apply emits_seq; [apply writes_slot|]. apply emits_seq; [apply writes_slot|].
  rewrite <- (app_nil_r (slot_tree 6 7 _)). apply emits_seq; [apply writes_slot|apply emits_end].
Qed.

Definition with_slot (i : nat) (slot : option bytes * Z) (f : KeySetFields) : KeySetFields :=
  match slot with (Some k, t) => kf_set_start i t (kf_set_key i k f) | (None, _) => f end.

Lemma walks_slot i slot f ch f' : (i < 3)%nat →
  walks key_set_step (with_slot i slot f) ch f' →
  walks key_set_step f (slot_tree (2 + 2 * Z.of_nat i) (3 + 2 * Z.of_nat i) slot ++ ch) f'.
Proof.
  intros Hi Hw. destruct slot as [ [k|] t]; cbn [slot_tree app with_slot] in *.
  - apply walks_leaf with (kf_set_key i k f); [|apply walks_leaf with (kf_set_start i t (kf_set_key i k f)); [|done] ];
      (destruct i as [|[|[|i] ] ]; [| | |lia]); apply reads_ret.
  - apply walks_leaf with f; [|apply walks_leaf with f; [|done] ];
      (destruct i as [|[|[|i] ] ]; [| | |lia]); apply reads_ret.
Qed.

Definition slot_fields (id : Z) (epochs : list (bytes * Z)) : KeySetFields :=
  with_slot 2 (epoch_slot epochs 2) (with_slot 1 (epoch_slot epochs 1) (with_slot 0 (epoch_slot epochs 0)
    {| kf_id := try_u 16 id; kf_policy := Some 0; kf_keys := [None; None; None]; kf_starts := [None; None; None] |})).

Lemma walks_key_set id epochs : walks key_set_step no_key_set_fields (key_set_children id epochs) (slot_fields id epochs).
Proof.
  unfold key_set_children. cbn [app]. eapply walks_leaf; [apply reads_ret|]. eapply walks_leaf; [apply reads_ret|].
  apply (walks_slot 0); [lia|]. apply (walks_slot 1); [lia|]. rewrite <- (app_nil_r (slot_tree 6 7 _)).
  apply (walks_slot 2); [lia|]. cbn [kf_id kf_policy kf_keys kf_starts]. constructor.
Qed.

Lemma slot_key_at f i k : kf_keys f !! i = Some (Some k) → zlen k = 16 → slot_key f i = Ok (Some k).
Proof. intros Hk Hl. unfold slot_key. by rewrite Hk, Hl. Qed.

(** The fields of the slots are the epochs. *)
Lemma key_set_of_slots id epochs : in_u 16 id → epochs_ok epochs →
  key_set_of (slot_fields id epochs) = Ok (id, epochs).
Proof.
  intros Hid ( [Hl1 Hl3] & Hok & Hs).
  assert (Hi : try_u 16 id = Some id) by by apply try_u_Some.
  destruct epochs as [|[k0 t0] l]; [by vm_compute in Hl1|]. apply Forall_cons in Hok as [ (Hk0 & _ & Ht0) Hok].
  apply StronglySorted_inv in Hs as [Hs Hlt0]. cbn [fst snd] in *.
  destruct l as [|[k1 t1] l].
  { unfold key_set_of, slot_fields. cbn [kf_id with_slot epoch_slot lookup list_lookup kf_set_start kf_set_key].
    rewrite Hi. cbn [ok_or res_bind kf_policy Z.eqb negb]. rewrite (slot_key_at _ 0 k0) by done. done. }
  apply Forall_cons in Hok as [ (Hk1 & _ & Ht1) Hok]. apply StronglySorted_inv in Hs as [Hs Hlt1].
  cbn [fst snd map] in *. apply Forall_cons in Hlt0 as [Hlt0 _].
  assert (Hc1 : (t1 =? 0) || (t1 <=? t0) = false).
  { apply orb_false_iff. split; [apply Z.eqb_neq; destruct Ht0; lia|apply Z.leb_gt; lia]. }
  destruct l as [|[k2 t2] l].
  { unfold key_set_of, slot_fields. cbn [kf_id with_slot epoch_slot lookup list_lookup kf_set_start kf_set_key].
    rewrite Hi. cbn [ok_or res_bind kf_policy Z.eqb negb]. rewrite (slot_key_at _ 0 k0) by done.
    cbn [ok_or res_bind later_epochs]. rewrite (slot_key_at _ 1 k1) by done. cbn -[Z.eqb Z.leb orb].
    by rewrite Hc1. }
  apply Forall_cons in Hok as [ (Hk2 & _ & Ht2) Hok]. cbn [fst snd map] in *.
  apply Forall_cons in Hlt1 as [Hlt1 _].
  assert (Hc2 : (t2 =? 0) || (t2 <=? t1) = false).
  { apply orb_false_iff. split; [apply Z.eqb_neq; destruct Ht1; lia|apply Z.leb_gt; lia]. }
  destruct l as [|e l]; [|rewrite !zlen_cons in Hl3; pose proof (zlen_nonneg l); lia].
  unfold key_set_of, slot_fields. cbn [kf_id with_slot epoch_slot lookup list_lookup kf_set_start kf_set_key].
  rewrite Hi. cbn [ok_or res_bind kf_policy Z.eqb negb]. rewrite (slot_key_at _ 0 k0) by done.
  cbn [ok_or res_bind later_epochs]. rewrite (slot_key_at _ 1 k1) by done. cbn -[Z.eqb Z.leb orb later_epochs].
  rewrite Hc1. cbn [later_epochs]. rewrite Hk2. cbn -[Z.leb orb]. by rewrite Hc2.
Qed.

Lemma wf_slot kt st slot : 0 ≤ kt < 256 → 0 ≤ st < 256 →
  match slot with (Some k, t) => epoch_ok (k, t) | _ => True end → Forall wf_tree (slot_tree kt st slot).
Proof.
  intros Hk Hs He. destruct slot as [ [k|] t]; cbn [slot_tree]; (apply Forall_cons; split; [|apply Forall_singleton]).
  - destruct He as (Hl & Hb & _). cbn in *. split; [done|]. split; [|done]. split; [done|lia].
  - destruct He as (_ & _ & Ht). by apply (wf_uint _ _ 64).
  - by apply wf_null.
  - by apply wf_null.
Qed.

Lemma slot_ok epochs i : Forall epoch_ok epochs →
  match epoch_slot epochs i with (Some k, t) => epoch_ok (k, t) | _ => True end.
Proof.
  intros He. unfold epoch_slot. destruct (epochs !! i) as [ [k t]|] eqn:Hl; [|done].
  by apply (Forall_lookup_1 _ _ _ _ He Hl).
Qed.

Lemma wf_key_set id epochs : in_u 16 id → Forall epoch_ok epochs → Forall wf_tree (key_set_children id epochs).
Proof.
  intros Hid He. unfold key_set_children.
  apply Forall_app. split; [apply Forall_cons; split; [|apply Forall_singleton]; by apply (wf_uint _ _ 16)|].
  apply Forall_app. split; [apply wf_slot; [done|done|by apply slot_ok]|].
  apply Forall_app. split; apply wf_slot; try done; by apply slot_ok.
Qed.

Lemma slot_small kt st slot :
  match slot with (Some k, t) => epoch_ok (k, t) | _ => True end →
  Forall (λ t, zlen (enc_tree t) ≤ 33) (slot_tree kt st slot) ∧ zlen (slot_tree kt st slot) = 2.
Proof.
  intros He. destruct slot as [ [k|] t]; (split; [|done]); cbn [slot_tree]; rewrite !Forall_cons; split_and!; try done.
  - pose proof (zlen_bytes_leaf (Context kt) k). destruct He as [He _]. cbn in He. lia.
  - pose proof (zlen_uint_leaf (Context st) t). lia.
Qed.

Lemma small_key_set id epochs : Forall epoch_ok epochs → small (enc_tree (key_set_tree id epochs)).
Proof.
  intros He. unfold small, key_set_tree.
  assert (Hch : Forall (λ t, zlen (enc_tree t) ≤ 33) (key_set_children id epochs) ∧ zlen (key_set_children id epochs) = 8).
  { unfold key_set_children.
    destruct (slot_small 2 3 _ (slot_ok epochs 0 He)) as [H1 E1].
    destruct (slot_small 4 5 _ (slot_ok epochs 1 He)) as [H2 E2].
    destruct (slot_small 6 7 _ (slot_ok epochs 2 He)) as [H3 E3].
    rewrite !zlen_app, E1, E2, E3. split; [|done]. rewrite !Forall_app. split_and!; try done.
    apply Forall_cons; split; [|apply Forall_singleton]; (etransitivity; [apply zlen_uint_leaf|done]). }
  destruct Hch as [Hch Hlen]. pose proof (zlen_node (Context 0) KStruct _ 33 Hch) as Hn. rewrite Hlen in Hn.
  assert (Hch2 : Forall (λ t, zlen (enc_tree t) ≤ 274) [Tlv.Node (Context 0) KStruct (key_set_children id epochs)]).
  { apply Forall_singleton. lia. }
  pose proof (zlen_node Anonymous KStruct _ 274 Hch2) as Hm. change (zlen [_]) with 1 in Hm. lia.
Qed.

Lemma decode_key_set_write_at id epochs : in_u 16 id → epochs_ok epochs →
  decode_key_set_write_fields (enc_tree (key_set_tree id epochs)) = Ok (id, epochs).
Proof.
  intros Hid He. pose proof He as (_ & Hok & _). pose proof (wf_key_set id epochs Hid Hok) as Hwf.
  unfold decode_key_set_write_fields. apply reads_all; [|by apply small_key_set].
  assert (Hroot : Forall wf_tree [Tlv.Node (Context 0) KStruct (key_set_children id epochs)]).
  { by apply Forall_singleton, wf_node. }
  unfold read_key_set_write_fields, key_set_tree. rewrite enc_tree_split.
  eapply reads_bind; [by apply reads_next_el, wf_anon_node|].
  cbn [el_value root_el root_value start_of]. rewrite bool_decide_eq_true_2 by done. cbn [negb inner].
  eapply reads_bind_end.
  - apply walk_at; [done|]. eapply walks_node; [|constructor]. apply walk_at; [done|]. apply walks_key_set.
  - rewrite key_set_of_slots by done. apply reads_ret.
Qed.

(** ** Replies *)

Definition map_row_tree (row : Z * Z * Z) : tree :=
  let '(fabric, g, k) := row in
  Tlv.Node Anonymous KStruct
    [Leaf (Context 1) (VUint g); Leaf (Context 2) (VUint k); Leaf (Context 254) (VUint fabric)].

Definition map_row_typed (row : Z * Z * Z) : Prop :=
  let '(fabric, g, k) := row in in_u 8 fabric ∧ in_u 16 g ∧ in_u 16 k.

Lemma encode_map_ok rows : Forall map_row_typed rows →
  ∃ b, encode_group_key_map rows = Ok b ∧ element_bytes b.
Proof.
  intros Hr. exists (enc_tree (Tlv.Node Anonymous KArray (map map_row_tree rows))). split.
  - apply to_vec_writes, writes_array, emits_foldr. intros [ [f g] k]. apply writes_struct.
    do 3 (apply emits_cons; [apply writes_put_uint|]). apply emits_end.
  - eexists. split; [|done]. apply wf_anon_node, List.Forall_map. eapply Forall_impl; [exact Hr|].
    intros [ [f g] k] (Hf & Hg & Hk). apply wf_anon_node, Forall_cons. split; [by apply (wf_uint _ _ 16)|].
    apply Forall_cons. split; [by apply (wf_uint _ _ 16)|]. by apply Forall_singleton, (wf_uint _ _ 8).
Qed.

Definition group_row_tree (row : Z * Z * list Z) : tree :=
  let '(fabric, g, eps) := row in
  Tlv.Node Anonymous KStruct
    [Leaf (Context 1) (VUint g);
     Tlv.Node (Context 2) KArray (map (λ e, Leaf Anonymous (VUint e)) eps);
     Leaf (Context 254) (VUint fabric)].

Lemma encode_table_ok rows :
  Forall (λ '(f, g, eps), in_u 8 f ∧ in_u 16 g ∧ Forall (in_u 16) eps) rows →
  ∃ b, encode_group_table rows = Ok b ∧ element_bytes b.
Proof.
  intros Hr. exists (enc_tree (Tlv.Node Anonymous KArray (map group_row_tree rows))). split.
  - apply to_vec_writes, writes_array, emits_foldr. intros [ [f g] eps]. apply writes_struct.
    apply emits_cons; [apply writes_put_uint|]. apply emits_cons.
    { apply writes_array, emits_foldr. intros e. apply writes_put_uint. }
    apply emits_cons; [apply writes_put_uint|apply emits_end].
  - eexists. split; [|done]. apply wf_anon_node, List.Forall_map. eapply Forall_impl; [exact Hr|].
    intros [ [f g] eps] (Hf & Hg & He). apply wf_anon_node, Forall_cons. split; [by apply (wf_uint _ _ 16)|].
    apply Forall_cons. split; [apply wf_node; [done|by apply (wf_uints _ 16)]|].
    by apply Forall_singleton, (wf_uint _ _ 8).
Qed.

Lemma groups_by_fabric_in s x : x ∈ groups_by_fabric s →
  ∃ m, m ∈ gs_members s ∧ x = (gm_fabric m, gm_group m).
Proof.
  unfold groups_by_fabric. assert (H : ∀ l out, x ∈ foldl (λ out m, if bool_decide ((gm_fabric m, gm_group m) ∈ out)
      then out else out ++ [(gm_fabric m, gm_group m)]) out l →
      x ∈ out ∨ ∃ m, m ∈ l ∧ x = (gm_fabric m, gm_group m)).
  { induction l as [|m l IH]; intros out; cbn; [by left|]. intros [H|(m' & Hm & ->)]%IH.
    - case_bool_decide; [by left|]. apply elem_of_app in H as [H| ->%list_elem_of_singleton]; [by left|].
      right. exists m. by rewrite elem_of_cons; auto.
    - right. exists m'. by rewrite elem_of_cons; auto. }
  intros [Hn|H0]%H; [by apply not_elem_of_nil in Hn|done].
Qed.

Lemma table_rows_typed ctx s : table_ok s →
  Forall (λ '(f, g, eps), in_u 8 f ∧ in_u 16 g ∧ Forall (in_u 16) eps) (group_table_rows ctx s).
Proof.
  intros (_ & Hm & _). rewrite Forall_forall in Hm. apply List.Forall_map, Forall_forall.
  intros [f g] [(m & Hin & [= -> ->])%groups_by_fabric_in _]%elem_of_filter_list.
  destruct (Hm m Hin) as (H1 & H2 & _). split; [done|]. split; [done|]. apply List.Forall_map, Forall_forall.
  intros m' [Hm' _]%elem_of_filter_list. by destruct (Hm m' Hm') as (_ & _ & ?).
Qed.

Lemma key_set_response_ok id start0 : in_u 16 id → in_u 64 start0 →
  ∃ b, encode_key_set_read_response id start0 = Ok b ∧ fields_bytes b.
Proof.
  intros Hid Hst.
  pose (ch := [Leaf (Context 0) (VUint id); Leaf (Context 1) (VUint 0); Leaf (Context 2) VNull;
               Leaf (Context 3) (VUint start0); Leaf (Context 4) VNull; Leaf (Context 5) VNull;
               Leaf (Context 6) VNull; Leaf (Context 7) VNull]).
  exists (enc_tree (Tlv.Node Anonymous KStruct [Tlv.Node (Context 0) KStruct ch])). split.
  - apply to_vec_writes, writes_struct. apply emits_cons; [|apply emits_end]. apply writes_struct. unfold ch.
    repeat (apply emits_cons; [apply writes_put_uint || apply writes_null|]). apply emits_end.
  - right. do 2 eexists. split_and!; [|done|].
    + apply wf_anon_node, Forall_singleton, wf_node; [done|]. unfold ch.
      repeat (apply Forall_cons; split;
        [first [by apply wf_null|by apply (wf_uint _ _ 16)|by apply (wf_uint _ _ 64)]|]). done.
    + assert (Hch : Forall (λ t, zlen (enc_tree t) ≤ 17) ch).
      { unfold ch. repeat (apply Forall_cons; split; [apply zlen_uint_leaf || done|]). done. }
      pose proof (zlen_node (Context 0) KStruct ch 17 Hch) as Hn. change (zlen ch) with 8 in Hn.
      assert (Hch2 : Forall (λ t, zlen (enc_tree t) ≤ 146) [Tlv.Node (Context 0) KStruct ch]).
      { apply Forall_singleton. lia. }
      pose proof (zlen_node Anonymous KStruct _ 146 Hch2) as Hm. change (zlen [_]) with 1 in Hm.
      unfold small. lia.
Qed.

Lemma indices_ok ids : Forall (in_u 16) ids → zlen ids ≤ 2 ^ 32 →
  ∃ b, encode_indices ids = Ok b ∧ fields_bytes b.
Proof.
  intros Hi Hl. pose (items := map (λ g, Leaf Anonymous (VUint g)) ids).
  exists (enc_tree (Tlv.Node Anonymous KStruct [Tlv.Node (Context 0) KArray items])). split.
  - apply to_vec_writes, writes_struct. apply emits_cons; [|apply emits_end].
    apply writes_array, emits_foldr. intros e. apply writes_put_uint.
  - right. do 2 eexists. split_and!; [|done|].
    + apply wf_anon_node, Forall_singleton, wf_node; [done|]. by apply (wf_uints _ 16).
    + assert (Hch : Forall (λ t, zlen (enc_tree t) ≤ 17) items).
      { apply List.Forall_map, Forall_forall. intros g _. apply zlen_uint_leaf. }
      pose proof (zlen_node (Context 0) KArray items 17 Hch) as Hn.
      assert (zlen items = zlen ids) as Hz by (unfold items, zlen; by rewrite length_map). rewrite Hz in Hn.
      assert (Hch2 : Forall (λ t, zlen (enc_tree t) ≤ 2 ^ 40) [Tlv.Node (Context 0) KArray items]).
      { apply Forall_singleton. lia. }
      pose proof (zlen_node Anonymous KStruct _ (2 ^ 40) Hch2) as Hm. change (zlen [_]) with 1 in Hm.
      unfold small. lia.
Qed.

(** ** The cluster keeps the invariant *)

Lemma decode_key_set_id_none fields : decode_key_set_id fields = None ∨ ∃ id, decode_key_set_id fields = Some id ∧ in_u 16 id.
Proof. destruct (decode_key_set_id fields) as [id|] eqn:H; [right|by left]. eauto using decode_key_set_id_ok. Qed.

Lemma find_keyset_ok f i s k : keys_ok s → find_keyset f i s = Some k → keyset_ok k ∧ k ∈ gk_keysets s.
Proof.
  intros (_ & Hk & _) Hf. apply List.find_some in Hf as [Hin _]. apply list_elem_of_In in Hin.
  rewrite Forall_forall in Hk. by split; [apply Hk|].
Qed.

Lemma start0_typed k : keyset_ok k → in_u 64 (ks_start0 k).
Proof. intros (_ & _ & _ & He & _). unfold ks_epochs in He. cbn in He. apply Forall_cons in He as [ (_ & _ & ?) _]. done. Qed.

Lemma keyset_ids_ok f s : keys_ok s →
  Forall (in_u 16) (List.filter (λ id, negb (id =? IPK_KEY_SET_ID)) (keyset_ids_for f s)) ∧
  zlen (List.filter (λ id, negb (id =? IPK_KEY_SET_ID)) (keyset_ids_for f s)) ≤ 1.
Proof.
  intros (_ & Hk & Hc & _). split.
  - apply Forall_forall. intros i [ (k & -> & [Hin _]%elem_of_filter_list)%list_elem_of_fmap _]%elem_of_filter_list.
    rewrite Forall_forall in Hk. by destruct (Hk k Hin) as (_ & ? & _).
  - specialize (Hc f). unfold group_key_count, MAX_GROUP_KEYS_PER_FABRIC in Hc. unfold keyset_ids_for.
    etransitivity; [|exact Hc]. apply Z.eq_le_incl. clear. induction (gk_keysets s) as [|k l IH]; [done|]. cbn.
    destruct (ks_fabric k =? f); cbn; [|exact IH]. destruct (ks_id k =? IPK_KEY_SET_ID); cbn; [exact IH|].
    by rewrite !zlen_cons, IH.
Qed.

Section cluster.
Context {W : Type} (store : Lens W GroupKeyStore) (membership : Lens W GroupMembershipStore).
Context {Hlens : LensLaws store}.
Context (w : W) (Hs : keys_ok (view store w)).

Lemma group_keys_read_ok a ctx : table_ok (view membership w) →
  ∃ o, group_keys_read store membership w a ctx = Ok o ∧ from_option element_bytes True o.
Proof.
  intros Ht. unfold group_keys_read.
  destruct (a =? ATTR_GROUP_KEY_MAP); [|destruct (a =? ATTR_GROUP_TABLE); [|destruct (a =? _); [|destruct (a =? _)] ] ].
  - apply some_value_ok, encode_map_ok. destruct Hs as (_ & _ & _ & Hm). rewrite Forall_forall in Hm.
    destruct (rc_filtered ctx).
    + unfold map_entries_for. rewrite map_map. apply List.Forall_map, Forall_forall.
      intros m [Hin Hf%Z.eqb_eq]%elem_of_filter_list. destruct (Hm m Hin) as (H1 & H2 & _ & H4 & _).
      rewrite <- Hf. done.
    + apply List.Forall_map, Forall_forall. intros m Hin. by destruct (Hm m Hin) as (H1 & H2 & _ & H4 & _).
  - by apply some_value_ok, encode_table_ok, table_rows_typed.
  - apply some_value_ok. by apply (element_uint _ 8).
  - apply some_value_ok. by apply (element_uint _ 8).
  - by exists None.
Qed.

Context (c : InvokeCtx) (Hc : ctx_typed c).

(** What a request may leave: a well-formed table, the same rest of the world,
    more changes reported. *)
Definition keys_run {E A} (m : M (W * InvokeCtx) E A) (Q : res E A → Prop) : Prop :=
  ∃ s' c' r, m (w, c) = ((update store s' w, c'), r) ∧ keys_ok s' ∧ ctx_kept c c' ∧ Q r.

Definition replies (r : res Empty_set InvokeReply) : Prop :=
  match r with Ok r => reply_ok r | _ => False end.

Definition write_result (r : res Z ()) : Prop :=
  match r with Ok _ => True | Err s => in_u 8 s | _ => False end.

(** Nothing happens but the answer. *)
Lemma keys_run_pure {E A} (m : M (W * InvokeCtx) E A) r (Q : res E A → Prop) :
  m (w, c) = ((w, c), r) → Q r → keys_run m Q.
Proof.
  intros Hm Hq. exists (view store w), c, r. rewrite update_view. split_and!; try done; apply ctx_kept_refl.
Qed.

Lemma run_status st : in_u 8 st → keys_run (ret (RStatus st)) replies.
Proof. intros Hst. by eapply keys_run_pure. Qed.

Lemma run_data cmd m : in_u 32 cmd → (∃ b, m = Ok b ∧ fields_bytes b) →
  keys_run (let! f := lift m in ret (RData cmd f)) replies.
Proof. intros Hcmd (b & -> & Hb). by eapply keys_run_pure. Qed.

Lemma status_8 st : in_u 8 st → reply_ok (RStatus st).
Proof. done. Qed.

Lemma key_set_write_run fields : bytes_ok fields → small fields →
  keys_run (key_set_write store (ctx_fabric c) fields) replies.
Proof.
  intros Hb Hsm. unfold key_set_write. pose proof (decode_key_set_write_safe fields Hb Hsm) as Hd.
  destruct (decode_key_set_write_fields fields) as [ [id epochs]|[]| |]; try done; try by apply run_status.
  destruct Hd as [Hid He]. cbn [fst snd] in *.
  destruct (upsert_spec (ctx_fabric c) id epochs (view store w) Hs Hc Hid He) as (s' & r & Hu & Hok & _ & Hr).
  unfold keys_run, status_of_keys, on_keys. rewrite Hu.
  destruct r as [ []|e| |]; try done.
  - exists s', c, (Ok (RStatus STATUS_SUCCESS)). split_and!; try done; apply ctx_kept_refl.
  - destruct Hr as [-> _]. eexists s', c, (Ok (RStatus STATUS_RESOURCE_EXHAUSTED)).
    split_and!; try done; apply ctx_kept_refl.
Qed.

Lemma key_set_read_run id : in_u 16 id → keys_run (key_set_read store (ctx_fabric c) id) replies.
Proof.
  intros Hid. unfold key_set_read.
  assert (Hget : ∀ k, keys_run (k (w, c)) replies → keys_run (let! s := get in k s) replies) by (intros k Hk; exact Hk).
  apply (Hget (λ '(w, c0), _)). destruct (find_keyset _ _ _) as [k|] eqn:Hf.
  - apply run_data; [done|]. apply key_set_response_ok; [done|]. apply start0_typed.
    by apply (find_keyset_ok _ _ _ _ Hs Hf).
  - destruct (id =? IPK_KEY_SET_ID); [|by apply run_status]. apply run_data; [done|]. by apply key_set_response_ok.
Qed.

Lemma key_set_remove_run id : keys_run (key_set_remove store (ctx_fabric c) id) replies.
Proof.
  unfold key_set_remove. destruct (id =? IPK_KEY_SET_ID); [by apply run_status|].
  destruct (remove_spec (ctx_fabric c) id (view store w) Hs) as (s' & r & Hu & Hok & Hr).
  unfold keys_run, status_of_keys, on_keys. rewrite Hu. destruct r as [ [] |e| |]; try done.
  - exists s', (push_changed ATTR_GROUP_KEY_MAP c), (Ok (RStatus STATUS_SUCCESS)).
    split_and!; try done; by apply ctx_kept_changed.
  - exists s', c, (Ok (RStatus STATUS_SUCCESS)). split_and!; try done; apply ctx_kept_refl.
  - destruct Hr as [-> _]. exists s', c, (Ok (RStatus STATUS_NOT_FOUND)). split_and!; try done; apply ctx_kept_refl.
Qed.

Lemma key_set_indices_run : keys_run (key_set_read_all_indices store (ctx_fabric c)) replies.
Proof.
  unfold key_set_read_all_indices.
  assert (Hget : ∀ k, keys_run (k (w, c)) replies → keys_run (let! s := get in k s) replies) by (intros k Hk; exact Hk).
  apply (Hget (λ '(w, c0), _)). apply run_data; [done|].
  destruct (keyset_ids_ok (ctx_fabric c) (view store w) Hs) as [Hi Hl].
  apply indices_ok; [by constructor|]. rewrite zlen_cons. lia.
Qed.

Lemma group_keys_invoke_run cmd fields : bytes_ok fields → small fields →
  keys_run (group_keys_invoke store cmd fields) replies.
Proof.
  intros Hb Hsm. unfold group_keys_invoke.
  assert (Hid : ∀ k, (∀ id, in_u 16 id → keys_run (k id) replies) → keys_run (with_key_set_id fields k) replies).
  { intros k Hk. unfold with_key_set_id.
    destruct (decode_key_set_id_none fields) as [-> | (id & -> & Hid)]; [by apply run_status|by apply Hk]. }
  destruct (Z.eqb_spec cmd CMD_KEY_SET_WRITE) as [->|H1]; [|destruct (Z.eqb_spec cmd CMD_KEY_SET_READ) as [->|H2];
    [|destruct (Z.eqb_spec cmd CMD_KEY_SET_REMOVE) as [->|H3];
      [|destruct (Z.eqb_spec cmd CMD_KEY_SET_READ_ALL_INDICES) as [->|H4]; [|by apply run_status] ] ] ]; cbn [negb orb].
  all: assert (Hget : ∀ k, keys_run (k (w, c)) replies → keys_run (let! s := get in k s) replies) by (intros k Hk; exact Hk).
  all: apply (Hget (λ '(w, c0), _)); destruct (ctx_fabric c =? 0); [by apply run_status|].
  - by apply key_set_write_run.
  - apply Hid. apply key_set_read_run.
  - apply Hid. intros id _. apply key_set_remove_run.
  - apply key_set_indices_run.
Qed.

(** The tail of a write: report the attribute. *)
Lemma write_tail f (s' : GroupKeyStore) : keys_ok s' →
  (∀ s, s = view store w → f s = s') →
  keys_run (on_keys store (modify f) ;;! modify (λ '(w, c), (w, push_changed ATTR_GROUP_KEY_MAP c))) write_result.
Proof.
  intros Hok Hf. exists s', (push_changed ATTR_GROUP_KEY_MAP c), (Ok ()).
  split_and!; try done; [|by apply ctx_kept_changed..].
  unfold bind, on_keys, modify. by rewrite (Hf (view store w)).
Qed.

Lemma lift_ok {E A B} (m : res E A) (k : A → M (W * InvokeCtx) E B) (Q : res E B → Prop) :
  match m with
  | Ok a => keys_run (k a) Q
  | Err e => Q (Err e)
  | _ => False
  end → keys_run (let! a := lift m in k a) Q.
Proof.
  intros Hm. destruct m as [a|e| |]; [exact Hm| |done|done]. by eapply keys_run_pure.
Qed.

Lemma bind_assoc_run {E A B C} (m : M (W * InvokeCtx) E A) (k : A → M (W * InvokeCtx) E B)
    (h : B → M (W * InvokeCtx) E C) Q :
  keys_run (let! a := m in let! b := k a in h b) Q → keys_run (let! b := (let! a := m in k a) in h b) Q.
Proof.
  intros (s' & c' & r & Hm & H). exists s', c', r. split; [|done]. rewrite <- Hm. unfold bind.
  by destruct (m (w, c)) as [ [w1 c1] [a|e| |]].
Qed.

Lemma group_keys_write_run a data append : bytes_ok data → small data →
  keys_run (group_keys_write store a data append) write_result.
Proof.
  intros Hb Hsm. unfold group_keys_write.
  destruct (negb (a =? ATTR_GROUP_KEY_MAP)); [by eapply keys_run_pure|].
  assert (Hget : ∀ k, keys_run (k (w, c)) write_result → keys_run (let! s := get in k s) write_result)
    by (intros k Hk; exact Hk).
  apply (Hget (λ '(w, c0), _)). destruct (ctx_fabric c =? 0); [by eapply keys_run_pure|].
  destruct append; apply bind_assoc_run, lift_ok; unfold or_constraint.
  - pose proof (decode_single_struct_safe _ _ data safe_map_entry Hb Hsm) as Hd.
    destruct (decode_single_struct _ _) as [ [g k]|e| |]; cbn [map_err]; try done.
    destruct Hd as [Hg Hk]. cbn [fst snd] in *. apply bind_assoc_run, lift_ok.
    destruct (check_map_entry _ _ _) as [ []|e| |] eqn:Hce; [| |by unfold check_map_entry in Hce; destruct (_ || _)..].
    + eapply write_tail; [|by intros s ->]. apply append_keys_ok; [done|]. by apply check_map_entry_ok.
    + unfold check_map_entry in Hce. by destruct (_ || _); simplify_eq.
  - pose proof (decode_struct_list_safe _ _ data safe_map_entry Hb Hsm) as Hd.
    destruct (decode_struct_list _ _) as [l|e| |]; cbn [map_err]; try done.
    apply bind_assoc_run, lift_ok.
    pose proof (check_map_entries_ok (ctx_fabric c) l (view store w) Hc Hd) as Hce.
    destruct (check_map_entries _ _ _) as [ []|e| |]; try done.
    + eapply write_tail; [|by intros s ->]. by apply replace_map_ok.
    + by rewrite Hce.
Qed.
End cluster.

#[export] Instance GroupKeys_ok {W} (I : W → Prop) (store : Lens W GroupKeyStore)
    (membership : Lens W GroupMembershipStore) :
  LensLaws store → (∀ w, I w → keys_ok (view store w)) → (∀ w, I w → table_ok (view membership w)) →
  LensKeeps I keys_ok store → HandlerOk I (GroupKeyManagementHandler store membership).
Proof.
  intros Hl Hk Ht Hkeep. split; try done; try (by repeat (apply Forall_cons; split; [done|])).
  - intros w a ctx Hw. apply group_keys_read_ok; auto.
  - intros w c cmd f Hw Hty Hf Hs.
    destruct (group_keys_invoke_run store w (Hk w Hw) c Hty cmd f Hf Hs) as (s' & c' & r & Hr & Hok & Hc & Hrep).
    destruct r as [r|e| |]; try done. exists (update store s' w), c', r. split_and!; try done; [by apply Hkeep|apply Hc..].
  - intros w c a data append Hw Hty Hf Hs.
    destruct (group_keys_write_run store w (Hk w Hw) c Hty a data append Hf Hs) as (s' & c' & r & Hr & Hok & Hc & Hrep).
    exists (update store s' w), c', r. split_and!; try done; [by apply Hkeep|apply Hc..].
  - intros w c s Hw. by apply default_stimulate_ok.
Qed.

(** ** Properties *)

Definition KeyWorld : Type := (GroupKeyStore * GroupMembershipStore)%type.
Definition keys_lens : Lens KeyWorld GroupKeyStore := {| view := fst; update s w := (s, snd w) |}.
Definition members_lens : Lens KeyWorld GroupMembershipStore := {| view := snd; update s w := (fst w, s) |}.

#[export] Instance keys_lens_laws : LensLaws keys_lens.
Proof. split; [done|by intros [s m] ]. Qed.

(** What the dispatcher and the commissioning code ask of the cluster. *)
Inductive KeyOp :=
  | KRead (a : Z) (ctx : ReadCtx)
  | KInvoke (cmd : Z) (fields : bytes) (c : InvokeCtx)
  | KWrite (a : Z) (data : bytes) (append : bool) (c : InvokeCtx)
  | KPurge (fabric : Z).

(** What the caller sees of it. *)
Inductive Seen :=
  | SRead (r : fin (option bytes))
  | SInvoke (c : InvokeCtx) (r : res Empty_set InvokeReply)
  | SWrite (c : InvokeCtx) (r : res Z ())
  | SPurged.

Definition key_op (o : KeyOp) (w : KeyWorld) : KeyWorld * Seen :=
  match o with
  | KRead a ctx => (w, SRead (group_keys_read keys_lens members_lens w a ctx))
  | KInvoke cmd fields c => let '((w, c), r) := group_keys_invoke keys_lens cmd fields (w, c) in (w, SInvoke c r)
  | KWrite a data append c => let '((w, c), r) := group_keys_write keys_lens a data append (w, c) in (w, SWrite c r)
  | KPurge fabric => ((gk_purge_fabric fabric (fst w), snd w), SPurged)
  end.

Fixpoint observe (ops : list KeyOp) (w : KeyWorld) : KeyWorld * list Seen :=
  match ops with
  | [] => (w, [])
  | o :: ops => let (w, s) := key_op o w in let (w, l) := observe ops w in (w, s :: l)
  end.

Definition op_typed (o : KeyOp) : Prop :=
  match o with
  | KInvoke _ b c | KWrite _ b _ c => ctx_typed c ∧ bytes_ok b ∧ small b
  | _ => True
  end.

Definition seen_ok (s : Seen) : Prop :=
  match s with
  | SRead r => ∃ o, r = Ok o ∧ from_option element_bytes True o
  | SInvoke _ r => replies r
  | SWrite _ r => write_result r
  | SPurged => True
  end.

Lemma key_op_ok o w : op_typed o → keys_ok (fst w) → table_ok (snd w) →
  keys_ok (fst (fst (key_op o w))) ∧ snd (fst (key_op o w)) = snd w ∧ seen_ok (snd (key_op o w)).
Proof.
  intros Ho Hk Ht. destruct o as [a ctx|cmd b c|a b append c|f]; cbn [key_op fst snd seen_ok].
  - split; [done|]. split; [done|]. by apply (group_keys_read_ok keys_lens members_lens w Hk).
  - destruct Ho as (Hc & Hb & Hs).
    destruct (group_keys_invoke_run keys_lens w Hk c Hc cmd b Hb Hs) as (s' & c' & r & -> & Hok & _ & Hr).
    by destruct w.
  - destruct Ho as (Hc & Hb & Hs).
    destruct (group_keys_write_run keys_lens w Hk c Hc a b append Hb Hs) as (s' & c' & r & -> & Hok & _ & Hr).
    by destruct w.
  - split; [by apply purge_keys_ok|done].
Qed.

(** C16. Whatever is asked of the cluster, in any order and with any bytes: it
    answers without a panic and with well-formed replies, and the table keeps its
    invariant — key sets distinct by fabric and id, each with one to three 16-byte
    keys of increasing start times, at most one per fabric besides the IPK, and no
    row of the group key map without its key set. *)
Theorem group_keys_invariant ops w :
  Forall op_typed ops → keys_ok (fst w) → table_ok (snd w) →
  keys_ok (fst (fst (observe ops w))) ∧ snd (fst (observe ops w)) = snd w ∧ Forall seen_ok (snd (observe ops w)).
Proof.
  intros Hops. revert w. induction Hops as [|o ops Ho _ IH]; intros w Hk Ht; cbn [observe]; [by split_and!|].
  destruct (key_op_ok o w Ho Hk Ht) as (Hk1 & Hw1 & Hs1). destruct (key_op o w) as [w1 s1]. cbn [fst snd] in *.
  destruct (IH w1 Hk1) as (Hk2 & Hw2 & Hs2); [by rewrite Hw1|].
  destruct (observe ops w1) as [w2 l]. cbn [fst snd] in *. split; [done|]. split; [congruence|by constructor].
Qed.

Definition sample_epochs : list (bytes * Z) := [(replicate 16 7, 1); (replicate 16 9, 5)].

Lemma sample_epochs_ok : epochs_ok sample_epochs.
Proof.
  split; [done|]. split.
  - apply Forall_cons. split; [|apply Forall_singleton]; (split; [done|split; [by apply Forall_replicate|done] ]).
  - cbn. repeat constructor.
Qed.

Definition ctx_of (fabric : Z) : InvokeCtx := {|
  attestation_challenge := replicate 16 0; ctx_changed := []; ctx_fabric := fabric;
  ctx_subject := Subject_node 7; ctx_events := []
|}.

Definition empty_world : KeyWorld := (GroupKeyStore_new, GroupMembershipStore_new).

Lemma empty_world_ok : keys_ok (fst empty_world) ∧ table_ok (snd empty_world).
Proof. split; (split; [constructor|]); (split; [constructor|]); [by split; [|constructor] |done]. Qed.

Definition ok_bytes (m : fin bytes) : bytes := match m with Ok b => b | _ => [] end.

(** A second group key on the fabric is refused, a row naming it too, and
    removing the first takes its row. *)
Lemma group_keys_invariant_witness :
  let ops := [KInvoke CMD_KEY_SET_WRITE (ok_bytes (encode_key_set_write_fields_multi 42 sample_epochs)) (ctx_of 1);
              KInvoke CMD_KEY_SET_WRITE (ok_bytes (encode_key_set_write_fields 43 (replicate 16 3))) (ctx_of 1);
              KWrite ATTR_GROUP_KEY_MAP (ok_bytes (encode_group_key_map_tlv [(5, 42)])) false (ctx_of 1);
              KWrite ATTR_GROUP_KEY_MAP (ok_bytes (encode_group_key_map_tlv [(5, 43)])) false (ctx_of 1);
              KInvoke CMD_KEY_SET_REMOVE (ok_bytes (encode_group_key_map_tlv [])) (ctx_of 1)] in
  keys_ok (fst (fst (observe ops empty_world))) ∧ Forall seen_ok (snd (observe ops empty_world)) ∧
  map (λ s, match s with SInvoke _ (Ok (RStatus s)) => s | SWrite _ (Err s) => s | _ => 0 end)
    (snd (observe ops empty_world)) =
  [STATUS_SUCCESS; STATUS_RESOURCE_EXHAUSTED; 0; STATUS_CONSTRAINT_ERROR; STATUS_INVALID_COMMAND] ∧
  gk_map (fst (fst (observe ops empty_world))) = [ {| mk_fabric := 1; mk_group := 5; mk_keyset := 42 |} ].
Proof.
  cbv zeta. destruct empty_world_ok as [Hk Ht].
  match goal with |- keys_ok (fst (fst (observe ?ops _))) ∧ _ =>
    destruct (group_keys_invariant ops empty_world) as (H1 & _ & H2) end.
  - repeat (apply Forall_cons; split; [split; [done|]; split; [by vm_compute; repeat constructor|by vm_compute]|]). done.
  - done.
  - done.
  - split; [exact H1|]. split; [exact H2|]. by vm_compute.
Defined.

Definition key_set_write_of (id : Z) (epochs : list (bytes * Z)) (fabric : Z) (s : GroupKeyStore) :
    GroupKeyStore * res Empty_set InvokeReply :=
  let '((w, _), r) := group_keys_invoke keys_lens CMD_KEY_SET_WRITE
    (ok_bytes (encode_key_set_write_fields_multi id epochs)) ((s, GroupMembershipStore_new), ctx_of fabric) in
  (fst w, r).

Lemma invoke_key_set_write {W} (store : Lens W GroupKeyStore) fields w c : ctx_fabric c ≠ 0 →
  group_keys_invoke store CMD_KEY_SET_WRITE fields (w, c) = key_set_write store (ctx_fabric c) fields (w, c).
Proof.
  intros Hf%Z.eqb_neq. unfold group_keys_invoke. cbn [CMD_KEY_SET_WRITE CMD_KEY_SET_READ Z.eqb orb negb].
  unfold bind, get. by rewrite Hf.
Qed.

(** What the controller's KeySetWrite encodes is what the device stores: the
    device answers SUCCESS and the named key set of the fabric holds exactly those
    epochs, every other key set and the map untouched, unless the fabric already
    has its one group key and this is another, which is RESOURCE_EXHAUSTED and
    changes nothing.  Rewriting a key set and the IPK always have room. *)
Theorem key_set_write_lands id epochs fabric s :
  keys_ok s → in_u 8 fabric → fabric ≠ 0 → in_u 16 id → epochs_ok epochs →
  (no_room fabric id s ∧ key_set_write_of id epochs fabric s = (s, Ok (RStatus STATUS_RESOURCE_EXHAUSTED))) ∨
  (¬ no_room fabric id s ∧
   ∃ s', key_set_write_of id epochs fabric s = (s', Ok (RStatus STATUS_SUCCESS)) ∧
     keys_ok s' ∧ keyset_written fabric id epochs s s' ∧ gk_map s' = gk_map s).
Proof.
  intros Hs Hf Hf0 Hid He. unfold key_set_write_of. rewrite encode_key_set_write_at by apply He. cbn [ok_bytes].
  destruct (upsert_spec fabric id epochs s Hs Hf Hid He) as (s' & r & Hu & Hok & Hm & Hr).
  rewrite invoke_key_set_write by done. unfold key_set_write. rewrite decode_key_set_write_at by done.
  unfold status_of_keys, on_keys. cbn [view keys_lens fst ctx_fabric ctx_of]. rewrite Hu.
  destruct r as [ []|e| |]; try done.
  - right. destruct Hr as [Hw Hn]. split; [exact Hn|]. exists s'. split; [reflexivity|]. split; [exact Hok|]. split; [exact Hw|exact Hm].
  - left. destruct Hr as (-> & -> & Hn). by split.
Qed.

(** The IPK rotation: two epochs land in key set 0. *)
Lemma key_set_write_lands_witness :
  (∃ s', key_set_write_of 0 sample_epochs 1 GroupKeyStore_new = (s', Ok (RStatus STATUS_SUCCESS)) ∧
     keyset_written 1 0 sample_epochs GroupKeyStore_new s') ∧
  ks_epochs <$> ipk_keyset 1 (fst (key_set_write_of 0 sample_epochs 1 GroupKeyStore_new)) = Some sample_epochs.
Proof.
  split; [|by vm_compute].
  destruct (key_set_write_lands 0 sample_epochs 1 GroupKeyStore_new (proj1 empty_world_ok)
              ltac:(done) ltac:(done) ltac:(done) sample_epochs_ok)
    as [ [ (Hn & _) _]|(_ & s' & H1 & _ & H2 & _)].
  - by destruct Hn.
  - exists s'. split; [exact H1|exact H2].
Defined.

(** *** Keys do not leave the device *)

(** Equal but for the keys. *)
Definition same_keyset (k k' : GroupKeySet) : Prop :=
  ks_fabric k = ks_fabric k' ∧ ks_id k = ks_id k' ∧ ks_start0 k = ks_start0 k'.

Definition same_keys (s s' : GroupKeyStore) : Prop :=
  Forall2 same_keyset (gk_keysets s) (gk_keysets s') ∧ gk_map s = gk_map s'.

Lemma same_filter (f : GroupKeySet → bool) l l' : (∀ k k', same_keyset k k' → f k = f k') →
  Forall2 same_keyset l l' → Forall2 same_keyset (List.filter f l) (List.filter f l').
Proof.
  intros Hf. induction 1 as [|k k' l l' Hk Hl IH]; [constructor|]. cbn. rewrite (Hf k k' Hk).
  destruct (f k'); [by constructor|done].
Qed.

Lemma same_at f i k k' : same_keyset k k' → keyset_at f i k = keyset_at f i k'.
Proof. intros (H1 & H2 & _). unfold keyset_at. by rewrite H1, H2. Qed.

Lemma same_len l l' : Forall2 same_keyset l l' → zlen l = zlen l'.
Proof. intros H. unfold zlen. by rewrite (Forall2_length _ _ _ H). Qed.

Lemma same_exists f i s s' : same_keys s s' → keyset_exists f i s = keyset_exists f i s'.
Proof.
  intros [H _]. unfold keyset_exists. induction H as [|k k' l l' Hk Hl IH]; [done|]. cbn.
  by rewrite IH, (same_at f i k k' Hk).
Qed.

Lemma same_ids f s s' : same_keys s s' → keyset_ids_for f s = keyset_ids_for f s'.
Proof.
  intros [H _]. unfold keyset_ids_for. induction H as [|k k' l l' (H1 & H2 & _) Hl IH]; [done|]. cbn.
  rewrite H1. destruct (_ =? f); cbn; [by rewrite H2, IH|done].
Qed.

Lemma same_find f i s s' : same_keys s s' →
  ks_start0 <$> find_keyset f i s = ks_start0 <$> find_keyset f i s'.
Proof.
  intros [H _]. unfold find_keyset. induction H as [|k k' l l' Hk Hl IH]; [done|]. cbn.
  rewrite (same_at f i k k' Hk). destruct (keyset_at f i k'); [|done]. cbn. by destruct Hk as (_ & _ & ->).
Qed.

Lemma same_save s s' : same_keys s s' → same_keys (gk_save s) (gk_save s').
Proof. done. Qed.

Lemma same_update f i g g' l l' : (∀ k k', same_keyset k k' → same_keyset (g k) (g' k')) →
  Forall2 same_keyset l l' →
  match update_first (keyset_at f i) g l, update_first (keyset_at f i) g' l' with
  | Some k, Some k' => Forall2 same_keyset k k'
  | None, None => True
  | _, _ => False
  end.
Proof.
  intros Hg. induction 1 as [|k k' l l' Hk Hl IH]; [done|]. cbn. rewrite (same_at f i k k' Hk).
  destruct (keyset_at f i k'); [constructor; auto|].
  destruct (update_first _ g l), (update_first _ g' l'); try done. by constructor.
Qed.

(** Two writes that differ in the keys only. *)
Definition same_epochs (e e' : list (bytes * Z)) : Prop := map snd e = map snd e'.

Lemma same_with key0 key0' e e' f i f' i' : same_epochs e e' → f = f' → i = i' →
  same_keyset (with_epochs key0 e f i) (with_epochs key0' e' f' i').
Proof.
  intros He -> ->. split_and!; [done|done|]. cbn. unfold same_epochs in He. unfold epoch_slot.
  destruct e as [|[? ?] ?], e' as [|[? ?] ?]; cbn in *; simplify_eq; done.
Qed.

Lemma same_upsert f i e e' s s' : same_keys s s' → same_epochs e e' →
  same_keys (fst (upsert_keyset_epochs f i e s)) (fst (upsert_keyset_epochs f i e' s')) ∧
  snd (upsert_keyset_epochs f i e s) = snd (upsert_keyset_epochs f i e' s').
Proof.
  intros [Hl Hm] He. unfold upsert_keyset_epochs.
  destruct e as [|[k0 t0] e], e' as [|[k0' t0'] e']; try done.
  assert (Hlen : zlen ((k0, t0) :: e) = zlen ((k0', t0') :: e')).
  { unfold same_epochs in He. apply (f_equal length) in He. rewrite !length_map in He. unfold zlen. by rewrite He. }
  rewrite Hlen. destruct (3 <? _); [done|].
  pose proof (same_update f i (λ k, with_epochs k0 ((k0, t0) :: e) (ks_fabric k) (ks_id k))
    (λ k, with_epochs k0' ((k0', t0') :: e') (ks_fabric k) (ks_id k)) _ _
    ltac:(intros k k' (H1 & H2 & _); by apply same_with) Hl) as Hu.
  destruct (update_first _ _ (gk_keysets s)) as [l|], (update_first _ _ (gk_keysets s')) as [l'|]; try done.
  assert (Hcount : group_key_count f (gk_keysets s) = group_key_count f (gk_keysets s')).
  { apply same_len, same_filter; [|done]. intros k k' (H1 & H2 & _). by rewrite H1, H2. }
  unfold group_key_count in Hcount. rewrite Hcount.
  destruct (negb (i =? IPK_KEY_SET_ID) && (MAX_GROUP_KEYS_PER_FABRIC <=? _)); (split; [|done]); (split; [|exact Hm]).
  { exact Hl. }
  apply Forall2_app; [done|]. constructor; [by apply same_with|constructor].
Qed.

Lemma same_remove f i s s' : same_keys s s' →
  same_keys (fst (remove_keyset f i s)) (fst (remove_keyset f i s')) ∧
  snd (remove_keyset f i s) = snd (remove_keyset f i s').
Proof.
  intros [Hl Hm]. unfold remove_keyset.
  assert (Hf : Forall2 same_keyset (List.filter (λ k, negb (keyset_at f i k)) (gk_keysets s))
                 (List.filter (λ k, negb (keyset_at f i k)) (gk_keysets s'))).
  { apply same_filter; [|done]. intros k k' Hk. by rewrite (same_at f i k k' Hk). }
  rewrite (same_len _ _ Hf), (same_len _ _ Hl), Hm.
  destruct (zlen _ =? _); (split; [|done]); (split; [|done]); exact Hf.
Qed.

Definition same_worlds (w w' : KeyWorld) : Prop := same_keys (fst w) (fst w') ∧ snd w = snd w'.

(** Two operations that differ at most in the keys a KeySetWrite carries. *)
Definition same_op (o o' : KeyOp) : Prop :=
  o = o' ∨
  ∃ b b' c, o = KInvoke CMD_KEY_SET_WRITE b c ∧ o' = KInvoke CMD_KEY_SET_WRITE b' c ∧
    match decode_key_set_write_fields b, decode_key_set_write_fields b' with
    | Ok (i, e), Ok (i', e') => i = i' ∧ same_epochs e e'
    | Err e, Err e' => e = e'
    | _, _ => False
    end.

(** The same answer, and worlds that are the same but for the keys. *)
Definition same_runs {E A} (m m' : M (KeyWorld * InvokeCtx) E A) (w w' : KeyWorld) (c : InvokeCtx) : Prop :=
  same_worlds (fst (fst (m (w, c)))) (fst (fst (m' (w', c)))) ∧
  snd (fst (m (w, c))) = snd (fst (m' (w', c))) ∧ snd (m (w, c)) = snd (m' (w', c)).

Lemma same_status {E A} (x : res E A) w w' c : same_worlds w w' → same_runs (λ s, (s, x)) (λ s, (s, x)) w w' c.
Proof. by intros Hw. Qed.

Lemma same_status_of {A} (m m' : M GroupKeyStore Z A) k w w' c :
  same_worlds w w' → (same_keys (fst (m (fst w))) (fst (m' (fst w'))) ∧ snd (m (fst w)) = snd (m' (fst w'))) →
  (∀ a w w', same_worlds w w' → same_runs (k a) (k a) w w' c) →
  same_runs (status_of_keys keys_lens m k) (status_of_keys keys_lens m' k) w w' c.
Proof.
  intros [_ Hm] [Hs Hr] Hk. unfold same_runs, status_of_keys, on_keys. cbn [view update keys_lens].
  destruct (m (fst w)) as [s r], (m' (fst w')) as [s' r']. cbn [fst snd] in *. subst r'.
  assert (same_worlds (s, snd w) (s', snd w')) by done. destruct r as [a|e| |]; try done. by apply Hk.
Qed.

Lemma same_get {E A} (k : KeyWorld * InvokeCtx → M (KeyWorld * InvokeCtx) E A) w w' c :
  same_runs (k (w, c)) (k (w', c)) w w' c → same_runs (let! s := get in k s) (let! s := get in k s) w w' c.
Proof. done. Qed.

Lemma same_invoke cmd b w w' c : same_worlds w w' →
  same_runs (group_keys_invoke keys_lens cmd b) (group_keys_invoke keys_lens cmd b) w w' c.
Proof.
  intros Hw. pose proof Hw as [Hk _]. unfold group_keys_invoke.
  destruct (negb _); [by apply same_status|].
  apply (same_get (λ '(w, c0), _)). destruct (ctx_fabric c =? 0); [by apply same_status|].
  assert (Hid : ∀ k, (∀ id, same_runs (k id) (k id) w w' c) →
    same_runs (with_key_set_id b k) (with_key_set_id b k) w w' c).
  { intros k Hr. unfold with_key_set_id. destruct (decode_key_set_id b); [apply Hr|by apply same_status]. }
  destruct (cmd =? CMD_KEY_SET_WRITE); [|destruct (cmd =? CMD_KEY_SET_READ); [|destruct (cmd =? CMD_KEY_SET_REMOVE);
    [|destruct (cmd =? CMD_KEY_SET_READ_ALL_INDICES); [|by apply same_status] ] ] ].
  - unfold key_set_write. destruct (decode_key_set_write_fields b) as [ [i e]|[]| |]; try by apply same_status.
    apply same_status_of; [done| |intros; by apply same_status]. by apply same_upsert.
  - apply Hid. intros id. unfold key_set_read. apply (same_get (λ '(w, c0), _)). cbn [view keys_lens].
    pose proof (same_find (ctx_fabric c) id _ _ Hk) as Hf.
    destruct (find_keyset _ _ (fst w)) as [k|], (find_keyset _ _ (fst w')) as [k'|]; try done; cbn in Hf.
    + injection Hf as ->. unfold same_runs, bind, lift. by destruct (encode_key_set_read_response _ _).
    + destruct (id =? IPK_KEY_SET_ID); [|by apply same_status].
      unfold same_runs, bind, lift. by destruct (encode_key_set_read_response _ _).
  - apply Hid. intros id. unfold key_set_remove. destruct (id =? IPK_KEY_SET_ID); [by apply same_status|].
    apply same_status_of; [done|by apply same_remove|]. intros [] w1 w1' Hw1; done.
  - unfold key_set_read_all_indices. apply (same_get (λ '(w, c0), _)). cbn [view keys_lens].
    rewrite (same_ids (ctx_fabric c) _ _ Hk). unfold same_runs, bind, lift. by destruct (encode_indices _).
Qed.

Lemma same_check f l s s' : same_keys s s' → check_map_entries f l s = check_map_entries f l s'.
Proof.
  intros Hs. induction l as [|e l IH]; [done|]. cbn. unfold check_map_entry.
  by rewrite (same_exists f (snd e) s s' Hs), IH.
Qed.

Lemma same_rows g w w' c E : same_worlds w w' → (∀ s s', same_keys s s' → same_keys (g s) (g s')) →
  same_runs (E:=E) (on_keys keys_lens (modify g) ;;! modify (λ '(w, c), (w, push_changed ATTR_GROUP_KEY_MAP c)))
    (on_keys keys_lens (modify g) ;;! modify (λ '(w, c), (w, push_changed ATTR_GROUP_KEY_MAP c))) w w' c.
Proof. intros [Hk Hm] Hg. split; [split; [by apply Hg|done]|done]. Qed.

Lemma same_lift {E A B} (m : res E A) (k k' : A → M (KeyWorld * InvokeCtx) E B) w w' c : same_worlds w w' →
  (∀ a, same_runs (k a) (k' a) w w' c) → same_runs (let! a := lift m in k a) (let! a := lift m in k' a) w w' c.
Proof. intros Hw Hk. destruct m as [a|e| |]; [apply Hk|done|done|done]. Qed.

Lemma same_assoc {E A B C} (m m' : M (KeyWorld * InvokeCtx) E A) (k k' : A → M (KeyWorld * InvokeCtx) E B)
    (h : B → M (KeyWorld * InvokeCtx) E C) w w' c :
  same_runs (let! a := m in let! b := k a in h b) (let! a := m' in let! b := k' a in h b) w w' c →
  same_runs (let! b := (let! a := m in k a) in h b) (let! b := (let! a := m' in k' a) in h b) w w' c.
Proof.
  unfold same_runs, bind. destruct (m (w, c)) as [ [w1 c1] [a|e| |]], (m' (w', c)) as [ [w2 c2] [a'|e'| |]]; done.
Qed.

Lemma same_write a b append w w' c : same_worlds w w' →
  same_runs (group_keys_write keys_lens a b append) (group_keys_write keys_lens a b append) w w' c.
Proof.
  intros Hw. pose proof Hw as [Hk _]. unfold group_keys_write. destruct (negb _); [by apply same_status|].
  apply (same_get (λ '(w, c0), _)). destruct (ctx_fabric c =? 0); [by apply same_status|]. cbn [view keys_lens].
  assert (Happ : ∀ s s' l, same_keys s s' → gk_map s = gk_map s' ∧ same_keys s s') by (intros s s' l [H1 H2]; done).
  destruct append.
  - apply same_assoc, same_lift; [done|]. intros [g k].
    pose proof (same_check (ctx_fabric c) [(g, k)] _ _ Hk) as Hc. cbn [check_map_entries] in Hc.
    unfold check_map_entry in *. rewrite (same_exists _ _ _ _ Hk).
    apply same_assoc, same_lift; [done|]. intros []. apply same_rows; [done|].
    intros s s' [H1 H2]. split; [done|]. cbn. by rewrite H2.
  - apply same_assoc, same_lift; [done|]. intros l. rewrite (same_check _ l _ _ Hk).
    apply same_assoc, same_lift; [done|]. intros []. apply same_rows; [done|].
    intros s s' [H1 H2]. split; [done|]. cbn. by rewrite H2.
Qed.

Lemma same_key_op o o' w w' : same_op o o' → same_worlds w w' →
  same_worlds (fst (key_op o w)) (fst (key_op o' w')) ∧ snd (key_op o w) = snd (key_op o' w').
Proof.
  intros Ho Hw. pose proof Hw as [ [Hl Hm] Hg].
  assert (Hinv : ∀ m m' c, same_runs m m' w w' c →
    same_worlds (let '((w, c), r) := m (w, c) in (w, SInvoke c r)).1 (let '((w, c), r) := m' (w', c) in (w, SInvoke c r)).1 ∧
    (let '((w, c), r) := m (w, c) in (w, SInvoke c r)).2 = (let '((w, c), r) := m' (w', c) in (w, SInvoke c r)).2).
  { intros m m' c (H1 & H2 & H3). destruct (m (w, c)) as [ [w1 c1] r1], (m' (w', c)) as [ [w2 c2] r2].
    cbn in *. by rewrite H2, H3. }
  destruct Ho as [<- | (b & b' & c & -> & -> & Hd)].
  - destruct o as [a ctx|cmd b c|a b append c|f]; cbn [key_op].
    + split; [done|]. cbn. unfold group_keys_read. cbn [view keys_lens members_lens]. rewrite Hg.
      unfold map_entries_for, all_map_entries. by rewrite Hm.
    + by apply Hinv, same_invoke.
    + destruct (same_write a b append w w' c Hw) as (H1 & H2 & H3).
      destruct (group_keys_write _ _ _ _ (w, c)) as [ [w1 c1] r1], (group_keys_write _ _ _ _ (w', c)) as [ [w2 c2] r2].
      cbn in *. by rewrite H2, H3.
    + split; [|done]. split; [|done]. split; cbn; [|by rewrite Hm].
      apply same_filter; [|done]. intros k k' (H & _). by rewrite H.
  - cbn [key_op]. apply Hinv. destruct (Z.eqb_spec (ctx_fabric c) 0) as [H0|H0].
    { unfold group_keys_invoke. cbn [CMD_KEY_SET_WRITE Z.eqb orb negb]. unfold same_runs, bind, get.
      by rewrite H0. }
    unfold same_runs. rewrite !invoke_key_set_write by done. fold (same_runs (key_set_write keys_lens (ctx_fabric c) b) (key_set_write keys_lens (ctx_fabric c) b') w w' c). unfold key_set_write.
    destruct (decode_key_set_write_fields b) as [ [i e]|e| |], (decode_key_set_write_fields b') as [ [i' e']|e'| |]; try done.
    + destruct Hd as [<- He]. apply same_status_of; [done| |intros; by apply same_status]. by apply same_upsert.
    + rewrite Hd. destruct e'; by apply same_status.
Qed.

(** C15. Group keys do not leave the device.  Take two devices that differ only in
    the keys of their key sets, and ask both the same things in the same order —
    or KeySetWrites that differ only in the keys they carry: every reply, status,
    report and reported change is the same, so nothing a controller can ask tells
    anything about a key. *)
Theorem group_keys_never_leak ops ops' w w' :
  Forall2 same_op ops ops' → same_worlds w w' →
  snd (observe ops w) = snd (observe ops' w').
Proof.
  intros Hops. revert w w'. induction Hops as [|o o' ops ops' Ho _ IH]; intros w w' Hw; [done|]. cbn [observe].
  destruct (same_key_op o o' w w' Ho Hw) as [Hw1 Hs1].
  destruct (key_op o w) as [w1 s1], (key_op o' w') as [w1' s1']. cbn [fst snd] in *.
  specialize (IH w1 w1' Hw1). destruct (observe ops w1), (observe ops' w1'). cbn [fst snd] in *. by rewrite Hs1, IH.
Qed.

(** Key set 42 with one key or another: writing, reading it back and listing the
    indices look the same, though the stores differ. *)
Lemma group_keys_never_leak_witness :
  let write k := KInvoke CMD_KEY_SET_WRITE (ok_bytes (encode_key_set_write_fields 42 (replicate 16 k))) (ctx_of 1) in
  let read := KInvoke CMD_KEY_SET_READ (ok_bytes (encode_key_set_read_response 42 0)) (ctx_of 1) in
  let ids := KInvoke CMD_KEY_SET_READ_ALL_INDICES [] (ctx_of 1) in
  snd (observe [write 7; read; ids] empty_world) = snd (observe [write 8; read; ids] empty_world) ∧
  fst (observe [write 7] empty_world) ≠ fst (observe [write 8] empty_world).
Proof.
  cbv zeta. split.
  - apply (group_keys_never_leak _ _ empty_world empty_world); [|done].
    constructor; [|constructor; [by left|constructor; [by left|constructor] ] ].
    right. do 3 eexists. split; [reflexivity|]. split; [reflexivity|]. by vm_compute.
  - by vm_compute.
Defined.
