(* ===== verification/FabricRows.v ===== *)
(** * Whose rows a cluster writes

    The Access Control, Group Key Management and Groups clusters share tables
    whose rows carry a fabric index. For each handler that changes one of them
    ([access_control.rs], [group_key_management.rs], [groups.rs]), whatever
    bytes it is sent: the rows of the other fabrics are left alone, in their
    order, and a session without a fabric (PASE, index 0) changes nothing, save
    in the Groups cluster, which has no such guard. *)

From stdpp Require Import gmap.
From S2P Require Import Prelude Tlv TlvValue Handler AccessControl DataModel Clusters Groups Fabrics GroupKeys.

(** ** The rows of the other fabrics *)

Definition acl_others (f : Z) (s : AclStore) : list AclDeviceEntry :=
  List.filter (λ e, negb (fabric_index e =? f)) (acl_entries s).
Definition key_others (f : Z) (s : GroupKeyStore) : list GroupKeySet * list GroupKeyMapEntry :=
  (List.filter (λ k, negb (ks_fabric k =? f)) (gk_keysets s), List.filter (λ m, negb (mk_fabric m =? f)) (gk_map s)).
Definition member_others (f : Z) (s : GroupMembershipStore) : list GroupMember :=
  List.filter (λ m, negb (gm_fabric m =? f)) (gs_members s).

Section filters.
Context {A : Type} (p : A → Z) (f : Z).
Abbreviation others := (List.filter (λ x, negb (p x =? f))).

Lemma others_mine l : Forall (λ x, p x = f) l → others l = [].
Proof. induction 1 as [|x l Hx _ IH]; [done|]. cbn. by rewrite Hx, Z.eqb_refl. Qed.

(** Adding rows of [f]. *)
Lemma others_app l mine : Forall (λ x, p x = f) mine → others (l ++ mine) = others l.
Proof. intros Hm. by rewrite List.filter_app, (others_mine mine), app_nil_r. Qed.

(** Removing rows of [f] at most. *)
Lemma others_within keep l : (∀ x, p x ≠ f → keep x = true) → others (List.filter keep l) = others l.
Proof.
  intros Hk. induction l as [|x l IH]; [done|]. cbn. destruct (keep x) eqn:Hx; cbn; rewrite IH; [done|].
  destruct (Z.eqb_spec (p x) f) as [|Hne]; [done|]. rewrite Hk in Hx; done.
Qed.

(** Rewriting a row of [f]. *)
Lemma others_update at_row g l l' : (∀ x, at_row x = true → p x = f) → (∀ x, p (g x) = p x) →
  update_first at_row g l = Some l' → others l' = others l.
Proof.
  intros Hat Hg. revert l'. induction l as [|x l IH]; intros l'; [done|]. cbn. destruct (at_row x) eqn:Hx.
  - intros [= <-]. cbn. by rewrite Hg, (Hat x Hx), Z.eqb_refl.
  - destruct (update_first at_row g l) as [l1|]; [|done]. intros [= <-]. cbn. by rewrite (IH l1 eq_refl).
Qed.
End filters.

(** ** Access control *)

Lemma acl_write_rows attribute data append s c : ctx_typed c → bytes_ok data → small data → store_ok s →
  let s' := fst (fst (acl_write attribute data append (s, c))) in
  store_ok s' ∧ acl_others (ctx_fabric c) s' = acl_others (ctx_fabric c) s ∧ (ctx_fabric c = 0 → s' = s).
Proof.
  intros Hc Hb Hsm Hs. cbv zeta. pose proof (acl_write_sound attribute data append s c Hb Hsm Hc Hs) as Hsound.
  destruct (Z.eqb_spec attribute ATTR_ACL) as [->|Ha].
  2: { unfold acl_write. by destruct (Z.eqb_spec attribute ATTR_ACL). }
  destruct (Z.eqb_spec (ctx_fabric c) 0) as [H0|H0].
  { unfold acl_write. cbn. unfold bind, get. by rewrite H0. }
  destruct append.
  - pose proof (acl_write_append data s c Hb Hsm Hc H0 Hs) as H.
    destruct (acl_write _ _ _ _) as [ [s' c'] [x|e| |]]; cbn in *; try done; [|by destruct H as [-> _] ].
    destruct H as (e & _ & _ & He & -> & _). split; [apply Hsound|]. split; [|done].
    by apply others_app, Forall_singleton.
  - pose proof (acl_write_replace data s c Hb Hsm Hc H0 Hs) as H.
    destruct (acl_write _ _ _ _) as [ [s' c'] [x|e| |]]; cbn in *; try done; [|by destruct H as [-> _] ].
    destruct H as (es & _ & _ & He & -> & _). split; [apply Hsound|]. split; [|done].
    unfold acl_others, replace_fabric. cbn. rewrite others_app by done. apply others_within.
    intros e Hne. apply negb_true_iff. by apply Z.eqb_neq.
Qed.

(** ** Frames

    [frames R f m]: run for fabric [f], [m] takes the world only along [R], and
    still serves [f] afterwards. *)

Section frames.
Context {W : Type} (R : W → W → Prop) `{!PreOrder R} (f : Z).

Definition frames {E A} (m : M (W * InvokeCtx) E A) : Prop := ∀ w c, ctx_fabric c = f →
  R w (fst (fst (m (w, c)))) ∧ ctx_fabric (snd (fst (m (w, c)))) = f.

Lemma frames_same {E A} (r : res E A) : frames (λ s, (s, r)).
Proof. by intros w c Hc. Qed.

Lemma frames_bind {E A B} (m : M (W * InvokeCtx) E A) (k : A → M (W * InvokeCtx) E B) :
  frames m → (∀ a, frames (k a)) → frames (let! a := m in k a).
Proof.
  intros Hm Hk w c Hc. destruct (Hm w c Hc) as [H1 H2]. unfold bind.
  destruct (m (w, c)) as [ [w1 c1] [a|e| |]]; cbn in *; try done.
  destruct (Hk a w1 c1 H2) as [H3 H4]. split; [by transitivity w1|done].
Qed.

Lemma frames_get {E A} (k : W * InvokeCtx → M (W * InvokeCtx) E A) :
  (∀ w c, ctx_fabric c = f → frames (k (w, c))) → frames (let! s := get in k s).
Proof. intros Hk w c Hc. exact (Hk w c Hc w c Hc). Qed.

Lemma frames_lift {E A B} (r : res E A) (k : A → M (W * InvokeCtx) E B) :
  (∀ a, frames (k a)) → frames (let! a := lift r in k a).
Proof. intros Hk. apply frames_bind; [apply frames_same|done]. Qed.

Lemma frames_changed {E} a : frames (E:=E) (modify (λ '(w, c), (w, push_changed a c))).
Proof. intros w c Hc. by split. Qed.
End frames.

Ltac fr_same := solve [refine (frames_same _ _ _)].
Ltac fr_changed := solve [refine (frames_changed _ _ _)].
Ltac fr_bind := refine (frames_bind _ _ _ _ _ _).
Ltac fr_lift := refine (frames_lift _ _ _ _ _).
Ltac fr_get := refine (frames_get _ _ _ _).

(** ** Group keys *)

(** Only rows of [f] differ, and none does if [f] is no fabric. *)
Definition keys_kept (f : Z) (w w' : KeyWorld) : Prop :=
  key_others f (fst w') = key_others f (fst w) ∧ (f = 0 → fst w' = fst w).

#[export] Instance keys_kept_preorder f : PreOrder (keys_kept f).
Proof.
  split; [by intros w|]. intros w1 w2 w3 [H1 H2] [H3 H4]. split; [congruence|]. intros Hf. by rewrite H4, H2.
Qed.

Lemma at_fabric f i k : keyset_at f i k = true → ks_fabric k = f.
Proof. unfold keyset_at. by intros [?%Z.eqb_eq _]%andb_true_iff. Qed.

Lemma upsert_rows f i epochs s : key_others f (fst (upsert_keyset_epochs f i epochs s)) = key_others f s.
Proof.
  unfold upsert_keyset_epochs. destruct epochs as [|[key0 t0] epochs]; [done|]. destruct (3 <? _); [done|].
  destruct (update_first _ _ _) as [l|] eqn:Hu.
  - unfold key_others. cbn. f_equal. refine (others_update _ _ _ _ _ _ _ _ Hu); [intros x; apply at_fabric|done].
  - destruct (_ && _); [done|]. unfold key_others. cbn. f_equal. by apply others_app, Forall_singleton.
Qed.

Lemma remove_rows f i s : key_others f (fst (remove_keyset f i s)) = key_others f s.
Proof.
  assert (Hk : ∀ k, ks_fabric k ≠ f → negb (keyset_at f i k) = true).
  { intros k Hne. apply negb_true_iff. unfold keyset_at. by apply Z.eqb_neq in Hne as ->. }
  unfold remove_keyset. destruct (_ =? _); unfold key_others; cbn; f_equal; try (by apply others_within).
  apply others_within. intros m Hne. apply negb_true_iff. unfold row_of. by apply Z.eqb_neq in Hne as ->.
Qed.

Section keys.
Context (f : Z) (Hf0 : f ≠ 0).
Abbreviation key_frame := (frames (keys_kept f) f).

Lemma on_keys_frame {E A} (m : M GroupKeyStore E A) : (∀ s, key_others f (fst (m s)) = key_others f s) →
  key_frame (on_keys keys_lens m).
Proof.
  intros Hm [k w] c Hc. unfold on_keys. cbn [view update keys_lens fst snd]. specialize (Hm k).
  destruct (m k) as [k' r]. by split; [split|].
Qed.

Lemma status_frame {A} (m : M GroupKeyStore Z A) k : (∀ s, key_others f (fst (m s)) = key_others f s) →
  (∀ a, key_frame (k a)) → key_frame (status_of_keys keys_lens m k).
Proof.
  intros Hm Hk w c Hc. unfold status_of_keys. destruct (on_keys_frame m Hm w c Hc) as [H1 H2].
  destruct (on_keys keys_lens m (w, c)) as [ [w1 c1] [a|e| |]]; cbn in *; try done.
  destruct (Hk a w1 c1 H2) as [H3 H4]. split; [by transitivity w1|done].
Qed.

Lemma key_invoke_frame cmd fields : key_frame (group_keys_invoke keys_lens cmd fields).
Proof.
  unfold group_keys_invoke. destruct (negb _); [fr_same|].
  fr_get. intros w c Hc. rewrite Hc. destruct (Z.eqb_spec f 0) as [|_]; [done|].
  assert (Hid : ∀ k, (∀ id, key_frame (k id)) → key_frame (with_key_set_id fields k)).
  { intros k Hk. unfold with_key_set_id. destruct (decode_key_set_id fields); [apply Hk|fr_same]. }
  destruct (_ =? _); [|destruct (_ =? _); [|destruct (_ =? _); [|destruct (_ =? _)] ] ].
  - unfold key_set_write. destruct (decode_key_set_write_fields fields) as [ [i e]|[]| |]; try fr_same.
    apply status_frame; [intros s; apply upsert_rows|intros a; fr_same].
  - apply Hid. intros id. fr_get. intros w1 c1 _.
    destruct (find_keyset _ _ _); [|destruct (_ =? _)]; try (fr_lift; intros a); fr_same.
  - apply Hid. intros id. unfold key_set_remove. destruct (_ =? _); [fr_same|].
    apply status_frame; [intros s; apply remove_rows|]. intros a. fr_bind; [|intros []; fr_same].
    destruct a; [fr_changed|fr_same].
  - fr_get. intros w1 c1 _. fr_lift. intros a. fr_same.
  - fr_same.
Qed.

Lemma key_write_frame a data append : key_frame (group_keys_write keys_lens a data append).
Proof.
  unfold group_keys_write. destruct (negb _); [fr_same|].
  fr_get. intros w c Hc. rewrite Hc. destruct (Z.eqb_spec f 0) as [|_]; [done|].
  fr_bind; [|intros []; fr_changed].
  destruct append; fr_lift.
  - intros [g k]. fr_lift. intros []. apply on_keys_frame. intros s.
    unfold key_others. cbn. f_equal. by apply others_app, Forall_singleton.
  - intros l. fr_lift. intros []. apply on_keys_frame. intros s. unfold key_others. cbn. f_equal.
    rewrite others_app; [|apply List.Forall_map, Forall_true; by intros [] ]. apply others_within.
    intros m Hne. apply negb_true_iff. by apply Z.eqb_neq.
Qed.
End keys.

(** Without a fabric the cluster refuses. *)
Lemma key_invoke_no_fabric cmd fields : frames (keys_kept 0) 0 (group_keys_invoke keys_lens cmd fields).
Proof.
  unfold group_keys_invoke. destruct (negb _); [fr_same|]. fr_get. intros w c Hc. rewrite Hc.
  fr_same.
Qed.
Lemma key_write_no_fabric a data append : frames (keys_kept 0) 0 (group_keys_write keys_lens a data append).
Proof.
  unfold group_keys_write. destruct (negb _); [fr_same|]. fr_get. intros w c Hc. rewrite Hc.
  fr_same.
Qed.

Lemma group_keys_invoke_rows cmd fields (w : KeyWorld) c : ctx_typed c → bytes_ok fields → small fields → keys_ok (fst w) →
  let w' := fst (fst (group_keys_invoke keys_lens cmd fields (w, c))) in
  keys_ok (fst w') ∧ keys_kept (ctx_fabric c) w w'.
Proof.
  intros Hc Hb Hsm Hk. cbv zeta. split.
  - destruct (group_keys_invoke_run keys_lens w Hk c Hc cmd fields Hb Hsm) as (s' & c' & r & -> & Hok & _). exact Hok.
  - destruct (decide (ctx_fabric c = 0)) as [H0|H0]; [rewrite H0; by apply key_invoke_no_fabric|by apply key_invoke_frame].
Qed.

Lemma group_keys_write_rows a data append (w : KeyWorld) c : ctx_typed c → bytes_ok data → small data → keys_ok (fst w) →
  let w' := fst (fst (group_keys_write keys_lens a data append (w, c))) in
  keys_ok (fst w') ∧ keys_kept (ctx_fabric c) w w'.
Proof.
  intros Hc Hb Hsm Hk. cbv zeta. split.
  - destruct (group_keys_write_run keys_lens w Hk c Hc a data append Hb Hsm) as (s' & c' & r & -> & Hok & _). exact Hok.
  - destruct (decide (ctx_fabric c = 0)) as [H0|H0]; [rewrite H0; by apply key_write_no_fabric|by apply key_write_frame].
Qed.

(** ** Group memberships *)

Abbreviation MemberWorld := (GroupMembershipStore * option Z)%type.

(** Only rows of [f] differ; [f] may be 0. *)
Definition members_kept (f : Z) (w w' : MemberWorld) : Prop := member_others f (fst w') = member_others f (fst w).

#[export] Instance members_kept_preorder f : PreOrder (members_kept f).
Proof. split; [by intros w|]. intros w1 w2 w3 H1 H2. unfold members_kept in *. congruence. Qed.

Lemma retain_rows f keep s : (∀ m, gm_fabric m ≠ f → keep m = true) → member_others f (fst (retain keep s)) = member_others f s.
Proof. intros Hk. unfold retain, member_others. destruct (_ =? 0); by apply others_within. Qed.

Section members.
Context (f ep : Z) (clock : MemberWorld → Z).
Abbreviation member_frame := (frames (members_kept f) f).

Lemma add_frame g : member_frame (groups_add member_lens ep f g).
Proof.
  intros [s d] c Hc. unfold groups_add. destruct (g =? 0); [done|]. cbn [view update member_lens fst snd]. unfold gs_add.
  destruct (is_member _ _); [done|]. destruct (_ <=? _); [done|]. split; [|done].
  by apply others_app, Forall_singleton.
Qed.

Lemma response_frame cmd st g : member_frame (status_response cmd st g).
Proof. fr_lift. intros a. fr_same. Qed.

Lemma remove_frame g : member_frame (remove_group member_lens ep f g).
Proof.
  intros [s d] c Hc. unfold remove_group. destruct (g =? 0); [by apply response_frame|]. cbn [view update member_lens fst snd].
  unfold gs_remove. pose proof (retain_rows f (λ m, negb (bool_decide
    (m = {| gm_fabric := f; gm_group := g; gm_endpoint := ep |}))) s) as Hr.
  destruct (retain _ s) as [s' n]. cbn [fst] in Hr.
  destruct (response_frame RESP_REMOVE_GROUP (if negb (n =? 0) then STATUS_SUCCESS else STATUS_NOT_FOUND) g (s', d) c Hc) as [H1 H2].
  split; [|done]. etransitivity; [|exact H1]. apply Hr. intros m Hm. apply negb_true_iff, bool_decide_eq_false. by intros ->.
Qed.

Lemma groups_frame cmd fields : member_frame (groups_invoke member_lens deadline_lens clock ep cmd fields).
Proof.
  unfold groups_invoke. fr_get. intros w c Hc. rewrite Hc.
  assert (Hid : ∀ k, (∀ g, member_frame (k g)) → member_frame (with_group_id fields k)).
  { intros k Hk. unfold with_group_id. destruct (decode_group_id fields); [apply Hk|fr_same]. }
  destruct (_ =? _); [|destruct (_ =? _); [|destruct (_ =? _); [|destruct (_ =? _); [|destruct (_ =? _); [|destruct (_ =? _)] ] ] ] ].
  - apply Hid. intros g. fr_bind; [apply add_frame|]. intros st. apply response_frame.
  - apply Hid. intros g. fr_get. intros w1 c1 _. apply response_frame.
  - unfold get_group_membership. destruct (decode_group_list fields) as [l|e| |]; try fr_same.
    fr_get. intros w1 c1 _. destruct (_ <? _); [fr_same|].
    fr_lift. intros a. fr_same.
  - apply Hid. apply remove_frame.
  - fr_bind; [|intros []; fr_same]. intros [s d] c1 Hc1. split; [|done].
    apply retain_rows. intros m Hm. apply negb_true_iff. by apply Z.eqb_neq in Hm as ->.
  - apply Hid. intros g. unfold add_group_if_identifying. destruct (g =? 0); [fr_same|].
    fr_get. intros w1 c1 _. destruct (negb _); [fr_same|].
    fr_bind; [apply add_frame|]. intros st. fr_same.
  - fr_same.
Qed.
End members.

Lemma groups_invoke_rows clock ep cmd fields (w : GroupMembershipStore * option Z) c : in_u 16 ep → ctx_typed c → bytes_ok fields → small fields →
  table_ok (fst w) →
  let w' := fst (fst (groups_invoke member_lens deadline_lens clock ep cmd fields (w, c))) in
  table_ok (fst w') ∧ members_kept (ctx_fabric c) w w'.
Proof.
  intros Hep Hc Hb Hsm Hw. cbv zeta. split; [|by apply groups_frame].
  destruct (groups_invoke_implements member_lens deadline_lens clock ep Hep w c Hw Hc fields Hb Hsm cmd)
    as (s' & reply & r & -> & _ & _ & Hok & _). exact Hok.
Qed.
