(* ===== verification/GroupSend.v ===== *)
(** * Sending to a group

    Models the pure part of [crates/mat-controller/src/group.rs]: the multicast
    address of a group, the persisted group counter with the file it shares
    across restarts, and the datagram of a group invoke.  The sockets of
    [GroupSender] and the lock file are not modelled; that one process at a time
    holds the counter is a rule of the step relation. *)

From stdpp Require Import gmap.
From S2P Require Import Prelude Tlv TlvValue Message Crypto Im Fabrics.

(** ** The multicast address *)

Definition group_multicast_addr (fabric_id group_id : Z) : bytes :=
  [0xff; 0x35; 0x00; 0x40; 0xfd] ++ be_bytes 8 fabric_id ++ [0x00] ++ be_bytes 2 group_id.

(** ** The persisted counter *)

Definition COUNTER_EPOCH : Z := 4096.

Record PersistedGroupCounter := { gc_next : Z; gc_ceiling : Z }.

(** [None]: no file. *)
Definition CounterFile : Type := option Z.

(** How a save of the counter file ends: it lands, or it fails with the old or
    with the new content on disk. *)
Inductive SaveOutcome := Saved | SaveFailed (landed : bool).

Abbreviation GC := (M (CounterFile * PersistedGroupCounter) ()).

Definition persist (io : SaveOutcome) (ceiling : Z) : GC () := λ '(file, c),
  match io with
  | Saved => ((Some ceiling, {| gc_next := gc_next c; gc_ceiling := ceiling |}), Ok ())
  | SaveFailed landed => (((if landed then Some ceiling else file), c), Err ())
  end.

(** [load] with the lock held.  [readable]: the read succeeded and what it gave
    parses as a u32, or there is no file; otherwise [load] fails and saves
    nothing. *)
Definition load (readable : bool) (io : SaveOutcome) (chip_tool_gdc : Z) (file : CounterFile) :
    CounterFile * res () PersistedGroupCounter :=
  if negb readable then (file, Err ()) else
  let persisted := default 0 file in
  let start := wrap 32 (Z.max persisted chip_tool_gdc + COUNTER_EPOCH) in
  let c := {| gc_next := start; gc_ceiling := start |} in
  match persist io (wrap 32 (start + COUNTER_EPOCH)) (file, c) with
  | ((file, c), Ok _) => (file, Ok c)
  | ((file, _), Err e) => (file, Err e)
  | ((file, _), Panic) => (file, Panic)
  | ((file, _), OutOfFuel) => (file, OutOfFuel)
  end.

Definition gc_step_next (io : SaveOutcome) : GC Z :=
  let! (_, c) := get in
  (if gc_next c =? gc_ceiling c then persist io (wrap 32 (gc_ceiling c + COUNTER_EPOCH)) else ret ()) ;;!
  modify (λ '(file, c), (file, {| gc_next := wrap 32 (gc_next c + 1); gc_ceiling := gc_ceiling c |})) ;;!
  ret (gc_next c).

Definition jump (io : SaveOutcome) : GC (Z * Z) :=
  let! (_, c) := get in
  let from := gc_next c in
  let to := wrap 32 (gc_ceiling c + COUNTER_EPOCH) in
  persist io (wrap 32 (to + COUNTER_EPOCH)) ;;!
  modify (λ '(file, c), (file, {| gc_next := to; gc_ceiling := gc_ceiling c |})) ;;!
  ret (from, to).

(** ** The datagram *)

Definition GROUP_SECURITY_FLAGS : Z := 0x01.

(** [kvs.rs]: what the store holds for sending to a group. *)
Record GroupCredentials := { gc_session_id : Z; gc_encryption_key : bytes }.

Definition group_header (session security_flags source counter group : Z) : MessageHeader := {|
  session_id := session; security_flags := security_flags; message_counter := counter;
  source_node_id := Some source; destination := Group group
|}.

Definition group_proto (exchange : Z) : ProtocolHeader := {|
  initiator := true; needs_ack := false; acked_counter := None; opcode := OPCODE_INVOKE_REQUEST;
  exchange_id := exchange; protocol_id := PROTOCOL_ID_INTERACTION_MODEL; vendor_id := None
|}.

Definition build_group_datagram `{A : Aead} (creds : GroupCredentials)
    (source counter exchange group cluster command : Z) (fields : option bytes) : res CryptoError bytes :=
  match encode_group_invoke_request cluster command fields with
  | Ok payload =>
      seal_message (gc_encryption_key creds)
        (group_header (gc_session_id creds) GROUP_SECURITY_FLAGS source counter group)
        (group_proto exchange) payload source
  | Err e => match e with end
  | Panic => Panic
  | OutOfFuel => OutOfFuel
  end.

(** ** Counters are never reused *)

(** The file, the process that holds the counter, the counters handed out, and
    whether an addition has wrapped around. *)
Record CounterState := {
  cs_file : CounterFile;
  cs_proc : option PersistedGroupCounter;
  cs_sent : list Z;
  cs_wrapped : bool
}.

Definition wraps (v : Z) : bool := 2 ^ 32 <=? v.

Inductive counter_step : CounterState → CounterState → Prop :=
  | cs_load readable io gdc file sent b file' r :
      in_u 32 gdc → load readable io gdc file = (file', r) →
      counter_step {| cs_file := file; cs_proc := None; cs_sent := sent; cs_wrapped := b |}
        {| cs_file := file'; cs_proc := match r with Ok c => Some c | _ => None end; cs_sent := sent;
           cs_wrapped := b || wraps (Z.max (default 0 file) gdc + 2 * COUNTER_EPOCH) |}
  | cs_next io file c sent b file' c' r :
      gc_step_next io (file, c) = ((file', c'), r) →
      counter_step {| cs_file := file; cs_proc := Some c; cs_sent := sent; cs_wrapped := b |}
        {| cs_file := file'; cs_proc := Some c'; cs_sent := match r with Ok v => sent ++ [v] | _ => sent end;
           cs_wrapped := b || wraps (gc_ceiling c + COUNTER_EPOCH) |}
  | cs_jump io file c sent b file' c' r :
      jump io (file, c) = ((file', c'), r) →
      counter_step {| cs_file := file; cs_proc := Some c; cs_sent := sent; cs_wrapped := b |}
        {| cs_file := file'; cs_proc := Some c'; cs_sent := sent;
           cs_wrapped := b || wraps (gc_ceiling c + 2 * COUNTER_EPOCH) |}
  | cs_crash file c sent b :
      counter_step {| cs_file := file; cs_proc := Some c; cs_sent := sent; cs_wrapped := b |}
        {| cs_file := file; cs_proc := None; cs_sent := sent; cs_wrapped := b |}.

(** Without a wrap-around: everything handed out is below the file's number, and
    the process works inside a window the file already covers. *)
Record counter_ok (s : CounterState) : Prop := {
  co_file : from_option (in_u 32) True (cs_file s);
  co_sent : NoDup (cs_sent s);
  co_below : Forall (λ v, v < default 0 (cs_file s)) (cs_sent s);
  co_proc : match cs_proc s with
            | Some c => in_u 32 (gc_next c) ∧ gc_next c ≤ gc_ceiling c ≤ default 0 (cs_file s) ∧
                Forall (λ v, v < gc_next c) (cs_sent s)
            | None => True
            end
}.

Lemma not_wraps v : 0 ≤ v → wraps v = false → wrap 32 v = v ∧ in_u 32 v.
Proof. unfold wraps. intros Hv Hw%Z.leb_gt. assert (in_u 32 v) by done. split; [by apply wrap_small|done]. Qed.

Lemma below_mono (l : list Z) a b : a ≤ b → Forall (λ v, v < a) l → Forall (λ v, v < b) l.
Proof. intros Hab Hl. eapply Forall_impl; [exact Hl|]. cbn. lia. Qed.

(** What the operations do while nothing wraps. *)
Lemma persist_file io ceiling file c file' c' r : persist io ceiling (file, c) = ((file', c'), r) →
  (r = Ok () ∧ file' = Some ceiling ∧ c' = {| gc_next := gc_next c; gc_ceiling := ceiling |}) ∨
  (r = Err () ∧ c' = c ∧ (file' = file ∨ file' = Some ceiling)).
Proof. destruct io as [|[] ]; cbn; intros; simplify_eq; eauto 6. Qed.

Lemma load_run readable io gdc file file' r : 0 ≤ default 0 file → in_u 32 gdc →
  wraps (Z.max (default 0 file) gdc + 2 * COUNTER_EPOCH) = false → load readable io gdc file = (file', r) →
  let start := Z.max (default 0 file) gdc + COUNTER_EPOCH in
  (r = Ok {| gc_next := start; gc_ceiling := start + COUNTER_EPOCH |} ∧ file' = Some (start + COUNTER_EPOCH)) ∨
  (r = Err () ∧ (file' = file ∨ file' = Some (start + COUNTER_EPOCH))).
Proof.
  intros H0 [Hg _] Hw%Z.leb_gt Hl start. unfold load in Hl. destruct readable; cbn [negb] in Hl; [|simplify_eq; auto].
  unfold COUNTER_EPOCH in *.
  rewrite (wrap_small 32 (Z.max _ _ + 4096)) in Hl by (unfold in_u; lia). fold start in Hl.
  rewrite wrap_small in Hl by (unfold start, in_u; lia).
  destruct (persist io (start + 4096) _) as [ [f c] o] eqn:Hp.
  apply persist_file in Hp as [ (-> & -> & ->) | (-> & -> & [-> | ->]) ]; cbn in Hl; simplify_eq; auto.
Qed.

Lemma next_run io file c file' c' r : 0 ≤ gc_next c ≤ gc_ceiling c →
  wraps (gc_ceiling c + COUNTER_EPOCH) = false → gc_step_next io (file, c) = ((file', c'), r) →
  (r = Ok (gc_next c) ∧ gc_next c' = gc_next c + 1 ∧
     (gc_next c < gc_ceiling c ∧ file' = file ∧ gc_ceiling c' = gc_ceiling c ∨
      file' = Some (gc_ceiling c + COUNTER_EPOCH) ∧ gc_ceiling c' = gc_ceiling c + COUNTER_EPOCH)) ∨
  (r = Err () ∧ c' = c ∧ (file' = file ∨ file' = Some (gc_ceiling c + COUNTER_EPOCH))).
Proof.
  intros Hc Hw%Z.leb_gt Hn. unfold COUNTER_EPOCH in *. unfold gc_step_next, bind, get in Hn.
  destruct (Z.eqb_spec (gc_next c) (gc_ceiling c)).
  - unfold COUNTER_EPOCH in Hn. rewrite (wrap_small 32 (gc_ceiling c + 4096)) in Hn by (unfold in_u; lia).
    destruct (persist io _ _) as [ [f c1] o] eqn:Hp.
    apply persist_file in Hp as [ (-> & -> & ->) | (-> & -> & [-> | ->]) ]; cbn in Hn;
      rewrite ?wrap_small in Hn by (unfold in_u; lia); unfold ret in Hn; simplify_eq; cbn; auto 8.
  - cbn in Hn. rewrite wrap_small in Hn by (unfold in_u; lia). unfold ret in Hn. simplify_eq. cbn. left. split; [done|]. split; [done|].
    left. split_and!; [lia|done|done].
Qed.

Lemma jump_run io file c file' c' r : 0 ≤ gc_ceiling c →
  wraps (gc_ceiling c + 2 * COUNTER_EPOCH) = false → jump io (file, c) = ((file', c'), r) →
  let to := gc_ceiling c + COUNTER_EPOCH in
  (r = Ok (gc_next c, to) ∧ c' = {| gc_next := to; gc_ceiling := to + COUNTER_EPOCH |} ∧
     file' = Some (to + COUNTER_EPOCH)) ∨
  (r = Err () ∧ c' = c ∧ (file' = file ∨ file' = Some (to + COUNTER_EPOCH))).
Proof.
  intros Hc Hw%Z.leb_gt Hj to. unfold COUNTER_EPOCH in *. unfold jump, bind, get in Hj. unfold COUNTER_EPOCH in Hj.
  rewrite (wrap_small 32 (gc_ceiling c + 4096)) in Hj by (unfold in_u; lia). fold to in Hj.
  rewrite wrap_small in Hj by (unfold to, in_u; lia).
  destruct (persist io _ _) as [ [f c1] o] eqn:Hp.
  apply persist_file in Hp as [ (-> & -> & ->) | (-> & -> & [-> | ->]) ]; cbn in Hj; unfold ret in Hj; simplify_eq; cbn; auto 8.
Qed.

Lemma sent_snoc (l : list Z) v : NoDup l → Forall (λ x, x < v) l → NoDup (l ++ [v]) ∧ Forall (λ x, x < v + 1) (l ++ [v]).
Proof.
  intros Hl Hv. split.
  - apply NoDup_app. split; [done|]. split; [|apply NoDup_singleton]. intros x Hx ->%list_elem_of_singleton.
    rewrite Forall_forall in Hv. specialize (Hv v Hx). lia.
  - apply Forall_app. split; [eapply below_mono; [|exact Hv]; lia|]. apply Forall_singleton. lia.
Qed.

Lemma counter_step_ok s s' : counter_step s s' → cs_wrapped s' = false →
  cs_wrapped s = false ∧ (counter_ok s → counter_ok s').
Proof.
  intros Hstep Hw. destruct Hstep as [readable io gdc file sent b file' r Hg Hl|io file c sent b file' c' r Hn
    |io file c sent b file' c' r Hj|file c sent b]; cbn [cs_wrapped] in *;
    try apply orb_false_iff in Hw as [-> Hw]; (split; [done|]); intros [Hf Hs Hb Hp]; cbn in *.
  - assert (H0 : 0 ≤ default 0 file) by (destruct file; [destruct Hf|]; done).
    pose proof Hw as Hw'. apply Z.leb_gt in Hw'. destruct (load_run readable io gdc file file' r H0 Hg Hw Hl) as [ [-> ->] | [-> [-> | ->] ] ];
      unfold COUNTER_EPOCH in *; split; cbn; try done; try (unfold in_u; lia); try (eapply below_mono; [|exact Hb]; lia).
    split; [unfold in_u; lia|]. split; [lia|]. eapply below_mono; [|exact Hb]. lia.
  - destruct Hp as (Hnx & Hc & Hbn). pose proof Hw as Hw'. apply Z.leb_gt in Hw'. unfold in_u in Hnx.
    destruct (sent_snoc sent (gc_next c) Hs Hbn) as [Hs' Hb'].
    destruct (next_run io file c file' c' r ltac:(lia) Hw Hn) as [ (-> & Hn' & [ (Hlt & -> & Hc') | [-> Hc'] ]) | (-> & -> & [-> | ->]) ];
      unfold COUNTER_EPOCH in *; split; cbn; try done; try (unfold in_u; lia); try (eapply below_mono; [|exact Hb']; lia);
      try (eapply below_mono; [|exact Hbn]; lia).
    + rewrite Hn', Hc'. split; [unfold in_u; lia|]. split; [lia|done].
    + rewrite Hn', Hc'. split; [unfold in_u; lia|]. split; [lia|done].
    + split; [unfold in_u; lia|]. split; [lia|done].
  - destruct Hp as (Hnx & Hc & Hbn). pose proof Hw as Hw'. apply Z.leb_gt in Hw'. unfold in_u in Hnx.
    destruct (jump_run io file c file' c' r ltac:(lia) Hw Hj) as [ (-> & -> & ->) | (-> & -> & [-> | ->]) ];
      unfold COUNTER_EPOCH in *; split; cbn; try done; try (unfold in_u; lia); try (eapply below_mono; [|exact Hbn]; lia).
    + split; [unfold in_u; lia|]. split; [lia|]. eapply below_mono; [|exact Hbn]. lia.
    + split; [unfold in_u; lia|]. split; [lia|done].
  - by split.
Qed.

Definition counter_start (file : CounterFile) : CounterState :=
  {| cs_file := file; cs_proc := None; cs_sent := []; cs_wrapped := false |}.

(** C34. No group counter is ever sent twice: across any number of restarts,
    crashes, jumps and failed saves — with the old or the new number left on
    disk — and whatever number chip-tool's store contributes, the counters handed
    out are all different, and the file always holds a number above all of them;
    until the 32-bit counter itself wraps around. *)
Theorem group_counters_distinct file s :
  from_option (in_u 32) True file → rtc counter_step (counter_start file) s → cs_wrapped s = false →
  NoDup (cs_sent s) ∧ Forall (λ v, v < default 0 (cs_file s)) (cs_sent s).
Proof.
  intros Hf Hr Hw.
  assert (H : ∀ s0, rtc counter_step s0 s → counter_ok s0 → counter_ok s).
  { clear Hr. intros s0 Hr. revert Hw. induction Hr as [|s0 s1 s Hstep Hr IH]; intros Hw H0; [done|].
    apply IH; [done|]. assert (Hw1 : cs_wrapped s1 = false).
    { clear -Hr Hw. induction Hr as [|s1 s2 s Hs Hr IH]; [done|]. by apply (counter_step_ok _ _ Hs), IH. }
    by apply (counter_step_ok _ _ Hstep Hw1). }
  destruct (H _ Hr) as [_ Hn Hb _]; [|done]. split; cbn; try done; apply NoDup_nil_2.
Qed.

(** Two counters, a crash, and two more after the restart. *)
Lemma group_counters_distinct_witness :
  ∃ s, rtc counter_step (counter_start (Some 100)) s ∧ cs_sent s = [4196; 4197; 12388; 12389] ∧ NoDup (cs_sent s).
Proof.
  eexists. match goal with |- ?A ∧ ?B ∧ ?C => assert (Hr : A) end.
  { eapply rtc_l; [by apply (cs_load true Saved 7)|]. eapply rtc_l; [by apply (cs_next Saved)|].
    eapply rtc_l; [by apply (cs_next Saved)|]. eapply rtc_l; [apply cs_crash|].
    eapply rtc_l; [by apply (cs_load true Saved 7)|]. eapply rtc_l; [by apply (cs_next Saved)|].
    eapply rtc_l; [by apply (cs_next Saved)|]. apply rtc_refl. }
  split; [exact Hr|]. split; [by vm_compute|].
  by apply (group_counters_distinct (Some 100) _ ltac:(done) Hr).
Defined.
