(* ===== verification/GroupRx.v ===== *)
(** * Receiving from a group

    Models [crates/mat-device/src/core/group_privacy.rs] and the pure part of
    [crates/mat-device/src/net/group_rx.rs]: header privacy, the replay guard, the
    classification of a datagram into a batch of group invokes, and the set of
    multicast addresses to join.  The socket of [GroupSocket] is not modelled. *)

From Stdlib Require Import String.
From stdpp Require Import gmap.
From S2P Require Import Prelude Tlv TlvValue Counter Im DataModel Groups Fabrics GroupKeys GroupSend Message Crypto.

(** ** Header privacy *)

Definition SESSION_TYPE_MASK : Z := 0x03.
Definition SESSION_TYPE_GROUP : Z := 0x01.
Definition PRIVACY_FLAG : Z := 0x80.
Definition PRIVACY_HEADER_OFFSET : Z := 4.

Section privacy.
Context `{Hkdf} `{A : Aead}.

Definition derive_privacy_key (operational_key : bytes) : bytes :=
  hkdf None operational_key (ascii "PrivacyKey") 16.

Definition privacy_nonce (session_id : Z) (mic : bytes) : bytes :=
  be_bytes 2 session_id ++ zslice 5 16 mic.

(** The [debug_assert!] of the error branch is a panic. *)
Definition privacy_crypt (key nonce data : bytes) : fin bytes :=
  match encrypt_payload key nonce [] data with
  | Ok ct => if zlen ct <? zlen data then Panic else Ok (zslice 0 (zlen data) ct)
  | _ => Panic
  end.

(** [crypt_header_in_place] on a copy: [None] is [false]. *)
Definition crypt_header (datagram operational_key : bytes) : fin (option bytes) :=
  match decode (H:=MessageHeader) datagram with
  | Ok (_, payload_off) =>
      if (zlen datagram <? payload_off + MIC_LEN) || (payload_off <=? PRIVACY_HEADER_OFFSET) then Ok None
      else
        let session_id := le_val (zslice 1 3 datagram) in
        let mic := zslice (zlen datagram - MIC_LEN) (zlen datagram) datagram in
        let? region := privacy_crypt (derive_privacy_key operational_key) (privacy_nonce session_id mic)
                         (zslice PRIVACY_HEADER_OFFSET payload_off datagram) in
        Ok (Some (zslice 0 PRIVACY_HEADER_OFFSET datagram ++ region ++ drop (Z.to_nat payload_off) datagram))
  | Err _ => Ok None
  | Panic => Panic
  | OutOfFuel => OutOfFuel
  end.

Definition deobfuscate_header (datagram operational_key : bytes) : fin (option bytes) :=
  crypt_header datagram operational_key.

Definition obfuscate_header (datagram operational_key : bytes) : fin (bytes * bool) :=
  let? r := crypt_header datagram operational_key in
  match r with Some d => Ok (d, true) | None => Ok (datagram, false) end.
End privacy.

(** ** The replay guard *)

Definition REPLAY_TABLE_CAPACITY : Z := 64.
Definition REPLAY_WINDOW : Z := 32.

Record ReplayWindow := { rw_max : Z; rw_window : Z }.

Definition window_accept (counter : Z) (w : ReplayWindow) : ReplayWindow * bool :=
  if counter =? rw_max w then (w, false)
  else
    let ahead := wrap 32 (counter - rw_max w) in
    if ahead <? 2 ^ 31 then
      ({| rw_max := counter;
          rw_window := if REPLAY_WINDOW <=? ahead then 0
                       else Z.lor (shl32 (rw_window w) ahead) (shl32 1 (ahead - 1)) |}, true)
    else
      let behind := wrap 32 (rw_max w - counter) in
      if REPLAY_WINDOW <? behind then (w, false)
      else
        let bit := shl32 1 (behind - 1) in
        if negb (Z.land (rw_window w) bit =? 0) then (w, false)
        else ({| rw_max := rw_max w; rw_window := Z.lor (rw_window w) bit |}, true).

(** The fabric and the node. *)
Abbreviation Source := (Z * Z)%type.
Definition GroupReplayGuard : Type := list (Source * ReplayWindow).

Definition GroupReplayGuard_new : GroupReplayGuard := [].

(** The window of the first entry of [key], replaced. *)
Fixpoint accept_known (key : Source) (counter : Z) (seen : GroupReplayGuard) : option (GroupReplayGuard * bool) :=
  match seen with
  | [] => None
  | (k, w) :: seen =>
      if bool_decide (k = key) then
        let (w, b) := window_accept counter w in Some ((k, w) :: seen, b)
      else
        match accept_known key counter seen with
        | Some (seen, b) => Some ((k, w) :: seen, b)
        | None => None
        end
  end.

Definition guard_accept (fabric source counter : Z) (seen : GroupReplayGuard) : GroupReplayGuard * bool :=
  match accept_known (fabric, source) counter seen with
  | Some r => r
  | None =>
      let seen := if REPLAY_TABLE_CAPACITY <=? zlen seen then tail seen else seen in
      (seen ++ [((fabric, source), {| rw_max := counter; rw_window := 0 |})], true)
  end.

(** ** Classification *)

Record GroupRxDeps := {
  gd_fabrics : list FabricEntry;
  gd_keys : GroupKeyStore;
  gd_membership : GroupMembershipStore
}.

Inductive GroupDrop :=
  | HeaderDecode | NotGroupSession | NoSource | NotGroupDestination | NoKeyset (candidates : Z)
  | NotMapped | NoMembers | Replay | NotInvoke | DropMalformed.

Record GroupInvokeBatch := {
  gb_fabric : Z;
  gb_group : Z;
  gb_source : Z;
  gb_endpoints : list Z;
  gb_invokes : list GroupInvokeIn
}.

(** The tuple [opened]. *)
Record Opened := {
  ok_fabric : Z;
  ok_keyset : Z;
  ok_source : Z;
  ok_group : Z;
  ok_counter : Z;
  ok_proto : ProtocolHeader;
  ok_payload : bytes
}.

Section rx.
Context `{Hkdf} `{A : Aead}.

Definition operational_key (f : FabricEntry) (ks : GroupKeySet) : bytes :=
  derive_ipk_operational (ks_key0 ks) (compressed_fabric_id (fe_root_public_key f) (fe_fabric_id f)).

(** One key set against the datagram: [None] when it is not a candidate,
    [Some None] for a candidate that does not open it. *)
Definition try_keyset (buf : bytes) (wire : MessageHeader) (privacy : bool) (fabrics : list FabricEntry)
    (ks : GroupKeySet) : fin (option (option Opened)) :=
  if ks_id ks =? IPK_KEY_SET_ID then Ok None
  else
    match find_fabric (ks_fabric ks) fabrics with
    | None => Ok None
    | Some f =>
        let operational := operational_key f ks in
        if negb (derive_group_session_id operational =? session_id wire) then Ok None
        else
          let? dg := (if privacy then deobfuscate_header buf operational else Ok (Some buf)) in
          match dg with
          | None => Ok (Some None)
          | Some dg =>
              match decode (H:=MessageHeader) dg with
              | Ok (header, _) =>
                  match source_node_id header, destination header with
                  | Some source, Group group_id =>
                      match open_message operational dg source with
                      | Ok (_, proto, payload) =>
                          Ok (Some (Some
                            {| ok_fabric := ks_fabric ks; ok_keyset := ks_id ks; ok_source := source;
                               ok_group := group_id; ok_counter := message_counter header;
                               ok_proto := proto; ok_payload := payload |}))
                      | Err _ => Ok (Some None)
                      | Panic => Panic
                      | OutOfFuel => OutOfFuel
                      end
                  | _, _ => Ok (Some None)
                  end
              | Err _ => Ok (Some None)
              | Panic => Panic
              | OutOfFuel => OutOfFuel
              end
          end
    end.

(** The loop over the key sets, stopping at the first that opens. *)
Fixpoint try_keysets (buf : bytes) (wire : MessageHeader) (privacy : bool) (fabrics : list FabricEntry)
    (keysets : list GroupKeySet) (candidates : Z) : fin (Z * option Opened) :=
  match keysets with
  | [] => Ok (candidates, None)
  | ks :: keysets =>
      let? r := try_keyset buf wire privacy fabrics ks in
      match r with
      | None => try_keysets buf wire privacy fabrics keysets candidates
      | Some None => try_keysets buf wire privacy fabrics keysets (candidates + 1)
      | Some (Some o) => Ok (candidates + 1, Some o)
      end
  end.

Definition of_fin {S E T} (m : fin T) : M S E T :=
  match m with
  | Ok x => ret x
  | Err e => match e with end
  | Panic => panic
  | OutOfFuel => out_of_fuel
  end.

Definition classify_group_datagram (buf : bytes) (deps : GroupRxDeps) :
    M GroupReplayGuard GroupDrop GroupInvokeBatch :=
  let! (wire, _) := lift (map_err (λ _, HeaderDecode) (decode (H:=MessageHeader) buf)) in
  if negb (Z.land (security_flags wire) SESSION_TYPE_MASK =? SESSION_TYPE_GROUP) then throw NotGroupSession
  else
    let privacy := negb (Z.land (security_flags wire) PRIVACY_FLAG =? 0) in
    (if privacy then ret ()
     else
       match source_node_id wire, destination wire with
       | None, _ => throw NoSource
       | Some _, Group _ => ret ()
       | Some _, _ => throw NotGroupDestination
       end) ;;!
    let! (candidates, opened) :=
      of_fin (try_keysets buf wire privacy (gd_fabrics deps) (gk_keysets (gd_keys deps)) 0) in
    match opened with
    | None => throw (NoKeyset candidates)
    | Some o =>
        if negb (bool_decide ((ok_group o, ok_keyset o) ∈ map_entries_for (ok_fabric o) (gd_keys deps)))
        then throw NotMapped
        else
          let endpoints := endpoints_for (ok_fabric o) (ok_group o) (gd_membership deps) in
          if bool_decide (endpoints = []) then throw NoMembers
          else
            let! accepted := (λ g, let (g, b) := guard_accept (ok_fabric o) (ok_source o) (ok_counter o) g in (g, Ok b)) in
            if negb accepted then throw Replay
            else if negb (protocol_id (ok_proto o) =? PROTOCOL_ID_INTERACTION_MODEL) ||
                    negb (opcode (ok_proto o) =? OPCODE_INVOKE_REQUEST)
            then throw NotInvoke
            else
              let! invokes := lift (map_err (λ _, DropMalformed) (decode_group_invoke_request (ok_payload o))) in
              ret {| gb_fabric := ok_fabric o; gb_group := ok_group o; gb_source := ok_source o;
                     gb_endpoints := endpoints; gb_invokes := invokes |}
    end.
End rx.

Definition desired_group_addrs (fabrics : list FabricEntry) (membership : GroupMembershipStore) : gset bytes :=
  list_to_set (omap (λ '(fabric, g),
    (λ f, group_multicast_addr (fe_fabric_id f) g) <$> find_fabric fabric fabrics) (groups_by_fabric membership)).

(** ** The guard is the unicast window, per source

    The group window counts modulo 2^32; [Counter.check_and_commit] is the
    window of a unicast session, over plain integers. *)

Definition rep (w : RxWindow) : ReplayWindow := {| rw_max := wrap 32 (rx_max w); rw_window := rx_bitmap w |}.

Lemma wrap_minus a b : wrap 32 (wrap 32 a - wrap 32 b) = wrap 32 (a - b).
Proof. unfold wrap. symmetry. apply Zminus_mod. Qed.

Lemma wrap_near d : - 2 ^ 31 ≤ d < 2 ^ 31 → wrap 32 d = if d <? 0 then d + 2 ^ 32 else d.
Proof.
  intros Hd. unfold wrap. destruct (Z.ltb_spec d 0); [|apply Z.mod_small; lia].
  rewrite <- (Z_mod_plus_full d 1), Z.mul_1_l. apply Z.mod_small. lia.
Qed.

Lemma window_sim w c : rx_empty w = false → - 2 ^ 31 ≤ c - rx_max w < 2 ^ 31 →
  let (w', b) := check_and_commit w c in
  window_accept (wrap 32 c) (rep w) = (rep w', b) ∧ rx_empty w' = false.
Proof.
  intros He Hd. destruct w as [m bm e]. cbn in He, Hd. subst e.
  unfold check_and_commit, window_accept, rep. cbn [rx_max rx_bitmap rx_empty rw_max rw_window].
  rewrite !wrap_minus. assert (Heq : wrap 32 c = wrap 32 m ↔ c = m).
  { split; [|by intros ->]. intros H. assert (H0 : wrap 32 (c - m) = 0).
    { rewrite <- wrap_minus, H, Z.sub_diag. done. }
    rewrite wrap_near in H0 by lia. destruct (Z.ltb_spec (c - m) 0); lia. }
  destruct (Z.ltb_spec m c) as [Hlt|Hge].
  - destruct (Z.eqb_spec (wrap 32 c) (wrap 32 m)) as [->%Heq|_]; [lia|].
    rewrite wrap_near by lia. destruct (Z.ltb_spec (c - m) 0); [lia|].
    destruct (Z.ltb_spec (c - m) (2 ^ 31)); [|lia]. unfold REPLAY_WINDOW. by destruct (32 <=? c - m).
  - destruct (Z.eqb_spec (wrap 32 c) (wrap 32 m)) as [->%Heq|Hne].
    { rewrite Z.eqb_refl. by destruct (Z.eqb_spec m m). }
    destruct (Z.eqb_spec c m) as [->|Hcm]; [done|].
    rewrite (wrap_near (c - m)) by lia. destruct (Z.ltb_spec (c - m) 0); [|lia].
    destruct (Z.ltb_spec (c - m + 2 ^ 32) (2 ^ 31)); [lia|].
    assert (Hb : wrap 32 (m - c) = m - c) by (apply wrap_small; unfold in_u; lia). rewrite Hb.
    unfold REPLAY_WINDOW. destruct (32 <? m - c); [done|]. by destruct (negb _).
Qed.

Definition guard_map (g : GroupReplayGuard) : gmap Source ReplayWindow := list_to_map g.

Lemma accept_known_map key c g : NoDup g.*1 →
  match accept_known key c g with
  | Some (g', b) => ∃ w w', guard_map g !! key = Some w ∧ window_accept c w = (w', b) ∧
      guard_map g' = <[key := w']> (guard_map g) ∧ g'.*1 = g.*1
  | None => guard_map g !! key = None
  end.
Proof.
  unfold guard_map. induction g as [|[k w] g IH]; cbn; [done|]. intros [Hk Hnd]%NoDup_cons.
  case_bool_decide as Hkey.
  - subst k. destruct (window_accept c w) as [w' b] eqn:Hw. exists w, w'.
    rewrite lookup_insert_eq. split; [done|]. split; [done|]. split; [|done]. cbn. by rewrite insert_insert_eq.
  - specialize (IH Hnd). destruct (accept_known key c g) as [ [g' b]|].
    + destruct IH as (w0 & w' & Hl & Hw & Hm & Hf). exists w0, w'. rewrite lookup_insert_ne by done.
      split; [done|]. split; [done|]. cbn. rewrite Hm, Hf. split; [by rewrite insert_insert_ne|done].
    + by rewrite lookup_insert_ne.
Qed.

(** The reference: a window per source that has been heard. *)
Definition ref_accept (key : Source) (c : Z) (m : gmap Source RxWindow) : gmap Source RxWindow * bool :=
  let (w, b) := check_and_commit (default RxWindow_new (m !! key)) c in (<[key := w]> m, b).

Record guard_rep (g : GroupReplayGuard) (m : gmap Source RxWindow) : Prop := {
  gr_keys : NoDup g.*1;
  gr_map : guard_map g = rep <$> m;
  gr_heard : ∀ k w, m !! k = Some w → rx_empty w = false
}.

Lemma rep_size g m : guard_rep g m → zlen g = Z.of_nat (size m).
Proof.
  intros [Hk Hm _]. unfold zlen. f_equal. rewrite <- (map_size_fmap rep m), <- Hm. unfold guard_map.
  rewrite map_size_list_to_map by done. done.
Qed.

Lemma guard_sim g m f s c : guard_rep g m →
  match m !! (f, s) with
  | Some w => - 2 ^ 31 ≤ c - rx_max w < 2 ^ 31
  | None => Z.of_nat (size m) < REPLAY_TABLE_CAPACITY
  end →
  let (m', b) := ref_accept (f, s) c m in
  ∃ g', guard_accept f s (wrap 32 c) g = (g', b) ∧ guard_rep g' m'.
Proof.
  intros Hg Hc. pose proof Hg as [Hk Hm Hh]. unfold ref_accept, guard_accept.
  pose proof (accept_known_map (f, s) (wrap 32 c) g Hk) as Ha.
  destruct (m !! (f, s)) as [w|] eqn:Hl; cbn [default from_option id].
  - pose proof (window_sim w c (Hh _ _ Hl) Hc) as Hs. destruct (check_and_commit w c) as [w1 b].
    destruct Hs as [Hs He]. destruct (accept_known _ _ g) as [ [g' b']|];
      [|by rewrite Hm, lookup_fmap, Hl in Ha].
    destruct Ha as (w2 & w3 & Hw2 & Hw & Hm' & Hf). rewrite Hm, lookup_fmap, Hl in Hw2. injection Hw2 as <-.
    rewrite Hs in Hw. injection Hw as <- <-.
    cbv beta match. exists g'. split; [done|]. split; [by rewrite Hf|by rewrite Hm', Hm, fmap_insert|].
    intros k w' [ [_ <-]|[_ Hk'] ]%lookup_insert_Some; [done|by apply (Hh k)].
  - destruct (accept_known _ _ g) as [ [g' b']|]; 
      [destruct Ha as (? & ? & Hw2 & _); by rewrite Hm, lookup_fmap, Hl in Hw2|].
    cbv beta match delta [check_and_commit RxWindow_new rx_empty]. rewrite (rep_size g m Hg).
    destruct (Z.leb_spec REPLAY_TABLE_CAPACITY (Z.of_nat (size m))); [lia|].
    eexists. split; [done|]. assert (Hnin : (f, s) ∉ g.*1).
    { unfold guard_map in Hm. apply not_elem_of_list_to_map. by rewrite Hm, lookup_fmap, Hl. }
    split.
    + rewrite fmap_app. apply NoDup_app. split; [done|]. split; [|apply NoDup_singleton].
      by intros k Hin ->%list_elem_of_singleton.
    + unfold guard_map in *. rewrite list_to_map_snoc by done. rewrite Hm, fmap_insert. done.
    + intros k w' [ [_ <-]|[_ Hk'] ]%lookup_insert_Some; [done|by apply (Hh k)].
Qed.

(** A run of datagrams: who sent them and their counters, as integers. *)
Definition Heard : Type := list (Source * Z).

Fixpoint guard_run (ds : Heard) (g : GroupReplayGuard) : list bool :=
  match ds with
  | [] => []
  | ((f, s), c) :: ds => let (g, b) := guard_accept f s (wrap 32 c) g in b :: guard_run ds g
  end.

Fixpoint ref_run (ds : Heard) (m : gmap Source RxWindow) : list bool :=
  match ds with
  | [] => []
  | (k, c) :: ds => let (m, b) := ref_accept k c m in b :: ref_run ds m
  end.

(** No counter is half the counter space away from its source's newest. *)
Fixpoint in_step (ds : Heard) (m : gmap Source RxWindow) : bool :=
  match ds with
  | [] => true
  | (k, c) :: ds =>
      match m !! k with
      | Some w => (- 2 ^ 31 <=? c - rx_max w) && (c - rx_max w <? 2 ^ 31)
      | None => true
      end && in_step ds (fst (ref_accept k c m))
  end.

Lemma run_sim ds g m : guard_rep g m → in_step ds m = true →
  Z.of_nat (size (dom m ∪ list_to_set ds.*1 : gset Source)) ≤ REPLAY_TABLE_CAPACITY →
  guard_run ds g = ref_run ds m.
Proof.
  revert g m. induction ds as [|[ [f s] c] ds IH]; intros g m Hg Hs Hsz; [done|]. cbn [guard_run ref_run].
  cbn [in_step] in Hs. apply andb_true_iff in Hs as [Hc Hs].
  assert (Hc' : match m !! (f, s) with
    | Some w => - 2 ^ 31 ≤ c - rx_max w < 2 ^ 31
    | None => Z.of_nat (size m) < REPLAY_TABLE_CAPACITY end).
  { destruct (m !! (f, s)) eqn:Hl; [apply andb_true_iff in Hc as [?%Z.leb_le ?%Z.ltb_lt]; lia|]. rewrite <- size_dom.
    assert (size (dom m : gset Source) < size (dom m ∪ list_to_set ((f, s) :: ds.*1) : gset Source))%nat; [|cbn in *; lia].
    apply subset_size. apply not_elem_of_dom in Hl. set_solver. }
  pose proof (guard_sim g m f s c Hg Hc') as Hsim.
  assert (Hdom : dom (fst (ref_accept (f, s) c m)) = {[(f, s)]} ∪ dom m).
  { unfold ref_accept. destruct (check_and_commit _ c) as [w b]. cbn. apply dom_insert_L. }
  destruct (ref_accept (f, s) c m) as [m' b]. destruct Hsim as (g' & -> & Hg'). f_equal.
  apply IH; [done|exact Hs|]. cbn [fst] in Hdom. rewrite Hdom. cbn in Hsz.
  replace ({[(f, s)]} ∪ dom m ∪ list_to_set ds.*1) with (dom m ∪ ({[(f, s)]} ∪ list_to_set ds.*1) : gset Source)
    by set_solver. done.
Qed.

Definition sent_by (k : Source) (ds : Heard) : list Z := omap (λ '(k', c), if bool_decide (k' = k) then Some c else None) ds.

(** The answers to the datagrams of one source. *)
Definition answers_to (k : Source) (ds : Heard) (bs : list bool) : list bool :=
  omap (λ '((k', _), b), if bool_decide (k' = k) then Some b else None) (zip ds bs).

Lemma ref_run_per_source k ds m :
  answers_to k ds (ref_run ds m) = snd (check_all (default RxWindow_new (m !! k)) (sent_by k ds)).
Proof.
  revert m. induction ds as [|[k' c] ds IH]; intros m; [done|]. cbn [ref_run].
  destruct (ref_accept k' c m) as [m' b] eqn:Hr. unfold ref_accept in Hr.
  destruct (check_and_commit _ c) as [w b'] eqn:Hcc. injection Hr as <- <-.
  unfold answers_to, sent_by in *. cbn [zip_with omap list_omap]. case_bool_decide as Hk.
  - subst k'. cbn [check_all]. rewrite Hcc, IH. rewrite lookup_insert_eq. cbn [default from_option id].
    by destruct (check_all w _).
  - rewrite IH. by rewrite lookup_insert_ne.
Qed.

(** The group replay guard, whose counters wrap around, is for every source
    the unicast replay window over the plain counters: for any interleaving of up
    to 64 sources whose counters never jump by half the counter space, each
    source's datagrams are accepted and refused exactly as [check_and_commit]
    decides on that source's own sequence — whatever the others send, and across
    the roll-over of the 32-bit counter. *)
Theorem group_replay_per_source (ds : Heard) (k : Source) :
  Z.of_nat (size (list_to_set ds.*1 : gset Source)) ≤ REPLAY_TABLE_CAPACITY → in_step ds ∅ = true →
  answers_to k ds (guard_run ds GroupReplayGuard_new) = snd (check_all RxWindow_new (sent_by k ds)).
Proof.
  intros Hsz Hs. unfold GroupReplayGuard_new. rewrite (run_sim ds [] ∅); [apply ref_run_per_source| |done|].
  - split; [constructor|done|]. by intros k' w Hl%lookup_empty_Some.
  - rewrite dom_empty_L. by rewrite (left_id_L ∅ (∪)).
Qed.

(** Two sources around the roll-over: a repeat of [2^32 - 1] is refused. *)
Lemma group_replay_per_source_witness :
  let ds := [((1, 7), 2 ^ 32 - 1); ((1, 8), 5); ((1, 7), 2 ^ 32 + 2); ((1, 7), 2 ^ 32 - 1); ((1, 8), 6); ((1, 7), 2 ^ 32)] in
  answers_to (1, 7) ds (guard_run ds GroupReplayGuard_new) = snd (check_all RxWindow_new (sent_by (1, 7) ds)) ∧
  snd (check_all RxWindow_new (sent_by (1, 7) ds)) = [true; true; false; true].
Proof.
  cbv zeta. split; [|by vm_compute]. apply group_replay_per_source; by vm_compute.
Defined.

(** ** Classification *)

(** Encrypting twice without associated data gives the text back: CCM encrypts
    by counter mode, which [privacy_crypt] relies on. *)
Class AeadStream (A : Aead) : Prop := {
  aead_symmetric k n pt ct ct' :
    aead_encrypt k n [] pt = Some ct →
    aead_encrypt k n [] (zslice 0 (zlen pt) ct) = Some ct' → zslice 0 (zlen pt) ct' = pt
}.

Section classify.
Context `{Hkdf} `{A : Aead, !AeadLaws A}.

Lemma privacy_crypt_run key nonce data : zlen data ≤ MAX_CCM_PAYLOAD → bytes_ok data →
  ∃ ct, aead_encrypt key nonce [] data = Some ct ∧
    privacy_crypt key nonce data = Ok (zslice 0 (zlen data) ct) ∧
    zlen (zslice 0 (zlen data) ct) = zlen data ∧ bytes_ok (zslice 0 (zlen data) ct).
Proof.
  intros Hl Hb. unfold privacy_crypt, encrypt_payload.
  destruct (Z.ltb_spec MAX_CCM_PAYLOAD (zlen data)); [lia|].
  destruct (aead_total key nonce [] data Hl) as [ct Hct]. rewrite Hct. cbn [ok_or].
  pose proof (aead_length _ _ _ _ _ Hct) as Hlen. unfold MIC_LEN in Hlen. pose proof (zlen_nonneg data).
  destruct (Z.ltb_spec (zlen ct) (zlen data)); [lia|]. exists ct.
  split; [done|]. split; [done|]. split; [rewrite zlen_zslice_0; lia|].
  pose proof (aead_bytes _ _ _ _ _ Hb Hct) as Hcb. unfold zslice. by apply Forall_take, Forall_drop.
Qed.

(** The header of a decoded message is at most 24 bytes. *)
Lemma encode_header_len (h : MessageHeader) : 8 ≤ zlen (encode h) ≤ 24.
Proof.
  change (8 ≤ zlen (MessageHeader_encode h) ≤ 24).
  destruct h as [sid sf mc src dst]. unfold MessageHeader_encode. cbn [session_id security_flags message_counter source_node_id destination].
  rewrite !zlen_app, !zlen_le_bytes. destruct src, dst; cbn [opt_bytes]; rewrite ?zlen_le_bytes, ?zlen_nil, ?zlen_cons, ?zlen_nil; lia.
Qed.

Lemma crypt_header_safe d op : bytes_ok d →
  match crypt_header d op with
  | Ok (Some d') => bytes_ok d' ∧ zlen d' = zlen d
  | Ok None => True
  | _ => False
  end.
Proof.
  intros Hb. unfold crypt_header. pose proof (decode_returns (H:=MessageHeader) d Hb) as Hr.
  destruct (decode (H:=MessageHeader) d) as [ [h off]|e| |] eqn:Hd; try done.
  destruct (decode_sound d h off Hb Hd) as (_ & Hoff & Hle & _). pose proof (encode_header_len h) as Hlen.
  destruct (Z.ltb_spec (zlen d) (off + MIC_LEN)); [done|]. unfold PRIVACY_HEADER_OFFSET.
  destruct (Z.leb_spec off 4); [done|]. cbn [orb].
  assert (Hreg : zlen (zslice 4 off d) = off - 4) by (rewrite zlen_zslice; lia).
  destruct (privacy_crypt_run (derive_privacy_key op) (privacy_nonce (le_val (zslice 1 3 d))
    (zslice (zlen d - MIC_LEN) (zlen d) d)) (zslice 4 off d)) as (ct & _ & -> & Hrl & Hrb).
  { rewrite Hreg. unfold MAX_CCM_PAYLOAD. lia. }
  { unfold zslice. by apply Forall_take, Forall_drop. }
  cbn [res_bind]. split.
  - apply Forall_app. split; [unfold zslice; by apply Forall_take, Forall_drop|].
    apply Forall_app. split; [done|by apply Forall_drop].
  - rewrite !zlen_app, Hrl, Hreg, zlen_zslice_0 by lia. unfold zlen in *. rewrite length_drop. lia.
Qed.

(** What it takes for a key set to open a datagram. *)
Definition opens (buf : bytes) (wire : MessageHeader) (privacy : bool) (fabrics : list FabricEntry)
    (ks : GroupKeySet) (o : Opened) : Prop :=
  ks_id ks ≠ IPK_KEY_SET_ID ∧
  ∃ f plain header,
    find_fabric (ks_fabric ks) fabrics = Some f ∧
    derive_group_session_id (operational_key f ks) = session_id wire ∧
    (if privacy then deobfuscate_header buf (operational_key f ks) = Ok (Some plain) else plain = buf) ∧
    open_message (operational_key f ks) plain (ok_source o) = Ok (header, ok_proto o, ok_payload o) ∧
    source_node_id header = Some (ok_source o) ∧ destination header = Group (ok_group o) ∧
    message_counter header = ok_counter o ∧ ok_fabric o = ks_fabric ks ∧ ok_keyset o = ks_id ks.

Lemma open_message_header key d node h p payload : open_message key d node = Ok (h, p, payload) →
  ∃ off, decode d = Ok (h, off).
Proof. intros Ho. apply open_message_inv in Ho as (off & pt & off' & Hd & _). by exists off. Qed.

Lemma try_keyset_safe buf wire privacy fabrics ks : bytes_ok buf →
  match try_keyset buf wire privacy fabrics ks with
  | Ok (Some (Some o)) => opens buf wire privacy fabrics ks o ∧ zlen (ok_payload o) ≤ zlen buf ∧ bytes_ok (ok_payload o)
  | Ok _ => True
  | _ => False
  end.
Proof.
  intros Hb. unfold try_keyset. destruct (Z.eqb_spec (ks_id ks) IPK_KEY_SET_ID); [done|].
  destruct (find_fabric _ _) as [f|] eqn:Hf; [|done].
  destruct (Z.eqb_spec (derive_group_session_id (operational_key f ks)) (session_id wire)); [|done]. cbn [negb].
  assert (Hdg : match (if privacy then deobfuscate_header buf (operational_key f ks) else Ok (Some buf)) with
    | Ok (Some d) => bytes_ok d ∧ zlen d = zlen buf ∧
        (if privacy then deobfuscate_header buf (operational_key f ks) = Ok (Some d) else d = buf)
    | Ok None => True | _ => False end).
  { destruct privacy; [|done]. unfold deobfuscate_header. pose proof (crypt_header_safe buf (operational_key f ks) Hb) as Hc.
    destruct (crypt_header buf _) as [ [d|]|?| |]; try done. destruct Hc as [H1 H2]. split; [exact H1|]. by split. }
  destruct (if privacy then deobfuscate_header buf (operational_key f ks) else Ok (Some buf)) as [ [d|]|?| |]; try done.
  cbn [res_bind]. destruct Hdg as (Hdb & Hdl & Hdg).
  pose proof (decode_returns (H:=MessageHeader) d Hdb) as Hr.
  destruct (decode (H:=MessageHeader) d) as [ [h off]|?| |] eqn:Hd; try done.
  destruct (source_node_id h) as [s|] eqn:Hs; [|done]. destruct (destination h) as [|?|g] eqn:Hdst; try done.
  pose proof (open_message_returns (operational_key f ks) d s Hdb) as Ho.
  destruct (open_message _ d s) as [ [ [h' p] payload]|?| |] eqn:Hop; try done.
  pose proof Hop as (off1 & pt & off2 & Hd' & Hpt & Hp & ->)%open_message_inv.
  assert (h' = h) as -> by congruence. split; [|cbn [ok_payload]].
  - split; [done|]. exists f, d, h. by split_and!.
  - assert (Hptb : bytes_ok pt) by (eapply aead_dec_bytes; [|exact Hpt]; by apply Forall_drop).
    split; [|by apply Forall_drop]. apply aead_dec_length in Hpt. unfold MIC_LEN, zlen in *. rewrite !length_drop in *. lia.
Qed.

Lemma try_keysets_safe buf wire privacy fabrics keysets n : bytes_ok buf →
  match try_keysets buf wire privacy fabrics keysets n with
  | Ok (_, Some o) => (∃ ks, ks ∈ keysets ∧ opens buf wire privacy fabrics ks o) ∧
      zlen (ok_payload o) ≤ zlen buf ∧ bytes_ok (ok_payload o)
  | Ok _ => True
  | _ => False
  end.
Proof.
  intros Hb. revert n. induction keysets as [|ks keysets IH]; intros n; [done|]. cbn [try_keysets].
  pose proof (try_keyset_safe buf wire privacy fabrics ks Hb) as Ht.
  assert (Hmore : ∀ n, match try_keysets buf wire privacy fabrics keysets n with
    | Ok (_, Some o) => (∃ ks', ks' ∈ ks :: keysets ∧ opens buf wire privacy fabrics ks' o) ∧
        zlen (ok_payload o) ≤ zlen buf ∧ bytes_ok (ok_payload o)
    | Ok _ => True | _ => False end).
  { intros n'. specialize (IH n'). destruct (try_keysets _ _ _ _ _ n') as [ [c [o|] ]|?| |]; try done.
    destruct IH as [ (ks' & Hin & Ho) H2]. split; [|exact H2]. exists ks'. split; [apply elem_of_cons; by right|done]. }
  destruct (try_keyset _ _ _ _ ks) as [ [ [o|]|]|?| |]; try done; cbn [res_bind]; try apply Hmore.
  destruct Ht as [Ho H2]. split; [|exact H2]. exists ks. split; [apply elem_of_cons; by left|done].
Qed.

(** The datagram is authentic for a group the device is in. *)
Definition authentic (buf : bytes) (deps : GroupRxDeps) (o : Opened) : Prop :=
  ∃ wire off ks,
    decode buf = Ok (wire, off) ∧ Z.land (security_flags wire) SESSION_TYPE_MASK = SESSION_TYPE_GROUP ∧
    ks ∈ gk_keysets (gd_keys deps) ∧
    opens buf wire (negb (Z.land (security_flags wire) PRIVACY_FLAG =? 0)) (gd_fabrics deps) ks o ∧
    (ok_group o, ok_keyset o) ∈ map_entries_for (ok_fabric o) (gd_keys deps) ∧
    endpoints_for (ok_fabric o) (ok_group o) (gd_membership deps) ≠ [].

Definition batch_of (o : Opened) (deps : GroupRxDeps) (b : GroupInvokeBatch) : Prop :=
  gb_fabric b = ok_fabric o ∧ gb_group b = ok_group o ∧ gb_source b = ok_source o ∧
  gb_endpoints b = endpoints_for (ok_fabric o) (ok_group o) (gd_membership deps) ∧
  protocol_id (ok_proto o) = PROTOCOL_ID_INTERACTION_MODEL ∧ opcode (ok_proto o) = OPCODE_INVOKE_REQUEST ∧
  decode_group_invoke_request (ok_payload o) = Ok (gb_invokes b).

Definition counted (o : Opened) (g : GroupReplayGuard) : GroupReplayGuard * bool :=
  guard_accept (ok_fabric o) (ok_source o) (ok_counter o) g.

(** C17. What the device does with any bytes from the group socket.  It never
    panics.  It runs commands only when a group key of a fabric it is on — never
    the IPK — opens the datagram, with the header restored under the same key's
    privacy key if it came obfuscated; the group it is addressed to is mapped to
    that very key set in that fabric; the fabric has member endpoints in the
    group, which are the endpoints reported; the counter is new for that fabric
    and source; and the payload is an invoke request whose commands are the ones
    reported.  Nothing but an authentic datagram for such a group moves the
    replay guard. *)
Theorem group_datagram_authenticated (buf : bytes) (deps : GroupRxDeps) (g : GroupReplayGuard) :
  bytes_ok buf → small buf →
  match classify_group_datagram buf deps g with
  | (g', Ok b) => ∃ o, authentic buf deps o ∧ counted o g = (g', true) ∧ batch_of o deps b ∧
      Forall invoke_in_ok (gb_invokes b)
  | (g', Err (NotInvoke | DropMalformed)) => ∃ o, authentic buf deps o ∧ counted o g = (g', true)
  | (g', Err Replay) => ∃ o, authentic buf deps o ∧ counted o g = (g', false)
  | (g', Err _) => g' = g
  | _ => False
  end.
Proof.
  intros Hb Hs. unfold classify_group_datagram. unfold bind at 1, lift.
  pose proof (decode_returns (H:=MessageHeader) buf Hb) as Hr.
  destruct (decode (H:=MessageHeader) buf) as [ [wire off]|e| |] eqn:Hd; try done. cbn [map_err].
  destruct (Z.eqb_spec (Z.land (security_flags wire) SESSION_TYPE_MASK) SESSION_TYPE_GROUP) as [Hst|]; [|done]. cbn [negb].
  set (privacy := negb (Z.land (security_flags wire) PRIVACY_FLAG =? 0)).
  assert (Hpre : ∀ (k : M GroupReplayGuard GroupDrop GroupInvokeBatch) (P : GroupReplayGuard * res GroupDrop GroupInvokeBatch → Prop),
    P (k g) → P (g, Err NoSource) → P (g, Err NotGroupDestination) →
    P (((if privacy then ret () else match source_node_id wire, destination wire with
         | None, _ => throw NoSource | Some _, Group _ => ret () | Some _, _ => throw NotGroupDestination end) ;;! k) g)).
  { intros k P H1 H2 H3. unfold bind. destruct privacy; [done|]. destruct (source_node_id wire); [|done]. by destruct (destination wire). }
  apply Hpre; [|done|done]. clear Hpre.
  pose proof (try_keysets_safe buf wire privacy (gd_fabrics deps) (gk_keysets (gd_keys deps)) 0 Hb) as Ht.
  unfold bind at 1, of_fin. destruct (try_keysets _ _ _ _ _ _) as [ [c [o|] ]|[]| |]; try done. cbn [ret].
  destruct Ht as ( (ks & Hks & Ho) & Hlen & Hpb).
  case_bool_decide as Hmap; [|done]. cbn [negb]. case_bool_decide as Heps; [done|].
  assert (Hauth : authentic buf deps o) by (exists wire, off, ks; split_and!; try done; apply Ho).
  unfold bind at 1. fold (counted o g). destruct (counted o g) as [g' [|] ] eqn:Hc; cbn [negb]; [|by exists o].
  destruct (Z.eqb_spec (protocol_id (ok_proto o)) PROTOCOL_ID_INTERACTION_MODEL) as [Hp|]; [|by exists o].
  destruct (Z.eqb_spec (opcode (ok_proto o)) OPCODE_INVOKE_REQUEST) as [Hop|]; [|by exists o]. cbn [negb orb].
  pose proof (decode_group_invoke_request_safe (ok_payload o) Hpb) as Hi. unfold bind, lift.
  destruct (decode_group_invoke_request (ok_payload o)) as [l|e| |] eqn:Hdec; cbn [map_err];
    [|by exists o|(exfalso; apply Hi; unfold small in *; lia)..].
  exists o. split; [done|]. split; [done|]. split; [|apply Hi; unfold small in *; lia]. by split_and!.
Qed.
End classify.

(** ** Delivery *)

Section deliver.
Context `{Hkdf} `{A : Aead, !AeadLaws A}.

(** A key set whose key has the datagram's session id. *)
Definition candidate (fabrics : list FabricEntry) (session : Z) (ks : GroupKeySet) : bool :=
  negb (ks_id ks =? IPK_KEY_SET_ID) &&
  match find_fabric (ks_fabric ks) fabrics with
  | Some f => derive_group_session_id (operational_key f ks) =? session
  | None => false
  end.

Lemma try_keyset_other buf wire privacy fabrics ks : candidate fabrics (session_id wire) ks = false →
  try_keyset buf wire privacy fabrics ks = Ok None.
Proof.
  unfold candidate, try_keyset. destruct (ks_id ks =? IPK_KEY_SET_ID); [done|].
  destruct (find_fabric _ _) as [f|]; [|done]. cbn [negb andb]. by intros ->.
Qed.

Lemma try_keysets_first buf wire privacy fabrics pre ks post n o :
  Forall (λ k, candidate fabrics (session_id wire) k = false) pre →
  try_keyset buf wire privacy fabrics ks = Ok (Some (Some o)) →
  try_keysets buf wire privacy fabrics (pre ++ ks :: post) n = Ok (n + 1, Some o).
Proof.
  intros Hpre Hks. induction Hpre as [|k pre Hk Hpre IH]; cbn [app try_keysets]; [by rewrite Hks|].
  by rewrite (try_keyset_other _ _ _ _ k Hk).
Qed.

Lemma session_id_typed `{!HkdfLaws} op : in_u 16 (derive_group_session_id op).
Proof.
  unfold derive_group_session_id.
  pose proof (le_val_bound (rev (hkdf None op (ascii "GroupKeyHash") 2))) as Hb.
  assert (Hl : zlen (rev (hkdf None op (ascii "GroupKeyHash") 2)) = 2).
  { unfold zlen. rewrite length_rev. by apply (hkdf_length None op (ascii "GroupKeyHash") 2). }
  rewrite Hl in Hb. apply Hb. apply Forall_rev. apply hkdf_bytes.
Qed.

(** A group's header is 18 bytes: flags, session id and security flags in clear,
    then counter, source and group. *)
Lemma group_header_bytes sid sf src cnt g :
  encode (group_header sid sf src cnt g) =
  ([6] ++ le_bytes 2 sid ++ [sf]) ++ (le_bytes 4 cnt ++ le_bytes 8 src ++ le_bytes 2 g).
Proof.
  change (encode (group_header sid sf src cnt g)) with (MessageHeader_encode (group_header sid sf src cnt g)).
  unfold MessageHeader_encode. cbn [group_header session_id security_flags message_counter source_node_id destination opt_bytes].
  by rewrite <- !app_assoc.
Qed.

Lemma wf_group_header sid sf src cnt g : in_u 16 sid → is_byte sf → in_u 64 src → in_u 32 cnt → in_u 16 g →
  wf_message (group_header sid sf src cnt g).
Proof. intros. do 4 (split; [done|]). done. Qed.

(** Any 14 bytes in place of counter, source and group are a counter, a source
    and a group. *)
Lemma region_header sid sf region : zlen region = 14 → bytes_ok region →
  ∃ cnt src g, in_u 32 cnt ∧ in_u 64 src ∧ in_u 16 g ∧
    ([6] ++ le_bytes 2 sid ++ [sf]) ++ region = encode (group_header sid sf src cnt g).
Proof.
  intros Hl Hb. exists (le_val (take 4 region)), (le_val (take 8 (drop 4 region))), (le_val (drop 12 region)).
  assert (Hlen : length region = 14%nat) by (unfold zlen in Hl; lia).
  assert (Hv : ∀ l n, bytes_ok l → length l = n → 0 ≤ le_val l < 256 ^ Z.of_nat n ∧ le_bytes n (le_val l) = l).
  { intros l n Hlb <-. split; [by apply le_val_bound|by apply le_bytes_val]. }
  destruct (Hv (take 4 region) 4%nat) as [H1 E1]; [by apply Forall_take|by rewrite length_take, Hlen|].
  destruct (Hv (take 8 (drop 4 region)) 8%nat) as [H2 E2];
    [by apply Forall_take, Forall_drop|by rewrite length_take, length_drop, Hlen|].
  destruct (Hv (drop 12 region) 2%nat) as [H3 E3]; [by apply Forall_drop|by rewrite length_drop, Hlen|].
  split; [done|]. split; [done|]. split; [done|]. rewrite group_header_bytes, E1, E2, E3. f_equal.
  rewrite <- (take_drop 4 region) at 1. f_equal. rewrite <- (take_drop 8 (drop 4 region)) at 1. by rewrite drop_drop.
Qed.
Lemma zslice_app_l {T} a b (l k : list T) : 0 ≤ a → b ≤ zlen l → zslice a b (l ++ k) = zslice a b l.
Proof.
  intros Ha Hb. unfold zslice, zlen in *. destruct (decide (b < a)).
  - replace (Z.to_nat (b - a)) with 0%nat by lia. done.
  - rewrite drop_app_le, take_app_le; [done| |lia]. rewrite length_drop. lia.
Qed.

Lemma zslice_app_r {T} a b (l k : list T) : zlen l ≤ a →
  zslice a b (l ++ k) = zslice (a - zlen l) (b - zlen l) k.
Proof.
  intros Ha. unfold zslice, zlen in *. rewrite drop_app_ge by lia.
  replace (Z.to_nat (b - Z.of_nat (length l) - (a - Z.of_nat (length l)))) with (Z.to_nat (b - a)) by lia.
  replace (Z.to_nat (a - Z.of_nat (length l))) with (Z.to_nat a - length l)%nat by lia. done.
Qed.

(** The privacy step on a group datagram, prefix, region and ciphertext apart. *)
Lemma crypt_header_at (h : MessageHeader) op p region ct : valid h → p ++ region = encode h → zlen p = 4 →
  zlen region = 14 → MIC_LEN ≤ zlen ct →
  crypt_header (p ++ region ++ ct) op =
    (let? r := privacy_crypt (derive_privacy_key op)
       (privacy_nonce (le_val (zslice 1 3 p)) (zslice (zlen ct - MIC_LEN) (zlen ct) ct)) region in
     Ok (Some (p ++ r ++ ct))).
Proof.
  intros Hh He Hp Hr Hct. unfold crypt_header.
  assert (Hdec : decode (p ++ region ++ ct) = Ok (h, 18)).
  { rewrite app_assoc, He, decode_encode by done. by rewrite <- He, zlen_app, Hp, Hr. }
  rewrite Hdec. unfold PRIVACY_HEADER_OFFSET, MIC_LEN in *. rewrite !zlen_app, Hp, Hr.
  destruct (Z.ltb_spec (4 + (14 + zlen ct)) (18 + 16)); [lia|]. cbn [orb Z.leb Z.compare Pos.compare Pos.compare_cont].
  assert (H1 : zslice 1 3 (p ++ region ++ ct) = zslice 1 3 p) by (apply zslice_app_l; lia).
  assert (H2 : zslice (4 + (14 + zlen ct) - 16) (4 + (14 + zlen ct)) (p ++ region ++ ct) =
    zslice (zlen ct - 16) (zlen ct) ct).
  { rewrite zslice_app_r, zslice_app_r by lia. rewrite Hp, Hr. f_equal; lia. }
  assert (H3 : zslice 4 18 (p ++ region ++ ct) = region).
  { rewrite zslice_app_r by lia. rewrite Hp, zslice_app_l by lia. rewrite <- (zslice_full region) at 2. f_equal; lia. }
  assert (H4 : zslice 0 4 (p ++ region ++ ct) = p).
  { rewrite zslice_app_l by lia. rewrite <- (zslice_full p) at 2. f_equal; lia. }
  assert (H5 : drop (Z.to_nat 18) (p ++ region ++ ct) = ct).
  { rewrite app_assoc. replace 18 with (zlen (p ++ region)) by (rewrite zlen_app; lia). apply drop_zlen_app. }
  change (if 18 <=? 4 then _ else ?x) with x. by rewrite H1, H2, H3, H4, H5.
Qed.

(** Obfuscating a group datagram yields another with the same session id,
    security flags and ciphertext, and doing it again restores it. *)
Lemma obfuscate_restores `{!AeadStream A} sid sf src cnt g ct op :
  in_u 16 sid → is_byte sf → in_u 64 src → in_u 32 cnt → in_u 16 g → MIC_LEN ≤ zlen ct →
  let d := encode (group_header sid sf src cnt g) ++ ct in
  ∃ src' cnt' g', in_u 64 src' ∧ in_u 32 cnt' ∧ in_u 16 g' ∧
    let d' := encode (group_header sid sf src' cnt' g') ++ ct in
    obfuscate_header d op = Ok (d', true) ∧ deobfuscate_header d' op = Ok (Some d).
Proof.
  intros Hsid Hsf Hsrc Hcnt Hg Hct d.
  set (p := [6] ++ le_bytes 2 sid ++ [sf]). set (r := le_bytes 4 cnt ++ le_bytes 8 src ++ le_bytes 2 g).
  assert (Hp : zlen p = 4) by (unfold p; by rewrite !zlen_app, zlen_le_bytes).
  assert (Hr : zlen r = 14) by (unfold r; by rewrite !zlen_app, !zlen_le_bytes).
  assert (Hrb : bytes_ok r) by (unfold r; rewrite !Forall_app; split_and!; apply le_bytes_ok).
  assert (Hd : d = p ++ r ++ ct) by (unfold d; by rewrite group_header_bytes, <- app_assoc).
  set (key := derive_privacy_key op). set (nonce := privacy_nonce (le_val (zslice 1 3 p)) (zslice (zlen ct - MIC_LEN) (zlen ct) ct)).
  destruct (privacy_crypt_run key nonce r) as (c1 & Hc1 & Hrun1 & Hl1 & Hb1); [rewrite Hr; by vm_compute|done|].
  assert (Hl14 : zlen (zslice 0 (zlen r) c1) = 14) by (by rewrite Hl1).
  destruct (region_header sid sf (zslice 0 (zlen r) c1)) as (cnt' & src' & g' & Hcnt' & Hsrc' & Hg' & He'); [done|done|].
  fold p in He'. exists src', cnt', g'. do 3 (split; [done|]).
  destruct (privacy_crypt_run key nonce (zslice 0 (zlen r) c1)) as (c2 & Hc2 & Hrun2 & _ & _); [rewrite Hl14; by vm_compute|done|].
  split.
  - unfold obfuscate_header. rewrite Hd.
    rewrite (crypt_header_at (group_header sid sf src cnt g)); [|by apply wf_group_header|by rewrite group_header_bytes|done..].
    fold key nonce. rewrite Hrun1. cbn [res_bind]. by rewrite <- He', <- app_assoc.
  - unfold deobfuscate_header. rewrite <- He', <- app_assoc.
    rewrite (crypt_header_at (group_header sid sf src' cnt' g')); [|by apply wf_group_header|done..].
    fold key nonce. rewrite Hrun2. cbn [res_bind]. rewrite Hl1.
    rewrite (aead_symmetric key nonce r c1 c2 Hc1 Hc2). by rewrite Hd.
Qed.
Section one.
Context `{!AeadStream A} `{!HkdfLaws}.
Context (deps : GroupRxDeps) (guard : GroupReplayGuard) (pre post : list GroupKeySet) (ks : GroupKeySet)
  (f : FabricEntry) (src cnt exch grp cl cmd : Z) (fields : option (Tag * list tree)) (payload : bytes).
Notation op := (operational_key f ks).
Notation sid := (derive_group_session_id op).

(** The device holds the group's key in [ks], maps the group to it, has members
    in the group, and has not seen the counter; the command fits a message. *)
Record listening : Prop := {
  li_keys : gk_keysets (gd_keys deps) = pre ++ ks :: post;
  li_not_ipk : ks_id ks ≠ IPK_KEY_SET_ID;
  li_fabric : find_fabric (ks_fabric ks) (gd_fabrics deps) = Some f;
  li_first : Forall (λ k, candidate (gd_fabrics deps) sid k = false) pre;
  li_mapped : (grp, ks_id ks) ∈ map_entries_for (ks_fabric ks) (gd_keys deps);
  li_member : endpoints_for (ks_fabric ks) grp (gd_membership deps) ≠ [];
  li_new : snd (guard_accept (ks_fabric ks) src cnt guard) = true;
  li_src : in_u 64 src;
  li_cnt : in_u 32 cnt;
  li_exch : in_u 16 exch;
  li_grp : in_u 16 grp;
  li_cl : in_u 32 cl;
  li_cmd : in_u 32 cmd;
  li_fields : struct_ok fields;
  li_payload : encode_group_invoke_request cl cmd (struct_raw fields) = Ok payload;
  li_fits : zlen payload ≤ 65000
}.
Context (Hli : listening).

Definition sent_opened : Opened := {|
  ok_fabric := ks_fabric ks; ok_keyset := ks_id ks; ok_source := src; ok_group := grp; ok_counter := cnt;
  ok_proto := group_proto exch; ok_payload := payload
|}.

Definition sent_batch : GroupInvokeBatch := {|
  gb_fabric := ks_fabric ks; gb_group := grp; gb_source := src;
  gb_endpoints := endpoints_for (ks_fabric ks) grp (gd_membership deps);
  gb_invokes := [ {| gi_cluster := cl; gi_command := cmd; gi_fields := default [] (anon_raw fields) |} ]
|}.

(** A sealed datagram, and what its key set makes of it once in clear. *)
Lemma sealed_opens sf buf wire (privacy : bool) ct : is_byte sf →
  let h := group_header sid sf src cnt grp in
  aead_encrypt op (header_nonce h src) (encode h) (encode (group_proto exch) ++ payload) = Some ct →
  session_id wire = sid →
  (if privacy then deobfuscate_header buf op = Ok (Some (encode h ++ ct)) else buf = encode h ++ ct) →
  try_keyset buf wire privacy (gd_fabrics deps) ks = Ok (Some (Some sent_opened)).
Proof.
  intros Hsf h Hct Hw Hplain. destruct Hli. unfold try_keyset.
  destruct (Z.eqb_spec (ks_id ks) IPK_KEY_SET_ID); [done|]. rewrite li_fabric0, Hw, Z.eqb_refl. cbn [negb].
  assert (Hdg : (if privacy then deobfuscate_header buf op else Ok (Some buf)) = Ok (Some (encode h ++ ct))).
  { destruct privacy; [done|by rewrite Hplain]. }
  rewrite Hdg. cbn [res_bind].
  assert (Hh : wf_message h) by (apply wf_group_header; [apply session_id_typed|done..]).
  rewrite (decode_encode h ct) by done. cbn [h group_header source_node_id destination].
  rewrite (open_message_sealed op h (group_proto exch) payload src ct); [done|done| | |done].
  - by do 4 (split; [done|]).
  - assert (zlen (encode (group_proto exch)) = 6); [|unfold MAX_CCM_PAYLOAD; lia].
    change (zlen (ProtocolHeader_encode (group_proto exch)) = 6). unfold ProtocolHeader_encode.
    cbn [group_proto vendor_id acked_counter opt_bytes]. by rewrite !zlen_app, !zlen_le_bytes.
Qed.

Lemma classify_sent buf wire off : decode buf = Ok (wire, off) →
  Z.land (security_flags wire) SESSION_TYPE_MASK = SESSION_TYPE_GROUP → session_id wire = sid →
  (Z.land (security_flags wire) PRIVACY_FLAG = 0 → source_node_id wire = Some src ∧ destination wire = Group grp) →
  try_keyset buf wire (negb (Z.land (security_flags wire) PRIVACY_FLAG =? 0)) (gd_fabrics deps) ks =
    Ok (Some (Some sent_opened)) →
  classify_group_datagram buf deps guard = (fst (guard_accept (ks_fabric ks) src cnt guard), Ok sent_batch).
Proof.
  intros Hd Hst Hsid Hplain Hks. destruct Hli. unfold classify_group_datagram. unfold bind at 1, lift.
  rewrite Hd. cbn [map_err]. rewrite Hst, Z.eqb_refl. cbn [negb].
  assert (Hpre : ∀ (k : M GroupReplayGuard GroupDrop GroupInvokeBatch) r, k guard = r →
    ((if negb (Z.land (security_flags wire) PRIVACY_FLAG =? 0) then ret () else
      match source_node_id wire, destination wire with
      | None, _ => throw NoSource | Some _, Group _ => ret () | Some _, _ => throw NotGroupDestination end) ;;! k) guard = r).
  { intros k r Hk. unfold bind. destruct (Z.eqb_spec (Z.land (security_flags wire) PRIVACY_FLAG) 0) as [Hclear|]; [|done].
    destruct (Hplain Hclear) as [-> ->]. done. }
  apply Hpre. clear Hpre. unfold bind at 1, of_fin. rewrite li_keys0.
  rewrite (try_keysets_first _ _ _ _ pre ks post 0 sent_opened); [|by rewrite Hsid|done]. cbn [ret].
  cbn [sent_opened ok_group ok_keyset ok_fabric ok_source ok_counter ok_proto ok_payload].
  rewrite bool_decide_eq_true_2 by done. cbn [negb]. rewrite bool_decide_eq_false_2 by done.
  unfold bind at 1. destruct (guard_accept (ks_fabric ks) src cnt guard) as [g' b]. cbn [snd fst] in *. subst b. cbn [negb].
  cbn [group_proto protocol_id opcode]. rewrite !Z.eqb_refl. cbn [negb orb]. unfold bind, lift.
  rewrite (group_request_decoded cl cmd fields payload); [done|done|done|done|done|]. unfold small. lia.
Qed.

Lemma ct_len sf ct : let h := group_header sid sf src cnt grp in
  aead_encrypt op (header_nonce h src) (encode h) (encode (group_proto exch) ++ payload) = Some ct → MIC_LEN ≤ zlen ct.
Proof. intros h Hct%aead_length. rewrite Hct, zlen_app. pose proof (zlen_nonneg (encode (group_proto exch))). pose proof (zlen_nonneg payload). lia. Qed.

Lemma sent_sealed sf : ∃ ct, let h := group_header sid sf src cnt grp in
  aead_encrypt op (header_nonce h src) (encode h) (encode (group_proto exch) ++ payload) = Some ct ∧
  seal_message op h (group_proto exch) payload src = Ok (encode h ++ ct).
Proof.
  destruct Hli. destruct (seal_message_ok op (group_header sid sf src cnt grp) (group_proto exch) payload src) as (ct & H1 & H2).
  - assert (zlen (encode (group_proto exch)) = 6); [|unfold MAX_CCM_PAYLOAD; lia].
    change (zlen (ProtocolHeader_encode (group_proto exch)) = 6). unfold ProtocolHeader_encode.
    cbn [group_proto vendor_id acked_counter opt_bytes]. by rewrite !zlen_app, !zlen_le_bytes.
  - by exists ct.
Qed.
End one.
End deliver.

(** C35. A group command reaches the group.  When a device holds the group's key,
    maps the group to it, has member endpoints and has not seen the counter, the
    datagram the controller builds is classified as exactly that command for
    exactly those endpoints, with the counter recorded; and so is the form whose
    header is obfuscated under the privacy key, which the sender can produce from
    the sealed datagram.  The key set need only be the first with its session
    id. *)
Theorem group_datagram_delivered `{Hkdf, !HkdfLaws} `{A : Aead, !AeadLaws A, !AeadStream A}
    deps guard pre post ks f src cnt exch grp cl cmd fields payload :
  listening deps guard pre post ks f src cnt exch grp cl cmd fields payload →
  let op := operational_key f ks in
  let sid := derive_group_session_id op in
  let result := (fst (guard_accept (ks_fabric ks) src cnt guard),
                 Ok (sent_batch deps ks src grp cl cmd fields)) in
  (∃ d, build_group_datagram {| gc_session_id := sid; gc_encryption_key := op |} src cnt exch grp cl cmd
          (struct_raw fields) = Ok d ∧
     classify_group_datagram d deps guard = result) ∧
  (∃ d d', seal_message op (group_header sid (Z.lor GROUP_SECURITY_FLAGS PRIVACY_FLAG) src cnt grp)
             (group_proto exch) payload src = Ok d ∧
     obfuscate_header d op = Ok (d', true) ∧ classify_group_datagram d' deps guard = result).
Proof.
  intros Hli op sid result. pose proof Hli as [? ? ? ? ? ? ? Hsrc Hcnt ? Hgrp ? ? ? Hpay ?]. split.
  - destruct (sent_sealed _ _ _ _ _ _ _ _ _ _ _ _ _ _ Hli GROUP_SECURITY_FLAGS) as (ct & Hct & Hseal).
    eexists. split; [unfold build_group_datagram; rewrite Hpay; exact Hseal|].
    eapply (classify_sent _ _ _ _ _ _ _ _ _ _ _ _ _ _ Hli);
      [apply decode_encode, wf_group_header; [apply session_id_typed|done..]|done|done|done|].
    by eapply (sealed_opens _ _ _ _ _ _ _ _ _ _ _ _ _ _ Hli GROUP_SECURITY_FLAGS).
  - destruct (sent_sealed _ _ _ _ _ _ _ _ _ _ _ _ _ _ Hli (Z.lor GROUP_SECURITY_FLAGS PRIVACY_FLAG)) as (ct & Hct & Hseal).
    destruct (obfuscate_restores sid (Z.lor GROUP_SECURITY_FLAGS PRIVACY_FLAG) src cnt grp ct op)
      as (src' & cnt' & g' & Hs' & Hc' & Hg' & Hob & Hde); [apply session_id_typed|done..|by eapply ct_len|].
    do 2 eexists. split; [exact Hseal|]. split; [exact Hob|].
    eapply (classify_sent _ _ _ _ _ _ _ _ _ _ _ _ _ _ Hli);
      [apply decode_encode, wf_group_header; [apply session_id_typed|done..]|done|done|done|].
    by eapply (sealed_opens _ _ _ _ _ _ _ _ _ _ _ _ _ _ Hli (Z.lor GROUP_SECURITY_FLAGS PRIVACY_FLAG)).
Qed.

(** ** A concrete HKDF

    Used only to instantiate the parameters, with [Crypto.Toy]. *)
Module ToyKdf.

#[export] Instance toy_hkdf : Hkdf := λ salt ikm info n,
  map (λ b, b mod 256) (take (Z.to_nat n) (ikm ++ replicate (Z.to_nat n) 0)).

#[export] Instance toy_hkdf_laws : HkdfLaws.
Proof.
  split; intros; unfold hkdf, toy_hkdf.
  - unfold zlen. rewrite length_map, length_take, length_app, length_replicate. lia.
  - apply List.Forall_map, Forall_forall. intros b _. by apply Z.mod_pos_bound.
Qed.

#[export] Instance toy_stream : AeadStream Toy.toy_aead.
Proof.
  split. intros k n pt ct ct'. cbn. unfold Toy.encrypt. intros [= <-] [= <-].
  by rewrite !zslice_0_app.
Qed.

End ToyKdf.

#[local] Existing Instances Toy.toy_aead Toy.toy_laws ToyKdf.toy_hkdf ToyKdf.toy_hkdf_laws ToyKdf.toy_stream.

Definition group_device : GroupRxDeps := {|
  gd_fabrics := [sample_fabric 1];
  gd_keys := fst (fst (observe
    [KInvoke CMD_KEY_SET_WRITE (ok_bytes (encode_key_set_write_fields_multi 42 sample_epochs)) (ctx_of 1);
     KWrite ATTR_GROUP_KEY_MAP (ok_bytes (encode_group_key_map_tlv [(5, 42)])) false (ctx_of 1)] empty_world));
  gd_membership := one_member
|}.

Definition group_key : GroupKeySet := with_epochs (replicate 16 7) sample_epochs 1 42.

(** The device provisioned above gets "on" for group 5, in clear and
    obfuscated. *)
Lemma group_datagram_delivered_witness :
  let op := operational_key (sample_fabric 1) group_key in
  ∃ d, build_group_datagram {| gc_session_id := derive_group_session_id op; gc_encryption_key := op |}
         9 77 3 5 6 1 None = Ok d ∧
    classify_group_datagram d group_device [] =
      ([((1, 9), {| rw_max := 77; rw_window := 0 |})],
       Ok {| gb_fabric := 1; gb_group := 5; gb_source := 9; gb_endpoints := [1];
             gb_invokes := [ {| gi_cluster := 6; gi_command := 1; gi_fields := [] |} ] |}).
Proof.
  destruct (group_datagram_delivered group_device [] [] [] group_key (sample_fabric 1) 9 77 3 5 6 1 None
              (ok_bytes (encode_group_invoke_request 6 1 None))) as [H _].
  { split; try done; try (by vm_compute); by constructor. }
  exact H.
Defined.

(** A truncated datagram, and one of no group session, move nothing. *)
Lemma group_datagram_authenticated_witness :
  match classify_group_datagram [6; 0; 0; 1; 5] group_device [] with
  | (g', Ok _) | (g', Err (NotInvoke | DropMalformed | Replay)) => False
  | (g', Err e) => g' = [] ∧ e = HeaderDecode
  | _ => False
  end.
Proof.
  pose proof (group_datagram_authenticated [6; 0; 0; 1; 5] group_device []) as H.
  destruct (classify_group_datagram [6; 0; 0; 1; 5] group_device []) as [g' r] eqn:Hr.
  assert (r = Err HeaderDecode) as -> by (vm_compute in Hr; congruence).
  split; [|done]. apply H; [|by vm_compute]. by repeat constructor.
Defined.
