(* ===== verification/CommCodec.v ===== *)
(** * Commissioning commands on the wire

    Models [crates/mat-controller/src/commissioning/]: [tlv_fields.rs] (the scan
    of a flat struct), [codec.rs] (the commissioner's requests and response
    decoders) and [device_codec.rs] (the device's request decoders and
    responses). *)

From Stdlib Require Import String.
From stdpp Require Import gmap.
From S2P Require Import Prelude Tlv TlvValue Im.

Open Scope string_scope.
Open Scope Z_scope.

(** ** [tlv_fields.rs] *)

(** The only variant of [CommissionError] the codecs return. *)
Inductive CommissionError := CommMalformed (step detail : string).

Inductive FieldValue := FUint (v : Z) | FBytes (b : bytes) | FUtf8 (s : bytes).

Abbreviation Fields := (gmap Z FieldValue).
Abbreviation CR := (M Reader CommissionError).

Definition comm_tlv (step : string) (e : TlvError) : CommissionError := CommMalformed step "tlv decode error".
Definition comm_next_el (step : string) : CR Element := next_el (comm_tlv step) (CommMalformed step "truncated").

Definition expect_struct (step : string) : CR () :=
  let! el := comm_next_el step in
  match el_value el with
  | VStructStart => ret ()
  | _ => throw (CommMalformed step "expected struct")
  end.

Definition comm_skip (step : string) : CR () :=
  adapt (λ e, CommMalformed step (match e with Truncated => "truncated" | _ => "tlv decode error" end)) skip_container.

Definition scan_step (step : string) (out : Fields) (el : Element) : CR Fields :=
  match el_tag el, el_value el with
  | Context t, VUint v => ret (<[t := FUint v]> out)
  | Context t, VBytes b => ret (<[t := FBytes b]> out)
  | Context t, VUtf8 s => ret (<[t := FUtf8 s]> out)
  | _, (VStructStart | VArrayStart | VListStart) => comm_skip step ;;! ret out
  | _, _ => ret out
  end.

Definition scan_struct_fields (fields : bytes) (step : string) : res CommissionError Fields :=
  snd ((expect_struct step ;;!
        walk (comm_tlv step) (CommMalformed step "truncated") (scan_step step) ∅) (Reader_new fields)).

(** The [take_*] remove the field from the map. *)
Abbreviation FM := (M Fields CommissionError).

Definition map_remove (tag : Z) : FM (option FieldValue) := λ m, (delete tag m, Ok (m !! tag)).

Definition take_uint (w tag : Z) (step range_detail : string) : FM (option Z) :=
  let! f := map_remove tag in
  match f with
  | Some (FUint v) => let! v := lift (ok_or (try_u w v) (CommMalformed step range_detail)) in ret (Some v)
  | _ => ret None
  end.

Definition required {A} (value : option A) (step detail : string) : FM A :=
  lift (ok_or value (CommMalformed step detail)).

Definition take_bytes (tag : Z) : FM (option bytes) :=
  let! f := map_remove tag in ret (match f with Some (FBytes b) => Some b | _ => None end).
Definition take_utf8 (tag : Z) : FM (option bytes) :=
  let! f := map_remove tag in ret (match f with Some (FUtf8 s) => Some s | _ => None end).
Definition take_u64 (tag : Z) : FM (option Z) :=
  let! f := map_remove tag in ret (match f with Some (FUint v) => Some v | _ => None end).

(** A decoder: the scan, then what it takes out of the map. *)
Definition with_fields {A} (fields : bytes) (step : string) (m : FM A) : res CommissionError A :=
  let? map := scan_struct_fields fields step in snd (m map).

Definition required_uint (w tag : Z) (step range_detail missing : string) : FM Z :=
  let! v := take_uint w tag step range_detail in required v step missing.
Definition required_bytes (tag : Z) (step missing : string) : FM bytes :=
  let! b := take_bytes tag in required b step missing.
(** A byte string converted to an array of [n] bytes. *)
Definition fixed (n : Z) (b : bytes) (step detail : string) : FM bytes :=
  if zlen b =? n then ret b else throw (CommMalformed step detail).

(** ** Requests ([codec.rs]) *)

(** A struct of the given fields. *)
Definition struct_of (k : M Writer Empty_set ()) : fin bytes := to_vec (start_struct Anonymous ;;! k).

Definition encode_arm_fail_safe (expiry_s breadcrumb : Z) : fin bytes :=
  struct_of (put_uint (Context 0) expiry_s ;;! put_uint (Context 1) breadcrumb ;;! end_container).

Definition encode_set_regulatory_config (config : Z) (country : bytes) (breadcrumb : Z) : fin bytes :=
  struct_of (put_uint (Context 0) config ;;! put_str (Context 1) country ;;!
             put_uint (Context 2) breadcrumb ;;! end_container).

Definition encode_attestation_request (nonce : bytes) : fin bytes :=
  struct_of (put_bytes (Context 0) nonce ;;! end_container).

Definition encode_cert_chain_request (cert_type : Z) : fin bytes :=
  struct_of (put_uint (Context 0) cert_type ;;! end_container).

Definition encode_csr_request (nonce : bytes) : fin bytes :=
  struct_of (put_bytes (Context 0) nonce ;;! end_container).

Definition encode_add_trusted_root (rcac_tlv : bytes) : fin bytes :=
  struct_of (put_bytes (Context 0) rcac_tlv ;;! end_container).

Definition encode_add_noc (noc_tlv ipk_epoch : bytes) (case_admin_subject admin_vendor_id : Z) : fin bytes :=
  struct_of (put_bytes (Context 0) noc_tlv ;;! put_bytes (Context 2) ipk_epoch ;;!
             put_uint (Context 3) case_admin_subject ;;! put_uint (Context 4) admin_vendor_id ;;! end_container).

Definition encode_update_fabric_label (label : bytes) : fin bytes :=
  struct_of (put_str (Context 0) label ;;! end_container).

Definition encode_remove_fabric (fabric_index : Z) : fin bytes :=
  struct_of (put_uint (Context 0) fabric_index ;;! end_container).

Definition encode_add_or_update_thread_network (dataset : bytes) (breadcrumb : Z) : fin bytes :=
  struct_of (put_bytes (Context 0) dataset ;;! put_uint (Context 1) breadcrumb ;;! end_container).

Definition encode_connect_network (network_id : bytes) (breadcrumb : Z) : fin bytes :=
  struct_of (put_bytes (Context 0) network_id ;;! put_uint (Context 1) breadcrumb ;;! end_container).

Definition encode_open_commissioning_window (timeout_s : Z) (verifier : bytes) (discriminator iterations : Z)
    (salt : bytes) : fin bytes :=
  struct_of (put_uint (Context 0) timeout_s ;;! put_bytes (Context 1) verifier ;;!
             put_uint (Context 2) discriminator ;;! put_uint (Context 3) iterations ;;!
             put_bytes (Context 4) salt ;;! end_container).

(** ** Response decoders ([codec.rs]) *)

Definition decode_commissioning_status_response (fields : bytes) : res CommissionError (Z * bytes) :=
  let step := "commissioning_status_response" in
  with_fields fields step (
    let! error_code := required_uint 8 0 step "errorCode out of range" "missing errorCode" in
    let! debug_text := take_utf8 1 in
    ret (error_code, default [] debug_text)).

Definition decode_attestation_response (fields : bytes) : res CommissionError (bytes * bytes) :=
  let step := "attestation_response" in
  with_fields fields step (
    let! elements := required_bytes 0 step "missing elements" in
    let! sig := required_bytes 1 step "missing signature" in
    let! signature := fixed 64 sig step "signature length" in
    ret (elements, signature)).

Definition decode_cert_chain_response (fields : bytes) : res CommissionError bytes :=
  let step := "cert_chain_response" in
  with_fields fields step (required_bytes 0 step "missing certificate").

Definition decode_csr_response (fields : bytes) : res CommissionError (bytes * bytes) :=
  let step := "csr_response" in
  with_fields fields step (
    let! elements := required_bytes 0 step "missing nocsr elements" in
    let! sig := required_bytes 1 step "missing signature" in
    let! signature := fixed 64 sig step "signature length" in
    ret (elements, signature)).

Definition parse_nocsr_elements (elements : bytes) : res CommissionError (bytes * bytes) :=
  let step := "nocsr_elements" in
  with_fields elements step (
    let! csr := required_bytes 1 step "missing csr" in
    let! nonce := required_bytes 2 step "missing csr nonce" in
    ret (csr, nonce)).

Definition decode_noc_response (fields : bytes) : res CommissionError (Z * option Z) :=
  let step := "noc_response" in
  with_fields fields step (
    let! status := required_uint 8 0 step "statusCode out of range" "missing statusCode" in
    let! fabric_index := take_uint 8 1 step "fabricIndex out of range" in
    ret (status, fabric_index)).

Definition network_status (fields : bytes) (step : string) : res CommissionError (Z * option bytes) :=
  with_fields fields step (
    let! status := required_uint 8 0 step "networkingStatus out of range" "missing networkingStatus" in
    let! debug_text := take_utf8 1 in
    ret (status, debug_text)).

Definition decode_network_config_response (fields : bytes) := network_status fields "network_config_response".
Definition decode_connect_network_response (fields : bytes) := network_status fields "connect_network_response".

(** The loop; each round skips at least the two octets of a header. *)
Fixpoint ext_pan_id_loop (fuel : nat) (dataset : bytes) (i : Z) : fin (option bytes) :=
  match fuel with
  | O => OutOfFuel
  | S fuel =>
      if zlen dataset <? i + 2 then Ok None
      else
        match dataset !! Z.to_nat i, dataset !! Z.to_nat (i + 1) with
        | Some t, Some l =>
            let e := i + 2 + l in
            if zlen dataset <? e then Ok None
            else if (t =? 2) && (l =? 8) then Ok (Some (zslice (i + 2) e dataset))
            else ext_pan_id_loop fuel dataset e
        | _, _ => Panic
        end
  end.

Definition thread_ext_pan_id (dataset : bytes) : fin (option bytes) :=
  ext_pan_id_loop (S (length dataset)) dataset 0.

(** ** The device's side ([device_codec.rs]) *)

Definition decode_nonce32 (fields : bytes) (tag : Z) (step : string) : res CommissionError bytes :=
  with_fields fields step (
    let! b := required_bytes tag step "missing nonce" in
    fixed 32 b step "nonce length").

Definition decode_arm_fail_safe (fields : bytes) : res CommissionError (Z * Z) :=
  let step := "arm_fail_safe_request" in
  with_fields fields step (
    let! expiry := required_uint 16 0 step "expiry out of range" "missing expiry" in
    let! breadcrumb := take_u64 1 in
    ret (expiry, default 0 breadcrumb)).

Definition decode_set_regulatory_config (fields : bytes) : res CommissionError (Z * bytes * Z) :=
  let step := "set_regulatory_config_request" in
  with_fields fields step (
    let! config := required_uint 8 0 step "config out of range" "missing config" in
    let! c := take_utf8 1 in
    let! country := required c step "missing country" in
    let! breadcrumb := take_u64 2 in
    ret (config, country, default 0 breadcrumb)).

Definition decode_attestation_request (fields : bytes) := decode_nonce32 fields 0 "attestation_request".

Definition decode_cert_chain_request (fields : bytes) : res CommissionError Z :=
  let step := "cert_chain_request" in
  with_fields fields step (required_uint 8 0 step "cert type out of range" "missing cert type").

Definition decode_csr_request (fields : bytes) := decode_nonce32 fields 0 "csr_request".

Definition decode_add_trusted_root (fields : bytes) : res CommissionError bytes :=
  let step := "add_trusted_root_request" in
  with_fields fields step (required_bytes 0 step "missing rcac").

Record AddNocFields := {
  an_noc : bytes;
  an_icac : option bytes;
  an_ipk : bytes;
  an_admin_subject : Z;
  an_admin_vendor : Z
}.

Definition decode_add_noc (fields : bytes) : res CommissionError AddNocFields :=
  let step := "add_noc_request" in
  with_fields fields step (
    let! noc := required_bytes 0 step "missing noc" in
    let! icac := take_bytes 1 in
    let! ipk_bytes := required_bytes 2 step "missing ipk" in
    let! ipk := fixed 16 ipk_bytes step "ipk length" in
    let! s := take_u64 3 in
    let! case_admin_subject := required s step "missing case admin subject" in
    let! admin_vendor_id := required_uint 16 4 step "admin vendor id out of range" "missing admin vendor id" in
    ret {| an_noc := noc; an_icac := icac; an_ipk := ipk; an_admin_subject := case_admin_subject;
           an_admin_vendor := admin_vendor_id |}).

Definition decode_update_fabric_label (fields : bytes) : res CommissionError bytes :=
  let step := "update_fabric_label_request" in
  with_fields fields step (
    let! l := take_utf8 0 in
    let! label := required l step "missing label" in
    if 32 <? zlen label then throw (CommMalformed step "label too long") else ret label).

Definition decode_remove_fabric (fields : bytes) : res CommissionError Z :=
  let step := "remove_fabric_request" in
  with_fields fields step (required_uint 8 0 step "fabric index out of range" "missing fabric index").

Record WindowFields := {
  wf_timeout : Z;
  wf_verifier : bytes;
  wf_discriminator : Z;
  wf_iterations : Z;
  wf_salt : bytes
}.

Definition decode_open_commissioning_window (fields : bytes) : res CommissionError WindowFields :=
  let step := "open_commissioning_window_request" in
  with_fields fields step (
    let! timeout_s := required_uint 16 0 step "timeout out of range" "missing timeout" in
    let! verifier := required_bytes 1 step "missing verifier" in
    let! discriminator := required_uint 16 2 step "discriminator out of range" "missing discriminator" in
    let! iterations := required_uint 32 3 step "iterations out of range" "missing iterations" in
    let! salt := required_bytes 4 step "missing salt" in
    ret {| wf_timeout := timeout_s; wf_verifier := verifier; wf_discriminator := discriminator;
           wf_iterations := iterations; wf_salt := salt |}).

Definition encode_commissioning_status_response (error_code : Z) (debug_text : bytes) : fin bytes :=
  struct_of (put_uint (Context 0) error_code ;;! put_str (Context 1) debug_text ;;! end_container).

Definition encode_attestation_response (elements signature : bytes) : fin bytes :=
  struct_of (put_bytes (Context 0) elements ;;! put_bytes (Context 1) signature ;;! end_container).

Definition encode_cert_chain_response (cert_der : bytes) : fin bytes :=
  struct_of (put_bytes (Context 0) cert_der ;;! end_container).

Definition encode_nocsr_elements (csr_der nonce : bytes) : fin bytes :=
  struct_of (put_bytes (Context 1) csr_der ;;! put_bytes (Context 2) nonce ;;! end_container).

Definition encode_csr_response (nocsr_elements signature : bytes) : fin bytes :=
  struct_of (put_bytes (Context 0) nocsr_elements ;;! put_bytes (Context 1) signature ;;! end_container).

Definition encode_noc_response (status : Z) (fabric_index : option Z) : fin bytes :=
  struct_of (put_uint (Context 0) status ;;!
             (match fabric_index with
              | Some idx => put_uint (Context 1) idx ;;! end_container
              | None => end_container
              end)).

(** ** Proofs *)

Close Scope string_scope.

(** What the scan collects from a field. *)
Definition field_of (m : Fields) (t : tree) : Fields :=
  match t with
  | Leaf (Context c) (VUint v) => <[c := FUint v]> m
  | Leaf (Context c) (VBytes b) => <[c := FBytes b]> m
  | Leaf (Context c) (VUtf8 s) => <[c := FUtf8 s]> m
  | _ => m
  end.

Lemma reads_scan_step step m t : wf_tree t → reads (scan_step step m (root_el t)) (inner t) (field_of m t).
Proof.
  intros Hwf. destruct t as [tag v|tag k ch].
  - destruct Hwf as (_ & _ & Hs). unfold scan_step; cbn. destruct tag, v; try done; apply reads_ret.
  - apply wf_children in Hwf as [_ Hch].
    assert (Hskip : reads (comm_skip step ;;! ret m) (inner (Node tag k ch)) m).
    { rewrite <- (app_nil_r (inner _)). eapply reads_bind; [by apply reads_skip|apply reads_ret]. }
    unfold scan_step; cbn [root_el el_tag el_value root_tag root_value field_of]. by destruct tag, k.
Qed.

Lemma reads_expect_struct step tag ch : wf_tree (Node tag KStruct ch) →
  reads (expect_struct step) (enc_elem tag VStructStart) ().
Proof.
  intros Hwf. eapply (reads_bind_end _ _ _ (root_el (Node tag KStruct ch))); [|apply reads_ret].
  by apply (reads_next_el _ _ (Node tag KStruct ch)).
Qed.

Lemma scan_at step tag ch : wf_tree (Node tag KStruct ch) → small (enc_tree (Node tag KStruct ch)) →
  scan_struct_fields (enc_tree (Node tag KStruct ch)) step = Ok (foldl field_of ∅ ch).
Proof.
  intros Hwf Hs. pose proof Hwf as [_ Hch]%wf_children. unfold scan_struct_fields. apply reads_all; [|done].
  rewrite enc_tree_split. eapply reads_bind; [by eapply reads_expect_struct|]. cbn [inner].
  apply walk_at; [done|]. generalize (∅ : Fields). clear Hwf Hs.
  induction Hch as [|t ch Ht Hch IH]; intros m; cbn; [constructor|].
  econstructor; [by apply reads_scan_step|apply IH].
Qed.

(** A flat struct of values. *)
Definition flat (ch : list (Z * Value)) : tree := Node Anonymous KStruct (map (λ '(c, v), Leaf (Context c) v) ch).

Definition field_ok (f : Z * Value) : Prop :=
  0 ≤ fst f < 256 ∧
  match snd f with
  | VUint v => in_u 64 v
  | VBool _ => True
  | VBytes b => bytes_ok b ∧ zlen b < 2 ^ 32
  | VUtf8 s => bytes_ok s ∧ zlen s < 2 ^ 32 ∧ from_utf8 s = true
  | _ => False
  end.

Lemma field_tree f : field_ok f →
  wf_tree (Leaf (Context (fst f)) (snd f)) ∧ zlen (enc_tree (Leaf (Context (fst f)) (snd f))) ≤ 2 ^ 33.
Proof.
  destruct f as [c v]. intros [Hc Hv]. cbn [fst snd] in *.
  assert (Hb : ∀ s, zlen s < 2 ^ 32 → zlen (body_of (VBytes s)) ≤ 8 + 2 ^ 32).
  { intros s Hs. cbn [body_of]. rewrite zlen_app, zlen_le_bytes.
    assert (Z.of_nat (class_width (len_class (zlen s))) ≤ 8); [|lia].
    unfold len_class, class_width. repeat case_match; done. }
  destruct v; try done.
  - split; [by apply (wf_uint _ _ 64)|]. pose proof (zlen_uint_leaf (Context c) v). lia.
  - destruct Hv as (H1 & H2 & H3). split; [split; [done|]; split; [|done]; split_and!; [done|lia|done]|].
    cbn [enc_tree]. unfold enc_elem. rewrite zlen_cons, zlen_app. pose proof (zlen_tag (Context c)).
    specialize (Hb s H2). cbn [body_of] in *. lia.
  - destruct Hv as (H1 & H2). split; [split; [done|]; split; [|done]; split; [done|lia]|].
    cbn [enc_tree]. unfold enc_elem. rewrite zlen_cons, zlen_app. pose proof (zlen_tag (Context c)).
    specialize (Hb b H2). cbn [body_of] in *. lia.
Qed.

Lemma flat_fits ch : Forall field_ok ch → zlen ch ≤ 16 → wf_tree (flat ch) ∧ zlen (enc_tree (flat ch)) < 2 ^ 40.
Proof.
  intros Hch Hn. split.
  - apply wf_anon_node, List.Forall_map. eapply Forall_impl; [exact Hch|]. intros [c v] Hf. by apply (field_tree (c, v)).
  - unfold flat. eapply Z.le_lt_trans; [apply (zlen_node _ _ _ (2 ^ 33))|].
    + apply List.Forall_map. eapply Forall_impl; [exact Hch|]. intros [c v] Hf. by apply (field_tree (c, v)).
    + unfold zlen in *. rewrite length_map. lia.
Qed.

Lemma flat_ok ch : Forall field_ok ch → zlen ch ≤ 16 → wf_tree (flat ch) ∧ small (enc_tree (flat ch)).
Proof. intros Hch Hn. destruct (flat_fits ch Hch Hn) as [Hwf Hs]. split; [done|]. unfold small. lia. Qed.

(** Command fields as they are written: one short struct. *)
Definition written (b : bytes) : Prop := ∃ ch, b = enc_tree (flat ch) ∧ Forall field_ok ch ∧ zlen ch ≤ 16.

(** [e] encodes what [d] decodes to [x]. *)
Definition trips {A} (e : fin bytes) (d : bytes → res CommissionError A) (x : A) : Prop :=
  ∃ b, e = Ok b ∧ written b ∧ d b = Ok x.

Lemma trips_flat {A} k ch step (m : FM A) x :
  emits k (map (λ '(c, v), Leaf (Context c) v) ch) → Forall field_ok ch → zlen ch ≤ 16 →
  snd (m (foldl field_of ∅ (map (λ '(c, v), Leaf (Context c) v) ch))) = Ok x →
  trips (struct_of k) (λ b, with_fields b step m) x.
Proof.
  intros Hk Hch Hn Hm. destruct (flat_ok ch Hch Hn) as [Hwf Hs]. exists (enc_tree (flat ch)).
  split; [by apply to_vec_writes, writes_struct|]. split; [by exists ch|].
  unfold with_fields, flat. by rewrite scan_at.
Qed.

(** Running the [take_*] on a known map. *)
Lemma required_uint_at w tag step rd ms (m : Fields) v : m !! tag = Some (FUint v) → in_u w v →
  required_uint w tag step rd ms m = (delete tag m, Ok v).
Proof.
  intros Hm Hv. unfold required_uint, take_uint, map_remove, bind. rewrite Hm.
  by rewrite (proj2 (try_u_Some w v v) (conj eq_refl Hv)).
Qed.
Lemma required_bytes_at tag step ms (m : Fields) b : m !! tag = Some (FBytes b) →
  required_bytes tag step ms m = (delete tag m, Ok b).
Proof. intros Hm. unfold required_bytes, take_bytes, map_remove, bind. by rewrite Hm. Qed.
Lemma take_uint_at w tag step rd (m : Fields) v : m !! tag = Some (FUint v) → in_u w v →
  take_uint w tag step rd m = (delete tag m, Ok (Some v)).
Proof.
  intros Hm Hv. unfold take_uint, map_remove, bind. rewrite Hm.
  by rewrite (proj2 (try_u_Some w v v) (conj eq_refl Hv)).
Qed.
Lemma fixed_at n b step detail (m : Fields) : zlen b = n → fixed n b step detail m = (m, Ok b).
Proof. intros Hb. unfold fixed. by rewrite (proj2 (Z.eqb_eq _ _) Hb). Qed.

Ltac field_map := repeat first [rewrite lookup_delete_ne by done | rewrite lookup_insert_eq | rewrite lookup_insert_ne by done].
Ltac take_step :=
  cbn [map foldl field_of snd];
  first
    [ erewrite bind_ok by (eapply required_uint_at; [field_map; reflexivity|done])
    | erewrite bind_ok by (eapply required_bytes_at; field_map; reflexivity)
    | erewrite bind_ok by (eapply take_uint_at; [field_map; reflexivity|done])
    | erewrite bind_ok by (apply fixed_at; done)
    | erewrite bind_ok by (unfold take_utf8, take_u64, take_bytes, map_remove, bind, ret; field_map; reflexivity)
    | rewrite (required_uint_at _ _ _ _ _ _ _ ltac:(field_map; reflexivity)) by done
    | rewrite (required_bytes_at _ _ _ _ _ ltac:(field_map; reflexivity)) by done
    | rewrite fixed_at by done ].
Definition blob (b : bytes) : Prop := bytes_ok b ∧ zlen b < 2 ^ 32.
Definition text (s : bytes) : Prop := bytes_ok s ∧ zlen s < 2 ^ 32 ∧ from_utf8 s = true.

Lemma field_uint w c v : 0 ≤ c < 256 → 0 ≤ w ≤ 64 → in_u w v → field_ok (c, VUint v).
Proof. intros Hc Hw Hv. split; [done|]. by apply (in_u_mono w). Qed.

Ltac field_ok_tac :=
  first [ by split | apply (field_uint 8); by tag_lit | apply (field_uint 8); [done|done|done]
        | apply (field_uint 16); [done|done|done] | apply (field_uint 32); [done|done|done]
        | apply (field_uint 64); [done|done|done] ].
Ltac trip ch :=
  refine (trips_flat _ ch _ _ _ _ _ _ _);
  [cbn [map]; eauto 12 with emits|repeat (apply Forall_cons; split; [field_ok_tac|]); constructor|done|];
  repeat take_step; try done.

(** Each command and each reply, over the wire. *)
Section codecs.
Context (b : Z) (nonce sig : bytes) (Hb : in_u 64 b) (Hn : blob nonce) (Hnl : zlen nonce = 32).

Lemma arm_trips e : in_u 16 e → trips (encode_arm_fail_safe e b) decode_arm_fail_safe (e, b).
Proof. intros He. trip [(0, VUint e); (1, VUint b)]. Qed.
Lemma regulatory_trips cfg country : in_u 8 cfg → text country →
  trips (encode_set_regulatory_config cfg country b) decode_set_regulatory_config (cfg, country, b).
Proof. intros Hc Ht. trip [(0, VUint cfg); (1, VUtf8 country); (2, VUint b)]. Qed.
Lemma attestation_trips : trips (encode_attestation_request nonce) decode_attestation_request nonce.
Proof. trip [(0, VBytes nonce)]. Qed.
Lemma chain_trips ct : in_u 8 ct → trips (encode_cert_chain_request ct) decode_cert_chain_request ct.
Proof. intros Hc. trip [(0, VUint ct)]. Qed.
Lemma csr_trips : trips (encode_csr_request nonce) decode_csr_request nonce.
Proof. trip [(0, VBytes nonce)]. Qed.
Lemma root_trips cert : blob cert → trips (encode_add_trusted_root cert) decode_add_trusted_root cert.
Proof. intros Hc. trip [(0, VBytes cert)]. Qed.
Lemma noc_trips noc ipk subj vid : blob noc → blob ipk → zlen ipk = 16 → in_u 64 subj → in_u 16 vid →
  trips (encode_add_noc noc ipk subj vid) decode_add_noc
    {| an_noc := noc; an_icac := None; an_ipk := ipk; an_admin_subject := subj; an_admin_vendor := vid |}.
Proof. intros. trip [(0, VBytes noc); (2, VBytes ipk); (3, VUint subj); (4, VUint vid)]. Qed.
Lemma label_trips label : text label → zlen label ≤ 32 →
  trips (encode_update_fabric_label label) decode_update_fabric_label label.
Proof. intros Ht Hl. trip [(0, VUtf8 label)]. by rewrite (proj2 (Z.ltb_ge _ _)). Qed.
Lemma remove_trips fi : in_u 8 fi → trips (encode_remove_fabric fi) decode_remove_fabric fi.
Proof. intros Hf. trip [(0, VUint fi)]. Qed.
Lemma window_trips timeout verifier disc it salt : in_u 16 timeout → blob verifier → in_u 16 disc → in_u 32 it → blob salt →
  trips (encode_open_commissioning_window timeout verifier disc it salt) decode_open_commissioning_window
    {| wf_timeout := timeout; wf_verifier := verifier; wf_discriminator := disc; wf_iterations := it; wf_salt := salt |}.
Proof. intros. trip [(0, VUint timeout); (1, VBytes verifier); (2, VUint disc); (3, VUint it); (4, VBytes salt)]. Qed.

Lemma status_trips ec label : in_u 8 ec → text label →
  trips (encode_commissioning_status_response ec label) decode_commissioning_status_response (ec, label).
Proof. intros He Ht. trip [(0, VUint ec); (1, VUtf8 label)]. Qed.
Lemma cert_reply_trips cert : blob cert → trips (encode_cert_chain_response cert) decode_cert_chain_response cert.
Proof. intros Hc. trip [(0, VBytes cert)]. Qed.
Lemma nocsr_trips csr : blob csr → trips (encode_nocsr_elements csr nonce) parse_nocsr_elements (csr, nonce).
Proof. intros Hc. trip [(1, VBytes csr); (2, VBytes nonce)]. Qed.
Lemma noc_reply_trips st net : in_u 8 st → from_option (in_u 8) True net →
  trips (encode_noc_response st net) decode_noc_response (st, net).
Proof. intros Hs Hnet. destruct net as [n|]; [trip [(0, VUint st); (1, VUint n)]|trip [(0, VUint st)] ]. Qed.

Context (Hs : blob sig) (Hsl : zlen sig = 64).
Lemma attestation_reply_trips elements : blob elements →
  trips (encode_attestation_response elements sig) decode_attestation_response (elements, sig).
Proof. intros He. trip [(0, VBytes elements); (1, VBytes sig)]. Qed.
Lemma csr_reply_trips elements : blob elements → trips (encode_csr_response elements sig) decode_csr_response (elements, sig).
Proof. intros He. trip [(0, VBytes elements); (1, VBytes sig)]. Qed.
End codecs.

(** Every command of a commissioning survives the wire: what the commissioner
    encodes is what the device's decoder returns, and what the device answers is
    what the commissioner's decoder returns. *)
Theorem commissioning_commands_round_trip e b cfg country nonce ct cert noc ipk subj vid label fi
    timeout verifier disc it salt ec elements sig csr st net :
  in_u 16 e → in_u 64 b → in_u 8 cfg → text country → blob nonce → zlen nonce = 32 → in_u 8 ct → blob cert →
  blob noc → blob ipk → zlen ipk = 16 → in_u 64 subj → in_u 16 vid → text label → zlen label ≤ 32 → in_u 8 fi →
  in_u 16 timeout → blob verifier → in_u 16 disc → in_u 32 it → blob salt → in_u 8 ec → blob elements → blob sig →
  zlen sig = 64 → blob csr → in_u 8 st → from_option (in_u 8) True net →
  (trips (encode_arm_fail_safe e b) decode_arm_fail_safe (e, b) ∧
   trips (encode_set_regulatory_config cfg country b) decode_set_regulatory_config (cfg, country, b) ∧
   trips (encode_attestation_request nonce) decode_attestation_request nonce ∧
   trips (encode_cert_chain_request ct) decode_cert_chain_request ct ∧
   trips (encode_csr_request nonce) decode_csr_request nonce ∧
   trips (encode_add_trusted_root cert) decode_add_trusted_root cert ∧
   trips (encode_add_noc noc ipk subj vid) decode_add_noc
     {| an_noc := noc; an_icac := None; an_ipk := ipk; an_admin_subject := subj; an_admin_vendor := vid |} ∧
   trips (encode_update_fabric_label label) decode_update_fabric_label label ∧
   trips (encode_remove_fabric fi) decode_remove_fabric fi ∧
   trips (encode_open_commissioning_window timeout verifier disc it salt) decode_open_commissioning_window
     {| wf_timeout := timeout; wf_verifier := verifier; wf_discriminator := disc; wf_iterations := it;
        wf_salt := salt |}) ∧
  (trips (encode_commissioning_status_response ec label) decode_commissioning_status_response (ec, label) ∧
   trips (encode_attestation_response elements sig) decode_attestation_response (elements, sig) ∧
   trips (encode_cert_chain_response cert) decode_cert_chain_response cert ∧
   trips (encode_nocsr_elements csr nonce) parse_nocsr_elements (csr, nonce) ∧
   trips (encode_csr_response elements sig) decode_csr_response (elements, sig) ∧
   trips (encode_noc_response st net) decode_noc_response (st, net)).
Proof.
  intros. split.
  - split; [by apply arm_trips|]. split; [by apply regulatory_trips|]. split; [by apply attestation_trips|].
    split; [by apply chain_trips|]. split; [by apply csr_trips|]. split; [by apply root_trips|]. split; [by apply noc_trips|].
    split; [by apply label_trips|]. split; [by apply remove_trips|]. by apply window_trips.
  - split; [by apply status_trips|]. split; [by apply attestation_reply_trips|]. split; [by apply cert_reply_trips|].
    split; [by apply nocsr_trips|]. split; [by apply csr_reply_trips|]. by apply noc_reply_trips.
Qed.

(** The commissioner of the tests: node 0x1234 of fabric 1. *)
Lemma commissioning_commands_round_trip_witness :
  trips (encode_arm_fail_safe 60 1) decode_arm_fail_safe (60, 1) ∧
  trips (encode_add_noc [1; 2] (replicate 16 7) 0x1234 0xFFF1) decode_add_noc
    {| an_noc := [1; 2]; an_icac := None; an_ipk := replicate 16 7; an_admin_subject := 0x1234;
       an_admin_vendor := 0xFFF1 |}.
Proof.
  assert (Hb : ∀ l, forallb (λ b, (0 <=? b) && (b <? 256)) l = true → zlen l < 2 ^ 32 → blob l).
  { intros l Hl Hn. split; [|done]. apply Forall_forall. intros x Hx. rewrite forallb_forall in Hl.
    apply list_elem_of_In, Hl, andb_true_iff in Hx as [ ?%Z.leb_le ?%Z.ltb_lt]. done. }
  pose proof (commissioning_commands_round_trip 60 1 0 [] (replicate 32 5) 1 [] [1; 2] (replicate 16 7) 0x1234
    0xFFF1 [] 1 180 [] 0 1000 [] 0 [] (replicate 64 0) [] 0 None) as H.
  destruct H as [ (H1 & _ & _ & _ & _ & _ & H2 & _) _]; [..|split; [exact H1|exact H2] ];
    try (by apply Hb); try (by split_and!); try done.
Defined.

(** ** Arbitrary bytes *)

Definition value_ok (f : FieldValue) : Prop :=
  match f with
  | FUint v => in_u 64 v
  | FBytes b => bytes_ok b ∧ small b
  | FUtf8 s => bytes_ok s ∧ small s ∧ from_utf8 s = true
  end.
Abbreviation fields_ok := (map_Forall (λ (_ : Z) f, value_ok f)).

Lemma safe_scan_step step m el : fields_ok m → wf_element el → safe (scan_step step m el) fields_ok.
Proof.
  intros Hm [_ Hv].
  assert (Hskip : safe (comm_skip step ;;! ret m) fields_ok).
  { eapply safe_bind; [apply safe_skip|]. intros _ _. by apply safe_ret. }
  unfold scan_step. destruct (el_value el); cbn in Hv; repeat case_match; try exact Hskip;
    apply safe_ret; try done; apply map_Forall_insert_2; try done; by split_and?.
Qed.

Lemma scan_safe fields step : bytes_ok fields → small fields →
  match scan_struct_fields fields step with Ok m => fields_ok m | Err _ => True | _ => False end.
Proof.
  intros Hb Hs. apply safe_reader; [|done|done].
  eapply (safe_bind _ _ (λ _, True)).
  - eapply safe_bind; [apply safe_next_el|]. intros el _. case_match; try apply safe_throw. by apply safe_ret.
  - intros _ _. apply walk_safe; [|apply map_Forall_empty]. intros m el Hm Hel _. by apply safe_safe1, safe_scan_step.
Qed.

(** [m] takes fields out of a typed map and returns a typed value. *)
Definition takes {A} (m : FM A) (P : A → Prop) : Prop :=
  ∀ f, fields_ok f → match m f with (f', Ok a) => fields_ok f' ∧ P a | (_, Err _) => True | _ => False end.

Lemma takes_ret {A} (a : A) (P : A → Prop) : P a → takes (ret a) P.
Proof. by intros Ha f Hf. Qed.
Lemma takes_throw {A} e (P : A → Prop) : takes (throw e) P.
Proof. done. Qed.
Lemma takes_bind {A B} (m : FM A) (k : A → FM B) P Q :
  takes m P → (∀ a, P a → takes (k a) Q) → takes (bind m k) Q.
Proof.
  intros Hm Hk f Hf. specialize (Hm f Hf). unfold bind. destruct (m f) as [f' [a|e| |] ]; try done.
  destruct Hm as [Hf' Ha]. by apply Hk.
Qed.
Lemma takes_remove tag : takes (map_remove tag) (from_option value_ok True).
Proof.
  intros f Hf. cbn. split; [by apply map_Forall_delete|]. destruct (f !! tag) eqn:Hl; [|done]. by apply (Hf tag).
Qed.
Lemma takes_required {A} (o : option A) step detail (P : A → Prop) :
  from_option P True o → takes (required o step detail) P.
Proof. destruct o; intros Ho f Hf; by cbn. Qed.
Lemma takes_uint w tag step rd : takes (take_uint w tag step rd) (from_option (in_u w) True).
Proof.
  eapply takes_bind; [apply takes_remove|]. intros [ [v| |] |] Hv; try (by apply takes_ret).
  destruct (try_u w v) as [u|] eqn:Hu; intros f Hf; cbn; [|done]. by apply try_u_Some in Hu as [-> ?].
Qed.
Lemma takes_bytes tag : takes (take_bytes tag) (from_option (λ b, bytes_ok b ∧ small b) True).
Proof. eapply takes_bind; [apply takes_remove|]. intros [ [| |] |] Hv; by apply takes_ret. Qed.
Lemma takes_utf8 tag : takes (take_utf8 tag) (from_option (λ s, bytes_ok s ∧ small s ∧ from_utf8 s = true) True).
Proof. eapply takes_bind; [apply takes_remove|]. intros [ [| |] |] Hv; by apply takes_ret. Qed.
Lemma takes_u64 tag : takes (take_u64 tag) (from_option (in_u 64) True).
Proof. eapply takes_bind; [apply takes_remove|]. intros [ [| |] |] Hv; by apply takes_ret. Qed.
Lemma takes_required_uint w tag step rd ms : takes (required_uint w tag step rd ms) (in_u w).
Proof. eapply takes_bind; [apply takes_uint|]. intros o Ho. by apply takes_required. Qed.
Lemma takes_required_bytes tag step ms : takes (required_bytes tag step ms) (λ b, bytes_ok b ∧ small b).
Proof. eapply takes_bind; [apply takes_bytes|]. intros o Ho. by apply takes_required. Qed.
Lemma takes_fixed n b step detail : bytes_ok b → takes (fixed n b step detail) (λ b', bytes_ok b' ∧ zlen b' = n).
Proof. intros Hb. unfold fixed. destruct (Z.eqb_spec (zlen b) n); [by apply takes_ret|apply takes_throw]. Qed.

Create HintDb takes discriminated.
#[export] Hint Resolve takes_ret takes_throw takes_uint takes_bytes takes_utf8 takes_u64 takes_required_uint
  takes_required_bytes : takes.

Definition outcome {A} (r : res CommissionError A) (P : A → Prop) : Prop :=
  match r with Ok x => P x | Err _ => True | _ => False end.

Lemma with_fields_safe {A} fields step (m : FM A) P : bytes_ok fields → small fields → takes m P →
  outcome (with_fields fields step m) P.
Proof.
  intros Hb Hs Hm. unfold with_fields, outcome. pose proof (scan_safe fields step Hb Hs) as Hsc.
  destruct (scan_struct_fields fields step) as [map|e| |]; cbn; try done.
  specialize (Hm map Hsc). destruct (m map) as [f' [a|e| |] ]; try done. by destruct Hm.
Qed.

(** The device's request decoders. *)
Definition add_noc_ok (a : AddNocFields) : Prop :=
  (bytes_ok (an_noc a) ∧ small (an_noc a)) ∧ from_option (λ b, bytes_ok b ∧ small b) True (an_icac a) ∧
  (bytes_ok (an_ipk a) ∧ zlen (an_ipk a) = 16) ∧ in_u 64 (an_admin_subject a) ∧ in_u 16 (an_admin_vendor a).
Definition window_ok (w : WindowFields) : Prop :=
  in_u 16 (wf_timeout w) ∧ (bytes_ok (wf_verifier w) ∧ small (wf_verifier w)) ∧ in_u 16 (wf_discriminator w) ∧
  in_u 32 (wf_iterations w) ∧ bytes_ok (wf_salt w) ∧ small (wf_salt w).

Section device.
Context (fields : bytes) (Hb : bytes_ok fields) (Hs : small fields).

Ltac next_field x H := eapply takes_bind; [solve [eauto with takes]|intros x H].

Lemma decode_nonce32_safe tag step : outcome (decode_nonce32 fields tag step) (λ n, bytes_ok n ∧ zlen n = 32).
Proof. apply with_fields_safe; [done|done|]. next_field x Hx. apply takes_fixed, Hx. Qed.

Lemma decode_arm_fail_safe_safe : outcome (decode_arm_fail_safe fields) (λ r, in_u 16 (fst r) ∧ in_u 64 (snd r)).
Proof.
  apply with_fields_safe; [done|done|]. next_field x Hx. next_field o Ho. apply takes_ret. split; [done|]. by destruct o.
Qed.

Lemma decode_set_regulatory_config_safe : outcome (decode_set_regulatory_config fields) (λ _, True).
Proof.
  apply with_fields_safe; [done|done|]. next_field x Hx. next_field o Ho.
  eapply takes_bind; [by eapply takes_required|]. intros c Hc. next_field b Hb'. by apply takes_ret.
Qed.

Lemma decode_cert_chain_request_safe : outcome (decode_cert_chain_request fields) (in_u 8).
Proof. apply with_fields_safe; [done|done|]. apply takes_required_uint. Qed.

Lemma decode_add_trusted_root_safe : outcome (decode_add_trusted_root fields) (λ b, bytes_ok b ∧ small b).
Proof. apply with_fields_safe; [done|done|]. apply takes_required_bytes. Qed.

Lemma decode_add_noc_safe : outcome (decode_add_noc fields) add_noc_ok.
Proof.
  apply with_fields_safe; [done|done|]. next_field noc Hnoc. next_field icac Hicac. next_field ib Hib.
  eapply takes_bind; [apply takes_fixed, Hib|]. intros ipk Hipk. next_field so Hso.
  eapply takes_bind; [by eapply takes_required|]. intros s Hsu. next_field vid Hvid.
  apply takes_ret. split; [exact Hnoc|]. split; [exact Hicac|]. split; [exact Hipk|]. split; [exact Hsu|exact Hvid].
Qed.

Lemma decode_update_fabric_label_safe :
  outcome (decode_update_fabric_label fields) (λ l, bytes_ok l ∧ zlen l ≤ 32 ∧ from_utf8 l = true).
Proof.
  apply with_fields_safe; [done|done|]. next_field o Ho. eapply takes_bind; [by eapply takes_required|].
  intros l (H1 & _ & H2). destruct (Z.ltb_spec 32 (zlen l)); [apply takes_throw|apply takes_ret].
  split; [exact H1|by split].
Qed.

Lemma decode_remove_fabric_safe : outcome (decode_remove_fabric fields) (in_u 8).
Proof. apply with_fields_safe; [done|done|]. apply takes_required_uint. Qed.

Lemma decode_open_commissioning_window_safe : outcome (decode_open_commissioning_window fields) window_ok.
Proof.
  apply with_fields_safe; [done|done|]. next_field t Ht. next_field v Hv. next_field d Hd. next_field i Hi.
  next_field s Hsa. apply takes_ret. split; [exact Ht|]. split; [exact Hv|]. split; [exact Hd|]. split; [exact Hi|exact Hsa].
Qed.
End device.

(** ** The Thread dataset *)

(** A dataset is a sequence of (type, value) fields. *)
Definition enc_dataset (l : list (Z * bytes)) : bytes := concat (map (λ '(t, v), t :: zlen v :: v) l).

Fixpoint first_pan_id (l : list (Z * bytes)) : option bytes :=
  match l with
  | [] => None
  | (t, v) :: l => if (t =? 2) && (zlen v =? 8) then Some v else first_pan_id l
  end.

Lemma ext_pan_id_loop_at fuel pre l : (length l < fuel)%nat →
  ext_pan_id_loop fuel (pre ++ enc_dataset l) (zlen pre) = Ok (first_pan_id l).
Proof.
  revert pre l. induction fuel as [|fuel IH]; intros pre l Hf; [lia|]. cbn [ext_pan_id_loop].
  destruct l as [|[t v] l]; cbn [enc_dataset map concat first_pan_id].
  { rewrite app_nil_r. by rewrite (proj2 (Z.ltb_lt _ _)) by lia. }
  change (concat (map _ l)) with (enc_dataset l). rewrite <- !app_comm_cons, zlen_app, !zlen_cons, zlen_app.
  pose proof (zlen_nonneg v). pose proof (zlen_nonneg (enc_dataset l)). pose proof (zlen_nonneg pre).
  rewrite (proj2 (Z.ltb_ge _ _)) by lia.
  replace (Z.to_nat (zlen pre)) with (length pre) by (unfold zlen; lia).
  replace (Z.to_nat (zlen pre + 1)) with (S (length pre)) by (unfold zlen; lia).
  rewrite list_lookup_middle by done.
  replace (pre ++ t :: zlen v :: v ++ enc_dataset l) with ((pre ++ [t]) ++ zlen v :: v ++ enc_dataset l)
    by by rewrite <- app_assoc.
  rewrite (list_lookup_middle (pre ++ [t])) by (rewrite length_app; cbn; lia).
  rewrite (proj2 (Z.ltb_ge _ _)) by lia. case_match.
  - do 2 f_equal. replace ((pre ++ [t]) ++ zlen v :: v ++ enc_dataset l) with ((pre ++ [t; zlen v]) ++ v ++ enc_dataset l)
      by by rewrite <- !app_assoc.
    replace (zlen pre + 2) with (zlen (pre ++ [t; zlen v])) by (rewrite zlen_app; done). apply zslice_app_mid.
  - replace ((pre ++ [t]) ++ zlen v :: v ++ enc_dataset l) with ((pre ++ [t; zlen v] ++ v) ++ enc_dataset l)
      by by rewrite <- !app_assoc.
    replace (zlen pre + 2 + zlen v) with (zlen (pre ++ [t; zlen v] ++ v)) by (rewrite !zlen_app; change (zlen [t; zlen v]) with 2; lia).
    apply IH. cbn in Hf. lia.
Qed.

Lemma length_enc_dataset l : (length l ≤ length (enc_dataset l))%nat.
Proof.
  induction l as [|[t v] l IH]; [done|]. unfold enc_dataset in *. cbn [map concat]. rewrite <- !app_comm_cons.
  cbn [length]. rewrite length_app. lia.
Qed.

(** On a well-formed dataset: the first extended PAN id of eight bytes. *)
Lemma thread_ext_pan_id_at l : thread_ext_pan_id (enc_dataset l) = Ok (first_pan_id l).
Proof. apply (ext_pan_id_loop_at _ []). pose proof (length_enc_dataset l). lia. Qed.

(** On any bytes it ends without reading past the end. *)
Lemma thread_ext_pan_id_total d : bytes_ok d →
  match thread_ext_pan_id d with Ok (Some v) => zlen v = 8 | Ok None => True | _ => False end.
Proof.
  intros Hd. unfold thread_ext_pan_id. assert (H : ∀ fuel i, 0 ≤ i ≤ zlen d → zlen d < i + Z.of_nat fuel →
    match ext_pan_id_loop fuel d i with Ok (Some v) => zlen v = 8 | Ok None => True | _ => False end).
  2:{ apply H; [split; [done|apply zlen_nonneg]|unfold zlen; lia]. }
  induction fuel as [|fuel IH]; intros i Hi Hf; cbn [ext_pan_id_loop]; [lia|].
  destruct (Z.ltb_spec (zlen d) (i + 2)); [done|].
  destruct (d !! Z.to_nat i) as [t|] eqn:Ht; [|apply lookup_ge_None in Ht; unfold zlen in *; lia].
  destruct (d !! Z.to_nat (i + 1)) as [l|] eqn:Hl; [|apply lookup_ge_None in Hl; unfold zlen in *; lia].
  pose proof (Forall_lookup_1 _ _ _ _ Hd Hl) as [Hl0 _].
  destruct (Z.ltb_spec (zlen d) (i + 2 + l)); [done|]. destruct (_ && _) eqn:Hc; [|by apply IH; lia].
  apply andb_true_iff in Hc as [_ ->%Z.eqb_eq]. rewrite zlen_zslice; lia.
Qed.
