(* ===== verification/Certs.v ===== *)
(** * Operational certificates

    Models [crates/mat-controller/src/asn1.rs] (the DER writer) with its OIDs,
    [crates/mat-controller/src/cert.rs] (Matter certificates: the TLV form, the
    DER form their signatures are over, the chain check, issuing) and the two
    ECDSA wrappers of [crypto.rs].  ECDSA and SHA-1 are third-party code:
    parameters with laws. *)

From Stdlib Require Import String.
From S2P Require Import Prelude Tlv TlvValue Im Handler Crypto Fabrics.

Open Scope string_scope.
Open Scope list_scope.
Open Scope Z_scope.

(** ** The primitives the code is linked with *)

(** The [p256] crate: which byte strings are public keys and signatures,
    verification, signing ([None]: not a private key) and the public key. *)
Class Ecdsa := {
  vk_from_sec1 : bytes → bool;
  sig_from_slice : bytes → bool;
  vk_verify : bytes → bytes → bytes → bool;
  sk_sign : bytes → bytes → option bytes;
  sk_public : bytes → bytes
}.

Class EcdsaLaws (E : Ecdsa) : Prop := {
  sk_public_key sk : zlen (sk_public sk) = 65 ∧ bytes_ok (sk_public sk);
  sk_sign_verifies sk m s : sk_sign sk m = Some s →
    zlen s = 64 ∧ bytes_ok s ∧ vk_from_sec1 (sk_public sk) = true ∧ sig_from_slice s = true ∧
    vk_verify (sk_public sk) m s = true;
  sk_sign_all sk m m' : is_Some (sk_sign sk m) → is_Some (sk_sign sk m')
}.

Class Sha1 := sha1 : bytes → bytes.
Class Sha1Laws `{Sha1} : Prop := { sha1_length b : zlen (sha1 b) = 20 ∧ bytes_ok (sha1 b) }.

(** ** [crypto.rs] *)

Section crypto.
Context `{Ec : Ecdsa}.

Definition sign_ecdsa_p256 (private_key message : bytes) : res CryptoError bytes :=
  ok_or (sk_sign private_key message) BadKey.

Definition verify_ecdsa_p256 (public_key message signature : bytes) : res CryptoError () :=
  if negb (vk_from_sec1 public_key) then Err BadKey
  else if negb (sig_from_slice signature) then Err BadSignature
  else if vk_verify public_key message signature then Ok () else Err BadSignature.
End crypto.

(** ** [asn1.rs] *)

Definition der_tlv {E} (tag : Z) (content : bytes) : res E bytes :=
  let len := zlen content in
  if len <? 128 then Ok (tag :: len :: content)
  else if len <? 256 then Ok (tag :: 0x81 :: len :: content)
  else if 65535 <? len then Panic
  else Ok (tag :: 0x82 :: be_bytes 2 len ++ content).

Section der.
Context {E : Type}.
Abbreviation DER := (res E bytes).

Definition der_seq (children : list bytes) : DER := der_tlv 0x30 (concat children).
Definition set_of (children : list bytes) : DER := der_tlv 0x31 (concat children).
Definition der_integer (content : bytes) : DER := der_tlv 0x02 content.
Definition der_oid (content : bytes) : DER := der_tlv 0x06 content.
Definition der_boolean (v : bool) : DER := der_tlv 0x01 [if v then 0xFF else 0x00].
Definition bit_string (unused_bits : Z) (b : bytes) : DER := der_tlv 0x03 (unused_bits :: b).
Definition octet_string (b : bytes) : DER := der_tlv 0x04 b.
Definition utf8_string (s : bytes) : DER := der_tlv 0x0C s.
Definition printable_string (s : bytes) : DER := der_tlv 0x13 s.
Definition utc_time (s : bytes) : DER := der_tlv 0x17 s.
Definition generalized_time (s : bytes) : DER := der_tlv 0x18 s.
Definition context_constructed (n : Z) (content : bytes) : DER := der_tlv (Z.lor 0xA0 n) content.
Definition context_primitive (n : Z) (content : bytes) : DER := der_tlv (Z.lor 0x80 n) content.
End der.

(** [oids.rs]. *)
Definition EC_PUBLIC_KEY : bytes := [0x2A; 0x86; 0x48; 0xCE; 0x3D; 0x02; 0x01].
Definition PRIME256V1 : bytes := [0x2A; 0x86; 0x48; 0xCE; 0x3D; 0x03; 0x01; 0x07].
Definition ECDSA_WITH_SHA256 : bytes := [0x2A; 0x86; 0x48; 0xCE; 0x3D; 0x04; 0x03; 0x02].
Definition COMMON_NAME : bytes := [0x55; 0x04; 0x03].
Definition MATTER_NODE_ID : bytes := [0x2B; 0x06; 0x01; 0x04; 0x01; 0x82; 0xA2; 0x7C; 0x01; 0x01].
Definition MATTER_FIRMWARE_SIGNING_ID : bytes := [0x2B; 0x06; 0x01; 0x04; 0x01; 0x82; 0xA2; 0x7C; 0x01; 0x02].
Definition MATTER_ICAC_ID : bytes := [0x2B; 0x06; 0x01; 0x04; 0x01; 0x82; 0xA2; 0x7C; 0x01; 0x03].
Definition MATTER_RCAC_ID : bytes := [0x2B; 0x06; 0x01; 0x04; 0x01; 0x82; 0xA2; 0x7C; 0x01; 0x04].
Definition MATTER_FABRIC_ID : bytes := [0x2B; 0x06; 0x01; 0x04; 0x01; 0x82; 0xA2; 0x7C; 0x01; 0x05].
Definition MATTER_NOC_CAT : bytes := [0x2B; 0x06; 0x01; 0x04; 0x01; 0x82; 0xA2; 0x7C; 0x01; 0x06].
Definition OID_BASIC_CONSTRAINTS : bytes := [0x55; 0x1D; 0x13].
Definition OID_KEY_USAGE : bytes := [0x55; 0x1D; 0x0F].
Definition OID_EXTENDED_KEY_USAGE : bytes := [0x55; 0x1D; 0x25].
Definition OID_SUBJECT_KEY_ID : bytes := [0x55; 0x1D; 0x0E].
Definition OID_AUTHORITY_KEY_ID : bytes := [0x55; 0x1D; 0x23].
Definition ID_KP_PREFIX : bytes := [0x2B; 0x06; 0x01; 0x05; 0x05; 0x07; 0x03].

(** ** [cert.rs]: data *)

Definition MATTER_EPOCH_2021 : Z := 662688000.
Definition NOC_VALIDITY_SECS : Z := 315360000.
Definition EKU_CLIENT_AUTH : Z := 2.
Definition EKU_SERVER_AUTH : Z := 1.
Definition KEY_USAGE_DIGITAL_SIGNATURE : Z := 0x0001.
Definition KEY_USAGE_KEY_CERT_SIGN : Z := 0x0020.
Definition KEY_USAGE_CRL_SIGN : Z := 0x0040.
Definition CAT_MALFORMED : string := "case authenticated tag".
Definition MAX_CERT_TLV_LEN : Z := 1024.

Inductive DnValue := MatterId (v : Z) | DnText (s : bytes).
Record DnAttr := { dn_tag : Z; dn_value : DnValue }.

Inductive CertExtension :=
  | BasicConstraints (is_ca : bool) (path_len : option Z)
  | KeyUsage (bits : Z)
  | ExtendedKeyUsage (purposes : list Z)
  | SubjectKeyId (id : bytes)
  | AuthorityKeyId (id : bytes).

Record MatterCert := {
  mc_serial : bytes;
  mc_issuer : list DnAttr;
  mc_not_before : Z;
  mc_not_after : Z;
  mc_subject : list DnAttr;
  mc_pub_key : bytes;
  mc_extensions : list CertExtension;
  mc_signature : bytes
}.

Inductive CertError :=
  | CertTlv (e : TlvError)
  | CertMalformed (what : string)
  | UnsupportedAlgorithm
  | UnsupportedDnAttr (tag : Z)
  | CertBadSignature
  | CertBadPublicKey.

#[export] Instance DnValue_eq_dec : EqDecision DnValue.
Proof. solve_decision. Defined.
#[export] Instance DnAttr_eq_dec : EqDecision DnAttr.
Proof. solve_decision. Defined.

(** ** Parsing *)

Abbreviation PR := (M Reader CertError).

Definition dn_step (attrs : list DnAttr) (el : Element) : PR (list DnAttr) :=
  match el_value el with
  | VUint v =>
      match el_tag el with
      | Context t => ret (attrs ++ [{| dn_tag := t; dn_value := MatterId v |}])
      | _ => throw (CertMalformed "dn attribute tag")
      end
  | VUtf8 s =>
      match el_tag el with
      | Context t => ret (attrs ++ [{| dn_tag := t; dn_value := DnText s |}])
      | _ => throw (CertMalformed "dn attribute tag")
      end
  | _ => throw (CertMalformed "dn value")
  end.

Definition parse_dn : PR (list DnAttr) :=
  walk CertTlv (CertMalformed "truncated distinguished name") dn_step [].

Definition basic_step (acc : option bool * option Z) (el : Element) : PR (option bool * option Z) :=
  match el_value el, el_tag el with
  | VBool b, Context 1 => ret (Some b, snd acc)
  | VUint v, Context 2 =>
      let! pl := lift (ok_or (try_u 8 v) (CertMalformed "path-len")) in ret (fst acc, Some pl)
  | _, _ => throw (CertMalformed "basic-constraints field")
  end.

Definition eku_step (vals : list Z) (el : Element) : PR (list Z) :=
  match el_value el with
  | VUint v => ret (vals ++ [v])
  | _ => throw (CertMalformed "extended-key-usage value")
  end.

Definition ext_step (exts : list CertExtension) (el : Element) : PR (list CertExtension) :=
  match el_tag el with
  | Context t =>
      match t, el_value el with
      | 1, VStructStart =>
          let! (is_ca, path_len) :=
            walk CertTlv (CertMalformed "truncated basic-constraints") basic_step (None, None) in
          let! ca := lift (ok_or is_ca (CertMalformed "is-ca")) in
          ret (exts ++ [BasicConstraints ca path_len])
      | 2, VUint v =>
          let! v := lift (ok_or (try_u 16 v) (CertMalformed "key-usage")) in ret (exts ++ [KeyUsage v])
      | 3, VArrayStart =>
          let! vals := walk CertTlv (CertMalformed "truncated extended-key-usage") eku_step [] in
          ret (exts ++ [ExtendedKeyUsage vals])
      | 4, VBytes b => ret (exts ++ [SubjectKeyId b])
      | 5, VBytes b => ret (exts ++ [AuthorityKeyId b])
      | 6, _ => throw (CertMalformed "future-extension unsupported")
      | _, _ => throw (CertMalformed "extension field")
      end
  | _ => throw (CertMalformed "extension tag")
  end.

Definition parse_extensions : PR (list CertExtension) :=
  walk CertTlv (CertMalformed "truncated extensions") ext_step [].

(** The locals of [MatterCert::parse]. *)
Record CertAcc := {
  ca_serial : option bytes;
  ca_sig_algo : bool;
  ca_issuer : option (list DnAttr);
  ca_not_before : option Z;
  ca_not_after : option Z;
  ca_subject : option (list DnAttr);
  ca_pubkey_algo : bool;
  ca_curve : bool;
  ca_pub_key : option bytes;
  ca_extensions : list CertExtension;
  ca_signature : option bytes
}.

Definition CertAcc_new : CertAcc := {|
  ca_serial := None; ca_sig_algo := false; ca_issuer := None; ca_not_before := None; ca_not_after := None;
  ca_subject := None; ca_pubkey_algo := false; ca_curve := false; ca_pub_key := None; ca_extensions := [];
  ca_signature := None |}.

Definition set_serial b a := {|
  ca_serial := Some b; ca_sig_algo := ca_sig_algo a; ca_issuer := ca_issuer a; ca_not_before := ca_not_before a;
  ca_not_after := ca_not_after a; ca_subject := ca_subject a; ca_pubkey_algo := ca_pubkey_algo a;
  ca_curve := ca_curve a; ca_pub_key := ca_pub_key a; ca_extensions := ca_extensions a; ca_signature := ca_signature a |}.
Definition set_sig_algo a := {|
  ca_serial := ca_serial a; ca_sig_algo := true; ca_issuer := ca_issuer a; ca_not_before := ca_not_before a;
  ca_not_after := ca_not_after a; ca_subject := ca_subject a; ca_pubkey_algo := ca_pubkey_algo a;
  ca_curve := ca_curve a; ca_pub_key := ca_pub_key a; ca_extensions := ca_extensions a; ca_signature := ca_signature a |}.
Definition set_issuer d a := {|
  ca_serial := ca_serial a; ca_sig_algo := ca_sig_algo a; ca_issuer := Some d; ca_not_before := ca_not_before a;
  ca_not_after := ca_not_after a; ca_subject := ca_subject a; ca_pubkey_algo := ca_pubkey_algo a;
  ca_curve := ca_curve a; ca_pub_key := ca_pub_key a; ca_extensions := ca_extensions a; ca_signature := ca_signature a |}.
Definition set_not_before v a := {|
  ca_serial := ca_serial a; ca_sig_algo := ca_sig_algo a; ca_issuer := ca_issuer a; ca_not_before := Some v;
  ca_not_after := ca_not_after a; ca_subject := ca_subject a; ca_pubkey_algo := ca_pubkey_algo a;
  ca_curve := ca_curve a; ca_pub_key := ca_pub_key a; ca_extensions := ca_extensions a; ca_signature := ca_signature a |}.
Definition set_not_after v a := {|
  ca_serial := ca_serial a; ca_sig_algo := ca_sig_algo a; ca_issuer := ca_issuer a; ca_not_before := ca_not_before a;
  ca_not_after := Some v; ca_subject := ca_subject a; ca_pubkey_algo := ca_pubkey_algo a;
  ca_curve := ca_curve a; ca_pub_key := ca_pub_key a; ca_extensions := ca_extensions a; ca_signature := ca_signature a |}.
Definition set_subject d a := {|
  ca_serial := ca_serial a; ca_sig_algo := ca_sig_algo a; ca_issuer := ca_issuer a; ca_not_before := ca_not_before a;
  ca_not_after := ca_not_after a; ca_subject := Some d; ca_pubkey_algo := ca_pubkey_algo a;
  ca_curve := ca_curve a; ca_pub_key := ca_pub_key a; ca_extensions := ca_extensions a; ca_signature := ca_signature a |}.
Definition set_pubkey_algo a := {|
  ca_serial := ca_serial a; ca_sig_algo := ca_sig_algo a; ca_issuer := ca_issuer a; ca_not_before := ca_not_before a;
  ca_not_after := ca_not_after a; ca_subject := ca_subject a; ca_pubkey_algo := true;
  ca_curve := ca_curve a; ca_pub_key := ca_pub_key a; ca_extensions := ca_extensions a; ca_signature := ca_signature a |}.
Definition set_curve a := {|
  ca_serial := ca_serial a; ca_sig_algo := ca_sig_algo a; ca_issuer := ca_issuer a; ca_not_before := ca_not_before a;
  ca_not_after := ca_not_after a; ca_subject := ca_subject a; ca_pubkey_algo := ca_pubkey_algo a;
  ca_curve := true; ca_pub_key := ca_pub_key a; ca_extensions := ca_extensions a; ca_signature := ca_signature a |}.
Definition set_pub_key b a := {|
  ca_serial := ca_serial a; ca_sig_algo := ca_sig_algo a; ca_issuer := ca_issuer a; ca_not_before := ca_not_before a;
  ca_not_after := ca_not_after a; ca_subject := ca_subject a; ca_pubkey_algo := ca_pubkey_algo a;
  ca_curve := ca_curve a; ca_pub_key := Some b; ca_extensions := ca_extensions a; ca_signature := ca_signature a |}.
Definition set_extensions l a := {|
  ca_serial := ca_serial a; ca_sig_algo := ca_sig_algo a; ca_issuer := ca_issuer a; ca_not_before := ca_not_before a;
  ca_not_after := ca_not_after a; ca_subject := ca_subject a; ca_pubkey_algo := ca_pubkey_algo a;
  ca_curve := ca_curve a; ca_pub_key := ca_pub_key a; ca_extensions := l; ca_signature := ca_signature a |}.
Definition set_signature b a := {|
  ca_serial := ca_serial a; ca_sig_algo := ca_sig_algo a; ca_issuer := ca_issuer a; ca_not_before := ca_not_before a;
  ca_not_after := ca_not_after a; ca_subject := ca_subject a; ca_pubkey_algo := ca_pubkey_algo a;
  ca_curve := ca_curve a; ca_pub_key := ca_pub_key a; ca_extensions := ca_extensions a; ca_signature := Some b |}.

(** [try_into] a fixed-size array. *)
Definition sized (n : Z) (b : bytes) (what : string) : PR bytes :=
  if zlen b =? n then ret b else throw (CertMalformed what).

Definition cert_step (a : CertAcc) (el : Element) : PR CertAcc :=
  match el_tag el with
  | Context t =>
      match t, el_value el with
      | 1, VBytes b => ret (set_serial b a)
      | 2, VUint 1 => ret (set_sig_algo a)
      | 2, VUint _ => throw UnsupportedAlgorithm
      | 3, VListStart => let! d := parse_dn in ret (set_issuer d a)
      | 4, VUint v =>
          let! v := lift (ok_or (try_u 32 v) (CertMalformed "not-before")) in ret (set_not_before v a)
      | 5, VUint v =>
          let! v := lift (ok_or (try_u 32 v) (CertMalformed "not-after")) in ret (set_not_after v a)
      | 6, VListStart => let! d := parse_dn in ret (set_subject d a)
      | 7, VUint 1 => ret (set_pubkey_algo a)
      | 7, VUint _ => throw UnsupportedAlgorithm
      | 8, VUint 1 => ret (set_curve a)
      | 8, VUint _ => throw UnsupportedAlgorithm
      | 9, VBytes b => let! b := sized 65 b "public key length" in ret (set_pub_key b a)
      | 10, VListStart => let! l := parse_extensions in ret (set_extensions l a)
      | 11, VBytes b => let! b := sized 64 b "signature length" in ret (set_signature b a)
      | _, _ => throw (CertMalformed "unexpected certificate field")
      end
  | _ => throw (CertMalformed "expected context-tagged field")
  end.

Definition cert_of (a : CertAcc) : res CertError MatterCert :=
  if negb (ca_sig_algo a) then Err (CertMalformed "signature algorithm")
  else if negb (ca_pubkey_algo a) then Err (CertMalformed "public key algorithm")
  else if negb (ca_curve a) then Err (CertMalformed "elliptic curve")
  else
    let? serial := ok_or (ca_serial a) (CertMalformed "serial") in
    let? issuer := ok_or (ca_issuer a) (CertMalformed "issuer") in
    let? not_before := ok_or (ca_not_before a) (CertMalformed "not-before") in
    let? not_after := ok_or (ca_not_after a) (CertMalformed "not-after") in
    let? subject := ok_or (ca_subject a) (CertMalformed "subject") in
    let? pub_key := ok_or (ca_pub_key a) (CertMalformed "public key") in
    let? signature := ok_or (ca_signature a) (CertMalformed "signature") in
    Ok {| mc_serial := serial; mc_issuer := issuer; mc_not_before := not_before; mc_not_after := not_after;
          mc_subject := subject; mc_pub_key := pub_key; mc_extensions := ca_extensions a;
          mc_signature := signature |}.

Definition parse_cert_body : PR MatterCert :=
  let! el := next_el CertTlv (CertMalformed "top-level struct") in
  match el_value el with
  | VStructStart =>
      let! a := walk CertTlv (CertMalformed "truncated certificate") cert_step CertAcc_new in
      lift (cert_of a)
  | _ => throw (CertMalformed "top-level struct")
  end.

Definition parse (tlv_bytes : bytes) : res CertError MatterCert :=
  if MAX_CERT_TLV_LEN <? zlen tlv_bytes then Err (CertMalformed "certificate too large")
  else snd (parse_cert_body (Reader_new tlv_bytes)).

(** ** Writing *)

Definition write_dn_attr (a : DnAttr) : M Writer Empty_set () :=
  match dn_value a with
  | MatterId id => put_uint (Context (dn_tag a)) id
  | DnText s => put_str (Context (dn_tag a)) s
  end.

Definition write_dn (ctx : Z) (attrs : list DnAttr) : M Writer Empty_set () :=
  start_list (Context ctx) ;;! foldr (λ a m, write_dn_attr a ;;! m) end_container attrs.

Definition write_extension (ext : CertExtension) : M Writer Empty_set () :=
  match ext with
  | BasicConstraints is_ca path_len =>
      start_struct (Context 1) ;;!
      put_bool (Context 1) is_ca ;;!
      (match path_len with
       | Some pl => put_uint (Context 2) pl ;;! end_container
       | None => end_container
       end)
  | KeyUsage bits => put_uint (Context 2) bits
  | ExtendedKeyUsage purposes =>
      start_array (Context 3) ;;! foldr (λ p m, put_uint Anonymous p ;;! m) end_container purposes
  | SubjectKeyId id => put_bytes (Context 4) id
  | AuthorityKeyId id => put_bytes (Context 5) id
  end.

Definition to_tlv (c : MatterCert) : fin bytes :=
  to_vec (
    start_struct Anonymous ;;!
    put_bytes (Context 1) (mc_serial c) ;;!
    put_uint (Context 2) 1 ;;!
    write_dn 3 (mc_issuer c) ;;!
    put_uint (Context 4) (mc_not_before c) ;;!
    put_uint (Context 5) (mc_not_after c) ;;!
    write_dn 6 (mc_subject c) ;;!
    put_uint (Context 7) 1 ;;!
    put_uint (Context 8) 1 ;;!
    put_bytes (Context 9) (mc_pub_key c) ;;!
    (start_list (Context 10) ;;! foldr (λ e m, write_extension e ;;! m) end_container (mc_extensions c)) ;;!
    put_bytes (Context 11) (mc_signature c) ;;!
    end_container).

(** ** The DER form *)

Abbreviation CE := (res CertError).

Fixpoint try_map {X Y} (f : X → CE Y) (l : list X) : CE (list Y) :=
  match l with
  | [] => Ok []
  | x :: l => let? y := f x in let? ys := try_map f l in Ok (y :: ys)
  end.

(** Formatting: the last [n] digits of [v] in a base, and Rust's minimum width
    [{:0w$}] (more digits when the number needs them). *)
Fixpoint digits (base : Z) (n : nat) (v : Z) : list Z :=
  match n with O => [] | S n => digits base n (v / base) ++ [v mod base] end.
Fixpoint strip_zeros (w : nat) (l : list Z) : list Z :=
  match l with
  | 0 :: l' => if (w <? length l)%nat then strip_zeros w l' else l
  | _ => l
  end.
Definition digit_char (d : Z) : Z := if d <? 10 then 48 + d else 55 + d.
Definition format_hex (w : nat) (v : Z) : bytes := map digit_char (strip_zeros w (digits 16 16 v)).
Definition format_dec (w : nat) (v : Z) : bytes := map digit_char (strip_zeros w (digits 10 20 v)).

Definition hex16 {E} (id : Z) : res E bytes := utf8_string (format_hex 16 id).
Definition hex8 {E} (id : Z) : res E bytes := utf8_string (format_hex 8 id).

(** [asn1::seq(&[&asn1::oid(o), &v])]. *)
Definition typed_value {E} (o : bytes) (v : res E bytes) : res E bytes :=
  let? i := der_oid o in let? v := v in der_seq [i; v].

Definition dn_atv (attr : DnAttr) : CE bytes :=
  let base_tag := Z.land (dn_tag attr) 0x7F in
  match base_tag, dn_value attr with
  | 17, MatterId id => typed_value MATTER_NODE_ID (hex16 id)
  | 18, MatterId id => typed_value MATTER_FIRMWARE_SIGNING_ID (hex16 id)
  | 19, MatterId id => typed_value MATTER_ICAC_ID (hex16 id)
  | 20, MatterId id => typed_value MATTER_RCAC_ID (hex16 id)
  | 21, MatterId id => typed_value MATTER_FABRIC_ID (hex16 id)
  | 22, MatterId id => typed_value MATTER_NOC_CAT (hex8 id)
  | 1, DnText s =>
      typed_value COMMON_NAME
        (if negb (Z.land (dn_tag attr) 0x80 =? 0) then printable_string s else utf8_string s)
  | _, _ => Err (UnsupportedDnAttr (dn_tag attr))
  end.

Definition dn_rdn (attr : DnAttr) : CE bytes := let? atv := dn_atv attr in set_of [atv].

Definition dn_name (attrs : list DnAttr) : CE bytes :=
  let? rdns := try_map dn_rdn attrs in der_seq rdns.

(** [civil_from_days]; [/] truncates in Rust, and only the first dividend can be
    negative. *)
Definition civil_from_days (z : Z) : Z * Z * Z :=
  let z := z + 719468 in
  let era := Z.quot (if 0 <=? z then z else z - 146096) 146097 in
  let doe := z - era * 146097 in
  let yoe := (doe - doe / 1460 + doe / 36524 - doe / 146096) / 365 in
  let y := yoe + era * 400 in
  let doy := doe - (365 * yoe + yoe / 4 - yoe / 100) in
  let mp := (5 * doy + 2) / 153 in
  let d := doy - (153 * mp + 2) / 5 + 1 in
  let m := if mp <? 10 then mp + 3 else mp - 9 in
  ((if m <=? 2 then y + 1 else y), m, d).

Definition asn1_time {E} (epoch : Z) : res E bytes :=
  if epoch =? 0 then
    generalized_time [57; 57; 57; 57; 49; 50; 51; 49; 50; 51; 53; 57; 53; 57; 90]
  else
    let unix := epoch + 946684800 in
    let days := unix / 86400 in
    let secs_of_day := unix mod 86400 in
    let '(year, month, day) := civil_from_days days in
    let hour := secs_of_day / 3600 in
    let minute := secs_of_day mod 3600 / 60 in
    let second := secs_of_day mod 60 in
    let rest := format_dec 2 month ++ format_dec 2 day ++ format_dec 2 hour ++ format_dec 2 minute ++
                format_dec 2 second ++ [90] in
    if (1950 <=? year) && (year <=? 2049) then utc_time (format_dec 2 (year mod 100) ++ rest)
    else generalized_time (format_dec 4 year ++ rest).

(** The loop of [key_usage_bits] over [0..16]: the two octets and the highest
    bit seen. *)
Fixpoint key_usage_loop (n : nat) (bits : Z) (s : Z * Z * option Z) : Z * Z * option Z :=
  match n with
  | O => s
  | S n' =>
      let '(b0, b1, highest) := key_usage_loop n' bits s in
      let i := Z.of_nat n' in
      if Z.testbit bits i then
        if i <? 8 then (Z.lor b0 (Z.shiftr 0x80 (i mod 8)), b1, Some i)
        else (b0, Z.lor b1 (Z.shiftr 0x80 (i mod 8)), Some i)
      else (b0, b1, highest)
  end.

Definition key_usage_bits (bits : Z) : Z * bytes :=
  match key_usage_loop 16 bits (0, 0, None) with
  | (_, _, None) => (0, [])
  | (b0, b1, Some h) => (7 - h mod 8, take (Z.to_nat (h / 8 + 1)) [b0; b1])
  end.

Definition eku_oid (v : Z) : CE bytes :=
  let? x := (match v with
             | 1 => Ok 0x01 | 2 => Ok 0x02 | 3 => Ok 0x03 | 4 => Ok 0x04 | 5 => Ok 0x08 | 6 => Ok 0x09
             | _ => Err (CertMalformed "unsupported extended-key-usage value")
             end) in
  der_oid (ID_KP_PREFIX ++ [x]).

(** [seq(oid, boolean(true), octet_string(value))] and the same without
    criticality. *)
Definition critical_ext (o value : bytes) : CE bytes :=
  let? i := der_oid o in let? t := der_boolean true in let? v := octet_string value in der_seq [i; t; v].
Definition plain_ext (o value : bytes) : CE bytes :=
  let? i := der_oid o in let? v := octet_string value in der_seq [i; v].

Definition extension_der (ext : CertExtension) : CE bytes :=
  match ext with
  | BasicConstraints is_ca path_len =>
      let? ca := (if is_ca then let? b := der_boolean true in Ok [b] else Ok []) in
      let? pl := (match path_len with Some len => let? i := der_integer [len] in Ok [i] | None => Ok [] end) in
      let? value := der_seq (ca ++ pl) in critical_ext OID_BASIC_CONSTRAINTS value
  | KeyUsage bits =>
      let '(unused, b) := key_usage_bits bits in
      let? value := bit_string unused b in critical_ext OID_KEY_USAGE value
  | ExtendedKeyUsage vals =>
      let? eku_oids := try_map eku_oid vals in
      let? value := der_seq eku_oids in critical_ext OID_EXTENDED_KEY_USAGE value
  | SubjectKeyId id => let? value := octet_string id in plain_ext OID_SUBJECT_KEY_ID value
  | AuthorityKeyId id =>
      let? k := context_primitive 0 id in let? value := der_seq [k] in plain_ext OID_AUTHORITY_KEY_ID value
  end.

(** [SubjectPublicKeyInfo]. *)
Definition spki_der (pub_key : bytes) : CE bytes :=
  let? ec := der_oid EC_PUBLIC_KEY in let? curve := der_oid PRIME256V1 in
  let? alg := der_seq [ec; curve] in let? key := bit_string 0 pub_key in der_seq [alg; key].

Definition tbs_der (c : MatterCert) : CE bytes :=
  let? issuer := dn_name (mc_issuer c) in
  let? subject := dn_name (mc_subject c) in
  let? not_before := asn1_time (mc_not_before c) in
  let? not_after := asn1_time (mc_not_after c) in
  let? ext_ders := try_map extension_der (mc_extensions c) in
  let? extensions_seq := der_seq ext_ders in
  let? spki := spki_der (mc_pub_key c) in
  let? v3 := der_integer [2] in
  let? version := context_constructed 0 v3 in
  let? serial := der_integer (mc_serial c) in
  let? sig_oid := der_oid ECDSA_WITH_SHA256 in
  let? sig_alg := der_seq [sig_oid] in
  let? validity := der_seq [not_before; not_after] in
  let? exts := context_constructed 3 extensions_seq in
  der_seq [version; serial; sig_alg; issuer; validity; subject; spki; exts].

(** ** Checks *)

Section ecdsa.
Context `{Ec : Ecdsa}.

Definition verify_signed_by (c : MatterCert) (issuer_public_key : bytes) : CE () :=
  let? tbs := tbs_der c in
  map_err (λ e, match e with BadKey => CertBadPublicKey | _ => CertBadSignature end)
    (verify_ecdsa_p256 issuer_public_key tbs (mc_signature c)).

(** [find_map] over the subject. *)
Fixpoint matter_id_of (tlv_tag : Z) (attrs : list DnAttr) : option Z :=
  match attrs with
  | [] => None
  | {| dn_tag := t; dn_value := MatterId id |} :: attrs =>
      if t =? tlv_tag then Some id else matter_id_of tlv_tag attrs
  | _ :: attrs => matter_id_of tlv_tag attrs
  end.

Definition subject_matter_id (c : MatterCert) (tlv_tag : Z) : option Z := matter_id_of tlv_tag (mc_subject c).
Definition mc_node_id (c : MatterCert) : option Z := subject_matter_id c 17.
Definition mc_fabric_id (c : MatterCert) : option Z := subject_matter_id c 21.

Fixpoint raw_cats (attrs : list DnAttr) : CE (list Z) :=
  match attrs with
  | [] => Ok []
  | a :: attrs =>
      if negb (dn_tag a =? 22) then raw_cats attrs
      else
        match dn_value a with
        | MatterId id =>
            let? cat := ok_or (try_u 32 id) (CertMalformed CAT_MALFORMED) in
            let? l := raw_cats attrs in Ok (cat :: l)
        | DnText _ => Err (CertMalformed CAT_MALFORMED)
        end
  end.

Definition cats (c : MatterCert) : CE CaseAuthTags :=
  let? raw := raw_cats (mc_subject c) in ok_or (CaseAuthTags_new raw) (CertMalformed CAT_MALFORMED).

Fixpoint basic_constraints_of (l : list CertExtension) : option (bool * option Z) :=
  match l with
  | [] => None
  | BasicConstraints is_ca path_len :: _ => Some (is_ca, path_len)
  | _ :: l => basic_constraints_of l
  end.
Fixpoint key_usage_of (l : list CertExtension) : option Z :=
  match l with [] => None | KeyUsage bits :: _ => Some bits | _ :: l => key_usage_of l end.
Fixpoint eku_of (l : list CertExtension) : option (list Z) :=
  match l with [] => None | ExtendedKeyUsage v :: _ => Some v | _ :: l => eku_of l end.
Fixpoint skid_of (l : list CertExtension) : option bytes :=
  match l with [] => None | SubjectKeyId id :: _ => Some id | _ :: l => skid_of l end.

Definition basic_constraints (c : MatterCert) := basic_constraints_of (mc_extensions c).
Definition key_usage (c : MatterCert) := key_usage_of (mc_extensions c).

Definition check_ca_cert (cert : MatterCert) (not_ca no_key_cert_sign : string) : CE () :=
  match basic_constraints cert with
  | Some (true, _) =>
      match key_usage cert with
      | Some bits => if negb (Z.land bits KEY_USAGE_KEY_CERT_SIGN =? 0) then Ok () else Err (CertMalformed no_key_cert_sign)
      | None => Err (CertMalformed no_key_cert_sign)
      end
  | _ => Err (CertMalformed not_ca)
  end.

Definition check_noc_leaf (noc : MatterCert) : CE () :=
  match basic_constraints noc with
  | Some (false, _) =>
      let? bits := ok_or (key_usage noc) (CertMalformed "noc key-usage") in
      if Z.land bits KEY_USAGE_DIGITAL_SIGNATURE =? 0 then Err (CertMalformed "noc digitalSignature key-usage")
      else if negb (Z.land bits (Z.lor KEY_USAGE_KEY_CERT_SIGN KEY_USAGE_CRL_SIGN) =? 0)
      then Err (CertMalformed "noc key-usage (keyCertSign/cRLSign set)")
      else
        match eku_of (mc_extensions noc) with
        | Some v =>
            if bool_decide (EKU_CLIENT_AUTH ∈ v) && bool_decide (EKU_SERVER_AUTH ∈ v) then Ok ()
            else Err (CertMalformed "noc clientAuth+serverAuth extended-key-usage")
        | None => Err (CertMalformed "noc clientAuth+serverAuth extended-key-usage")
        end
  | _ => Err (CertMalformed "noc end-entity basic-constraint")
  end.

(** The intermediate: what [verify_noc_chain] asks of it. *)
Definition check_icac (ica rcac : MatterCert) : CE () :=
  let? _ := verify_signed_by ica (mc_pub_key rcac) in
  if negb (bool_decide (mc_issuer ica = mc_subject rcac)) then Err (CertMalformed "icac issuer != rcac subject")
  else
    let? _ := check_ca_cert ica "icac cA basic-constraint" "icac keyCertSign key-usage" in
    let? _ := (match basic_constraints ica with
               | Some (_, Some pl) => if negb (pl =? 0) then Err (CertMalformed "icac path-len (must be 0)") else Ok ()
               | _ => Ok ()
               end) in
    match basic_constraints rcac with
    | Some (_, Some 0) => Err (CertMalformed "rcac path-len (0 forbids an icac)")
    | _ => Ok ()
    end.

Definition verify_noc_chain (noc : MatterCert) (icac : option MatterCert) (rcac : MatterCert) : CE () :=
  let? _ := verify_signed_by rcac (mc_pub_key rcac) in
  let? _ := check_ca_cert rcac "rcac cA basic-constraint" "rcac keyCertSign key-usage" in
  let? signer := (match icac with
                  | Some ica => let? _ := check_icac ica rcac in Ok ica
                  | None => Ok rcac
                  end) in
  let? _ := verify_signed_by noc (mc_pub_key signer) in
  if negb (bool_decide (mc_issuer noc = mc_subject signer)) then Err (CertMalformed "noc issuer != signer subject")
  else
    let? _ := check_noc_leaf noc in
    match mc_node_id noc, mc_fabric_id noc with
    | Some _, Some b =>
        match icac with
        | Some ica =>
            match mc_fabric_id ica with
            | Some a => if negb (a =? b) then Err (CertMalformed "fabric id mismatch in chain") else Ok ()
            | None => Ok ()
            end
        | None => Ok ()
        end
    | _, _ => Err (CertMalformed "noc missing node/fabric id")
    end.

(** ** Issuing *)

Context `{Sha1}.

Definition subject_key_id (public_key : bytes) : bytes := sha1 public_key.

(** A certificate signed over its own DER form: [signature] filled in. *)
Definition with_signature (s : bytes) (c : MatterCert) : MatterCert := {|
  mc_serial := mc_serial c; mc_issuer := mc_issuer c; mc_not_before := mc_not_before c;
  mc_not_after := mc_not_after c; mc_subject := mc_subject c; mc_pub_key := mc_pub_key c;
  mc_extensions := mc_extensions c; mc_signature := s
|}.

Definition sign_cert (private_key : bytes) (c : MatterCert) : CE MatterCert :=
  let? tbs := tbs_der c in
  let? s := map_err (λ _, CertBadSignature) (sign_ecdsa_p256 private_key tbs) in
  Ok (with_signature s c).

Definition noc_template (op_public_key : bytes) (node_id fabric_id : Z) (issuer : MatterCert)
    (serial issuer_skid : bytes) (tags : CaseAuthTags) : MatterCert := {|
  mc_serial := serial;
  mc_issuer := mc_subject issuer;
  mc_not_before := MATTER_EPOCH_2021;
  mc_not_after := saturating_add 32 MATTER_EPOCH_2021 NOC_VALIDITY_SECS;
  mc_subject := [ {| dn_tag := 17; dn_value := MatterId node_id |}; {| dn_tag := 21; dn_value := MatterId fabric_id |} ] ++
    map (λ cat, {| dn_tag := 22; dn_value := MatterId cat |}) (cats_iter tags);
  mc_pub_key := op_public_key;
  mc_extensions := [BasicConstraints false None; KeyUsage KEY_USAGE_DIGITAL_SIGNATURE;
    ExtendedKeyUsage [EKU_CLIENT_AUTH; EKU_SERVER_AUTH]; SubjectKeyId (subject_key_id op_public_key);
    AuthorityKeyId issuer_skid];
  mc_signature := replicate 64 0
|}.

Definition issue_noc_with_cats (op_public_key : bytes) (node_id fabric_id : Z) (issuer : MatterCert)
    (issuer_private_key serial : bytes) (tags : list Z) : CE MatterCert :=
  let? tags := ok_or (CaseAuthTags_new tags) (CertMalformed CAT_MALFORMED) in
  let? issuer_skid := ok_or (skid_of (mc_extensions issuer)) (CertMalformed "issuer has no subject key id") in
  sign_cert issuer_private_key (noc_template op_public_key node_id fabric_id issuer serial issuer_skid tags).

Definition issue_noc (op_public_key : bytes) (node_id fabric_id : Z) (issuer : MatterCert)
    (issuer_private_key serial : bytes) : CE MatterCert :=
  issue_noc_with_cats op_public_key node_id fabric_id issuer issuer_private_key serial [].

(** [random_serial] of eight random bytes. *)
Definition random_serial (rng : bytes) : bytes :=
  match rng with b :: l => Z.land b 0x7F :: l | [] => [] end.

(** [generate_rcac] from a fresh private key, eight random bytes for the RCAC id
    and eight for the serial. *)
Definition generate_rcac (private_key rcac_id_b serial_b : bytes) : CE (MatterCert * bytes) :=
  let public_key := sk_public private_key in
  let subject := [ {| dn_tag := 20; dn_value := MatterId (le_val rcac_id_b) |} ] in
  let skid := subject_key_id public_key in
  let? rcac := sign_cert private_key {|
    mc_serial := random_serial serial_b; mc_issuer := subject; mc_not_before := MATTER_EPOCH_2021;
    mc_not_after := saturating_add 32 MATTER_EPOCH_2021 NOC_VALIDITY_SECS; mc_subject := subject;
    mc_pub_key := public_key;
    mc_extensions := [BasicConstraints true None; KeyUsage (Z.lor KEY_USAGE_KEY_CERT_SIGN KEY_USAGE_CRL_SIGN);
                      SubjectKeyId skid; AuthorityKeyId skid];
    mc_signature := replicate 64 0 |} in
  Ok (rcac, private_key).
End ecdsa.

(** ** Proofs: the TLV form *)

Close Scope string_scope.

Definition attr_ok (a : DnAttr) : Prop :=
  in_u 8 (dn_tag a) ∧
  match dn_value a with
  | MatterId id => in_u 64 id
  | DnText s => bytes_ok s ∧ small s ∧ from_utf8 s = true
  end.

Definition ext_ok (e : CertExtension) : Prop :=
  match e with
  | BasicConstraints _ pl => from_option (in_u 8) True pl
  | KeyUsage bits => in_u 16 bits
  | ExtendedKeyUsage l => Forall (in_u 64) l
  | SubjectKeyId id | AuthorityKeyId id => bytes_ok id ∧ small id
  end.

Definition cert_ok (c : MatterCert) : Prop :=
  (bytes_ok (mc_serial c) ∧ small (mc_serial c)) ∧ Forall attr_ok (mc_issuer c) ∧
  in_u 32 (mc_not_before c) ∧ in_u 32 (mc_not_after c) ∧ Forall attr_ok (mc_subject c) ∧
  (bytes_ok (mc_pub_key c) ∧ zlen (mc_pub_key c) = 65) ∧ Forall ext_ok (mc_extensions c) ∧
  (bytes_ok (mc_signature c) ∧ zlen (mc_signature c) = 64).

Definition attr_tree (a : DnAttr) : tree :=
  Leaf (Context (dn_tag a)) (match dn_value a with MatterId id => VUint id | DnText s => VUtf8 s end).

Definition ext_tree (e : CertExtension) : tree :=
  match e with
  | BasicConstraints is_ca pl =>
      Tlv.Node (Context 1) KStruct
        (Leaf (Context 1) (VBool is_ca) ::
         match pl with Some pl => [Leaf (Context 2) (VUint pl)] | None => [] end)
  | KeyUsage bits => Leaf (Context 2) (VUint bits)
  | ExtendedKeyUsage l => Tlv.Node (Context 3) KArray (map (λ p, Leaf Anonymous (VUint p)) l)
  | SubjectKeyId id => Leaf (Context 4) (VBytes id)
  | AuthorityKeyId id => Leaf (Context 5) (VBytes id)
  end.

Definition cert_children (c : MatterCert) : list tree :=
  [Leaf (Context 1) (VBytes (mc_serial c)); Leaf (Context 2) (VUint 1);
   Tlv.Node (Context 3) KList (map attr_tree (mc_issuer c)); Leaf (Context 4) (VUint (mc_not_before c));
   Leaf (Context 5) (VUint (mc_not_after c)); Tlv.Node (Context 6) KList (map attr_tree (mc_subject c));
   Leaf (Context 7) (VUint 1); Leaf (Context 8) (VUint 1); Leaf (Context 9) (VBytes (mc_pub_key c));
   Tlv.Node (Context 10) KList (map ext_tree (mc_extensions c)); Leaf (Context 11) (VBytes (mc_signature c))].

Definition cert_tree (c : MatterCert) : tree := Tlv.Node Anonymous KStruct (cert_children c).

Lemma writes_dn ctx l : writes (write_dn ctx l) (enc_tree (Tlv.Node (Context ctx) KList (map attr_tree l))).
Proof.
  apply writes_list, emits_foldr. intros [t [id|s] ]; [apply writes_put_uint|apply writes_len_prefixed].
Qed.

Lemma writes_extension e : writes (write_extension e) (enc_tree (ext_tree e)).
Proof.
  destruct e as [ca pl|bits|l|id|id]; cbn [write_extension ext_tree].
  - apply writes_struct. apply emits_cons; [apply writes_bool|]. destruct pl; eauto with emits.
  - apply writes_put_uint.
  - apply writes_array, emits_foldr. intros p. apply writes_put_uint.
  - apply writes_len_prefixed.
  - apply writes_len_prefixed.
Qed.

Lemma to_tlv_at c : to_tlv c = Ok (enc_tree (cert_tree c)).
Proof.
  apply to_vec_writes, writes_struct. unfold cert_children.
  apply emits_bytes, emits_uint. apply emits_cons; [apply writes_dn|]. apply emits_uint, emits_uint.
  apply emits_cons; [apply writes_dn|]. apply emits_uint, emits_uint, emits_bytes.
  apply emits_cons; [apply writes_list, emits_foldr, writes_extension|]. apply emits_bytes, emits_end.
Qed.

Lemma wf_attr a : attr_ok a → wf_tree (attr_tree a).
Proof. intros [Ht Hv]. split; [done|]. split; [|by destruct a as [t [id|s] ] ]. by destruct a as [t [id|s] ]. Qed.

Lemma wf_blob c b : 0 ≤ c < 256 → bytes_ok b → small b → wf_tree (Leaf (Context c) (VBytes b)).
Proof. intros Hc Hb Hs. split; [done|]. by split. Qed.

Lemma wf_ext e : ext_ok e → wf_tree (ext_tree e).
Proof.
  destruct e as [ca pl|bits|l|id|id]; cbn [ext_tree ext_ok]; intros Hok.
  - apply wf_node; [done|]. apply Forall_cons. split; [done|]. destruct pl as [pl|]; [|done].
    apply Forall_singleton. by apply (wf_uint _ _ 8).
  - by apply (wf_uint _ _ 16).
  - apply wf_node; [done|]. by apply (wf_uints _ 64).
  - destruct Hok. by apply wf_blob.
  - destruct Hok. by apply wf_blob.
Qed.

Lemma wf_map {A} (P : A → Prop) (f : A → tree) l : (∀ a, P a → wf_tree (f a)) → Forall P l → Forall wf_tree (map f l).
Proof. intros Hf Hl. apply List.Forall_map. eapply Forall_impl; [exact Hl|done]. Qed.

Lemma wf_cert_children c : cert_ok c → Forall wf_tree (cert_children c).
Proof.
  intros ([H1 H1'] & H2 & H3 & H4 & H5 & [H6 H6'] & H7 & [H8 H8']).
  unfold cert_children. repeat (apply Forall_cons; split); [..|constructor].
  - by apply wf_blob.
  - done.
  - apply wf_node; [done|]. by apply (wf_map attr_ok); [apply wf_attr|].
  - by apply (wf_uint _ _ 32).
  - by apply (wf_uint _ _ 32).
  - apply wf_node; [done|]. by apply (wf_map attr_ok); [apply wf_attr|].
  - done.
  - done.
  - apply wf_blob; [done|done|]. unfold small. lia.
  - apply wf_node; [done|]. by apply (wf_map ext_ok); [apply wf_ext|].
  - apply wf_blob; [done|done|]. unfold small. lia.
Qed.

(** A walk that appends one item per child. *)
Lemma walks_collect {E X} (step : list X → Element → M Reader E (list X)) (f : X → tree) l :
  Forall (λ x, ∀ acc, reads (step acc (root_el (f x))) (inner (f x)) (acc ++ [x])) l →
  ∀ acc, walks step acc (map f l) (acc ++ l).
Proof.
  induction 1 as [|x l Hx Hl IH]; intros acc; cbn; [rewrite app_nil_r; constructor|].
  econstructor; [apply Hx|]. replace (acc ++ x :: l) with ((acc ++ [x]) ++ l) by by rewrite <- app_assoc.
  apply IH.
Qed.

Lemma reads_parse_dn l : Forall attr_ok l → reads parse_dn (enc_children (map attr_tree l)) l.
Proof.
  intros Hl. apply walk_at; [by apply (wf_map attr_ok); [apply wf_attr|]|].
  apply (walks_collect dn_step attr_tree l).
  eapply Forall_impl; [exact Hl|]. intros [t [id|s] ] _ acc; apply reads_ret.
Qed.

Lemma reads_ext e acc : ext_ok e → reads (ext_step acc (root_el (ext_tree e))) (inner (ext_tree e)) (acc ++ [e]).
Proof.
  intros Hok. pose proof (wf_ext e Hok) as Hwf. destruct e as [ca pl|bits|l|id|id]; cbn [ext_tree] in *; cbn in Hok.
  - apply wf_children in Hwf as [_ Hwf]. eapply (reads_bind_end _ _ _ (Some ca, pl)); [|apply reads_ret].
    apply walk_at; [done|]. eapply walks_leaf; [apply reads_ret|]. destruct pl as [pl|]; [|constructor].
    eapply walks_leaf; [|constructor]. unfold basic_step. cbn [el_value el_tag].
    rewrite (proj2 (try_u_Some 8 pl pl) (conj eq_refl Hok)). apply reads_ret.
  - unfold ext_step. cbn [root_el el_tag el_value root_tag root_value].
    rewrite (proj2 (try_u_Some 16 bits bits) (conj eq_refl Hok)). apply reads_ret.
  - apply wf_children in Hwf as [_ Hwf]. eapply (reads_bind_end _ _ _ l); [|apply reads_ret].
    apply walk_at; [done|]. apply (walks_collect eku_step (λ p, Leaf Anonymous (VUint p)) l).
    apply Forall_forall. intros p _ acc'. apply reads_ret.
  - apply reads_ret.
  - apply reads_ret.
Qed.

Lemma reads_parse_extensions l : Forall ext_ok l → reads parse_extensions (enc_children (map ext_tree l)) l.
Proof.
  intros Hl. apply walk_at; [by apply (wf_map ext_ok); [apply wf_ext|]|].
  apply (walks_collect ext_step ext_tree l).
  eapply Forall_impl; [exact Hl|]. intros e He acc. by apply reads_ext.
Qed.

Lemma parse_at c : cert_ok c → zlen (enc_tree (cert_tree c)) ≤ MAX_CERT_TLV_LEN →
  parse (enc_tree (cert_tree c)) = Ok c.
Proof.
  intros Hok Hlen. pose proof (wf_cert_children c Hok) as Hwf.
  assert (Hs : small (enc_tree (cert_tree c))) by (unfold small, MAX_CERT_TLV_LEN in *; lia).
  unfold parse. rewrite (proj2 (Z.ltb_ge _ _)) by done. apply reads_all; [|done].
  unfold cert_tree. rewrite enc_tree_split. eapply reads_bind; [by apply reads_next_el, wf_anon_node|].
  cbn [el_value root_el root_value start_of inner].
  destruct Hok as ([H1 H1'] & H2 & H3 & H4 & H5 & [H6 H6'] & H7 & [H8 H8']).
  eapply reads_bind_end; [apply walk_at; [done|]|].
  - unfold cert_children. do 2 (eapply walks_leaf; [apply reads_ret|]).
    eapply walks_node; [eapply reads_bind_end; [by apply reads_parse_dn|apply reads_ret]|].
    eapply walks_leaf; [unfold cert_step; cbn [el_tag el_value]; rewrite (proj2 (try_u_Some 32 _ _) (conj eq_refl H3)); apply reads_ret|].
    eapply walks_leaf; [unfold cert_step; cbn [el_tag el_value]; rewrite (proj2 (try_u_Some 32 _ _) (conj eq_refl H4)); apply reads_ret|].
    eapply walks_node; [eapply reads_bind_end; [by apply reads_parse_dn|apply reads_ret]|].
    do 2 (eapply walks_leaf; [apply reads_ret|]).
    eapply walks_leaf; [unfold cert_step, sized; cbn [el_tag el_value]; rewrite H6'; apply reads_ret|].
    eapply walks_node; [eapply reads_bind_end; [by apply reads_parse_extensions|apply reads_ret]|].
    eapply walks_leaf; [unfold cert_step, sized; cbn [el_tag el_value]; rewrite H8'; apply reads_ret|constructor].
  - by destruct c; apply reads_ret.
Qed.

(** ** Proofs: what arbitrary bytes parse to, and how large its DER form is

    Every item of a certificate costs at most 20 octets of DER per octet of TLV,
    so a certificate within [MAX_CERT_TLV_LEN] stays below the length [der_tlv]
    asserts. *)

Definition attr_cost (a : DnAttr) : Z := 50 + match dn_value a with DnText s => zlen s | MatterId _ => 0 end.
Definition ext_cost (e : CertExtension) : Z :=
  match e with
  | ExtendedKeyUsage l => 40 + 12 * zlen l
  | SubjectKeyId id | AuthorityKeyId id => 40 + zlen id
  | _ => 40
  end.
Definition sum_of {X} (f : X → Z) (l : list X) : Z := foldr (λ x n, f x + n) 0 l.
Definition cert_cost (c : MatterCert) : Z :=
  zlen (mc_serial c) + sum_of attr_cost (mc_issuer c) + sum_of attr_cost (mc_subject c) +
  sum_of ext_cost (mc_extensions c).

Lemma attr_cost_nonneg a : 0 ≤ attr_cost a.
Proof. unfold attr_cost. destruct (dn_value a) as [|s]; [done|]. pose proof (zlen_nonneg s). lia. Qed.
Lemma ext_cost_nonneg e : 0 ≤ ext_cost e.
Proof. destruct e as [| |l|id|id]; cbn; try done; [pose proof (zlen_nonneg l)|pose proof (zlen_nonneg id)|pose proof (zlen_nonneg id)]; lia. Qed.
Lemma sum_of_nonneg {X} (f : X → Z) l : (∀ x, 0 ≤ f x) → 0 ≤ sum_of f l.
Proof. intros Hf. unfold sum_of. induction l as [|x l IH]; cbn; [done|]. specialize (Hf x). lia. Qed.
Lemma sum_of_app {X} (f : X → Z) l k : sum_of f (l ++ k) = sum_of f l + sum_of f k.
Proof. unfold sum_of. induction l as [|x l IH]; cbn; [done|]. lia. Qed.
Lemma sum_of_snoc {X} (f : X → Z) l x : sum_of f (l ++ [x]) = sum_of f l + f x.
Proof. rewrite sum_of_app. cbn. lia. Qed.

Section paid.
Context {E : Type} (conv : TlvError → E) (eof : E).

Lemma next_el_paid r : rd_ok r →
  wp (next_el conv eof) (λ el r', (moves r r' ∧ rd_pos r < rd_pos r' ∧ 1 + zlen (body_of (el_value el)) ≤ rd_pos r') ∧
      wf_element el ∧ zlen (enc_elem (el_tag el) (el_value el)) ≤ rd_pos r' - rd_pos r) (λ _ r', moves r r') r.
Proof.
  intros Hr. pose proof (next_wp r Hr) as Hn. pose proof (eats_next r Hr) as He.
  pose proof (next_el_wp conv eof r Hr) as Hw. unfold wp, next_el, bind, adapt in *.
  destruct (next r) as [r' [ [el|]|e| |] ]; cbn in *; try naive_solver.
Qed.

(** The cost of what [m] returns is paid by the octets it read. *)
Definition pays {A} (m : M Reader E A) (Q : A → Prop) (cost : A → Z) (allowance : Z) : Prop :=
  ∀ r, rd_ok r →
    wp m (λ a r', moves r r' ∧ Q a ∧ cost a ≤ allowance + 20 * (rd_pos r' - rd_pos r)) (λ _ r', moves r r') r.

Lemma pays_ret {A} (a : A) (Q : A → Prop) cost n : Q a → cost a ≤ n → pays (ret a) Q cost n.
Proof. intros Ha Hc r Hr. apply wp_ret. split; [by apply moves_refl|]. split; [done|lia]. Qed.

Lemma pays_throw {A} e (Q : A → Prop) cost n : pays (throw e) Q cost n.
Proof. intros r Hr. by apply moves_refl. Qed.

Lemma pays_bind {A B} (m : M Reader E A) (k : A → M Reader E B) P Q c1 c2 n :
  pays m P c1 n → (∀ a, P a → pays (k a) Q c2 (c1 a)) → pays (bind m k) Q c2 n.
Proof.
  intros Hm Hk r Hr. apply wp_bind. eapply wp_mono; [by apply Hm| |done]. cbn. intros a r1 (Hm1 & Ha & Hc).
  pose proof (moves_ok _ _ Hr Hm1) as Hr1. eapply wp_mono; [by apply Hk|..]; cbn.
  - intros b r2 (Hm2 & Hb & Hc2). split; [by eapply moves_trans|]. split; [done|]. lia.
  - intros e r2 Hm2. by eapply moves_trans.
Qed.

Lemma pays_lift {A} (m : res E A) (Q : A → Prop) cost n :
  match m with Ok a => Q a ∧ cost a ≤ n | Err _ => True | _ => False end → pays (lift m) Q cost n.
Proof. destruct m; intros Hm; [by apply pays_ret; destruct Hm|apply pays_throw|done|done]. Qed.

Lemma walk_pays {T} (step : T → Element → M Reader E T) (I : T → Prop) (cost : T → Z) s :
  (∀ s el, I s → wf_element el → el_value el ≠ VContainerEnd →
     pays (step s el) I cost (cost s + 20 * zlen (enc_elem (el_tag el) (el_value el)))) →
  I s → pays (walk conv eof step s) I cost (cost s).
Proof.
  intros Hstep HI r Hr. unfold walk. apply wp_bind. unfold wp at 1, get.
  assert (Hfuel : (remaining r < S (remaining r))%nat) by lia.
  set (fuel := S (remaining r)) in *. clearbody fuel. revert s HI r Hr Hfuel.
  induction fuel as [|fuel IH]; intros s HI r Hr Hf; [lia|]. cbn [walk_loop]. apply wp_bind.
  eapply wp_mono; [by apply next_el_paid| |done]. cbn. intros el r1 ((Hm & Hp & Hbody) & Hwf & Hpaid).
  pose proof (moves_ok _ _ Hr Hm) as Hr1. pose proof (moves_remaining _ _ Hr Hm Hp).
  case_decide as Hend; [apply wp_ret; split; [done|]; split; [done|]; lia|]. apply wp_bind.
  eapply wp_mono; [by apply Hstep| |cbn; eauto using moves_trans]. cbn.
  intros s1 r2 (Hm2 & HI1 & Hc1). pose proof (moves_remaining_le _ _ Hr1 Hm2).
  eapply wp_mono; [apply IH; [done|by eapply moves_ok|lia]|..]; cbn.
  - intros s2 r3 (Hm3 & HI2 & Hc2). split; [eauto using moves_trans|]. split; [done|]. lia.
  - eauto using moves_trans.
Qed.
End paid.

Lemma zlen_context t v : zlen (enc_elem (Context t) v) = 2 + zlen (body_of v).
Proof. unfold enc_elem. rewrite zlen_cons, zlen_app. change (zlen (tag_bytes (Context t))) with 1. lia. Qed.
Lemma zlen_body_uint v : 1 ≤ zlen (body_of (VUint v)).
Proof. cbn [body_of]. rewrite zlen_le_bytes. destruct (uint_class v) as [|[|[|] ] ]; cbn; lia. Qed.
Lemma zlen_body_blob b : 1 + zlen b ≤ zlen (body_of (VBytes b)).
Proof. cbn [body_of]. rewrite zlen_app, zlen_le_bytes. unfold len_class, class_width. repeat case_match; lia. Qed.
Lemma zlen_enc_elem t v : 1 + zlen (body_of v) ≤ zlen (enc_elem t v).
Proof. unfold enc_elem. rewrite zlen_cons, zlen_app. pose proof (zlen_nonneg (tag_bytes t)). lia. Qed.

Abbreviation dn_cost := (sum_of attr_cost).
Abbreviation exts_cost := (sum_of ext_cost).

Lemma parse_dn_pays : pays parse_dn (Forall attr_ok) dn_cost 0.
Proof.
  apply walk_pays; [|constructor]. intros l [tag v] Hl [Ht Hv] _. unfold dn_step. cbn [el_value el_tag] in *.
  destruct v as [|v|?|?|?|s|?| | | | |]; try apply pays_throw; destruct tag as [|t| | | | | |]; try apply pays_throw;
    (apply pays_ret; [apply Forall_app; split; [done|]; apply Forall_singleton; split; [done|exact Hv]|]);
    rewrite sum_of_snoc, zlen_context; unfold attr_cost; cbn [dn_value].
  - pose proof (zlen_body_uint v). lia.
  - pose proof (zlen_body_blob s); pose proof (zlen_nonneg s). cbn [body_of] in *. lia.
Qed.

(** A nested walk that only counts. *)
Lemma pays_free {E A} (m : M Reader E A) Q n : safe m Q → 0 ≤ n → pays m Q (λ _, 0) n.
Proof.
  intros Hm Hn r Hr. eapply wp_mono; [by apply Hm|..]; cbn; [|done]. intros a r' [Hmv Ha].
  split; [done|]. split; [done|]. destruct Hmv. lia.
Qed.

Lemma safe_basic s el : from_option (in_u 8) True (snd s) → wf_element el →
  safe (basic_step s el) (λ s, from_option (in_u 8) True (snd s)).
Proof.
  intros Hs _. destruct s as [b o]. unfold basic_step. repeat case_match; try apply safe_throw; try by apply safe_ret.
  all: eapply (safe_bind _ _ (in_u 8)); [apply safe_lift|intros pl Hpl; by apply safe_ret].
  all: match goal with |- context [try_u 8 ?v] => destruct (try_u 8 v) as [u|] eqn:Hu; cbn; [|done] end.
  all: apply try_u_Some in Hu as [-> Hu]; exact Hu.
Qed.

Lemma try_u_pays {A} w v err (k : Z → A) (Q : A → Prop) cost n :
  (∀ u, in_u w u → Q (k u) ∧ cost (k u) ≤ n) →
  pays (E:=CertError) (let! u := lift (ok_or (try_u w v) err) in ret (k u)) Q cost n.
Proof.
  intros Hk. destruct (try_u w v) as [u|] eqn:Hu; [|apply pays_throw].
  apply try_u_Some in Hu as [-> Hu]. destruct (Hk v Hu).
  change (pays (E:=CertError) (ret (k v)) Q cost n). by apply pays_ret.
Qed.

Lemma parse_extensions_pays : pays parse_extensions (Forall ext_ok) exts_cost 0.
Proof.
  apply walk_pays; [|constructor]. intros l [tag v] Hl [Ht Hv] _. unfold ext_step. cbn [el_value el_tag] in *.
  destruct tag as [|t| | | | | |]; try apply pays_throw. rewrite zlen_context.
  assert (Hadd : ∀ e n, ext_ok e → ext_cost e ≤ n →
    pays (E:=CertError) (ret (l ++ [e])) (Forall ext_ok) exts_cost (exts_cost l + n)).
  { intros e n He Hn. apply pays_ret; [apply Forall_app; split; [done|by apply Forall_singleton]|]. rewrite sum_of_snoc. lia. }
  assert (H0 : 0 ≤ exts_cost l) by apply sum_of_nonneg, ext_cost_nonneg. pose proof (zlen_nonneg (body_of v)).
  destruct v as [|v|?|?|?|?|b| | | | |]; repeat case_match; try apply pays_throw.
  - apply try_u_pays. intros u Hu. pose proof (zlen_body_uint v).
    split; [apply Forall_app; split; [done|by apply Forall_singleton]|]. rewrite sum_of_snoc. cbn [ext_cost]. lia.
  - pose proof (zlen_body_blob b). pose proof (zlen_nonneg b). apply Hadd; [done|cbn [ext_cost]; lia].
  - pose proof (zlen_body_blob b). pose proof (zlen_nonneg b). apply Hadd; [done|cbn [ext_cost]; lia].
  - eapply (pays_bind _ _ (λ s, from_option (in_u 8) True (snd s)) _ (λ _, exts_cost l + 40)).
    + intros r Hr. eapply wp_mono; [apply (walk_safe _ _ basic_step (λ s, from_option (in_u 8) True (snd s)))|..];
        cbn beta; try done; [intros; by apply safe_safe1, safe_basic|].
      intros s r' [Hm Hs]. split; [done|]. split; [done|]. destruct Hm. lia.
    + intros [b pl] Hpl. cbn [snd] in Hpl. destruct b as [b|]; [|apply pays_throw]. by apply Hadd.
  - eapply (pays_bind _ _ (Forall (in_u 64)) _ (λ v, exts_cost l + (40 + 12 * zlen v))).
    + intros r Hr. eapply wp_mono; [apply (walk_pays _ _ eku_step (Forall (in_u 64)) (λ v, 12 * zlen v) [])|..];
        cbn beta; try done.
      * intros s [tg w] Hs [_ Hw] _. cbn [el_value el_tag] in *. unfold eku_step. cbn [el_value].
        pose proof (zlen_enc_elem tg w). destruct w as [|w| | | | | | | | | |]; try apply pays_throw.
        pose proof (zlen_body_uint w).
        apply pays_ret; [apply Forall_app; split; [done|by apply Forall_singleton]|]. zl.
      * intros s r' (Hm & Hs & Hc). split; [done|]. split; [done|]. rewrite (zlen_nil (A:=Z)) in Hc. lia.
    + intros vs Hvs. by apply Hadd.
Qed.

Definition acc_ok (a : CertAcc) : Prop :=
  from_option (λ b, bytes_ok b ∧ small b) True (ca_serial a) ∧ from_option (Forall attr_ok) True (ca_issuer a) ∧
  from_option (in_u 32) True (ca_not_before a) ∧ from_option (in_u 32) True (ca_not_after a) ∧
  from_option (Forall attr_ok) True (ca_subject a) ∧
  from_option (λ b, bytes_ok b ∧ zlen b = 65) True (ca_pub_key a) ∧ Forall ext_ok (ca_extensions a) ∧
  from_option (λ b, bytes_ok b ∧ zlen b = 64) True (ca_signature a).

Definition acc_cost (a : CertAcc) : Z :=
  from_option zlen 0 (ca_serial a) + from_option (sum_of attr_cost) 0 (ca_issuer a) +
  from_option (sum_of attr_cost) 0 (ca_subject a) + sum_of ext_cost (ca_extensions a).

(** A child walk that replaces a field of the accumulator. *)
Lemma pays_after {A} (m : PR A) (k : A → CertAcc) (P : A → Prop) cost c0 n :
  pays m P cost 0 → (∀ x, P x → acc_ok (k x) ∧ acc_cost (k x) ≤ c0 + cost x) → c0 ≤ n →
  pays (let! x := m in ret (k x)) acc_ok acc_cost n.
Proof.
  intros Hm Hk Hn. eapply (pays_bind _ _ P _ (λ x, n + cost x)).
  - intros r Hr. eapply wp_mono; [by apply Hm|..]; cbn; [|done]. intros x r' (? & ? & ?). split_and!; [done..|lia].
  - intros x Hx. destruct (Hk x Hx). apply pays_ret; [done|lia].
Qed.

Ltac acc_solve :=
  unfold acc_ok; cbn [set_serial set_sig_algo set_issuer set_not_before set_not_after set_subject set_pubkey_algo
    set_curve set_pub_key set_extensions set_signature ca_serial ca_sig_algo ca_issuer ca_not_before ca_not_after
    ca_subject ca_pubkey_algo ca_curve ca_pub_key ca_extensions ca_signature from_option];
  repeat first [assumption | done | split; [first [assumption|done]|] ].
Ltac acc_lia :=
  unfold acc_cost; cbn [set_serial set_sig_algo set_issuer set_not_before set_not_after set_subject set_pubkey_algo
    set_curve set_pub_key set_extensions set_signature ca_serial ca_sig_algo ca_issuer ca_not_before ca_not_after
    ca_subject ca_pubkey_algo ca_curve ca_pub_key ca_extensions ca_signature from_option] in *; lia.

Lemma cert_step_pays a el : acc_ok a → wf_element el → el_value el ≠ VContainerEnd →
  pays (cert_step a el) acc_ok acc_cost (acc_cost a + 20 * zlen (enc_elem (el_tag el) (el_value el))).
Proof.
  intros (H1 & H2 & H3 & H4 & H5 & H6 & H7 & H8) [Ht Hv] _. destruct el as [tag v]. cbn [el_value el_tag] in *.
  unfold cert_step. cbn [el_value el_tag]. destruct tag as [|t| | | | | |]; try apply pays_throw. rewrite zlen_context.
  pose proof (zlen_nonneg (body_of v)).
  assert (Hc : 0 ≤ from_option zlen 0 (ca_serial a) ∧ 0 ≤ from_option dn_cost 0 (ca_issuer a) ∧
    0 ≤ from_option dn_cost 0 (ca_subject a) ∧ 0 ≤ exts_cost (ca_extensions a)).
  { split_and!; [destruct (ca_serial a); [apply zlen_nonneg|done]|
      destruct (ca_issuer a); [apply sum_of_nonneg, attr_cost_nonneg|done]|
      destruct (ca_subject a); [apply sum_of_nonneg, attr_cost_nonneg|done]|apply sum_of_nonneg, ext_cost_nonneg]. }
  destruct Hc as (C1 & C2 & C3 & C4).
  destruct v as [|v|?|?|?|?|b| | | | |]; repeat case_match; try apply pays_throw.
  all: try (apply pays_ret; [acc_solve|acc_lia]).
  all: try (apply try_u_pays; intros u Hu; split; [acc_solve|acc_lia]).
  all: try (unfold sized; case_match; [|apply pays_throw];
    match goal with Hn : (zlen _ =? _) = true |- _ => apply Z.eqb_eq in Hn end; destruct Hv;
    eapply (pays_bind _ _ (λ b', b' = b) _ (λ _, acc_cost a)); [apply pays_ret; [done|lia]|];
    intros ? ->; apply pays_ret; [acc_solve|acc_lia]).
  - pose proof (zlen_body_blob b). pose proof (zlen_nonneg b). destruct Hv. apply pays_ret; [acc_solve|acc_lia].
  - eapply pays_after; [apply parse_dn_pays| |instantiate (1 := acc_cost a); lia].
    intros d Hd. split; [acc_solve|acc_lia].
  - eapply pays_after; [apply parse_extensions_pays| |instantiate (1 := acc_cost a); lia].
    intros d Hd. split; [acc_solve|acc_lia].
  - eapply pays_after; [apply parse_dn_pays| |instantiate (1 := acc_cost a); lia].
    intros d Hd. split; [acc_solve|acc_lia].
Qed.

Lemma cert_of_ok a : acc_ok a →
  match cert_of a with Ok c => cert_ok c ∧ cert_cost c = acc_cost a | Err _ => True | _ => False end.
Proof.
  intros (H1 & H2 & H3 & H4 & H5 & H6 & H7 & H8). unfold cert_of.
  repeat case_match; try done; destruct a as [ [ser|] sa [iss|] [nb|] [na|] [sub|] pa cu [pk|] ex [sg|] ]; cbn in *; simplify_eq; try done.
  all: split; [do 7 (split; [assumption|]); assumption|done].
Qed.

(** Any bytes: no panic; and a certificate that parses is well-formed, its
    fields within what its octets pay for. *)
Lemma parse_pays b : bytes_ok b →
  match parse b with Ok c => cert_ok c ∧ cert_cost c ≤ 20 * MAX_CERT_TLV_LEN | Err _ => True | _ => False end.
Proof.
  intros Hb. unfold parse. destruct (Z.ltb_spec MAX_CERT_TLV_LEN (zlen b)) as [|Hlen]; [done|].
  assert (Hr : rd_ok (Reader_new b)).
  { unfold rd_ok; cbn. pose proof (zlen_nonneg b). unfold small, MAX_CERT_TLV_LEN in *. split_and!; [lia|lia|lia|done]. }
  assert (Hp : pays parse_cert_body cert_ok cert_cost 0).
  { eapply (pays_bind _ _ (λ _, True) _ (λ _, 0)).
    - apply pays_free; [|done]. intros r Hr0. eapply wp_mono; [by apply next_el_wp|..]; cbn; naive_solver.
    - intros el _. case_match; try apply pays_throw. eapply (pays_bind _ _ acc_ok _ acc_cost).
      + apply (walk_pays _ _ cert_step acc_ok acc_cost CertAcc_new); [exact cert_step_pays|].
        unfold acc_ok. cbn. by repeat split.
      + intros a Ha. apply pays_lift. pose proof (cert_of_ok a Ha) as Hc. destruct (cert_of a); try done.
        destruct Hc as [? ->]. done. }
  specialize (Hp _ Hr). unfold wp in Hp. destruct (parse_cert_body (Reader_new b)) as [r' [c|e| |] ]; try done.
  destruct Hp as (Hm & Hc & Hcost). split; [done|]. cbn in *. destruct Hm as [_ Hm]. cbn in Hm. lia.
Qed.

(** The outcome of a DER writer: at most [n] octets. *)
Definition fits (m : CE bytes) (n : Z) : Prop :=
  match m with Ok b => zlen b ≤ n | Err _ => True | _ => False end.

Lemma fits_bind {A} (m : CE A) k (P : A → Prop) n :
  match m with Ok a => P a | Err _ => True | _ => False end → (∀ a, P a → fits (k a) n) → fits (let? a := m in k a) n.
Proof. intros Hm Hk. destruct m; cbn; try done. by apply Hk. Qed.

Lemma fits_mono m n n' : fits m n → n ≤ n' → fits m n'.
Proof. intros Hm Hn. destruct m; cbn in *; try done. lia. Qed.

Lemma der_tlv_fits t c n : zlen c ≤ n → n ≤ 65535 → fits (der_tlv t c) (n + 4).
Proof.
  intros Hc Hn. pose proof (zlen_nonneg c). unfold der_tlv, fits.
  destruct (zlen c <? 128); [rewrite !zlen_cons; lia|]. destruct (zlen c <? 256); [rewrite !zlen_cons; lia|].
  destruct (Z.ltb_spec 65535 (zlen c)); [lia|]. rewrite !zlen_cons, zlen_app. unfold be_bytes.
  assert (zlen (rev (le_bytes 2 (zlen c))) = 2) as -> by (unfold zlen; by rewrite length_rev, length_le_bytes). lia.
Qed.

Abbreviation total := (sum_of (λ b : bytes, zlen b)).

Lemma zlen_concat l : zlen (concat l) = total l.
Proof. induction l as [|b l IH]; [done|]. cbn. unfold sum_of in *. cbn. rewrite zlen_app. lia. Qed.

Lemma der_seq_fits l n : total l ≤ n → n ≤ 65535 → fits (der_seq l) (n + 4).
Proof. intros Hl Hn. apply der_tlv_fits; [by rewrite zlen_concat|done]. Qed.

Lemma typed_value_fits o v n k : zlen o ≤ k → k ≤ 100 → fits v n → n ≤ 60000 → fits (typed_value o v) (n + k + 8).
Proof.
  intros Ho Hk Hv Hn. eapply (fits_bind _ _ (λ i, zlen i ≤ k + 4)); [apply (der_tlv_fits 6 o k); lia|]. intros i Hi.
  eapply (fits_bind _ _ (λ b, zlen b ≤ n)); [exact Hv|]. intros b Hb.
  eapply fits_mono; [apply (der_seq_fits _ (n + k + 4)); [cbn; lia|lia]|lia].
Qed.

Lemma try_map_fits {X} (f : X → CE bytes) (cost : X → Z) l :
  (∀ x, x ∈ l → fits (f x) (cost x)) →
  match try_map f l with Ok ys => total ys ≤ sum_of cost l | Err _ => True | _ => False end.
Proof.
  induction l as [|x l IH]; intros Hf; cbn [try_map]; [done|].
  pose proof (Hf x ltac:(by left)) as Hx. unfold fits in Hx. destruct (f x) as [y|e| |]; cbn [res_bind]; try done.
  specialize (IH (λ z Hz, Hf z (list_elem_of_further _ _ _ Hz))).
  destruct (try_map f l) as [ys|e| |]; cbn; try done. unfold sum_of in *. cbn. lia.
Qed.

Lemma length_digits base n v : length (digits base n v) = n.
Proof. revert v. induction n as [|n IH]; intros v; cbn; [done|]. rewrite length_app, IH. cbn. lia. Qed.
Lemma length_strip w l : (length (strip_zeros w l) ≤ length l)%nat.
Proof.
  induction l as [|d l IH]; [done|]. cbn [strip_zeros]. destruct d; try done. case_match; [|done]. cbn in *. lia.
Qed.
Lemma zlen_format_hex w v : zlen (format_hex w v) ≤ 16.
Proof. unfold format_hex, zlen. rewrite length_map. pose proof (length_strip w (digits 16 16 v)) as H. rewrite length_digits in H. lia. Qed.
Lemma zlen_format_dec w v : zlen (format_dec w v) ≤ 20.
Proof. unfold format_dec, zlen. rewrite length_map. pose proof (length_strip w (digits 10 20 v)) as H. rewrite length_digits in H. lia. Qed.

(** The arms of a match on literals, without computing what they hold. *)
Ltac dn_cases tac :=
  repeat match goal with
  | |- fits (Err _) _ => exact I
  | |- fits (typed_value _ _) _ => tac
  | |- fits (match ?k with _ => _ end) _ => destruct k
  end.

Lemma dn_atv_fits a : attr_cost a ≤ 50000 → fits (dn_atv a) (attr_cost a - 4).
Proof.
  destruct a as [t v]. unfold dn_atv, attr_cost. cbn [dn_tag dn_value]. intros Ha.
  assert (Hid : ∀ o w id, zlen o ≤ 12 → fits (typed_value o (utf8_string (format_hex w id))) (50 + 0 - 4)).
  { intros o w id Ho. eapply fits_mono; [apply (typed_value_fits _ _ 20 12); [done|done|apply (der_tlv_fits _ _ 16); [apply zlen_format_hex|done]|done]|done]. }
  assert (Htx : ∀ t s, zlen s ≤ 50000 → fits (typed_value COMMON_NAME (der_tlv t s)) (50 + zlen s - 4)).
  { intros t' s Hs. pose proof (zlen_nonneg s). eapply (fits_mono _ (zlen s + 4 + 3 + 8));
      [apply typed_value_fits; [done|done|apply (der_tlv_fits _ s (zlen s)); [done|lia]|lia]|lia]. }
  unfold hex16, hex8. destruct v as [id|s].
  - generalize (Z.land t 127). intros k. dn_cases ltac:(by apply Hid).
  - pose proof (zlen_nonneg s). destruct (negb (Z.land t 128 =? 0));
      generalize (Z.land t 127); intros k; dn_cases ltac:(apply Htx; lia).
Qed.

Lemma dn_rdn_fits a : attr_cost a ≤ 50000 → fits (dn_rdn a) (attr_cost a).
Proof.
  intros Ha. eapply (fits_bind _ _ (λ b, zlen b ≤ attr_cost a - 4)); [by apply (dn_atv_fits a)|].
  intros atv Hatv. eapply fits_mono; [apply (der_tlv_fits _ _ (attr_cost a - 4)); [|lia]|lia]. rewrite zlen_concat. cbn. lia.
Qed.

Lemma sum_of_elem {X} (f : X → Z) l x : (∀ x, 0 ≤ f x) → x ∈ l → f x ≤ sum_of f l.
Proof.
  intros Hf Hx. induction Hx as [x l|x y l Hx IH]; unfold sum_of in *; cbn; [|specialize (Hf y); lia].
  pose proof (sum_of_nonneg f l Hf). unfold sum_of in *. lia.
Qed.

(** [try_map] then a sequence, the pattern of names and extensions. *)
Lemma try_map_seq_fits {X} (f : X → CE bytes) cost l :
  (∀ x, 0 ≤ cost x) → (∀ x, cost x ≤ 50000 → fits (f x) (cost x)) → sum_of cost l ≤ 50000 →
  fits (let? ys := try_map f l in der_seq ys) (sum_of cost l + 4).
Proof.
  intros Hc Hf Hl. eapply (fits_bind _ _ (λ ys, total ys ≤ sum_of cost l)).
  - apply try_map_fits. intros x Hx. apply Hf. pose proof (sum_of_elem cost l x Hc Hx). lia.
  - intros ys Hys. apply der_seq_fits; [exact Hys|lia].
Qed.

(** Sequencing of writers, as [fits]. *)
Lemma fits_let m k n n' : fits m n → (∀ b, zlen b ≤ n → fits (k b) n') → fits (let? b := m in k b) n'.
Proof. intros Hm Hk. by apply (fits_bind m k (λ b, zlen b ≤ n)). Qed.

Lemma critical_ext_fits o v n : zlen o ≤ 3 → zlen v ≤ n → n ≤ 60000 → fits (critical_ext o v) (n + 20).
Proof.
  intros Ho Hv Hn. pose proof (zlen_nonneg v). eapply fits_let; [apply (der_tlv_fits _ o 3); lia|]. intros i Hi.
  eapply fits_let; [apply (der_tlv_fits _ [0xFF] 1); done|]. intros t Ht.
  eapply fits_let; [apply (der_tlv_fits _ v n); lia|]. intros b Hb.
  eapply fits_mono; [apply (der_seq_fits _ (n + 16)); [cbn; lia|lia]|lia].
Qed.
Lemma plain_ext_fits o v n : zlen o ≤ 3 → zlen v ≤ n → n ≤ 60000 → fits (plain_ext o v) (n + 20).
Proof.
  intros Ho Hv Hn. pose proof (zlen_nonneg v). eapply fits_let; [apply (der_tlv_fits _ o 3); lia|]. intros i Hi.
  eapply fits_let; [apply (der_tlv_fits _ v n); lia|]. intros b Hb.
  eapply fits_mono; [apply (der_seq_fits _ (n + 16)); [cbn; lia|lia]|lia].
Qed.

Lemma eku_oid_fits v : fits (eku_oid v) 12.
Proof.
  unfold eku_oid. eapply (fits_bind _ _ (λ _, True)); [by repeat case_match|]. intros x _.
  apply (der_tlv_fits _ _ 8); [|done]. by rewrite zlen_app.
Qed.

Lemma key_usage_bits_len bits : zlen (snd (key_usage_bits bits)) ≤ 2.
Proof.
  unfold key_usage_bits. destruct (key_usage_loop 16 bits (0, 0, None)) as [ [b0 b1] [h|] ]; cbn [snd]; [|done].
  unfold zlen. rewrite length_take. cbn. lia.
Qed.

Lemma sum_of_const {X} (l : list X) k : sum_of (λ _, k) l = k * zlen l.
Proof. induction l as [|x l IH]; [rewrite (zlen_nil (A:=X)); cbn; lia|]. rewrite zlen_cons. unfold sum_of in *. cbn. lia. Qed.

Lemma extension_der_fits e : ext_cost e ≤ 50000 → fits (extension_der e) (ext_cost e).
Proof.
  destruct e as [is_ca pl|bits|l|id|id]; cbn [extension_der ext_cost]; intros He.
  - eapply (fits_bind _ _ (λ l, total l ≤ 5)); [by destruct is_ca|]. intros ca Hca.
    eapply (fits_bind _ _ (λ l, total l ≤ 5)); [by destruct pl|]. intros p Hp.
    eapply fits_let; [apply (der_seq_fits _ 10); [rewrite sum_of_app; lia|done]|]. intros v Hv.
    eapply fits_mono; [by apply (critical_ext_fits _ _ 14)|done].
  - pose proof (key_usage_bits_len bits) as Hk. destruct (key_usage_bits bits) as [u b]. cbn in Hk.
    eapply fits_let; [apply (der_tlv_fits _ _ 3); [rewrite zlen_cons; lia|done]|]. intros v Hv.
    eapply fits_mono; [by apply (critical_ext_fits _ _ 7)|done].
  - pose proof (zlen_nonneg l). eapply (fits_bind _ _ (λ ys, total ys ≤ 12 * zlen l)).
    { rewrite <-(sum_of_const l 12). apply try_map_fits. intros x _. apply eku_oid_fits. }
    intros ys Hys. eapply fits_let; [apply (der_seq_fits _ (12 * zlen l)); lia|]. intros v Hv.
    eapply fits_mono; [apply (critical_ext_fits _ _ (12 * zlen l + 4)); [done|lia|lia]|lia].
  - eapply fits_let; [apply (der_tlv_fits _ _ (zlen id)); lia|]. intros v Hv.
    eapply fits_mono; [apply (plain_ext_fits _ _ (zlen id + 4)); [done|lia|lia]|lia].
  - pose proof (zlen_nonneg id). eapply fits_let; [apply (der_tlv_fits _ _ (zlen id)); lia|]. intros k Hk.
    eapply fits_let; [apply (der_seq_fits _ (zlen id + 4)); [cbn; lia|lia]|]. intros v Hv.
    eapply fits_mono; [apply (plain_ext_fits _ _ (zlen id + 8)); [done|lia|lia]|lia].
Qed.

Lemma asn1_time_fits e : fits (asn1_time e) 125.
Proof.
  unfold asn1_time. destruct (e =? 0).
  { eapply fits_mono; [apply (der_tlv_fits _ _ 15); done|done]. }
  destruct (civil_from_days _) as [ [y m] d]. cbv zeta.
  assert (Hrest : ∀ w y a b c d e, zlen (format_dec w y ++ format_dec 2 a ++ format_dec 2 b ++ format_dec 2 c ++ format_dec 2 d ++ format_dec 2 e ++ [90]) ≤ 121).
  { intros w y' a b c d' e'. rewrite !zlen_app. pose proof (zlen_format_dec w y'). pose proof (zlen_format_dec 2 a).
    pose proof (zlen_format_dec 2 b). pose proof (zlen_format_dec 2 c). pose proof (zlen_format_dec 2 d').
    pose proof (zlen_format_dec 2 e'). change (zlen [90]) with 1. lia. }
  destruct ((1950 <=? y) && (y <=? 2049)); (apply (der_tlv_fits _ _ 121); [apply Hrest|done]).
Qed.

Lemma spki_der_fits k : zlen k ≤ 100 → fits (spki_der k) 150.
Proof.
  intros Hk. eapply fits_let; [apply (der_tlv_fits _ _ 7); done|]. intros a Ha.
  eapply fits_let; [apply (der_tlv_fits _ _ 8); done|]. intros b Hb.
  eapply fits_let; [apply (der_seq_fits _ 23); [cbn; lia|done]|]. intros c Hc.
  eapply fits_let; [apply (der_tlv_fits _ _ 101); [rewrite zlen_cons; lia|done]|]. intros d Hd.
  eapply fits_mono; [apply (der_seq_fits _ 132); [cbn; lia|done]|done].
Qed.

Lemma tbs_der_fits c : zlen (mc_pub_key c) ≤ 100 → cert_cost c ≤ 50000 → fits (tbs_der c) (cert_cost c + 600).
Proof.
  intros Hk Hc. unfold cert_cost in *.
  pose proof (sum_of_nonneg attr_cost (mc_issuer c) attr_cost_nonneg).
  pose proof (sum_of_nonneg attr_cost (mc_subject c) attr_cost_nonneg).
  pose proof (sum_of_nonneg ext_cost (mc_extensions c) ext_cost_nonneg). pose proof (zlen_nonneg (mc_serial c)).
  eapply fits_let; [apply (try_map_seq_fits dn_rdn attr_cost); [exact attr_cost_nonneg|apply dn_rdn_fits|lia]|]. intros iss Hi.
  eapply fits_let; [apply (try_map_seq_fits dn_rdn attr_cost); [exact attr_cost_nonneg|apply dn_rdn_fits|lia]|]. intros sub Hs.
  eapply fits_let; [apply asn1_time_fits|]. intros nb Hnb. eapply fits_let; [apply asn1_time_fits|]. intros na Hna.
  eapply (fits_bind _ _ (λ ys, total ys ≤ sum_of ext_cost (mc_extensions c))).
  { apply try_map_fits. intros e He. apply extension_der_fits. pose proof (sum_of_elem ext_cost _ e ext_cost_nonneg He). lia. }
  intros exts Hexts. eapply fits_let; [apply (der_seq_fits _ (sum_of ext_cost (mc_extensions c))); lia|]. intros es Hes.
  eapply fits_let; [by apply spki_der_fits|]. intros spki Hspki.
  eapply fits_let; [apply (der_tlv_fits _ [2] 1); done|]. intros v3 Hv3.
  eapply fits_let; [apply (der_tlv_fits _ v3 5); [exact Hv3|done]|]. intros ver Hver.
  eapply fits_let; [apply (der_tlv_fits _ (mc_serial c) (zlen (mc_serial c))); lia|]. intros ser Hser.
  eapply fits_let; [apply (der_tlv_fits _ ECDSA_WITH_SHA256 8); done|]. intros so Hso.
  eapply fits_let; [apply (der_seq_fits [so] 12); [cbn; lia|done]|]. intros sa Hsa.
  eapply fits_let; [apply (der_seq_fits [nb; na] 250); [cbn; lia|done]|]. intros va Hva.
  eapply fits_let; [apply (der_tlv_fits _ es (sum_of ext_cost (mc_extensions c) + 4)); lia|]. intros ex Hex.
  eapply fits_mono; [apply (der_seq_fits _ (zlen (mc_serial c) + sum_of attr_cost (mc_issuer c) + sum_of attr_cost (mc_subject c) +
    sum_of ext_cost (mc_extensions c) + 500)); [cbn; lia|lia]|lia].
Qed.

(** ** Proofs: no writer fails on what it supports *)

Definition no_err (m : CE bytes) : Prop := match m with Err _ => False | _ => True end.

Lemma no_err_bind {A} (m : CE A) k :
  match m with Err _ => False | _ => True end → (∀ a, no_err (k a)) → no_err (let? a := m in k a).
Proof. intros Hm Hk. destruct m; [apply Hk|done..]. Qed.

Lemma no_err_tlv t c : no_err (der_tlv t c).
Proof. unfold der_tlv, no_err. by repeat case_match. Qed.

Lemma try_map_no_err {X} (f : X → CE bytes) l :
  Forall (λ x, no_err (f x)) l → match try_map f l with Err _ => False | _ => True end.
Proof.
  induction 1 as [|x l Hx _ IH]; [done|]. cbn. unfold no_err in Hx. destruct (f x); cbn; try done.
  by destruct (try_map f l).
Qed.

(** The names and the purposes the DER form knows. *)
Definition attr_known (a : DnAttr) : Prop :=
  match dn_value a with
  | MatterId _ => 17 ≤ Z.land (dn_tag a) 0x7F ≤ 22
  | DnText _ => Z.land (dn_tag a) 0x7F = 1
  end.
Definition ext_known (e : CertExtension) : Prop :=
  match e with ExtendedKeyUsage l => Forall (λ v, 1 ≤ v ≤ 6) l | _ => True end.

Lemma no_err_typed o v : no_err v → no_err (typed_value o v).
Proof.
  intros Hv. apply no_err_bind; [apply no_err_tlv|]. intros i. apply no_err_bind; [exact Hv|].
  intros b. apply no_err_tlv.
Qed.

Lemma no_err_rdn a : attr_known a → no_err (dn_rdn a).
Proof.
  intros Ha. apply no_err_bind; [|intros b; apply no_err_tlv]. change (no_err (dn_atv a)).
  destruct a as [t [id|s] ]; unfold attr_known, dn_atv in *; cbn [dn_tag dn_value] in *.
  - assert (Z.land t 127 = 17 ∨ Z.land t 127 = 18 ∨ Z.land t 127 = 19 ∨ Z.land t 127 = 20 ∨
            Z.land t 127 = 21 ∨ Z.land t 127 = 22) as Hc by lia.
    destruct Hc as [->|[->|[->|[->|[->| ->] ] ] ] ]; apply no_err_typed, no_err_tlv.
  - rewrite Ha. apply no_err_typed. destruct (negb _); apply no_err_tlv.
Qed.

Lemma no_err_name l : Forall attr_known l → no_err (dn_name l).
Proof.
  intros Hl. apply no_err_bind; [|intros ys; apply no_err_tlv]. apply try_map_no_err.
  eapply Forall_impl; [exact Hl|]. apply no_err_rdn.
Qed.

Lemma no_err_critical o v : no_err (critical_ext o v).
Proof. repeat (apply no_err_bind; [apply no_err_tlv|intros ?]). apply no_err_tlv. Qed.
Lemma no_err_plain o v : no_err (plain_ext o v).
Proof. repeat (apply no_err_bind; [apply no_err_tlv|intros ?]). apply no_err_tlv. Qed.

Lemma no_err_ext e : ext_known e → no_err (extension_der e).
Proof.
  destruct e as [ca pl|bits|l|id|id]; cbn [extension_der ext_known]; intros He.
  - apply no_err_bind; [by destruct ca|]. intros c. apply no_err_bind; [by destruct pl|]. intros p.
    apply no_err_bind; [apply no_err_tlv|]. intros v. apply no_err_critical.
  - destruct (key_usage_bits bits). apply no_err_bind; [apply no_err_tlv|]. intros v. apply no_err_critical.
  - apply no_err_bind.
    { apply try_map_no_err. eapply Forall_impl; [exact He|]. intros v Hv. cbv beta in Hv.
      assert (v = 1 ∨ v = 2 ∨ v = 3 ∨ v = 4 ∨ v = 5 ∨ v = 6) as [->|[->|[->|[->|[->| ->] ] ] ] ] by lia;
        apply no_err_tlv. }
    intros ys. apply no_err_bind; [apply no_err_tlv|]. intros v. apply no_err_critical.
  - apply no_err_bind; [apply no_err_tlv|]. intros v. apply no_err_plain.
  - apply no_err_bind; [apply no_err_tlv|]. intros k. apply no_err_bind; [apply no_err_tlv|]. intros v. apply no_err_plain.
Qed.

Lemma no_err_time e : no_err (asn1_time e).
Proof. unfold asn1_time. destruct (e =? 0); [apply no_err_tlv|]. destruct (civil_from_days _) as [ [y m] d]. case_match; apply no_err_tlv. Qed.

Lemma no_err_tbs c : Forall attr_known (mc_issuer c) → Forall attr_known (mc_subject c) →
  Forall ext_known (mc_extensions c) → no_err (tbs_der c).
Proof.
  intros Hi Hs He. apply no_err_bind; [by apply no_err_name|]. intros i. apply no_err_bind; [by apply no_err_name|]. intros s.
  apply no_err_bind; [apply no_err_time|]. intros nb. apply no_err_bind; [apply no_err_time|]. intros na.
  apply no_err_bind; [by apply try_map_no_err; eapply Forall_impl; [exact He|apply no_err_ext]|]. intros exts.
  apply no_err_bind; [apply no_err_tlv|]. intros es.
  apply no_err_bind; [repeat (apply no_err_bind; [apply no_err_tlv|intros ?]); apply no_err_tlv|]. intros spki.
  repeat (apply no_err_bind; [apply no_err_tlv|intros ?]). apply no_err_tlv.
Qed.

(** A certificate of known names within the size bound has a DER form. *)
Lemma tbs_der_Ok c : Forall attr_known (mc_issuer c) → Forall attr_known (mc_subject c) →
  Forall ext_known (mc_extensions c) → zlen (mc_pub_key c) ≤ 100 → cert_cost c ≤ 50000 →
  ∃ tbs, tbs_der c = Ok tbs.
Proof.
  intros Hi Hs He Hk Hc. pose proof (no_err_tbs c Hi Hs He) as Hn. pose proof (tbs_der_fits c Hk Hc) as Hf.
  unfold no_err, fits in *. destruct (tbs_der c); try done. eauto.
Qed.

(** ** The chain check, declaratively *)

(** Both directions by cases, with the equations at hand. *)
Ltac iff_solve :=
  split; intros;
  repeat match goal with H : _ ∧ _ |- _ => destruct H | H : ∃ _, _ |- _ => destruct H end;
  simplify_eq; try done; try congruence; try solve [repeat split; eauto; congruence].

Section chain.
Context `{Ec : Ecdsa}.

(** [c]'s DER form is signed by the key [pk]. *)
Definition signed_under (c : MatterCert) (pk : bytes) : Prop :=
  ∃ tbs, tbs_der c = Ok tbs ∧ vk_from_sec1 pk = true ∧ sig_from_slice (mc_signature c) = true ∧
    vk_verify pk tbs (mc_signature c) = true.

(** A CA certificate: the basic constraint, and a key usage with keyCertSign. *)
Definition ca_cert (c : MatterCert) : Prop :=
  (∃ pl, basic_constraints c = Some (true, pl)) ∧ ∃ bits, key_usage c = Some bits ∧ Z.testbit bits 5 = true.

(** An end-entity certificate: digitalSignature and neither keyCertSign nor
    cRLSign, for client and server authentication. *)
Definition leaf_cert (c : MatterCert) : Prop :=
  (∃ pl, basic_constraints c = Some (false, pl)) ∧
  (∃ bits, key_usage c = Some bits ∧ Z.testbit bits 0 = true ∧ Z.testbit bits 5 = false ∧ Z.testbit bits 6 = false) ∧
  ∃ purposes, eku_of (mc_extensions c) = Some purposes ∧ 2 ∈ purposes ∧ 1 ∈ purposes.

(** The intermediate CA sits under the root, may not issue further CAs, and the
    root allows one. *)
Definition icac_ok (ica rcac : MatterCert) : Prop :=
  signed_under ica (mc_pub_key rcac) ∧ mc_issuer ica = mc_subject rcac ∧ ca_cert ica ∧
  (∀ ca pl, basic_constraints ica = Some (ca, Some pl) → pl = 0) ∧
  (∀ ca, basic_constraints rcac ≠ Some (ca, Some 0)).

Definition chain_ok (noc : MatterCert) (icac : option MatterCert) (rcac : MatterCert) : Prop :=
  let signer := default rcac icac in
  signed_under rcac (mc_pub_key rcac) ∧ ca_cert rcac ∧
  match icac with Some ica => icac_ok ica rcac | None => True end ∧
  signed_under noc (mc_pub_key signer) ∧ mc_issuer noc = mc_subject signer ∧ leaf_cert noc ∧
  is_Some (mc_node_id noc) ∧
  ∃ fabric, mc_fabric_id noc = Some fabric ∧
    ∀ ica a, icac = Some ica → mc_fabric_id ica = Some a → a = fabric.

Lemma verify_signed_by_iff c pk : verify_signed_by c pk = Ok () ↔ signed_under c pk.
Proof.
  unfold verify_signed_by, verify_ecdsa_p256, signed_under. destruct (tbs_der c) as [tbs|e| |]; cbn.
  2-4: split; [done|]; intros (? & ? & _); done.
  destruct (vk_from_sec1 pk) eqn:H1; cbn; [|split; [done|]; intros (? & _ & ? & _); congruence].
  destruct (sig_from_slice (mc_signature c)) eqn:H2; cbn; [|split; [done|]; intros (? & _ & _ & ? & _); congruence].
  destruct (vk_verify pk tbs (mc_signature c)) eqn:H3; cbn; (split; [|intros (? & [= <-] & _ & _ & ?); congruence]); [|done].
  intros _. by exists tbs.
Qed.

(** A single-bit mask. *)
Lemma mask_bit bits k : 0 ≤ k → (Z.land bits (2 ^ k) =? 0) = negb (Z.testbit bits k).
Proof.
  intros Hk. destruct (Z.testbit bits k) eqn:Hb; cbn.
  - apply Z.eqb_neq. intros Hl. assert (Z.testbit (Z.land bits (2 ^ k)) k = true) as Ht.
    { rewrite Z.land_spec, Hb, Z.pow2_bits_true; done. }
    by rewrite Hl, Z.bits_0 in Ht.
  - apply Z.eqb_eq, Z.bits_inj'. intros n Hn. rewrite Z.land_spec, Z.bits_0.
    destruct (decide (n = k)) as [->|]; [by rewrite Hb|]. rewrite Z.pow2_bits_false by lia. apply andb_false_r.
Qed.

Lemma mask_two_bits bits j k : 0 ≤ j → 0 ≤ k → 
  (Z.land bits (Z.lor (2 ^ j) (2 ^ k)) =? 0) = negb (Z.testbit bits j) && negb (Z.testbit bits k).
Proof.
  intros Hj Hk. rewrite <- (mask_bit bits j), <- (mask_bit bits k) by done. rewrite Z.land_lor_distr_r.
  destruct (Z.eqb_spec (Z.land bits (2 ^ j)) 0) as [->|Hn]; [by rewrite Z.lor_0_l|].
  cbn. apply Z.eqb_neq. intros Hz. by apply Z.lor_eq_0_iff in Hz as [? _].
Qed.

#[local] Arguments Z.testbit : simpl never.

Lemma check_ca_cert_iff c s t : check_ca_cert c s t = Ok () ↔ ca_cert c.
Proof.
  unfold check_ca_cert, ca_cert. change KEY_USAGE_KEY_CERT_SIGN with (2 ^ 5).
  destruct (basic_constraints c) as [ [ [|] pl]|]; [|iff_solve..].
  destruct (key_usage c) as [bits|]; [|iff_solve]. rewrite mask_bit by done.
  destruct (Z.testbit bits 5) eqn:Hb; cbn; iff_solve.
Qed.

Lemma check_noc_leaf_iff c : check_noc_leaf c = Ok () ↔ leaf_cert c.
Proof.
  unfold check_noc_leaf, leaf_cert. destruct (basic_constraints c) as [ [ [|] pl]|]; [iff_solve| |iff_solve].
  destruct (key_usage c) as [bits|]; cbn [ok_or res_bind]; [|iff_solve].
  change KEY_USAGE_DIGITAL_SIGNATURE with (2 ^ 0). change KEY_USAGE_KEY_CERT_SIGN with (2 ^ 5).
  change KEY_USAGE_CRL_SIGN with (2 ^ 6). rewrite mask_bit, mask_two_bits by done.
  destruct (Z.testbit bits 0) eqn:H0; cbn [negb]; [|iff_solve].
  destruct (Z.testbit bits 5) eqn:H5; cbn [negb andb]; [iff_solve|].
  destruct (Z.testbit bits 6) eqn:H6; cbn [negb andb]; [iff_solve|].
  destruct (eku_of (mc_extensions c)) as [v|]; [|iff_solve].
  unfold EKU_CLIENT_AUTH, EKU_SERVER_AUTH. do 2 case_bool_decide; cbn; iff_solve.
Qed.

(** Sequencing of checks: both pass. *)
Lemma then_Ok {E A} (m : res E ()) (k : res E A) a P :
  (m = Ok () ↔ P) → (let? _ := m in k) = Ok a ↔ P ∧ k = Ok a.
Proof. intros HP. rewrite <- HP. destruct m as [ [] |e| |]; cbn; iff_solve. Qed.

Lemma and_known (P Q : Prop) : P → (P ∧ Q) ↔ Q.
Proof. tauto. Qed.

Lemma root_allows_iff rcac :
  match basic_constraints rcac with
  | Some (_, Some 0) => Err (CertMalformed "rcac path-len (0 forbids an icac)")
  | _ => Ok ()
  end = Ok () ↔ ∀ ca, basic_constraints rcac ≠ Some (ca, Some 0).
Proof.
  destruct (basic_constraints rcac) as [ [ca [ [|p|p]|] ]|]; (split; [|intros H]); try done.
  by destruct (H ca).
Qed.

Lemma check_icac_iff ica rcac : check_icac ica rcac = Ok () ↔ icac_ok ica rcac.
Proof.
  unfold check_icac, icac_ok. rewrite then_Ok by apply verify_signed_by_iff.
  apply and_iff_compat_l. case_bool_decide as Hd; cbn [negb]; [|iff_solve].
  rewrite (and_known _ _ Hd), then_Ok by apply check_ca_cert_iff.
  apply and_iff_compat_l. rewrite then_Ok; [by rewrite root_allows_iff|].
  destruct (basic_constraints ica) as [ [ca [pl|] ]|]; [|split; [|done]; intros _ ca' pl' He; congruence..].
  destruct (Z.eqb_spec pl 0) as [->|Hn]; cbn; (split; [|intros H]); try done.
  - intros _ ca' pl' [= _ <-]. done.
  - by specialize (H ca pl eq_refl).
Qed.

(** The identifiers of the leaf, against the intermediate's fabric. *)
Lemma chain_ids_iff (noc : MatterCert) icac :
  match mc_node_id noc, mc_fabric_id noc with
  | Some _, Some b =>
      match icac with
      | Some ica =>
          match mc_fabric_id ica with
          | Some a => if negb (a =? b) then Err (CertMalformed "fabric id mismatch in chain") else Ok ()
          | None => Ok ()
          end
      | None => Ok ()
      end
  | _, _ => Err (CertMalformed "noc missing node/fabric id")
  end = Ok () ↔
  is_Some (mc_node_id noc) ∧ ∃ fabric, mc_fabric_id noc = Some fabric ∧
    ∀ ica a, icac = Some ica → mc_fabric_id ica = Some a → a = fabric.
Proof.
  destruct (mc_node_id noc) as [n|]; [|split; [done|]; intros [ [? ?] _]; done].
  destruct (mc_fabric_id noc) as [f|]; [|split; [done|]; intros (_ & ? & ? & _); done].
  destruct icac as [ica|]; [|split; [intros _; split; [by eexists|]; eexists; split; [done|]; by intros ??|done] ].
  destruct (mc_fabric_id ica) as [a|] eqn:Ha.
  - destruct (Z.eqb_spec a f) as [->|Hn]; cbn; split; intros H; try done.
    + split; [by eexists|]. exists f. split; [done|]. intros ? ? [= <-]. rewrite Ha. congruence.
    + destruct H as (_ & f' & [= <-] & H). by destruct Hn; eapply H.
  - split; [|done]. intros _. split; [by eexists|]. exists f. split; [done|]. intros ? ? [= <-]. by rewrite Ha.
Qed.
End chain.

(** ** A toy instance, for the witnesses *)

Module ToyEcdsa.
Definition sum (b : bytes) : Z := foldr Z.add 0 b mod 256.
Definition digest (pk m : bytes) : bytes := replicate 64 ((sum pk + sum m) mod 256).

#[export] Instance toy_ecdsa : Ecdsa := {
  vk_from_sec1 pk := zlen pk =? 65;
  sig_from_slice s := zlen s =? 64;
  vk_verify pk m s := bool_decide (s = digest pk m);
  sk_public sk := 4 :: replicate 64 (sum sk);
  sk_sign sk m := if zlen sk =? 32 then Some (digest (4 :: replicate 64 (sum sk)) m) else None
}.

#[export] Instance toy_ecdsa_laws : EcdsaLaws toy_ecdsa.
Proof.
  assert (Hr : ∀ n x, 0 ≤ x < 256 → bytes_ok (replicate n x)) by (intros n x Hx; by apply Forall_replicate).
  constructor.
  - intros sk. split; [done|]. cbn [sk_public toy_ecdsa]. constructor; [done|].
    apply Hr. unfold sum. apply Z.mod_pos_bound. lia.
  - intros sk m s. cbn [sk_sign toy_ecdsa]. case_match; [|done]. intros [= <-]. split; [done|].
    split; [apply Hr, Z.mod_pos_bound; lia|]. do 2 (split; [done|]). cbn. by rewrite bool_decide_true.
  - intros sk m m'. cbn [sk_sign toy_ecdsa]. case_match; [eauto|intros [? ?]; done].
Qed.

#[export] Instance toy_sha1 : Sha1 := λ b, replicate 20 (sum b).
#[export] Instance toy_sha1_laws : Sha1Laws.
Proof. constructor. intros b. split; [done|]. apply Forall_replicate, Z.mod_pos_bound. lia. Qed.

Definition key : bytes := replicate 32 7.
Definition rng : bytes := replicate 8 0x91.
Definition op_key : bytes := 4 :: replicate 64 9.
Definition rcac : MatterCert :=
  match generate_rcac key rng rng with
  | Ok (c, _) => c
  | _ => noc_template [] 0 0 {| mc_serial := []; mc_issuer := []; mc_not_before := 0; mc_not_after := 0;
           mc_subject := []; mc_pub_key := []; mc_extensions := []; mc_signature := [] |} [] [] CaseAuthTags_default
  end.
Definition noc : MatterCert :=
  match issue_noc_with_cats op_key 0x1B669 1 rcac key [1; 2; 3] [0x10001; 0x20005] with Ok c => c | _ => rcac end.
End ToyEcdsa.

Import ToyEcdsa.

(** ** Properties *)

(** A well-formed certificate within the size limit survives the wire: its
    TLV form parses back to every field, in order (so the DER form that its
    signature covers is the same), and nothing is lost or reordered. *)
Theorem cert_round_trip c b : cert_ok c → to_tlv c = Ok b → zlen b ≤ MAX_CERT_TLV_LEN →
  parse b = Ok c ∧ ∀ c', parse b = Ok c' → tbs_der c' = tbs_der c.
Proof.
  intros Hc Hb Hlen. rewrite to_tlv_at in Hb. assert (b = enc_tree (cert_tree c)) as -> by congruence.
  rewrite (parse_at c Hc Hlen).
  split; [done|]. by intros c' [= ->].
Qed.

(** A concrete instance: the NOC of the toy fabric. *)
Lemma cert_round_trip_witness : ∃ b, to_tlv noc = Ok b ∧ zlen b ≤ 300 ∧ parse b = Ok noc.
Proof.
  eexists. split; [vm_compute; reflexivity|]. split; [vm_compute; discriminate|].
  apply (cert_round_trip noc); [|vm_compute; reflexivity|vm_compute; discriminate].
  let c := eval vm_compute in noc in change noc with c. unfold cert_ok.
  cbn [mc_serial mc_issuer mc_not_before mc_not_after mc_subject mc_pub_key mc_extensions mc_signature].
  unfold attr_ok, ext_ok. repeat first [done | split | constructor].
Defined.

(** Any bytes at all: parsing a certificate ends in a value or an error, and
    whatever it yields has a DER form of less than 32 kB or none (an error), so
    [der_tlv]'s length assertion cannot fire on a certificate from the network. *)
Theorem cert_der_bounded b : bytes_ok b →
  match parse b with
  | Ok c => match tbs_der c with Ok tbs => zlen tbs < 32768 | Err _ => True | _ => False end
  | Err _ => True
  | _ => False
  end.
Proof.
  intros Hb. pose proof (parse_pays b Hb) as Hp. destruct (parse b) as [c|e| |]; try done.
  destruct Hp as [ (_ & _ & _ & _ & _ & [_ Hk] & _) Hcost]. unfold MAX_CERT_TLV_LEN in Hcost.
  pose proof (tbs_der_fits c ltac:(lia) ltac:(lia)) as Hf. unfold fits in Hf.
  destruct (tbs_der c); try done. lia.
Qed.

(** The toy NOC's octets, and octets that are no certificate. *)
Lemma cert_der_bounded_witness :
  (∃ b, to_tlv noc = Ok b ∧
    match parse b with
    | Ok c => match tbs_der c with Ok tbs => zlen tbs < 32768 | Err _ => True | _ => False end
    | Err _ => True
    | _ => False
    end) ∧
  match parse [0x15; 0x18] with
  | Ok c => match tbs_der c with Ok tbs => zlen tbs < 32768 | Err _ => True | _ => False end
  | Err _ => True
  | _ => False
  end.
Proof.
  split.
  - eexists. split; [vm_compute; reflexivity|]. apply cert_der_bounded. repeat constructor; done.
  - apply cert_der_bounded. repeat constructor; done.
Defined.

(** What the chain check decides. *)
Lemma chain_decided `{Ec : Ecdsa} noc icac rcac :
  verify_noc_chain noc icac rcac = Ok () ↔ chain_ok noc icac rcac.
Proof.
  unfold verify_noc_chain, chain_ok. cbv zeta. rewrite then_Ok by apply verify_signed_by_iff. apply and_iff_compat_l.
  rewrite then_Ok by apply check_ca_cert_iff. apply and_iff_compat_l.
  pose proof (chain_ids_iff noc icac) as Hids.
  destruct icac as [ica|]; cbn [default].
  - destruct (check_icac ica rcac) as [ []|e| |] eqn:Hi; cbn [res_bind].
    2-4: split; [done|]; intros (Ho%check_icac_iff & _); congruence.
    rewrite (and_known (icac_ok ica rcac)) by by apply check_icac_iff.
    rewrite then_Ok by apply verify_signed_by_iff. apply and_iff_compat_l.
    case_bool_decide as Hn; cbn [negb]; [|split; [done|intros [? _]; done] ]. rewrite (and_known _ _ Hn).
    rewrite then_Ok by apply check_noc_leaf_iff. by apply and_iff_compat_l.
  - cbn [res_bind]. rewrite (and_known True) by done.
    rewrite then_Ok by apply verify_signed_by_iff. apply and_iff_compat_l.
    case_bool_decide as Hn; cbn [negb]; [|split; [done|intros [? _]; done] ]. rewrite (and_known _ _ Hn).
    rewrite then_Ok by apply check_noc_leaf_iff. by apply and_iff_compat_l.
Qed.

(** C36. [verify_noc_chain] accepts exactly the chains of the declarative
    specification: every signature verifies under its issuer's key and the root's
    under its own, the names link up, CA certificates may sign certificates, an
    intermediate has path length 0 under a root that allows one, the leaf is an
    end-entity certificate for client and server use, it names a node and a
    fabric, and an intermediate bound to a fabric is bound to that one. *)
Theorem verify_noc_chain_decides `{Ec : Ecdsa} noc icac rcac :
  verify_noc_chain noc icac rcac = Ok () ↔ chain_ok noc icac rcac.
Proof. apply chain_decided. Qed.

(** A certificate that [sign_cert] signs is signed under the signer's key. *)
Lemma sign_cert_at `{Ec : Ecdsa} `{!EcdsaLaws Ec} sk c :
  is_Some (sk_sign sk []) → Forall attr_known (mc_issuer c) → Forall attr_known (mc_subject c) →
  Forall ext_known (mc_extensions c) → zlen (mc_pub_key c) ≤ 100 → cert_cost c ≤ 50000 →
  ∃ s, sign_cert sk c = Ok (with_signature s c) ∧ signed_under (with_signature s c) (sk_public sk).
Proof.
  intros Hsk Hi Hs He Hk Hc. destruct (tbs_der_Ok c Hi Hs He Hk Hc) as [tbs Htbs].
  destruct (sk_sign_all sk [] tbs Hsk) as [s Hsig]. exists s.
  unfold sign_cert, sign_ecdsa_p256. rewrite Htbs. cbn [res_bind]. rewrite Hsig. cbn. split; [done|].
  destruct (sk_sign_verifies sk tbs s Hsig) as (_ & _ & H1 & H2 & H3). by exists tbs.
Qed.

Lemma raw_cats_map l : Forall (in_u 32) l →
  raw_cats (map (λ cat, {| dn_tag := 22; dn_value := MatterId cat |}) l) = Ok l.
Proof.
  induction 1 as [|c l Hc _ IH]; [done|]. cbn [map raw_cats dn_tag dn_value negb].
  rewrite (proj2 (try_u_Some 32 c c) (conj eq_refl Hc)). cbn. by rewrite IH.
Qed.

Lemma sum_attr_ids {X} (f : X → Z) t l :
  sum_of attr_cost (map (λ x, {| dn_tag := t; dn_value := MatterId (f x) |}) l) = 50 * zlen l.
Proof.
  induction l as [|x l IH]; [rewrite (zlen_nil (A:=X)); done|]. rewrite zlen_cons. cbn in *. unfold sum_of in *.
  cbn. rewrite IH. unfold attr_cost. cbn. lia.
Qed.

Lemma cats_new_len l t : CaseAuthTags_new l = Some t → zlen l ≤ 3.
Proof. unfold CaseAuthTags_new, CaseAuthTags_MAX. destruct (Z.ltb_spec 3 (zlen l)); [done|lia]. Qed.

Section issuing.
Context `{Ec : Ecdsa} `{!EcdsaLaws Ec} `{Hs : Sha1} `{!Sha1Laws}.

Lemma zlen_skid k : zlen (subject_key_id k) = 20.
Proof. apply sha1_length. Qed.

(** The root: signed under its own key, and a CA. *)
Lemma generate_rcac_at sk rcac_id serial : is_Some (sk_sign sk []) → zlen serial ≤ 100 →
  ∃ rcac, generate_rcac sk rcac_id serial = Ok (rcac, sk) ∧ signed_under rcac (mc_pub_key rcac) ∧ ca_cert rcac ∧
    mc_pub_key rcac = sk_public sk ∧ mc_subject rcac = [ {| dn_tag := 20; dn_value := MatterId (le_val rcac_id) |} ] ∧
    skid_of (mc_extensions rcac) = Some (subject_key_id (sk_public sk)).
Proof.
  intros Hsk Hlen. unfold generate_rcac. cbv zeta.
  match goal with |- context [sign_cert _ ?c] => edestruct (sign_cert_at sk c Hsk) as (s & -> & Hsig) end.
  - repeat constructor; done.
  - repeat constructor; done.
  - repeat constructor.
  - cbn [mc_pub_key]. rewrite (proj1 (sk_public_key sk)). done.
  - unfold cert_cost. cbn [mc_serial mc_issuer mc_subject mc_extensions sum_of foldr ext_cost attr_cost dn_value].
    rewrite zlen_skid. assert (zlen (random_serial serial) = zlen serial) as -> by by destruct serial. unfold attr_cost. cbn [dn_value]. lia.
  - eexists. split; [done|]. split; [exact Hsig|]. split; [|done].
    split; [by eexists|]. eexists. split; [done|]. done.
Qed.

(** The issued leaf, under any issuer with a subject key id and a known name. *)
Lemma issue_noc_at sk op node fab issuer skid serial tags t :
  is_Some (sk_sign sk []) → zlen serial ≤ 100 → zlen op = 65 → CaseAuthTags_new tags = Some t →
  skid_of (mc_extensions issuer) = Some skid → zlen skid = 20 →
  Forall attr_known (mc_subject issuer) → sum_of attr_cost (mc_subject issuer) ≤ 1000 →
  ∃ noc, issue_noc_with_cats op node fab issuer sk serial tags = Ok noc ∧ signed_under noc (sk_public sk) ∧
    mc_issuer noc = mc_subject issuer ∧ leaf_cert noc ∧ mc_pub_key noc = op ∧
    mc_subject noc = [ {| dn_tag := 17; dn_value := MatterId node |}; {| dn_tag := 21; dn_value := MatterId fab |} ] ++
      map (λ cat, {| dn_tag := 22; dn_value := MatterId cat |}) tags.
Proof.
  intros Hsk Hlen Hop Ht Hskid Hslen Hknown Hcost. unfold issue_noc_with_cats. rewrite Ht, Hskid. cbn [ok_or res_bind].
  pose proof (cats_iter_new tags t Ht) as Hiter. pose proof (cats_new_len tags t Ht) as Htl.
  edestruct (sign_cert_at sk (noc_template op node fab issuer serial skid t) Hsk) as (s & -> & Hsig).
  - exact Hknown.
  - cbn [noc_template mc_subject]. rewrite Hiter. apply Forall_app. split; [repeat constructor; done|].
    apply List.Forall_map, Forall_forall. done.
  - repeat constructor; done.
  - cbn [noc_template mc_pub_key]. lia.
  - unfold cert_cost. cbn [noc_template mc_serial mc_issuer mc_subject mc_extensions]. rewrite sum_of_app, Hiter.
    rewrite (sum_attr_ids (λ x, x)). cbn [sum_of foldr ext_cost attr_cost dn_value]. rewrite zlen_skid, Hslen.
    change (zlen [EKU_CLIENT_AUTH; EKU_SERVER_AUTH]) with 2. unfold sum_of in Hcost |- *. unfold attr_cost at 2 3. cbn [dn_value]. lia.
  - eexists. split; [done|]. split; [exact Hsig|]. split; [done|]. split.
    + split; [by eexists|]. split; [by eexists|]. eexists. split; [done|].
      split; [by left|by right; left].
    + split; [done|]. cbn. by rewrite Hiter.
Qed.

(** *** What is generated fits the wire *)

Definition wire_ok (c : MatterCert) : Prop := cert_ok c ∧ zlen (enc_tree (cert_tree c)) ≤ MAX_CERT_TLV_LEN.

Lemma wire_round c : wire_ok c → ∃ b, to_tlv c = Ok b ∧ bytes_ok b ∧ zlen b ≤ 1024 ∧ parse b = Ok c.
Proof.
  intros [Hc Hl]. exists (enc_tree (cert_tree c)). split; [apply to_tlv_at|]. split; [|split; [done|by apply parse_at] ].
  apply enc_tree_ok, wf_anon_node. by apply wf_cert_children.
Qed.

Abbreviation size t := (zlen (enc_tree t)).

Lemma size_node tag k ch : size (Tlv.Node tag k ch) ≤ 10 + sum_of (λ t, size t) ch.
Proof.
  cbn [enc_tree]. unfold enc_elem. rewrite !zlen_app, zlen_cons, zlen_app. pose proof (zlen_tag tag).
  assert (zlen (body_of (start_of k)) = 0) as -> by by destruct k.
  assert (zlen (concat (map enc_tree ch)) = sum_of (λ t, size t) ch) as ->.
  { induction ch as [|t ch IH]; [done|]. cbn [map concat sum_of foldr]. by rewrite zlen_app, IH. }
  change (zlen [0x18]) with 1. lia.
Qed.

Lemma size_node_le tag k ch n : sum_of (λ t, size t) ch ≤ n - 10 → size (Tlv.Node tag k ch) ≤ n.
Proof. pose proof (size_node tag k ch). lia. Qed.

Lemma sum_cons (t : tree) ch n m : size t ≤ m → sum_of (λ t, size t) ch ≤ n - m → sum_of (λ t, size t) (t :: ch) ≤ n.
Proof. change (sum_of (λ t, size t) (t :: ch)) with (size t + sum_of (λ t, size t) ch). lia. Qed.

Lemma size_uint_le tag v n : 17 ≤ n → size (Leaf tag (VUint v)) ≤ n.
Proof. pose proof (zlen_uint_leaf tag v). lia. Qed.
Lemma size_bytes_le tag b n : 17 + zlen b ≤ n → size (Leaf tag (VBytes b)) ≤ n.
Proof. pose proof (zlen_bytes_leaf tag b). lia. Qed.
Lemma size_bool_le tag v n : 9 ≤ n → size (Leaf tag (VBool v)) ≤ n.
Proof. pose proof (zlen_tag tag). cbn [enc_tree]. unfold enc_elem. rewrite zlen_cons, zlen_app. change (zlen (body_of (VBool v))) with 0. lia. Qed.

Lemma sign_cert_inv sk c c' : sign_cert sk c = Ok c' → ∃ s, c' = with_signature s c ∧ bytes_ok s ∧ zlen s = 64.
Proof.
  unfold sign_cert, sign_ecdsa_p256. destruct (tbs_der c) as [tbs|e| |]; try done. cbn [res_bind].
  destruct (sk_sign sk tbs) as [s|] eqn:Hser; [|done]. cbn. intros [= <-]. exists s.
  by destruct (sk_sign_verifies sk tbs s Hser) as (? & ? & _).
Qed.

Definition id_attr (t v : Z) : DnAttr := {| dn_tag := t; dn_value := MatterId v |}.

(** A certificate of the shape both generators make: short serial, names of a
    few ids, the four or five extensions. *)
Lemma shape_wire_ok c :
  bytes_ok (mc_serial c) → zlen (mc_serial c) ≤ 100 → Forall attr_ok (mc_issuer c) → Forall attr_ok (mc_subject c) →
  in_u 32 (mc_not_before c) → in_u 32 (mc_not_after c) → bytes_ok (mc_pub_key c) → zlen (mc_pub_key c) = 65 →
  Forall ext_ok (mc_extensions c) → bytes_ok (mc_signature c) → zlen (mc_signature c) = 64 →
  sum_of (λ t, size t) (map attr_tree (mc_issuer c)) ≤ 60 → sum_of (λ t, size t) (map attr_tree (mc_subject c)) ≤ 60 →
  sum_of (λ t, size t) (map ext_tree (mc_extensions c)) ≤ 300 → wire_ok c.
Proof.
  intros Hser Hsl Hi Hsu Hb Ha Hk Hkl He Hg Hgl Hic Hsc Hec. split.
  - unfold cert_ok. split_and!; try done. unfold small. lia.
  - apply (size_node_le _ _ _ 1024). unfold cert_children.
    apply (sum_cons _ _ _ 117); [apply size_bytes_le; lia|]. apply (sum_cons _ _ _ 17); [by apply size_uint_le|].
    apply (sum_cons _ _ _ 70); [by apply size_node_le|]. do 2 (apply (sum_cons _ _ _ 17); [by apply size_uint_le|]).
    apply (sum_cons _ _ _ 70); [by apply size_node_le|]. do 2 (apply (sum_cons _ _ _ 17); [by apply size_uint_le|]).
    apply (sum_cons _ _ _ 82); [apply size_bytes_le; lia|]. apply (sum_cons _ _ _ 310); [by apply size_node_le|].
    apply (sum_cons _ _ _ 81); [apply size_bytes_le; lia|]. done.
Qed.

Lemma skid_ok k : ext_ok (SubjectKeyId (subject_key_id k)) ∧ ext_ok (AuthorityKeyId (subject_key_id k)).
Proof. destruct (sha1_length k) as [Hl Hb]. unfold ext_ok, subject_key_id, small. rewrite Hl. done. Qed.

Lemma size_skid c (id : bytes) n : zlen id = 20 → 37 ≤ n → size (Leaf c (VBytes id)) ≤ n.
Proof. intros Hl Hn. apply size_bytes_le. lia. Qed.

Lemma random_serial_ok b : bytes_ok b → bytes_ok (random_serial b) ∧ zlen (random_serial b) = zlen b.
Proof.
  destruct 1 as [|x l Hx Hl]; [done|]. split; [|done]. constructor; [|done]. unfold is_byte in *.
  change 127 with (Z.ones 7). rewrite Z.land_ones by done. change (2 ^ 7) with 128. pose proof (Z.mod_pos_bound x 128 eq_refl). lia.
Qed.

Lemma generate_rcac_wire sk id serial rcac sk' : bytes_ok serial → zlen serial ≤ 100 → in_u 64 (le_val id) →
  generate_rcac sk id serial = Ok (rcac, sk') → wire_ok rcac.
Proof.
  intros Hser Hl Hid. destruct (random_serial_ok serial Hser) as [Hrs Hrl]. unfold generate_rcac. cbv zeta.
  match goal with |- context [sign_cert _ ?c] => destruct (sign_cert sk c) as [r|e| |] eqn:Hr end; try done.
  cbn [res_bind]. intros [= <- _]. apply sign_cert_inv in Hr as (s & -> & Hsb & Hsl). destruct (sk_public_key sk) as [Hk Hkb].
  apply shape_wire_ok; cbn [mc_serial mc_issuer mc_subject mc_not_before mc_not_after mc_pub_key mc_extensions mc_signature with_signature]; try done.
  - lia.
  - by apply Forall_singleton.
  - by apply Forall_singleton.
  - pose proof (skid_ok (sk_public sk)) as [H1 H2]. repeat (apply Forall_cons; split); try done.
  - cbn [map]. apply (sum_cons _ _ _ 17); [by apply size_uint_le|done].
  - cbn [map]. apply (sum_cons _ _ _ 17); [by apply size_uint_le|done].
  - cbn [map]. apply (sum_cons _ _ _ 19); [apply size_node_le, (sum_cons _ _ _ 9); [by apply size_bool_le|done]|].
    apply (sum_cons _ _ _ 17); [by apply size_uint_le|]. pose proof (zlen_skid (sk_public sk)).
    apply (sum_cons _ _ _ 37); [by apply size_skid|]. apply (sum_cons _ _ _ 37); [by apply size_skid|done].
Qed.

Lemma issue_noc_wire sk op node fab issuer skid serial noc : bytes_ok serial → zlen serial ≤ 100 →
  bytes_ok op → zlen op = 65 → in_u 64 node → in_u 64 fab → Forall attr_ok (mc_subject issuer) →
  sum_of (λ t, size t) (map attr_tree (mc_subject issuer)) ≤ 60 →
  skid_of (mc_extensions issuer) = Some (subject_key_id skid) →
  issue_noc op node fab issuer sk serial = Ok noc → wire_ok noc.
Proof.
  intros Hser Hl Ho Hol Hn Hf Hi Hic Hsk. unfold issue_noc, issue_noc_with_cats. cbn [CaseAuthTags_new ok_or res_bind]. rewrite Hsk.
  cbn [ok_or res_bind]. intros (s & -> & Hsb & Hsl)%sign_cert_inv.
  apply shape_wire_ok; cbn [noc_template mc_serial mc_issuer mc_subject mc_not_before mc_not_after mc_pub_key mc_extensions mc_signature with_signature]; try done.
  - cbn. apply Forall_cons. split; [done|by apply Forall_singleton].
  - pose proof (skid_ok op) as [H1 _]. pose proof (skid_ok skid) as [_ H2].
    repeat (apply Forall_cons; split); try done.
  - cbn [map app]. do 2 (apply (sum_cons _ _ _ 17); [by apply size_uint_le|]). done.
  - cbn [map]. apply (sum_cons _ _ _ 19); [apply size_node_le, (sum_cons _ _ _ 9); [by apply size_bool_le|done]|].
    apply (sum_cons _ _ _ 17); [by apply size_uint_le|].
    apply (sum_cons _ _ _ 44); [apply size_node_le; cbn [map]; do 2 (apply (sum_cons _ _ _ 17); [by apply size_uint_le|]); done|].
    pose proof (zlen_skid op). pose proof (zlen_skid skid).
    apply (sum_cons _ _ _ 37); [by apply size_skid|]. apply (sum_cons _ _ _ 37); [by apply size_skid|done].
Qed.

(** A fresh root issues NOCs that devices accept: for a usable root key,
    [generate_rcac] succeeds, [issue_noc_with_cats] under it succeeds for every
    admissible tag list, [verify_noc_chain] accepts the pair, and the NOC carries
    the node id, the fabric id, the tags and the operational key asked for. *)
Theorem issued_noc_verifies sk rcac_id serial op node fab noc_serial tags t :
  is_Some (sk_sign sk []) → zlen serial ≤ 100 → zlen noc_serial ≤ 100 → zlen op = 65 →
  Forall (in_u 32) tags → CaseAuthTags_new tags = Some t →
  ∃ rcac noc, generate_rcac sk rcac_id serial = Ok (rcac, sk) ∧
    issue_noc_with_cats op node fab rcac sk noc_serial tags = Ok noc ∧
    verify_noc_chain noc None rcac = Ok () ∧
    mc_node_id noc = Some node ∧ mc_fabric_id noc = Some fab ∧ cats noc = Ok t ∧ mc_pub_key noc = op.
Proof.
  intros Hsk Hl Hl' Hop Htags Ht.
  destruct (generate_rcac_at sk rcac_id serial Hsk Hl) as (rcac & Hg & Hself & Hca & Hpk & Hsub & Hskid).
  destruct (issue_noc_at sk op node fab rcac _ noc_serial tags t Hsk Hl' Hop Ht Hskid) as (noc & Hi & Hsig & Hiss & Hleaf & Hkey & Hnsub).
  { apply zlen_skid. }
  { rewrite Hsub. repeat constructor; done. }
  { rewrite Hsub. done. }
  exists rcac, noc. do 2 (split; [done|]).
  assert (mc_node_id noc = Some node ∧ mc_fabric_id noc = Some fab) as [Hn Hf].
  { unfold mc_node_id, mc_fabric_id, subject_matter_id. by rewrite Hnsub. }
  split; [|split; [done|]; split; [done|]; split; [|done] ].
  - unfold verify_noc_chain. rewrite (proj2 (verify_signed_by_iff _ _) Hself). cbn [res_bind].
    rewrite (proj2 (check_ca_cert_iff _ _ _) Hca). cbn [res_bind].
    rewrite (proj2 (verify_signed_by_iff _ _)) by by rewrite Hpk. cbn [res_bind].
    rewrite bool_decide_true by done. cbn [negb]. rewrite (proj2 (check_noc_leaf_iff _) Hleaf). cbn [res_bind].
    by rewrite Hn, Hf.
  - unfold cats. rewrite Hnsub. cbn [app raw_cats dn_tag dn_value negb Z.eqb]. rewrite raw_cats_map by done.
    cbn. by rewrite Ht.
Qed.

End issuing.

(** The toy key, with two tags. *)
Lemma issued_noc_verifies_witness :
  ∃ rcac noc, generate_rcac key rng rng = Ok (rcac, key) ∧
    issue_noc_with_cats op_key 0x1B669 1 rcac key [1; 2; 3] [0x10001; 0x20005] = Ok noc ∧
    verify_noc_chain noc None rcac = Ok () ∧
    mc_node_id noc = Some 0x1B669 ∧ mc_fabric_id noc = Some 1 ∧ cats noc = Ok (0x10001, 0x20005, 0) ∧
    mc_pub_key noc = op_key.
Proof.
  apply issued_noc_verifies; [by eexists|vm_compute; discriminate|vm_compute; discriminate|reflexivity| |reflexivity].
  repeat constructor; done.
Defined.
