(* ===== verification/X509.v ===== *)
(** * X.509 certificates and signing requests

    Models [crates/mat-controller/src/x509.rs]: the DER reader, the parser of
    attestation certificates and of PKCS#10 requests, and the generators of the
    development attestation chain and of requests, with the integer and
    signature forms of [asn1.rs]. *)

From Stdlib Require Import String.
From S2P Require Import Prelude Tlv TlvValue Im Handler Crypto Fabrics Certs.

Open Scope string_scope.
Open Scope list_scope.
Open Scope Z_scope.

Inductive X509Error :=
  | DerError (what : string)
  | X509UnsupportedAlg
  | X509BadSignature
  | X509BadPublicKey.

(** ** The reader

    A [DerReader] is its unread suffix [&buf[pos..]]; no reader is used again
    after an error. *)

Abbreviation DR := (M bytes X509Error).

(** The content of [len] octets after a header of [hdr]: the triple of [read]. *)
Definition der_content (tag len hdr : Z) (whole : bytes) : res X509Error (Z * bytes * bytes) :=
  if zlen whole <? hdr + len then Err (DerError "truncated content")
  else Ok (tag, zslice hdr (hdr + len) whole, zslice 0 (hdr + len) whole).

Definition der_header (r : bytes) : res X509Error (Z * Z * Z) :=
  match r with
  | [] => Err (DerError "truncated tag")
  | tag :: r =>
      match r with
      | [] => Err (DerError "truncated length")
      | len_byte :: r =>
          if len_byte <? 0x80 then Ok (tag, len_byte, 2)
          else if len_byte =? 0x81 then
            match r with [] => Err (DerError "truncated length") | b :: _ => Ok (tag, b, 3) end
          else if len_byte =? 0x82 then
            match r with
            | hi :: lo :: _ => Ok (tag, Z.lor (Z.shiftl hi 8) lo, 4)
            | _ => Err (DerError "truncated length")
            end
          else Err (DerError "unsupported der length form")
      end
  end.

Definition der_read : DR (Z * bytes * bytes) := λ r,
  match (let? (tag, len, hdr) := der_header r in
         let? t := der_content tag len hdr r in Ok (t, drop (Z.to_nat (hdr + len)) r)) with
  | Ok (t, rest) => (rest, Ok t)
  | Err e => (r, Err e)
  | Panic => (r, Panic)
  | OutOfFuel => (r, OutOfFuel)
  end.

Definition der_expect (tag : Z) : DR bytes :=
  let! (t, content, _) := der_read in
  if negb (t =? tag) then throw (DerError "unexpected der tag") else ret content.

Definition peek_tag : DR (option Z) := let! r := get in ret (head r).

(** [if r.peek_tag() == Some(tag) { r.expect(tag)? }]. *)
Definition der_optional (tag : Z) : DR (option bytes) :=
  let! t := peek_tag in
  if bool_decide (t = Some tag) then let! c := der_expect tag in ret (Some c) else ret None.

(** A parser on a reader of its own over [content]. *)
Definition der_within {A} (content : bytes) (m : DR A) : res X509Error A := snd (m content).

(** [while !r.is_empty() { let content = r.expect(tag)?; .. }]. *)
Fixpoint der_items {T} (fuel : nat) (tag : Z) (item : T → bytes → res X509Error T) (acc : T) : DR T :=
  match fuel with
  | O => out_of_fuel
  | S fuel =>
      let! r := get in
      match r with
      | [] => ret acc
      | _ =>
          let! content := der_expect tag in
          let! acc := lift (item acc content) in
          der_items fuel tag item acc
      end
  end.

Definition der_all {T} (tag : Z) (item : T → bytes → res X509Error T) (acc : T) (content : bytes) :
    res X509Error T :=
  der_within content (der_items (S (length content)) tag item acc).

(** ** Certificates *)

Definition MATTER_VID : bytes := [0x2B; 0x06; 0x01; 0x04; 0x01; 0x82; 0xA2; 0x7C; 0x02; 0x01].
Definition MATTER_PID : bytes := [0x2B; 0x06; 0x01; 0x04; 0x01; 0x82; 0xA2; 0x7C; 0x02; 0x02].

Record X509Cert := {
  xc_tbs : bytes;
  xc_public_key : bytes;
  xc_issuer : bytes;
  xc_subject : bytes;
  xc_signature : bytes;
  xc_skid : option bytes;
  xc_akid : option bytes;
  xc_vid : option Z;
  xc_pid : option Z;
  xc_is_ca : option bool;
  xc_not_before : option bytes;
  xc_not_after : option bytes;
  xc_key_usage : option Z
}.

Definition check_ecdsa_sha256_alg (content : bytes) : res X509Error () :=
  let? oid := der_within content (der_expect 0x06) in
  if bool_decide (oid = ECDSA_WITH_SHA256) then Ok () else Err X509UnsupportedAlg.

Definition parse_spki (content : bytes) : res X509Error bytes :=
  der_within content (
    let! alg := der_expect 0x30 in
    lift (der_within alg (
      let! oid := der_expect 0x06 in
      if negb (bool_decide (oid = EC_PUBLIC_KEY)) then throw X509UnsupportedAlg
      else
        let! curve := der_expect 0x06 in
        if negb (bool_decide (curve = PRIME256V1)) then throw X509UnsupportedAlg else ret ())) ;;!
    let! bits := der_expect 0x03 in
    match bits with
    | [] => throw X509BadPublicKey
    | unused :: key =>
        if negb (unused =? 0) then throw X509BadPublicKey
        else if zlen key =? 65 then ret key else throw X509BadPublicKey
    end).

Definition int_to_32 (b : bytes) : res X509Error bytes :=
  let b := match b with 0 :: ((_ :: _) as t) => t | _ => b end in
  if (zlen b =? 0) || (32 <? zlen b) then Err (DerError "integer out of range")
  else Ok (replicate (32 - length b) 0 ++ b).

Definition parse_ecdsa_der_signature (der : bytes) : res X509Error bytes :=
  let? content := der_within der (der_expect 0x30) in
  der_within content (
    let! r := der_expect 0x02 in
    let! s := der_expect 0x02 in
    let! r := lift (int_to_32 r) in
    let! s := lift (int_to_32 s) in
    ret (r ++ s)).

Definition parse_ecdsa_signature (bits : bytes) : res X509Error bytes :=
  match bits with
  | [] => Err (DerError "empty signature bit string")
  | unused :: seq =>
      if negb (unused =? 0) then Err (DerError "unexpected unused bits in signature")
      else parse_ecdsa_der_signature seq
  end.

Definition parse_basic_constraints (value : bytes) : res X509Error bool :=
  let? content := der_within value (der_expect 0x30) in
  der_within content (
    let! r := get in
    if bool_decide (r = []) then ret false
    else if negb (bool_decide (head r = Some 0x01)) then ret false
    else let! b := der_expect 0x01 in ret (negb (default 0 (head b) =? 0))).

(** The named bits of the bit string [bits] (its first octet counts the unused
    ones): [for i in 0..9]. *)
Fixpoint key_usage_named (n : nat) (bits : bytes) : Z :=
  match n with
  | O => 0
  | S n' =>
      let out := key_usage_named n' bits in
      let i := Z.of_nat n' in
      match bits !! Z.to_nat (1 + i / 8) with
      | Some b => if negb (Z.land b (Z.shiftr 0x80 (i mod 8)) =? 0) then Z.lor out (Z.shiftl 1 i) else out
      | None => out
      end
  end.

Definition parse_key_usage (value : bytes) : res X509Error Z :=
  let? bits := der_within value (der_expect 0x03) in
  if zlen bits =? 0 then Err (DerError "empty keyUsage bit string") else Ok (key_usage_named 9 bits).

Definition parse_time_value : DR (option bytes) :=
  let! (tag, content, _) := der_read in
  ret (if negb (tag =? 0x17) && negb (tag =? 0x18) then None
       else if from_utf8 content then Some content else None).

Definition parse_validity (content : bytes) : res X509Error (option bytes * option bytes) :=
  der_within content (
    let! not_before := parse_time_value in let! not_after := parse_time_value in
    ret (not_before, not_after)).

(** [u16::from_str_radix(s, 16)]. *)
Definition hex_digit (c : Z) : option Z :=
  if (48 <=? c) && (c <=? 57) then Some (c - 48)
  else if (65 <=? c) && (c <=? 70) then Some (c - 55)
  else if (97 <=? c) && (c <=? 102) then Some (c - 87)
  else None.
Fixpoint hex_value (v : Z) (s : bytes) : option Z :=
  match s with
  | [] => Some v
  | c :: s => d ← hex_digit c; v ← try_u 16 (16 * v + d); hex_value v s
  end.
Definition u16_from_hex (s : bytes) : option Z :=
  match s with
  | [] => None
  | [43] => None
  | 43 :: s => hex_value 0 s
  | _ => hex_value 0 s
  end.

(** [str::find] of an ASCII string: the suffix after its first occurrence. *)
Fixpoint find_after (p s : bytes) : option bytes :=
  if bool_decide (take (length p) s = p) then Some (drop (length p) s)
  else match s with [] => None | _ :: s => find_after p s end.

(** [s.get(..4)]: [None] past the end or inside a character. *)
Definition get_4 (s : bytes) : option bytes :=
  if zlen s <? 4 then None
  else match s !! 4%nat with
       | Some b => if Z.land b 0xC0 =? 0x80 then None else Some (take 4 s)
       | None => Some (take 4 s)
       end.

Definition extract_hex_tag (s prefix : bytes) : option Z :=
  rest ← find_after prefix s; hex ← get_4 rest; u16_from_hex hex.

(** The locals of [parse_vid_pid]: the vendor, the product, the common name. *)
Abbreviation VidPidCn := (option Z * option Z * option bytes)%type.

Definition vid_pid_attr (acc : VidPidCn) (atv : bytes) : res X509Error VidPidCn :=
  der_within atv (
    let! oid := der_expect 0x06 in
    let! (tag, content, _) := der_read in
    let '(vid, pid, cn) := acc in
    ret (if negb (tag =? 0x0C) && negb (tag =? 0x13) then acc
         else if negb (from_utf8 content) then acc
         else if bool_decide (oid = MATTER_VID) then (u16_from_hex content, pid, cn)
         else if bool_decide (oid = MATTER_PID) then (vid, u16_from_hex content, cn)
         else if bool_decide (oid = COMMON_NAME) then (vid, pid, Some content)
         else acc)).

Definition vid_pid_rdn (acc : VidPidCn) (set : bytes) : res X509Error VidPidCn :=
  der_all 0x30 vid_pid_attr acc set.

Definition parse_vid_pid (name : bytes) : res X509Error (option Z * option Z) :=
  let? (vid, pid, cn) := der_all 0x31 vid_pid_rdn (None, None, None) name in
  Ok (match cn with
      | Some cn =>
          (match vid with Some _ => vid | None => extract_hex_tag cn (ascii "Mvid:") end,
           match pid with Some _ => pid | None => extract_hex_tag cn (ascii "Mpid:") end)
      | None => (vid, pid)
      end).

(** The extensions kept: subject and authority key ids, [cA], key usage. *)
Abbreviation Exts := (option bytes * option bytes * option bool * option Z)%type.

(** The value of the extension [oid]. *)
Definition x509_ext_value (acc : Exts) (oid value : bytes) : res X509Error Exts :=
  let '(skid, akid, is_ca, usage) := acc in
  if bool_decide (oid = OID_SUBJECT_KEY_ID) then
    let? id := der_within value (der_expect 0x04) in Ok (Some id, akid, is_ca, usage)
  else if bool_decide (oid = OID_AUTHORITY_KEY_ID) then
    let? seq := der_within value (der_expect 0x30) in
    let? id := der_within seq (der_optional 0x80) in
    Ok (skid, match id with Some id => Some id | None => akid end, is_ca, usage)
  else if bool_decide (oid = OID_BASIC_CONSTRAINTS) then
    let? ca := parse_basic_constraints value in Ok (skid, akid, Some ca, usage)
  else if bool_decide (oid = OID_KEY_USAGE) then
    let? bits := parse_key_usage value in Ok (skid, akid, is_ca, Some bits)
  else Ok acc.

Definition x509_ext (acc : Exts) (ext : bytes) : res X509Error Exts :=
  der_within ext (
    let! oid := der_expect 0x06 in
    let! _ := der_optional 0x01 in
    let! value := der_expect 0x04 in
    lift (x509_ext_value acc oid value)).

Definition x509_extensions : DR Exts :=
  let! wrap := der_optional 0xA3 in
  match wrap with
  | Some wrap =>
      lift (let? exts := der_within wrap (der_expect 0x30) in
            der_all 0x30 x509_ext (None, None, None, None) exts)
  | None => ret (None, None, None, None)
  end.

(** [let (tag, content, raw) = r.read()?] of a sequence kept with its header. *)
Definition der_raw_seq (what : string) : DR (bytes * bytes) :=
  let! (tag, content, raw) := der_read in
  if negb (tag =? 0x30) then throw (DerError what) else ret (content, raw).

(** The body of the TBSCertificate, given what precedes and follows it. *)
Definition parse_tbs (tbs signature : bytes) : DR X509Cert :=
  let! _ := der_optional 0xA0 in
  let! _ := der_expect 0x02 in
  let! _ := der_expect 0x30 in
  let! (_, issuer) := der_raw_seq "issuer not a name" in
  let! validity := der_expect 0x30 in
  let! (not_before, not_after) := lift (parse_validity validity) in
  let! (subject_content, subject) := der_raw_seq "subject not a name" in
  let! spki := der_expect 0x30 in
  let! public_key := lift (parse_spki spki) in
  let! (skid, akid, is_ca, usage) := x509_extensions in
  let! (vid, pid) := lift (parse_vid_pid subject_content) in
  ret {| xc_tbs := tbs; xc_public_key := public_key; xc_issuer := issuer; xc_subject := subject;
         xc_signature := signature; xc_skid := skid; xc_akid := akid; xc_vid := vid; xc_pid := pid;
         xc_is_ca := is_ca; xc_not_before := not_before; xc_not_after := not_after; xc_key_usage := usage |}.

Definition parse_x509 (der : bytes) : res X509Error X509Cert :=
  let? cert := der_within der (der_expect 0x30) in
  der_within cert (
    let! (tbs_content, tbs) := der_raw_seq "tbsCertificate not a sequence" in
    let! alg := der_expect 0x30 in
    lift (check_ecdsa_sha256_alg alg) ;;!
    let! sig_bits := der_expect 0x03 in
    let! signature := lift (parse_ecdsa_signature sig_bits) in
    lift (der_within tbs_content (parse_tbs tbs signature))).

(** ** Generators *)

Section ecdsa.
Context `{Ec : Ecdsa}.

Definition x509_verify_signed_by (c issuer : X509Cert) : res X509Error () :=
  map_err (λ _, X509BadSignature)
    (verify_ecdsa_p256 (xc_public_key issuer) (xc_tbs c) (xc_signature c)).

Definition parse_csr (der : bytes) : res X509Error bytes :=
  let? content := der_within der (der_expect 0x30) in
  der_within content (
    let! (cri_content, cri) := der_raw_seq "certificationRequestInfo not a sequence" in
    let! alg := der_expect 0x30 in
    lift (check_ecdsa_sha256_alg alg) ;;!
    let! sig_bits := der_expect 0x03 in
    let! signature := lift (parse_ecdsa_signature sig_bits) in
    let! public_key := lift (der_within cri_content (
      let! _ := der_expect 0x02 in
      let! _ := der_expect 0x30 in
      let! spki := der_expect 0x30 in
      lift (parse_spki spki))) in
    lift (map_err (λ _, X509BadSignature) (verify_ecdsa_p256 public_key cri signature)) ;;!
    ret public_key).
End ecdsa.

(** [while b.len() > 1 && b[0] == 0 { b = &b[1..] }]. *)
Fixpoint strip_leading (b : bytes) : bytes :=
  match b with
  | 0 :: ((_ :: _) as t) => strip_leading t
  | _ => b
  end.

Definition uint_integer {E} (b : bytes) : res E bytes :=
  let b := strip_leading b in
  match b with
  | f :: _ => if negb (Z.land f 0x80 =? 0) then der_integer (0 :: b) else der_integer b
  | [] => der_integer b
  end.

Definition ecdsa_signature {E} (sig : bytes) : res E bytes :=
  let? r := uint_integer (take 32 sig) in
  let? s := uint_integer (drop 32 sig) in
  der_seq [r; s].

(** [.expect(..)] on a result. *)
Definition expect_ok {E F A} (m : res F A) : res E A :=
  match m with Ok a => Ok a | Err _ => Panic | Panic => Panic | OutOfFuel => OutOfFuel end.

Inductive GenConstraints := Absent | EndEntity | Ca (path_len : option Z).

Section generate.
Context {E : Type}.
Abbreviation G := (res E bytes).

Definition name_rdn (o value : bytes) : G :=
  let? i := der_oid o in let? v := utf8_string value in let? atv := der_seq [i; v] in set_of [atv].

Definition build_name (cn : bytes) (vid_pid : option (Z * Z)) : G :=
  if negb (from_utf8 cn) then Panic else
  let? first := name_rdn COMMON_NAME cn in
  match vid_pid with
  | Some (vid, pid) =>
      let? v := name_rdn MATTER_VID (format_hex 4 vid) in
      let? p := name_rdn MATTER_PID (format_hex 4 pid) in
      der_seq [first; v; p]
  | None => der_seq [first]
  end.

(** [seq(oid, boolean(true), octet_string(value))], and without criticality. *)
Definition gen_critical (o value : bytes) : G :=
  let? i := der_oid o in let? t := der_boolean true in let? v := octet_string value in der_seq [i; t; v].
Definition gen_plain (o value : bytes) : G :=
  let? i := der_oid o in let? v := octet_string value in der_seq [i; v].

Definition basic_constraints_ext (bc : GenConstraints) : G :=
  let? items :=
    (match bc with
     | Ca path_len =>
         let? t := der_boolean true in
         match path_len with Some n => let? i := der_integer [n] in Ok [t; i] | None => Ok [t] end
     | _ => Ok []
     end) in
  let? value := der_seq items in gen_critical OID_BASIC_CONSTRAINTS value.

Definition key_usage_ext (bits : Z) : G :=
  let '(unused, b) := key_usage_bits bits in
  let? value := bit_string unused b in gen_critical OID_KEY_USAGE value.

Definition skid_ext (id : bytes) : G := let? inner := octet_string id in gen_plain OID_SUBJECT_KEY_ID inner.
Definition akid_ext (id : bytes) : G :=
  let? k := context_primitive 0 id in let? value := der_seq [k] in gen_plain OID_AUTHORITY_KEY_ID value.

Definition ec_spki (pub_key : bytes) : G :=
  let? ec := der_oid EC_PUBLIC_KEY in let? curve := der_oid PRIME256V1 in
  let? alg := der_seq [ec; curve] in let? key := bit_string 0 pub_key in der_seq [alg; key].

Definition ecdsa_alg : G := let? o := der_oid ECDSA_WITH_SHA256 in der_seq [o].

Context `{Ec : Ecdsa} `{Sha1}.

(** [seq(tbs, sigAlg, BIT STRING of the signature over tbs)]. *)
Definition signed_der (private_key tbs : bytes) : G :=
  let? alg := ecdsa_alg in
  let? raw := expect_ok (sign_ecdsa_p256 private_key tbs) in
  let? sig := ecdsa_signature raw in
  let? bits := bit_string 0 sig in
  der_seq [tbs; alg; bits].

Definition make_tbs (subject issuer subject_key signer_key : bytes) (bc : GenConstraints)
    (issuer_vid_pid subject_vid_pid : option (Z * Z)) (usage : option Z) : G :=
  let subject_pub := sk_public subject_key in
  let? v := der_integer [2] in
  let? version := context_constructed 0 v in
  let? serial := der_integer [0x01] in
  let? alg := ecdsa_alg in
  let? issuer_name := build_name issuer issuer_vid_pid in
  let? nb := utc_time (ascii "260101000000Z") in
  let? na := utc_time (ascii "300101000000Z") in
  let? validity := der_seq [nb; na] in
  let? subject_name := build_name subject subject_vid_pid in
  let? spki := ec_spki subject_pub in
  let? bc := (match bc with Absent => Ok [] | _ => let? b := basic_constraints_ext bc in Ok [b] end) in
  let? skid := skid_ext (subject_key_id subject_pub) in
  let? akid := akid_ext (subject_key_id (sk_public signer_key)) in
  let? ku := (match usage with Some bits => let? k := key_usage_ext bits in Ok [k] | None => Ok [] end) in
  let? exts := der_seq (bc ++ [skid; akid] ++ ku) in
  let? extensions := context_constructed 3 exts in
  der_seq [version; serial; alg; issuer_name; validity; subject_name; spki; extensions].

Definition make_test_cert_ext (subject issuer subject_key signer_key : bytes) (bc : GenConstraints)
    (issuer_vid_pid subject_vid_pid : option (Z * Z)) (usage : option Z) : G :=
  let? tbs := make_tbs subject issuer subject_key signer_key bc issuer_vid_pid subject_vid_pid usage in
  signed_der signer_key tbs.

Definition make_cri (public_key : bytes) : G :=
  let? version := der_integer [0x00] in
  let? subject_name := build_name (ascii "csr") None in
  let? spki := ec_spki public_key in
  let? attributes := context_constructed 0 [] in
  der_seq [version; subject_name; spki; attributes].

Definition make_test_csr (key : bytes) : G :=
  let? cri := make_cri (sk_public key) in signed_der key cri.

Definition generate_csr (secret : bytes) : G := make_test_csr secret.
End generate.

(** The development attestation material: the chain, the DAC's key, and the
    certification declaration ([cd.rs]). *)
Record DevAttestation := {
  paa_der : bytes;
  pai_der : bytes;
  dac_der : bytes;
  dac_private_key : bytes;
  certification_declaration : bytes
}.

(** ** Proofs: every parser is total *)

Close Scope string_scope.

(** On bytes, a parser neither panics nor runs out of fuel, consumes at least
    [n] octets and yields what [P] says. *)
Definition parses {E A} (m : M bytes E A) (n : nat) (P : A → Prop) : Prop := ∀ r, bytes_ok r →
  match m r with
  | (r', Ok a) => (n + length r' ≤ length r)%nat ∧ bytes_ok r' ∧ P a
  | (_, Err _) => True
  | _ => False
  end.
Definition yields {E A} (m : res E A) (P : A → Prop) : Prop :=
  match m with Ok a => P a | Err _ => True | _ => False end.

Section parses.
Context {E : Type}.

Lemma parses_ret {A} (a : A) (P : A → Prop) : P a → parses (E:=E) (ret a) 0 P.
Proof. intros Ha r Hr. cbn. split; [lia|done]. Qed.
Lemma parses_throw {A} (e : E) n (P : A → Prop) : parses (throw e) n P.
Proof. by intros r. Qed.
Lemma parses_get : parses (E:=E) get 0 bytes_ok.
Proof. intros r Hr. cbn. split; [lia|done]. Qed.
Lemma parses_lift {A} (m : res E A) P : yields m P → parses (lift m) 0 P.
Proof. intros Hm r Hr. unfold lift. destruct m; cbn in *; try done. Qed.
Lemma parses_mono {A} (m : M bytes E A) n n' (P P' : A → Prop) :
  parses m n P → (n' ≤ n)%nat → (∀ a, P a → P' a) → parses m n' P'.
Proof.
  intros Hm Hn HP r Hr. specialize (Hm r Hr). destruct (m r) as [r' [a|e| |] ]; try done.
  destruct Hm as (H1 & H2 & H3). split; [lia|]. split; [done|by apply HP].
Qed.
Lemma parses_bind {A B} (m : M bytes E A) (k : A → M bytes E B) n n' P Q :
  parses m n P → (∀ a, P a → parses (k a) n' Q) → parses (bind m k) (n + n') Q.
Proof.
  intros Hm Hk r Hr. specialize (Hm r Hr). unfold bind. destruct (m r) as [r' [a|e| |] ]; try done.
  destruct Hm as (H1 & H2 & H3). specialize (Hk a H3 r' H2).
  destruct (k a r') as [r'' [b|e| |] ]; try done. destruct Hk as (H4 & H5 & H6). split; [lia|done].
Qed.
(** The same, forgetting what is consumed. *)
Lemma parses_then {A B} (m : M bytes E A) (k : A → M bytes E B) n P Q :
  parses m n P → (∀ a, P a → parses (k a) 0 Q) → parses (bind m k) 0 Q.
Proof. intros Hm Hk. eapply parses_mono; [by eapply parses_bind|lia|done]. Qed.
Lemma parses_yields {A} content (m : M bytes E A) n P : bytes_ok content → parses m n P → yields (snd (m content)) P.
Proof.
  intros Hc Hm. specialize (Hm content Hc). destruct (m content) as [r' [a|e| |] ]; try done. apply Hm.
Qed.
Lemma yields_bind {A B} (m : res E A) (k : A → res E B) P Q :
  yields m P → (∀ a, P a → yields (k a) Q) → yields (let? a := m in k a) Q.
Proof. intros Hm Hk. destruct m; try done. by apply Hk. Qed.
Lemma yields_map_err {F A} (f : F → E) (m : res F A) P : yields m P → yields (map_err f m) P.
Proof. by destruct m. Qed.
End parses.

Lemma within_yields {A} content (m : DR A) n P : bytes_ok content → parses m n P → yields (der_within content m) P.
Proof. apply parses_yields. Qed.

Lemma be_pair hi lo : is_byte hi → is_byte lo → Z.lor (Z.shiftl hi 8) lo = 256 * hi + lo.
Proof.
  unfold is_byte. intros Hh Hl. pose proof (Z.add_lor_land (Z.shiftl hi 8) lo) as H.
  assert (Z.land (Z.shiftl hi 8) lo = 0) as Hz.
  { apply Z.bits_inj'. intros n Hn. rewrite Z.land_spec, Z.bits_0. destruct (Z.ltb_spec n 8).
    - by rewrite Z.shiftl_spec_low by lia.
    - rewrite (Z.bits_above_log2 lo); [apply andb_false_r|lia|]. destruct (decide (lo = 0)) as [->|]; [cbn; lia|].
      apply Z.log2_lt_pow2; [lia|]. apply Z.lt_le_trans with (2 ^ 8); [lia|]. by apply Z.pow_le_mono_r. }
  rewrite Z.shiftl_mul_pow2 in * by lia. lia.
Qed.

Lemma der_header_ok r tag len hdr : bytes_ok r → der_header r = Ok (tag, len, hdr) →
  is_byte tag ∧ 0 ≤ len ≤ 65535 ∧ 2 ≤ hdr ≤ zlen r.
Proof.
  intros Hr Hh. unfold der_header in Hh. destruct Hr as [|t r Ht Hr]; [done|]. destruct Hr as [|lb r Hlb Hr]; [done|].
  rewrite !zlen_cons. pose proof (zlen_nonneg r). unfold is_byte in *.
  destruct (lb <? 0x80) eqn:?; [simplify_eq; lia|]. destruct (lb =? 0x81).
  - destruct Hr as [|b r Hb Hr]; [done|]. simplify_eq. rewrite zlen_cons in *. pose proof (zlen_nonneg r). unfold is_byte in *. lia.
  - destruct (lb =? 0x82); [|done]. destruct Hr as [|hi r Hhi Hr]; [done|]. destruct Hr as [|lo r Hlo Hr]; [done|].
    rewrite be_pair in Hh by done. simplify_eq. rewrite !zlen_cons in *. pose proof (zlen_nonneg r). unfold is_byte in *. lia.
Qed.

Lemma parses_read_short : parses der_read 2 (λ '(t, c, raw), is_byte t ∧ bytes_ok c ∧ bytes_ok raw ∧ zlen c ≤ 65535).
Proof.
  intros r Hr. unfold der_read. destruct (der_header r) as [ [ [tag len] hdr]|e| |] eqn:Hh; cbn; [|done| |].
  2-3: unfold der_header in Hh; by repeat case_match.
  destruct (der_header_ok r tag len hdr Hr Hh) as (Ht & Hlen & Hhdr).
  unfold der_content. destruct (zlen r <? hdr + len) eqn:Hlt; cbn; [done|]. apply Z.ltb_ge in Hlt.
  rewrite length_drop. pose proof (zlen_zslice hdr (hdr + len) r ltac:(lia) ltac:(lia)) as Hz.
  split; [unfold zlen in *; lia|]. split; [by apply Forall_drop|].
  split; [done|]. split; [by apply bytes_ok_zslice|]. split; [by apply bytes_ok_zslice|lia].
Qed.

Lemma parses_read : parses der_read 2 (λ '(t, c, raw), is_byte t ∧ bytes_ok c ∧ bytes_ok raw).
Proof. eapply parses_mono; [exact parses_read_short|lia|]. intros [ [t c] raw]. naive_solver. Qed.

Lemma parses_expect_short tag : parses (der_expect tag) 2 (λ c, bytes_ok c ∧ zlen c ≤ 65535).
Proof.
  unfold der_expect. eapply (parses_bind _ _ 2 0); [exact parses_read_short|]. intros [ [t c] raw] (_ & Hc & _ & Hs).
  destruct (negb _); [apply parses_throw|by apply parses_ret].
Qed.

Lemma parses_expect tag : parses (der_expect tag) 2 bytes_ok.
Proof. eapply parses_mono; [exact (parses_expect_short tag)|lia|]. by intros c [Hc _]. Qed.

Lemma parses_peek : parses peek_tag 0 (λ _, True).
Proof. eapply (parses_bind _ _ 0 0); [exact parses_get|]. intros r _. by apply parses_ret. Qed.

Lemma parses_optional tag : parses (der_optional tag) 0 (from_option bytes_ok True).
Proof.
  eapply parses_then; [exact parses_peek|]. intros t _. case_bool_decide; [|by apply parses_ret].
  eapply parses_then; [exact (parses_expect tag)|]. intros c Hc. by apply parses_ret.
Qed.

Lemma parses_raw_seq what : parses (der_raw_seq what) 0 (λ '(c, raw), bytes_ok c ∧ bytes_ok raw).
Proof.
  eapply parses_then; [exact parses_read|]. intros [ [t c] raw] (_ & Hc & Hraw).
  destruct (negb _); [apply parses_throw|by apply parses_ret].
Qed.

(** The loop: fuel one above the length is enough. *)
Lemma parses_items {T} fuel tag (item : T → bytes → res X509Error T) (I : T → Prop) :
  (∀ acc c, I acc → bytes_ok c → yields (item acc c) I) →
  ∀ acc r, I acc → bytes_ok r → (length r < fuel)%nat →
  match der_items fuel tag item acc r with (_, Ok a) => I a | (_, Err _) => True | _ => False end.
Proof.
  intros Hitem. induction fuel as [|fuel IH]; intros acc r Hacc Hr Hfuel; [lia|].
  cbn [der_items]. unfold bind at 1. cbn [get]. destruct r as [|b r]; [done|].
  pose proof (parses_expect tag (b :: r) Hr) as He. unfold bind at 1.
  destruct (der_expect tag (b :: r)) as [r' [c|e| |] ]; try done. destruct He as (H1 & H2 & H3).
  unfold bind, lift. specialize (Hitem acc c Hacc H3). destruct (item acc c) as [acc'|e| |]; try done.
  apply IH; [done|done|cbn in *; lia].
Qed.

Lemma all_yields {T} tag (item : T → bytes → res X509Error T) (I : T → Prop) acc content :
  (∀ acc c, I acc → bytes_ok c → yields (item acc c) I) → I acc → bytes_ok content →
  yields (der_all tag item acc content) I.
Proof.
  intros Hitem Hacc Hc. unfold der_all, der_within.
  pose proof (parses_items (S (length content)) tag item I Hitem acc content Hacc Hc ltac:(lia)) as H.
  by destruct (der_items _ _ _ _ _) as [r' [a|e| |] ].
Qed.

Definition x509_ok (c : X509Cert) : Prop :=
  bytes_ok (xc_tbs c) ∧ (bytes_ok (xc_public_key c) ∧ zlen (xc_public_key c) = 65) ∧ bytes_ok (xc_issuer c) ∧
  bytes_ok (xc_subject c) ∧ (bytes_ok (xc_signature c) ∧ zlen (xc_signature c) = 64) ∧
  from_option bytes_ok True (xc_skid c) ∧ from_option bytes_ok True (xc_akid c) ∧
  from_option (in_u 16) True (xc_vid c) ∧ from_option (in_u 16) True (xc_pid c) ∧
  from_option bytes_ok True (xc_not_before c) ∧ from_option bytes_ok True (xc_not_after c) ∧
  from_option (in_u 16) True (xc_key_usage c).

Lemma alg_yields content : bytes_ok content → yields (check_ecdsa_sha256_alg content) (λ _, True).
Proof.
  intros Hc. eapply yields_bind; [eapply within_yields; [done|apply parses_expect]|]. intros oid _.
  by case_bool_decide.
Qed.

Lemma spki_yields content : bytes_ok content → yields (parse_spki content) (λ k, bytes_ok k ∧ zlen k = 65).
Proof.
  intros Hc. eapply within_yields; [done|]. eapply parses_then; [apply parses_expect|]. intros alg Halg.
  eapply parses_then; [apply (parses_lift _ (λ _, True))|].
  { eapply within_yields; [done|]. eapply parses_then; [apply parses_expect|]. intros oid _.
    case_bool_decide; cbn [negb]; [|apply parses_throw]. eapply parses_then; [apply parses_expect|]. intros curve _.
    case_bool_decide; cbn [negb]; [by apply parses_ret|apply parses_throw]. }
  intros _ _. eapply parses_then; [apply parses_expect|]. intros bits Hbits. destruct Hbits as [|u k _ Hk]; [apply parses_throw|].
  destruct (negb (u =? 0)); [apply parses_throw|]. destruct (Z.eqb_spec (zlen k) 65); [by apply parses_ret|apply parses_throw].
Qed.

Lemma int_yields b : bytes_ok b → yields (int_to_32 b) (λ v, bytes_ok v ∧ zlen v = 32).
Proof.
  intros Hb. unfold int_to_32.
  assert (bytes_ok (match b with 0 :: ((_ :: _) as t) => t | _ => b end)) as Hb'.
  { destruct Hb as [|x l Hx Hl]; [done|]. destruct x as [|p|p]; [|by constructor..]. destruct Hl; [by constructor|]. by constructor. }
  destruct ((zlen _ =? 0) || (32 <? zlen _)) eqn:Hl; [done|]. apply orb_false_iff in Hl as [_ Hl%Z.ltb_ge].
  revert Hb' Hl. generalize (match b with 0 :: ((_ :: _) as t) => t | _ => b end). intros v Hv Hl. split.
  - apply Forall_app. split; [by apply Forall_replicate|done].
  - unfold zlen in *. rewrite length_app, length_replicate. lia.
Qed.

Lemma der_signature_yields d : bytes_ok d → yields (parse_ecdsa_der_signature d) (λ s, bytes_ok s ∧ zlen s = 64).
Proof.
  intros Hd. eapply yields_bind; [eapply within_yields; [done|apply parses_expect]|]. intros c Hc.
  eapply within_yields; [done|]. eapply parses_then; [apply parses_expect|]. intros r Hr.
  eapply parses_then; [apply parses_expect|]. intros s Hs.
  eapply parses_then; [apply parses_lift, (int_yields _ Hr)|]. intros r' [Hr' Hr''].
  eapply parses_then; [apply parses_lift, (int_yields _ Hs)|]. intros s' [Hs' Hs''].
  apply parses_ret. split; [by apply Forall_app|]. rewrite zlen_app. lia.
Qed.

Lemma signature_yields b : bytes_ok b → yields (parse_ecdsa_signature b) (λ s, bytes_ok s ∧ zlen s = 64).
Proof.
  intros Hb. destruct Hb as [|u d _ Hd]; [done|]. cbn. destruct (negb _); [done|]. by apply der_signature_yields.
Qed.

Lemma constraints_yields v : bytes_ok v → yields (parse_basic_constraints v) (λ _, True).
Proof.
  intros Hv. eapply yields_bind; [eapply within_yields; [done|apply parses_expect]|]. intros c Hc.
  eapply within_yields; [done|]. eapply parses_then; [apply parses_get|]. intros r _.
  case_bool_decide; [by apply parses_ret|]. destruct (negb _); [by apply parses_ret|].
  eapply parses_then; [apply parses_expect|]. intros b _. by apply parses_ret.
Qed.

Lemma key_usage_named_bound n bits : 0 ≤ key_usage_named n bits < 2 ^ Z.of_nat n.
Proof.
  induction n as [|n IH]; [done|]. cbn [key_usage_named]. rewrite Nat2Z.inj_succ, Z.pow_succ_r by lia.
  assert (0 ≤ Z.lor (key_usage_named n bits) (Z.shiftl 1 (Z.of_nat n)) < 2 * 2 ^ Z.of_nat n) as H.
  { rewrite Z.shiftl_1_l. pose proof (Z.add_lor_land (key_usage_named n bits) (2 ^ Z.of_nat n)) as Hl.
    assert (0 ≤ Z.land (key_usage_named n bits) (2 ^ Z.of_nat n)) by (apply Z.land_nonneg; lia).
    assert (0 ≤ Z.lor (key_usage_named n bits) (2 ^ Z.of_nat n)) by (apply Z.lor_nonneg; lia). lia. }
  destruct (bits !! _) as [b|]; [|lia]. destruct (negb _); [done|lia].
Qed.

Lemma key_usage_yields v : bytes_ok v → yields (parse_key_usage v) (in_u 16).
Proof.
  intros Hv. eapply yields_bind; [eapply within_yields; [done|apply parses_expect]|]. intros bits _.
  destruct (zlen bits =? 0); [done|]. pose proof (key_usage_named_bound 9 bits) as H. cbn [yields]. unfold in_u.
  change (2 ^ Z.of_nat 9) with 512 in H. change (2 ^ 16) with 65536. lia.
Qed.

Lemma parses_time : parses parse_time_value 0 (from_option bytes_ok True).
Proof.
  eapply parses_then; [apply parses_read|]. intros [ [t c] raw] (_ & Hc & _). apply parses_ret.
  by repeat case_match.
Qed.

Lemma hex_value_bound v s : in_u 16 v → from_option (in_u 16) True (hex_value v s).
Proof.
  revert v. induction s as [|c s IH]; intros v Hv; cbn; [done|]. destruct (hex_digit c) as [d|]; cbn; [|done].
  destruct (try_u 16 (16 * v + d)) as [v'|] eqn:Ht; cbn; [|done]. apply try_u_Some in Ht as [-> Ht]. by apply IH.
Qed.

Lemma u16_from_hex_bound s : from_option (in_u 16) True (u16_from_hex s).
Proof. unfold u16_from_hex. repeat case_match; try done; by apply hex_value_bound. Qed.

Lemma extract_bound s p : from_option (in_u 16) True (extract_hex_tag s p).
Proof.
  unfold extract_hex_tag. destruct (find_after p s) as [r|]; cbn; [|done]. destruct (get_4 r) as [h|]; cbn; [|done].
  apply u16_from_hex_bound.
Qed.

Definition vid_pid_ok (a : VidPidCn) : Prop :=
  from_option (in_u 16) True (fst (fst a)) ∧ from_option (in_u 16) True (snd (fst a)).

Lemma vid_pid_yields name : bytes_ok name →
  yields (parse_vid_pid name) (λ '(vid, pid), from_option (in_u 16) True vid ∧ from_option (in_u 16) True pid).
Proof.
  intros Hn. eapply (yields_bind _ _ vid_pid_ok).
  - apply all_yields; [|by split|done]. intros acc set Hacc Hset. apply all_yields; [|done|done].
    intros acc' atv Hacc' Hatv. eapply within_yields; [done|]. eapply parses_then; [apply parses_expect|]. intros oid _.
    eapply parses_then; [apply parses_read|]. intros [ [t c] raw] _. destruct acc' as [ [vid pid] cn].
    apply parses_ret. destruct Hacc' as [Hv Hp]. cbn [fst snd] in *.
    repeat case_match; (split; [try exact Hv|try exact Hp]); apply u16_from_hex_bound.
  - intros [ [vid pid] [cn|] ] [Hv Hp]; cbn in *; [|done]. split; [destruct vid|destruct pid]; try done; apply extract_bound.
Qed.

Definition exts_ok (a : Exts) : Prop :=
  let '(skid, akid, _, usage) := a in
  from_option bytes_ok True skid ∧ from_option bytes_ok True akid ∧ from_option (in_u 16) True usage.

Lemma ext_value_yields acc oid v : exts_ok acc → bytes_ok v → yields (x509_ext_value acc oid v) exts_ok.
Proof.
  intros Hacc Hv. destruct acc as [ [ [skid akid] ca] usage]. destruct Hacc as (H1 & H2 & H3). unfold x509_ext_value.
  case_bool_decide.
  { eapply yields_bind; [eapply within_yields; [exact Hv|apply parses_expect]|]. by intros id Hid. }
  case_bool_decide.
  { eapply yields_bind; [eapply within_yields; [exact Hv|apply parses_expect]|]. intros sq Hsq.
    eapply yields_bind; [eapply within_yields; [exact Hsq|apply parses_optional]|]. intros id Hid. by destruct id. }
  case_bool_decide.
  { eapply yields_bind; [apply constraints_yields, Hv|]. by intros c _. }
  case_bool_decide; [|done]. eapply yields_bind; [apply key_usage_yields, Hv|]. by intros k Hk.
Qed.

Lemma ext_yields acc ext : exts_ok acc → bytes_ok ext → yields (x509_ext acc ext) exts_ok.
Proof.
  intros Hacc He. eapply within_yields; [done|]. eapply parses_then; [apply parses_expect|]. intros oid _.
  eapply parses_then; [apply parses_optional|]. intros o _. eapply parses_then; [apply parses_expect|]. intros v Hv.
  by apply parses_lift, ext_value_yields.
Qed.

Lemma parses_extensions : parses x509_extensions 0 exts_ok.
Proof.
  eapply parses_then; [apply parses_optional|]. intros [w|] Hw; [|by apply parses_ret]. apply parses_lift.
  eapply yields_bind; [eapply within_yields; [exact Hw|apply parses_expect]|]. intros e He.
  apply all_yields; [apply ext_yields|done|done].
Qed.

Lemma parses_tbs tbs s : bytes_ok tbs → bytes_ok s ∧ zlen s = 64 → parses (parse_tbs tbs s) 0 x509_ok.
Proof.
  intros Ht Hs. unfold parse_tbs. eapply parses_then; [apply parses_optional|]. intros v _.
  eapply parses_then; [apply parses_expect|]. intros ser _. eapply parses_then; [apply parses_expect|]. intros al _.
  eapply parses_then; [apply parses_raw_seq|]. intros [ic iss] [_ Hi]. eapply parses_then; [apply parses_expect|]. intros va Hva.
  eapply (parses_then _ _ 0 (λ '(nb, na), from_option bytes_ok True nb ∧ from_option bytes_ok True na)).
  { apply parses_lift. eapply within_yields; [exact Hva|]. eapply parses_then; [apply parses_time|]. intros nb Hnb.
    eapply parses_then; [apply parses_time|]. intros na Hna. by apply parses_ret. }
  intros [nb na] [Hnb Hna]. eapply parses_then; [apply parses_raw_seq|]. intros [sc sub] [Hsc Hsub].
  eapply parses_then; [apply parses_expect|]. intros sp Hsp. eapply parses_then; [apply parses_lift, (spki_yields sp Hsp)|].
  intros pk Hpk. eapply parses_then; [apply parses_extensions|]. intros [ [ [skid akid] ca] usage] (E1 & E2 & E3).
  eapply parses_then; [apply parses_lift, (vid_pid_yields sc Hsc)|]. intros [vid pid] [Hvid Hpid]. apply parses_ret.
  unfold x509_ok. cbn. by repeat (split; [assumption|]).
Qed.

Lemma parse_x509_yields d : bytes_ok d → yields (parse_x509 d) x509_ok.
Proof.
  intros Hd. eapply yields_bind; [eapply within_yields; [exact Hd|apply parses_expect]|]. intros c Hc.
  eapply within_yields; [exact Hc|]. eapply parses_then; [apply parses_raw_seq|]. intros [tc tbs] [Htc Htbs].
  eapply parses_then; [apply parses_expect|]. intros al Hal. eapply parses_then; [apply parses_lift, (alg_yields al Hal)|]. intros _ _.
  eapply parses_then; [apply parses_expect|]. intros sb Hsb. eapply parses_then; [apply parses_lift, (signature_yields sb Hsb)|].
  intros s Hs. apply parses_lift. eapply within_yields; [exact Htc|]. by apply parses_tbs.
Qed.

Lemma parse_csr_yields `{Ec : Ecdsa} d : bytes_ok d → yields (parse_csr d) (λ k, bytes_ok k ∧ zlen k = 65).
Proof.
  intros Hd. eapply yields_bind; [eapply within_yields; [exact Hd|apply parses_expect]|]. intros c Hc.
  eapply within_yields; [exact Hc|]. eapply parses_then; [apply parses_raw_seq|]. intros [cc cri] [Hcc Hcri].
  eapply parses_then; [apply parses_expect|]. intros al Hal. eapply parses_then; [apply parses_lift, (alg_yields al Hal)|]. intros _ _.
  eapply parses_then; [apply parses_expect|]. intros sb Hsb. eapply parses_then; [apply parses_lift, (signature_yields sb Hsb)|].
  intros s Hs. eapply (parses_then _ _ 0 (λ k, bytes_ok k ∧ zlen k = 65)).
  { apply parses_lift. eapply within_yields; [exact Hcc|]. do 2 (eapply parses_then; [apply parses_expect|]; intros ? _).
    eapply parses_then; [apply parses_expect|]. intros sp Hsp. apply parses_lift, spki_yields, Hsp. }
  intros k Hk. eapply (parses_then _ _ 0 (λ _, True)); [|intros _ _; by apply parses_ret]. apply parses_lift.
  unfold verify_ecdsa_p256. by repeat case_match.
Qed.

(** ** Proofs: what the generators write is what the parsers read *)

(** The octets of [der_tlv] within the length it accepts. *)
Definition tlv (t : Z) (c : bytes) : bytes :=
  if zlen c <? 128 then t :: zlen c :: c
  else if zlen c <? 256 then t :: 0x81 :: zlen c :: c
  else t :: 0x82 :: be_bytes 2 (zlen c) ++ c.

Lemma der_tlv_eq {E} t c : zlen c ≤ 65535 → der_tlv (E:=E) t c = Ok (tlv t c).
Proof. intros Hc. unfold der_tlv, tlv. rewrite (proj2 (Z.ltb_ge 65535 (zlen c))) by lia. by repeat case_match. Qed.

Lemma zlen_be n z : zlen (be_bytes n z) = Z.of_nat n.
Proof. unfold be_bytes, zlen. by rewrite length_rev, length_le_bytes. Qed.

Lemma zlen_tlv t c : zlen (tlv t c) ≤ zlen c + 4.
Proof. unfold tlv. repeat case_match; rewrite ?zlen_cons, ?zlen_app, ?zlen_be; lia. Qed.

Lemma be_2 v : be_bytes 2 v = [v / 256 mod 256; v mod 256].
Proof. done. Qed.

Lemma head_tlv t c r : head (tlv t c ++ r) = Some t.
Proof. unfold tlv. by repeat case_match. Qed.

Lemma tlv_cons t c : ∃ l, tlv t c = t :: l.
Proof. unfold tlv. repeat case_match; eauto. Qed.

Lemma der_read_tlv t c rest : zlen c ≤ 65535 → der_read (tlv t c ++ rest) = (rest, Ok (t, c, tlv t c)).
Proof.
  intros Hc. pose proof (zlen_nonneg c) as Hc0.
  assert (∃ h, tlv t c = h ++ c ∧ der_header (tlv t c ++ rest) = Ok (t, zlen c, zlen h)) as (h & Ht & Hh).
  { unfold tlv. destruct (zlen c <? 128) eqn:H1.
    - exists [t; zlen c]. split; [done|]. cbn [der_header app]. change 0x80 with 128. by rewrite H1.
    - destruct (zlen c <? 256) eqn:H2.
      + exists [t; 0x81; zlen c]. done.
      + exists (t :: 0x82 :: be_bytes 2 (zlen c)). split; [done|]. rewrite be_2. cbn [der_header app].
        rewrite be_pair by (apply Z.mod_pos_bound; lia). cbn [Z.ltb Z.eqb Z.compare].
        do 3 f_equal. rewrite (Z.mod_small (zlen c / 256)); [|].
        * pose proof (Z.div_mod (zlen c) 256). lia.
        * split; [apply Z.div_pos; lia|]. apply Z.div_lt_upper_bound; lia. }
  unfold der_read. rewrite Hh. cbn [res_bind]. unfold der_content. rewrite Ht, <- app_assoc. pose proof (zlen_nonneg h).
  pose proof (zlen_nonneg rest).
  rewrite (proj2 (Z.ltb_ge _ _)) by (rewrite !zlen_app; lia). cbn [res_bind].
  f_equal; [|f_equal; f_equal].
  - rewrite app_assoc, <- zlen_app. apply drop_zlen_app.
  - f_equal. apply zslice_app_mid.
  - rewrite app_assoc, <- zlen_app. apply zslice_0_app.
Qed.

(** [m] consumes exactly [b] and returns [a]. *)
Definition der_at {E A} (m : M bytes E A) (b : bytes) (a : A) : Prop := ∀ rest, m (b ++ rest) = (rest, Ok a).

Lemma at_ret {E A} (a : A) : der_at (E:=E) (ret a) [] a.
Proof. done. Qed.
Lemma at_lift {E A} (m : res E A) a : m = Ok a → der_at (lift m) [] a.
Proof. by intros -> rest. Qed.
Lemma at_bind {E A B} (m : M bytes E A) (k : A → M bytes E B) b b' a x :
  der_at m b a → der_at (k a) b' x → der_at (bind m k) (b ++ b') x.
Proof. intros Hm Hk rest. rewrite <- app_assoc. unfold bind. by rewrite Hm. Qed.
Lemma at_bind_nil {E A B} (m : M bytes E A) (k : A → M bytes E B) b a x :
  der_at m [] a → der_at (k a) b x → der_at (bind m k) b x.
Proof. intros Hm Hk. by apply (at_bind m k [] b a x). Qed.
Lemma at_bind_end {E A B} (m : M bytes E A) (k : A → M bytes E B) b a x :
  der_at m b a → der_at (k a) [] x → der_at (bind m k) b x.
Proof. intros Hm Hk. rewrite <- (app_nil_r b). by eapply at_bind. Qed.
Lemma at_end {E A} c (m : M bytes E A) a : der_at m c a → snd (m c) = Ok a.
Proof. intros Hm. specialize (Hm []). rewrite app_nil_r in Hm. by rewrite Hm. Qed.

Lemma at_read t c : zlen c ≤ 65535 → der_at der_read (tlv t c) (t, c, tlv t c).
Proof. intros Hc rest. by apply der_read_tlv. Qed.
Lemma at_expect t c : zlen c ≤ 65535 → der_at (der_expect t) (tlv t c) c.
Proof.
  intros Hc. eapply at_bind_end; [by apply at_read|]. cbv beta iota. by rewrite Z.eqb_refl.
Qed.
Lemma at_raw_seq what c : zlen c ≤ 65535 → der_at (der_raw_seq what) (tlv 0x30 c) (c, tlv 0x30 c).
Proof. intros Hc. eapply at_bind_end; [by apply at_read|]. done. Qed.

Lemma at_optional t c : zlen c ≤ 65535 → der_at (der_optional t) (tlv t c) (Some c).
Proof.
  intros Hc rest. unfold der_optional, peek_tag. unfold bind at 1 2. cbn [get ret]. rewrite head_tlv.
  rewrite bool_decide_true by done. unfold bind. by rewrite at_expect.
Qed.
Lemma at_optional_other {A} t t' c b (k : option bytes → DR A) x : t' ≠ t →
  der_at (k None) (tlv t' c ++ b) x → der_at (bind (der_optional t) k) (tlv t' c ++ b) x.
Proof.
  intros Ht Hk rest. unfold der_optional, peek_tag. unfold bind at 1 2 3. cbn [get ret].
  rewrite <- app_assoc, head_tlv. rewrite bool_decide_false by congruence. cbn [ret]. rewrite app_assoc. apply Hk.
Qed.

Lemma within_at {A} c (m : DR A) a : der_at m c a → der_within c m = Ok a.
Proof. apply at_end. Qed.
Lemma within_prefix {A} c rest (m : DR A) a : der_at m c a → der_within (c ++ rest) m = Ok a.
Proof. intros Hm. unfold der_within. by rewrite Hm. Qed.

(** A sequence of elements of one tag, consumed by a loop. *)
Fixpoint fold_items {T} (item : T → bytes → res X509Error T) (acc : T) (cs : list bytes) : res X509Error T :=
  match cs with [] => Ok acc | c :: cs => let? acc := item acc c in fold_items item acc cs end.

Lemma length_concat_tlv t cs : (length cs ≤ length (concat (map (tlv t) cs)))%nat.
Proof. induction cs as [|c cs IH]; [done|]. cbn. rewrite length_app. destruct (tlv_cons t c) as [l ->]. cbn. lia. Qed.

Lemma items_at {T} t (item : T → bytes → res X509Error T) cs x :
  Forall (λ c, zlen c ≤ 65535) cs → ∀ fuel acc, (length cs < fuel)%nat → fold_items item acc cs = Ok x →
  snd (der_items fuel t item acc (concat (map (tlv t) cs))) = Ok x.
Proof.
  induction 1 as [|c cs Hc _ IH]; intros fuel acc Hfuel; (destruct fuel as [|fuel]; [cbn in *; lia|]).
  - cbn [fold_items map concat der_items]. by intros [= <-].
  - cbn [fold_items map concat der_items]. intros Hx. unfold bind at 1. cbn [get].
    destruct (tlv_cons t c) as [l Hl]. rewrite Hl. cbn [app]. rewrite app_comm_cons, <- Hl.
    unfold bind at 1. rewrite at_expect by done. unfold bind, lift.
    destruct (item acc c) as [acc'|e| |]; cbn in Hx; try done. apply IH; [cbn in *; lia|done].
Qed.

Lemma all_at {T} t (item : T → bytes → res X509Error T) acc cs x :
  Forall (λ c, zlen c ≤ 65535) cs → fold_items item acc cs = Ok x →
  der_all t item acc (concat (map (tlv t) cs)) = Ok x.
Proof.
  intros Hcs Hx. apply items_at; [done| |done]. pose proof (length_concat_tlv t cs). lia.
Qed.

(** *** Signatures *)

Lemma strip_leading_spec b : ∃ n, b = replicate n 0 ++ strip_leading b ∧ (b ≠ [] → strip_leading b ≠ []) ∧
  match strip_leading b with 0 :: _ :: _ => False | _ => True end.
Proof.
  induction b as [|x b IH]; [by exists 0%nat|].
  destruct x as [|p|p]; [|by exists 0%nat..]. destruct b as [|y b]; [by exists 0%nat|].
  destruct IH as (n & H1 & H2 & H3). exists (S n). cbn [replicate app].
  change (strip_leading (0 :: y :: b)) with (strip_leading (y :: b)). split; [by rewrite <- H1|]. split; [|done].
  intros _. by apply H2.
Qed.

Lemma uint_integer_at b : zlen b = 32 → bytes_ok b →
  ∃ c, uint_integer (E:=X509Error) b = Ok (tlv 0x02 c) ∧ zlen c ≤ 33 ∧ bytes_ok c ∧ int_to_32 c = Ok b ∧
    ∀ E, uint_integer (E:=E) b = Ok (tlv 0x02 c).
Proof.
  intros Hlen Hb. destruct (strip_leading_spec b) as (n & Hsplit & Hne & Hlead).
  assert (strip_leading b ≠ []) as Hs by (apply Hne; by intros ->).
  assert (zlen (strip_leading b) ≤ 32) as Hsl.
  { apply (f_equal zlen) in Hsplit. rewrite zlen_app in Hsplit. unfold zlen in *. lia. }
  assert (bytes_ok (strip_leading b)) as Hsb by (rewrite Hsplit in Hb; by apply Forall_app in Hb as [_ ?]).
  assert (Hpad : replicate (32 - length (strip_leading b)) 0 ++ strip_leading b = b).
  { rewrite Hsplit at 3. f_equal. f_equal. apply (f_equal length) in Hsplit. rewrite length_app, length_replicate in Hsplit.
    unfold zlen in *. lia. }
  unfold uint_integer. cbv zeta. revert Hs Hsl Hsb Hlead Hpad. generalize (strip_leading b). intros s Hs Hsl Hsb Hlead Hpad.
  destruct s as [|f s]; [done|].
  assert (Hok : ∀ c, match c with 0 :: ((_ :: _) as t) => t | _ => c end = f :: s → int_to_32 c = Ok b).
  { intros c Hc. unfold int_to_32. cbv zeta. rewrite Hc.
    pose proof (zlen_nonneg s). rewrite zlen_cons in *.
    destruct (Z.eqb_spec (1 + zlen s) 0); [lia|]. rewrite (proj2 (Z.ltb_ge _ _)) by lia. cbn [orb]. by rewrite Hpad. }
  destruct (negb (Z.land f 0x80 =? 0)) eqn:Hf.
  - exists (0 :: f :: s). rewrite zlen_cons in *. split_and!; try (intros; apply der_tlv_eq; rewrite !zlen_cons; lia).
    + rewrite zlen_cons. lia.
    + by constructor.
    + by apply Hok.
  - exists (f :: s). split_and!; try (intros; apply der_tlv_eq; lia); [lia|done|].
    apply Hok. destruct f; try done. destruct s; [done|]. done.
Qed.

Lemma tlv_ok t c : is_byte t → bytes_ok c → bytes_ok (tlv t c).
Proof.
  intros Ht Hc. pose proof (zlen_nonneg c). unfold tlv, is_byte in *. rewrite be_2. cbn [app].
  destruct (Z.ltb_spec (zlen c) 128); [|destruct (Z.ltb_spec (zlen c) 256)]; repeat (apply Forall_cons; split); try done.
  all: first [lia | apply Z.mod_pos_bound; lia].
Qed.

(** A raw signature's DER form, and back. *)
Lemma ecdsa_signature_at sig : zlen sig = 64 → bytes_ok sig → ∃ d,
  (∀ E, ecdsa_signature (E:=E) sig = Ok d) ∧ zlen d ≤ 90 ∧ parse_ecdsa_der_signature d = Ok sig ∧ bytes_ok d.
Proof.
  intros Hlen Hb.
  assert (zlen (take 32 sig) = 32) as Hl1 by (unfold zlen in *; rewrite length_take; lia).
  assert (zlen (drop 32 sig) = 32) as Hl2 by (unfold zlen in *; rewrite length_drop; lia).
  destruct (uint_integer_at (take 32 sig)) as (r & _ & Hr1 & Hrb & Hr2 & Hr); [done|by apply Forall_take|].
  destruct (uint_integer_at (drop 32 sig)) as (s & _ & Hs1 & Hsb & Hs2 & Hs); [done|by apply Forall_drop|].
  pose proof (zlen_tlv 0x02 r). pose proof (zlen_tlv 0x02 s).
  assert (zlen (concat [tlv 0x02 r; tlv 0x02 s]) ≤ 74) as Hc by (cbn; rewrite !zlen_app, (zlen_nil (A:=Z)); lia).
  exists (tlv 0x30 (concat [tlv 0x02 r; tlv 0x02 s])). split.
  { intros E. unfold ecdsa_signature. rewrite Hr, Hs. cbn [res_bind]. apply der_tlv_eq. lia. }
  split; [pose proof (zlen_tlv 0x30 (concat [tlv 0x02 r; tlv 0x02 s])); lia|].
  split; [|apply tlv_ok; [done|]; apply Forall_concat; by repeat constructor; apply tlv_ok].
  unfold parse_ecdsa_der_signature. rewrite (within_at _ _ (concat [tlv 0x02 r; tlv 0x02 s])) by (apply at_expect; lia).
  cbn [res_bind]. apply within_at. cbn [concat]. eapply at_bind; [apply at_expect; lia|].
  eapply at_bind; [apply at_expect; lia|]. eapply at_bind_nil; [apply at_lift, Hr2|].
  eapply at_bind_nil; [apply at_lift, Hs2|]. rewrite take_drop. apply at_ret.
Qed.

(** *** Numbers in names *)

Lemma digits_app base a b v : 0 < base →
  digits base (a + b) v = digits base a (v / base ^ Z.of_nat b) ++ digits base b v.
Proof.
  intros Hbase. revert v. induction b as [|b IH]; intros v.
  - rewrite Nat.add_0_r. cbn [digits Z.of_nat]. rewrite Z.pow_0_r, Z.div_1_r. by rewrite app_nil_r.
  - rewrite Nat.add_succ_r. cbn [digits]. rewrite IH, <- app_assoc. f_equal. f_equal.
    rewrite Nat2Z.inj_succ, Z.pow_succ_r by lia. by rewrite <- Z.div_div by lia.
Qed.

Lemma digits_0 base n : 0 < base → digits base n 0 = replicate n 0.
Proof.
  intros Hb. induction n as [|n IH]; [done|]. cbn [digits]. rewrite Z.div_0_l, Z.mod_0_l by lia.
  rewrite IH. change [0] with (replicate 1 0). rewrite <- replicate_add. f_equal. lia.
Qed.

Lemma strip_zeros_app w k l : length l = w → strip_zeros w (replicate k 0 ++ l) = l.
Proof.
  intros Hl. induction k as [|k IH]; cbn [replicate app].
  - destruct l as [|[|p|p] l]; try done. cbn [strip_zeros]. rewrite (proj2 (Nat.ltb_ge _ _)); [done|lia].
  - cbn [strip_zeros]. rewrite (proj2 (Nat.ltb_lt _ _)); [done|]. cbn [length]. rewrite length_app, length_replicate. lia.
Qed.

(** [{v:04X}] of a [u16] is its four hexadecimal digits. *)
Lemma format_hex_4 v : in_u 16 v → format_hex 4 v = map digit_char (digits 16 4 v).
Proof.
  intros [H0 H1]. unfold format_hex. f_equal. change 16%nat with (12 + 4)%nat. rewrite digits_app by lia.
  rewrite Z.div_small; [|by change (16 ^ Z.of_nat 4) with (2 ^ 16)]. rewrite digits_0 by lia.
  apply strip_zeros_app. apply length_digits.
Qed.

Lemma hex_digit_char d : 0 ≤ d < 16 → hex_digit (digit_char d) = Some d ∧ digit_char d < 0x80 ∧ is_byte (digit_char d) ∧ digit_char d ≠ 43.
Proof.
  intros Hd. unfold digit_char, hex_digit, is_byte.
  assert (d = 0 ∨ d = 1 ∨ d = 2 ∨ d = 3 ∨ d = 4 ∨ d = 5 ∨ d = 6 ∨ d = 7 ∨ d = 8 ∨ d = 9 ∨ d = 10 ∨ d = 11 ∨ d = 12 ∨
    d = 13 ∨ d = 14 ∨ d = 15) as Hc by lia.
  repeat (destruct Hc as [->|Hc]; [done|]). by subst d.
Qed.

Lemma digits_range base n v : 0 < base → Forall (λ d, 0 ≤ d < base) (digits base n v).
Proof.
  intros Hb. revert v. induction n as [|n IH]; intros v; cbn; [done|]. apply Forall_app. split; [apply IH|].
  apply Forall_singleton, Z.mod_pos_bound, Hb.
Qed.

Lemma digits_mod base n v : 0 < base → digits base n v = digits base n (v mod base ^ Z.of_nat n).
Proof.
  intros Hb. revert v. induction n as [|n IH]; intros v; [done|]. cbn [digits].
  assert (0 < base ^ Z.of_nat n) by (apply Z.pow_pos_nonneg; lia).
  rewrite Nat2Z.inj_succ, Z.pow_succ_r by lia. rewrite (IH (v / base)), Z.rem_mul_r by lia.
  pose proof (Z.mod_pos_bound v base Hb) as Hm. set (q := (v / base) mod base ^ Z.of_nat n).
  assert (Hq : v mod base + base * q = q * base + v mod base) by lia. rewrite Hq.
  rewrite Z.div_add_l, (Z.div_small (v mod base)), Z.add_0_r by lia.
  rewrite Z.add_comm, Z.mod_add, Z.mod_mod by lia. done.
Qed.

Lemma hex_value_digits n v acc : 0 ≤ acc → 0 ≤ v < 16 ^ Z.of_nat n → in_u 16 (acc * 16 ^ Z.of_nat n + v) →
  hex_value acc (map digit_char (digits 16 n v)) = Some (acc * 16 ^ Z.of_nat n + v).
Proof.
  revert v acc. induction n as [|n IH]; intros v acc Hacc Hv Hin.
  - cbn in *. f_equal. lia.
  - change (S n) with (1 + n)%nat in *. rewrite digits_app by lia. set (p := 16 ^ Z.of_nat n) in *.
    assert (16 ^ Z.of_nat (1 + n) = 16 * p) as Hp by (rewrite Nat2Z.inj_succ, Z.pow_succ_r by lia; done).
    rewrite Hp in *. assert (0 < p) by (apply Z.pow_pos_nonneg; lia).
    assert (0 ≤ v / p < 16) as Hd by (split; [apply Z.div_pos; lia|apply Z.div_lt_upper_bound; lia]).
    pose proof (Z.div_mod v p ltac:(lia)) as Hdm. pose proof (Z.mod_pos_bound v p ltac:(lia)) as Hm.
    cbn [digits app map]. rewrite (Z.mod_small (v / p)) by done. cbn [hex_value].
    destruct (hex_digit_char (v / p) Hd) as (-> & _). cbn [mbind option_bind].
    assert (in_u 16 (16 * acc + v / p)) as Hu by (unfold in_u in *; nia).
    rewrite (proj2 (try_u_Some 16 _ _) (conj eq_refl Hu)). cbn [mbind option_bind].
    rewrite (digits_mod 16 n v) by lia. change (16 ^ Z.of_nat n) with p.
    rewrite IH; [f_equal; nia|lia|lia|]. unfold in_u in *. nia.
Qed.

Lemma u16_hex_round v : in_u 16 v → u16_from_hex (format_hex 4 v) = Some v.
Proof.
  intros Hv. rewrite format_hex_4 by done. pose proof (hex_value_digits 4 v 0) as H.
  change (0 * 16 ^ Z.of_nat 4 + v) with v in H. specialize (H ltac:(lia) Hv Hv).
  pose proof (digits_range 16 4 v ltac:(lia)) as Hr. revert H Hr. pose proof (length_digits 16 4 v) as Hlen. revert Hlen.
  generalize (digits 16 4 v). intros [|a [|b l] ] Hlen H Hr; [done..|]. cbn [map] in *.
  apply Forall_cons in Hr as [Ha _]. destruct (hex_digit_char a Ha) as (_ & _ & _ & Hne).
  unfold u16_from_hex. by repeat case_match; simplify_eq.
Qed.

Lemma ascii_utf8 s : Forall (λ c, c < 0x80) s → from_utf8 s = true.
Proof. induction 1 as [|c s Hc _ IH]; [done|]. cbn [from_utf8]. by rewrite (proj2 (Z.ltb_lt _ _) Hc). Qed.

Lemma hex_text v : in_u 16 v → from_utf8 (format_hex 4 v) = true ∧ bytes_ok (format_hex 4 v) ∧ zlen (format_hex 4 v) = 4.
Proof.
  intros Hv. rewrite format_hex_4 by done. pose proof (digits_range 16 4 v ltac:(lia)) as Hr. split_and!.
  - apply ascii_utf8, List.Forall_map. eapply Forall_impl; [exact Hr|]. intros d Hd. apply (hex_digit_char d Hd).
  - apply List.Forall_map. eapply Forall_impl; [exact Hr|]. intros d Hd. apply (hex_digit_char d Hd).
  - unfold zlen. by rewrite length_map, length_digits.
Qed.

(** *** Names *)

Definition atv_bytes (o v : bytes) : bytes := concat [tlv 0x06 o; tlv 0x0C v].
Definition rdn_bytes (o v : bytes) : bytes := concat [tlv 0x30 (atv_bytes o v)].
Definition name_attrs (cn : bytes) (vp : option (Z * Z)) : list (bytes * bytes) :=
  (COMMON_NAME, cn) ::
  match vp with Some (vid, pid) => [(MATTER_VID, format_hex 4 vid); (MATTER_PID, format_hex 4 pid)] | None => [] end.
Definition name_content (cn : bytes) (vp : option (Z * Z)) : bytes :=
  concat (map (λ '(o, v), tlv 0x31 (rdn_bytes o v)) (name_attrs cn vp)).

(** A name and what identifies its owner: a short common name, 16-bit ids. *)
Definition name_ok (cn : bytes) (vp : option (Z * Z)) : Prop :=
  from_utf8 cn = true ∧ bytes_ok cn ∧ zlen cn ≤ 64 ∧ from_option (λ '(v, p), in_u 16 v ∧ in_u 16 p) True vp.

Ltac len_tac :=
  repeat match goal with
  | |- context [zlen (tlv ?t ?c)] =>
      lazymatch goal with H : zlen (tlv t c) ≤ _ |- _ => fail | _ => pose proof (zlen_tlv t c) end
  | H : context [zlen (tlv ?t ?c)] |- _ =>
      lazymatch goal with H' : zlen (tlv t c) ≤ zlen c + 4 |- _ => fail | _ => pose proof (zlen_tlv t c) end
  end;
  cbn [concat] in *; rewrite ?zlen_app, ?(zlen_nil (A:=Z)) in *.

Lemma zlen_atv o v : zlen (atv_bytes o v) ≤ zlen o + zlen v + 8.
Proof.
  unfold atv_bytes. pose proof (zlen_tlv 6 o). pose proof (zlen_tlv 0x0C v). cbn [concat].
  rewrite !zlen_app, (zlen_nil (A:=Z)). lia.
Qed.
Lemma zlen_rdn o v : zlen (rdn_bytes o v) ≤ zlen o + zlen v + 12.
Proof.
  unfold rdn_bytes. pose proof (zlen_tlv 0x30 (atv_bytes o v)). pose proof (zlen_atv o v). cbn [concat].
  rewrite !zlen_app, (zlen_nil (A:=Z)). lia.
Qed.

Lemma name_rdn_at {E} o v : zlen o ≤ 100 → zlen v ≤ 100 → name_rdn (E:=E) o v = Ok (tlv 0x31 (rdn_bytes o v)).
Proof.
  intros Ho Hv. unfold name_rdn, der_oid, utf8_string, der_seq, set_of. pose proof (zlen_atv o v). pose proof (zlen_rdn o v).
  rewrite (der_tlv_eq 6) by lia. cbn [res_bind]. rewrite (der_tlv_eq 12) by lia. cbn [res_bind].
  rewrite (der_tlv_eq 48) by (fold (atv_bytes o v); lia). cbn [res_bind]. fold (atv_bytes o v).
  apply der_tlv_eq. fold (rdn_bytes o v). lia.
Qed.

Lemma name_attrs_short cn vp : name_ok cn vp →
  Forall (λ '(o, v), from_utf8 v = true ∧ zlen o ≤ 10 ∧ zlen v ≤ 64 ∧ bytes_ok o ∧ bytes_ok v) (name_attrs cn vp).
Proof.
  intros (Hu & Hb & Hl & Hvp). constructor; [by repeat (constructor; try done)|]. destruct vp as [ [v p]|]; [|done].
  destruct Hvp as [Hv Hp]. destruct (hex_text v Hv) as (? & ? & ?). destruct (hex_text p Hp) as (? & ? & ?).
  constructor; [|constructor; [|constructor] ]; (split; [done|]; split; [done|]; split; [lia|]; split; [|done]);
    repeat (constructor; try done).
Qed.

Lemma zlen_name cn vp : name_ok cn vp → zlen (name_content cn vp) ≤ 400.
Proof.
  intros Hok%name_attrs_short. unfold name_content. assert (length (name_attrs cn vp) ≤ 3)%nat as Hlen by (by destruct vp as [ [v p]|]; cbn; lia).
  assert (∀ l, Forall (λ '(o, v), from_utf8 v = true ∧ zlen o ≤ 10 ∧ zlen v ≤ 64 ∧ bytes_ok o ∧ bytes_ok v) l →
    zlen (concat (map (λ '(o, v), tlv 0x31 (rdn_bytes o v)) l)) ≤ 100 * Z.of_nat (length l)) as Hsum.
  { induction 1 as [|[o v] l (_ & Ho & Hv & _) _ IH]; [done|]. cbn [map concat length]. rewrite zlen_app.
    pose proof (zlen_tlv 0x31 (rdn_bytes o v)). pose proof (zlen_rdn o v). lia. }
  specialize (Hsum _ Hok). lia.
Qed.

Lemma build_name_at {E} cn vp : name_ok cn vp → build_name (E:=E) cn vp = Ok (tlv 0x30 (name_content cn vp)).
Proof.
  intros Hok. pose proof (zlen_name cn vp Hok) as Hlen. pose proof (name_attrs_short cn vp Hok) as Hattrs.
  destruct Hok as (Hu & _). unfold build_name. rewrite Hu. cbn [negb].
  unfold name_content, name_attrs in *. apply Forall_cons in Hattrs as [(_ & _ & Hcn & _) Hvp].
  rewrite name_rdn_at by (done || lia). cbn [res_bind]. destruct vp as [ [vid pid]|].
  - apply Forall_cons in Hvp as [(_ & _ & Hv & _) Hvp]. apply Forall_cons in Hvp as [(_ & _ & Hp & _) _].
    rewrite !name_rdn_at by (done || lia). cbn [res_bind]. apply der_tlv_eq. by apply (Z.le_trans _ _ _ Hlen).
  - apply der_tlv_eq. by apply (Z.le_trans _ _ _ Hlen).
Qed.

(** What [parse_vid_pid] finds in a generated name. *)
Definition name_ids (cn : bytes) (vp : option (Z * Z)) : option Z * option Z :=
  match vp with
  | Some (vid, pid) => (Some vid, Some pid)
  | None => (extract_hex_tag cn (ascii "Mvid:"), extract_hex_tag cn (ascii "Mpid:"))
  end.

Lemma attr_at acc o v : zlen o ≤ 100 → zlen v ≤ 100 → from_utf8 v = true →
  vid_pid_rdn acc (rdn_bytes o v) =
  let '(vid, pid, cn) := acc in
  Ok (if bool_decide (o = MATTER_VID) then (u16_from_hex v, pid, cn)
      else if bool_decide (o = MATTER_PID) then (vid, u16_from_hex v, cn)
      else if bool_decide (o = COMMON_NAME) then (vid, pid, Some v) else acc).
Proof.
  intros Ho Hv Hu. destruct acc as [ [vid pid] cn]. unfold vid_pid_rdn, rdn_bytes. pose proof (zlen_atv o v).
  change [tlv 0x30 (atv_bytes o v)] with (map (tlv 0x30) [atv_bytes o v]). apply all_at.
  { constructor; [lia|constructor]. }
  cbn [fold_items]. unfold vid_pid_attr. erewrite within_at; [cbn [res_bind]; reflexivity|].
  unfold atv_bytes. cbn [concat]. eapply at_bind; [apply at_expect; lia|].
  rewrite app_nil_r. eapply at_bind_end; [apply at_read; lia|]. cbv beta iota. cbn [negb Z.eqb andb Pos.eqb]. rewrite Hu. apply at_ret.
Qed.

Lemma parse_name_at cn vp : name_ok cn vp → parse_vid_pid (name_content cn vp) = Ok (name_ids cn vp).
Proof.
  intros Hok. pose proof (name_attrs_short cn vp Hok) as Hattrs. destruct Hok as (Hu & _ & Hl & Hvp).
  unfold parse_vid_pid, name_content.
  replace (map (λ '(o, v), tlv 0x31 (rdn_bytes o v)) (name_attrs cn vp))
    with (map (tlv 0x31) (map (λ '(o, v), rdn_bytes o v) (name_attrs cn vp))).
  2:{ rewrite map_map. apply map_ext. by intros [o v]. }
  erewrite all_at; [|apply List.Forall_map; eapply Forall_impl; [exact Hattrs|]|].
  2:{ intros [o v] (_ & Ho & Hv & _). pose proof (zlen_rdn o v). lia. }
  2:{ unfold name_attrs. cbn [map fold_items]. rewrite attr_at by (done || lia). cbn [res_bind].
      rewrite bool_decide_false, bool_decide_false, bool_decide_true by done.
      instantiate (1 := match vp with Some (v, p) => (Some v, Some p, Some cn) | None => (None, None, Some cn) end).
      destruct vp as [ [v p]|]; [|done]. destruct Hvp as [Hv Hp]. destruct (hex_text v Hv) as (? & _ & ?). destruct (hex_text p Hp) as (? & _ & ?).
      cbn [map fold_items]. rewrite attr_at by (done || lia). cbn [res_bind]. rewrite bool_decide_true, u16_hex_round by done.
      rewrite attr_at by (done || lia). cbn [res_bind]. rewrite bool_decide_false, bool_decide_true, u16_hex_round by done. done. }
  cbn [res_bind]. by destruct vp as [ [v p]|].
Qed.

(** *** Keys and signatures *)

Definition alg_content : bytes := concat [tlv 0x06 ECDSA_WITH_SHA256].
Definition ec_alg_content : bytes := concat [tlv 0x06 EC_PUBLIC_KEY; tlv 0x06 PRIME256V1].
Definition spki_content (k : bytes) : bytes := concat [tlv 0x30 ec_alg_content; tlv 0x03 (0 :: k)].

Lemma ecdsa_alg_at {E} : ecdsa_alg (E:=E) = Ok (tlv 0x30 alg_content).
Proof. done. Qed.
Lemma check_alg_at : check_ecdsa_sha256_alg alg_content = Ok ().
Proof. done. Qed.

Lemma zlen_spki k : zlen k = 65 → zlen (spki_content k) ≤ 110.
Proof.
  intros Hk. unfold spki_content. cbn [concat]. rewrite !zlen_app. pose proof (zlen_tlv 0x03 (0 :: k)) as H.
  rewrite zlen_cons in H. change (zlen (tlv 0x30 ec_alg_content)) with 21. rewrite (zlen_nil (A:=Z)). lia.
Qed.

Lemma ec_spki_at {E} k : zlen k = 65 → ec_spki (E:=E) k = Ok (tlv 0x30 (spki_content k)).
Proof.
  intros Hk. pose proof (zlen_spki k Hk). unfold ec_spki, der_oid, bit_string, der_seq.
  rewrite !(der_tlv_eq 6) by done. cbn [res_bind]. rewrite der_tlv_eq by done. cbn [res_bind].
  rewrite der_tlv_eq by (rewrite zlen_cons; lia). cbn [res_bind]. apply der_tlv_eq. by apply (Z.le_trans _ 110).
Qed.

Lemma parse_spki_at k : zlen k = 65 → parse_spki (spki_content k) = Ok k.
Proof.
  intros Hk. apply within_at. unfold spki_content. cbn [concat].
  eapply at_bind; [apply at_expect; done|]. eapply at_bind_nil; [by apply at_lift|].
  rewrite app_nil_r. eapply at_bind_end; [apply at_expect; rewrite zlen_cons; lia|]. cbn [negb Z.eqb]. rewrite Hk. apply at_ret.
Qed.

Section signed.
Context `{Ec : Ecdsa} `{!EcdsaLaws Ec}.

(** What [signed_der] makes of a tbs: the pieces and the signature. *)
Lemma signed_der_at {E} key c : is_Some (sk_sign key []) → zlen c ≤ 2000 →
  let tbs := tlv 0x30 c in
  ∃ sig d content, signed_der (E:=E) key tbs = Ok (tlv 0x30 content) ∧
    content = concat [tbs; tlv 0x30 alg_content; tlv 0x03 (0 :: d)] ∧ zlen content ≤ 2200 ∧ zlen d ≤ 90 ∧
    sk_sign key tbs = Some sig ∧ zlen sig = 64 ∧ parse_ecdsa_der_signature d = Ok sig.
Proof.
  intros Hk Hc tbs. destruct (sk_sign_all key [] tbs Hk) as [sig Hsig].
  destruct (sk_sign_verifies key tbs sig Hsig) as (Hlen & Hb & _).
  destruct (ecdsa_signature_at sig Hlen Hb) as (d & Hd & Hdl & Hp & _).
  exists sig, d, (concat [tbs; tlv 0x30 alg_content; tlv 0x03 (0 :: d)]).
  assert (zlen (concat [tbs; tlv 0x30 alg_content; tlv 0x03 (0 :: d)]) ≤ 2200) as Hcl.
  { cbn [concat]. rewrite !zlen_app, (zlen_nil (A:=Z)). subst tbs. pose proof (zlen_tlv 0x30 c).
    change (zlen (tlv 0x30 alg_content)) with 12. pose proof (zlen_tlv 0x03 (0 :: d)) as H'. rewrite zlen_cons in H'. lia. }
  split; [|by repeat (split; [done|])].
  unfold signed_der. rewrite ecdsa_alg_at. cbn [res_bind]. unfold sign_ecdsa_p256. rewrite Hsig. cbn [ok_or expect_ok res_bind].
  rewrite Hd. cbn [res_bind]. unfold bit_string. rewrite der_tlv_eq by (rewrite zlen_cons; lia). cbn [res_bind].
  apply der_tlv_eq. lia.
Qed.

Definition cri_content (k : bytes) : bytes :=
  concat [tlv 0x02 [0x00]; tlv 0x30 (name_content (ascii "csr") None); tlv 0x30 (spki_content k); tlv (Z.lor 0xA0 0) []].

Lemma csr_name_ok : name_ok (ascii "csr") None.
Proof. repeat (split || constructor); done. Qed.

Lemma zlen_cri k : zlen k = 65 → zlen (cri_content k) ≤ 600.
Proof.
  intros Hk. unfold cri_content. cbn [concat]. rewrite !zlen_app, (zlen_nil (A:=Z)).
  pose proof (zlen_name _ _ csr_name_ok). pose proof (zlen_spki k Hk).
  pose proof (zlen_tlv 0x30 (name_content (ascii "csr") None)). pose proof (zlen_tlv 0x30 (spki_content k)).
  change (zlen (tlv 0x02 [0x00])) with 3. change (zlen (tlv (Z.lor 0xA0 0) [])) with 2. lia.
Qed.

(** The device's signing request is one the commissioner accepts, and the key
    it carries is the device's. *)
Lemma csr_accepted {E} sk : is_Some (sk_sign sk []) →
  ∃ csr, generate_csr (E:=E) sk = Ok csr ∧ parse_csr csr = Ok (sk_public sk) ∧ zlen csr ≤ 2300.
Proof.
  intros Hk. destruct (sk_public_key sk) as [Hpk Hpb].
  pose proof (zlen_cri _ Hpk) as Hcri. pose proof (zlen_name _ _ csr_name_ok). pose proof (zlen_spki _ Hpk).
  destruct (signed_der_at (E:=E) sk (cri_content (sk_public sk)) Hk (Z.le_trans _ 600 2000 Hcri ltac:(done)))
    as (sig & d & content & Hs & Hcontent & Hlen & Hd & Hsig & Hsl & Hp).
  destruct (sk_sign_verifies sk _ sig Hsig) as (_ & _ & H1 & H2 & H3).
  exists (tlv 0x30 content). split; [|split].
  - unfold generate_csr, make_test_csr, make_cri. rewrite build_name_at by apply csr_name_ok.
    rewrite ec_spki_at by done. unfold der_integer, context_constructed. rewrite !der_tlv_eq by done. cbn [res_bind].
    unfold der_seq. rewrite der_tlv_eq by (by apply (Z.le_trans _ _ _ Hcri)). cbn [res_bind]. exact Hs.
  - unfold parse_csr. rewrite (within_at _ _ content) by (apply at_expect; lia). cbn [res_bind].
    apply within_at. rewrite Hcontent. cbn [concat].
    eapply at_bind; [apply at_raw_seq; lia|]. cbv beta iota.
    eapply at_bind; [by apply at_expect|]. eapply at_bind_nil; [by apply at_lift, check_alg_at|].
    rewrite app_nil_r. eapply at_bind_end; [apply at_expect; rewrite zlen_cons; lia|].
    eapply at_bind_nil; [by apply at_lift|]. eapply at_bind_nil.
    { apply at_lift. unfold cri_content. cbn [concat]. rewrite app_nil_r, !app_assoc. apply within_prefix. rewrite <- app_assoc.
      eapply at_bind; [by apply at_expect|]. eapply at_bind; [apply at_expect; lia|].
      eapply at_bind_end; [apply at_expect; lia|]. apply at_lift. by apply parse_spki_at. }
    eapply at_bind_nil; [|apply at_ret]. apply at_lift. unfold verify_ecdsa_p256. rewrite H1, H2. cbn [negb]. by rewrite H3.
  - pose proof (zlen_tlv 0x30 content). lia.
Qed.
End signed.

(** *** Extensions *)

Definition critical_content (o v : bytes) : bytes := concat [tlv 0x06 o; tlv 0x01 [0xFF]; tlv 0x04 v].
Definition plain_content (o v : bytes) : bytes := concat [tlv 0x06 o; tlv 0x04 v].

Lemma zlen_critical o v : zlen (critical_content o v) ≤ zlen o + zlen v + 11.
Proof.
  unfold critical_content. pose proof (zlen_tlv 6 o). pose proof (zlen_tlv 4 v). cbn [concat].
  rewrite !zlen_app, (zlen_nil (A:=Z)). change (zlen (tlv 0x01 [0xFF])) with 3. lia.
Qed.
Lemma zlen_plain o v : zlen (plain_content o v) ≤ zlen o + zlen v + 8.
Proof.
  unfold plain_content. pose proof (zlen_tlv 6 o). pose proof (zlen_tlv 4 v). cbn [concat].
  rewrite !zlen_app, (zlen_nil (A:=Z)). lia.
Qed.

Lemma gen_critical_at {E} o v : zlen o ≤ 10 → zlen v ≤ 100 →
  gen_critical (E:=E) o v = Ok (tlv 0x30 (critical_content o v)).
Proof.
  intros Ho Hv. pose proof (zlen_critical o v). unfold gen_critical, der_oid, der_boolean, octet_string, der_seq.
  rewrite (der_tlv_eq 6) by lia. cbn [res_bind]. rewrite (der_tlv_eq 1) by done. cbn [res_bind].
  rewrite (der_tlv_eq 4) by lia. cbn [res_bind]. apply der_tlv_eq. fold (critical_content o v). lia.
Qed.
Lemma gen_plain_at {E} o v : zlen o ≤ 10 → zlen v ≤ 100 →
  gen_plain (E:=E) o v = Ok (tlv 0x30 (plain_content o v)).
Proof.
  intros Ho Hv. pose proof (zlen_plain o v). unfold gen_plain, der_oid, octet_string, der_seq.
  rewrite (der_tlv_eq 6) by lia. cbn [res_bind]. rewrite (der_tlv_eq 4) by lia. cbn [res_bind].
  apply der_tlv_eq. fold (plain_content o v). lia.
Qed.

Lemma ext_critical_at acc o v a : zlen o ≤ 10 → zlen v ≤ 100 → x509_ext_value acc o v = Ok a →
  x509_ext acc (critical_content o v) = Ok a.
Proof.
  intros Ho Hv He. apply within_at. unfold critical_content. cbn [concat]. eapply at_bind; [apply at_expect; lia|].
  eapply at_bind; [by apply at_optional|]. rewrite app_nil_r. eapply at_bind_end; [apply at_expect; lia|]. by apply at_lift.
Qed.
Lemma ext_plain_at acc o v a : zlen o ≤ 10 → zlen v ≤ 100 → x509_ext_value acc o v = Ok a →
  x509_ext acc (plain_content o v) = Ok a.
Proof.
  intros Ho Hv He. apply within_at. unfold plain_content. cbn [concat]. eapply at_bind; [apply at_expect; lia|].
  apply at_optional_other; [done|]. rewrite app_nil_r. eapply at_bind_end; [apply at_expect; lia|]. by apply at_lift.
Qed.

(** *** Generated certificates *)

(** The value of the basic constraints of a role. *)
Definition bc_value (bc : GenConstraints) : bytes :=
  tlv 0x30 (match bc with
            | Ca None => tlv 0x01 [0xFF]
            | Ca (Some n) => concat [tlv 0x01 [0xFF]; tlv 0x02 [n]]
            | _ => []
            end).
Definition bc_is_ca (bc : GenConstraints) : option bool :=
  match bc with Absent => None | EndEntity => Some false | Ca _ => Some true end.
Definition ku_value (bits : Z) : bytes := let '(unused, b) := key_usage_bits bits in tlv 0x03 (unused :: b).
Definition akid_value (id : bytes) : bytes := tlv 0x30 (concat [tlv 0x80 id]).

Lemma bc_value_short bc : zlen (bc_value bc) ≤ 8.
Proof. by destruct bc as [| |[n|] ]. Qed.
Lemma ku_value_short bits : zlen (ku_value bits) ≤ 7.
Proof.
  unfold ku_value. pose proof (key_usage_bits_len bits) as H. destruct (key_usage_bits bits) as [u b]. cbn [snd] in H.
  pose proof (zlen_tlv 3 (u :: b)) as H'. rewrite zlen_cons in H'. lia.
Qed.
Lemma akid_value_short id : zlen id = 20 → zlen (akid_value id) ≤ 28.
Proof. intros Hid. unfold akid_value. cbn [concat]. rewrite app_nil_r. len_tac. lia. Qed.

(** The nine named bits survive the bit string. *)
Lemma key_usage_round bits : 0 ≤ bits < 512 → parse_key_usage (ku_value bits) = Ok bits.
Proof.
  intros Hb.
  assert (forallb (λ n, match parse_key_usage (ku_value (Z.of_nat n)) with Ok v => v =? Z.of_nat n | _ => false end)
    (seq 0 512) = true) as H by (vm_compute; reflexivity).
  rewrite forallb_forall in H. specialize (H (Z.to_nat bits)). rewrite Z2Nat.id in H by lia.
  assert (In (Z.to_nat bits) (seq 0 512)) as Hin by (apply in_seq; lia). specialize (H Hin).
  destruct (parse_key_usage (ku_value bits)) as [v|e| |]; try done. by apply Z.eqb_eq in H as ->.
Qed.

(** The extensions of a generated certificate, with their criticality. *)
Definition gen_exts (bc : GenConstraints) (skid akid : bytes) (usage : option Z) : list (bool * bytes * bytes) :=
  match bc with Absent => [] | _ => [(true, OID_BASIC_CONSTRAINTS, bc_value bc)] end ++
  [(false, OID_SUBJECT_KEY_ID, tlv 0x04 skid); (false, OID_AUTHORITY_KEY_ID, akid_value akid)] ++
  match usage with Some bits => [(true, OID_KEY_USAGE, ku_value bits)] | None => [] end.
Definition ext_content : bool * bytes * bytes → bytes :=
  λ '(critical, o, v), (if critical then critical_content else plain_content) o v.

Lemma ext_at acc (critical : bool) o v a : zlen o ≤ 10 → zlen v ≤ 100 → x509_ext_value acc o v = Ok a →
  x509_ext acc (ext_content (critical, o, v)) = Ok a.
Proof. destruct critical; [apply ext_critical_at|apply ext_plain_at]. Qed.

(** What the parser finds in them. *)
Definition found_exts (bc : GenConstraints) (skid akid : bytes) (usage : option Z) : Exts :=
  (Some skid, Some akid, bc_is_ca bc, usage).

Lemma gen_exts_short bc skid akid usage : zlen skid = 20 → zlen akid = 20 →
  Forall (λ '(_, o, v), zlen o ≤ 10 ∧ zlen v ≤ 28) (gen_exts bc skid akid usage).
Proof.
  intros Hs Ha. unfold gen_exts. rewrite !Forall_app. split_and!.
  - pose proof (bc_value_short bc). assert (zlen OID_BASIC_CONSTRAINTS ≤ 10 ∧ zlen (bc_value bc) ≤ 28) by (split; [done|lia]).
    by destruct bc; [constructor|constructor; [|constructor]..].
  - pose proof (akid_value_short akid Ha). pose proof (zlen_tlv 4 skid).
    constructor; [split; [done|lia]|]. constructor; [split; [done|lia]|constructor].
  - destruct usage as [bits|]; constructor; [|constructor]. pose proof (ku_value_short bits). split; [done|lia].
Qed.

Lemma bc_ext_at acc bc : bc ≠ Absent →
  let '(skid, akid, _, usage) := acc in
  x509_ext_value acc OID_BASIC_CONSTRAINTS (bc_value bc) = Ok (skid, akid, bc_is_ca bc, usage).
Proof. destruct acc as [ [ [skid akid] ca] usage]. by destruct bc as [| |[n|] ]. Qed.

Lemma gen_exts_at bc skid akid usage : zlen skid = 20 → zlen akid = 20 → from_option (λ b, 0 ≤ b < 512) True usage →
  der_all 0x30 x509_ext (None, None, None, None)
    (concat (map (tlv 0x30) (map ext_content (gen_exts bc skid akid usage)))) = Ok (found_exts bc skid akid usage).
Proof.
  intros Hs Ha Hu. apply all_at.
  { apply List.Forall_map. eapply Forall_impl; [by apply gen_exts_short|]. intros [ [c o] v] [Ho Hv].
    pose proof (zlen_critical o v). pose proof (zlen_plain o v). destruct c; cbn [ext_content]; lia. }
  unfold gen_exts. pose proof (akid_value_short akid Ha). pose proof (zlen_tlv 4 skid). pose proof (bc_value_short bc).
  assert (Htail : ∀ ca, fold_items x509_ext (None, None, ca, None)
    (map ext_content ([(false, OID_SUBJECT_KEY_ID, tlv 0x04 skid); (false, OID_AUTHORITY_KEY_ID, akid_value akid)] ++
       match usage with Some bits => [(true, OID_KEY_USAGE, ku_value bits)] | None => [] end)) =
    Ok (Some skid, Some akid, ca, usage)).
  { intros ca. cbn [app map fold_items].
    rewrite (ext_at _ false OID_SUBJECT_KEY_ID _ (Some skid, None, ca, None)); [|done|lia|].
    2:{ unfold x509_ext_value. rewrite bool_decide_true by done. by rewrite (within_at _ _ skid) by (apply at_expect; lia). }
    cbn [res_bind]. rewrite (ext_at _ false OID_AUTHORITY_KEY_ID _ (Some skid, Some akid, ca, None)); [|done|lia|].
    2:{ unfold x509_ext_value, akid_value. rewrite bool_decide_false, bool_decide_true by done.
        rewrite (within_at _ _ (concat [tlv 0x80 akid])) by (apply at_expect; cbn [concat]; rewrite app_nil_r; pose proof (zlen_tlv 0x80 akid); lia). cbn [res_bind concat].
        rewrite app_nil_r. by rewrite (within_at _ _ (Some akid)) by (apply at_optional; lia). }
    cbn [res_bind]. destruct usage as [bits|]; [|done]. cbn [map fold_items]. pose proof (ku_value_short bits).
    rewrite (ext_at _ true OID_KEY_USAGE _ (Some skid, Some akid, ca, Some bits)); [done|done|lia|].
    unfold x509_ext_value. rewrite !bool_decide_false, bool_decide_true by done. by rewrite (key_usage_round bits Hu). }
  assert (Hbc : bc ≠ Absent → x509_ext (None, None, None, None) (ext_content (true, OID_BASIC_CONSTRAINTS, bc_value bc)) =
    Ok (None, None, bc_is_ca bc, None)).
  { intros Hne. apply ext_at; [done|lia|]. exact (bc_ext_at (None, None, None, None) bc Hne). }
  destruct bc as [| |p]; [exact (Htail None)|..]; cbn [app map fold_items]; rewrite Hbc by done; apply Htail.
Qed.

Lemma zlen_gen_exts bc skid akid usage : zlen skid = 20 → zlen akid = 20 →
  zlen (concat (map (tlv 0x30) (map ext_content (gen_exts bc skid akid usage)))) ≤ 240.
Proof.
  intros Hs Ha. pose proof (gen_exts_short bc skid akid usage Hs Ha) as H.
  assert (length (gen_exts bc skid akid usage) ≤ 4)%nat as Hlen by (by destruct bc, usage; cbn; lia).
  assert (Hsum : ∀ l, Forall (λ '(_, o, v), zlen o ≤ 10 ∧ zlen v ≤ 28) l →
    zlen (concat (map (tlv 0x30) (map ext_content l))) ≤ 60 * Z.of_nat (length l)).
  { induction 1 as [|[ [c o] v] l [Ho Hv] _ IH]; [done|]. cbn [map concat length]. rewrite zlen_app.
    pose proof (zlen_tlv 0x30 (ext_content (c, o, v))). pose proof (zlen_critical o v). pose proof (zlen_plain o v).
    assert (zlen (ext_content (c, o, v)) ≤ zlen o + zlen v + 11) by (destruct c; cbn [ext_content]; lia). lia. }
  specialize (Hsum _ H). lia.
Qed.

Section generated.
Context `{Ec : Ecdsa} `{!EcdsaLaws Ec} `{H1 : Sha1} `{!Sha1Laws}.

Definition validity_content : bytes := concat [tlv 0x17 (ascii "260101000000Z"); tlv 0x17 (ascii "300101000000Z")].

Section one.
Context (subject issuer subject_key signer_key : bytes) (bc : GenConstraints).
Context (issuer_vid_pid subject_vid_pid : option (Z * Z)) (usage : option Z).
Let subject_pub := sk_public subject_key.
Let skid := subject_key_id subject_pub.
Let akid := subject_key_id (sk_public signer_key).
Let exts := gen_exts bc skid akid usage.

Definition gen_tbs_content : bytes := concat [
  tlv 0xA0 (tlv 0x02 [2]); tlv 0x02 [0x01]; tlv 0x30 alg_content; tlv 0x30 (name_content issuer issuer_vid_pid);
  tlv 0x30 validity_content; tlv 0x30 (name_content subject subject_vid_pid); tlv 0x30 (spki_content subject_pub);
  tlv 0xA3 (tlv 0x30 (concat (map (tlv 0x30) (map ext_content exts))))].

(** What a generated certificate parses to. *)
Definition gen_x509 (signature : bytes) : X509Cert :=
  let '(vid, pid) := name_ids subject subject_vid_pid in
  {| xc_tbs := tlv 0x30 gen_tbs_content; xc_public_key := subject_pub;
     xc_issuer := tlv 0x30 (name_content issuer issuer_vid_pid);
     xc_subject := tlv 0x30 (name_content subject subject_vid_pid); xc_signature := signature;
     xc_skid := Some skid; xc_akid := Some akid; xc_vid := vid; xc_pid := pid; xc_is_ca := bc_is_ca bc;
     xc_not_before := Some (ascii "260101000000Z"); xc_not_after := Some (ascii "300101000000Z");
     xc_key_usage := usage |}.

Hypothesis Hsubject : name_ok subject subject_vid_pid.
Hypothesis Hissuer : name_ok issuer issuer_vid_pid.
Hypothesis Husage : from_option (λ b, 0 ≤ b < 512) True usage.

Local Lemma skid_len : zlen skid = 20.
Proof. apply sha1_length. Qed.
Local Lemma akid_len : zlen akid = 20.
Proof. apply sha1_length. Qed.
Local Lemma pub_len : zlen subject_pub = 65.
Proof. apply sk_public_key. Qed.

Lemma gen_tbs_short : zlen gen_tbs_content ≤ 1400.
Proof.
  pose proof (zlen_name _ _ Hsubject). pose proof (zlen_name _ _ Hissuer). pose proof (zlen_spki _ pub_len).
  pose proof (zlen_gen_exts bc skid akid usage skid_len akid_len) as He. fold exts in He.
  unfold gen_tbs_content. cbn [concat]. rewrite !zlen_app, (zlen_nil (A:=Z)).
  pose proof (zlen_tlv 0x30 (name_content issuer issuer_vid_pid)).
  pose proof (zlen_tlv 0x30 (name_content subject subject_vid_pid)). pose proof (zlen_tlv 0x30 (spki_content subject_pub)).
  revert He. generalize (concat (map (tlv 0x30) (map ext_content exts))). intros e He.
  pose proof (zlen_tlv 0x30 e). pose proof (zlen_tlv 0xA3 (tlv 0x30 e)).
  change (zlen (tlv 0xA0 (tlv 0x02 [2]))) with 5. change (zlen (tlv 0x02 [0x01])) with 3.
  change (zlen (tlv 0x30 alg_content)) with 12. change (zlen (tlv 0x30 validity_content)) with 32. lia.
Qed.

Lemma basic_constraints_ext_at {E} c : c ≠ Absent →
  basic_constraints_ext (E:=E) c = Ok (tlv 0x30 (ext_content (true, OID_BASIC_CONSTRAINTS, bc_value c))).
Proof.
  intros Hc. unfold basic_constraints_ext, der_integer, der_seq, der_boolean.
  rewrite !(der_tlv_eq 1) by done. cbn [res_bind].
  destruct c as [| |[n|] ]; [done|..]; try (rewrite (der_tlv_eq 2) by done); cbn [res_bind];
    rewrite (der_tlv_eq 48) by done; cbn [res_bind]; by apply gen_critical_at.
Qed.

Lemma key_usage_ext_at {E} bits :
  key_usage_ext (E:=E) bits = Ok (tlv 0x30 (ext_content (true, OID_KEY_USAGE, ku_value bits))).
Proof.
  unfold key_usage_ext. pose proof (ku_value_short bits) as Hv. unfold ku_value in *. destruct (key_usage_bits bits) as [u b] eqn:Hb.
  pose proof (key_usage_bits_len bits) as Hl. rewrite Hb in Hl. cbn [snd] in Hl.
  unfold bit_string. rewrite (der_tlv_eq 3) by (rewrite zlen_cons; lia). cbn [res_bind]. apply gen_critical_at; [done|lia].
Qed.

Lemma make_tbs_at {E} :
  make_tbs (E:=E) subject issuer subject_key signer_key bc issuer_vid_pid subject_vid_pid usage = Ok (tlv 0x30 gen_tbs_content).
Proof.
  pose proof gen_tbs_short as Hshort. pose proof (zlen_gen_exts bc skid akid usage skid_len akid_len) as He.
  pose proof skid_len as Hs. pose proof akid_len as Ha. pose proof (akid_value_short akid Ha) as Hav.
  pose proof (zlen_tlv 0x04 skid) as Hsv.
  unfold make_tbs. cbv zeta. fold subject_pub. fold skid akid.
  unfold der_integer, context_constructed, utc_time. rewrite !(der_tlv_eq 2) by done. cbn [res_bind].
  rewrite (der_tlv_eq (Z.lor 0xA0 0)) by done. rewrite ecdsa_alg_at. cbn [res_bind].
  rewrite !build_name_at by done. rewrite !(der_tlv_eq 0x17) by done. cbn [res_bind]. unfold der_seq at 1.
  rewrite der_tlv_eq by done. cbn [res_bind]. rewrite ec_spki_at by apply pub_len. cbn [res_bind].
  assert (skid_ext (E:=E) skid = Ok (tlv 0x30 (ext_content (false, OID_SUBJECT_KEY_ID, tlv 0x04 skid)))) as ->.
  { unfold skid_ext, octet_string. rewrite der_tlv_eq by lia. cbn [res_bind]. apply gen_plain_at; [done|lia]. }
  assert (akid_ext (E:=E) akid = Ok (tlv 0x30 (ext_content (false, OID_AUTHORITY_KEY_ID, akid_value akid)))) as ->.
  { unfold akid_ext, context_primitive, der_seq. rewrite (der_tlv_eq (Z.lor 0x80 0)) by lia. cbn [res_bind].
    rewrite der_tlv_eq; [cbn [res_bind]; apply gen_plain_at; [done|]|];
      [change (tlv 48 (concat [tlv (Z.lor 0x80 0) akid])) with (akid_value akid); lia|].
    change (Z.lor 0x80 0) with 0x80. cbn [concat]. rewrite app_nil_r. pose proof (zlen_tlv 0x80 akid). lia. }
  assert (∀ c, (match c with Absent => Ok [] | _ => let? b := basic_constraints_ext (E:=E) c in Ok [b] end) =
    Ok (map (tlv 0x30) (map ext_content match c with Absent => [] | _ => [(true, OID_BASIC_CONSTRAINTS, bc_value c)] end))) as ->.
  { intros c. assert (c = Absent ∨ c ≠ Absent) as [->|Hne] by (destruct c; [by left|by right..]); [done|].
    rewrite basic_constraints_ext_at by done. by destruct c. }
  cbn [res_bind].
  assert (∀ u, (match u with Some bits => let? k := key_usage_ext (E:=E) bits in Ok [k] | None => Ok [] end) =
    Ok (map (tlv 0x30) (map ext_content match u with Some bits => [(true, OID_KEY_USAGE, ku_value bits)] | None => [] end))) as ->.
  { intros [bits|]; [|done]. by rewrite key_usage_ext_at. }
  cbn [res_bind].
  match goal with |- context [der_seq (E:=E) ?l] => assert (l = map (tlv 0x30) (map ext_content exts)) as ->
    by (unfold exts, gen_exts; by rewrite !map_app) end.
  fold exts in He.
  unfold der_seq. rewrite der_tlv_eq by lia. cbn [res_bind]. change (Z.lor 0xA0 3) with 0xA3.
  rewrite (der_tlv_eq 0xA3).
  2:{ pose proof (zlen_tlv 0x30 (concat (map (tlv 0x30) (map ext_content exts)))). lia. }
  cbn [res_bind]. apply der_tlv_eq. apply (Z.le_trans _ 1400); [exact Hshort|done].
Qed.

(** The parser on the bytes of the tbs. *)
Lemma parse_tbs_at sig : der_within gen_tbs_content (parse_tbs (tlv 0x30 gen_tbs_content) sig) = Ok (gen_x509 sig).
Proof.
  pose proof (zlen_name _ _ Hsubject). pose proof (zlen_name _ _ Hissuer). pose proof (zlen_spki _ pub_len).
  pose proof (zlen_gen_exts bc skid akid usage skid_len akid_len) as He. fold exts in He.
  unfold gen_x509. set (tbs := tlv 0x30 gen_tbs_content). apply within_at. unfold gen_tbs_content, parse_tbs. cbn [concat].
  eapply at_bind; [by apply at_optional|]. eapply at_bind; [by apply at_expect|]. eapply at_bind; [by apply at_expect|].
  eapply at_bind; [apply at_raw_seq; lia|]. cbv beta iota. eapply at_bind; [by apply at_expect|].
  eapply at_bind_nil; [by apply at_lift|]. cbv beta iota. eapply at_bind; [apply at_raw_seq; lia|]. cbv beta iota.
  eapply at_bind; [apply at_expect; lia|]. eapply at_bind_nil; [apply at_lift, parse_spki_at, pub_len|].
  rewrite app_nil_r. eapply at_bind_end.
  { unfold x509_extensions. eapply at_bind_end; [apply at_optional|]; cbv beta iota.
    - pose proof (zlen_tlv 0x30 (concat (map (tlv 0x30) (map ext_content exts)))). lia.
    - apply at_lift. rewrite (within_at _ _ (concat (map (tlv 0x30) (map ext_content exts)))) by (apply at_expect; lia).
      cbn [res_bind]. apply gen_exts_at; [apply skid_len|apply akid_len|done]. }
  unfold found_exts. cbv beta iota. eapply at_bind_nil; [apply at_lift, parse_name_at; done|].
  destruct (name_ids subject subject_vid_pid) as [vid pid]. apply at_ret.
Qed.

(** A generated certificate parses back to what it was generated from, and its
    signature verifies under its signer's key. *)
Lemma make_cert_at {E} : is_Some (sk_sign signer_key []) → ∃ der sig,
  make_test_cert_ext (E:=E) subject issuer subject_key signer_key bc issuer_vid_pid subject_vid_pid usage = Ok der ∧
  parse_x509 der = Ok (gen_x509 sig) ∧
  ∀ c, xc_public_key c = sk_public signer_key → x509_verify_signed_by (gen_x509 sig) c = Ok ().
Proof.
  intros Hk. pose proof gen_tbs_short as Hshort.
  destruct (signed_der_at (E:=E) signer_key gen_tbs_content Hk ltac:(lia))
    as (sig & d & content & Hs & Hcontent & Hlen & Hd & Hsig & Hsl & Hp).
  destruct (sk_sign_verifies signer_key _ sig Hsig) as (_ & _ & Hv1 & Hv2 & Hv3).
  exists (tlv 0x30 content), sig. split; [|split].
  - unfold make_test_cert_ext. rewrite make_tbs_at. cbn [res_bind]. exact Hs.
  - unfold parse_x509. rewrite (within_at _ _ content) by (apply at_expect; lia). cbn [res_bind].
    apply within_at. rewrite Hcontent. cbn [concat].
    eapply at_bind; [apply at_raw_seq; lia|]. cbv beta iota.
    eapply at_bind; [by apply at_expect|]. eapply at_bind_nil; [by apply at_lift, check_alg_at|].
    rewrite app_nil_r. eapply at_bind_end; [apply at_expect; rewrite zlen_cons; lia|].
    eapply at_bind_nil; [by apply at_lift|]. apply at_lift, parse_tbs_at.
  - intros c Hc. unfold x509_verify_signed_by. rewrite Hc. unfold gen_x509. destruct (name_ids _ _) as [vid pid].
    cbn [xc_tbs xc_signature]. unfold verify_ecdsa_p256. rewrite Hv1, Hv2. cbn [negb]. by rewrite Hv3.
Qed.
End one.
End generated.

(** *** What the generators make is bytes *)

Definition makes {E} (m : res E bytes) : Prop := ∀ b, m = Ok b → bytes_ok b ∧ zlen b ≤ 65540.

Section makes.
Context {E : Type}.

Lemma makes_tlv t c : is_byte t → bytes_ok c → makes (der_tlv (E:=E) t c).
Proof.
  intros Ht Hc b Hb. pose proof (zlen_nonneg c). unfold der_tlv in Hb.
  destruct (Z.ltb_spec (zlen c) 128); [|destruct (Z.ltb_spec (zlen c) 256); [|destruct (Z.ltb_spec 65535 (zlen c)); [done|] ] ].
  all: simplify_eq; rewrite ?be_2; cbn [app]; autorewrite with mat; (split; [|lia]).
  all: repeat (apply Forall_cons; split); try done; unfold is_byte; try lia; apply Z.mod_pos_bound; lia.
Qed.

Lemma makes_bind (m : res E bytes) k : makes m → (∀ b, bytes_ok b → makes (k b)) → makes (let? b := m in k b).
Proof. intros Hm Hk b. destruct m as [a|e| |]; cbn; try done. apply Hk. by apply Hm. Qed.

Lemma makes_seq t l : is_byte t → Forall bytes_ok l → makes (der_tlv (E:=E) t (concat l)).
Proof. intros Ht Hl. apply makes_tlv; [done|]. by apply Forall_concat. Qed.

Ltac seq := apply makes_seq; [done|]; repeat (apply Forall_cons; split; [done|]); constructor.
Ltac piece x Hx := apply makes_bind; [first [by apply makes_tlv|done]|intros x Hx].

Lemma makes_critical o v : bytes_ok o → bytes_ok v → makes (gen_critical (E:=E) o v).
Proof. intros Ho Hv. piece i Hi. apply makes_bind; [apply makes_tlv; [done|by repeat constructor]|]. intros t Ht. piece x Hx. seq. Qed.

Lemma makes_plain o v : bytes_ok o → bytes_ok v → makes (gen_plain (E:=E) o v).
Proof. intros Ho Hv. piece i Hi. piece x Hx. seq. Qed.

Lemma makes_rdn o v : bytes_ok o → bytes_ok v → makes (name_rdn (E:=E) o v).
Proof. intros Ho Hv. piece i Hi. piece x Hx. apply makes_bind; [seq|]. intros atv Ha. seq. Qed.

Lemma makes_name cn vp : name_ok cn vp → makes (build_name (E:=E) cn vp).
Proof.
  intros (Hu & Hb & _ & Hvp). unfold build_name. rewrite Hu. cbn [negb].
  apply makes_bind; [apply makes_rdn; [by repeat constructor|done]|]. intros f Hf. destruct vp as [ [vid pid] |]; [|seq].
  destruct Hvp as [Hv Hp]. apply makes_bind; [apply makes_rdn; [by repeat constructor|by apply hex_text]|]. intros v Hvb.
  apply makes_bind; [apply makes_rdn; [by repeat constructor|by apply hex_text]|]. intros p Hpb. seq.
Qed.

Lemma makes_spki k : bytes_ok k → makes (ec_spki (E:=E) k).
Proof.
  intros Hk. do 2 (apply makes_bind; [apply makes_tlv; [done|by repeat constructor]|intros ? ?]).
  apply makes_bind; [seq|]. intros alg Ha. apply makes_bind; [apply makes_tlv; [done|by constructor]|]. intros key Hkey. seq.
Qed.

Lemma makes_alg : makes (ecdsa_alg (E:=E)).
Proof. apply makes_bind; [apply makes_tlv; [done|by repeat constructor]|]. intros o Ho. seq. Qed.

Lemma makes_uint b : bytes_ok b → makes (uint_integer (E:=E) b).
Proof.
  intros Hb. assert (bytes_ok (strip_leading b)) as Hs.
  { destruct (strip_leading_spec b) as (n & He & _). rewrite He in Hb. by apply Forall_app in Hb as [_ ?]. }
  unfold uint_integer. destruct (strip_leading b) as [|f l]; [by apply makes_tlv|]. case_match; apply makes_tlv; try done.
  by constructor.
Qed.

Context `{Ec : Ecdsa} `{!EcdsaLaws Ec}.

Lemma makes_signed key tbs : bytes_ok tbs → makes (signed_der (E:=E) key tbs).
Proof.
  intros Ht. unfold signed_der. apply makes_bind; [apply makes_alg|]. intros alg Ha.
  unfold sign_ecdsa_p256. destruct (sk_sign key tbs) as [sig|] eqn:Hsig; [|done]. cbn [ok_or expect_ok res_bind].
  destruct (sk_sign_verifies key tbs sig Hsig) as (_ & Hb & _). apply makes_bind.
  { apply makes_bind; [by apply makes_uint, Forall_take|]. intros r Hr.
    apply makes_bind; [by apply makes_uint, Forall_drop|]. intros s Hs. seq. }
  intros s Hs. apply makes_bind; [apply makes_tlv; [done|by constructor]|]. intros bits Hbits. seq.
Qed.

Lemma makes_csr sk : makes (generate_csr (E:=E) sk).
Proof.
  apply makes_bind; [|intros tbs; apply makes_signed].
  apply makes_bind; [apply makes_tlv; [done|by repeat constructor]|]. intros v Hv.
  apply makes_bind; [apply makes_name, csr_name_ok|]. intros n Hn.
  apply makes_bind; [apply makes_spki, sk_public_key|]. intros k Hk.
  apply makes_bind; [by apply makes_tlv|]. intros a Ha. seq.
Qed.

Context `{H1 : Sha1} `{!Sha1Laws}.

Lemma makes_cert subject issuer subject_key signer_key bc ivp svp usage :
  name_ok subject svp → name_ok issuer ivp → from_option (λ b, bytes_ok (fst (key_usage_bits b) :: snd (key_usage_bits b))) True usage →
  from_option is_byte True (match bc with Ca o => o | _ => None end) →
  makes (make_test_cert_ext (E:=E) subject issuer subject_key signer_key bc ivp svp usage).
Proof.
  intros Hs Hi Hu Hbc. apply makes_bind; [|intros tbs; apply makes_signed]. unfold make_tbs. cbv zeta.
  apply makes_bind; [apply makes_tlv; [done|by repeat constructor]|]. intros v Hv. piece version Hversion.
  apply makes_bind; [apply makes_tlv; [done|by repeat constructor]|]. intros serial Hserial.
  apply makes_bind; [apply makes_alg|]. intros alg Ha. apply makes_bind; [by apply makes_name|]. intros iss Hiss.
  do 2 (apply makes_bind; [apply makes_tlv; [done|by repeat constructor]|intros ? ?]).
  apply makes_bind; [seq|]. intros validity Hval. apply makes_bind; [by apply makes_name|]. intros sub Hsub.
  apply makes_bind; [apply makes_spki, sk_public_key|]. intros spki Hspki.
  assert (Hlist : ∀ (m : res E (list bytes)) k, (∀ l, m = Ok l → Forall bytes_ok l) →
    (∀ l, Forall bytes_ok l → makes (k l)) → makes (let? l := m in k l)).
  { intros m k Hm Hk. destruct m as [l| | |]; cbn; try done. by apply Hk, Hm. }
  apply Hlist.
  { intros l. assert (makes (basic_constraints_ext (E:=E) bc)) as Hb.
    { unfold basic_constraints_ext. apply Hlist; [|intros items Hitems; apply makes_bind; [by apply makes_seq|]; intros x Hx; apply makes_critical; [by repeat constructor|done] ].
      intros items. destruct bc as [| |o]; try by intros [= <-]. destruct o as [n|].
      - cbn [der_boolean der_integer der_tlv]. cbn. intros [= <-]. apply Forall_cons. split; [by repeat constructor|].
        apply Forall_singleton. do 2 (apply Forall_cons; split; [done|]). by apply Forall_singleton.
      - cbn. intros [= <-]. by repeat constructor. }
    destruct bc; [by intros [= <-]|..]; destruct (basic_constraints_ext _) as [bv| | |] eqn:He; try done; intros [= <-];
      apply Forall_singleton; by apply Hb. }
  intros bcs Hbcs. apply makes_bind.
  { apply makes_bind; [apply makes_tlv; [done|apply sha1_length]|]. intros x Hx. apply makes_plain; [by repeat constructor|done]. }
  intros skid Hskid. apply makes_bind.
  { apply makes_bind; [apply makes_tlv; [done|apply sha1_length]|]. intros k Hk. apply makes_bind; [seq|]. intros x Hx.
    apply makes_plain; [by repeat constructor|done]. }
  intros akid Hakid. apply Hlist.
  { intros l. destruct usage as [bits|]; [|by intros [= <-] ]. unfold key_usage_ext. cbn [from_option] in Hu.
    destruct (key_usage_bits bits) as [un bb]. cbn [fst snd] in Hu. assert (makes (let? value := bit_string un bb in gen_critical (E:=E) OID_KEY_USAGE value)) as Hm.
    { apply makes_bind; [by apply makes_tlv|]. intros x Hx. apply makes_critical; [by repeat constructor|done]. }
    destruct (let? value := _ in _) as [k| | |]; try done. intros [= <-]. apply Forall_singleton. by apply Hm. }
  intros ku Hku. apply makes_bind.
  { apply makes_seq; [done|]. apply Forall_app. split; [done|]. by repeat constructor. }
  intros exts Hexts. piece x Hx. seq.
Qed.
End makes.

Import ToyEcdsa.

(** ** Properties *)

(** Any bytes at all: parsing a certificate or a signing request ends in a
    value or an error, and what is accepted has a 65-octet key, a 64-octet
    signature and identifiers within 16 bits. *)
Theorem x509_untrusted `{Ec : Ecdsa} der : bytes_ok der →
  match parse_x509 der with Ok c => x509_ok c | Err _ => True | _ => False end ∧
  match parse_csr der with Ok k => bytes_ok k ∧ zlen k = 65 | Err _ => True | _ => False end.
Proof. intros Hd. split; [apply (parse_x509_yields der Hd)|apply (parse_csr_yields der Hd)]. Qed.

Lemma x509_untrusted_witness :
  match parse_x509 [0x30; 0x82; 0x01] with Ok c => x509_ok c | Err _ => True | _ => False end ∧
  parse_x509 [0x30; 0x82; 0x01] = Err (DerError "truncated length").
Proof. split; [|reflexivity]. apply (x509_untrusted (Ec:=toy_ecdsa) [0x30; 0x82; 0x01]). by repeat constructor. Defined.

(** The device's signing request is accepted by the commissioner, which
    reads out of it the device's public key: the request that [generate_csr]
    makes of a usable key parses, its signature over itself verifies, and no
    key but the signer's is returned. *)
Theorem csr_round_trip `{Ec : Ecdsa} {L : EcdsaLaws Ec} sk : is_Some (sk_sign sk []) →
  ∃ csr, generate_csr (E:=X509Error) sk = Ok csr ∧ parse_csr csr = Ok (sk_public sk) ∧ zlen csr ≤ 2300.
Proof. apply csr_accepted. Qed.

Lemma csr_round_trip_witness : ∃ csr,
  generate_csr (Ec:=toy_ecdsa) (E:=X509Error) (replicate 32 7) = Ok csr ∧
  parse_csr (Ec:=toy_ecdsa) csr = Ok (4 :: replicate 64 (32 * 7)).
Proof.
  destruct (csr_round_trip (Ec:=toy_ecdsa) (replicate 32 7)) as (csr & H1 & H2 & _); [by eexists|].
  exists csr. split; [exact H1|exact H2].
Defined.
