(* ===== verification/Attestation.v ===== *)
(** * Device attestation

    Models [crates/mat-controller/src/attestation.rs] (the commissioner's check
    of a device's certificate chain, its signed elements and its certification
    declaration), [cd.rs] (the development certification declaration) and
    [generate_dev_attestation] of [x509.rs].

    What the code only warns about is kept: [tracing::warn!] appends to the log
    that is the state of these operations. *)

From Stdlib Require Import String.
From S2P Require Import Prelude Tlv TlvValue Im Handler Crypto Fabrics Certs X509.

Open Scope string_scope.
Open Scope list_scope.
Open Scope Z_scope.

(** [sha2::Sha256::digest]. *)
Class Sha256 := sha256 : bytes → bytes.

Inductive AttestationError :=
  | Chain (what : string)
  | Nonce
  | Signature
  | Elements (what : string)
  | X509Failed (e : X509Error).

Inductive Warning :=
  | NotYetValid (label : string)
  | NotBeforeUnparseable (label : string)
  | Expired (label : string)
  | NotAfterUnparseable (label : string)
  | CdUnparseable (reason : string)
  | CdVendorMismatch
  | CdProductMismatch
  | CdTlvUnparseable (reason : string)
  | CdSignerInfoRejected (reason : string)
  | CdNoSignerCerts
  | CdNoSignerInfo
  | CdSignatureUnparseable
  | CdSignatureFailed.

Abbreviation Log := (list Warning).
Definition warn {E} (w : Warning) : M Log E () := modify (λ l, l ++ [w]).

(** ** Attestation elements *)

Definition encode_attestation_elements (cd nonce : bytes) (timestamp : Z) : fin bytes :=
  to_vec (start_struct Anonymous ;;! put_bytes (Context 1) cd ;;! put_bytes (Context 2) nonce ;;!
          put_uint (Context 3) timestamp ;;! end_container).

Definition attestation_tbs (elements challenge : bytes) : bytes := elements ++ challenge.

Definition el_conv (_ : TlvError) : AttestationError := Elements "tlv parse error".
Definition el_skip : M Reader AttestationError () :=
  adapt (λ e, match e with Truncated => Elements "truncated elements" | _ => Elements "tlv parse error" end)
    skip_container.

Definition elements_step (s : option bytes * option bytes) (el : Element) :
    M Reader AttestationError (option bytes * option bytes) :=
  let '(cd, nonce) := s in
  match el_tag el, el_value el with
  | _, (VStructStart | VArrayStart | VListStart) => el_skip ;;! ret (cd, nonce)
  | Context 1, VBytes b => ret (Some b, nonce)
  | Context 2, VBytes b =>
      if zlen b =? 32 then ret (cd, Some b) else throw (Elements "nonce wrong length")
  | _, _ => ret (cd, nonce)
  end.

Definition elements_reader : M Reader AttestationError (bytes * bytes) :=
  let! first := next_el el_conv (Elements "empty elements") in
  if negb (bool_decide (el_value first = VStructStart)) then throw (Elements "elements not a struct")
  else
    let! (cd, nonce) := walk el_conv (Elements "truncated elements") elements_step (None, None) in
    let! cd := lift (ok_or cd (Elements "no certification declaration")) in
    let! nonce := lift (ok_or nonce (Elements "no attestation nonce")) in
    ret (cd, nonce).

Definition parse_elements (elements : bytes) : res AttestationError (bytes * bytes) :=
  snd (elements_reader (Reader_new elements)).

(** ** Validity *)

Definition NO_EXPIRY_NOT_AFTER : bytes := ascii "99991231235959Z".

Definition is_digit (c : Z) : bool := (48 <=? c) && (c <=? 57).
(** [str::parse] of a slice of digits. *)
Definition dec (s : bytes) : Z := foldl (λ v c, 10 * v + (c - 48)) 0 s.

Definition parse_cert_time (raw : bytes) : option (Z * Z * Z * Z * Z * Z) :=
  match rev raw with
  | 90 :: r =>
      let digits := rev r in
      if negb (forallb is_digit digits) then None
      else
        yr ← (if zlen digits =? 12 then
                let yy := dec (zslice 0 2 digits) in
                Some (if yy <? 50 then 2000 + yy else 1900 + yy, drop 2 digits)
              else if zlen digits =? 14 then Some (dec (zslice 0 4 digits), drop 4 digits)
              else None);
        let '(year, rest) := yr in
        let mon := dec (zslice 0 2 rest) in
        let day := dec (zslice 2 4 rest) in
        let hour := dec (zslice 4 6 rest) in
        let min := dec (zslice 6 8 rest) in
        let sec := dec (zslice 8 10 rest) in
        if negb ((1 <=? mon) && (mon <=? 12)) || negb ((1 <=? day) && (day <=? 31)) ||
           (23 <? hour) || (59 <? min) || (60 <? sec)
        then None else Some (year, mon, day, hour, min, sec)
  | _ => None
  end.

(** [/] truncates in Rust; only the dividend of [era] can be negative. *)
Definition days_from_civil (y m d : Z) : Z :=
  let y := if m <=? 2 then y - 1 else y in
  let era := Z.quot (if 0 <=? y then y else y - 399) 400 in
  let yoe := y - era * 400 in
  let mp := (m + 9) mod 12 in
  let doy := (153 * mp + 2) / 5 + d - 1 in
  let doe := yoe * 365 + yoe / 4 - yoe / 100 + doy in
  era * 146097 + doe - 719468.

Definition epoch_seconds (year month day hour min sec : Z) : Z :=
  days_from_civil year month day * 86400 + hour * 3600 + min * 60 + sec.

(** [now]: the system clock since the Unix epoch, [None] before it. *)
Definition warn_if_out_of_validity {E} (now : option Z) (label : string) (cert : X509Cert) : M Log E () :=
  match now with
  | None => ret ()
  | Some now =>
      (match parse_cert_time <$> xc_not_before cert with
       | Some (Some (y, mo, d, h, mi, s)) =>
           if now <? epoch_seconds y mo d h mi s then warn (NotYetValid label) else ret ()
       | _ => warn (NotBeforeUnparseable label)
       end) ;;!
      match xc_not_after cert with
      | Some raw =>
          if bool_decide (raw = NO_EXPIRY_NOT_AFTER) then ret ()
          else match parse_cert_time raw with
               | Some (y, mo, d, h, mi, s) =>
                   if epoch_seconds y mo d h mi s <? now then warn (Expired label) else ret ()
               | None => warn (NotAfterUnparseable label)
               end
      | None => warn (NotAfterUnparseable label)
      end
  end.

(** ** The certification declaration (CMS) *)

Definition SHA256_OID : bytes := [0x60; 0x86; 0x48; 0x01; 0x65; 0x03; 0x04; 0x02; 0x01].
Definition PKCS7_DATA : bytes := [0x2A; 0x86; 0x48; 0x86; 0xF7; 0x0D; 0x01; 0x07; 0x01].
Definition PKCS7_SIGNED_DATA : bytes := [0x2A; 0x86; 0x48; 0x86; 0xF7; 0x0D; 0x01; 0x07; 0x02].
Definition CMS_MESSAGE_DIGEST : bytes := [0x2A; 0x86; 0x48; 0x86; 0xF7; 0x0D; 0x01; 0x09; 0x04].

Record CdSignerInfo := { si_signed_bytes : bytes; si_signature : bytes }.

(** A DER read under [map_err(|_| reason)]. *)
Definition labelled {A} (m : DR A) (reason : string) : M bytes string A := λ r,
  let (r', o) := m r in (r', map_err (λ _, reason) o).
Definition cms_within {A} (content : bytes) (m : M bytes string A) : res string A := snd (m content).

Section cms.
Context `{Sha256}.

(** [while !r.is_empty()] over the attributes. *)
Fixpoint digest_attr_loop (fuel : nat) (econtent : bytes) : M bytes string () :=
  match fuel with
  | O => out_of_fuel
  | S fuel =>
      let! r := get in
      match r with
      | [] => throw "signedAttrs missing messageDigest"
      | _ =>
          let! attr := labelled (der_expect 0x30) "bad signedAttrs attribute" in
          let! found := lift (cms_within attr (
            let! oid := labelled (der_expect 0x06) "bad signedAttrs attribute oid" in
            if negb (bool_decide (oid = CMS_MESSAGE_DIGEST)) then ret None
            else
              let! vals := labelled (der_expect 0x31) "bad messageDigest value set" in
              let! digest := lift (cms_within vals (labelled (der_expect 0x04) "messageDigest not an octet string")) in
              ret (Some digest))) in
          match found with
          | None => digest_attr_loop fuel econtent
          | Some digest =>
              if bool_decide (digest = sha256 econtent) then ret ()
              else throw "signedAttrs messageDigest does not match econtent"
          end
      end
  end.

Definition verify_message_digest_attr (attrs econtent : bytes) : res string () :=
  cms_within attrs (digest_attr_loop (S (length attrs)) econtent).

Definition parse_signer_info (content econtent : bytes) : res string CdSignerInfo :=
  cms_within content (
    let! _ := labelled der_read "signerinfo missing version" in
    let! _ := labelled der_read "signerinfo missing sid" in
    let! _ := labelled der_read "signerinfo missing digestAlgorithm" in
    let! t := labelled peek_tag "" in
    let! signed_bytes :=
      (if bool_decide (t = Some 0xA0) then
         let! (_, content, raw) := labelled der_read "bad signedAttrs" in
         match raw with
         | [] => throw "empty signedAttrs"
         | _ :: tail => lift (verify_message_digest_attr content econtent) ;;! ret (0x31 :: tail)
         end
       else ret econtent) in
    let! _ := labelled der_read "signerinfo missing signatureAlgorithm" in
    let! sig_bytes := labelled (der_expect 0x04) "signerinfo missing signature" in
    ret {| si_signed_bytes := signed_bytes; si_signature := sig_bytes |}).

(** [while matches!(sd_r.peek_tag(), Some(0xA0) | Some(0xA1)) { sd_r.read()? }]. *)
Fixpoint skip_sets (fuel : nat) : DR () :=
  match fuel with
  | O => out_of_fuel
  | S fuel =>
      let! t := peek_tag in
      if bool_decide (t = Some 0xA0 ∨ t = Some 0xA1) then let! _ := der_read in skip_sets fuel else ret ()
  end.

(** The first SignerInfo; any error of it is the early [return Ok((cd_tlv, None))]. *)
Definition first_signer : DR bytes :=
  let! r := get in
  skip_sets (S (length r)) ;;!
  let! signer_infos := der_expect 0x31 in
  lift (der_within signer_infos (der_expect 0x30)).

(** Up to the content; the reader is left after encapContentInfo. *)
Definition signed_content : M bytes string bytes :=
  let! _ := labelled der_read "missing version" in
  let! _ := labelled der_read "missing digestAlgorithms" in
  let! eci := labelled (der_expect 0x30) "missing encapContentInfo" in
  let! econtent_wrap := lift (cms_within eci (
    let! _ := labelled (der_expect 0x06) "missing econtent type oid" in
    labelled (der_expect 0xA0) "missing [0] econtent wrapper")) in
  lift (cms_within econtent_wrap (labelled (der_expect 0x04) "econtent not an octet string")).

Definition signed_data (der : bytes) : res string bytes :=
  let? ci := cms_within der (labelled (der_expect 0x30) "content info not a sequence") in
  let? wrapped := cms_within ci (
    let! _ := labelled (der_expect 0x06) "missing content type oid" in
    labelled (der_expect 0xA0) "missing [0] content wrapper") in
  cms_within wrapped (labelled (der_expect 0x30) "signed data not a sequence").

Definition parse_cms_signed_data (der : bytes) : M Log string (bytes * option CdSignerInfo) :=
  let! sd := lift (signed_data der) in
  let '(sd_r, content) := signed_content sd in
  let! cd_tlv := lift content in
  match snd (first_signer sd_r) with
  | Ok first =>
      match parse_signer_info first cd_tlv with
      | Ok v => ret (cd_tlv, Some v)
      | Err reason => warn (CdSignerInfoRejected reason) ;;! ret (cd_tlv, None)
      | Panic => panic
      | OutOfFuel => out_of_fuel
      end
  | Err _ => ret (cd_tlv, None)
  | Panic => panic
  | OutOfFuel => out_of_fuel
  end.
End cms.

Definition cd_conv (_ : TlvError) : string := "cd tlv parse error".

Definition pid_step (pids : list Z) (el : Element) : M Reader string (list Z) :=
  match el_value el with
  | VUint v => match try_u 16 v with Some v => ret (pids ++ [v]) | None => ret pids end
  | _ => ret pids
  end.

Definition cd_step (s : option Z * list Z) (el : Element) : M Reader string (option Z * list Z) :=
  let '(vid, pids) := s in
  match el_tag el, el_value el with
  | Context 1, VUint v => ret (try_u 16 v, pids)
  | Context 2, VArrayStart =>
      let! pids := walk cd_conv "truncated cd tlv product_id_array" pid_step pids in ret (vid, pids)
  | _, _ => ret (vid, pids)
  end.

Definition cd_reader : M Reader string (option Z * list Z) :=
  let! first := next_el cd_conv "empty cd tlv" in
  if negb (bool_decide (el_value first = VStructStart)) then throw "cd tlv not a struct"
  else walk cd_conv "truncated cd tlv" cd_step (None, []).

Definition parse_cd_vid_pid (cd_tlv : bytes) : res string (option Z * list Z) :=
  snd (cd_reader (Reader_new cd_tlv)).

Section verify.
Context `{Ec : Ecdsa} `{Sha256}.

(** [iter().any(..)]: a certificate whose key verifies the declaration. *)
Fixpoint any_signer (cd_signer_ders : list bytes) (signed_bytes raw_sig : bytes) : fin bool :=
  match cd_signer_ders with
  | [] => Ok false
  | der :: rest =>
      match parse_x509 der with
      | Ok cert =>
          if is_ok (verify_ecdsa_p256 (xc_public_key cert) signed_bytes raw_sig) then Ok true
          else any_signer rest signed_bytes raw_sig
      | Err _ => any_signer rest signed_bytes raw_sig
      | Panic => Panic
      | OutOfFuel => OutOfFuel
      end
  end.

Definition lift_fin {S E A} (m : fin A) : M S E A :=
  match m with Ok a => ret a | Err e => match e with end | Panic => panic | OutOfFuel => out_of_fuel end.

Definition verify_cd_signature_warn {E} (signer_info : option CdSignerInfo) (cd_signer_ders : list bytes) : M Log E () :=
  if bool_decide (cd_signer_ders = []) then warn CdNoSignerCerts
  else
    match signer_info with
    | None => warn CdNoSignerInfo
    | Some si =>
        match parse_ecdsa_der_signature (si_signature si) with
        | Ok raw_sig =>
            let! verified := lift_fin (any_signer cd_signer_ders (si_signed_bytes si) raw_sig) in
            if verified then ret () else warn CdSignatureFailed
        | Err _ => warn CdSignatureUnparseable
        | Panic => panic
        | OutOfFuel => out_of_fuel
        end
    end.

Definition cd_matches_dac {E} (cd_tlv : bytes) (dac : X509Cert) : M Log E () :=
  match parse_cd_vid_pid cd_tlv with
  | Ok (vid, pids) =>
      (match xc_vid dac, vid with
       | Some dac_vid, Some cd_vid => if negb (dac_vid =? cd_vid) then warn CdVendorMismatch else ret ()
       | _, _ => ret ()
       end) ;;!
      match xc_pid dac with
      | Some dac_pid =>
          if negb (bool_decide (pids = [])) && negb (bool_decide (dac_pid ∈ pids)) then warn CdProductMismatch
          else ret ()
      | None => ret ()
      end
  | Err reason => warn (CdTlvUnparseable reason)
  | Panic => panic
  | OutOfFuel => out_of_fuel
  end.

Definition verify_cd_warn {E} (cd_bytes : bytes) (dac : X509Cert) (cd_signer_ders : list bytes) : M Log E () := λ log,
  match parse_cms_signed_data cd_bytes log with
  | (log, Ok (cd_tlv, signer_info)) =>
      (cd_matches_dac cd_tlv dac ;;! verify_cd_signature_warn signer_info cd_signer_ders) log
  | (log, Err reason) => warn (CdUnparseable reason) log
  | (log, Panic) => (log, Panic)
  | (log, OutOfFuel) => (log, OutOfFuel)
  end.

(** [paa_ders.iter().filter_map(|der| parse_x509(der).ok()).find(..)]. *)
Definition paa_matches (pai paa : X509Cert) : bool :=
  bool_decide (xc_issuer pai = xc_subject paa) &&
  match xc_akid pai, xc_skid paa with
  | Some akid, Some skid => bool_decide (akid = skid)
  | _, _ => true
  end.
Fixpoint find_paa (pai : X509Cert) (paa_ders : list bytes) : fin (option X509Cert) :=
  match paa_ders with
  | [] => Ok None
  | der :: rest =>
      match parse_x509 der with
      | Ok paa => if paa_matches pai paa then Ok (Some paa) else find_paa pai rest
      | Err _ => find_paa pai rest
      | Panic => Panic
      | OutOfFuel => OutOfFuel
      end
  end.

(** [if cond { return Err(AttestationError::Chain(what)) }]. *)
Definition refuse_if {S} (cond : bool) (what : string) : M S AttestationError () :=
  if cond then throw (Chain what) else ret ().
Definition has_bit (bits mask : Z) : bool := negb (Z.land bits mask =? 0).
Definition can_sign (c : X509Cert) : bool :=
  match xc_key_usage c with Some bits => has_bit bits KEY_USAGE_KEY_CERT_SIGN | None => false end.

Definition verify_device_attestation (now : option Z) (dac_der pai_der : bytes) (paa_ders cd_signer_ders : list bytes)
    (elements signature expected_nonce attestation_challenge : bytes) : M Log AttestationError () :=
  let! dac := lift (map_err X509Failed (parse_x509 dac_der)) in
  let! pai := lift (map_err X509Failed (parse_x509 pai_der)) in
  refuse_if (negb (bool_decide (xc_issuer dac = xc_subject pai))) "dac issuer != pai subject" ;;!
  lift (map_err (λ _, Chain "dac signature") (x509_verify_signed_by dac pai)) ;;!
  let! paa := lift_fin (find_paa pai paa_ders) in
  let! paa := lift (ok_or paa (Chain "no matching PAA in trust store")) in
  lift (map_err (λ _, Chain "pai signature") (x509_verify_signed_by pai paa)) ;;!
  refuse_if (match xc_vid dac, xc_vid pai with Some d, Some p => negb (d =? p) | _, _ => true end)
    "dac/pai vid mismatch" ;;!
  refuse_if (bool_decide (xc_pid dac = None)) "dac missing pid" ;;!
  refuse_if (match xc_pid pai with Some p => negb (bool_decide (xc_pid dac = Some p)) | None => false end)
    "dac/pai pid mismatch" ;;!
  refuse_if (match xc_vid paa with Some v => negb (bool_decide (xc_vid pai = Some v)) | None => false end)
    "vid-scoped paa/pai vid mismatch" ;;!
  refuse_if (negb (bool_decide (xc_is_ca pai = Some true))) "pai is not a ca certificate" ;;!
  refuse_if (negb (bool_decide (xc_is_ca paa = Some true))) "paa is not a ca certificate" ;;!
  refuse_if (bool_decide (xc_is_ca dac = Some true)) "dac must not be a ca certificate" ;;!
  refuse_if (negb (can_sign pai)) "pai keyusage missing keycertsign" ;;!
  refuse_if (negb (can_sign paa)) "paa keyusage missing keycertsign" ;;!
  (match xc_key_usage dac with
   | Some bits =>
       refuse_if (negb (has_bit bits KEY_USAGE_DIGITAL_SIGNATURE)) "dac keyusage missing digitalsignature" ;;!
       refuse_if (has_bit bits (Z.lor KEY_USAGE_KEY_CERT_SIGN KEY_USAGE_CRL_SIGN)) "dac keyusage must not sign certificates"
   | None => ret ()
   end) ;;!
  warn_if_out_of_validity now "dac" dac ;;!
  warn_if_out_of_validity now "pai" pai ;;!
  warn_if_out_of_validity now "paa" paa ;;!
  lift (map_err (λ _, Signature)
    (verify_ecdsa_p256 (xc_public_key dac) (attestation_tbs elements attestation_challenge) signature)) ;;!
  let! (cd_bytes, nonce) := lift (parse_elements elements) in
  if negb (bool_decide (nonce = expected_nonce)) then throw Nonce
  else verify_cd_warn cd_bytes dac cd_signer_ders.
End verify.

(** ** [cd.rs] *)

Definition TEST_CD_SIGNING_KEY : bytes := [
  0xAE; 0xF3; 0x48; 0x41; 0x16; 0xE9; 0x48; 0x1E; 0xC5; 0x7B; 0xE0; 0x47; 0x2D; 0xF4; 0x1B; 0xF4;
  0x99; 0x06; 0x4E; 0x50; 0x24; 0xAD; 0x86; 0x9E; 0xCA; 0x5E; 0x88; 0x98; 0x02; 0xD4; 0x80; 0x75].
Definition TEST_CD_SIGNING_KEY_ID : bytes := [
  0x62; 0xFA; 0x82; 0x33; 0x59; 0xAC; 0xFA; 0xA9; 0x96; 0x3E; 0x1C; 0xFA; 0x14; 0x0A; 0xDD; 0xF5;
  0x04; 0xF3; 0x71; 0x60].
Definition CERTIFICATION_TYPE_DEVELOPMENT_AND_TEST : Z := 0.
Definition FORMAT_VERSION : Z := 1.
Definition CERTIFICATE_ID : bytes := ascii "CSA00000SWC00000-00".
Definition DEVICE_TYPE_ID_IN_CD : Z := 22.

Definition encode_certification_elements (vendor_id product_id : Z) : fin bytes :=
  to_vec (start_struct Anonymous ;;!
    put_uint (Context 0) FORMAT_VERSION ;;!
    put_uint (Context 1) vendor_id ;;!
    (start_array (Context 2) ;;! put_uint Anonymous product_id ;;! end_container) ;;!
    put_uint (Context 3) DEVICE_TYPE_ID_IN_CD ;;!
    put_str (Context 4) CERTIFICATE_ID ;;!
    put_uint (Context 5) 0 ;;!
    put_uint (Context 6) 0 ;;!
    put_uint (Context 7) 1 ;;!
    put_uint (Context 8) CERTIFICATION_TYPE_DEVELOPMENT_AND_TEST ;;!
    end_container).

Section cd.
Context `{Ec : Ecdsa} `{Sha1}.

Definition cms_sign (cd_content signer_key_id signer_private_key : bytes) : res CryptoError bytes :=
  let? raw_sig := sign_ecdsa_p256 signer_private_key cd_content in
  let? sha := der_oid SHA256_OID in
  let? alg := der_seq [sha] in
  let? digest_algorithms := set_of [alg] in
  let? data := der_oid PKCS7_DATA in
  let? content := octet_string cd_content in
  let? wrapped := context_constructed 0 content in
  let? encap_content_info := der_seq [data; wrapped] in
  let? three := der_integer [3] in
  let? key_id := context_primitive 0 signer_key_id in
  let? sig_alg := ecdsa_alg in
  let? sig := ecdsa_signature raw_sig in
  let? sig := octet_string sig in
  let? signer_info := der_seq [three; key_id; alg; sig_alg; sig] in
  let? signer_infos := set_of [signer_info] in
  let? signed_data := der_seq [three; digest_algorithms; encap_content_info; signer_infos] in
  let? oid := der_oid PKCS7_SIGNED_DATA in
  let? explicit := context_constructed 0 signed_data in
  der_seq [oid; explicit].

Definition generate_dev_certification_declaration (vendor_id product_id : Z) : res CryptoError bytes :=
  match encode_certification_elements vendor_id product_id with
  | Ok content => cms_sign content TEST_CD_SIGNING_KEY_ID TEST_CD_SIGNING_KEY
  | Err e => match e with end
  | Panic => Panic
  | OutOfFuel => OutOfFuel
  end.

(** The three keys are the ones [random_p256_secret] draws. *)
Definition generate_dev_attestation (paa_key pai_key dac_key : bytes) (vid pid : Z) : res X509Error DevAttestation :=
  let KEY_USAGE_CA := 0x0060 in
  let KEY_USAGE_LEAF := 0x0001 in
  let? paa_der := make_test_cert_ext (ascii "dev paa") (ascii "dev paa") paa_key paa_key
    (Ca None) None None (Some KEY_USAGE_CA) in
  let? pai_der := make_test_cert_ext (ascii "dev pai") (ascii "dev paa") pai_key paa_key
    (Ca (Some 0)) None (Some (vid, pid)) (Some KEY_USAGE_CA) in
  let? dac_der := make_test_cert_ext (ascii "dev dac") (ascii "dev pai") dac_key pai_key
    EndEntity (Some (vid, pid)) (Some (vid, pid)) (Some KEY_USAGE_LEAF) in
  let? cd := map_err (λ _, DerError "well-known test CD signing key is not a valid p256 key (bug)")
    (generate_dev_certification_declaration vid pid) in
  Ok {| paa_der := paa_der; pai_der := pai_der; dac_der := dac_der; dac_private_key := dac_key;
        certification_declaration := cd |}.
End cd.

(** ** Proofs: nothing the device sends stops the commissioner *)

Close Scope string_scope.

Lemma parses_labelled {A} (m : DR A) n P reason : parses m n P → parses (labelled m reason) n P.
Proof. intros Hm r Hr. specialize (Hm r Hr). unfold labelled. by destruct (m r) as [r' [a|e| |] ]. Qed.

Lemma expects tag reason : parses (labelled (der_expect tag) reason) 0 bytes_ok.
Proof. eapply parses_mono; [apply parses_labelled, parses_expect|lia|done]. Qed.
Lemma reads_any reason : parses (labelled der_read reason) 0 (λ _, True).
Proof. eapply parses_mono; [apply parses_labelled, parses_read|lia|done]. Qed.

Section cms_total.
Context `{Sha256}.

Lemma digest_loop_yields fuel econtent r : bytes_ok r → (length r < fuel)%nat →
  yields (snd (digest_attr_loop fuel econtent r)) (λ _, True).
Proof.
  revert r. induction fuel as [|fuel IH]; intros r Hr Hf; [lia|]. cbn [digest_attr_loop]. unfold bind at 1. cbn [get].
  destruct r as [|b r]; [done|]. pose proof (parses_labelled _ _ _ "bad signedAttrs attribute" (parses_expect 0x30) _ Hr) as He.
  unfold bind at 1. destruct (labelled (der_expect 0x30) _ (b :: r)) as [r' [attr|e| |] ]; try done.
  destruct He as (H1 & H2 & H3).
  assert (Hf' : yields (cms_within attr (
            let! oid := labelled (der_expect 0x06) "bad signedAttrs attribute oid" in
            if negb (bool_decide (oid = CMS_MESSAGE_DIGEST)) then ret None
            else
              let! vals := labelled (der_expect 0x31) "bad messageDigest value set" in
              let! digest := lift (cms_within vals (labelled (der_expect 0x04) "messageDigest not an octet string")) in
              ret (Some digest))) (λ _, True)).
  { eapply parses_yields; [done|]. eapply parses_then; [apply expects|]. intros oid _.
    destruct (negb _); [by apply parses_ret|]. eapply parses_then; [apply expects|]. intros vals Hv.
    eapply parses_then; [eapply parses_lift, parses_yields; [exact Hv|apply expects]|]. intros d _. by apply parses_ret. }
  unfold bind, lift. destruct (cms_within attr _) as [ [digest|]|e| |]; try done; [by case_bool_decide|].
  apply IH; [done|cbn in *; lia].
Qed.

Lemma signer_info_yields content econtent : bytes_ok content → bytes_ok econtent →
  yields (parse_signer_info content econtent) (λ si, bytes_ok (si_signature si)).
Proof.
  intros Hc He. eapply parses_yields; [exact Hc|]. do 3 (eapply parses_then; [apply reads_any|]; intros _ _).
  eapply parses_then; [apply parses_labelled, parses_peek|]. intros t _. eapply (parses_then _ _ 0 (λ _, True)).
  { case_bool_decide; [|by apply parses_ret]. eapply parses_then; [apply parses_labelled, parses_read|].
    intros [ [t' c] [|x raw] ] (_ & Hc' & _); [apply parses_throw|].
    eapply parses_then; [apply (parses_lift _ (λ _, True))|intros _ _; by apply parses_ret].
    apply digest_loop_yields; [done|lia]. }
  intros s _. eapply parses_then; [apply reads_any|]. intros _ _. eapply parses_then; [apply expects|].
  intros g Hg. by apply parses_ret.
Qed.

Lemma skip_sets_parses fuel r : bytes_ok r → (length r < fuel)%nat →
  match skip_sets fuel r with (r', Ok _) => bytes_ok r' | (_, Err _) => True | _ => False end.
Proof.
  revert r. induction fuel as [|fuel IH]; intros r Hr Hf; [lia|]. cbn [skip_sets].
  unfold bind at 1. change (peek_tag r) with (r, Ok (E:=X509Error) (head r)). cbv beta iota.
  case_bool_decide; [|done]. pose proof (parses_read r Hr) as Hp. unfold bind.
  destruct (der_read r) as [r' [x|e| |] ]; try done. destruct Hp as (H1 & H2 & _). apply IH; [done|lia].
Qed.

Lemma first_signer_yields r : bytes_ok r → yields (snd (first_signer r)) bytes_ok.
Proof.
  intros Hr. unfold first_signer. unfold bind at 1. cbn [get]. unfold bind at 1.
  pose proof (skip_sets_parses (S (length r)) r Hr ltac:(lia)) as Hs.
  destruct (skip_sets _ r) as [r' [x|e| |] ]; try done. eapply (parses_yields r' _ 0); [done|].
  eapply parses_then; [apply parses_expect|]. intros si Hsi. apply parses_lift.
  eapply parses_yields; [exact Hsi|apply parses_expect].
Qed.

Lemma signed_data_yields der : bytes_ok der → yields (signed_data der) bytes_ok.
Proof.
  intros Hd. eapply yields_bind; [eapply parses_yields; [exact Hd|apply expects]|]. intros ci Hci.
  eapply yields_bind; [eapply parses_yields; [exact Hci|]|].
  - eapply parses_then; [apply expects|]. intros _ _. apply expects.
  - intros w Hw. eapply parses_yields; [exact Hw|apply expects].
Qed.

Lemma signed_content_parses : parses signed_content 0 (λ c, bytes_ok c ∧ zlen c ≤ 65535).
Proof.
  unfold signed_content. do 2 (eapply parses_then; [apply reads_any|]; intros _ _).
  eapply parses_then; [apply expects|]. intros eci Heci. eapply (parses_then _ _ 0 bytes_ok).
  { eapply parses_lift, parses_yields; [exact Heci|]. eapply parses_then; [apply expects|]. intros _ _. apply expects. }
  intros w Hw. eapply parses_lift, parses_yields; [exact Hw|]. apply parses_labelled, parses_expect_short.
Qed.

Lemma parse_cms_logs der : bytes_ok der → ∀ log,
  match snd (parse_cms_signed_data der log) with
  | Ok (cd, si) => bytes_ok cd ∧ zlen cd ≤ 65535 ∧ from_option (λ si, bytes_ok (si_signature si)) True si
  | Err _ => True
  | _ => False
  end.
Proof.
  intros Hd log. unfold parse_cms_signed_data, bind, lift. pose proof (signed_data_yields der Hd) as Hsd.
  destruct (signed_data der) as [sd|e| |]; try done. pose proof (signed_content_parses sd Hsd) as Hc.
  destruct (signed_content sd) as [r [cd|e| |] ]; try done. destruct Hc as (_ & Hr & Hcd & Hlen).
  pose proof (first_signer_yields r Hr) as Hf. destruct (snd (first_signer r)) as [first|e| |]; try done.
  pose proof (signer_info_yields first cd Hf Hcd) as Hsi. by destruct (parse_signer_info first cd) as [si|e| |].
Qed.
End cms_total.

Lemma safe_cd_reader : safe cd_reader (λ _, True).
Proof.
  unfold cd_reader. eapply safe_bind; [apply safe_next_el|]. intros el _. destruct (negb _); [apply safe_throw|].
  apply walk_safe; [|done]. intros [vid pids] el' _ _ _. apply safe_safe1. unfold cd_step.
  repeat case_match; try by apply safe_ret. eapply safe_bind; [|intros pids' _; by apply safe_ret].
  apply (walk_safe _ _ _ (λ _, True)); [|done]. intros pids' e' _ _ _. apply safe_safe1. unfold pid_step.
  repeat case_match; by apply safe_ret.
Qed.

Lemma cd_vid_pid_yields cd : bytes_ok cd → small cd → yields (parse_cd_vid_pid cd) (λ _, True).
Proof. intros Hb Hs. by apply (safe_reader _ _ _ safe_cd_reader). Qed.

Lemma safe_elements_reader : safe elements_reader (λ '(cd, nonce), (bytes_ok cd ∧ small cd) ∧ zlen nonce = 32).
Proof.
  unfold elements_reader. eapply safe_bind; [apply safe_next_el|]. intros el _. destruct (negb _); [apply safe_throw|].
  eapply (safe_bind _ _ (λ '(cd, nonce), from_option (λ c, bytes_ok c ∧ small c) True cd ∧
    from_option (λ n, zlen n = 32) True nonce)).
  - apply walk_safe; [|done]. intros [cd nonce] el' [Hcd Hn] [_ Hv] _. apply safe_safe1.
    assert (Hskip : safe (el_skip ;;! ret (cd, nonce)) (λ '(cd, nonce), from_option (λ c, bytes_ok c ∧ small c) True cd ∧
      from_option (λ n, zlen n = 32) True nonce)).
    { eapply safe_bind; [apply safe_skip|]. intros _ _. by apply safe_ret. }
    unfold elements_step. destruct (el_value el') eqn:Hval; cbn in Hv; repeat case_match; try exact Hskip;
      try apply safe_throw; apply safe_ret; try done; split; try done.
    cbn. by apply Z.eqb_eq.
  - intros [cd nonce] [Hcd Hn]. destruct cd as [cd|]; [|apply safe_throw]. destruct nonce as [nonce|]; [|apply safe_throw].
    by apply safe_ret.
Qed.

Lemma elements_yields e : bytes_ok e → small e →
  yields (parse_elements e) (λ '(cd, nonce), (bytes_ok cd ∧ small cd) ∧ zlen nonce = 32).
Proof. intros Hb Hs. by apply (safe_reader _ _ _ safe_elements_reader). Qed.

(** ** Proofs: what is warned about never decides *)

(** An operation that only logs. *)
Definition only_logs {E} (m : M Log E ()) : Prop := ∀ log, ∃ log', m log = (log', Ok ()).

Lemma logs_ret {E} : only_logs (E:=E) (ret ()).
Proof. intros log. by exists log. Qed.
Lemma logs_warn {E} w : only_logs (E:=E) (warn w).
Proof. intros log. by eexists. Qed.
Lemma logs_seq {E} (m k : M Log E ()) : only_logs m → only_logs k → only_logs (m ;;! k).
Proof. intros Hm Hk log. destruct (Hm log) as [l1 H1]. unfold bind. rewrite H1. apply Hk. Qed.

Lemma logs_validity {E} now label c : only_logs (E:=E) (warn_if_out_of_validity now label c).
Proof.
  unfold warn_if_out_of_validity. destruct now as [now|]; [|apply logs_ret]. apply logs_seq.
  - repeat case_match; (apply logs_ret || apply logs_warn).
  - repeat case_match; (apply logs_ret || apply logs_warn).
Qed.

Section decide.
Context `{Ec : Ecdsa} `{Sha256}.

Lemma any_signer_returns ders b sig : Forall bytes_ok ders → ∃ v, any_signer ders b sig = Ok v.
Proof.
  induction 1 as [|der ders Hd _ IH]; cbn; [by eexists|]. pose proof (parse_x509_yields der Hd) as Hy.
  destruct (parse_x509 der) as [c|e| |]; try done. destruct (is_ok _); [by eexists|done].
Qed.

Lemma logs_cd {E} cd dac signers : bytes_ok cd → Forall bytes_ok signers →
  only_logs (E:=E) (verify_cd_warn cd dac signers).
Proof.
  intros Hcd Hs log. unfold verify_cd_warn. pose proof (parse_cms_logs cd Hcd log) as Hp.
  destruct (parse_cms_signed_data cd log) as [log1 [ [tlv si]|e| |] ]; try done; [|by eexists].
  destruct Hp as (Ht & Hlen & Hsi). apply logs_seq.
  - unfold cd_matches_dac. pose proof (cd_vid_pid_yields tlv Ht) as Hv. unfold small in Hv. specialize (Hv ltac:(lia)).
    destruct (parse_cd_vid_pid tlv) as [ [vid pids]|e| |]; try done; [|apply logs_warn].
    apply logs_seq; repeat case_match; (apply logs_ret || apply logs_warn).
  - unfold verify_cd_signature_warn. case_bool_decide; [apply logs_warn|]. destruct si as [si|]; [|apply logs_warn].
    pose proof (der_signature_yields _ Hsi) as Hd. destruct (parse_ecdsa_der_signature _) as [raw|e| |]; try done; [|apply logs_warn].
    intros l. destruct (any_signer_returns signers (si_signed_bytes si) raw Hs) as [v Hv]. unfold bind. rewrite Hv.
    destruct v; [apply logs_ret|apply logs_warn].
Qed.

(** [m] accepts exactly the values of [P], whatever the log, and never panics. *)
Definition decides {A} (m : M Log AttestationError A) (P : A → Prop) : Prop := ∀ log,
  match snd (m log) with Ok a => P a | Err _ => ∀ a, ¬ P a | _ => False end.

Lemma dec_bind {A B} (m : M Log AttestationError A) (k : A → M Log AttestationError B) P Q :
  decides m P → (∀ a a', P a → P a' → a = a') → (∀ a, P a → decides (k a) (Q a)) →
  decides (bind m k) (λ b, ∃ a, P a ∧ Q a b).
Proof.
  intros Hm Hf Hk log. specialize (Hm log). unfold bind. destruct (m log) as [l [a|e| |] ]; cbn in *; [|naive_solver|done..].
  specialize (Hk a Hm l). destruct (k a l) as [l' [b|e| |] ]; cbn in *; [eauto| |done..].
  intros b (a' & Ha' & Hb). rewrite (Hf a' a Ha' Hm) in Hb. by eapply Hk.
Qed.
Lemma dec_then {B} (m : M Log AttestationError ()) (k : M Log AttestationError B) (P : Prop) Q :
  decides m (λ _, P) → (P → decides k Q) → decides (m ;;! k) (λ b, P ∧ Q b).
Proof.
  intros Hm Hk log. specialize (Hm log). unfold bind. destruct (m log) as [l [a|e| |] ]; cbn in *; [|naive_solver|done..].
  specialize (Hk Hm l). destruct (k l) as [l' [b|e| |] ]; cbn in *; naive_solver.
Qed.
Lemma dec_iff {A} (m : M Log AttestationError A) P Q : decides m P → (∀ a, P a ↔ Q a) → decides m Q.
Proof. intros Hm HPQ log. specialize (Hm log). destruct (snd (m log)); try done; [by apply HPQ|]. intros a Ha%HPQ. by eapply Hm. Qed.
Lemma dec_lift {E A} (f : E → AttestationError) (m : res E A) P : yields m P →
  decides (lift (map_err f m)) (λ a, m = Ok a).
Proof. intros Hy log. cbn. destruct m; cbn in *; try done. Qed.
Lemma dec_unit (m : res AttestationError ()) P : returns m → (m = Ok () ↔ P) → decides (lift m) (λ _, P).
Proof. intros Hr HP log. cbn. destruct m as [ []|e| |]; cbn in *; try done; [by apply HP|]. by intros _ ?%HP. Qed.
Lemma dec_refuse c what P : (c = false ↔ P) → decides (refuse_if c what) (λ _, P).
Proof. intros HP log. unfold refuse_if. destruct c; cbn; [intros _ ?%HP; done|by apply HP]. Qed.
Lemma dec_assoc {A B C} (m : M Log AttestationError A) (f : A → M Log AttestationError B) (k : B → M Log AttestationError C) Q :
  decides (bind (bind m f) k) Q → decides (bind m (λ a, bind (f a) k)) Q.
Proof.
  intros Hd log. specialize (Hd log). unfold bind in *. by destruct (m log) as [l [a|e| |] ].
Qed.
Lemma dec_logs {B} (m : M Log AttestationError ()) (k : M Log AttestationError B) Q :
  only_logs m → decides k Q → decides (m ;;! k) Q.
Proof. intros Hm Hk log. destruct (Hm log) as [l Hl]. unfold bind. rewrite Hl. apply Hk. Qed.
End decide.

(** ** The specification of the check *)

Section spec.
Context `{Ec : Ecdsa} `{Sha256}.

Definition verifies (pk m s : bytes) : Prop :=
  vk_from_sec1 pk = true ∧ sig_from_slice s = true ∧ vk_verify pk m s = true.

(** [c] is signed under the key of [issuer]. *)
Definition issued_by (c issuer : X509Cert) : Prop := verifies (xc_public_key issuer) (xc_tbs c) (xc_signature c).

Definition named_by (pai paa : X509Cert) : Prop :=
  xc_issuer pai = xc_subject paa ∧ ∀ a s, xc_akid pai = Some a → xc_skid paa = Some s → a = s.

(** The first certificate of the trust store that could have issued [pai]. *)
Definition first_root (pai : X509Cert) (store : list bytes) (paa : X509Cert) : Prop :=
  ∃ before der after, store = before ++ der :: after ∧ parse_x509 der = Ok paa ∧ named_by pai paa ∧
    ∀ d c, d ∈ before → parse_x509 d = Ok c → ¬ named_by pai c.

Definition ids_agree (dac pai paa : X509Cert) : Prop :=
  (∃ vid, xc_vid dac = Some vid ∧ xc_vid pai = Some vid ∧ (xc_vid paa = None ∨ xc_vid paa = Some vid)) ∧
  (∃ pid, xc_pid dac = Some pid ∧ (xc_pid pai = None ∨ xc_pid pai = Some pid)).

Definition signs_certs (c : X509Cert) : Prop :=
  xc_is_ca c = Some true ∧ ∃ bits, xc_key_usage c = Some bits ∧ Z.testbit bits 5 = true.
Definition signs_data (c : X509Cert) : Prop :=
  xc_is_ca c ≠ Some true ∧ ∀ bits, xc_key_usage c = Some bits →
    Z.testbit bits 0 = true ∧ Z.testbit bits 5 = false ∧ Z.testbit bits 6 = false.

Definition attested (dac_der pai_der : bytes) (paa_ders : list bytes) (elements signature nonce challenge : bytes) : Prop :=
  ∃ dac pai paa cd,
    parse_x509 dac_der = Ok dac ∧ parse_x509 pai_der = Ok pai ∧
    xc_issuer dac = xc_subject pai ∧ issued_by dac pai ∧
    first_root pai paa_ders paa ∧ issued_by pai paa ∧
    ids_agree dac pai paa ∧ signs_certs pai ∧ signs_certs paa ∧ signs_data dac ∧
    verifies (xc_public_key dac) (elements ++ challenge) signature ∧
    parse_elements elements = Ok (cd, nonce).

Lemma verify_iff {E} (e : CryptoError → E) pk m s :
  map_err e (verify_ecdsa_p256 pk m s) = Ok () ↔ verifies pk m s.
Proof.
  unfold verify_ecdsa_p256, verifies. destruct (vk_from_sec1 pk); cbn; [|iff_solve].
  destruct (sig_from_slice s); cbn; [|iff_solve]. destruct (vk_verify pk m s); cbn; iff_solve.
Qed.
Lemma verify_returns {E} (e : CryptoError → E) pk m s : returns (map_err e (verify_ecdsa_p256 pk m s)).
Proof. unfold verify_ecdsa_p256. by repeat case_match. Qed.

Lemma paa_matches_iff pai paa : paa_matches pai paa = true ↔ named_by pai paa.
Proof.
  unfold paa_matches, named_by. rewrite andb_true_iff, bool_decide_eq_true. apply and_iff_compat_l.
  destruct (xc_akid pai) as [a|], (xc_skid paa) as [s|]; [rewrite bool_decide_eq_true; naive_solver|naive_solver..].
Qed.

Lemma find_paa_spec pai store : Forall bytes_ok store →
  match find_paa pai store with
  | Ok (Some paa) => first_root pai store paa ∧ ∀ paa', first_root pai store paa' → paa' = paa
  | Ok None => ∀ paa, ¬ first_root pai store paa
  | _ => False
  end.
Proof.
  induction 1 as [|der store Hd _ IH]; cbn [find_paa]; [intros paa (b & d & a & Hs & _); by destruct b|].
  assert (Hskip : (∀ c, parse_x509 der = Ok c → ¬ named_by pai c) →
    ∀ paa, first_root pai (der :: store) paa ↔ first_root pai store paa).
  { intros Hno paa. split.
    - intros (b & d & a & Hs & Hp & Hn & Hb). destruct b as [|d0 b]; [naive_solver|]. injection Hs as -> ->.
      exists b, d, a. do 3 (split; [done|]). intros d' c Hin. apply Hb. by right.
    - intros (b & d & a & -> & Hp & Hn & Hb). exists (der :: b), d, a. do 3 (split; [done|]).
      intros d' c [->|Hin]%elem_of_cons Hc; [by apply Hno|by apply (Hb d')]. }
  pose proof (parse_x509_yields der Hd) as Hy. destruct (parse_x509 der) as [c|e| |] eqn:Hp; try done.
  - destruct (paa_matches pai c) eqn:Hm.
    + apply paa_matches_iff in Hm. split.
      { exists [], der, store. do 3 (split; [done|]). by intros d c' ?%elem_of_nil. }
      intros paa' (b & d & a & Hs & Hp' & _ & Hb). destruct b as [|d0 b]; injection Hs; [intros _ <-; congruence|]. intros -> <-.
      exfalso. apply (Hb der c); [by left|done|done].
    + assert (∀ c', Ok c = Ok (E:=X509Error) c' → ¬ named_by pai c') as Hno.
      { intros c' [= <-] Hn%paa_matches_iff. congruence. }
      specialize (Hskip Hno). destruct (find_paa pai store) as [ [paa|]|e| |]; try done; setoid_rewrite Hskip; done.
  - assert (∀ c', Err e = Ok c' → ¬ named_by pai c') as Hno by done. specialize (Hskip Hno).
    destruct (find_paa pai store) as [ [paa|]|e'| |]; try done; setoid_rewrite Hskip; done.
Qed.

Lemma dec_find pai store : Forall bytes_ok store →
  decides (let! paa := lift_fin (find_paa pai store) in lift (ok_or paa (Chain "no matching PAA in trust store")))
    (first_root pai store).
Proof.
  intros Hs log. pose proof (find_paa_spec pai store Hs) as Hf. unfold bind.
  destruct (find_paa pai store) as [ [paa|]|e| |]; cbn in *; try done; by destruct Hf.
Qed.

Lemma first_root_unique pai store paa paa' : first_root pai store paa → first_root pai store paa' → paa = paa'.
Proof.
  intros (b & d & a & -> & Hp & Hn & Hb) (b' & d' & a' & Hs & Hp' & Hn' & Hb').
  revert b' Hs Hb'. induction b as [|x b IH]; intros [|x' b'] Hs Hb'; injection Hs.
  - intros _ <-. congruence.
  - intros _ <-. exfalso. apply (Hb' d paa); [by left|done|done].
  - intros _ ->. exfalso. apply (Hb d' paa'); [by left|done|done].
  - intros Hs' <-. apply (IH) with b'; [|done|]; intros e c Hin; [apply Hb|apply Hb']; by right.
Qed.
End spec.

Section decided.
Context `{Ec : Ecdsa} `{Sha256}.
#[local] Arguments Z.testbit : simpl never.

Lemma dec_ids dac pai paa (k : M Log AttestationError ()) Q :
  (ids_agree dac pai paa → decides k Q) →
  decides (
    refuse_if (match xc_vid dac, xc_vid pai with Some d, Some p => negb (d =? p) | _, _ => true end)
      "dac/pai vid mismatch" ;;!
    refuse_if (bool_decide (xc_pid dac = None)) "dac missing pid" ;;!
    refuse_if (match xc_pid pai with Some p => negb (bool_decide (xc_pid dac = Some p)) | None => false end)
      "dac/pai pid mismatch" ;;!
    refuse_if (match xc_vid paa with Some v => negb (bool_decide (xc_vid pai = Some v)) | None => false end)
      "vid-scoped paa/pai vid mismatch" ;;! k) (λ b, ids_agree dac pai paa ∧ Q b).
Proof.
  intros Hk. eapply dec_iff; [eapply dec_then|].
  { apply (dec_refuse _ _ (∃ v, xc_vid dac = Some v ∧ xc_vid pai = Some v)).
    destruct (xc_vid dac) as [d|], (xc_vid pai) as [p|]; [|naive_solver..]. rewrite negb_false_iff, Z.eqb_eq. naive_solver. }
  { intros Hv. eapply dec_then.
    { apply (dec_refuse _ _ (is_Some (xc_pid dac))). rewrite bool_decide_eq_false. by destruct (xc_pid dac). }
    intros Hp. eapply dec_then.
    { apply (dec_refuse _ _ (xc_pid pai = None ∨ xc_pid pai = xc_pid dac)).
      destruct (xc_pid pai) as [p|]; [|naive_solver]. rewrite negb_false_iff, bool_decide_eq_true. naive_solver. }
    intros Hpp. eapply (dec_then _ _ (xc_vid paa = None ∨ xc_vid paa = xc_vid pai)).
    { apply dec_refuse. destruct (xc_vid paa) as [v|]; [|naive_solver].
      rewrite negb_false_iff, bool_decide_eq_true. naive_solver. }
    intros Hs. apply Hk. destruct Hv as (v & Hd & Hpv), Hp as [p Hp]. rewrite Hpv in Hs. rewrite Hp in Hpp. split; [by exists v|by exists p]. }
  intros b. cbv beta. split.
  - intros ((v & Hd & Hpv) & [p Hp] & Hpp & Hs & HQ). split; [|done]. rewrite Hpv in Hs. rewrite Hp in Hpp. split; [by exists v|by exists p].
  - intros [ [(v & Hd & Hpv & Hs) (p & Hp & Hpp)] HQ]. split; [by exists v|]. split; [by exists p|]. rewrite Hp, Hpv. done.
Qed.

Lemma dec_roles dac pai paa (k : M Log AttestationError ()) Q :
  (signs_data dac → decides k Q) →
  decides (
    refuse_if (negb (bool_decide (xc_is_ca pai = Some true))) "pai is not a ca certificate" ;;!
    refuse_if (negb (bool_decide (xc_is_ca paa = Some true))) "paa is not a ca certificate" ;;!
    refuse_if (bool_decide (xc_is_ca dac = Some true)) "dac must not be a ca certificate" ;;!
    refuse_if (negb (can_sign pai)) "pai keyusage missing keycertsign" ;;!
    refuse_if (negb (can_sign paa)) "paa keyusage missing keycertsign" ;;!
    (match xc_key_usage dac with
     | Some bits =>
         refuse_if (negb (has_bit bits KEY_USAGE_DIGITAL_SIGNATURE)) "dac keyusage missing digitalsignature" ;;!
         refuse_if (has_bit bits (Z.lor KEY_USAGE_KEY_CERT_SIGN KEY_USAGE_CRL_SIGN)) "dac keyusage must not sign certificates"
     | None => ret ()
     end) ;;! k) (λ b, signs_certs pai ∧ signs_certs paa ∧ signs_data dac ∧ Q b).
Proof.
  intros Hk.
  assert (Hcan : ∀ c, negb (can_sign c) = false ↔ ∃ bits, xc_key_usage c = Some bits ∧ Z.testbit bits 5 = true).
  { intros c. unfold can_sign, has_bit. change KEY_USAGE_KEY_CERT_SIGN with (2 ^ 5).
    destruct (xc_key_usage c) as [bits|]; [|naive_solver]. rewrite mask_bit by done. rewrite negb_false_iff, negb_involutive. naive_solver. }
  assert (Huse : decides (match xc_key_usage dac with
     | Some bits =>
         refuse_if (negb (has_bit bits KEY_USAGE_DIGITAL_SIGNATURE)) "dac keyusage missing digitalsignature" ;;!
         refuse_if (has_bit bits (Z.lor KEY_USAGE_KEY_CERT_SIGN KEY_USAGE_CRL_SIGN)) "dac keyusage must not sign certificates"
     | None => ret () end)
    (λ _ : (), ∀ bits, xc_key_usage dac = Some bits → Z.testbit bits 0 = true ∧ Z.testbit bits 5 = false ∧ Z.testbit bits 6 = false)).
  { destruct (xc_key_usage dac) as [bits|]; [|by intros log].
    unfold has_bit. change KEY_USAGE_DIGITAL_SIGNATURE with (2 ^ 0). change KEY_USAGE_KEY_CERT_SIGN with (2 ^ 5).
    change KEY_USAGE_CRL_SIGN with (2 ^ 6). rewrite mask_bit, mask_two_bits by done.
    eapply dec_iff; [eapply dec_then|].
    - apply (dec_refuse _ _ (Z.testbit bits 0 = true)). rewrite negb_false_iff. by rewrite negb_involutive.
    - intros _. apply (dec_refuse _ _ (Z.testbit bits 5 = false ∧ Z.testbit bits 6 = false)).
      rewrite negb_false_iff, andb_true_iff, !negb_true_iff. done.
    - intros ?. cbv beta. naive_solver. }
  eapply dec_iff; [eapply dec_then|].
  { apply (dec_refuse _ _ (xc_is_ca pai = Some true)). by rewrite negb_false_iff, bool_decide_eq_true. }
  { intros Hpai. eapply dec_then.
    { apply (dec_refuse _ _ (xc_is_ca paa = Some true)). by rewrite negb_false_iff, bool_decide_eq_true. }
    intros Hpaa. eapply dec_then.
    { apply (dec_refuse _ _ (xc_is_ca dac ≠ Some true)). apply bool_decide_eq_false. }
    intros Hdac. eapply dec_then; [apply dec_refuse, Hcan|]. intros Hp. eapply dec_then; [apply dec_refuse, Hcan|]. intros Hp'.
    eapply dec_then; [exact Huse|]. intros Hu. apply Hk. by split. }
  intros b. cbv beta. unfold signs_certs, signs_data. naive_solver.
Qed.

Lemma dec_issued c issuer what :
  decides (lift (map_err (λ _, Chain what) (x509_verify_signed_by c issuer))) (λ _, issued_by c issuer).
Proof.
  unfold x509_verify_signed_by, issued_by. apply dec_unit.
  - pose proof (verify_returns (λ e, e) (xc_public_key issuer) (xc_tbs c) (xc_signature c)) as Hr.
    by destruct (verify_ecdsa_p256 _ _ _).
  - rewrite <- (verify_iff (λ _, X509BadSignature)). destruct (verify_ecdsa_p256 _ _ _) as [ []|e| |]; cbn; iff_solve.
Qed.

Lemma dec_elements e nonce (k : bytes → M Log AttestationError ()) : bytes_ok e → small e →
  (∀ cd, bytes_ok cd → only_logs (k cd)) →
  decides (let! (cd, n) := lift (parse_elements e) in
           if negb (bool_decide (n = nonce)) then throw Nonce else k cd)
    (λ _, ∃ cd, parse_elements e = Ok (cd, nonce)).
Proof.
  intros He Hs Hk log. pose proof (elements_yields e He Hs) as Hy. unfold bind, lift.
  destruct (parse_elements e) as [ [cd n]|err| |]; cbn in Hy; try done; [|by intros _ [cd ?] ].
  case_bool_decide as Hn; cbn [negb].
  - destruct (Hk cd (proj1 (proj1 Hy)) log) as [l ->]. cbn. exists cd. by rewrite Hn.
  - cbn. intros _ [cd' [= -> ->] ]. done.
Qed.

(** C22. The commissioner's check of a device decides the declarative
    specification, for any bytes from the network: it never panics, and it
    accepts exactly when the device certificate is issued by the intermediate
    and that by the first root of the trust store that it names, the vendor and
    product ids agree along the chain, the authorities may sign certificates
    and the device may not, the device's key signed the elements with this
    session's challenge, and they carry the nonce asked for. Neither the clock
    nor anything about the certification declaration decides. *)
Theorem attestation_decides now dac_der pai_der paa_ders cd_signer_ders elements signature nonce challenge log :
  bytes_ok dac_der → bytes_ok pai_der → Forall bytes_ok paa_ders → Forall bytes_ok cd_signer_ders →
  bytes_ok elements → small elements →
  match snd (verify_device_attestation now dac_der pai_der paa_ders cd_signer_ders elements signature nonce challenge log) with
  | Ok _ => attested dac_der pai_der paa_ders elements signature nonce challenge
  | Err _ => ¬ attested dac_der pai_der paa_ders elements signature nonce challenge
  | _ => False
  end.
Proof.
  intros Hdd Hpd Hpas Hcs He Hes.
  assert (decides (verify_device_attestation now dac_der pai_der paa_ders cd_signer_ders elements signature nonce challenge)
    (λ _, attested dac_der pai_der paa_ders elements signature nonce challenge)) as Hd.
  2:{ specialize (Hd log). destruct (snd _); [exact Hd|exact (Hd ())|exact Hd..]. }
  eapply dec_iff.
  { unfold verify_device_attestation. eapply dec_bind; [eapply dec_lift, parse_x509_yields, Hdd|congruence|]. intros dac _.
    eapply dec_bind; [eapply dec_lift, parse_x509_yields, Hpd|congruence|]. intros pai _.
    eapply dec_then; [apply (dec_refuse _ _ (xc_issuer dac = xc_subject pai)); by rewrite negb_false_iff, bool_decide_eq_true|].
    intros _. eapply (dec_then _ _ (issued_by dac pai)); [apply dec_issued|].
    intros _. apply dec_assoc. eapply dec_bind; [by apply dec_find|apply first_root_unique|]. intros paa _.
    eapply (dec_then _ _ (issued_by pai paa)); [apply dec_issued|]. intros _. apply dec_ids. intros _.
    apply dec_roles. intros _. do 3 (apply dec_logs; [apply logs_validity|]).
    eapply (dec_then _ _ (verifies (xc_public_key dac) (elements ++ challenge) signature)).
    { apply dec_unit; [apply verify_returns|apply verify_iff]. }
    intros _. apply (dec_elements elements nonce (λ cd, verify_cd_warn cd dac cd_signer_ders) He Hes).
    intros cd Hcd. by apply logs_cd. }
  intros []. cbv beta. unfold attested. split.
  - intros (dac & H1 & pai & H2 & H3 & H4 & paa & H5 & H6 & H7 & H8 & H9 & H10 & H11 & cd & H12). eauto 20.
  - intros (dac & pai & paa & cd & H1 & H2 & H3 & H4 & H5 & H6 & H7 & H8 & H9 & H10 & H11 & H12).
    exists dac. split; [done|]. exists pai. do 3 (split; [done|]). exists paa. do 7 (split; [done|]). by exists cd.
Qed.
End decided.

(** ** Proofs: the development device *)

Definition elements_tree (cd nonce : bytes) (ts : Z) : tree :=
  Node Anonymous KStruct [Leaf (Context 1) (VBytes cd); Leaf (Context 2) (VBytes nonce); Leaf (Context 3) (VUint ts)].

Lemma encode_elements_at cd nonce ts : encode_attestation_elements cd nonce ts = Ok (enc_tree (elements_tree cd nonce ts)).
Proof. apply to_vec_writes, writes_struct. eauto with emits. Qed.

Lemma elements_parse cd nonce ts : bytes_ok cd → small cd → bytes_ok nonce → zlen nonce = 32 → in_u 32 ts →
  small (enc_tree (elements_tree cd nonce ts)) → parse_elements (enc_tree (elements_tree cd nonce ts)) = Ok (cd, nonce).
Proof.
  intros Hcd Hs Hn Hl Hts Hsm. unfold parse_elements. apply reads_all; [|done]. unfold elements_reader.
  assert (wf_tree (elements_tree cd nonce ts)) as Hwf.
  { apply wf_anon_node. constructor; [|constructor; [|constructor; [|constructor] ] ].
    - by split.
    - split; [done|]. split; [|done]. split; [done|lia].
    - by apply (wf_uint 3 ts 32). }
  unfold elements_tree. rewrite enc_tree_split. eapply reads_bind; [by apply (reads_next_el _ _ (elements_tree cd nonce ts))|].
  cbn [root_el el_value root_value start_of]. rewrite bool_decide_true by done. cbn [negb inner].
  eapply reads_bind_end.
  - apply walk_at; [by apply wf_children in Hwf as [_ ?]|]. eapply walks_leaf; [apply reads_ret|].
    eapply walks_leaf; [cbn; rewrite Hl; apply reads_ret|]. eapply walks_leaf; [apply reads_ret|apply walks_nil].
  - apply reads_ret.
Qed.

Definition u_leaf (c v : Z) : tree := Leaf (Context c) (VUint v).
Definition cd_tree (vid pid : Z) : tree :=
  Node Anonymous KStruct [
    u_leaf 0 FORMAT_VERSION; u_leaf 1 vid; Node (Context 2) KArray [Leaf Anonymous (VUint pid)];
    u_leaf 3 DEVICE_TYPE_ID_IN_CD; Leaf (Context 4) (VUtf8 CERTIFICATE_ID); u_leaf 5 0; u_leaf 6 0; u_leaf 7 1;
    u_leaf 8 CERTIFICATION_TYPE_DEVELOPMENT_AND_TEST].

Lemma encode_cd_at vid pid : encode_certification_elements vid pid = Ok (enc_tree (cd_tree vid pid)).
Proof. apply to_vec_writes, writes_struct. repeat (apply emits_uint || apply emits_str || apply emits_cons || apply emits_end || apply writes_array || apply writes_put_uint). Qed.

Lemma cd_tree_wf vid pid : in_u 16 vid → in_u 16 pid → wf_tree (cd_tree vid pid).
Proof.
  intros Hv Hp. apply wf_anon_node. constructor; [done|]. constructor; [by apply (wf_uint 1 vid 16)|].
  constructor; [|by repeat constructor]. apply wf_node; [done|]. constructor; [by apply (wf_anon_uint pid 16)|constructor].
Qed.

Lemma cd_tree_short vid pid : zlen (enc_tree (cd_tree vid pid)) ≤ 600.
Proof.
  eapply Z.le_trans; [apply (zlen_node _ _ _ 60)|done].
  repeat (apply Forall_cons; split); [..|constructor]; try (eapply Z.le_trans; [apply zlen_uint_leaf|done]); [|done].
  eapply Z.le_trans; [apply (zlen_node _ _ _ 17)|done]. apply Forall_singleton, zlen_uint_leaf.
Qed.

Lemma cd_parse vid pid : in_u 16 vid → in_u 16 pid → parse_cd_vid_pid (enc_tree (cd_tree vid pid)) = Ok (Some vid, [pid]).
Proof.
  intros Hv Hp. pose proof (cd_tree_wf vid pid Hv Hp) as Hwf. pose proof (cd_tree_short vid pid) as Hs.
  unfold parse_cd_vid_pid. apply reads_all; [|unfold small; lia]. unfold cd_reader.
  unfold cd_tree at 1. rewrite enc_tree_split. eapply reads_bind; [by apply (reads_next_el _ _ (cd_tree vid pid))|].
  cbn [root_el el_value root_value cd_tree start_of]. rewrite bool_decide_true by done. cbn [negb inner].
  apply wf_children in Hwf as [_ Hch]. apply walk_at; [done|].
  eapply walks_leaf; [apply reads_ret|]. eapply walks_leaf; [apply reads_ret|]. eapply walks_node.
  { eapply reads_bind_end; [|apply reads_ret]. apply walk_at.
    - constructor; [by apply (wf_anon_uint pid 16)|constructor].
    - eapply walks_leaf; [|apply walks_nil]. unfold pid_step. cbn [el_value].
      rewrite (proj2 (try_u_Some 16 pid pid) (conj eq_refl Hp)). apply reads_ret. }
  do 6 (eapply walks_leaf; [apply reads_ret|]). rewrite (proj2 (try_u_Some 16 vid vid) (conj eq_refl Hv)). apply walks_nil.
Qed.

(** *** The signed declaration *)

Lemma at_labelled {A} (m : DR A) b a reason : der_at m b a → der_at (labelled m reason) b a.
Proof. intros Hm rest. unfold labelled. by rewrite Hm. Qed.
Lemma at_labelled_read t c reason : zlen c ≤ 65535 → der_at (labelled der_read reason) (tlv t c) (t, c, tlv t c).
Proof. intros Hc. by apply at_labelled, at_read. Qed.
Lemma at_labelled_expect t c reason : zlen c ≤ 65535 → der_at (labelled (der_expect t) reason) (tlv t c) c.
Proof. intros Hc. by apply at_labelled, at_expect. Qed.

Definition sha_alg : bytes := concat [tlv 0x06 SHA256_OID].
Definition signer_content (kid d : bytes) : bytes :=
  concat [tlv 0x02 [3]; tlv 0x80 kid; tlv 0x30 sha_alg; tlv 0x30 alg_content; tlv 0x04 d].
Definition encap_content (content : bytes) : bytes :=
  concat [tlv 0x06 PKCS7_DATA; tlv 0xA0 (tlv 0x04 content)].
Definition sd_content (content kid d : bytes) : bytes :=
  concat [tlv 0x02 [3]; tlv 0x31 (concat [tlv 0x30 sha_alg]); tlv 0x30 (encap_content content);
          tlv 0x31 (concat [tlv 0x30 (signer_content kid d)])].
Definition ci_content (content kid d : bytes) : bytes :=
  concat [tlv 0x06 PKCS7_SIGNED_DATA; tlv 0xA0 (tlv 0x30 (sd_content content kid d))].

Section cms_made.
Context `{Ec : Ecdsa} `{!EcdsaLaws Ec} `{Sha256}.
Context (content kid d : bytes) (Hc : zlen content ≤ 600) (Hk : zlen kid = 20) (Hd : zlen d ≤ 90).

Lemma signer_short : zlen (signer_content kid d) ≤ 160.
Proof.
  unfold signer_content. pose proof (zlen_tlv 0x80 kid). pose proof (zlen_tlv 0x04 d). cbn [concat].
  rewrite !zlen_app, (zlen_nil (A:=Z)). change (zlen (tlv 0x02 [3])) with 3.
  change (zlen (tlv 0x30 sha_alg)) with 13. change (zlen (tlv 0x30 alg_content)) with 12. lia.
Qed.
Lemma signers_short : zlen (concat [tlv 0x30 (signer_content kid d)]) ≤ 164.
Proof. pose proof signer_short. pose proof (zlen_tlv 0x30 (signer_content kid d)). cbn [concat]. rewrite app_nil_r. lia. Qed.
Lemma encap_short : zlen (encap_content content) ≤ 620.
Proof.
  unfold encap_content. pose proof (zlen_tlv 0x04 content). pose proof (zlen_tlv 0xA0 (tlv 0x04 content)). cbn [concat].
  rewrite !zlen_app, (zlen_nil (A:=Z)). change (zlen (tlv 0x06 PKCS7_DATA)) with 11. lia.
Qed.
Lemma sd_short : zlen (sd_content content kid d) ≤ 820.
Proof.
  pose proof signers_short. pose proof encap_short. unfold sd_content. set (sg := concat [tlv 0x30 (signer_content kid d)]) in *.
  pose proof (zlen_tlv 0x31 sg). pose proof (zlen_tlv 0x30 (encap_content content)). cbn [concat].
  rewrite !zlen_app, (zlen_nil (A:=Z)). change (zlen (tlv 0x02 [3])) with 3. change (zlen (tlv 0x31 (tlv 0x30 sha_alg ++ []))) with 15. lia.
Qed.
Lemma ci_short : zlen (ci_content content kid d) ≤ 850.
Proof.
  pose proof sd_short. unfold ci_content. pose proof (zlen_tlv 0x30 (sd_content content kid d)).
  pose proof (zlen_tlv 0xA0 (tlv 0x30 (sd_content content kid d))). cbn [concat]. rewrite !zlen_app, (zlen_nil (A:=Z)).
  change (zlen (tlv 0x06 PKCS7_SIGNED_DATA)) with 11. lia.
Qed.

Lemma signed_data_at : signed_data (tlv 0x30 (ci_content content kid d)) = Ok (sd_content content kid d).
Proof.
  pose proof ci_short. pose proof sd_short. pose proof (zlen_tlv 0x30 (sd_content content kid d)).
  unfold signed_data, cms_within. erewrite at_end; [cbn [res_bind]|apply at_labelled_expect; lia].
  erewrite at_end; [cbn [res_bind]|unfold ci_content; cbn [concat]; eapply at_bind; [by apply at_labelled_expect|] ].
  2:{ rewrite app_nil_r. apply at_labelled_expect. lia. }
  apply at_end, at_labelled_expect. lia.
Qed.

Lemma signed_content_at :
  signed_content (sd_content content kid d) = (tlv 0x31 (concat [tlv 0x30 (signer_content kid d)]), Ok content).
Proof.
  pose proof encap_short. unfold sd_content. set (sg := concat [tlv 0x30 (signer_content kid d)]) in *. cbn [concat].
  rewrite !app_nil_r, !app_assoc. match goal with |- signed_content (?a ++ _) = _ => cut (der_at signed_content a content) end.
  { intros Hat. apply Hat. }
  rewrite <- app_assoc. eapply at_bind; [by apply at_labelled_read|]. eapply at_bind; [by apply at_labelled_read|].
  eapply at_bind_end; [apply at_labelled_expect; lia|]. eapply at_bind_nil; apply at_lift.
  - apply at_end. unfold encap_content. cbn [concat]. eapply at_bind; [by apply at_labelled_expect|].
    rewrite app_nil_r. apply at_labelled_expect. pose proof (zlen_tlv 0x04 content). lia.
  - apply at_end, at_labelled_expect. lia.
Qed.

(** An optional element that is not there is not consumed. *)
Lemma peek_skips {E A} (m : option Z → M bytes E A) (p : M bytes E (option Z)) t c b a :
  (∀ r, p r = (r, Ok (head r))) → der_at (m (Some t)) (tlv t c ++ b) a → der_at (bind p m) (tlv t c ++ b) a.
Proof. intros Hp Hm rest. unfold bind. rewrite Hp, <- app_assoc, head_tlv, app_assoc. apply Hm. Qed.

Lemma first_signer_at :
  snd (first_signer (tlv 0x31 (concat [tlv 0x30 (signer_content kid d)]))) = Ok (signer_content kid d).
Proof.
  pose proof signers_short. pose proof signer_short. set (sg := concat [tlv 0x30 (signer_content kid d)]) in *.
  apply at_end. rewrite <- (app_nil_r (tlv _ _)). intros rest. unfold first_signer. unfold bind at 1. cbn [get]. revert rest.
  intros rest. unfold bind at 1. rewrite <- app_assoc.
  assert (skip_sets (S (length (tlv 0x31 sg ++ [] ++ rest))) (tlv 0x31 sg ++ [] ++ rest) = (tlv 0x31 sg ++ rest, Ok ())) as ->.
  { cbn [skip_sets app]. unfold bind at 1. unfold peek_tag, bind at 1. cbn [get ret]. rewrite head_tlv.
    by rewrite bool_decide_false by naive_solver. }
  revert rest. change (der_at (let! si := der_expect 0x31 in lift (der_within si (der_expect 0x30))) (tlv 0x31 sg) (signer_content kid d)).
  eapply at_bind_end; [apply at_expect; lia|]. apply at_lift. unfold sg. cbn [concat].
  apply within_prefix, at_expect. lia.
Qed.

Lemma signer_info_at :
  parse_signer_info (signer_content kid d) content = Ok {| si_signed_bytes := content; si_signature := d |}.
Proof.
  unfold parse_signer_info, cms_within. apply at_end. unfold signer_content. cbn [concat].
  eapply at_bind; [by apply at_labelled_read|]. eapply at_bind; [apply at_labelled_read; lia|].
  eapply at_bind; [by apply at_labelled_read|]. apply peek_skips; [done|]. rewrite bool_decide_false by done.
  eapply at_bind_nil; [apply at_ret|]. eapply at_bind; [by apply at_labelled_read|]. rewrite app_nil_r.
  eapply at_bind_end; [apply at_labelled_expect; lia|]. apply at_ret.
Qed.

Lemma cms_parse log : parse_cms_signed_data (tlv 0x30 (ci_content content kid d)) log =
  (log, Ok (content, Some {| si_signed_bytes := content; si_signature := d |})).
Proof.
  unfold parse_cms_signed_data, bind, lift. by rewrite signed_data_at, signed_content_at, first_signer_at, signer_info_at.
Qed.
End cms_made.

(** *** The development device *)

Section device.
Context `{Ec : Ecdsa} `{!EcdsaLaws Ec} `{H1 : Sha1} `{!Sha1Laws} `{Sha256}.

Lemma sd_bytes_ok content kid d : bytes_ok content → bytes_ok kid → bytes_ok d → bytes_ok (tlv 0x30 (ci_content content kid d)).
Proof.
  intros Hc Hk Hd.
  assert (Hseq : ∀ t l, is_byte t → Forall bytes_ok l → bytes_ok (tlv t (concat l))).
  { intros t l Ht Hl. apply tlv_ok; [done|]. by apply Forall_concat. }
  assert (bytes_ok (tlv 0x30 sha_alg) ∧ bytes_ok (tlv 0x30 alg_content) ∧ bytes_ok (tlv 0x02 [3]) ∧
    bytes_ok (tlv 0x06 PKCS7_DATA) ∧ bytes_ok (tlv 0x06 PKCS7_SIGNED_DATA)) as (B1 & B2 & B3 & B4 & B5)
    by (split_and!; by repeat constructor).
  apply Hseq; [done|]. constructor; [exact B5|constructor; [|constructor] ]. apply tlv_ok; [done|].
  apply Hseq; [done|]. constructor; [exact B3|]. constructor; [by apply Hseq; [done|constructor]|].
  constructor; [|constructor; [|constructor] ]; apply Hseq; try done.
  - constructor; [exact B4|constructor; [|constructor] ]. apply tlv_ok; [done|by apply tlv_ok].
  - constructor; [|constructor]. apply Hseq; [done|]. constructor; [exact B3|]. constructor; [by apply tlv_ok|].
    constructor; [exact B1|]. constructor; [exact B2|]. constructor; [by apply tlv_ok|constructor].
Qed.

Lemma cms_sign_at content kid sk : zlen content ≤ 600 → zlen kid = 20 → bytes_ok content → bytes_ok kid →
  is_Some (sk_sign sk []) → ∃ sig d, cms_sign content kid sk = Ok (tlv 0x30 (ci_content content kid d)) ∧
    sk_sign sk content = Some sig ∧ parse_ecdsa_der_signature d = Ok sig ∧ zlen d ≤ 90 ∧
    bytes_ok (tlv 0x30 (ci_content content kid d)).
Proof.
  intros Hc Hk Hcb Hkb Hsk. destruct (sk_sign_all sk [] content Hsk) as [sig Hsig].
  destruct (sk_sign_verifies sk content sig Hsig) as (Hlen & Hb & _).
  destruct (ecdsa_signature_at sig Hlen Hb) as (d & Hd & Hdl & Hp & Hdb). exists sig, d.
  split; [|split; [done|split; [done|split; [done|by apply sd_bytes_ok] ] ] ].
  pose proof (ci_short content kid d Hc Hk Hdl). pose proof (sd_short content kid d Hc Hk Hdl).
  pose proof (encap_short content Hc). pose proof (signers_short kid d Hk Hdl). pose proof (signer_short kid d Hk Hdl).
  pose proof (zlen_tlv 0x30 (sd_content content kid d)). pose proof (zlen_tlv 0x04 content).
  unfold cms_sign, sign_ecdsa_p256. rewrite Hsig. cbn [ok_or res_bind].
  unfold der_oid, der_seq, set_of, octet_string, context_constructed, context_primitive, der_integer.
  rewrite !(der_tlv_eq 6) by done. cbn [res_bind]. rewrite (der_tlv_eq 48) by done. cbn [res_bind].
  rewrite (der_tlv_eq 49) by done. cbn [res_bind]. rewrite (der_tlv_eq 4) by lia. cbn [res_bind].
  change (Z.lor 160 0) with 0xA0. change (Z.lor 128 0) with 0x80. rewrite (der_tlv_eq 0xA0) by lia. cbn [res_bind].
  rewrite der_tlv_eq by (fold (encap_content content); lia). cbn [res_bind]. rewrite (der_tlv_eq 2) by done. cbn [res_bind].
  rewrite (der_tlv_eq 0x80) by lia. rewrite ecdsa_alg_at, Hd. cbn [res_bind]. rewrite (der_tlv_eq 4) by lia. cbn [res_bind].
  change (concat [tlv 2 [3]; tlv 128 kid; tlv 48 (concat [tlv 6 SHA256_OID]); tlv 48 alg_content; tlv 4 d])
    with (signer_content kid d).
  rewrite der_tlv_eq by lia. cbn [res_bind]. rewrite der_tlv_eq by lia. cbn [res_bind].
  change (concat [tlv 2 [3]; _; _; _]) with (sd_content content kid d).
  rewrite der_tlv_eq by lia. cbn [res_bind]. rewrite der_tlv_eq by lia. cbn [res_bind].
  apply der_tlv_eq. fold (ci_content content kid d). lia.
Qed.

(** Where the generated certificates are valid: 2026 to 2029. *)
Definition in_validity (now : Z) : Prop := 1767225600 ≤ now ≤ 1893456000.

Lemma validity_at {E} now label c : in_validity now → xc_not_before c = Some (ascii "260101000000Z") →
  xc_not_after c = Some (ascii "300101000000Z") → ∀ log, warn_if_out_of_validity (E:=E) (Some now) label c log = (log, Ok ()).
Proof.
  intros [Hlo Hhi] Hb Ha log. unfold warn_if_out_of_validity. rewrite Hb, Ha.
  change (parse_cert_time <$> Some (ascii "260101000000Z")) with (Some (parse_cert_time (ascii "260101000000Z"))).
  rewrite (bool_decide_false (ascii "300101000000Z" = NO_EXPIRY_NOT_AFTER)) by (vm_compute; congruence).
  assert (parse_cert_time (ascii "260101000000Z") = Some (2026, 1, 1, 0, 0, 0)) as -> by (vm_compute; reflexivity).
  assert (parse_cert_time (ascii "300101000000Z") = Some (2030, 1, 1, 0, 0, 0)) as -> by (vm_compute; reflexivity).
  change (epoch_seconds 2026 1 1 0 0 0) with 1767225600. change (epoch_seconds 2030 1 1 0 0 0) with 1893456000.
  rewrite (proj2 (Z.ltb_ge now 1767225600)), (proj2 (Z.ltb_ge 1893456000 now)) by done. done.
Qed.

Lemma run_ok {S E A B} (m : M S E A) (k : A → M S E B) s a : m s = (s, Ok a) → bind m k s = k a s.
Proof. intros Hm. unfold bind. by rewrite Hm. Qed.
Lemma run_lift {S E A B} (m : res E A) (k : A → M S E B) s a : m = Ok a → bind (lift m) k s = k a s.
Proof. by intros ->. Qed.
Lemma run_pass {S B} c what (k : M S AttestationError B) s : c = false → bind (refuse_if c what) (λ _, k) s = k s.
Proof. by intros ->. Qed.

(** The declaration of the device under the key it is signed with. *)
Lemma cd_accepted {E} dac vid pid signer c d log : in_u 16 vid → in_u 16 pid →
  zlen d ≤ 90 → xc_vid dac = Some vid → xc_pid dac = Some pid →
  parse_x509 signer = Ok c → xc_public_key c = sk_public TEST_CD_SIGNING_KEY →
  (∃ sig, sk_sign TEST_CD_SIGNING_KEY (enc_tree (cd_tree vid pid)) = Some sig ∧ parse_ecdsa_der_signature d = Ok sig) →
  verify_cd_warn (E:=E) (tlv 0x30 (ci_content (enc_tree (cd_tree vid pid)) TEST_CD_SIGNING_KEY_ID d)) dac [signer] log = (log, Ok ()).
Proof.
  intros Hv Hp Hd Hdv Hdp Hs Hpk (sig & Hsig & Hparse). unfold verify_cd_warn.
  rewrite cms_parse by (done || apply cd_tree_short). cbv beta iota.
  assert (cd_matches_dac (E:=E) (enc_tree (cd_tree vid pid)) dac log = (log, Ok ())) as Hm.
  { unfold cd_matches_dac. rewrite cd_parse, Hdv, Hdp by done. rewrite Z.eqb_refl. cbn [negb].
    rewrite (bool_decide_true (pid ∈ [pid])) by by left. by rewrite andb_false_r. }
  rewrite (run_ok _ _ _ _ Hm). unfold verify_cd_signature_warn. rewrite bool_decide_false by done.
  cbn [si_signature si_signed_bytes]. rewrite Hparse. cbn [any_signer]. rewrite Hs, Hpk.
  destruct (sk_sign_verifies _ _ _ Hsig) as (_ & _ & V1 & V2 & V3). unfold verify_ecdsa_p256. rewrite V1, V2. cbn [negb].
  by rewrite V3.
Qed.

(** What the check needs of the three certificates. *)
Definition chain_good (dac_pub : bytes) (vid pid : Z) (dac pai paa : X509Cert) : Prop :=
  xc_public_key dac = dac_pub ∧ (xc_vid dac = Some vid ∧ xc_pid dac = Some pid) ∧
  (xc_vid pai = Some vid ∧ xc_pid pai = Some pid) ∧ xc_vid paa = None ∧
  (xc_issuer dac = xc_subject pai ∧ xc_issuer pai = xc_subject paa ∧ xc_akid pai = xc_skid paa) ∧
  (x509_verify_signed_by dac pai = Ok () ∧ x509_verify_signed_by pai paa = Ok ()) ∧
  (xc_is_ca pai = Some true ∧ xc_is_ca paa = Some true ∧ xc_is_ca dac = Some false) ∧
  (xc_key_usage pai = Some 0x60 ∧ xc_key_usage paa = Some 0x60 ∧ xc_key_usage dac = Some 1) ∧
  Forall (λ c, xc_not_before c = Some (ascii "260101000000Z") ∧ xc_not_after c = Some (ascii "300101000000Z")) [dac; pai; paa].

Definition gen_fields (vid pid : option Z) (subject issuer subject_key signer_key : bytes) (bc : GenConstraints)
    (ivp svp : option (Z * Z)) (usage : option Z) (signature : bytes) : X509Cert :=
  {| xc_tbs := tlv 0x30 (gen_tbs_content subject issuer subject_key signer_key bc ivp svp usage);
     xc_public_key := sk_public subject_key;
     xc_issuer := tlv 0x30 (name_content issuer ivp); xc_subject := tlv 0x30 (name_content subject svp);
     xc_signature := signature; xc_skid := Some (subject_key_id (sk_public subject_key));
     xc_akid := Some (subject_key_id (sk_public signer_key)); xc_vid := vid; xc_pid := pid; xc_is_ca := bc_is_ca bc;
     xc_not_before := Some (ascii "260101000000Z"); xc_not_after := Some (ascii "300101000000Z"); xc_key_usage := usage |}.
Lemma gen_x509_fields vid pid subject issuer subject_key signer_key bc ivp svp usage sig :
  name_ids subject svp = (vid, pid) →
  gen_x509 subject issuer subject_key signer_key bc ivp svp usage sig =
  gen_fields vid pid subject issuer subject_key signer_key bc ivp svp usage sig.
Proof. intros Hn. unfold gen_x509. rewrite Hn. reflexivity. Qed.

Lemma dev_names vid pid : in_u 16 vid → in_u 16 pid → ∀ s, s = ascii "dev paa" ∨ s = ascii "dev pai" ∨ s = ascii "dev dac" →
  name_ok s None ∧ name_ok s (Some (vid, pid)).
Proof. intros Hv Hp s [-> | [-> | ->] ]; (split; split; [done|split; [by repeat constructor|by split] |done|split; [by repeat constructor|by split] ]). Qed.

Ltac gen_projections :=
  cbn [gen_fields xc_public_key xc_issuer xc_subject xc_skid xc_akid xc_vid xc_pid xc_is_ca xc_not_before xc_not_after
       xc_key_usage bc_is_ca];
  repeat apply conj; reflexivity.

Lemma dev_chain_at paa_key pai_key dac_key vid pid :
  is_Some (sk_sign paa_key []) → is_Some (sk_sign pai_key []) → is_Some (sk_sign dac_key []) → in_u 16 vid → in_u 16 pid →
  ∃ paa pai dac cpaa cpai cdac,
    make_test_cert_ext (E:=X509Error) (ascii "dev paa") (ascii "dev paa") paa_key paa_key (Ca None) None None (Some 0x0060) = Ok paa ∧
    make_test_cert_ext (E:=X509Error) (ascii "dev pai") (ascii "dev paa") pai_key paa_key (Ca (Some 0)) None (Some (vid, pid)) (Some 0x0060) = Ok pai ∧
    make_test_cert_ext (E:=X509Error) (ascii "dev dac") (ascii "dev pai") dac_key pai_key EndEntity (Some (vid, pid)) (Some (vid, pid)) (Some 0x0001) = Ok dac ∧
    parse_x509 paa = Ok cpaa ∧ parse_x509 pai = Ok cpai ∧ parse_x509 dac = Ok cdac ∧
    chain_good (sk_public dac_key) vid pid cdac cpai cpaa.
Proof.
  intros Hpaa Hpai Hdac Hv Hp. pose proof (dev_names vid pid Hv Hp) as Hname.
  destruct (make_cert_at (ascii "dev paa") (ascii "dev paa") paa_key paa_key (Ca None) None None (Some 0x0060)) with (E:=X509Error)
    as (paa & spaa & Gpaa & Ppaa & Vpaa); [apply Hname; tauto|apply Hname; tauto|done|done|].
  destruct (make_cert_at (ascii "dev pai") (ascii "dev paa") pai_key paa_key (Ca (Some 0)) None (Some (vid, pid)) (Some 0x0060)) with (E:=X509Error)
    as (pai & spai & Gpai & Ppai & Vpai); [apply Hname; tauto|apply Hname; tauto|done|done|].
  destruct (make_cert_at (ascii "dev dac") (ascii "dev pai") dac_key pai_key EndEntity (Some (vid, pid)) (Some (vid, pid)) (Some 0x0001)) with (E:=X509Error)
    as (dac & sdac & Gdac & Pdac & Vdac); [apply Hname; tauto|apply Hname; tauto|done|done|].
  eexists _, _, _, _, _, _. split; [exact Gpaa|]. split; [exact Gpai|]. split; [exact Gdac|]. split; [exact Ppaa|]. split; [exact Ppai|].
  split; [exact Pdac|].
  assert (∀ s, gen_x509 (ascii "dev paa") (ascii "dev paa") paa_key paa_key (Ca None) None None (Some 0x0060) s =
    gen_fields None None (ascii "dev paa") (ascii "dev paa") paa_key paa_key (Ca None) None None (Some 0x0060) s) as Epaa.
  { intros s. apply gen_x509_fields. vm_compute. reflexivity. }
  pose proof (gen_x509_fields (Some vid) (Some pid) (ascii "dev pai") (ascii "dev paa") pai_key paa_key (Ca (Some 0)) None (Some (vid, pid)) (Some 0x0060) spai eq_refl) as Epai.
  pose proof (gen_x509_fields (Some vid) (Some pid) (ascii "dev dac") (ascii "dev pai") dac_key pai_key EndEntity (Some (vid, pid)) (Some (vid, pid)) (Some 0x0001) sdac eq_refl) as Edac.
  assert (x509_verify_signed_by (gen_x509 (ascii "dev dac") (ascii "dev pai") dac_key pai_key EndEntity (Some (vid, pid)) (Some (vid, pid)) (Some 0x0001) sdac)
    (gen_x509 (ascii "dev pai") (ascii "dev paa") pai_key paa_key (Ca (Some 0)) None (Some (vid, pid)) (Some 0x0060) spai) = Ok ()) as V1.
  { apply Vdac. rewrite Epai. reflexivity. }
  assert (x509_verify_signed_by (gen_x509 (ascii "dev pai") (ascii "dev paa") pai_key paa_key (Ca (Some 0)) None (Some (vid, pid)) (Some 0x0060) spai)
    (gen_x509 (ascii "dev paa") (ascii "dev paa") paa_key paa_key (Ca None) None None (Some 0x0060) spaa) = Ok ()) as V2.
  { apply Vpai. rewrite Epaa. reflexivity. }
  unfold chain_good. split; [rewrite Edac; reflexivity|]. do 4 (split; [rewrite ?Edac, ?Epai, ?Epaa; gen_projections|]).
  split; [by split|]. do 2 (split; [rewrite ?Edac, ?Epai, ?Epaa; gen_projections|]).
  rewrite Edac, Epai, Epaa. repeat (apply Forall_cons; split); [gen_projections..|constructor].
Qed.

(** A good chain, a signature of its device key and a clean declaration. *)
Lemma chain_accepted pk dac pai paa cdac cpai cpaa vid pid now store cd elements signers signature nonce challenge log :
  parse_x509 dac = Ok cdac → parse_x509 pai = Ok cpai → parse_x509 paa = Ok cpaa →
  chain_good pk vid pid cdac cpai cpaa → in_validity now →
  parse_elements elements = Ok (cd, nonce) → verifies (xc_public_key cdac) (attestation_tbs elements challenge) signature →
  (∀ l, verify_cd_warn (E:=AttestationError) cd cdac signers l = (l, Ok ())) →
  verify_device_attestation (Some now) dac pai (paa :: store) signers elements signature nonce challenge log = (log, Ok ()).
Proof.
  intros Pdac Ppai Ppaa Hg Hnow He Hsig Hcd.
  destruct Hg as (_ & [Hdv Hdp] & [Hpv Hpp] & Hav & (Hi1 & Hi2 & Hak) & [Hs1 Hs2] & (Hc1 & Hc2 & Hc3) & (Hk1 & Hk2 & Hk3) & Hval).
  apply Forall_cons in Hval as [Hv1 Hval]. apply Forall_cons in Hval as [Hv2 Hval]. apply Forall_cons in Hval as [Hv3 _].
  assert (paa_matches cpai cpaa = true) as Hm.
  { apply paa_matches_iff. split; [done|]. intros a s Ha Hsk. congruence. }
  unfold verify_device_attestation. rewrite Pdac, Ppai. rewrite !run_lift with (a := cdac) by done.
  rewrite run_lift with (a := cpai) by done.
  rewrite run_pass by by rewrite Hi1, bool_decide_true. rewrite run_lift with (a := ()) by by rewrite Hs1.
  cbn [find_paa]. rewrite Ppaa, Hm. rewrite run_ok with (a := Some cpaa) by done. rewrite run_lift with (a := cpaa) by done.
  rewrite run_lift with (a := ()) by by rewrite Hs2.
  rewrite run_pass by (rewrite Hdv, Hpv; by rewrite Z.eqb_refl).
  rewrite run_pass by by rewrite Hdp. rewrite run_pass by (rewrite Hpp, Hdp; by rewrite bool_decide_true).
  rewrite run_pass by by rewrite Hav. rewrite run_pass by by rewrite Hc1, bool_decide_true.
  rewrite run_pass by by rewrite Hc2, bool_decide_true. rewrite run_pass by by rewrite Hc3.
  rewrite run_pass by (unfold can_sign; by rewrite Hk1). rewrite run_pass by (unfold can_sign; by rewrite Hk2).
  rewrite Hk3. rewrite run_ok with (a := ()) by done.
  rewrite !run_ok with (s := log) (a := ()) by (apply validity_at; by destruct_and?).
  rewrite run_lift with (a := ()) by by apply verify_iff. rewrite He. rewrite run_lift with (a := (cd, nonce)) by done.
  cbv beta iota. rewrite bool_decide_true by done. apply Hcd.
Qed.

(** The development device: its material, and what the commissioner finds. *)
Lemma dev_attested paa_key pai_key dac_key vid pid nonce challenge ts now store signer c log :
  is_Some (sk_sign paa_key []) → is_Some (sk_sign pai_key []) → is_Some (sk_sign dac_key []) →
  is_Some (sk_sign TEST_CD_SIGNING_KEY []) → in_u 16 vid → in_u 16 pid →
  bytes_ok nonce → zlen nonce = 32 → in_u 32 ts → in_validity now →
  parse_x509 signer = Ok c → xc_public_key c = sk_public TEST_CD_SIGNING_KEY →
  ∃ dev elements signature cdac,
    generate_dev_attestation paa_key pai_key dac_key vid pid = Ok dev ∧
    encode_attestation_elements (certification_declaration dev) nonce ts = Ok elements ∧
    sign_ecdsa_p256 (dac_private_key dev) (attestation_tbs elements challenge) = Ok signature ∧
    verify_device_attestation (Some now) (dac_der dev) (pai_der dev) (paa_der dev :: store) [signer]
      elements signature nonce challenge log = (log, Ok ()) ∧
    dac_private_key dev = dac_key ∧ (parse_x509 (dac_der dev) = Ok cdac ∧ xc_public_key cdac = sk_public dac_key) ∧
    Forall (λ b, bytes_ok b ∧ zlen b ≤ 65540) [dac_der dev; pai_der dev; certification_declaration dev].
Proof.
  intros Hpaa Hpai Hdac Htest Hv Hp Hn Hnl Hts Hnow Hs Hc.
  destruct (dev_chain_at paa_key pai_key dac_key vid pid Hpaa Hpai Hdac Hv Hp)
    as (paa & pai & dac & cpaa & cpai & cdac & Gpaa & Gpai & Gdac & Ppaa & Ppai & Pdac & Hchain).
  destruct (cms_sign_at (enc_tree (cd_tree vid pid)) TEST_CD_SIGNING_KEY_ID TEST_CD_SIGNING_KEY) as (sig & d & Hcms & Hsig & Hparse & Hdl & Hcb);
    [apply cd_tree_short|done|by apply enc_tree_ok, cd_tree_wf|by repeat constructor|done|].
  set (cd := tlv 0x30 (ci_content (enc_tree (cd_tree vid pid)) TEST_CD_SIGNING_KEY_ID d)) in *.
  assert (zlen cd ≤ 1000) as Hcdl.
  { pose proof (ci_short (enc_tree (cd_tree vid pid)) TEST_CD_SIGNING_KEY_ID d (cd_tree_short _ _) eq_refl Hdl) as Hci. unfold cd.
    pose proof (zlen_tlv 0x30 (ci_content (enc_tree (cd_tree vid pid)) TEST_CD_SIGNING_KEY_ID d)). lia. }
  set (elements := enc_tree (elements_tree cd nonce ts)).
  destruct (sk_sign_all dac_key [] (attestation_tbs elements challenge) Hdac) as [asig Hasig].
  exists {| paa_der := paa; pai_der := pai; dac_der := dac; dac_private_key := dac_key; certification_declaration := cd |}, elements, asig, cdac. split; [|split; [|split; [|split; [|split; [reflexivity|split] ] ] ] ].
  - unfold generate_dev_attestation. cbv zeta. rewrite Gpaa, Gpai, Gdac. cbn [res_bind].
    unfold generate_dev_certification_declaration. rewrite encode_cd_at, Hcms. reflexivity.
  - cbn [certification_declaration]. exact (encode_elements_at cd nonce ts).
  - unfold sign_ecdsa_p256. cbn [dac_private_key]. by rewrite Hasig.
  - cbn [dac_der pai_der paa_der]. eapply (chain_accepted _ dac pai paa cdac cpai cpaa vid pid now store cd elements); try exact Hchain; try assumption.
    + apply elements_parse; try done; [unfold small; lia|]. unfold small. 
      eapply Z.le_lt_trans; [apply (zlen_node _ _ _ 2000)|done].
      repeat (apply Forall_cons; split); [..|constructor].
      * eapply Z.le_trans; [apply zlen_bytes_leaf|lia].
      * eapply Z.le_trans; [apply zlen_bytes_leaf|lia].
      * eapply Z.le_trans; [apply zlen_uint_leaf|done].
    + destruct (sk_sign_verifies _ _ _ Hasig) as (_ & _ & V1 & V2 & V3). destruct Hchain as (-> & _). by split.
    + intros l. apply (cd_accepted cdac vid pid signer c d l); try done; [apply Hchain|apply Hchain|by exists sig].
  - cbn [dac_der]. split; [exact Pdac|apply Hchain].
  - cbn [dac_der pai_der certification_declaration]. pose proof (dev_names vid pid Hv Hp) as Hname.
    apply Forall_cons. split; [|apply Forall_cons; split; [|apply Forall_singleton; split; [exact Hcb|lia] ] ].
    + eapply makes_cert; [| | | |exact Gdac]; [apply Hname; tauto|apply Hname; tauto|vm_compute; by repeat constructor|done].
    + eapply makes_cert; [| | | |exact Gpai]; [apply Hname; tauto|apply Hname; tauto|vm_compute; by repeat constructor|done].
Qed.

(** The development device passes the commissioner's check: the chain,
    the declaration and the elements that the device side produces for any
    vendor and product id, nonce and session challenge are accepted by
    [verify_device_attestation] against a trust store that holds the root, and
    within the certificates' validity and with the declaration's signing
    certificate at hand nothing is even warned about. *)
Theorem dev_device_attested paa_key pai_key dac_key vid pid nonce challenge ts now store signer c log :
  is_Some (sk_sign paa_key []) → is_Some (sk_sign pai_key []) → is_Some (sk_sign dac_key []) →
  is_Some (sk_sign TEST_CD_SIGNING_KEY []) → in_u 16 vid → in_u 16 pid →
  bytes_ok nonce → zlen nonce = 32 → in_u 32 ts → in_validity now →
  parse_x509 signer = Ok c → xc_public_key c = sk_public TEST_CD_SIGNING_KEY →
  ∃ dev elements signature,
    generate_dev_attestation paa_key pai_key dac_key vid pid = Ok dev ∧
    encode_attestation_elements (certification_declaration dev) nonce ts = Ok elements ∧
    sign_ecdsa_p256 (dac_private_key dev) (attestation_tbs elements challenge) = Ok signature ∧
    verify_device_attestation (Some now) (dac_der dev) (pai_der dev) (paa_der dev :: store) [signer]
      elements signature nonce challenge log = (log, Ok ()).
Proof.
  intros H2 H3 H4 H5 H6 H7 H8 H9 H10 H11 H12 H13.
  destruct (dev_attested paa_key pai_key dac_key vid pid nonce challenge ts now store signer c log) as (dev & e & s & cd & G1 & G2 & G3 & G4 & _); try done.
  by exists dev, e, s.
Qed.
End device.

Import ToyEcdsa.
#[local] Instance toy_sha256 : Sha256 := λ b, replicate 32 (sum b).

(** Concrete instances: an unparseable chain is refused, and the toy keys give
    an accepted device, with a certificate of the signing key. *)
Lemma attestation_decides_witness :
  ¬ attested [0x30; 0x05] [] [] [] [] [] [] ∧
  verify_device_attestation None [0x30; 0x05] [] [] [] [] [] [] [] [] = ([], Err (X509Failed (DerError "truncated content"))).
Proof.
  split; [|reflexivity].
  pose proof (attestation_decides None [0x30; 0x05] [] [] [] [] [] [] [] []) as H. apply H; by repeat constructor.
Defined.

Definition toy_key (n : Z) : bytes := replicate 32 n.
Lemma toy_usable n : is_Some (sk_sign (toy_key n) []).
Proof. by eexists. Qed.

Lemma dev_device_attested_witness : ∃ signer dev elements signature,
  generate_dev_attestation (toy_key 1) (toy_key 2) (toy_key 3) 0xFFF1 0x8000 = Ok dev ∧
  encode_attestation_elements (certification_declaration dev) (toy_key 9) 0 = Ok elements ∧
  sign_ecdsa_p256 (dac_private_key dev) (attestation_tbs elements (replicate 16 7)) = Ok signature ∧
  verify_device_attestation (Some 1800000000) (dac_der dev) (pai_der dev) [paa_der dev] [signer]
    elements signature (toy_key 9) (replicate 16 7) [] = ([], Ok ()).
Proof.
  destruct (make_cert_at (ascii "csa") (ascii "csa") TEST_CD_SIGNING_KEY TEST_CD_SIGNING_KEY (Ca None) None None None) with (E:=X509Error)
    as (signer & sig & _ & Hsigner & _); [split_and?; repeat (split || constructor); done..|by eexists|].
  exists signer.
  apply (dev_device_attested (toy_key 1) (toy_key 2) (toy_key 3) 0xFFF1 0x8000 (toy_key 9) (replicate 16 7) 0 1800000000 []
    signer _ []) in Hsigner; [exact Hsigner|apply toy_usable..|by eexists|done|done|by repeat constructor|done|done|done|].
  rewrite (gen_x509_fields None None) by (vm_compute; reflexivity). reflexivity.
Defined.
