(* ===== verification/Calendar.v ===== *)
(** * The two calendar algorithms agree

    [civil_from_days] with the DER time of [crates/mat-controller/src/cert.rs]
    ([asn1_time], modelled in [Certs]) against [days_from_civil] with
    [parse_cert_time] of [attestation.rs] (modelled in [Attestation]): every
    moment a Matter certificate can name is written as a time that reads back
    to the same second. *)

From S2P Require Import Prelude Certs Fabrics X509 Attestation.

#[local] Ltac Zify.zify_post_hook ::= Z.to_euclidean_division_equations.

(** ** Days *)

(** Within one era of 400 years: the year of the era and the day of the year. *)
Definition year_of_era (doe : Z) : Z := (doe - doe / 1460 + doe / 36524 - doe / 146096) / 365.
Definition day_of_year (doe : Z) : Z :=
  let yoe := year_of_era doe in doe - (365 * yoe + yoe / 4 - yoe / 100).

(** The first day of a year of the era. *)
Definition year_start (y : Z) : Z := 365 * y + y / 4 - y / 100 + y / 400.

Lemma year_of_era_mono a b : 0 ≤ a ≤ b → b < 146097 → year_of_era a ≤ year_of_era b.
Proof.
  intros Hab Hb. unfold year_of_era. apply Z.div_le_mono; [lia|].
  assert (a - a / 1460 ≤ b - b / 1460) by lia.
  assert (a / 36524 - a / 146096 ≤ b / 36524 - b / 146096); [|lia].
  assert (∀ c, 0 ≤ c < 146097 → c = 146096 ∧ c / 36524 - c / 146096 = 3 ∨ c < 146096 ∧ c / 146096 = 0 ∧ c / 36524 ≤ 3) as Hc.
  { intros c Hc. destruct (Z.eq_dec c 146096) as [->|]; [by left|]. right. split; [lia|]. split; [by rewrite Z.div_small by lia|lia]. }
  pose proof (Z.div_le_mono a b 36524 ltac:(lia) ltac:(lia)).
  destruct (Hc a ltac:(lia)) as [ [? ?]|(? & ? & ?)], (Hc b ltac:(lia)) as [ [? ?]|(? & ? & ?)]; lia.
Qed.

Lemma year_ends y : 0 ≤ y < 400 →
  year_of_era (year_start y) = y ∧ year_of_era (year_start (y + 1) - 1) = y ∧ year_start (y + 1) - year_start y ≤ 366.
Proof.
  intros Hy.
  assert (forallb (λ n, let y := Z.of_nat n in (year_of_era (year_start y) =? y) &&
    (year_of_era (year_start (y + 1) - 1) =? y) && (year_start (y + 1) - year_start y <=? 366)) (seq 0 400) = true) as H
    by (vm_compute; reflexivity).
  rewrite forallb_forall in H. specialize (H (Z.to_nat y)). rewrite Z2Nat.id in H by lia.
  assert (In (Z.to_nat y) (seq 0 400)) as Hin by (apply in_seq; lia). specialize (H Hin). cbv zeta in H.
  apply andb_prop in H as [H H3]. apply andb_prop in H as [H1 H2]. lia.
Qed.

Lemma year_found doe : 0 ≤ doe < 146097 → ∃ y, 0 ≤ y < 400 ∧ year_start y ≤ doe < year_start (y + 1).
Proof.
  intros Hd. assert (∀ n : nat, doe < year_start (Z.of_nat n) → ∃ y, 0 ≤ y < Z.of_nat n ∧ year_start y ≤ doe < year_start (y + 1)) as H.
  { induction n as [|n IH]; intros Hn; [change (year_start (Z.of_nat 0)) with 0 in Hn; lia|].
    destruct (Z.lt_ge_cases doe (year_start (Z.of_nat n))) as [Hlt|Hge].
    - destruct (IH Hlt) as (y & ? & ?). exists y. lia.
    - exists (Z.of_nat n). rewrite Nat2Z.inj_succ in *. unfold Z.succ in *. lia. }
  apply (H 400%nat). change (year_start (Z.of_nat 400)) with 146097. lia.
Qed.

Lemma era_bounds doe : 0 ≤ doe < 146097 → 0 ≤ year_of_era doe < 400 ∧ 0 ≤ day_of_year doe ≤ 365.
Proof.
  intros Hd. destruct (year_found doe Hd) as (y & Hy & Hs & He). destruct (year_ends y Hy) as (E1 & E2 & E3).
  assert (year_of_era doe = y) as Hyear.
  { assert (0 ≤ year_start y) by (unfold year_start; lia). 
    pose proof (year_of_era_mono (year_start y) doe ltac:(lia) ltac:(lia)).
    pose proof (year_of_era_mono doe (year_start (y + 1) - 1) ltac:(lia)). unfold year_start in *. lia. }
  unfold day_of_year. cbv zeta. rewrite Hyear. unfold year_start in *. lia.
Qed.

Definition month_of (doy : Z) : Z := (5 * doy + 2) / 153.

Lemma month_bounds doy : 0 ≤ doy ≤ 365 → 0 ≤ month_of doy ≤ 11 ∧ 1 ≤ doy - (153 * month_of doy + 2) / 5 + 1 ≤ 31.
Proof. intros Hd. unfold month_of. lia. Qed.

Lemma civil_days z : 0 ≤ z + 719468 →
  let '(y, m, d) := civil_from_days z in days_from_civil y m d = z ∧ 1 ≤ m ≤ 12 ∧ 1 ≤ d ≤ 31.
Proof.
  intros Hz. unfold civil_from_days. rewrite (proj2 (Z.leb_le 0 (z + 719468))) by lia.
  rewrite Z.quot_div_nonneg by lia. set (era := (z + 719468) / 146097).
  set (doe := z + 719468 - era * 146097). assert (0 ≤ doe < 146097) as Hdoe by (unfold doe, era; lia).
  destruct (era_bounds doe Hdoe) as [Hy Hdoy].
  change (doe - (365 * ((doe - doe / 1460 + doe / 36524 - doe / 146096) / 365) +
    (doe - doe / 1460 + doe / 36524 - doe / 146096) / 365 / 4 -
    (doe - doe / 1460 + doe / 36524 - doe / 146096) / 365 / 100)) with (day_of_year doe).
  change ((doe - doe / 1460 + doe / 36524 - doe / 146096) / 365) with (year_of_era doe).
  change ((5 * day_of_year doe + 2) / 153) with (month_of (day_of_year doe)).
  destruct (month_bounds _ Hdoy) as [Hm Hd].
  assert (doe = year_of_era doe * 365 + year_of_era doe / 4 - year_of_era doe / 100 + day_of_year doe) as Hsplit.
  { unfold day_of_year. lia. }
  assert (0 ≤ era) as Hera by (unfold era; lia).
  assert (z = era * 146097 + doe - 719468) as Hz' by (unfold doe; lia).
  set (yoe := year_of_era doe) in *. set (doy := day_of_year doe) in *. set (mp := month_of doy) in *.
  clearbody era doe yoe doy mp. cbv zeta.
  destruct (Z.ltb_spec mp 10) as [Hlt|Hge].
  - rewrite (proj2 (Z.leb_gt (mp + 3) 2)) by lia. split; [|lia]. unfold days_from_civil. cbv zeta.
    rewrite (proj2 (Z.leb_gt (mp + 3) 2)) by lia. rewrite (proj2 (Z.leb_le 0 (yoe + era * 400))) by lia.
    rewrite Z.quot_div_nonneg by lia. rewrite Z.div_add, (Z.div_small yoe) by lia.
    replace ((mp + 3 + 9) mod 12) with mp by lia. replace (yoe + era * 400 - (0 + era) * 400) with yoe by lia. lia.
  - rewrite (proj2 (Z.leb_le (mp - 9) 2)) by lia. split; [|lia]. unfold days_from_civil. cbv zeta.
    rewrite (proj2 (Z.leb_le (mp - 9) 2)) by lia. replace (yoe + era * 400 + 1 - 1) with (yoe + era * 400) by lia.
    rewrite (proj2 (Z.leb_le 0 (yoe + era * 400))) by lia.
    rewrite Z.quot_div_nonneg by lia. rewrite Z.div_add, (Z.div_small yoe) by lia.
    replace ((mp - 9 + 9) mod 12) with mp by lia. replace (yoe + era * 400 - (0 + era) * 400) with yoe by lia. lia.
Qed.

(** ** Digits *)

Lemma format_dec_at n v : (n ≤ 20)%nat → 0 ≤ v < 10 ^ Z.of_nat n → format_dec n v = map digit_char (digits 10 n v).
Proof.
  intros Hn Hv. unfold format_dec. f_equal. replace 20%nat with (20 - n + n)%nat by lia. rewrite digits_app by lia.
  rewrite Z.div_small by done. rewrite digits_0 by lia. apply strip_zeros_app, length_digits.
Qed.

Lemma dec_app a b : dec (a ++ b) = dec a * 10 ^ zlen b + dec b.
Proof.
  unfold dec. rewrite foldl_app. generalize (foldl (λ v c, 10 * v + (c - 48)) 0 a). intros x. revert x.
  induction b as [|c b IH] using rev_ind; intros x; [rewrite (zlen_nil (A:=Z)), Z.pow_0_r; cbn; lia|]. rewrite !foldl_app, zlen_app. cbn [foldl].
  rewrite IH. change (zlen [c]) with 1. rewrite Z.pow_add_r by (pose proof (zlen_nonneg b); lia). change (10 ^ 1) with 10. ring.
Qed.

Lemma dec_digits n v : 0 ≤ v < 10 ^ Z.of_nat n → dec (map digit_char (digits 10 n v)) = v.
Proof.
  revert v. induction n as [|n IH]; intros v Hv; [cbn in *; lia|]. cbn [digits]. rewrite map_app, dec_app.
  rewrite Nat2Z.inj_succ, Z.pow_succ_r in Hv by lia. rewrite IH by (split; [lia|apply Z.div_lt_upper_bound; lia]).
  cbn [map]. change (zlen [digit_char (v mod 10)]) with 1. unfold dec. cbn [foldl]. unfold digit_char.
  pose proof (Z.mod_pos_bound v 10 ltac:(lia)). rewrite (proj2 (Z.ltb_lt _ _)) by lia. lia.
Qed.

Lemma digits_are n v : forallb is_digit (map digit_char (digits 10 n v)) = true.
Proof.
  rewrite forallb_forall. intros c Hc. apply in_map_iff in Hc as (d & <- & Hd).
  pose proof (digits_range 10 n v ltac:(lia)) as Hr. rewrite Forall_forall in Hr. apply list_elem_of_In in Hd. apply Hr in Hd.
  unfold digit_char, is_digit. rewrite (proj2 (Z.ltb_lt _ _)) by lia. lia.
Qed.

(** A field of a time: [n] digits. *)
Lemma field_at n v : (n ≤ 20)%nat → 0 ≤ v < 10 ^ Z.of_nat n →
  dec (format_dec n v) = v ∧ length (format_dec n v) = n ∧ forallb is_digit (format_dec n v) = true.
Proof.
  intros Hn Hv. rewrite format_dec_at by done. split; [by apply dec_digits|]. rewrite length_map, length_digits.
  split; [done|apply digits_are].
Qed.

(** Slices of a list of known length. *)
Ltac slices :=
  cbn [mbind option_bind];
  repeat match goal with
  | |- context [zslice ?a ?b ?l] => let l' := eval vm_compute in (zslice a b l) in change (zslice a b l) with l'
  end.

(** A time with its fields at their widths, the year in two or four digits. *)
Lemma parse_time_at y mo d h mi s year : 
  1 ≤ mo ≤ 12 → 1 ≤ d ≤ 31 → 0 ≤ h ≤ 23 → 0 ≤ mi ≤ 59 → 0 ≤ s ≤ 59 → forallb is_digit y = true →
  (length y = 2%nat ∧ year = (if dec y <? 50 then 2000 + dec y else 1900 + dec y) ∨ length y = 4%nat ∧ year = dec y) →
  parse_cert_time (y ++ format_dec 2 mo ++ format_dec 2 d ++ format_dec 2 h ++ format_dec 2 mi ++ format_dec 2 s ++ [90]) =
  Some (year, mo, d, h, mi, s).
Proof.
  intros Hmo Hd Hh Hmi Hs Hy Hyear.
  destruct (field_at 2 mo) as (E1 & L1 & D1); [lia|cbn; lia|]. destruct (field_at 2 d) as (E2 & L2 & D2); [lia|cbn; lia|].
  destruct (field_at 2 h) as (E3 & L3 & D3); [lia|cbn; lia|]. destruct (field_at 2 mi) as (E4 & L4 & D4); [lia|cbn; lia|].
  destruct (field_at 2 s) as (E5 & L5 & D5); [lia|cbn; lia|].
  assert (negb ((1 <=? mo) && (mo <=? 12)) || negb ((1 <=? d) && (d <=? 31)) || (23 <? h) || (59 <? mi) || (60 <? s) = false) as Hin.
  { rewrite (proj2 (Z.leb_le 1 mo)), (proj2 (Z.leb_le mo 12)), (proj2 (Z.leb_le 1 d)), (proj2 (Z.leb_le d 31)) by lia.
    by rewrite (proj2 (Z.ltb_ge 23 h)), (proj2 (Z.ltb_ge 59 mi)), (proj2 (Z.ltb_ge 60 s)) by lia. }
  unfold parse_cert_time. rewrite !app_assoc, rev_app_distr. cbn [rev app]. rewrite rev_involutive.
  rewrite !forallb_app, Hy, D1, D2, D3, D4, D5. cbn [andb negb]. rewrite <- !app_assoc.
  clear D1 D2 D3 D4 D5 Hy. revert E1 L1 E2 L2 E3 L3 E4 L4 E5 L5.
  generalize (format_dec 2 mo) (format_dec 2 d) (format_dec 2 h) (format_dec 2 mi) (format_dec 2 s).
  intros [|a1 [|a2 [|] ] ] [|b1 [|b2 [|] ] ] [|c1 [|c2 [|] ] ] [|d1 [|d2 [|] ] ] [|e1 [|e2 [|] ] ] E1 L1 E2 L2 E3 L3 E4 L4 E5 L5;
    try discriminate.
  destruct Hyear as [ [Hl ->]|[Hl ->] ].
  - destruct y as [|y1 [|y2 [|] ] ]; try discriminate. change (zlen _ =? 12) with true. cbn [app].
    slices. rewrite E1, E2, E3, E4, E5, Hin. done.
  - destruct y as [|y1 [|y2 [|y3 [|y4 [|] ] ] ] ]; try discriminate. change (zlen _ =? 12) with false.
    change (zlen _ =? 14) with true. cbn [app]. slices. rewrite E1, E2, E3, E4, E5, Hin. done.
Qed.

Lemma years_at y m d : 1 ≤ m ≤ 12 → 1 ≤ d ≤ 31 → 0 ≤ days_from_civil y m d ≤ 70000 → 1900 ≤ y ≤ 2200.
Proof.
  intros Hm Hd. unfold days_from_civil. cbv zeta.
  assert (∀ y', Z.quot (if 0 <=? y' then y' else y' - 399) 400 = y' / 400) as Hq.
  { intros y'. destruct (Z.leb_spec 0 y'); [by apply Z.quot_div_nonneg|].
    lia. }
  rewrite Hq. destruct (m <=? 2); lia.
Qed.

Lemma time_short y a b c d e : length y = 2%nat ∨ length y = 4%nat → 1 ≤ a ≤ 12 → 1 ≤ b ≤ 31 → 0 ≤ c ≤ 23 → 0 ≤ d ≤ 59 → 0 ≤ e ≤ 59 →
  zlen (y ++ format_dec 2 a ++ format_dec 2 b ++ format_dec 2 c ++ format_dec 2 d ++ format_dec 2 e ++ [90]) ≤ 65535.
Proof.
  intros Hy Ha Hb Hc Hd He. assert (∀ v, 0 ≤ v ≤ 59 → length (format_dec 2 v) = 2%nat) as Hl.
  { intros v Hv. apply field_at; [lia|cbn; lia]. }
  unfold zlen. rewrite !length_app, !Hl by lia. cbn. lia.
Qed.

(** The Unix time of a second of the Matter epoch (2000-01-01). *)
Definition unix_seconds (epoch : Z) : Z := epoch + 946684800.

(** The calendar of the certificate writer and that of the attestation
    check agree: the DER time that [asn1_time] makes of any moment a Matter
    certificate can name (a non-zero [u32] of seconds since 2000) is a UTCTime
    or a GeneralizedTime whose text [parse_cert_time] accepts, and the fields it
    finds denote that very second. *)
Theorem certificate_time_round_trip epoch : 0 < epoch < 2 ^ 32 → ∃ tag s y mo d h mi sec,
  asn1_time (E:=X509Error) epoch = Ok (tlv tag s) ∧ (tag = 0x17 ∨ tag = 0x18) ∧
  parse_cert_time s = Some (y, mo, d, h, mi, sec) ∧ epoch_seconds y mo d h mi sec = unix_seconds epoch.
Proof.
  intros He. unfold unix_seconds. unfold asn1_time. rewrite (proj2 (Z.eqb_neq epoch 0)) by lia. cbv zeta.
  set (unix := epoch + 946684800). pose proof (civil_days (unix / 86400)) as Hc.
  assert (0 ≤ unix / 86400 ≤ 70000) as Hrange by (unfold unix; lia). destruct (civil_from_days (unix / 86400)) as [ [y mo] d].
  destruct Hc as (Hdays & Hmo & Hd); [lia|]. assert (1900 ≤ y ≤ 2200) as Hy by (eapply years_at; [done|done|by rewrite Hdays]).
  assert (epoch_seconds y mo d (unix mod 86400 / 3600) (unix mod 86400 mod 3600 / 60) (unix mod 86400 mod 60) = unix) as Hsec.
  { unfold epoch_seconds. rewrite Hdays. lia. }
  assert (0 ≤ unix mod 86400 / 3600 ≤ 23 ∧ 0 ≤ unix mod 86400 mod 3600 / 60 ≤ 59 ∧ 0 ≤ unix mod 86400 mod 60 ≤ 59) as (Hh & Hmi & Hs) by lia.
  revert Hh Hmi Hs Hsec. generalize (unix mod 86400 / 3600) (unix mod 86400 mod 3600 / 60) (unix mod 86400 mod 60).
  intros h mi sec Hh Hmi Hs Hsec.
  destruct ((1950 <=? y) && (y <=? 2049)) eqn:Hutc.
  - destruct (field_at 2 (y mod 100)) as (E & L & D); [lia|cbn; lia|].
    exists 0x17, (format_dec 2 (y mod 100) ++ format_dec 2 mo ++ format_dec 2 d ++ format_dec 2 h ++ format_dec 2 mi ++ format_dec 2 sec ++ [90]), y, mo, d, h, mi, sec.
    split; [apply der_tlv_eq; apply time_short; try done; by left|]. split; [by left|]. split; [|done].
    apply parse_time_at; try done. left. split; [done|]. rewrite E. apply andb_prop in Hutc as [?%Z.leb_le ?%Z.leb_le]. destruct (Z.ltb_spec (y mod 100) 50); lia.
  - destruct (field_at 4 y) as (E & L & D); [lia|cbn; lia|].
    exists 0x18, (format_dec 4 y ++ format_dec 2 mo ++ format_dec 2 d ++ format_dec 2 h ++ format_dec 2 mi ++ format_dec 2 sec ++ [90]), y, mo, d, h, mi, sec.
    split; [apply der_tlv_eq; apply time_short; try done; by right|]. split; [by right|]. split; [|done].
    apply parse_time_at; try done. by right.
Qed.

Lemma certificate_time_round_trip_witness : ∃ tag s y mo d h mi sec,
  asn1_time (E:=X509Error) 662688000 = Ok (tlv tag s) ∧ (tag = 0x17 ∨ tag = 0x18) ∧
  parse_cert_time s = Some (y, mo, d, h, mi, sec) ∧ epoch_seconds y mo d h mi sec = 662688000 + 946684800.
Proof. apply certificate_time_round_trip. split; reflexivity. Defined.
