(* ===== verification/Commissioning.v ===== *)
(** * The device's commissioning server

    Models [crates/mat-device/src/core/commissioning/]: the state behind
    General Commissioning (0x0030), Node Operational Credentials (0x003E) and
    Administrator Commissioning (0x003C) ([mod.rs]), their commands
    ([general_commissioning.rs], [attestation.rs], [noc.rs],
    [admin_commissioning.rs]), and the three cluster handlers over that state
    with their attribute reads ([handlers.rs]).

    The clock and the key generator are inputs: a command sees one instant
    [now] (nanoseconds) and, where it draws one, one fresh P-256 [secret].  The
    stores that the code shares with other clusters behind handles ([acl_store],
    [group_key_store], [group_membership_store]) live in this state, and the
    other handlers reach them there; [None] is a store that was never wired in. *)

From Stdlib Require Import String.
From stdpp Require Import gmap.
From S2P Require Import Prelude Tlv TlvValue Handler AccessControl Clusters Groups Fabrics GroupKeys CommCodec Certs X509 Attestation.

(** ** Constants *)

Definition CLUSTER_GENERAL_COMMISSIONING : Z := 0x0030.
Definition CLUSTER_ADMIN_COMMISSIONING : Z := 0x003C.
Definition CLUSTER_OPERATIONAL_CREDENTIALS : Z := 0x003E.

Definition CMD_ARM_FAIL_SAFE : Z := 0x00.
Definition CMD_SET_REGULATORY_CONFIG : Z := 0x02.
Definition CMD_COMMISSIONING_COMPLETE : Z := 0x04.
Definition CMD_ATTESTATION_REQUEST : Z := 0x00.
Definition CMD_CERT_CHAIN_REQUEST : Z := 0x02.
Definition CMD_CSR_REQUEST : Z := 0x04.
Definition CMD_ADD_NOC : Z := 0x06.
Definition CMD_UPDATE_FABRIC_LABEL : Z := 0x09.
Definition CMD_REMOVE_FABRIC : Z := 0x0A.
Definition CMD_ADD_TRUSTED_ROOT : Z := 0x0B.
Definition CMD_OPEN_COMMISSIONING_WINDOW : Z := 0x00.
Definition CMD_REVOKE_COMMISSIONING : Z := 0x02.
Definition CERT_TYPE_DAC : Z := 1.
Definition CERT_TYPE_PAI : Z := 2.

Definition RESP_ARM_FAIL_SAFE : Z := 0x01.
Definition RESP_SET_REGULATORY_CONFIG : Z := 0x03.
Definition RESP_COMMISSIONING_COMPLETE : Z := 0x05.
Definition RESP_ATTESTATION : Z := 0x01.
Definition RESP_CERT_CHAIN : Z := 0x03.
Definition RESP_CSR : Z := 0x05.
Definition RESP_NOC : Z := 0x08.

Definition NOC_STATUS_OK : Z := 0.
Definition NOC_STATUS_INVALID_PUBLIC_KEY : Z := 1.
Definition NOC_STATUS_INVALID_NOC : Z := 3.
Definition NOC_STATUS_MISSING_CSR : Z := 4.
Definition NOC_STATUS_TABLE_FULL : Z := 5.
Definition NOC_STATUS_INVALID_FABRIC_INDEX : Z := 0x0A.
Definition NOC_STATUS_INVALID_ADMIN_SUBJECT : Z := 0x0B.

Definition ATTR_GC_BREADCRUMB : Z := 0.
Definition ATTR_GC_BASIC_COMMISSIONING_INFO : Z := 1.
Definition ATTR_GC_REGULATORY_CONFIG : Z := 2.
Definition ATTR_GC_LOCATION_CAPABILITY : Z := 3.
Definition ATTR_GC_SUPPORTS_CONCURRENT_CONNECTION : Z := 4.
Definition ATTR_OC_NOCS : Z := 0.
Definition ATTR_OC_FABRICS : Z := 1.
Definition ATTR_OC_SUPPORTED_FABRICS : Z := 2.
Definition ATTR_OC_COMMISSIONED_FABRICS : Z := 3.
Definition ATTR_OC_TRUSTED_ROOT_CERTIFICATES : Z := 4.
Definition ATTR_OC_CURRENT_FABRIC_INDEX : Z := 5.
Definition SUPPORTED_FABRICS : Z := 5.
Definition ATTR_AC_WINDOW_STATUS : Z := 0.
Definition ATTR_AC_ADMIN_FABRIC_INDEX : Z := 1.
Definition ATTR_AC_ADMIN_VENDOR_ID : Z := 2.
Definition AC_STATUS_BUSY : Z := 2.
Definition AC_STATUS_PAKE_PARAMETER_ERROR : Z := 3.
Definition AC_STATUS_WINDOW_NOT_OPEN : Z := 4.
Definition FAIL_SAFE_EXPIRY_LENGTH_SECONDS : Z := 60.
Definition FAIL_SAFE_MAX_CUMULATIVE_SECONDS : Z := 900.
Definition STATUS_FAILSAFE_REQUIRED : Z := 0xCA.

(** ** State *)

Record PendingCommissioning := {
  op_private_key : option bytes;
  op_public_key : option bytes;
  trusted_root_tlv : option bytes
}.

Definition no_pending : PendingCommissioning :=
  {| op_private_key := None; op_public_key := None; trusted_root_tlv := None |}.

Definition pend_keys (private public : bytes) (p : PendingCommissioning) : PendingCommissioning :=
  {| op_private_key := Some private; op_public_key := Some public; trusted_root_tlv := trusted_root_tlv p |}.
Definition pend_root (rcac : bytes) (p : PendingCommissioning) : PendingCommissioning :=
  {| op_private_key := op_private_key p; op_public_key := op_public_key p; trusted_root_tlv := Some rcac |}.

Record AdminWindow := { aw_fabric : Z; aw_vendor : Z }.

Record WindowRequest := {
  wr_verifier : bytes;
  wr_discriminator : Z;
  wr_iterations : Z;
  wr_salt : bytes;
  wr_timeout : Z
}.

(** [fail_safe] is [armed_until]. *)
Record Inner := {
  dev : DevAttestation;
  armed_until : option Z;
  pending : PendingCommissioning;
  store : FabricStore;
  uncommitted_fabric_index : option Z;
  admin_window : option AdminWindow;
  pending_window_request : option WindowRequest;
  removed_fabric : option FabricEntry;
  acl_store : option AclStore;
  group_key_store : option GroupKeyStore;
  group_membership_store : option GroupMembershipStore
}.

Definition set_armed (t : option Z) (s : Inner) : Inner :=
  {| dev := dev s; armed_until := t; pending := pending s; store := store s;
     uncommitted_fabric_index := uncommitted_fabric_index s; admin_window := admin_window s;
     pending_window_request := pending_window_request s; removed_fabric := removed_fabric s;
     acl_store := acl_store s; group_key_store := group_key_store s;
     group_membership_store := group_membership_store s |}.
Definition set_pending (p : PendingCommissioning) (s : Inner) : Inner :=
  {| dev := dev s; armed_until := armed_until s; pending := p; store := store s;
     uncommitted_fabric_index := uncommitted_fabric_index s; admin_window := admin_window s;
     pending_window_request := pending_window_request s; removed_fabric := removed_fabric s;
     acl_store := acl_store s; group_key_store := group_key_store s;
     group_membership_store := group_membership_store s |}.
Definition set_store (f : FabricStore) (s : Inner) : Inner :=
  {| dev := dev s; armed_until := armed_until s; pending := pending s; store := f;
     uncommitted_fabric_index := uncommitted_fabric_index s; admin_window := admin_window s;
     pending_window_request := pending_window_request s; removed_fabric := removed_fabric s;
     acl_store := acl_store s; group_key_store := group_key_store s;
     group_membership_store := group_membership_store s |}.
Definition set_uncommitted (i : option Z) (s : Inner) : Inner :=
  {| dev := dev s; armed_until := armed_until s; pending := pending s; store := store s;
     uncommitted_fabric_index := i; admin_window := admin_window s;
     pending_window_request := pending_window_request s; removed_fabric := removed_fabric s;
     acl_store := acl_store s; group_key_store := group_key_store s;
     group_membership_store := group_membership_store s |}.
Definition set_window (w : option AdminWindow) (s : Inner) : Inner :=
  {| dev := dev s; armed_until := armed_until s; pending := pending s; store := store s;
     uncommitted_fabric_index := uncommitted_fabric_index s; admin_window := w;
     pending_window_request := pending_window_request s; removed_fabric := removed_fabric s;
     acl_store := acl_store s; group_key_store := group_key_store s;
     group_membership_store := group_membership_store s |}.
Definition set_request (r : option WindowRequest) (s : Inner) : Inner :=
  {| dev := dev s; armed_until := armed_until s; pending := pending s; store := store s;
     uncommitted_fabric_index := uncommitted_fabric_index s; admin_window := admin_window s;
     pending_window_request := r; removed_fabric := removed_fabric s;
     acl_store := acl_store s; group_key_store := group_key_store s;
     group_membership_store := group_membership_store s |}.
Definition set_removed (e : option FabricEntry) (s : Inner) : Inner :=
  {| dev := dev s; armed_until := armed_until s; pending := pending s; store := store s;
     uncommitted_fabric_index := uncommitted_fabric_index s; admin_window := admin_window s;
     pending_window_request := pending_window_request s; removed_fabric := e;
     acl_store := acl_store s; group_key_store := group_key_store s;
     group_membership_store := group_membership_store s |}.
Definition set_stores (a : option AclStore) (k : option GroupKeyStore) (m : option GroupMembershipStore)
    (s : Inner) : Inner :=
  {| dev := dev s; armed_until := armed_until s; pending := pending s; store := store s;
     uncommitted_fabric_index := uncommitted_fabric_index s; admin_window := admin_window s;
     pending_window_request := pending_window_request s; removed_fabric := removed_fabric s;
     acl_store := a; group_key_store := k; group_membership_store := m |}.

Definition CommissioningServer_new (d : DevAttestation) (f : FabricStore) : Inner := {|
  dev := d; armed_until := None; pending := no_pending; store := f; uncommitted_fabric_index := None;
  admin_window := None; pending_window_request := None; removed_fabric := None; acl_store := None;
  group_key_store := None; group_membership_store := None
|}.

Definition set_acl_store (a : AclStore) (s : Inner) : Inner :=
  set_stores (Some a) (group_key_store s) (group_membership_store s) s.
Definition set_group_key_store (k : GroupKeyStore) (s : Inner) : Inner :=
  set_stores (acl_store s) (Some k) (group_membership_store s) s.
Definition set_group_membership_store (m : GroupMembershipStore) (s : Inner) : Inner :=
  set_stores (acl_store s) (group_key_store s) (Some m) s.

Definition fabrics (s : Inner) : list FabricEntry := fs_entries (store s).

Definition purge_fabric_stores (fabric : Z) (s : Inner) : Inner :=
  set_stores (AccessControl.purge_fabric fabric <$> acl_store s) (gk_purge_fabric fabric <$> group_key_store s)
    (gs_purge_fabric fabric <$> group_membership_store s) s.

(** [FailSafeState]: [Instant]s are nanoseconds. *)
Definition arm (now expiry_s : Z) : option Z := Some (now + expiry_s * NANOS).
Definition deadline (now : Z) (s : Inner) : option Z :=
  match armed_until s with Some t => if now <? t then Some t else None | None => None end.
Definition is_armed (now : Z) (s : Inner) : bool := bool_decide (is_Some (deadline now s)).
Definition is_expired (now : Z) (s : Inner) : bool :=
  match armed_until s with Some t => t <=? now | None => false end.

(** The two [take]s, and the window as the runtime sees it. *)
Definition take_pending_window_request (s : Inner) : Inner * option WindowRequest :=
  (set_request None s, pending_window_request s).
Definition take_removed_fabric (s : Inner) : Inner * option FabricEntry := (set_removed None s, removed_fabric s).
Definition admin_window_is_open (s : Inner) : bool := bool_decide (is_Some (admin_window s)).
Definition close_admin_window (s : Inner) : Inner := set_window None s.

(** ** Replies and early returns

    A handler's [return reply] is a throw; [answer] makes it the reply. *)

Abbreviation H := (M Inner InvokeReply).

Definition answer (m : H InvokeReply) : M Inner Empty_set InvokeReply := λ s,
  match m s with
  | (s, Ok r) | (s, Err r) => (s, Ok r)
  | (s, Panic) => (s, Panic)
  | (s, OutOfFuel) => (s, OutOfFuel)
  end.

Definition status {A} (st : Z) : H A := throw (RStatus st).

Definition data (response : Z) (fields : fin bytes) : H InvokeReply :=
  let! f := lift_fin fields in ret (RData response f).

(** [let Ok(x) = r else { return reply }], for two replies. *)
Definition or_invalid {A} (m : res CommissionError A) : H A :=
  lift (map_err (λ _, RStatus STATUS_INVALID_COMMAND) m).
Definition noc_status {A} (st : Z) : H A :=
  let! r := data RESP_NOC (encode_noc_response st None) in throw r.
Definition or_invalid_noc {A} (m : res CertError A) : H A :=
  match m with
  | Ok a => ret a
  | Err _ => noc_status NOC_STATUS_INVALID_NOC
  | Panic => panic
  | OutOfFuel => out_of_fuel
  end.

(** [.expect(..)]. *)
Definition expect_ok {E A} (m : res E A) : H A :=
  match m with Ok a => ret a | Err _ | Panic => panic | OutOfFuel => out_of_fuel end.

(** An operation of [self.store], with its [Result] as a value. *)
Definition on_fabrics {E A} (m : M FabricStore string A) : M Inner E (res string A) := λ s,
  let '(f, r) := m (store s) in (set_store f s, Ok r).

Definition require_armed (now : Z) : H () :=
  let! s := get in if is_armed now s then ret () else status STATUS_FAILSAFE_REQUIRED.

(** ** General Commissioning *)

Definition rollback_uncommitted_fabric {E} : M Inner E (option FabricEntry) :=
  let! s := get in
  match uncommitted_fabric_index s with
  | None => ret None
  | Some i =>
      modify (set_uncommitted None) ;;!
      let removed := find_fabric i (fs_entries (store s)) in
      on_fabrics (fs_remove i) ;;!
      modify (purge_fabric_stores i) ;;!
      ret removed
  end.

Definition handle_arm_fail_safe (now : Z) (fields : bytes) : M Inner Empty_set InvokeReply := answer (
  let! (expiry_s, _) := or_invalid (decode_arm_fail_safe fields) in
  let! s := get in
  (if (expiry_s =? 0) || negb (is_armed now s)
   then rollback_uncommitted_fabric ;;! modify (set_pending no_pending)
   else ret ()) ;;!
  modify (set_armed (if expiry_s =? 0 then None else arm now expiry_s)) ;;!
  data RESP_ARM_FAIL_SAFE (encode_commissioning_status_response 0 [])).

Definition handle_set_regulatory_config (fields : bytes) : M Inner Empty_set InvokeReply := answer (
  or_invalid (decode_set_regulatory_config fields) ;;!
  data RESP_SET_REGULATORY_CONFIG (encode_commissioning_status_response 0 [])).

Definition handle_commissioning_complete : M Inner Empty_set InvokeReply := answer (
  modify (set_armed None) ;;! modify (set_pending no_pending) ;;! modify (set_uncommitted None) ;;!
  data RESP_COMMISSIONING_COMPLETE (encode_commissioning_status_response 0 [])).

Definition expire_fail_safe (now : Z) : M Inner Empty_set (option FabricEntry) :=
  let! s := get in
  if negb (is_expired now s) then ret None else
  modify (set_armed None) ;;! modify (set_pending no_pending) ;;! rollback_uncommitted_fabric.

Section handlers.
Context `{Ec : Ecdsa} `{Hkdf}.

(** ** Attestation and signing request *)

Definition handle_attestation_request (now : Z) (fields : bytes) (ctx : InvokeCtx) :
    M Inner Empty_set InvokeReply := answer (
  require_armed now ;;!
  let! nonce := or_invalid (decode_attestation_request fields) in
  let! s := get in
  let! elements := lift_fin (encode_attestation_elements (certification_declaration (dev s)) nonce 0) in
  let! signature := expect_ok (sign_ecdsa_p256 (dac_private_key (dev s))
                                 (attestation_tbs elements (attestation_challenge ctx))) in
  data RESP_ATTESTATION (encode_attestation_response elements signature)).

Definition handle_cert_chain_request (fields : bytes) : M Inner Empty_set InvokeReply := answer (
  let! cert_type := or_invalid (decode_cert_chain_request fields) in
  let! s := get in
  let! der := (if cert_type =? CERT_TYPE_DAC then ret (dac_der (dev s))
               else if cert_type =? CERT_TYPE_PAI then ret (pai_der (dev s))
               else status STATUS_INVALID_COMMAND) in
  data RESP_CERT_CHAIN (encode_cert_chain_response der)).

(** [secret] is what [random_p256_secret] returns. *)
Definition handle_csr_request (now : Z) (secret fields : bytes) (ctx : InvokeCtx) :
    M Inner Empty_set InvokeReply := answer (
  require_armed now ;;!
  let! nonce := or_invalid (decode_csr_request fields) in
  let! csr_der := expect_ok (generate_csr (E:=X509Error) secret) in
  modify (λ s, set_pending (pend_keys secret (sk_public secret) (pending s)) s) ;;!
  let! elements := lift_fin (encode_nocsr_elements csr_der nonce) in
  let! s := get in
  let! signature := expect_ok (sign_ecdsa_p256 (dac_private_key (dev s))
                                 (attestation_tbs elements (attestation_challenge ctx))) in
  data RESP_CSR (encode_csr_response elements signature)).

Definition handle_add_trusted_root (now : Z) (fields : bytes) : M Inner Empty_set InvokeReply := answer (
  require_armed now ;;!
  let! rcac_tlv := or_invalid (decode_add_trusted_root fields) in
  modify (λ s, set_pending (pend_root rcac_tlv (pending s)) s) ;;!
  ret (RStatus STATUS_SUCCESS)).

(** ** The fabric table *)

(** The material staged by CSRRequest and AddTrustedRootCertificate. *)
Definition staged : H (bytes * bytes * bytes) :=
  let! s := get in
  match trusted_root_tlv (pending s), op_private_key (pending s), op_public_key (pending s) with
  | Some root, Some private, Some public => ret (root, private, public)
  | _, _, _ => noc_status NOC_STATUS_MISSING_CSR
  end.

Definition non_empty (b : bytes) : option bytes := match b with [] => None | _ => Some b end.

(** The checks of AddNOC, in order: the entry to install under a given index. *)
Definition check_add_noc (f : AddNocFields) : H (Z → FabricEntry) :=
  let icac_tlv := an_icac f ≫= non_empty in
  let! s := get in
  (if SUPPORTED_FABRICS <=? zlen (fs_entries (store s)) then noc_status NOC_STATUS_TABLE_FULL else ret ()) ;;!
  match subject_kind (an_admin_subject f) with
  | None => noc_status NOC_STATUS_INVALID_ADMIN_SUBJECT
  | Some _ =>
  let! (root_tlv, private, public) := staged in
  let! rcac := or_invalid_noc (parse root_tlv) in
  let! noc := or_invalid_noc (parse (an_noc f)) in
  let! icac := (match icac_tlv with
                | Some tlv => let! c := or_invalid_noc (parse tlv) in ret (Some c)
                | None => ret None
                end) in
  or_invalid_noc (verify_noc_chain noc icac rcac) ;;!
  if negb (bool_decide (mc_pub_key noc = public)) then noc_status NOC_STATUS_INVALID_PUBLIC_KEY else
  match mc_node_id noc, mc_fabric_id noc with
  | Some node_id, Some fabric_id =>
      let cfid := compressed_fabric_id (mc_pub_key rcac) fabric_id in
      ret (λ index, {|
        fe_index := index; fe_root_tlv := root_tlv; fe_noc_tlv := an_noc f; fe_icac_tlv := icac_tlv;
        fe_op_private_key := private; fe_ipk_operational := derive_ipk_operational (an_ipk f) cfid;
        fe_node_id := node_id; fe_fabric_id := fabric_id; fe_root_public_key := mc_pub_key rcac;
        fe_admin_subject := an_admin_subject f; fe_admin_vendor_id := an_admin_vendor f; fe_label := []
      |})
  | _, _ => noc_status NOC_STATUS_INVALID_NOC
  end
  end.

Definition handle_add_noc (now : Z) (fields : bytes) : M Inner Empty_set InvokeReply := answer (
  require_armed now ;;!
  let! f := or_invalid (decode_add_noc fields) in
  let! entry := check_add_noc f in
  let! s := get in
  let! index := lift_fin (next_fabric_index (store s)) in
  let! inserted := on_fabrics (fs_insert (entry index)) in
  if negb (is_ok inserted) then noc_status NOC_STATUS_TABLE_FULL else
  modify (set_pending no_pending) ;;!
  modify (set_uncommitted (Some index)) ;;!
  modify (λ s, set_stores (add_case_admin index (an_admin_subject f) <$> acl_store s) (group_key_store s)
                 (group_membership_store s) s) ;;!
  data RESP_NOC (encode_noc_response NOC_STATUS_OK (Some index))).

Definition handle_update_fabric_label (fields : bytes) (ctx : InvokeCtx) : M Inner Empty_set InvokeReply := answer (
  let! label := or_invalid (decode_update_fabric_label fields) in
  let! r := on_fabrics (fs_update_label (ctx_fabric ctx) label) in
  match r with
  | Ok true => data RESP_NOC (encode_noc_response NOC_STATUS_OK (Some (ctx_fabric ctx)))
  | Ok false => data RESP_NOC (encode_noc_response NOC_STATUS_INVALID_FABRIC_INDEX None)
  | Err _ => status STATUS_FAILURE
  | Panic => panic
  | OutOfFuel => out_of_fuel
  end).

Definition handle_remove_fabric (fields : bytes) : M Inner Empty_set InvokeReply := answer (
  let! index := or_invalid (decode_remove_fabric fields) in
  let! s := get in
  match find_fabric index (fs_entries (store s)) with
  | None => data RESP_NOC (encode_noc_response NOC_STATUS_INVALID_FABRIC_INDEX None)
  | Some entry =>
      let! r := on_fabrics (fs_remove index) in
      match r with
      | Ok true =>
          modify (set_removed (Some entry)) ;;! modify (purge_fabric_stores index) ;;!
          data RESP_NOC (encode_noc_response NOC_STATUS_OK (Some index))
      | Ok false => panic
      | Err _ =>
          modify (set_removed (Some entry)) ;;! modify (purge_fabric_stores index) ;;!
          status STATUS_FAILURE
      | Panic => panic
      | OutOfFuel => out_of_fuel
      end
  end).

(** ** Administrator Commissioning *)

(** [(lo..=hi).contains(&v)]. *)
Definition contains (lo hi v : Z) : bool := (lo <=? v) && (v <=? hi).

Definition handle_open_commissioning_window (fields : bytes) (ctx : InvokeCtx) : M Inner Empty_set InvokeReply := answer (
  let! f := or_invalid (decode_open_commissioning_window fields) in
  if negb (contains 180 900 (wf_timeout f)) then status STATUS_INVALID_COMMAND else
  if negb (zlen (wf_verifier f) =? 97) || negb (contains 1000 100000 (wf_iterations f)) ||
     negb (contains 16 32 (zlen (wf_salt f)))
  then throw (RClusterStatus STATUS_FAILURE AC_STATUS_PAKE_PARAMETER_ERROR) else
  let! s := get in
  if admin_window_is_open s then throw (RClusterStatus STATUS_FAILURE AC_STATUS_BUSY) else
  let vendor := match find_fabric (ctx_fabric ctx) (fs_entries (store s)) with
                | Some e => fe_admin_vendor_id e
                | None => 0
                end in
  modify (set_window (Some {| aw_fabric := ctx_fabric ctx; aw_vendor := vendor |})) ;;!
  modify (set_request (Some {| wr_verifier := wf_verifier f; wr_discriminator := wf_discriminator f;
                               wr_iterations := wf_iterations f; wr_salt := wf_salt f; wr_timeout := wf_timeout f |})) ;;!
  ret (RStatus STATUS_SUCCESS)).

Definition handle_revoke_commissioning : M Inner Empty_set InvokeReply := answer (
  let! s := get in
  if negb (admin_window_is_open s) then throw (RClusterStatus STATUS_FAILURE AC_STATUS_WINDOW_NOT_OPEN) else
  modify (set_window None) ;;! ret (RStatus STATUS_SUCCESS)).

(** ** Dispatch *)

Definition handle_general_commissioning (now command : Z) (fields : bytes) : M Inner Empty_set InvokeReply :=
  if command =? CMD_ARM_FAIL_SAFE then handle_arm_fail_safe now fields
  else if command =? CMD_SET_REGULATORY_CONFIG then handle_set_regulatory_config fields
  else if command =? CMD_COMMISSIONING_COMPLETE then handle_commissioning_complete
  else ret (RStatus STATUS_UNSUPPORTED_COMMAND).

Definition handle_operational_credentials (now : Z) (secret : bytes) (command : Z) (fields : bytes) (ctx : InvokeCtx) :
    M Inner Empty_set InvokeReply :=
  if command =? CMD_ATTESTATION_REQUEST then handle_attestation_request now fields ctx
  else if command =? CMD_CERT_CHAIN_REQUEST then handle_cert_chain_request fields
  else if command =? CMD_CSR_REQUEST then handle_csr_request now secret fields ctx
  else if command =? CMD_ADD_TRUSTED_ROOT then handle_add_trusted_root now fields
  else if command =? CMD_ADD_NOC then handle_add_noc now fields
  else if command =? CMD_UPDATE_FABRIC_LABEL then handle_update_fabric_label fields ctx
  else if command =? CMD_REMOVE_FABRIC then handle_remove_fabric fields
  else ret (RStatus STATUS_UNSUPPORTED_COMMAND).

Definition handle_admin_commissioning (command : Z) (fields : bytes) (ctx : InvokeCtx) : M Inner Empty_set InvokeReply :=
  if command =? CMD_OPEN_COMMISSIONING_WINDOW then handle_open_commissioning_window fields ctx
  else if command =? CMD_REVOKE_COMMISSIONING then handle_revoke_commissioning
  else ret (RStatus STATUS_UNSUPPORTED_COMMAND).

(** ** Attribute reads *)

Definition read_general_commissioning (attribute : Z) : fin (option bytes) :=
  if attribute =? ATTR_GC_BREADCRUMB then some_value (tlv_uint 0)
  else if attribute =? ATTR_GC_BASIC_COMMISSIONING_INFO then some_value (
    to_vec (start_struct Anonymous ;;! put_uint (Context 0) FAIL_SAFE_EXPIRY_LENGTH_SECONDS ;;!
            put_uint (Context 1) FAIL_SAFE_MAX_CUMULATIVE_SECONDS ;;! end_container))
  else if attribute =? ATTR_GC_REGULATORY_CONFIG then some_value (tlv_uint 0)
  else if attribute =? ATTR_GC_LOCATION_CAPABILITY then some_value (tlv_uint 2)
  else if attribute =? ATTR_GC_SUPPORTS_CONCURRENT_CONNECTION then some_value (tlv_bool true)
  else Ok None.

Definition fabric_scoped_entries (s : Inner) (ctx : ReadCtx) : list FabricEntry :=
  List.filter (λ e, negb (rc_filtered ctx) || (fe_index e =? rc_fabric ctx)) (fs_entries (store s)).

(** An array with one element per entry. *)
Definition encode_scoped (put : FabricEntry → M Writer Empty_set ()) (s : Inner) (ctx : ReadCtx) : fin bytes :=
  to_vec (start_array Anonymous ;;! foldr (λ e k, put e ;;! k) end_container (fabric_scoped_entries s ctx)).

Definition encode_nocs : Inner → ReadCtx → fin bytes := encode_scoped (λ e,
  start_struct Anonymous ;;! put_bytes (Context 1) (fe_noc_tlv e) ;;!
  let tail := put_uint (Context 254) (fe_index e) ;;! end_container in
  match fe_icac_tlv e with Some icac => put_bytes (Context 2) icac ;;! tail | None => tail end).

Definition encode_fabrics : Inner → ReadCtx → fin bytes := encode_scoped (λ e,
  start_struct Anonymous ;;! put_bytes (Context 1) (fe_root_public_key e) ;;! put_uint (Context 2) (fe_admin_vendor_id e) ;;!
  put_uint (Context 3) (fe_fabric_id e) ;;! put_uint (Context 4) (fe_node_id e) ;;! put_str (Context 5) (fe_label e) ;;!
  put_uint (Context 254) (fe_index e) ;;! end_container).

Definition encode_trusted_root_certificates : Inner → ReadCtx → fin bytes :=
  encode_scoped (λ e, put_bytes Anonymous (fe_root_tlv e)).

Definition read_operational_credentials (s : Inner) (attribute : Z) (ctx : ReadCtx) : fin (option bytes) :=
  if attribute =? ATTR_OC_NOCS then some_value (encode_nocs s ctx)
  else if attribute =? ATTR_OC_FABRICS then some_value (encode_fabrics s ctx)
  else if attribute =? ATTR_OC_SUPPORTED_FABRICS then some_value (tlv_uint SUPPORTED_FABRICS)
  else if attribute =? ATTR_OC_COMMISSIONED_FABRICS then some_value (tlv_uint (zlen (fs_entries (store s))))
  else if attribute =? ATTR_OC_TRUSTED_ROOT_CERTIFICATES then some_value (encode_trusted_root_certificates s ctx)
  else if attribute =? ATTR_OC_CURRENT_FABRIC_INDEX then some_value (tlv_uint (rc_fabric ctx))
  else Ok None.

Definition read_admin_commissioning (s : Inner) (attribute : Z) : fin (option bytes) :=
  if attribute =? ATTR_AC_WINDOW_STATUS then some_value (tlv_uint (if admin_window_is_open s then 1 else 0))
  else if attribute =? ATTR_AC_ADMIN_FABRIC_INDEX then
    some_value (match admin_window s with Some w => tlv_uint (aw_fabric w) | None => tlv_null end)
  else if attribute =? ATTR_AC_ADMIN_VENDOR_ID then
    some_value (match admin_window s with Some w => tlv_uint (aw_vendor w) | None => tlv_null end)
  else Ok None.

(** ** The cluster handlers, over a world that holds the shared state *)

Context {W : Type} (inner : Lens W Inner) (clock : W → Z) (secret : W → bytes).

Definition locked {A} (m : InvokeCtx → M Inner Empty_set A) : M (W * InvokeCtx) Empty_set A := λ '(w, c),
  let '(s, r) := m c (view inner w) in ((update inner s w, c), r).

Definition at_clock {A} (m : Z → bytes → InvokeCtx → M Inner Empty_set A) : M (W * InvokeCtx) Empty_set A := λ '(w, c),
  locked (m (clock w) (secret w)) (w, c).

Definition GeneralCommissioningHandler : ClusterHandler W := {|
  cluster_id := CLUSTER_GENERAL_COMMISSIONING;
  attributes := [ATTR_GC_BREADCRUMB; ATTR_GC_BASIC_COMMISSIONING_INFO; ATTR_GC_REGULATORY_CONFIG;
                 ATTR_GC_LOCATION_CAPABILITY; ATTR_GC_SUPPORTS_CONCURRENT_CONNECTION];
  h_read _ a _ := read_general_commissioning a;
  h_invoke cmd f := at_clock (λ now _ _, handle_general_commissioning now cmd f);
  accepted_commands := [CMD_ARM_FAIL_SAFE; CMD_SET_REGULATORY_CONFIG; CMD_COMMISSIONING_COMPLETE];
  generated_commands := [RESP_ARM_FAIL_SAFE; RESP_SET_REGULATORY_CONFIG; RESP_COMMISSIONING_COMPLETE];
  h_write := default_write;
  feature_map := 0;
  revision := 1;
  read_privilege _ := PRIVILEGE_VIEW;
  write_privilege _ := PRIVILEGE_OPERATE;
  invoke_privilege _ := PRIVILEGE_ADMINISTER;
  events := [];
  event_privilege _ := PRIVILEGE_VIEW;
  h_stimulate := default_stimulate
|}.

Definition OperationalCredentialsHandler : ClusterHandler W := {|
  cluster_id := CLUSTER_OPERATIONAL_CREDENTIALS;
  attributes := [ATTR_OC_NOCS; ATTR_OC_FABRICS; ATTR_OC_SUPPORTED_FABRICS; ATTR_OC_COMMISSIONED_FABRICS;
                 ATTR_OC_TRUSTED_ROOT_CERTIFICATES; ATTR_OC_CURRENT_FABRIC_INDEX];
  h_read w a ctx := read_operational_credentials (view inner w) a ctx;
  h_invoke cmd f := at_clock (λ now sk c, handle_operational_credentials now sk cmd f c);
  accepted_commands := [CMD_ATTESTATION_REQUEST; CMD_CERT_CHAIN_REQUEST; CMD_CSR_REQUEST; CMD_ADD_NOC;
                        CMD_UPDATE_FABRIC_LABEL; CMD_REMOVE_FABRIC; CMD_ADD_TRUSTED_ROOT];
  generated_commands := [RESP_ATTESTATION; RESP_CERT_CHAIN; RESP_CSR; RESP_NOC];
  h_write := default_write;
  feature_map := 0;
  revision := 1;
  read_privilege a := if a =? ATTR_OC_NOCS then PRIVILEGE_ADMINISTER else PRIVILEGE_VIEW;
  write_privilege _ := PRIVILEGE_OPERATE;
  invoke_privilege _ := PRIVILEGE_ADMINISTER;
  events := [];
  event_privilege _ := PRIVILEGE_VIEW;
  h_stimulate := default_stimulate
|}.

Definition AdminCommissioningHandler : ClusterHandler W := {|
  cluster_id := CLUSTER_ADMIN_COMMISSIONING;
  attributes := [ATTR_AC_WINDOW_STATUS; ATTR_AC_ADMIN_FABRIC_INDEX; ATTR_AC_ADMIN_VENDOR_ID];
  h_read w a _ := read_admin_commissioning (view inner w) a;
  h_invoke cmd f := at_clock (λ _ _ c, handle_admin_commissioning cmd f c);
  accepted_commands := [CMD_OPEN_COMMISSIONING_WINDOW; CMD_REVOKE_COMMISSIONING];
  generated_commands := [];
  h_write := default_write;
  feature_map := 0;
  revision := 1;
  read_privilege _ := PRIVILEGE_VIEW;
  write_privilege _ := PRIVILEGE_OPERATE;
  invoke_privilege _ := PRIVILEGE_ADMINISTER;
  events := [];
  event_privilege _ := PRIVILEGE_VIEW;
  h_stimulate := default_stimulate
|}.
End handlers.

(** ** Running a handler

    A handler is followed with [wp] over its body: what it returns early and
    what it ends with are replies alike. *)

Lemma answer_wp m (Q : InvokeReply → Inner → Prop) s : wp m Q Q s → ∃ s' r, answer m s = (s', Ok r) ∧ Q r s'.
Proof. unfold wp, answer. destruct (m s) as [s' [r|r| |] ]; try done; eauto. Qed.

Section rules.
Context {A : Type}.
Implicit Types (Q : A → Inner → Prop) (R : InvokeReply → Inner → Prop).

Lemma wp_get {B} (k : Inner → H B) (Q : B → Inner → Prop) R s : wp (k s) Q R s → wp (let! s := get in k s) Q R s.
Proof. done. Qed.

Lemma wp_do {B} f (k : H B) (Q : B → Inner → Prop) R s : wp k Q R (f s) → wp (modify f ;;! k) Q R s.
Proof. done. Qed.

Lemma wp_lift_fin {B} (m : fin A) a (k : A → H B) (Q : B → Inner → Prop) R s :
  m = Ok a → wp (k a) Q R s → wp (let! x := lift_fin m in k x) Q R s.
Proof. by intros ->. Qed.

Lemma wp_expect {E B} (m : res E A) a (k : A → H B) (Q : B → Inner → Prop) R s :
  m = Ok a → wp (k a) Q R s → wp (let! x := expect_ok m in k x) Q R s.
Proof. by intros ->. Qed.

Lemma wp_invalid {B} (m : res CommissionError A) (P : A → Prop) (k : A → H B) (Q : B → Inner → Prop) R s :
  outcome m P → R (RStatus STATUS_INVALID_COMMAND) s → (∀ a, m = Ok a → P a → wp (k a) Q R s) →
  wp (let! x := or_invalid m in k x) Q R s.
Proof. destruct m as [a|e| |]; try done. intros Hp Hr Hk. by apply Hk. Qed.

Lemma wp_armed {B} now (k : H B) (Q : B → Inner → Prop) R s :
  (is_armed now s = true → wp k Q R s) → (is_armed now s = false → R (RStatus STATUS_FAILSAFE_REQUIRED) s) →
  wp (require_armed now ;;! k) Q R s.
Proof. intros H1 H2. unfold wp, require_armed, bind, get, ret. destruct (is_armed now s); [by apply H1|by apply H2]. Qed.

Lemma wp_noc_status st b Q R s : encode_noc_response st None = Ok b → R (RData RESP_NOC b) s →
  wp (noc_status (A:=A) st) Q R s.
Proof. intros Hb Hr. unfold noc_status, data. by rewrite Hb. Qed.

Lemma wp_noc {B} (m : res CertError A) (k : A → H B) (Q : B → Inner → Prop) R s :
  returns m → (∀ a, m = Ok a → wp (k a) Q R s) → (∀ e, m = Err e → wp (noc_status (A:=B) NOC_STATUS_INVALID_NOC) Q R s) →
  wp (let! x := or_invalid_noc m in k x) Q R s.
Proof.
  intros Hm Hk He. destruct m as [a|e| |]; try done; [by apply Hk|]. specialize (He e eq_refl).
  revert He. unfold or_invalid_noc, noc_status, wp, bind, throw.
  destruct (data _ _ s) as [s' [r|r| |] ]; done.
Qed.
End rules.

(** ** What the encoders write *)

Definition noc_fields (st : Z) (index : option Z) : list (Z * Value) :=
  (0, VUint st) :: match index with Some i => [(1, VUint i)] | None => [] end.
Definition noc_reply (st : Z) (index : option Z) : InvokeReply :=
  RData RESP_NOC (enc_tree (flat (noc_fields st index))).
Definition status_reply (response : Z) : InvokeReply :=
  RData response (enc_tree (flat [(0, VUint 0); (1, VUtf8 [])])).

Lemma struct_of_flat k ch : emits k (map (λ '(c, v), Leaf (Context c) v) ch) → struct_of k = Ok (enc_tree (flat ch)).
Proof. intros Hk. by apply to_vec_writes, writes_struct. Qed.

Lemma flat_fields ch : Forall field_ok ch → zlen ch ≤ 16 → fields_bytes (enc_tree (flat ch)).
Proof. intros Hch Hn. destruct (flat_ok ch Hch Hn) as [Hwf Hs]. right. by eexists _, _. Qed.

Lemma noc_response_at st index : encode_noc_response st index = Ok (enc_tree (flat (noc_fields st index))).
Proof. apply struct_of_flat. destruct index; cbn [noc_fields map]; eauto 6 with emits. Qed.
Lemma commissioning_response_at : encode_commissioning_status_response 0 [] = Ok (enc_tree (flat [(0, VUint 0); (1, VUtf8 [])])).
Proof. apply struct_of_flat. cbn [map]. eauto 6 with emits. Qed.
Lemma attestation_response_at e s :
  encode_attestation_response e s = Ok (enc_tree (flat [(0, VBytes e); (1, VBytes s)])).
Proof. apply struct_of_flat. cbn [map]. eauto 6 with emits. Qed.
Lemma chain_response_at d : encode_cert_chain_response d = Ok (enc_tree (flat [(0, VBytes d)])).
Proof. apply struct_of_flat. cbn [map]. eauto 6 with emits. Qed.
Lemma nocsr_at c n : encode_nocsr_elements c n = Ok (enc_tree (flat [(1, VBytes c); (2, VBytes n)])).
Proof. apply struct_of_flat. cbn [map]. eauto 6 with emits. Qed.
Lemma csr_response_at e s : encode_csr_response e s = Ok (enc_tree (flat [(0, VBytes e); (1, VBytes s)])).
Proof. apply struct_of_flat. cbn [map]. eauto 6 with emits. Qed.

Lemma noc_reply_ok st index : in_u 8 st → from_option (in_u 8) True index → reply_ok (noc_reply st index).
Proof.
  intros Hst Hi. split; [done|]. apply flat_fields; [|by destruct index].
  apply Forall_cons. split; [by apply (field_uint 8)|]. destruct index as [i|]; [|constructor].
  apply Forall_singleton. by apply (field_uint 8).
Qed.
Lemma status_reply_ok r : in_u 32 r → reply_ok (status_reply r).
Proof. intros Hr. split; [done|]. apply flat_fields; [|done]. repeat constructor; done. Qed.

(** ** Certificates off the wire *)

Definition payload (b : bytes) : Prop := bytes_ok b ∧ small b.

Lemma parsed b c : bytes_ok b → parse b = Ok c → cert_ok c ∧ returns (tbs_der c) ∧ zlen b ≤ MAX_CERT_TLV_LEN.
Proof.
  intros Hb Hp. pose proof (parse_pays b Hb) as H. rewrite Hp in H. destruct H as [Hc Hcost]. split; [done|].
  split.
  - destruct Hc as (_ & _ & _ & _ & _ & [_ Hk] & _). unfold MAX_CERT_TLV_LEN in Hcost.
    pose proof (tbs_der_fits c ltac:(lia) ltac:(lia)) as Hf. unfold fits in Hf. by destruct (tbs_der c).
  - unfold parse in Hp. destruct (Z.ltb_spec MAX_CERT_TLV_LEN (zlen b)); [done|lia].
Qed.

Lemma parse_returns b : bytes_ok b → returns (parse b).
Proof. intros Hb. pose proof (parse_pays b Hb) as H. by destruct (parse b). Qed.

Lemma matter_id_bound t l v : Forall attr_ok l → matter_id_of t l = Some v → in_u 64 v.
Proof.
  induction 1 as [|[tag [id|s] ] l [_ Ha] _ IH]; cbn; [done| |exact IH]. destruct (tag =? t); [|exact IH]. by intros [= <-].
Qed.

Lemma returns_bind {E A B} (m : res E A) (k : A → res E B) : returns m → (∀ a, m = Ok a → returns (k a)) → returns (res_bind m k).
Proof. destruct m; cbn; auto. Qed.

Section verifying.
Context `{Ec : Ecdsa}.

Lemma verify_signed_by_returns c pk : returns (tbs_der c) → returns (verify_signed_by c pk).
Proof.
  intros Hc. apply returns_bind; [done|]. intros tbs _. unfold verify_ecdsa_p256. by repeat (case_match; cbn).
Qed.

Lemma check_ca_returns c s t : returns (check_ca_cert c s t).
Proof. unfold check_ca_cert. by repeat case_match. Qed.

Lemma check_leaf_returns c : returns (check_noc_leaf c).
Proof.
  unfold check_noc_leaf. destruct (basic_constraints c) as [ [ [] pl] |]; try done. apply returns_bind; [by destruct (key_usage c)|].
  intros bits _. by repeat case_match.
Qed.

Lemma chain_returns noc icac rcac : returns (tbs_der noc) → from_option (λ c, returns (tbs_der c)) True icac →
  returns (tbs_der rcac) → returns (verify_noc_chain noc icac rcac).
Proof.
  intros Hn Hi Hr. unfold verify_noc_chain. apply returns_bind; [by apply verify_signed_by_returns|]. intros _ _.
  apply returns_bind; [apply check_ca_returns|]. intros _ _.
  apply returns_bind.
  { destruct icac as [ica|]; [|done]. apply returns_bind; [|done]. unfold check_icac.
    apply returns_bind; [by apply verify_signed_by_returns|]. intros _ _. destruct (negb _); [done|].
    apply returns_bind; [apply check_ca_returns|]. intros _ _. apply returns_bind; by repeat case_match. }
  intros signer _. apply returns_bind; [by apply verify_signed_by_returns|]. intros _ _. destruct (negb _); [done|].
  apply returns_bind; [apply check_leaf_returns|]. intros _ _. by repeat case_match.
Qed.
End verifying.

(** ** What the state holds *)

Definition entry_typed (e : FabricEntry) : Prop :=
  (payload (fe_noc_tlv e) ∧ from_option payload True (fe_icac_tlv e) ∧ payload (fe_root_tlv e) ∧
   payload (fe_root_public_key e)) ∧
  (in_u 64 (fe_node_id e) ∧ in_u 64 (fe_fabric_id e) ∧ in_u 64 (fe_admin_subject e) ∧ in_u 16 (fe_admin_vendor_id e)) ∧
  (bytes_ok (fe_label e) ∧ zlen (fe_label e) ≤ 32 ∧ from_utf8 (fe_label e) = true).

(** The development attestation material: the device key signs. *)
Definition dev_ok `{Ec : Ecdsa} (d : DevAttestation) : Prop :=
  is_Some (sk_sign (dac_private_key d) []) ∧
  Forall (λ b, bytes_ok b ∧ zlen b ≤ 65540) [dac_der d; pai_der d; certification_declaration d].

(** What the runtime may open a window with. *)
Definition request_ok (r : WindowRequest) : Prop :=
  180 ≤ wr_timeout r ≤ 900 ∧ zlen (wr_verifier r) = 97 ∧ 1000 ≤ wr_iterations r ≤ 100000 ∧
  16 ≤ zlen (wr_salt r) ≤ 32 ∧ in_u 16 (wr_discriminator r).

Record server_ok `{Ec : Ecdsa} (s : Inner) : Prop := {
  so_dev : dev_ok (dev s);
  so_fabrics : fabrics_ok (store s);
  so_entries : Forall entry_typed (fs_entries (store s));
  so_root : from_option payload True (trusted_root_tlv (pending s));
  so_window : from_option (λ w, in_u 8 (aw_fabric w) ∧ in_u 16 (aw_vendor w)) True (admin_window s);
  so_request : from_option request_ok True (pending_window_request s);
  so_acl : from_option store_ok True (acl_store s);
  so_keys : from_option keys_ok True (group_key_store s);
  so_members : from_option table_ok True (group_membership_store s)
}.

(** ** The tables, abstractly

    What the rest of the device sees of the server: the fabrics, the one that
    is not confirmed yet, and the rows of the shared stores. *)

Record Tables := {
  t_fabrics : gmap Z FabricEntry;
  t_uncommitted : option Z;
  t_acl : option (list AclDeviceEntry);
  t_keys : option (list GroupKeySet * list GroupKeyMapEntry);
  t_members : option (list GroupMember)
}.

Definition tables_of (s : Inner) : Tables := {|
  t_fabrics := fabric_map (store s);
  t_uncommitted := uncommitted_fabric_index s;
  t_acl := acl_entries <$> acl_store s;
  t_keys := (λ k, (gk_keysets k, gk_map k)) <$> group_key_store s;
  t_members := gs_members <$> group_membership_store s
|}.

Definition admin_row (i subject : Z) : AclDeviceEntry := {|
  privilege := PRIVILEGE_ADMINISTER; auth_mode := AUTH_MODE_CASE; subjects := [subject]; targets_raw := None;
  fabric_index := i
|}.

(** A fabric is installed, with its administrator's access. *)
Definition install (i : Z) (e : FabricEntry) (t : Tables) : Tables := {|
  t_fabrics := <[i := e]> (t_fabrics t);
  t_uncommitted := Some i;
  t_acl := (λ l, l ++ [admin_row i (fe_admin_subject e)]) <$> t_acl t;
  t_keys := t_keys t;
  t_members := t_members t
|}.

(** A fabric goes, with every row it owns. *)
Definition drop_fabric (i : Z) (t : Tables) : Tables := {|
  t_fabrics := delete i (t_fabrics t);
  t_uncommitted := t_uncommitted t;
  t_acl := List.filter (λ e, negb (fabric_index e =? i)) <$> t_acl t;
  t_keys := (λ '(k, m), (List.filter (λ k, negb (ks_fabric k =? i)) k, List.filter (λ m, negb (mk_fabric m =? i)) m)) <$> t_keys t;
  t_members := List.filter (λ m, negb (gm_fabric m =? i)) <$> t_members t
|}.

Definition with_uncommitted (o : option Z) (t : Tables) : Tables := {|
  t_fabrics := t_fabrics t; t_uncommitted := o; t_acl := t_acl t; t_keys := t_keys t; t_members := t_members t
|}.

Definition rename (i : Z) (label : bytes) (t : Tables) : Tables := {|
  t_fabrics := alter (set_label label) i (t_fabrics t); t_uncommitted := t_uncommitted t; t_acl := t_acl t;
  t_keys := t_keys t; t_members := t_members t
|}.

Inductive table_step : Tables → Tables → Prop :=
  | TStay t : table_step t t
  | TInstall t i e : t_fabrics t !! i = None → 1 ≤ i ≤ 255 → fe_index e = i →
      Z.of_nat (size (t_fabrics t)) < SUPPORTED_FABRICS → table_step t (install i e t)
  | TConfirm t : table_step t (with_uncommitted None t)
  | TRollBack t i : t_uncommitted t = Some i → table_step t (drop_fabric i (with_uncommitted None t))
  | TRemove t i : is_Some (t_fabrics t !! i) → table_step t (drop_fabric i t)
  | TRename t i label : table_step t (rename i label t).

Section server.
Context `{Ec : Ecdsa} `{!EcdsaLaws Ec} `{Hk : Hkdf} `{!HkdfLaws}.

(** *** Updates that keep the invariant *)

Ltac keep := intros []; constructor; cbn; auto.

Lemma ok_armed t s : server_ok s → server_ok (set_armed t s).
Proof. keep. Qed.
Lemma ok_pending p s : from_option payload True (trusted_root_tlv p) → server_ok s → server_ok (set_pending p s).
Proof. intros Hp. keep. Qed.
Lemma ok_uncommitted i s : server_ok s → server_ok (set_uncommitted i s).
Proof. keep. Qed.
Lemma ok_window w s : from_option (λ w, in_u 8 (aw_fabric w) ∧ in_u 16 (aw_vendor w)) True w → server_ok s →
  server_ok (set_window w s).
Proof. intros Hw. keep. Qed.
Lemma ok_request r s : from_option request_ok True r → server_ok s → server_ok (set_request r s).
Proof. intros Hr. keep. Qed.
Lemma ok_removed e s : server_ok s → server_ok (set_removed e s).
Proof. keep. Qed.
Lemma ok_store f s : fabrics_ok f → Forall entry_typed (fs_entries f) → server_ok s → server_ok (set_store f s).
Proof. intros Hf He. keep. Qed.

Lemma ok_purge i s : server_ok s → server_ok (purge_fabric_stores i s).
Proof.
  intros []. constructor; cbn; auto.
  - destruct (acl_store s); [|done]. cbn. eapply List.incl_Forall; [apply List.incl_filter|done].
  - destruct (group_key_store s); [|done]. by apply purge_keys_ok.
  - destruct (group_membership_store s); [|done]. by apply table_ok_save, filter_table_ok.
Qed.

Lemma ok_admin i subject s : in_u 8 i → in_u 64 subject → server_ok s →
  server_ok (set_stores (add_case_admin i subject <$> acl_store s) (group_key_store s) (group_membership_store s) s).
Proof.
  intros Hi Hs []. constructor; cbn; auto. destruct (acl_store s); [|done]. cbn. apply Forall_app. split; [done|].
  apply Forall_singleton. unfold entry_ok. cbn. split_and!; try done. by apply Forall_singleton.
Qed.

(** *** The fabric table under the invariant *)

Lemma removed_ok i s : server_ok s → let f := fst (fs_remove i (store s)) in
  fabrics_ok f ∧ Forall entry_typed (fs_entries f) ∧ fabric_map f = delete i (fabric_map (store s)) ∧
  answers (store s) i (snd (fs_remove i (store s))).
Proof.
  intros Hs f. pose proof (remove_refines i (store s) (so_fabrics s Hs)) as Hr.
  pose proof (remove_first_map i (fs_entries (store s)) (proj1 (so_fabrics s Hs))) as Hm. unfold f. clear f.
  destruct (fs_remove i (store s)) as [f r] eqn:Hf. cbn [fst snd]. destruct Hr as (H1 & _ & H3 & H4). split; [done|].
  split; [|done]. unfold fs_remove in Hf. destruct (remove_first _ _) as [l|]; simplify_eq; [|apply Hs].
  destruct Hm as (_ & _ & _ & Hsub). cbn [fs_entries with_entries]. pose proof (so_entries s Hs) as He.
  rewrite Forall_forall in *. intros e Hin. apply He. by apply (elem_of_sublist l).
Qed.

Lemma tables_drop i f s : fabric_map f = delete i (fabric_map (store s)) →
  tables_of (purge_fabric_stores i (set_store f s)) = drop_fabric i (tables_of s).
Proof.
  intros Hf. unfold tables_of, drop_fabric. cbn. rewrite Hf. f_equal.
  - by destruct (acl_store s).
  - by destruct (group_key_store s).
  - by destruct (group_membership_store s).
Qed.

Lemma size_fabrics f : fabrics_ok f → Z.of_nat (size (fabric_map f)) = zlen (fs_entries f).
Proof.
  intros [Hnd _]. unfold fabric_map, entries_map. rewrite map_size_list_to_map; [|by rewrite fst_entries].
  unfold zlen. by rewrite length_map.
Qed.

(** The rollback: drops the unconfirmed fabric and hands it out. *)
Lemma rollback_at {E} s : server_ok s → ∃ s',
  rollback_uncommitted_fabric (E:=E) s = (s', Ok (uncommitted_fabric_index s ≫= λ i, fabric_map (store s) !! i)) ∧
  server_ok s' ∧ dev s' = dev s ∧ armed_until s' = armed_until s ∧
  tables_of s' = match uncommitted_fabric_index s with
                 | Some i => drop_fabric i (with_uncommitted None (tables_of s))
                 | None => tables_of s
                 end.
Proof.
  intros Hs. unfold rollback_uncommitted_fabric, bind, get. destruct (uncommitted_fabric_index s) as [i|]; [|by exists s].
  destruct (removed_ok i (set_uncommitted None s) (ok_uncommitted _ _ Hs)) as (H1 & H2 & H3 & _).
  unfold modify, on_fabrics. cbn [store set_uncommitted] in *. destruct (fs_remove i (store s)) as [f r]. cbn [fst] in *.
  eexists. split; [cbn; by rewrite find_fabric_map|]. split.
  - apply ok_purge. by apply ok_store, ok_uncommitted.
  - do 2 (split; [done|]). by apply (tables_drop i f (set_uncommitted None s)).
Qed.

(** *** Every command is served

    The reply is well-formed, the invariant is kept, and the tables take one
    step. *)
Definition served (s : Inner) (r : InvokeReply) (s' : Inner) : Prop :=
  reply_ok r ∧ server_ok s' ∧ table_step (tables_of s) (tables_of s') ∧ dev s' = dev s.

Definition serves (m : M Inner Empty_set InvokeReply) (s : Inner) : Prop :=
  ∃ s' r, m s = (s', Ok r) ∧ served s r s'.

Lemma served_stay s r s' : reply_ok r → server_ok s' → tables_of s' = tables_of s → dev s' = dev s → served s r s'.
Proof. intros Hr Hs Ht Hd. split; [done|]. split; [done|]. split; [rewrite Ht; constructor|done]. Qed.

Lemma served_same s r : server_ok s → reply_ok r → served s r s.
Proof. intros. by apply served_stay. Qed.

Lemma serves_answer m s : wp m (served s) (served s) s → serves (answer m) s.
Proof. apply answer_wp. Qed.

Lemma wp_data s r b m s1 : m = Ok b → served s (RData r b) s1 → wp (data r m) (served s) (served s) s1.
Proof. intros Hm Hs. unfold data. by eapply wp_lift_fin. Qed.

Lemma wp_status_ok r s s1 : in_u 32 r → server_ok s1 → table_step (tables_of s) (tables_of s1) → dev s1 = dev s →
  wp (data r (encode_commissioning_status_response 0 [])) (served s) (served s) s1.
Proof.
  intros Hr Hs Ht Hd. eapply wp_data; [apply commissioning_response_at|]. split; [by apply status_reply_ok|]. by split.
Qed.

Lemma wp_refused {A} st Q s : server_ok s → in_u 8 st → wp (noc_status (A:=A) st) Q (served s) s.
Proof.
  intros Hs Hst. eapply wp_noc_status; [apply noc_response_at|]. apply served_same; [done|]. by apply (noc_reply_ok st None).
Qed.

Context (fields : bytes) (Hb : bytes_ok fields) (Hsm : small fields).

Lemma arm_serves now s : server_ok s → serves (handle_arm_fail_safe now fields) s.
Proof.
  intros Hs. apply serves_answer. eapply wp_invalid; [by apply decode_arm_fail_safe_safe|by apply served_same|].
  intros [expiry b] _ _. apply wp_get. destruct ((expiry =? 0) || negb (is_armed now s)).
  - destruct (rollback_at (E:=InvokeReply) s Hs) as (s' & Hr & Hs' & Hd & _ & Ht). apply wp_bind, wp_bind. unfold wp at 1. rewrite Hr.
    apply wp_do. apply wp_status_ok; [done| | |exact Hd].
    + by apply ok_armed, ok_pending.
    + change (table_step (tables_of s) (tables_of s')). rewrite Ht. destruct (uncommitted_fabric_index s) eqn:Hu; by constructor.
  - apply wp_do. apply wp_status_ok; [done|by apply ok_armed|constructor|done].
Qed.

Lemma regulatory_serves s : server_ok s → serves (handle_set_regulatory_config fields) s.
Proof.
  intros Hs. apply serves_answer. eapply wp_invalid; [by apply decode_set_regulatory_config_safe|by apply served_same|].
  intros _ _ _. apply wp_status_ok; [done|done|constructor|done].
Qed.

Lemma complete_serves s : server_ok s → serves handle_commissioning_complete s.
Proof.
  intros Hs. apply serves_answer. do 3 apply wp_do. apply wp_status_ok; [done| |apply TConfirm|done].
  by apply ok_uncommitted, ok_pending, ok_armed.
Qed.

Lemma blob_field c b : 0 ≤ c < 256 → blob b → field_ok (c, VBytes b).
Proof. done. Qed.

Lemma dev_blobs d : dev_ok d → blob (dac_der d) ∧ blob (pai_der d) ∧ blob (certification_declaration d).
Proof.
  intros [_ H]. apply Forall_cons in H as [ [H1 H1'] H]. apply Forall_cons in H as [ [H2 H2'] H].
  apply Forall_cons in H as [ [H3 H3'] _]. unfold blob. split_and!; try done; lia.
Qed.

Lemma elements_blob d nonce : dev_ok d → bytes_ok nonce → zlen nonce = 32 →
  blob (enc_tree (elements_tree (certification_declaration d) nonce 0)).
Proof.
  intros [_ Hd] Hn Hl. apply Forall_cons in Hd as [_ Hd]. apply Forall_cons in Hd as [_ Hd]. apply Forall_cons in Hd as [ [Hc Hcl] _].
  unfold elements_tree. split.
  - apply enc_tree_ok. apply wf_anon_node. repeat (apply Forall_cons; split); [..|constructor].
    + apply wf_blob; try done. unfold small. lia.
    + apply wf_blob; try done. unfold small. lia.
    + by apply (wf_uint _ _ 32).
  - eapply Z.le_lt_trans; [apply (zlen_node _ _ _ 66000)|done]. repeat (apply Forall_cons; split); [..|constructor].
    + eapply Z.le_trans; [apply zlen_bytes_leaf|lia].
    + eapply Z.le_trans; [apply zlen_bytes_leaf|lia].
    + eapply Z.le_trans; [apply zlen_uint_leaf|done].
Qed.

Lemma dev_signs d m : dev_ok d → ∃ sig, sign_ecdsa_p256 (dac_private_key d) m = Ok sig ∧ blob sig ∧ zlen sig = 64.
Proof.
  intros [Hd _]. destruct (sk_sign_all _ [] m Hd) as [sig Hsig]. exists sig. unfold sign_ecdsa_p256. rewrite Hsig.
  destruct (sk_sign_verifies _ _ _ Hsig) as (Hl & Hb' & _). unfold blob. rewrite Hl. done.
Qed.

Lemma two_blobs a b : blob a → blob b → fields_bytes (enc_tree (flat [(0, VBytes a); (1, VBytes b)])).
Proof. intros Ha Hb'. apply flat_fields; [|done]. repeat constructor; try done; [apply Ha|apply Ha|apply Hb'|apply Hb']. Qed.

Lemma attestation_serves now ctx s : server_ok s → serves (handle_attestation_request now fields ctx) s.
Proof.
  intros Hs. apply serves_answer, wp_armed; [intros _|intros _; by apply served_same].
  eapply wp_invalid; [by apply decode_nonce32_safe|by apply served_same|]. intros nonce _ [Hn Hl]. apply wp_get.
  eapply wp_lift_fin; [apply encode_elements_at|].
  destruct (dev_signs (dev s) (attestation_tbs (enc_tree (elements_tree (certification_declaration (dev s)) nonce 0))
    (attestation_challenge ctx)) (so_dev s Hs)) as (sig & Hsig & Hsb & _).
  eapply wp_expect; [exact Hsig|]. eapply wp_data; [apply attestation_response_at|]. apply served_same; [done|].
  split; [done|]. apply two_blobs; [|done]. apply elements_blob; [apply Hs|done|done].
Qed.

Lemma chain_serves s : server_ok s → serves (handle_cert_chain_request fields) s.
Proof.
  intros Hs. destruct (dev_blobs _ (so_dev s Hs)) as (Hd & Hp & _). apply serves_answer.
  eapply wp_invalid; [by apply decode_cert_chain_request_safe|by apply served_same|]. intros ct _ _. apply wp_get.
  assert (∀ der, blob der → wp (data RESP_CERT_CHAIN (encode_cert_chain_response der)) (served s) (served s) s) as Hreply.
  { intros der Hder. eapply wp_data; [apply chain_response_at|]. apply served_same; [done|]. split; [done|].
    apply flat_fields; [|done]. by apply Forall_singleton. }
  destruct (ct =? CERT_TYPE_DAC); [by apply Hreply|]. destruct (ct =? CERT_TYPE_PAI); [by apply Hreply|].
  by apply served_same.
Qed.

(** The key the generator draws is usable. *)
Definition secret_ok (secret : bytes) : Prop := is_Some (sk_sign secret []) ∧ bytes_ok secret ∧ zlen secret = 32.

Lemma nocsr_blob csr nonce : bytes_ok csr → zlen csr ≤ 2300 → bytes_ok nonce → zlen nonce = 32 →
  blob (enc_tree (flat [(1, VBytes csr); (2, VBytes nonce)])).
Proof.
  intros Hc Hcl Hn Hnl. assert (Forall field_ok [(1, VBytes csr); (2, VBytes nonce)]) as Hf.
  { apply Forall_cons. split; [apply blob_field; [done|]; split; [done|lia]|].
    apply Forall_singleton. apply blob_field; [done|]. split; [done|lia]. }
  destruct (flat_ok _ Hf) as [Hwf _]; [done|]. split; [by apply enc_tree_ok|].
  eapply Z.le_lt_trans; [apply (zlen_node _ _ _ 2400)|done]. cbn [map].
  repeat (apply Forall_cons; split); [..|constructor]; (eapply Z.le_trans; [apply zlen_bytes_leaf|lia]).
Qed.

Lemma csr_serves now secret ctx s : secret_ok secret → server_ok s → serves (handle_csr_request now secret fields ctx) s.
Proof.
  intros (Hsk & _ & _) Hs. apply serves_answer, wp_armed; [intros _|intros _; by apply served_same].
  eapply wp_invalid; [by apply decode_nonce32_safe|by apply served_same|]. intros nonce _ [Hn Hl].
  destruct (csr_accepted (E:=X509Error) secret Hsk) as (csr & Hcsr & _ & Hcl).
  destruct (makes_csr (E:=X509Error) secret csr Hcsr) as [Hcb _].
  eapply wp_expect; [exact Hcsr|]. apply wp_do. eapply wp_lift_fin; [apply nocsr_at|]. apply wp_get.
  destruct (dev_signs (dev s) (attestation_tbs (enc_tree (flat [(1, VBytes csr); (2, VBytes nonce)])) (attestation_challenge ctx))
    (so_dev s Hs)) as (sig & Hsig & Hsb & _).
  eapply wp_expect; [exact Hsig|]. eapply wp_data; [apply csr_response_at|]. apply served_stay; [|by apply ok_pending; [apply Hs|]|done|done].
  split; [done|]. apply two_blobs; [by apply nocsr_blob|done].
Qed.

Lemma root_serves now s : server_ok s → serves (handle_add_trusted_root now fields) s.
Proof.
  intros Hs. apply serves_answer, wp_armed; [intros _|intros _; by apply served_same].
  eapply wp_invalid; [by apply decode_add_trusted_root_safe|by apply served_same|]. intros rcac _ Hr. apply wp_do.
  apply served_stay; [done| |done|done]. by apply ok_pending.
Qed.

(** *** AddNOC *)

(** The request a server in state [s] installs, and what it installs under the
    index it picks. *)
Definition entry_for (f : AddNocFields) (root private : bytes) (rcac : MatterCert) (node fabric index : Z) : FabricEntry := {|
  fe_index := index; fe_root_tlv := root; fe_noc_tlv := an_noc f; fe_icac_tlv := an_icac f ≫= non_empty;
  fe_op_private_key := private;
  fe_ipk_operational := derive_ipk_operational (an_ipk f) (compressed_fabric_id (mc_pub_key rcac) fabric);
  fe_node_id := node; fe_fabric_id := fabric; fe_root_public_key := mc_pub_key rcac;
  fe_admin_subject := an_admin_subject f; fe_admin_vendor_id := an_admin_vendor f; fe_label := []
|}.

Definition icac_parsed (f : AddNocFields) (icac : option MatterCert) : Prop :=
  match an_icac f ≫= non_empty with
  | Some tlv => ∃ c, parse tlv = Ok c ∧ icac = Some c
  | None => icac = None
  end.

Definition acceptable (s : Inner) (f : AddNocFields) (mk : Z → FabricEntry) : Prop :=
  zlen (fs_entries (store s)) < SUPPORTED_FABRICS ∧ is_Some (subject_kind (an_admin_subject f)) ∧
  ∃ root private public rcac noc icac node fabric,
    (trusted_root_tlv (pending s) = Some root ∧ op_private_key (pending s) = Some private ∧
     op_public_key (pending s) = Some public) ∧
    parse root = Ok rcac ∧ parse (an_noc f) = Ok noc ∧ icac_parsed f icac ∧ chain_ok noc icac rcac ∧
    mc_pub_key noc = public ∧ mc_node_id noc = Some node ∧ mc_fabric_id noc = Some fabric ∧
    mk = entry_for f root private rcac node fabric.

Lemma noc_status_at {A} st s : noc_status (A:=A) st s = (s, Err (noc_reply st None)).
Proof. unfold noc_status, data. by rewrite noc_response_at. Qed.

Lemma or_noc_at {A B} (m : res CertError A) (k : A → H B) s : returns m →
  (let! x := or_invalid_noc m in k x) s =
  match m with Ok a => k a s | _ => (s, Err (noc_reply NOC_STATUS_INVALID_NOC None)) end.
Proof. intros Hm. destruct m as [a|e| |]; [done| |done..]. unfold or_invalid_noc, bind. by rewrite noc_status_at. Qed.

(** A request is refused with a status, or is the one entry. *)
Definition checked (s : Inner) (f : AddNocFields) (o : Inner * res InvokeReply (Z → FabricEntry)) : Prop :=
  (∃ mk, o = (s, Ok mk) ∧ acceptable s f mk) ∨
  (∃ st, o = (s, Err (noc_reply st None)) ∧ 0 < st < 256 ∧ ∀ mk, ¬ acceptable s f mk).

Lemma checked_refused s f st : 0 < st < 256 → (∀ mk, ¬ acceptable s f mk) →
  checked s f (s, Err (noc_reply st None)).
Proof. intros Hst Hno. right. by exists st. Qed.

Lemma check_staged s f root private public : server_ok s → add_noc_ok f →
  trusted_root_tlv (pending s) = Some root → op_private_key (pending s) = Some private → op_public_key (pending s) = Some public →
  zlen (fs_entries (store s)) < SUPPORTED_FABRICS → is_Some (subject_kind (an_admin_subject f)) →
  checked s f (check_add_noc f s).
Proof.
  intros Hs (Hnoc & Hicac & _) Hroot Hpriv Hpub Hlen [kind Hkind]. pose proof (so_root s Hs) as Hrb. rewrite Hroot in Hrb.
  unfold check_add_noc, bind at 1, get. rewrite (proj2 (Z.leb_gt _ _) Hlen), Hkind. unfold bind at 1, ret at 1.
  unfold staged. unfold bind at 1, bind at 1, get. rewrite Hroot, Hpriv, Hpub. unfold ret at 1. cbv beta iota.
  assert (∀ mk, acceptable s f mk → ∃ rcac noc icac node fabric, parse root = Ok rcac ∧ parse (an_noc f) = Ok noc ∧
    icac_parsed f icac ∧ chain_ok noc icac rcac ∧ mc_pub_key noc = public ∧ mc_node_id noc = Some node ∧
    mc_fabric_id noc = Some fabric) as Hacc.
  { intros mk (_ & _ & root' & private' & public' & rcac & noc & icac & node & fabric & (H1 & H2 & H3) & H4).
    simplify_eq. exists rcac, noc, icac, node, fabric. naive_solver. }
  rewrite or_noc_at by apply parse_returns, Hrb.
  destruct (parse root) as [rcac|e| |] eqn:Hprc; [|apply checked_refused; [done|intros mk (? & ? & ? & ? & ? & ? & _)%Hacc; done]..].
  rewrite or_noc_at by apply parse_returns, Hnoc.
  destruct (parse (an_noc f)) as [noc|e| |] eqn:Hpn; [|apply checked_refused; [done|intros mk (? & ? & ? & ? & ? & _ & ? & _)%Hacc; done]..].
  destruct (parsed _ _ (proj1 Hrb) Hprc) as (_ & Hdr & _). destruct (parsed _ _ (proj1 Hnoc) Hpn) as (_ & Hdn & _).
  assert (∀ icac, icac_parsed f icac → from_option (λ c, returns (tbs_der c)) True icac →
    checked s f ((let! _ := or_invalid_noc (verify_noc_chain noc icac rcac) in
      if negb (bool_decide (mc_pub_key noc = public)) then noc_status NOC_STATUS_INVALID_PUBLIC_KEY else
      match mc_node_id noc, mc_fabric_id noc with
      | Some node_id, Some fabric_id => ret (entry_for f root private rcac node_id fabric_id)
      | _, _ => noc_status NOC_STATUS_INVALID_NOC
      end) s)) as Hrest.
  { intros icac Hi Hdi. rewrite or_noc_at by by apply chain_returns.
    assert (∀ icac', icac_parsed f icac' → icac' = icac) as Huniq.
    { intros icac'. unfold icac_parsed in *. destruct (an_icac f ≫= non_empty); [|congruence].
      destruct Hi as (c & Hc & ->). intros (c' & Hc' & ->). congruence. }
    destruct (verify_noc_chain noc icac rcac) as [ []|e| |] eqn:Hv.
    2-4: apply checked_refused; [done|]; intros mk (? & ? & ic & ? & ? & ? & ? & Hic & Hch & _)%Hacc; simplify_eq;
      rewrite (Huniq ic Hic) in Hch; apply chain_decided in Hch; congruence.
    apply chain_decided in Hv. case_bool_decide as Hkey; cbn [negb]; [|rewrite noc_status_at; apply checked_refused; [done|] ].
    2: intros mk (? & ? & ic & ? & ? & ? & ? & Hic & Hch & Hpk & _)%Hacc; congruence.
    destruct (mc_node_id noc) as [node|] eqn:Hn, (mc_fabric_id noc) as [fabric|] eqn:Hfa.
    2-4: rewrite noc_status_at; apply checked_refused; [done|]; intros mk (? & ? & ic & ? & ? & ? & ? & Hic & Hch & Hpk & ? & ?)%Hacc; congruence.
    left. eexists. split; [done|]. split; [done|]. split; [by exists kind|]. exists root, private, public, rcac, noc, icac, node, fabric. done. }
  unfold entry_for in Hrest. destruct (an_icac f ≫= non_empty) as [tlv|] eqn:Hic.
  2: apply (Hrest None); [unfold icac_parsed; by rewrite Hic|done].
  assert (payload tlv) as Htlv.
  { destruct (an_icac f) as [t|]; [|done]. cbn in Hic. unfold non_empty in Hic. destruct t; simplify_eq. done. }
  unfold bind at 1. rewrite or_noc_at by apply parse_returns, Htlv.
  destruct (parse tlv) as [ica|e| |] eqn:Hpi.
  2-4: apply checked_refused; [done|]; intros mk (? & ? & ? & ? & ? & _ & _ & Hi & _)%Hacc; unfold icac_parsed in Hi;
    rewrite Hic in Hi; destruct Hi as (c & Hc & _); congruence.
  apply (Hrest (Some ica)); [unfold icac_parsed; rewrite Hic; by exists ica|]. destruct (parsed tlv ica (proj1 Htlv) Hpi) as (_ & Hdi & _). exact Hdi.
Qed.

Lemma check_add_noc_at s f : server_ok s → add_noc_ok f → checked s f (check_add_noc f s).
Proof.
  intros Hs Hf.
  destruct (Z.leb_spec SUPPORTED_FABRICS (zlen (fs_entries (store s)))) as [Hfull|Hroom].
  { unfold check_add_noc, bind, get. rewrite (proj2 (Z.leb_le _ _) Hfull), noc_status_at. apply checked_refused; [done|].
    intros mk [Hlen _]. lia. }
  destruct (subject_kind (an_admin_subject f)) as [kind|] eqn:Hkind.
  2: { unfold check_add_noc, bind, get. rewrite (proj2 (Z.leb_gt _ _) Hroom), Hkind. unfold ret. rewrite noc_status_at.
       apply checked_refused; [done|]. intros mk (_ & [? Hk'] & _). congruence. }
  destruct (trusted_root_tlv (pending s)) as [root|] eqn:Hroot, (op_private_key (pending s)) as [private|] eqn:Hpriv,
    (op_public_key (pending s)) as [public|] eqn:Hpub; [by eapply check_staged|..].
  all: unfold check_add_noc, bind at 1, get; rewrite (proj2 (Z.leb_gt _ _) Hroom), Hkind; unfold bind at 1, ret at 1;
    unfold staged, bind, get; rewrite Hroot, ?Hpriv, ?Hpub, noc_status_at; apply checked_refused; [done|];
    intros mk (_ & _ & ? & ? & ? & ? & ? & ? & ? & ? & (? & ? & ?) & _); congruence.
Qed.

(** What an accepted request installs has the types of the table. *)
Lemma acceptable_typed s f mk i : server_ok s → add_noc_ok f → acceptable s f mk →
  entry_typed (mk i) ∧ fe_index (mk i) = i ∧ fe_admin_subject (mk i) = an_admin_subject f.
Proof.
  intros Hs (Hnoc & Hicac & _ & Hsub & Hvid) (_ & _ & root & private & public & rcac & noc & icac & node & fabric & (Hr & _) & Hpr & Hpn & _ & _ & _ & Hn & Hf & ->).
  pose proof (so_root s Hs) as Hrb. rewrite Hr in Hrb.
  destruct (parsed _ _ (proj1 Hrb) Hpr) as (Hrc & _). destruct (parsed _ _ (proj1 Hnoc) Hpn) as (Hnc & _).
  destruct Hrc as (_ & _ & _ & _ & _ & [Hkb Hkl] & _). destruct Hnc as (_ & _ & _ & _ & Hns & _).
  split; [|done]. split; [|split].
  - split; [exact Hnoc|]. split; [|split; [exact Hrb|] ].
    + cbn. destruct (an_icac f) as [ [|b t] |]; cbn in *; done.
    + split; [exact Hkb|]. unfold small. cbn [entry_for fe_root_public_key]. lia.
  - split; [by eapply matter_id_bound|]. split; [by eapply matter_id_bound|]. by split.
  - by repeat split.
Qed.

(** The run of AddNOC on a decoded request: refused and nothing changes; or the
    next index overflows; or the save fails and nothing changes; or the fabric
    is installed. *)
Definition installed (s : Inner) (f : AddNocFields) (mk : Z → FabricEntry) (i : Z) (s' : Inner) : Prop :=
  server_ok s' ∧ tables_of s' = install i (mk i) (tables_of s) ∧ pending s' = no_pending ∧ dev s' = dev s ∧
  armed_until s' = armed_until s.

Definition add_noc_outcome (s : Inner) (f : AddNocFields) (o : Inner * res Empty_set InvokeReply) : Prop :=
  (∃ st, o = (s, Ok (noc_reply st None)) ∧ 0 < st < 256 ∧ ∀ mk, ¬ acceptable s f mk) ∨
  (∃ mk, acceptable s f mk ∧
    ((next_fabric_index (store s) = Panic ∧ o = (s, Panic)) ∨
     (∃ i, next_fabric_index (store s) = Ok i ∧
       ((o = (s, Ok (noc_reply NOC_STATUS_TABLE_FULL None)) ∧ ∃ msg, snd (fs_insert (mk i) (store s)) = Err msg) ∨
        ∃ s', o = (s', Ok (noc_reply NOC_STATUS_OK (Some i))) ∧ installed s f mk i s')))).

Lemma set_store_same s : set_store (store s) s = s.
Proof. by destruct s. Qed.

Lemma add_noc_run now s f : server_ok s → is_armed now s = true → decode_add_noc fields = Ok f →
  add_noc_outcome s f (handle_add_noc now fields s).
Proof.
  intros Hs Harm Hdec. pose proof (decode_add_noc_safe fields Hb Hsm) as Hf. rewrite Hdec in Hf.
  unfold handle_add_noc, answer.
  erewrite bind_ok by (unfold require_armed, bind, get; rewrite Harm; reflexivity).
  erewrite bind_ok by (rewrite Hdec; reflexivity).
  destruct (check_add_noc_at s f Hs Hf) as [(mk & Hc & Hacc)|(st & Hc & Hst & Hno)].
  2: { left. exists st. by rewrite (bind_err _ _ _ _ _ Hc). }
  right. exists mk. split; [done|]. rewrite (bind_ok _ _ _ _ _ Hc). erewrite (bind_ok get) by reflexivity.
  pose proof (so_fabrics s Hs) as Hfs.
  destruct (next_fabric_index (store s)) as [i|e| |] eqn:Hnext; [|destruct e|by left|].
  2: { unfold next_fabric_index in Hnext. by repeat case_match. }
  right. exists i. split; [done|]. destruct (acceptable_typed s f mk i Hs Hf Hacc) as (Hty & Hi & Hsub).
  destruct (next_index_free _ _ Hfs Hnext) as [Hrange _].
  erewrite (bind_ok (lift_fin _)) by reflexivity.
  destruct (insert_refines (mk i) (store s) Hfs) as [ [Hins (msg & Hmsg)]|(f' & Hins & Hf' & _ & Hmap)]; [by rewrite Hi| |];
    erewrite (bind_ok (on_fabrics _)) by (unfold on_fabrics; rewrite Hins; reflexivity).
  - left. split; [|by exists msg]. rewrite Hmsg. cbn [is_ok negb]. by rewrite noc_status_at, set_store_same.
  - right. cbn [is_ok negb]. unfold data. rewrite noc_response_at. cbv [bind modify lift_fin ret].
    eexists. split; [done|]. split.
    + apply (ok_admin i (an_admin_subject f) (set_uncommitted (Some i) (set_pending no_pending (set_store f' s)))).
      { unfold in_u. lia. } { apply Hf. }
      apply ok_uncommitted, ok_pending; [done|]. apply ok_store; [done| |done]. unfold fs_insert in Hins.
      destruct (fs_save _ _); simplify_eq. cbn [fs_entries with_entries]. apply Forall_app. split; [apply Hs|by apply Forall_singleton].
    + split; [|done]. unfold tables_of, install. cbn. rewrite Hmap, Hi, Hsub. f_equal. by destruct (acl_store s).
Qed.

(** *** The other commands on the table *)

Lemma update_first_Forall {A} (P : A → Prop) p g l l' : Forall P l → (∀ x, P x → P (g x)) →
  update_first p g l = Some l' → Forall P l'.
Proof.
  intros Hl Hg. revert l'. induction Hl as [|x l Hx Hl IH]; intros l'; cbn; [done|].
  destruct (p x); [intros [= <-]; constructor; auto|]. destruct (update_first p g l); [|done]. intros [= <-]. constructor; auto.
Qed.

Lemma renamed_ok i label s : server_ok s → bytes_ok label ∧ zlen label ≤ 32 ∧ from_utf8 label = true →
  let f := fst (fs_update_label i label (store s)) in
  fabrics_ok f ∧ Forall entry_typed (fs_entries f) ∧ fabric_map f = alter (set_label label) i (fabric_map (store s)) ∧
  answers (store s) i (snd (fs_update_label i label (store s))).
Proof.
  intros Hs Hl f. pose proof (label_refines i label (store s) (so_fabrics s Hs)) as Hr. unfold f. clear f.
  destruct (fs_update_label i label (store s)) as [f r] eqn:Hf. cbn [fst snd]. destruct Hr as (H1 & _ & H3 & H4). split; [done|].
  split; [|done]. unfold fs_update_label in Hf. destruct (update_first _ _ _) as [l|] eqn:Hu; simplify_eq; [|apply Hs].
  eapply update_first_Forall; [apply Hs| |exact Hu]. intros e (A1 & A2 & _). by split.
Qed.

Lemma answers_cases f i r : answers f i r → r = Ok false ∧ fabric_map f !! i = None ∨
  is_Some (fabric_map f !! i) ∧ (r = Ok true ∨ ∃ msg, r = Err msg).
Proof. unfold answers. destruct (fabric_map f !! i); [right|left]; eauto. Qed.

Lemma wp_noc_reply s st index s1 : in_u 8 st → from_option (in_u 8) True index → server_ok s1 →
  table_step (tables_of s) (tables_of s1) → dev s1 = dev s →
  wp (data RESP_NOC (encode_noc_response st index)) (served s) (served s) s1.
Proof.
  intros Hst Hi Hs Ht Hd. eapply wp_data; [apply noc_response_at|]. split; [by apply noc_reply_ok|]. by split.
Qed.

Lemma label_serves ctx s : ctx_typed ctx → server_ok s → serves (handle_update_fabric_label fields ctx) s.
Proof.
  intros Hctx Hs. apply serves_answer. eapply wp_invalid; [by apply decode_update_fabric_label_safe|by apply served_same|].
  intros label _ Hl. destruct (renamed_ok (ctx_fabric ctx) label s Hs Hl) as (H1 & H2 & H3 & H4).
  apply wp_bind. unfold on_fabrics, wp at 1. destruct (fs_update_label (ctx_fabric ctx) label (store s)) as [f r]. cbn [fst snd] in *.
  assert (server_ok (set_store f s)) as Hok by by apply ok_store.
  assert (table_step (tables_of s) (tables_of (set_store f s))) as Hstep.
  { unfold tables_of. cbn. rewrite H3. apply TRename. }
  apply answers_cases in H4 as [ [-> _]|[_ [->|[msg ->] ] ] ].
  - by apply wp_noc_reply.
  - by apply wp_noc_reply.
  - by split.
Qed.

Lemma remove_serves s : server_ok s → serves (handle_remove_fabric fields) s.
Proof.
  intros Hs. apply serves_answer. eapply wp_invalid; [by apply decode_remove_fabric_safe|by apply served_same|].
  intros i _ Hi. apply wp_get. rewrite find_fabric_map. destruct (fabric_map (store s) !! i) as [e|] eqn:He.
  2: { apply wp_noc_reply; try done. constructor. }
  destruct (removed_ok i s Hs) as (H1 & H2 & H3 & H4).
  apply wp_bind. unfold on_fabrics, wp at 1. destruct (fs_remove i (store s)) as [f r]. cbn [fst snd] in *.
  set (s' := purge_fabric_stores i (set_removed (Some e) (set_store f s))).
  assert (server_ok s') as Hok by by apply ok_purge, ok_removed, ok_store.
  assert (table_step (tables_of s) (tables_of s')) as Hstep.
  { unfold s'. change (tables_of (purge_fabric_stores i (set_removed (Some e) (set_store f s))))
      with (tables_of (purge_fabric_stores i (set_store f s))). rewrite (tables_drop i f s H3). apply TRemove. by exists e. }
  apply answers_cases in H4 as [ [_ Hno]|[_ [->|[msg ->] ] ] ]; [congruence| |]; do 2 apply wp_do.
  - by apply wp_noc_reply.
  - by split.
Qed.

(** *** The commissioning window *)

Lemma contains_iff lo hi v : contains lo hi v = true ↔ lo ≤ v ≤ hi.
Proof. unfold contains. rewrite andb_true_iff, !Z.leb_le. lia. Qed.

Lemma open_serves ctx s : ctx_typed ctx → server_ok s → serves (handle_open_commissioning_window fields ctx) s.
Proof.
  intros Hctx Hs. apply serves_answer. eapply wp_invalid; [by apply decode_open_commissioning_window_safe|by apply served_same|].
  intros f _ (Ht & _ & Hd & _). destruct (contains 180 900 (wf_timeout f)) eqn:H1; cbn [negb]; [|by apply served_same].
  destruct (Z.eqb_spec (zlen (wf_verifier f)) 97) as [Hv|]; cbn [negb orb]; [|by apply served_same].
  destruct (contains 1000 100000 (wf_iterations f)) eqn:H2; cbn [negb orb]; [|by apply served_same].
  destruct (contains 16 32 (zlen (wf_salt f))) eqn:H3; cbn [negb orb]; [|by apply served_same].
  apply wp_get. destruct (admin_window_is_open s); [by apply served_same|]. do 2 apply wp_do.
  apply served_stay; [done| |done|done]. apply ok_request; [|apply ok_window; [|done] ].
  - apply contains_iff in H1, H2, H3. cbn. unfold request_ok. cbn. split_and!; tauto.
  - cbn. split; [done|]. rewrite find_fabric_map. destruct (fabric_map (store s) !! ctx_fabric ctx) as [e|] eqn:He; [|done].
    rewrite <- find_fabric_map in He. apply List.find_some in He as [Hin%list_elem_of_In _].
    pose proof (so_entries s Hs) as Hall. rewrite Forall_forall in Hall. by destruct (Hall e Hin) as (_ & (_ & _ & _ & ?) & _).
Qed.

Lemma revoke_serves s : server_ok s → serves handle_revoke_commissioning s.
Proof.
  intros Hs. apply serves_answer. apply wp_get. destruct (admin_window_is_open s); cbn [negb]; [|by apply served_same].
  apply wp_do. apply served_stay; [done|by apply ok_window|done|done].
Qed.

(** *** Dispatch *)

Lemma general_serves now cmd s : server_ok s → serves (handle_general_commissioning now cmd fields) s.
Proof.
  intros Hs. unfold handle_general_commissioning. destruct (cmd =? _); [by apply arm_serves|].
  destruct (cmd =? _); [by apply regulatory_serves|]. destruct (cmd =? _); [by apply complete_serves|].
  eexists s, _. split; [done|]. by apply served_same.
Qed.

Lemma admin_serves cmd ctx s : ctx_typed ctx → server_ok s → serves (handle_admin_commissioning cmd fields ctx) s.
Proof.
  intros Hc Hs. unfold handle_admin_commissioning. destruct (cmd =? _); [by apply open_serves|].
  destruct (cmd =? _); [by apply revoke_serves|]. eexists s, _. split; [done|]. by apply served_same.
Qed.

(** AddNOC is served unless the table holds index 255. *)
Lemma add_noc_serves now s : server_ok s →
  serves (handle_add_noc now fields) s ∨
  is_Some (fabric_map (store s) !! 255) ∧ handle_add_noc now fields s = (s, Panic).
Proof.
  intros Hs. destruct (is_armed now s) eqn:Harm.
  2: { left. apply serves_answer, wp_armed; [congruence|]. intros _. by apply served_same. }
  destruct (decode_add_noc fields) as [f|e| |] eqn:Hdec.
  - destruct (add_noc_run now s f Hs Harm Hdec) as [(st & Hrun & Hst & _)|(mk & Hacc & [ [Hp Hrun]|(i & Hnext & Hr)])].
    + left. exists s, (noc_reply st None). split; [exact Hrun|]. apply served_same; [done|]. apply noc_reply_ok; [|done]. unfold in_u. lia.
    + right. split; [|exact Hrun]. by apply next_index_full; [apply Hs|].
    + left. destruct (next_index_free _ _ (so_fabrics s Hs) Hnext) as [Hi Hfree].
      destruct Hr as [ [Hrun _]|(s' & Hrun & Hok & Ht & _ & Hd & _)].
      * eexists s, _. split; [exact Hrun|]. apply served_same; [done|]. by apply noc_reply_ok.
      * eexists s', _. split; [exact Hrun|]. split; [|split; [done|split; [|done] ] ].
        { apply noc_reply_ok; [done|]. cbn. unfold in_u. lia. }
        rewrite Ht. pose proof (decode_add_noc_safe fields Hb Hsm) as Hf. rewrite Hdec in Hf.
        apply TInstall; [by apply fabric_free|done|by apply (acceptable_typed s f)|].
        cbn. rewrite size_fabrics by apply Hs. apply Hacc.
  - left. apply serves_answer, wp_armed; [intros _|congruence]. eapply wp_invalid; [by apply decode_add_noc_safe|by apply served_same|].
    intros a Ha. congruence.
  - pose proof (decode_add_noc_safe fields Hb Hsm) as Hf. by rewrite Hdec in Hf.
  - pose proof (decode_add_noc_safe fields Hb Hsm) as Hf. by rewrite Hdec in Hf.
Qed.

Lemma operational_serves now secret cmd ctx s : ctx_typed ctx → secret_ok secret → server_ok s →
  serves (handle_operational_credentials now secret cmd fields ctx) s ∨
  is_Some (fabric_map (store s) !! 255) ∧ cmd = CMD_ADD_NOC ∧
  handle_operational_credentials now secret cmd fields ctx s = (s, Panic).
Proof.
  intros Hc Hsec Hs. unfold handle_operational_credentials. destruct (cmd =? CMD_ATTESTATION_REQUEST); [left; by apply attestation_serves|].
  destruct (cmd =? CMD_CERT_CHAIN_REQUEST); [left; by apply chain_serves|]. destruct (cmd =? CMD_CSR_REQUEST); [left; by apply csr_serves|].
  destruct (cmd =? CMD_ADD_TRUSTED_ROOT); [left; by apply root_serves|].
  destruct (Z.eqb_spec cmd CMD_ADD_NOC); [destruct (add_noc_serves now s Hs) as [|[? ?] ]; tauto|].
  destruct (cmd =? _); [left; by apply label_serves|]. destruct (cmd =? _); [left; by apply remove_serves|].
  left. eexists s, _. split; [done|]. by apply served_same.
Qed.
End server.
