(* ===== verification/CommissioningRun.v ===== *)
(** * Commissioning a device

    What the commissioning server of [Commissioning.v] guarantees over whole
    runs, in which its own commands are interleaved with the requests that the
    dispatcher lets through to the Access Control, Group Key Management and
    Groups clusters: its handlers serve any request; rows of the shared stores
    belong to live fabrics, but for memberships made over PASE, which belong to
    index 0; AddNOC installs exactly the acceptable credentials; and the fabric
    that the fail-safe still marks as unconfirmed is undone when the fail-safe
    ends (only that one: a second AddNOC in the same window takes the marker
    off the first, [second_add_noc_outlives_fail_safe]). *)

From Stdlib Require Import String.
From stdpp Require Import gmap relations.
From S2P Require Import Prelude Tlv TlvValue Handler AccessControl Events Clusters DataModel Groups Fabrics GroupKeys FabricRows CommCodec Certs X509 Attestation Commissioning.

(** A table has at most 255 fabrics. *)
Lemma fabrics_count f : fabrics_ok f → 0 ≤ zlen (fs_entries f) ≤ 255.
Proof.
  intros [Hnd Hi]. split; [apply zlen_nonneg|].
  assert (map fe_index (fs_entries f) ⊆+ seqZ 1 255) as Hsub%submseteq_length.
  { apply NoDup_submseteq; [done|]. intros i Hin. apply elem_of_seqZ. apply list_elem_of_fmap in Hin as (e & -> & He).
    rewrite Forall_forall in Hi. specialize (Hi e He). lia. }
  rewrite length_map, length_seqZ in Hsub. unfold zlen. lia.
Qed.

(** ** Attribute reads *)

Section reads.
Context `{Ec : Ecdsa}.

Lemma encode_scoped_ok put (g : FabricEntry → tree) s ctx : server_ok s →
  (∀ e, entry_typed e → 1 ≤ fe_index e ≤ 255 → writes (put e) (enc_tree (g e)) ∧ wf_tree (g e)) →
  ∃ b, encode_scoped put s ctx = Ok b ∧ element_bytes b.
Proof.
  intros Hs Hg. assert (Forall (λ e, writes (put e) (enc_tree (g e)) ∧ wf_tree (g e)) (fabric_scoped_entries s ctx)) as Hall.
  { unfold fabric_scoped_entries. eapply List.incl_Forall; [apply List.incl_filter|].
    pose proof (so_entries s Hs) as He. pose proof (proj2 (so_fabrics s Hs)) as Hi.
    rewrite Forall_forall in *. intros e Hin. apply Hg; [by apply He|by apply Hi]. }
  exists (enc_tree (Tlv.Node Anonymous KArray (map g (fabric_scoped_entries s ctx)))). split.
  - apply to_vec_writes, writes_array. clear Hg. induction Hall as [|e l [Hw _] _ IH]; cbn [foldr map].
    + apply emits_end.
    + by apply emits_cons.
  - eexists. split; [|done]. apply wf_anon_node. apply List.Forall_map. eapply Forall_impl; [exact Hall|]. by intros e [_ ?].
Qed.

Lemma index_leaf e : 1 ≤ fe_index e ≤ 255 → wf_tree (Leaf (Context 254) (VUint (fe_index e))).
Proof. intros Hi. apply (wf_uint _ _ 8); [done|done|unfold in_u; lia]. Qed.

Lemma payload_leaf c b : 0 ≤ c < 256 → payload b → wf_tree (Leaf (Context c) (VBytes b)).
Proof. intros Hc [Hb Hs]. by apply wf_blob. Qed.

Lemma encode_nocs_ok s ctx : server_ok s → ∃ b, encode_nocs s ctx = Ok b ∧ element_bytes b.
Proof.
  intros Hs. apply (encode_scoped_ok _ (λ e, Tlv.Node Anonymous KStruct ([Leaf (Context 1) (VBytes (fe_noc_tlv e))] ++
    (match fe_icac_tlv e with Some i => [Leaf (Context 2) (VBytes i)] | None => [] end) ++
    [Leaf (Context 254) (VUint (fe_index e))]))); [done|].
  intros e ( (Hn & Hi & _) & _) Hx. split.
  - apply writes_struct. destruct (fe_icac_tlv e); cbn [app]; eauto 6 with emits.
  - apply wf_anon_node. apply Forall_app. split; [by apply Forall_singleton, payload_leaf|].
    apply Forall_app. split; [|by apply Forall_singleton, index_leaf].
    destruct (fe_icac_tlv e); [by apply Forall_singleton, payload_leaf|constructor].
Qed.

Lemma encode_fabrics_ok s ctx : server_ok s → ∃ b, encode_fabrics s ctx = Ok b ∧ element_bytes b.
Proof.
  intros Hs. apply (encode_scoped_ok _ (λ e, Tlv.Node Anonymous KStruct [Leaf (Context 1) (VBytes (fe_root_public_key e));
    Leaf (Context 2) (VUint (fe_admin_vendor_id e)); Leaf (Context 3) (VUint (fe_fabric_id e));
    Leaf (Context 4) (VUint (fe_node_id e)); Leaf (Context 5) (VUtf8 (fe_label e)); Leaf (Context 254) (VUint (fe_index e))])); [done|].
  intros e ( (_ & _ & _ & Hk) & (Hn & Hf & _ & Hv) & Hl & Hlen & Hu) Hx. split.
  - apply writes_struct. eauto 9 with emits.
  - apply wf_anon_node. repeat (apply Forall_cons; split); [..|constructor].
    + by apply payload_leaf.
    + by apply (wf_uint _ _ 16).
    + by apply (wf_uint _ _ 64).
    + by apply (wf_uint _ _ 64).
    + split; [done|]. split; [|done]. split; [done|]. split; [lia|done].
    + by apply index_leaf.
Qed.

Lemma encode_roots_ok s ctx : server_ok s → ∃ b, encode_trusted_root_certificates s ctx = Ok b ∧ element_bytes b.
Proof.
  intros Hs. apply (encode_scoped_ok _ (λ e, Leaf Anonymous (VBytes (fe_root_tlv e)))); [done|].
  intros e ( (_ & _ & [Hb Hl] & _) & _) _. split; [apply writes_len_prefixed|]. by split.
Qed.

Lemma read_oc_ok s a ctx : server_ok s → in_u 8 (rc_fabric ctx) →
  ∃ o, read_operational_credentials s a ctx = Ok o ∧ from_option element_bytes True o.
Proof.
  intros Hs Hc. unfold read_operational_credentials.
  destruct (a =? _); [by apply some_value_ok, encode_nocs_ok|]. destruct (a =? _); [by apply some_value_ok, encode_fabrics_ok|].
  destruct (a =? _); [by apply some_value_ok, (element_uint _ 8)|].
  destruct (a =? _); [|destruct (a =? _); [by apply some_value_ok, encode_roots_ok|] ].
  - apply some_value_ok, (element_uint _ 8); [done|]. pose proof (fabrics_count _ (so_fabrics s Hs)). unfold in_u. lia.
  - destruct (a =? _); [by apply some_value_ok, (element_uint _ 8)|apply none_value_ok].
Qed.

Lemma read_ac_ok s a : server_ok s → ∃ o, read_admin_commissioning s a = Ok o ∧ from_option element_bytes True o.
Proof.
  intros Hs. pose proof (so_window s Hs) as Hw. unfold read_admin_commissioning.
  destruct (a =? _); [apply some_value_ok, (element_uint _ 8); [done|by destruct (admin_window_is_open s)]|].
  destruct (a =? _); [|destruct (a =? _); [|apply none_value_ok] ]; apply some_value_ok;
    destruct (admin_window s) as [w|]; try apply element_null; destruct Hw.
  - by apply (element_uint _ 8).
  - by apply (element_uint _ 16).
Qed.

Lemma read_gc_ok a : ∃ o, read_general_commissioning a = Ok o ∧ from_option element_bytes True o.
Proof.
  unfold read_general_commissioning. destruct (a =? _); [by apply some_value_ok, (element_uint _ 8)|].
  destruct (a =? _).
  { apply some_value_ok. eexists. split; [apply to_vec_writes, writes_struct; eauto with emits|]. eexists. split; [|done].
    apply wf_anon_node. repeat (apply Forall_cons; split); [..|constructor]; by apply (wf_uint _ _ 16). }
  do 2 (destruct (a =? _); [by apply some_value_ok, (element_uint _ 8)|]).
  destruct (a =? _); [apply some_value_ok, element_bool|apply none_value_ok].
Qed.
End reads.

(** ** The contract of the dispatcher

    General and Administrator Commissioning honour it.  Operational Credentials
    does not quite: AddNOC panics when index 255 is taken. *)

Section contract.
Context `{Ec : Ecdsa} `{!EcdsaLaws Ec} `{Hk : Hkdf} `{!HkdfLaws}.
Context {W : Type} (I : W → Prop) (inner : Lens W Inner) (clock : W → Z) (secret : W → bytes).
Context (Hview : ∀ w, I w → server_ok (view inner w)) {Hkeeps : LensKeeps I server_ok inner}.

Ltac ids := repeat (apply Forall_cons; split); first [apply Forall_nil; done | done].

Lemma locked_ok m w c : I w → serves (m c) (view inner w) →
  ∃ w' c' r, locked inner m (w, c) = ((w', c'), Ok r) ∧ I w' ∧ ctx_kept c c' ∧ reply_ok r.
Proof.
  intros Hw (s' & r & Hm & Hr & Hs & _). unfold locked. rewrite Hm. eexists _, _, _. split; [done|].
  split; [by apply lens_keeps|]. split; [apply ctx_kept_refl|done].
Qed.

#[local] Arguments read_general_commissioning : simpl never.
#[local] Arguments read_admin_commissioning : simpl never.
#[local] Arguments locked : simpl never.

#[export] Instance GeneralCommissioning_ok : HandlerOk I (GeneralCommissioningHandler inner clock secret).
Proof.
  split; try done; try ids.
  - intros w a ctx _. apply read_gc_ok.
  - intros w c cmd f Hw _ Hb Hs. apply locked_ok; [done|]. by apply general_serves, Hview.
  - intros w c a data append Hw _ _ _. by apply default_write_ok.
  - intros w c s Hw. by apply default_stimulate_ok.
Qed.

#[export] Instance AdminCommissioning_ok : HandlerOk I (AdminCommissioningHandler inner clock secret).
Proof.
  split; try done; try ids.
  - intros w a ctx Hw. by apply read_ac_ok, Hview.
  - intros w c cmd f Hw Hc Hb Hs. apply locked_ok; [done|]. by apply admin_serves; [..|apply Hview].
  - intros w c a data append Hw _ _ _. by apply default_write_ok.
  - intros w c s Hw. by apply default_stimulate_ok.
Qed.
End contract.

(** ** Runs of the server

    Besides its own commands, the server's tables are reached by three other
    clusters, whose handlers run on the shared stores after the dispatcher
    consulted the same ACL store. *)

Definition server_acl (s : Inner) : AclStore := default AclStore_new (acl_store s).

(** The dispatcher of a node that holds this ACL lets the session of [c] through. *)
Definition permitted (s : Inner) (c : InvokeCtx) (required ep cl : Z) : Prop :=
  ∃ n : Node Inner, nd_acl n = Some server_acl ∧
    acl_allows n s (ctx_fabric c) (ctx_subject c) required ep cl = true.

(** The three handlers, each over its store. *)
Definition own_acl : HasAcl AclStore := {| acl_of s := s; with_acl s _ := s; acl_of_with _ _ := eq_refl |}.
Definition acl_cluster : ClusterHandler AclStore := @AccessControlHandler AclStore own_acl.
Definition keys_cluster : ClusterHandler KeyWorld := GroupKeyManagementHandler keys_lens members_lens.
Definition groups_cluster (clock : MemberWorld → Z) (ep : Z) : ClusterHandler MemberWorld :=
  GroupsHandler member_lens deadline_lens clock ep.

(** The world a handler leaves behind. *)
Definition left_by {W R} (o : W * InvokeCtx * R) : W := fst (fst o).

Definition sent (c : InvokeCtx) (b : bytes) : Prop := ctx_typed c ∧ bytes_ok b ∧ small b.

(** On the tables: a handler serving [f] changes rows of [f] only. *)
Definition own_change (f : Z) (t t' : Tables) : Prop :=
  t_uncommitted t' = t_uncommitted t ∧ drop_fabric f t' = drop_fabric f t.
Definition rows_step (f : Z) (t t' : Tables) : Prop := t_fabrics t' = t_fabrics t ∧ own_change f t t'.

Definition keep_members (keep : GroupMember → bool) (t : Tables) : Tables := {|
  t_fabrics := t_fabrics t; t_uncommitted := t_uncommitted t; t_acl := t_acl t; t_keys := t_keys t;
  t_members := List.filter keep <$> t_members t
|}.

(** *** Whose rows there are *)

Definition acl_owners (t : Tables) : list Z := map fabric_index (default [] (t_acl t)).
Definition key_owners (t : Tables) : list Z :=
  from_option (λ '(k, m), map ks_fabric k ++ map mk_fabric m) [] (t_keys t).
Definition member_owners (t : Tables) : list Z := map gm_fabric (default [] (t_members t)).
Definition owners (t : Tables) : list Z := acl_owners t ++ key_owners t ++ member_owners t.

(** Access entries and keys belong to a fabric of the table; a membership does
    too, or was made without a fabric. *)
Definition isolated (t : Tables) : Prop :=
  (∀ i, i ∈ acl_owners t ∨ i ∈ key_owners t → is_Some (t_fabrics t !! i)) ∧
  (∀ i, i ∈ member_owners t → i = 0 ∨ is_Some (t_fabrics t !! i)).

Section runs.
Context `{Ec : Ecdsa} `{!EcdsaLaws Ec} `{Hk : Hkdf} `{!HkdfLaws}.

(** One thing that happens: a command of the commissioning clusters, the expiry
    timer, the runtime collecting what was staged, a permitted write or command
    of one of the other three clusters, or the pruning of the memberships of
    endpoints that are gone. *)
Inductive server_step (s : Inner) : Inner → Prop :=
  | SGeneral now cmd f : bytes_ok f → small f → server_step s (fst (handle_general_commissioning now cmd f s))
  | SOperational now secret cmd f ctx : bytes_ok f → small f → ctx_typed ctx → secret_ok secret →
      server_step s (fst (handle_operational_credentials now secret cmd f ctx s))
  | SAdmin cmd f ctx : bytes_ok f → small f → ctx_typed ctx → server_step s (fst (handle_admin_commissioning cmd f ctx s))
  | SExpire now : server_step s (fst (expire_fail_safe now s))
  | STakeRequest : server_step s (fst (take_pending_window_request s))
  | STakeRemoved : server_step s (fst (take_removed_fabric s))
  | SClose : server_step s (close_admin_window s)
  | SAclWrite acl ep a data append c : acl_store s = Some acl → sent c data →
      permitted s c (write_privilege acl_cluster a) ep (cluster_id acl_cluster) →
      server_step s (set_acl_store (left_by (h_write acl_cluster a data append (acl, c))) s)
  | SKeysInvoke k m ep cmd f c : group_key_store s = Some k → sent c f →
      permitted s c (invoke_privilege keys_cluster cmd) ep (cluster_id keys_cluster) →
      server_step s (set_group_key_store (fst (left_by (h_invoke keys_cluster cmd f (k, m, c)))) s)
  | SKeysWrite k m ep a data append c : group_key_store s = Some k → sent c data →
      permitted s c (write_privilege keys_cluster a) ep (cluster_id keys_cluster) →
      server_step s (set_group_key_store (fst (left_by (h_write keys_cluster a data append (k, m, c)))) s)
  | SGroups m d clock ep cmd f c : group_membership_store s = Some m → in_u 16 ep → sent c f →
      permitted s c (invoke_privilege (groups_cluster clock ep) cmd) ep (cluster_id (groups_cluster clock ep)) →
      server_step s (set_group_membership_store (fst (left_by (h_invoke (groups_cluster clock ep) cmd f (m, d, c)))) s)
  | SRetain m live : group_membership_store s = Some m →
      server_step s (set_group_membership_store (fst (retain_endpoints live m)) s).

(** The same on the tables. *)
Inductive machine_step (t t' : Tables) : Prop :=
  | MTable : table_step t t' → machine_step t t'
  | MRows f : rows_step f t t' →
      f ∈ acl_owners t ∨ f = 0 ∧ t_acl t' = t_acl t ∧ t_keys t' = t_keys t → machine_step t t'
  | MKeep keep : t' = keep_members keep t → machine_step t t'.

Lemma expire_at now s : server_ok s → ∃ s',
  expire_fail_safe now s =
    (s', Ok (if is_expired now s then uncommitted_fabric_index s ≫= λ i, fabric_map (store s) !! i else None)) ∧
  server_ok s' ∧ dev s' = dev s ∧
  tables_of s' = match uncommitted_fabric_index s with
                 | Some i => if is_expired now s then drop_fabric i (with_uncommitted None (tables_of s)) else tables_of s
                 | None => tables_of s
                 end ∧
  armed_until s' = if is_expired now s then None else armed_until s.
Proof.
  intros Hs. unfold expire_fail_safe. unfold bind at 1, get. destruct (is_expired now s) eqn:He; cbn [negb].
  - destruct (rollback_at (E:=Empty_set) (set_pending no_pending (set_armed None s))) as (s' & Hr & Hok & Hd & Ha & Ht).
    { by apply ok_pending, ok_armed. }
    exists s'. split; [exact Hr|]. split; [done|]. split; [done|]. split; [exact Ht|exact Ha].
  - exists s. split; [done|]. split; [done|]. split; [done|]. split; [by destruct (uncommitted_fabric_index s)|done].
Qed.

Lemma serves_fst m s : serves m s → server_ok (fst (m s)) ∧ table_step (tables_of s) (tables_of (fst (m s))).
Proof. intros (s' & r & Hm & _ & Hs & Ht & _). by rewrite Hm. Qed.

(** A session with a fabric that is let through has an entry in the ACL. *)
Lemma permitted_owner s c required ep cl : permitted s c required ep cl →
  ctx_fabric c = 0 ∨ ctx_fabric c ∈ acl_owners (tables_of s).
Proof.
  intros (n & Hn & Hal). unfold acl_allows in Hal. destruct (Z.eqb_spec (ctx_fabric c) 0) as [|Hnz]; [by left|right].
  rewrite Hn in Hal. unfold check in Hal. destruct (Z.eqb_spec (ctx_fabric c) 0); [done|].
  apply existsb_in in Hal as (e & He & Hm). rewrite !andb_true_iff in Hm. destruct Hm as [ [ [Hf%Z.eqb_eq _] _] _].
  unfold acl_owners, server_acl in *. cbn. rewrite <- Hf. destruct (acl_store s); cbn in *; [|by apply elem_of_nil in He].
  apply list_elem_of_fmap. eauto.
Qed.

Lemma ok_stores a k m s : from_option store_ok True a → from_option keys_ok True k → from_option table_ok True m →
  server_ok s → server_ok (set_stores a k m s).
Proof. intros Ha Hk' Hm []. by constructor. Qed.

Lemma acl_rows s acl a data append c : server_ok s → acl_store s = Some acl → sent c data →
  let s' := set_acl_store (left_by (h_write acl_cluster a data append (acl, c))) s in
  server_ok s' ∧ rows_step (ctx_fabric c) (tables_of s) (tables_of s') ∧
  (ctx_fabric c = 0 → tables_of s' = tables_of s).
Proof.
  intros Hs Ha (Hc & Hb & Hsm). pose proof (so_acl s Hs) as Hok. rewrite Ha in Hok.
  assert (left_by (h_write acl_cluster a data append (acl, c)) = fst (fst (acl_write a data append (acl, c)))) as ->.
  { cbn. by destruct (acl_write a data append (acl, c)) as [ [s' c'] r]. }
  destruct (acl_write_rows a data append acl c Hc Hb Hsm Hok) as (Hok' & Hrows & Hsame).
  cbv zeta. split; [by apply ok_stores; [|apply Hs..|] |]. split.
  - split; [done|split; [done|] ]. unfold drop_fabric, tables_of. cbn. rewrite Ha. cbn. f_equal. f_equal. exact Hrows.
  - intros Hz. unfold tables_of. cbn. by rewrite Ha, Hsame.
Qed.

Lemma keys_rows s k m (w : KeyWorld) f : server_ok s → group_key_store s = Some k →
  keys_ok (fst w) → keys_kept f (k, m) w →
  let s' := set_group_key_store (fst w) s in
  server_ok s' ∧ rows_step f (tables_of s) (tables_of s') ∧ (f = 0 → tables_of s' = tables_of s).
Proof.
  intros Hs Hkey Hok [Hrows Hsame]. cbn [fst] in *. cbv zeta. split; [by apply ok_stores; [apply Hs| |apply Hs|] |]. split.
  - split; [done|split; [done|] ]. unfold drop_fabric, tables_of. cbn. rewrite Hkey. cbn. f_equal. f_equal. exact Hrows.
  - intros Hz. unfold tables_of. cbn. by rewrite Hkey, Hsame.
Qed.

Lemma member_rows s m m' f : server_ok s → group_membership_store s = Some m → table_ok m' →
  member_others f m' = member_others f m →
  let s' := set_group_membership_store m' s in
  server_ok s' ∧ rows_step f (tables_of s) (tables_of s') ∧
  t_acl (tables_of s') = t_acl (tables_of s) ∧ t_keys (tables_of s') = t_keys (tables_of s).
Proof.
  intros Hs Hmem Hok Hrows. cbv zeta. split; [by apply ok_stores; [apply Hs|apply Hs|..] |]. split; [|done].
  split; [done|split; [done|] ]. unfold drop_fabric, tables_of. cbn. rewrite Hmem. cbn. f_equal. f_equal. exact Hrows.
Qed.

(** A request let through, as a step of the tables. *)
Lemma request_step s s' c required ep cl : permitted s c required ep cl →
  rows_step (ctx_fabric c) (tables_of s) (tables_of s') →
  (ctx_fabric c = 0 → t_acl (tables_of s') = t_acl (tables_of s) ∧ t_keys (tables_of s') = t_keys (tables_of s)) →
  machine_step (tables_of s) (tables_of s').
Proof.
  intros Hp Hr Hsame. apply (MRows _ _ (ctx_fabric c)); [done|].
  destruct (permitted_owner _ _ _ _ _ Hp) as [Hz|]; [right|by left]. split; [done|by apply Hsame].
Qed.

Lemma step_sound s s' : server_ok s → server_step s s' →
  server_ok s' ∧ machine_step (tables_of s) (tables_of s').
Proof.
  intros Hs Hstep. destruct Hstep as [now cmd f Hb Hsm|now secret cmd f ctx Hb Hsm Hc Hsec|cmd f ctx Hb Hsm Hc|now| | |
    |acl ep a data append c Ha Hsent Hp|k m ep cmd f c Hkey Hsent Hp|k m ep a data append c Hkey Hsent Hp
    |m d clock ep cmd f c Hm Hep Hsent Hp|m live Hm].
  - destruct (serves_fst _ _ (general_serves f Hb Hsm now cmd s Hs)). by split; [|apply MTable].
  - destruct (operational_serves f Hb Hsm now secret cmd ctx s Hc Hsec Hs) as [Hm|(_ & _ & Hm)].
    + destruct (serves_fst _ _ Hm). by split; [|apply MTable].
    + rewrite Hm. split; [done|]. apply MTable. constructor.
  - destruct (serves_fst _ _ (admin_serves f Hb Hsm cmd ctx s Hc Hs)). by split; [|apply MTable].
  - destruct (expire_at now s Hs) as (s' & -> & Hok & _ & Ht & _). split; [done|]. apply MTable. cbn [fst]. rewrite Ht.
    destruct (uncommitted_fabric_index s) as [i|] eqn:Hu; [|constructor]. destruct (is_expired now s); by constructor.
  - split; [by apply ok_request|]. apply MTable. constructor.
  - split; [by apply ok_removed|]. apply MTable. constructor.
  - split; [by apply ok_window|]. apply MTable. constructor.
  - destruct (acl_rows s acl a data append c Hs Ha Hsent) as (Hok & Hr & Hsame). split; [done|].
    eapply request_step; [exact Hp|done|]. intros Hz. split; [exact (f_equal t_acl (Hsame Hz))|exact (f_equal t_keys (Hsame Hz))].
  - destruct Hsent as (Hc & Hb & Hsm). pose proof (so_keys s Hs) as Hk'. rewrite Hkey in Hk'.
    destruct (group_keys_invoke_rows cmd f (k, m) c Hc Hb Hsm Hk') as [Hok' Hkept].
    destruct (keys_rows s k m _ _ Hs Hkey Hok' Hkept) as (Hok & Hr & Hsame). split; [done|].
    eapply request_step; [exact Hp|exact Hr|]. intros Hz. split; [exact (f_equal t_acl (Hsame Hz))|exact (f_equal t_keys (Hsame Hz))].
  - destruct Hsent as (Hc & Hb & Hsm). pose proof (so_keys s Hs) as Hk'. rewrite Hkey in Hk'.
    destruct (group_keys_write_rows a data append (k, m) c Hc Hb Hsm Hk') as [Hok' Hkept].
    destruct (keys_rows s k m _ _ Hs Hkey Hok' Hkept) as (Hok & Hr & Hsame). split; [done|].
    eapply request_step; [exact Hp|exact Hr|]. intros Hz. split; [exact (f_equal t_acl (Hsame Hz))|exact (f_equal t_keys (Hsame Hz))].
  - destruct Hsent as (Hc & Hb & Hsm). pose proof (so_members s Hs) as Hm'. rewrite Hm in Hm'.
    destruct (groups_invoke_rows clock ep cmd f (m, d) c Hep Hc Hb Hsm Hm') as [Hok' Hkept].
    destruct (member_rows s m _ _ Hs Hm Hok' Hkept) as (Hok & Hr & Hsame). split; [done|].
    eapply request_step; [exact Hp|exact Hr|]. by intros _.
  - pose proof (so_members s Hs) as Hm'. rewrite Hm in Hm'. cbn in Hm'.
    destruct (retain_ok (λ m, bool_decide (gm_endpoint m ∈ live)) m Hm') as [Hok' Hkept].
    split; [by apply ok_stores; [apply Hs|apply Hs|..] |]. apply (MKeep _ _ (λ m, bool_decide (gm_endpoint m ∈ live))).
    unfold keep_members, tables_of. cbn. rewrite Hm. cbn. f_equal. exact (f_equal Some Hkept).
Qed.

Lemma elem_of_filtered {A} (p : A → Z) i j l :
  i ∈ map p (List.filter (λ x, negb (p x =? j)) l) ↔ i ∈ map p l ∧ i ≠ j.
Proof.
  rewrite !list_elem_of_fmap. split.
  - intros (x & -> & [Hx Hj%negb_true_iff%Z.eqb_neq]%elem_of_filter_list). eauto.
  - intros [ (x & -> & Hx) Hj]. exists x. split; [done|]. apply elem_of_filter_list. split; [done|].
    by apply negb_true_iff, Z.eqb_neq.
Qed.

Lemma acl_owners_drop i j t : i ∈ acl_owners (drop_fabric j t) ↔ i ∈ acl_owners t ∧ i ≠ j.
Proof.
  unfold acl_owners, drop_fabric. cbn. destruct (t_acl t); cbn; [by rewrite elem_of_filtered|]. rewrite elem_of_nil. tauto.
Qed.
Lemma key_owners_drop i j t : i ∈ key_owners (drop_fabric j t) ↔ i ∈ key_owners t ∧ i ≠ j.
Proof.
  unfold key_owners, drop_fabric. cbn. destruct (t_keys t) as [ [k m] |]; cbn; rewrite ?elem_of_nil, ?elem_of_app, ?elem_of_filtered; tauto.
Qed.
Lemma member_owners_drop i j t : i ∈ member_owners (drop_fabric j t) ↔ i ∈ member_owners t ∧ i ≠ j.
Proof.
  unfold member_owners, drop_fabric. cbn. destruct (t_members t); cbn; [by rewrite elem_of_filtered|]. rewrite elem_of_nil. tauto.
Qed.

Lemma owners_drop i j t : i ∈ owners (drop_fabric j t) ↔ i ∈ owners t ∧ i ≠ j.
Proof. unfold owners. rewrite !elem_of_app, acl_owners_drop, key_owners_drop, member_owners_drop. tauto. Qed.

Lemma isolated_drop j t : isolated t → isolated (drop_fabric j t).
Proof.
  intros [Ha Hm]. split; intros i; cbn [t_fabrics drop_fabric].
  - rewrite acl_owners_drop, key_owners_drop. intros Hin. assert (i ≠ j) by tauto. rewrite lookup_delete_ne by done.
    apply Ha. tauto.
  - rewrite member_owners_drop. intros [Hin Hne]. rewrite lookup_delete_ne by done. by apply Hm.
Qed.

Lemma isolated_table t t' : isolated t → table_step t t' → isolated t'.
Proof.
  intros Ht Hs. destruct Hs as [t|t j e Hfree _ _ _|t|t j _|t j _|t j l]; try done; try by apply isolated_drop.
  - destruct Ht as [Ha Hm]. split; intros i; unfold install; cbn [t_fabrics]; destruct (decide (i = j)) as [->|Hij];
      rewrite ?lookup_insert_eq, ?lookup_insert_ne by done; try by eauto.
    intros Hin. apply Ha. revert Hin. unfold acl_owners, install. cbn. destruct (t_acl t); cbn; [|done].
    rewrite map_app, elem_of_app. cbn. rewrite list_elem_of_singleton. naive_solver.
  - assert (∀ i, is_Some (t_fabrics t !! i) → is_Some (t_fabrics (rename j l t) !! i)) as Hr.
    { intros i. cbn. destruct (decide (j = i)) as [->|]; [|by rewrite lookup_alter_ne].
      rewrite lookup_alter_eq. intros [e ->]. by eexists. }
    destruct Ht as [Ha Hm]. split; intros i Hin; [by apply Hr, Ha|]. destruct (Hm i Hin); [by left|right; by apply Hr].
Qed.

Lemma isolated_rows f t t' : isolated t → rows_step f t t' →
  f ∈ acl_owners t ∨ f = 0 ∧ t_acl t' = t_acl t ∧ t_keys t' = t_keys t → isolated t'.
Proof.
  intros [Ha Hm] (Hf & _ & Hd) Hwho. split; intros i Hin; rewrite Hf.
  - destruct Hwho as [Hown|(-> & H1 & H2)].
    + destruct (decide (i = f)) as [->|Hne]; [by apply Ha; left|]. apply Ha.
      rewrite <- (and_True (i ∈ acl_owners t)), <- (and_True (i ∈ key_owners t)).
      assert (i ≠ f ↔ True) as <- by done. rewrite <- acl_owners_drop, <- key_owners_drop, <- Hd, acl_owners_drop, key_owners_drop. tauto.
    + apply Ha. unfold acl_owners, key_owners in *. by rewrite <- H1, <- H2.
  - destruct (decide (i = f)) as [->|Hne].
    + destruct Hwho as [Hown|[-> _] ]; [right; by apply Ha; left|by left].
    + apply Hm. apply (member_owners_drop i f t). rewrite <- Hd. by apply member_owners_drop.
Qed.

Lemma isolated_step t t' : isolated t → machine_step t t' → isolated t'.
Proof.
  intros Ht [Hs|f Hr Hw|keep ->]; [by eapply isolated_table|by eapply isolated_rows|].
  destruct Ht as [Ha Hm]. split; [done|]. intros i. cbn. unfold member_owners, keep_members. cbn.
  intros Hin. apply Hm. unfold member_owners. destruct (t_members t) as [l|]; [|done]. cbn in *.
  apply list_elem_of_fmap in Hin as (x & -> & [Hx _]%elem_of_filter_list). apply list_elem_of_fmap. eauto.
Qed.

Lemma runs_sound s s' : server_ok s → rtc server_step s s' →
  server_ok s' ∧ rtc machine_step (tables_of s) (tables_of s').
Proof.
  intros Hs Hrun. revert Hs. induction Hrun as [s|s s1 s' Hstep _ IH]; intros Hs; [by split; [|constructor]|].
  destruct (step_sound s s1 Hs Hstep) as [Hs1 Hm]. destruct (IH Hs1) as [H1 H2]. split; [done|]. by econstructor.
Qed.

Lemma isolated_run t t' : isolated t → rtc machine_step t t' → isolated t'.
Proof. intros Ht Hrun. induction Hrun as [|t t1 t' Hs _ IH]; [done|]. apply IH. by eapply isolated_step. Qed.
End runs.

(** ** Properties *)

Section properties.
Context `{Ec : Ecdsa} `{!EcdsaLaws Ec} `{Hk : Hkdf} `{!HkdfLaws}.

Lemma noc_reply_inj st o st' o' : in_u 8 st → from_option (in_u 8) True o → in_u 8 st' → from_option (in_u 8) True o' →
  noc_reply st o = noc_reply st' o' → st = st' ∧ o = o'.
Proof.
  assert (Hf : ∀ st o, in_u 8 st → from_option (in_u 8) True o → scan_struct_fields (enc_tree (flat (noc_fields st o))) "" =
    Ok (match o with Some i => <[1 := FUint i]> (<[0 := FUint st]> ∅) | None => <[0 := FUint st]> ∅ end)).
  { intros x y Hx Hy. destruct (flat_ok (noc_fields x y)) as [Hwf Hs].
    - apply Forall_cons. split; [by apply (field_uint 8)|]. destruct y; [|constructor]. apply Forall_singleton. by apply (field_uint 8).
    - by destruct y.
    - unfold flat. rewrite scan_at by done. by destruct y. }
  intros H1 H2 H3 H4 Heq. pose proof (Hf st o H1 H2) as E1. pose proof (Hf st' o' H3 H4) as E2.
  apply (f_equal (λ r, match r with RData _ b => b | _ => [] end)) in Heq. unfold noc_reply in Heq. cbv beta iota in Heq.
  rewrite Heq, E2 in E1. clear E2 Heq Hf.
  assert (∀ m m' : gmap Z FieldValue, Ok (E:=CommissionError) m = Ok m' → m !! 0 = m' !! 0 ∧ m !! 1 = m' !! 1) as Hinj by (intros m m' Hm; assert (m = m') as -> by congruence; done).
  destruct (Hinj _ _ E1) as [E2 E3]. destruct o, o'.
  - rewrite !lookup_insert_eq in E3. do 2 rewrite lookup_insert_ne, lookup_insert_eq in E2 by done. split; congruence.
  - rewrite lookup_insert_eq, lookup_insert_ne in E3 by done. done.
  - rewrite lookup_insert_eq, lookup_insert_ne in E3 by done. done.
  - rewrite !lookup_insert_eq in E2. split; congruence.
Qed.

Lemma run_inj {S E A} (s s' : S) (a a' : A) : (s, Ok (E:=E) a) = (s', Ok a') → s = s' ∧ a = a'.
Proof. by intros [= -> ->]. Qed.

(** What an accepted AddNOC did. *)
Lemma add_noc_accepted now fields s s' i : server_ok s → bytes_ok fields → small fields → in_u 8 i →
  handle_add_noc now fields s = (s', Ok (noc_reply NOC_STATUS_OK (Some i))) →
  ∃ f mk, decode_add_noc fields = Ok f ∧ acceptable s f mk ∧ next_fabric_index (store s) = Ok i ∧ installed s f mk i s'.
Proof.
  intros Hs Hb Hsm Hi Hrun. destruct (is_armed now s) eqn:Harm.
  2: { unfold handle_add_noc, answer in Hrun. erewrite bind_err in Hrun by (unfold require_armed, bind, get; rewrite Harm; reflexivity).
       discriminate Hrun. }
  pose proof (decode_add_noc_safe fields Hb Hsm) as Hf. destruct (decode_add_noc fields) as [f|e| |] eqn:Hdec; try done.
  2: { unfold handle_add_noc, answer in Hrun. erewrite bind_ok in Hrun by (unfold require_armed, bind, get; rewrite Harm; reflexivity).
       erewrite bind_err in Hrun by (rewrite Hdec; reflexivity). discriminate Hrun. }
  destruct (add_noc_run fields Hb Hsm now s f Hs Harm Hdec) as [(st & Hr & Hst & _)|(mk & Hacc & [ [_ Hr]|(j & Hnext & Hr)])].
  - rewrite Hr in Hrun. apply run_inj in Hrun as [_ Hrun]. apply noc_reply_inj in Hrun as [? _]; try done; [|unfold in_u; lia].
    unfold NOC_STATUS_OK in *. lia.
  - rewrite Hr in Hrun. discriminate Hrun.
  - destruct (next_index_free _ _ (so_fabrics s Hs) Hnext) as [Hj _].
    destruct Hr as [ [Hr _]|(s1 & Hr & Hins)]; rewrite Hr in Hrun.
    + apply run_inj in Hrun as [_ Hrun]. by apply noc_reply_inj in Hrun as [? _].
    + apply run_inj in Hrun as [-> He].
      apply noc_reply_inj in He as [_ [= ->] ]; try done; [by exists f, mk|]. cbn. unfold in_u. lia.
Qed.

Lemma drop_fresh {A} (p : A → Z) i l : i ∉ map p l → List.filter (λ x, negb (p x =? i)) l = l.
Proof.
  induction l as [|x l IH]; [done|]. cbn. rewrite not_elem_of_cons. intros [Hx Hl].
  destruct (Z.eqb_spec (p x) i); [congruence|]. cbn. by rewrite IH.
Qed.

(** Dropping a fabric that owns nothing changes nothing but the map. *)
Lemma drop_unowned i t : i ∉ owners t → t_fabrics t !! i = None → drop_fabric i t = t.
Proof.
  unfold owners, acl_owners, key_owners, member_owners, drop_fabric. rewrite !not_elem_of_app. intros (Ha & Hk' & Hm) Hf. destruct t as [m u a k g]. cbn in *.
  f_equal; [by apply delete_id| | |].
  - destruct a; [|done]. cbn in *. by rewrite drop_fresh.
  - destruct k as [ [k r] |]; [|done]. cbn in *. rewrite not_elem_of_app in Hk'. destruct Hk' as [Hk1 Hk2]. by rewrite !drop_fresh.
  - destruct g; [|done]. cbn in *. by rewrite drop_fresh.
Qed.

Lemma drop_install i e t : t_fabrics t !! i = None → i ∉ owners t →
  drop_fabric i (with_uncommitted None (install i e t)) = with_uncommitted None t.
Proof.
  intros Hf Ho. transitivity (drop_fabric i (with_uncommitted None t)); [|by apply drop_unowned].
  unfold drop_fabric, with_uncommitted, install. destruct t as [m u a k g]. cbn in *. f_equal.
  - by apply delete_insert_eq.
  - destruct a; [|done]. cbn. rewrite List.filter_app. cbn. by rewrite Z.eqb_refl, app_nil_r.
Qed.

(** Once the fabric is dropped, what it changed meanwhile does not show. *)
Lemma own_then_drop i t t' : own_change i t t' →
  drop_fabric i (with_uncommitted None t') = drop_fabric i (with_uncommitted None t).
Proof.
  intros (Hu & Hd). unfold drop_fabric, with_uncommitted in *. destruct t, t'. cbn in *. simplify_eq. congruence.
Qed.

(** A step that changes nothing of the other fabrics. *)
Definition own_step (i : Z) (s s' : Inner) : Prop := server_step s s' ∧ own_change i (tables_of s) (tables_of s').

Lemma own_run i s s' : rtc (own_step i) s s' → own_change i (tables_of s) (tables_of s').
Proof.
  induction 1 as [s|s s1 s' [_ [H1 H2] ] _ [H3 H4] ]; [done|]. split; congruence.
Qed.

(** A fabric of the table sits under its own index. *)
Lemma fabric_under s i e : server_ok s → t_fabrics (tables_of s) !! i = Some e → fe_index e = i.
Proof.
  intros Hs He. pose proof (so_fabrics s Hs) as [Hnd _]. cbn in He. unfold fabric_map in He.
  apply elem_of_list_to_map_2 in He. by apply list_elem_of_fmap in He as (x & [= -> ->] & _).
Qed.

(** No row of a table without fabric [i] is [i]'s, 0 apart. *)
Lemma free_unowned i t : isolated t → i ≠ 0 → t_fabrics t !! i = None → i ∉ owners t.
Proof.
  intros [Ha Hm] Hnz Hf. unfold owners. rewrite !not_elem_of_app. split_and!; intros Hin.
  - destruct (Ha i (or_introl Hin)). congruence.
  - destruct (Ha i (or_intror Hin)). congruence.
  - destruct (Hm i Hin) as [|[] ]; congruence.
Qed.

(** C3. Whatever bytes a commissioner or an administrator sends, the server
    answers with a well-formed reply, and what happens to its tables is one
    step of the abstract table: nothing, the installation of a fabric under a
    free index together with its administrator's access, the confirmation or
    the rollback of the last one, the removal of a fabric together with every
    row it owns, or a new label.  The one exception is AddNOC on a table that
    holds index 255. *)
Theorem commands_refine_tables now secret cmd fields ctx s : server_ok s → ctx_typed ctx → secret_ok secret →
  bytes_ok fields → small fields →
  serves (handle_general_commissioning now cmd fields) s ∧
  serves (handle_admin_commissioning cmd fields ctx) s ∧
  (serves (handle_operational_credentials now secret cmd fields ctx) s ∨
   is_Some (fabric_map (store s) !! 255) ∧ cmd = CMD_ADD_NOC ∧
   handle_operational_credentials now secret cmd fields ctx s = (s, Panic)).
Proof.
  intros Hs Hc Hsec Hb Hsm. split; [by apply general_serves|]. split; [by apply admin_serves|]. by apply operational_serves.
Qed.

(** What AddNOC with the decoded request [f] may do at [now]. *)
Definition add_noc_decided (now : Z) (s : Inner) (f : AddNocFields) (o : Inner * res Empty_set InvokeReply) : Prop :=
  if is_armed now s then add_noc_outcome s f o else o = (s, Ok (RStatus STATUS_FAILSAFE_REQUIRED)).

(** C14. AddNOC installs a fabric exactly when it should.  Without an armed
    fail-safe it is refused.  With one, a decoded request is refused with a
    status and without effect unless there is room, the administrator is a
    node or a versioned CAT, a root and a key pair are staged, the certificates
    parse, the chain is good up to the staged root, and the NOC carries the
    staged key and names a node and a fabric; then (if the table can be saved)
    exactly that fabric is installed under the next index, unconfirmed, with
    its administrator's access, and the staged material is used up. *)
Theorem add_noc_decides now fields s f : server_ok s → bytes_ok fields → small fields → decode_add_noc fields = Ok f →
  add_noc_decided now s f (handle_add_noc now fields s).
Proof.
  intros Hs Hb Hsm Hdec. unfold add_noc_decided. destruct (is_armed now s) eqn:Harm; [by apply add_noc_run|].
  unfold handle_add_noc, answer. by erewrite bind_err by (unfold require_armed, bind, get; rewrite Harm; reflexivity).
Qed.

(** C12. Isolation: whatever commands the commissioning clusters serve, whatever
    writes and commands the dispatcher lets through to the Access Control, Group
    Key Management and Groups clusters, and whatever expires, each access entry,
    key set and key map row belongs to a fabric of the table, and so does each
    membership unless a session without a fabric (PASE) made it, under index 0,
    which the Groups cluster allows though the other two refuse it. So a fabric
    that is removed or rolled back leaves nothing behind, and the fabric that
    AddNOC installs, whatever index it reuses, starts with its administrator's
    entry and nothing else. *)
Theorem rows_belong_to_live_fabrics s s' : server_ok s → isolated (tables_of s) → rtc server_step s s' →
  isolated (tables_of s') ∧
  ∀ now fields f i s'', bytes_ok fields → small fields → decode_add_noc fields = Ok f → in_u 8 i →
    handle_add_noc now fields s' = (s'', Ok (noc_reply NOC_STATUS_OK (Some i))) →
    i ∉ owners (tables_of s') ∧
    t_acl (tables_of s'') = (λ l, l ++ [admin_row i (an_admin_subject f)]) <$> t_acl (tables_of s') ∧
    t_keys (tables_of s'') = t_keys (tables_of s') ∧ t_members (tables_of s'') = t_members (tables_of s').
Proof.
  intros Hs Hiso Hrun. destruct (runs_sound s s' Hs Hrun) as [Hs' Hm]. pose proof (isolated_run _ _ Hiso Hm) as Hiso'.
  split; [done|]. intros now fields f i s'' Hb Hsm Hdec Hi Hadd.
  destruct (add_noc_accepted now fields s' s'' i Hs' Hb Hsm Hi Hadd) as (f' & mk & Hf & Hacc & Hnext & Hins).
  assert (f' = f) as -> by congruence. destruct Hins as (_ & Ht & _). split.
  - destruct (next_index_free _ _ (so_fabrics s' Hs') Hnext) as [Hr Hfree]. apply free_unowned; [done|lia|].
    by apply fabric_free in Hfree.
  - rewrite Ht. pose proof (decode_add_noc_safe fields Hb Hsm) as Hfok. rewrite Hdec in Hfok.
    destruct (acceptable_typed s' f mk i Hs' Hfok Hacc) as (_ & _ & Hsub). unfold install. cbn [t_acl t_keys t_members].
    by rewrite Hsub.
Qed.

(** C11. The fabric that AddNOC installed is undone if it is still the one marked
    unconfirmed when the fail-safe ends. After AddNOC and any run in which the
    marker stays on its fabric [i], the expiry of the fail-safe and its early
    release both take [i] out of the table together with every row it owns in
    the shared stores, leave every other fabric and row as it was, and disarm;
    on expiry the runtime is told the entry that went. If the run changed
    nothing but [i]'s own data, the table and every shared store are back to
    what they were before AddNOC, with one exception the code has: a fabric
    that an earlier AddNOC of the same window had left unconfirmed is no longer
    marked, and stays. *)
Theorem unconfirmed_fabric_undone now fields s i s1 s2 now' : server_ok s → isolated (tables_of s) →
  bytes_ok fields → small fields → in_u 8 i →
  handle_add_noc now fields s = (s1, Ok (noc_reply NOC_STATUS_OK (Some i))) →
  rtc server_step s1 s2 → uncommitted_fabric_index s2 = Some i →
  let t2 := tables_of s2 in
  let undone := drop_fabric i (with_uncommitted None t2) in
  (is_expired now' s2 = true → ∃ s3, expire_fail_safe now' s2 = (s3, Ok (t_fabrics t2 !! i)) ∧
    tables_of s3 = undone ∧ armed_until s3 = None) ∧
  (∀ release b, decode_arm_fail_safe release = Ok (0, b) → ∃ s3,
    handle_arm_fail_safe now' release s2 = (s3, Ok (status_reply RESP_ARM_FAIL_SAFE)) ∧
    tables_of s3 = undone ∧ armed_until s3 = None) ∧
  (∀ e, t_fabrics t2 !! i = Some e → fe_index e = i) ∧
  (t_fabrics undone !! i = None ∧ i ∉ owners undone ∧
    ∀ j, j ≠ i → t_fabrics undone !! j = t_fabrics t2 !! j ∧ (j ∈ owners undone ↔ j ∈ owners t2)) ∧
  (rtc (own_step i) s1 s2 → undone = with_uncommitted None (tables_of s)).
Proof.
  intros Hs Hiso Hb Hsm Hi Hadd Hrun Hun t2 undone.
  destruct (add_noc_accepted now fields s s1 i Hs Hb Hsm Hi Hadd) as (f & mk & Hf & Hacc & Hnext & (Hs1 & Ht & _)).
  destruct (next_index_free _ _ (so_fabrics s Hs) Hnext) as [Hidx Hfree]. apply fabric_free in Hfree.
  destruct (runs_sound s1 s2 Hs1 Hrun) as [Hs2 _]. split_and!.
  - intros Hexp. destruct (expire_at now' s2 Hs2) as (s3 & Hx & _ & _ & Htab & Harm). rewrite Hexp, Hun in *.
    by exists s3.
  - intros release b Hdec. destruct (rollback_at (E:=InvokeReply) s2 Hs2) as (s3 & Hr & _ & _ & _ & Htab). rewrite Hun in Htab.
    exists (set_armed None (set_pending no_pending s3)). split; [|by split].
    unfold handle_arm_fail_safe, answer. erewrite bind_ok by (rewrite Hdec; reflexivity). cbv beta iota.
    erewrite (bind_ok get) by reflexivity. change (0 =? 0) with true. cbn [orb].
    erewrite (bind_ok (rollback_uncommitted_fabric ;;! _)) by (erewrite bind_ok by exact Hr; reflexivity).
    erewrite (bind_ok (modify _)) by reflexivity. unfold data. by rewrite commissioning_response_at.
  - intros e. by apply fabric_under.
  - apply lookup_delete_eq.
  - unfold undone. rewrite owners_drop. by intros [_ ?].
  - intros j Hj. split; [by apply lookup_delete_ne|]. unfold undone. rewrite owners_drop. tauto.
  - intros Hown. unfold undone, t2. rewrite (own_then_drop _ _ _ (own_run _ _ _ Hown)), Ht.
    apply drop_install; [done|]. by apply free_unowned; [|lia|].
Qed.

Lemma size_run t t' : (Z.of_nat (size (t_fabrics t)) ≤ SUPPORTED_FABRICS) → rtc machine_step t t' →
  Z.of_nat (size (t_fabrics t')) ≤ SUPPORTED_FABRICS.
Proof.
  intros Ht Hrun. induction Hrun as [|t t1 t' Hstep _ IH]; [done|]. apply IH. clear IH.
  assert (∀ i (m : gmap Z FabricEntry), (size (delete i m) ≤ size m)%nat) as Hdel.
  { intros i m. destruct (m !! i) as [e|] eqn:He; [|by rewrite delete_id]. rewrite map_size_delete_Some; [lia|by exists e]. }
  destruct Hstep as [Hs|j (Hf & _) _|keep ->]; [|by rewrite Hf|done]. destruct Hs as [t|t i e Hfree _ _ Hroom|t|t i _|t i _|t i l]; cbn; try done.
  - rewrite map_size_insert_None by done. lia.
  - specialize (Hdel i (t_fabrics t)). lia.
  - specialize (Hdel i (t_fabrics t)). lia.
  - rewrite <- (size_dom (D:=gset Z)), dom_alter_L, size_dom. done.
Qed.

(** Bounds that hold in every run of a server that starts with at most
    five fabrics: it never holds more, their indices are distinct and between
    1 and 255, labels have at most 32 bytes; and a window that the runtime is
    asked to open lasts 180 to 900 seconds, with a 97-byte verifier, 1000 to
    100000 iterations, a salt of 16 to 32 bytes and a 16-bit discriminator. *)
Theorem server_bounds s s' : server_ok s → zlen (fs_entries (store s)) ≤ SUPPORTED_FABRICS → rtc server_step s s' →
  zlen (fs_entries (store s')) ≤ 5 ∧ NoDup (map fe_index (fs_entries (store s'))) ∧
  Forall (λ e, 1 ≤ fe_index e ≤ 255 ∧ zlen (fe_label e) ≤ 32) (fs_entries (store s')) ∧
  ∀ r, pending_window_request s' = Some r → 180 ≤ wr_timeout r ≤ 900 ∧ zlen (wr_verifier r) = 97 ∧
    1000 ≤ wr_iterations r ≤ 100000 ∧ 16 ≤ zlen (wr_salt r) ≤ 32 ∧ 0 ≤ wr_discriminator r < 65536.
Proof.
  intros Hs Hlen Hrun. destruct (runs_sound s s' Hs Hrun) as [Hs' Hm].
  assert (Z.of_nat (size (t_fabrics (tables_of s'))) ≤ SUPPORTED_FABRICS) as Hsize.
  { eapply size_run; [|exact Hm]. cbn. by rewrite size_fabrics by apply Hs. }
  cbn in Hsize. rewrite size_fabrics in Hsize by apply Hs'. split; [exact Hsize|]. split; [apply Hs'|]. split.
  - pose proof (so_entries s' Hs') as He. pose proof (proj2 (so_fabrics s' Hs')) as Hi. rewrite Forall_forall in *.
    intros e Hin. split; [by apply Hi|]. by destruct (He e Hin) as (_ & _ & _ & ? & _).
  - intros r Hr. pose proof (so_request s' Hs') as Hreq. rewrite Hr in Hreq. exact Hreq.
Qed.
End properties.

(** ** Concrete instances *)

Module ToyServer.
Import ToyEcdsa.

#[export] Instance toy_hkdf : Hkdf := λ salt ikm info n,
  replicate (Z.to_nat n) (sum (default [] salt ++ ikm ++ info)).

#[export] Instance toy_hkdf_laws : HkdfLaws.
Proof.
  constructor; intros salt ikm info n; unfold hkdf, toy_hkdf.
  - intros Hn. unfold zlen. rewrite length_replicate. lia.
  - apply Forall_replicate, Z.mod_pos_bound. lia.
Qed.

Definition ok_bytes (m : fin bytes) : bytes := match m with Ok b => b | _ => [] end.

(** The operational key behind [ToyEcdsa.op_key]. *)
Definition op_secret : bytes := 9 :: replicate 31 0.
Definition root_tlv : bytes := Eval vm_compute in ok_bytes (to_tlv rcac).
Definition noc_tlv : bytes := Eval vm_compute in ok_bytes (to_tlv noc).
Definition add_noc : bytes := Eval vm_compute in ok_bytes (encode_add_noc noc_tlv (replicate 16 1) 0x1234 0xFFF1).
Definition ctx : InvokeCtx := {| attestation_challenge := replicate 16 3; ctx_changed := []; ctx_fabric := 0;
  ctx_subject := Subject_node 0; ctx_events := [] |}.

Definition device : DevAttestation :=
  {| paa_der := []; pai_der := []; dac_der := []; dac_private_key := key; certification_declaration := [] |}.
Definition stage (s : Inner) : Inner :=
  set_pending {| op_private_key := Some op_secret; op_public_key := Some op_key; trusted_root_tlv := Some root_tlv |} s.
Definition fresh_with (d : DevAttestation) : Inner :=
  set_stores (Some AclStore_new) (Some GroupKeyStore_new) (Some GroupMembershipStore_new)
    (CommissioningServer_new d FabricStore_new).
Definition fresh : Inner := fresh_with device.
(** Armed, with a root and a key staged. *)
Definition server : Inner := stage (set_armed (arm 0 60) fresh).
Definition installed_server : Inner := Eval vm_compute in fst (handle_add_noc 0 add_noc server).

Lemma bytes_check l : forallb (λ b, (0 <=? b) && (b <? 256)) l = true → bytes_ok l.
Proof.
  rewrite forallb_forall, Forall_forall. intros Hl x Hx%list_elem_of_In. specialize (Hl x Hx). unfold is_byte. lia.
Qed.

Lemma payload_check l : forallb (λ b, (0 <=? b) && (b <? 256)) l = true → (zlen l <? 2 ^ 63) = true → payload l.
Proof. intros H1 H2. split; [by apply bytes_check|]. unfold small. lia. Qed.

Lemma fresh_with_ok `{Ec : Ecdsa} d : dev_ok d → server_ok (fresh_with d).
Proof.
  intros Hd. constructor; try done.
  - by split; [constructor|].
  - constructor.
  - repeat split; try constructor. intros f. done.
  - repeat split; try constructor. done.
Qed.

Lemma fresh_ok : server_ok fresh.
Proof. apply fresh_with_ok. split; [by eexists|]. repeat constructor; done. Qed.

Lemma server_is_ok : server_ok server.
Proof. apply ok_pending; [|by apply ok_armed, fresh_ok]. by apply payload_check. Qed.

Lemma fresh_isolated : isolated (tables_of fresh).
Proof. split; intros i Hi; [destruct Hi as [Hi|Hi] |]; by apply elem_of_nil in Hi. Qed.

Lemma add_noc_bytes : bytes_ok add_noc ∧ small add_noc.
Proof. apply (payload_check add_noc); reflexivity. Qed.

(** A dispatcher on this server's ACL. *)
Definition dispatcher : Node Inner :=
  {| endpoints := []; versions := ∅; version_base := 0; nd_acl := Some server_acl; event_log := EventLog_default |}.

(** The administrator of fabric 1. *)
Definition admin_ctx : InvokeCtx := {| attestation_challenge := replicate 16 3; ctx_changed := []; ctx_fabric := 1;
  ctx_subject := Subject_node 0x1234; ctx_events := [] |}.

(** The administrator writes key set 42; over PASE, with no fabric, endpoint 1
    joins group 5. *)
Definition key_set_fields : bytes := Eval vm_compute in ok_bytes (encode_key_set_write_fields 42 (replicate 16 7)).
Definition with_keys (s : Inner) : Inner :=
  set_group_key_store (fst (left_by (h_invoke keys_cluster CMD_KEY_SET_WRITE key_set_fields
    (GroupKeyStore_new, GroupMembershipStore_new, admin_ctx)))) s.
Definition with_member (s : Inner) : Inner :=
  set_group_membership_store (fst (left_by (h_invoke (groups_cluster (λ _, 0) 1) CMD_ADD_GROUP add_group_fields
    (GroupMembershipStore_new, None, ctx)))) s.

Definition after_keys : Inner := Eval vm_compute in with_keys installed_server.
Definition after_group : Inner := Eval vm_compute in with_member after_keys.

Lemma server_installs : handle_add_noc 0 add_noc server = (installed_server, Ok (noc_reply NOC_STATUS_OK (Some 1))).
Proof. vm_compute. reflexivity. Qed.
End ToyServer.

Import ToyEcdsa ToyServer.

(** A fresh device: ArmFailSafe for 60 s, an unknown command of the window
    cluster, AddNOC out of the blue. *)
Lemma commands_refine_tables_witness :
  let arm_60 := [0x15; 0x24; 0x00; 0x3C; 0x18] in
  serves (handle_general_commissioning 0 CMD_ARM_FAIL_SAFE arm_60) fresh ∧
  serves (handle_admin_commissioning CMD_ARM_FAIL_SAFE arm_60 ctx) fresh ∧
  serves (handle_operational_credentials 0 op_secret CMD_ARM_FAIL_SAFE arm_60 ctx) fresh ∧
  armed_until (fst (handle_general_commissioning 0 CMD_ARM_FAIL_SAFE arm_60 fresh)) = Some 60000000000.
Proof.
  cbv zeta.
  destruct (commands_refine_tables 0 op_secret CMD_ARM_FAIL_SAFE [0x15; 0x24; 0x00; 0x3C; 0x18] ctx fresh) as (H1 & H2 & H3).
  - exact fresh_ok.
  - done.
  - split; [by eexists|]. by split; [apply bytes_check|].
  - by apply bytes_check.
  - done.
  - split; [exact H1|]. split; [exact H2|]. split; [|vm_compute; reflexivity].
    destruct H3 as [H3|([e He] & _)]; [exact H3|]. discriminate He.
Defined.

Lemma add_noc_decides_witness : ∃ f, decode_add_noc add_noc = Ok f ∧
  add_noc_outcome server f (installed_server, Ok (noc_reply NOC_STATUS_OK (Some 1))).
Proof.
  eexists. split; [vm_compute; reflexivity|]. rewrite <- server_installs.
  pose proof (add_noc_decides 0 add_noc server) as H. eapply H; [exact server_is_ok|apply add_noc_bytes|apply add_noc_bytes|].
  vm_compute. reflexivity.
Defined.

Lemma one_step : rtc server_step server installed_server.
Proof.
  apply rtc_once. change installed_server with (fst (installed_server, Ok (E:=Empty_set) (noc_reply NOC_STATUS_OK (Some 1)))).
  rewrite <- server_installs. refine (SOperational server 0 op_secret CMD_ADD_NOC add_noc ctx _ _ _ _); try apply add_noc_bytes; [done|].
  split; [by eexists|]. by split; [apply bytes_check|].
Qed.

Lemma keys_step : own_step 1 installed_server after_keys.
Proof.
  split; [|by split; vm_compute].
  assert (after_keys = with_keys installed_server) as -> by (vm_compute; reflexivity).
  apply (SKeysInvoke installed_server GroupKeyStore_new GroupMembershipStore_new 0 CMD_KEY_SET_WRITE key_set_fields admin_ctx).
  - reflexivity.
  - split; [done|]. by apply payload_check.
  - exists dispatcher. split; [done|]. vm_compute. reflexivity.
Qed.

Lemma group_step : server_step after_keys after_group.
Proof.
  assert (after_group = with_member after_keys) as -> by (vm_compute; reflexivity).
  apply (SGroups after_keys GroupMembershipStore_new None (λ _, 0) 1 CMD_ADD_GROUP add_group_fields ctx).
  - reflexivity.
  - done.
  - split; [done|]. by apply payload_check.
  - exists dispatcher. split; [done|]. vm_compute. reflexivity.
Qed.

(** AddNOC, the administrator's key set, a membership made over PASE, and the
    fail-safe runs out unconfirmed: fabric 1 and its rows are gone, the
    membership of index 0 stays. *)
Lemma rows_belong_to_live_fabrics_witness :
  let expired := fst (expire_fail_safe 60000000000 after_group) in
  isolated (tables_of after_group) ∧ owners (tables_of after_group) = [1; 1; 0] ∧
  isolated (tables_of expired) ∧ owners (tables_of expired) = [0] ∧ fs_entries (store expired) = [].
Proof.
  cbv zeta. assert (rtc server_step server after_group) as Hrun.
  { etransitivity; [exact one_step|]. eapply rtc_l; [exact (proj1 keys_step)|]. apply rtc_once, group_step. }
  split; [|split; [vm_compute; reflexivity|split; [|split; vm_compute; reflexivity] ] ].
  - apply (rows_belong_to_live_fabrics server after_group); [exact server_is_ok|exact fresh_isolated|exact Hrun].
  - apply (rows_belong_to_live_fabrics server (fst (expire_fail_safe 60000000000 after_group)));
      [exact server_is_ok|exact fresh_isolated|]. eapply rtc_r; [exact Hrun|]. apply SExpire.
Defined.

(** A second AddNOC in the same window, with fresh material. *)
Definition twice : Inner := Eval vm_compute in fst (handle_add_noc 0 add_noc (stage installed_server)).

Lemma server_installs_again : handle_add_noc 0 add_noc (stage installed_server) = (twice, Ok (noc_reply NOC_STATUS_OK (Some 2))).
Proof. vm_compute. reflexivity. Qed.

Lemma installed_ok : server_ok installed_server.
Proof. apply (runs_sound server); [exact server_is_ok|exact one_step]. Qed.

Lemma installed_isolated : isolated (tables_of installed_server).
Proof.
  destruct (runs_sound server installed_server server_is_ok one_step) as [_ Hm].
  by apply (isolated_run (tables_of server)); [exact fresh_isolated|].
Qed.

(** Fabric 1, its administrator's entry and the key set it wrote are undone; and
    of two fabrics installed in one window, the second is undone and the first
    stays, unmarked. *)
Lemma unconfirmed_fabric_undone_witness :
  (∃ s3, expire_fail_safe 60000000000 after_keys = (s3, Ok (t_fabrics (tables_of after_keys) !! 1)) ∧
    tables_of s3 = tables_of fresh) ∧
  (∃ s3, expire_fail_safe 60000000000 twice = (s3, Ok (t_fabrics (tables_of twice) !! 2)) ∧
    tables_of s3 = with_uncommitted None (tables_of installed_server)).
Proof.
  split.
  - destruct (unconfirmed_fabric_undone 0 add_noc server 1 installed_server after_keys 60000000000) as (He & _ & _ & _ & Hown).
    + exact server_is_ok.
    + exact fresh_isolated.
    + apply add_noc_bytes.
    + apply add_noc_bytes.
    + done.
    + exact server_installs.
    + apply rtc_once, keys_step.
    + done.
    + destruct (He eq_refl) as (s3 & H1 & H2 & _). exists s3. split; [exact H1|]. rewrite H2.
      apply Hown, rtc_once, keys_step.
  - destruct (unconfirmed_fabric_undone 0 add_noc (stage installed_server) 2 twice twice 60000000000) as (He & _ & _ & _ & Hown).
    + apply ok_pending; [by apply payload_check|exact installed_ok].
    + exact installed_isolated.
    + apply add_noc_bytes.
    + apply add_noc_bytes.
    + done.
    + exact server_installs_again.
    + constructor.
    + done.
    + destruct (He eq_refl) as (s3 & H1 & H2 & _). exists s3. split; [exact H1|]. rewrite H2. apply Hown. constructor.
Defined.

Lemma server_bounds_witness : zlen (fs_entries (store installed_server)) = 1 ∧
  Forall (λ e, 1 ≤ fe_index e ≤ 255 ∧ zlen (fe_label e) ≤ 32) (fs_entries (store installed_server)).
Proof.
  split; [done|]. destruct (server_bounds server installed_server) as (_ & _ & H & _).
  - exact server_is_ok.
  - done.
  - exact one_step.
  - exact H.
Defined.

(** A second AddNOC in the same fail-safe window (with fresh material) replaces
    the marker of the first: on expiry only the second fabric goes, the first
    stays installed though no CommissioningComplete ever confirmed it. *)
Lemma second_add_noc_outlives_fail_safe :
  let twice := fst (handle_add_noc 0 add_noc (stage installed_server)) in
  let expired := fst (expire_fail_safe 60000000000 twice) in
  map fe_index (fs_entries (store twice)) = [1; 2] ∧ uncommitted_fabric_index twice = Some 2 ∧
  map fe_index (fs_entries (store expired)) = [1] ∧ uncommitted_fabric_index expired = None ∧
  owners (tables_of expired) = [1].
Proof. vm_compute. repeat split. Qed.
