(* ===== verification/ImClient.v ===== *)
(** * The controller's Interaction Model client

    Models [crates/mat-controller/src/session/client.rs]: the reads, invokes and
    writes of a [SecureSession], timed ones included, and the collection of a
    chunked report.

    The exchange under it is the class [ImTransport]: a request and the peer's
    first reply (what [im_request] does over [Session]'s [send_reliable] and
    [recv]), and the best-effort closing message.  [NodeTransport] is the
    instance that delivers every message to a node of [DataModel], with the
    world moving on ([tick]) whenever one arrives.  Exchange ids only pair a
    request with its reply and are left to the transport; conversion of report
    values to JSON ([merge_reports]) is left out, so the report readers return
    the decoded chunks. *)

From Stdlib Require Import String.
From stdpp Require Import gmap.
From S2P Require Import Prelude Tlv TlvValue Handler Im Report AccessControl Events DataModel Clusters NodeSafety NodeAccess NodeRead Message Counter Crypto Exchange Session.

Open Scope string_scope.
Open Scope list_scope.
Open Scope Z_scope.

(** [IM_RECV_TIMEOUT] ends the [recv] of a reply that did not ride on the ack. *)
Definition ss_im_request `{Aead} (exchange opc : Z) (payload : bytes) (cfg : MrpConfig) (events : list Event) :
    M SecureSession SessionError (IncomingMessage * list Event) :=
  let! (resp, events) := ss_send_reliable exchange PROTOCOL_ID_INTERACTION_MODEL opc payload cfg events in
  match resp with
  | Some m => ret (m, events)
  | None => ss_recv exchange events
  end.

(** ** The exchange as the client sees it *)

(** A reply is its opcode and its payload.  [im_close] sends a message whose
    outcome the code drops. *)
Class ImTransport (S SE : Type) := {
  im_request : Z → bytes → M S SE (Z * bytes);
  im_close : Z → bytes → S → S
}.

(** [SessionError]: the transport's errors, and the two that the client adds. *)
Inductive ClientError (SE : Type) :=
  | CTransport (e : SE)
  | CIm (e : ImError)
  | CUnexpectedOpcode (op : Z).
Arguments CTransport {SE} e.
Arguments CIm {SE} e.
Arguments CUnexpectedOpcode {SE} op.

Definition MAX_REPORT_CHUNKS : nat := 64.

Section client.
Context {S SE : Type} `{ImTransport S SE}.
Abbreviation CM := (M S (ClientError SE)).
Abbreviation CR := (res (ClientError SE)).

Definition im {A} (m : res ImError A) : CR A := map_err CIm m.

(** [self.im_request(..).await?] on an encoded message. *)
Definition request (opcode : Z) (payload : fin bytes) : CM (Z * bytes) :=
  let! p := lift (ok_fin payload) in
  λ s, let '(s, r) := im_request opcode p s in (s, map_err CTransport r).

Definition close (payload : fin bytes) : CM () :=
  let! p := lift (ok_fin payload) in modify (im_close OPCODE_STATUS_RESPONSE p).

Definition expect_im (msg : Z * bytes) (expected : Z) : CR bytes :=
  let '(op, payload) := msg in
  if op =? expected then Ok payload
  else if op =? OPCODE_STATUS_RESPONSE then
    let? s := im (decode_status_response payload) in Err (CIm (StatusResponse s))
  else Err (CUnexpectedOpcode op).

Definition read_attribute (endpoint cluster attribute : Z) : CM Value :=
  let! msg := request OPCODE_READ_REQUEST (encode_read_request endpoint cluster attribute) in
  let! payload := lift (expect_im msg OPCODE_REPORT_DATA) in
  let! (suppress_response, outcome) := lift (im (decode_single_attribute_report payload)) in
  (if suppress_response then ret () else close (encode_status_response 0)) ;;!
  lift (im outcome).

Definition invoke (endpoint cluster command : Z) (fields_tlv : option bytes) : CM InvokeOutcome :=
  let! msg := request OPCODE_INVOKE_REQUEST (encode_invoke_request endpoint cluster command fields_tlv) in
  let! payload := lift (expect_im msg OPCODE_INVOKE_RESPONSE) in
  let! outcome := lift (im (decode_invoke_response payload)) in
  if negb (io_status outcome =? 0)
  then throw (CIm (CommandStatus (io_status outcome) (io_cluster_status outcome)))
  else ret outcome.

Definition send_timed_request (timeout_ms : Z) : CM () :=
  let! (op, payload) := request OPCODE_TIMED_REQUEST (encode_timed_request timeout_ms) in
  if op =? OPCODE_STATUS_RESPONSE then
    let! s := lift (im (decode_status_response payload)) in
    if negb (s =? 0) then throw (CIm (StatusResponse s)) else ret ()
  else throw (CUnexpectedOpcode op).

Definition invoke_for_data (endpoint cluster command : Z) (fields_tlv : option bytes) (timed_timeout_ms : option Z) :
    CM InvokeResponseData :=
  (match timed_timeout_ms with Some t => send_timed_request t | None => ret () end) ;;!
  let! msg := request OPCODE_INVOKE_REQUEST
    (match timed_timeout_ms with
     | Some _ => encode_invoke_request_timed endpoint cluster command fields_tlv
     | None => encode_invoke_request endpoint cluster command fields_tlv
     end) in
  let! payload := lift (expect_im msg OPCODE_INVOKE_RESPONSE) in
  let! data := lift (im (decode_invoke_response_data payload)) in
  if negb (id_status data =? 0)
  then throw (CIm (CommandStatus (id_status data) (id_cluster_status data)))
  else ret data.

(** [msgs] so far, and the chunks that may still come: the loop's error at
    [msgs.len() > MAX_REPORT_CHUNKS] is the end of [room].  [conv] converts a
    report's data element. *)
Fixpoint collect_reports {D} (conv : Element → IR D) (room : nat) (msg : Z * bytes) (msgs : list (ReportDataOf D)) :
    CM (list (ReportDataOf D)) :=
  let '(op, payload) := msg in
  if op =? OPCODE_REPORT_DATA then
    let! rd := lift (im (decode_report_data_with conv payload)) in
    let msgs := msgs ++ [rd] in
    match room with
    | O => throw (CIm (Malformed "too many report chunks"))
    | Datatypes.S room =>
        if rd_more rd then
          let! msg := request OPCODE_STATUS_RESPONSE (encode_status_response 0) in
          collect_reports conv room msg msgs
        else
          (if rd_suppress rd then ret () else close (encode_status_response 0)) ;;!
          ret msgs
    end
  else if op =? OPCODE_STATUS_RESPONSE then
    let! s := lift (im (decode_status_response payload)) in throw (CIm (StatusResponse s))
  else throw (CUnexpectedOpcode op).

(** The chunks of [read_attribute_json] and [read_cluster_json]. *)
Definition read_reports {D} (conv : Element → IR D) (req : fin bytes) : CM (list (ReportDataOf D)) :=
  let! msg := request OPCODE_READ_REQUEST req in
  collect_reports conv MAX_REPORT_CHUNKS msg [].

Definition write_attribute_tlv (endpoint cluster attribute : Z) (data_tlv : bytes) (timed_ms : option Z) : CM () :=
  (match timed_ms with Some t => send_timed_request t | None => ret () end) ;;!
  let! msg := request OPCODE_WRITE_REQUEST
    (match timed_ms with
     | Some _ => encode_write_request_tlv_timed endpoint cluster attribute data_tlv
     | None => encode_write_request_tlv endpoint cluster attribute data_tlv
     end) in
  let! payload := lift (expect_im msg OPCODE_WRITE_RESPONSE) in
  let! status := lift (im (decode_write_response payload)) in
  if negb (status =? 0) then throw (CIm (AttributeStatus status)) else ret ().
End client.

(** ** Sizes of the messages *)

Lemma retag_size t t' k ch : zlen (enc_tree (Tlv.Node t k ch)) ≤ zlen (enc_tree (Tlv.Node t' k ch)) + 8.
Proof.
  cbn [enc_tree]. unfold enc_elem. rewrite !zlen_app, !zlen_cons, !zlen_app. pose proof (zlen_tag t).
  pose proof (zlen_nonneg (tag_bytes t')). lia.
Qed.

Lemma node_small tag k ch n b : Forall (λ t, zlen (enc_tree t) ≤ n) ch → zlen ch ≤ 4 → 10 + 4 * n ≤ b → 0 ≤ n →
  zlen (enc_tree (Tlv.Node tag k ch)) ≤ b.
Proof. intros Hch Hl Hb Hn. pose proof (zlen_node tag k ch n Hch). nia. Qed.

Lemma ids_small t first ep cl third : zlen (enc_tree (Tlv.Node t KList (ids_tree first ep cl third))) ≤ 100.
Proof.
  apply (node_small _ _ _ 17); [|by destruct third|done|done]. unfold ids_tree.
  apply Forall_app. split; [|destruct third; [|constructor] ]; repeat (apply Forall_cons; split); try constructor; apply zlen_uint_leaf.
Qed.

Definition short (f : option (Tag * list tree)) : Prop := zlen (default [] (struct_raw f)) < 2 ^ 40.

Lemma field_small f : short f → Forall (λ t, zlen (enc_tree t) ≤ 2 ^ 41) (struct_field f) ∧ zlen (struct_field f) ≤ 1.
Proof.
  destruct f as [ [tag ch] |]; [|done]. cbn [struct_field]. intros Hs. split; [|done]. apply Forall_singleton.
  pose proof (retag_size (Context 1) tag KStruct ch). change (zlen (enc_tree (Tlv.Node tag KStruct ch)) < 2 ^ 40) in Hs. lia.
Qed.

Lemma command_small t first ep cl cmd f : short f →
  zlen (enc_tree (Tlv.Node t KStruct (Tlv.Node (Context 0) KList (ids_tree first ep cl cmd) :: struct_field f))) ≤ 2 ^ 44.
Proof.
  intros [Hf Hl]%field_small. apply (node_small _ _ _ (2 ^ 41)); [|rewrite zlen_cons; lia|done|done]. apply Forall_cons. split; [|done].
  etransitivity; [apply ids_small|done].
Qed.

Lemma request_small ep cl cmd f timed : short f →
  small (enc_tree (Tlv.Node Anonymous KStruct (invoke_request_tree ep cl cmd f timed))).
Proof.
  intros Hf. unfold small. eapply Z.le_lt_trans; [apply (node_small _ _ _ (2 ^ 48) (2 ^ 52))|done]; [|done..].
  repeat (apply Forall_cons; split); try done.
  apply (node_small _ _ _ (2 ^ 44)); [|done..]. apply Forall_singleton. by apply command_small.
Qed.

Lemma response_small ib : zlen (enc_tree ib) ≤ 2 ^ 44 → small (enc_tree (Tlv.Node Anonymous KStruct (response_tree ib))).
Proof.
  intros Hib. unfold small. eapply Z.le_lt_trans; [apply (node_small _ _ _ (2 ^ 52) (2 ^ 56))|done]; [|done..].
  repeat (apply Forall_cons; split); try done.
  apply (node_small _ _ _ (2 ^ 48)); [|done..]. apply Forall_singleton.
  apply (node_small _ _ _ (2 ^ 44)); [|done..]. by apply Forall_singleton.
Qed.

Lemma status_small ep cl cmd st cs : zlen (enc_tree (command_status_tree ep cl cmd st cs)) ≤ 2 ^ 44.
Proof.
  apply (node_small _ _ _ 100); [|done..]. repeat (apply Forall_cons; split); [apply ids_small| |constructor].
  apply (node_small _ _ _ 17); [|by destruct cs|done|done]. destruct cs; repeat (apply Forall_cons; split); try constructor; apply zlen_uint_leaf.
Qed.

(** ** The client against a node *)

Section node.
Context {W : Type} (tick : W → W) (rctx : ReadCtx).

(** Every message reaches the node, and its answer the client; a request that
    the server does not answer is the transport's error. *)
#[local] Instance NodeTransport : ImTransport (NodeState (W:=W)) ImServerError := {
  im_request op p := λ '(n, w, c),
    let '(s, r) := handle_im op p rctx (n, tick w, c) in (s, let? o := r in Ok (out_opcode o, out_payload o));
  im_close op p := λ '(n, w, c), fst (handle_im op p rctx (n, tick w, c))
}.

Lemma request_at op (m : fin bytes) p n w c s o : m = Ok p → handle_im op p rctx (n, tick w, c) = (s, Ok o) →
  request op m (n, w, c) = (s, Ok (out_opcode o, out_payload o)).
Proof. intros -> Hh. unfold request, bind, lift. cbn. by rewrite Hh. Qed.

(** When the command runs: after the timed request, if there is one. *)
Definition arrival (timed : option Z) (w : W) : W := match timed with Some _ => tick (tick w) | None => tick w end.

Lemma timed_request_at t n w c : send_timed_request t (n, w, c) = ((n, tick w, c), Ok ()).
Proof.
  assert (∃ p, encode_timed_request t = Ok p) as [p Hp].
  { exists (enc_tree (Tlv.Node Anonymous KStruct [Leaf (Context 0) (VUint t); Leaf (Context 255) (VUint IM_REVISION)])).
    apply to_vec_writes, writes_struct. eauto with emits. }
  unfold send_timed_request. erewrite bind_ok; [|eapply request_at; [exact Hp|vm_compute; reflexivity] ]. reflexivity.
Qed.

(** What the client makes of the dispatcher's answer. *)
Definition answered (o : res Z (InvokeReply * list Change)) (r : res (ClientError ImServerError) InvokeResponseData) : Prop :=
  let of_status st cs :=
    if st =? 0 then Ok {| id_status := 0; id_cluster_status := cs; id_fields := None |}
    else Err (CIm (CommandStatus st cs)) in
  match o with
  | Ok (RStatus st, _) => r = of_status st None
  | Ok (RClusterStatus st cs, _) => r = of_status st (Some cs)
  | Ok (RData _ f, _) =>
      (∃ fields, struct_ok fields ∧ f = default [] (struct_raw fields)) ∧
      ∀ fields, struct_ok fields → f = default [] (struct_raw fields) →
        r = Ok {| id_status := 0; id_cluster_status := None; id_fields := anon_raw fields |}
  | Err st => r = of_status st None
  | _ => False
  end.

Definition reply_fits (o : res Z (InvokeReply * list Change)) : Prop :=
  match o with Ok (RData _ f, _) => zlen f < 2 ^ 40 | _ => True end.

(** The answer's way back: the node's encoding, the client's decoding. *)
Lemma answer_at ep cl cmd f timed o (s : NodeState (W:=W)) :
  ids_ok ep cl (Some cmd) → invoke_result_ok o → reply_fits o →
  let r := {| ir_endpoint := ep; ir_cluster := cl; ir_command := cmd; ir_fields := f; ir_suppress := false; ir_timed := timed |} in
  ∃ out r', invoke_answer r o s = (s, Ok out) ∧ out_opcode out = OPCODE_INVOKE_RESPONSE ∧
    decode_invoke_response_data (out_payload out) = Ok r' ∧
    answered o (if negb (id_status r' =? 0) then Err (CIm (CommandStatus (id_status r') (id_cluster_status r'))) else Ok r').
Proof.
  intros Hi Ho Hfit r.
  assert (∀ st cs, status_ok st cs → ∃ b, encode_invoke_response_status ep cl cmd st cs = Ok b ∧
    decode_invoke_response_data b = Ok {| id_status := st; id_cluster_status := cs; id_fields := None |}) as Hst.
  { intros st cs Hs. eexists. split; [apply response_status_eq|]. apply decode_response_status_at; [done|done|].
    apply response_small, status_small. }
  destruct o as [ [reply ch] |st| |]; try done.
  - destruct Ho as [Hr _]. destruct reply as [st|st cs|rc g].
    + destruct (Hst st None) as (b & Hb & Hd); [done|]. eexists _, _. unfold invoke_answer, bind, lift, encode_reply, ok_fin. cbn [ir_endpoint ir_cluster ir_command r].
      rewrite Hb. split; [reflexivity|]. split; [done|]. split; [exact Hd|]. cbn. by destruct (Z.eqb_spec st 0) as [->|].
    + destruct (Hst st (Some cs)) as (b & Hb & Hd); [done|]. eexists _, _. unfold invoke_answer, bind, lift, encode_reply, ok_fin. cbn [ir_endpoint ir_cluster ir_command r].
      rewrite Hb. split; [reflexivity|]. split; [done|]. split; [exact Hd|]. cbn. by destruct (Z.eqb_spec st 0) as [->|].
    + destruct Hr as [Hrc Hg]. destruct Hi as (He & Hc & _).
      assert (∃ g', g = default [] (struct_raw g') ∧ struct_ok g') as (g' & -> & Hg').
      { destruct Hg as [-> | (tag & ch' & Hwf & -> & Hs)]; [by exists None|]. by exists (Some (tag, ch')). }
      eexists _, _. unfold invoke_answer, bind, lift, encode_reply, ok_fin. cbn [ir_endpoint ir_cluster ir_command r].
      rewrite response_data_eq by done. split; [reflexivity|]. split; [done|]. split.
      * apply decode_response_data_at; [by split|done|]. apply response_small. by apply command_small.
      * cbn. split; [by exists g'|]. intros g2 Hg2 Heq. rewrite Heq in Hfit. f_equal.
        pose proof (response_data_eq ep cl rc g2 Hg2) as He2. rewrite <- Heq, response_data_eq in He2 by done. apply Ok_inj in He2.
        destruct (decode_response_data_at ep cl rc g2) as [_ Hd2]; [by split|done|apply response_small; by apply command_small|].
        destruct (decode_response_data_at ep cl rc g') as [_ Hd1]; [by split|done|apply response_small; apply command_small; unfold short; by rewrite Heq|].
        rewrite He2 in Hd1. congruence.
  - destruct (Hst st None) as (b & Hb & Hd); [done|]. eexists _, _. unfold invoke_answer, bind, lift, ok_fin. cbn [ir_endpoint ir_cluster ir_command r].
    rewrite Hb. split; [reflexivity|]. split; [done|]. split; [exact Hd|]. cbn. by destruct (Z.eqb_spec st 0) as [->|].
Qed.

(** A whole invoke: out, through the node, and back. *)
Lemma invoke_at ep cl cmd f timed n w c o s :
  ids_ok ep cl (Some cmd) → struct_ok f → short f → invoke_result_ok o → reply_fits o →
  invoke_on_endpoint (E:=ImServerError) ep cl cmd (default [] (anon_raw f)) (n, arrival timed w, c) = (s, Ok o) →
  ∃ r, invoke_for_data ep cl cmd (struct_raw f) timed (n, w, c) = (s, r) ∧ answered o r.
Proof.
  intros Hi Hf Hsh Ho Hfit Hrun.
  set (b := match timed with Some _ => true | None => false end).
  assert (match timed with
     | Some _ => encode_invoke_request_timed ep cl cmd (struct_raw f)
     | None => encode_invoke_request ep cl cmd (struct_raw f)
     end = Ok (enc_tree (Tlv.Node Anonymous KStruct (invoke_request_tree ep cl cmd f b)))) as Henc.
  { unfold b. destruct timed; [exact (invoke_request_eq ep cl cmd f true Hf)|exact (invoke_request_eq ep cl cmd f false Hf)]. }
  destruct (answer_at ep cl cmd (default [] (anon_raw f)) b o s Hi Ho Hfit) as (out & r' & Hans & Hop & Hdec & Hr).
  assert (handle_im OPCODE_INVOKE_REQUEST (enc_tree (Tlv.Node Anonymous KStruct (invoke_request_tree ep cl cmd f b))) rctx
    (n, arrival timed w, c) = (s, Ok out)) as Hnode.
  { change (handle_invoke (enc_tree (Tlv.Node Anonymous KStruct (invoke_request_tree ep cl cmd f b))) (n, arrival timed w, c) = (s, Ok out)).
    unfold handle_invoke. erewrite bind_ok by (unfold decode_or, lift; rewrite decode_invoke_request_at by (try done; by apply request_small); reflexivity).
    cbn [ir_endpoint ir_cluster ir_command ir_fields]. erewrite bind_ok by exact Hrun. exact Hans. }
  eexists. split; [|exact Hr].
  assert (∃ w1, (match timed with Some t => send_timed_request t | None => ret () end) (n, w, c) = ((n, w1, c), Ok ()) ∧
    tick w1 = arrival timed w) as (w1 & Hpre & Hw1).
  { destruct timed as [t|]; [exists (tick w); split; [apply timed_request_at|done]|by exists w]. }
  unfold invoke_for_data. erewrite bind_ok by exact Hpre.
  erewrite bind_ok by (eapply request_at; [exact Henc|rewrite Hw1; exact Hnode]). rewrite Hop.
  erewrite bind_ok by reflexivity. erewrite bind_ok by (unfold lift, im; rewrite Hdec; reflexivity).
  by destruct (negb (id_status r' =? 0)).
Qed.
End node.

(** ** Properties *)

(** C37. A remote invoke is a local one: the client's [invoke_for_data] - encoding,
    timed request if asked for, the node's decoding, dispatch, answer, and the
    client's decoding - leaves the node as one call of the dispatcher on the
    caller's fields does, and returns that call's status, or its response fields
    unchanged. *)
Theorem remote_invoke_is_local {W} (I : W → Prop) tick rctx n w c ep cl cmd f timed :
  node_ok I n → I (arrival tick timed w) → ctx_typed c → ids_ok ep cl (Some cmd) → struct_ok f → short f →
  ∃ s' o, invoke_on_endpoint (E:=ImServerError) ep cl cmd (default [] (anon_raw f)) (n, arrival tick timed w, c) = (s', Ok o) ∧
    (reply_fits o → ∃ r,
       invoke_for_data (H:=NodeTransport tick rctx) ep cl cmd (struct_raw f) timed (n, w, c) = (s', r) ∧ answered o r).
Proof.
  intros Hn Hw Hc Hi Hf Hsh.
  assert (bytes_ok (default [] (anon_raw f)) ∧ small (default [] (anon_raw f))) as [Hb Hs].
  { destruct f as [ [tag ch] |]; [|done]. destruct Hf as [ [_ Hch]%wf_children _].
    split; [apply enc_tree_ok; by apply wf_anon_node|].
    change (small (enc_tree (Tlv.Node Anonymous KStruct ch))). pose proof (retag_size Anonymous tag KStruct ch).
    change (zlen (enc_tree (Tlv.Node tag KStruct ch)) < 2 ^ 40) in Hsh. unfold small. lia. }
  pose proof (invoke_on_endpoint_wp (E:=ImServerError) I ep cl cmd _ n _ c Hn Hw Hc Hb Hs) as Hrun. unfold wp in Hrun.
  destruct (invoke_on_endpoint (E:=ImServerError) ep cl cmd (default [] (anon_raw f)) (n, arrival tick timed w, c))
    as [ [ [n' w'] c'] [o|e| |] ] eqn:Ho; try done. destruct Hrun as (_ & _ & _ & Hres).
  exists (n', w', c'), o. split; [done|]. intros Hfit. by apply invoke_at.
Qed.

(** Node 5 toggles the guarded light over the wire; node 6 is refused. *)
Lemma remote_invoke_is_local_witness :
  let toggle k := invoke_for_data (H:=NodeTransport (λ w, w) (read_ctx_for 1 (Subject_node k))) 1 CLUSTER_ON_OFF
    CMD_ON_OFF_TOGGLE None None (guarded_light, (false, false), ctx_for 1 (Subject_node k)) in
  (∃ s' o r, invoke_on_endpoint (E:=ImServerError) 1 CLUSTER_ON_OFF CMD_ON_OFF_TOGGLE [] 
    (guarded_light, (false, false), ctx_for 1 (Subject_node 5)) = (s', Ok o) ∧ toggle 5 = (s', r) ∧ answered o r) ∧
  (let '((n, w, _), r) := toggle 5 in w = (true, false) ∧ is_ok r = true) ∧
  (let '((n, w, _), r) := toggle 6 in w = (false, false) ∧ r = Err (CIm (CommandStatus STATUS_UNSUPPORTED_ACCESS None))).
Proof.
  cbv zeta. split; [|split; by vm_compute].
  destruct (remote_invoke_is_local any_world (λ w, w) (read_ctx_for 1 (Subject_node 5)) guarded_light (false, false)
    (ctx_for 1 (Subject_node 5)) 1 CLUSTER_ON_OFF CMD_ON_OFF_TOGGLE None None) as (s' & o & Ho & Hr); try done.
  - exact guarded_light_ok.
  - destruct Hr as (r & Hr & Ha). 2: { exists s', o, r. split; [exact Ho|]. split; [exact Hr|exact Ha]. }
    assert (snd (s', Ok (E:=ImServerError) o) = Ok (Ok (RStatus STATUS_SUCCESS, [(1, CLUSTER_ON_OFF, ATTR_ON_OFF)]))) as Heq
      by (rewrite <- Ho; vm_compute; reflexivity).
    injection Heq as ->. done.
Defined.

(** ** Chunked reads *)

(** A server that sends its next chunk at every request. *)
#[local] Instance ChunkServer : ImTransport (list bytes) () := {
  im_request _ _ := λ ps, match ps with [] => ([], Err ()) | p :: ps => (ps, Ok (OPCODE_REPORT_DATA, p)) end;
  im_close _ _ ps := ps
}.

Lemma choose {A B} (R : nat → A → B → Prop) l : (∀ i x, l !! i = Some x → ∃ y, R i x y) →
  ∃ k, length k = length l ∧ ∀ i x y, l !! i = Some x → k !! i = Some y → R i x y.
Proof.
  revert R. induction l as [|x l IH]; intros R Hex; [by exists []|].
  destruct (Hex 0%nat x eq_refl) as [y Hy]. destruct (IH (λ i, R (Datatypes.S i))) as (k & Hl & Hk).
  { intros i z Hz. by apply Hex. }
  exists (y :: k). split; [cbn; by rewrite Hl|]. intros [|i] a b; cbn; [by intros [= <-] [= <-]|by apply Hk].
Qed.

Lemma status_request (ps : list bytes) :
  request (SE:=()) OPCODE_STATUS_RESPONSE (encode_status_response 0) ps =
  match ps with [] => ([], Err (CTransport ())) | p :: ps => (ps, Ok (OPCODE_REPORT_DATA, p)) end.
Proof. by destruct ps. Qed.

Lemma collect_step {D} (conv : Element → IR D) room p ps msgs d : decode_report_data_with conv p = Ok d →
  collect_reports (SE:=()) conv room (OPCODE_REPORT_DATA, p) msgs ps =
  match room with
  | O => (ps, Err (CIm (Malformed "too many report chunks")))
  | Datatypes.S room =>
      if rd_more d then
        (let! msg := request OPCODE_STATUS_RESPONSE (encode_status_response 0) in collect_reports conv room msg (msgs ++ [d])) ps
      else (ps, Ok (msgs ++ [d]))
  end.
Proof.
  intros Hd. destruct room as [|room]; cbn [collect_reports]; change (OPCODE_REPORT_DATA =? OPCODE_REPORT_DATA) with true; cbv iota;
    (erewrite bind_ok by (unfold lift, im; rewrite Hd; reflexivity)); cbv zeta; [done|].
  destruct (rd_more d); [done|]. by destruct (rd_suppress d).
Qed.

(** Chunks that say, each, whether another follows: all of them within the
    room, or an error at the first one past it. *)
Lemma collect_at {D} (conv : Element → IR D) room p ps ds msgs :
  length ds = length (p :: ps) →
  (∀ i q d, (p :: ps) !! i = Some q → ds !! i = Some d →
     decode_report_data_with conv q = Ok d ∧ rd_more d = bool_decide (Datatypes.S i ≠ length ds)) →
  collect_reports conv room (OPCODE_REPORT_DATA, p) msgs ps =
  if bool_decide (length ds ≤ room)%nat then ([], Ok (msgs ++ ds))
  else (drop room ps, Err (CIm (Malformed "too many report chunks"))).
Proof.
  revert room p ds msgs. induction ps as [|p' ps IH]; intros room p ds msgs Hl Hds; (destruct ds as [|d ds]; [done|]);
    pose proof (Hds 0%nat p d eq_refl eq_refl) as [Hd Hmore]; rewrite (collect_step _ _ _ _ _ _ Hd); (destruct room as [|room]; [done|]);
    cbv zeta; rewrite Hmore.
  - destruct ds; [|done]. rewrite bool_decide_false by (cbn; lia). rewrite bool_decide_true by (cbn; lia). done.
  - rewrite bool_decide_true by (cbn in *; lia). erewrite bind_ok by (rewrite status_request; reflexivity).
    rewrite (IH room p' ds (msgs ++ [d])); [|cbn in *; lia|].
    + rewrite <- app_assoc. cbn [length app]. destruct (decide (length ds ≤ room)%nat).
      * by rewrite !bool_decide_true by lia.
      * by rewrite !bool_decide_false by lia.
    + intros i q d' Hq Hd'. destruct (Hds (Datatypes.S i) q d' Hq Hd') as [H1 H2]. split; [done|]. rewrite H2.
      cbn [length]. by destruct (decide (Datatypes.S i = length ds)); [rewrite !bool_decide_false by lia|rewrite !bool_decide_true by lia].
Qed.

Lemma concat_carried {A B} (R : A → B → Prop) (bs : list (list A)) (ks : list (list B)) : length ks = length bs →
  (∀ i b k, bs !! i = Some b → ks !! i = Some k → Forall2 R b k) → Forall2 R (concat bs) (concat ks).
Proof.
  revert ks. induction bs as [|b bs IH]; intros [|k ks] Hl Hr; try done. cbn.
  apply Forall2_app; [by apply (Hr 0%nat)|]. apply IH; [by injection Hl|]. intros i. by apply (Hr (Datatypes.S i)).
Qed.

(** A chunked read terminates and is complete: fed with the chunks that the
    node's [read_chunks] cuts (any budget), the client's loop collects every
    report entry, in order, with the values the node read - as long as there are
    at most 64 chunks; a longer stream is given up with an error at its 65th
    chunk, whatever follows. *)
Theorem chunked_read_collected {W} (I : W → Prop) (n : DataModel.Node W) w ctx paths budget req b :
  node_ok I n → I w → values_fit n w ctx → Forall ids_in paths → req = Ok b →
  ∃ entries ps, read_entries n w paths ctx = Ok entries ∧ read_chunks n w paths ctx budget None false = Ok ps ∧
    (Forall small ps →
     if bool_decide (length ps ≤ 64)%nat
     then ∃ ms, read_reports (H:=ChunkServer) data_to_im req ps = ([], Ok ms) ∧
            Forall2 carried entries (concat (map rd_reports ms))
     else read_reports (H:=ChunkServer) data_to_im req ps = (drop 65 ps, Err (CIm (Malformed "too many report chunks")))).
Proof.
  intros Hn Hw Hfit Hp ->.
  destruct (chunks_arrive I n w ctx paths budget None false Hn Hw Hfit Hp) as (es & bs & ps & Hes & <- & Hps & Hne & Hlen & _ & _ & Hdec); [done|].
  exists (concat bs), ps. split; [done|]. split; [done|]. intros Hsm.
  destruct (choose (λ i p d, ∃ b, bs !! i = Some b ∧ Forall2 carried b (rd_reports d) ∧
    decode_report_data_with data_to_im p = Ok d ∧ rd_more d = bool_decide (Datatypes.S i ≠ length ps)) ps) as (ds & Hdl & Hds).
  { intros i p Hi. destruct (Hdec i p Hi) as (b' & Hb & _ & Hd). destruct Hd as (ibs & Hc & Hd).
    { by apply (proj1 (Forall_lookup _ _) Hsm i). }
    eexists. exists b'. split; [done|]. split; [|split; [exact Hd|] ]; [done|]. cbn. apply orb_false_r. }
  destruct ps as [|p ps]; [done|]. unfold read_reports. erewrite bind_ok by reflexivity.
  rewrite (collect_at data_to_im MAX_REPORT_CHUNKS p ps ds []); [|done|].
  - unfold MAX_REPORT_CHUNKS. rewrite Hdl. destruct (decide (length (p :: ps) ≤ 64)%nat); [rewrite !bool_decide_true by done|by rewrite !bool_decide_false by done]. eexists. split; [done|]. cbn [app].
    apply concat_carried; [rewrite length_map; lia|]. intros i b' k Hb Hk.
    rewrite list_lookup_fmap in Hk. destruct (ds !! i) as [d|] eqn:Hd; [|done]. injection Hk as <-.
    destruct (lookup_lt_is_Some_2 (p :: ps) i) as [q Hq]; [rewrite <- Hdl; by eapply lookup_lt_Some|].
    destruct (Hds i q d Hq Hd) as (b'' & Hb'' & Hc & _). congruence.
  - intros i q d Hq Hd. destruct (Hds i q d Hq Hd) as (_ & _ & _ & H1 & H2). rewrite Hdl. done.
Qed.

(** Four entries in two chunks. *)
Lemma chunked_read_collected_witness : ∃ ps ms,
  read_chunks guarded_light (true, false) three_paths (read_ctx_for 1 (Subject_node 5)) 60 None false = Ok ps ∧
  length ps = 2%nat ∧ read_reports (H:=ChunkServer) data_to_im (encode_read_request 1 6 0) ps = ([], Ok ms) ∧
  length (concat (map rd_reports ms)) = 4%nat.
Proof.
  assert (∃ b, encode_read_request 1 6 0 = Ok b) as [b Hb] by (eexists; vm_compute; reflexivity).
  destruct (chunked_read_collected any_world guarded_light (true, false) (read_ctx_for 1 (Subject_node 5)) three_paths 60
    (encode_read_request 1 6 0) b guarded_light_ok Logic.I (guarded_values_fit _ _)) as (es & ps & Hes & Hps & Hread).
  - exact three_paths_ok.
  - exact Hb.
  - assert (read_chunks guarded_light (true, false) three_paths (read_ctx_for 1 (Subject_node 5)) 60 None false = Ok ps) as Hc by exact Hps.
    vm_compute in Hps. injection Hps as <-. destruct Hread as (ms & Hms & Hall); [by repeat (apply Forall_cons; split)|].
    eexists _, ms. split; [exact Hc|]. split; [done|]. split; [exact Hms|]. rewrite <- (Forall2_length _ _ _ Hall).
    vm_compute in Hes. by injection Hes as <-.
Defined.
