(* ===== verification/Handshake.v ===== *)
(** * What the two handshakes share

    Models what [pase.rs] and [case.rs] of [crates/mat-controller/src/] have in
    common: the scan of a message struct ([StructFields] with labelled errors),
    the StatusReport codec, opcodes and session keys of [secure_channel.rs], and
    one round of an unsecured exchange (request, acknowledgement check, reply) as
    a class, with the MRP exchange of [exchange.rs] as its instance.

    SHA-256, HMAC and HKDF are third-party code: parameters. *)

From Stdlib Require Import String.
From S2P Require Import Prelude Tlv TlvValue Message Counter Exchange Crypto Session Fabrics Im CommCodec Certs X509 Attestation.

Open Scope string_scope.
Open Scope list_scope.
Open Scope Z_scope.

(** A value of a call that cannot fail, in any error type. *)
Definition fin_in {E A} (m : fin A) : res E A :=
  match m with Ok a => Ok a | Err e => match e with end | Panic => Panic | OutOfFuel => OutOfFuel end.

(** ** Primitives *)

Class Sha256Laws `{Sha256} : Prop := { sha256_length b : zlen (sha256 b) = 32 ∧ bytes_ok (sha256 b) }.

(** HMAC-SHA256 (key, message). *)
Class Hmac := hmac : bytes → bytes → bytes.
Class HmacLaws `{Hmac} : Prop := { hmac_length k m : zlen (hmac k m) = 32 ∧ bytes_ok (hmac k m) }.

(** ** [secure_channel.rs] *)

Definition OPCODE_SIGMA1 : Z := 0x30.
Definition OPCODE_SIGMA2 : Z := 0x31.
Definition OPCODE_SIGMA3 : Z := 0x32.
Definition GENERAL_CODE_FAILURE : Z := 1.
Definition SC_PROTOCOL_CODE_NO_SHARED_TRUST_ROOTS : Z := 1.
Definition SC_PROTOCOL_CODE_INVALID_PARAMETER : Z := 2.
Definition STATUS_REPORT_SUCCESS : Z * Z * Z := (0, 0, 0).

Definition session_keys_from_hkdf `{Hkdf} (salt ikm : bytes) : SessionKeys :=
  let okm := hkdf (Some salt) ikm (ascii "SessionKeys") 48 in
  {| i2r := zslice 0 16 okm; r2i := zslice 16 32 okm; Session.attestation_challenge := drop 32 okm |}.

(** [None] is [StatusReportTruncated]. *)
Definition parse_status_report (payload : bytes) : option (Z * Z * Z) :=
  if zlen payload <? 8 then None
  else Some (le_val (zslice 0 2 payload), le_val (zslice 2 6 payload), le_val (zslice 6 8 payload)).

(** What a handshake hands to [SecureSession::new]. *)
Record Established := {
  es_local_session_id : Z;
  es_peer_session_id : Z;
  es_keys : SessionKeys;
  es_local_node_id : Z;
  es_peer_node_id : Z
}.

(** ** The scan of a message struct

    A label per failure: not a struct, a TLV error, the end of the input. *)
Section scan.
Context {E : Type} (not_struct tlv truncated : E).

Definition open_err (e : TlvError) : E :=
  match e with Tlv.InvalidType t => if t =? 0 then not_struct else tlv | _ => tlv end.
Definition field_err (e : TlvError) : E :=
  match e with Tlv.Truncated => truncated | _ => tlv end.

(** The [next_scalar] loop. *)
Definition scalar_step {T} (step : T → Element → M Reader E T) (s : T) (el : Element) : M Reader E T :=
  if is_container_start (el_value el) then adapt field_err skip_container ;;! ret s else step s el.
Definition scan_scalars {T} (step : T → Element → M Reader E T) (s : T) : M Reader E T :=
  walk field_err truncated (scalar_step step) s.

Definition open_struct : M Reader E () := adapt open_err StructFields_open.
End scan.

(** A message whose fields are scalars. *)
Definition decode_scalars {T} (not_struct tlv truncated : string) (step : T → Element → M Reader string T) (s : T)
    (payload : bytes) : res string T :=
  snd ((open_struct not_struct tlv ;;! scan_scalars tlv truncated step s) (Reader_new payload)).

(** [<[u8; N]>::try_from(b)] and [uN::try_from(v)]. *)
Definition sized_field (n : Z) (label : string) (b : bytes) : M Reader string bytes :=
  if zlen b =? n then ret b else throw label.
Definition narrow (w : Z) (label : string) (v : Z) : M Reader string Z :=
  lift (ok_or (try_u w v) label).

(** ** Rounds of an unsecured exchange *)

Inductive RoundError (SE : Type) := RExchange (e : SE) | RNotAcked.
Arguments RExchange {SE} e.
Arguments RNotAcked {SE}.

(** A request and its reply (opcode, payload); the flag asks that a reply over
    an unreliable transport acknowledges the request.  [hl_once] sends without
    waiting and drops the outcome. *)
Class HandshakeLink (S SE : Type) := {
  hl_request : bool → Z → bytes → M S (RoundError SE) (Z * bytes);
  hl_once : Z → bytes → S → S
}.

(** An [X] operation on the events still to come. *)
Definition with_events {A} (m : list Event → M ExchangeCore ExchangeError (A * list Event)) :
    M (ExchangeCore * list Event) (RoundError ExchangeError) A := λ '(c, events),
  match m events c with
  | (c, Ok (a, rest)) => ((c, rest), Ok a)
  | (c, Err e) => ((c, events), Err (RExchange e))
  | (c, Panic) => ((c, events), Panic)
  | (c, OutOfFuel) => ((c, events), OutOfFuel)
  end.

Definition ex_round (cfg : MrpConfig) (check : bool) (opc : Z) (payload : bytes) :
    M (ExchangeCore * list Event) (RoundError ExchangeError) (Z * bytes) :=
  let! resp := with_events (send_reliable PROTOCOL_ID_SECURE_CHANNEL opc payload cfg) in
  let! m := (match resp with
             | Some m =>
                 let! (c, _) := get in
                 if check && negb (net_reliable (ex_net c)) &&
                    negb (bool_decide (acked_counter (msg_proto m) = ex_last_sent_counter c))
                 then throw RNotAcked else ret m
             | None => with_events ex_recv
             end) in
  ret (opcode (msg_proto m), msg_payload m).

#[local] Instance UnsecuredLink (cfg : MrpConfig) : HandshakeLink (ExchangeCore * list Event) ExchangeError := {
  hl_request := ex_round cfg;
  hl_once opc payload := λ '(c, events), (fst (send_once PROTOCOL_ID_SECURE_CHANNEL opc payload c), events)
}.

(** ** Proofs *)

Close Scope string_scope.

Lemma status_report_reads g p c : in_u 16 g → in_u 32 p → in_u 16 c →
  parse_status_report (encode_status_report g p c) = Some (g, p, c).
Proof.
  intros Hg Hp Hc. unfold parse_status_report, encode_status_report.
  assert (zlen (le_bytes 2 g ++ le_bytes 4 p ++ le_bytes 2 c) = 8) as -> by zl. change (8 <? 8) with false. cbv iota.
  pose proof (zslice_0_app (le_bytes 2 g) (le_bytes 4 p ++ le_bytes 2 c)) as H1.
  pose proof (zslice_app_mid (le_bytes 2 g) (le_bytes 4 p) (le_bytes 2 c)) as H2.
  pose proof (zslice_app_mid (le_bytes 2 g ++ le_bytes 4 p) (le_bytes 2 c) []) as H3.
  rewrite ?zlen_app, !zlen_le_bytes, ?app_nil_r, <- ?app_assoc in *. cbn [Z.add Z.of_nat] in *.
  change (Z.of_nat 2) with 2 in *. change (2 + Z.of_nat 4) with 6 in *. change (6 + 2) with 8 in *.
  rewrite H1, H2, H3, !le_val_bytes_small; done.
Qed.

Lemma session_keys_sizes `{HkdfLaws} salt ikm : let k := session_keys_from_hkdf salt ikm in
  zlen (i2r k) = 16 ∧ zlen (r2i k) = 16 ∧ zlen (Session.attestation_challenge k) = 16.
Proof.
  cbv zeta. unfold session_keys_from_hkdf. cbn [i2r r2i Session.attestation_challenge].
  pose proof (hkdf_length (Some salt) ikm (ascii "SessionKeys") 48 ltac:(lia)) as Hl.
  rewrite !zlen_zslice by lia. split; [done|]. split; [done|]. unfold zlen in *. rewrite length_drop. lia.
Qed.

(** *** The scan on a flat struct *)

Section scan_at.
Context (not_struct tlv truncated : string).

Lemma reads_open tag ch : wf_tree (Tlv.Node tag KStruct ch) →
  reads (open_struct not_struct tlv) (enc_elem tag VStructStart) ().
Proof.
  intros Hwf. apply reads_adapt. unfold StructFields_open.
  eapply (reads_bind_end _ _ _ (Some (root_el (Tlv.Node tag KStruct ch)))); [exact (reads_root (Tlv.Node tag KStruct ch) Hwf)|]. apply reads_ret.
Qed.

(** A step per leaf, none of which reads on. *)
Inductive steps {T} (step : T → Element → M Reader string T) : T → list (Z * Value) → T → Prop :=
  | steps_nil s : steps step s [] s
  | steps_cons s c v ch s1 s2 :
      reads (step s {| el_tag := Context c; el_value := v |}) [] s1 → steps step s1 ch s2 → steps step s ((c, v) :: ch) s2.

Lemma decode_flat {T} (step : T → Element → M Reader string T) s ch s' :
  Forall field_ok ch → zlen ch ≤ 16 → steps step s ch s' →
  decode_scalars not_struct tlv truncated step s (enc_tree (flat ch)) = Ok s'.
Proof.
  intros Hch Hn Hst. destruct (flat_ok ch Hch Hn) as [Hwf Hs]. unfold decode_scalars. apply reads_all; [|done].
  rewrite enc_tree_split. eapply reads_bind; [by eapply reads_open|]. cbn [inner flat]. pose proof Hwf as [_ Hwch]%wf_children.
  apply walk_at; [done|]. clear Hwf Hwch Hs Hn. induction Hst as [|s c v ch s1 s2 H1 _ IH]; [constructor|].
  apply Forall_cons in Hch as [Hv Hch]. cbn [map]. eapply walks_leaf; [|by apply IH]. unfold scalar_step. cbn [el_value].
  destruct v; try done; by destruct Hv.
Qed.

Lemma reads_sized n label b : zlen b = n → reads (sized_field n label b) [] b.
Proof. intros <-. unfold sized_field. rewrite Z.eqb_refl. apply reads_ret. Qed.
Lemma reads_narrowed w label v : in_u w v → reads (narrow w label v) [] v.
Proof. intros Hv. unfold narrow. rewrite (proj2 (try_u_Some w v v) (conj eq_refl Hv)). apply reads_ret. Qed.

(** *** On arbitrary bytes *)

Lemma safe_open : safe (open_struct not_struct tlv) (λ _, True).
Proof.
  apply safe_adapt. unfold StructFields_open. eapply (safe_bind _ _ (λ _, True)).
  - intros r Hr. eapply wp_mono; [by apply next_wp|..]; cbn; naive_solver.
  - intros [el|] _; [|apply safe_throw]. case_decide; [by apply safe_ret|apply safe_throw].
Qed.

Lemma decode_scalars_safe {T} (step : T → Element → M Reader string T) (I : T → Prop) s payload :
  (∀ s el, I s → wf_element el → safe (step s el) I) → I s → bytes_ok payload → small payload →
  match decode_scalars not_struct tlv truncated step s payload with Ok a => I a | Err _ => True | _ => False end.
Proof.
  intros Hstep Hs. apply safe_reader. eapply safe_bind; [apply safe_open|]. intros _ _. apply walk_safe; [|done].
  intros s' el Hs' Hel _. apply safe_safe1. unfold scalar_step. destruct (is_container_start _); [|by apply Hstep].
  eapply safe_bind; [apply safe_skip|]. intros _ _. by apply safe_ret.
Qed.

Lemma safe_sized n label b : bytes_ok b → safe (sized_field n label b) (λ b, zlen b = n ∧ bytes_ok b).
Proof. intros Hb. unfold sized_field. destruct (Z.eqb_spec (zlen b) n); [by apply safe_ret|apply safe_throw]. Qed.
Lemma safe_narrow w label v : safe (narrow w label v) (in_u w).
Proof.
  unfold narrow. destruct (try_u w v) as [x|] eqn:Hx; [|apply safe_throw]. apply try_u_Some in Hx as [-> Hv]. by apply safe_ret.
Qed.
End scan_at.

(** *** Messages that carry a value *)

Lemma message_at k ch : emits k (map (λ '(c, v), Leaf (Context c) v) ch) → Forall field_ok ch → zlen ch ≤ 16 →
  struct_of k = Ok (enc_tree (flat ch)) ∧ bytes_ok (enc_tree (flat ch)) ∧ small (enc_tree (flat ch)).
Proof.
  intros Hk Hch Hn. destruct (flat_ok ch Hch Hn) as [Hwf Hs]. split; [by apply to_vec_writes, writes_struct|].
  split; [by apply enc_tree_ok|done].
Qed.

(** [b] is a message that [e] writes and [d] reads as [x]. *)
Definition carries {A} (e : fin bytes) (d : bytes → res string A) (x : A) : Prop :=
  ∃ b, e = Ok b ∧ bytes_ok b ∧ small b ∧ d b = Ok x.

Lemma fok_bytes c b ch : 0 ≤ c < 256 → bytes_ok b → zlen b < 2 ^ 32 → Forall field_ok ch → Forall field_ok ((c, VBytes b) :: ch).
Proof. intros Hc Hb Hl Hch. constructor; [by split|done]. Qed.
Lemma fok_uint w c v ch : 0 ≤ c < 256 → 0 ≤ w ≤ 64 → in_u w v → Forall field_ok ch → Forall field_ok ((c, VUint v) :: ch).
Proof. intros Hc Hw Hv Hch. constructor; [by eapply field_uint|done]. Qed.
Lemma fok_bool c v ch : 0 ≤ c < 256 → Forall field_ok ch → Forall field_ok ((c, VBool v) :: ch).
Proof. intros Hc Hch. constructor; [by split|done]. Qed.

Ltac fields_ok := repeat first
  [ apply Forall_nil_2 | apply fok_bool; [lia|] | apply fok_bytes; [lia|done|lia|]
  | apply (fok_uint 16); [lia|lia|done|] | apply (fok_uint 32); [lia|lia|done|] ].
Ltac read_field := first [ apply reads_ret | eapply reads_bind_nil; [first [by apply reads_sized|by apply reads_narrowed]|apply reads_ret] ].
Ltac read_fields := repeat (eapply steps_cons; [read_field|]); apply steps_nil.

Lemma struct_of_emits k ts : emits k ts → struct_of k = Ok (enc_tree (Tlv.Node Anonymous KStruct ts)).
Proof. intros Hem. by apply to_vec_writes, writes_struct. Qed.

(** A decoded field of a fixed size. *)
Definition has_size (n : Z) (b : bytes) : Prop := zlen b = n ∧ bytes_ok b.
