(* ===== verification/Spake.v ===== *)
(** * SPAKE2+

    Models [crates/mat-controller/src/spake2p.rs]: the prover (controller), the
    verifier (device) and the verifier material of a commissioning window.

    The curve (P-256 and its SEC1 encoding), PBKDF2, SHA-256, HMAC and HKDF are
    third-party code: parameters, with the group laws and the lengths as named
    laws.  The random scalars are arguments. *)

From Stdlib Require Import String.
From S2P Require Import Prelude Tlv TlvValue Fabrics Certs X509 Attestation Handshake.

Open Scope string_scope.
Open Scope list_scope.
Open Scope Z_scope.

(** ** Primitives *)

(** [pbkdf2 password salt iterations n]: [n] bytes of PBKDF2-HMAC-SHA256. *)
Class Pbkdf2 := pbkdf2 : bytes → bytes → Z → Z → bytes.

(** Points ([ProjectivePoint]); [sec1] is [to_affine().to_sec1_point(false)],
    [from_sec1] is [Sec1Point::from_bytes] followed by
    [AffinePoint::from_sec1_point].  Scalars are integers modulo [order]. *)
Class Curve := {
  point : Type;
  point_eq_dec :: EqDecision point;
  identity : point;
  generator : point;
  p_add : point → point → point;
  p_neg : point → point;
  p_mul : Z → point → point;
  order : Z;
  sec1 : point → bytes;
  from_sec1 : bytes → option point
}.

Definition SPAKE_M : bytes := [
  0x02; 0x88; 0x6e; 0x2f; 0x97; 0xac; 0xe4; 0x6e; 0x55; 0xba; 0x9d; 0xd7; 0x24; 0x25; 0x79; 0xf2;
  0x99; 0x3b; 0x64; 0xe1; 0x6e; 0xf3; 0xdc; 0xab; 0x95; 0xaf; 0xd4; 0x97; 0x33; 0x3d; 0x8f; 0xa1;
  0x2f].

Definition SPAKE_N : bytes := [
  0x03; 0xd8; 0xbb; 0xd6; 0xc6; 0x39; 0xc6; 0x29; 0x37; 0xb0; 0x4d; 0x99; 0x7f; 0x38; 0xc3; 0x77;
  0x07; 0x19; 0xc6; 0x29; 0xd7; 0x01; 0x4d; 0x49; 0xa2; 0x4b; 0x4f; 0x98; 0xba; 0xa1; 0x29; 0x2b;
  0x49].

(** The group of prime order; uncompressed encodings take 65 bytes, that of the
    identity takes one. *)
Class CurveLaws (C : Curve) : Prop := {
  order_range : 1 < order < 2 ^ 256;
  order_prime a b : (a * b) mod order = 0 → a mod order = 0 ∨ b mod order = 0;
  p_add_comm p q : p_add p q = p_add q p;
  p_add_assoc p q r : p_add p (p_add q r) = p_add (p_add p q) r;
  p_add_identity p : p_add p identity = p;
  p_add_neg p : p_add p (p_neg p) = identity;
  p_mul_add a p q : p_mul a (p_add p q) = p_add (p_mul a p) (p_mul a q);
  p_mul_mul a b p : p_mul a (p_mul b p) = p_mul (a * b) p;
  generator_point : generator ≠ identity;
  p_mul_identity a p : p_mul a p = identity ↔ a mod order = 0 ∨ p = identity;
  sec1_point p : p ≠ identity → zlen (sec1 p) = 65 ∧ bytes_ok (sec1 p) ∧ from_sec1 (sec1 p) = Some p;
  sec1_identity : sec1 identity = [0];
  from_sec1_M : ∃ m, from_sec1 SPAKE_M = Some m ∧ m ≠ identity;
  from_sec1_N : ∃ n, from_sec1 SPAKE_N = Some n ∧ n ≠ identity
}.

(** ** Definitions *)

Inductive SpakeError := BadPoint | Identity.

Section spake.
Context `{C : Curve} `{Pbkdf2} `{Sha256} `{Hmac} `{Hkdf}.

Definition p_sub (p q : point) : point := p_add p (p_neg q).

Definition scalar_from_be_bytes_mod_n (b : bytes) : Z := foldl (λ acc b, (acc * 256 + b) mod order) 0 b.

(** [Scalar::to_bytes]. *)
Definition scalar_bytes (z : Z) : bytes := be_bytes 32 z.

Definition derive_w0_w1 (passcode : Z) (salt : bytes) (iterations : Z) : Z * Z :=
  let ws := pbkdf2 (le_bytes 4 passcode) salt iterations 80 in
  (scalar_from_be_bytes_mod_n (zslice 0 40 ws), scalar_from_be_bytes_mod_n (drop 40 ws)).

Definition decode_point (b : bytes) : res SpakeError point :=
  match from_sec1 b with
  | None => Err BadPoint
  | Some p => if bool_decide (p = identity) then Err Identity else Ok p
  end.

(** [expect]s 65 bytes. *)
Definition encode_point (p : point) : fin bytes :=
  if zlen (sec1 p) =? 65 then Ok (sec1 p) else Panic.

(** The two constants, [expect]ed to decode. *)
Definition constant (b : bytes) : fin point :=
  match decode_point b with Ok p => Ok p | OutOfFuel => OutOfFuel | _ => Panic end.

Definition compute_verifier (passcode : Z) (salt : bytes) (iterations : Z) : fin bytes :=
  let '(w0, w1) := derive_w0_w1 passcode salt iterations in
  let? l := encode_point (p_mul w1 generator) in
  Ok (scalar_bytes w0 ++ l).

Definition tt_elem (b : bytes) : bytes := le_bytes 8 (zlen b) ++ b.

Definition build_transcript (context id_p id_v p_a p_b : bytes) (z v : point) (w0 : Z) : fin bytes :=
  let? m := constant SPAKE_M in
  let? n := constant SPAKE_N in
  let? m_bytes := encode_point m in
  let? n_bytes := encode_point n in
  let? z_bytes := encode_point z in
  let? v_bytes := encode_point v in
  Ok (tt_elem context ++ tt_elem id_p ++ tt_elem id_v ++ tt_elem m_bytes ++ tt_elem n_bytes ++
      tt_elem p_a ++ tt_elem p_b ++ tt_elem z_bytes ++ tt_elem v_bytes ++ tt_elem (scalar_bytes w0)).

Definition split_hash (tt : bytes) : bytes * bytes :=
  let hash := sha256 tt in (zslice 0 16 hash, zslice 16 32 hash).

Definition confirmation_keys (k_a : bytes) : bytes * bytes :=
  let kc := hkdf (Some []) k_a (ascii "ConfirmationKeys") 32 in (zslice 0 16 kc, drop 16 kc).

Record PakeShared := { c_a : bytes; expected_c_b : bytes; ps_k_e : bytes }.

Record Spake2pProver := { pr_w0 : Z; pr_w1 : Z; pr_x : Z }.

Definition prover_p_a (s : Spake2pProver) : fin bytes :=
  let? m := constant SPAKE_M in
  encode_point (p_add (p_mul (pr_x s) generator) (p_mul (pr_w0 s) m)).

Definition prover_transcript (s : Spake2pProver) (p_b context id_p id_v : bytes) : res SpakeError bytes :=
  let? p_b_point := decode_point p_b in
  let? n := fin_in (constant SPAKE_N) in
  let t := p_sub p_b_point (p_mul (pr_w0 s) n) in
  let z := p_mul (pr_x s) t in
  let v := p_mul (pr_w1 s) t in
  let? p_a := fin_in (prover_p_a s) in
  fin_in (build_transcript context id_p id_v p_a p_b z v (pr_w0 s)).

Definition prover_finish (s : Spake2pProver) (p_b context id_p id_v : bytes) : res SpakeError PakeShared :=
  let? trans := prover_transcript s p_b context id_p id_v in
  let '(k_a, k_e) := split_hash trans in
  let '(kc_a, kc_b) := confirmation_keys k_a in
  let? p_a := fin_in (prover_p_a s) in
  Ok {| c_a := hmac kc_a p_b; expected_c_b := hmac kc_b p_a; ps_k_e := k_e |}.

Record PakeVerifierShared := { c_b : bytes; expected_c_a : bytes; pv_k_e : bytes }.

Record Spake2pVerifier := { vf_w0 : Z; vf_l : point; vf_y : Z }.

Definition from_passcode (passcode : Z) (salt : bytes) (iterations y : Z) : Spake2pVerifier :=
  let '(w0, w1) := derive_w0_w1 passcode salt iterations in
  {| vf_w0 := w0; vf_l := p_mul w1 generator; vf_y := y |}.

Definition from_verifier_material (material : bytes) (y : Z) : res SpakeError Spake2pVerifier :=
  let w0 := scalar_from_be_bytes_mod_n (zslice 0 32 material) in
  let? l := decode_point (drop 32 material) in
  Ok {| vf_w0 := w0; vf_l := l; vf_y := y |}.

Definition verifier_p_b (s : Spake2pVerifier) : fin bytes :=
  let? n := constant SPAKE_N in
  encode_point (p_add (p_mul (vf_y s) generator) (p_mul (vf_w0 s) n)).

Definition verifier_finish (s : Spake2pVerifier) (p_a context id_p id_v : bytes) : res SpakeError PakeVerifierShared :=
  let? p_a_point := decode_point p_a in
  let? m := fin_in (constant SPAKE_M) in
  let z := p_mul (vf_y s) (p_sub p_a_point (p_mul (vf_w0 s) m)) in
  let v := p_mul (vf_y s) (vf_l s) in
  let? p_b := fin_in (verifier_p_b s) in
  let? trans := fin_in (build_transcript context id_p id_v p_a p_b z v (vf_w0 s)) in
  let '(k_a, k_e) := split_hash trans in
  let '(kc_a, kc_b) := confirmation_keys k_a in
  Ok {| c_b := hmac kc_b p_a; expected_c_a := hmac kc_a p_b; pv_k_e := k_e |}.
End spake.

(** ** Proofs *)

Close Scope string_scope.

Section group.
Context `{C : Curve} `{!CurveLaws C}.

Lemma p_sub_add p q : p_sub (p_add p q) q = p.
Proof. unfold p_sub. by rewrite <- p_add_assoc, p_add_neg, p_add_identity. Qed.

Lemma p_sub_identity p q : p_sub p q = identity → p = q.
Proof.
  unfold p_sub. intros Hp. rewrite <- (p_add_identity p), <- (p_add_neg q), (p_add_comm q), p_add_assoc, Hp.
  by rewrite p_add_comm, p_add_identity.
Qed.

Lemma encode_at p : p ≠ identity → encode_point p = Ok (sec1 p) ∧ zlen (sec1 p) = 65 ∧ bytes_ok (sec1 p) ∧ decode_point (sec1 p) = Ok p.
Proof.
  intros Hp. destruct (sec1_point p Hp) as (Hl & Hb & Hd). unfold encode_point, decode_point. rewrite Hl, Hd. by rewrite bool_decide_false.
Qed.

Lemma encode_identity : encode_point identity = Panic.
Proof. unfold encode_point. by rewrite sec1_identity. Qed.

Lemma encode_inv p b : encode_point p = Ok b → p ≠ identity ∧ b = sec1 p.
Proof.
  destruct (decide (p = identity)) as [->|Hp]; [by rewrite encode_identity|]. rewrite (proj1 (encode_at p Hp)). by intros [= <-].
Qed.

Lemma decode_safe b : returns (decode_point b).
Proof. unfold decode_point. by repeat case_match. Qed.

Lemma constants : ∃ m n, constant SPAKE_M = Ok m ∧ m ≠ identity ∧ constant SPAKE_N = Ok n ∧ n ≠ identity.
Proof.
  destruct from_sec1_M as (m & Hm & Hm'), from_sec1_N as (n & Hn & Hn'). exists m, n. unfold constant, decode_point.
  rewrite Hm, Hn. by rewrite !bool_decide_false.
Qed.

Lemma scalar_range b : 0 ≤ scalar_from_be_bytes_mod_n b < order.
Proof.
  pose proof order_range as Ho. unfold scalar_from_be_bytes_mod_n.
  assert (∀ acc, 0 ≤ acc < order → 0 ≤ foldl (λ acc b, (acc * 256 + b) mod order) acc b < order) as Hf; [|apply Hf; lia].
  induction b as [|x b IH]; intros acc Hacc; cbn [foldl]; [done|]. apply IH. apply Z.mod_pos_bound. lia.
Qed.

Lemma scalar_mod b : scalar_from_be_bytes_mod_n b = le_val (rev b) mod order.
Proof.
  pose proof order_range as Ho. unfold scalar_from_be_bytes_mod_n. induction b as [|x b IH] using rev_ind; [done|].
  rewrite foldl_app, rev_app_distr. cbn [foldl rev app le_val]. rewrite IH.
  rewrite (Z.add_comm x), (Z.mul_comm 256), <- Z.add_mod_idemp_l, Z.mul_mod_idemp_l, Z.add_mod_idemp_l by lia. done.
Qed.

Lemma scalar_round z : 0 ≤ z < order → scalar_from_be_bytes_mod_n (scalar_bytes z) = z.
Proof.
  intros Hz. pose proof order_range as Ho. rewrite scalar_mod. unfold scalar_bytes, be_bytes.
  rewrite rev_involutive, le_val_bytes_small by (change (256 ^ Z.of_nat 32) with (2 ^ 256); lia). by apply Z.mod_small.
Qed.

Lemma zlen_scalar z : zlen (scalar_bytes z) = 32 ∧ bytes_ok (scalar_bytes z).
Proof.
  unfold scalar_bytes, be_bytes. split; [unfold zlen; by rewrite length_rev, length_le_bytes|apply List.Forall_rev, le_bytes_ok].
Qed.

Lemma mul_nonzero a b : a mod order ≠ 0 → b mod order ≠ 0 → (a * b) mod order ≠ 0.
Proof. intros Ha Hb Hab. destruct (order_prime a b Hab); done. Qed.

Lemma mul_point a p : a mod order ≠ 0 → p ≠ identity → p_mul a p ≠ identity.
Proof. intros Ha Hp Hm. apply p_mul_identity in Hm as [?|?]; done. Qed.
End group.

Section agreement.
Context `{C : Curve} `{!CurveLaws C} `{Kdf : Pbkdf2} `{Hash : Sha256} `{Mac : Hmac} `{Hk : Hkdf}.

Lemma derive_range passcode salt iterations w0 w1 : derive_w0_w1 passcode salt iterations = (w0, w1) →
  0 ≤ w0 < order ∧ 0 ≤ w1 < order.
Proof. unfold derive_w0_w1. intros [= <- <-]. split; apply scalar_range. Qed.

(** The material of a window reconstructs the verifier of its passcode. *)
Lemma material_verifier passcode salt iterations material y : compute_verifier passcode salt iterations = Ok material →
  zlen material = 97 ∧ bytes_ok material ∧
  from_verifier_material material y = Ok (from_passcode passcode salt iterations y).
Proof.
  unfold compute_verifier, from_passcode, from_verifier_material. destruct (derive_w0_w1 _ _ _) as [w0 w1] eqn:Hw.
  apply derive_range in Hw as [Hw0 Hw1]. destruct (encode_point (p_mul w1 generator)) as [l|[]| |] eqn:Hl; cbn [res_bind]; try done.
  intros <-%Ok_inj. apply encode_inv in Hl as [Hne ->]. destruct (encode_at _ Hne) as (_ & Hlen & Hb & Hdec).
  destruct (zlen_scalar w0) as [Hs1 Hs2]. split; [rewrite zlen_app; lia|]. split; [by apply Forall_app|].
  pose proof (zslice_0_app (scalar_bytes w0) (sec1 (p_mul w1 generator))) as H0. pose proof (drop_zlen_app (scalar_bytes w0) (sec1 (p_mul w1 generator))) as H1.
  rewrite Hs1 in H0, H1. change (Z.to_nat 32) with 32%nat in H1. rewrite H0, H1, Hdec. cbn [res_bind]. by rewrite scalar_round.
Qed.

(** [compute_verifier] panics on one scalar only. *)
Lemma compute_verifier_at passcode salt iterations : snd (derive_w0_w1 passcode salt iterations) ≠ 0 →
  ∃ material, compute_verifier passcode salt iterations = Ok material.
Proof.
  unfold compute_verifier. destruct (derive_w0_w1 _ _ _) as [w0 w1] eqn:Hw. cbn [snd]. intros Hne. apply derive_range in Hw as [_ Hw1].
  assert (p_mul w1 generator ≠ identity) as Hp by (apply mul_point; [rewrite Z.mod_small; done|apply generator_point]).
  rewrite (proj1 (encode_at _ Hp)). by eexists.
Qed.

Lemma transcript_at context id_p id_v p_a p_b z v w0 : z ≠ identity → v ≠ identity →
  ∃ trans, build_transcript context id_p id_v p_a p_b z v w0 = Ok trans.
Proof.
  intros Hz Hv. destruct constants as (m & n & Hm & Hm' & Hn & Hn'). unfold build_transcript. rewrite Hm, Hn. cbn [res_bind].
  rewrite (proj1 (encode_at _ Hm')); cbn [res_bind]. rewrite (proj1 (encode_at _ Hn')); cbn [res_bind]. rewrite (proj1 (encode_at _ Hz)); cbn [res_bind]. rewrite (proj1 (encode_at _ Hv)); cbn [res_bind]. by eexists.
Qed.

Lemma transcript_inv context id_p id_v p_a p_b z v w0 :
  match build_transcript context id_p id_v p_a p_b z v w0 with
  | Ok _ => z ≠ identity ∧ v ≠ identity
  | Panic => z = identity ∨ v = identity
  | _ => False
  end.
Proof.
  destruct (decide (z = identity)) as [->|Hz].
  - destruct constants as (m & n & Hm & Hm' & Hn & Hn'). unfold build_transcript. rewrite Hm, Hn. cbn [res_bind].
    rewrite (proj1 (encode_at _ Hm')); cbn [res_bind]. rewrite (proj1 (encode_at _ Hn')); cbn [res_bind]. rewrite encode_identity. by left.
  - destruct (decide (v = identity)) as [->|Hv].
    + destruct constants as (m & n & Hm & Hm' & Hn & Hn'). unfold build_transcript. rewrite Hm, Hn. cbn [res_bind].
      rewrite (proj1 (encode_at _ Hm')); cbn [res_bind]. rewrite (proj1 (encode_at _ Hn')); cbn [res_bind]. rewrite (proj1 (encode_at _ Hz)); cbn [res_bind]. rewrite encode_identity. by right.
    + by destruct (transcript_at context id_p id_v p_a p_b z v w0 Hz Hv) as [t ->].
Qed.

Lemma shared_sizes `{!HmacLaws} `{!Sha256Laws} trans k_a k_e : split_hash trans = (k_a, k_e) → zlen k_a = 16 ∧ zlen k_e = 16.
Proof.
  unfold split_hash. intros [= <- <-]. destruct (sha256_length trans) as [Hl _]. rewrite !zlen_zslice by lia. done.
Qed.

(** The two ends share everything when the verifier holds the prover's [w0] and
    the point of its [w1]. *)
Lemma spake_agrees (pr : Spake2pProver) (vf : Spake2pVerifier) a b context id_p id_v :
  vf_w0 vf = pr_w0 pr → vf_l vf = p_mul (pr_w1 pr) generator →
  pr_w1 pr mod order ≠ 0 → pr_x pr mod order ≠ 0 → vf_y vf mod order ≠ 0 →
  prover_p_a pr = Ok a → verifier_p_b vf = Ok b →
  ∃ sh sh', prover_finish pr b context id_p id_v = Ok sh ∧ verifier_finish vf a context id_p id_v = Ok sh' ∧
    c_a sh = expected_c_a sh' ∧ expected_c_b sh = c_b sh' ∧ ps_k_e sh = pv_k_e sh'.
Proof.
  intros Hw0 Hl Hw1 Hx Hy Ha Hb. destruct constants as (m & n & Hm & _ & Hn & _).
  set (w0 := pr_w0 pr) in *. set (x := pr_x pr) in *. set (y := vf_y vf) in *.
  assert (prover_p_a pr = encode_point (p_add (p_mul x generator) (p_mul w0 m))) as Ea by (unfold prover_p_a; by rewrite Hm).
  assert (verifier_p_b vf = encode_point (p_add (p_mul y generator) (p_mul w0 n))) as Eb by (unfold verifier_p_b; rewrite Hn; by rewrite Hw0).
  rewrite Ea in Ha. rewrite Eb in Hb. destruct (encode_inv _ _ Ha) as [Hpa ->]. destruct (encode_inv _ _ Hb) as [Hpb ->].
  destruct (encode_at _ Hpa) as (_ & _ & _ & Hda). destruct (encode_at _ Hpb) as (_ & _ & _ & Hdb).
  assert (p_mul (x * y) generator ≠ identity) as Hz by (apply mul_point; [by apply mul_nonzero|apply generator_point]).
  assert (p_mul (pr_w1 pr * y) generator ≠ identity) as Hv by (apply mul_point; [by apply mul_nonzero|apply generator_point]).
  destruct (transcript_at context id_p id_v (sec1 (p_add (p_mul x generator) (p_mul w0 m))) (sec1 (p_add (p_mul y generator) (p_mul w0 n)))
    _ _ w0 Hz Hv) as [trans Ht].
  assert (prover_transcript pr (sec1 (p_add (p_mul y generator) (p_mul w0 n))) context id_p id_v = Ok trans) as Hp.
  { unfold prover_transcript. rewrite Hdb, Hn. cbn [res_bind fin_in]. fold w0 x. rewrite Ea, Ha, p_sub_add, !p_mul_mul. cbn [res_bind fin_in]. by rewrite Ht. }
  unfold prover_finish, verifier_finish. rewrite Hp, Hda, Hm. cbn [res_bind fin_in]. rewrite Ea, Ha. rewrite Hw0. fold y.
  rewrite Eb, Hb, Hl, p_sub_add, !p_mul_mul. cbn [res_bind fin_in]. rewrite (Z.mul_comm y x), (Z.mul_comm y), Ht. cbn [fin_in res_bind].
  destruct (split_hash trans) as [k_a k_e]. destruct (confirmation_keys k_a) as [kc_a kc_b]. cbn [res_bind].
  do 2 eexists. split; [reflexivity|]. split; [reflexivity|]. done.
Qed.

(** What the device's half of the exchange does with any share. *)
Lemma verifier_finish_outcome (vf : Spake2pVerifier) b p_a context id_p id_v m :
  vf_y vf mod order ≠ 0 → vf_l vf ≠ identity → verifier_p_b vf = Ok b → constant SPAKE_M = Ok m →
  match verifier_finish vf p_a context id_p id_v with
  | Ok _ => ∃ p, from_sec1 p_a = Some p ∧ p ≠ identity ∧ p ≠ p_mul (vf_w0 vf) m
  | Err _ => from_sec1 p_a = None ∨ from_sec1 p_a = Some identity
  | Panic => from_sec1 p_a = Some (p_mul (vf_w0 vf) m) ∧ p_mul (vf_w0 vf) m ≠ identity
  | OutOfFuel => False
  end.
Proof.
  intros Hy Hl Hb Hm. unfold verifier_finish. rewrite Hm, Hb. unfold decode_point. destruct (from_sec1 p_a) as [p|]; [|by left].
  case_bool_decide as Hp; [right; by subst|]. cbn [res_bind fin_in].
  pose proof (transcript_inv context id_p id_v p_a b (p_mul (vf_y vf) (p_sub p (p_mul (vf_w0 vf) m))) (p_mul (vf_y vf) (vf_l vf)) (vf_w0 vf)) as Ht.
  destruct (build_transcript _ _ _ _ _ _ _ _) as [trans|[]| |]; cbn [res_bind fin_in]; [|destruct Ht as [Hz|Hv]|done].
  - destruct (split_hash trans) as [k_a k_e]. destruct (confirmation_keys k_a). exists p. split; [done|]. split; [done|]. intros ->. destruct Ht as [Hz _].
    apply Hz, p_mul_identity. right. unfold p_sub. by rewrite p_add_neg.
  - apply p_mul_identity in Hz as [?|Hz]; [done|]. by apply p_sub_identity in Hz as ->.
  - by apply mul_point in Hv.
Qed.

Lemma verifier_sizes `{!HmacLaws} `{!Sha256Laws} vf p_a context id_p id_v sh : verifier_finish vf p_a context id_p id_v = Ok sh →
  zlen (c_b sh) = 32 ∧ bytes_ok (c_b sh) ∧ zlen (expected_c_a sh) = 32 ∧ zlen (pv_k_e sh) = 16.
Proof.
  unfold verifier_finish. destruct (decode_point p_a); try done. destruct (constant SPAKE_M) as [m|[]| |]; try done. cbn [res_bind fin_in].
  destruct (verifier_p_b vf) as [b|[]| |]; try done. cbn [res_bind fin_in]. destruct (build_transcript _ _ _ _ _ _ _ _) as [t|[]| |]; try done. cbn [res_bind fin_in].
  destruct (split_hash t) as [k_a k_e] eqn:Hs. apply shared_sizes in Hs as [_ Hs]. destruct (confirmation_keys k_a) as [kc_a kc_b].
  intros [= <-]. cbn. destruct (hmac_length kc_b p_a), (hmac_length kc_a b). done.
Qed.

Lemma prover_sizes `{!HmacLaws} `{!Sha256Laws} pr p_b context id_p id_v sh : prover_finish pr p_b context id_p id_v = Ok sh →
  zlen (c_a sh) = 32 ∧ bytes_ok (c_a sh) ∧ zlen (expected_c_b sh) = 32 ∧ zlen (ps_k_e sh) = 16.
Proof.
  unfold prover_finish. destruct (prover_transcript pr p_b context id_p id_v) as [t|e| |]; try done. cbn [res_bind].
  destruct (split_hash t) as [k_a k_e] eqn:Hs. apply shared_sizes in Hs as [_ Hs]. destruct (confirmation_keys k_a) as [kc_a kc_b].
  destruct (prover_p_a pr) as [a|[]| |]; try done. intros [= <-]. cbn. destruct (hmac_length kc_a p_b), (hmac_length kc_b a). done.
Qed.

Lemma shares_ok pr a : prover_p_a pr = Ok a → zlen a = 65 ∧ bytes_ok a.
Proof.
  destruct constants as (m & n & Hm & _). unfold prover_p_a. rewrite Hm. cbn [res_bind]. intros [Hp ->]%encode_inv. by destruct (encode_at _ Hp) as (_ & ? & ? & _).
Qed.
Lemma verifier_share_ok vf b : verifier_p_b vf = Ok b → zlen b = 65 ∧ bytes_ok b.
Proof.
  destruct constants as (m & n & _ & _ & Hn & _). unfold verifier_p_b. rewrite Hn. cbn [res_bind]. intros [Hp ->]%encode_inv. by destruct (encode_at _ Hp) as (_ & ? & ? & _).
Qed.
End agreement.

(** ** A small curve

    The group of order three, to evaluate the definitions on. *)
Module ToyCurve.
Inductive pt := P0 | P1 | P2.
#[local] Instance pt_eq_dec : EqDecision pt.
Proof. solve_decision. Defined.
Definition to_z (p : pt) : Z := match p with P0 => 0 | P1 => 1 | P2 => 2 end.
Definition of_z (z : Z) : pt := match z mod 3 with 0 => P0 | 1 => P1 | _ => P2 end.
Definition enc (p : pt) : bytes := match p with P0 => [0] | _ => 4 :: replicate 63 0 ++ [to_z p] end.
Definition dec (b : bytes) : option pt :=
  if bool_decide (b = [0]) then Some P0
  else if bool_decide (b = enc P1 ∨ b = SPAKE_M) then Some P1
  else if bool_decide (b = enc P2 ∨ b = SPAKE_N) then Some P2 else None.

#[local] Instance toy_curve : Curve := {
  point := pt; identity := P0; generator := P1;
  p_add p q := of_z (to_z p + to_z q); p_neg p := of_z (- to_z p); p_mul a p := of_z (a * to_z p);
  order := 3; sec1 := enc; from_sec1 := dec
}.

Lemma of_z_mod z : of_z (z mod 3) = of_z z.
Proof. unfold of_z. by rewrite Z.mod_mod. Qed.
Lemma to_of z : to_z (of_z z) = z mod 3.
Proof. unfold of_z. pose proof (Z.mod_pos_bound z 3 ltac:(lia)). assert (z mod 3 = 0 ∨ z mod 3 = 1 ∨ z mod 3 = 2) as [Hz|[Hz|Hz]] by lia; by rewrite Hz. Qed.
Lemma of_z_0 z : of_z z = P0 ↔ z mod 3 = 0.
Proof. pose proof (to_of z) as Hz. destruct (of_z z); cbn in Hz; split; intros; try done; lia. Qed.
Lemma prime_3 a b : (a * b) mod 3 = 0 → a mod 3 = 0 ∨ b mod 3 = 0.
Proof.
  rewrite Z.mul_mod by lia. pose proof (Z.mod_pos_bound a 3 ltac:(lia)). pose proof (Z.mod_pos_bound b 3 ltac:(lia)).
  assert (a mod 3 = 0 ∨ a mod 3 = 1 ∨ a mod 3 = 2) as [Ha|[Ha|Ha]] by lia; rewrite Ha; [by left|..];
    assert (b mod 3 = 0 ∨ b mod 3 = 1 ∨ b mod 3 = 2) as [Hb|[Hb|Hb]] by lia; rewrite Hb; by (right + left).
Qed.

#[local] Instance toy_curve_laws : CurveLaws toy_curve.
Proof.
  split; cbn.
  - lia.
  - apply prime_3.
  - intros p q. by rewrite Z.add_comm.
  - intros p q r. rewrite !to_of. rewrite <- (of_z_mod (_ + _ mod 3)), <- (of_z_mod (_ mod 3 + _)). by rewrite Z.add_mod_idemp_r, Z.add_mod_idemp_l, Z.add_assoc by lia.
  - by intros [].
  - by intros [].
  - intros a p q. rewrite !to_of, <- of_z_mod, <- (of_z_mod (_ + _)). by rewrite Z.mul_mod_idemp_r, <- Z.add_mod, Z.mul_add_distr_l by lia.
  - intros a b p. rewrite to_of, <- of_z_mod, <- (of_z_mod (_ * _ * _)). by rewrite Z.mul_mod_idemp_r, Z.mul_assoc by lia.
  - done.
  - intros a p. rewrite of_z_0. split.
    + intros [Ha|Hp]%prime_3; [by left|right]. by destruct p.
    + intros [Ha|Hp]; [|subst; by rewrite Z.mul_0_r]. rewrite <- Z.mul_mod_idemp_l, Ha by lia. done.
  - intros [] Hp; [done| |]; (split; [reflexivity|]; split; [|reflexivity]; by vm_compute; repeat constructor).
  - done.
  - exists P1. by split.
  - exists P2. by split.
Qed.
End ToyCurve.

(** Toy primitives for the same purpose: enough structure to tell inputs apart. *)
Module ToyHash.
Definition digest (b : bytes) : Z := foldl (λ acc x, (acc * 31 + x + 7) mod 251) 1 b.

#[local] Instance toy_sha256 : Sha256 := λ b, map (λ i, digest (i :: b)) (seqZ 0 32).
#[local] Instance toy_hmac : Hmac := λ k m, map (λ i, digest (i :: k ++ m)) (seqZ 0 32).
#[local] Instance toy_hkdf : Hkdf := λ salt ikm info n, map (λ i, digest (i :: default [] salt ++ ikm ++ info)) (seqZ 0 n).
(** Both scalars are the passcode's low byte. *)
#[local] Instance toy_pbkdf2 : Pbkdf2 := λ password salt iterations n,
  replicate 39 0 ++ [hd 0 password] ++ replicate 39 0 ++ [hd 0 password].

Lemma digest_byte b : 0 ≤ digest b < 256.
Proof.
  unfold digest. assert (∀ acc, 0 ≤ acc < 256 → 0 ≤ foldl (λ acc x, (acc * 31 + x + 7) mod 251) acc b < 256) as Hd; [|apply Hd; lia].
  induction b as [|x b IH]; intros acc Hacc; cbn [foldl]; [done|]. apply IH. pose proof (Z.mod_pos_bound (acc * 31 + x + 7) 251). lia.
Qed.
Lemma digests f n : 0 ≤ n → zlen (map (λ i, digest (f i)) (seqZ 0 n)) = n ∧ bytes_ok (map (λ i, digest (f i)) (seqZ 0 n)).
Proof.
  intros Hn. split; [unfold zlen; rewrite length_map, length_seqZ; lia|]. apply List.Forall_map, Forall_forall. intros i _. apply digest_byte.
Qed.
#[local] Instance toy_sha256_laws : Sha256Laws.
Proof. constructor. intros b. by apply digests. Qed.
#[local] Instance toy_hmac_laws : HmacLaws.
Proof. constructor. intros k m. by apply digests. Qed.
#[local] Instance toy_hkdf_laws : HkdfLaws.
Proof.
  constructor; intros salt ikm info n; unfold hkdf, toy_hkdf; [by apply digests|]. apply List.Forall_map, Forall_forall. intros i _. apply digest_byte.
Qed.
End ToyHash.
