(* ===== verification/Pase.v ===== *)
(** * PASE: the passcode handshake

    Models [crates/mat-controller/src/pase.rs] (the message codecs and the
    initiator [establish]) and [crates/mat-device/src/core/pase.rs] (the
    responder's state machine), with the driver of
    [crates/mat-device/src/net/pase.rs] that answers a failed message with a
    StatusReport and ends the exchange.

    Random draws (nonces, session ids, scalars) are arguments. *)

From Stdlib Require Import String.
From S2P Require Import Prelude Tlv TlvValue Message Counter Exchange Crypto Session Fabrics Im CommCodec Certs X509 Attestation Handshake Spake.

Open Scope string_scope.
Open Scope list_scope.
Open Scope Z_scope.

Definition OPCODE_PBKDF_PARAM_REQUEST : Z := 0x20.
Definition OPCODE_PBKDF_PARAM_RESPONSE : Z := 0x21.
Definition OPCODE_PASE_PAKE1 : Z := 0x22.
Definition OPCODE_PASE_PAKE2 : Z := 0x23.
Definition OPCODE_PASE_PAKE3 : Z := 0x24.
Definition PAKE_CONTEXT_PREFIX : bytes := ascii "CHIP PAKE V1 Commissioning".
Definition PBKDF_ITERATIONS_MIN : Z := 1000.
Definition PBKDF_ITERATIONS_MAX : Z := 100000.
Definition PBKDF_SALT_LEN_MIN : Z := 16.
Definition PBKDF_SALT_LEN_MAX : Z := 32.

(** [(lo..=hi).contains(&v)]. *)
Definition within (lo hi v : Z) : bool := (lo <=? v) && (v <=? hi).

(** The detail of the refusal, if any. *)
Definition validate_pbkdf_params (iterations salt_len : Z) : option string :=
  if negb (within PBKDF_ITERATIONS_MIN PBKDF_ITERATIONS_MAX iterations) then Some "pbkdf iterations out of range"
  else if negb (within PBKDF_SALT_LEN_MIN PBKDF_SALT_LEN_MAX salt_len) then Some "pbkdf salt length out of range"
  else None.

(** ** Messages

    A decoder's error is the label of [PaseError::Malformed]. *)

Definition pase_scalars {T} := decode_scalars (T:=T) "top-level struct" "tlv" "truncated".

Definition encode_pbkdf_param_request (initiator_random : bytes) (session_id : Z) : fin bytes :=
  struct_of (put_bytes (Context 1) initiator_random ;;! put_uint (Context 2) session_id ;;!
             put_uint (Context 3) 0 ;;! put_bool (Context 4) false ;;! end_container).

Record PbkdfParamRequest := {
  initiator_random : bytes;
  initiator_session_id : Z;
  has_pbkdf_parameters : bool
}.

Definition pbkdf_request_step (s : option bytes * option Z * option bool) (el : Element) :
    M Reader string (option bytes * option Z * option bool) :=
  let '(r, i, h) := s in
  match el_tag el, el_value el with
  | Context 1, VBytes b => let! b := sized_field 32 "initiator random length" b in ret (Some b, i, h)
  | Context 2, VUint v => let! v := narrow 16 "session id" v in ret (r, Some v, h)
  | Context 4, VBool v => ret (r, i, Some v)
  | _, _ => ret s
  end.

Definition decode_pbkdf_param_request (payload : bytes) : res string PbkdfParamRequest :=
  let? (r, i, h) := pase_scalars pbkdf_request_step (None, None, None) payload in
  let? r := ok_or r "initiator random" in
  let? i := ok_or i "initiator session id" in
  let? h := ok_or h "has pbkdf parameters" in
  Ok {| initiator_random := r; initiator_session_id := i; has_pbkdf_parameters := h |}.

Record PbkdfParamResponse := {
  responder_session_id : Z;
  pr_iterations : Z;
  pr_salt : bytes
}.

Definition encode_pbkdf_param_response (initiator_random responder_random : bytes) (responder_session_id iterations : Z)
    (salt : bytes) : fin bytes :=
  struct_of (put_bytes (Context 1) initiator_random ;;! put_bytes (Context 2) responder_random ;;!
             put_uint (Context 3) responder_session_id ;;!
             (start_struct (Context 4) ;;! put_uint (Context 1) iterations ;;! put_bytes (Context 2) salt ;;! end_container) ;;!
             end_container).

Definition pbkdf_params_step (s : option Z * option bytes) (el : Element) : M Reader string (option Z * option bytes) :=
  match el_tag el, el_value el with
  | Context 1, VUint v => let! v := narrow 32 "iterations" v in ret (Some v, snd s)
  | Context 2, VBytes b => ret (fst s, Some b)
  | _, _ => ret s
  end.

Definition pbkdf_response_step (s : option Z * (option Z * option bytes)) (el : Element) :
    M Reader string (option Z * (option Z * option bytes)) :=
  match el_tag el, el_value el with
  | Context 3, VUint v => let! v := narrow 16 "responder session id" v in ret (Some v, snd s)
  | Context 4, VStructStart =>
      let! p := scan_scalars "tlv" "truncated pbkdf parameters" pbkdf_params_step (snd s) in ret (fst s, p)
  | _, (VStructStart | VArrayStart | VListStart) => adapt (λ _, "tlv") skip_container ;;! ret s
  | _, _ => ret s
  end.

Definition decode_pbkdf_param_response (payload : bytes) : res string PbkdfParamResponse :=
  let? (sid, (iterations, salt)) :=
    snd ((open_struct "top-level struct" "tlv" ;;!
          walk (field_err "tlv" "truncated") "truncated" pbkdf_response_step (None, (None, None))) (Reader_new payload)) in
  let? sid := ok_or sid "responder session id" in
  if sid =? 0 then Err "responder session id must be non-zero" else
  let? iterations := ok_or iterations "iterations" in
  let? salt := ok_or salt "salt" in
  Ok {| responder_session_id := sid; pr_iterations := iterations; pr_salt := salt |}.

Definition encode_pake1 (p_a : bytes) : fin bytes := struct_of (put_bytes (Context 1) p_a ;;! end_container).

(** The decoder of a message whose field 1 has [n] bytes. *)
Definition field1_step (n : Z) (label : string) (s : option bytes) (el : Element) : M Reader string (option bytes) :=
  match el_tag el, el_value el with
  | Context 1, VBytes b => let! b := sized_field n label b in ret (Some b)
  | _, _ => ret s
  end.

Definition decode_pake1 (payload : bytes) : res string bytes :=
  let? p_a := pase_scalars (field1_step 65 "pA length") None payload in ok_or p_a "pA".

Definition encode_pake2 (p_b c_b : bytes) : fin bytes :=
  struct_of (put_bytes (Context 1) p_b ;;! put_bytes (Context 2) c_b ;;! end_container).

Definition pake2_step (s : option bytes * option bytes) (el : Element) : M Reader string (option bytes * option bytes) :=
  match el_tag el, el_value el with
  | Context 1, VBytes b => let! b := sized_field 65 "pB length" b in ret (Some b, snd s)
  | Context 2, VBytes b => let! b := sized_field 32 "cB length" b in ret (fst s, Some b)
  | _, _ => ret s
  end.

Definition decode_pake2 (payload : bytes) : res string (bytes * bytes) :=
  let? (p_b, c_b) := pase_scalars pake2_step (None, None) payload in
  let? p_b := ok_or p_b "pB" in
  let? c_b := ok_or c_b "cB" in
  Ok (p_b, c_b).

Definition encode_pake3 (c_a : bytes) : fin bytes := struct_of (put_bytes (Context 1) c_a ;;! end_container).

Definition decode_pake3 (payload : bytes) : res string bytes :=
  let? c_a := pase_scalars (field1_step 32 "cA length") None payload in ok_or c_a "cA".

Definition pake_context `{Sha256} (request_bytes response_bytes : bytes) : bytes :=
  sha256 (PAKE_CONTEXT_PREFIX ++ request_bytes ++ response_bytes).

Definition pase_session_keys `{Hkdf} (k_e : bytes) : SessionKeys := session_keys_from_hkdf [] k_e.

(** The report that frees the other end's slot. *)
Definition failure_report (code : Z) : bytes :=
  encode_status_report GENERAL_CODE_FAILURE PROTOCOL_ID_SECURE_CHANNEL code.

(** ** The initiator *)

Inductive PaseError (SE : Type) :=
  | PaExchange (e : SE)
  | PaMalformed (what : string)
  | PaSpake (e : SpakeError)
  | PaConfirmMismatch
  | PaStatusReport (general_code protocol_code : Z)
  | PaNotAcked.
Arguments PaExchange {SE} e.
Arguments PaMalformed {SE} what.
Arguments PaSpake {SE} e.
Arguments PaConfirmMismatch {SE}.
Arguments PaStatusReport {SE} general_code protocol_code.
Arguments PaNotAcked {SE}.

Section initiator.
Context {S SE : Type} `{HandshakeLink S SE}.
Context `{C : Curve} `{Pbkdf2} `{Sha256} `{Hmac} `{Hkdf}.
Abbreviation P := (M S (PaseError SE)).

Definition pase_round (opc : Z) (payload : bytes) : P (Z * bytes) := λ s,
  let '(s, r) := hl_request true opc payload s in
  (s, map_err (λ e, match e with RExchange e => PaExchange e | RNotAcked => PaNotAcked end) r).

Definition malformed {A} (m : res string A) : P A := lift (map_err PaMalformed m).

(** The opcode of a reply: the expected one, a StatusReport, anything else. *)
Definition pase_expect (expected : Z) (label : string) (msg : Z * bytes) : P bytes :=
  let '(op, payload) := msg in
  if op =? expected then ret payload
  else if op =? OPCODE_STATUS_REPORT then
    match parse_status_report payload with
    | Some (general_code, _, protocol_code) => throw (PaStatusReport general_code protocol_code)
    | None => throw (PaMalformed "status report")
    end
  else throw (PaMalformed label).

Definition pase_abort : P () := modify (hl_once OPCODE_STATUS_REPORT (failure_report SC_PROTOCOL_CODE_INVALID_PARAMETER)).

Definition pase_establish (passcode : Z) (initiator_random : bytes) (local_session_id x : Z) : P Established :=
  let! req := lift (fin_in (encode_pbkdf_param_request initiator_random local_session_id)) in
  let! msg := pase_round OPCODE_PBKDF_PARAM_REQUEST req in
  let! resp_payload := pase_expect OPCODE_PBKDF_PARAM_RESPONSE "unexpected opcode after PBKDFParamRequest" msg in
  let! resp := malformed (decode_pbkdf_param_response resp_payload) in
  match validate_pbkdf_params (pr_iterations resp) (zlen (pr_salt resp)) with
  | Some what => pase_abort ;;! throw (PaMalformed what)
  | None =>
  let context := pake_context req resp_payload in
  let '(w0, w1) := derive_w0_w1 passcode (pr_salt resp) (pr_iterations resp) in
  let prover := {| pr_w0 := w0; pr_w1 := w1; pr_x := x |} in
  let! p_a := lift (fin_in (prover_p_a prover)) in
  let! pake1 := lift (fin_in (encode_pake1 p_a)) in
  let! msg2 := pase_round OPCODE_PASE_PAKE1 pake1 in
  let! payload2 := pase_expect OPCODE_PASE_PAKE2 "unexpected opcode after Pake1" msg2 in
  let! (p_b, c_b) := malformed (decode_pake2 payload2) in
  let! shared := lift (map_err PaSpake (prover_finish prover p_b context [] [])) in
  if negb (bool_decide (expected_c_b shared = c_b)) then pase_abort ;;! throw PaConfirmMismatch else
  let! pake3 := lift (fin_in (encode_pake3 (c_a shared))) in
  let! (op3, payload3) := pase_round OPCODE_PASE_PAKE3 pake3 in
  if negb (op3 =? OPCODE_STATUS_REPORT) then throw (PaMalformed "expected StatusReport after Pake3") else
  match parse_status_report payload3 with
  | None => throw (PaMalformed "status report")
  | Some (general_code, _, protocol_code) =>
      if negb ((general_code =? 0) && (protocol_code =? 0)) then throw (PaStatusReport general_code protocol_code) else
      ret {| es_local_session_id := local_session_id; es_peer_session_id := responder_session_id resp;
             es_keys := pase_session_keys (ps_k_e shared); es_local_node_id := 0; es_peer_node_id := 0 |}
  end
  end.
End initiator.

(** ** The responder ([core/pase.rs]) *)

Inductive PaseSecret := Passcode (p : Z) | VerifierMaterial (m : bytes).

Record PaseVerifierConfig := {
  pc_secret : PaseSecret;
  pc_salt : bytes;
  pc_iterations : Z;
  pc_responder_session_id : Z
}.

Inductive PaseState :=
  | PIdle
  | PAwaitPake1 (context : bytes) (peer_session_id : Z)
  | PAwaitPake3 (expected_c_a k_e : bytes) (peer_session_id : Z)
  | PEstablished.

Record PaseResponderCore := { pr_config : PaseVerifierConfig; pr_state : PaseState }.

Definition PaseResponderCore_new (c : PaseVerifierConfig) : PaseResponderCore := {| pr_config := c; pr_state := PIdle |}.
Definition set_pase_state (st : PaseState) (s : PaseResponderCore) : PaseResponderCore :=
  {| pr_config := pr_config s; pr_state := st |}.

Inductive PaseOutput :=
  | PReply (payload : bytes) (opc : Z)
  | PDone (reply : bytes) (opc : Z) (keys : SessionKeys) (peer_session_id : Z).

Inductive PaseCoreError :=
  | PUnexpectedMessage (op : Z)
  | PDecode (what : string)
  | PSpake (e : SpakeError)
  | PConfirmMismatch.

Section responder.
Context `{C : Curve} `{Pbkdf2} `{Sha256} `{Hmac} `{Hkdf}.
Abbreviation R := (M PaseResponderCore PaseCoreError).

Definition decoded {A} (m : res string A) : R A := lift (map_err PDecode m).

Definition handle_pbkdf_param_request (responder_random payload : bytes) : R PaseOutput :=
  let! req := decoded (decode_pbkdf_param_request payload) in
  let! s := get in
  let c := pr_config s in
  let! resp_bytes := lift (fin_in (encode_pbkdf_param_response (initiator_random req) responder_random
                                     (pc_responder_session_id c) (pc_iterations c) (pc_salt c))) in
  modify (set_pase_state (PAwaitPake1 (pake_context payload resp_bytes) (initiator_session_id req))) ;;!
  ret (PReply resp_bytes OPCODE_PBKDF_PARAM_RESPONSE).

(** The verifier of the configured secret; [y] is drawn. *)
Definition config_verifier (c : PaseVerifierConfig) (y : Z) : res SpakeError Spake2pVerifier :=
  match pc_secret c with
  | Passcode p => Ok (from_passcode p (pc_salt c) (pc_iterations c) y)
  | VerifierMaterial m => from_verifier_material m y
  end.

Definition handle_pake1 (y : Z) (payload context : bytes) (peer_session_id : Z) : R PaseOutput :=
  let! p_a := decoded (decode_pake1 payload) in
  let! s := get in
  let! verifier := lift (map_err PSpake (config_verifier (pr_config s) y)) in
  let! p_b := lift (fin_in (verifier_p_b verifier)) in
  let! shared := lift (map_err PSpake (verifier_finish verifier p_a context [] [])) in
  let! reply := lift (fin_in (encode_pake2 p_b (c_b shared))) in
  modify (set_pase_state (PAwaitPake3 (expected_c_a shared) (pv_k_e shared) peer_session_id)) ;;!
  ret (PReply reply OPCODE_PASE_PAKE2).

Definition handle_pake3 (payload expected_c_a k_e : bytes) (peer_session_id : Z) : R PaseOutput :=
  let! c_a := decoded (decode_pake3 payload) in
  if negb (bool_decide (c_a = expected_c_a)) then throw PConfirmMismatch else
  modify (set_pase_state PEstablished) ;;!
  ret (PDone (replicate 8 0) OPCODE_STATUS_REPORT (pase_session_keys k_e) peer_session_id).

Definition pase_on_message (responder_random : bytes) (y : Z) (opc : Z) (payload : bytes) : R PaseOutput :=
  let! s := get in
  match pr_state s with
  | PIdle =>
      if negb (opc =? OPCODE_PBKDF_PARAM_REQUEST) then throw (PUnexpectedMessage opc)
      else handle_pbkdf_param_request responder_random payload
  | PAwaitPake1 context peer =>
      if negb (opc =? OPCODE_PASE_PAKE1) then throw (PUnexpectedMessage opc) else handle_pake1 y payload context peer
  | PAwaitPake3 expected k_e peer =>
      if negb (opc =? OPCODE_PASE_PAKE3) then throw (PUnexpectedMessage opc) else handle_pake3 payload expected k_e peer
  | PEstablished => throw (PUnexpectedMessage opc)
  end.

(** The loop of [net/pase.rs] between two messages: the core until the exchange
    ends, and what it established. *)
Record PaseDevice := {
  pd_core : option PaseResponderCore;
  pd_established : option (SessionKeys * Z)
}.

(** [None]: nothing more comes on this exchange. *)
Definition pase_drive (responder_random : bytes) (y : Z) (opc : Z) (payload : bytes) (d : PaseDevice) :
    PaseDevice * res () (Z * bytes) :=
  match pd_core d with
  | None => (d, Err ())
  | Some core =>
      match pase_on_message responder_random y opc payload core with
      | (core, Ok (PReply reply op)) => ({| pd_core := Some core; pd_established := pd_established d |}, Ok (op, reply))
      | (_, Ok (PDone reply op keys peer)) => ({| pd_core := None; pd_established := Some (keys, peer) |}, Ok (op, reply))
      | (_, Err _) =>
          ({| pd_core := None; pd_established := pd_established d |},
           Ok (OPCODE_STATUS_REPORT, failure_report SC_PROTOCOL_CODE_INVALID_PARAMETER))
      | (core, Panic) => (d, Panic)
      | (core, OutOfFuel) => (d, OutOfFuel)
      end
  end.
End responder.

(** ** Proofs *)

Close Scope string_scope.

(** *** The messages *)

Lemma pbkdf_request_carried rnd sid : bytes_ok rnd → zlen rnd = 32 → in_u 16 sid →
  carries (encode_pbkdf_param_request rnd sid) decode_pbkdf_param_request
    {| initiator_random := rnd; initiator_session_id := sid; has_pbkdf_parameters := false |}.
Proof.
  intros Hb Hl Hs. set (ch := [(1, VBytes rnd); (2, VUint sid); (3, VUint 0); (4, VBool false)]).
  assert (in_u 16 0) as H0 by done.
  assert (Forall field_ok ch) as Hch by (unfold ch; fields_ok).
  destruct (message_at (put_bytes (Context 1) rnd ;;! put_uint (Context 2) sid ;;! put_uint (Context 3) 0 ;;! put_bool (Context 4) false ;;! end_container) ch)
    as (He & Hbo & Hsm); [apply emits_bytes, emits_uint, emits_uint, emits_cons; [apply writes_bool|apply emits_end]|done|done|].
  exists (enc_tree (flat ch)). split; [exact He|]. split; [done|]. split; [done|]. unfold decode_pbkdf_param_request, pase_scalars.
  erewrite decode_flat; [|exact Hch|done|unfold ch; read_fields]. reflexivity.
Qed.

Lemma pake1_carried p_a : bytes_ok p_a → zlen p_a = 65 → carries (encode_pake1 p_a) decode_pake1 p_a.
Proof.
  intros Hb Hl. assert (Forall field_ok [(1, VBytes p_a)]) as Hch by fields_ok.
  destruct (message_at (put_bytes (Context 1) p_a ;;! end_container) [(1, VBytes p_a)]) as (He & Hbo & Hsm); [apply emits_bytes, emits_end|done|done|].
  exists (enc_tree (flat [(1, VBytes p_a)])). split; [exact He|]. split; [done|]. split; [done|]. unfold decode_pake1, pase_scalars.
  erewrite decode_flat; [|exact Hch|done|read_fields]. reflexivity.
Qed.

Lemma pake3_carried c_a : bytes_ok c_a → zlen c_a = 32 → carries (encode_pake3 c_a) decode_pake3 c_a.
Proof.
  intros Hb Hl. assert (Forall field_ok [(1, VBytes c_a)]) as Hch by fields_ok.
  destruct (message_at (put_bytes (Context 1) c_a ;;! end_container) [(1, VBytes c_a)]) as (He & Hbo & Hsm); [apply emits_bytes, emits_end|done|done|].
  exists (enc_tree (flat [(1, VBytes c_a)])). split; [exact He|]. split; [done|]. split; [done|]. unfold decode_pake3, pase_scalars.
  erewrite decode_flat; [|exact Hch|done|read_fields]. reflexivity.
Qed.

Lemma pake2_carried p_b c_b : bytes_ok p_b → zlen p_b = 65 → bytes_ok c_b → zlen c_b = 32 →
  carries (encode_pake2 p_b c_b) decode_pake2 (p_b, c_b).
Proof.
  intros Hb Hl Hb' Hl'. set (ch := [(1, VBytes p_b); (2, VBytes c_b)]). assert (Forall field_ok ch) as Hch by (unfold ch; fields_ok).
  destruct (message_at (put_bytes (Context 1) p_b ;;! put_bytes (Context 2) c_b ;;! end_container) ch) as (He & Hbo & Hsm);
    [apply emits_bytes, emits_bytes, emits_end|done|done|].
  exists (enc_tree (flat ch)). split; [exact He|]. split; [done|]. split; [done|]. unfold decode_pake2, pase_scalars.
  erewrite decode_flat; [|exact Hch|done|unfold ch; read_fields]. reflexivity.
Qed.

(** The response nests the parameters. *)
Definition response_tree (rnd rnd' : bytes) (sid it : Z) (salt : bytes) : tree :=
  Tlv.Node Anonymous KStruct [Leaf (Context 1) (VBytes rnd); Leaf (Context 2) (VBytes rnd'); Leaf (Context 3) (VUint sid);
    Tlv.Node (Context 4) KStruct [Leaf (Context 1) (VUint it); Leaf (Context 2) (VBytes salt)]].

Lemma pbkdf_response_carried rnd rnd' sid it salt : bytes_ok rnd → zlen rnd = 32 → bytes_ok rnd' → zlen rnd' = 32 →
  in_u 16 sid → sid ≠ 0 → in_u 32 it → bytes_ok salt → zlen salt ≤ 1000 →
  carries (encode_pbkdf_param_response rnd rnd' sid it salt) decode_pbkdf_param_response
    {| responder_session_id := sid; pr_iterations := it; pr_salt := salt |}.
Proof.
  intros Hb Hl Hb' Hl' Hs Hne Hi Hsb Hsl.
  set (inn := [(1, VUint it); (2, VBytes salt)]). set (out := [(1, VBytes rnd); (2, VBytes rnd'); (3, VUint sid)]).
  assert (Forall field_ok inn) as Hinn by (unfold inn; fields_ok). assert (Forall field_ok out) as Hout by (unfold out; fields_ok).
  set (lf := λ '(c, v), Leaf (Context c) v) in *.
  assert (Forall wf_tree (map lf inn)) as Hwi by (apply List.Forall_map; eapply Forall_impl; [exact Hinn|]; intros [c v] Hf; by apply (field_tree (c, v))).
  assert (Forall wf_tree (map lf out)) as Hwo by (apply List.Forall_map; eapply Forall_impl; [exact Hout|]; intros [c v] Hf; by apply (field_tree (c, v))).
  set (nd := Tlv.Node (Context 4) KStruct (map lf inn)).
  assert (wf_tree nd) as Hnd by (apply wf_node; done).
  assert (wf_tree (response_tree rnd rnd' sid it salt)) as Hwf.
  { apply wf_anon_node. change (Forall wf_tree (map lf out ++ [nd])). apply Forall_app. split; [done|]. by apply Forall_singleton. }
  assert (zlen (enc_tree (response_tree rnd rnd' sid it salt)) < 2 ^ 40) as Hz.
  { eapply Z.le_lt_trans; [apply (zlen_node _ _ _ (2 ^ 35))|unfold zlen; cbn [length]; lia].
    change (Forall (λ t, zlen (enc_tree t) ≤ 2 ^ 35) (map lf out ++ [nd])). apply Forall_app. split.
    - apply List.Forall_map. eapply Forall_impl; [exact Hout|]. intros [c v] Hf. pose proof (field_tree (c, v) Hf) as [_ Ht]. cbn [fst snd] in Ht. unfold lf. lia.
    - apply Forall_singleton. eapply Z.le_trans; [apply (zlen_node _ _ _ (2 ^ 33))|unfold zlen; cbn [length map inn]; lia].
      apply List.Forall_map. eapply Forall_impl; [exact Hinn|]. intros [c v] Hf. by apply (field_tree (c, v)). }
  assert (small (enc_tree (response_tree rnd rnd' sid it salt))) as Hsm by (unfold small; lia).
  exists (enc_tree (response_tree rnd rnd' sid it salt)). split.
  { apply to_vec_writes, writes_struct. apply emits_bytes, emits_bytes, emits_uint, emits_cons; [|apply emits_end].
    apply writes_struct, emits_uint, emits_bytes, emits_end. }
  split; [by apply enc_tree_ok|]. split; [done|]. unfold decode_pbkdf_param_response.
  erewrite (reads_all _ (enc_tree (response_tree rnd rnd' sid it salt)) (Some sid, (Some it, Some salt))); [|..|done].
  - cbn [res_bind ok_or pr_iterations pr_salt]. rewrite (proj2 (Z.eqb_neq sid 0)) by done. reflexivity.
  - rewrite enc_tree_split. eapply reads_bind; [by eapply reads_open|]. cbn [inner]. apply walk_at; [by apply wf_children in Hwf as [_ ?]|].
    eapply walks_leaf; [read_field|]. eapply walks_leaf; [read_field|]. eapply walks_leaf; [read_field|].
    eapply walks_node; [|constructor]. eapply reads_bind_end; [|apply reads_ret]. cbn [fst snd].
    apply walk_at; [done|]. eapply walks_leaf; [read_field|]. eapply walks_leaf; [read_field|]. constructor.
Qed.

(** *** The responder *)

Section responder_steps.
Context `{C : Curve} `{!CurveLaws C} `{Kdf : Pbkdf2} `{Hash : Sha256} `{!Sha256Laws} `{Mac : Hmac} `{!HmacLaws} `{Hk : Hkdf} `{!HkdfLaws}.

Definition pase_state_ok (st : PaseState) : Prop :=
  match st with
  | PIdle | PEstablished => True
  | PAwaitPake1 _ peer => in_u 16 peer
  | PAwaitPake3 expected k_e peer => zlen expected = 32 ∧ zlen k_e = 16 ∧ in_u 16 peer
  end.

(** The draw [y] of a device configured with [c]: the device's share exists, and
    so does the point of a passcode. *)
Definition good_draw (c : PaseVerifierConfig) (y : Z) : Prop :=
  y mod order ≠ 0 ∧
  match config_verifier c y with
  | Ok vf => vf_l vf ≠ identity ∧ ∃ b, verifier_p_b vf = Ok b
  | _ => True
  end.

Lemma config_verifier_returns c y : returns (config_verifier c y).
Proof.
  unfold config_verifier, from_verifier_material. destruct (pc_secret c); [done|]. pose proof (decode_safe (drop 32 m)) as Hd.
  by destruct (decode_point (drop 32 m)).
Qed.

Lemma safe_request_step s el :
  from_option (has_size 32) True (fst (fst s)) ∧ from_option (in_u 16) True (snd (fst s)) → wf_element el →
  safe (pbkdf_request_step s el) (λ s, from_option (has_size 32) True (fst (fst s)) ∧ from_option (in_u 16) True (snd (fst s))).
Proof.
  destruct s as [[r i] h]. cbn [fst snd]. intros [Hr Hi] [_ Hv]. unfold pbkdf_request_step. repeat case_match; try by apply safe_ret.
  all: eapply safe_bind; [first [apply safe_narrow|apply safe_sized; by destruct Hv]|intros x Hx; by apply safe_ret].
Qed.

Lemma pbkdf_request_total payload : bytes_ok payload → small payload →
  match decode_pbkdf_param_request payload with
  | Ok r => has_size 32 (initiator_random r) ∧ in_u 16 (initiator_session_id r)
  | Err _ => True
  | _ => False
  end.
Proof.
  intros Hb Hs. unfold decode_pbkdf_param_request, pase_scalars.
  pose proof (decode_scalars_safe "top-level struct" "tlv" "truncated" pbkdf_request_step _ (None, None, None) payload
    safe_request_step (conj I I) Hb Hs) as Hd.
  destruct (decode_scalars _ _ _ _ _ _) as [[[r i] h]|e| |]; try done. cbn [res_bind fst snd] in *. destruct Hd as [Hr Hi].
  destruct r; [|done]. destruct i; [|done]. by destruct h.
Qed.

Lemma field1_total n label label' payload : bytes_ok payload → small payload →
  match (let? o := pase_scalars (field1_step n label) None payload in ok_or o label') with
  | Ok b => has_size n b
  | Err _ => True
  | _ => False
  end.
Proof.
  intros Hb Hs. unfold pase_scalars.
  pose proof (decode_scalars_safe "top-level struct" "tlv" "truncated" (field1_step n label) (from_option (has_size n) True) None payload) as Hd.
  destruct (decode_scalars _ _ _ _ _ _) as [[b|]|e| |]; cbn [res_bind ok_or]; try done; apply Hd; try done;
    intros s el Hs' [_ Hv]; unfold field1_step; repeat case_match; try (by apply safe_ret);
    (eapply safe_bind; [apply safe_sized; by destruct Hv|intros x Hx; by apply safe_ret]).
Qed.

Lemma zlen_session_key k_e : let k := pase_session_keys k_e in
  zlen (i2r k) = 16 ∧ zlen (r2i k) = 16 ∧ zlen (Session.attestation_challenge k) = 16.
Proof. apply session_keys_sizes. Qed.

(** C6. What a commissioning window's PASE responder does with any message.  A
    rejected message leaves the core as it was.  The states follow the handshake
    order, one message each; the session keys come out only with a Pake3 whose
    confirmation equals the one computed from the device's secret, in the last
    step.  Nothing makes it panic but a Pake1 whose share is the point that
    cancels the passcode out ([w0·M]). *)
Theorem pase_responder_steps (c : PaseVerifierConfig) rnd y opc payload core m :
  pr_config core = c → pase_state_ok (pr_state core) → good_draw c y → constant SPAKE_M = Ok m →
  bytes_ok payload → small payload →
  match pase_on_message rnd y opc payload core with
  | (core', Ok (PReply reply op)) =>
      pr_config core' = c ∧ pase_state_ok (pr_state core') ∧
      match pr_state core, pr_state core' with
      | PIdle, PAwaitPake1 context peer =>
          opc = OPCODE_PBKDF_PARAM_REQUEST ∧ op = OPCODE_PBKDF_PARAM_RESPONSE ∧ context = pake_context payload reply ∧
          ∃ req, decode_pbkdf_param_request payload = Ok req ∧ peer = initiator_session_id req
      | PAwaitPake1 context peer, PAwaitPake3 expected k_e peer' =>
          opc = OPCODE_PASE_PAKE1 ∧ op = OPCODE_PASE_PAKE2 ∧ peer' = peer ∧
          ∃ p_a vf sh, decode_pake1 payload = Ok p_a ∧ config_verifier c y = Ok vf ∧
            verifier_finish vf p_a context [] [] = Ok sh ∧ expected = expected_c_a sh ∧ k_e = pv_k_e sh
      | _, _ => False
      end
  | (core', Ok (PDone reply op keys peer)) =>
      opc = OPCODE_PASE_PAKE3 ∧ op = OPCODE_STATUS_REPORT ∧ parse_status_report reply = Some STATUS_REPORT_SUCCESS ∧
      core' = set_pase_state PEstablished core ∧
      ∃ expected k_e, pr_state core = PAwaitPake3 expected k_e peer ∧ decode_pake3 payload = Ok expected ∧
        keys = pase_session_keys k_e ∧ zlen (i2r keys) = 16 ∧ zlen (r2i keys) = 16
  | (core', Err _) => core' = core
  | (_, Panic) =>
      opc = OPCODE_PASE_PAKE1 ∧ ∃ context peer p_a vf, pr_state core = PAwaitPake1 context peer ∧
        decode_pake1 payload = Ok p_a ∧ config_verifier c y = Ok vf ∧ from_sec1 p_a = Some (p_mul (vf_w0 vf) m)
  | (_, OutOfFuel) => False
  end.
Proof.
  intros Hc Hst [Hy Hvf] Hm Hb Hs. unfold pase_on_message. rewrite (bind_ok _ _ _ core core eq_refl).
  destruct (pr_state core) as [|context peer|expected k_e peer|] eqn:Est; [..|done].
  - destruct (Z.eqb_spec opc OPCODE_PBKDF_PARAM_REQUEST); [|done]. cbn [negb]. unfold handle_pbkdf_param_request, decoded.
    pose proof (pbkdf_request_total payload Hb Hs) as Hr.
    destruct (decode_pbkdf_param_request payload) as [req|e'| |] eqn:Er; [|done..]. destruct Hr as [Hr Hi].
    rewrite (bind_ok _ _ _ core req) by done. rewrite (bind_ok _ _ _ core core) by done. cbv zeta. rewrite Hc.
    assert (∃ b, encode_pbkdf_param_response (initiator_random req) rnd (pc_responder_session_id c) (pc_iterations c) (pc_salt c) = Ok b) as [b He].
    { eexists. apply struct_of_emits, emits_bytes, emits_bytes, emits_uint, emits_cons; [|apply emits_end]. apply writes_struct, emits_uint, emits_bytes, emits_end. }
    rewrite He, (bind_ok _ _ _ core b) by done. cbn. split; [done|]. split; [done|]. split; [done|]. split; [done|]. split; [done|]. by exists req.
  - destruct (Z.eqb_spec opc OPCODE_PASE_PAKE1); [|done]. cbn [negb]. unfold handle_pake1, decoded. cbn [pase_state_ok] in Hst.
    pose proof (field1_total 65 "pA length"%string "pA"%string payload Hb Hs) as Hr. fold (decode_pake1 payload) in Hr.
    destruct (decode_pake1 payload) as [p_a|e'| |] eqn:Er; [|done..].
    rewrite (bind_ok _ _ _ core p_a) by done. rewrite (bind_ok _ _ _ core core) by done. rewrite Hc.
    pose proof (config_verifier_returns c y) as Hret. destruct (config_verifier c y) as [vf|er| |] eqn:Ev; [|done..].
    destruct Hvf as [Hl [p_b Hp]]. rewrite (bind_ok _ _ _ core vf) by done. rewrite Hp, (bind_ok _ _ _ core p_b) by done.
    assert (vf_y vf = y) as Hyv.
    { clear -Ev. unfold config_verifier, from_passcode, from_verifier_material in Ev. destruct (pc_secret c).
      - destruct (derive_w0_w1 _ _ _). by injection Ev as <-.
      - destruct (decode_point (drop 32 m)); try done. by injection Ev as <-. }
    pose proof (verifier_finish_outcome vf p_b p_a context [] [] m ltac:(by rewrite Hyv) Hl Hp Hm) as Ho.
    destruct (verifier_finish vf p_a context [] []) as [sh|er| |] eqn:Ef; [|done| |done].
    + rewrite (bind_ok _ _ _ core sh) by done. destruct (verifier_sizes _ _ _ _ _ _ Ef) as (Q1 & Q2 & Q3 & Q4).
      assert (∃ b, encode_pake2 p_b (c_b sh) = Ok b) as [b He] by (eexists; apply struct_of_emits, emits_bytes, emits_bytes, emits_end).
      rewrite He, (bind_ok _ _ _ core b) by done. cbn. split; [done|]. split; [done|]. split; [done|]. split; [done|]. split; [done|].
      exists p_a, vf, sh. done.
    + cbn. split; [done|]. exists context, peer, p_a, vf. by destruct Ho.
  - destruct (Z.eqb_spec opc OPCODE_PASE_PAKE3); [|done]. cbn [negb]. unfold handle_pake3, decoded.
    pose proof (field1_total 32 "cA length"%string "cA"%string payload Hb Hs) as Hr. fold (decode_pake3 payload) in Hr.
    destruct (decode_pake3 payload) as [c_a|e'| |] eqn:Er; [|done..]. rewrite (bind_ok _ _ _ core c_a) by done.
    case_bool_decide as Heq; [|done]. subst c_a. cbn. pose proof (zlen_session_key k_e) as (Q1 & Q2 & _).
    split; [done|]. split; [done|]. split; [done|]. split; [done|]. exists expected, k_e. done.
Qed.
End responder_steps.

(** *** Both ends *)

(** The device's responder as the far end of an initiator's exchange. *)
#[local] Instance DeviceLink `{C : Curve} `{Pbkdf2} `{Sha256} `{Hmac} `{Hkdf} (rnd : bytes) (y : Z) : HandshakeLink PaseDevice () := {
  hl_request _ opc payload := λ d, let '(d, r) := pase_drive rnd y opc payload d in (d, map_err RExchange r);
  hl_once opc payload := λ d, fst (pase_drive rnd y opc payload d)
}.

Section both.
Context `{C : Curve} `{!CurveLaws C} `{Kdf : Pbkdf2} `{Hash : Sha256} `{!Sha256Laws} `{Mac : Hmac} `{!HmacLaws} `{Hk : Hkdf} `{!HkdfLaws}.

(** The configuration admits the passcode: it is the configured one, or the
    window holds its verifier. *)
Definition admits (c : PaseVerifierConfig) (passcode : Z) : Prop :=
  match pc_secret c with
  | Passcode p => p = passcode
  | VerifierMaterial material => compute_verifier passcode (pc_salt c) (pc_iterations c) = Ok material
  end.

Definition config_fits (c : PaseVerifierConfig) : Prop :=
  bytes_ok (pc_salt c) ∧ within PBKDF_SALT_LEN_MIN PBKDF_SALT_LEN_MAX (zlen (pc_salt c)) = true ∧
  within PBKDF_ITERATIONS_MIN PBKDF_ITERATIONS_MAX (pc_iterations c) = true ∧
  in_u 16 (pc_responder_session_id c) ∧ pc_responder_session_id c ≠ 0.

Lemma admitted_verifier c passcode y : admits c passcode →
  config_verifier c y = Ok (from_passcode passcode (pc_salt c) (pc_iterations c) y).
Proof.
  unfold admits, config_verifier. destruct (pc_secret c) as [p|material]; [by intros ->|]. intros Hm.
  by destruct (material_verifier _ _ _ _ y Hm) as (_ & _ & ->).
Qed.

Lemma config_validates c : config_fits c → validate_pbkdf_params (pc_iterations c) (zlen (pc_salt c)) = None ∧
  in_u 32 (pc_iterations c) ∧ zlen (pc_salt c) ≤ 1000.
Proof.
  intros (_ & Hs & Hi & _). unfold validate_pbkdf_params. rewrite Hs, Hi. split; [done|]. unfold within in *.
  apply andb_true_iff in Hs as [_ Hs%Z.leb_le]. apply andb_true_iff in Hi as [Hi1%Z.leb_le Hi2%Z.leb_le].
  unfold PBKDF_SALT_LEN_MAX, PBKDF_ITERATIONS_MIN, PBKDF_ITERATIONS_MAX, in_u in *. lia.
Qed.

Lemma drive_reply rnd y opc payload core core' reply op est : pase_on_message rnd y opc payload core = (core', Ok (PReply reply op)) →
  pase_drive rnd y opc payload {| pd_core := Some core; pd_established := est |} =
  ({| pd_core := Some core'; pd_established := est |}, Ok (op, reply)).
Proof. intros Ho. unfold pase_drive. cbn [pd_core pd_established]. by rewrite Ho. Qed.

Lemma reply_request c rnd y payload req b : decode_pbkdf_param_request payload = Ok req →
  encode_pbkdf_param_response (initiator_random req) rnd (pc_responder_session_id c) (pc_iterations c) (pc_salt c) = Ok b →
  pase_on_message rnd y OPCODE_PBKDF_PARAM_REQUEST payload (PaseResponderCore_new c) =
  ({| pr_config := c; pr_state := PAwaitPake1 (pake_context payload b) (initiator_session_id req) |}, Ok (PReply b OPCODE_PBKDF_PARAM_RESPONSE)).
Proof.
  intros Hd He. unfold pase_on_message, PaseResponderCore_new. erewrite (bind_ok get) by reflexivity. cbn [pr_state]. change (negb (_ =? _)) with false. cbv iota.
  unfold handle_pbkdf_param_request, decoded. rewrite Hd, (bind_ok _ _ _ _ req) by done. erewrite (bind_ok get) by reflexivity. cbn [pr_config].
  by rewrite He, (bind_ok _ _ _ _ b) by done.
Qed.

Lemma reply_pake1 c rnd y payload context peer p_a vf p_b sh b : decode_pake1 payload = Ok p_a → config_verifier c y = Ok vf →
  verifier_p_b vf = Ok p_b → verifier_finish vf p_a context [] [] = Ok sh → encode_pake2 p_b (c_b sh) = Ok b →
  pase_on_message rnd y OPCODE_PASE_PAKE1 payload {| pr_config := c; pr_state := PAwaitPake1 context peer |} =
  ({| pr_config := c; pr_state := PAwaitPake3 (expected_c_a sh) (pv_k_e sh) peer |}, Ok (PReply b OPCODE_PASE_PAKE2)).
Proof.
  intros Hd Hv Hp Hf He. unfold pase_on_message. erewrite (bind_ok get) by reflexivity. cbn [pr_state]. change (negb (_ =? _)) with false. cbv iota.
  unfold handle_pake1, decoded. rewrite Hd, (bind_ok _ _ _ _ p_a) by done. erewrite (bind_ok get) by reflexivity. cbn [pr_config].
  rewrite Hv, (bind_ok _ _ _ _ vf) by done. rewrite Hp, (bind_ok _ _ _ _ p_b) by done. rewrite Hf, (bind_ok _ _ _ _ sh) by done.
  by rewrite He, (bind_ok _ _ _ _ b) by done.
Qed.

Lemma done_pake3 c rnd y payload expected k_e peer : decode_pake3 payload = Ok expected →
  pase_on_message rnd y OPCODE_PASE_PAKE3 payload {| pr_config := c; pr_state := PAwaitPake3 expected k_e peer |} =
  ({| pr_config := c; pr_state := PEstablished |}, Ok (PDone (replicate 8 0) OPCODE_STATUS_REPORT (pase_session_keys k_e) peer)).
Proof.
  intros Hd. unfold pase_on_message. erewrite (bind_ok get) by reflexivity. cbn [pr_state]. change (negb (_ =? _)) with false. cbv iota.
  unfold handle_pake3, decoded. rewrite Hd, (bind_ok _ _ _ _ expected) by done. by rewrite bool_decide_true.
Qed.

Lemma round_drive rnd y opc payload core core' reply op est :
  pase_on_message rnd y opc payload core = (core', Ok (PReply reply op)) →
  pase_round (H:=DeviceLink rnd y) opc payload {| pd_core := Some core; pd_established := est |} =
  ({| pd_core := Some core'; pd_established := est |}, Ok (op, reply)).
Proof. intros Ho. unfold pase_round. cbn [hl_request DeviceLink]. by rewrite (drive_reply _ _ _ _ _ _ _ _ _ Ho). Qed.

Lemma round_done rnd y opc payload core core' reply op keys peer est :
  pase_on_message rnd y opc payload core = (core', Ok (PDone reply op keys peer)) →
  pase_round (H:=DeviceLink rnd y) opc payload {| pd_core := Some core; pd_established := est |} =
  ({| pd_core := None; pd_established := Some (keys, peer) |}, Ok (op, reply)).
Proof. intros Ho. unfold pase_round. cbn [hl_request DeviceLink]. unfold pase_drive. cbn [pd_core]. by rewrite Ho. Qed.

(** C9. PASE ends with both sides holding the same session.  Against a device
    whose window admits the passcode — the passcode itself or the verifier
    material of an opened window — the initiator establishes: the session ids are
    the two drawn ones, the keys are equal, and the device's exchange is over.
    The draws must not hit the few scalars that give an identity point. *)
Theorem pase_agrees (c : PaseVerifierConfig) passcode rnd_i sid x rnd_r y p_a p_b :
  config_fits c → admits c passcode →
  bytes_ok rnd_i → zlen rnd_i = 32 → bytes_ok rnd_r → zlen rnd_r = 32 → in_u 16 sid →
  x mod order ≠ 0 → y mod order ≠ 0 → snd (derive_w0_w1 passcode (pc_salt c) (pc_iterations c)) ≠ 0 →
  prover_p_a {| pr_w0 := fst (derive_w0_w1 passcode (pc_salt c) (pc_iterations c));
                pr_w1 := snd (derive_w0_w1 passcode (pc_salt c) (pc_iterations c)); pr_x := x |} = Ok p_a →
  verifier_p_b (from_passcode passcode (pc_salt c) (pc_iterations c) y) = Ok p_b →
  ∃ keys,
    pase_establish (H:=DeviceLink rnd_r y) passcode rnd_i sid x {| pd_core := Some (PaseResponderCore_new c); pd_established := None |} =
    ({| pd_core := None; pd_established := Some (keys, sid) |},
     Ok {| es_local_session_id := sid; es_peer_session_id := pc_responder_session_id c; es_keys := keys;
           es_local_node_id := 0; es_peer_node_id := 0 |}) ∧
    zlen (i2r keys) = 16 ∧ zlen (r2i keys) = 16.
Proof.
  intros Hfit Hadm Hbi Hli Hbr Hlr Hsid Hx Hy Hw1 Hpa Hpb.
  pose proof (admitted_verifier c passcode y Hadm) as Hvf. destruct (config_validates c Hfit) as (Hval & Hit & Hsl).
  destruct Hfit as (Hsb & _ & _ & Hrs & Hrne). unfold from_passcode in Hvf, Hpb.
  destruct (derive_w0_w1 passcode (pc_salt c) (pc_iterations c)) as [w0 w1] eqn:Ew. cbn [fst snd] in *.
  pose proof (derive_range _ _ _ _ _ Ew) as [_ Hw1r].
  set (pr := {| pr_w0 := w0; pr_w1 := w1; pr_x := x |}) in *. set (vf := {| vf_w0 := w0; vf_l := p_mul w1 generator; vf_y := y |}) in *.
  destruct (pbkdf_request_carried rnd_i sid Hbi Hli Hsid) as (req & Ereq & _ & _ & Dreq).
  destruct (pbkdf_response_carried rnd_i rnd_r _ _ _ Hbi Hli Hbr Hlr Hrs Hrne Hit Hsb Hsl) as (rsp & Ersp & _ & _ & Drsp).
  destruct (spake_agrees pr vf p_a p_b (pake_context req rsp) [] []) as (sh & sh' & Hps & Hvs & Hca & Hcb & Hke);
    [done..|cbn; by rewrite Z.mod_small|done|done|done|done|].
  destruct (shares_ok pr p_a Hpa) as [Hla Hba]. destruct (verifier_share_ok vf p_b Hpb) as [Hlb Hbb].
  destruct (prover_sizes _ _ _ _ _ _ Hps) as (Q1 & Q2 & Q3 & Q4). destruct (verifier_sizes _ _ _ _ _ _ Hvs) as (Q5 & Q6 & Q7 & Q8).
  destruct (pake1_carried p_a Hba Hla) as (m1 & Em1 & _ & _ & Dm1). destruct (pake2_carried p_b (c_b sh') Hbb Hlb Q6 Q5) as (m2 & Em2 & _ & _ & Dm2).
  destruct (pake3_carried (c_a sh) Q2 Q1) as (m3 & Em3 & _ & _ & Dm3). rewrite Hca in Dm3.
  pose proof (reply_request c rnd_r y req _ rsp Dreq Ersp) as R1. pose proof (reply_pake1 c rnd_r y m1 (pake_context req rsp) sid _ _ _ _ _ Dm1 Hvf Hpb Hvs Em2) as R2.
  pose proof (done_pake3 c rnd_r y m3 (expected_c_a sh') (pv_k_e sh') sid Dm3) as R3. cbn [initiator_session_id] in R1.
  exists (pase_session_keys (pv_k_e sh')). split; [|pose proof (zlen_session_key (pv_k_e sh')) as (Q9 & Q10 & _); done].
  unfold pase_establish. rewrite Ereq. rewrite (bind_ok _ _ _ _ req) by done. rewrite (bind_ok _ _ _ _ _ (round_drive _ _ _ _ _ _ _ _ _ R1)).
  rewrite (bind_ok _ _ _ _ rsp) by done. rewrite Drsp. erewrite bind_ok by reflexivity. cbn [pr_iterations pr_salt responder_session_id].
  rewrite Hval, Ew. fold pr. rewrite Hpa. rewrite (bind_ok _ _ _ _ p_a) by done. rewrite Em1. rewrite (bind_ok _ _ _ _ m1) by done.
  rewrite (bind_ok _ _ _ _ _ (round_drive _ _ _ _ _ _ _ _ _ R2)). rewrite (bind_ok _ _ _ _ m2) by done. rewrite Dm2.
  rewrite (bind_ok _ _ _ _ (p_b, c_b sh')) by done. rewrite Hps. rewrite (bind_ok _ _ _ _ sh) by done.
  rewrite bool_decide_true by done. cbn [negb]. rewrite Em3. rewrite (bind_ok _ _ _ _ m3) by done.
  rewrite (bind_ok _ _ _ _ _ (round_done _ _ _ _ _ _ _ _ _ _ _ R3)).
  change (negb (_ =? _)) with false. cbv iota. change (parse_status_report (replicate 8 0)) with (Some (0, 0, 0)). cbv iota beta. by rewrite Hke.
Qed.
End both.

(** ** Concrete instances *)

#[local] Existing Instances ToyCurve.toy_curve ToyCurve.toy_curve_laws ToyHash.toy_sha256 ToyHash.toy_sha256_laws
  ToyHash.toy_hmac ToyHash.toy_hmac_laws ToyHash.toy_hkdf ToyHash.toy_hkdf_laws ToyHash.toy_pbkdf2.

Definition toy_config : PaseVerifierConfig := {|
  pc_secret := Passcode 20202021; pc_salt := replicate 16 9; pc_iterations := 1000; pc_responder_session_id := 7 |}.

Lemma toy_config_fits : config_fits toy_config.
Proof. unfold config_fits. split; [by apply Forall_replicate|]. by split_and!. Qed.

(** The passcode 20202021 opens the device it is configured on. *)
Lemma pase_agrees_witness : ∃ keys d,
  pase_establish (H:=DeviceLink (replicate 32 2) 2) 20202021 (replicate 32 1) 5 1
    {| pd_core := Some (PaseResponderCore_new toy_config); pd_established := None |} =
  (d, Ok {| es_local_session_id := 5; es_peer_session_id := 7; es_keys := keys; es_local_node_id := 0; es_peer_node_id := 0 |}) ∧
  pd_established d = Some (keys, 5).
Proof.
  destruct (pase_agrees toy_config 20202021 (replicate 32 1) 5 1 (replicate 32 2) 2 (ToyCurve.enc ToyCurve.P2) (ToyCurve.enc ToyCurve.P1))
    as (keys & Hrun & _); [exact toy_config_fits|done|by apply Forall_replicate|done|by apply Forall_replicate|done|done|done|done|
    vm_compute; discriminate|vm_compute; reflexivity|vm_compute; reflexivity|].
  eexists keys, _. split; [exact Hrun|reflexivity].
Defined.

Definition cancelling_pake1 : bytes := match encode_pake1 (ToyCurve.enc ToyCurve.P1) with Ok b => b | _ => [] end.

(** A Pake1 with the point [w0·M] panics the device of this passcode, and only
    that explains it. *)
Lemma pase_responder_steps_witness :
  snd (pase_on_message [] 2 OPCODE_PASE_PAKE1 cancelling_pake1 {| pr_config := toy_config; pr_state := PAwaitPake1 [] 5 |}) = Panic ∧
  ∃ p_a vf, decode_pake1 cancelling_pake1 = Ok p_a ∧ config_verifier toy_config 2 = Ok vf ∧
    from_sec1 p_a = Some (p_mul (vf_w0 vf) ToyCurve.P1).
Proof.
  pose proof (pase_responder_steps toy_config [] 2 OPCODE_PASE_PAKE1 cancelling_pake1 {| pr_config := toy_config; pr_state := PAwaitPake1 [] 5 |}
    ToyCurve.P1) as Hall.
  assert (snd (pase_on_message [] 2 OPCODE_PASE_PAKE1 cancelling_pake1 {| pr_config := toy_config; pr_state := PAwaitPake1 [] 5 |}) = Panic)
    as Hp by (vm_compute; reflexivity).
  split; [exact Hp|]. specialize (Hall eq_refl).
  destruct (pase_on_message _ _ _ _ _) as [core' r]. cbn [snd] in Hp. subst r.
  destruct Hall as (_ & context & peer & p_a & vf & _ & Hd & Hv & Hf); [done| |vm_compute; reflexivity| |vm_compute; reflexivity|].
  - split; [vm_compute; discriminate|]. vm_compute. split; [discriminate|]. by eexists.
  - vm_compute. by repeat constructor.
  - exists p_a, vf. done.
Defined.
