(* ===== verification/Commissioner.v ===== *)
(** * The commissioner's step machine

    Models the controller's half of a commissioning in
    [crates/mat-controller/src/commissioning/]: [flow.rs] (the credential
    steps over an established PASE session, and the final
    CommissioningComplete), [commissioning_fabric.rs] (the fabric a device is
    commissioned into), the Thread steps of [ble_thread.rs] and [window.rs]
    (opening a commissioning window), with [FabricCredentials] of
    [crates/mat-controller/src/fabric.rs].

    The session is a class ([SecureChannel]): the exchange that [ImClient]'s
    invokes run over, and the session's attestation challenge.  Random draws
    (nonces, serials, keys) and the wall clock are inputs; [load_der_dir] is
    the list of certificates it returned. *)

From Stdlib Require Import String.
From S2P Require Import Prelude Tlv TlvValue Im Handler Fabrics DataModel ImClient CommCodec Certs X509 Attestation SetupCode Commissioning Handshake Spake Pase.

Open Scope string_scope.
Open Scope list_scope.
Open Scope Z_scope.

(** ** Errors and the session *)

Inductive FlowError (SE : Type) :=
  | FSession (e : SE)
  | FAttestation (e : AttestationError)
  | FCsr (what : string)
  | FNoc (code : Z)
  | FCommandStatus (step : string) (code : Z)
  | FMalformed (step detail : string)
  | FCert (e : CertError)
  | FNetworkConfig (step : string) (status : Z) (debug_text : option bytes)
  | FInvalidArgument (what : string).
Arguments FSession {SE} e.
Arguments FAttestation {SE} e.
Arguments FCsr {SE} what.
Arguments FNoc {SE} code.
Arguments FCommandStatus {SE} step code.
Arguments FMalformed {SE} step detail.
Arguments FCert {SE} e.
Arguments FNetworkConfig {SE} step status debug_text.
Arguments FInvalidArgument {SE} what.

(** A secure session: the exchange under its client, and
    [attestation_challenge]. *)
Class SecureChannel (S SE : Type) := {
  sc_transport :: ImTransport S SE;
  session_challenge : S → bytes
}.

Definition CLUSTER_NETWORK_COMMISSIONING : Z := 0x0031.
Definition CMD_ADD_OR_UPDATE_THREAD : Z := 0x03.
Definition CMD_CONNECT_NETWORK : Z := 0x06.

(** ** The fabric ([commissioning_fabric.rs], [fabric.rs]) *)

Record CommissioningFabric := {
  cf_rcac_tlv : bytes;
  cf_root_private_key : bytes;
  cf_fabric_id : Z;
  cf_ipk_epoch : bytes;
  cf_admin_node_id : Z
}.

Record SelfIssueMaterials := {
  sm_rcac : bytes;
  sm_root_private_key : bytes;
  sm_ipk_operational : bytes;
  sm_node_id : Z;
  sm_fabric_id : Z
}.

Record FabricCredentials := {
  fc_rcac_tlv : bytes;
  fc_icac_tlv : option bytes;
  fc_noc_tlv : bytes;
  fc_op_public_key : bytes;
  fc_op_private_key : bytes;
  fc_ipk_operational : bytes;
  fc_node_id : Z;
  fc_fabric_id : Z;
  fc_root_public_key : bytes
}.

Section fabric.
Context `{Ec : Ecdsa} `{Sha1} `{Hkdf}.

(** [key], [id] and [serial]: what the generator draws; [ipk_epoch] 16 bytes. *)
Definition generate_fabric (key id serial ipk_epoch : bytes) (fabric_id admin_node_id : Z) :
    res CertError CommissioningFabric :=
  let? (rcac, root_private_key) := generate_rcac key id serial in
  let? tlv := fin_in (to_tlv rcac) in
  Ok {| cf_rcac_tlv := tlv; cf_root_private_key := root_private_key; cf_fabric_id := fabric_id;
        cf_ipk_epoch := ipk_epoch; cf_admin_node_id := admin_node_id |}.

Definition from_materials (m : SelfIssueMaterials) (ipk_epoch : bytes) : CommissioningFabric := {|
  cf_rcac_tlv := sm_rcac m; cf_root_private_key := sm_root_private_key m; cf_fabric_id := sm_fabric_id m;
  cf_ipk_epoch := ipk_epoch; cf_admin_node_id := sm_node_id m
|}.

(** [op_key] and [serial] are drawn. *)
Definition from_self_issued (m : SelfIssueMaterials) (op_key serial : bytes) : res CertError FabricCredentials :=
  let op_public_key := sk_public op_key in
  let? rcac := parse (sm_rcac m) in
  let? noc := issue_noc op_public_key (sm_node_id m) (sm_fabric_id m) rcac (sm_root_private_key m) serial in
  let? _ := verify_noc_chain noc None rcac in
  let? noc_tlv := fin_in (to_tlv noc) in
  Ok {| fc_rcac_tlv := sm_rcac m; fc_icac_tlv := None; fc_noc_tlv := noc_tlv; fc_op_public_key := op_public_key;
        fc_op_private_key := op_key; fc_ipk_operational := sm_ipk_operational m; fc_node_id := sm_node_id m;
        fc_fabric_id := sm_fabric_id m; fc_root_public_key := mc_pub_key rcac |}.

Definition admin_credentials (f : CommissioningFabric) (op_key serial : bytes) : res CertError FabricCredentials :=
  let? rcac := parse (cf_rcac_tlv f) in
  let cfid := compressed_fabric_id (mc_pub_key rcac) (cf_fabric_id f) in
  from_self_issued {| sm_rcac := cf_rcac_tlv f; sm_root_private_key := cf_root_private_key f;
                      sm_ipk_operational := derive_ipk_operational (cf_ipk_epoch f) cfid;
                      sm_node_id := cf_admin_node_id f; sm_fabric_id := cf_fabric_id f |} op_key serial.

Definition issue_device_noc (f : CommissioningFabric) (op_public_key : bytes) (node_id : Z) (serial : bytes) :
    res CertError bytes :=
  let? rcac := parse (cf_rcac_tlv f) in
  let? noc := issue_noc op_public_key node_id (cf_fabric_id f) rcac (cf_root_private_key f) serial in
  fin_in (to_tlv noc).
End fabric.

(** ** The steps ([flow.rs]) *)

Section flow.
Context {S SE : Type} `{SecureChannel S SE}.
Context `{Ec : Ecdsa} `{Sha256} `{C : Curve} `{Kdf : Pbkdf2}.
Abbreviation F := (M S (FlowError (ClientError SE))).
Abbreviation FR := (res (FlowError (ClientError SE))).

Definition comm_error {A} (m : res CommissionError A) : FR A :=
  map_err (λ '(CommMalformed step detail), FMalformed step detail) m.

Definition fields_of (step : string) (resp : InvokeResponseData) : FR bytes :=
  if negb (id_status resp =? 0) then Err (FCommandStatus step (id_status resp))
  else ok_or (id_fields resp) (FMalformed step "no command fields").

Definition check_commissioning_response (step : string) (resp : InvokeResponseData) : FR () :=
  let? f := fields_of step resp in
  let? (code, _) := comm_error (decode_commissioning_status_response f) in
  if negb (code =? 0) then Err (FCommandStatus step code) else Ok ().

(** [session.invoke_for_data(0, ..).await.map_err(CommissionError::Session)?]. *)
Definition send (cluster command : Z) (fields : option (fin bytes)) (timed : option Z) : F InvokeResponseData :=
  let! f := (match fields with Some m => let! b := lift_fin m in ret (Some b) | None => ret None end) in
  λ s, let '(s, r) := invoke_for_data 0 cluster command f timed s in (s, map_err FSession r).

Definition request_cert (step : string) (cert_type : Z) : F bytes :=
  let! resp := send CLUSTER_OPERATIONAL_CREDENTIALS CMD_CERT_CHAIN_REQUEST
                 (Some (encode_cert_chain_request cert_type)) None in
  let! f := lift (fields_of step resp) in
  lift (comm_error (decode_cert_chain_response f)).

(** A failure is logged and the steps go on. *)
Definition carry_on (m : F ()) : F () := λ s,
  match m s with (s, Err _) => (s, Ok ()) | o => o end.

Definition regulatory_step : F () := carry_on (
  let! resp := send CLUSTER_GENERAL_COMMISSIONING CMD_SET_REGULATORY_CONFIG
                 (Some (encode_set_regulatory_config 2 (ascii "XX") 2)) None in
  lift (check_commissioning_response "set-regulatory" resp)).

(** Step 5: the device's certificates and its signature over our nonce. *)
Definition attestation_step (challenge nonce : bytes) (paa cd_signers : list bytes) (wall : option Z) : F bytes :=
  let! resp := send CLUSTER_OPERATIONAL_CREDENTIALS CMD_ATTESTATION_REQUEST
                 (Some (encode_attestation_request nonce)) None in
  let! f := lift (fields_of "attestation" resp) in
  let! (elements, att_sig) := lift (comm_error (decode_attestation_response f)) in
  let! dac := request_cert "dac" CERT_TYPE_DAC in
  let! pai := request_cert "pai" CERT_TYPE_PAI in
  lift (map_err FAttestation (snd (verify_device_attestation wall dac pai paa cd_signers elements att_sig nonce challenge []))) ;;!
  ret dac.

(** Step 6: the device's operational key. *)
Definition csr_step (challenge csr_nonce dac : bytes) : F bytes :=
  let! resp := send CLUSTER_OPERATIONAL_CREDENTIALS CMD_CSR_REQUEST (Some (encode_csr_request csr_nonce)) None in
  let! f := lift (fields_of "csr" resp) in
  let! (nocsr_elements, nocsr_sig) := lift (comm_error (decode_csr_response f)) in
  let! dac_cert := lift (map_err (λ _, FCsr "dac reparse") (parse_x509 dac)) in
  lift (map_err (λ _, FCsr "nocsr signature")
          (verify_ecdsa_p256 (xc_public_key dac_cert) (attestation_tbs nocsr_elements challenge) nocsr_sig)) ;;!
  let! (csr_der, returned_nonce) := lift (comm_error (parse_nocsr_elements nocsr_elements)) in
  if negb (bool_decide (returned_nonce = csr_nonce)) then throw (FCsr "csr nonce mismatch") else
  lift (map_err (λ _, FCsr "csr parse") (parse_csr csr_der)).

Definition add_root_step (rcac_tlv : bytes) : F () :=
  let! resp := send CLUSTER_OPERATIONAL_CREDENTIALS CMD_ADD_TRUSTED_ROOT (Some (encode_add_trusted_root rcac_tlv)) None in
  if negb (id_status resp =? 0) then throw (FCommandStatus "add-trusted-root" (id_status resp)) else ret ().

Definition add_noc_step (fabric : CommissioningFabric) (noc_tlv : bytes) : F (option Z) :=
  let! resp := send CLUSTER_OPERATIONAL_CREDENTIALS CMD_ADD_NOC
    (Some (encode_add_noc noc_tlv (cf_ipk_epoch fabric) (cf_admin_node_id fabric) 0xFFF1)) None in
  let! f := lift (fields_of "add-noc" resp) in
  let! (noc_status, fabric_index) := lift (comm_error (decode_noc_response f)) in
  if negb (noc_status =? 0) then throw (FNoc noc_status) else ret fabric_index.

(** An ArmFailSafe, checked. *)
Definition arm_step (step : string) (breadcrumb : Z) : F () :=
  let! resp := send CLUSTER_GENERAL_COMMISSIONING CMD_ARM_FAIL_SAFE (Some (encode_arm_fail_safe 120 breadcrumb)) None in
  lift (check_commissioning_response step resp).

Definition run_credential_steps `{Sha1} (fabric : CommissioningFabric) (device_node_id : Z) (paa cd_signers : list bytes)
    (wall : option Z) (nonce csr_nonce serial : bytes) : F (option Z) :=
  let! session := get in
  let challenge := session_challenge session in
  arm_step "arm-fail-safe" 1 ;;!
  regulatory_step ;;!
  let! dac := attestation_step challenge nonce paa cd_signers wall in
  let! device_pub := csr_step challenge csr_nonce dac in
  let! noc_tlv := lift (map_err FCert (issue_device_noc fabric device_pub device_node_id serial)) in
  add_root_step (cf_rcac_tlv fabric) ;;!
  add_noc_step fabric noc_tlv.

(** The last step of [operational_case_and_complete], over the CASE session. *)
Definition complete_step : F () :=
  let! resp := send CLUSTER_GENERAL_COMMISSIONING CMD_COMMISSIONING_COMPLETE None None in
  lift (check_commissioning_response "commissioning-complete" resp).

(** Steps 4 to 6 of [commission_btp_thread], after the credential steps. *)
Definition network_step (step : string) (command : Z) (fields : fin bytes)
    (decode : bytes → res CommissionError (Z * option bytes)) : F () :=
  let! resp := send CLUSTER_NETWORK_COMMISSIONING command (Some fields) None in
  let! f := lift (fields_of step resp) in
  let! (status, text) := lift (comm_error (decode f)) in
  if negb (status =? 0) then throw (FNetworkConfig step status text) else ret ().

Definition thread_steps (thread_dataset xpan : bytes) : F () :=
  network_step "add-thread-network" CMD_ADD_OR_UPDATE_THREAD (encode_add_or_update_thread_network thread_dataset 5)
    decode_network_config_response ;;!
  arm_step "re-arm-fail-safe" 6 ;;!
  network_step "connect-network" CMD_CONNECT_NETWORK (encode_connect_network xpan 7) decode_connect_network_response.

(** ** Opening a window ([window.rs]) *)

Definition INVALID_PASSCODES : list Z :=
  [0; 11111111; 22222222; 33333333; 44444444; 55555555; 66666666; 77777777; 88888888; 99999999; 12345678; 87654321].

Definition candidate_passcode (rng : bytes) : Z := le_val rng mod 99999998 + 1.

(** The draws until one is admissible. *)
Fixpoint random_valid_passcode (draws : list bytes) : res (ClientError SE) Z :=
  match draws with
  | [] => OutOfFuel
  | b :: draws =>
      if bool_decide (candidate_passcode b ∈ INVALID_PASSCODES) then random_valid_passcode draws
      else Ok (candidate_passcode b)
  end.

Definition random_discriminator (rng : bytes) : Z := Z.land (le_val rng) 0x0FFF.

Record OpenedWindow := {
  ow_passcode : Z;
  ow_discriminator : Z;
  ow_manual_code : bytes;
  ow_qr_payload : bytes;
  ow_timeout : Z
}.

Definition validate_window_params (discriminator iterations : Z) : FR () :=
  if 0x0FFF <? discriminator then Err (FInvalidArgument "discriminator must fit in 12 bits (<= 0x0FFF)")
  else if negb (contains PBKDF_ITERATIONS_MIN PBKDF_ITERATIONS_MAX iterations)
  then Err (FInvalidArgument "iterations must be in 1000..=100000")
  else Ok ().

Definition window_manual_code (passcode discriminator12 : Z) : SR bytes :=
  encode_manual_code passcode (wrap 8 (Z.shiftr discriminator12 8)).

Definition window_qr (passcode discriminator12 : Z) : SR bytes := encode_qr {|
  version := 0; pl_vendor_id := 0; product_id := 0; custom_flow := 0; discovery_capabilities := 0x04;
  discriminator := discriminator12; passcode := passcode |}.

(** [salt]: 32 random bytes.  A code that cannot be built is a panic, after the
    device has accepted. *)
Definition open_commissioning_window (timeout_s discriminator iterations : Z) (draws : list bytes) (salt : bytes) :
    F OpenedWindow :=
  lift (validate_window_params discriminator iterations) ;;!
  let! passcode := lift (map_err FSession (random_valid_passcode draws)) in
  let! verifier := lift_fin (compute_verifier passcode salt iterations) in
  let! resp := send CLUSTER_ADMIN_COMMISSIONING CMD_OPEN_COMMISSIONING_WINDOW
    (Some (encode_open_commissioning_window timeout_s verifier discriminator iterations salt)) (Some 10000) in
  if negb (id_status resp =? 0) then throw (FCommandStatus "open-window" (id_status resp)) else
  match window_manual_code passcode discriminator, window_qr passcode discriminator with
  | Ok manual, Ok qr =>
      ret {| ow_passcode := passcode; ow_discriminator := discriminator; ow_manual_code := manual;
             ow_qr_payload := qr; ow_timeout := timeout_s |}
  | _, _ => panic
  end.
End flow.
