(* ===== verification/Case.v ===== *)
(** * CASE: the certificate handshake

    Models [crates/mat-controller/src/case/wire.rs] (the Sigma codecs),
    [crates/mat-controller/src/case.rs] (the initiator [establish]),
    [crates/mat-controller/src/case_responder.rs] (the responder's state machine),
    the destination id of [fabric.rs], and on the device [core/case.rs] (the
    candidates of a rotated IPK) and the driver of [net/case.rs].

    P-256 key agreement, HMAC, HKDF, SHA-256, ECDSA and AES-CCM are third-party
    code: parameters.  Random draws are arguments. *)

From Stdlib Require Import String.
From S2P Require Import Prelude Tlv TlvValue Handler Message Counter Exchange Crypto Session Fabrics GroupKeys Im CommCodec Certs X509 Attestation Handshake Commissioner.

Open Scope string_scope.
Open Scope list_scope.
Open Scope Z_scope.

(** ** Key agreement

    [eph_public secret] is [eph_pub_bytes] (uncompressed SEC1), [agree secret pub]
    is [wire::ecdh]: [None] when [pub] is not a point. *)
Class Ecdh := {
  eph_public : bytes → bytes;
  agree : bytes → bytes → option bytes
}.

(** For the secrets that [random_p256_secret] returns, [eph_secret]. *)
Class EcdhLaws (D : Ecdh) := {
  eph_secret : bytes → Prop;
  eph_public_length a : eph_secret a → zlen (eph_public a) = 65 ∧ bytes_ok (eph_public a);
  agree_both a b : eph_secret a → eph_secret b → ∃ z, agree a (eph_public b) = Some z ∧ agree b (eph_public a) = Some z
}.

(** ** The wire ([case/wire.rs]) *)

Definition TBE2_NONCE : bytes := ascii "NCASE_Sigma2N".
Definition TBE3_NONCE : bytes := ascii "NCASE_Sigma3N".
Definition INFO_S2K : bytes := ascii "Sigma2".
Definition INFO_S3K : bytes := ascii "Sigma3".

Record Sigma1 := {
  s1_random : bytes;
  s1_session_id : Z;
  s1_dest_id : bytes;
  s1_eph_pub : bytes
}.

Record Sigma2 := {
  s2_random : bytes;
  s2_session_id : Z;
  s2_eph_pub : bytes;
  s2_encrypted2 : bytes
}.

Record Tbe := { tbe_noc : bytes; tbe_icac : option bytes; tbe_signature : bytes }.

Definition encode_sigma1 (random : bytes) (session_id : Z) (dest_id eph_pub : bytes) : fin bytes :=
  struct_of (put_bytes (Context 1) random ;;! put_uint (Context 2) session_id ;;! put_bytes (Context 3) dest_id ;;!
             put_bytes (Context 4) eph_pub ;;! end_container).

Definition sigma1_step (s : option bytes * option Z * option bytes * option bytes) (el : Element) :
    M Reader string (option bytes * option Z * option bytes * option bytes) :=
  let '(r, i, d, e) := s in
  match el_tag el, el_value el with
  | Context 1, VBytes b => let! b := sized_field 32 "sigma1 random length" b in ret (Some b, i, d, e)
  | Context 2, VUint v => let! v := narrow 16 "sigma1 session id" v in ret (r, Some v, d, e)
  | Context 3, VBytes b => let! b := sized_field 32 "sigma1 dest id length" b in ret (r, i, Some b, e)
  | Context 4, VBytes b => let! b := sized_field 65 "sigma1 eph length" b in ret (r, i, d, Some b)
  | _, _ => ret s
  end.

Definition parse_sigma1 (payload : bytes) : res string Sigma1 :=
  let? (r, i, d, e) :=
    decode_scalars "sigma1 top-level struct" "sigma1 tlv" "sigma1 truncated" sigma1_step (None, None, None, None) payload in
  let? r := ok_or r "sigma1 random" in
  let? i := ok_or i "sigma1 session id" in
  let? d := ok_or d "sigma1 dest id" in
  let? e := ok_or e "sigma1 eph" in
  Ok {| s1_random := r; s1_session_id := i; s1_dest_id := d; s1_eph_pub := e |}.

Definition encode_sigma2 (random : bytes) (session_id : Z) (eph encrypted2 : bytes) : fin bytes :=
  struct_of (put_bytes (Context 1) random ;;! put_uint (Context 2) session_id ;;! put_bytes (Context 3) eph ;;!
             put_bytes (Context 4) encrypted2 ;;! end_container).

Definition sigma2_step (s : option bytes * option Z * option bytes * option bytes) (el : Element) :
    M Reader string (option bytes * option Z * option bytes * option bytes) :=
  let '(r, i, e, c) := s in
  match el_tag el, el_value el with
  | Context 1, VBytes b => let! b := sized_field 32 "responder random length" b in ret (Some b, i, e, c)
  | Context 2, VUint v => let! v := narrow 16 "responder session id" v in ret (r, Some v, e, c)
  | Context 3, VBytes b => let! b := sized_field 65 "responder ephemeral key length" b in ret (r, i, Some b, c)
  | Context 4, VBytes b => ret (r, i, e, Some b)
  | _, _ => ret s
  end.

Definition parse_sigma2 (payload : bytes) : res string Sigma2 :=
  let? (r, i, e, c) := decode_scalars "top-level struct" "tlv" "truncated" sigma2_step (None, None, None, None) payload in
  let? i := ok_or i "responder session id" in
  if i =? 0 then Err "responder session id must be non-zero" else
  let? r := ok_or r "responder random" in
  let? e := ok_or e "responder ephemeral key" in
  let? c := ok_or c "encrypted2" in
  Ok {| s2_random := r; s2_session_id := i; s2_eph_pub := e; s2_encrypted2 := c |}.

Definition encode_sigma3 (encrypted3 : bytes) : fin bytes :=
  struct_of (put_bytes (Context 1) encrypted3 ;;! end_container).

Definition sigma3_step (s : option bytes) (el : Element) : M Reader string (option bytes) :=
  match el_tag el, el_value el with Context 1, VBytes b => ret (Some b) | _, _ => ret s end.

Definition parse_sigma3 (payload : bytes) : res string bytes :=
  let? c := decode_scalars "sigma3 top-level struct" "sigma3 tlv" "sigma3 truncated" sigma3_step None payload in
  ok_or c "sigma3 missing encrypted3".

Definition put_opt_bytes {E} (tag : Tag) (o : option bytes) (k : M Writer E ()) : M Writer E () :=
  match o with Some b => put_bytes tag b ;;! k | None => k end.

Definition encode_tbs (noc : bytes) (icac : option bytes) (sender_eph receiver_eph : bytes) : fin bytes :=
  struct_of (put_bytes (Context 1) noc ;;!
             put_opt_bytes (Context 2) icac (put_bytes (Context 3) sender_eph ;;! put_bytes (Context 4) receiver_eph ;;!
             end_container)).

Definition encode_tbe (noc : bytes) (icac : option bytes) (sig : bytes) (resumption_id : option bytes) : fin bytes :=
  struct_of (put_bytes (Context 1) noc ;;!
             put_opt_bytes (Context 2) icac (put_bytes (Context 3) sig ;;!
             put_opt_bytes (Context 4) resumption_id end_container)).

Definition tbe_step (s : option bytes * option bytes * option bytes) (el : Element) :
    M Reader string (option bytes * option bytes * option bytes) :=
  let '(n, i, g) := s in
  match el_tag el, el_value el with
  | Context 1, VBytes b => ret (Some b, i, g)
  | Context 2, VBytes b => ret (n, Some b, g)
  | Context 3, VBytes b => let! b := sized_field 64 "tbe signature length" b in ret (n, i, Some b)
  | _, _ => ret s
  end.

Definition parse_tbe (payload : bytes) : res string Tbe :=
  let? (n, i, g) := decode_scalars "tbe top-level struct" "tbe tlv" "tbe truncated" tbe_step (None, None, None) payload in
  let? n := ok_or n "tbe noc" in
  let? g := ok_or g "tbe signature" in
  Ok {| tbe_noc := n; tbe_icac := i; tbe_signature := g |}.

Definition s2k_salt (ipk responder_random responder_eph_pub sigma1_hash : bytes) : bytes :=
  ipk ++ responder_random ++ responder_eph_pub ++ sigma1_hash.
Definition s3k_salt (ipk sigma12_hash : bytes) : bytes := ipk ++ sigma12_hash.

Section keys.
Context `{Hkdf} `{Hmac}.

Definition derive_sigma_key (shared salt info : bytes) : bytes := hkdf (Some salt) shared info 16.

(** [case::derive_session_keys]. *)
Definition case_session_keys (shared ipk transcript : bytes) : SessionKeys := session_keys_from_hkdf (ipk ++ transcript) shared.

Definition case_destination_id (ipk_operational initiator_random root_public_key : bytes) (fabric_id node_id : Z) : bytes :=
  hmac ipk_operational (initiator_random ++ root_public_key ++ le_bytes 8 fabric_id ++ le_bytes 8 node_id).
End keys.

(** [as_deref().map(MatterCert::parse).transpose()]. *)
Definition parse_opt (o : option bytes) : res CertError (option MatterCert) :=
  match o with Some b => let? c := parse b in Ok (Some c) | None => Ok None end.

(** ** The initiator ([case.rs]) *)

Inductive CaseError (SE : Type) :=
  | CaExchange (e : SE)
  | CaUnexpectedMessage (stage : string) (op : Z)
  | CaPeerStatus (stage : string) (general_code protocol_code : Z)
  | CaSigma2NotAcked
  | CaSigma2Malformed (what : string)
  | CaStatusReportMalformed (stage : string)
  | CaTbe2DecryptFailed
  | CaPeerCertInvalid (e : CertError)
  | CaPeerIdentityMismatch (expected_node cert_node expected_fabric cert_fabric : Z)
  | CaSigma2SignatureInvalid
  | CaEstablishmentFailed (general_code protocol_code : Z)
  | CaCrypto (what : string).
Arguments CaExchange {SE} e.
Arguments CaUnexpectedMessage {SE} stage op.
Arguments CaPeerStatus {SE} stage general_code protocol_code.
Arguments CaSigma2NotAcked {SE}.
Arguments CaSigma2Malformed {SE} what.
Arguments CaStatusReportMalformed {SE} stage.
Arguments CaTbe2DecryptFailed {SE}.
Arguments CaPeerCertInvalid {SE} e.
Arguments CaPeerIdentityMismatch {SE} expected_node cert_node expected_fabric cert_fabric.
Arguments CaSigma2SignatureInvalid {SE}.
Arguments CaEstablishmentFailed {SE} general_code protocol_code.
Arguments CaCrypto {SE} what.

Section initiator.
Context {S SE : Type} `{Lk : HandshakeLink S SE}.
Context `{A : Aead} `{Ec : Ecdsa} `{D : Ecdh} `{Sha256} `{Hmac} `{Hkdf}.
Abbreviation CI := (M S (CaseError SE)).

Definition case_round (check : bool) (opc : Z) (payload : bytes) : CI (Z * bytes) := λ s,
  let '(s, r) := hl_request check opc payload s in
  (s, map_err (λ e, match e with RExchange e => CaExchange e | RNotAcked => CaSigma2NotAcked end) r).

(** The payload of the reply to Sigma1. *)
Definition expect_sigma2 (msg : Z * bytes) : CI bytes :=
  let '(op, payload) := msg in
  if op =? OPCODE_SIGMA2 then ret payload
  else if op =? OPCODE_STATUS_REPORT then
    match parse_status_report payload with
    | Some (general_code, _, protocol_code) => throw (CaPeerStatus "sigma1" general_code protocol_code)
    | None => throw (CaStatusReportMalformed "sigma1")
    end
  else throw (CaUnexpectedMessage "sigma1" op).

Definition decrypt_tbe2 (s2k encrypted2 : bytes) : res (CaseError SE) Tbe :=
  let? pt := map_err (λ _, CaTbe2DecryptFailed) (decrypt_payload s2k TBE2_NONCE [] encrypted2) in
  map_err CaSigma2Malformed (parse_tbe pt).

(** Sigma2's certificates and signature. *)
Definition verify_sigma2 (creds : FabricCredentials) (peer_node_id : Z) (t : Tbe) (responder_eph eph : bytes) :
    res (CaseError SE) () :=
  let? peer_noc := map_err CaPeerCertInvalid (parse (tbe_noc t)) in
  let? peer_icac := map_err CaPeerCertInvalid (parse_opt (tbe_icac t)) in
  let? our_rcac := map_err CaPeerCertInvalid (parse (fc_rcac_tlv creds)) in
  let? _ := map_err CaPeerCertInvalid (verify_noc_chain peer_noc peer_icac our_rcac) in
  match mc_node_id peer_noc, mc_fabric_id peer_noc with
  | Some cert_node, Some cert_fabric =>
      if negb ((cert_node =? peer_node_id) && (cert_fabric =? fc_fabric_id creds))
      then Err (CaPeerIdentityMismatch peer_node_id cert_node (fc_fabric_id creds) cert_fabric) else
      let? tbs2 := fin_in (encode_tbs (tbe_noc t) (tbe_icac t) responder_eph eph) in
      map_err (λ _, CaSigma2SignatureInvalid) (verify_ecdsa_p256 (mc_pub_key peer_noc) tbs2 (tbe_signature t))
  | _, _ => Panic
  end.

(** The body of Sigma3 under the transcript of both Sigmas so far. *)
Definition make_sigma3 (creds : FabricCredentials) (shared eph responder_eph transcript : bytes) : res (CaseError SE) bytes :=
  let? tbs3 := fin_in (encode_tbs (fc_noc_tlv creds) (fc_icac_tlv creds) eph responder_eph) in
  let? signature := map_err (λ _, CaCrypto "sigma3 signature") (sign_ecdsa_p256 (fc_op_private_key creds) tbs3) in
  let? tbe3 := fin_in (encode_tbe (fc_noc_tlv creds) (fc_icac_tlv creds) signature None) in
  let s3k := derive_sigma_key shared (s3k_salt (fc_ipk_operational creds) (sha256 transcript)) INFO_S3K in
  let? encrypted3 := map_err (λ _, CaCrypto "sigma3 payload too large") (encrypt_payload s3k TBE3_NONCE [] tbe3) in
  fin_in (encode_sigma3 encrypted3).

Definition case_establish (creds : FabricCredentials) (peer_node_id : Z) (initiator_random eph_secret : bytes)
    (local_session_id : Z) : CI Established :=
  let eph_pub := eph_public eph_secret in
  let dest_id := case_destination_id (fc_ipk_operational creds) initiator_random (fc_root_public_key creds)
                   (fc_fabric_id creds) peer_node_id in
  let! sigma1 := lift (fin_in (encode_sigma1 initiator_random local_session_id dest_id eph_pub)) in
  let! msg := case_round true OPCODE_SIGMA1 sigma1 in
  let! sigma2_payload := expect_sigma2 msg in
  let! sigma2 := lift (map_err CaSigma2Malformed (parse_sigma2 sigma2_payload)) in
  let! shared := lift (ok_or (agree eph_secret (s2_eph_pub sigma2)) (CaSigma2Malformed "responder ephemeral key")) in
  let s2k := derive_sigma_key shared
               (s2k_salt (fc_ipk_operational creds) (s2_random sigma2) (s2_eph_pub sigma2) (sha256 sigma1)) INFO_S2K in
  let! tbe2 := lift (decrypt_tbe2 s2k (s2_encrypted2 sigma2)) in
  lift (verify_sigma2 creds peer_node_id tbe2 (s2_eph_pub sigma2) eph_pub) ;;!
  let! sigma3 := lift (make_sigma3 creds shared eph_pub (s2_eph_pub sigma2) (sigma1 ++ sigma2_payload)) in
  let! (op, payload) := case_round false OPCODE_SIGMA3 sigma3 in
  if negb (op =? OPCODE_STATUS_REPORT) then throw (CaUnexpectedMessage "sigma3" op) else
  match parse_status_report payload with
  | None => throw (CaStatusReportMalformed "sigma3")
  | Some report =>
      if negb (bool_decide (report = STATUS_REPORT_SUCCESS))
      then throw (CaEstablishmentFailed (fst (fst report)) (snd report)) else
      ret {| es_local_session_id := local_session_id; es_peer_session_id := s2_session_id sigma2;
             es_keys := case_session_keys shared (fc_ipk_operational creds) (sha256 (sigma1 ++ sigma2_payload ++ sigma3));
             es_local_node_id := fc_node_id creds; es_peer_node_id := peer_node_id |}
  end.
End initiator.

(** ** The responder ([case_responder.rs]) *)

Record CaseFabric := {
  cs_index : Z;
  cs_root_tlv : bytes;
  cs_noc_tlv : bytes;
  cs_icac_tlv : option bytes;
  cs_op_private_key : bytes;
  cs_ipk_operational : bytes;
  cs_node_id : Z;
  cs_fabric_id : Z;
  cs_root_public_key : bytes
}.

(** What a responder that has answered Sigma1 remembers. *)
Record Awaiting := {
  aw_fabric : CaseFabric;
  aw_shared : bytes;
  aw_sigma1 : bytes;
  aw_sigma2 : bytes;
  aw_responder_eph : bytes;
  aw_initiator_eph : bytes;
  aw_initiator_session_id : Z
}.

Inductive CaseState := CIdle | CAwaitSigma3 (w : Awaiting) | CEstablished.

Record CaseResponderCore := { cr_fabrics : list CaseFabric; cr_session_id : Z; cr_state : CaseState }.

Definition CaseResponderCore_new (fabrics : list CaseFabric) (responder_session_id : Z) : CaseResponderCore :=
  {| cr_fabrics := fabrics; cr_session_id := responder_session_id; cr_state := CIdle |}.
Definition set_case_state (st : CaseState) (s : CaseResponderCore) : CaseResponderCore :=
  {| cr_fabrics := cr_fabrics s; cr_session_id := cr_session_id s; cr_state := st |}.

Inductive CaseOutput :=
  | CReply (payload : bytes) (opc : Z)
  | CDone (reply : bytes) (opc : Z) (keys : SessionKeys) (peer_session_id peer_node_id : Z) (peer_cats : CaseAuthTags)
      (fabric_index : Z).

Inductive CaseCoreError :=
  | CUnexpectedMessage (op : Z)
  | CDecode (what : string)
  | CNoSharedTrustRoots
  | CTbe3DecryptFailed
  | CPeerCertInvalid (e : CertError)
  | CPeerFabricMismatch
  | CSigma3SignatureInvalid
  | CCrypto (what : string).

(** What the responder draws for a Sigma1. *)
Record CaseDraw := { cd_secret : bytes; cd_random : bytes; cd_resumption_id : bytes }.

Section responder.
Context `{A : Aead} `{Ec : Ecdsa} `{D : Ecdh} `{Sha256} `{Hmac} `{Hkdf}.
Abbreviation CR := (M CaseResponderCore CaseCoreError).

Definition dest_matches (s1 : Sigma1) (f : CaseFabric) : bool :=
  bool_decide (case_destination_id (cs_ipk_operational f) (s1_random s1) (cs_root_public_key f) (cs_fabric_id f) (cs_node_id f)
               = s1_dest_id s1).

(** Sigma2 for the fabric Sigma1 addresses. *)
Definition make_sigma2 (f : CaseFabric) (d : CaseDraw) (session_id : Z) (s1 : Sigma1) (payload shared : bytes) :
    res CaseCoreError bytes :=
  let eph := eph_public (cd_secret d) in
  let s2k := derive_sigma_key shared (s2k_salt (cs_ipk_operational f) (cd_random d) eph (sha256 payload)) INFO_S2K in
  let? tbs2 := fin_in (encode_tbs (cs_noc_tlv f) (cs_icac_tlv f) eph (s1_eph_pub s1)) in
  let? sig2 := map_err (λ _, CCrypto "sigma2 signature") (sign_ecdsa_p256 (cs_op_private_key f) tbs2) in
  let? tbe2 := fin_in (encode_tbe (cs_noc_tlv f) (cs_icac_tlv f) sig2 (Some (cd_resumption_id d))) in
  let? encrypted2 := map_err (λ _, CCrypto "sigma2 payload too large") (encrypt_payload s2k TBE2_NONCE [] tbe2) in
  fin_in (encode_sigma2 (cd_random d) session_id eph encrypted2).

Definition handle_sigma1 (d : CaseDraw) (payload : bytes) : CR CaseOutput :=
  let! s1 := lift (map_err CDecode (parse_sigma1 payload)) in
  let! s := get in
  let! f := lift (ok_or (List.find (dest_matches s1) (cr_fabrics s)) CNoSharedTrustRoots) in
  let! shared := lift (ok_or (agree (cd_secret d) (s1_eph_pub s1)) (CDecode "initiator ephemeral key")) in
  let! sigma2 := lift (make_sigma2 f d (cr_session_id s) s1 payload shared) in
  modify (set_case_state (CAwaitSigma3 {| aw_fabric := f; aw_shared := shared; aw_sigma1 := payload; aw_sigma2 := sigma2;
    aw_responder_eph := eph_public (cd_secret d); aw_initiator_eph := s1_eph_pub s1;
    aw_initiator_session_id := s1_session_id s1 |})) ;;!
  ret (CReply sigma2 OPCODE_SIGMA2).

(** The initiator's certificates and signature: its node id and tags. *)
Definition verify_sigma3 (w : Awaiting) (t : Tbe) : res CaseCoreError (Z * CaseAuthTags) :=
  let f := aw_fabric w in
  let? init_noc := map_err CPeerCertInvalid (parse (tbe_noc t)) in
  let? init_icac := map_err CPeerCertInvalid (parse_opt (tbe_icac t)) in
  let? root := map_err CPeerCertInvalid (parse (cs_root_tlv f)) in
  let? _ := map_err CPeerCertInvalid (verify_noc_chain init_noc init_icac root) in
  match mc_node_id init_noc with
  | None => Panic
  | Some peer_node_id =>
  let? peer_cats := map_err CPeerCertInvalid (cats init_noc) in
  match mc_fabric_id init_noc with
  | None => Panic
  | Some peer_fabric_id =>
  if negb (peer_fabric_id =? cs_fabric_id f) then Err CPeerFabricMismatch else
  let? tbs3 := fin_in (encode_tbs (tbe_noc t) (tbe_icac t) (aw_initiator_eph w) (aw_responder_eph w)) in
  let? _ := map_err (λ _, CSigma3SignatureInvalid) (verify_ecdsa_p256 (mc_pub_key init_noc) tbs3 (tbe_signature t)) in
  Ok (peer_node_id, peer_cats)
  end end.

(** TBE3 out of a Sigma3 payload. *)
Definition open_sigma3 (w : Awaiting) (payload : bytes) : res CaseCoreError Tbe :=
  let? encrypted3 := map_err CDecode (parse_sigma3 payload) in
  let s3k := derive_sigma_key (aw_shared w)
               (s3k_salt (cs_ipk_operational (aw_fabric w)) (sha256 (aw_sigma1 w ++ aw_sigma2 w))) INFO_S3K in
  let? tbe3 := map_err (λ _, CTbe3DecryptFailed) (decrypt_payload s3k TBE3_NONCE [] encrypted3) in
  map_err CDecode (parse_tbe tbe3).

(** The state is [Established] from the first line on. *)
Definition handle_sigma3 (w : Awaiting) (payload : bytes) : CR CaseOutput :=
  modify (set_case_state CEstablished) ;;!
  let! t := lift (open_sigma3 w payload) in
  let! (peer_node_id, peer_cats) := lift (verify_sigma3 w t) in
  let keys := case_session_keys (aw_shared w) (cs_ipk_operational (aw_fabric w))
                (sha256 (aw_sigma1 w ++ aw_sigma2 w ++ payload)) in
  ret (CDone (encode_status_report 0 0 0) OPCODE_STATUS_REPORT keys (aw_initiator_session_id w) peer_node_id peer_cats
         (cs_index (aw_fabric w))).

Definition case_on_message (d : CaseDraw) (opc : Z) (payload : bytes) : CR CaseOutput :=
  let! s := get in
  match cr_state s with
  | CIdle => if negb (opc =? OPCODE_SIGMA1) then throw (CUnexpectedMessage opc) else handle_sigma1 d payload
  | CAwaitSigma3 w => if negb (opc =? OPCODE_SIGMA3) then throw (CUnexpectedMessage opc) else handle_sigma3 w payload
  | CEstablished => throw (CUnexpectedMessage opc)
  end.
End responder.

(** ** The device ([core/case.rs], [net/case.rs]) *)

Definition case_fabric (e : FabricEntry) : CaseFabric := {|
  cs_index := fe_index e; cs_root_tlv := fe_root_tlv e; cs_noc_tlv := fe_noc_tlv e; cs_icac_tlv := fe_icac_tlv e;
  cs_op_private_key := fe_op_private_key e; cs_ipk_operational := fe_ipk_operational e; cs_node_id := fe_node_id e;
  cs_fabric_id := fe_fabric_id e; cs_root_public_key := fe_root_public_key e |}.

Definition with_ipk (ipk : bytes) (e : FabricEntry) : FabricEntry := {|
  fe_index := fe_index e; fe_root_tlv := fe_root_tlv e; fe_noc_tlv := fe_noc_tlv e; fe_icac_tlv := fe_icac_tlv e;
  fe_op_private_key := fe_op_private_key e; fe_ipk_operational := ipk; fe_node_id := fe_node_id e;
  fe_fabric_id := fe_fabric_id e; fe_root_public_key := fe_root_public_key e; fe_admin_subject := fe_admin_subject e;
  fe_admin_vendor_id := fe_admin_vendor_id e; fe_label := fe_label e |}.

Section device.
Context `{A : Aead} `{Ec : Ecdsa} `{D : Ecdh} `{Sha256} `{Hmac} `{Hkdf}.

(** One candidate per IPK epoch, the newest first. *)
Fixpoint expand_ipk_candidates (fabrics : list FabricEntry) (gk : GroupKeyStore) : list FabricEntry :=
  match fabrics with
  | [] => []
  | entry :: fabrics =>
      match ipk_keyset (fe_index entry) gk with
      | None => [entry]
      | Some ipk =>
          let cfid := compressed_fabric_id (fe_root_public_key entry) (fe_fabric_id entry) in
          map (λ '(epoch, _), with_ipk (derive_ipk_operational epoch cfid) entry) (rev (ks_epochs ipk))
      end ++ expand_ipk_candidates fabrics gk
  end.

(** The loop of [drive_established] between two messages. *)
Record CaseDevice := {
  dv_core : option CaseResponderCore;
  dv_established : option (Established * CaseAuthTags * Z)
}.

Definition status_report_failure (e : CaseCoreError) : bytes :=
  encode_status_report GENERAL_CODE_FAILURE PROTOCOL_ID_SECURE_CHANNEL
    (match e with CNoSharedTrustRoots => SC_PROTOCOL_CODE_NO_SHARED_TRUST_ROOTS | _ => SC_PROTOCOL_CODE_INVALID_PARAMETER end).

(** [UnknownFabricIndex] when no entry has the index, after the reply. *)
Definition device_session (fabrics : list FabricEntry) (responder_session_id : Z) (keys : SessionKeys) (peer peer_node : Z)
    (tags : CaseAuthTags) (fabric_index : Z) : option (Established * CaseAuthTags * Z) :=
  f ← List.find (λ e, fe_index e =? fabric_index) fabrics;
  Some ({| es_local_session_id := responder_session_id; es_peer_session_id := peer; es_keys := keys;
           es_local_node_id := fe_node_id f; es_peer_node_id := peer_node |}, tags, fabric_index).

(** [fabrics] is the snapshot; [Err ()]: nothing more comes on this exchange. *)
Definition case_drive (fabrics : list FabricEntry) (d : CaseDraw) (opc : Z) (payload : bytes) (s : CaseDevice) :
    CaseDevice * res () (Z * bytes) :=
  match dv_core s with
  | None => (s, Err ())
  | Some core =>
      match case_on_message d opc payload core with
      | (core, Ok (CReply reply op)) => ({| dv_core := Some core; dv_established := dv_established s |}, Ok (op, reply))
      | (core, Ok (CDone reply op keys peer peer_node tags index)) =>
          ({| dv_core := None; dv_established := device_session fabrics (cr_session_id core) keys peer peer_node tags index |},
           Ok (op, reply))
      | (_, Err e) => ({| dv_core := None; dv_established := dv_established s |}, Ok (OPCODE_STATUS_REPORT, status_report_failure e))
      | (_, Panic) => (s, Panic)
      | (_, OutOfFuel) => (s, OutOfFuel)
      end
  end.

Definition case_device (fabrics : list FabricEntry) (responder_session_id : Z) : CaseDevice := {|
  dv_core := Some (CaseResponderCore_new (map case_fabric fabrics) responder_session_id); dv_established := None |}.
End device.
