(* ===== verification/CaseRun.v ===== *)
(** * The certificate handshake, both ends

    Proofs over [Case.v]: the codecs, what each end has verified when it
    establishes, every input of the responder, and the agreement of the two ends. *)

From Stdlib Require Import String.
From S2P Require Import Prelude Tlv TlvValue Handler Message Counter Exchange Crypto Session Fabrics GroupKeys Im CommCodec Certs X509 Attestation Handshake Spake Commissioning Commissioner Case.

(** ** The codecs *)

Definition opt_field (c : Z) (o : option bytes) : list (Z * Value) := match o with Some b => [(c, VBytes b)] | None => [] end.
Definition leaves (ch : list (Z * Value)) : list tree := map (λ '(c, v), Leaf (Context c) v) ch.

Lemma emits_opt_bytes c o {E} (k : M Writer E ()) ch : emits k (leaves ch) →
  emits (put_opt_bytes (Context c) o k) (leaves (opt_field c o ++ ch)).
Proof. intros Hk. destruct o as [b|]; [by apply emits_bytes|done]. Qed.

Lemma fok_opt c o ch : 0 ≤ c < 256 → from_option (λ b, bytes_ok b ∧ zlen b < 2 ^ 32) True o → Forall field_ok ch →
  Forall field_ok (opt_field c o ++ ch).
Proof. intros Hc Ho Hch. destruct o as [b|]; [|done]. cbn [from_option] in Ho. destruct Ho as [Hb Hl]. by apply fok_bytes. Qed.

Lemma sigma1_carried r i d e : has_size 32 r → in_u 16 i → has_size 32 d → has_size 65 e →
  carries (encode_sigma1 r i d e) parse_sigma1 {| s1_random := r; s1_session_id := i; s1_dest_id := d; s1_eph_pub := e |}.
Proof.
  intros [Hrl Hr] Hi [Hdl Hd] [Hel He]. set (ch := [(1, VBytes r); (2, VUint i); (3, VBytes d); (4, VBytes e)]).
  assert (Forall field_ok ch) as Hch by (unfold ch; fields_ok).
  destruct (message_at (put_bytes (Context 1) r ;;! put_uint (Context 2) i ;;! put_bytes (Context 3) d ;;! put_bytes (Context 4) e ;;! end_container) ch)
    as (Hen & Hbo & Hsm); [apply emits_bytes, emits_uint, emits_bytes, emits_bytes, emits_end|done|done|].
  exists (enc_tree (flat ch)). split; [exact Hen|]. split; [done|]. split; [done|]. unfold parse_sigma1.
  erewrite decode_flat; [|exact Hch|done|unfold ch; read_fields]. reflexivity.
Qed.

Lemma sigma2_carried r i e c : has_size 32 r → in_u 16 i → i ≠ 0 → has_size 65 e → bytes_ok c → zlen c < 2 ^ 32 →
  carries (encode_sigma2 r i e c) parse_sigma2 {| s2_random := r; s2_session_id := i; s2_eph_pub := e; s2_encrypted2 := c |}.
Proof.
  intros [Hrl Hr] Hi Hi0 [Hel He] Hc Hcl. set (ch := [(1, VBytes r); (2, VUint i); (3, VBytes e); (4, VBytes c)]).
  assert (Forall field_ok ch) as Hch by (unfold ch; fields_ok).
  destruct (message_at (put_bytes (Context 1) r ;;! put_uint (Context 2) i ;;! put_bytes (Context 3) e ;;! put_bytes (Context 4) c ;;! end_container) ch)
    as (Hen & Hbo & Hsm); [apply emits_bytes, emits_uint, emits_bytes, emits_bytes, emits_end|done|done|].
  exists (enc_tree (flat ch)). split; [exact Hen|]. split; [done|]. split; [done|]. unfold parse_sigma2.
  erewrite decode_flat; [|exact Hch|done|unfold ch; read_fields]. cbn [res_bind ok_or]. by rewrite (proj2 (Z.eqb_neq i 0)).
Qed.

Lemma sigma3_carried c : bytes_ok c → zlen c < 2 ^ 32 → carries (encode_sigma3 c) parse_sigma3 c.
Proof.
  intros Hc Hcl. assert (Forall field_ok [(1, VBytes c)]) as Hch by fields_ok.
  destruct (message_at (put_bytes (Context 1) c ;;! end_container) [(1, VBytes c)]) as (Hen & Hbo & Hsm); [apply emits_bytes, emits_end|done|done|].
  exists (enc_tree (flat [(1, VBytes c)])). split; [exact Hen|]. split; [done|]. split; [done|]. unfold parse_sigma3.
  erewrite decode_flat; [|exact Hch|done|read_fields]. reflexivity.
Qed.

Lemma tbs_at noc icac s r : ∃ b, encode_tbs noc icac s r = Ok b.
Proof. eexists. apply struct_of_emits, emits_bytes. apply (emits_opt_bytes _ _ _ [(3, VBytes s); (4, VBytes r)]), emits_bytes, emits_bytes, emits_end. Qed.

(** Short enough for the AEAD. *)
Definition cert_blob (b : bytes) : Prop := bytes_ok b ∧ zlen b ≤ 20000.

Lemma tbe_carried noc icac sig id : cert_blob noc → from_option cert_blob True icac → has_size 64 sig →
  from_option (has_size 16) True id →
  ∃ b, encode_tbe noc icac sig id = Ok b ∧ bytes_ok b ∧ zlen b ≤ MAX_CCM_PAYLOAD ∧
    parse_tbe b = Ok {| tbe_noc := noc; tbe_icac := icac; tbe_signature := sig |}.
Proof.
  intros [Hn Hnl] Hi [Hgl Hg] Hid. set (ch := (1, VBytes noc) :: opt_field 2 icac ++ (3, VBytes sig) :: opt_field 4 id ++ []).
  assert (Forall field_ok ch) as Hch.
  { unfold ch. apply fok_bytes; [lia|done|lia|]. apply fok_opt; [lia| |].
    - destruct icac as [c|]; cbn [from_option] in *; [destruct Hi; split; [done|lia]|done].
    - apply fok_bytes; [lia|done|lia|]. apply fok_opt; [lia| |constructor]. destruct id as [c|]; cbn [from_option] in *; [destruct Hid; split; [done|lia]|done]. }
  assert (zlen ch ≤ 4) as Hn4 by (unfold ch; destruct icac, id; done).
  destruct (message_at (put_bytes (Context 1) noc ;;! put_opt_bytes (Context 2) icac (put_bytes (Context 3) sig ;;! put_opt_bytes (Context 4) id end_container)) ch)
    as (Hen & Hbo & Hsm); [|done|lia|].
  { apply emits_bytes, (emits_opt_bytes 2 icac), emits_bytes, (emits_opt_bytes 4 id _ []), emits_end. }
  exists (enc_tree (flat ch)). split; [exact Hen|]. split; [done|]. split.
  - assert (zlen (enc_tree (flat ch)) ≤ 40000 + 64 + 16 + 80) as Hz; [|unfold MAX_CCM_PAYLOAD; lia].
    pose proof (zlen_bytes_leaf (Context 1) noc). pose proof (zlen_bytes_leaf (Context 3) sig).
    unfold flat. cbn [enc_tree]. unfold enc_elem. cbn [body_of start_of tag_bytes]. rewrite !zlen_app.
    unfold ch. destruct icac as [c|], id as [c'|]; cbn [from_option opt_field app map concat] in *; rewrite ?zlen_app;
      try (pose proof (zlen_bytes_leaf (Context 2) c)); try (pose proof (zlen_bytes_leaf (Context 4) c')).
    all: try match type of Hi with cert_blob _ => destruct Hi as [_ Hi] end; try match type of Hid with has_size _ _ => destruct Hid as [Hid _] end.
    all: repeat match goal with |- context [zlen ?l] => match l with [] => change (zlen l) with 0 | [_] => change (zlen l) with 1 end end.
    all: cbn [enc_tree] in *; lia.
  - unfold parse_tbe. erewrite decode_flat; [|exact Hch|lia|].
    2: { unfold ch. destruct icac as [c|], id as [c'|]; cbn [opt_field app]; read_fields. }
    reflexivity.
Qed.

(** ** What a verified TBE proves

    Its certificates chain to the root, and the leaf's key signed these very
    certificates with the two ephemeral keys of this handshake. *)
Section verified.
Context `{A : Aead} `{Ec : Ecdsa} `{D : Ecdh} `{Hash : Sha256} `{Mac : Hmac} `{Kdf : Hkdf}.

Definition proves (root_tlv : bytes) (t : Tbe) (sender_eph receiver_eph : bytes) (noc : MatterCert) : Prop :=
  parse (tbe_noc t) = Ok noc ∧ ∃ icac rcac tbs, parse_opt (tbe_icac t) = Ok icac ∧ parse root_tlv = Ok rcac ∧
    chain_ok noc icac rcac ∧ encode_tbs (tbe_noc t) (tbe_icac t) sender_eph receiver_eph = Ok tbs ∧
    verify_ecdsa_p256 (mc_pub_key noc) tbs (tbe_signature t) = Ok ().

Lemma chain_names noc icac rcac : chain_ok noc icac rcac → is_Some (mc_node_id noc) ∧ is_Some (mc_fabric_id noc).
Proof. intros (_ & _ & _ & _ & _ & _ & Hn & f & Hf & _). by rewrite Hf. Qed.

Lemma sigma2_verified {SE} creds peer t responder_eph eph :
  verify_sigma2 (SE:=SE) creds peer t responder_eph eph = Ok () ↔
  ∃ noc, proves (fc_rcac_tlv creds) t responder_eph eph noc ∧ mc_node_id noc = Some peer ∧ mc_fabric_id noc = Some (fc_fabric_id creds).
Proof.
  unfold verify_sigma2, proves. destruct (tbs_at (tbe_noc t) (tbe_icac t) responder_eph eph) as [tbs Ht].
  split.
  - destruct (parse (tbe_noc t)) as [noc|e| |] eqn:Hn; try done. cbn [map_err res_bind].
    destruct (parse_opt (tbe_icac t)) as [icac|e| |] eqn:Hi; try done. cbn [map_err res_bind].
    destruct (parse (fc_rcac_tlv creds)) as [rcac|e| |] eqn:Hr; try done. cbn [map_err res_bind].
    destruct (verify_noc_chain noc icac rcac) as [ []|e| |] eqn:Hc; try done. apply chain_decided in Hc. cbn [map_err res_bind].
    destruct (mc_node_id noc) as [n|] eqn:Hnode; [|done]. destruct (mc_fabric_id noc) as [f|] eqn:Hfab; [|done].
    destruct (Z.eqb_spec n peer) as [->|]; [|done]. destruct (Z.eqb_spec f (fc_fabric_id creds)) as [->|]; [|done]. cbn [andb negb].
    rewrite Ht. cbn [fin_in res_bind]. destruct (verify_ecdsa_p256 _ _ _) as [ []|e| |] eqn:Hv; try done. intros _.
    exists noc. split; [|done]. split; [done|]. exists icac, rcac, tbs. done.
  - intros (noc & (Hn & icac & rcac & tbs' & Hi & Hr & Hc & Ht' & Hv) & Hnode & Hfab). rewrite Ht in Ht'. apply Ok_inj in Ht' as <-.
    apply chain_decided in Hc. rewrite Hn, Hi, Hr. cbn [map_err res_bind]. rewrite Hc, Hnode, Hfab. cbn [map_err res_bind].
    rewrite !Z.eqb_refl. cbn [andb negb]. rewrite Ht. cbn [fin_in res_bind]. by rewrite Hv.
Qed.

Lemma sigma3_verified w t n tags :
  verify_sigma3 w t = Ok (n, tags) ↔
  ∃ noc, proves (cs_root_tlv (aw_fabric w)) t (aw_initiator_eph w) (aw_responder_eph w) noc ∧
    mc_node_id noc = Some n ∧ mc_fabric_id noc = Some (cs_fabric_id (aw_fabric w)) ∧ cats noc = Ok tags.
Proof.
  unfold verify_sigma3, proves. destruct (tbs_at (tbe_noc t) (tbe_icac t) (aw_initiator_eph w) (aw_responder_eph w)) as [tbs Ht].
  split.
  - destruct (parse (tbe_noc t)) as [noc|e| |] eqn:Hn; try done. cbn [map_err res_bind].
    destruct (parse_opt (tbe_icac t)) as [icac|e| |] eqn:Hi; try done. cbn [map_err res_bind].
    destruct (parse (cs_root_tlv (aw_fabric w))) as [rcac|e| |] eqn:Hr; try done. cbn [map_err res_bind].
    destruct (verify_noc_chain noc icac rcac) as [ []|e| |] eqn:Hc; try done. apply chain_decided in Hc. cbn [map_err res_bind].
    destruct (mc_node_id noc) as [n'|] eqn:Hnode; [|done]. destruct (cats noc) as [tags'|e| |] eqn:Hcats; try done. cbn [map_err res_bind].
    destruct (mc_fabric_id noc) as [f|] eqn:Hfab; [|done].
    destruct (Z.eqb_spec f (cs_fabric_id (aw_fabric w))) as [->|]; [|done]. cbn [negb].
    rewrite Ht. cbn [fin_in res_bind]. destruct (verify_ecdsa_p256 _ _ _) as [ []|e| |] eqn:Hv; try done. intros [= <- <-].
    exists noc. split; [|done]. split; [done|]. exists icac, rcac, tbs. done.
  - intros (noc & (Hn & icac & rcac & tbs' & Hi & Hr & Hc & Ht' & Hv) & Hnode & Hfab & Hcats). rewrite Ht in Ht'. apply Ok_inj in Ht' as <-.
    apply chain_decided in Hc. rewrite Hn, Hi, Hr. cbn [map_err res_bind]. rewrite Hc, Hnode, Hfab. cbn [map_err res_bind]. rewrite Hcats. cbn [map_err res_bind].
    rewrite !Z.eqb_refl. cbn [negb]. rewrite Ht. cbn [fin_in res_bind]. by rewrite Hv.
Qed.
End verified.

(** ** The initiator accepts nobody else *)

Section initiator.
Context {S SE : Type} `{Lk : HandshakeLink S SE}.
Context `{A : Aead} `{Ec : Ecdsa} `{D : Ecdh} `{Hash : Sha256} `{Mac : Hmac} `{Kdf : Hkdf}.

Lemma lift_inv {E X B} (m : res E X) (k : X → M S E B) s s' b : (let! x := lift m in k x) s = (s', Ok b) →
  ∃ x, m = Ok x ∧ k x s = (s', Ok b).
Proof. unfold lift, bind. destruct m; [|done..]. by eexists. Qed.

Lemma round_inv {B} check opc payload (k : Z * bytes → M S (CaseError SE) B) s s' b :
  (let! x := case_round check opc payload in k x) s = (s', Ok b) →
  ∃ s1 x, hl_request check opc payload s = (s1, Ok x) ∧ k x s1 = (s', Ok b).
Proof.
  unfold case_round, bind. destruct (hl_request check opc payload s) as [s1 [x|e| |] ]; cbn [map_err]; [|done..]. intros Hk. by exists s1, x.
Qed.

(** C4. Whoever answers, on whatever network, a CASE initiator establishes only
    with the node it asked for.  The Sigma2 it accepted was encrypted under a key
    derived from our fabric's identity protection key and our ephemeral secret;
    the certificates in it chain to our root and name that node in our fabric;
    and their key signed the two ephemeral keys of this very handshake.  The
    responder then reported success, and the session's keys cover all three
    messages. *)
Theorem case_initiator_authenticates creds peer rnd eph sid s s' es :
  case_establish creds peer rnd eph sid s = (s', Ok es) →
  ∃ sigma1 sigma2_payload sigma2 shared t noc sigma3 s1 report,
    encode_sigma1 rnd sid (case_destination_id (fc_ipk_operational creds) rnd (fc_root_public_key creds) (fc_fabric_id creds) peer)
      (eph_public eph) = Ok sigma1 ∧
    hl_request true OPCODE_SIGMA1 sigma1 s = (s1, Ok (OPCODE_SIGMA2, sigma2_payload)) ∧
    parse_sigma2 sigma2_payload = Ok sigma2 ∧ agree eph (s2_eph_pub sigma2) = Some shared ∧
    decrypt_tbe2 (SE:=SE) (derive_sigma_key shared
      (s2k_salt (fc_ipk_operational creds) (s2_random sigma2) (s2_eph_pub sigma2) (sha256 sigma1)) INFO_S2K) (s2_encrypted2 sigma2) = Ok t ∧
    proves (fc_rcac_tlv creds) t (s2_eph_pub sigma2) (eph_public eph) noc ∧
    mc_node_id noc = Some peer ∧ mc_fabric_id noc = Some (fc_fabric_id creds) ∧
    make_sigma3 (SE:=SE) creds shared (eph_public eph) (s2_eph_pub sigma2) (sigma1 ++ sigma2_payload) = Ok sigma3 ∧
    hl_request false OPCODE_SIGMA3 sigma3 s1 = (s', Ok (OPCODE_STATUS_REPORT, report)) ∧
    parse_status_report report = Some STATUS_REPORT_SUCCESS ∧
    es = {| es_local_session_id := sid; es_peer_session_id := s2_session_id sigma2;
            es_keys := case_session_keys shared (fc_ipk_operational creds) (sha256 (sigma1 ++ sigma2_payload ++ sigma3));
            es_local_node_id := fc_node_id creds; es_peer_node_id := peer |}.
Proof.
  unfold case_establish. intros (sigma1 & H1 & Hrun)%lift_inv. destruct (round_inv _ _ _ _ _ _ _ Hrun) as (s1 & [op p2] & Hr1 & Hrun1). clear Hrun.
  unfold expect_sigma2 in Hrun1. destruct (Z.eqb_spec op OPCODE_SIGMA2) as [->|_].
  2: { destruct (op =? OPCODE_STATUS_REPORT); [|done]. by destruct (parse_status_report p2) as [[[a b] c]|]. }
  rewrite (bind_ok _ _ _ _ p2) in Hrun1 by done.
  apply lift_inv in Hrun1 as (sigma2 & H2 & Hrun2). apply lift_inv in Hrun2 as (shared & H3 & Hrun3).
  apply lift_inv in Hrun3 as (t & H4 & Hrun4). apply lift_inv in Hrun4 as ([] & H5 & Hrun5). apply sigma2_verified in H5 as (noc & Hp & Hn & Hf).
  apply lift_inv in Hrun5 as (sigma3 & H6 & Hrun6). destruct (round_inv _ _ _ _ _ _ _ Hrun6) as (s2 & [op3 p3] & Hr3 & Hrun7). clear Hrun6.
  destruct (Z.eqb_spec op3 OPCODE_STATUS_REPORT) as [->|_]; [|done]. cbn [negb] in Hrun7.
  destruct (parse_status_report p3) as [report|] eqn:Hrep; [|done]. case_bool_decide as Hok; [|done]. subst report. cbn [negb] in Hrun7.
  injection Hrun7 as <- <-.
  assert (encode_sigma1 rnd sid (case_destination_id (fc_ipk_operational creds) rnd (fc_root_public_key creds) (fc_fabric_id creds) peer)
      (eph_public eph) = Ok sigma1) as He1 by (by destruct (encode_sigma1 _ _ _ _) as [b|[]| |]; [injection H1 as ->|..]).
  assert (parse_sigma2 p2 = Ok sigma2) as He2 by (by destruct (parse_sigma2 p2); [injection H2 as ->|..]).
  assert (agree eph (s2_eph_pub sigma2) = Some shared) as He3 by (by destruct (agree _ _); [injection H3 as ->|]).
  exists sigma1, p2, sigma2, shared, t, noc, sigma3, s1, p3. done.
Qed.
End initiator.

(** ** The responder *)

Section responder.
Context `{A : Aead} `{!AeadLaws A} `{Ec : Ecdsa} `{D : Ecdh} `{Hash : Sha256} `{Mac : Hmac} `{Kdf : Hkdf}.

Lemma sigma1_total payload : bytes_ok payload → small payload →
  match parse_sigma1 payload with
  | Ok s => has_size 32 (s1_random s) ∧ in_u 16 (s1_session_id s) ∧ has_size 32 (s1_dest_id s) ∧ has_size 65 (s1_eph_pub s)
  | Err _ => True
  | _ => False
  end.
Proof.
  intros Hb Hs. unfold parse_sigma1.
  set (I := λ s : option bytes * option Z * option bytes * option bytes, let '(r, i, d, e) := s in
    from_option (has_size 32) True r ∧ from_option (in_u 16) True i ∧ from_option (has_size 32) True d ∧ from_option (has_size 65) True e).
  pose proof (decode_scalars_safe "sigma1 top-level struct" "sigma1 tlv" "sigma1 truncated" sigma1_step I (None, None, None, None) payload) as Hd.
  destruct (decode_scalars _ _ _ _ _ _) as [[[[r i] d] e]|er| |]; cbn [res_bind].
  1: specialize (λ h, Hd h (conj Logic.I (conj Logic.I (conj Logic.I Logic.I))) Hb Hs).
  1: destruct Hd as (Hr & Hi & Hd' & He); [|destruct r; [|done]; destruct i; [|done]; destruct d; [|done]; by destruct e].
  all: try done.
  2-3: apply Hd; [|done..].
  all: intros [[[r' i'] d'] e'] el (Hr' & Hi' & Hd1 & He') [_ Hv]; unfold sigma1_step; repeat case_match; try (by apply safe_ret);
    (eapply safe_bind; [first [apply safe_narrow|apply safe_sized; by destruct Hv]|intros x Hx; by apply safe_ret]).
Qed.

Lemma sigma3_total payload : bytes_ok payload → small payload →
  match parse_sigma3 payload with Ok c => bytes_ok c | Err _ => True | _ => False end.
Proof.
  intros Hb Hs. unfold parse_sigma3.
  pose proof (decode_scalars_safe "sigma3 top-level struct" "sigma3 tlv" "sigma3 truncated" sigma3_step (from_option bytes_ok True) None payload) as Hd.
  destruct (decode_scalars _ _ _ _ _ _) as [[c|]|er| |]; cbn [res_bind ok_or]; try done; apply Hd; try done.
  all: intros s el Hs' [_ Hv]; unfold sigma3_step; repeat case_match; apply safe_ret; try done; cbn; by destruct Hv.
Qed.

Definition tbe_ok (t : Tbe) : Prop := bytes_ok (tbe_noc t) ∧ from_option bytes_ok True (tbe_icac t) ∧ has_size 64 (tbe_signature t).

Lemma tbe_total payload : bytes_ok payload → small payload →
  match parse_tbe payload with Ok t => tbe_ok t | Err _ => True | _ => False end.
Proof.
  intros Hb Hs. unfold parse_tbe.
  set (J := λ s : option bytes * option bytes * option bytes, let '(n, i, g) := s in
    from_option bytes_ok True n ∧ from_option bytes_ok True i ∧ from_option (has_size 64) True g).
  pose proof (decode_scalars_safe "tbe top-level struct" "tbe tlv" "tbe truncated" tbe_step J (None, None, None) payload) as Hd.
  destruct (decode_scalars _ _ _ _ _ _) as [[[n i] g]|er| |]; cbn [res_bind].
  1: specialize (λ h, Hd h (conj Logic.I (conj Logic.I Logic.I)) Hb Hs).
  1: destruct Hd as (Hn & Hi & Hg); [|destruct n; [|done]; cbn [ok_or res_bind]; destruct g; [|done]; done].
  all: try done.
  2-3: apply Hd; [|done..].
  all: intros [[n' i'] g'] el (Hn' & Hi' & Hg') [_ Hv]; unfold tbe_step; repeat case_match;
    try (apply safe_ret; unfold J; cbn [from_option]; first [done|by destruct Hv]);
    (eapply safe_bind; [apply safe_sized; by destruct Hv|intros x Hx; by apply safe_ret]).
Qed.

Lemma decrypted_small k n a c pt : decrypt_payload k n a c = Ok pt → bytes_ok c → bytes_ok pt ∧ small pt.
Proof.
  unfold decrypt_payload. destruct (Z.ltb_spec (MAX_CCM_PAYLOAD + MIC_LEN) (zlen c)) as [|Hl]; [done|].
  destruct (aead_decrypt k n a c) as [p|] eqn:Hd; [|done]. intros [= <-] Hc. split; [by eapply aead_dec_bytes|].
  pose proof (aead_dec_length _ _ _ _ _ Hd). unfold small, MAX_CCM_PAYLOAD, MIC_LEN in *. lia.
Qed.

Lemma decrypt_returns k n a c : returns (decrypt_payload k n a c).
Proof. unfold decrypt_payload. destruct (_ <? _); [done|]. by destruct (aead_decrypt _ _ _ _). Qed.
Lemma encrypt_returns k n a c : returns (encrypt_payload k n a c).
Proof. unfold encrypt_payload. destruct (_ <? _); [done|]. by destruct (aead_encrypt _ _ _ _). Qed.
Lemma ecdsa_check_returns pk m s : returns (verify_ecdsa_p256 pk m s).
Proof. unfold verify_ecdsa_p256. by repeat case_match. Qed.
Lemma cats_returns c : returns (Certs.cats c).
Proof.
  unfold Certs.cats. apply returns_bind; [|intros l _; by destruct (CaseAuthTags_new l)].
  induction (mc_subject c) as [|a l IH]; [done|]. cbn [raw_cats]. destruct (negb _); [done|]. destruct (dn_value a) as [id|]; [|done].
  apply returns_bind; [by destruct (try_u 32 id)|]. intros x _. by apply returns_bind.
Qed.

Lemma returns_map {E E' X} (f : E → E') (m : res E X) : returns m → returns (map_err f m).
Proof. by destruct m. Qed.

Lemma open_sigma3_total w payload : bytes_ok payload → small payload →
  match open_sigma3 w payload with Ok t => tbe_ok t | Err _ => True | _ => False end.
Proof.
  intros Hb Hs. unfold open_sigma3. pose proof (sigma3_total payload Hb Hs) as H3. destruct (parse_sigma3 payload) as [c|e| |]; try done.
  cbn [map_err res_bind]. pose proof (decrypt_returns (derive_sigma_key (aw_shared w) (s3k_salt (cs_ipk_operational (aw_fabric w))
    (sha256 (aw_sigma1 w ++ aw_sigma2 w))) INFO_S3K) TBE3_NONCE [] c) as Hr.
  destruct (decrypt_payload _ _ _ _) as [pt|e| |] eqn:Hd; try done. cbn [map_err res_bind].
  destruct (decrypted_small _ _ _ _ _ Hd H3) as [Hp1 Hp2]. pose proof (tbe_total pt Hp1 Hp2) as Ht. by destruct (parse_tbe pt).
Qed.

Lemma parsed_returns b c : bytes_ok b → parse b = Ok c → returns (tbs_der c).
Proof. intros Hb Hp. by destruct (parsed b c Hb Hp) as (_ & ? & _). Qed.

Lemma parse_opt_returns o : from_option bytes_ok True o → returns (parse_opt o) ∧
  ∀ c, parse_opt o = Ok (Some c) → ∃ b, bytes_ok b ∧ parse b = Ok c.
Proof.
  destruct o as [b|]; cbn; [|by split]. intros Hb. pose proof (parse_returns b Hb) as Hr. destruct (parse b) as [c| | |] eqn:Hp; try done.
  split; [done|]. cbn. intros c' [= <-]. by exists b.
Qed.

Lemma verify_sigma3_returns w t : tbe_ok t → bytes_ok (cs_root_tlv (aw_fabric w)) → returns (verify_sigma3 w t).
Proof.
  intros (Hn & Hi & Hg) Hroot. unfold verify_sigma3.
  apply returns_bind; [by apply returns_map, parse_returns|]. intros noc Hnoc.
  destruct (parse_opt_returns _ Hi) as [Hir Hi']. apply returns_bind; [by apply returns_map|]. intros icac Hicac.
  apply returns_bind; [by apply returns_map, parse_returns|]. intros root Hrt.
  assert (parse (tbe_noc t) = Ok noc) as Pn by (destruct (parse (tbe_noc t)); [injection Hnoc as ->; done|done..]).
  assert (parse_opt (tbe_icac t) = Ok icac) as Pi by (destruct (parse_opt (tbe_icac t)); [injection Hicac as ->; done|done..]).
  assert (parse (cs_root_tlv (aw_fabric w)) = Ok root) as Pr by (destruct (parse (cs_root_tlv (aw_fabric w))); [injection Hrt as ->; done|done..]).
  apply returns_bind.
  { apply returns_map, chain_returns; [exact (parsed_returns _ _ Hn Pn)| |exact (parsed_returns _ _ Hroot Pr)]. destruct icac as [c|]; [|done]. destruct (Hi' c Pi) as (b & Hb & Pb). cbn. exact (parsed_returns _ _ Hb Pb). }
  intros [] Hc. destruct (verify_noc_chain noc icac root) as [ []| | |] eqn:Hc'; try done. apply chain_decided, chain_names in Hc' as [[n Hnn] [f Hff]].
  rewrite Hnn. apply returns_bind; [apply returns_map, cats_returns|]. intros tags _. rewrite Hff. destruct (negb _); [done|].
  destruct (tbs_at (tbe_noc t) (tbe_icac t) (aw_initiator_eph w) (aw_responder_eph w)) as [tbs ->]. cbn [fin_in res_bind].
  apply returns_bind; [apply returns_map, ecdsa_check_returns|]. done.
Qed.

Lemma make_sigma2_returns f d sid s1 payload shared : returns (make_sigma2 f d sid s1 payload shared).
Proof.
  unfold make_sigma2. destruct (tbs_at (cs_noc_tlv f) (cs_icac_tlv f) (eph_public (cd_secret d)) (s1_eph_pub s1)) as [tbs ->]. cbn [fin_in res_bind].
  apply returns_bind; [unfold sign_ecdsa_p256; by destruct (sk_sign _ _)|]. intros sig _.
  assert (∃ b, encode_tbe (cs_noc_tlv f) (cs_icac_tlv f) sig (Some (cd_resumption_id d)) = Ok b) as [b ->].
  { eexists. apply struct_of_emits, emits_bytes. apply (emits_opt_bytes 2 _ _ [(3, VBytes sig); (4, VBytes (cd_resumption_id d))]), emits_bytes, emits_bytes, emits_end. }
  cbn [fin_in res_bind]. apply returns_bind; [apply returns_map, encrypt_returns|]. intros c _.
  assert (∃ b, encode_sigma2 (cd_random d) sid (eph_public (cd_secret d)) c = Ok b) as [b' ->]; [|done].
  eexists. apply struct_of_emits, emits_bytes, emits_uint, emits_bytes, emits_bytes, emits_end.
Qed.

Definition case_core_ok (core : CaseResponderCore) : Prop :=
  Forall (λ f, bytes_ok (cs_root_tlv f)) (cr_fabrics core) ∧
  match cr_state core with CAwaitSigma3 w => aw_fabric w ∈ cr_fabrics core | _ => True end.

Lemma not_found {X} (p : X → bool) l : List.find p l = None → ∀ x, x ∈ l → p x = false.
Proof. intros Hf x Hx. apply (List.find_none p l Hf). by apply list_elem_of_In. Qed.
Lemma found {X} (p : X → bool) l x : List.find p l = Some x → x ∈ l ∧ p x = true.
Proof. intros Hf. destruct (List.find_some p l Hf) as [Hx Hp]. split; [by apply list_elem_of_In|done]. Qed.

(** Only the selection of the fabric says [NoSharedTrustRoots]. *)
Ltac next_step := cbn [map_err fin_in res_bind]; match goal with |- context [map_err _ ?m] => destruct m; try done | |- context [fin_in ?m] => destruct m as [?|[]| |]; try done end.
Lemma make_sigma2_error f d sid s1 payload shared : make_sigma2 f d sid s1 payload shared ≠ Err CNoSharedTrustRoots.
Proof. unfold make_sigma2. do 4 next_step. by next_step. Qed.
Lemma open_sigma3_error w payload : open_sigma3 w payload ≠ Err CNoSharedTrustRoots.
Proof. unfold open_sigma3. do 2 next_step. by next_step. Qed.
Lemma verify_sigma3_error w t : verify_sigma3 w t ≠ Err CNoSharedTrustRoots.
Proof.
  unfold verify_sigma3. do 4 next_step. cbn [map_err fin_in res_bind]. destruct (mc_node_id _); [|done]. next_step.
  cbn [map_err res_bind]. destruct (mc_fabric_id _); [|done]. destruct (negb _); [done|]. next_step. by next_step.
Qed.

(** C5. What a device's CASE responder does with any message.  It never panics.
    It answers Sigma1 only for a fabric whose destination id the initiator could
    compute (so it knows the fabric's identity protection key), and says that
    there is none exactly when no fabric matches.  It establishes only with a
    Sigma3 that decrypts under the key of this very exchange and proves a node of
    the selected fabric: a chain to that fabric's root, a signature of its key on
    both ephemeral keys; the peer's node id and access tags are those of that
    certificate.  A Sigma3 that fails any of this ends the exchange: the state is
    terminal, so nothing can be tried again. *)
Theorem case_responder_steps d opc payload core : case_core_ok core → bytes_ok payload → small payload →
  match case_on_message d opc payload core with
  | (core', Ok (CReply reply op)) =>
      case_core_ok core' ∧ opc = OPCODE_SIGMA1 ∧ op = OPCODE_SIGMA2 ∧ cr_state core = CIdle ∧
      ∃ s1 f shared, parse_sigma1 payload = Ok s1 ∧ f ∈ cr_fabrics core ∧ dest_matches s1 f = true ∧
        agree (cd_secret d) (s1_eph_pub s1) = Some shared ∧
        make_sigma2 f d (cr_session_id core) s1 payload shared = Ok reply ∧
        cr_state core' = CAwaitSigma3 {| aw_fabric := f; aw_shared := shared; aw_sigma1 := payload; aw_sigma2 := reply;
          aw_responder_eph := eph_public (cd_secret d); aw_initiator_eph := s1_eph_pub s1; aw_initiator_session_id := s1_session_id s1 |}
  | (core', Ok (CDone reply op keys peer peer_node tags index)) =>
      opc = OPCODE_SIGMA3 ∧ op = OPCODE_STATUS_REPORT ∧ parse_status_report reply = Some STATUS_REPORT_SUCCESS ∧
      core' = set_case_state CEstablished core ∧
      ∃ w t noc, cr_state core = CAwaitSigma3 w ∧ open_sigma3 w payload = Ok t ∧
        proves (cs_root_tlv (aw_fabric w)) t (aw_initiator_eph w) (aw_responder_eph w) noc ∧
        mc_node_id noc = Some peer_node ∧ mc_fabric_id noc = Some (cs_fabric_id (aw_fabric w)) ∧ Certs.cats noc = Ok tags ∧
        index = cs_index (aw_fabric w) ∧ peer = aw_initiator_session_id w ∧
        keys = case_session_keys (aw_shared w) (cs_ipk_operational (aw_fabric w)) (sha256 (aw_sigma1 w ++ aw_sigma2 w ++ payload))
  | (core', Err e) =>
      match cr_state core with
      | CAwaitSigma3 _ => core' = if opc =? OPCODE_SIGMA3 then set_case_state CEstablished core else core
      | _ => core' = core
      end ∧
      (e = CNoSharedTrustRoots ↔ cr_state core = CIdle ∧ opc = OPCODE_SIGMA1 ∧
         ∃ s1, parse_sigma1 payload = Ok s1 ∧ ∀ f, f ∈ cr_fabrics core → dest_matches s1 f = false)
  | _ => False
  end.
Proof.
  intros [Hroots Hw] Hb Hs. unfold case_on_message. rewrite (bind_ok _ _ _ core core eq_refl).
  destruct (cr_state core) as [|w|] eqn:Est; [..|split; [done|split; [done|by intros [? _]] ] ].
  - destruct (Z.eqb_spec opc OPCODE_SIGMA1) as [->|Hop]; cbn [negb]; [|split; [done|split; [done|by intros (_ & ? & _)] ] ].
    unfold handle_sigma1. pose proof (sigma1_total payload Hb Hs) as H1. destruct (parse_sigma1 payload) as [s1|e| |] eqn:E1; try done.
    2: { split; [done|]. split; [done|]. intros (_ & _ & s1 & ? & _). done. }
    cbn [map_err]. rewrite (bind_ok _ _ _ core s1) by done. rewrite (bind_ok _ _ _ core core) by done.
    destruct (List.find (dest_matches s1) (cr_fabrics core)) as [f|] eqn:Ef.
    2: { cbn. split; [done|]. split; [|done]. intros _. split; [done|]. split; [done|]. exists s1. split; [done|]. by apply not_found. }
    pose proof (found _ _ _ Ef) as [Hf Hm]. cbn [ok_or]. rewrite (bind_ok _ _ _ core f) by done.
    assert (∀ e, e ≠ CNoSharedTrustRoots → (e = CNoSharedTrustRoots ↔ CIdle = CIdle ∧ OPCODE_SIGMA1 = OPCODE_SIGMA1 ∧
      ∃ s1', Ok s1 = Ok (E:=string) s1' ∧ ∀ f, f ∈ cr_fabrics core → dest_matches s1' f = false)) as Hno.
    { intros e He. split; [done|]. intros (_ & _ & s1' & [= <-] & Hall). by rewrite (Hall f Hf) in Hm. }
    destruct (agree (cd_secret d) (s1_eph_pub s1)) as [shared|] eqn:Ea; [|cbn; split; [done|by apply Hno] ].
    cbn [ok_or]. rewrite (bind_ok _ _ _ core shared) by done.
    pose proof (make_sigma2_returns f d (cr_session_id core) s1 payload shared) as H2.
    destruct (make_sigma2 f d (cr_session_id core) s1 payload shared) as [sigma2|e| |] eqn:E2; try done.
    + rewrite (bind_ok _ _ _ core sigma2) by done. cbn. split; [by split|]. split; [done|]. split; [done|]. split; [done|].
      exists s1, f, shared. done.
    + cbn. split; [done|]. apply Hno. intros ->. by eapply make_sigma2_error.
  - destruct (Z.eqb_spec opc OPCODE_SIGMA3) as [->|Hop]; cbn [negb]; [|split; [done|split; [done|by intros [? _]] ] ].
    unfold handle_sigma3. rewrite (bind_ok _ _ _ (set_case_state CEstablished core) ()) by done.
    pose proof (open_sigma3_total w payload Hb Hs) as H1. destruct (open_sigma3 w payload) as [t|e| |] eqn:E1; try done.
    2: { cbn. split; [done|]. split; [|by intros [? _]]. intros ->. by destruct (open_sigma3_error w payload). }
    rewrite (bind_ok _ _ _ (set_case_state CEstablished core) t) by done.
    rewrite Forall_forall in Hroots. pose proof (verify_sigma3_returns w t H1 (Hroots _ Hw)) as H2.
    destruct (verify_sigma3 w t) as [[n tags]|e| |] eqn:E2; try done.
    + rewrite (bind_ok _ _ _ (set_case_state CEstablished core) (n, tags)) by done. cbn. apply sigma3_verified in E2 as (noc & Hp & Hn & Hf & Hc).
      split; [done|]. split; [done|]. split; [done|]. split; [done|]. exists w, t, noc. done.
    + cbn. split; [done|]. split; [|by intros [? _]]. intros ->. by destruct (verify_sigma3_error w t).
Qed.
End responder.

(** ** Both ends *)

Section sealed.
Context `{A : Aead} `{!AeadLaws A} `{Ec : Ecdsa} `{!EcdsaLaws Ec} `{D : Ecdh} `{DL : !EcdhLaws D} `{Hash : Sha256} `{Mac : Hmac} `{Kdf : Hkdf}.

Lemma encrypted k n a pt : bytes_ok pt → zlen pt ≤ MAX_CCM_PAYLOAD →
  ∃ c, encrypt_payload k n a pt = Ok c ∧ decrypt_payload k n a c = Ok pt ∧ bytes_ok c ∧ zlen c < 2 ^ 32.
Proof.
  intros Hb Hl. destruct (aead_total k n a pt Hl) as [c Hc]. pose proof (aead_length _ _ _ _ _ Hc) as Hlen. exists c.
  unfold encrypt_payload, decrypt_payload. rewrite (proj2 (Z.ltb_ge _ _)), (proj2 (Z.ltb_ge _ _)), Hc, (aead_inverse _ _ _ _ _ Hc) by lia.
  split; [done|]. split; [done|]. split; [by eapply aead_bytes|]. unfold MAX_CCM_PAYLOAD, MIC_LEN in *. lia.
Qed.

(** Credentials that pass under [root_tlv]: the chain of [noc_tlv] and the
    operational key behind it. *)
Definition vouches (root_tlv noc_tlv : bytes) (icac_tlv : option bytes) (key : bytes) (noc : MatterCert) : Prop :=
  parse noc_tlv = Ok noc ∧ (∃ icac rcac, parse_opt icac_tlv = Ok icac ∧ parse root_tlv = Ok rcac ∧ chain_ok noc icac rcac) ∧
  mc_pub_key noc = sk_public key ∧ is_Some (sk_sign key []) ∧ cert_blob noc_tlv ∧ from_option cert_blob True icac_tlv.

(** They make a TBE that proves itself. *)
Lemma vouched root_tlv noc_tlv icac_tlv key noc sender receiver id : vouches root_tlv noc_tlv icac_tlv key noc →
  from_option (has_size 16) True id →
  ∃ tbs sig tbe, encode_tbs noc_tlv icac_tlv sender receiver = Ok tbs ∧ sign_ecdsa_p256 key tbs = Ok sig ∧
    encode_tbe noc_tlv icac_tlv sig id = Ok tbe ∧ bytes_ok tbe ∧ zlen tbe ≤ MAX_CCM_PAYLOAD ∧
    parse_tbe tbe = Ok {| tbe_noc := noc_tlv; tbe_icac := icac_tlv; tbe_signature := sig |} ∧
    proves root_tlv {| tbe_noc := noc_tlv; tbe_icac := icac_tlv; tbe_signature := sig |} sender receiver noc.
Proof.
  intros (Hn & (icac & rcac & Hi & Hr & Hc) & Hpk & Hkey & Hb & Hib) Hid.
  destruct (tbs_at noc_tlv icac_tlv sender receiver) as [tbs Ht]. destruct (sk_sign_all key [] tbs Hkey) as [sig Hs].
  destruct (sk_sign_verifies _ _ _ Hs) as (Hl & Hsb & Hvk & Hsl & Hv).
  destruct (tbe_carried noc_tlv icac_tlv sig id Hb Hib) as (tbe & He & Htb & Htl & Hp); [by split|done|].
  exists tbs, sig, tbe. split; [done|]. split; [unfold sign_ecdsa_p256; by rewrite Hs|]. do 4 (split; [done|]).
  split; [done|]. exists icac, rcac, tbs. cbn [tbe_noc tbe_icac tbe_signature]. do 4 (split; [done|]).
  unfold verify_ecdsa_p256. by rewrite Hpk, Hvk, Hsl, Hv.
Qed.

Lemma sigma2_made f d sid s1 sigma1 shared noc root : vouches root (cs_noc_tlv f) (cs_icac_tlv f) (cs_op_private_key f) noc →
  has_size 32 (cd_random d) → has_size 16 (cd_resumption_id d) → eph_secret (cd_secret d) → in_u 16 sid → sid ≠ 0 →
  ∃ p2 c t, make_sigma2 f d sid s1 sigma1 shared = Ok p2 ∧
    parse_sigma2 p2 = Ok {| s2_random := cd_random d; s2_session_id := sid; s2_eph_pub := eph_public (cd_secret d); s2_encrypted2 := c |} ∧
    (∀ SE, decrypt_tbe2 (SE:=SE) (derive_sigma_key shared
       (s2k_salt (cs_ipk_operational f) (cd_random d) (eph_public (cd_secret d)) (sha256 sigma1)) INFO_S2K) c = Ok t) ∧
    proves root t (eph_public (cd_secret d)) (s1_eph_pub s1) noc.
Proof.
  intros Hv Hr Hid Hsec Hs Hs0. pose proof (eph_public_length _ Hsec) as [Hel Heb].
  destruct (vouched root _ _ _ _ (eph_public (cd_secret d)) (s1_eph_pub s1) (Some (cd_resumption_id d)) Hv Hid) as (tbs & sig & tbe & Ht & Hsg & Hte & Hb & Hl & Hp & Hpr).
  destruct (encrypted (derive_sigma_key shared (s2k_salt (cs_ipk_operational f) (cd_random d) (eph_public (cd_secret d)) (sha256 sigma1)) INFO_S2K)
    TBE2_NONCE [] tbe Hb Hl) as (c & Hc & Hdc & Hcb & Hcl).
  destruct (sigma2_carried (cd_random d) sid (eph_public (cd_secret d)) c Hr Hs Hs0 (conj Hel Heb) Hcb Hcl) as (p2 & He & _ & _ & Hd2).
  exists p2, c, {| tbe_noc := cs_noc_tlv f; tbe_icac := cs_icac_tlv f; tbe_signature := sig |}. split; [|split; [done|split; [|done] ] ].
  - unfold make_sigma2. rewrite Ht. cbn [fin_in res_bind]. rewrite Hsg. cbn [map_err res_bind]. rewrite Hte. cbn [fin_in res_bind]. rewrite Hc.
    cbn [map_err res_bind]. by rewrite He.
  - intros SE. unfold decrypt_tbe2. rewrite Hdc. cbn [map_err res_bind]. by rewrite Hp.
Qed.

Lemma sigma3_made {SE} creds w shared eph responder_eph noc root :
  vouches root (fc_noc_tlv creds) (fc_icac_tlv creds) (fc_op_private_key creds) noc →
  aw_shared w = shared → cs_ipk_operational (aw_fabric w) = fc_ipk_operational creds →
  ∃ p3 t, make_sigma3 (SE:=SE) creds shared eph responder_eph (aw_sigma1 w ++ aw_sigma2 w) = Ok p3 ∧
    open_sigma3 w p3 = Ok t ∧ proves root t eph responder_eph noc.
Proof.
  intros Hv Hsh Hipk.
  destruct (vouched root _ _ _ _ eph responder_eph None Hv I) as (tbs & sig & tbe & Ht & Hsg & Hte & Hb & Hl & Hp & Hpr).
  destruct (encrypted (derive_sigma_key shared (s3k_salt (fc_ipk_operational creds) (sha256 (aw_sigma1 w ++ aw_sigma2 w))) INFO_S3K)
    TBE3_NONCE [] tbe Hb Hl) as (c & Hc & Hdc & Hcb & Hcl).
  destruct (sigma3_carried c Hcb Hcl) as (p3 & He & _ & _ & Hd3).
  exists p3, {| tbe_noc := fc_noc_tlv creds; tbe_icac := fc_icac_tlv creds; tbe_signature := sig |}. split; [|split; [|done] ].
  - unfold make_sigma3. rewrite Ht. cbn [fin_in res_bind]. rewrite Hsg. cbn [map_err res_bind]. rewrite Hte. cbn [fin_in res_bind]. rewrite Hc.
    cbn [map_err res_bind]. by rewrite He.
  - unfold open_sigma3. rewrite Hd3. cbn [map_err res_bind]. rewrite Hsh, Hipk, Hdc. cbn [map_err res_bind]. by rewrite Hp.
Qed.
End sealed.

(** The device's responder as the far end of an initiator's exchange. *)
#[local] Instance CaseLink `{A : Aead} `{Ec : Ecdsa} `{D : Ecdh} `{Hash : Sha256} `{Mac : Hmac} `{Kdf : Hkdf}
    (fabrics : list FabricEntry) (d : CaseDraw) : HandshakeLink CaseDevice () := {
  hl_request _ opc payload := λ s, let '(s, r) := case_drive fabrics d opc payload s in (s, map_err RExchange r);
  hl_once opc payload := λ s, fst (case_drive fabrics d opc payload s)
}.

Section both.
Context `{A : Aead} `{!AeadLaws A} `{Ec : Ecdsa} `{!EcdsaLaws Ec} `{D : Ecdh} `{DL : !EcdhLaws D} `{Hash : Sha256} `{Mac : Hmac} `{!HmacLaws}
  `{Kdf : Hkdf} `{!HkdfLaws}.

(** The destination id an initiator of [creds] sends for [node]. *)
Definition dest_of (creds : FabricCredentials) (rnd : bytes) (node : Z) : bytes :=
  case_destination_id (fc_ipk_operational creds) rnd (fc_root_public_key creds) (fc_fabric_id creds) node.
Definition entry_dest (rnd : bytes) (e : FabricEntry) : bytes :=
  case_destination_id (fe_ipk_operational e) rnd (fe_root_public_key e) (fe_fabric_id e) (fe_node_id e).

Lemma find_prefix {X} (p : X → bool) pre x post : Forall (λ y, p y = false) pre → p x = true → List.find p (pre ++ x :: post) = Some x.
Proof. intros Hpre Hx. induction Hpre as [|y pre Hy _ IH]; cbn; [by rewrite Hx|]. by rewrite Hy. Qed.

Lemma sigma1_answered d p1 s1 fs rsid f shared p2 : parse_sigma1 p1 = Ok s1 → List.find (dest_matches s1) fs = Some f →
  agree (cd_secret d) (s1_eph_pub s1) = Some shared → make_sigma2 f d rsid s1 p1 shared = Ok p2 →
  case_on_message d OPCODE_SIGMA1 p1 (CaseResponderCore_new fs rsid) =
  (set_case_state (CAwaitSigma3 {| aw_fabric := f; aw_shared := shared; aw_sigma1 := p1; aw_sigma2 := p2;
     aw_responder_eph := eph_public (cd_secret d); aw_initiator_eph := s1_eph_pub s1; aw_initiator_session_id := s1_session_id s1 |})
     (CaseResponderCore_new fs rsid), Ok (CReply p2 OPCODE_SIGMA2)).
Proof.
  intros D1 Hf Ha E2. set (core := CaseResponderCore_new fs rsid). unfold case_on_message. rewrite (bind_ok _ _ _ core core eq_refl).
  cbn [cr_state core CaseResponderCore_new]. change (negb (_ =? _)) with false. cbv iota.
  unfold handle_sigma1. rewrite D1. rewrite (bind_ok _ _ _ core s1) by done. rewrite (bind_ok _ _ _ core core eq_refl).
  change (cr_fabrics core) with fs. rewrite Hf. cbn [ok_or]. rewrite (bind_ok _ _ _ core f) by done. rewrite Ha. cbn [ok_or].
  rewrite (bind_ok _ _ _ core shared) by done. change (cr_session_id core) with rsid. rewrite E2. by rewrite (bind_ok _ _ _ core p2) by done.
Qed.

Lemma sigma3_done d w core p3 t n tags : cr_state core = CAwaitSigma3 w → open_sigma3 w p3 = Ok t → verify_sigma3 w t = Ok (n, tags) →
  case_on_message d OPCODE_SIGMA3 p3 core =
  (set_case_state CEstablished core, Ok (CDone (encode_status_report 0 0 0) OPCODE_STATUS_REPORT
     (case_session_keys (aw_shared w) (cs_ipk_operational (aw_fabric w)) (sha256 (aw_sigma1 w ++ aw_sigma2 w ++ p3)))
     (aw_initiator_session_id w) n tags (cs_index (aw_fabric w)))).
Proof.
  intros Est O3 V3. unfold case_on_message. rewrite (bind_ok _ _ _ core core eq_refl), Est. change (negb (_ =? _)) with false. cbv iota.
  unfold handle_sigma3. erewrite bind_ok by reflexivity. rewrite O3. erewrite bind_ok by reflexivity. rewrite V3. by erewrite bind_ok by reflexivity.
Qed.

Lemma agreement creds pre e post rnd eph sid d rsid noc_d noc_i tags :
  let fabrics := pre ++ e :: post in
  fe_ipk_operational e = fc_ipk_operational creds → fe_root_public_key e = fc_root_public_key creds →
  fe_fabric_id e = fc_fabric_id creds →
  vouches (fc_rcac_tlv creds) (fe_noc_tlv e) (fe_icac_tlv e) (fe_op_private_key e) noc_d →
  mc_node_id noc_d = Some (fe_node_id e) → mc_fabric_id noc_d = Some (fc_fabric_id creds) →
  vouches (fe_root_tlv e) (fc_noc_tlv creds) (fc_icac_tlv creds) (fc_op_private_key creds) noc_i →
  mc_node_id noc_i = Some (fc_node_id creds) → mc_fabric_id noc_i = Some (fe_fabric_id e) → Certs.cats noc_i = Ok tags →
  Forall (λ g, entry_dest rnd g ≠ entry_dest rnd e ∧ fe_index g ≠ fe_index e) pre →
  has_size 32 rnd → eph_secret eph → in_u 16 sid →
  has_size 32 (cd_random d) → has_size 16 (cd_resumption_id d) → eph_secret (cd_secret d) → in_u 16 rsid → rsid ≠ 0 →
  ∃ keys,
    case_establish (Lk:=CaseLink fabrics d) creds (fe_node_id e) rnd eph sid (case_device fabrics rsid) =
    ({| dv_core := None;
        dv_established := Some ({| es_local_session_id := rsid; es_peer_session_id := sid; es_keys := keys;
                                   es_local_node_id := fe_node_id e; es_peer_node_id := fc_node_id creds |}, tags, fe_index e) |},
     Ok {| es_local_session_id := sid; es_peer_session_id := rsid; es_keys := keys;
           es_local_node_id := fc_node_id creds; es_peer_node_id := fe_node_id e |}) ∧
    zlen (i2r keys) = 16 ∧ zlen (r2i keys) = 16.
Proof.
  intros fabrics Hipk Hrpk Hfid Hvd Hdn Hdf Hvi Hin Hif Hcats Hpre Hrnd Heph Hsid Hdr Hdi Hds Hrs Hrs0.
  set (dest := dest_of creds rnd (fe_node_id e)).
  assert (has_size 32 dest) as Hdest by apply hmac_length.
  destruct (sigma1_carried rnd sid dest (eph_public eph) Hrnd Hsid Hdest (eph_public_length _ Heph)) as (p1 & E1 & _ & _ & D1).
  destruct (agree_both eph (cd_secret d) Heph Hds) as (shared & Ha & Ha').
  set (s1 := {| s1_random := rnd; s1_session_id := sid; s1_dest_id := dest; s1_eph_pub := eph_public eph |}) in *.
  destruct (sigma2_made (case_fabric e) d rsid s1 p1 shared noc_d (fc_rcac_tlv creds) Hvd Hdr Hdi Hds Hrs Hrs0) as (p2 & c & t2 & E2 & D2 & T2 & P2).
  set (w := {| aw_fabric := case_fabric e; aw_shared := shared; aw_sigma1 := p1; aw_sigma2 := p2; aw_responder_eph := eph_public (cd_secret d);
    aw_initiator_eph := eph_public eph; aw_initiator_session_id := sid |}).
  destruct (sigma3_made (SE:=()) creds w shared (eph_public eph) (eph_public (cd_secret d)) noc_i (fe_root_tlv e) Hvi eq_refl Hipk) as (p3 & t3 & E3 & O3 & P3).
  assert (verify_sigma2 (SE:=()) creds (fe_node_id e) t2 (eph_public (cd_secret d)) (eph_public eph) = Ok ()) as V2 by (apply sigma2_verified; by exists noc_d).
  assert (verify_sigma3 w t3 = Ok (fc_node_id creds, tags)) as V3 by (apply sigma3_verified; by exists noc_i).
  set (core := CaseResponderCore_new (map case_fabric fabrics) rsid).
  set (keys := case_session_keys shared (fe_ipk_operational e) (sha256 (p1 ++ p2 ++ p3))).
  assert (case_on_message d OPCODE_SIGMA1 p1 core = (set_case_state (CAwaitSigma3 w) core, Ok (CReply p2 OPCODE_SIGMA2))) as R1.
  { refine (sigma1_answered d p1 s1 _ rsid (case_fabric e) shared p2 D1 _ Ha' E2). unfold fabrics. rewrite map_app. cbn [map]. apply find_prefix.
    - apply List.Forall_map. eapply Forall_impl; [exact Hpre|]. intros g [Hg _]. apply bool_decide_eq_false.
      cbn [s1_random s1_dest_id s1 cs_ipk_operational cs_root_public_key cs_fabric_id cs_node_id case_fabric].
      intros Heq. apply Hg. unfold entry_dest. rewrite Heq. unfold dest, dest_of. by rewrite Hipk, Hrpk, Hfid.
    - apply bool_decide_eq_true. cbn. unfold dest, dest_of. by rewrite Hipk, Hrpk, Hfid. }
  assert (case_on_message d OPCODE_SIGMA3 p3 (set_case_state (CAwaitSigma3 w) core) =
    (set_case_state CEstablished core, Ok (CDone (encode_status_report 0 0 0) OPCODE_STATUS_REPORT keys sid (fc_node_id creds) tags (fe_index e)))) as R3.
  { exact (sigma3_done d w (set_case_state (CAwaitSigma3 w) core) p3 t3 _ _ eq_refl O3 V3). }
  assert (device_session fabrics rsid keys sid (fc_node_id creds) tags (fe_index e) =
    Some ({| es_local_session_id := rsid; es_peer_session_id := sid; es_keys := keys; es_local_node_id := fe_node_id e;
             es_peer_node_id := fc_node_id creds |}, tags, fe_index e)) as Hses.
  { unfold device_session, fabrics. rewrite (find_prefix _ pre e post); [done| |apply Z.eqb_refl]. eapply Forall_impl; [exact Hpre|]. intros g [_ Hg]. by apply Z.eqb_neq. }
  exists keys. split; [|pose proof (session_keys_sizes (fe_ipk_operational e ++ sha256 (p1 ++ p2 ++ p3)) shared) as (Q1 & Q2 & _); done].
  unfold case_establish. fold (dest_of creds rnd (fe_node_id e)). fold dest. rewrite E1. erewrite bind_ok by reflexivity.
  erewrite bind_ok by (unfold case_round; cbn [hl_request CaseLink]; unfold case_drive, case_device; cbn [dv_core]; fold core; rewrite R1; reflexivity).
  erewrite bind_ok by reflexivity. rewrite D2. erewrite bind_ok by reflexivity. cbn [s2_eph_pub s2_random s2_encrypted2 s2_session_id].
  rewrite Ha. erewrite bind_ok by reflexivity. rewrite <- Hipk. cbn [cs_ipk_operational case_fabric] in T2. rewrite T2. erewrite bind_ok by reflexivity.
  rewrite V2. erewrite bind_ok by reflexivity. cbn [aw_sigma1 aw_sigma2 w] in E3. rewrite E3. erewrite bind_ok by reflexivity.
  erewrite bind_ok by (unfold case_round; cbn [hl_request CaseLink]; unfold case_drive; cbn [dv_core]; rewrite R3; reflexivity).
  change (negb (OPCODE_STATUS_REPORT =? OPCODE_STATUS_REPORT)) with false. cbv iota. rewrite status_report_reads by done.
  rewrite bool_decide_true by done. cbn [negb dv_established cr_session_id set_case_state]. change (cr_session_id core) with rsid. by rewrite Hses.
Qed.

(** C10. CASE ends with both sides holding the same session.  The initiator's
    credentials and the device's entry are of one fabric (the same root key,
    fabric id and current identity protection key), each side's certificate chain
    passes under the other's root and names its node, and each holds the
    operational key of its certificate.  Then the initiator establishes with that
    node, the device with the initiator's node id and access tags on that fabric,
    with crossed session ids and equal keys - whatever other fabrics the device
    holds, as long as none before it has the same destination id. *)
Theorem case_agrees creds pre e post rnd eph sid d rsid noc_d noc_i tags :
  let fabrics := pre ++ e :: post in
  fe_ipk_operational e = fc_ipk_operational creds → fe_root_public_key e = fc_root_public_key creds →
  fe_fabric_id e = fc_fabric_id creds →
  vouches (fc_rcac_tlv creds) (fe_noc_tlv e) (fe_icac_tlv e) (fe_op_private_key e) noc_d →
  mc_node_id noc_d = Some (fe_node_id e) → mc_fabric_id noc_d = Some (fc_fabric_id creds) →
  vouches (fe_root_tlv e) (fc_noc_tlv creds) (fc_icac_tlv creds) (fc_op_private_key creds) noc_i →
  mc_node_id noc_i = Some (fc_node_id creds) → mc_fabric_id noc_i = Some (fe_fabric_id e) → Certs.cats noc_i = Ok tags →
  Forall (λ g, entry_dest rnd g ≠ entry_dest rnd e ∧ fe_index g ≠ fe_index e) pre →
  has_size 32 rnd → eph_secret eph → in_u 16 sid →
  has_size 32 (cd_random d) → has_size 16 (cd_resumption_id d) → eph_secret (cd_secret d) → in_u 16 rsid → rsid ≠ 0 →
  ∃ keys,
    case_establish (Lk:=CaseLink fabrics d) creds (fe_node_id e) rnd eph sid (case_device fabrics rsid) =
    ({| dv_core := None;
        dv_established := Some ({| es_local_session_id := rsid; es_peer_session_id := sid; es_keys := keys;
                                   es_local_node_id := fe_node_id e; es_peer_node_id := fc_node_id creds |}, tags, fe_index e) |},
     Ok {| es_local_session_id := sid; es_peer_session_id := rsid; es_keys := keys;
           es_local_node_id := fc_node_id creds; es_peer_node_id := fe_node_id e |}) ∧
    zlen (i2r keys) = 16 ∧ zlen (r2i keys) = 16.
Proof. apply agreement. Qed.
End both.

(** ** Concrete instances *)

Module ToyCase.
Import ToyEcdsa.
#[export] Existing Instances Toy.toy_aead Toy.toy_laws ToyHash.toy_sha256 ToyHash.toy_hmac ToyHash.toy_hmac_laws ToyHash.toy_hkdf
  ToyHash.toy_hkdf_laws.

(** Key agreement in the integers modulo 251. *)
#[export] Instance toy_ecdh : Ecdh := {
  eph_public a := 4 :: replicate 63 0 ++ [sum a];
  agree a pub := if zlen pub =? 65 then Some (replicate 32 ((sum a * nth 64 pub 0) mod 251)) else None
}.
#[export] Instance toy_ecdh_laws : EcdhLaws toy_ecdh.
Proof.
  refine {| eph_secret _ := True |}.
  - intros a _. split; [done|]. cbn [eph_public toy_ecdh]. constructor; [done|]. apply Forall_app. split; [by apply Forall_replicate|].
    apply Forall_singleton. apply Z.mod_pos_bound. lia.
  - intros a b _ _. cbn [agree eph_public toy_ecdh]. exists (replicate 32 ((sum a * sum b) mod 251)). split; [done|]. by rewrite Z.mul_comm.
Defined.

Definition or_empty (m : res CertError bytes) : bytes := match m with Ok b => b | _ => [] end.

(** A fabric, a node of it and its administrator. *)
Definition root_key : bytes := replicate 32 7.
Definition node_key : bytes := replicate 32 5.
Definition admin_key : bytes := replicate 32 6.
Definition root_tlv : bytes := Eval vm_compute in
  or_empty (let? f := generate_fabric root_key (replicate 8 1) (replicate 8 2) (replicate 16 3) 9 11 in Ok (cf_rcac_tlv f)).
Definition fabric_of_root : CommissioningFabric := {|
  cf_rcac_tlv := root_tlv; cf_root_private_key := root_key; cf_fabric_id := 9; cf_ipk_epoch := replicate 16 3; cf_admin_node_id := 11 |}.
Definition noc_of (key : bytes) (node : Z) : bytes := or_empty (issue_device_noc fabric_of_root (sk_public key) node (replicate 8 4)).
Definition node_noc : bytes := Eval vm_compute in noc_of node_key 5.
Definition admin_noc : bytes := Eval vm_compute in noc_of admin_key 11.
Definition toy_ipk : bytes := replicate 16 8.

Definition node_entry : FabricEntry := {|
  fe_index := 1; fe_root_tlv := root_tlv; fe_noc_tlv := node_noc; fe_icac_tlv := None; fe_op_private_key := node_key;
  fe_ipk_operational := toy_ipk; fe_node_id := 5; fe_fabric_id := 9; fe_root_public_key := sk_public root_key;
  fe_admin_subject := 11; fe_admin_vendor_id := 0xFFF1; fe_label := [] |}.
Definition admin_creds : FabricCredentials := {|
  fc_rcac_tlv := root_tlv; fc_icac_tlv := None; fc_noc_tlv := admin_noc; fc_op_public_key := sk_public admin_key;
  fc_op_private_key := admin_key; fc_ipk_operational := toy_ipk; fc_node_id := 11; fc_fabric_id := 9;
  fc_root_public_key := sk_public root_key |}.
Definition toy_draw : CaseDraw := {| cd_secret := [3]; cd_random := replicate 32 2; cd_resumption_id := replicate 16 1 |}.

Lemma short_blob b : forallb (λ x, (0 <=? x) && (x <? 256)) b && (zlen b <=? 20000) = true → cert_blob b.
Proof.
  intros [Hb Hl%Z.leb_le]%andb_true_iff. split; [|done]. apply Forall_forall. intros x Hx. rewrite forallb_forall in Hb.
  specialize (Hb x (proj1 (list_elem_of_In b x) Hx)). apply andb_true_iff in Hb as [?%Z.leb_le ?%Z.ltb_lt]. by split.
Qed.

(** A checked certificate vouches. *)
Definition checks (root noc_tlv key : bytes) : bool :=
  match parse noc_tlv, parse root with
  | Ok noc, Ok rcac =>
      bool_decide (mc_pub_key noc = sk_public key) && match verify_noc_chain noc None rcac with Ok _ => true | _ => false end &&
      match sk_sign key [] with Some _ => true | None => false end
  | _, _ => false
  end.
Definition holder (noc_tlv : bytes) : MatterCert := match parse noc_tlv with Ok c => c | _ => ToyEcdsa.rcac end.

Lemma checked_vouches root noc_tlv key : checks root noc_tlv key = true → cert_blob noc_tlv → vouches root noc_tlv None key (holder noc_tlv).
Proof.
  unfold checks, holder, vouches. destruct (parse noc_tlv) as [noc| | |] eqn:Hn; try done. destruct (parse root) as [rcac| | |] eqn:Hr; try done.
  intros [[Hp%bool_decide_eq_true Hc]%andb_true_iff Hk]%andb_true_iff Hb. split; [done|].
  destruct (verify_noc_chain noc None rcac) as [ []| | |] eqn:Hv; try done. destruct (sk_sign key []) eqn:Hs; [|done].
  split; [exists None, rcac; split; [done|]; split; [done|]; by apply chain_decided|]. split; [done|]. split; [by eexists|]. done.
Qed.
Lemma toy_sizes : has_size 32 (replicate 32 1) ∧ has_size 32 (cd_random toy_draw) ∧ has_size 16 (cd_resumption_id toy_draw) ∧
  in_u 16 21 ∧ in_u 16 22 ∧ 22 ≠ 0.
Proof. unfold has_size. split_and!; try done; by apply Forall_replicate. Qed.
End ToyCase.

Import ToyEcdsa ToyCase.

(** The administrator (node 11) reaches node 5. *)
Lemma case_agrees_witness : ∃ keys s,
  case_establish (Lk:=CaseLink [node_entry] toy_draw) admin_creds 5 (replicate 32 1) [9] 21 (case_device [node_entry] 22) =
  (s, Ok {| es_local_session_id := 21; es_peer_session_id := 22; es_keys := keys; es_local_node_id := 11; es_peer_node_id := 5 |}) ∧
  dv_established s = Some ({| es_local_session_id := 22; es_peer_session_id := 21; es_keys := keys; es_local_node_id := 5;
    es_peer_node_id := 11 |}, CaseAuthTags_default, 1).
Proof.
  assert (cert_blob node_noc) as Bd by (apply short_blob; vm_compute; reflexivity).
  assert (cert_blob admin_noc) as Bi by (apply short_blob; vm_compute; reflexivity).
  pose proof (checked_vouches root_tlv node_noc node_key ltac:(vm_compute; reflexivity) Bd) as Vd.
  pose proof (checked_vouches root_tlv admin_noc admin_key ltac:(vm_compute; reflexivity) Bi) as Vi.
  assert (mc_node_id (holder node_noc) = Some 5) as Nd by (vm_compute; reflexivity).
  assert (mc_fabric_id (holder node_noc) = Some 9) as Fd by (vm_compute; reflexivity).
  assert (mc_node_id (holder admin_noc) = Some 11) as Ni by (vm_compute; reflexivity).
  assert (mc_fabric_id (holder admin_noc) = Some 9) as Fi by (vm_compute; reflexivity).
  assert (Certs.cats (holder admin_noc) = Ok CaseAuthTags_default) as Ci by (vm_compute; reflexivity).
  destruct toy_sizes as (S1 & S2 & S3 & S4 & S5 & S6).
  pose proof (case_agrees admin_creds [] node_entry [] (replicate 32 1) [9] 21 toy_draw 22 (holder node_noc) (holder admin_noc) CaseAuthTags_default) as Hall.
  cbv zeta in Hall. specialize (Hall eq_refl eq_refl eq_refl Vd Nd Fd Vi Ni Fi Ci (Forall_nil_2 _) S1 I).
  specialize (Hall S4 S2 S3 I S5 S6). destruct Hall as (keys & Hrun & _).
  eexists keys, _. split; [exact Hrun|reflexivity].
Defined.

(** What the administrator holds at the end: node 5's certificate, proved. *)
Abbreviation toy_run :=
  (case_establish (Lk:=CaseLink [node_entry] toy_draw) admin_creds 5 (replicate 32 1) [9] 21 (case_device [node_entry] 22)).

Lemma case_initiator_authenticates_witness : ∃ s es t sigma2 noc, toy_run = (s, Ok es) ∧
  proves root_tlv t (s2_eph_pub sigma2) (eph_public [9]) noc ∧ mc_node_id noc = Some 5 ∧ mc_fabric_id noc = Some 9.
Proof.
  assert (match snd toy_run with Ok _ => true | _ => false end = true) as Hok by (vm_compute; reflexivity).
  destruct toy_run as [s r] eqn:Hrun. cbn [snd] in Hok. destruct r as [es|e| |]; [|discriminate Hok..].
  destruct (case_initiator_authenticates (Lk:=CaseLink [node_entry] toy_draw) admin_creds 5 (replicate 32 1) [9] 21 (case_device [node_entry] 22) s es Hrun)
    as (p1 & p2 & sigma2 & shared & t & noc & p3 & s1 & report & _ & _ & _ & _ & _ & Hp & Hn & Hf & _).
  exists s, es, t, sigma2, noc. split; [reflexivity|]. split; [exact Hp|]. split; [exact Hn|exact Hf].
Defined.

(** A Sigma1 for a node of the fabric that is not this one. *)
Definition stray_sigma1 : bytes :=
  match encode_sigma1 (replicate 32 1) 21 (dest_of admin_creds (replicate 32 1) 6) (eph_public [9]) with Ok b => b | _ => [] end.
Definition toy_core : CaseResponderCore := CaseResponderCore_new [case_fabric node_entry] 22.

Lemma case_responder_steps_witness :
  case_on_message toy_draw OPCODE_SIGMA1 stray_sigma1 toy_core = (toy_core, Err CNoSharedTrustRoots) ∧
  ∃ s1, parse_sigma1 stray_sigma1 = Ok s1 ∧ dest_matches s1 (case_fabric node_entry) = false.
Proof.
  assert (case_on_message toy_draw OPCODE_SIGMA1 stray_sigma1 toy_core = (toy_core, Err CNoSharedTrustRoots)) as Hrun by (vm_compute; reflexivity).
  split; [exact Hrun|].
  assert (bytes_ok (cs_root_tlv (case_fabric node_entry))) as Hr by (apply (short_blob root_tlv); vm_compute; reflexivity).
  assert (case_core_ok toy_core) as Hc by (split; [exact (Forall_cons_2 _ _ _ Hr (Forall_nil_2 _))|exact I]).
  assert (bytes_ok stray_sigma1) as Hb by (apply (short_blob stray_sigma1); vm_compute; reflexivity).
  assert (small stray_sigma1) as Hs by (vm_compute; reflexivity).
  pose proof (case_responder_steps toy_draw OPCODE_SIGMA1 stray_sigma1 toy_core Hc Hb Hs) as Hall. rewrite Hrun in Hall.
  destruct Hall as [_ Hall]. destruct (proj1 Hall eq_refl) as (_ & _ & s1 & H1 & Hno). exists s1. split; [exact H1|].
  apply Hno. exact (list_elem_of_here _ _).
Defined.
