(* ===== verification/CommissionerRun.v ===== *)
(** * A commissioning, end to end

    The commissioner of [Commissioner.v] against the server of
    [Commissioning.v], with the Interaction Model between them: the commissioner
    sends its commands through the client of [ImClient.v] to a [DataModel] node
    whose endpoint 0 carries the three commissioning clusters. *)

From Stdlib Require Import String.
From stdpp Require Import gmap.
From S2P Require Import Prelude Tlv TlvValue Handler Im Report AccessControl Events DataModel Clusters Groups Fabrics GroupKeys NodeSafety ImClient CommCodec Certs X509 Attestation SetupCode Commissioning CommissioningRun Handshake Spake Pase Commissioner.

(** ** The device under commissioning

    Its server, the time, the times of the messages to come, and the key the
    generator draws next. *)
Record World := { w_inner : Inner; w_now : Z; w_later : list Z; w_secret : bytes }.

Definition with_inner (s : Inner) (w : World) : World :=
  {| w_inner := s; w_now := w_now w; w_later := w_later w; w_secret := w_secret w |}.
Definition inner_lens : Lens World Inner := {| view := w_inner; update := with_inner |}.

(** The next message arrives at the next time of the schedule. *)
Definition tick (w : World) : World :=
  match w_later w with
  | [] => w
  | t :: l => {| w_inner := w_inner w; w_now := t; w_later := l; w_secret := w_secret w |}
  end.

Lemma tick_inner w : w_inner (tick w) = w_inner w.
Proof. unfold tick. by destruct (w_later w). Qed.
Lemma tick_secret w : w_secret (tick w) = w_secret w.
Proof. unfold tick. by destruct (w_later w). Qed.

(** All the times to come satisfy [P]. *)
Definition schedule (P : Z → Prop) (w : World) : Prop := P (w_now w) ∧ Forall P (w_later w).
Lemma schedule_tick P w : schedule P w → schedule P (tick w) ∧ P (w_now (tick w)).
Proof.
  unfold schedule, tick. destruct (w_later w) as [|t l] eqn:Hl; cbn; rewrite ?Hl; intros [H1 H2]; [by split|].
  apply Forall_cons in H2 as [? ?]. by split.
Qed.

Section link.
Context `{Ec : Ecdsa} `{Hk : Hkdf} `{Hash : Sha256}.

Definition GC := GeneralCommissioningHandler inner_lens w_now w_secret.
Definition OC := OperationalCredentialsHandler inner_lens w_now w_secret.

(** Endpoint 0 carries the two clusters of the flow. *)
Definition commissionable (n : DataModel.Node World) : Prop :=
  handler_mut n 0 CLUSTER_GENERAL_COMMISSIONING = Ok GC ∧ handler_mut n 0 CLUSTER_OPERATIONAL_CREDENTIALS = Ok OC.

(** A session without a fabric yet (PASE). *)
Definition pase_ctx (c : InvokeCtx) : Prop := ctx_fabric c = 0 ∧ clear_ctx c = c.

Context (rctx : ReadCtx).

#[local] Instance DeviceChannel : SecureChannel (NodeState (W:=World)) ImServerError := {
  sc_transport := NodeTransport tick rctx;
  session_challenge := λ '(_, _, c), attestation_challenge c
}.

Abbreviation invoke_data := (invoke_for_data (H:=NodeTransport tick rctx)).

(** The dispatcher's call of a handler that touches only its own state. *)
Lemma dispatch_at {E} n w c cl cmd b h s' reply : handler_mut n 0 cl = Ok h → clear_ctx c = c →
  acl_allows n w (ctx_fabric c) (ctx_subject c) (invoke_privilege h cmd) 0 cl = true →
  h_invoke h cmd b (w, c) = ((with_inner s' w, c), Ok reply) →
  invoke_on_endpoint (E:=E) 0 cl cmd b (n, w, c) = ((n, with_inner s' w, c), Ok (Ok (reply, []))).
Proof.
  intros Hh Hc Hacl Hrun. unfold invoke_on_endpoint. erewrite bind_ok by reflexivity. cbv beta iota. rewrite Hh.
  rewrite Hacl. cbn [negb]. erewrite (bind_ok clear_lists) by reflexivity. cbv beta iota. rewrite Hc.
  erewrite bind_ok by (unfold call; rewrite Hrun; reflexivity).
  assert (ctx_changed c = [] ∧ ctx_events c = []) as [Hch Hev] by (rewrite <- Hc; done).
  unfold bind, commit_changes, ret. rewrite Hch, Hev. cbn. rewrite Hc. by destruct n as [? ? ? ? l].
Qed.

(** One command of the flow, out and back. *)
Lemma send_at cl cmd e b timed n w c h s' reply :
  (ok_fin (E:=Empty_set) e = Ok b) → written b → in_u 32 cl → in_u 32 cmd → handler_mut n 0 cl = Ok h → pase_ctx c →
  h_invoke h cmd b (arrival tick timed w, c) = ((with_inner s' (arrival tick timed w), c), Ok reply) → reply_ok reply →
  reply_fits (Ok (reply, [])) →
  ∃ r, send cl cmd (Some e) timed (n, w, c) = ((n, with_inner s' (arrival tick timed w), c), map_err FSession r) ∧
    answered (Ok (reply, [])) r.
Proof.
  intros He (ch & -> & Hch & Hlen) Hcl Hcmd Hh Hc Hrun Hr Hfit. destruct (flat_fits ch Hch Hlen) as [Hwf Hs].
  set (f := Some (Anonymous, map (λ '(c, v), Leaf (Context c) v) ch)).
  destruct (invoke_at tick rctx 0 cl cmd f timed n w c (Ok (reply, [])) (n, with_inner s' (arrival tick timed w), c))
    as (r & Hinv & Ha); try done.
  - split; [exact Hwf|]. unfold small. change (enc_tree (flat ch)) with (enc_tree (Tlv.Node Anonymous KStruct (map (λ '(c, v), Leaf (Context c) v) ch))) in Hs. lia.
  - destruct Hc as [Hfab Hcl0]. apply (dispatch_at n _ c cl cmd _ h); try done. unfold acl_allows. by rewrite Hfab.
  - exists r. split; [|exact Ha]. unfold send. erewrite bind_ok.
    2: { destruct e as [b'| | |]; try done. cbn in He. injection He as ->. reflexivity. }
    transitivity (let '(s1, r1) := invoke_data 0 cl cmd (struct_raw f) timed (n, w, c) in (s1, map_err (FSession (SE:=ClientError ImServerError)) r1));
      [reflexivity|]. pose proof (Hinv : invoke_data 0 cl cmd (struct_raw f) timed (n, w, c) = _) as Hinv'. by rewrite Hinv'.
Qed.

(** *** Replies as the commissioner sees them *)

Context (n : DataModel.Node World) (c : InvokeCtx) (Hn : commissionable n) (Hc : pase_ctx c).

Lemma written_reply rc g : in_u 32 rc → written g → reply_ok (RData rc g) ∧ reply_fits (Ok (RData rc g, [])).
Proof.
  intros Hrc (ch & -> & Hch & Hlen). destruct (flat_fits ch Hch Hlen) as [_ Hs]. split; [|exact Hs].
  split; [done|]. by apply flat_fields.
Qed.

Lemma data_answer rc g r : written g → answered (Ok (RData rc g, [])) r →
  r = Ok {| id_status := 0; id_cluster_status := None; id_fields := Some g |}.
Proof.
  intros (ch & -> & Hch & Hlen) [_ Ha]. destruct (flat_ok ch Hch Hlen) as [Hwf Hs].
  apply (Ha (Some (Anonymous, map (λ '(c, v), Leaf (Context c) v) ch))); [|done]. by split.
Qed.

(** The world after a message that left the server in [s]. *)
Definition after (s : Inner) (w : World) : World := with_inner s (tick w).

Definition returned (g : bytes) : InvokeResponseData := {| id_status := 0; id_cluster_status := None; id_fields := Some g |}.

Lemma gc_data cmd e b w s' rc g : e = Ok b → written b → in_u 32 cmd → in_u 32 rc → written g →
  handle_general_commissioning (w_now (tick w)) cmd b (w_inner w) = (s', Ok (RData rc g)) →
  send CLUSTER_GENERAL_COMMISSIONING cmd (Some e) None (n, w, c) = ((n, after s' w, c), Ok (returned g)).
Proof.
  intros -> Hb Hcmd Hrc Hg Hrun. destruct (written_reply rc g Hrc Hg) as [Hr Hf].
  destruct (send_at CLUSTER_GENERAL_COMMISSIONING cmd (Ok b) b None n w c GC s' (RData rc g)) as (r & Hs & Ha); try done; [apply Hn| |].
  - cbn [GC h_invoke GeneralCommissioningHandler at_clock locked arrival]. cbn [inner_lens view update]. by rewrite tick_inner, Hrun.
  - rewrite Hs. by rewrite (data_answer rc g r Hg Ha).
Qed.

Lemma oc_send cmd e b w s' reply : e = Ok b → written b → in_u 32 cmd → reply_ok reply → reply_fits (Ok (reply, [])) →
  handle_operational_credentials (w_now (tick w)) (w_secret w) cmd b c (w_inner w) = (s', Ok reply) →
  ∃ r, send CLUSTER_OPERATIONAL_CREDENTIALS cmd (Some e) None (n, w, c) = ((n, after s' w, c), map_err FSession r) ∧
    answered (Ok (reply, [])) r.
Proof.
  intros -> Hb Hcmd Hr Hf Hrun. apply (send_at CLUSTER_OPERATIONAL_CREDENTIALS cmd (Ok b) b None n w c OC s' reply); try done; [apply Hn|].
  cbn [OC h_invoke OperationalCredentialsHandler at_clock locked arrival]. cbn [inner_lens view update]. by rewrite tick_inner, tick_secret, Hrun.
Qed.

Lemma oc_data cmd e b w s' rc g : e = Ok b → written b → in_u 32 cmd → in_u 32 rc → written g →
  handle_operational_credentials (w_now (tick w)) (w_secret w) cmd b c (w_inner w) = (s', Ok (RData rc g)) →
  send CLUSTER_OPERATIONAL_CREDENTIALS cmd (Some e) None (n, w, c) = ((n, after s' w, c), Ok (returned g)).
Proof.
  intros He Hb Hcmd Hrc Hg Hrun. destruct (written_reply rc g Hrc Hg) as [Hr Hf].
  destruct (oc_send cmd e b w s' (RData rc g)) as (r & Hs & Ha); try done. rewrite Hs. by rewrite (data_answer rc g r Hg Ha).
Qed.

Lemma oc_success cmd e b w s' : e = Ok b → written b → in_u 32 cmd →
  handle_operational_credentials (w_now (tick w)) (w_secret w) cmd b c (w_inner w) = (s', Ok (RStatus 0)) →
  send CLUSTER_OPERATIONAL_CREDENTIALS cmd (Some e) None (n, w, c) =
    ((n, after s' w, c), Ok {| id_status := 0; id_cluster_status := None; id_fields := None |}).
Proof.
  intros He Hb Hcmd Hrun. destruct (oc_send cmd e b w s' (RStatus 0)) as (r & Hs & ->); try done.
Qed.

(** *** General Commissioning *)

Definition ok_fields : bytes := enc_tree (flat [(0, VUint 0); (1, VUtf8 [])]).

Lemma ok_fields_read : written ok_fields ∧ decode_commissioning_status_response ok_fields = Ok (0, []).
Proof.
  destruct (status_trips 0 []) as (b & He & Hb & Hd); [done|by split; [constructor|] |].
  rewrite commissioning_response_at in He. apply Ok_inj in He. subst b. done.
Qed.

Lemma checked_ok step : check_commissioning_response (SE:=ImServerError) step (returned ok_fields) = Ok ().
Proof.
  unfold check_commissioning_response. change (fields_of (SE:=ImServerError) step (returned ok_fields)) with (Ok (E:=FlowError (ClientError ImServerError)) ok_fields).
  cbn [res_bind]. by rewrite (proj2 ok_fields_read).
Qed.

Definition armed_for (now : Z) (s : Inner) : Inner :=
  set_armed (arm now 120) (if is_armed now s then s else set_pending no_pending s).

Lemma arm_at now b bc s : uncommitted_fabric_index s = None → decode_arm_fail_safe b = Ok (120, bc) →
  handle_general_commissioning now CMD_ARM_FAIL_SAFE b s = (armed_for now s, Ok (RData RESP_ARM_FAIL_SAFE ok_fields)).
Proof.
  intros Hu Hd. change (handle_arm_fail_safe now b s = (armed_for now s, Ok (RData RESP_ARM_FAIL_SAFE ok_fields))).
  unfold handle_arm_fail_safe, answer. erewrite bind_ok by (rewrite Hd; reflexivity). cbv beta iota.
  erewrite (bind_ok get) by reflexivity. unfold armed_for. change (120 =? 0) with false. cbn [orb].
  destruct (is_armed now s); cbn [negb].
  - erewrite bind_ok by reflexivity. erewrite (bind_ok (modify _)) by reflexivity. unfold data. by rewrite commissioning_response_at.
  - erewrite bind_ok by (erewrite bind_ok by (unfold rollback_uncommitted_fabric, bind, get; rewrite Hu; reflexivity); reflexivity).
    erewrite (bind_ok (modify _)) by reflexivity. unfold data. by rewrite commissioning_response_at.
Qed.

Lemma arm_step_at step bc w : in_u 64 bc → uncommitted_fabric_index (w_inner w) = None →
  arm_step step bc (n, w, c) = ((n, after (armed_for (w_now (tick w)) (w_inner w)) w, c), Ok ()).
Proof.
  intros Hbc Hu. destruct (arm_trips bc Hbc 120) as (b & He & Hb & Hd); [done|]. unfold arm_step.
  erewrite bind_ok by (eapply gc_data; [exact He|exact Hb|done|..|by apply (arm_at _ b bc)]; [done|apply ok_fields_read]).
  unfold lift. by rewrite checked_ok.
Qed.

Lemma regulatory_step_at w : regulatory_step (n, w, c) = ((n, after (w_inner w) w, c), Ok ()).
Proof.
  destruct (regulatory_trips 2 ltac:(done) 2 (ascii "XX")) as (b & He & Hb & Hd); [done|by split; [repeat constructor|] |].
  unfold regulatory_step, carry_on.
  erewrite bind_ok by (eapply (gc_data _ _ b w (w_inner w) RESP_SET_REGULATORY_CONFIG ok_fields); [exact He|exact Hb|done|done|apply ok_fields_read|];
    change (handle_set_regulatory_config b (w_inner w) = (w_inner w, Ok (RData RESP_SET_REGULATORY_CONFIG ok_fields)));
    unfold handle_set_regulatory_config, answer; erewrite bind_ok by (rewrite Hd; reflexivity); unfold data; by rewrite commissioning_response_at).
  unfold lift. by rewrite checked_ok.
Qed.

(** *** Operational Credentials *)

Context `{!EcdsaLaws Ec}.

Lemma armed_run {B} now s (k : M Inner InvokeReply B) : is_armed now s = true → (require_armed now ;;! k) s = k s.
Proof. intros Ha. by erewrite bind_ok by (unfold require_armed, bind, get; rewrite Ha; reflexivity). Qed.

Lemma blobs_written ch : Forall field_ok ch → zlen ch ≤ 16 → written (enc_tree (flat ch)).
Proof. intros. by exists ch. Qed.

Lemma attestation_at now b ch nonce elements sig s : is_armed now s = true → decode_attestation_request b = Ok nonce →
  encode_attestation_elements (certification_declaration (dev s)) nonce 0 = Ok elements →
  sign_ecdsa_p256 (dac_private_key (dev s)) (attestation_tbs elements (attestation_challenge ch)) = Ok sig →
  handle_attestation_request now b ch s = (s, Ok (RData RESP_ATTESTATION (enc_tree (flat [(0, VBytes elements); (1, VBytes sig)])))).
Proof.
  intros Ha Hd He Hs. unfold handle_attestation_request, answer. rewrite armed_run by done.
  erewrite bind_ok by (rewrite Hd; reflexivity). erewrite (bind_ok get) by reflexivity.
  erewrite bind_ok by (rewrite He; reflexivity). erewrite bind_ok by (rewrite Hs; reflexivity). unfold data. by rewrite attestation_response_at.
Qed.

Lemma chain_at b ct s : decode_cert_chain_request b = Ok ct → ct = CERT_TYPE_DAC ∨ ct = CERT_TYPE_PAI →
  handle_cert_chain_request b s = (s, Ok (RData RESP_CERT_CHAIN
    (enc_tree (flat [(0, VBytes (if ct =? CERT_TYPE_DAC then dac_der (dev s) else pai_der (dev s)))])))).
Proof.
  intros Hd Hct. unfold handle_cert_chain_request, answer. erewrite bind_ok by (rewrite Hd; reflexivity). erewrite (bind_ok get) by reflexivity.
  destruct Hct as [-> | ->]; (erewrite bind_ok by reflexivity); unfold data; by rewrite chain_response_at.
Qed.

(** The certificate the server answers a type with. *)
Definition cert_of_type (s : Inner) (ct : Z) : bytes := if ct =? CERT_TYPE_DAC then dac_der (dev s) else pai_der (dev s).

Lemma read_fields {A} step g (d : bytes → res CommissionError A) x (st : NodeState (W:=World)) : d g = Ok x →
  (let! f := lift (fields_of (SE:=ImServerError) step (returned g)) in lift (comm_error (d f))) st = (st, Ok x).
Proof.
  intros Hd. erewrite bind_ok by reflexivity. unfold lift, comm_error. by rewrite Hd.
Qed.

Lemma request_cert_at step ct w : ct = CERT_TYPE_DAC ∨ ct = CERT_TYPE_PAI → blob (cert_of_type (w_inner w) ct) →
  request_cert step ct (n, w, c) = ((n, after (w_inner w) w, c), Ok (cert_of_type (w_inner w) ct)).
Proof.
  intros Hct Hblob. destruct (chain_trips ct) as (b & He & Hb & Hd); [by destruct Hct as [-> | ->]|].
  destruct (cert_reply_trips (cert_of_type (w_inner w) ct) Hblob) as (g & Hg & Hgw & Hgd).
  rewrite chain_response_at in Hg. apply Ok_inj in Hg. subst g. unfold request_cert.
  erewrite bind_ok by (eapply (oc_data _ _ b w (w_inner w) RESP_CERT_CHAIN); [exact He|exact Hb|done|done|exact Hgw|];
    change (handle_cert_chain_request b (w_inner w) = (w_inner w, Ok (RData RESP_CERT_CHAIN (enc_tree (flat [(0, VBytes (cert_of_type (w_inner w) ct))])))));
    by apply chain_at).
  by apply read_fields.
Qed.

Lemma attestation_step_at nonce elements sig paa signers wall w :
  let s := w_inner w in let w1 := after s w in let w2 := after s w1 in
  is_armed (w_now (tick w)) s = true → blob nonce → zlen nonce = 32 → dev_ok (dev s) →
  encode_attestation_elements (certification_declaration (dev s)) nonce 0 = Ok elements →
  sign_ecdsa_p256 (dac_private_key (dev s)) (attestation_tbs elements (attestation_challenge c)) = Ok sig →
  snd (verify_device_attestation wall (dac_der (dev s)) (pai_der (dev s)) paa signers elements sig nonce (attestation_challenge c) []) = Ok () →
  attestation_step (attestation_challenge c) nonce paa signers wall (n, w, c) = ((n, after s w2, c), Ok (dac_der (dev s))).
Proof.
  intros s w1 w2 Ha Hn1 Hn2 Hd He Hs Hv.
  assert (blob elements) as Hel.
  { rewrite encode_elements_at in He. apply Ok_inj in He. subst elements. by apply elements_blob; [|apply Hn1|]. }
  assert (blob sig ∧ zlen sig = 64) as [Hsb Hsl].
  { destruct (dev_signs (dev s) (attestation_tbs elements (attestation_challenge c)) Hd) as (sig' & Hs' & ? & ?). rewrite Hs' in Hs. apply Ok_inj in Hs. by subst. }
  destruct (dev_blobs _ Hd) as (Hdac & Hpai & _).
  destruct (attestation_trips nonce Hn1 Hn2) as (b & Hb & Hbw & Hbd).
  destruct (attestation_reply_trips sig Hsb Hsl elements Hel) as (g & Hg & Hgw & Hgd).
  rewrite attestation_response_at in Hg. apply Ok_inj in Hg. subst g. unfold attestation_step.
  erewrite bind_ok by (eapply (oc_data _ _ b w s RESP_ATTESTATION); [exact Hb|exact Hbw|done|done|exact Hgw|];
    change (handle_attestation_request (w_now (tick w)) b c s = (s, Ok (RData RESP_ATTESTATION (enc_tree (flat [(0, VBytes elements); (1, VBytes sig)])))));
    by apply (attestation_at _ _ _ nonce)).
  erewrite bind_ok by reflexivity.
  erewrite bind_ok by (unfold lift, comm_error; rewrite Hgd; reflexivity). cbv beta iota.
  erewrite bind_ok by (apply request_cert_at; [by left|exact Hdac]).
  erewrite bind_ok by (apply request_cert_at; [by right|exact Hpai]).
  erewrite bind_ok by (unfold lift; cbn [after with_inner w_inner cert_of_type]; change (cert_of_type s CERT_TYPE_DAC) with (dac_der (dev s)); change (cert_of_type s CERT_TYPE_PAI) with (pai_der (dev s)); rewrite Hv; reflexivity).
  reflexivity.
Qed.

Definition with_key (secret : bytes) (s : Inner) : Inner := set_pending (pend_keys secret (sk_public secret) (pending s)) s.
Definition with_root (root : bytes) (s : Inner) : Inner := set_pending (pend_root root (pending s)) s.

Lemma csr_at now secret b ch nonce csr sig s : is_armed now s = true → decode_csr_request b = Ok nonce →
  generate_csr (E:=X509Error) secret = Ok csr →
  sign_ecdsa_p256 (dac_private_key (dev s)) (attestation_tbs (enc_tree (flat [(1, VBytes csr); (2, VBytes nonce)])) (attestation_challenge ch)) = Ok sig →
  handle_csr_request now secret b ch s = (with_key secret s,
    Ok (RData RESP_CSR (enc_tree (flat [(0, VBytes (enc_tree (flat [(1, VBytes csr); (2, VBytes nonce)]))); (1, VBytes sig)])))).
Proof.
  intros Ha Hd Hcsr Hs. unfold handle_csr_request, answer. rewrite armed_run by done.
  erewrite bind_ok by (rewrite Hd; reflexivity). erewrite bind_ok by (rewrite Hcsr; reflexivity).
  erewrite (bind_ok (modify _)) by reflexivity. erewrite bind_ok by (rewrite nocsr_at; reflexivity).
  erewrite (bind_ok get) by reflexivity. erewrite bind_ok by (cbn [dev set_pending]; rewrite Hs; reflexivity).
  unfold data. by rewrite csr_response_at.
Qed.

Lemma verifies_own sk m sig : sign_ecdsa_p256 sk m = Ok sig → verify_ecdsa_p256 (sk_public sk) m sig = Ok ().
Proof.
  unfold sign_ecdsa_p256. destruct (sk_sign sk m) as [s|] eqn:Hs; [|done]. cbn. intros [= <-].
  destruct (sk_sign_verifies sk m s Hs) as (_ & _ & H1 & H2 & H3). unfold verify_ecdsa_p256. by rewrite H1, H2, H3.
Qed.

Lemma csr_step_at nonce cdac w :
  let s := w_inner w in
  is_armed (w_now (tick w)) s = true → blob nonce → zlen nonce = 32 → dev_ok (dev s) → is_Some (sk_sign (w_secret w) []) →
  parse_x509 (dac_der (dev s)) = Ok cdac → xc_public_key cdac = sk_public (dac_private_key (dev s)) →
  csr_step (attestation_challenge c) nonce (dac_der (dev s)) (n, w, c) =
    ((n, after (with_key (w_secret w) s) w, c), Ok (sk_public (w_secret w))).
Proof.
  intros s Ha Hn1 Hn2 Hd Hsk Hdac Hkey.
  destruct (csr_accepted (E:=X509Error) (w_secret w) Hsk) as (csr & Hcsr & Hparse & Hcl).
  destruct (makes_csr (E:=X509Error) (w_secret w) csr Hcsr) as [Hcb _].
  pose proof (nocsr_blob csr nonce Hcb Hcl (proj1 Hn1) Hn2) as Helb.
  destruct (nocsr_trips nonce Hn1 csr) as (el & Hel & _ & Held); [split; [done|lia]|].
  rewrite nocsr_at in Hel. apply Ok_inj in Hel. subst el.
  destruct (dev_signs (dev s) (attestation_tbs (enc_tree (flat [(1, VBytes csr); (2, VBytes nonce)])) (attestation_challenge c)) Hd) as (sig & Hs & Hsb & Hsl).
  destruct (csr_trips nonce Hn1 Hn2) as (b & Hb & Hbw & Hbd).
  destruct (csr_reply_trips sig Hsb Hsl _ Helb) as (g & Hg & Hgw & Hgd).
  rewrite csr_response_at in Hg. apply Ok_inj in Hg. subst g. unfold csr_step.
  erewrite bind_ok by (eapply (oc_data _ _ b w (with_key (w_secret w) s) RESP_CSR); [exact Hb|exact Hbw|done|done|exact Hgw|];
    exact (csr_at (w_now (tick w)) (w_secret w) b c nonce csr sig s Ha Hbd Hcsr Hs)).
  erewrite bind_ok by reflexivity.
  erewrite bind_ok by (unfold lift, comm_error; rewrite Hgd; reflexivity). cbv beta iota.
  erewrite bind_ok by (unfold lift; rewrite Hdac; reflexivity).
  erewrite bind_ok by (unfold lift; rewrite Hkey, (verifies_own _ _ _ Hs); reflexivity).
  erewrite bind_ok by (unfold lift, comm_error; rewrite Held; reflexivity). cbv beta iota.
  rewrite bool_decide_true by done. cbn [negb]. unfold lift. by rewrite Hparse.
Qed.

Lemma add_root_step_at root w : let s := w_inner w in is_armed (w_now (tick w)) s = true → blob root →
  add_root_step root (n, w, c) = ((n, after (with_root root s) w, c), Ok ()).
Proof.
  intros s Ha Hr. destruct (root_trips root Hr) as (b & Hb & Hbw & Hbd). unfold add_root_step.
  erewrite bind_ok; [|eapply (oc_success _ _ b w (with_root root s)); [exact Hb|exact Hbw|done|] ].
  - done.
  - change (handle_add_trusted_root (w_now (tick w)) b s = (with_root root s, Ok (RStatus 0))).
    unfold handle_add_trusted_root, answer. rewrite armed_run by done. by erewrite bind_ok by (rewrite Hbd; reflexivity).
Qed.

Context `{!HkdfLaws}.

Lemma written_ok b : written b → bytes_ok b ∧ small b.
Proof. intros (ch & -> & Hch & Hlen). destruct (flat_ok ch Hch Hlen). split; [by apply enc_tree_ok|done]. Qed.

(** The table's file can be written. *)
Definition saves (f : FabricStore) : Prop := ∀ e, snd (fs_insert e f) = Ok ().

Lemma add_noc_at now b f root secret rcac noc node fabric i s :
  server_ok s → is_armed now s = true → written b → decode_add_noc b = Ok f → an_icac f = None →
  pending s = {| op_private_key := Some secret; op_public_key := Some (sk_public secret); trusted_root_tlv := Some root |} →
  parse root = Ok rcac → parse (an_noc f) = Ok noc → verify_noc_chain noc None rcac = Ok () →
  mc_pub_key noc = sk_public secret → mc_node_id noc = Some node → mc_fabric_id noc = Some fabric →
  zlen (fs_entries (store s)) < SUPPORTED_FABRICS → is_Some (subject_kind (an_admin_subject f)) →
  next_fabric_index (store s) = Ok i → saves (store s) →
  ∃ s', handle_add_noc now b s = (s', Ok (noc_reply NOC_STATUS_OK (Some i))) ∧
    installed s f (entry_for f root secret rcac node fabric) i s'.
Proof.
  intros Hs Ha Hw Hd Hic Hp Hr Hnoc Hv Hk' Hnode Hfab Hlen Hsub Hi Hsave. destruct (written_ok b Hw) as [Hb Hsm].
  set (mk := entry_for f root secret rcac node fabric).
  assert (acceptable s f mk) as Hacc.
  { split; [done|]. split; [done|]. exists root, secret, (sk_public secret), rcac, noc, None, node, fabric. rewrite Hp.
    split; [done|]. split; [done|]. split; [done|]. split; [unfold icac_parsed; by rewrite Hic|]. split; [by apply chain_decided|]. done. }
  assert (∀ mk', acceptable s f mk' → mk' = mk) as Huniq.
  { intros mk' (_ & _ & ? & ? & ? & ? & ? & ? & ? & ? & (Hp1 & Hp2 & Hp3) & Hr' & Hn' & _ & _ & _ & Hnd & Hfb & ->).
    rewrite Hp in *. cbn in Hp1, Hp2. unfold mk. congruence. }
  destruct (add_noc_run b Hb Hsm now s f Hs Ha Hd) as [(st & _ & _ & Hno)|(mk' & Hacc' & [ [Hpanic _]|(j & Hj & [ [_ [msg Hmsg] ]|(s' & Hrun & Hins)])])].
  - by destruct (Hno mk).
  - congruence.
  - by rewrite Hsave in Hmsg.
  - rewrite (Huniq _ Hacc') in Hins. assert (j = i) as -> by congruence. by exists s'.
Qed.

Lemma add_noc_step_at fabric tlv i w s' : let s := w_inner w in
  blob tlv → blob (cf_ipk_epoch fabric) → zlen (cf_ipk_epoch fabric) = 16 → in_u 64 (cf_admin_node_id fabric) → in_u 8 i →
  (∀ b, written b → decode_add_noc b = Ok {| an_noc := tlv; an_icac := None; an_ipk := cf_ipk_epoch fabric;
      an_admin_subject := cf_admin_node_id fabric; an_admin_vendor := 0xFFF1 |} →
    handle_add_noc (w_now (tick w)) b s = (s', Ok (noc_reply NOC_STATUS_OK (Some i)))) →
  add_noc_step fabric tlv (n, w, c) = ((n, after s' w, c), Ok (Some i)).
Proof.
  intros s Ht Hk1 Hk2 Had Hi Hrun. destruct (noc_trips tlv (cf_ipk_epoch fabric) (cf_admin_node_id fabric) 0xFFF1) as (b & Hb & Hbw & Hbd); try done.
  destruct (noc_reply_trips 0 (Some i)) as (g & Hg & Hgw & Hgd); [done|done|].
  rewrite noc_response_at in Hg. apply Ok_inj in Hg. subst g. unfold add_noc_step.
  erewrite bind_ok by (eapply (oc_data _ _ b w s' RESP_NOC); [exact Hb|exact Hbw|done|done|exact Hgw|];
    exact (Hrun b Hbw Hbd)).
  erewrite bind_ok by reflexivity. by erewrite bind_ok by (unfold lift, comm_error; rewrite Hgd; reflexivity).
Qed.

(** *** CommissioningComplete, over any session *)

Lemma complete_step_at w c' : clear_ctx c' = c' →
  acl_allows n (tick w) (ctx_fabric c') (ctx_subject c') PRIVILEGE_ADMINISTER 0 CLUSTER_GENERAL_COMMISSIONING = true →
  complete_step (n, w, c') = ((n, after (set_uncommitted None (set_pending no_pending (set_armed None (w_inner w)))) w, c'), Ok ()).
Proof.
  intros Hcl Hacl. unfold complete_step.
  set (s' := set_uncommitted None (set_pending no_pending (set_armed None (w_inner w)))).
  destruct (invoke_at tick rctx 0 CLUSTER_GENERAL_COMMISSIONING CMD_COMMISSIONING_COMPLETE None None n w c'
    (Ok (RData RESP_COMMISSIONING_COMPLETE ok_fields, [])) (n, after s' w, c')) as (r & Hinv & Ha); [done|done|done| | | |].
  - destruct (written_reply RESP_COMMISSIONING_COMPLETE ok_fields) as [Hr _]; [done|apply ok_fields_read|]. by split; [|constructor].
  - by destruct (written_reply RESP_COMMISSIONING_COMPLETE ok_fields) as [_ Hf]; [|apply ok_fields_read|].
  - apply (dispatch_at n (tick w) c' CLUSTER_GENERAL_COMMISSIONING _ _ GC); [apply Hn|done|done|].
    cbn [GC h_invoke GeneralCommissioningHandler at_clock locked]. cbn [inner_lens view update]. rewrite tick_inner.
    change (handle_general_commissioning (w_now (tick w)) CMD_COMMISSIONING_COMPLETE (default [] (anon_raw None)) (w_inner w)) with
      (handle_commissioning_complete (w_inner w)).
    unfold handle_commissioning_complete, answer. do 3 erewrite (bind_ok (modify _)) by reflexivity. unfold data. by rewrite commissioning_response_at.
  - erewrite bind_ok.
    + unfold lift. by rewrite checked_ok.
    + transitivity (let '(s1, r1) := invoke_data 0 CLUSTER_GENERAL_COMMISSIONING CMD_COMMISSIONING_COMPLETE (struct_raw None) None (n, w, c') in
        (s1, map_err (FSession (SE:=ClientError ImServerError)) r1)); [reflexivity|].
      pose proof (Hinv : invoke_data 0 CLUSTER_GENERAL_COMMISSIONING CMD_COMMISSIONING_COMPLETE (struct_raw None) None (n, w, c') = _) as Hinv'.
      rewrite Hinv', (data_answer RESP_COMMISSIONING_COMPLETE ok_fields r (proj1 ok_fields_read) Ha). reflexivity.
Qed.
End link.

(** ** The commissioner's certificates *)

Section certificates.
Context `{Ec : Ecdsa} `{!EcdsaLaws Ec} `{Hsha : Sha1} `{!Sha1Laws} `{Hk : Hkdf}.

(** A root as [generate_rcac] makes it. *)
Definition root_of (key : bytes) (rcac_id : Z) (rcac : MatterCert) : Prop :=
  signed_under rcac (mc_pub_key rcac) ∧ ca_cert rcac ∧ mc_pub_key rcac = sk_public key ∧
  mc_subject rcac = [id_attr 20 rcac_id] ∧ skid_of (mc_extensions rcac) = Some (subject_key_id (sk_public key)).

Lemma generate_fabric_at key id serial ipk fabric_id admin : is_Some (sk_sign key []) →
  bytes_ok id → zlen id = 8 → bytes_ok serial → zlen serial = 8 →
  ∃ fabric rcac, generate_fabric key id serial ipk fabric_id admin = Ok fabric ∧
    (cf_root_private_key fabric = key ∧ cf_fabric_id fabric = fabric_id ∧ cf_ipk_epoch fabric = ipk ∧
     cf_admin_node_id fabric = admin) ∧
    blob (cf_rcac_tlv fabric) ∧ parse (cf_rcac_tlv fabric) = Ok rcac ∧ root_of key (le_val id) rcac ∧ in_u 64 (le_val id).
Proof.
  intros Hkey Hib Hil Hsb Hsl. pose proof (le_val_bound id Hib) as Hid. rewrite Hil in Hid.
  destruct (generate_rcac_at key id serial Hkey) as (rcac & Hg & H1 & H2 & H3 & H4 & H5); [lia|].
  pose proof (generate_rcac_wire key id serial rcac key Hsb ltac:(lia) ltac:(split; [apply Hid|apply Hid]) Hg) as Hw.
  destruct (wire_round rcac Hw) as (b & Hb & Hbb & Hbl & Hp).
  exists {| cf_rcac_tlv := b; cf_root_private_key := key; cf_fabric_id := fabric_id; cf_ipk_epoch := ipk; cf_admin_node_id := admin |}, rcac.
  split; [unfold generate_fabric; rewrite Hg; cbn [res_bind]; by rewrite Hb|]. split; [done|].
  split; [split; [done|cbn [cf_rcac_tlv]; lia]|]. split; [done|]. split; [by split|]. split; apply Hid.
Qed.

(** A NOC that a root issues, on the wire and checked. *)
Lemma issued_at key rcac_id rcac op node fab serial : is_Some (sk_sign key []) → root_of key rcac_id rcac → in_u 64 rcac_id →
  bytes_ok op → zlen op = 65 → in_u 64 node → in_u 64 fab → bytes_ok serial → zlen serial = 8 →
  ∃ noc tlv, issue_noc op node fab rcac key serial = Ok noc ∧ to_tlv noc = Ok tlv ∧ blob tlv ∧ parse tlv = Ok noc ∧
    verify_noc_chain noc None rcac = Ok () ∧ mc_pub_key noc = op ∧ mc_node_id noc = Some node ∧ mc_fabric_id noc = Some fab.
Proof.
  intros Hkey (Hself & Hca & Hpk & Hsub & Hskid) Hid Hob Hol Hn Hf Hsb Hsl.
  destruct (issue_noc_at key op node fab rcac (subject_key_id (sk_public key)) serial [] (0, 0, 0) Hkey) as (noc & Hi & Hsig & Hiss & Hleaf & Hkn & Hns);
    [lia|done|done|exact Hskid|apply zlen_skid|rewrite Hsub; by repeat constructor|by rewrite Hsub|].
  assert (wire_ok noc) as Hw.
  { apply (issue_noc_wire key op node fab rcac (sk_public key) serial noc); try done; [lia| |].
    - rewrite Hsub. by apply Forall_singleton.
    - rewrite Hsub. cbn [map]. apply (sum_cons _ _ _ 17); [by apply size_uint_le|done]. }
  destruct (wire_round noc Hw) as (b & Hb & Hbb & Hbl & Hp).
  assert (mc_node_id noc = Some node ∧ mc_fabric_id noc = Some fab) as [Hnode Hfab].
  { unfold mc_node_id, mc_fabric_id, subject_matter_id. by rewrite Hns. }
  exists noc, b. do 2 (split; [done|]). split; [split; [done|lia]|]. split; [done|]. split; [|done].
  apply chain_decided. split; [done|]. split; [done|]. split; [done|]. cbn [default]. rewrite Hpk. split; [done|]. split; [done|].
  split; [done|]. rewrite Hnode. split; [by eexists|]. exists fab. by split.
Qed.
End certificates.

(** ** The whole flow *)

(** Eight, or thirty-two, random bytes. *)
Definition draw (k : Z) (b : bytes) : Prop := bytes_ok b ∧ zlen b = k.

(** A device that can take a fabric: its server is sound, holds the attestation
    material [d], has no unconfirmed fabric, has room and gives out index [i]
    next, can write its table, and can make keys; its messages all arrive
    within the two minutes of the fail-safe. *)
Record device_ready `{Ec : Ecdsa} (d : DevAttestation) (w : World) (i : Z) : Prop := {
  dr_server : server_ok (w_inner w);
  dr_dev : dev (w_inner w) = d;
  dr_idle : uncommitted_fabric_index (w_inner w) = None;
  dr_room : zlen (fs_entries (store (w_inner w))) < SUPPORTED_FABRICS;
  dr_index : next_fabric_index (store (w_inner w)) = Ok i;
  dr_saves : saves (store (w_inner w));
  dr_key : is_Some (sk_sign (w_secret w) []);
  dr_time : schedule (λ t, t < w_now (tick w) + 120 * NANOS) w
}.

(** The fabric as the device holds it under index [i]. *)
Record entry_of `{Ec : Ecdsa} `{Sha1} `{Hkdf} (f : CommissioningFabric) (node i : Z) (secret serial : bytes) (e : FabricEntry) : Prop := {
  en_noc : fe_icac_tlv e = None ∧ issue_device_noc f (sk_public secret) node serial = Ok (fe_noc_tlv e);
  en_index : fe_index e = i;
  en_node : fe_node_id e = node;
  en_fabric : fe_fabric_id e = cf_fabric_id f;
  en_key : fe_op_private_key e = secret;
  en_root : fe_root_tlv e = cf_rcac_tlv f ∧ fe_root_public_key e = sk_public (cf_root_private_key f);
  en_ipk : fe_ipk_operational e =
    derive_ipk_operational (cf_ipk_epoch f) (compressed_fabric_id (sk_public (cf_root_private_key f)) (cf_fabric_id f));
  en_admin : fe_admin_subject e = cf_admin_node_id f
}.

Section flow.
Context `{Ec : Ecdsa} `{!EcdsaLaws Ec} `{Hsha : Sha1} `{!Sha1Laws} `{Hk : Hkdf} `{!HkdfLaws} `{Hash : Sha256}.

Lemma armed_at t D s : armed_until s = Some D → t < D → is_armed t s = true.
Proof. intros Ha Ht. unfold is_armed, deadline. rewrite Ha, (proj2 (Z.ltb_lt _ _) Ht). done. Qed.

Lemma armed_for_facts now s : server_ok s →
  server_ok (armed_for now s) ∧ dev (armed_for now s) = dev s ∧ store (armed_for now s) = store s ∧
  tables_of (armed_for now s) = tables_of s ∧ armed_until (armed_for now s) = Some (now + 120 * NANOS).
Proof.
  intros Hs. unfold armed_for. split; [|by destruct (is_armed now s)]. apply ok_armed. destruct (is_armed now s); [done|]. by apply ok_pending.
Qed.

Lemma after_schedule P s w : schedule P w → schedule P (after s w).
Proof. intros Hw. exact (proj1 (schedule_tick P w Hw)). Qed.

Lemma after_secret s w : w_secret (after s w) = w_secret w.
Proof. apply tick_secret. Qed.

Lemma still_armed D s w : armed_until s = Some D → schedule (λ t, t < D) w → is_armed (w_now (tick w)) s = true.
Proof. intros Ha Hw. eapply armed_at; [exact Ha|]. exact (proj2 (schedule_tick _ _ Hw)). Qed.

(** The administrator that AddNOC installed may do anything. *)
Lemma admin_allowed n i e t w c privilege cl :
  (∀ st, nd_acl n = Some st → acl_store (w_inner w) = Some (st w)) →
  tables_of (w_inner w) = install i e t → i ≠ 0 → 1 ≤ fe_admin_subject e ≤ OPERATIONAL_NODE_ID_MAX →
  ctx_fabric c = i → ctx_subject c = Subject_node (fe_admin_subject e) →
  acl_allows n w (ctx_fabric c) (ctx_subject c) privilege 0 cl = true.
Proof.
  intros Hst Ht Hi Ha -> ->. unfold acl_allows. destruct (Z.eqb_spec i 0); [done|]. destruct (nd_acl n) as [st|] eqn:Hn; [|done].
  specialize (Hst st eq_refl). pose proof (f_equal t_acl Ht) as Hacl. cbn in Hacl. rewrite Hst in Hacl.
  destruct (t_acl t) as [l|]; [|done]. cbn in Hacl. injection Hacl as Hacl. unfold check. destruct (Z.eqb_spec i 0); [done|].
  rewrite Hacl, existsb_app. apply orb_true_iff. right. cbn. unfold on_fabric. cbn. rewrite Z.eqb_refl.
  unfold subject_matches_entry, matches. cbn. assert (Z.shiftr (fe_admin_subject e) 32 ≠ CAT_SUBJECT_PREFIX) as Hne.
  { rewrite Z.shiftr_div_pow2 by done. pose proof (Z.div_le_mono _ _ (2 ^ 32) ltac:(done) (proj2 Ha)) as Hd.
    change (OPERATIONAL_NODE_ID_MAX / 2 ^ 32) with 0xFFFFFFEF in Hd. unfold CAT_SUBJECT_PREFIX. lia. }
  destruct (Z.eqb_spec (Z.shiftr (fe_admin_subject e) 32) CAT_SUBJECT_PREFIX); [done|]. cbn. by rewrite Z.eqb_refl.
Qed.

Lemma add_noc_decoded now b b' s : decode_add_noc b = decode_add_noc b' → handle_add_noc now b s = handle_add_noc now b' s.
Proof. unfold handle_add_noc. by intros ->. Qed.

(** The credential steps, once each side's material is known to be good. *)
Lemma credential_steps_run rctx n c w i fabric rcac_id rcac node paa signers wall nonce elements sig cdac csr_nonce serial :
  let s := w_inner w in let key := cf_root_private_key fabric in
  commissionable n → pase_ctx c → device_ready (dev s) w i →
  is_Some (sk_sign key []) → parse (cf_rcac_tlv fabric) = Ok rcac → blob (cf_rcac_tlv fabric) → root_of key rcac_id rcac → in_u 64 rcac_id →
  blob (cf_ipk_epoch fabric) → zlen (cf_ipk_epoch fabric) = 16 → in_u 64 (cf_fabric_id fabric) → in_u 64 (cf_admin_node_id fabric) →
  is_Some (subject_kind (cf_admin_node_id fabric)) → in_u 64 node → draw 8 serial →
  blob nonce → zlen nonce = 32 → blob csr_nonce → zlen csr_nonce = 32 →
  encode_attestation_elements (certification_declaration (dev s)) nonce 0 = Ok elements →
  sign_ecdsa_p256 (dac_private_key (dev s)) (attestation_tbs elements (attestation_challenge c)) = Ok sig →
  snd (verify_device_attestation wall (dac_der (dev s)) (pai_der (dev s)) paa signers elements sig nonce (attestation_challenge c) []) = Ok () →
  parse_x509 (dac_der (dev s)) = Ok cdac → xc_public_key cdac = sk_public (dac_private_key (dev s)) →
  ∃ w' e, run_credential_steps (H0:=DeviceChannel rctx) fabric node paa signers wall nonce csr_nonce serial (n, w, c) = ((n, w', c), Ok (Some i)) ∧
    server_ok (w_inner w') ∧ tables_of (w_inner w') = install i e (tables_of s) ∧ entry_of fabric node i (w_secret w) serial e.
Proof.
  intros s key Hn Hc [Hs _ Hu Hroom Hnext Hsave Hsec Htime] Hkey Hrc Hrb Hroot Hid Hib Hil Hfid Had Hsub Hnode [Hserb Hserl]
    Hn1 Hn2 Hcn1 Hcn2 Hel Hsig Hver Hdac Hdk.
  set (now1 := w_now (tick w)) in *. set (D := now1 + 120 * NANOS) in *. fold s in Hs, Hu, Hroom, Hnext, Hsave.
  destruct (armed_for_facts now1 s Hs) as (Hs1 & Hd1 & Hst1 & Ht1 & Ha1). fold D in Ha1. set (s1 := armed_for now1 s) in *.
  set (secret := w_secret w) in *.
  set (w1 := after s1 w). set (w2 := after s1 w1). set (w5 := after s1 (after s1 (after s1 w2))).
  set (s2 := with_key secret s1). set (w6 := after s2 w5). set (s3 := with_root (cf_rcac_tlv fabric) s2). set (w7 := after s3 w6).
  assert (schedule (λ t, t < D) w1) as T1 by by apply after_schedule.
  assert (schedule (λ t, t < D) w2) as T2 by by apply after_schedule.
  assert (schedule (λ t, t < D) w5) as T5 by by do 3 apply after_schedule.
  assert (schedule (λ t, t < D) w6) as T6 by by apply after_schedule.
  assert (schedule (λ t, t < D) w7) as T7 by by apply after_schedule.
  assert (w_secret w5 = secret) as Hsec5 by (unfold w5, w2, w1; by rewrite !after_secret).
  assert (server_ok s3) as Hs3.
  { apply ok_pending; [|apply ok_pending; [apply Hs1|exact Hs1] ]. split; [apply Hrb|unfold small; destruct Hrb; lia]. }
  destruct (issued_at key rcac_id rcac (sk_public secret) node (cf_fabric_id fabric) serial) as
    (noc & tlv & Hiss & Htlv & Htb & Hpn & Hchain & Hpk & Hnn & Hnf); try done; [apply sk_public_key|apply sk_public_key|].
  pose proof (next_index_free _ _ (so_fabrics s Hs) Hnext) as [Hi _].
  set (f := {| an_noc := tlv; an_icac := None; an_ipk := cf_ipk_epoch fabric; an_admin_subject := cf_admin_node_id fabric; an_admin_vendor := 0xFFF1 |}).
  assert (is_armed (w_now (tick w7)) s3 = true) as Ha7 by by apply (still_armed D).
  assert (∀ b, written b → decode_add_noc b = Ok f → ∃ s4, handle_add_noc (w_now (tick w7)) b s3 = (s4, Ok (noc_reply NOC_STATUS_OK (Some i))) ∧
    installed s3 f (entry_for f (cf_rcac_tlv fabric) secret rcac node (cf_fabric_id fabric)) i s4) as Hadd.
  { intros b Hb Hdec. apply (add_noc_at (w_now (tick w7)) b f (cf_rcac_tlv fabric) secret rcac noc node (cf_fabric_id fabric) i s3); try done.
    - change (store s3) with (store s1). by rewrite Hst1.
    - change (store s3) with (store s1). by rewrite Hst1.
    - intros e. change (store s3) with (store s1). rewrite Hst1. apply Hsave. }
  destruct (noc_trips tlv (cf_ipk_epoch fabric) (cf_admin_node_id fabric) 0xFFF1) as (b & _ & Hbw & Hbd); try done.
  destruct (Hadd b Hbw Hbd) as (s4 & Hrun4 & Hins).
  assert (attestation_step (H0:=DeviceChannel rctx) (attestation_challenge c) nonce paa signers wall (n, w2, c) = ((n, w5, c), Ok (dac_der (dev s)))) as Hatt.
  { pose proof (attestation_step_at rctx n c Hn Hc nonce elements sig paa signers wall w2) as H. cbv zeta in H.
    change (w_inner w2) with s1 in H. rewrite !Hd1 in H. apply H; [by apply (still_armed D)|exact Hn1|exact Hn2|apply Hs|exact Hel|exact Hsig|exact Hver]. }
  assert (csr_step (H0:=DeviceChannel rctx) (attestation_challenge c) csr_nonce (dac_der (dev s)) (n, w5, c) = ((n, w6, c), Ok (sk_public secret))) as Hcsr.
  { pose proof (csr_step_at rctx n c Hn Hc csr_nonce cdac w5) as H. cbv zeta in H.
    change (w_inner w5) with s1 in H. rewrite !Hd1, !Hsec5 in H. apply H; [by apply (still_armed D)|exact Hcn1|exact Hcn2|apply Hs|exact Hsec|exact Hdac|exact Hdk]. }
  exists (after s4 w7), (entry_for f (cf_rcac_tlv fabric) secret rcac node (cf_fabric_id fabric) i).
  split; [|destruct Hins as (Hok & Ht & _); split; [exact Hok|]; split].
  - unfold run_credential_steps. erewrite (bind_ok get) by reflexivity. cbv zeta. change (session_challenge (n, w, c)) with (attestation_challenge c).
    erewrite bind_ok by by (apply arm_step_at). fold now1. fold s. fold s1. fold w1.
    erewrite bind_ok by by (apply regulatory_step_at). change (w_inner w1) with s1. fold w2.
    erewrite bind_ok by exact Hatt. erewrite bind_ok by exact Hcsr.
    erewrite bind_ok. 2: { unfold lift, issue_device_noc. rewrite Hrc. cbn [res_bind]. fold key. rewrite Hiss. cbn [res_bind]. rewrite Htlv. reflexivity. }
    erewrite bind_ok by (apply add_root_step_at; [done|done|by apply (still_armed D)|done]). change (w_inner w6) with s2. fold s3. fold w7.
    apply (add_noc_step_at rctx n c Hn Hc fabric tlv i w7 s4); try done; [unfold in_u; lia|].
    intros b' _ Hb'd. change (w_inner w7) with s3. rewrite <- Hrun4. apply add_noc_decoded. by rewrite Hb'd.
  - change (w_inner (after s4 w7)) with s4. rewrite Ht. change (tables_of s3) with (tables_of s1). by rewrite Ht1.
  - destruct Hroot as (_ & _ & Hrk & _).
    assert (issue_device_noc fabric (sk_public secret) node serial = Ok tlv) as Hdn.
    { unfold issue_device_noc. rewrite Hrc. cbn [res_bind]. fold key. rewrite Hiss. cbn [res_bind]. by rewrite Htlv. }
    split; cbn [entry_for fe_noc_tlv fe_icac_tlv fe_index fe_node_id fe_fabric_id fe_op_private_key fe_root_tlv fe_root_public_key fe_ipk_operational fe_admin_subject]; rewrite ?Hrk; done.
Qed.

(** The administrator's own credentials of the fabric. *)
Lemma admin_credentials_at fabric rcac_id rcac op_key serial : let key := cf_root_private_key fabric in
  is_Some (sk_sign key []) → parse (cf_rcac_tlv fabric) = Ok rcac → root_of key rcac_id rcac → in_u 64 rcac_id →
  in_u 64 (cf_admin_node_id fabric) → in_u 64 (cf_fabric_id fabric) → draw 8 serial →
  ∃ creds, admin_credentials fabric op_key serial = Ok creds ∧
    fc_ipk_operational creds = derive_ipk_operational (cf_ipk_epoch fabric) (compressed_fabric_id (sk_public key) (cf_fabric_id fabric)) ∧
    fc_root_public_key creds = sk_public key ∧ fc_fabric_id creds = cf_fabric_id fabric ∧ fc_node_id creds = cf_admin_node_id fabric.
Proof.
  intros key Hkey Hrp Hroot Hrid Ha Hf [Hsb Hsl].
  destruct (issued_at key rcac_id rcac (sk_public op_key) (cf_admin_node_id fabric) (cf_fabric_id fabric) serial) as
    (noc & tlv & Hiss & Htlv & _ & _ & Hchain & _); [done|done|done|apply sk_public_key|apply sk_public_key|done|done|done|done|].
  assert (mc_pub_key rcac = sk_public key) as Hpk by apply Hroot.
  eexists. split.
  - unfold admin_credentials. rewrite Hrp. cbn [res_bind]. unfold from_self_issued.
    cbn [sm_rcac sm_root_private_key sm_ipk_operational sm_node_id sm_fabric_id]. cbv zeta. rewrite Hrp. cbn [res_bind].
    fold key. rewrite Hiss. cbn [res_bind]. rewrite Hchain. cbn [res_bind]. rewrite Htlv. reflexivity.
  - cbn. by rewrite Hpk.
Qed.

(** C2. A commissioning succeeds, end to end.  A commissioner with a fresh fabric
    (any usable root key) and a development device (any vendor and product, its
    attestation root trusted) that is ready for a fabric run the protocol over a
    PASE session, every command going through the Interaction Model client, the
    wire and the device's dispatcher.  Every step succeeds; the device ends up
    with exactly one more fabric, the one the commissioner made for it, with the
    administrator's access and nothing else changed; the administrator can make
    operational credentials of the same fabric that share the device's
    operational group key; and its CommissioningComplete over the new operational
    session passes the access check, confirms the fabric and disarms the
    fail-safe, so that no expiry takes it back. *)
Theorem commissioning_completes rctx n c w i d fabric
    root_key id serial ipk fabric_id admin node noc_serial nonce csr_nonce
    paa_key pai_key dac_key vid pid others signer cert wall :
  is_Some (sk_sign root_key []) → draw 8 id → draw 8 serial → draw 16 ipk → in_u 64 fabric_id →
  1 ≤ admin ≤ OPERATIONAL_NODE_ID_MAX → in_u 64 node → draw 8 noc_serial → draw 32 nonce → draw 32 csr_nonce →
  generate_fabric root_key id serial ipk fabric_id admin = Ok fabric →
  is_Some (sk_sign paa_key []) → is_Some (sk_sign pai_key []) → is_Some (sk_sign dac_key []) →
  is_Some (sk_sign TEST_CD_SIGNING_KEY []) → in_u 16 vid → in_u 16 pid →
  generate_dev_attestation paa_key pai_key dac_key vid pid = Ok d →
  parse_x509 signer = Ok cert → xc_public_key cert = sk_public TEST_CD_SIGNING_KEY → in_validity wall →
  commissionable n → pase_ctx c → device_ready d w i →
  ∃ w' e,
    run_credential_steps (H0:=DeviceChannel rctx) fabric node (paa_der d :: others) [signer] (Some wall) nonce csr_nonce
      noc_serial (n, w, c) = ((n, w', c), Ok (Some i)) ∧
    tables_of (w_inner w') = install i e (tables_of (w_inner w)) ∧ entry_of fabric node i (w_secret w) noc_serial e ∧
    (∀ op_key op_serial, draw 8 op_serial → ∃ creds, admin_credentials fabric op_key op_serial = Ok creds ∧
       fc_ipk_operational creds = fe_ipk_operational e ∧ fc_root_public_key creds = fe_root_public_key e ∧
       fc_fabric_id creds = fe_fabric_id e ∧ fc_node_id creds = admin) ∧
    ∀ rctx' c' w1, w_inner w1 = w_inner w' → clear_ctx c' = c' → ctx_fabric c' = i → ctx_subject c' = Subject_node admin →
      (∀ st, nd_acl n = Some st → acl_store (w_inner (tick w1)) = Some (st (tick w1))) →
      ∃ w2, complete_step (H0:=DeviceChannel rctx') (n, w1, c') = ((n, w2, c'), Ok ()) ∧
        tables_of (w_inner w2) = with_uncommitted None (tables_of (w_inner w')) ∧
        ∀ now, expire_fail_safe now (w_inner w2) = (w_inner w2, Ok None).
Proof.
  intros Hkey [Hidb Hidl] [Hsb Hsl] [Hib Hil] Hfid Had Hnode Hnser [Hn1 Hn2] [Hc1 Hc2] Hgen Hpaa Hpai Hdac Htest Hvid Hpid Hdev
    Hsigner Hcert Hwall Hn Hc Hready.
  destruct (generate_fabric_at root_key id serial ipk fabric_id admin) as (fabric' & rcac & Hgen' & Hfab & Hrb & Hrp & Hroot & Hrid); try done.
  rewrite Hgen in Hgen'. apply Ok_inj in Hgen' as <-. destruct Hfab as (<- & <- & <- & <-).
  pose proof (dr_dev _ _ _ Hready) as <-.
  destruct (dev_attested paa_key pai_key dac_key vid pid nonce (attestation_challenge c) 0 wall others signer cert [])
    as (d' & elements & sig & cdac & Hd' & Hel & Hsig & Hver & Hkd & [Hcd Hcdk] & _); try done.
  rewrite Hdev in Hd'. apply Ok_inj in Hd' as <-.
  assert (in_u 64 (cf_admin_node_id fabric)) as Hadm by (unfold in_u, OPERATIONAL_NODE_ID_MAX in *; lia).
  assert (is_Some (subject_kind (cf_admin_node_id fabric))) as Hkind.
  { unfold subject_kind. rewrite (proj2 (Z.leb_le 1 _)), (proj2 (Z.leb_le _ OPERATIONAL_NODE_ID_MAX)) by lia. by eexists. }
  destruct (credential_steps_run rctx n c w i fabric (le_val id) rcac node (paa_der (dev (w_inner w)) :: others) [signer] (Some wall)
    nonce elements sig cdac csr_nonce noc_serial Hn Hc Hready Hkey Hrp Hrb Hroot Hrid) as (w' & e & Hrun & Hok & Ht & He);
    [by split; [|lia]|done|done|done|done|done|done|by split; [|lia]|done|by split; [|lia]|done|exact Hel|exact Hsig|by rewrite Hver|exact Hcd|by rewrite Hkd|].
  exists w', e. split; [exact Hrun|]. split; [exact Ht|]. split; [exact He|].
  assert (i ≠ 0) as Hi0. { pose proof (next_index_free _ _ (so_fabrics _ (dr_server _ _ _ Hready)) (dr_index _ _ _ Hready)). lia. }
  split.
  - intros op_key op_serial Hos. destruct (admin_credentials_at fabric (le_val id) rcac op_key op_serial) as (creds & Hcr & C1 & C2 & C3 & C4);
      [exact Hkey|exact Hrp|exact Hroot|exact Hrid|exact Hadm|exact Hfid|exact Hos|].
    exists creds. split; [exact Hcr|]. rewrite C1, C2, C3, C4, (en_ipk _ _ _ _ _ _ He), (proj2 (en_root _ _ _ _ _ _ He)), (en_fabric _ _ _ _ _ _ He).
    split; [reflexivity|]. split; [reflexivity|]. split; reflexivity.
  - intros rctx' c' w1 Hw1 Hcl Hcf Hcs Hst. eexists. split; [|split].
    + apply (complete_step_at rctx' n Hn w1 c' Hcl).
      apply (admin_allowed n i e (tables_of (w_inner w)) (tick w1) c' _ _ Hst);
        [rewrite tick_inner, Hw1; exact Ht|exact Hi0|rewrite (en_admin _ _ _ _ _ _ He); exact Had|exact Hcf|rewrite (en_admin _ _ _ _ _ _ He); exact Hcs].
    + rewrite Hw1. reflexivity.
    + intros now. reflexivity.
Qed.
End flow.

(** ** Opening a window *)

Section window.
Context {S SE : Type} `{SecureChannel S SE} `{C : Curve} `{!CurveLaws C} `{Kdf : Pbkdf2}.

Lemma candidate_range b : 1 ≤ candidate_passcode b ≤ 99999998.
Proof. unfold candidate_passcode. pose proof (Z.mod_pos_bound (le_val b) 99999998 eq_refl). lia. Qed.

Lemma random_passcode_ok draws :
  match random_valid_passcode (SE:=SE) draws with
  | Ok p => 1 ≤ p ≤ 99999998 ∧ p ∉ INVALID_PASSCODES
  | OutOfFuel => Forall (λ b, candidate_passcode b ∈ INVALID_PASSCODES) draws
  | _ => False
  end.
Proof.
  induction draws as [|b draws IH]; cbn [random_valid_passcode]; [constructor|].
  case_bool_decide as Hb; [|by split; [apply candidate_range|] ].
  destruct (random_valid_passcode draws); try done. by constructor.
Qed.

(** What the two codes of a window say. *)
Definition window_payload (passcode disc : Z) : SetupPayload := {|
  version := 0; pl_vendor_id := 0; product_id := 0; custom_flow := 0; discovery_capabilities := 0x04;
  discriminator := disc; passcode := passcode |}.

Lemma window_codes passcode disc : 1 ≤ passcode ≤ 99999998 → 0 ≤ disc ≤ 0x0FFF → ∃ manual qr,
  window_manual_code passcode disc = Ok manual ∧ window_qr passcode disc = Ok qr ∧
  parse_manual_code manual = Ok {| mc_passcode := passcode; short_discriminator := Z.shiftr disc 8 |} ∧
  parse_qr qr = Ok (window_payload passcode disc).
Proof.
  intros Hp Hd. assert (0 ≤ Z.shiftr disc 8 ≤ 15) as Hs.
  { rewrite Z.shiftr_div_pow2 by done. split; [apply Z.div_pos; lia|]. pose proof (Z.div_le_mono disc 0x0FFF (2 ^ 8) eq_refl (proj2 Hd)) as Hm. change (0x0FFF / 2 ^ 8) with 15 in Hm. lia. }
  assert (wrap 8 (Z.shiftr disc 8) = Z.shiftr disc 8) as Hw by (unfold wrap; apply Z.mod_small; lia).
  pose proof (manual_code_round_trip passcode (Z.shiftr disc 8)) as Hm. rewrite bool_decide_true in Hm by lia.
  destruct Hm as (m & Hm & _ & Hmp); [lia|lia|].
  assert (wf_payload (window_payload passcode disc)) as Hwf by (unfold wf_payload, in_u; cbn; lia).
  destruct (pack_payload_ok _ Hwf) as [Hpack _].
  exists m, (QR_PREFIX ++ base38_encode (le_bytes PAYLOAD_BYTES (packed (window_payload passcode disc)))).
  split; [unfold window_manual_code; by rewrite Hw|]. split; [unfold window_qr, encode_qr; unfold window_payload in Hpack; by rewrite Hpack|].
  split; [done|]. pose proof (qr_parses (window_payload passcode disc) [] Hwf) as Hq. rewrite app_nil_r in Hq. apply Hq; [cbn; lia|constructor].
Qed.

Lemma send_eq cl cmd f timed s : send (SE:=SE) cl cmd (Some (Ok f)) timed s =
  let '(s', r) := invoke_for_data 0 cl cmd (Some f) timed s in (s', map_err FSession r).
Proof. done. Qed.

(** C38. Opening a window is all or nothing on the commissioner's side.
    Parameters out of range are refused before anything is sent.  Otherwise
    the passcode is the first admissible draw (1 to 99999998 and none of the
    twelve trivial ones), the command that goes out is one the device's decoder
    reads back as these parameters, within the bounds its handler demands, and
    when the device agrees the caller gets codes that really open it: the manual
    code and the QR code both parse, to that passcode and discriminator.  A code
    that cannot be built - which would lose the passcode of an open window - does
    not happen. *)
Theorem opened_window_codes timeout disc iterations draws salt p verifier s :
  in_u 16 timeout → in_u 16 disc → in_u 32 iterations → draw 32 salt → random_valid_passcode (SE:=SE) draws = Ok p →
  compute_verifier p salt iterations = Ok verifier →
  (1 ≤ p ≤ 99999998 ∧ p ∉ INVALID_PASSCODES) ∧ (∀ y, from_verifier_material verifier y = Ok (from_passcode p salt iterations y)) ∧
  if (disc <=? 0x0FFF) && contains 1000 100000 iterations then
    ∃ fields, encode_open_commissioning_window timeout verifier disc iterations salt = Ok fields ∧
      decode_open_commissioning_window fields = Ok {| wf_timeout := timeout; wf_verifier := verifier; wf_discriminator := disc;
        wf_iterations := iterations; wf_salt := salt |} ∧ zlen verifier = 97 ∧
      match invoke_for_data 0 CLUSTER_ADMIN_COMMISSIONING CMD_OPEN_COMMISSIONING_WINDOW (Some fields) (Some 10000) s with
      | (s', Ok resp) =>
          if id_status resp =? 0 then ∃ w,
            open_commissioning_window timeout disc iterations draws salt s = (s', Ok w) ∧
            parse_manual_code (ow_manual_code w) = Ok {| mc_passcode := p; short_discriminator := Z.shiftr disc 8 |} ∧
            parse_qr (ow_qr_payload w) = Ok (window_payload p disc) ∧ ow_passcode w = p ∧ ow_discriminator w = disc
          else open_commissioning_window timeout disc iterations draws salt s =
                 (s', Err (FCommandStatus "open-window" (id_status resp)))
      | (s', Err e) => open_commissioning_window timeout disc iterations draws salt s = (s', Err (FSession e))
      | _ => True
      end
  else ∃ what, open_commissioning_window timeout disc iterations draws salt s = (s, Err (FInvalidArgument what)).
Proof.
  intros Ht Hd Hit [Hsb Hsl] Hp Hv. pose proof (random_passcode_ok draws) as Hok. rewrite Hp in Hok. split; [exact Hok|].
  pose proof (λ y, material_verifier p salt iterations verifier y Hv) as Hmat. destruct (Hmat 0) as (Hvl & Hvb & _). split; [apply Hmat|].
  destruct (Z.leb_spec disc 0x0FFF) as [Hdisc|Hdisc]; cbn [andb].
  2: { eexists. unfold open_commissioning_window, validate_window_params. rewrite (proj2 (Z.ltb_lt _ _) Hdisc). reflexivity. }
  assert (validate_window_params (SE:=SE) disc iterations =
    if contains 1000 100000 iterations then Ok () else Err (FInvalidArgument "iterations must be in 1000..=100000")) as Hval.
  { unfold validate_window_params. rewrite (proj2 (Z.ltb_ge _ _) Hdisc). by destruct (contains _ _ _). }
  destruct (contains 1000 100000 iterations) eqn:Hc; [|eexists; unfold open_commissioning_window, lift; by rewrite Hval].
  destruct (window_trips timeout verifier disc iterations salt) as (f & Hf & _ & Hfd);
    [done|split; [done|lia]|done|done|split; [done|lia]|].
  exists f. split; [done|]. split; [done|]. split; [done|].
  assert (open_commissioning_window timeout disc iterations draws salt s =
    (let! resp := send CLUSTER_ADMIN_COMMISSIONING CMD_OPEN_COMMISSIONING_WINDOW (Some (Ok f)) (Some 10000) in
     if negb (id_status resp =? 0) then throw (FCommandStatus "open-window" (id_status resp)) else
     match window_manual_code p disc, window_qr p disc with
     | Ok manual, Ok qr =>
         ret {| ow_passcode := p; ow_discriminator := disc; ow_manual_code := manual; ow_qr_payload := qr; ow_timeout := timeout |}
     | _, _ => panic
     end) s) as ->.
  { unfold open_commissioning_window. erewrite bind_ok by (unfold lift; rewrite Hval; reflexivity).
    erewrite bind_ok by (unfold lift; rewrite Hp; reflexivity). erewrite bind_ok by (rewrite Hv; reflexivity). by rewrite Hf. }
  unfold bind. rewrite send_eq.
  destruct (invoke_for_data 0 CLUSTER_ADMIN_COMMISSIONING CMD_OPEN_COMMISSIONING_WINDOW (Some f) (Some 10000) s) as [s' [resp|e| |] ]; cbv beta iota zeta; cbn [map_err]; cbv beta iota; [|reflexivity|exact I|exact I].
  destruct (Z.eqb_spec (id_status resp) 0) as [Hz|Hz]; cbn [negb]; [|done].
  destruct (window_codes p disc (proj1 Hok)) as (m & q & -> & -> & Hm & Hq); [destruct Hd; lia|]. eexists. split; [reflexivity|]. done.
Qed.
End window.

(** ** Concrete instances *)

Module ToyFlow.
Import ToyEcdsa ToyServer.

#[export] Instance toy_sha256 : Sha256 := λ b, replicate 32 (sum b).
#[export] Existing Instances ToyCurve.toy_curve ToyCurve.toy_curve_laws ToyHash.toy_pbkdf2.

(** A root endpoint with the two clusters, checked against the server's ACL. *)
Definition toy_node : DataModel.Node World :=
  DataModel.set_acl_store (λ w, default AclStore_new (acl_store (w_inner w))) (add_endpoint 0 [GC; OC] Node_new).
Definition pase : InvokeCtx :=
  {| attestation_challenge := replicate 16 3; ctx_changed := []; ctx_fabric := 0; ctx_subject := Subject_node 0; ctx_events := [] |}.
Definition case_ctx : InvokeCtx :=
  {| attestation_challenge := replicate 16 4; ctx_changed := []; ctx_fabric := 1; ctx_subject := Subject_node 0x1B669; ctx_events := [] |}.
Definition toy_read : ReadCtx := {| rc_fabric := 0; rc_filtered := false; rc_subject := Subject_node 0 |}.

(** A factory-fresh device; a message every second. *)
Definition toy_world (d : DevAttestation) : World :=
  {| w_inner := fresh_with d; w_now := 0; w_later := map (λ n, n * NANOS) (seqZ 1 10); w_secret := op_secret |}.

Lemma toy_ready d : dev_ok d → device_ready d (toy_world d) 1.
Proof.
  intros Hd. constructor; try done.
  - by apply fresh_with_ok.
  - split; cbn [w_now w_later toy_world tick]; [done|]. apply Forall_fmap, Forall_forall. intros n Hn%elem_of_seqZ.
    unfold compose, NANOS. change (w_now (tick (toy_world d))) with (1 * NANOS). unfold NANOS. lia.
Qed.

Lemma toy_commissionable : commissionable toy_node.
Proof. by split. Qed.

(** An open channel that answers everything with success. *)
#[export] Instance toy_channel : SecureChannel () () := {
  sc_transport := {|
    im_request op _ := λ s,
      (s, if op =? OPCODE_TIMED_REQUEST
          then Ok (OPCODE_STATUS_RESPONSE, match encode_status_response (E:=unit) 0 with Ok b => b | _ => [] end)
          else Ok (OPCODE_INVOKE_RESPONSE,
            match encode_invoke_response_status 0 CLUSTER_ADMIN_COMMISSIONING CMD_OPEN_COMMISSIONING_WINDOW 0 None with
            | Ok b => b | _ => [] end));
    im_close _ _ s := s
  |};
  session_challenge _ := []
}.
End ToyFlow.

Import ToyEcdsa ToyServer ToyFlow.

(** The toy commissioner (node 0x1B669 of fabric 1) takes the toy device in as
    node 5, and completes. *)
Lemma commissioning_completes_witness : ∃ d fabric signer w1 w2 e,
  run_credential_steps (H0:=DeviceChannel toy_read) fabric 5 [paa_der d] [signer] (Some 1800000000) (replicate 32 9) (replicate 32 8)
    (replicate 8 1) (toy_node, toy_world d, pase) = ((toy_node, w1, pase), Ok (Some 1)) ∧
  complete_step (H0:=DeviceChannel toy_read) (toy_node, w1, case_ctx) = ((toy_node, w2, case_ctx), Ok ()) ∧
  tables_of (w_inner w2) = with_uncommitted None (install 1 e (tables_of (fresh_with d))) ∧ fe_node_id e = 5.
Proof.
  assert (in_u 64 1 ∧ 1 ≤ 0x1B669 ≤ OPERATIONAL_NODE_ID_MAX ∧ in_u 64 5) as (Hfid & Hadmin & Hnode) by (unfold in_u, OPERATIONAL_NODE_ID_MAX; lia).
  assert (in_u 16 0xFFF1 ∧ in_u 16 0x8000) as [Hvid Hpid] by (unfold in_u; lia).
  assert (is_Some (sk_sign TEST_CD_SIGNING_KEY [])) as Htest by (eexists; reflexivity).
  assert (Hk : ∀ n, is_Some (sk_sign (replicate 32 n) [])) by (intros n; by eexists).
  assert (Hdr : ∀ k n, 0 ≤ n < 256 → draw (Z.of_nat k) (replicate k n)).
  { intros k n Hn. split; [by apply Forall_replicate|]. unfold zlen. by rewrite length_replicate. }
  destruct (make_cert_at (ascii "csa") (ascii "csa") TEST_CD_SIGNING_KEY TEST_CD_SIGNING_KEY (Ca None) None None None) with (E:=X509Error)
    as (signer & sig & _ & Hsigner & _); [split_and?; repeat (split || constructor); done..|by eexists|].
  set (cert := gen_x509 _ _ _ _ _ _ _ _ _) in Hsigner.
  destruct (dev_attested (replicate 32 1) (replicate 32 2) (replicate 32 3) 0xFFF1 0x8000 (replicate 32 9) (replicate 16 3) 0 1800000000 []
    signer cert []) as (d & _ & _ & cdac & Hd & _ & _ & _ & Hdk & _ & Hdb); [apply Hk..|by eexists|done|done|by repeat constructor|done|done|done|exact Hsigner| |].
  { unfold cert. rewrite (gen_x509_fields None None) by (vm_compute; reflexivity). reflexivity. }
  destruct (generate_fabric_at (replicate 32 7) (replicate 8 1) (replicate 8 2) (replicate 16 6) 1 0x1B669) as (fabric & rcac & Hf & _);
    [exact (Hk 7)|exact (proj1 (Hdr 8%nat 1 ltac:(lia)))|exact (proj2 (Hdr 8%nat 1 ltac:(lia)))|exact (proj1 (Hdr 8%nat 2 ltac:(lia)))
    |exact (proj2 (Hdr 8%nat 2 ltac:(lia)))|].
  pose proof (commissioning_completes toy_read toy_node pase (toy_world d) 1 d fabric (replicate 32 7) (replicate 8 1) (replicate 8 2)
    (replicate 16 6) 1 0x1B669 5 (replicate 8 1) (replicate 32 9) (replicate 32 8) (replicate 32 1) (replicate 32 2) (replicate 32 3)
    0xFFF1 0x8000 [] signer cert 1800000000) as Hall.
  specialize (Hall (Hk 7)).
  specialize (Hall (Hdr 8%nat 1 ltac:(lia))).
  specialize (Hall (Hdr 8%nat 2 ltac:(lia))).
  specialize (Hall (Hdr 16%nat 6 ltac:(lia))).
  specialize (Hall Hfid Hadmin Hnode).
  specialize (Hall (Hdr 8%nat 1 ltac:(lia)) (Hdr 32%nat 9 ltac:(lia)) (Hdr 32%nat 8 ltac:(lia))).
  specialize (Hall Hf (Hk 1) (Hk 2) (Hk 3)).
  specialize (Hall Htest Hvid Hpid).
  specialize (Hall Hd Hsigner).
  destruct Hall as (w1 & e & Hrun & Ht & He & _ & Hcomplete).
  - unfold cert. rewrite (gen_x509_fields None None) by (vm_compute; reflexivity). reflexivity.
  - split; discriminate.
  - exact toy_commissionable.
  - exact (conj eq_refl eq_refl).
  - apply toy_ready. split; [by rewrite Hdk|exact Hdb].
  - destruct (Hcomplete toy_read case_ctx w1) as (w2 & Hc & Ht2 & _); [reflexivity|reflexivity|reflexivity|reflexivity| |].
    + intros st [= <-]. rewrite tick_inner. pose proof (f_equal t_acl Ht) as Ha. cbn in Ha. by destruct (acl_store (w_inner w1)).
    + exists d, fabric, signer, w1, w2, e. split; [exact Hrun|]. split; [exact Hc|]. rewrite Ht2, Ht. split; [reflexivity|]. apply He.
Defined.

(** Passcode 20202021 (the first draw, all zeros, gives 1; take another) on
    discriminator 3840. *)
Lemma opened_window_codes_witness :
  ∃ w, open_commissioning_window (S:=()) (SE:=()) 300 3840 1000 [le_bytes 4 12345677; le_bytes 4 20202020] (replicate 32 5) () = ((), Ok w) ∧
    ow_passcode w = 20202021 ∧ parse_qr (ow_qr_payload w) = Ok (window_payload 20202021 3840).
Proof.
  destruct (opened_window_codes (S:=()) (SE:=()) 300 3840 1000 [le_bytes 4 12345677; le_bytes 4 20202020] (replicate 32 5) 20202021
    (match compute_verifier 20202021 (replicate 32 5) 1000 with Ok v => v | _ => [] end) ()) as (_ & _ & Hw);
    [done|done|done|by split; [by repeat constructor|]|vm_compute; reflexivity|vm_compute; reflexivity|].
  change ((3840 <=? 0x0FFF) && contains 1000 100000 1000) with true in Hw. cbv iota in Hw.
  destruct Hw as (f & Hf & _ & _ & Hw). vm_compute in Hf. apply Ok_inj in Hf as <-.
  match type of Hw with match ?call with _ => _ end =>
    assert (call = ((), Ok {| id_status := 0; id_cluster_status := None; id_fields := None |})) as Hinv by (vm_compute; reflexivity)
  end.
  rewrite Hinv in Hw. cbn [id_status Z.eqb] in Hw. destruct Hw as (w & H1 & _ & H2 & H3 & _).
  exists w. split; [exact H1|]. split; [exact H3|exact H2].
Defined.
