(* ===== verification/OperationalRun.v ===== *)
(** * From a commissioning to an operational session

    Ties [CommissionerRun.v] to [CaseRun.v]: the fabric a commissioning installed
    is one that CASE establishes on. *)

From S2P Require Import Prelude Tlv TlvValue Handler Crypto Fabrics Im CommCodec Certs X509 Attestation Handshake Commissioning Commissioner Case CaseRun CommissionerRun.

Section operational.
Context `{A : Aead} `{!AeadLaws A} `{Ec : Ecdsa} `{!EcdsaLaws Ec} `{D : Ecdh} `{DL : !EcdhLaws D} `{Hash : Sha256} `{Mac : Hmac} `{!HmacLaws}
  `{Hsha : Sha1} `{!Sha1Laws} `{Kdf : Hkdf} `{!HkdfLaws}.

(** What both ends draw for a handshake. *)
Definition fresh_draws (rnd eph : bytes) (sid : Z) (d : CaseDraw) (rsid : Z) : Prop :=
  (has_size 32 rnd ∧ eph_secret eph ∧ in_u 16 sid) ∧
  (has_size 32 (cd_random d) ∧ has_size 16 (cd_resumption_id d) ∧ eph_secret (cd_secret d)) ∧ in_u 16 rsid ∧ rsid ≠ 0.

(** A NOC without access tags, as the fabric's root issues it. *)
Lemma issued_vouches key rcac_id rcac op_key node fab serial root_tlv noc tlv :
  is_Some (sk_sign key []) → root_of key rcac_id rcac → in_u 64 rcac_id → parse root_tlv = Ok rcac →
  is_Some (sk_sign op_key []) → in_u 64 node → in_u 64 fab → draw 8 serial →
  issue_noc (sk_public op_key) node fab rcac key serial = Ok noc → to_tlv noc = Ok tlv →
  vouches root_tlv tlv None op_key noc ∧ mc_node_id noc = Some node ∧ mc_fabric_id noc = Some fab ∧
  Certs.cats noc = Ok CaseAuthTags_default.
Proof.
  intros Hkey Hroot Hid Hrp Hop Hn Hf [Hsb Hsl] Hiss Htlv. pose proof (sk_public_key op_key) as [Hpl Hpb].
  destruct (issued_at key rcac_id rcac (sk_public op_key) node fab serial) as
    (noc' & tlv' & Hiss' & Htlv' & Hblob & Hpn & Hchain & Hpk & Hnn & Hnf); try done.
  rewrite Hiss in Hiss'. apply Ok_inj in Hiss' as <-. rewrite Htlv in Htlv'. apply Ok_inj in Htlv' as <-.
  pose proof Hroot as (Hself & Hca & Hrk & Hsub & Hskid).
  destruct (issue_noc_at key (sk_public op_key) node fab rcac (subject_key_id (sk_public key)) serial [] (0, 0, 0) Hkey) as (noc' & Hi & _ & _ & _ & _ & Hns);
    [lia|done|done|exact Hskid|apply zlen_skid|rewrite Hsub; by repeat constructor|by rewrite Hsub|].
  unfold issue_noc in Hiss. rewrite Hiss in Hi. apply Ok_inj in Hi as <-.
  split; [|split; [done|split; [done|] ] ].
  - split; [done|]. split; [exists None, rcac; split; [done|]; split; [done|]; by apply chain_decided|]. split; [done|]. split; [done|].
    split; [|done]. pose proof (parsed tlv noc (proj1 Hblob) Hpn) as (_ & _ & Hlen). split; [apply Hblob|]. unfold MAX_CERT_TLV_LEN in Hlen. lia.
  - unfold Certs.cats. rewrite Hns. reflexivity.
Qed.

(** C1. A commissioned node admits its administrator.  Take a fabric as the
    commissioner generates it, the entry that a commissioning installs for a node
    on a device, and the administrator's own credentials of that fabric: CASE
    between the two establishes, on both sides, the same keys; the device sees
    the administrator's node id with no access tags on that fabric's index - the
    identity its ACL entry was installed for - whatever fabrics it held before. *)
Theorem commissioned_node_admits_admin root_key id serial ipk fabric_id admin fabric node i secret noc_serial e
    op_key op_serial creds pre post rnd eph sid d rsid :
  let fabrics := pre ++ e :: post in
  is_Some (sk_sign root_key []) → draw 8 id → draw 8 serial → in_u 64 fabric_id → in_u 64 admin → in_u 64 node →
  generate_fabric root_key id serial ipk fabric_id admin = Ok fabric →
  draw 8 noc_serial → is_Some (sk_sign secret []) → entry_of fabric node i secret noc_serial e →
  draw 8 op_serial → is_Some (sk_sign op_key []) → admin_credentials fabric op_key op_serial = Ok creds →
  Forall (λ g, entry_dest rnd g ≠ entry_dest rnd e ∧ fe_index g ≠ fe_index e) pre →
  fresh_draws rnd eph sid d rsid →
  ∃ keys,
    case_establish (Lk:=CaseLink fabrics d) creds node rnd eph sid (case_device fabrics rsid) =
    ({| dv_core := None;
        dv_established := Some ({| es_local_session_id := rsid; es_peer_session_id := sid; es_keys := keys;
                                   es_local_node_id := node; es_peer_node_id := admin |}, CaseAuthTags_default, i) |},
     Ok {| es_local_session_id := sid; es_peer_session_id := rsid; es_keys := keys;
           es_local_node_id := admin; es_peer_node_id := node |}).
Proof.
  intros fabrics Hkey [Hidb Hidl] [Hsb Hsl] Hfid Hadm Hnode Hgen Hns Hsec He Hos Hop Hcr Hpre ((Hrnd & Heph & Hsid) & (Hdr & Hdi & Hds) & Hrs & Hrs0).
  destruct (generate_fabric_at root_key id serial ipk fabric_id admin) as (fabric' & rcac & Hgen' & (F1 & F2 & F3 & F4) & Hrb & Hrp & Hroot & Hrid); try done.
  rewrite Hgen in Hgen'. apply Ok_inj in Hgen' as <-. pose proof Hroot as (_ & _ & Hrk & _).
  destruct He as [[Hic Hnoc] Hidx Hen Hef Hek [Her Hepk] Heipk _]. rewrite F1, F2 in *.
  (* the device's certificate *)
  unfold issue_device_noc in Hnoc. rewrite Hrp, F1, F2 in Hnoc. cbn [res_bind] in Hnoc.
  destruct (issue_noc (sk_public secret) node fabric_id rcac root_key noc_serial) as [nd|x| |] eqn:Ind; try done. cbn [res_bind] in Hnoc.
  destruct (to_tlv nd) as [tlv|[]| |] eqn:Tnd; try done. cbn [fin_in] in Hnoc. apply Ok_inj in Hnoc. rewrite Hnoc in Tnd. clear tlv Hnoc.
  destruct (issued_vouches root_key (le_val id) rcac secret node fabric_id noc_serial (cf_rcac_tlv fabric) nd (fe_noc_tlv e)) as (Vd & Nd & Fd & _); try done.
  (* the administrator's *)
  unfold admin_credentials in Hcr. rewrite Hrp in Hcr. cbn [res_bind] in Hcr. unfold from_self_issued in Hcr.
  cbn [sm_rcac sm_root_private_key sm_ipk_operational sm_node_id sm_fabric_id] in Hcr. cbv zeta in Hcr. rewrite Hrp, F1, F2, F4 in Hcr. cbn [res_bind] in Hcr.
  destruct (issue_noc (sk_public op_key) admin fabric_id rcac root_key op_serial) as [na|x| |] eqn:Ina; try done. cbn [res_bind] in Hcr.
  destruct (verify_noc_chain na None rcac) as [u|x| |] eqn:Cna; try done. cbn [res_bind] in Hcr.
  destruct (to_tlv na) as [tlv|[]| |] eqn:Tna; try done. cbn [fin_in res_bind] in Hcr. apply Ok_inj in Hcr as <-.
  destruct (issued_vouches root_key (le_val id) rcac op_key admin fabric_id op_serial (cf_rcac_tlv fabric) na tlv) as (Va & Na & Fa & Ca); try done.
  subst node i. match goal with |- context [case_establish ?c] => set (creds := c) end.
  destruct (agreement creds pre e post rnd eph sid d rsid nd na CaseAuthTags_default) as (keys & Hrun & _); try done.
  - unfold creds. cbn [fc_ipk_operational]. by rewrite Heipk, Hrk, F3.
  - unfold creds. cbn [fc_root_public_key]. by rewrite Hepk, Hrk.
  - by rewrite Hic, Hek.
  - by rewrite Her.
  - by rewrite Hef.
  - exists keys. exact Hrun.
Qed.
End operational.

(** ** A concrete commissioned node *)

Import ToyEcdsa ToyCase.

Definition commissioned_entry : FabricEntry :=
  with_ipk (derive_ipk_operational (replicate 16 3) (compressed_fabric_id (sk_public root_key) 9)) node_entry.
Definition admin_of_fabric : FabricCredentials :=
  match admin_credentials fabric_of_root admin_key (replicate 8 4) with Ok c => c | _ => admin_creds end.

Lemma commissioned_node_admits_admin_witness : ∃ keys s,
  case_establish (Lk:=CaseLink [commissioned_entry] toy_draw) admin_of_fabric 5 (replicate 32 1) [9] 21 (case_device [commissioned_entry] 22) =
  (s, Ok {| es_local_session_id := 21; es_peer_session_id := 22; es_keys := keys; es_local_node_id := 11; es_peer_node_id := 5 |}).
Proof.
  destruct toy_sizes as (S1 & S2 & S3 & S4 & S5 & S6).
  assert (∀ n x, 0 ≤ x < 256 → draw (Z.of_nat n) (replicate n x)) as Hdraw.
  { intros n x Hx. split; [by apply Forall_replicate|]. unfold zlen. by rewrite length_replicate. }
  assert (in_u 64 9 ∧ in_u 64 11 ∧ in_u 64 5) as (U1 & U2 & U3) by done.
  assert (is_Some (sk_sign root_key []) ∧ is_Some (sk_sign node_key []) ∧ is_Some (sk_sign admin_key [])) as (K1 & K2 & K3) by (split_and!; by eexists).
  assert (generate_fabric root_key (replicate 8 1) (replicate 8 2) (replicate 16 3) 9 11 = Ok fabric_of_root) as Hgen by (vm_compute; reflexivity).
  assert (issue_device_noc fabric_of_root (sk_public node_key) 5 (replicate 8 4) = Ok (fe_noc_tlv commissioned_entry)) as Hnoc by (vm_compute; reflexivity).
  assert (admin_credentials fabric_of_root admin_key (replicate 8 4) = Ok admin_of_fabric) as Hcr by (vm_compute; reflexivity).
  assert (entry_of fabric_of_root 5 1 node_key (replicate 8 4) commissioned_entry) as He.
  { constructor; [exact (conj eq_refl Hnoc)|reflexivity..|split; reflexivity|reflexivity|reflexivity]. }
  pose proof (commissioned_node_admits_admin root_key (replicate 8 1) (replicate 8 2) (replicate 16 3) 9 11 fabric_of_root 5 1 node_key (replicate 8 4)
    commissioned_entry admin_key (replicate 8 4) admin_of_fabric [] [] (replicate 32 1) [9] 21 toy_draw 22) as Hall. cbv zeta in Hall.
  specialize (Hall K1 (Hdraw 8%nat 1 ltac:(lia)) (Hdraw 8%nat 2 ltac:(lia)) U1 U2 U3 Hgen (Hdraw 8%nat 4 ltac:(lia)) K2 He
    (Hdraw 8%nat 4 ltac:(lia)) K3 Hcr (Forall_nil_2 _) (conj (conj S1 (conj I S4)) (conj (conj S2 (conj S3 I)) (conj S5 S6)))).
  destruct Hall as [keys Hrun]. eexists keys, _. exact Hrun.
Defined.
