(* ===== verification/Dns.v ===== *)
(** * The DNS wire format of service discovery

    Models [crates/mat-controller/src/dnssd/codec.rs]: questions and known
    answers on the wire, the parser of responses with compressed names, the
    bounded pool of candidate addresses, [key=value] texts; with the constants
    and the error of [dnssd/mod.rs], and what these use of Rust's strings.  A
    Rust [String] is its UTF-8 bytes. *)

From Stdlib Require Import String.
From S2P Require Import Prelude Tlv TlvValue Fabrics Certs X509.

Open Scope string_scope.
Open Scope list_scope.
Open Scope Z_scope.

(** ** Strings *)

(** [to_ascii_lowercase] and [eq_ignore_ascii_case]. *)
Definition lower_byte (b : Z) : Z := if (65 <=? b) && (b <=? 90) then b + 32 else b.
Definition to_ascii_lowercase (s : bytes) : bytes := map lower_byte s.
Definition eq_ignore_ascii_case (a b : bytes) : bool :=
  bool_decide (to_ascii_lowercase a = to_ascii_lowercase b).

(** [split(sep)] for an ASCII separator: always at least one piece. *)
Fixpoint split_on (sep : Z) (s : bytes) : list bytes :=
  match s with
  | [] => [ [] ]
  | c :: s =>
      if c =? sep then [] :: split_on sep s
      else match split_on sep s with
           | piece :: rest => (c :: piece) :: rest
           | [] => [ [c] ]
           end
  end.

(** [split_once(sep)]: around the first [sep]. *)
Fixpoint split_once (sep : Z) (s : bytes) : option (bytes * bytes) :=
  match s with
  | [] => None
  | c :: s =>
      if c =? sep then Some ([], s)
      else option_map (λ '(a, b), (c :: a, b)) (split_once sep s)
  end.

(** [str::parse::<u32>().ok()]: an optional plus sign, at least one decimal
    digit, and no overflow. *)
Fixpoint u32_digits (acc : Z) (s : bytes) : option Z :=
  match s with
  | [] => Some acc
  | c :: s =>
      if (48 <=? c) && (c <=? 57)
      then match try_u 32 (10 * acc + (c - 48)) with Some acc => u32_digits acc s | None => None end
      else None
  end.
Definition parse_u32 (s : bytes) : option Z :=
  let s := match s with 43 :: s => s | _ => s end in
  match s with [] => None | _ => u32_digits 0 s end.

(** [String::from_utf8_lossy]: a maximal ill-formed prefix of a sequence becomes
    U+FFFD. *)
Definition REPLACEMENT : bytes := [0xEF; 0xBF; 0xBD].
Definition second_of_3 (a b : Z) : bool :=
  if a =? 0xE0 then between 0xA0 0xBF b else if a =? 0xED then between 0x80 0x9F b else cont_byte b.
Definition second_of_4 (a b : Z) : bool :=
  if a =? 0xF0 then between 0x90 0xBF b else if a =? 0xF4 then between 0x80 0x8F b else cont_byte b.

Fixpoint utf8_lossy (l : bytes) : bytes :=
  match l with
  | [] => []
  | a :: l1 =>
      if a <? 0x80 then a :: utf8_lossy l1
      else if between 0xC2 0xDF a then
        match l1 with
        | b :: l2 => if cont_byte b then a :: b :: utf8_lossy l2 else REPLACEMENT ++ utf8_lossy l1
        | [] => REPLACEMENT
        end
      else if between 0xE0 0xEF a then
        match l1 with
        | b :: l2 =>
            if second_of_3 a b then
              match l2 with
              | c :: l3 => if cont_byte c then a :: b :: c :: utf8_lossy l3 else REPLACEMENT ++ utf8_lossy l2
              | [] => REPLACEMENT
              end
            else REPLACEMENT ++ utf8_lossy l1
        | [] => REPLACEMENT
        end
      else if between 0xF0 0xF4 a then
        match l1 with
        | b :: l2 =>
            if second_of_4 a b then
              match l2 with
              | c :: l3 =>
                  if cont_byte c then
                    match l3 with
                    | d :: l4 => if cont_byte d then a :: b :: c :: d :: utf8_lossy l4 else REPLACEMENT ++ utf8_lossy l3
                    | [] => REPLACEMENT
                    end
                  else REPLACEMENT ++ utf8_lossy l2
              | [] => REPLACEMENT
              end
            else REPLACEMENT ++ utf8_lossy l1
        | [] => REPLACEMENT
        end
      else REPLACEMENT ++ utf8_lossy l1
  end.

(** [str::split_at]: on a character boundary. *)
Definition is_char_boundary (s : bytes) (i : Z) : bool :=
  (i =? 0) || match s !! Z.to_nat i with Some b => negb (cont_byte b) | None => i =? zlen s end.
Definition split_at {E} (i : Z) (s : bytes) : res E (bytes * bytes) :=
  if is_char_boundary s i then Ok (zslice 0 i s, zslice i (zlen s) s) else Panic.

(** [slice::get] at an index and at a range. *)
Definition get_at {A} (l : list A) (i : Z) : option A := l !! Z.to_nat i.
Definition get_range {A} (l : list A) (a b : Z) : option (list A) :=
  if (a <=? b) && (b <=? zlen l) then Some (zslice a b l) else None.

(** [sort_by_key] with the order [le] of the keys: a stable sort. *)
Fixpoint insert_sorted {A} (le : A → A → bool) (x : A) (l : list A) : list A :=
  match l with
  | [] => [x]
  | y :: k => if le x y then x :: l else y :: insert_sorted le x k
  end.
Definition stable_sort {A} (le : A → A → bool) (l : list A) : list A := foldr (insert_sorted le) [] l.

(** ** Constants *)

Definition TYPE_PTR : Z := 12.
Definition TYPE_TXT : Z := 16.
Definition TYPE_AAAA : Z := 28.
Definition TYPE_SRV : Z := 33.
Definition CLASS_IN : Z := 0x0001.
Definition QU_CLASS_IN : Z := Z.lor 0x8000 CLASS_IN.
Definition KNOWN_ANSWER_PACKET_BUDGET : Z := 1400.
Definition MIN_RECORD_LEN : Z := 11.
Definition MAX_AAAA : Z := 16.

Inductive DnssdError :=
  | Io (e : string)
  | Timeout (instance : bytes)
  | Malformed (what : string).

Abbreviation DE := (res DnssdError).

(** ** Questions *)

Definition be16_bytes (v : Z) : bytes := be_bytes 2 v.
Definition be32_bytes (v : Z) : bytes := be_bytes 4 v.

(** [debug_assert!] stops the debug build at a label that is empty or too long. *)
Definition push_label {E} (label : bytes) : res E bytes :=
  if (1 <=? zlen label) && (zlen label <=? 63) then Ok (zlen label :: label) else Panic.
Fixpoint push_labels {E} (labels : list bytes) : res E bytes :=
  match labels with
  | [] => Ok []
  | label :: rest =>
      let? a := push_label label in
      let? b := push_labels rest in
      Ok (a ++ b)
  end.
(** What [push_name] appends. *)
Definition push_name {E} (name : bytes) : res E bytes :=
  let? labels := push_labels (split_on 46 name) in Ok (labels ++ [0]).

Definition encode_question {E} (q : bytes * Z) : res E bytes :=
  let? name := push_name (fst q) in
  Ok (name ++ be16_bytes (snd q) ++ be16_bytes QU_CLASS_IN).
Fixpoint encode_questions {E} (qs : list (bytes * Z)) : res E bytes :=
  match qs with
  | [] => Ok []
  | q :: qs =>
      let? a := encode_question q in
      let? b := encode_questions qs in
      Ok (a ++ b)
  end.
Definition encode_query {E} (id : Z) (questions : list (bytes * Z)) : res E bytes :=
  let? qs := encode_questions questions in
  Ok (be16_bytes id ++ [0; 0] ++ be16_bytes (wrap 16 (zlen questions)) ++ [0; 0; 0; 0; 0; 0] ++ qs).

(** ** Names *)

(** [String::push_str] of a label after a dot, if anything precedes it. *)
Definition push_dotted (out label : bytes) : bytes :=
  (match out with [] => [] | _ => out ++ [46] end) ++ utf8_lossy label.

Fixpoint read_name_loop (fuel : nat) (buf : bytes) (pos : Z) (out : bytes) (next : option Z) (hops : Z) :
    DE (bytes * Z) :=
  match fuel with
  | O => OutOfFuel
  | S fuel =>
      let? len := ok_or (get_at buf pos) (Malformed "name past end") in
      if len =? 0 then Ok (out, default (pos + 1) next)
      else if Z.land len 0xC0 =? 0xC0 then
        let? lo := ok_or (get_at buf (pos + 1)) (Malformed "pointer past end") in
        let next := Some (default (pos + 2) next) in
        let pos := Z.lor (Z.shiftl (Z.land len 0x3F) 8) lo in
        let hops := hops + 1 in
        if 32 <? hops then Err (Malformed "compression pointer loop")
        else read_name_loop fuel buf pos out next hops
      else if negb (Z.land len 0xC0 =? 0) then Err (Malformed "reserved label type")
      else
        let? label := ok_or (get_range buf (pos + 1) (pos + 1 + len)) (Malformed "label past end") in
        read_name_loop fuel buf (pos + (1 + len)) (push_dotted out label) next hops
  end.

(** Between two of the at most 32 jumps a label moves the position forward. *)
Definition name_fuel (buf : bytes) : nat := 34 * S (length buf).
Definition read_name (buf : bytes) (pos : Z) : DE (bytes * Z) :=
  read_name_loop (name_fuel buf) buf pos [] None 0.

(** ** Records *)

Inductive RData :=
  | Ptr (name : bytes)
  | Srv (port : Z) (target : bytes)
  | Txt (strings : list bytes)
  | Aaaa (addr : bytes)
  | Other.

Record DnsRecord := { name : bytes; rdata : RData; ttl : Z; cache_flush : bool }.

Definition record_capacity (claimed msg_len : Z) : Z :=
  Z.min claimed (saturating_sub msg_len 12 / MIN_RECORD_LEN).

Definition be16 (buf : bytes) (pos : Z) : DE Z :=
  let? b := ok_or (get_range buf pos (pos + 2)) (Malformed "truncated") in Ok (le_val (rev b)).
Definition be32 (buf : bytes) (pos : Z) : DE Z :=
  let? b := ok_or (get_range buf pos (pos + 4)) (Malformed "truncated") in Ok (le_val (rev b)).

(** The [while i < rdata.len()] of the TXT case. *)
Fixpoint txt_loop (fuel : nat) (rdata : bytes) (i : Z) (strings : list bytes) : DE (list bytes) :=
  match fuel with
  | O => OutOfFuel
  | S fuel =>
      match get_at rdata i with
      | None => Ok strings
      | Some n =>
          let? s := ok_or (get_range rdata (i + 1) (i + 1 + n)) (Malformed "txt string past end") in
          txt_loop fuel rdata (i + (1 + n)) (strings ++ [s])
      end
  end.

(** The [match rtype]. *)
Definition parse_rdata (buf : bytes) (rtype rdata_pos : Z) (rdata : bytes) : DE RData :=
  if rtype =? TYPE_PTR then
    match read_name buf rdata_pos with
    | Ok (name, _) => Ok (Ptr name)
    | Err _ => Ok Other
    | Panic => Panic
    | OutOfFuel => OutOfFuel
    end
  else if rtype =? TYPE_SRV then
    if zlen rdata <? 7 then Err (Malformed "short srv rdata")
    else
      let port := le_val (rev (zslice 4 6 rdata)) in
      let? (target, _) := read_name buf (rdata_pos + 6) in
      Ok (Srv port target)
  else if rtype =? TYPE_TXT then
    let? strings := txt_loop (S (length rdata)) rdata 0 [] in Ok (Txt strings)
  else if rtype =? TYPE_AAAA then
    if zlen rdata =? 16 then Ok (Aaaa rdata) else Err (Malformed "aaaa rdata not 16 bytes")
  else Ok Other.

(** One turn of the loop over the records: the record and the next position. *)
Definition parse_record (buf : bytes) (pos : Z) : DE (DnsRecord * Z) :=
  let? (name, p) := read_name buf pos in
  let? rtype := be16 buf p in
  let? class := be16 buf (p + 2) in
  let cache_flush := negb (Z.land class 0x8000 =? 0) in
  let? ttl := be32 buf (p + 4) in
  let? rdlen := be16 buf (p + 8) in
  let rdata_pos := p + 10 in
  let? rdata := ok_or (get_range buf rdata_pos (rdata_pos + rdlen)) (Malformed "rdata past end") in
  let? rdata := parse_rdata buf rtype rdata_pos rdata in
  Ok ({| name := name; rdata := rdata; ttl := ttl; cache_flush := cache_flush |}, rdata_pos + rdlen).

Fixpoint skip_questions (qd : nat) (buf : bytes) (pos : Z) : DE Z :=
  match qd with
  | O => Ok pos
  | S qd =>
      let? (_, p) := read_name buf pos in
      let pos := p + 4 in
      if zlen buf <? pos then Err (Malformed "truncated question") else skip_questions qd buf pos
  end.

Fixpoint parse_records (total : nat) (buf : bytes) (pos : Z) : DE (list DnsRecord) :=
  match total with
  | O => Ok []
  | S total =>
      let? (r, pos) := parse_record buf pos in
      let? rs := parse_records total buf pos in
      Ok (r :: rs)
  end.

Definition parse_message (buf : bytes) : DE (list DnsRecord) :=
  if zlen buf <? 12 then Err (Malformed "short header")
  else
    let? qd := be16 buf 4 in
    let? an := be16 buf 6 in
    let? ns := be16 buf 8 in
    let? ar := be16 buf 10 in
    let? pos := skip_questions (Z.to_nat qd) buf 12 in
    parse_records (Z.to_nat (an + ns + ar)) buf pos.

(** ** Candidate addresses *)

Abbreviation Candidates := (list (bytes * bytes)).

Definition push_aaaa (aaaa : Candidates) (srv_target : option bytes) (name addr : bytes) : Candidates :=
  if match srv_target with Some target => negb (eq_ignore_ascii_case name target) | None => false end then aaaa
  else if MAX_AAAA <=? zlen aaaa then aaaa
  else if existsb (λ '(n, a), bool_decide (a = addr) && eq_ignore_ascii_case n name) aaaa then aaaa
  else aaaa ++ [(name, addr)].

Definition prune_aaaa (aaaa : Candidates) (target : bytes) : Candidates :=
  List.filter (λ '(n, _), eq_ignore_ascii_case n target) aaaa.

(** [(a.segments()[0] & 0xffc0) == 0xfe80]. *)
Definition is_link_local (a : bytes) : bool := Z.land (le_val (rev (zslice 0 2 a))) 0xffc0 =? 0xfe80.

(** The [for] of [addresses_for_target]. *)
Definition push_address (target : bytes) (addresses : list bytes) (c : bytes * bytes) : list bytes :=
  let '(name, addr) := c in
  if eq_ignore_ascii_case name target && negb (bool_decide (addr ∈ addresses)) then addresses ++ [addr] else addresses.
(** [false < true] orders the addresses that need no scope first. *)
Definition link_local_last (a b : bytes) : bool := implb (is_link_local a) (is_link_local b).
Definition addresses_for_target (aaaa : Candidates) (target : bytes) : list bytes :=
  stable_sort link_local_last (foldl (push_address target) [] aaaa).

(** ** Texts *)

Fixpoint txt_str (strings : list bytes) (key : bytes) : option bytes :=
  match strings with
  | [] => None
  | s :: strings =>
      if from_utf8 s then
        match split_once 61 s with
        | Some (k, v) => if eq_ignore_ascii_case k key then Some v else txt_str strings key
        | None => txt_str strings key
        end
      else txt_str strings key
  end.

Fixpoint txt_u32 (strings : list bytes) (key : bytes) : option Z :=
  match strings with
  | [] => None
  | s :: strings =>
      if from_utf8 s then
        match split_once 61 s with
        | Some (k, v) => if eq_ignore_ascii_case k key then parse_u32 v else txt_u32 strings key
        | None => txt_u32 strings key
        end
      else txt_u32 strings key
  end.

(** [format!("{:016X}-{:016X}", ..)] of the compressed fabric id and the node id. *)
Definition operational_instance (compressed_fabric_id : bytes) (node_id : Z) : bytes :=
  format_hex 16 (le_val (rev compressed_fabric_id)) ++ [45] ++ format_hex 16 node_id.

(** ** Known answers *)

(** The label of a name [label.service], if it is one; [split_at] panics inside a
    character. *)
Definition known_label (service nm : bytes) : fin (option bytes) :=
  let suffix := 46 :: service in
  if zlen nm <=? zlen suffix then Ok None
  else
    let? (label, tail) := split_at (zlen nm - zlen suffix) nm in
    if negb (eq_ignore_ascii_case tail suffix) || (zlen label =? 0) || (63 <? zlen label) then Ok None
    else Ok (Some label).

(** The record after its owner name. *)
Definition ka_tail (label : bytes) (ttl : Z) : bytes :=
  be16_bytes TYPE_PTR ++ be16_bytes CLASS_IN ++ be32_bytes ttl ++
  be16_bytes (wrap 16 (1 + zlen label + 2)) ++ [wrap 8 (zlen label)] ++ label ++ [0xC0; 0x0C].

Fixpoint ka_tails_of (service : bytes) (known : list (bytes * Z)) : fin (list bytes) :=
  match known with
  | [] => Ok []
  | (nm, ttl) :: known =>
      let? label := known_label service nm in
      let? rest := ka_tails_of service known in
      Ok (match label with Some label => ka_tail label ttl :: rest | None => rest end)
  end.

(** Closed groups, the open group, and the size so far of its packet. *)
Record Grouping := { closed : list (list bytes); open_ : list bytes; current_size : Z }.

(** The [loop] that places one record: a full packet is closed, once. *)
Fixpoint place (fuel : nat) (qname_len : Z) (tail : bytes) (g : Grouping) : fin Grouping :=
  match fuel with
  | O => OutOfFuel
  | S fuel =>
      let is_packet0 := match closed g with [] => true | _ => false end in
      let is_first := match open_ g with [] => true | _ => false end in
      let name_len := if is_packet0 || negb is_first then 2 else qname_len in
      let rec_len := name_len + zlen tail in
      if is_first || (current_size g + rec_len <=? KNOWN_ANSWER_PACKET_BUDGET) then
        Ok {| closed := closed g; open_ := open_ g ++ [tail]; current_size := current_size g + rec_len |}
      else place fuel qname_len tail {| closed := closed g ++ [open_ g]; open_ := []; current_size := 12 |}
  end.
Fixpoint place_all (qname_len : Z) (tails : list bytes) (g : Grouping) : fin Grouping :=
  match tails with
  | [] => Ok g
  | tail :: tails => let? g := place 2 qname_len tail g in place_all qname_len tails g
  end.

(** The owner name of record [j] of packet [i]. *)
Definition ka_owner (qname : bytes) (i j : nat) : bytes :=
  if (i =? 0)%nat || (0 <? j)%nat then [0xC0; 0x0C] else qname.
Definition ka_packet (qname question : bytes) (n i : nat) (group : list bytes) : bytes :=
  be16_bytes 0 ++ be16_bytes (if (i + 1 <? n)%nat then 0x0200 else 0) ++
  be16_bytes (if (i =? 0)%nat then 1 else 0) ++ be16_bytes (wrap 16 (zlen group)) ++ [0; 0; 0; 0] ++
  (if (i =? 0)%nat then question else []) ++
  concat (imap (λ j tail, ka_owner qname i j ++ tail) group).

Definition encode_ptr_query_with_known (service : bytes) (known : list (bytes * Z)) : fin (list bytes) :=
  match known with
  | [] => let? q := encode_query 0 [(service, TYPE_PTR)] in Ok [q]
  | _ =>
      let? qname := push_name service in
      let question := qname ++ be16_bytes TYPE_PTR ++ be16_bytes CLASS_IN in
      let? tails := ka_tails_of service known in
      match tails with
      | [] => let? q := encode_query 0 [(service, TYPE_PTR)] in Ok [q]
      | _ =>
          let? g := place_all (zlen qname) tails
                      {| closed := []; open_ := []; current_size := 12 + zlen question |} in
          let groups := closed g ++ [open_ g] in
          Ok (imap (ka_packet qname question (length groups)) groups)
      end
  end.

(** ** Strings: facts *)

Lemma eqic_refl s : eq_ignore_ascii_case s s = true.
Proof. by apply bool_decide_eq_true. Qed.
Lemma eqic_spec a b : eq_ignore_ascii_case a b = true ↔ to_ascii_lowercase a = to_ascii_lowercase b.
Proof. apply bool_decide_eq_true. Qed.
Lemma eqic_sym a b : eq_ignore_ascii_case a b = eq_ignore_ascii_case b a.
Proof. by apply bool_decide_ext. Qed.
Lemma eqic_congr a b c : eq_ignore_ascii_case a b = true → eq_ignore_ascii_case c a = eq_ignore_ascii_case c b.
Proof. intros Hab%eqic_spec. unfold eq_ignore_ascii_case. by rewrite Hab. Qed.

Section lossy.
#[local] Arguments utf8_lossy : simpl never.
#[local] Arguments from_utf8 : simpl never.

(** One character at the head of well-formed text. *)
Inductive utf8_char : bytes → Prop :=
  | Char1 a : a < 0x80 → utf8_char [a]
  | Char2 a b : between 0xC2 0xDF a = true → cont_byte b = true → utf8_char [a; b]
  | Char3 a b c : between 0xE0 0xEF a = true → second_of_3 a b = true → cont_byte c = true → utf8_char [a; b; c]
  | Char4 a b c d : between 0xF0 0xF4 a = true → second_of_4 a b = true → cont_byte c = true → cont_byte d = true →
      utf8_char [a; b; c; d].

Ltac bools := unfold second_of_3, second_of_4, between, cont_byte in *.
Ltac tests := repeat match goal with |- context [if ?b then _ else _] => destruct b eqn:?; try (exfalso; bools; lia) end.

Lemma from_utf8_char c l : utf8_char c → from_utf8 (c ++ l) = from_utf8 l.
Proof.
  destruct 1; cbn [app]; unfold from_utf8 at 1; fold from_utf8; bools; tests; bools;
    repeat match goal with H : context [if ?b then _ else _] |- _ => destruct b eqn:?; try (exfalso; lia) end;
    first [done | match goal with |- ?b && ?x = ?x => replace b with true by lia; done end].
Qed.

Lemma utf8_lossy_char c l : utf8_char c → utf8_lossy (c ++ l) = c ++ utf8_lossy l.
Proof.
  destruct 1 as [a Ha|a b Ha Hb|a b c Ha Hb Hc|a b c d Ha Hb Hc Hd]; cbn [app]; unfold utf8_lossy at 1; fold utf8_lossy.
  - by rewrite (proj2 (Z.ltb_lt _ _) Ha).
  - rewrite Ha, Hb. destruct (a <? 0x80) eqn:?; [exfalso; bools; lia|done].
  - rewrite Ha, Hb, Hc. tests. done.
  - rewrite Ha, Hb, Hc, Hd. tests. done.
Qed.

(** Every text splits into its first character and the rest, every byte string
    into a character or a replaced prefix and the rest. *)
Lemma from_utf8_split l : from_utf8 l = true → l = [] ∨ ∃ c k, utf8_char c ∧ l = c ++ k ∧ from_utf8 k = true.
Proof.
  destruct l as [|a l1]; [by left|]. right. revert H. unfold from_utf8 at 1; fold from_utf8.
  destruct (a <? 0x80) eqn:Ha. { intros H. exists [a], l1. split_and!; [constructor; lia|done..]. }
  destruct l1 as [|b l2]; [done|]. destruct (between 0xC2 0xDF a) eqn:H2.
  { intros [Hb H]%andb_true_iff. exists [a; b], l2. split_and!; [by constructor|done..]. }
  destruct l2 as [|c l3]; [done|]. intros H.
  destruct (between 0xE0 0xEF a) eqn:H3.
  { exists [a; b; c], l3. assert (second_of_3 a b = true ∧ cont_byte c = true ∧ from_utf8 l3 = true) as (? & ? & ?).
    { unfold second_of_3. destruct (a =? 0xE0) eqn:?; [by repeat rewrite andb_true_iff in H; naive_solver|].
      destruct (a =? 0xED) eqn:?; destruct (between 0xE1 0xEC a || between 0xEE 0xEF a) eqn:?; try (exfalso; bools; lia);
        repeat rewrite andb_true_iff in H; naive_solver. }
    split_and!; [by constructor|done..]. }
  revert H. destruct (a =? 0xE0) eqn:?; [exfalso; bools; lia|].
  destruct (between 0xE1 0xEC a || between 0xEE 0xEF a) eqn:?; [exfalso; bools; lia|].
  destruct (a =? 0xED) eqn:?; [exfalso; bools; lia|].
  destruct l3 as [|d l4]; [done|]. intros H. rewrite !andb_true_iff in H. destruct H as [ [ [H4 Hc] Hd] H].
  exists [a; b; c; d], l4. split_and!; [|done..].
  constructor; [|unfold second_of_4|done..]; revert H4; bools; repeat case_match; lia.
Qed.

Lemma utf8_lossy_split l : bytes_ok l → l = [] ∨
  (∃ c k, utf8_char c ∧ bytes_ok c ∧ bytes_ok k ∧ l = c ++ k) ∨
  (∃ k, bytes_ok k ∧ (length k < length l)%nat ∧ utf8_lossy l = REPLACEMENT ++ utf8_lossy k).
Proof.
  intros Hl. destruct l as [|a l1]; [by left|]. right.
  assert (∀ c k, utf8_char c → a :: l1 = c ++ k →
    ∃ c k, utf8_char c ∧ bytes_ok c ∧ bytes_ok k ∧ a :: l1 = c ++ k) as Hchar.
  { intros c k Hc Hck. exists c, k. rewrite Hck in Hl. apply Forall_app in Hl as [??]. done. }
  assert (∀ p k, a :: l1 = p ++ k → (0 < length p)%nat → utf8_lossy (a :: l1) = REPLACEMENT ++ utf8_lossy k →
    ∃ k, bytes_ok k ∧ (length k < length (a :: l1))%nat ∧ utf8_lossy (a :: l1) = REPLACEMENT ++ utf8_lossy k) as Hrep.
  { intros p k Hpk Hp He. exists k. rewrite Hpk in Hl |- * at 1. apply Forall_app in Hl as [??].
    rewrite length_app. split_and!; [done|lia|done]. }
  clear Hl. destruct (a <? 0x80) eqn:H1; [left; apply (Hchar [a] l1); [constructor; lia|done]|].
  destruct (between 0xC2 0xDF a) eqn:H2; [|destruct (between 0xE0 0xEF a) eqn:H3; [|destruct (between 0xF0 0xF4 a) eqn:H4]].
  - destruct l1 as [|b l2]; [right; apply (Hrep [a] []); [done|cbn; lia|]|].
    { unfold utf8_lossy. by rewrite H1, H2. }
    destruct (cont_byte b) eqn:Hb; [left; apply (Hchar [a; b] l2); [by constructor|done]|right].
    apply (Hrep [a] (b :: l2)); [done|cbn; lia|]. unfold utf8_lossy at 1; fold utf8_lossy. by rewrite H1, H2, Hb.
  - destruct l1 as [|b l2]; [right; apply (Hrep [a] []); [done|cbn; lia|]|].
    { unfold utf8_lossy. by rewrite H1, H2, H3. }
    destruct (second_of_3 a b) eqn:Hb; [|right; apply (Hrep [a] (b :: l2)); [done|cbn; lia|]].
    2: { unfold utf8_lossy at 1; fold utf8_lossy. by rewrite H1, H2, H3, Hb. }
    destruct l2 as [|c l3]; [right; apply (Hrep [a; b] []); [done|cbn; lia|]|].
    { unfold utf8_lossy. by rewrite H1, H2, H3, Hb. }
    destruct (cont_byte c) eqn:Hc; [left; apply (Hchar [a; b; c] l3); [by constructor|done]|right].
    apply (Hrep [a; b] (c :: l3)); [done|cbn; lia|]. unfold utf8_lossy at 1; fold utf8_lossy. by rewrite H1, H2, H3, Hb, Hc.
  - destruct l1 as [|b l2]; [right; apply (Hrep [a] []); [done|cbn; lia|]|].
    { unfold utf8_lossy. by rewrite H1, H2, H3, H4. }
    destruct (second_of_4 a b) eqn:Hb; [|right; apply (Hrep [a] (b :: l2)); [done|cbn; lia|]].
    2: { unfold utf8_lossy at 1; fold utf8_lossy. by rewrite H1, H2, H3, H4, Hb. }
    destruct l2 as [|c l3]; [right; apply (Hrep [a; b] []); [done|cbn; lia|]|].
    { unfold utf8_lossy. by rewrite H1, H2, H3, H4, Hb. }
    destruct (cont_byte c) eqn:Hc; [|right; apply (Hrep [a; b] (c :: l3)); [done|cbn; lia|]].
    2: { unfold utf8_lossy at 1; fold utf8_lossy. by rewrite H1, H2, H3, H4, Hb, Hc. }
    destruct l3 as [|d l4]; [right; apply (Hrep [a; b; c] []); [done|cbn; lia|]|].
    { unfold utf8_lossy. by rewrite H1, H2, H3, H4, Hb, Hc. }
    destruct (cont_byte d) eqn:Hd; [left; apply (Hchar [a; b; c; d] l4); [by constructor|done]|right].
    apply (Hrep [a; b; c] (d :: l4)); [done|cbn; lia|]. unfold utf8_lossy at 1; fold utf8_lossy.
    by rewrite H1, H2, H3, H4, Hb, Hc, Hd.
  - right. apply (Hrep [a] l1); [done|cbn; lia|]. unfold utf8_lossy at 1; fold utf8_lossy. by rewrite H1, H2, H3, H4.
Qed.

Lemma utf8_char_length c : utf8_char c → (0 < length c)%nat ∧ c ≠ [].
Proof. destruct 1; (split; [cbn; lia|done]). Qed.

Lemma bytes_ind (P : bytes → Prop) : (∀ l, (∀ k, (length k < length l)%nat → P k) → P l) → ∀ l, P l.
Proof.
  intros HP l. remember (length l) as n eqn:Hn. revert l Hn. induction n as [n IH] using lt_wf_ind.
  intros l ->. apply HP. intros k Hk. by eapply IH.
Qed.

(** Well-formed text is unchanged; whatever the bytes, the result is text. *)
Lemma utf8_lossy_id l : from_utf8 l = true → utf8_lossy l = l.
Proof.
  induction l as [l IH] using bytes_ind. intros Hl. destruct (from_utf8_split l Hl) as [->|(c & k & Hc & -> & Hk)]; [done|].
  rewrite utf8_lossy_char by done. rewrite IH; [done| |done]. rewrite length_app. pose proof (utf8_char_length c Hc). lia.
Qed.

Lemma utf8_lossy_text l : bytes_ok l → from_utf8 (utf8_lossy l) = true ∧ bytes_ok (utf8_lossy l) ∧
  (l ≠ [] → utf8_lossy l ≠ []).
Proof.
  induction l as [l IH] using bytes_ind. intros Hl.
  destruct (utf8_lossy_split l Hl) as [->|[(c & k & Hc & Hcok & Hk & ->)|(k & Hk & Hlen & He)] ]; [done| |].
  - rewrite utf8_lossy_char by done. pose proof (utf8_char_length c Hc) as [Hpos Hne].
    destruct (IH k) as (H1 & H2 & _); [rewrite length_app; lia|done|].
    split_and!; [by rewrite from_utf8_char|by apply Forall_app|]. intros _. by destruct c.
  - destruct (IH k Hlen Hk) as (H1 & H2 & _). rewrite He. split_and!; [|apply Forall_app; split; [by repeat constructor|done]|done].
    rewrite from_utf8_char; [done|]. by apply (Char3 0xEF 0xBF 0xBD).
Qed.

Lemma from_utf8_app a b : from_utf8 a = true → from_utf8 (a ++ b) = from_utf8 b.
Proof.
  induction a as [a IH] using bytes_ind. intros Ha. destruct (from_utf8_split a Ha) as [->|(c & k & Hc & -> & Hk)]; [done|].
  rewrite <- app_assoc, from_utf8_char by done. apply IH; [|done]. rewrite length_app. pose proof (utf8_char_length c Hc). lia.
Qed.
End lossy.

(** ** Reading *)

Lemma get_at_Some {A} (l : list A) i x : 0 ≤ i → get_at l i = Some x → i < zlen l ∧ x ∈ l.
Proof.
  intros Hi H. unfold get_at in H. split; [|by eapply list_elem_of_lookup_2]. apply lookup_lt_Some in H. unfold zlen. lia.
Qed.
Lemma get_at_app {A} (pre : list A) x post : get_at (pre ++ x :: post) (zlen pre) = Some x.
Proof. unfold get_at, zlen. rewrite Nat2Z.id. by apply list_lookup_middle. Qed.
Lemma get_range_Some {A} (l : list A) a b k : get_range l a b = Some k → a ≤ b ≤ zlen l ∧ k = zslice a b l.
Proof. unfold get_range. destruct ((a <=? b) && (b <=? zlen l)) eqn:H; [|done]. intros [= <-]. split; [lia|done]. Qed.
Lemma get_range_app {A} (pre mid post : list A) b : b = zlen pre + zlen mid →
  get_range (pre ++ mid ++ post) (zlen pre) b = Some mid.
Proof.
  intros ->. unfold get_range. pose proof (zlen_nonneg mid). pose proof (zlen_nonneg post).
  rewrite !zlen_app, (proj2 (Z.leb_le _ _)), (proj2 (Z.leb_le _ _)) by lia. cbn [andb]. by rewrite zslice_app_mid.
Qed.
Lemma zslice_bytes a b l : bytes_ok l → bytes_ok (zslice a b l).
Proof. intros Hl. unfold zslice. by apply Forall_take, Forall_drop. Qed.
Lemma get_at_byte l i x : 0 ≤ i → bytes_ok l → get_at l i = Some x → i < zlen l ∧ is_byte x.
Proof.
  intros Hi Hl H. destruct (get_at_Some l i x Hi H) as [H1 H2]. split; [done|]. by eapply Forall_forall in Hl.
Qed.
Lemma get_range_bytes l a b k : 0 ≤ a → bytes_ok l → get_range l a b = Some k →
  a ≤ b ≤ zlen l ∧ bytes_ok k ∧ zlen k = b - a.
Proof.
  intros Ha Hl [Hab ->]%get_range_Some. split_and!; [lia|lia|by apply zslice_bytes|apply zlen_zslice; lia].
Qed.

(** Every step of the loop uses a unit of this measure. *)
Definition name_measure (buf : bytes) (pos hops : Z) : Z :=
  (33 - hops) * (zlen buf + 1) + Z.max 0 (zlen buf - pos).

Lemma yields_ok_or {E A} (o : option A) (e : E) (P : A → Prop) : (∀ a, o = Some a → P a) → yields (ok_or o e) P.
Proof. destruct o; cbn; auto. Qed.

Definition name_result (buf : bytes) (lo : Z) (r : bytes * Z) : Prop :=
  let '(nm, p) := r in from_utf8 nm = true ∧ bytes_ok nm ∧ lo < p ≤ zlen buf.

Lemma push_dotted_text out label : from_utf8 out = true → bytes_ok out → bytes_ok label →
  from_utf8 (push_dotted out label) = true ∧ bytes_ok (push_dotted out label).
Proof.
  intros Ho Hob Hl. destruct (utf8_lossy_text label Hl) as (H1 & H2 & _). unfold push_dotted.
  destruct out as [|c out]; [done|]. split.
  - rewrite from_utf8_app; [done|]. rewrite from_utf8_app by done. done.
  - apply Forall_app. split; [|done]. apply Forall_app. split; [done|]. by apply bytes_ok_1.
Qed.

Lemma read_name_loop_yields buf : bytes_ok buf → ∀ fuel pos out next hops lo,
  0 ≤ pos → 0 ≤ hops ≤ 32 → from_utf8 out = true → bytes_ok out →
  lo ≤ default pos next → (∀ p, next = Some p → lo < p ≤ zlen buf) → name_measure buf pos hops < Z.of_nat fuel →
  yields (read_name_loop fuel buf pos out next hops) (name_result buf lo).
Proof.
  intros Hbuf. induction fuel as [|fuel IH]; intros pos out next hops lo Hpos Hhops Hout Hob Hlo Hnext Hfuel.
  { unfold name_measure in Hfuel. pose proof (zlen_nonneg buf). nia. }
  cbn [read_name_loop]. eapply (yields_bind _ _ (λ len, is_byte len ∧ pos < zlen buf)).
  { apply yields_ok_or. intros len Hlen. by destruct (get_at_byte _ _ _ Hpos Hbuf Hlen). }
  intros len [Hlen Hin]. destruct (Z.eqb_spec len 0) as [->|Hne].
  { cbn. split_and!; [done|done|..]; destruct next as [p|]; cbn in *; try (specialize (Hnext p eq_refl)); lia. }
  destruct (Z.land len 0xC0 =? 0xC0) eqn:Hptr.
  { eapply (yields_bind _ _ (λ b, is_byte b ∧ pos + 1 < zlen buf)).
    { apply yields_ok_or. intros b Hb. destruct (get_at_byte buf (pos + 1) b); [lia|done|done|done]. }
    intros b [Hb Hin']. destruct (32 <? hops + 1) eqn:Hh; [done|]. apply IH; try done.
    - apply Z.lor_nonneg. split; [|apply Hb]. apply Z.shiftl_nonneg, Z.land_nonneg. right. lia.
    - lia.
    - cbn. destruct next as [p|]; cbn in *; lia.
    - intros p [= <-]. destruct next as [p|]; cbn in *; [by apply Hnext|lia].
    - unfold name_measure in *. set (q := Z.lor _ _).
      assert (0 ≤ q) by (apply Z.lor_nonneg; split; [apply Z.shiftl_nonneg, Z.land_nonneg; right; lia|apply Hb]).
      replace (33 - (hops + 1)) with ((33 - hops) - 1) by ring. rewrite Z.mul_sub_distr_r. lia. }
  destruct (negb (Z.land len 0xC0 =? 0)); [done|].
  eapply (yields_bind _ _ (λ l, bytes_ok l ∧ pos + 1 + len ≤ zlen buf)).
  { apply yields_ok_or. intros l Hl. destruct (get_range_bytes buf (pos + 1) (pos + 1 + len) l ltac:(lia) Hbuf Hl) as (H1 & H2 & H3).
    split; [done|lia]. }
  intros l [Hl Hend]. destruct (push_dotted_text out l Hout Hob Hl) as [Ht Hb]. unfold is_byte in Hlen. apply IH; try done.
  - lia.
  - destruct next as [p|]; cbn in *; lia.
  - unfold name_measure in *. nia.
Qed.

Lemma name_fuel_enough buf pos : 0 ≤ pos → name_measure buf pos 0 < Z.of_nat (name_fuel buf).
Proof. intros Hpos. unfold name_measure, name_fuel, zlen. lia. Qed.

(** A name is read in any buffer from any position: an error, or text and a later
    position inside the buffer. *)
Lemma read_name_yields buf pos : bytes_ok buf → 0 ≤ pos → yields (read_name buf pos) (name_result buf pos).
Proof.
  intros Hbuf Hpos. apply read_name_loop_yields; try done. by apply name_fuel_enough.
Qed.

(** ** Parsing *)

Definition text (s : bytes) : Prop := from_utf8 s = true ∧ bytes_ok s.
Definition rdata_ok (d : RData) : Prop :=
  match d with
  | Ptr nm => text nm
  | Srv port target => in_u 16 port ∧ text target
  | Txt strings => Forall (λ s, bytes_ok s ∧ zlen s < 256) strings
  | Aaaa addr => bytes_ok addr ∧ zlen addr = 16
  | Other => True
  end.
Definition record_ok (r : DnsRecord) : Prop := text (name r) ∧ rdata_ok (rdata r) ∧ in_u 32 (ttl r).

Lemma le_val_rev_u n l : bytes_ok l → zlen l = n → in_u (8 * n) (le_val (rev l)).
Proof.
  intros Hl Hn. pose proof (le_val_bound (rev l) (Forall_rev Hl)) as H. unfold zlen in H, Hn.
  rewrite length_rev, Hn in H. unfold in_u. rewrite Z.pow_mul_r by lia. done.
Qed.

Lemma be16_yields buf pos : bytes_ok buf → 0 ≤ pos → yields (be16 buf pos) (λ v, in_u 16 v ∧ pos + 2 ≤ zlen buf).
Proof.
  intros Hb Hp. apply (yields_bind _ _ (λ b, bytes_ok b ∧ zlen b = 2 ∧ pos + 2 ≤ zlen buf)).
  - apply yields_ok_or. intros b H. destruct (get_range_bytes _ _ _ _ Hp Hb H) as (H1 & H2 & H3). split_and!; [done|lia..].
  - intros b (H1 & H2 & H3). split; [|done]. by apply (le_val_rev_u 2).
Qed.
Lemma be32_yields buf pos : bytes_ok buf → 0 ≤ pos → yields (be32 buf pos) (λ v, in_u 32 v ∧ pos + 4 ≤ zlen buf).
Proof.
  intros Hb Hp. apply (yields_bind _ _ (λ b, bytes_ok b ∧ zlen b = 4 ∧ pos + 4 ≤ zlen buf)).
  - apply yields_ok_or. intros b H. destruct (get_range_bytes _ _ _ _ Hp Hb H) as (H1 & H2 & H3). split_and!; [done|lia..].
  - intros b (H1 & H2 & H3). split; [|done]. by apply (le_val_rev_u 4).
Qed.

Lemma txt_loop_yields rdata : bytes_ok rdata → ∀ fuel i strings, 0 ≤ i ≤ zlen rdata → zlen rdata - i < Z.of_nat fuel →
  Forall (λ s, bytes_ok s ∧ zlen s < 256) strings →
  yields (txt_loop fuel rdata i strings) (Forall (λ s, bytes_ok s ∧ zlen s < 256)).
Proof.
  intros Hr. induction fuel as [|fuel IH]; intros i strings Hi Hfuel Hs; cbn [txt_loop]; [lia|].
  destruct (get_at rdata i) as [n|] eqn:Hn; [|done]. destruct (get_at_byte rdata i n ltac:(lia) Hr Hn) as [_ Hbn].
  eapply (yields_bind _ _ (λ s, bytes_ok s ∧ zlen s = n ∧ i + 1 + n ≤ zlen rdata)).
  { apply yields_ok_or. intros s H. destruct (get_range_bytes rdata (i + 1) (i + 1 + n) s ltac:(lia) Hr H) as (H1 & H2 & H3).
    split_and!; [done|lia..]. }
  unfold is_byte in Hbn. intros s (Hsb & Hlen & Hend). apply IH; [lia|lia|].
  apply Forall_app. split; [done|]. apply Forall_singleton. split; [done|lia].
Qed.

Lemma parse_rdata_yields buf rtype pos data : bytes_ok buf → 0 ≤ pos → bytes_ok data →
  yields (parse_rdata buf rtype pos data) rdata_ok.
Proof.
  intros Hb Hp Hd. unfold parse_rdata. destruct (rtype =? TYPE_PTR).
  { pose proof (read_name_yields buf pos Hb Hp) as H. destruct (read_name buf pos) as [ [nm p]|e| |]; try done.
    destruct H as (H1 & H2 & _). by split. }
  destruct (rtype =? TYPE_SRV).
  { destruct (zlen data <? 7) eqn:Hl; [done|].
    eapply yields_bind; [apply read_name_yields; [done|lia]|]. intros [target p] (H1 & H2 & _). split; [|by split].
    apply (le_val_rev_u 2); [by apply zslice_bytes|]. apply zlen_zslice; lia. }
  destruct (rtype =? TYPE_TXT).
  { eapply yields_bind; [apply txt_loop_yields|]; [done|pose proof (zlen_nonneg data); lia|unfold zlen; lia|constructor|].
    intros strings Hs. done. }
  destruct (rtype =? TYPE_AAAA); [|done]. destruct (Z.eqb_spec (zlen data) 16); [|done]. done.
Qed.

Lemma parse_record_yields buf pos : bytes_ok buf → 0 ≤ pos →
  yields (parse_record buf pos) (λ '(r, p), record_ok r ∧ pos + MIN_RECORD_LEN ≤ p ≤ zlen buf).
Proof.
  intros Hb Hp. unfold parse_record. eapply yields_bind; [by apply read_name_yields|]. intros [nm p] (Ht & Hnb & Hlo).
  eapply yields_bind; [apply be16_yields; [done|lia]|]. intros rtype _.
  eapply yields_bind; [apply be16_yields; [done|lia]|]. intros class _.
  eapply yields_bind; [apply be32_yields; [done|lia]|]. intros tl [Htl _].
  eapply yields_bind; [apply be16_yields; [done|lia]|]. intros rdlen [Hrd Hin].
  eapply (yields_bind _ _ (λ d, bytes_ok d ∧ p + 10 + rdlen ≤ zlen buf)).
  { apply yields_ok_or. intros d H. destruct (get_range_bytes buf (p + 10) (p + 10 + rdlen) d ltac:(lia) Hb H) as (H1 & H2 & H3).
    split; [done|lia]. }
  intros d [Hd Hend]. eapply yields_bind; [apply parse_rdata_yields; [done|lia|done]|]. intros rd Hok. cbn.
  unfold in_u in Hrd. split; [|unfold MIN_RECORD_LEN; lia]. by split_and!.
Qed.

Lemma skip_questions_yields buf : bytes_ok buf → ∀ qd pos, 0 ≤ pos ≤ zlen buf →
  yields (skip_questions qd buf pos) (λ p, pos ≤ p ≤ zlen buf).
Proof.
  intros Hb. induction qd as [|qd IH]; intros pos Hp; cbn [skip_questions]; [cbn; lia|].
  eapply yields_bind; [apply read_name_yields; [done|lia]|]. intros [nm p] (_ & _ & Hlo).
  destruct (zlen buf <? p + 4) eqn:Hl; [done|]. specialize (IH (p + 4) ltac:(lia)).
  destruct (skip_questions qd buf (p + 4)); try done. cbn in *. lia.
Qed.

Lemma parse_records_yields buf : bytes_ok buf → ∀ total pos, 0 ≤ pos ≤ zlen buf →
  yields (parse_records total buf pos) (λ rs, Forall record_ok rs ∧ length rs = total ∧
    pos + MIN_RECORD_LEN * Z.of_nat total ≤ zlen buf).
Proof.
  intros Hb. induction total as [|total IH]; intros pos Hp; cbn [parse_records].
  { cbn. split_and!; [constructor|done|lia]. }
  eapply yields_bind; [apply parse_record_yields; [done|lia]|]. intros [r p] [Hr Hlo].
  eapply yields_bind; [apply (IH p); unfold MIN_RECORD_LEN in *; lia|]. intros rs (Hrs & Hlen & Hend). cbn.
  split_and!; [by constructor|by rewrite Hlen|unfold MIN_RECORD_LEN in *; lia].
Qed.

(** The number of records the header of a message claims: [total]. *)
Definition claimed (buf : bytes) : Z :=
  le_val (rev (zslice 6 8 buf)) + le_val (rev (zslice 8 10 buf)) + le_val (rev (zslice 10 12 buf)).

Lemma be16_at buf pos : 0 ≤ pos → pos + 2 ≤ zlen buf → be16 buf pos = Ok (le_val (rev (zslice pos (pos + 2) buf))).
Proof.
  intros Hp Hl. unfold be16, get_range. rewrite (proj2 (Z.leb_le _ _)), (proj2 (Z.leb_le _ _)) by lia. done.
Qed.

Lemma parse_message_spec buf : bytes_ok buf →
  yields (parse_message buf) (λ rs, Forall record_ok rs ∧ zlen rs = claimed buf ∧ 12 + MIN_RECORD_LEN * zlen rs ≤ zlen buf).
Proof.
  intros Hb. unfold parse_message. destruct (zlen buf <? 12) eqn:Hl; [done|].
  assert (∀ p, 0 ≤ p → p + 2 ≤ zlen buf → in_u 16 (le_val (rev (zslice p (p + 2) buf)))) as Hu.
  { intros p H1 H2. apply (le_val_rev_u 2); [by apply zslice_bytes|]. rewrite zlen_zslice; lia. }
  rewrite !be16_at by lia. cbn [res_bind]. change (6 + 2) with 8. change (8 + 2) with 10. change (10 + 2) with 12.
  assert (in_u 16 (le_val (rev (zslice 6 8 buf)))) as U1 by (apply (Hu 6); lia).
  assert (in_u 16 (le_val (rev (zslice 8 10 buf)))) as U2 by (apply (Hu 8); lia).
  assert (in_u 16 (le_val (rev (zslice 10 12 buf)))) as U3 by (apply (Hu 10); lia).
  fold (claimed buf). unfold in_u in U1, U2, U3.
  assert (0 ≤ claimed buf) as Hc by (unfold claimed; lia).
  eapply yields_bind; [apply skip_questions_yields; [done|lia]|]. cbn beta. intros p Hp.
  pose proof (parse_records_yields buf Hb (Z.to_nat (claimed buf)) p ltac:(lia)) as H.
  destruct (parse_records _ buf p) as [rs|e| |]; try done. destruct H as (H1 & H2 & H3).
  assert (zlen rs = claimed buf) as Hz by (unfold zlen; lia). rewrite Z2Nat.id in H3 by done.
  unfold MIN_RECORD_LEN in *. split_and!; [done|done|lia].
Qed.

(** Whatever bytes a datagram holds, [parse_message] returns: compressed
    names end, no index is out of range, and what comes out has the Rust types
    (text names, 16-bit ports, 32-bit lifetimes, 16-byte addresses).  A header
    may claim what it likes: when parsing succeeds the records fit the message,
    are as many as claimed, and the reserved capacity is exactly their number. *)
Theorem parse_message_untrusted buf : bytes_ok buf →
  yields (parse_message buf) (λ rs, Forall record_ok rs ∧ zlen rs = claimed buf ∧
    12 + MIN_RECORD_LEN * zlen rs ≤ zlen buf ∧ record_capacity (claimed buf) (zlen buf) = zlen rs).
Proof.
  intros Hb. pose proof (parse_message_spec buf Hb) as H. destruct (parse_message buf) as [rs|e| |]; try done.
  destruct H as (H1 & H2 & H3). split_and!; [done|done|done|]. rewrite <- H2. unfold record_capacity, saturating_sub.
  unfold MIN_RECORD_LEN in *. apply Z.min_l. apply Z.div_le_lower_bound; [lia|]. pose proof (zlen_nonneg rs). lia.
Qed.

(** A record whose name points at itself: an error, not a loop. *)
Lemma parse_message_untrusted_witness :
  let buf := [0; 0; 0x84; 0; 0; 0; 0; 1; 0; 0; 0; 0; 0xC0; 12] in
  bytes_ok buf ∧
  yields (parse_message buf) (λ rs, Forall record_ok rs ∧ zlen rs = claimed buf ∧
    12 + MIN_RECORD_LEN * zlen rs ≤ zlen buf ∧ record_capacity (claimed buf) (zlen buf) = zlen rs).
Proof.
  assert (bytes_ok [0; 0; 0x84; 0; 0; 0; 0; 1; 0; 0; 0; 0; 0xC0; 12]) as H by (by repeat constructor).
  split; [exact H|]. by apply (parse_message_untrusted [0; 0; 0x84; 0; 0; 0; 0; 1; 0; 0; 0; 0; 0xC0; 12]).
Defined.

(** ** Writing and reading names *)

Definition label_ok (l : bytes) : bool := (1 <=? zlen l) && (zlen l <=? 63) && from_utf8 l.
(** A name of at least one label, all of them well-formed. *)
Definition name_ok (nm : bytes) : bool := forallb label_ok (split_on 46 nm).
(** Its labels on the wire, before the root. *)
Definition wire (labels : list bytes) : bytes := concat (map (λ l, zlen l :: l) labels).
Definition name_wire (nm : bytes) : bytes := wire (split_on 46 nm) ++ [0].

Lemma split_on_app sep a b : split_on sep (a ++ sep :: b) = split_on sep a ++ split_on sep b.
Proof.
  induction a as [|c a IH]; cbn [app split_on]; [by rewrite Z.eqb_refl|]. rewrite IH. destruct (c =? sep); [done|].
  destruct (split_on sep a) as [|p r] eqn:Hs; [|done]. destruct a; cbn in Hs; repeat case_match; done.
Qed.
Lemma split_on_free sep a : Forall (λ c, c ≠ sep) a → split_on sep a = [a].
Proof.
  induction 1 as [|c a Hc _ IH]; [done|]. cbn [split_on]. rewrite IH. by rewrite (proj2 (Z.eqb_neq _ _)).
Qed.
Lemma split_on_nonempty sep a : split_on sep a ≠ [].
Proof. destruct a; cbn; repeat case_match; done. Qed.

Lemma name_ok_app a b : name_ok (a ++ 46 :: b) = name_ok a && name_ok b.
Proof. unfold name_ok. by rewrite split_on_app, forallb_app. Qed.
Lemma name_wire_app a b : name_wire (a ++ 46 :: b) = wire (split_on 46 a) ++ name_wire b.
Proof. unfold name_wire, wire. by rewrite split_on_app, map_app, concat_app, app_assoc. Qed.

Lemma push_labels_ok {E} labels : forallb label_ok labels = true → push_labels (E:=E) labels = Ok (wire labels).
Proof.
  induction labels as [|l labels IH]; [done|]. cbn [forallb push_labels]. intros [Hl Hs]%andb_true_iff.
  unfold label_ok in Hl. rewrite !andb_true_iff in Hl. destruct Hl as [ [H1 H2] _]. unfold push_label. rewrite H1, H2.
  cbn [andb res_bind]. by rewrite IH.
Qed.
Lemma push_name_ok {E} nm : name_ok nm = true → push_name (E:=E) nm = Ok (name_wire nm).
Proof. intros H. unfold push_name. by rewrite push_labels_ok. Qed.

Lemma label_ok_small l : label_ok l = true → 1 ≤ zlen l ≤ 63 ∧ utf8_lossy l = l.
Proof.
  unfold label_ok. rewrite !andb_true_iff. intros [ [H1 H2] H3]. split; [lia|by apply utf8_lossy_id].
Qed.
Lemma small_label_byte n : 1 ≤ n ≤ 63 → n ≠ 0 ∧ Z.land n 0xC0 = 0.
Proof.
  intros Hn. split; [lia|]. apply Z.bits_inj'. intros i Hi. rewrite Z.land_spec, Z.bits_0.
  destruct (Z.lt_ge_cases i 6).
  - replace (Z.testbit 0xC0 i) with false; [apply andb_false_r|].
    assert (i = 0 ∨ i = 1 ∨ i = 2 ∨ i = 3 ∨ i = 4 ∨ i = 5) as Hc by lia.
    by repeat (destruct Hc as [->|Hc]; [done|]); subst i.
  - rewrite Z.bits_above_log2; [done|lia|]. apply Z.log2_lt_pow2; [lia|].
    apply Z.lt_le_trans with (2 ^ 6); [lia|]. apply Z.pow_le_mono_r; lia.
Qed.

(** Joining labels as [read_name] does. *)
Definition join (labels : list bytes) : bytes := foldl push_dotted [] labels.

Lemma push_dotted_cons c out l : utf8_lossy l = l → push_dotted (c :: out) l = (c :: out) ++ 46 :: l.
Proof. intros Hl. unfold push_dotted. by rewrite Hl, <- app_assoc. Qed.
Lemma foldl_push_dotted out labels : out ≠ [] → forallb label_ok labels = true →
  foldl push_dotted out labels = out ++ concat (map (cons 46) labels).
Proof.
  revert out. induction labels as [|l labels IH]; intros out Hout Hs; cbn; [by rewrite app_nil_r|].
  cbn in Hs. apply andb_true_iff in Hs as [Hl Hs]. destruct (label_ok_small l Hl) as [_ Hid].
  destruct out as [|c out]; [done|]. rewrite push_dotted_cons by done. rewrite IH by done. by rewrite <- app_assoc.
Qed.
Lemma join_cons l labels : label_ok l = true → forallb label_ok labels = true →
  join (l :: labels) = l ++ concat (map (cons 46) labels).
Proof.
  intros Hl Hs. unfold join. cbn [foldl]. destruct (label_ok_small l Hl) as [Hlen Hid].
  change (push_dotted [] l) with (utf8_lossy l). rewrite Hid. apply foldl_push_dotted; [|done].
  intros ->. by change (zlen (@nil Z)) with 0 in Hlen.
Qed.
Lemma join_split nm : name_ok nm = true → join (split_on 46 nm) = nm.
Proof.
  unfold name_ok. intros Hok.
  assert (∀ s, match split_on 46 s with l :: ls => l ++ concat (map (cons 46) ls) = s | [] => False end) as Hs.
  { clear. intros s. induction s as [|c s IH]; [done|]. cbn [split_on]. destruct (Z.eqb_spec c 46) as [->|].
    - destruct (split_on 46 s) as [|l ls]; [done|]. cbn. by rewrite IH.
    - destruct (split_on 46 s) as [|l ls]; [done|]. cbn. by rewrite IH. }
  specialize (Hs nm). destruct (split_on 46 nm) as [|l ls]; [done|]. cbn in Hok. apply andb_true_iff in Hok as [H1 H2].
  by rewrite join_cons.
Qed.

Lemma read_labels buf labels : forallb label_ok labels = true → ∀ pre post out next hops k,
  buf = pre ++ wire labels ++ post →
  read_name_loop (length labels + k) buf (zlen pre) out next hops =
  read_name_loop k buf (zlen pre + zlen (wire labels)) (foldl push_dotted out labels) next hops.
Proof.
  induction labels as [|l labels IH]; intros Hs pre post out next hops k Hbuf.
  { cbn. by rewrite Z.add_0_r. }
  cbn [forallb] in Hs. apply andb_true_iff in Hs as [Hl Hs]. destruct (label_ok_small l Hl) as [Hlen Hid].
  destruct (small_label_byte (zlen l) Hlen) as [Hn0 Hland].
  cbn [length Nat.add read_name_loop]. rewrite Hbuf at 1. change (wire (l :: labels)) with (zlen l :: l ++ wire labels) in *.
  cbn [app]. rewrite get_at_app. cbn [ok_or res_bind]. rewrite (proj2 (Z.eqb_neq _ _) Hn0), Hland. cbn [Z.eqb negb].
  assert (buf = (pre ++ [zlen l]) ++ l ++ wire labels ++ post) as Hbuf'.
  { rewrite Hbuf. cbn [app]. by rewrite <- !app_assoc. }
  replace (zlen pre + 1) with (zlen (pre ++ [zlen l])) by (by rewrite zlen_app).
  rewrite Hbuf' at 1. rewrite get_range_app by done. cbn [ok_or res_bind foldl].
  replace (zlen pre + (1 + zlen l)) with (zlen (pre ++ zlen l :: l)) by (rewrite zlen_app, zlen_cons; lia).
  rewrite (IH Hs (pre ++ zlen l :: l) post); [|rewrite Hbuf'; by rewrite <- !app_assoc].
  f_equal. rewrite !zlen_app, !zlen_cons, zlen_app. lia.
Qed.

Lemma read_root buf pre post out next hops k : buf = pre ++ 0 :: post →
  read_name_loop (S k) buf (zlen pre) out next hops = Ok (out, default (zlen pre + 1) next).
Proof. intros ->. cbn [read_name_loop]. by rewrite get_at_app. Qed.

Lemma length_wire labels : (length labels ≤ length (wire labels))%nat.
Proof. induction labels as [|l ls IH]; [done|]. unfold wire in *. cbn. rewrite length_app. lia. Qed.

(** A name written in place. *)
Lemma read_name_at buf pre nm post : name_ok nm = true → buf = pre ++ name_wire nm ++ post →
  read_name buf (zlen pre) = Ok (nm, zlen pre + zlen (name_wire nm)).
Proof.
  intros Hok Hbuf. unfold read_name, name_fuel. unfold name_wire in *. set (ls := split_on 46 nm) in *.
  assert (length ls ≤ length buf)%nat as Hlen.
  { rewrite Hbuf, !length_app. pose proof (length_wire ls). lia. }
  replace (34 * S (length buf))%nat with (length ls + S (34 * S (length buf) - length ls - 1))%nat by lia.
  rewrite (read_labels buf ls Hok pre ([0] ++ post)) by (by rewrite Hbuf, <- app_assoc).
  change (foldl push_dotted [] ls) with (join ls).
  replace (zlen pre + zlen (wire ls)) with (zlen (pre ++ wire ls)) by apply zlen_app.
  rewrite (read_root buf (pre ++ wire ls) post) by (by rewrite Hbuf, <- !app_assoc).
  unfold ls. rewrite join_split by done. cbn. rewrite !zlen_app. do 2 f_equal. change (zlen [0]) with 1. lia.
Qed.

(** Labels and a pointer to a name at a small offset. *)
Lemma read_name_pointer buf pre labels p post pre' nm post' : forallb label_ok labels = true → name_ok nm = true →
  buf = pre ++ wire labels ++ 0xC0 :: p :: post → buf = pre' ++ name_wire nm ++ post' → zlen pre' = p →
  read_name buf (zlen pre) = Ok (join (labels ++ split_on 46 nm), zlen pre + zlen (wire labels) + 2).
Proof.
  intros Hls Hok Hbuf Hbuf' Hpre. unfold read_name, name_fuel. unfold name_wire in *. set (ls := split_on 46 nm) in *.
  assert (length ls ≤ length buf ∧ length labels ≤ length buf)%nat as [H1 H2].
  { split; [rewrite Hbuf'|rewrite Hbuf]; rewrite !length_app; [pose proof (length_wire ls)|pose proof (length_wire labels)]; lia. }
  replace (34 * S (length buf))%nat with
    (length labels + S (length ls + S (34 * S (length buf) - length ls - length labels - 2)))%nat by lia.
  rewrite (read_labels buf labels Hls pre (0xC0 :: p :: post)) by done.
  replace (zlen pre + zlen (wire labels)) with (zlen (pre ++ wire labels)) by apply zlen_app.
  set (k := (34 * _ - _ - _ - _)%nat). cbn [read_name_loop].
  replace (get_at buf (zlen (pre ++ wire labels))) with (Some 0xC0).
  2: { rewrite Hbuf, app_assoc. by rewrite get_at_app. }
  cbn [ok_or res_bind]. change (0xC0 =? 0) with false. change (Z.land 0xC0 0xC0 =? 0xC0) with true. cbv iota.
  replace (get_at buf (zlen (pre ++ wire labels) + 1)) with (Some p).
  2: { replace (zlen (pre ++ wire labels) + 1) with (zlen (pre ++ wire labels ++ [0xC0])) by (rewrite !zlen_app; change (zlen [0xC0]) with 1; lia).
       rewrite Hbuf. replace (pre ++ wire labels ++ 0xC0 :: p :: post) with ((pre ++ wire labels ++ [0xC0]) ++ p :: post)
         by (by rewrite <- !app_assoc). by rewrite get_at_app. }
  cbn [ok_or res_bind]. change (32 <? 0 + 1) with false. cbv iota. change (Z.shiftl (Z.land 0xC0 0x3F) 8) with 0.
  rewrite Z.lor_0_l, <- Hpre.
  rewrite (read_labels buf ls Hok pre' ([0] ++ post')) by (by rewrite Hbuf', <- app_assoc).
  replace (zlen pre' + zlen (wire ls)) with (zlen (pre' ++ wire ls)) by apply zlen_app.
  rewrite (read_root buf (pre' ++ wire ls) post') by (by rewrite Hbuf', <- !app_assoc).
  cbn [default]. unfold join. rewrite foldl_app. done.
Qed.

(** ** Records on the wire *)

Lemma zlen_be16 v : zlen (be16_bytes v) = 2.
Proof. done. Qed.
Lemma zlen_be32 v : zlen (be32_bytes v) = 4.
Proof. done. Qed.
#[export] Hint Rewrite zlen_be16 zlen_be32 : mat.

Lemma be_val n v : 0 ≤ v < 256 ^ Z.of_nat n → le_val (rev (be_bytes n v)) = v.
Proof. intros H. unfold be_bytes. rewrite rev_involutive. by apply le_val_bytes_small. Qed.
Lemma be16_app pre v post : in_u 16 v → be16 (pre ++ be16_bytes v ++ post) (zlen pre) = Ok v.
Proof. intros Hv. unfold be16. rewrite get_range_app by done. cbn [ok_or res_bind]. f_equal. by apply (be_val 2). Qed.
Lemma be32_app pre v post : in_u 32 v → be32 (pre ++ be32_bytes v ++ post) (zlen pre) = Ok v.
Proof. intros Hv. unfold be32. rewrite get_range_app by done. cbn [ok_or res_bind]. f_equal. by apply (be_val 4). Qed.

(** A record after its owner name. *)
Definition record_tail (rtype class ttl : Z) (data : bytes) : bytes :=
  be16_bytes rtype ++ be16_bytes class ++ be32_bytes ttl ++ be16_bytes (zlen data) ++ data.

Lemma zlen_record_tail rtype class ttl data : zlen (record_tail rtype class ttl data) = 10 + zlen data.
Proof. unfold record_tail. autorewrite with mat. lia. Qed.

Lemma parse_record_at buf pre owner nm rtype class ttl data d post :
  buf = pre ++ owner ++ record_tail rtype class ttl data ++ post →
  read_name buf (zlen pre) = Ok (nm, zlen pre + zlen owner) →
  parse_rdata buf rtype (zlen pre + zlen owner + 10) data = Ok d →
  in_u 16 rtype → in_u 16 class → in_u 32 ttl → zlen data < 2 ^ 16 →
  parse_record buf (zlen pre) =
    Ok ({| name := nm; rdata := d; ttl := ttl; cache_flush := negb (Z.land class 0x8000 =? 0) |},
        zlen pre + zlen owner + (10 + zlen data)).
Proof.
  intros Hbuf Hname Hrd Hr Hc Ht Hd. unfold parse_record. rewrite Hname. cbn [res_bind].
  set (b := pre ++ owner). assert (zlen pre + zlen owner = zlen b) as Hb by (unfold b; by rewrite zlen_app). rewrite Hb in *.
  assert (buf = b ++ record_tail rtype class ttl data ++ post) as Hbuf1 by (unfold b; by rewrite Hbuf, <- app_assoc).
  clearbody b. clear Hbuf Hname Hb. unfold record_tail in Hbuf1. rewrite <- !app_assoc in Hbuf1.
  assert (be16 buf (zlen b) = Ok rtype) as -> by (rewrite Hbuf1; by apply be16_app).
  replace (zlen b + 2) with (zlen (b ++ be16_bytes rtype)) by (by rewrite zlen_app).
  assert (be16 buf (zlen (b ++ be16_bytes rtype)) = Ok class) as ->.
  { rewrite Hbuf1, app_assoc. by apply be16_app. }
  replace (zlen b + 4) with (zlen ((b ++ be16_bytes rtype) ++ be16_bytes class)) by (rewrite !zlen_app, !zlen_be16; lia).
  assert (be32 buf (zlen ((b ++ be16_bytes rtype) ++ be16_bytes class)) = Ok ttl) as ->.
  { rewrite Hbuf1, app_assoc, app_assoc. by apply be32_app. }
  replace (zlen b + 8) with (zlen (((b ++ be16_bytes rtype) ++ be16_bytes class) ++ be32_bytes ttl))
    by (rewrite !zlen_app, !zlen_be16, zlen_be32; lia).
  assert (be16 buf (zlen (((b ++ be16_bytes rtype) ++ be16_bytes class) ++ be32_bytes ttl)) = Ok (zlen data)) as ->.
  { rewrite Hbuf1, !app_assoc, <- app_assoc. rewrite <- (app_assoc _ (be16_bytes _)). apply be16_app.
    split; [apply zlen_nonneg|done]. }
  cbn [res_bind]. set (h := (((b ++ be16_bytes rtype) ++ be16_bytes class) ++ be32_bytes ttl) ++ be16_bytes (zlen data)).
  assert (zlen b + 10 = zlen h) as Hh by (unfold h; rewrite !zlen_app, !zlen_be16, zlen_be32; lia).
  assert (buf = h ++ data ++ post) as Hbuf2 by (unfold h; rewrite Hbuf1; by rewrite <- !app_assoc).
  rewrite Hh. replace (get_range buf (zlen h) (zlen h + zlen data)) with (Some data).
  2: { rewrite Hbuf2. by rewrite get_range_app. }
  cbn [ok_or res_bind]. rewrite <- Hh, Hrd. cbn [res_bind]. do 2 f_equal. lia.
Qed.

(** A message behind its header. *)
Lemma parse_message_at id flags qd an ns ar rest : zlen id = 2 → zlen flags = 2 →
  in_u 16 qd → in_u 16 an → in_u 16 ns → in_u 16 ar →
  let buf := id ++ flags ++ be16_bytes qd ++ be16_bytes an ++ be16_bytes ns ++ be16_bytes ar ++ rest in
  parse_message buf = (let? pos := skip_questions (Z.to_nat qd) buf 12 in parse_records (Z.to_nat (an + ns + ar)) buf pos).
Proof.
  intros Hid Hf Hqd Han Hns Har buf. unfold parse_message.
  assert (12 ≤ zlen buf) as Hlen.
  { unfold buf. rewrite (zlen_app id), (zlen_app flags), Hid, Hf. autorewrite with mat. pose proof (zlen_nonneg rest). lia. }
  rewrite (proj2 (Z.ltb_ge _ _)) by done. set (h := id ++ flags).
  assert (zlen h = 4) as Hh by (unfold h; rewrite zlen_app; lia).
  assert (buf = h ++ be16_bytes qd ++ be16_bytes an ++ be16_bytes ns ++ be16_bytes ar ++ rest) as Hb.
  { unfold buf, h. by rewrite <- app_assoc. }
  assert (be16 buf 4 = Ok qd) as -> by (rewrite Hb, <- Hh; by apply be16_app).
  assert (be16 buf 6 = Ok an) as ->.
  { rewrite Hb, app_assoc. replace 6 with (zlen (h ++ be16_bytes qd)) by (rewrite zlen_app, zlen_be16; lia). by apply be16_app. }
  assert (be16 buf 8 = Ok ns) as ->.
  { rewrite Hb, !app_assoc, <- !(app_assoc _ _ rest), <- (app_assoc _ (be16_bytes ns)).
    replace 8 with (zlen ((h ++ be16_bytes qd) ++ be16_bytes an)) by (rewrite !zlen_app, !zlen_be16; lia). by apply be16_app. }
  assert (be16 buf 10 = Ok ar) as ->.
  { rewrite Hb, !app_assoc, <- !(app_assoc _ _ rest).
    replace 10 with (zlen (((h ++ be16_bytes qd) ++ be16_bytes an) ++ be16_bytes ns)) by (rewrite !zlen_app, !zlen_be16; lia). by apply be16_app. }
  done.
Qed.

(** ** Known answers on the wire *)

Lemma dots_split s : concat (map (cons 46) (split_on 46 s)) = 46 :: s.
Proof.
  induction s as [|c s IH]; [done|]. cbn [split_on]. destruct (Z.eqb_spec c 46) as [->|].
  - cbn [map concat app]. by rewrite IH.
  - destruct (split_on 46 s) as [|l ls] eqn:Hs; [by apply split_on_nonempty in Hs|]. cbn in *. by injection IH as ->.
Qed.
Lemma join_under label nm : label_ok label = true → name_ok nm = true → join ([label] ++ split_on 46 nm) = label ++ 46 :: nm.
Proof. intros Hl Hn. cbn [app]. by rewrite join_cons, dots_split. Qed.

Lemma zlen_pos {A} (l : list A) : l ≠ [] ↔ 0 < zlen l.
Proof. destruct l as [|x l]; [by split|]. rewrite zlen_cons. pose proof (zlen_nonneg l). split; [lia|done]. Qed.

(** The label of a known answer [label.service], whatever its case. *)
Definition service_label (service nm : bytes) : option bytes :=
  let k := zlen nm - zlen (46 :: service) in
  if (1 <=? k) && (k <=? 63) && eq_ignore_ascii_case (zslice k (zlen nm) nm) (46 :: service)
  then Some (zslice 0 k nm) else None.
(** [split_at] would not panic. *)
Definition cuts_between_chars (service nm : bytes) : bool :=
  (zlen nm <=? zlen (46 :: service)) || is_char_boundary nm (zlen nm - zlen (46 :: service)).

Lemma known_label_spec service nm :
  known_label service nm = if cuts_between_chars service nm then Ok (service_label service nm) else Panic.
Proof.
  unfold known_label, cuts_between_chars, service_label. set (n := zlen (46 :: service)). cbv zeta.
  assert (0 ≤ n) as Hn by apply zlen_nonneg.
  destruct (zlen nm <=? n) eqn:Hl; cbn [orb].
  { rewrite (proj2 (Z.leb_gt 1 _)); [done|lia]. }
  unfold split_at. destruct (is_char_boundary nm (zlen nm - n)); [|done]. cbn [res_bind].
  assert (zlen (zslice 0 (zlen nm - n) nm) = zlen nm - n) as -> by (apply zlen_zslice_0; lia).
  rewrite (proj2 (Z.leb_le 1 _)), (proj2 (Z.eqb_neq _ _)) by lia. cbn [andb orb]. rewrite orb_false_r.
  destruct (eq_ignore_ascii_case _ _); cbn [negb orb]; [|by rewrite andb_false_r].
  rewrite andb_true_r. rewrite Z.ltb_antisym. by destruct (zlen nm - n <=? 63).
Qed.

(** A text cut between characters is two texts. *)
Lemma from_utf8_cut s i : from_utf8 s = true → is_char_boundary s i = true → 0 ≤ i → from_utf8 (zslice 0 i s) = true.
Proof.
  revert i. induction s as [s IH] using bytes_ind. intros i Hs Hb Hi.
  destruct (from_utf8_split s Hs) as [->|(c & k & Hc & -> & Hk)]; [unfold zslice; by rewrite drop_nil, take_nil|].
  destruct (decide (i = 0)) as [->|Hne]; [done|].
  assert (∀ j, (0 < j < length c)%nat → is_char_boundary (c ++ k) (Z.of_nat j) = false) as Hmid.
  { intros j Hj. unfold is_char_boundary. rewrite (proj2 (Z.eqb_neq _ _)) by lia. rewrite Nat2Z.id. cbn [orb].
    rewrite lookup_app_l by lia.
    destruct Hc; destruct j as [|[|[|[|j] ] ] ]; cbn in Hj |- *; try lia; unfold second_of_3, second_of_4, between, cont_byte in *; repeat case_match; lia. }
  destruct (decide (i < zlen c)) as [Hin|Hout].
  { specialize (Hmid (Z.to_nat i)). rewrite Z2Nat.id, Hb in Hmid by lia. unfold zlen in Hin. discriminate Hmid. lia. }
  assert (zslice 0 i (c ++ k) = c ++ zslice 0 (i - zlen c) k) as ->.
  { unfold zslice. rewrite !Z.sub_0_r, !drop_0, take_app. unfold zlen in *. rewrite take_ge by lia. f_equal. f_equal. lia. }
  rewrite from_utf8_char by done. pose proof (utf8_char_length c Hc) as [Hpos _].
  apply IH; [rewrite length_app; lia|done| |lia].
  unfold is_char_boundary in *. destruct (Z.eqb_spec (i - zlen c) 0); [done|]. rewrite (proj2 (Z.eqb_neq i 0)) in Hb by done.
  cbn [orb] in *. rewrite lookup_app_r in Hb by (unfold zlen in *; lia).
  replace (Z.to_nat (i - zlen c)) with (Z.to_nat i - length c)%nat by (unfold zlen; lia).
  destruct (k !! (Z.to_nat i - length c)%nat); [done|]. rewrite zlen_app in Hb. lia.
Qed.

Lemma service_label_ok service nm l : from_utf8 nm = true → cuts_between_chars service nm = true →
  service_label service nm = Some l → label_ok l = true.
Proof.
  unfold service_label, cuts_between_chars. intros Ht Hc. set (n := zlen (46 :: service)) in *.
  assert (0 ≤ n) as Hn by apply zlen_nonneg. cbv zeta.
  destruct ((1 <=? zlen nm - n) && (zlen nm - n <=? 63) && _) eqn:H; [|done]. intros [= <-].
  rewrite !andb_true_iff in H. destruct H as [ [H1 H2] _]. unfold label_ok. rewrite zlen_zslice_0 by lia. rewrite H1, H2. cbn [andb].
  apply from_utf8_cut; [done| |lia]. destruct (zlen nm <=? n) eqn:?; [lia|done].
Qed.

Section known_answers.
Context (service : bytes) (service_ok : name_ok service = true) (service_len : zlen (name_wire service) ≤ 255).

Let qname : bytes := name_wire service.
Let question : bytes := qname ++ be16_bytes TYPE_PTR ++ be16_bytes CLASS_IN.
Let tail (e : bytes * Z) : bytes := ka_tail (fst e) (snd e).

Definition entry_ok (e : bytes * Z) : Prop := label_ok (fst e) = true ∧ in_u 32 (snd e).
(** The record a known answer stands for. *)
Definition known_record (e : bytes * Z) : DnsRecord :=
  {| name := service; rdata := Ptr (fst e ++ 46 :: service); ttl := snd e; cache_flush := false |}.
Definition known_entries (known : list (bytes * Z)) : list (bytes * Z) :=
  omap (λ '(nm, ttl), (λ l, (l, ttl)) <$> service_label service nm) known.

Lemma ka_tail_record e : label_ok (fst e) = true →
  tail e = record_tail TYPE_PTR CLASS_IN (snd e) (wire [fst e] ++ [0xC0; 0x0C]) ∧ 14 ≤ zlen (tail e) ≤ 76.
Proof.
  intros Hl. destruct (label_ok_small _ Hl) as [Hlen _]. destruct e as [l ttl]. unfold tail, ka_tail, record_tail. cbn [fst snd] in *.
  assert (wire [l] ++ [0xC0; 0x0C] = zlen l :: l ++ [0xC0; 0x0C]) as -> by (unfold wire; cbn; by rewrite app_nil_r).
  assert (zlen (zlen l :: l ++ [0xC0; 0x0C]) = 1 + zlen l + 2) as -> by (rewrite zlen_cons, zlen_app; change (zlen [0xC0; 0x0C]) with 2; lia).
  rewrite !wrap_small by (unfold in_u; lia). split; [done|]. rewrite !zlen_app. change (zlen [zlen l]) with 1.
  change (zlen [0xC0; 0x0C]) with 2. autorewrite with mat. lia.
Qed.

(** One known answer, after an owner that reads as the service. *)
Lemma ka_record buf pre owner e post head rest : entry_ok e →
  buf = pre ++ owner ++ tail e ++ post → read_name buf (zlen pre) = Ok (service, zlen pre + zlen owner) →
  buf = head ++ qname ++ rest → zlen head = 12 →
  parse_record buf (zlen pre) = Ok (known_record e, zlen pre + zlen owner + zlen (tail e)).
Proof.
  intros [Hl Ht] Hbuf Hname Hhead H12. destruct (ka_tail_record e Hl) as [He [_ Hsz] ]. rewrite He in *.
  rewrite zlen_record_tail in *. change 0xC0C with (0xC0C) in *.
  apply (parse_record_at buf pre owner service TYPE_PTR CLASS_IN (snd e) _ (Ptr (fst e ++ 46 :: service)) post);
    try done; [|lia].
  unfold parse_rdata. change (TYPE_PTR =? TYPE_PTR) with true. cbv iota.
  set (h := pre ++ owner ++ be16_bytes TYPE_PTR ++ be16_bytes CLASS_IN ++ be32_bytes (snd e) ++ be16_bytes (zlen (wire [fst e] ++ [0xC0; 0x0C]))).
  assert (zlen pre + zlen owner + 10 = zlen h) as -> by (unfold h; autorewrite with mat; lia).
  rewrite (read_name_pointer buf h [fst e] 12 post head service rest); [|by cbn; rewrite Hl|done| |done|done].
  - by rewrite join_under.
  - rewrite Hbuf. unfold h, record_tail. by rewrite <- !app_assoc.
Qed.

(** Records whose owners all point at offset 12. *)
Lemma ka_pointed es : Forall entry_ok es → ∀ buf pre post head rest,
  buf = pre ++ concat (map (λ e, [0xC0; 0x0C] ++ tail e) es) ++ post → buf = head ++ qname ++ rest → zlen head = 12 →
  parse_records (length es) buf (zlen pre) = Ok (map known_record es).
Proof.
  induction 1 as [|e es He _ IH]; intros buf pre post head rest Hbuf Hhead H12; [done|].
  cbn [length parse_records map concat] in *. rewrite <- !app_assoc in Hbuf.
  rewrite (ka_record buf pre [0xC0; 0x0C] e (concat (map (λ e, [0xC0; 0x0C] ++ tail e) es) ++ post) head rest He Hbuf); [|..|done|done].
  - cbn [res_bind]. replace (zlen pre + zlen [0xC0; 0x0C] + zlen (tail e)) with (zlen (pre ++ [0xC0; 0x0C] ++ tail e)) by (rewrite (zlen_app pre), (zlen_app [_; _]); lia).
    rewrite (IH buf (pre ++ [0xC0; 0x0C] ++ tail e) post head rest); [done| |done|done]. rewrite Hbuf. by rewrite <- !app_assoc.
  - rewrite (read_name_pointer buf pre [] 12 (tail e ++ concat (map (λ e, [0xC0; 0x0C] ++ tail e) es) ++ post) head service rest);
      [|done|done|done|done|done]. cbn [app]. rewrite join_split by done. do 2 f_equal. change (zlen (wire [])) with 0. change (zlen [0xC0; 0x0C]) with 2. lia.
Qed.

(** The size of a packet. *)
Definition group_size (is0 : bool) (g : list bytes) : Z :=
  (if is0 then 12 + zlen question else 12) + foldr (λ t n, 2 + zlen t + n) 0 g +
  (if is0 then 0 else match g with [] => 0 | _ => zlen qname - 2 end).

Lemma group_size_snoc is0 g t :
  group_size is0 (g ++ [t]) = group_size is0 g + (if is0 || negb (match g with [] => true | _ => false end) then 2 else zlen qname) + zlen t.
Proof.
  unfold group_size. assert (foldr (λ t n, 2 + zlen t + n) 0 (g ++ [t]) = foldr (λ t n, 2 + zlen t + n) 0 g + 2 + zlen t) as ->.
  { induction g as [|x g IH]; cbn; [lia|]. rewrite IH. lia. }
  destruct is0, g; cbn [app orb negb]; lia.
Qed.

Lemma zlen_qname : 2 ≤ zlen qname ≤ 255.
Proof.
  split; [|done]. unfold qname, name_wire. rewrite zlen_app. change (zlen [0]) with 1. pose proof (split_on_nonempty 46 service) as Hne.
  pose proof (length_wire (split_on 46 service)) as H. destruct (split_on 46 service); [done|]. unfold zlen. cbn [length] in H. lia.
Qed.
Lemma zlen_question : zlen question = zlen qname + 4.
Proof. unfold question. autorewrite with mat. lia. Qed.

Lemma ka_owner_pointer i ts :
  concat (imap (λ j t, ka_owner qname i (S j) ++ t) ts) = concat (map (λ t, [0xC0; 0x0C] ++ t) ts).
Proof.
  f_equal. unfold ka_owner. change (λ j t, _) with (λ (_ : nat) t, (if (i =? 0)%nat || true then [0xC0; 0x0C] else qname) ++ t).
  rewrite orb_true_r. apply imap_const.
Qed.

Lemma packet_body i es : concat (imap (λ j t, ka_owner qname i j ++ t) (map tail es)) =
  match es with
  | [] => []
  | e :: rest => (if (i =? 0)%nat then [0xC0; 0x0C] else qname) ++ tail e ++ concat (map (λ e, [0xC0; 0x0C] ++ tail e) rest)
  end.
Proof.
  destruct es as [|e rest]; [done|]. cbn [map]. rewrite imap_cons. cbn [concat].
  rewrite <- app_assoc. f_equal; [unfold ka_owner; cbn [Nat.ltb Nat.leb]; by rewrite orb_false_r|]. f_equal.
  rewrite <- (map_map tail (λ t, [0xC0; 0x0C] ++ t)). apply ka_owner_pointer.
Qed.

Lemma zlen_packet n i es : zlen (ka_packet qname question n i (map tail es)) = group_size (i =? 0)%nat (map tail es).
Proof.
  unfold ka_packet. rewrite packet_body. unfold group_size.
  assert (∀ l, zlen (concat (map (λ e, [0xC0; 0x0C] ++ tail e) l)) = foldr (λ t n, 2 + zlen t + n) 0 (map tail l)) as Hsum.
  { induction l as [|e l IH]; [done|]. cbn [map concat foldr]. rewrite (zlen_app (_ ++ _)), (zlen_app [_; _]), IH. done. }
  rewrite (zlen_app (be16_bytes _)), (zlen_app (be16_bytes _)), (zlen_app (be16_bytes _)), (zlen_app (be16_bytes _)), (zlen_app [_; _; _; _]).
  rewrite !zlen_be16. change (zlen [0; 0; 0; 0]) with 4. rewrite (zlen_app (if (i =? 0)%nat then question else [])).
  destruct es as [|e es]; cbn [map foldr].
  - change (zlen (@nil Z)) with 0. destruct (i =? 0)%nat; change (zlen (@nil Z)) with 0; lia.
  - rewrite (zlen_app (if (i =? 0)%nat then [0xC0; 0x0C] else qname)), (zlen_app (tail e)), Hsum.
    destruct (i =? 0)%nat; change (zlen [0xC0; 0x0C]) with 2; change (zlen (@nil Z)) with 0; lia.
Qed.

(** A packet reads back as its records. *)
Lemma packet_parses n i es : Forall entry_ok es → es ≠ [] → group_size (i =? 0)%nat (map tail es) ≤ KNOWN_ANSWER_PACKET_BUDGET →
  parse_message (ka_packet qname question n i (map tail es)) = Ok (map known_record es).
Proof.
  intros Hes Hne Hsize. unfold KNOWN_ANSWER_PACKET_BUDGET in Hsize. pose proof zlen_qname as Hq. pose proof zlen_question as Hqq.
  assert (2 * zlen es ≤ foldr (λ t n, 2 + zlen t + n) 0 (map tail es)) as Hcount.
  { clear. induction es as [|e es IH]; [done|]. cbn [map foldr]. rewrite zlen_cons. pose proof (zlen_nonneg (tail e)). lia. }
  assert (0 < zlen es ≤ 1400) as Hn.
  { split; [by apply zlen_pos|]. unfold group_size in Hsize. destruct (i =? 0)%nat, (map tail es); lia. }
  assert (zlen (map tail es) = zlen es) as Hm by (unfold zlen; by rewrite length_map).
  set (id := be16_bytes 0). set (flags := be16_bytes (if (i + 1 <? n)%nat then 0x0200 else 0)).
  set (qd := if (i =? 0)%nat then 1 else 0).
  assert (0 ≤ qd ≤ 1) as Hqd by (unfold qd; destruct (i =? 0)%nat; lia).
  assert (ka_packet qname question n i (map tail es) = id ++ flags ++ be16_bytes qd ++ be16_bytes (zlen es) ++ be16_bytes 0 ++ be16_bytes 0 ++
    (if (i =? 0)%nat then question else []) ++ concat (imap (λ j t, ka_owner qname i j ++ t) (map tail es))) as Hbuf.
  { unfold ka_packet. rewrite Hm, wrap_small by (unfold in_u; lia). done. }
  rewrite packet_body in Hbuf. set (h := id ++ flags ++ be16_bytes qd ++ be16_bytes (zlen es) ++ be16_bytes 0 ++ be16_bytes 0) in *.
  assert (zlen h = 12) as Hh by done.
  rewrite Hbuf at 1. rewrite parse_message_at by (done || unfold in_u; lia). rewrite <- Hbuf. clearbody id flags.
  set (buf := ka_packet _ _ _ _ _) in *. replace (Z.to_nat (zlen es + 0 + 0)) with (length es) by (unfold zlen; lia).
  destruct es as [|e es]; [done|]. apply Forall_cons in Hes as [He Hes]. unfold qd in *. clear qd. destruct (i =? 0)%nat.
  - set (ptrs := [0xC0; 0x0C] ++ tail e ++ _) in Hbuf.
    assert (buf = h ++ qname ++ (be16_bytes TYPE_PTR ++ be16_bytes CLASS_IN) ++ ptrs) as Hb1.
    { rewrite Hbuf. unfold h, question. by rewrite <- !app_assoc. }
    change (Z.to_nat 1) with 1%nat. cbn [skip_questions]. rewrite <- Hh at 1.
    rewrite (read_name_at buf h service ((be16_bytes TYPE_PTR ++ be16_bytes CLASS_IN) ++ ptrs)) by done. cbn [res_bind].
    change (name_wire service) with qname. set (pre := h ++ question).
    replace (zlen h + zlen qname + 4) with (zlen pre) by (unfold pre; rewrite zlen_app, zlen_question; lia).
    assert (buf = pre ++ ptrs) as Hb2 by (rewrite Hb1; unfold pre, question; by rewrite <- !app_assoc).
    assert (zlen buf = zlen pre + zlen ptrs) as Hz by (by rewrite Hb2, zlen_app). pose proof (zlen_nonneg ptrs).
    rewrite (proj2 (Z.ltb_ge _ _)) by lia. cbn [res_bind].
    apply (ka_pointed (e :: es) ltac:(by constructor) buf pre [] h ((be16_bytes TYPE_PTR ++ be16_bytes CLASS_IN) ++ ptrs)); [|done|done].
    rewrite Hb2. unfold ptrs. cbn [map concat]. by rewrite app_nil_r, <- app_assoc.
  - change (Z.to_nat 0) with 0%nat. cbn [skip_questions res_bind length parse_records map].
    set (more := concat _) in Hbuf.
    assert (buf = h ++ qname ++ tail e ++ more) as Hb1 by (rewrite Hbuf; unfold h; by rewrite <- !app_assoc).
    rewrite <- Hh. rewrite (ka_record buf h qname e more h (tail e ++ more) He Hb1); [|..|done|done].
    + cbn [res_bind]. replace (zlen h + zlen qname + zlen (tail e)) with (zlen (h ++ qname ++ tail e)) by (rewrite (zlen_app h), (zlen_app qname); lia).
      rewrite (ka_pointed es Hes buf (h ++ qname ++ tail e) [] h (tail e ++ more)); [done| |done|done].
      rewrite Hb1, app_nil_r. by rewrite <- !app_assoc.
    + by apply (read_name_at buf h service (tail e ++ more)).
Qed.

(** *** Packing *)

Definition closed_ok (c : list (list bytes)) : Prop :=
  ∀ i g, c !! i = Some g → g ≠ [] ∧ group_size (i =? 0)%nat g ≤ KNOWN_ANSWER_PACKET_BUDGET.
Definition packed (ts : list bytes) (g : Grouping) : Prop :=
  concat (closed g ++ [open_ g]) = ts ∧ closed_ok (closed g ++ [open_ g]) ∧
  current_size g = group_size (length (closed g) =? 0)%nat (open_ g).

Lemma closed_ok_snoc c g : closed_ok c → g ≠ [] → group_size (length c =? 0)%nat g ≤ KNOWN_ANSWER_PACKET_BUDGET →
  closed_ok (c ++ [g]).
Proof.
  intros Hc Hg Hs i g' Hi. apply lookup_app_Some in Hi as [Hi|[Hi Hg'] ]; [by apply Hc|].
  apply list_lookup_singleton_Some in Hg' as [Hz <-]. replace i with (length c) by lia. done.
Qed.

Lemma fits_alone is0 t : zlen t ≤ 76 → group_size is0 [t] ≤ KNOWN_ANSWER_PACKET_BUDGET.
Proof.
  intros Ht. pose proof zlen_qname. pose proof zlen_question. unfold group_size, KNOWN_ANSWER_PACKET_BUDGET. cbn [foldr].
  destruct is0; lia.
Qed.

(** Into the open group: it was empty, or has room. *)
Lemma place_here fuel t c o size : closed_ok c → (o = [] → zlen t ≤ 76) →
  size = group_size (length c =? 0)%nat o →
  (match o with [] => true | _ => false end) || (group_size (length c =? 0)%nat (o ++ [t]) <=? KNOWN_ANSWER_PACKET_BUDGET) = true →
  ∃ g, place (S fuel) (zlen qname) t {| closed := c; open_ := o; current_size := size |} = Ok g ∧
    packed (concat (c ++ [o]) ++ [t]) g.
Proof.
  intros Hc Ht -> Hroom. cbn [place closed open_ current_size].
  assert ((match c with [] => true | _ => false end) = (length c =? 0)%nat) as -> by (by destruct c).
  rewrite group_size_snoc, <- Z.add_assoc in Hroom. rewrite Hroom. eexists. split; [done|]. unfold packed. cbn [closed open_ current_size].
  split_and!; [by rewrite !concat_app; cbn; rewrite !app_nil_r, app_assoc| |by rewrite group_size_snoc; lia].
  apply closed_ok_snoc; [done|by destruct o|]. apply orb_true_iff in Hroom as [Ho|Hroom].
  - destruct o; [|done]. apply fits_alone, Ht. done.
  - rewrite group_size_snoc. lia.
Qed.

Lemma place_packed ts t g : packed ts g → open_ g ≠ [] → zlen t ≤ 76 →
  ∃ g', place 2 (zlen qname) t g = Ok g' ∧ packed (ts ++ [t]) g'.
Proof.
  intros (<- & Hc & Hsz) Ho Ht. destruct g as [c o size]. cbn [closed open_ current_size] in *.
  assert (closed_ok c) as Hc' by (intros i g Hi; apply Hc; by apply lookup_app_l_Some).
  destruct (group_size (length c =? 0)%nat (o ++ [t]) <=? KNOWN_ANSWER_PACKET_BUDGET) eqn:Hroom.
  - apply (place_here 1); [done|done|done|]. by rewrite Hroom, orb_true_r.
  - destruct (place_here 0 t (c ++ [o]) [] 12) as (g & Hg & Hp); [done|done| |done|].
    + rewrite length_app, Nat.add_1_r. done.
    + exists g. split; [|by rewrite concat_app in Hp; cbn in Hp; rewrite !app_nil_r in Hp].
      rewrite <- Hg. cbn [place closed open_ current_size]. rewrite Hsz, Z.add_assoc.
      assert ((match c with [] => true | _ => false end) = (length c =? 0)%nat) as -> by (by destruct c).
      rewrite group_size_snoc in Hroom. rewrite Hroom.
      destruct o; [done|]. cbn [orb negb]. done.
Qed.

Lemma place_all_packed ts done g : packed done g → open_ g ≠ [] → Forall (λ t, zlen t ≤ 76) ts →
  ∃ g', place_all (zlen qname) ts g = Ok g' ∧ packed (done ++ ts) g'.
Proof.
  intros Hp Ho Hts. revert done g Hp Ho. induction Hts as [|t ts Ht _ IH]; intros done g Hp Ho; cbn [place_all].
  { exists g. by rewrite app_nil_r. }
  destruct (place_packed done t g Hp Ho Ht) as (g1 & -> & Hp1). cbn [res_bind].
  destruct (IH (done ++ [t]) g1 Hp1) as (g2 & -> & Hp2).
  - destruct Hp1 as (_ & Hc & _). apply (Hc (length (closed g1)) (open_ g1)). by rewrite list_lookup_middle.
  - exists g2. by rewrite <- app_assoc in Hp2.
Qed.

Lemma pack_all t ts : Forall (λ t, zlen t ≤ 76) (t :: ts) →
  ∃ g, place_all (zlen qname) (t :: ts) {| closed := []; open_ := []; current_size := 12 + zlen question |} = Ok g ∧ packed (t :: ts) g.
Proof.
  intros [Ht Hts]%Forall_cons. cbn [place_all].
  destruct (place_here 1 t [] [] (12 + zlen question)) as (g & Hg & Hp); [done|done| |done|].
  { unfold group_size. cbn. lia. }
  rewrite Hg. cbn [res_bind]. cbn in Hp. apply (place_all_packed ts [t] g Hp); [|done].
  destruct Hp as (_ & Hc & _). apply (Hc (length (closed g)) (open_ g)). by rewrite list_lookup_middle.
Qed.

(** A partition of the tails is one of the entries. *)
Lemma concat_map_inv {A B} (f : A → B) (gs : list (list B)) l : concat gs = map f l →
  ∃ ls, gs = map (map f) ls ∧ concat ls = l.
Proof.
  revert l. induction gs as [|g gs IH]; intros l Hl; [exists []; by destruct l|]. cbn in Hl. symmetry in Hl.
  apply List.map_eq_app in Hl as (l1 & l2 & -> & <- & Hl2). destruct (IH l2 (eq_sym Hl2)) as (ls & -> & <-).
  by exists (l1 :: ls).
Qed.

Lemma ka_tails_spec known : ka_tails_of service known =
  if forallb (λ '(nm, _), cuts_between_chars service nm) known then Ok (map tail (known_entries known)) else Panic.
Proof.
  induction known as [|[nm ttl] known IH]; [done|]. cbn [ka_tails_of forallb]. rewrite known_label_spec, IH.
  destruct (cuts_between_chars service nm); [|done]. cbn [andb res_bind]. destruct (forallb _ known); [|done]. cbn [res_bind].
  unfold known_entries. cbn [omap list_omap]. by destruct (service_label service nm).
Qed.

Lemma known_entries_ok known : Forall (λ '(nm, ttl), from_utf8 nm = true ∧ in_u 32 ttl) known →
  forallb (λ '(nm, _), cuts_between_chars service nm) known = true → Forall entry_ok (known_entries known).
Proof.
  unfold known_entries. induction 1 as [|[nm ttl] known [Ht Hu] _ IH]; cbn; [constructor|]. intros [Hc Hk]%andb_true_iff.
  destruct (service_label service nm) as [l|] eqn:Hl; cbn; [|by apply IH]. constructor; [|by apply IH].
  split; [|done]. by eapply service_label_ok.
Qed.
End known_answers.

(** *** Queries *)

Definition question_wire (q : bytes * Z) : bytes := name_wire (fst q) ++ be16_bytes (snd q) ++ be16_bytes QU_CLASS_IN.

Lemma encode_query_ok {E} id qs : Forall (λ q, name_ok (fst q) = true) qs →
  encode_query (E:=E) id qs =
    Ok (be16_bytes id ++ be16_bytes 0 ++ be16_bytes (wrap 16 (zlen qs)) ++ be16_bytes 0 ++ be16_bytes 0 ++ be16_bytes 0 ++ concat (map question_wire qs)).
Proof.
  intros Hqs. unfold encode_query. assert (encode_questions (E:=E) qs = Ok (concat (map question_wire qs))) as ->; [|done].
  induction Hqs as [|[nm t] qs Hq _ IH]; [done|]. cbn [encode_questions map concat]. unfold encode_question. cbn [fst snd] in *.
  rewrite push_name_ok by done. cbn [res_bind]. rewrite IH. done.
Qed.

Lemma skip_one buf pre nm t c post : name_ok nm = true → buf = pre ++ (name_wire nm ++ be16_bytes t ++ be16_bytes c) ++ post →
  skip_questions 1 buf (zlen pre) = Ok (zlen pre + (zlen (name_wire nm) + 4)).
Proof.
  intros Hok Hbuf. cbn [skip_questions]. rewrite (read_name_at buf pre nm ((be16_bytes t ++ be16_bytes c) ++ post)) by (by rewrite ?Hbuf, <- ?app_assoc).
  cbn [res_bind]. assert (zlen buf = zlen pre + zlen (name_wire nm) + 4 + zlen post) as Hz.
  { rewrite Hbuf. rewrite (zlen_app pre), (zlen_app (_ ++ _)), (zlen_app (name_wire nm)), (zlen_app (be16_bytes t)), !zlen_be16. lia. }
  pose proof (zlen_nonneg post). rewrite (proj2 (Z.ltb_ge _ _)) by lia. f_equal. lia.
Qed.

(** The query without known answers. *)
Lemma lone_query {E} nm t : name_ok nm = true → in_u 16 t → ∃ q, encode_query (E:=E) 0 [(nm, t)] = Ok q ∧
  parse_message q = Ok [] ∧ zlen q = 12 + zlen (name_wire nm) + 4 ∧ zslice 0 6 q = be16_bytes 0 ++ be16_bytes 0 ++ be16_bytes 1.
Proof.
  intros Hok Ht. eexists. split; [apply encode_query_ok; by repeat constructor|]. cbn [map concat]. rewrite app_nil_r.
  change (wrap 16 (zlen [(nm, t)])) with 1. unfold question_wire. cbn [fst snd]. split_and!.
  - rewrite parse_message_at by (done || unfold in_u; lia). set (buf := be16_bytes 0 ++ _). change (Z.to_nat 1) with 1%nat.
    set (h := be16_bytes 0 ++ be16_bytes 0 ++ be16_bytes 1 ++ be16_bytes 0 ++ be16_bytes 0 ++ be16_bytes 0).
    change 12 with (zlen h). rewrite (skip_one buf h nm t QU_CLASS_IN []); [done|done|]. unfold buf, h. by rewrite app_nil_r, <- !app_assoc.
  - repeat rewrite (zlen_app (be16_bytes _)). rewrite (zlen_app (name_wire nm)), (zlen_app (be16_bytes t)), !zlen_be16. lia.
  - done.
Qed.

(** The query, over the entries that are well-formed. *)
Lemma encode_known_eq service known : name_ok service = true →
  encode_ptr_query_with_known service known =
  if forallb (λ '(nm, _), cuts_between_chars service nm) known then
    let question := name_wire service ++ be16_bytes TYPE_PTR ++ be16_bytes CLASS_IN in
    match map (λ e, ka_tail (fst e) (snd e)) (known_entries service known) with
    | [] => let? q := encode_query 0 [(service, TYPE_PTR)] in Ok [q]
    | tails =>
        let? g := place_all (zlen (name_wire service)) tails {| closed := []; open_ := []; current_size := 12 + zlen question |} in
        Ok (imap (ka_packet (name_wire service) question (length (closed g ++ [open_ g]))) (closed g ++ [open_ g]))
    end
  else Panic.
Proof.
  intros Hok. pose proof (ka_tails_spec service known) as Ht. unfold encode_ptr_query_with_known. rewrite push_name_ok by done. cbn [res_bind].
  destruct known as [|e known]; [reflexivity|]. rewrite Ht. destruct (forallb _ _); [|done]. cbn [res_bind]. by destruct (map _ _).
Qed.

(** Entries under the service, well-formed, are encoded. *)
Lemma encode_known_ok service known : name_ok service = true → zlen (name_wire service) ≤ 255 →
  Forall (λ '(nm, ttl), ∃ l, nm = l ++ 46 :: service ∧ label_ok l = true ∧ in_u 32 ttl) known →
  ∃ packets, encode_ptr_query_with_known service known = Ok packets.
Proof.
  intros Hok Hlen Hk.
  assert (forallb (λ '(nm, _), cuts_between_chars service nm) known = true ∧ Forall entry_ok (known_entries service known)) as [Hc He].
  { induction Hk as [|[nm ttl] known (l & -> & Hl & Ht) _ [IH1 IH2] ]; [split; [done|constructor]|].
    assert (zlen (l ++ 46 :: service) - zlen (46 :: service) = zlen l) as Hz by (rewrite zlen_app; lia).
    destruct (label_ok_small l Hl) as [Hll _]. split.
    - cbn [forallb]. rewrite IH1, andb_true_r. unfold cuts_between_chars. rewrite Hz. unfold is_char_boundary.
      rewrite (proj2 (Z.eqb_neq _ 0)) by lia.
      assert ((l ++ 46 :: service) !! Z.to_nat (zlen l) = Some 46) as -> by (unfold zlen; rewrite Nat2Z.id; by apply list_lookup_middle).
      by rewrite orb_true_r.
    - unfold known_entries. cbn [omap list_omap]. unfold service_label. rewrite Hz. rewrite (proj2 (Z.leb_le 1 _)), (proj2 (Z.leb_le _ 63)) by lia.
      assert (zslice (zlen l) (zlen (l ++ 46 :: service)) (l ++ 46 :: service) = 46 :: service) as ->.
      { pose proof (zslice_app_mid l (46 :: service) []) as H. rewrite app_nil_r in H. by rewrite zlen_app. }
      rewrite eqic_refl. cbn [andb]. cbn [fmap option_fmap option_map]. constructor; [|exact IH2]. rewrite zslice_0_app. done. }
  rewrite encode_known_eq, Hc by done. cbv zeta. destruct (known_entries service known) as [|e es].
  { cbn [map]. destruct (lone_query (E:=Empty_set) service TYPE_PTR Hok) as (q & -> & _); [done|]. by eexists. }
  cbn [map]. destruct (pack_all service Hlen (ka_tail (fst e) (snd e)) (map (λ e, ka_tail (fst e) (snd e)) es)) as (g & -> & _).
  { apply (List.Forall_map (λ e, ka_tail (fst e) (snd e)) _ (e :: es)). eapply Forall_impl; [exact He|]. intros x [Hx _].
    cbv beta. destruct (ka_tail_record x Hx) as [_ ?]. lia. }
  by eexists.
Qed.

(** C39. A browser's repeated query tells responders exactly what it already
    knows: the packets parse back to the known answers of the service, in order
    and with their lifetimes, each once; every packet stays within the budget
    of 1400 bytes; only the first asks the question and all but the last carry
    the truncation flag.  The one exception is a name whose suffix of the
    service's length begins inside a character: [split_at] panics. *)
Theorem known_answers_carried service known :
  name_ok service = true → zlen (name_wire service) ≤ 255 →
  Forall (λ '(nm, ttl), from_utf8 nm = true ∧ in_u 32 ttl) known →
  if forallb (λ '(nm, _), cuts_between_chars service nm) known then
    ∃ packets rss, encode_ptr_query_with_known service known = Ok packets ∧
      Forall2 (λ p rs, parse_message p = Ok rs) packets rss ∧
      concat rss = map (known_record service) (known_entries service known) ∧
      Forall (λ p, zlen p ≤ KNOWN_ANSWER_PACKET_BUDGET) packets ∧
      ∀ i p, packets !! i = Some p →
        zslice 0 6 p = be16_bytes 0 ++ be16_bytes (if (i + 1 <? length packets)%nat then 0x0200 else 0) ++
                       be16_bytes (if (i =? 0)%nat then 1 else 0)
  else encode_ptr_query_with_known service known = Panic.
Proof.
  intros Hok Hlen Hknown. pose proof (known_entries_ok service known Hknown) as Hes. rewrite encode_known_eq by done. cbv zeta.
  destruct (forallb _ known); [|done]. specialize (Hes eq_refl).
  set (es := known_entries service known) in *. clearbody es.
  destruct (lone_query (E:=Empty_set) service TYPE_PTR Hok) as (q & Hq & Hp & Hz & Hf); [done|].
  destruct es as [|e es].
  { cbn [map]. rewrite Hq. cbn [res_bind]. exists [q], [ [] ]. split_and!; [done|by repeat constructor|done| |].
    - constructor; [|done]. unfold KNOWN_ANSWER_PACKET_BUDGET. lia.
    - intros i p Hi. apply list_lookup_singleton_Some in Hi as [-> <-]. done. }
  cbn [map]. destruct (pack_all service Hlen (ka_tail (fst e) (snd e)) (map (λ e, ka_tail (fst e) (snd e)) es)) as (g & Hg & Hcat & Hc & _).
  { apply (List.Forall_map (λ e, ka_tail (fst e) (snd e)) _ (e :: es)). eapply Forall_impl; [exact Hes|]. intros x [Hx _].
    cbv beta. destruct (ka_tail_record x Hx) as [_ ?]. lia. }
  rewrite Hg. cbn [res_bind]. clear Hg. set (gs := closed g ++ [open_ g]) in *. clearbody gs.
  change (ka_tail (fst e) (snd e) :: _) with (map (λ e, ka_tail (fst e) (snd e)) (e :: es)) in Hcat.
  destruct (concat_map_inv _ gs (e :: es) Hcat) as (ls & -> & Hls). clear Hcat.
  eexists _, (map (map (known_record service)) ls). split; [done|]. split_and!.
  - apply Forall2_same_length_lookup_2; [by rewrite length_imap, !length_map|]. intros i p rs Hi Hrs.
    rewrite list_lookup_imap in Hi. rewrite !list_lookup_fmap in *. destruct (ls !! i) as [l|] eqn:Hl; [|done]. cbn in Hi, Hrs.
    injection Hi as <-. injection Hrs as <-. destruct (Hc i (map (λ e, ka_tail (fst e) (snd e)) l)) as [Hne Hsz].
    { by rewrite list_lookup_fmap, Hl. }
    apply packet_parses; [done|done| |by intros ->|done]. rewrite <- Hls in Hes.
    apply Forall_concat in Hes. by eapply Forall_lookup_1 in Hes.
  - rewrite <- concat_map. by rewrite Hls.
  - apply Forall_lookup. intros i p Hi. rewrite list_lookup_imap, list_lookup_fmap in Hi.
    destruct (ls !! i) as [l|] eqn:Hl; [|done]. injection Hi as <-. rewrite zlen_packet.
    apply (Hc i (map (λ e, ka_tail (fst e) (snd e)) l)). by rewrite list_lookup_fmap, Hl.
  - intros i p Hi. rewrite list_lookup_imap in Hi. destruct (_ !! i) as [l|]; [|done]. injection Hi as <-. rewrite length_imap. done.
Qed.

(** One known instance is carried; a name that [split_at] would cut inside a
    three-byte character is not. *)
Lemma known_answers_carried_witness :
  (∃ packets rss, encode_ptr_query_with_known (ascii "_matterc._udp.local") [(ascii "DEV01._matterc._udp.local", 4500)] = Ok packets ∧
    Forall2 (λ p rs, parse_message p = Ok rs) packets rss ∧
    concat rss = [ {| name := ascii "_matterc._udp.local"; rdata := Ptr (ascii "DEV01._matterc._udp.local"); ttl := 4500; cache_flush := false |} ]) ∧
  encode_ptr_query_with_known (ascii "_matterc._udp.local") [(concat (replicate 10 [0xE3; 0x81; 0x82]), 4500)] = Panic.
Proof.
  split.
  - destruct (known_answers_carried (ascii "_matterc._udp.local") [(ascii "DEV01._matterc._udp.local", 4500)])
      as (packets & rss & H1 & H2 & H3 & _); [reflexivity|vm_compute; discriminate|repeat constructor; vm_compute; done|].
    exists packets, rss. by split_and!.
  - apply (known_answers_carried (ascii "_matterc._udp.local") [(concat (replicate 10 [0xE3; 0x81; 0x82]), 4500)]);
      [reflexivity|vm_compute; discriminate|repeat constructor; vm_compute; done].
Defined.
