(* ===== verification/MdnsRecords.v ===== *)
(** * The device's service records and its advertiser

    Models [crates/mat-device/src/core/mdns_records.rs] (records, responses,
    announcements and goodbyes, the parser of questions) and the advertiser of
    [net/mdns.rs]: its adverts and what each method sends.  Messages built here
    are read back by the controller's parser ([Dns.parse_message]), questions
    built there by the parser here. *)

From Stdlib Require Import String.
From stdpp Require Import gmap.
From S2P Require Import Prelude Tlv TlvValue Fabrics Certs X509 Dns.

Open Scope string_scope.
Open Scope list_scope.
Open Scope Z_scope.

(** ** Records *)

Definition CACHE_FLUSH : Z := 0x8000.
Definition QU_BIT : Z := 0x8000.
Definition HOST_TTL : Z := 120.
Definition PTR_TXT_TTL : Z := 4500.

Record CommissionableAdvert := {
  ca_instance : bytes;
  ca_hostname : bytes;
  ca_discriminator : Z;
  ca_vendor_id : Z;
  ca_product_id : Z;
  ca_port : Z;
  ca_addr_v6 : bytes;
  ca_cm : Z
}.

Record OperationalAdvert := {
  oa_compressed_fabric_id : bytes;
  oa_node_id : Z;
  oa_hostname : bytes;
  oa_port : Z;
  oa_addr_v6 : bytes
}.

Inductive Rr :=
  | RrPtr (owner target : bytes) (ttl : Z)
  | RrSrv (owner target : bytes) (port ttl : Z)
  | RrTxt (owner : bytes) (strings : list bytes) (ttl : Z)
  | RrAaaa (owner addr : bytes) (ttl : Z).

Definition is_shared (rr : Rr) : bool := match rr with RrPtr _ _ _ => true | _ => false end.
Definition rr_owner (rr : Rr) : bytes :=
  match rr with RrPtr o _ _ | RrSrv o _ _ _ | RrTxt o _ _ | RrAaaa o _ _ => o end.
Definition rr_ttl (rr : Rr) : Z :=
  match rr with RrPtr _ _ t | RrSrv _ _ _ t | RrTxt _ _ t | RrAaaa _ _ t => t end.
Definition rr_type (rr : Rr) : Z :=
  match rr with
  | RrPtr _ _ _ => TYPE_PTR | RrSrv _ _ _ _ => TYPE_SRV | RrTxt _ _ _ => TYPE_TXT | RrAaaa _ _ _ => TYPE_AAAA
  end.

(** The device's own [push_name]: [debug_assert!], then at most 63 bytes. *)
Definition push_label {E} (label : bytes) : res E bytes :=
  if (1 <=? zlen label) && (zlen label <=? 63) then
    let len := Z.min (zlen label) 63 in Ok (len :: zslice 0 len label)
  else Panic.
Fixpoint push_labels {E} (labels : list bytes) : res E bytes :=
  match labels with
  | [] => Ok []
  | label :: rest =>
      let? a := push_label label in
      let? b := push_labels rest in
      Ok (a ++ b)
  end.
Definition push_name {E} (name : bytes) : res E bytes :=
  let? labels := push_labels (split_on 46 name) in Ok (labels ++ [0]).

Definition push_txt (s : bytes) : bytes := let len := Z.min (zlen s) 255 in len :: zslice 0 len s.
Definition rr_rdata {E} (rr : Rr) : res E bytes :=
  match rr with
  | RrPtr _ target _ => push_name target
  | RrSrv _ target port _ =>
      let? name := push_name target in Ok (be16_bytes 0 ++ be16_bytes 0 ++ be16_bytes port ++ name)
  | RrTxt _ strings _ => Ok (concat (map push_txt strings))
  | RrAaaa _ addr _ => Ok addr
  end.

(** What [push_rr] appends. *)
Definition push_rr {E} (rr : Rr) (cache_flush : bool) : res E bytes :=
  let? owner := push_name (rr_owner rr) in
  let class := Z.lor CLASS_IN (if cache_flush then CACHE_FLUSH else 0) in
  let? rdata := rr_rdata rr in
  Ok (owner ++ be16_bytes (rr_type rr) ++ be16_bytes class ++ be32_bytes (rr_ttl rr) ++
      be16_bytes (wrap 16 (zlen rdata)) ++ rdata).

Fixpoint push_rrs {E} (unicast : bool) (rrs : list Rr) : res E bytes :=
  match rrs with
  | [] => Ok []
  | rr :: rrs =>
      let? a := push_rr rr (negb unicast && negb (is_shared rr)) in
      let? b := push_rrs unicast rrs in
      Ok (a ++ b)
  end.

Definition encode_message {E} (answers additionals : list Rr) (unicast : bool) : res E bytes :=
  let? a := push_rrs unicast answers in
  let? b := push_rrs unicast additionals in
  Ok (be16_bytes 0 ++ be16_bytes 0x8400 ++ be16_bytes 0 ++ be16_bytes (wrap 16 (zlen answers)) ++
      be16_bytes 0 ++ be16_bytes (wrap 16 (zlen additionals)) ++ a ++ b).

(** ** Services *)

Record ServiceRecords := {
  sr_ptr_owners : list bytes;
  sr_instance_full : bytes;
  sr_host_full : bytes;
  sr_port : Z;
  sr_txt : list bytes;
  sr_addr_v6 : bytes
}.

Definition MATTERC_SERVICE : bytes := ascii "_matterc._udp.local".
Definition MATTER_SERVICE : bytes := ascii "_matter._tcp.local".
Definition host_full (hostname : bytes) : bytes := hostname ++ ascii ".local".
(** [format!("_L{}._sub._matterc._udp.local", ..)], and with [_S]. *)
Definition long_subtype (discriminator : Z) : bytes := ascii "_L" ++ format_dec 1 discriminator ++ ascii "._sub._matterc._udp.local".
Definition short_subtype (short : Z) : bytes := ascii "_S" ++ format_dec 1 short ++ ascii "._sub._matterc._udp.local".

Definition commissionable_records (ad : CommissionableAdvert) : ServiceRecords :=
  let short := wrap 8 (Z.shiftr (ca_discriminator ad) 8) in
  {| sr_ptr_owners := [MATTERC_SERVICE; long_subtype (ca_discriminator ad); short_subtype short];
     sr_instance_full := ca_instance ad ++ ascii "._matterc._udp.local";
     sr_host_full := host_full (ca_hostname ad);
     sr_port := ca_port ad;
     sr_txt := [ascii "D=" ++ format_dec 1 (ca_discriminator ad);
                ascii "VP=" ++ format_dec 1 (ca_vendor_id ad) ++ ascii "+" ++ format_dec 1 (ca_product_id ad);
                ascii "CM=" ++ format_dec 1 (ca_cm ad);
                ascii "SII=300";
                ascii "SAI=300"];
     sr_addr_v6 := ca_addr_v6 ad |}.

Definition operational_records (ad : OperationalAdvert) : ServiceRecords :=
  let instance := operational_instance (oa_compressed_fabric_id ad) (oa_node_id ad) in
  {| sr_ptr_owners := [MATTER_SERVICE];
     sr_instance_full := instance ++ ascii "._matter._tcp.local";
     sr_host_full := host_full (oa_hostname ad);
     sr_port := oa_port ad;
     sr_txt := [ascii "SII=300"; ascii "SAI=300"];
     sr_addr_v6 := oa_addr_v6 ad |}.

Definition sr_srv (s : ServiceRecords) (ttl : Z) : Rr := RrSrv (sr_instance_full s) (sr_host_full s) (sr_port s) ttl.
Definition sr_txt_rr (s : ServiceRecords) (ttl : Z) : Rr := RrTxt (sr_instance_full s) (sr_txt s) ttl.
Definition sr_aaaa (s : ServiceRecords) (ttl : Z) : Rr := RrAaaa (sr_host_full s) (sr_addr_v6 s) ttl.

Definition respond {E} (s : ServiceRecords) (q_name : bytes) (unicast : bool) : res E (option bytes) :=
  let srv := sr_srv s HOST_TTL in
  let txt := sr_txt_rr s PTR_TXT_TTL in
  let aaaa := sr_aaaa s HOST_TTL in
  if existsb (eq_ignore_ascii_case q_name) (sr_ptr_owners s) then
    let ptr := RrPtr q_name (sr_instance_full s) PTR_TXT_TTL in
    let? m := encode_message [ptr] [srv; txt; aaaa] unicast in Ok (Some m)
  else if eq_ignore_ascii_case q_name (sr_instance_full s) then
    let? m := encode_message [srv; txt] [aaaa] unicast in Ok (Some m)
  else if eq_ignore_ascii_case q_name (sr_host_full s) then
    let? m := encode_message [aaaa] [] unicast in Ok (Some m)
  else Ok None.

(** What [push_all] appends. *)
Definition push_all (s : ServiceRecords) (ttl : Z → Z) : list Rr :=
  map (λ owner, RrPtr owner (sr_instance_full s) (ttl PTR_TXT_TTL)) (sr_ptr_owners s) ++
  [sr_srv s (ttl HOST_TTL); sr_txt_rr s (ttl PTR_TXT_TTL); sr_aaaa s (ttl HOST_TTL)].

Definition encode_commissionable_response {E} (q_name : bytes) (ad : CommissionableAdvert) (unicast : bool) : res E (option bytes) :=
  respond (commissionable_records ad) q_name unicast.
Definition encode_operational_response {E} (q_name : bytes) (ad : OperationalAdvert) (unicast : bool) : res E (option bytes) :=
  respond (operational_records ad) q_name unicast.

Definition announced (commissionable : option CommissionableAdvert) (operational : list OperationalAdvert) : list ServiceRecords :=
  match commissionable with Some ad => [commissionable_records ad] | None => [] end ++ map operational_records operational.

Definition encode_announcement_or_goodbye {E} (commissionable : option CommissionableAdvert)
    (operational : list OperationalAdvert) (ttl_override : option Z) : res E bytes :=
  let ttl := λ normal, default normal ttl_override in
  encode_message (concat (map (λ s, push_all s ttl) (announced commissionable operational))) [] false.
Definition encode_unsolicited_announcement {E} commissionable operational : res E bytes :=
  encode_announcement_or_goodbye commissionable operational None.
Definition encode_goodbye {E} commissionable operational : res E bytes :=
  encode_announcement_or_goodbye commissionable operational (Some 0).

(** ** Questions *)

Fixpoint read_name_loop (fuel : nat) (buf : bytes) (pos : Z) (out : bytes) (next : option Z) (hops : Z) :
    fin (option (bytes * Z)) :=
  match fuel with
  | O => OutOfFuel
  | S fuel =>
      match get_at buf pos with
      | None => Ok None
      | Some len =>
          if len =? 0 then Ok (Some (out, default (pos + 1) next))
          else if Z.land len 0xC0 =? 0xC0 then
            match get_at buf (pos + 1) with
            | None => Ok None
            | Some lo =>
                let next := Some (default (pos + 2) next) in
                let pos := Z.lor (Z.shiftl (Z.land len 0x3F) 8) lo in
                let hops := hops + 1 in
                if 32 <? hops then Ok None else read_name_loop fuel buf pos out next hops
            end
          else if negb (Z.land len 0xC0 =? 0) then Ok None
          else
            match get_range buf (pos + 1) (pos + 1 + len) with
            | None => Ok None
            | Some label => read_name_loop fuel buf (pos + (1 + len)) (push_dotted out label) next hops
            end
      end
  end.
Definition read_name (buf : bytes) (pos : Z) : fin (option (bytes * Z)) :=
  read_name_loop (name_fuel buf) buf pos [] None 0.

Fixpoint questions_loop (qd : nat) (buf : bytes) (pos : Z) : fin (list (bytes * Z * bool)) :=
  match qd with
  | O => Ok []
  | S qd =>
      let? r := read_name buf pos in
      match r with
      | None => Ok []
      | Some (name, p) =>
          match get_range buf p (p + 2), get_range buf (p + 2) (p + 4) with
          | Some qtype_bytes, Some qclass_bytes =>
              let qtype := le_val (rev qtype_bytes) in
              let qclass := le_val (rev qclass_bytes) in
              let? rest := questions_loop qd buf (p + 4) in
              Ok ((name, qtype, negb (Z.land qclass QU_BIT =? 0)) :: rest)
          | _, _ => Ok []
          end
      end
  end.
Definition parse_questions (buf : bytes) : fin (list (bytes * Z * bool)) :=
  if zlen buf <? 12 then Ok []
  else questions_loop (Z.to_nat (le_val (rev (zslice 4 6 buf)))) buf 12.

(** ** The advertiser

    [sent] is what was handed to the socket: the message, where to, and whether
    it is the repetition a second later.  Send errors are ignored by the code. *)

Inductive Dest := Multicast | Unicast (peer : Z).
Record Sent := { sent_msg : bytes; sent_to : Dest; sent_later : bool }.
Record MdnsAdvertiser := {
  commissionable : option CommissionableAdvert;
  operational : list OperationalAdvert;
  sent : list Sent
}.
Definition MdnsAdvertiser_new : MdnsAdvertiser := {| commissionable := None; operational := []; sent := [] |}.

Abbreviation A := (M MdnsAdvertiser Empty_set).

Definition post (m : list Sent) : A () :=
  modify (λ s, {| commissionable := commissionable s; operational := operational s; sent := sent s ++ m |}).
Definition send_doubled (msg : bytes) : A () :=
  post [ {| sent_msg := msg; sent_to := Multicast; sent_later := false |};
         {| sent_msg := msg; sent_to := Multicast; sent_later := true |} ].

Definition announce : A () :=
  let! s := get in
  let! msg := lift (encode_unsolicited_announcement (commissionable s) (operational s)) in
  send_doubled msg.

Definition set_commissionable (ad : option CommissionableAdvert) : A () :=
  let! s := get in
  match ad, commissionable s with
  | None, Some old =>
      let! goodbye := lift (encode_goodbye (Some old) []) in
      send_doubled goodbye
  | _, _ => ret ()
  end ;;!
  modify (λ s, {| commissionable := ad; operational := operational s; sent := sent s |}) ;;!
  announce.

Definition add_operational (ad : OperationalAdvert) : A () :=
  modify (λ s, {| commissionable := commissionable s; operational := operational s ++ [ad]; sent := sent s |}) ;;!
  announce.

(** [compressed_fabric_id] is a [u64] here, its bytes in the advert. *)
Definition advert_is (compressed_fabric_id node_id : Z) (ad : OperationalAdvert) : bool :=
  bool_decide (oa_compressed_fabric_id ad = be_bytes 8 compressed_fabric_id) && (oa_node_id ad =? node_id).
Definition remove_operational (compressed_fabric_id node_id : Z) : A () :=
  let! s := get in
  match List.find (advert_is compressed_fabric_id node_id) (operational s) with
  | None => ret ()
  | Some target =>
      let! goodbye := lift (encode_goodbye None [target]) in
      send_doubled goodbye ;;!
      modify (λ s, {| commissionable := commissionable s;
                      operational := List.filter (λ ad, negb (advert_is compressed_fabric_id node_id ad)) (operational s);
                      sent := sent s |})
  end.

(** The responses to one question name. *)
Definition send_response (m : option bytes) (target : Dest) : A () :=
  match m with
  | Some msg => post [ {| sent_msg := msg; sent_to := target; sent_later := false |} ]
  | None => ret ()
  end.
Fixpoint answer_operational (name : bytes) (qu : bool) (target : Dest) (ads : list OperationalAdvert) : A () :=
  match ads with
  | [] => ret ()
  | ad :: ads =>
      let! m := lift (encode_operational_response name ad qu) in
      send_response m target ;;!
      answer_operational name qu target ads
  end.
Definition answer_name (name : bytes) (qu : bool) (target : Dest) : A () :=
  let! s := get in
  match commissionable s with
  | Some ad => let! m := lift (encode_commissionable_response name ad qu) in send_response m target
  | None => ret ()
  end ;;!
  answer_operational name qu target (operational s).

Fixpoint answer (questions : list (bytes * Z * bool)) (answered : list bytes) (from : Z) : A () :=
  match questions with
  | [] => ret ()
  | (name, _, qu) :: questions =>
      if existsb (λ n, eq_ignore_ascii_case n name) answered then answer questions answered from
      else
        let target := if qu then Unicast from else Multicast in
        answer_name name qu target ;;!
        answer questions (answered ++ [name]) from
  end.

(** One turn of [serve] on a received datagram. *)
Definition serve_datagram (buf : bytes) (from : Z) : A () :=
  let! questions := lift (parse_questions buf) in
  match questions with
  | [] => ret ()
  | _ => answer questions [] from
  end.

(** ** The two parsers of names agree *)

Lemma read_name_loop_same fuel buf pos out next hops :
  read_name_loop fuel buf pos out next hops =
  match Dns.read_name_loop fuel buf pos out next hops with
  | Ok r => Ok (Some r) | Err _ => Ok None | Panic => Panic | OutOfFuel => OutOfFuel
  end.
Proof.
  revert pos out next hops. induction fuel as [|fuel IH]; intros pos out next hops; [done|].
  cbn [read_name_loop Dns.read_name_loop]. destruct (get_at buf pos) as [len|]; [|done]. cbn [ok_or res_bind].
  destruct (len =? 0); [done|]. destruct (Z.land len 0xC0 =? 0xC0).
  { destruct (get_at buf (pos + 1)) as [lo|]; [|done]. cbn [ok_or res_bind]. destruct (32 <? hops + 1); [done|]. apply IH. }
  destruct (negb _); [done|]. destruct (get_range buf _ _) as [l|]; [|done]. apply IH.
Qed.
Lemma read_name_same buf pos : read_name buf pos =
  match Dns.read_name buf pos with
  | Ok r => Ok (Some r) | Err _ => Ok None | Panic => Panic | OutOfFuel => OutOfFuel
  end.
Proof. apply read_name_loop_same. Qed.

Lemma push_label_same {E} l : push_label (E:=E) l = Dns.push_label l.
Proof.
  unfold push_label, Dns.push_label. destruct ((1 <=? zlen l) && (zlen l <=? 63)) eqn:H; [|done].
  rewrite Z.min_l by lia. by rewrite zslice_full.
Qed.
Lemma push_name_same {E} nm : push_name (E:=E) nm = Dns.push_name nm.
Proof.
  unfold push_name, Dns.push_name. f_equal. induction (split_on 46 nm) as [|l ls IH]; [done|].
  cbn [push_labels Dns.push_labels]. by rewrite push_label_same, IH.
Qed.
Lemma push_name_wire {E} nm : name_ok nm = true → push_name (E:=E) nm = Ok (name_wire nm).
Proof. intros H. rewrite push_name_same. by apply push_name_ok. Qed.

(** ** What is written is read *)

Definition rdata_wire (rr : Rr) : bytes :=
  match rr with
  | RrPtr _ target _ => name_wire target
  | RrSrv _ target port _ => be16_bytes 0 ++ be16_bytes 0 ++ be16_bytes port ++ name_wire target
  | RrTxt _ strings _ => concat (map push_txt strings)
  | RrAaaa _ addr _ => addr
  end.
Definition rr_rdata_of (rr : Rr) : RData :=
  match rr with
  | RrPtr _ target _ => Ptr target
  | RrSrv _ target port _ => Srv port target
  | RrTxt _ strings _ => Txt strings
  | RrAaaa _ addr _ => Aaaa addr
  end.
(** The record the controller sees. *)
Definition rr_record (unicast : bool) (rr : Rr) : DnsRecord :=
  {| name := rr_owner rr; rdata := rr_rdata_of rr; ttl := rr_ttl rr; cache_flush := negb unicast && negb (is_shared rr) |}.

Definition rr_ok (rr : Rr) : Prop :=
  name_ok (rr_owner rr) = true ∧ in_u 32 (rr_ttl rr) ∧ zlen (rdata_wire rr) < 2 ^ 16 ∧
  match rr with
  | RrPtr _ target _ => name_ok target = true
  | RrSrv _ target port _ => name_ok target = true ∧ in_u 16 port
  | RrTxt _ strings _ => Forall (λ s, zlen s ≤ 255) strings
  | RrAaaa _ addr _ => zlen addr = 16
  end.

Definition class_of (flush : bool) : Z := Z.lor CLASS_IN (if flush then CACHE_FLUSH else 0).
Definition rr_wire (unicast : bool) (rr : Rr) : bytes :=
  name_wire (rr_owner rr) ++ record_tail (rr_type rr) (class_of (negb unicast && negb (is_shared rr))) (rr_ttl rr) (rdata_wire rr).

Lemma push_rr_wire {E} unicast rr : rr_ok rr → push_rr (E:=E) rr (negb unicast && negb (is_shared rr)) = Ok (rr_wire unicast rr).
Proof.
  intros (Ho & Ht & Hd & Hk). unfold push_rr. rewrite push_name_wire by done. cbn [res_bind].
  assert (rr_rdata (E:=E) rr = Ok (rdata_wire rr)) as ->.
  { destruct rr; cbn [rr_rdata rdata_wire]; [by apply push_name_wire| |done|done]. destruct Hk as [Hk _]. by rewrite push_name_wire. }
  cbn [res_bind]. rewrite wrap_small; [done|]. split; [apply zlen_nonneg|done].
Qed.

Lemma push_rrs_wire {E} unicast rrs : Forall rr_ok rrs → push_rrs (E:=E) unicast rrs = Ok (concat (map (rr_wire unicast) rrs)).
Proof.
  induction 1 as [|rr rrs Hr _ IH]; [done|]. cbn [push_rrs map concat]. rewrite push_rr_wire by done. cbn [res_bind]. by rewrite IH.
Qed.

Lemma txt_loop_reads strings : Forall (λ s, zlen s ≤ 255) strings → ∀ data pre acc fuel,
  data = pre ++ concat (map push_txt strings) → (length strings < fuel)%nat →
  txt_loop fuel data (zlen pre) acc = Ok (acc ++ strings).
Proof.
  induction 1 as [|s strings Hs _ IH]; intros data pre acc fuel Hd Hf; (destruct fuel as [|fuel]; [lia|]); cbn [txt_loop].
  { unfold get_at, zlen. rewrite Nat2Z.id. cbn in Hd. rewrite app_nil_r in Hd. subst data. rewrite lookup_ge_None_2 by lia.
    by rewrite app_nil_r. }
  cbn [map concat] in Hd. unfold push_txt in Hd at 1. rewrite Z.min_l, zslice_full in Hd by done. cbn [app] in Hd.
  set (more := concat _) in *. assert (get_at data (zlen pre) = Some (zlen s)) as -> by (rewrite Hd; apply get_at_app).
  assert (data = (pre ++ [zlen s]) ++ s ++ more) as Hd2 by (rewrite Hd; by rewrite <- app_assoc).
  replace (zlen pre + 1) with (zlen (pre ++ [zlen s])) by (by rewrite zlen_app).
  rewrite Hd2 at 1. rewrite get_range_app by done. cbn [ok_or res_bind].
  replace (zlen pre + (1 + zlen s)) with (zlen (pre ++ zlen s :: s)) by (rewrite zlen_app, zlen_cons; lia).
  rewrite (IH data (pre ++ zlen s :: s) (acc ++ [s]) fuel); [by rewrite <- app_assoc|rewrite Hd; by rewrite <- app_assoc|cbn in Hf; lia].
Qed.

Lemma class_flush flush : in_u 16 (class_of flush) ∧ negb (Z.land (class_of flush) 0x8000 =? 0) = flush.
Proof. by destruct flush. Qed.

Lemma rdata_reads buf pre rr post : rr_ok rr → buf = pre ++ rdata_wire rr ++ post →
  parse_rdata buf (rr_type rr) (zlen pre) (rdata_wire rr) = Ok (rr_rdata_of rr).
Proof.
  intros (_ & _ & _ & Hk) Hbuf. unfold parse_rdata. destruct rr as [o t tl|o t p tl|o ss tl|o a tl]; cbn [rr_type rdata_wire rr_rdata_of] in *.
  - change (TYPE_PTR =? TYPE_PTR) with true. cbv iota. by rewrite (read_name_at buf pre t post).
  - change (TYPE_SRV =? TYPE_PTR) with false. change (TYPE_SRV =? TYPE_SRV) with true. cbv iota. destruct Hk as [Ht Hp].
    set (h := be16_bytes 0 ++ be16_bytes 0). set (data := be16_bytes 0 ++ _) in *.
    assert (data = h ++ be16_bytes p ++ name_wire t) as Hdata by (unfold data, h; by rewrite <- app_assoc).
    assert (7 ≤ zlen data) as Hl.
    { rewrite Hdata. rewrite (zlen_app h), (zlen_app (be16_bytes p)). change (zlen h) with 4. rewrite zlen_be16. unfold name_wire.
      rewrite (zlen_app (wire _)). change (zlen [0]) with 1. pose proof (zlen_nonneg (wire (split_on 46 t))). lia. }
    rewrite (proj2 (Z.ltb_ge _ _)) by lia.
    assert (zslice 4 6 data = be16_bytes p) as ->.
    { rewrite Hdata. change 4 with (zlen h). change 6 with (zlen h + zlen (be16_bytes p)). apply zslice_app_mid. }
    replace (zlen pre + 6) with (zlen (pre ++ h ++ be16_bytes p)) by (rewrite (zlen_app pre), (zlen_app h); change (zlen h) with 4; rewrite zlen_be16; lia).
    rewrite (read_name_at buf (pre ++ h ++ be16_bytes p) t post); [|done|rewrite Hbuf, Hdata; by rewrite <- !app_assoc].
    cbn [res_bind]. f_equal. f_equal. by apply (be_val 2).
  - change (TYPE_TXT =? TYPE_PTR) with false. change (TYPE_TXT =? TYPE_SRV) with false. change (TYPE_TXT =? TYPE_TXT) with true. cbv iota.
    rewrite (txt_loop_reads ss Hk _ [] []); [done|done|].
    assert (length ss ≤ length (concat (map push_txt ss)))%nat as Hl; [|lia].
    clear. induction ss as [|s ss IH]; [done|]. cbn. rewrite length_app. lia.
  - change (TYPE_AAAA =? TYPE_PTR) with false. change (TYPE_AAAA =? TYPE_SRV) with false. change (TYPE_AAAA =? TYPE_TXT) with false.
    change (TYPE_AAAA =? TYPE_AAAA) with true. cbv iota. by rewrite Hk.
Qed.

Lemma rrs_read unicast rrs : Forall rr_ok rrs → ∀ buf pre post, buf = pre ++ concat (map (rr_wire unicast) rrs) ++ post →
  parse_records (length rrs) buf (zlen pre) = Ok (map (rr_record unicast) rrs).
Proof.
  induction 1 as [|rr rrs Hr _ IH]; intros buf pre post Hbuf; [done|]. cbn [map concat length parse_records] in *.
  rewrite <- app_assoc in Hbuf. set (more := concat _) in *. unfold rr_wire in Hbuf. rewrite <- app_assoc in Hbuf.
  pose proof Hr as (Ho & Ht & Hd & Hk). destruct (class_flush (negb unicast && negb (is_shared rr))) as [Hc Hf].
  set (class := class_of _) in *. set (owner := name_wire (rr_owner rr)) in *.
  rewrite (parse_record_at buf pre owner (rr_owner rr) (rr_type rr) class (rr_ttl rr) (rdata_wire rr) (rr_rdata_of rr) (more ++ post));
    [|done|by apply (read_name_at buf pre (rr_owner rr) (record_tail (rr_type rr) class (rr_ttl rr) (rdata_wire rr) ++ more ++ post))| |by destruct rr|done|done|done].
  - cbn [res_bind]. rewrite Hf.
    replace (zlen pre + zlen owner + (10 + zlen (rdata_wire rr))) with
      (zlen (pre ++ owner ++ record_tail (rr_type rr) class (rr_ttl rr) (rdata_wire rr)))
      by (rewrite (zlen_app pre), (zlen_app owner), zlen_record_tail; lia).
    rewrite (IH buf (pre ++ owner ++ record_tail (rr_type rr) class (rr_ttl rr) (rdata_wire rr)) post); [done|].
    rewrite Hbuf. by rewrite <- !app_assoc.
  - set (h := pre ++ owner ++ be16_bytes (rr_type rr) ++ be16_bytes class ++ be32_bytes (rr_ttl rr) ++ be16_bytes (zlen (rdata_wire rr))).
    replace (zlen pre + zlen owner + 10) with (zlen h)
      by (unfold h; rewrite (zlen_app pre), (zlen_app owner), (zlen_app (be16_bytes _)), (zlen_app (be16_bytes _)), (zlen_app (be32_bytes _)); rewrite !zlen_be16, zlen_be32; lia).
    apply (rdata_reads buf h rr (more ++ post)); [done|]. rewrite Hbuf. unfold h, record_tail. by rewrite <- !app_assoc.
Qed.

(** Whatever records the device puts in a message, the controller reads
    back: same owners, types, lifetimes and contents, in order, answers before
    additionals; with the cache-flush bit exactly on the unique records of a
    multicast message. *)
Lemma encode_message_parses answers additionals unicast : Forall rr_ok (answers ++ additionals) →
  zlen answers < 2 ^ 16 → zlen additionals < 2 ^ 16 →
  ∃ b, encode_message (E:=Empty_set) answers additionals unicast = Ok b ∧
    parse_message b = Ok (map (rr_record unicast) (answers ++ additionals)).
Proof.
  intros Hok Ha Hb. pose proof Hok as [Hoka Hokb]%Forall_app. unfold encode_message. rewrite !push_rrs_wire by done. cbn [res_bind].
  pose proof (zlen_nonneg answers). pose proof (zlen_nonneg additionals). rewrite !wrap_small by done. eexists. split; [done|].
  rewrite <- concat_app, <- map_app. rewrite parse_message_at by done. set (buf := be16_bytes 0 ++ _).
  change (Z.to_nat 0) with 0%nat. cbn [skip_questions res_bind].
  replace (Z.to_nat (zlen answers + 0 + zlen additionals)) with (length (answers ++ additionals)) by (rewrite length_app; unfold zlen; lia).
  set (h := be16_bytes 0 ++ be16_bytes 0x8400 ++ be16_bytes 0 ++ be16_bytes (zlen answers) ++ be16_bytes 0 ++ be16_bytes (zlen additionals)).
  change 12 with (zlen h). apply (rrs_read unicast _ Hok buf h []). unfold buf, h. by rewrite app_nil_r, <- !app_assoc.
Qed.

Lemma zlen_name_wire nm : zlen (name_wire nm) = zlen nm + 2.
Proof.
  unfold name_wire. rewrite zlen_app. change (zlen [0]) with 1.
  assert (∀ ls : list bytes, zlen (wire ls) = zlen (concat (map (cons 46) ls))) as ->.
  { induction ls as [|l ls IH]; [done|]. unfold wire in *. cbn. rewrite !zlen_cons, !zlen_app, IH. done. }
  rewrite dots_split, zlen_cons. lia.
Qed.

Lemma encode_message_size {E} answers additionals unicast b : Forall rr_ok (answers ++ additionals) →
  encode_message (E:=E) answers additionals unicast = Ok b →
  zlen b = 12 + foldr (λ rr n, zlen (rr_owner rr) + 12 + zlen (rdata_wire rr) + n) 0 (answers ++ additionals).
Proof.
  intros Hok. pose proof Hok as [Hoka Hokb]%Forall_app. unfold encode_message. rewrite !push_rrs_wire by done. cbn [res_bind].
  intros <-%Ok_inj. rewrite <- concat_app, <- map_app.
  assert (∀ l, zlen (concat (map (rr_wire unicast) l)) = foldr (λ rr n, zlen (rr_owner rr) + 12 + zlen (rdata_wire rr) + n) 0 l) as Hl.
  { induction l as [|rr l IH]; [done|]. cbn [map concat foldr]. rewrite (zlen_app (rr_wire unicast rr)), IH. unfold rr_wire.
    rewrite (zlen_app (name_wire _)), zlen_record_tail. assert (zlen (name_wire (rr_owner rr)) = zlen (rr_owner rr) + 2) as ->; [|lia].
    apply zlen_name_wire. }
  repeat rewrite (zlen_app (be16_bytes _)). rewrite !zlen_be16, Hl. lia.
Qed.

(** ** Numbers in texts *)

Lemma digits_cons n v : 0 ≤ v < 10 * 10 ^ Z.of_nat n → digits 10 (1 + n) v = v / 10 ^ Z.of_nat n :: digits 10 n v.
Proof.
  intros Hv. rewrite digits_app by lia. assert (0 < 10 ^ Z.of_nat n) by (apply Z.pow_pos_nonneg; lia).
  change (digits 10 1 ?x) with [x mod 10]. cbn [app]. f_equal. apply Z.mod_small.
  split; [apply Z.div_pos; lia|apply Z.div_lt_upper_bound; lia].
Qed.

Lemma strip_zeros_digits n v : (1 ≤ n)%nat → 0 ≤ v < 10 ^ Z.of_nat n →
  ∃ m, (1 ≤ m ≤ n)%nat ∧ strip_zeros 1 (digits 10 n v) = digits 10 m v ∧ v < 10 ^ Z.of_nat m.
Proof.
  intros Hn. revert v. induction n as [|n IH]; intros v Hv; [lia|]. destruct n as [|n].
  { exists 1%nat. split; [lia|]. split; [|apply Hv]. cbn [digits app strip_zeros]. by repeat case_match. }
  change (S (S n)) with (1 + S n)%nat in *.
  rewrite Nat2Z.inj_add, Z.pow_add_r in Hv by lia. change (10 ^ Z.of_nat 1) with 10 in Hv.
  rewrite digits_cons by done. assert (0 < 10 ^ Z.of_nat (S n)) by (apply Z.pow_pos_nonneg; lia).
  destruct (Z.eq_dec (v / 10 ^ Z.of_nat (S n)) 0) as [H0|Hne].
  - assert (v < 10 ^ Z.of_nat (S n)) by (apply Z.div_small_iff in H0; lia). rewrite H0. cbn [strip_zeros].
    pose proof (length_digits 10 (S n) v) as Hl. rewrite (proj2 (Nat.ltb_lt _ _)) by (cbn [length]; lia).
    destruct (IH ltac:(lia) v ltac:(lia)) as (m & Hm & He & Hv'). exists m. split; [lia|done].
  - exists (1 + S n)%nat. split; [lia|]. rewrite (digits_cons (S n)) by done. split.
    + revert Hne. generalize (v / 10 ^ Z.of_nat (S n)) as d. by intros [|d|d] Hne.
    + rewrite Nat2Z.inj_add, Z.pow_add_r by lia. apply Hv.
Qed.

Lemma format_dec_digits v : 0 ≤ v < 10 ^ 20 →
  ∃ m, (1 ≤ m ≤ 20)%nat ∧ format_dec 1 v = map digit_char (digits 10 m v) ∧ v < 10 ^ Z.of_nat m.
Proof.
  intros Hv. destruct (strip_zeros_digits 20 v) as (m & Hm & He & Hlt); [lia|done|]. exists m. unfold format_dec. by rewrite He.
Qed.

Lemma decimal_char d : 0 ≤ d < 10 → 48 ≤ digit_char d ≤ 57 ∧ digit_char d - 48 = d.
Proof. intros Hd. unfold digit_char. rewrite (proj2 (Z.ltb_lt _ _)) by lia. lia. Qed.

Lemma u32_digits_dec m v acc : 0 ≤ acc → 0 ≤ v < 10 ^ Z.of_nat m → in_u 32 (acc * 10 ^ Z.of_nat m + v) →
  u32_digits acc (map digit_char (digits 10 m v)) = Some (acc * 10 ^ Z.of_nat m + v).
Proof.
  revert v acc. induction m as [|m IH]; intros v acc Hacc Hv Hin.
  { cbn in *. f_equal. lia. }
  change (S m) with (1 + m)%nat in *. rewrite Nat2Z.inj_add, Z.pow_add_r in * by lia. change (10 ^ Z.of_nat 1) with 10 in *.
  rewrite digits_cons by done. set (p := 10 ^ Z.of_nat m) in *. assert (0 < p) by (apply Z.pow_pos_nonneg; lia).
  assert (0 ≤ v / p < 10) as Hd by (split; [apply Z.div_pos; lia|apply Z.div_lt_upper_bound; lia]).
  pose proof (Z.div_mod v p ltac:(lia)) as Hdm. pose proof (Z.mod_pos_bound v p ltac:(lia)) as Hm.
  cbn [map u32_digits]. destruct (decimal_char (v / p) Hd) as [Hc Hc']. rewrite (proj2 (Z.leb_le _ _)), (proj2 (Z.leb_le _ _)) by lia.
  cbn [andb]. rewrite Hc'. assert (in_u 32 (10 * acc + v / p)) as Hu by (unfold in_u in *; nia).
  rewrite (proj2 (try_u_Some 32 _ _) (conj eq_refl Hu)). rewrite (digits_mod 10 m v) by lia. change (10 ^ Z.of_nat m) with p.
  rewrite IH; [f_equal; nia|lia|done|]. unfold in_u in *. nia.
Qed.

(** What the device prints the controller parses. *)
Lemma parse_u32_dec v : in_u 32 v → parse_u32 (format_dec 1 v) = Some v.
Proof.
  intros Hv. destruct (format_dec_digits v) as (m & Hm & -> & Hlt); [unfold in_u in Hv; lia|].
  assert (u32_digits 0 (map digit_char (digits 10 m v)) = Some v) as Hu.
  { rewrite u32_digits_dec; [done|lia|unfold in_u in Hv; lia|done]. }
  pose proof (digits_range 10 m v ltac:(lia)) as Hr. pose proof (length_digits 10 m v) as Hl. revert Hu Hr Hl.
  generalize (digits 10 m v). intros [|d ds] Hu Hr Hl; [cbn in Hl; lia|]. apply Forall_cons in Hr as [Hd _].
  destruct (decimal_char d Hd) as [Hc _]. cbn [map] in *. unfold parse_u32.
  assert (digit_char d ≠ 43) by lia. by repeat case_match; simplify_eq.
Qed.

Lemma ascii_plain s : Forall (λ c, 0 ≤ c < 0x80) s → from_utf8 s = true.
Proof. intros H. apply ascii_utf8. eapply Forall_impl; [exact H|]. intros c Hc. cbn in Hc. lia. Qed.

(** Letters, digits and the like: one label. *)
Definition plain (s : bytes) : Prop := Forall (λ c, 0 ≤ c < 0x80 ∧ c ≠ 46) s.
Lemma plain_name s : plain s → 1 ≤ zlen s ≤ 63 → name_ok s = true.
Proof.
  intros Hs Hl. unfold name_ok. rewrite split_on_free by (eapply Forall_impl; [exact Hs|by intros c [_ ?] ]). cbn [forallb].
  rewrite andb_true_r. unfold label_ok. rewrite !andb_true_iff. split_and!; [lia|lia|].
  apply ascii_plain. eapply Forall_impl; [exact Hs|by intros c [? _] ].
Qed.
Lemma format_dec_plain v : 0 ≤ v < 10 ^ 20 → plain (format_dec 1 v) ∧ 1 ≤ zlen (format_dec 1 v) ≤ 20.
Proof.
  intros Hv. destruct (format_dec_digits v Hv) as (m & Hm & -> & _). split.
  - apply List.Forall_map. eapply Forall_impl; [apply (digits_range 10); lia|]. intros d Hd. cbn in Hd. destruct (decimal_char d Hd). cbn. lia.
  - unfold zlen. rewrite length_map, length_digits. lia.
Qed.
Lemma format_hex_16 v : in_u 64 v → format_hex 16 v = map digit_char (digits 16 16 v).
Proof.
  intros Hv. unfold format_hex. f_equal. apply (strip_zeros_app 16 0). apply length_digits.
Qed.

(** ** Well-formed services *)

Ltac foralls := repeat (apply Forall_cons_2; [done|]); apply Forall_nil_2.

Definition ascii_only (s : bytes) : Prop := Forall (λ c, 0 ≤ c < 0x80) s.

Record service_ok (s : ServiceRecords) : Prop := {
  so_owners : Forall (λ o, name_ok o = true ∧ ascii_only o) (sr_ptr_owners s);
  so_instance : name_ok (sr_instance_full s) = true ∧ ascii_only (sr_instance_full s) ∧ zlen (sr_instance_full s) ≤ 100;
  so_host : name_ok (sr_host_full s) = true ∧ ascii_only (sr_host_full s) ∧ zlen (sr_host_full s) ≤ 100;
  so_port : in_u 16 (sr_port s);
  so_txt : Forall (λ t, zlen t ≤ 255) (sr_txt s) ∧ zlen (sr_txt s) ≤ 5;
  so_addr : zlen (sr_addr_v6 s) = 16
}.

Definition host_label (l : bytes) : Prop := plain l ∧ 1 ≤ zlen l ≤ 63.
Definition commissionable_ok (ad : CommissionableAdvert) : Prop :=
  host_label (ca_instance ad) ∧ host_label (ca_hostname ad) ∧ in_u 16 (ca_discriminator ad) ∧ in_u 16 (ca_vendor_id ad) ∧
  in_u 16 (ca_product_id ad) ∧ in_u 16 (ca_port ad) ∧ zlen (ca_addr_v6 ad) = 16 ∧ in_u 8 (ca_cm ad).
Definition operational_ok (ad : OperationalAdvert) : Prop :=
  bytes_ok (oa_compressed_fabric_id ad) ∧ zlen (oa_compressed_fabric_id ad) = 8 ∧ in_u 64 (oa_node_id ad) ∧
  host_label (oa_hostname ad) ∧ in_u 16 (oa_port ad) ∧ zlen (oa_addr_v6 ad) = 16.

Lemma plain_ascii s : plain s → ascii_only s.
Proof. intros Hs. eapply Forall_impl; [exact Hs|by intros c [? _] ]. Qed.
Lemma plain_app a b : plain a → plain b → plain (a ++ b).
Proof. intros. by apply Forall_app. Qed.

Lemma in_u_small w v : (w = 8 ∨ w = 16 ∨ w = 32) → in_u w v → 0 ≤ v < 10 ^ 20.
Proof. unfold in_u. intros [->|[->| ->] ] Hv; lia. Qed.

(** A host label before a service. *)
Lemma under_service l svc : host_label l → name_ok svc = true → ascii_only svc → zlen svc ≤ 30 →
  name_ok (l ++ 46 :: svc) = true ∧ ascii_only (l ++ 46 :: svc) ∧ zlen (l ++ 46 :: svc) ≤ 100.
Proof.
  intros [Hp Hl] Hs Ha Hz. split_and!.
  - by rewrite name_ok_app, plain_name, Hs.
  - apply Forall_app. split; [by apply plain_ascii|]. by constructor.
  - rewrite zlen_app, zlen_cons. lia.
Qed.

Lemma subtype_ok c v : c = 76 ∨ c = 83 → in_u 16 v →
  name_ok ([95; c] ++ format_dec 1 v ++ ascii "._sub._matterc._udp.local") = true ∧
  ascii_only ([95; c] ++ format_dec 1 v ++ ascii "._sub._matterc._udp.local").
Proof.
  intros Hc Hv. destruct (format_dec_plain v) as [Hp Hl]; [by eapply (in_u_small 16); [lia|]|].
  assert (plain ([95; c] ++ format_dec 1 v)) as Hp2.
  { apply plain_app; [|done]. repeat constructor; lia. }
  rewrite app_assoc. change (ascii "._sub._matterc._udp.local") with (46 :: ascii "_sub._matterc._udp.local"). split.
  - rewrite name_ok_app, plain_name; [done|done|]. rewrite zlen_app. change (zlen [95; c]) with 2. lia.
  - apply Forall_app. split; [by apply plain_ascii|]. by repeat constructor.
Qed.

Lemma commissionable_service_ok ad : commissionable_ok ad → service_ok (commissionable_records ad).
Proof.
  intros (Hi & Hh & Hd & Hv & Hp & Hport & Ha & Hcm). unfold commissionable_records. constructor; cbn [sr_ptr_owners sr_instance_full sr_host_full sr_port sr_txt sr_addr_v6].
  - repeat (apply Forall_cons; split).
    + split; [done|]. by repeat constructor.
    + apply (subtype_ok 76); [lia|done].
    + apply (subtype_ok 83); [lia|]. pose proof (wrap_in_u 8 (Z.shiftr (ca_discriminator ad) 8)). unfold in_u in *. lia.
    + constructor.
  - apply (under_service (ca_instance ad) MATTERC_SERVICE); [done|done|by repeat constructor|done].
  - apply (under_service (ca_hostname ad) (ascii "local")); [done|done|by repeat constructor|done].
  - done.
  - split; [|done].
    assert (∀ w v, (w = 8 ∨ w = 16 ∨ w = 32) → in_u w v → zlen (format_dec 1 v) ≤ 20) as Hdec.
    { intros w v Hw Hin. destruct (format_dec_plain v (in_u_small w v Hw Hin)). lia. }
    pose proof (Hdec 16 _ ltac:(lia) Hd). pose proof (Hdec 16 _ ltac:(lia) Hv). pose proof (Hdec 16 _ ltac:(lia) Hp).
    pose proof (Hdec 8 _ ltac:(lia) Hcm). repeat (apply Forall_cons; split); rewrite ?zlen_app; try done.
    + change (zlen (ascii "D=")) with 2. lia.
    + change (zlen (ascii "VP=")) with 3. change (zlen (ascii "+")) with 1. lia.
    + change (zlen (ascii "CM=")) with 3. lia.
  - done.
Qed.

Lemma hex16_label v : in_u 64 v → plain (format_hex 16 v) ∧ zlen (format_hex 16 v) = 16.
Proof.
  intros Hv. rewrite format_hex_16 by done. split.
  - apply List.Forall_map. eapply Forall_impl; [apply (digits_range 16); lia|]. intros d Hd. cbn in Hd. unfold digit_char. destruct (d <? 10) eqn:?; lia.
  - unfold zlen. by rewrite length_map, length_digits.
Qed.
Lemma cfid_u64 ad : operational_ok ad → in_u 64 (le_val (rev (oa_compressed_fabric_id ad))).
Proof. intros (Hb & Hl & _). by apply (le_val_rev_u 8). Qed.
Lemma operational_instance_label ad : operational_ok ad →
  host_label (operational_instance (oa_compressed_fabric_id ad) (oa_node_id ad)).
Proof.
  intros Hok. pose proof (cfid_u64 ad Hok) as Hc. destruct Hok as (_ & _ & Hn & _).
  destruct (hex16_label _ Hc) as [H1 L1]. destruct (hex16_label _ Hn) as [H2 L2]. unfold operational_instance. split.
  - apply plain_app; [done|]. apply plain_app; [|done]. repeat constructor; lia.
  - rewrite !zlen_app, L1, L2. done.
Qed.

Lemma operational_service_ok ad : operational_ok ad → service_ok (operational_records ad).
Proof.
  intros Hok. pose proof (operational_instance_label ad Hok) as Hi. destruct Hok as (_ & _ & _ & Hh & Hport & Ha).
  unfold operational_records. constructor; cbn [sr_ptr_owners sr_instance_full sr_host_full sr_port sr_txt sr_addr_v6].
  - constructor; [|constructor]. split; [done|]. by repeat constructor.
  - apply (under_service _ MATTER_SERVICE); [done|done|by repeat constructor|done].
  - apply (under_service (oa_hostname ad) (ascii "local")); [done|done|by repeat constructor|done].
  - done.
  - split; [by repeat constructor|done].
  - done.
Qed.

Lemma push_txt_bound strings : Forall (λ t, zlen t ≤ 255) strings → zlen (concat (map push_txt strings)) ≤ 256 * zlen strings.
Proof.
  induction 1 as [|x l Hx _ IH]; [done|]. cbn [map concat]. unfold push_txt at 1. rewrite Z.min_l, zslice_full by done.
  rewrite !zlen_app, !zlen_cons. lia.
Qed.

Lemma service_rrs s t1 t2 q : service_ok s → in_u 32 t1 → in_u 32 t2 → name_ok q = true →
  rr_ok (RrPtr q (sr_instance_full s) t1) ∧ rr_ok (sr_srv s t2) ∧ rr_ok (sr_txt_rr s t1) ∧ rr_ok (sr_aaaa s t2).
Proof.
  intros [Ho (Hi & _ & Li) (Hh & _ & Lh) Hp [Ht Lt] Ha] H1 H2 Hq. unfold rr_ok, sr_srv, sr_txt_rr, sr_aaaa.
  cbn [rr_owner rr_ttl rdata_wire]. split_and!; try done.
  - rewrite zlen_name_wire. lia.
  - rewrite !zlen_app, zlen_name_wire. autorewrite with mat. lia.
  - pose proof (push_txt_bound (sr_txt s) Ht). lia.
  - by rewrite Ha.
Qed.

Lemma push_all_ok s ttl : service_ok s → in_u 32 (ttl PTR_TXT_TTL) → in_u 32 (ttl HOST_TTL) → Forall rr_ok (push_all s ttl).
Proof.
  intros Hs H1 H2. unfold push_all. apply Forall_app. split.
  - apply List.Forall_map. eapply Forall_impl; [apply Hs|]. intros o [Ho _]. by apply (service_rrs s _ (ttl HOST_TTL) o).
  - assert (name_ok (sr_instance_full s) = true) as Hn by apply Hs.
    destruct (service_rrs s (ttl PTR_TXT_TTL) (ttl HOST_TTL) (sr_instance_full s) Hs H1 H2 Hn) as (_ & H3 & H4 & H5). foralls.
Qed.

(** *** A question's name may be in any case *)

Lemma lower_byte_46 c : 0 ≤ c → (lower_byte c =? 46) = (c =? 46).
Proof. intros Hc. unfold lower_byte. destruct ((65 <=? c) && (c <=? 90)) eqn:H; [|done]. lia. Qed.
Lemma split_on_lower s : ascii_only s → split_on 46 (to_ascii_lowercase s) = map to_ascii_lowercase (split_on 46 s).
Proof.
  induction 1 as [|c s Hc _ IH]; [done|]. cbn [to_ascii_lowercase map split_on]. change (map lower_byte s) with (to_ascii_lowercase s).
  rewrite lower_byte_46, IH by lia. destruct (c =? 46); [done|]. destruct (split_on 46 s) as [|l ls] eqn:Hs; [by apply split_on_nonempty in Hs|done].
Qed.
Lemma ascii_lower s : ascii_only s → ascii_only (to_ascii_lowercase s).
Proof.
  intros Hs. apply List.Forall_map. eapply Forall_impl; [exact Hs|]. intros c Hc. cbn in *. unfold lower_byte.
  destruct ((65 <=? c) && (c <=? 90)) eqn:H; lia.
Qed.
Lemma split_on_pieces s : ascii_only s → Forall ascii_only (split_on 46 s).
Proof.
  induction 1 as [|c s Hc _ IH]; cbn [split_on]; [apply Forall_cons_2; apply Forall_nil_2|].
  destruct (c =? 46); [by apply Forall_cons_2; [apply Forall_nil_2|]|].
  destruct (split_on 46 s) as [|l ls]; [apply Forall_cons_2; [|done]; apply Forall_cons_2; [done|apply Forall_nil_2]|].
  apply Forall_cons in IH as [Hl Hls]. apply Forall_cons_2; [by apply Forall_cons_2|done].
Qed.
Lemma name_ok_lower s : ascii_only s → name_ok (to_ascii_lowercase s) = name_ok s.
Proof.
  intros Hs. unfold name_ok. rewrite split_on_lower by done. pose proof (split_on_pieces s Hs) as Hp.
  induction Hp as [|l ls Hl _ IH]; [done|]. cbn [map forallb]. rewrite IH. f_equal. unfold label_ok.
  assert (zlen (to_ascii_lowercase l) = zlen l) as -> by (unfold zlen, to_ascii_lowercase; by rewrite length_map).
  by rewrite (ascii_plain _ (ascii_lower l Hl)), (ascii_plain _ Hl).
Qed.

Lemma eqic_name q o : bytes_ok q → eq_ignore_ascii_case q o = true → name_ok o = true → ascii_only o → name_ok q = true.
Proof.
  intros Hq He%eqic_spec Ho Ha. assert (ascii_only q) as Haq.
  { pose proof (ascii_lower o Ha) as Hl. rewrite <- He in Hl. apply List.Forall_map in Hl.
    assert (Forall (λ c, is_byte c ∧ 0 ≤ lower_byte c < 0x80) q) as Hb by (by apply Forall_and).
    eapply Forall_impl; [exact Hb|]. intros c [Hc Hc']. unfold is_byte, lower_byte in *.
    destruct ((65 <=? c) && (c <=? 90)) eqn:?; lia. }
  by rewrite <- name_ok_lower, He, name_ok_lower.
Qed.

(** *** Responses *)

Definition response_rrs (s : ServiceRecords) (q_name : bytes) : option (list Rr) :=
  let srv := sr_srv s HOST_TTL in
  let txt := sr_txt_rr s PTR_TXT_TTL in
  let aaaa := sr_aaaa s HOST_TTL in
  if existsb (eq_ignore_ascii_case q_name) (sr_ptr_owners s) then Some [RrPtr q_name (sr_instance_full s) PTR_TXT_TTL; srv; txt; aaaa]
  else if eq_ignore_ascii_case q_name (sr_instance_full s) then Some [srv; txt; aaaa]
  else if eq_ignore_ascii_case q_name (sr_host_full s) then Some [aaaa]
  else None.

Lemma respond_parses s q_name unicast : service_ok s → bytes_ok q_name →
  ∃ m, respond (E:=Empty_set) s q_name unicast = Ok m ∧
    match response_rrs s q_name with
    | Some rrs => ∃ b, m = Some b ∧ parse_message b = Ok (map (rr_record unicast) rrs)
    | None => m = None
    end.
Proof.
  intros Hs Hq. assert (name_ok (sr_instance_full s) = true) as Hn by apply Hs.
  destruct (service_rrs s PTR_TXT_TTL HOST_TTL (sr_instance_full s) Hs) as (_ & Hsrv & Htxt & Haaaa); [done..|].
  unfold respond, response_rrs. cbv zeta. destruct (existsb _ _) eqn:Hex.
  { apply existsb_exists in Hex as (o & Hin & He). pose proof (so_owners s Hs) as Ho. rewrite Forall_forall in Ho.
    apply list_elem_of_In in Hin. destruct (Ho o Hin) as [Hok Ha]. pose proof (eqic_name q_name o Hq He Hok Ha) as Hqn.
    destruct (service_rrs s PTR_TXT_TTL HOST_TTL q_name Hs) as (Hptr & _); [done..|].
    destruct (encode_message_parses [RrPtr q_name (sr_instance_full s) PTR_TXT_TTL] [sr_srv s HOST_TTL; sr_txt_rr s PTR_TXT_TTL; sr_aaaa s HOST_TTL] unicast)
      as (b & -> & Hb); [foralls|done|done|]. eexists. split; [done|]. by exists b. }
  clear Hex. destruct (eq_ignore_ascii_case q_name (sr_instance_full s)).
  { destruct (encode_message_parses [sr_srv s HOST_TTL; sr_txt_rr s PTR_TXT_TTL] [sr_aaaa s HOST_TTL] unicast)
      as (b & -> & Hb); [foralls|done|done|]. eexists. split; [done|]. by exists b. }
  destruct (eq_ignore_ascii_case q_name (sr_host_full s)); [|by exists None].
  destruct (encode_message_parses [sr_aaaa s HOST_TTL] [] unicast) as (b & -> & Hb); [foralls|done|done|].
  eexists. split; [done|]. by exists b.
Qed.

(** *** Questions *)

Lemma questions_read qs : Forall (λ q, name_ok (fst q) = true ∧ in_u 16 (snd q)) qs → ∀ buf pre post,
  buf = pre ++ concat (map question_wire qs) ++ post →
  questions_loop (length qs) buf (zlen pre) = Ok (map (λ '(nm, t), (nm, t, true)) qs).
Proof.
  induction 1 as [|[nm t] qs [Hn Ht] _ IH]; intros buf pre post Hbuf; [done|]. cbn [map concat length questions_loop fst snd] in *.
  unfold question_wire in Hbuf at 1. cbn [fst snd] in Hbuf. rewrite <- !app_assoc in Hbuf. set (more := concat _) in *.
  rewrite read_name_same, (read_name_at buf pre nm (be16_bytes t ++ be16_bytes QU_CLASS_IN ++ more ++ post)) by done.
  cbn [res_bind]. set (p := pre ++ name_wire nm). replace (zlen pre + zlen (name_wire nm)) with (zlen p) by (unfold p; by rewrite zlen_app).
  assert (get_range buf (zlen p) (zlen p + 2) = Some (be16_bytes t)) as ->.
  { rewrite Hbuf. unfold p. rewrite app_assoc. by apply get_range_app. }
  replace (zlen p + 2) with (zlen (p ++ be16_bytes t)) by (by rewrite zlen_app).
  assert (get_range buf (zlen (p ++ be16_bytes t)) (zlen p + 4) = Some (be16_bytes QU_CLASS_IN)) as ->.
  { rewrite Hbuf. unfold p. rewrite !app_assoc. rewrite <- !(app_assoc _ _ post), <- !(app_assoc _ _ (more ++ post)).
    apply get_range_app. rewrite (zlen_app (_ ++ _)), !zlen_be16. lia. }
  replace (zlen p + 4) with (zlen ((p ++ be16_bytes t) ++ be16_bytes QU_CLASS_IN)) by (rewrite !zlen_app, !zlen_be16; lia).
  rewrite (IH buf _ post) by (rewrite Hbuf; unfold p; by rewrite <- !app_assoc). cbn [res_bind].
  assert (le_val (rev (be16_bytes t)) = t) as -> by (by apply (be_val 2)). done.
Qed.

(** The device understands every query the controller encodes. *)
Lemma query_understood {E} id qs : Forall (λ q, name_ok (fst q) = true ∧ in_u 16 (snd q)) qs → zlen qs < 2 ^ 16 →
  ∃ b, encode_query (E:=E) id qs = Ok b ∧ parse_questions b = Ok (map (λ '(nm, t), (nm, t, true)) qs).
Proof.
  intros Hqs Hlen. eexists. split; [apply encode_query_ok; eapply Forall_impl; [exact Hqs|by intros q [? _] ]|].
  pose proof (zlen_nonneg qs). rewrite wrap_small by done. set (buf := be16_bytes id ++ _).
  set (h := be16_bytes id ++ be16_bytes 0 ++ be16_bytes (zlen qs) ++ be16_bytes 0 ++ be16_bytes 0 ++ be16_bytes 0).
  assert (buf = h ++ concat (map question_wire qs)) as Hbuf by (unfold buf, h; by rewrite <- !app_assoc).
  unfold parse_questions. assert (zlen buf = 12 + zlen (concat (map question_wire qs))) as Hz by (rewrite Hbuf; by rewrite zlen_app).
  pose proof (zlen_nonneg (concat (map question_wire qs))). rewrite (proj2 (Z.ltb_ge _ _)) by lia.
  assert (zslice 4 6 buf = be16_bytes (zlen qs)) as -> by done. rewrite (be_val 2) by done.
  unfold zlen at 1. rewrite Nat2Z.id. change 12 with (zlen h). apply (questions_read qs Hqs buf h []). by rewrite app_nil_r.
Qed.

(** Any datagram parses to questions with text names. *)
Lemma parse_questions_any buf : bytes_ok buf → ∃ qs, parse_questions buf = Ok qs ∧ Forall (λ '(nm, _, _), text nm) qs.
Proof.
  intros Hb. unfold parse_questions. destruct (zlen buf <? 12) eqn:Hl; [by exists []|].
  enough (∀ qd pos, 0 ≤ pos → ∃ qs, questions_loop qd buf pos = Ok qs ∧ Forall (λ '(nm, _, _), text nm) qs) as Hall by (by apply Hall).
  intros qd. induction qd as [|qd IH]; intros pos Hp; cbn [questions_loop]; [by exists []|]. rewrite read_name_same.
  pose proof (read_name_yields buf pos Hb Hp) as Hn. destruct (Dns.read_name buf pos) as [ [nm p]|e| |]; try done; [|by exists []].
  destruct Hn as (H1 & H2 & H3). cbn [res_bind]. destruct (get_range buf p (p + 2)) as [t|]; [|by exists []].
  destruct (get_range buf (p + 2) (p + 4)) as [c|]; [|by exists []]. destruct (IH (p + 4)) as (qs & -> & Hqs); [lia|].
  cbn [res_bind]. eexists. split; [done|]. by constructor.
Qed.

(** ** What peers hear

    A peer on the link keeps the instances it heard an SRV record of, until one
    with lifetime 0. *)

Abbreviation Names := (gset bytes).

Definition hear_record (live : Names) (r : DnsRecord) : Names :=
  match rdata r with
  | Srv _ _ => if ttl r =? 0 then live ∖ {[ name r ]} else live ∪ {[ name r ]}
  | _ => live
  end.
Definition hear (live : Names) (msg : bytes) : Names :=
  match parse_message msg with Ok rs => foldl hear_record live rs | _ => live end.

(** The first copies of what was sent, in order, or the repeats. *)
Definition copies (later : bool) (m : list Sent) : list bytes := map sent_msg (List.filter (λ m, Bool.eqb later (sent_later m)) m).

Section copies.
Context (later : bool).

Definition hear_sent (live : Names) (m : list Sent) : Names := foldl hear live (copies later m).
Definition heard (s : MdnsAdvertiser) : Names := hear_sent ∅ (sent s).

Definition names_of (l : list ServiceRecords) : Names := list_to_set (map sr_instance_full l).
(** The instances currently advertised. *)
Definition instances (s : MdnsAdvertiser) : Names := names_of (announced (commissionable s) (operational s)).

(** The commissionable instances that were replaced by another one. *)
Definition commissionable_name (ad : option CommissionableAdvert) : Names :=
  match ad with Some ad => {[ sr_instance_full (commissionable_records ad) ]} | None => ∅ end.
Definition stale_after (ad : option CommissionableAdvert) (s : MdnsAdvertiser) (stale : Names) : Names :=
  match ad with
  | Some _ => (stale ∪ commissionable_name (commissionable s)) ∖ commissionable_name ad
  | None => stale ∖ commissionable_name (commissionable s)
  end.

(** The states of an advertiser, with the replaced instances. *)
Inductive advertised : MdnsAdvertiser → Names → Prop :=
  | AdvertisedNew : advertised MdnsAdvertiser_new ∅
  | AdvertisedSet s stale ad s' : advertised s stale → from_option commissionable_ok True ad →
      set_commissionable ad s = (s', Ok ()) → advertised s' (stale_after ad s stale)
  | AdvertisedAdd s stale ad s' : advertised s stale → operational_ok ad → zlen (operational s) < 10000 →
      add_operational ad s = (s', Ok ()) → advertised s' stale
  | AdvertisedRemove s stale cfid node s' : advertised s stale → in_u 64 cfid → in_u 64 node →
      remove_operational cfid node s = (s', Ok ()) → advertised s' stale
  | AdvertisedAnnounce s stale s' : advertised s stale → announce s = (s', Ok ()) → advertised s' stale
  | AdvertisedServe s stale buf from s' : advertised s stale → bytes_ok buf →
      serve_datagram buf from s = (s', Ok ()) → advertised s' stale.

Record advertiser_ok (s : MdnsAdvertiser) (stale : Names) : Prop := {
  ad_commissionable : from_option commissionable_ok True (commissionable s);
  ad_operational : Forall operational_ok (operational s);
  ad_count : zlen (operational s) ≤ 10000;
  ad_stale : ∀ x, x ∈ stale → ∃ l, x = l ++ ascii "._matterc._udp.local";
  ad_heard : heard s = instances s ∪ stale
}.

Definition posted (m : list Sent) (s : MdnsAdvertiser) : MdnsAdvertiser :=
  {| commissionable := commissionable s; operational := operational s; sent := sent s ++ m |}.

Lemma heard_posted m s : heard (posted m s) = hear_sent (heard s) m.
Proof. unfold heard, hear_sent, copies. cbn [posted sent]. by rewrite List.filter_app, map_app, foldl_app. Qed.

Lemma hear_services live ss t1 t2 : 
  foldl hear_record live (map (rr_record false) (concat (map (λ s, push_all s (λ n, if n =? HOST_TTL then t2 else t1)) ss))) =
  if t2 =? 0 then live ∖ names_of ss else live ∪ names_of ss.
Proof.
  revert live. induction ss as [|s ss IH]; intros live.
  { change (names_of []) with (∅ : Names). cbn [map concat foldl]. destruct (t2 =? 0); [by rewrite difference_empty_L|by rewrite union_empty_r_L]. }
  cbn [map concat]. rewrite map_app, foldl_app, IH. unfold push_all. rewrite map_app, foldl_app.
  assert (∀ os live, foldl hear_record live (map (rr_record false) (map (λ o, RrPtr o (sr_instance_full s) t1) os)) = live) as Hptr.
  { induction os as [|o os IHo]; intros l; [done|]. cbn. by apply IHo. }
  change (if PTR_TXT_TTL =? HOST_TTL then t2 else t1) with t1. rewrite Hptr. change (if HOST_TTL =? HOST_TTL then t2 else t1) with t2.
  cbn [map foldl]. repeat change (hear_record ?x (rr_record false (sr_aaaa s t2))) with x.
  repeat change (hear_record ?x (rr_record false (sr_txt_rr s t1))) with x.
  change (hear_record live (rr_record false (sr_srv s t2))) with
    (if t2 =? 0 then live ∖ {[ sr_instance_full s ]} else live ∪ {[ sr_instance_full s ]}).
  change (names_of (s :: ss)) with ({[ sr_instance_full s ]} ∪ names_of ss).
  destruct (t2 =? 0); [by rewrite difference_difference_l_L|by rewrite (assoc_L (∪))].
Qed.

Lemma announced_ok c os : from_option commissionable_ok True c → Forall operational_ok os → Forall service_ok (announced c os).
Proof.
  intros Hc Ho. unfold announced. apply Forall_app. split.
  - destruct c as [ad|]; [|constructor]. apply Forall_cons_2; [by apply commissionable_service_ok|constructor].
  - apply List.Forall_map. eapply Forall_impl; [exact Ho|apply operational_service_ok].
Qed.

Lemma push_all_count ss ttl : Forall (λ s, (length (sr_ptr_owners s) ≤ 3)%nat) ss →
  zlen (concat (map (λ s, push_all s ttl) ss)) ≤ 6 * zlen ss.
Proof.
  induction 1 as [|s ss Hs _ IH]; [done|]. cbn [map concat]. rewrite zlen_app, zlen_cons. unfold push_all at 1.
  rewrite zlen_app. unfold zlen in *. rewrite length_map. cbn [length]. lia.
Qed.

Lemma announcement_heard c os override : from_option commissionable_ok True c → Forall operational_ok os → zlen os ≤ 10000 →
  override = None ∨ override = Some 0 →
  ∃ b, encode_announcement_or_goodbye (E:=Empty_set) c os override = Ok b ∧
    ∀ live, hear live b = match override with None => live ∪ names_of (announced c os) | Some _ => live ∖ names_of (announced c os) end.
Proof.
  intros Hc Ho Hn Hov. pose proof (announced_ok c os Hc Ho) as Hok. unfold encode_announcement_or_goodbye.
  set (ttl := λ normal, default normal override).
  destruct (encode_message_parses (concat (map (λ s, push_all s ttl) (announced c os))) [] false) as (b & Hb & Hp).
  - rewrite app_nil_r. apply Forall_concat, List.Forall_map. eapply Forall_impl; [exact Hok|]. intros s Hs.
    apply push_all_ok; [done|..]; by destruct Hov as [->| ->].
  - assert (Forall (λ s, (length (sr_ptr_owners s) ≤ 3)%nat) (announced c os)) as Hlen.
    { unfold announced. apply Forall_app. split.
      - destruct c as [ad|]; [|apply Forall_nil_2]. apply Forall_cons_2; [|apply Forall_nil_2].
        cbn [commissionable_records sr_ptr_owners length]. lia.
      - apply List.Forall_map, Forall_true. intros ad. cbn [operational_records sr_ptr_owners length]. lia. }
    pose proof (push_all_count _ ttl Hlen) as H. assert (zlen (announced c os) ≤ 10001); [|lia].
    unfold announced. rewrite zlen_app. assert (zlen (map operational_records os) = zlen os) as -> by (unfold zlen; by rewrite length_map).
    destruct c as [ad|]; [change (zlen [_]) with 1|change (zlen []) with 0]; lia.
  - done.
  - exists b. split; [exact Hb|]. intros live. unfold hear. rewrite Hp, app_nil_r.
    destruct Hov as [->| ->]; [apply (hear_services live (announced c os) PTR_TXT_TTL HOST_TTL)|apply (hear_services live (announced c os) 0 0)].
Qed.

(** *** Distinct names *)

Lemma suffix_inj {X} (a b u t : list X) : length u = length t → a ++ u = b ++ t → u = t.
Proof. intros Hl H. by apply app_inj_2 in H as [_ ?]. Qed.

(** No operational instance is a commissionable one. *)
Lemma services_disjoint l l' : l ++ ascii "._matterc._udp.local" ≠ l' ++ ascii "._matter._tcp.local".
Proof.
  intros H. change (ascii "._matterc._udp.local") with (ascii "._matterc._" ++ ascii "udp.local") in H.
  change (ascii "._matter._tcp.local") with (ascii "._matter._" ++ ascii "tcp.local") in H. rewrite !app_assoc in H.
  by apply suffix_inj in H.
Qed.

Lemma digits_val n v : 0 ≤ v < 16 ^ Z.of_nat n → foldl (λ acc d, acc * 16 + d) 0 (digits 16 n v) = v.
Proof.
  revert v. induction n as [|n IH]; intros v Hv; [cbn in *; lia|]. cbn [digits]. rewrite foldl_app.
  rewrite Nat2Z.inj_succ, Z.pow_succ_r in Hv by lia. rewrite IH by (split; [apply Z.div_pos; lia|apply Z.div_lt_upper_bound; lia]).
  cbn. pose proof (Z.div_mod v 16 ltac:(lia)). lia.
Qed.
Lemma digit_char_inj a b : 0 ≤ a < 16 → 0 ≤ b < 16 → digit_char a = digit_char b → a = b.
Proof. unfold digit_char. destruct (a <? 10) eqn:?, (b <? 10) eqn:?; lia. Qed.
Lemma format_hex_inj v w : in_u 64 v → in_u 64 w → format_hex 16 v = format_hex 16 w → v = w.
Proof.
  intros Hv Hw H. rewrite !format_hex_16 in H by done. rewrite <- (digits_val 16 v), <- (digits_val 16 w) by done. f_equal.
  pose proof (digits_range 16 16 v ltac:(lia)) as Rv. pose proof (digits_range 16 16 w ltac:(lia)) as Rw. revert H Rv Rw.
  generalize (digits 16 16 v) (digits 16 16 w). intros l. induction l as [|a l IH]; intros [|b k] H Rv Rw; try done.
  cbn in H. injection H as H1 H2. apply Forall_cons in Rv as [Ra Rv], Rw as [Rb Rw]. f_equal; [by apply digit_char_inj|by apply IH].
Qed.

(** Two operational instances of one name are one node of one fabric. *)
Lemma operational_name_inj a b : operational_ok a → operational_ok b →
  sr_instance_full (operational_records a) = sr_instance_full (operational_records b) →
  oa_compressed_fabric_id a = oa_compressed_fabric_id b ∧ oa_node_id a = oa_node_id b.
Proof.
  intros Ha Hb. unfold operational_records. cbn [sr_instance_full]. intros H. apply app_inv_tail in H. unfold operational_instance in H.
  pose proof (cfid_u64 a Ha) as Ca. pose proof (cfid_u64 b Hb) as Cb. destruct Ha as (Ba & La & Na & _), Hb as (Bb & Lb & Nb & _).
  destruct (hex16_label _ Ca) as [_ Lh]. destruct (hex16_label _ Cb) as [_ Lh']. apply app_inj_1 in H as [H1 H2]; [|unfold zlen in *; lia].
  cbn in H2. injection H2 as H2. split; [|by apply format_hex_inj].
  apply format_hex_inj in H1; [|done|done]. apply (f_equal (le_bytes 8)) in H1.
  assert (∀ l, bytes_ok l → zlen l = 8 → le_bytes 8 (le_val (rev l)) = rev l) as Hle.
  { intros l Hl Hz. pose proof (le_bytes_val (rev l) (Forall_rev Hl)) as H. rewrite length_rev in H. unfold zlen in Hz. by replace (length l) with 8%nat in H by lia. }
  rewrite !Hle in H1 by done. by rewrite <- (rev_involutive (oa_compressed_fabric_id a)), H1, rev_involutive.
Qed.

(** *** Each method *)

Lemma instances_split c os : names_of (announced c os) = commissionable_name c ∪ names_of (map operational_records os).
Proof.
  unfold announced, names_of. rewrite map_app, list_to_set_app_L. f_equal. destruct c as [ad|]; [|done].
  cbn [map list_to_set commissionable_name]. by rewrite union_empty_r_L.
Qed.

Lemma hear_doubled live msg : hear_sent live [ {| sent_msg := msg; sent_to := Multicast; sent_later := false |};
  {| sent_msg := msg; sent_to := Multicast; sent_later := true |} ] = hear live msg.
Proof. unfold hear_sent, copies. by case later. Qed.

Lemma announce_heard s : from_option commissionable_ok True (commissionable s) → Forall operational_ok (operational s) →
  zlen (operational s) ≤ 10000 → ∃ m, announce s = (posted m s, Ok ()) ∧ ∀ live, hear_sent live m = live ∪ instances s.
Proof.
  intros Hc Ho Hn. destruct (announcement_heard (commissionable s) (operational s) None) as (b & Hb & Hh); [done..|by left|].
  eexists. split.
  - unfold announce, bind, get, lift. change (encode_unsolicited_announcement (commissionable s) (operational s))
      with (encode_announcement_or_goodbye (E:=Empty_set) (commissionable s) (operational s) None). rewrite Hb. done.
  - intros live. rewrite hear_doubled. apply Hh.
Qed.

Section sets.
Implicit Types (C X Y : Names) (n : bytes).
#[local] Ltac by_member := apply set_eq; intros y; set_unfold; tauto.

Lemma heard_clear n X Y : ({[n]} ∪ X ∪ Y) ∖ {[n]} ∪ (∅ ∪ X) = ∅ ∪ X ∪ Y ∖ {[n]}.
Proof. by_member. Qed.
Lemma heard_set C n X Y : C ∪ X ∪ Y ∪ ({[n]} ∪ X) = {[n]} ∪ X ∪ (Y ∪ C) ∖ {[n]}.
Proof. apply set_eq. intros y. destruct (decide (y = n)); set_unfold; tauto. Qed.
Lemma heard_none X Y : ∅ ∪ X ∪ Y ∪ (∅ ∪ X) = ∅ ∪ X ∪ Y ∖ ∅.
Proof. by_member. Qed.
Lemma heard_add C X Y n : C ∪ X ∪ Y ∪ (C ∪ (X ∪ {[n]})) = C ∪ (X ∪ {[n]}) ∪ Y.
Proof. by_member. Qed.
Lemma heard_again C Y : C ∪ Y ∪ C = C ∪ Y.
Proof. by_member. Qed.
Lemma heard_remove C X X' Y n : n ∉ C → n ∉ Y → X ∖ {[n]} = X' → (C ∪ X ∪ Y) ∖ {[n]} = C ∪ X' ∪ Y.
Proof.
  intros HC HY <-. apply set_eq. intros y. destruct (decide (y = n)) as [->|]; set_unfold; tauto.
Qed.
End sets.

Lemma set_commissionable_heard s stale ad : advertiser_ok s stale → from_option commissionable_ok True ad →
  ∃ s', set_commissionable ad s = (s', Ok ()) ∧ advertiser_ok s' (stale_after ad s stale).
Proof.
  intros [Hc Ho Hn Hst Hh] Ha. unfold instances in Hh. rewrite instances_split in Hh.
  set (ops := names_of (map operational_records (operational s))) in *.
  assert (∀ m s1, s1 = posted m s → heard s1 ∪ (commissionable_name ad ∪ ops) = commissionable_name ad ∪ ops ∪ stale_after ad s stale →
    ∃ s', (modify (λ s, {| commissionable := ad; operational := operational s; sent := sent s |}) ;;! announce) s1 = (s', Ok ()) ∧
      advertiser_ok s' (stale_after ad s stale)) as Hfin.
  { intros m s1 -> He. set (s2 := {| commissionable := ad; operational := operational s; sent := sent s ++ m |}).
    destruct (announce_heard s2) as (m2 & Ha2 & Hm2); [done..|]. exists (posted m2 s2). split; [exact Ha2|]. constructor; try done.
    - intros x Hx. unfold stale_after in Hx. destruct ad as [ad|].
      + apply elem_of_difference in Hx as [ [Hx|Hx]%elem_of_union _]; [by apply Hst|].
        destruct (commissionable s) as [old|]; cbn [commissionable_name] in Hx; [|set_solver].
        apply elem_of_singleton in Hx as ->. by eexists.
      + apply elem_of_difference in Hx as [Hx _]. by apply Hst.
    - rewrite heard_posted, Hm2. unfold instances. cbn [posted commissionable operational]. rewrite instances_split. exact He. }
  unfold set_commissionable. erewrite bind_ok by reflexivity. destruct ad as [ad|].
  - erewrite bind_ok by reflexivity. apply (Hfin [] s); [destruct s; unfold posted; cbn; by rewrite app_nil_r|].
    rewrite Hh. apply heard_set.
  - destruct (commissionable s) as [old|] eqn:Hold.
    + destruct (announcement_heard (Some old) [] (Some 0)) as (b & Hb & Hhb); [done|constructor|done|by right|].
      erewrite bind_ok by (unfold bind, lift; change (encode_goodbye (Some old) []) with
        (encode_announcement_or_goodbye (E:=Empty_set) (Some old) [] (Some 0)); rewrite Hb; reflexivity).
      set (m := [ {| sent_msg := b; sent_to := Multicast; sent_later := false |}; {| sent_msg := b; sent_to := Multicast; sent_later := true |} ]).
      apply (Hfin m (posted m s)); [done|].
      assert (heard (posted m s) = heard s ∖ commissionable_name (Some old)) as Hgb.
      { rewrite heard_posted. unfold m; rewrite hear_doubled. rewrite Hhb, instances_split. f_equal. cbn [map]. change (names_of []) with (∅ : Names). by rewrite union_empty_r_L. }
      unfold stale_after. rewrite Hold. rewrite Hgb, Hh. apply heard_clear.
    + erewrite bind_ok by reflexivity. apply (Hfin [] s); [destruct s; unfold posted; cbn; by rewrite app_nil_r|].
      unfold stale_after. rewrite Hh, Hold. apply heard_none.
Qed.

Lemma add_operational_heard s stale ad : advertiser_ok s stale → operational_ok ad → zlen (operational s) < 10000 →
  ∃ s', add_operational ad s = (s', Ok ()) ∧ advertiser_ok s' stale.
Proof.
  intros [Hc Ho Hn Hst Hh] Ha Hlt. unfold instances in Hh. rewrite instances_split in Hh.
  set (s1 := {| commissionable := commissionable s; operational := operational s ++ [ad]; sent := sent s |}).
  assert (Forall operational_ok (operational s1)) as Ho1 by (apply Forall_app; split; [done|by apply Forall_cons_2; [|apply Forall_nil_2] ]).
  assert (zlen (operational s1) ≤ 10000) as Hn1 by (cbn [s1 operational]; rewrite zlen_app; change (zlen [ad]) with 1; lia).
  destruct (announce_heard s1 Hc Ho1 Hn1) as (m & Hm & Hhm). exists (posted m s1). split; [exact Hm|]. constructor; try done.
  rewrite heard_posted, Hhm. change (heard s1) with (heard s). rewrite Hh. unfold instances. cbn [posted commissionable operational s1].
  rewrite instances_split.
  assert (names_of (map operational_records (operational s ++ [ad])) =
    names_of (map operational_records (operational s)) ∪ {[ sr_instance_full (operational_records ad) ]}) as ->.
  { unfold names_of. rewrite !map_app, list_to_set_app_L. cbn [map list_to_set]. by rewrite union_empty_r_L. }
  apply heard_add.
Qed.

Lemma removed_names cfid node os target : Forall operational_ok os → in_u 64 cfid →
  List.find (advert_is cfid node) os = Some target →
  names_of (map operational_records os) ∖ {[ sr_instance_full (operational_records target) ]} =
  names_of (map operational_records (List.filter (λ ad, negb (advert_is cfid node ad)) os)).
Proof.
  intros Hos Hc Hf. apply List.find_some in Hf as [Hin Hft]. rewrite Forall_forall in Hos. apply list_elem_of_In in Hin.
  pose proof (Hos target Hin) as Htok. unfold advert_is in Hft. apply andb_true_iff in Hft as [Hft1%bool_decide_eq_true Hft2%Z.eqb_eq].
  apply set_eq. intros x. unfold names_of. rewrite elem_of_difference, not_elem_of_singleton, !elem_of_list_to_set.
  rewrite !map_map, !list_elem_of_In, !in_map_iff. split.
  - intros [(ad & <- & Had) Hne]. exists ad. split; [done|]. apply List.filter_In. split; [done|]. unfold advert_is.
    destruct (bool_decide _) eqn:Hb; [|done]. apply bool_decide_eq_true in Hb. destruct (Z.eqb_spec (oa_node_id ad) node) as [Hn|]; [|done].
    destruct Hne. unfold operational_records. cbn [sr_instance_full]. by rewrite Hb, Hft1, Hn, Hft2.
  - intros (ad & <- & Had). apply List.filter_In in Had as [Had Hno]. split; [by exists ad|]. intros He.
    apply list_elem_of_In in Had. apply operational_name_inj in He as [H1 H2]; [|by apply Hos|done].
    unfold advert_is in Hno. rewrite H1, H2, Hft1, Hft2, Z.eqb_refl, bool_decide_eq_true_2 in Hno; done.
Qed.

Lemma remove_operational_heard s stale cfid node : advertiser_ok s stale → in_u 64 cfid →
  ∃ s', remove_operational cfid node s = (s', Ok ()) ∧ advertiser_ok s' stale.
Proof.
  intros Hok Hcf. pose proof Hok as [Hc Ho Hn Hst Hh]. unfold remove_operational. erewrite bind_ok by reflexivity.
  destruct (List.find _ _) as [target|] eqn:Hf; [|by exists s].
  assert (operational_ok target) as Ht.
  { apply List.find_some in Hf as [Hin _]. rewrite Forall_forall in Ho. apply Ho. by apply list_elem_of_In. }
  destruct (announcement_heard None [target] (Some 0)) as (b & Hb & Hhb); [done|by apply Forall_cons_2; [|apply Forall_nil_2]|done|by right|].
  erewrite bind_ok by (unfold lift; change (encode_goodbye None [target]) with
    (encode_announcement_or_goodbye (E:=Empty_set) None [target] (Some 0)); rewrite Hb; reflexivity).
  erewrite bind_ok by reflexivity. eexists. split; [reflexivity|]. constructor; cbn [commissionable operational posted].
  - done.
  - apply Forall_forall. intros x Hx. rewrite Forall_forall in Ho. apply Ho. apply list_elem_of_In in Hx. apply List.filter_In in Hx as [Hx _].
    by apply list_elem_of_In.
  - pose proof (filter_length_le (λ ad, negb (advert_is cfid node ad)) (operational s)). unfold zlen in *. lia.
  - done.
  - set (m := [ {| sent_msg := b; sent_to := Multicast; sent_later := false |}; {| sent_msg := b; sent_to := Multicast; sent_later := true |} ]).
    change (heard _) with (heard (posted m s)) at 1. rewrite heard_posted. unfold m; rewrite hear_doubled. rewrite Hhb, Hh. unfold instances. cbn [commissionable operational].
    rewrite !instances_split. cbn [map commissionable_name]. rewrite union_empty_l_L.
    change (names_of [operational_records target]) with ({[ sr_instance_full (operational_records target) ]} ∪ ∅ : Names). rewrite union_empty_r_L.
    apply heard_remove; [| |by apply removed_names].
    + destruct (commissionable s) as [ad|]; cbn [commissionable_name]; [|set_solver]. rewrite not_elem_of_singleton. intros He. symmetry in He.
      by apply services_disjoint in He.
    + intros Hx. destruct (Hst _ Hx) as [l Hl]. symmetry in Hl. by apply services_disjoint in Hl.
Qed.

(** *** Answers tell nothing new *)

Lemma hear_known (live : Names) x : x ∈ live → live ∪ {[ x ]} = live.
Proof. intros Hx. apply set_eq. intros y. rewrite elem_of_union, elem_of_singleton. naive_solver. Qed.

Lemma respond_heard s q_name unicast : service_ok s → bytes_ok q_name →
  ∃ m, respond (E:=Empty_set) s q_name unicast = Ok m ∧
    ∀ b live, m = Some b → sr_instance_full s ∈ live → hear live b = live.
Proof.
  intros Hs Hq. destruct (respond_parses s q_name unicast Hs Hq) as (m & Hm & Hp). exists m. split; [done|].
  intros b live -> Hin. unfold response_rrs in Hp. cbv zeta in Hp.
  destruct (existsb _ _); [|destruct (eq_ignore_ascii_case q_name (sr_instance_full s)); [|destruct (eq_ignore_ascii_case q_name (sr_host_full s)); [|done] ] ];
    destruct Hp as (b' & [= ->] & Hb); unfold hear; rewrite Hb; cbn [map foldl];
    repeat change (hear_record ?x (rr_record unicast (sr_aaaa s HOST_TTL))) with x;
    repeat change (hear_record ?x (rr_record unicast (sr_txt_rr s PTR_TXT_TTL))) with x;
    repeat change (hear_record ?x (rr_record unicast (RrPtr q_name (sr_instance_full s) PTR_TXT_TTL))) with x;
    try change (hear_record live (rr_record unicast (sr_srv s HOST_TTL))) with (live ∪ {[ sr_instance_full s ]});
    [by apply hear_known|by apply hear_known|done].
Qed.

Definition quiet (op : A ()) (s : MdnsAdvertiser) : Prop :=
  ∃ m, op s = (posted m s, Ok ()) ∧ ∀ live, instances s ⊆ live → hear_sent live m = live.

Lemma quiet_ret s : quiet (ret ()) s.
Proof. exists []. split; [|done]. unfold ret, posted. destruct s. cbn. by rewrite app_nil_r. Qed.
Lemma quiet_then op k s : quiet op s → (∀ m, quiet k (posted m s)) → quiet (op ;;! k) s.
Proof.
  intros (m & Hm & Hq) Hk. destruct (Hk m) as (m' & Hm' & Hq'). exists (m ++ m'). split.
  - erewrite bind_ok by exact Hm. rewrite Hm'. unfold posted. cbn. by rewrite app_assoc.
  - intros live Hl. unfold hear_sent, copies in *. rewrite List.filter_app, map_app, foldl_app, Hq by done. by apply Hq'.
Qed.

Lemma quiet_response s q_name unicast target st : service_ok s → bytes_ok q_name → sr_instance_full s ∈ instances st →
  quiet (let! m := lift (respond s q_name unicast) in send_response m target) st.
Proof.
  intros Hs Hq Hin. destruct (respond_heard s q_name unicast Hs Hq) as (m & Hm & Hh). unfold quiet.
  erewrite bind_ok by (unfold lift; rewrite Hm; reflexivity). destruct m as [b|]; [|apply quiet_ret].
  exists [ {| sent_msg := b; sent_to := target; sent_later := false |} ]. split; [done|].
  intros live Hl. unfold hear_sent, copies. cbn [List.filter sent_later]. case later; cbn [Bool.eqb map sent_msg foldl]; [done|].
  apply (Hh b); [done|by apply Hl].
Qed.

Lemma instance_of s sr : sr ∈ announced (commissionable s) (operational s) → sr_instance_full sr ∈ instances s.
Proof. intros Hsr. unfold instances, names_of. apply elem_of_list_to_set. by apply list_elem_of_fmap_2. Qed.

Lemma quiet_operational s q_name qu target ads : bytes_ok q_name → Forall operational_ok ads →
  (∀ ad, ad ∈ ads → sr_instance_full (operational_records ad) ∈ instances s) → quiet (answer_operational q_name qu target ads) s.
Proof.
  intros Hq Hok. revert s. induction Hok as [|ad ads Ha _ IH]; intros s Hin; [apply quiet_ret|]. cbn [answer_operational].
  destruct (quiet_then (let! m := lift (encode_operational_response q_name ad qu) in send_response m target)
    (answer_operational q_name qu target ads) s) as (m & Hm & Hl).
  - apply quiet_response; [by apply operational_service_ok|done|]. apply Hin. by left.
  - intros m. apply IH. intros x Hx. apply (Hin x). by right.
  - exists m. split; [|done]. rewrite <- Hm. unfold bind. by destruct (lift _ s) as [s1 [o|e| |] ].
Qed.

Lemma quiet_name s q_name qu target : from_option commissionable_ok True (commissionable s) → Forall operational_ok (operational s) →
  bytes_ok q_name → quiet (answer_name q_name qu target) s.
Proof.
  intros Hc Ho Hq.
  unfold answer_name. unfold quiet. erewrite bind_ok by reflexivity. apply quiet_then.
  - destruct (commissionable s) as [ad|] eqn:Had; [|apply quiet_ret]. apply quiet_response; [by apply commissionable_service_ok|done|].
    apply instance_of. rewrite Had. unfold announced. apply elem_of_app. left. by apply list_elem_of_singleton.
  - intros m. apply quiet_operational; [done|done|]. intros ad Had. change (instances (posted m s)) with (instances s).
    apply instance_of. unfold announced. apply elem_of_app. right. by apply list_elem_of_fmap_2.
Qed.

Lemma quiet_answer s qs answered from : from_option commissionable_ok True (commissionable s) → Forall operational_ok (operational s) →
  Forall (λ '(nm, _, _), text nm) qs → quiet (answer qs answered from) s.
Proof.
  intros Hc Ho Hqs. revert s answered Hc Ho. induction Hqs as [|[ [nm t] qu] qs [_ Hq] _ IH]; intros s answered Hc Ho; [apply quiet_ret|].
  cbn [answer]. destruct (existsb _ answered); [by apply IH|]. apply quiet_then; [by apply quiet_name|]. intros m. by apply IH.
Qed.

Lemma serve_datagram_heard s stale buf from : advertiser_ok s stale → bytes_ok buf →
  ∃ s', serve_datagram buf from s = (s', Ok ()) ∧ advertiser_ok s' stale.
Proof.
  intros [Hc Ho Hn Hst Hh] Hb. destruct (parse_questions_any buf Hb) as (qs & Hqs & Ht).
  assert (quiet (match qs with [] => ret () | _ => answer qs [] from end) s) as (m & Hm & Hl).
  { pose proof (quiet_answer s qs [] from Hc Ho Ht) as Hqa. destruct qs; [apply quiet_ret|done]. }
  exists (posted m s). split.
  - unfold serve_datagram. erewrite bind_ok by (unfold lift; rewrite Hqs; reflexivity). exact Hm.
  - constructor; try done. rewrite heard_posted, Hl; [done|]. rewrite Hh. apply union_subseteq_l.
Qed.

Lemma advertised_ok s stale : advertised s stale → advertiser_ok s stale.
Proof.
  induction 1 as [|s stale ad s' _ IH Ha Hop|s stale ad s' _ IH Ha Hn Hop|s stale cfid node s' _ IH Hc Hno Hop|s stale s' _ IH Hop|s stale buf from s' _ IH Hb Hop].
  - by constructor.
  - destruct (set_commissionable_heard s stale ad IH Ha) as (s1 & H1 & H2). congruence.
  - destruct (add_operational_heard s stale ad IH Ha Hn) as (s1 & H1 & H2). congruence.
  - destruct (remove_operational_heard s stale cfid node IH Hc) as (s1 & H1 & H2). congruence.
  - destruct IH as [H1 H2 H3 H4 H5]. destruct (announce_heard s H1 H2 H3) as (m & Hm & Hl). rewrite Hm in Hop. injection Hop as <-.
    constructor; try done. rewrite heard_posted, Hl, H5. apply heard_again.
  - destruct (serve_datagram_heard s stale buf from IH Hb) as (s1 & H1 & H2). congruence.
Qed.

End copies.

(** *** Repeats among first copies *)

(** An interleaving of two sequences. *)
Inductive interleaved {X} : list X → list X → list X → Prop :=
  | InterleavedNil : interleaved [] [] []
  | InterleavedLeft x l r m : interleaved l r m → interleaved (x :: l) r (x :: m)
  | InterleavedRight x l r m : interleaved l r m → interleaved l (x :: r) (x :: m).

Lemma interleaved_app {X} (l r : list X) : interleaved l r (l ++ r).
Proof. induction l as [|x l IH]; [induction r; by constructor|by constructor]. Qed.

(** The last thing said of an instance: that it lives, or that it is gone. *)
Definition or_said (a b : option bool) : option bool := match b with Some _ => b | None => a end.
Definition said_record (n : bytes) (r : DnsRecord) : option bool :=
  match rdata r with Srv _ _ => if bool_decide (name r = n) then Some (negb (ttl r =? 0)) else None | _ => None end.
Definition said (n : bytes) (msg : bytes) : option bool :=
  match parse_message msg with Ok rs => foldl (λ a r, or_said a (said_record n r)) None rs | _ => None end.
Definition said_all (n : bytes) (ms : list bytes) : option bool := foldr (λ msg a, or_said (said n msg) a) None ms.

Lemma or_said_assoc a b c : or_said a (or_said b c) = or_said (or_said a b) c.
Proof. by destruct c, b. Qed.
Lemma said_records_acc n rs a : foldl (λ a r, or_said a (said_record n r)) a rs = or_said a (foldl (λ a r, or_said a (said_record n r)) None rs).
Proof.
  revert a. induction rs as [|r rs IH]; intros a; [done|]. cbn [foldl]. rewrite IH, (IH (or_said None _)), or_said_assoc. f_equal.
  by destruct (said_record n r).
Qed.

Lemma heard_records n rs live : n ∈ foldl hear_record live rs ↔
  match foldl (λ a r, or_said a (said_record n r)) None rs with Some b => b = true | None => n ∈ live end.
Proof.
  revert live. induction rs as [|r rs IH]; intros live; [done|]. cbn [foldl]. rewrite said_records_acc, IH.
  destruct (foldl _ None rs) as [b|]; [done|]. cbn [or_said]. unfold hear_record, said_record. destruct (rdata r); try done.
  destruct (ttl r =? 0); case_bool_decide as Hn; cbn [or_said negb];
    rewrite ?elem_of_difference, ?elem_of_union, elem_of_singleton; naive_solver.
Qed.
Lemma heard_messages n ms live : n ∈ foldl hear live ms ↔ match said_all n ms with Some b => b = true | None => n ∈ live end.
Proof.
  revert live. induction ms as [|msg ms IH]; intros live; [done|]. cbn [foldl said_all foldr]. rewrite IH. fold (said_all n ms).
  destruct (said_all n ms) as [b|]; [done|]. cbn [or_said]. unfold hear, said. destruct (parse_message msg); try done. by rewrite heard_records.
Qed.

Lemma said_interleaved n l r m : interleaved l r m →
  (said_all n m = said_all n l ∨ said_all n m = said_all n r) ∧ (said_all n m = None → said_all n l = None ∧ said_all n r = None).
Proof.
  induction 1 as [|x l r m _ IH|x l r m _ IH]; [by split; [left|]| |]; cbn [said_all foldr]; fold (said_all n m) (said_all n l) (said_all n r);
    destruct IH as [ [->| ->] IH];
    [destruct (said_all n l), (said_all n r)|destruct (said_all n r), (said_all n l)|
     destruct (said_all n l), (said_all n r)|destruct (said_all n r), (said_all n l)];
    destruct (said n x); cbn [or_said] in *; naive_solver.
Qed.

(** Two sequences that leave the same belief leave it in any interleaving. *)
Lemma heard_interleaved l r m live : interleaved l r m → foldl hear ∅ l = live → foldl hear ∅ r = live → foldl hear ∅ m = live.
Proof.
  intros Hi Hl Hr. apply set_eq. intros n. pose proof (heard_messages n l ∅) as H1. pose proof (heard_messages n r ∅) as H2.
  rewrite Hl in H1. rewrite Hr in H2. rewrite heard_messages. destruct (said_interleaved n l r m Hi) as [ [->| ->] _]; by symmetry.
Qed.

(** C19. What peers believe is what the device advertises.  In every state the
    advertiser reaches, through any adverts set, added and removed and any
    datagrams served, a peer that heard its messages (announcements, goodbyes
    and answers, as bytes) and their repeats, in any interleaving of the two,
    holds exactly the instances now advertised and the commissionable instances
    that were replaced by another one without a goodbye; and every method returns
    from there. *)
Theorem advertiser_heard s stale : advertised s stale →
  (∀ msgs, interleaved (copies false (sent s)) (copies true (sent s)) msgs → foldl hear ∅ msgs = instances s ∪ stale) ∧
  (∀ ad, from_option commissionable_ok True ad → ∃ s', set_commissionable ad s = (s', Ok ())) ∧
  (∀ ad, operational_ok ad → zlen (operational s) < 10000 → ∃ s', add_operational ad s = (s', Ok ())) ∧
  (∀ cfid node, in_u 64 cfid → ∃ s', remove_operational cfid node s = (s', Ok ())) ∧
  (∀ buf from, bytes_ok buf → ∃ s', serve_datagram buf from s = (s', Ok ())).
Proof.
  intros Hadv. pose proof (advertised_ok false s stale Hadv) as Hok. split_and!.
  - intros msgs Hi. eapply heard_interleaved; [exact Hi|apply Hok|]. apply (advertised_ok true s stale Hadv).
  - intros ad Ha. destruct (set_commissionable_heard false s stale ad Hok Ha) as (s' & H1 & _). by exists s'.
  - intros ad Ha Hn. destruct (add_operational_heard false s stale ad Hok Ha Hn) as (s' & H1 & _). by exists s'.
  - intros cfid node Hc. destruct (remove_operational_heard false s stale cfid node Hok Hc) as (s' & H1 & _). by exists s'.
  - intros buf from Hb. destruct (serve_datagram_heard false s stale buf from Hok Hb) as (s' & H1 & _). by exists s'.
Qed.

(** A commissionable advert, a fabric's node, and the advert replaced by the one
    of an opened window. *)
Definition example_advert (instance : string) (cm : Z) : CommissionableAdvert :=
  {| ca_instance := ascii instance; ca_hostname := ascii "DEV01"; ca_discriminator := 840; ca_vendor_id := 65521;
     ca_product_id := 32768; ca_port := 5540; ca_addr_v6 := [0xFE; 0x80; 0; 0; 0; 0; 0; 0; 0; 0; 0; 0; 0; 0; 0; 1]; ca_cm := cm |}.
Definition example_node : OperationalAdvert :=
  {| oa_compressed_fabric_id := [0x87; 0xE1; 0xB0; 0x04; 0xE2; 0x35; 0xA1; 0x30]; oa_node_id := 7; oa_hostname := ascii "DEV01";
     oa_port := 5540; oa_addr_v6 := [0xFE; 0x80; 0; 0; 0; 0; 0; 0; 0; 0; 0; 0; 0; 0; 0; 1] |}.
Lemma example_advert_ok i cm : host_label (ascii i) → in_u 8 cm → commissionable_ok (example_advert i cm).
Proof. intros Hi Hcm. unfold commissionable_ok, example_advert. cbn. split_and!; try done. by repeat constructor. Qed.

Lemma advertiser_heard_witness : ∃ s stale, advertised s stale ∧ zlen (sent s) = 6 ∧
  foldl hear ∅ (copies false (sent s) ++ copies true (sent s)) = instances s ∪ stale ∧ (∀ buf from, bytes_ok buf → ∃ s', serve_datagram buf from s = (s', Ok ())).
Proof.
  assert (commissionable_ok (example_advert "B007" 1)) as H1 by (apply example_advert_ok; [by repeat constructor|done]).
  assert (commissionable_ok (example_advert "ECC2" 2)) as H2 by (apply example_advert_ok; [by repeat constructor|done]).
  assert (operational_ok example_node) as H3 by (unfold operational_ok; cbn; split_and!; try done; by repeat constructor).
  pose proof (AdvertisedSet _ _ (Some (example_advert "B007" 1)) _ AdvertisedNew H1 ltac:(vm_compute; reflexivity)) as A1.
  pose proof (AdvertisedAdd _ _ example_node _ A1 H3 ltac:(vm_compute; done) ltac:(vm_compute; reflexivity)) as A2.
  pose proof (AdvertisedSet _ _ (Some (example_advert "ECC2" 2)) _ A2 H2 ltac:(vm_compute; reflexivity)) as A3.
  eexists _, _. split; [exact A3|]. split; [reflexivity|].
  destruct (advertiser_heard _ _ A3) as (Hh & _ & _ & _ & Hs). split; [|exact Hs].
  apply Hh, interleaved_app.
Defined.
