(* ===== verification/Resolve.v ===== *)
(** * One-shot resolution

    Models [crates/mat-controller/src/dnssd/resolve.rs]: finding nodes by their
    operational instances and a device in commissioning mode by its long
    discriminator; with [ResolvedNode] of [dnssd/mod.rs].  The clock and what
    the socket receives are a script, one entry per turn of a loop; its end is
    the deadline.  Instants are milliseconds. *)

From Stdlib Require Import String.
From S2P Require Import Prelude Tlv TlvValue Fabrics Certs X509 Exchange Dns MdnsRecords.

Open Scope string_scope.
Open Scope list_scope.
Open Scope Z_scope.

(** ** Resolved nodes *)

Definition MRP_DEFAULT_IDLE_MS : Z := 500.
Definition MRP_DEFAULT_ACTIVE_MS : Z := 300.
Definition MRP_MAX_INTERVAL_MS : Z := 3600000.
Definition QUERY_RESEND_INTERVAL : Z := 1000.

Record ResolvedNode := {
  rn_port : Z;
  rn_addresses : list bytes;
  session_idle_interval_ms : option Z;
  session_active_interval_ms : option Z
}.

Definition from_parts (port : Z) (addresses : list bytes) (txt : list bytes) : ResolvedNode :=
  {| rn_port := port; rn_addresses := addresses;
     session_idle_interval_ms := txt_u32 txt (ascii "SII");
     session_active_interval_ms := txt_u32 txt (ascii "SAI") |}.

Definition clamp (lo hi v : Z) : Z := Z.max lo (Z.min hi v).
Definition mrp_config (n : ResolvedNode) : MrpConfig :=
  {| initial_interval := clamp 1 MRP_MAX_INTERVAL_MS (default MRP_DEFAULT_IDLE_MS (session_idle_interval_ms n));
     active_interval := clamp 1 MRP_MAX_INTERVAL_MS (default MRP_DEFAULT_ACTIVE_MS (session_active_interval_ms n));
     max_retries := 4 |}.

(** An address with its port and scope. *)
Definition socket_addrs (n : ResolvedNode) (scope_id : Z) : list (bytes * Z * Z) :=
  map (λ a, (a, rn_port n, if is_link_local a then scope_id else 0)) (rn_addresses n).

(** ** The socket *)

(** [refusals]: for each send to come, whether it fails; then none does. *)
Record Sock := { out : list bytes; refusals : list bool }.
Definition Sock_new (refusals : list bool) : Sock := {| out := []; refusals := refusals |}.

Definition sock_send (msg : bytes) (s : Sock) : Sock * DE () :=
  match refusals s with
  | true :: r => ({| out := out s; refusals := r |}, Err (Io "send_to"))
  | false :: r => ({| out := out s ++ [msg]; refusals := r |}, Ok ())
  | [] => ({| out := out s ++ [msg]; refusals := [] |}, Ok ())
  end.

Inductive Received := TimedOut | RecvFailed | Datagram (buf : bytes).
(** [now] and the outcome of the bounded receive of one turn. *)
Record Turn := { now : Z; received : Received }.

(** [recv_from] keeps what fits the buffer. *)
Definition RESOLVE_BUF : nat := 1500.

(** ** Operational nodes *)

Record OperationalQuery := {
  oq_node_id : Z;
  oq_service : bytes;
  oq_srv : option (Z * bytes);
  oq_txt : option (list bytes);
  oq_aaaa : Candidates;
  oq_aaaa_queried : bool;
  oq_resolved : option ResolvedNode
}.

Definition unresolved (q : OperationalQuery) : bool := match oq_resolved q with None => true | Some _ => false end.

Definition try_finish (q : OperationalQuery) : OperationalQuery :=
  match oq_resolved q with
  | Some _ => q
  | None =>
      match oq_srv q with
      | None => q
      | Some (port, target) =>
          let addresses := addresses_for_target (oq_aaaa q) target in
          match addresses with
          | [] => q
          | _ =>
              let strings := default [] (oq_txt q) in
              {| oq_node_id := oq_node_id q; oq_service := oq_service q; oq_srv := oq_srv q; oq_txt := oq_txt q;
                 oq_aaaa := oq_aaaa q; oq_aaaa_queried := oq_aaaa_queried q;
                 oq_resolved := Some (from_parts port addresses strings) |}
          end
      end
  end.

Definition operational_service (compressed_fabric_id : bytes) (node_id : Z) : bytes :=
  operational_instance compressed_fabric_id node_id ++ ascii "._matter._tcp.local".
Definition OperationalQuery_new (compressed_fabric_id : bytes) (node_id : Z) : OperationalQuery :=
  {| oq_node_id := node_id; oq_service := operational_service compressed_fabric_id node_id; oq_srv := None;
     oq_txt := None; oq_aaaa := []; oq_aaaa_queried := false; oq_resolved := None |}.

(** [iter_mut().find(..)]: the first match is changed. *)
Fixpoint update_first {X} (p : X → bool) (f : X → X) (l : list X) : list X :=
  match l with
  | [] => []
  | x :: l => if p x then f x :: l else x :: update_first p f l
  end.

Definition query_srv (port : Z) (target : bytes) (q : OperationalQuery) : OperationalQuery :=
  {| oq_node_id := oq_node_id q; oq_service := oq_service q; oq_srv := Some (port, target); oq_txt := oq_txt q;
     oq_aaaa := prune_aaaa (oq_aaaa q) target; oq_aaaa_queried := oq_aaaa_queried q; oq_resolved := oq_resolved q |}.
Definition query_txt (strings : list bytes) (q : OperationalQuery) : OperationalQuery :=
  {| oq_node_id := oq_node_id q; oq_service := oq_service q; oq_srv := oq_srv q; oq_txt := Some strings;
     oq_aaaa := oq_aaaa q; oq_aaaa_queried := oq_aaaa_queried q; oq_resolved := oq_resolved q |}.
Definition query_aaaa (nm addr : bytes) (q : OperationalQuery) : OperationalQuery :=
  {| oq_node_id := oq_node_id q; oq_service := oq_service q; oq_srv := oq_srv q; oq_txt := oq_txt q;
     oq_aaaa := push_aaaa (oq_aaaa q) (snd <$> oq_srv q) nm addr;
     oq_aaaa_queried := oq_aaaa_queried q; oq_resolved := oq_resolved q |}.

(** The [match r.rdata] on one record. *)
Definition fold_record (queries : list OperationalQuery) (r : DnsRecord) : list OperationalQuery :=
  let mine := λ q, unresolved q && eq_ignore_ascii_case (name r) (oq_service q) in
  match rdata r with
  | Srv port target => update_first mine (query_srv port target) queries
  | Txt strings => update_first mine (query_txt strings) queries
  | Aaaa addr => map (λ q, if unresolved q then query_aaaa (name r) addr q else q) queries
  | _ => queries
  end.

(** After the records: what is complete, and the host names to ask for. *)
Definition finish_query (q : OperationalQuery) : OperationalQuery * list bytes :=
  let q := try_finish q in
  match unresolved q && negb (oq_aaaa_queried q), oq_srv q with
  | true, Some (_, target) =>
      ({| oq_node_id := oq_node_id q; oq_service := oq_service q; oq_srv := oq_srv q; oq_txt := oq_txt q;
          oq_aaaa := oq_aaaa q; oq_aaaa_queried := true; oq_resolved := oq_resolved q |}, [target])
  | _, _ => (q, [])
  end.

Record ResolveState := { queries : list OperationalQuery; next_send : Z; sock : Sock }.
Abbreviation RM := (M ResolveState DnssdError).

Definition set_queries (qs : list OperationalQuery) : RM () :=
  modify (λ s, {| queries := qs; next_send := next_send s; sock := sock s |}).
Definition set_next_send (t : Z) : RM () :=
  modify (λ s, {| queries := queries s; next_send := t; sock := sock s |}).
Definition send (msg : bytes) : RM () := λ s,
  let '(k, r) := sock_send msg (sock s) in ({| queries := queries s; next_send := next_send s; sock := k |}, r).
(** A query is encoded, then sent. *)
Definition send_query (questions : list (bytes * Z)) : RM () :=
  let! msg := lift (encode_query 0 questions) in send msg.

Fixpoint send_queries (qs : list OperationalQuery) : RM () :=
  match qs with
  | [] => ret ()
  | q :: qs =>
      (if unresolved q then
         send_query [(oq_service q, TYPE_SRV); (oq_service q, TYPE_TXT)] ;;!
         match oq_srv q with
         | Some (_, target) => send_query [(target, TYPE_AAAA)]
         | None => ret ()
         end
       else ret ()) ;;!
      send_queries qs
  end.

Fixpoint send_followups (targets : list bytes) : RM () :=
  match targets with
  | [] => ret ()
  | target :: targets => send_query [(target, TYPE_AAAA)] ;;! send_followups targets
  end.

(** A datagram: other people's malformed ones are skipped. *)
Definition take_datagram (buf : bytes) : RM () :=
  match parse_message (take RESOLVE_BUF buf) with
  | Ok records =>
      let! s := get in
      let done := map finish_query (foldl fold_record (queries s) records) in
      set_queries (map fst done) ;;!
      send_followups (concat (map snd done))
  | Err _ => ret ()
  | Panic => panic
  | OutOfFuel => out_of_fuel
  end.

Fixpoint resolve_loop (script : list Turn) (deadline : Z) : RM () :=
  let! s := get in
  if forallb (λ q, negb (unresolved q)) (queries s) then ret ()
  else
    match script with
    | [] => ret ()
    | turn :: script =>
        if deadline <=? now turn then ret ()
        else
          (if next_send s <=? now turn then
             send_queries (queries s) ;;! set_next_send (now turn + QUERY_RESEND_INTERVAL)
           else ret ()) ;;!
          match received turn with
          | TimedOut => ret ()
          | RecvFailed => throw (Io "recv_from")
          | Datagram buf => take_datagram buf
          end ;;!
          resolve_loop script deadline
    end.

Definition query_result (q : OperationalQuery) : Z * DE ResolvedNode :=
  (oq_node_id q, match oq_resolved q with Some node => Ok node | None => Err (Timeout (oq_service q)) end).

(** [start] is the clock before the loop. *)
Definition resolve_operational_many (compressed_fabric_id : bytes) (node_ids : list Z) (timeout start : Z)
    (script : list Turn) (refusals : list bool) : DE (list (Z * DE ResolvedNode)) * list bytes :=
  match node_ids with
  | [] => (Ok [], [])
  | _ =>
      match resolve_loop script (start + timeout)
              {| queries := map (OperationalQuery_new compressed_fabric_id) node_ids; next_send := start; sock := Sock_new refusals |} with
      | (s, Ok _) => (Ok (map query_result (queries s)), out (sock s))
      | (s, Err e) => (Err e, out (sock s))
      | (s, Panic) => (Panic, out (sock s))
      | (s, OutOfFuel) => (OutOfFuel, out (sock s))
      end
  end.

Definition resolve_operational (compressed_fabric_id : bytes) (node_id timeout start : Z)
    (script : list Turn) (refusals : list bool) : DE ResolvedNode :=
  let? results := fst (resolve_operational_many compressed_fabric_id [node_id] timeout start script refusals) in
  match last results with
  | Some (_, r) => r
  | None => Err (Malformed "resolve_operational_many returned no result")
  end.

(** ** Devices in commissioning mode *)

Definition long_discriminator_subtype (long_discriminator : Z) : bytes :=
  ascii "_L" ++ format_dec 1 long_discriminator ++ ascii "._sub._matterc._udp.local".

Definition build_commissionable (long_discriminator port : Z) (target : bytes) (txt : list bytes) (aaaa : Candidates) :
    option ResolvedNode :=
  if bool_decide (txt_u32 txt (ascii "D") = Some long_discriminator) then
    let addresses := addresses_for_target aaaa target in
    match addresses with [] => None | _ => Some (from_parts port addresses txt) end
  else None.

(** [iter().find_map(f)]. *)
Fixpoint find_map {X Y} (f : X → option Y) (l : list X) : option Y :=
  match l with
  | [] => None
  | x :: l => match f x with Some y => Some y | None => find_map f l end
  end.

Definition ptr_of (subtype : bytes) (r : DnsRecord) : option bytes :=
  match rdata r with Ptr nm => if eq_ignore_ascii_case (name r) subtype then Some nm else None | _ => None end.
Definition srv_of (instance : bytes) (r : DnsRecord) : option (Z * bytes) :=
  match rdata r with
  | Srv port target => if eq_ignore_ascii_case (name r) instance then Some (port, target) else None
  | _ => None
  end.
Definition txt_of (instance : bytes) (r : DnsRecord) : option (list bytes) :=
  match rdata r with Txt strings => if eq_ignore_ascii_case (name r) instance then Some strings else None | _ => None end.
Definition fold_aaaa (target : bytes) (aaaa : Candidates) (r : DnsRecord) : Candidates :=
  match rdata r with Aaaa addr => push_aaaa aaaa (Some target) (name r) addr | _ => aaaa end.

(** From parsed records; [None] also for what does not parse. *)
Definition commissionable_from_records (records : list DnsRecord) (long_discriminator : Z) : option ResolvedNode :=
  instance ← find_map (ptr_of (long_discriminator_subtype long_discriminator)) records;
  '(port, target) ← find_map (srv_of instance) records;
  txt ← find_map (txt_of instance) records;
  build_commissionable long_discriminator port target txt (foldl (fold_aaaa target) [] records).
Definition commissionable_from_response {E} (buf : bytes) (long_discriminator : Z) : res E (option ResolvedNode) :=
  match parse_message buf with
  | Ok records => Ok (commissionable_from_records records long_discriminator)
  | Err _ => Ok None
  | Panic => Panic
  | OutOfFuel => OutOfFuel
  end.

Record CommissionableState := {
  cs_instance : option bytes;
  cs_srv : option (Z * bytes);
  cs_txt : option (list bytes);
  cs_aaaa : Candidates;
  cs_aaaa_queried : bool;
  cs_next_send : Z;
  cs_sock : Sock
}.
Abbreviation CM := (M CommissionableState DnssdError).

Definition c_set_next_send (t : Z) : CM () := modify (λ s,
  {| cs_instance := cs_instance s; cs_srv := cs_srv s; cs_txt := cs_txt s; cs_aaaa := cs_aaaa s;
     cs_aaaa_queried := cs_aaaa_queried s; cs_next_send := t; cs_sock := cs_sock s |}).
Definition c_queried : CM () := modify (λ s,
  {| cs_instance := cs_instance s; cs_srv := cs_srv s; cs_txt := cs_txt s; cs_aaaa := cs_aaaa s;
     cs_aaaa_queried := true; cs_next_send := cs_next_send s; cs_sock := cs_sock s |}).
Definition c_send_query (questions : list (bytes * Z)) : CM () :=
  let! msg := lift (encode_query 0 questions) in
  λ s, let '(k, r) := sock_send msg (cs_sock s) in
       ({| cs_instance := cs_instance s; cs_srv := cs_srv s; cs_txt := cs_txt s; cs_aaaa := cs_aaaa s;
           cs_aaaa_queried := cs_aaaa_queried s; cs_next_send := cs_next_send s; cs_sock := k |}, r).

(** A record of a response in pieces. *)
Definition c_fold_record (subtype : bytes) (s : CommissionableState) (r : DnsRecord) : CommissionableState :=
  let mine := match cs_instance s with Some i => eq_ignore_ascii_case (name r) i | None => false end in
  match rdata r with
  | Ptr nm =>
      if eq_ignore_ascii_case (name r) subtype then
        {| cs_instance := Some nm; cs_srv := cs_srv s; cs_txt := cs_txt s; cs_aaaa := cs_aaaa s;
           cs_aaaa_queried := cs_aaaa_queried s; cs_next_send := cs_next_send s; cs_sock := cs_sock s |}
      else s
  | Srv port target =>
      if mine then
        {| cs_instance := cs_instance s; cs_srv := Some (port, target); cs_txt := cs_txt s;
           cs_aaaa := prune_aaaa (cs_aaaa s) target;
           cs_aaaa_queried := cs_aaaa_queried s; cs_next_send := cs_next_send s; cs_sock := cs_sock s |}
      else s
  | Txt strings =>
      if mine then
        {| cs_instance := cs_instance s; cs_srv := cs_srv s; cs_txt := Some strings; cs_aaaa := cs_aaaa s;
           cs_aaaa_queried := cs_aaaa_queried s; cs_next_send := cs_next_send s; cs_sock := cs_sock s |}
      else s
  | Aaaa addr =>
      {| cs_instance := cs_instance s; cs_srv := cs_srv s; cs_txt := cs_txt s;
         cs_aaaa := push_aaaa (cs_aaaa s) (snd <$> cs_srv s) (name r) addr;
         cs_aaaa_queried := cs_aaaa_queried s; cs_next_send := cs_next_send s; cs_sock := cs_sock s |}
  | Other => s
  end.

(** A datagram: the node, when it is complete. *)
Definition c_take_datagram (long_discriminator : Z) (buf : bytes) : CM (option ResolvedNode) :=
  let buf := take RESOLVE_BUF buf in
  let! whole := lift (commissionable_from_response buf long_discriminator) in
  match whole with
  | Some node => ret (Some node)
  | None =>
      match parse_message buf with
      | Ok records =>
          modify (λ s, foldl (c_fold_record (long_discriminator_subtype long_discriminator)) s records) ;;!
          let! s := get in
          match cs_srv s, cs_txt s with
          | Some (port, target), Some strings =>
              match build_commissionable long_discriminator port target strings (cs_aaaa s) with
              | Some node => ret (Some node)
              | None =>
                  (if cs_aaaa_queried s then ret () else c_send_query [(target, TYPE_AAAA)] ;;! c_queried) ;;!
                  ret None
              end
          | _, _ => ret None
          end
      | Err _ => ret None
      | Panic => panic
      | OutOfFuel => out_of_fuel
      end
  end.

Fixpoint commissionable_loop (long_discriminator : Z) (script : list Turn) (deadline : Z) : CM ResolvedNode :=
  let subtype := long_discriminator_subtype long_discriminator in
  let! s := get in
  let timeout := throw (Timeout (default subtype (cs_instance s))) in
  match script with
  | [] => timeout
  | turn :: script =>
      if deadline <=? now turn then timeout
      else
        (if cs_next_send s <=? now turn then
           c_send_query [(subtype, TYPE_PTR)] ;;!
           match cs_srv s with
           | Some (_, target) => c_send_query [(target, TYPE_AAAA)]
           | None => ret ()
           end ;;!
           c_set_next_send (now turn + QUERY_RESEND_INTERVAL)
         else ret ()) ;;!
        match received turn with
        | TimedOut => commissionable_loop long_discriminator script deadline
        | RecvFailed => throw (Io "recv_from")
        | Datagram buf =>
            let! found := c_take_datagram long_discriminator buf in
            match found with
            | Some node => ret node
            | None => commissionable_loop long_discriminator script deadline
            end
        end
  end.

Definition resolve_commissionable (long_discriminator timeout start : Z) (script : list Turn) (refusals : list bool) : DE ResolvedNode :=
  snd (commissionable_loop long_discriminator script (start + timeout)
    {| cs_instance := None; cs_srv := None; cs_txt := None; cs_aaaa := []; cs_aaaa_queried := false;
       cs_next_send := start; cs_sock := Sock_new refusals |}).

(** ** Addresses *)

Lemma stable_sort_bool {X} (k : X → bool) l :
  stable_sort (λ a b, implb (k a) (k b)) l = List.filter (λ x, negb (k x)) l ++ List.filter k l.
Proof.
  induction l as [|x l IH]; [done|]. unfold stable_sort in *. cbn [foldr List.filter]. rewrite IH. clear IH. destruct (k x) eqn:Hx; cbn [negb].
  - assert (∀ l1 l2, Forall (λ y, k y = false) l1 → Forall (λ y, k y = true) l2 →
      insert_sorted (λ a b, implb (k a) (k b)) x (l1 ++ l2) = l1 ++ x :: l2) as Hins.
    { intros l1 l2 H1 H2. induction H1 as [|y l1 Hy _ IH]; cbn [app insert_sorted].
      - destruct H2 as [|y l2 Hy _]; [done|]. cbn [insert_sorted]. by rewrite Hx, Hy.
      - by rewrite Hx, Hy, IH. }
    apply Hins; apply Forall_forall; intros y Hy; apply list_elem_of_In in Hy; apply List.filter_In in Hy as [_ Hy]; [by destruct (k y)|done].
  - cbn [app]. destruct (List.filter _ l ++ _) as [|y l']; [done|]. cbn [insert_sorted]. by rewrite Hx.
Qed.

Lemma push_address_spec target l : ∀ acc, NoDup acc →
  let r := foldl (push_address target) acc l in
  NoDup r ∧ ∀ a, a ∈ r ↔ a ∈ acc ∨ ∃ n, (n, a) ∈ l ∧ eq_ignore_ascii_case n target = true.
Proof.
  induction l as [|[n a] l IH]; intros acc Hacc; cbn [foldl].
  - split; [done|]. intros a. split; [by left|]. intros [?|(n & Hn & _)]; [done|]. by apply not_elem_of_nil in Hn.
  - assert (NoDup (push_address target acc (n, a))) as Hnd.
    { unfold push_address. destruct (eq_ignore_ascii_case n target && negb (bool_decide (a ∈ acc))) eqn:Hc; [|done].
      apply andb_true_iff in Hc as [_ Hc]. apply negb_true_iff, bool_decide_eq_false in Hc. apply NoDup_app. split_and!; [done| |by apply NoDup_singleton].
      intros x Hx Hx'. apply list_elem_of_singleton in Hx' as ->. done. }
    destruct (IH _ Hnd) as [H1 H2]. split; [done|]. intros b. rewrite H2. clear IH H1 H2. unfold push_address.
    assert (b ∈ (if eq_ignore_ascii_case n target && negb (bool_decide (a ∈ acc)) then acc ++ [a] else acc) ↔
      b ∈ acc ∨ (b = a ∧ eq_ignore_ascii_case n target = true)) as ->.
    { destruct (eq_ignore_ascii_case n target) eqn:He; cbn [andb]; [|naive_solver]. destruct (bool_decide (a ∈ acc)) eqn:Hb; cbn [negb].
      - apply bool_decide_eq_true in Hb. split; [by left|]. by intros [?|[-> _] ].
      - rewrite elem_of_app, list_elem_of_singleton. naive_solver. }
    setoid_rewrite elem_of_cons. naive_solver.
Qed.

(** The addresses of a host: each once, exactly those of its AAAA records, the
    ones that need no scope first. *)
Lemma addresses_spec aaaa target :
  NoDup (addresses_for_target aaaa target) ∧
  (∀ a, a ∈ addresses_for_target aaaa target ↔ ∃ n, (n, a) ∈ aaaa ∧ eq_ignore_ascii_case n target = true) ∧
  ∃ global local, addresses_for_target aaaa target = global ++ local ∧
    Forall (λ a, is_link_local a = false) global ∧ Forall (λ a, is_link_local a = true) local.
Proof.
  destruct (push_address_spec target aaaa [] ltac:(constructor)) as [Hnd Hin]. unfold addresses_for_target. set (l := foldl _ _ _) in *.
  change link_local_last with (λ a b, implb (is_link_local a) (is_link_local b)). rewrite stable_sort_bool.
  assert (∀ a, a ∈ List.filter (λ x, negb (is_link_local x)) l ↔ a ∈ l ∧ is_link_local a = false) as H1.
  { intros a. rewrite !list_elem_of_In, List.filter_In, negb_true_iff. done. }
  assert (∀ a, a ∈ List.filter is_link_local l ↔ a ∈ l ∧ is_link_local a = true) as H2.
  { intros a. by rewrite !list_elem_of_In, List.filter_In. }
  split_and!.
  - apply NoDup_ListNoDup in Hnd. apply NoDup_app. split_and!; [by apply NoDup_ListNoDup, List.NoDup_filter| |by apply NoDup_ListNoDup, List.NoDup_filter].
    intros a Ha Hb. apply H1 in Ha as [_ Ha]. apply H2 in Hb as [_ Hb]. congruence.
  - intros a. rewrite elem_of_app, H1, H2, Hin. destruct (is_link_local a); naive_solver by (by apply not_elem_of_nil in H).
  - eexists _, _. split; [done|]. split; apply Forall_forall; intros a Ha; [apply H1 in Ha|apply H2 in Ha]; apply Ha.
Qed.

Lemma push_aaaa_spec aaaa target nm addr n a : (n, a) ∈ push_aaaa aaaa target nm addr → (n, a) ∈ aaaa ∨ (n = nm ∧ a = addr).
Proof.
  unfold push_aaaa. destruct (match target with Some _ => _ | None => _ end); [by left|]. destruct (MAX_AAAA <=? zlen aaaa); [by left|].
  destruct (existsb _ _); [by left|]. intros [?|Hin%list_elem_of_singleton]%elem_of_app; [by left|].
  injection Hin as -> ->. by right.
Qed.
Lemma push_aaaa_bound aaaa target nm addr : zlen aaaa ≤ MAX_AAAA → zlen (push_aaaa aaaa target nm addr) ≤ MAX_AAAA.
Proof.
  intros Hl. unfold push_aaaa. destruct (match target with Some _ => _ | None => _ end); [done|]. destruct (MAX_AAAA <=? zlen aaaa) eqn:Hm; [done|].
  destruct (existsb _ _); [done|]. rewrite zlen_app. change (zlen [(nm, addr)]) with 1. lia.
Qed.
Lemma prune_aaaa_spec aaaa target n a : (n, a) ∈ prune_aaaa aaaa target ↔ (n, a) ∈ aaaa ∧ eq_ignore_ascii_case n target = true.
Proof. unfold prune_aaaa. by rewrite !list_elem_of_In, List.filter_In. Qed.
Lemma prune_aaaa_bound aaaa target : zlen (prune_aaaa aaaa target) ≤ zlen aaaa.
Proof. unfold prune_aaaa, zlen. pose proof (filter_length_le (λ '(n, _), eq_ignore_ascii_case n target) aaaa). lia. Qed.
Lemma push_address_length target l : ∀ acc, (length (foldl (push_address target) acc l) ≤ length acc + length l)%nat.
Proof.
  induction l as [|[n a] l IH]; intros acc; cbn [foldl length]; [lia|]. specialize (IH (push_address target acc (n, a))).
  assert (length (push_address target acc (n, a)) ≤ S (length acc))%nat; [|lia].
  unfold push_address. destruct (eq_ignore_ascii_case n target && _); [rewrite length_app; cbn [length]|]; lia.
Qed.
Lemma addresses_bound aaaa target : zlen (addresses_for_target aaaa target) ≤ zlen aaaa.
Proof.
  unfold addresses_for_target. change link_local_last with (λ a b, implb (is_link_local a) (is_link_local b)). rewrite stable_sort_bool.
  pose proof (push_address_length target aaaa []) as H. set (l := foldl _ _ _) in *. rewrite zlen_app.
  assert (zlen (List.filter (λ x, negb (is_link_local x)) l) + zlen (List.filter is_link_local l) = zlen l) as ->; [|unfold zlen; cbn in H; lia].
  clear. induction l as [|x l IH]; [done|]. cbn [List.filter]. destruct (is_link_local x); cbn [negb]; rewrite !zlen_cons; lia.
Qed.

(** ** Soundness *)

(** The records a script delivers. *)
Definition turn_records (t : Turn) : list DnsRecord :=
  match received t with
  | Datagram buf => match parse_message (take RESOLVE_BUF buf) with Ok rs => rs | _ => [] end
  | _ => []
  end.
Definition records_of (script : list Turn) : list DnsRecord := concat (map turn_records script).
Definition turn_bytes (t : Turn) : Prop := match received t with Datagram buf => bytes_ok buf | _ => True end.

(** What a resolved node rests on: records that were received. *)
Definition srv_seen (seen : list DnsRecord) (service : bytes) (port : Z) (target : bytes) : Prop :=
  ∃ r, r ∈ seen ∧ rdata r = Srv port target ∧ eq_ignore_ascii_case (name r) service = true.
Definition txt_seen (seen : list DnsRecord) (service : bytes) (strings : list bytes) : Prop :=
  ∃ r, r ∈ seen ∧ rdata r = Txt strings ∧ eq_ignore_ascii_case (name r) service = true.
Record node_from (seen : list DnsRecord) (service : bytes) (node : ResolvedNode) : Prop := {
  nf_some : 1 ≤ zlen (rn_addresses node) ≤ MAX_AAAA;
  nf_distinct : NoDup (rn_addresses node);
  nf_target : ∃ target, srv_seen seen service (rn_port node) target ∧
    Forall (λ a, ∃ r, r ∈ seen ∧ rdata r = Aaaa a ∧ eq_ignore_ascii_case (name r) target = true) (rn_addresses node);
  nf_txt : ∃ strings, (strings = [] ∨ txt_seen seen service strings) ∧
    session_idle_interval_ms node = txt_u32 strings (ascii "SII") ∧ session_active_interval_ms node = txt_u32 strings (ascii "SAI")
}.

Record sound_query (seen : list DnsRecord) (q : OperationalQuery) : Prop := {
  sq_srv : ∀ port target, oq_srv q = Some (port, target) → srv_seen seen (oq_service q) port target;
  sq_txt : ∀ strings, oq_txt q = Some strings → txt_seen seen (oq_service q) strings;
  sq_aaaa : ∀ n a, (n, a) ∈ oq_aaaa q → ∃ r, r ∈ seen ∧ rdata r = Aaaa a ∧ name r = n;
  sq_bound : zlen (oq_aaaa q) ≤ MAX_AAAA;
  sq_resolved : ∀ node, oq_resolved q = Some node → node_from seen (oq_service q) node
}.

Definition identity (q : OperationalQuery) : Z * bytes := (oq_node_id q, oq_service q).

Lemma update_matching_Forall {X} (P : X → Prop) p f l : Forall P l → (∀ x, P x → p x = true → P (f x)) → Forall P (update_first p f l).
Proof.
  intros Hl Hf. induction Hl as [|x l Hx Hl IH]; cbn [update_first]; [constructor|].
  destruct (p x) eqn:Hp; constructor; [by apply Hf|done|done|done].
Qed.
Lemma update_matching_map {X Y} (g : X → Y) p f l : (∀ x, g (f x) = g x) → map g (update_first p f l) = map g l.
Proof. intros Hg. induction l as [|x l IH]; [done|]. cbn [update_first]. destruct (p x); cbn [map]; [by rewrite Hg|by rewrite IH]. Qed.

Lemma fold_record_sound seen qs r : r ∈ seen → Forall (sound_query seen) qs →
  Forall (sound_query seen) (fold_record qs r) ∧ map identity (fold_record qs r) = map identity qs.
Proof.
  intros Hr Hqs. unfold fold_record. destruct (rdata r) as [nm|port target|strings|addr|] eqn:Hd; [done| | | |done].
  - split; [|by apply update_matching_map]. apply update_matching_Forall; [done|]. intros q Hq [_ He]%andb_true_iff.
    destruct Hq as [H1 H2 H3 H4 H5]. constructor; cbn [query_srv oq_srv oq_txt oq_aaaa oq_resolved oq_service]; try done.
    + intros p t [= <- <-]. by exists r.
    + intros n a [Hin _]%prune_aaaa_spec. by apply H3.
    + etrans; [apply prune_aaaa_bound|done].
  - split; [|by apply update_matching_map]. apply update_matching_Forall; [done|]. intros q Hq [_ He]%andb_true_iff.
    destruct Hq as [H1 H2 H3 H4 H5]. constructor; cbn [query_txt oq_srv oq_txt oq_aaaa oq_resolved oq_service]; try done.
    intros ss [= <-]. by exists r.
  - split.
    + apply List.Forall_map. eapply Forall_impl; [exact Hqs|]. intros q Hq. cbn. destruct (unresolved q); [|done].
      destruct Hq as [H1 H2 H3 H4 H5]. constructor; cbn [query_aaaa oq_srv oq_txt oq_aaaa oq_resolved oq_service]; try done.
      * intros n a [Hin|[-> ->] ]%push_aaaa_spec; [by apply H3|by exists r].
      * by apply push_aaaa_bound.
    + rewrite map_map. apply map_ext. intros q. by destruct (unresolved q).
Qed.

Lemma fold_records_sound seen rs : (∀ r, r ∈ rs → r ∈ seen) → ∀ qs, Forall (sound_query seen) qs →
  Forall (sound_query seen) (foldl fold_record qs rs) ∧ map identity (foldl fold_record qs rs) = map identity qs.
Proof.
  induction rs as [|r rs IH]; intros Hin qs Hqs; [done|]. cbn [foldl].
  destruct (fold_record_sound seen qs r) as [H1 H2]; [apply Hin; by left|done|].
  destruct (IH ltac:(intros x Hx; apply Hin; by right) _ H1) as [H3 H4]. split; [done|]. by rewrite H4.
Qed.

Lemma from_parts_sound seen service port target aaaa txt : srv_seen seen service port target →
  (∀ n a, (n, a) ∈ aaaa → ∃ r, r ∈ seen ∧ rdata r = Aaaa a ∧ name r = n) → zlen aaaa ≤ MAX_AAAA →
  (∀ strings, txt = Some strings → txt_seen seen service strings) → addresses_for_target aaaa target ≠ [] →
  node_from seen service (from_parts port (addresses_for_target aaaa target) (default [] txt)).
Proof.
  intros Hs Ha Hb Ht Hne. destruct (addresses_spec aaaa target) as (Hnd & Hin & _). constructor; cbn [from_parts rn_addresses rn_port].
  - apply zlen_pos in Hne. pose proof (addresses_bound aaaa target). lia.
  - done.
  - exists target. split; [done|]. apply Forall_forall. intros a Hina. apply Hin in Hina as (n & Hn & He).
    destruct (Ha n a Hn) as (r & Hr & Hd & Hnm). exists r. by rewrite Hnm.
  - exists (default [] txt). split; [|done]. destruct txt; [right; by apply Ht|by left].
Qed.

Lemma finish_query_sound seen q : sound_query seen q →
  sound_query seen (fst (finish_query q)) ∧ identity (fst (finish_query q)) = identity q ∧
  Forall (λ t, ∃ port, srv_seen seen (oq_service q) port t) (snd (finish_query q)).
Proof.
  intros Hq. assert (sound_query seen (try_finish q) ∧ identity (try_finish q) = identity q ∧ oq_srv (try_finish q) = oq_srv q) as (H1 & H2 & H3).
  { unfold try_finish. destruct (oq_resolved q) eqn:Hr; [done|]. destruct (oq_srv q) as [ [port target]|] eqn:Hs; [|done].
    destruct (addresses_for_target (oq_aaaa q) target) as [|a l] eqn:Ha; [done|]. split; [|done].
    destruct Hq as [H1 H2 H3 H4 H5]. constructor; cbn; try done; [by rewrite <- Hs|]. intros node [= <-]. rewrite <- Ha.
    apply from_parts_sound; try done; [by apply H1|by rewrite Ha]. }
  unfold finish_query. set (p := try_finish q) in *. rewrite H3.
  assert (sound_query seen p ∧ identity p = identity q ∧ Forall (λ t, ∃ port, srv_seen seen (oq_service q) port t) []) as Hno by (split_and!; [done|done|constructor]).
  destruct (unresolved p && negb (oq_aaaa_queried p)); [|by destruct (oq_srv q) as [ [port target]|] ].
  destruct (oq_srv q) as [ [port target]|] eqn:Hs; [|done]. clear Hno. cbn [fst snd]. split_and!.
  - destruct H1 as [K1 K2 K3 K4 K5]. rewrite H3 in K1. by constructor.
  - done.
  - repeat constructor. exists port. by apply Hq.
Qed.

(** How a method of the loops ends: in a state that satisfies [P], or with the
    socket's error, or ([bad]) with the [debug_assert!] of [push_name]. *)
Definition ends {S A} (P : A → S → Prop) (R : DnssdError → Prop) (bad : Prop) (m : M S DnssdError A) (s : S) : Prop :=
  match m s with
  | (s', Ok a) => P a s'
  | (_, Err e) => R e
  | (_, Panic) => bad
  | (_, OutOfFuel) => False
  end.

Lemma ends_bind {S A B} (P : A → S → Prop) (Q : B → S → Prop) R bad m k s :
  ends P R bad m s → (∀ a s', P a s' → ends Q R bad (k a) s') → ends Q R bad (bind m k) s.
Proof. unfold ends, bind. intros Hm Hk. destruct (m s) as [s' [a|e| |] ]; try done. by apply Hk. Qed.
Lemma ends_mono {S A} (P Q : A → S → Prop) R bad m s : ends P R bad m s → (∀ a s', P a s' → Q a s') → ends Q R bad m s.
Proof. unfold ends. intros Hm HPQ. destruct (m s) as [s' [a|e| |] ]; try done. by apply HPQ. Qed.
Lemma ends_ret {S A} (P : A → S → Prop) R bad a s : P a s → ends P R bad (ret a) s.
Proof. done. Qed.

Definition io_error (e : DnssdError) : Prop := ∃ what, e = Io what.

Lemma encode_query_cases {E} id qs : (∃ b, encode_query (E:=E) id qs = Ok b) ∨
  encode_query (E:=E) id qs = Panic ∧ ¬ Forall (λ q, name_ok (fst q) = true) qs.
Proof.
  destruct (decide (Forall (λ q, name_ok (fst q) = true) qs)) as [Hok|Hno].
  { left. eexists. by apply encode_query_ok. }
  assert (∀ ls, (∃ b, Dns.push_labels (E:=E) ls = Ok b) ∨ Dns.push_labels (E:=E) ls = Panic) as Hls.
  { induction ls as [|l ls IH]; [left; by eexists|]. cbn [Dns.push_labels]. unfold Dns.push_label.
    destruct ((1 <=? zlen l) && (zlen l <=? 63)); [|by right]. cbn [res_bind].
    destruct IH as [ [b ->]| ->]; [left; by eexists|by right]. }
  assert ((∃ b, encode_questions (E:=E) qs = Ok b) ∨ encode_questions (E:=E) qs = Panic) as Hqs.
  { clear Hno. induction qs as [|q qs IH]; [left; by eexists|]. cbn [encode_questions]. unfold encode_question, Dns.push_name.
    destruct (Hls (split_on 46 (fst q))) as [ [b ->]| ->]; [|by right]. cbn [res_bind].
    destruct IH as [ [c ->]| ->]; [left; by eexists|by right]. }
  unfold encode_query. destruct Hqs as [ [b ->]| ->]; [left; by eexists|by right].
Qed.

Lemma operational_service_name cfid id : bytes_ok cfid → zlen cfid = 8 → in_u 64 id → name_ok (operational_service cfid id) = true.
Proof.
  intros Hb Hl Hid. pose (ad := {| oa_compressed_fabric_id := cfid; oa_node_id := id; oa_hostname := [65]; oa_port := 0;
    oa_addr_v6 := replicate 16 0 |}).
  assert (operational_ok ad) as Hok by (unfold operational_ok; cbn; split_and!; try done; by repeat constructor).
  apply (so_instance _ (operational_service_ok ad Hok)).
Qed.

Section resolve.
Context (cfid : bytes) (ids : list Z) (all : list DnsRecord).
Context (cfid_ok : bytes_ok cfid ∧ zlen cfid = 8) (ids_ok : Forall (in_u 64) ids).

(** A host name that [push_name] does not accept was received. *)
Definition bad_target : Prop := ∃ r port target, r ∈ all ∧ rdata r = Srv port target ∧ name_ok target = false.
Definition batch (s : ResolveState) : Prop :=
  Forall (sound_query all) (queries s) ∧ map identity (queries s) = map (λ id, (id, operational_service cfid id)) ids.

Abbreviation ends_with P := (ends (λ _, P) io_error bad_target).

Lemma send_query_ends qs s : (Forall (λ q, name_ok (fst q) = true) qs ∨ bad_target) →
  ends_with (λ s', queries s' = queries s) (send_query qs) s.
Proof.
  intros Hqs. unfold send_query. apply (ends_bind (λ _ s', s' = s)).
  - unfold lift. destruct (encode_query_cases (E:=DnssdError) 0 qs) as [ [b Hb]|[Hp Hno] ]; unfold ends; [by rewrite Hb|rewrite Hp; by destruct Hqs].
  - intros msg s' ->. unfold ends, send, sock_send. destruct (refusals (sock s)) as [|[ ] r]; cbn; [done|by eexists|done].
Qed.

Lemma target_name seen q port target : (∀ r, r ∈ seen → r ∈ all) → sound_query seen q → oq_srv q = Some (port, target) →
  Forall (λ q : bytes * Z, name_ok (fst q) = true) [(target, TYPE_AAAA)] ∨ bad_target.
Proof.
  intros Hseen Hq Hs. destruct (name_ok target) eqn:Ht; [left; by repeat constructor|right].
  destruct (sq_srv _ _ Hq port target Hs) as (r & Hr & Hd & _). exists r, port, target. auto.
Qed.

Lemma send_queries_ends qs s : Forall (λ q, sound_query all q ∧ name_ok (oq_service q) = true) qs →
  ends_with (λ s', queries s' = queries s) (send_queries qs) s.
Proof.
  intros Hqs. revert s. induction Hqs as [|q qs [Hq Hn] _ IH]; intros s; [done|]. cbn [send_queries].
  apply (ends_bind (λ _ s', queries s' = queries s)).
  - destruct (unresolved q); [|done]. apply (ends_bind (λ _ s', queries s' = queries s)).
    + apply send_query_ends. left. by repeat constructor.
    + intros _ s1 H1. rewrite <- H1. destruct (oq_srv q) as [ [port target]|] eqn:Hs; [|done]. apply send_query_ends.
      by eapply (target_name all q).
  - intros _ s1 H1. rewrite <- H1. apply IH.
Qed.

Lemma send_followups_ends ts s : Forall (λ t, ∃ service port, srv_seen all service port t) ts →
  ends_with (λ s', queries s' = queries s) (send_followups ts) s.
Proof.
  intros Hts. revert s. induction Hts as [|t ts (service & port & r & Hr & Hd & _) _ IH]; intros s; [done|]. cbn [send_followups].
  apply (ends_bind (λ _ s', queries s' = queries s)).
  - apply send_query_ends. destruct (name_ok t) eqn:Ht; [left; by repeat constructor|right]. by exists r, port, t.
  - intros _ s1 H1. rewrite <- H1. apply IH.
Qed.

Lemma finish_all qs : Forall (sound_query all) qs →
  Forall (sound_query all) (map fst (map finish_query qs)) ∧ map identity (map fst (map finish_query qs)) = map identity qs ∧
  Forall (λ t, ∃ service port, srv_seen all service port t) (concat (map snd (map finish_query qs))).
Proof.
  induction 1 as [|q qs Hq _ (H1 & H2 & H3)]; [split_and!; constructor|]. destruct (finish_query_sound all q Hq) as (K1 & K2 & K3).
  cbn [map concat]. split_and!; [by constructor|by rewrite K2, H2|]. apply Forall_app. split; [|done].
  eapply Forall_impl; [exact K3|]. intros t [port Hp]. by exists (oq_service q), port.
Qed.

Lemma take_datagram_ends buf s : bytes_ok buf → (∀ r, r ∈ turn_records {| now := 0; received := Datagram buf |} → r ∈ all) → batch s →
  ends_with batch (take_datagram buf) s.
Proof.
  intros Hb Hin [Hs Hid]. unfold turn_records in Hin. cbn [received] in Hin. unfold take_datagram.
  pose proof (parse_message_spec (take RESOLVE_BUF buf) ltac:(by apply Forall_take)) as Hp.
  destruct (parse_message (take RESOLVE_BUF buf)) as [rs|e| |]; try done.
  destruct (fold_records_sound all rs Hin _ Hs) as [H1 H2]. destruct (finish_all _ H1) as (K1 & K2 & K3).
  apply (ends_bind (λ s0 s', s' = s ∧ s0 = s)); [done|]. intros s0 s' [-> ->].
  apply (ends_bind (λ _ s', queries s' = map fst (map finish_query (foldl fold_record (queries s) rs)))); [done|].
  intros _ s1 Hs1. eapply ends_mono; [by apply send_followups_ends|]. intros u s2 Hs2. cbv beta in Hs2. unfold batch. rewrite Hs2, Hs1. split; [done|].
  by rewrite K2, H2.
Qed.

Lemma resolve_loop_ends deadline script s : Forall turn_bytes script → (∀ r, r ∈ records_of script → r ∈ all) → batch s →
  ends_with batch (resolve_loop script deadline) s.
Proof.
  intros Hscript. revert s. induction Hscript as [|t script Ht _ IH]; intros s Hin Hs.
  { cbn [resolve_loop]. unfold ends, bind, get. by destruct (forallb _ _). }
  cbn [resolve_loop]. apply (ends_bind (λ s0 s', s0 = s ∧ s' = s)); [done|]. intros s0 s' [-> ->].
  destruct (forallb _ _); [done|]. destruct (deadline <=? now t); [done|].
  apply (ends_bind (λ _ s', batch s')).
  { destruct (next_send s <=? now t); [|done]. apply (ends_bind (λ _ s', queries s' = queries s)).
    - apply send_queries_ends. destruct Hs as [Hs Hid]. apply Forall_forall. intros q Hq. rewrite Forall_forall in Hs. split; [by apply Hs|].
      assert (identity q ∈ map identity (queries s)) as Hi by (by apply list_elem_of_fmap_2). rewrite Hid in Hi.
      apply list_elem_of_fmap in Hi as (id & He & Hidin). unfold identity in He. injection He as _ ->.
      rewrite Forall_forall in ids_ok. apply operational_service_name; [apply cfid_ok..|by apply ids_ok].
    - intros _ s1 H1. unfold set_next_send, ends, modify, batch. cbn. by rewrite H1. }
  intros _ s1 H1. apply (ends_bind (λ _ s', batch s')).
  - unfold turn_bytes in Ht. destruct (received t) as [| |buf] eqn:Hr; [done|by eexists|]. apply take_datagram_ends; [done| |done].
    intros r Hrr. apply Hin. unfold records_of. cbn [map concat]. apply elem_of_app. left. unfold turn_records in *. by rewrite Hr.
  - intros _ s2 H2. apply IH; [|done]. intros r Hr. apply Hin. unfold records_of. cbn [map concat]. apply elem_of_app. by right.
Qed.
End resolve.

(** C18. What a batch resolution reports rests on what was received, whoever
    else speaks on the link.  For any script of datagrams: it ends; each
    requested node comes back in order, as a timeout or as a node whose port and
    host come from an SRV record of that node's own instance, whose 1 to 16
    distinct addresses all come from AAAA records of that host, and whose
    intervals come from a TXT record of the instance; the only error of the
    batch is the socket's.  In a debug build there is a fourth end, which the
    link can bring about: the follow-up query asks for the host name of a
    received SRV record, and the [debug_assert!] of [push_name] panics on one
    that has an empty or oversized label.  It happens only when such a record
    was received: a script without one never panics. *)
Theorem resolve_sound cfid ids timeout start script refusals :
  bytes_ok cfid → zlen cfid = 8 → Forall (in_u 64) ids → Forall turn_bytes script →
  match fst (resolve_operational_many cfid ids timeout start script refusals) with
  | Ok results => Forall2 (λ id '(id', r), id' = id ∧
      match r with
      | Ok node => node_from (records_of script) (operational_service cfid id) node
      | Err e => e = Timeout (operational_service cfid id)
      | _ => False
      end) ids results
  | Err e => io_error e
  | Panic => bad_target (records_of script)
  | OutOfFuel => False
  end.
Proof.
  intros Hb Hl Hids Hscript. unfold resolve_operational_many. destruct ids as [|id ids]; [constructor|].
  set (l := id :: ids) in *. clearbody l. set (s0 := {| queries := _; next_send := _; sock := _ |}).
  assert (batch cfid l (records_of script) s0) as H0.
  { split.
    - apply List.Forall_map, Forall_true. intros i. constructor; cbn; try done. intros n a Hin. by apply not_elem_of_nil in Hin.
    - cbn [s0 queries]. rewrite map_map. done. }
  pose proof (resolve_loop_ends cfid l (records_of script) (conj Hb Hl) Hids (start + timeout) script s0 Hscript (λ r Hr, Hr) H0) as He.
  unfold ends in He. destruct (resolve_loop script (start + timeout) s0) as [s [u|e| |] ]; cbn [fst]; try done.
  destruct He as [Hs Hid]. clear -Hs Hid. revert l Hid. induction Hs as [|q qs Hq _ IH]; intros [|i l] Hid; try done.
  cbn [map] in *. injection Hid as Hi Hsv Hid. constructor; [|by apply IH]. unfold query_result. split; [done|].
  rewrite <- Hsv. destruct (oq_resolved q) as [node|] eqn:Hr; [|done]. by apply Hq.
Qed.

(** ** A device that answers is found *)

Section found.
Context (ad : OperationalAdvert) (ad_ok : operational_ok ad).

Let service : bytes := operational_service (oa_compressed_fabric_id ad) (oa_node_id ad).
Let host : bytes := host_full (oa_hostname ad).

(** Records and turns that say nothing of this device. *)
Definition harmless (r : DnsRecord) : bool :=
  match rdata r with
  | Srv _ _ | Txt _ => negb (eq_ignore_ascii_case (name r) service)
  | Aaaa _ => negb (eq_ignore_ascii_case (name r) host)
  | _ => true
  end.
Definition harmless_turn (t : Turn) : Prop :=
  match received t with RecvFailed => False | _ => turn_bytes t ∧ forallb harmless (turn_records t) = true end.

(** What the device says to the question, and what becomes of it. *)
Definition answer_rrs : list Rr :=
  [sr_srv (operational_records ad) HOST_TTL; sr_txt_rr (operational_records ad) PTR_TXT_TTL; sr_aaaa (operational_records ad) HOST_TTL].
Definition found_node : ResolvedNode :=
  {| rn_port := oa_port ad; rn_addresses := [oa_addr_v6 ad]; session_idle_interval_ms := Some 300; session_active_interval_ms := Some 300 |}.

Definition waiting (q : OperationalQuery) : Prop :=
  oq_service q = service ∧ oq_srv q = None ∧ oq_resolved q = None ∧
  Forall (λ '(n, _), eq_ignore_ascii_case n host = false) (oq_aaaa q).

Lemma push_aaaa_other l nm addr : Forall (λ '(n, _), eq_ignore_ascii_case n host = false) l → eq_ignore_ascii_case nm host = false →
  Forall (λ '(n, _), eq_ignore_ascii_case n host = false) (push_aaaa l None nm addr).
Proof.
  intros Hl Hn. apply Forall_forall. intros [n a] Hin. rewrite Forall_forall in Hl.
  apply push_aaaa_spec in Hin as [Hin|[-> ->] ]; [by apply (Hl (n, a))|done].
Qed.

Lemma harmless_record q r : waiting q → harmless r = true → ∃ q', fold_record [q] r = [q'] ∧ waiting q'.
Proof.
  intros (H1 & H2 & H3 & H4). unfold harmless, fold_record. destruct (rdata r) as [nm|p t|ss|a|]; [by exists q| | | |by exists q].
  - intros Hh%negb_true_iff. cbn [update_first]. rewrite H1, Hh, andb_false_r. by exists q.
  - intros Hh%negb_true_iff. cbn [update_first]. rewrite H1, Hh, andb_false_r. by exists q.
  - intros Hh%negb_true_iff. cbn [map]. unfold unresolved. rewrite H3. eexists. split; [done|]. unfold waiting, query_aaaa. cbn. rewrite H2.
    split_and!; try done. by apply push_aaaa_other.
Qed.
Lemma harmless_records rs q : waiting q → forallb harmless rs = true → ∃ q', foldl fold_record [q] rs = [q'] ∧ waiting q'.
Proof.
  revert q. induction rs as [|r rs IH]; intros q Hq; cbn [forallb foldl]; [by exists q|]. intros [Hr Hrs]%andb_true_iff.
  destruct (harmless_record q r Hq Hr) as (q1 & -> & H1). by apply IH.
Qed.

Lemma waiting_finish q : waiting q → finish_query q = (q, []).
Proof.
  intros (H1 & H2 & H3 & H4). unfold finish_query. assert (try_finish q = q) as ->.
  { unfold try_finish. by rewrite H3, H2. }
  rewrite H2. by destruct (unresolved q && _).
Qed.

(** The whole answer completes the query. *)
Lemma answer_completes q : waiting q →
  ∃ q', map finish_query (foldl fold_record [q] (map (rr_record true) answer_rrs)) = [(q', [])] ∧ oq_resolved q' = Some found_node ∧ oq_node_id q' = oq_node_id q.
Proof.
  intros (H1 & H2 & H3 & H4).
  set (q1 := query_srv (oa_port ad) host q). set (q2 := query_txt (sr_txt (operational_records ad)) q1). set (q3 := query_aaaa host (oa_addr_v6 ad) q2).
  assert (foldl fold_record [q] (map (rr_record true) answer_rrs) = [q3]) as ->.
  { unfold answer_rrs. cbn [map foldl].
    assert (fold_record [q] (rr_record true (sr_srv (operational_records ad) HOST_TTL)) = [q1]) as ->.
    { unfold fold_record. cbn [rr_record rdata rr_rdata_of sr_srv name rr_owner update_first]. unfold unresolved. rewrite H3, H1.
      change (sr_instance_full (operational_records ad)) with service. by rewrite eqic_refl. }
    assert (fold_record [q1] (rr_record true (sr_txt_rr (operational_records ad) PTR_TXT_TTL)) = [q2]) as ->.
    { unfold fold_record. cbn [rr_record rdata rr_rdata_of sr_txt_rr name rr_owner update_first]. unfold unresolved.
      change (oq_resolved q1) with (oq_resolved q). change (oq_service q1) with (oq_service q). rewrite H3, H1.
      change (sr_instance_full (operational_records ad)) with service. by rewrite eqic_refl. }
    unfold fold_record. cbn [rr_record rdata rr_rdata_of sr_aaaa name rr_owner map]. unfold unresolved.
    change (oq_resolved q2) with (oq_resolved q). rewrite H3. done. }
  assert (oq_aaaa q1 = []) as Hp.
  { cbn [q1 query_srv oq_aaaa]. unfold prune_aaaa. induction H4 as [|[n a] l Hn _ IH]; [done|]. cbn. by rewrite Hn. }
  assert (oq_aaaa q3 = [(host, oa_addr_v6 ad)]) as Ha.
  { cbn [q3 query_aaaa oq_aaaa]. change (oq_aaaa q2) with (oq_aaaa q1). change (snd <$> oq_srv q2) with (Some host). rewrite Hp.
    unfold push_aaaa. by rewrite eqic_refl. }
  assert (addresses_for_target (oq_aaaa q3) host = [oa_addr_v6 ad]) as Hadr.
  { rewrite Ha. unfold addresses_for_target. cbn [foldl push_address]. by rewrite eqic_refl. }
  cbn [map]. eexists. unfold finish_query, try_finish. change (oq_resolved q3) with (oq_resolved q). rewrite H3.
  change (oq_srv q3) with (Some (oa_port ad, host)). cbv iota. rewrite Hadr. cbn [unresolved oq_resolved andb]. split_and!; [reflexivity| |reflexivity].
  cbn [oq_resolved]. f_equal.
Qed.
End found.

(** The device's answer to the query, as bytes. *)
Lemma device_answers ad s from : operational_ok ad → commissionable s = None → operational s = [ad] →
  let service := operational_service (oa_compressed_fabric_id ad) (oa_node_id ad) in
  ∃ query reply, encode_query (E:=DnssdError) 0 [(service, TYPE_SRV); (service, TYPE_TXT)] = Ok query ∧
    serve_datagram query from s = (posted [ {| sent_msg := reply; sent_to := Unicast from; sent_later := false |} ] s, Ok ()) ∧
    parse_message reply = Ok (map (rr_record true) (answer_rrs ad)) ∧ zlen reply ≤ 1500.
Proof.
  intros Hok Hc Ho service. pose proof (operational_service_ok ad Hok) as Hs.
  assert (name_ok service = true) as Hn by apply (so_instance _ Hs).
  destruct (query_understood (E:=DnssdError) 0 [(service, TYPE_SRV); (service, TYPE_TXT)]) as (query & Hq & Hpq); [by repeat constructor|done|].
  destruct (service_rrs (operational_records ad) PTR_TXT_TTL HOST_TTL service Hs) as (_ & Hsrv & Htxt & Haaaa); [done..|].
  assert (Forall rr_ok (answer_rrs ad)) as Hrrs by foralls.
  destruct (encode_message_parses [sr_srv (operational_records ad) HOST_TTL; sr_txt_rr (operational_records ad) PTR_TXT_TTL]
    [sr_aaaa (operational_records ad) HOST_TTL] true) as (reply & Ha & Hpa); [done|done|done|].
  exists query, reply. split_and!; [done| |done|].
  - assert (encode_operational_response (E:=Empty_set) service ad true = Ok (Some reply)) as Hr.
    { unfold encode_operational_response, respond. cbv zeta.
      assert (existsb (eq_ignore_ascii_case service) (sr_ptr_owners (operational_records ad)) = false) as ->.
      { cbn [operational_records sr_ptr_owners existsb]. rewrite orb_false_r. apply not_true_is_false. intros He%eqic_spec.
        apply (f_equal length) in He. unfold to_ascii_lowercase in He. rewrite !length_map in He.
        destruct (operational_instance_label ad Hok) as [_ Hl]. unfold service, operational_service, zlen in *. rewrite length_app in He.
        cbn in He. lia. }
      change (sr_instance_full (operational_records ad)) with service. rewrite eqic_refl. by rewrite Ha. }
    unfold serve_datagram. erewrite bind_ok by (unfold lift; rewrite Hpq; reflexivity). cbn [map answer existsb].
    unfold answer_name. erewrite bind_ok.
    2: { erewrite bind_ok by reflexivity. rewrite Hc, Ho. erewrite bind_ok by reflexivity. cbn [answer_operational].
         erewrite bind_ok by (unfold lift; rewrite Hr; reflexivity). cbn [send_response]. erewrite bind_ok by reflexivity. reflexivity. }
    cbn [app existsb]. by rewrite eqic_refl.
  - rewrite (encode_message_size [sr_srv (operational_records ad) HOST_TTL; sr_txt_rr (operational_records ad) PTR_TXT_TTL]
      [sr_aaaa (operational_records ad) HOST_TTL] true reply Hrrs Ha). cbn [app foldr sr_srv sr_txt_rr sr_aaaa rr_owner rdata_wire].
    destruct Hs as [_ (_ & _ & L1) (_ & _ & L2) _ _ L3]. rewrite L3. rewrite !(zlen_app (be16_bytes _)), !zlen_be16, zlen_name_wire.
    cbn [operational_records sr_txt]. change (zlen (concat (map push_txt [ascii "SII=300"; ascii "SAI=300"]))) with 16. lia.
Qed.

Section loop.
Context (ad : OperationalAdvert) (ad_ok : operational_ok ad).

Definition ready (st : ResolveState) : Prop := ∃ q, queries st = [q] ∧ waiting ad q ∧ refusals (sock st) = [].

Lemma ready_unresolved st : ready st → forallb (λ q, negb (unresolved q)) (queries st) = false.
Proof. intros (q & -> & (_ & _ & Hres & _) & _). cbn. unfold unresolved. by rewrite Hres. Qed.

Lemma send_if_due st t : ready st →
  ∃ st', (if next_send st <=? t then send_queries (queries st) ;;! set_next_send (t + QUERY_RESEND_INTERVAL) else ret ()) st = (st', Ok ()) ∧ ready st'.
Proof.
  intros (q & Hq & Hw & Hr). destruct (next_send st <=? t); [|exists st; split; [done|by exists q] ].
  assert (name_ok (oq_service q) = true) as Hn.
  { destruct Hw as (-> & _). apply (so_instance _ (operational_service_ok ad ad_ok)). }
  assert (Forall (λ q : bytes * Z, name_ok (fst q) = true) [(oq_service q, TYPE_SRV); (oq_service q, TYPE_TXT)]) as Hqs by (by repeat constructor).
  pose proof (encode_query_ok (E:=DnssdError) 0 _ Hqs) as He. set (msg := be16_bytes 0 ++ _) in He. clearbody msg.
  pose proof Hw as (_ & Hsrv & Hres & _). rewrite Hq. cbn [send_queries]. unfold unresolved. rewrite Hres, Hsrv.
  eexists. split.
  - erewrite bind_ok.
    2: { erewrite bind_ok; [reflexivity|]. erewrite bind_ok; [reflexivity|]. unfold send_query. erewrite bind_ok by (unfold lift; rewrite He; reflexivity).
         unfold send, sock_send. rewrite Hr. reflexivity. }
    reflexivity.
  - exists q. cbn. by rewrite Hq.
Qed.

Lemma take_harmless st buf : ready st → bytes_ok buf → forallb (harmless ad) (turn_records {| now := 0; received := Datagram buf |}) = true →
  ∃ st', take_datagram buf st = (st', Ok ()) ∧ ready st'.
Proof.
  intros (q & Hq & Hw & Hr) Hb Hh. unfold turn_records in Hh. cbn [received] in Hh. unfold take_datagram.
  pose proof (parse_message_spec (take RESOLVE_BUF buf) ltac:(by apply Forall_take)) as Hp.
  destruct (parse_message (take RESOLVE_BUF buf)) as [rs|e| |]; try done; [|by exists st; split; [|exists q] ].
  destruct (harmless_records ad rs q Hw Hh) as (q' & Hf & Hw'). eexists. split.
  - erewrite (bind_ok get) by reflexivity. cbv zeta. rewrite Hq, Hf. cbn [map]. rewrite (waiting_finish ad q' Hw'). cbn [map fst snd concat app].
    erewrite bind_ok by reflexivity. reflexivity.
  - by exists q'.
Qed.

Lemma take_answer st reply : ready st → parse_message reply = Ok (map (rr_record true) (answer_rrs ad)) → zlen reply ≤ 1500 →
  ∃ st' q', take_datagram reply st = (st', Ok ()) ∧ queries st' = [q'] ∧ oq_resolved q' = Some (found_node ad).
Proof.
  intros (q & Hq & Hw & Hr) Hp Hl. unfold take_datagram. rewrite take_ge by (unfold zlen, RESOLVE_BUF in *; lia). rewrite Hp.
  destruct (answer_completes ad q Hw) as (q' & Hf & Hres & _). eexists _, q'. split; [|split; [|exact Hres] ].
  - erewrite (bind_ok get) by reflexivity. cbv zeta. rewrite Hq, Hf. cbn [map fst snd concat app]. erewrite bind_ok by reflexivity. reflexivity.
  - done.
Qed.

Lemma found_loop deadline reply at_ rest : parse_message reply = Ok (map (rr_record true) (answer_rrs ad)) → zlen reply ≤ 1500 → at_ < deadline →
  ∀ noise, Forall (harmless_turn ad) noise → Forall (λ t, now t < deadline) noise → ∀ st, ready st →
  ∃ st' q', resolve_loop (noise ++ {| now := at_; received := Datagram reply |} :: rest) deadline st = (st', Ok ()) ∧
    queries st' = [q'] ∧ oq_resolved q' = Some (found_node ad).
Proof.
  intros Hp Hl Hat noise Hnoise Htimes. induction Hnoise as [|t noise Ht _ IH]; intros st Hst.
  - cbn [app resolve_loop]. erewrite (bind_ok get) by reflexivity. rewrite (ready_unresolved st Hst).
    cbn [now received]. rewrite (proj2 (Z.leb_gt _ _)) by done.
    destruct (send_if_due st at_ Hst) as (st1 & H1 & Hst1). erewrite bind_ok by exact H1.
    destruct (take_answer st1 reply Hst1 Hp Hl) as (st2 & q2 & H2 & Hq2 & Hr2). erewrite bind_ok by exact H2.
    exists st2, q2. split; [|done]. destruct rest; cbn [resolve_loop]; (erewrite (bind_ok get) by reflexivity); rewrite Hq2; cbn [forallb];
      unfold unresolved; by rewrite Hr2.
  - apply Forall_cons in Htimes as [Hnow Htimes]. cbn [app resolve_loop]. erewrite (bind_ok get) by reflexivity.
    rewrite (ready_unresolved st Hst). rewrite (proj2 (Z.leb_gt _ _)) by done.
    destruct (send_if_due st (now t) Hst) as (st1 & H1 & Hst1). erewrite bind_ok by exact H1. unfold harmless_turn in Ht.
    assert (∃ st2, match received t with TimedOut => ret () | RecvFailed => throw (Io "recv_from") | Datagram buf => take_datagram buf end st1 = (st2, Ok ()) ∧ ready st2)
      as (st2 & H2 & Hst2).
    { unfold turn_bytes, turn_records in Ht. destruct (received t) as [| |buf] eqn:Hr; [by exists st1|done|]. destruct Ht as [Hb Hh]. by apply take_harmless. }
    erewrite bind_ok by exact H2. by apply IH.
Qed.
End loop.

(** C40. A node that answers is found, whatever was said before.  The device
    answers the resolver's own query with one message; whatever datagrams came
    first (malformed ones, other services' records, a flood of AAAA records past
    the cap of the candidate pool), as long as none speaks for this node's
    instance or host and the socket works, the answer before the deadline
    resolves the node to its advertised port, address and intervals. *)
Theorem resolve_survives_flood ad s from : operational_ok ad → commissionable s = None → operational s = [ad] →
  ∃ query reply,
    encode_query (E:=DnssdError) 0 [(operational_service (oa_compressed_fabric_id ad) (oa_node_id ad), TYPE_SRV);
                                    (operational_service (oa_compressed_fabric_id ad) (oa_node_id ad), TYPE_TXT)] = Ok query ∧
    serve_datagram query from s = (posted [ {| sent_msg := reply; sent_to := Unicast from; sent_later := false |} ] s, Ok ()) ∧
    ∀ timeout start noise at_ rest,
      Forall (harmless_turn ad) noise → Forall (λ t, now t < start + timeout) noise → at_ < start + timeout →
      resolve_operational (oa_compressed_fabric_id ad) (oa_node_id ad) timeout start
        (noise ++ {| now := at_; received := Datagram reply |} :: rest) [] = Ok (found_node ad).
Proof.
  intros Hok Hc Ho. destruct (device_answers ad s from Hok Hc Ho) as (query & reply & Hq & Hs & Hp & Hl).
  exists query, reply. split; [done|]. split; [done|]. intros timeout start noise at_ rest Hnoise Htimes Hat.
  unfold resolve_operational, resolve_operational_many. cbn [map]. set (st := {| queries := _; next_send := _; sock := _ |}).
  destruct (found_loop ad Hok (start + timeout) reply at_ rest Hp Hl Hat noise Hnoise Htimes st) as (st' & q' & -> & -> & Hr).
  - eexists. split; [reflexivity|]. split; [|done]. unfold waiting. cbn. by split_and!.
  - cbn [map fst res_bind last]. unfold query_result. by rewrite Hr.
Qed.

(** A node found behind two turns of noise. *)
Lemma resolve_survives_flood_witness :
  ∃ reply, resolve_operational (oa_compressed_fabric_id example_node) (oa_node_id example_node) 8000 0
    [ {| now := 0; received := TimedOut |}; {| now := 1000; received := Datagram [1; 2; 3] |}; {| now := 1200; received := Datagram reply |} ] []
    = Ok (found_node example_node).
Proof.
  assert (operational_ok example_node) as Hok by (unfold operational_ok; cbn; split_and!; try done; by repeat constructor).
  destruct (resolve_survives_flood example_node {| commissionable := None; operational := [example_node]; sent := [] |} 0 Hok eq_refl eq_refl)
    as (query & reply & _ & _ & H). exists reply.
  apply (H 8000 0 [ {| now := 0; received := TimedOut |}; {| now := 1000; received := Datagram [1; 2; 3] |} ] 1200 []).
  - repeat constructor; vm_compute; done.
  - repeat constructor.
  - reflexivity.
Defined.

(** What the example device answers a query of the resolver with, and a datagram
    that claims the root name as the host of the same node. *)
Definition example_answer : bytes := Eval vm_compute in
  let service := operational_service (oa_compressed_fabric_id example_node) (oa_node_id example_node) in
  match encode_query (E:=DnssdError) 0 [(service, TYPE_SRV); (service, TYPE_TXT)] with
  | Ok query => match sent (fst (serve_datagram query 0 {| commissionable := None; operational := [example_node]; sent := [] |})) with
                | p :: _ => sent_msg p
                | [] => []
                end
  | _ => []
  end.

Definition example_root_target : bytes := Eval vm_compute in
  match push_name (E:=DnssdError) (operational_service (oa_compressed_fabric_id example_node) (oa_node_id example_node)) with
  | Ok service => [0; 0; 0x84; 0; 0; 0; 0; 1; 0; 0; 0; 0] ++ service ++ [0; 33; 0x80; 1; 0; 0; 0; 120; 0; 7; 0; 0; 0; 0; 0x15; 0xA4; 0]
  | _ => []
  end.

(** Two nodes asked for: the one that answers is reported, from its own records,
    and the other times out.  When a record names the root as the host, the
    assertion fires, and such a record was received. *)
Lemma resolve_sound_witness :
  let cfid := oa_compressed_fabric_id example_node in
  let script buf := [ {| now := 0; received := Datagram buf |}; {| now := 900; received := TimedOut |} ] in
  (∃ node, fst (resolve_operational_many cfid [7; 9] 8000 0 (script example_answer) [])
     = Ok [(7, Ok node); (9, Err (Timeout (operational_service cfid 9)))] ∧
   rn_port node = 5540 ∧ rn_addresses node = [oa_addr_v6 example_node] ∧
   node_from (records_of (script example_answer)) (operational_service cfid 7) node) ∧
  (fst (resolve_operational_many cfid [7; 9] 8000 0 (script example_root_target) []) = Panic ∧
   bad_target (records_of (script example_root_target))).
Proof.
  assert (Forall (in_u 64) [7; 9]) as Hids by (by repeat constructor).
  assert (bytes_ok (oa_compressed_fabric_id example_node)) as Hcf by (by repeat constructor).
  intros cfid script. split.
  - assert (Forall turn_bytes (script example_answer)) as Ht by (by repeat constructor).
    pose proof (resolve_sound cfid [7; 9] 8000 0 (script example_answer) [] Hcf eq_refl Hids Ht) as H.
    assert (fst (resolve_operational_many cfid [7; 9] 8000 0 (script example_answer) [])
      = Ok [(7, Ok {| rn_port := 5540; rn_addresses := [oa_addr_v6 example_node];
                      session_idle_interval_ms := Some 300; session_active_interval_ms := Some 300 |});
            (9, Err (Timeout (operational_service cfid 9)))]) as E by (vm_compute; reflexivity).
    rewrite E in H |- *. eexists. split; [reflexivity|]. split; [reflexivity|]. split; [reflexivity|].
    apply Forall2_cons_1 in H as [H _]. apply H.
  - assert (Forall turn_bytes (script example_root_target)) as Ht by (by repeat constructor).
    pose proof (resolve_sound cfid [7; 9] 8000 0 (script example_root_target) [] Hcf eq_refl Hids Ht) as H.
    assert (fst (resolve_operational_many cfid [7; 9] 8000 0 (script example_root_target) []) = Panic) as E by (vm_compute; reflexivity).
    rewrite E in H. by split.
Defined.

(** ** A device in commissioning mode is found *)

Section texts.
Lemma split_once_plain c k v : Forall (λ d, d ≠ c) k → split_once c (k ++ c :: v) = Some (k, v).
Proof.
  induction 1 as [|d k Hd _ IH]; cbn [app split_once]; [by rewrite Z.eqb_refl|].
  rewrite (proj2 (Z.eqb_neq _ _)) by done. by rewrite IH.
Qed.
Lemma txt_entry k v rest key : Forall (λ c, c ≠ 61) k → from_utf8 (k ++ 61 :: v) = true →
  txt_u32 ((k ++ 61 :: v) :: rest) key = if eq_ignore_ascii_case k key then parse_u32 v else txt_u32 rest key.
Proof. intros Hk Hu. cbn [txt_u32]. by rewrite Hu, split_once_plain. Qed.
End texts.

Lemma text_of k v : ascii_only k → plain v → from_utf8 (k ++ 61 :: v) = true.
Proof.
  intros Hk Hv. apply ascii_plain. apply Forall_app. split; [done|]. apply Forall_cons_2; [lia|]. by apply plain_ascii.
Qed.

(** The keys the controller reads from a commissionable advert. *)
Lemma advert_texts ad : commissionable_ok ad → let txt := sr_txt (commissionable_records ad) in
  txt_u32 txt (ascii "D") = Some (ca_discriminator ad) ∧ txt_u32 txt (ascii "SII") = Some 300 ∧ txt_u32 txt (ascii "SAI") = Some 300.
Proof.
  intros (_ & _ & Hd & Hv & Hp & _ & _ & Hcm) txt.
  destruct (format_dec_plain _ (in_u_small 16 _ ltac:(lia) Hd)) as [P1 _]. destruct (format_dec_plain _ (in_u_small 16 _ ltac:(lia) Hv)) as [P2 _].
  destruct (format_dec_plain _ (in_u_small 16 _ ltac:(lia) Hp)) as [P3 _]. destruct (format_dec_plain _ (in_u_small 8 _ ltac:(lia) Hcm)) as [P4 _].
  assert (plain (format_dec 1 (ca_vendor_id ad) ++ ascii "+" ++ format_dec 1 (ca_product_id ad))) as P23.
  { apply plain_app; [done|]. apply plain_app; [apply (Forall_cons_2 _ 43 []); [lia|apply Forall_nil_2]|done]. }
  assert (parse_u32 (format_dec 1 (ca_discriminator ad)) = Some (ca_discriminator ad)) as Hparse.
  { apply parse_u32_dec. unfold in_u in *. lia. }
  unfold txt. cbn [commissionable_records sr_txt].
  set (d := format_dec 1 (ca_discriminator ad)) in *. set (vp := format_dec 1 (ca_vendor_id ad) ++ _ ++ _) in *.
  set (cm := format_dec 1 (ca_cm ad)) in *. clearbody d vp cm.
  change (ascii "D=" ++ d) with (ascii "D" ++ 61 :: d). change (ascii "VP=" ++ vp) with (ascii "VP" ++ 61 :: vp).
  change (ascii "CM=" ++ cm) with (ascii "CM" ++ 61 :: cm).
  assert (∀ k v, k ∈ [ascii "D"; ascii "VP"; ascii "CM"] → plain v → ∀ rest key,
    txt_u32 ((k ++ 61 :: v) :: rest) key = if eq_ignore_ascii_case k key then parse_u32 v else txt_u32 rest key) as He.
  { intros k v Hk Hpl rest key. rewrite !elem_of_cons in Hk. destruct Hk as [->|[->|[->|Hk] ] ];
      [apply txt_entry; [by repeat constructor|apply text_of; [by repeat constructor|done] ]..|]. by apply not_elem_of_nil in Hk. }
  rewrite !(He (ascii "D") d), !(He (ascii "VP") vp), !(He (ascii "CM") cm) by (done || (rewrite !elem_of_cons; auto)).
  split_and!; [exact Hparse|reflexivity|reflexivity].
Qed.

Definition commissionable_node (ad : CommissionableAdvert) : ResolvedNode :=
  {| rn_port := ca_port ad; rn_addresses := [ca_addr_v6 ad]; session_idle_interval_ms := Some 300; session_active_interval_ms := Some 300 |}.
Definition advert_rrs (ad : CommissionableAdvert) : list Rr :=
  let sr := commissionable_records ad in
  [RrPtr (long_discriminator_subtype (ca_discriminator ad)) (sr_instance_full sr) PTR_TXT_TTL;
   sr_srv sr HOST_TTL; sr_txt_rr sr PTR_TXT_TTL; sr_aaaa sr HOST_TTL].

Lemma advert_records ad d : commissionable_ok ad →
  commissionable_from_records (map (rr_record true) (advert_rrs ad)) d =
  if d =? ca_discriminator ad then Some (commissionable_node ad) else None.
Proof.
  intros Hok. destruct (advert_texts ad Hok) as (Hd & Hs & Ha). set (sr := commissionable_records ad) in *.
  unfold commissionable_from_records, advert_rrs. cbv zeta. fold sr. cbn [map find_map].
  set (ptr := rr_record true (RrPtr _ _ _)). set (srv := rr_record true (sr_srv sr HOST_TTL)).
  set (txt := rr_record true (sr_txt_rr sr PTR_TXT_TTL)). set (aaaa := rr_record true (sr_aaaa sr HOST_TTL)).
  change (ptr_of ?s srv) with (@None bytes). change (ptr_of ?s txt) with (@None bytes). change (ptr_of ?s aaaa) with (@None bytes).
  change (ptr_of (long_discriminator_subtype d) ptr) with
    (if eq_ignore_ascii_case (long_discriminator_subtype (ca_discriminator ad)) (long_discriminator_subtype d) then Some (sr_instance_full sr) else None).
  destruct (eq_ignore_ascii_case (long_discriminator_subtype _) _) eqn:He.
  2: { destruct (Z.eqb_spec d (ca_discriminator ad)) as [->|]; [by rewrite eqic_refl in He|done]. }
  cbn [mbind option_bind].
  change (srv_of (sr_instance_full sr) ptr) with (@None (Z * bytes)).
  change (srv_of (sr_instance_full sr) srv) with
    (if eq_ignore_ascii_case (sr_instance_full sr) (sr_instance_full sr) then Some (sr_port sr, sr_host_full sr) else None).
  rewrite eqic_refl. cbn [mbind option_bind].
  change (txt_of (sr_instance_full sr) ptr) with (@None (list bytes)). change (txt_of (sr_instance_full sr) srv) with (@None (list bytes)).
  change (txt_of (sr_instance_full sr) txt) with
    (if eq_ignore_ascii_case (sr_instance_full sr) (sr_instance_full sr) then Some (sr_txt sr) else None).
  rewrite eqic_refl. cbn [mbind option_bind foldl].
  change (fold_aaaa (sr_host_full sr) (fold_aaaa (sr_host_full sr) (fold_aaaa (sr_host_full sr) [] ptr) srv) txt) with (@nil (bytes * bytes)).
  change (fold_aaaa (sr_host_full sr) [] aaaa) with (push_aaaa [] (Some (sr_host_full sr)) (sr_host_full sr) (sr_addr_v6 sr)).
  unfold push_aaaa. rewrite eqic_refl. cbn [negb existsb app]. change (MAX_AAAA <=? zlen []) with false. cbv iota.
  unfold build_commissionable. rewrite Hd.
  assert (addresses_for_target [(sr_host_full sr, sr_addr_v6 sr)] (sr_host_full sr) = [sr_addr_v6 sr]) as ->.
  { unfold addresses_for_target. cbn [foldl push_address]. by rewrite eqic_refl. }
  destruct (Z.eqb_spec d (ca_discriminator ad)) as [->|Hne].
  - rewrite bool_decide_eq_true_2 by done. unfold from_parts, commissionable_node. by rewrite Hs, Ha.
  - by rewrite bool_decide_eq_false_2 by congruence.
Qed.

(** No operational advert answers to a commissionable subtype. *)
Lemma lower_app a b : to_ascii_lowercase (a ++ b) = to_ascii_lowercase a ++ to_ascii_lowercase b.
Proof. apply map_app. Qed.
Lemma subtype_not_operational d ad q : operational_ok ad → q = long_discriminator_subtype d →
  response_rrs (operational_records ad) q = None.
Proof.
  intros Hok ->. unfold long_discriminator_subtype. change (ascii "._sub._matterc._udp.local") with (ascii "._sub._matterc._" ++ ascii "udp.local").
  rewrite !app_assoc. set (h := (_ ++ _) ++ ascii "._sub._matterc._"). unfold response_rrs. cbv zeta.
  assert (∀ a, eq_ignore_ascii_case (h ++ ascii "udp.local") (a ++ ascii "tcp.local") = false) as Htcp.
  { intros a. apply not_true_is_false. rewrite eqic_spec, !lower_app. intros He. by apply suffix_inj in He. }
  assert (existsb (eq_ignore_ascii_case (h ++ ascii "udp.local")) (sr_ptr_owners (operational_records ad)) = false) as ->.
  { cbn [operational_records sr_ptr_owners existsb]. rewrite orb_false_r. apply (Htcp (ascii "_matter._")). }
  assert (eq_ignore_ascii_case (h ++ ascii "udp.local") (sr_instance_full (operational_records ad)) = false) as ->.
  { cbn [operational_records sr_instance_full]. change (ascii "._matter._tcp.local") with (ascii "._matter._" ++ ascii "tcp.local").
    rewrite app_assoc. apply Htcp. }
  assert (eq_ignore_ascii_case (h ++ ascii "udp.local") (sr_host_full (operational_records ad)) = false) as ->; [|done].
  cbn [operational_records sr_host_full]. unfold host_full. apply not_true_is_false. rewrite eqic_spec.
  change (ascii "udp.local") with (ascii "udp" ++ ascii ".local"). rewrite app_assoc, !lower_app. intros He. apply app_inv_tail in He.
  destruct Hok as (_ & _ & _ & [Hp _] & _). assert (46 ∈ to_ascii_lowercase (oa_hostname ad)) as Hin.
  { rewrite <- He. unfold h. rewrite !lower_app, !elem_of_app. left. right. change (to_ascii_lowercase (ascii "._sub._matterc._")) with (ascii "._sub._matterc._").
    by left. }
  apply list_elem_of_fmap in Hin as (c & Hc & Hin). unfold plain in Hp. rewrite Forall_forall in Hp. destruct (Hp c Hin) as [H1 H2].
  unfold lower_byte in Hc. destruct ((65 <=? c) && (c <=? 90)) eqn:?; lia.
Qed.

Lemma response_rrs_none {E} s q unicast : response_rrs s q = None → respond (E:=E) s q unicast = Ok None.
Proof.
  unfold response_rrs, respond. cbv zeta. destruct (existsb _ _); [done|]. destruct (eq_ignore_ascii_case q (sr_instance_full s)); [done|].
  by destruct (eq_ignore_ascii_case q (sr_host_full s)).
Qed.

Lemma operational_silent d qu target ads s : Forall operational_ok ads →
  answer_operational (long_discriminator_subtype d) qu target ads s = (s, Ok ()).
Proof.
  induction 1 as [|ad ads Ha _ IH]; [done|]. cbn [answer_operational].
  erewrite bind_ok by (unfold lift, encode_operational_response; rewrite response_rrs_none by (by eapply subtype_not_operational); reflexivity).
  cbn [send_response]. erewrite bind_ok by reflexivity. exact IH.
Qed.

(** The device's answer to the query for its discriminator. *)
Lemma advertiser_answers ad s from : commissionable_ok ad → commissionable s = Some ad → Forall operational_ok (operational s) →
  ∃ query reply, encode_query (E:=DnssdError) 0 [(long_discriminator_subtype (ca_discriminator ad), TYPE_PTR)] = Ok query ∧
    serve_datagram query from s = (posted [ {| sent_msg := reply; sent_to := Unicast from; sent_later := false |} ] s, Ok ()) ∧
    parse_message reply = Ok (map (rr_record true) (advert_rrs ad)) ∧ zlen reply ≤ 1500.
Proof.
  intros Hok Hc Ho. pose proof (commissionable_service_ok ad Hok) as Hs. set (q := long_discriminator_subtype (ca_discriminator ad)).
  assert (name_ok q = true ∧ zlen q ≤ 100) as [Hn Hlq].
  { destruct Hok as (_ & _ & Hd & _). split; [by apply (subtype_ok 76); [left|]|]. unfold q, long_discriminator_subtype.
    destruct (format_dec_plain _ (in_u_small 16 _ ltac:(lia) Hd)) as [_ Hl]. rewrite !zlen_app. change (zlen (ascii "_L")) with 2.
    change (zlen (ascii "._sub._matterc._udp.local")) with 25. lia. }
  destruct (query_understood (E:=DnssdError) 0 [(q, TYPE_PTR)]) as (query & Hq & Hpq); [by repeat constructor|done|].
  destruct (service_rrs (commissionable_records ad) PTR_TXT_TTL HOST_TTL q Hs) as (Hptr & Hsrv & Htxt & Haaaa); [done..|].
  assert (Forall rr_ok (advert_rrs ad)) as Hrrs by (unfold advert_rrs; cbv zeta; foralls).
  destruct (encode_message_parses [RrPtr q (sr_instance_full (commissionable_records ad)) PTR_TXT_TTL]
    [sr_srv (commissionable_records ad) HOST_TTL; sr_txt_rr (commissionable_records ad) PTR_TXT_TTL; sr_aaaa (commissionable_records ad) HOST_TTL] true)
    as (reply & Ha & Hpa); [done|done|done|].
  exists query, reply. split_and!; [done| |done|].
  - assert (encode_commissionable_response (E:=Empty_set) q ad true = Ok (Some reply)) as Hr.
    { unfold encode_commissionable_response, respond. cbv zeta.
      assert (existsb (eq_ignore_ascii_case q) (sr_ptr_owners (commissionable_records ad)) = true) as ->.
      { apply existsb_exists. exists q. split; [|apply eqic_refl]. cbn [commissionable_records sr_ptr_owners]. right. by left. }
      by rewrite Ha. }
    unfold serve_datagram. erewrite bind_ok by (unfold lift; rewrite Hpq; reflexivity). cbn [map answer existsb].
    unfold answer_name. erewrite bind_ok.
    2: { erewrite bind_ok by reflexivity. rewrite Hc. erewrite bind_ok.
         2: { erewrite bind_ok by (unfold lift; rewrite Hr; reflexivity). reflexivity. }
         by apply operational_silent. }
    reflexivity.
  - rewrite (encode_message_size [RrPtr q (sr_instance_full (commissionable_records ad)) PTR_TXT_TTL]
      [sr_srv (commissionable_records ad) HOST_TTL; sr_txt_rr (commissionable_records ad) PTR_TXT_TTL; sr_aaaa (commissionable_records ad) HOST_TTL] true reply Hrrs Ha).
    cbn [app foldr sr_srv sr_txt_rr sr_aaaa rr_owner rdata_wire].
    destruct Hs as [_ (_ & _ & L1) (_ & _ & L2) _ [Lt Lc] L3]. rewrite L3. rewrite !(zlen_app (be16_bytes _)), !zlen_be16, !zlen_name_wire.
    assert (zlen (concat (map push_txt (sr_txt (commissionable_records ad)))) ≤ 120) as Hz; [|lia].
    assert (∀ t, zlen t ≤ 255 → zlen (push_txt t) = 1 + zlen t) as Hpt.
    { intros t Ht. unfold push_txt. rewrite Z.min_l, zslice_full by done. by rewrite zlen_cons. }
    assert (∀ w v, (w = 8 ∨ w = 16 ∨ w = 32) → in_u w v → zlen (format_dec 1 v) ≤ 20) as Hdec.
    { intros w v Hw Hin. destruct (format_dec_plain v (in_u_small w v Hw Hin)). lia. }
    destruct Hok as (_ & _ & Hd & Hv & Hp & _ & _ & Hcm).
    pose proof (Hdec 16 _ ltac:(lia) Hd). pose proof (Hdec 16 _ ltac:(lia) Hv). pose proof (Hdec 16 _ ltac:(lia) Hp).
    pose proof (Hdec 8 _ ltac:(lia) Hcm).
    assert (∀ t l, zlen t ≤ 255 → zlen (concat (map push_txt (t :: l))) = 1 + zlen t + zlen (concat (map push_txt l))) as Hcat.
    { intros t l Ht. cbn [map concat]. rewrite zlen_app, Hpt by done. lia. }
    unfold commissionable_records. cbn [sr_txt].
    assert (zlen (ascii "D=" ++ format_dec 1 (ca_discriminator ad)) ≤ 22) by (rewrite zlen_app; change (zlen (ascii "D=")) with 2; lia).
    assert (zlen (ascii "VP=" ++ format_dec 1 (ca_vendor_id ad) ++ ascii "+" ++ format_dec 1 (ca_product_id ad)) ≤ 44)
      by (rewrite !zlen_app; change (zlen (ascii "VP=")) with 3; change (zlen (ascii "+")) with 1; lia).
    assert (zlen (ascii "CM=" ++ format_dec 1 (ca_cm ad)) ≤ 23) by (rewrite zlen_app; change (zlen (ascii "CM=")) with 3; lia).
    rewrite !Hcat by (done || lia). change (zlen (ascii "SII=300")) with 7. change (zlen (ascii "SAI=300")) with 7. cbn [map concat].
    change (zlen []) with 0. lia.
Qed.

(** Turns with nothing to say. *)
Definition silent_turn (t : Turn) : Prop :=
  match received t with RecvFailed => False | _ => turn_bytes t ∧ turn_records t = [] end.

Section commissionable.
Context (ad : CommissionableAdvert) (ad_ok : commissionable_ok ad).

Definition c_ready (st : CommissionableState) : Prop := cs_srv st = None ∧ refusals (cs_sock st) = [].

Lemma c_send_if_due st t : c_ready st →
  ∃ st', (if cs_next_send st <=? t then
      c_send_query [(long_discriminator_subtype (ca_discriminator ad), TYPE_PTR)] ;;!
      match cs_srv st with Some (_, target) => c_send_query [(target, TYPE_AAAA)] | None => ret () end ;;!
      c_set_next_send (t + QUERY_RESEND_INTERVAL)
    else ret ()) st = (st', Ok ()) ∧ c_ready st'.
Proof.
  intros [Hs Hr]. destruct (cs_next_send st <=? t); [|by exists st]. rewrite Hs.
  assert (name_ok (long_discriminator_subtype (ca_discriminator ad)) = true) as Hn.
  { destruct ad_ok as (_ & _ & Hd & _). by apply (subtype_ok 76); [left|]. }
  pose proof (encode_query_ok (E:=DnssdError) 0 [(long_discriminator_subtype (ca_discriminator ad), TYPE_PTR)]) as He.
  set (msg := be16_bytes 0 ++ _) in He. clearbody msg. eexists. split.
  - erewrite bind_ok. 2: { unfold c_send_query. erewrite bind_ok by (unfold lift; rewrite He by (by repeat constructor); reflexivity).
      unfold sock_send. rewrite Hr. reflexivity. }
    erewrite bind_ok by reflexivity. reflexivity.
  - by split.
Qed.

Lemma c_take_silent d st buf : c_ready st → bytes_ok buf → turn_records {| now := 0; received := Datagram buf |} = [] →
  ∃ st', c_take_datagram d buf st = (st', Ok None) ∧ c_ready st'.
Proof.
  intros [Hs Hr] Hb Hrec. unfold turn_records in Hrec. cbn [received] in Hrec. unfold c_take_datagram, commissionable_from_response.
  pose proof (parse_message_spec (take RESOLVE_BUF buf) ltac:(by apply Forall_take)) as Hp.
  destruct (parse_message (take RESOLVE_BUF buf)) as [rs|e| |]; try done; [subst rs|].
  - exists st. split; [|done]. erewrite bind_ok by reflexivity. change (commissionable_from_records [] d) with (@None ResolvedNode). cbv iota.
    erewrite bind_ok by reflexivity.
    erewrite (bind_ok get) by reflexivity. cbn [foldl]. by rewrite Hs.
  - exists st. split; [|done]. by erewrite bind_ok by reflexivity.
Qed.

Lemma c_found_loop deadline reply at_ rest : parse_message reply = Ok (map (rr_record true) (advert_rrs ad)) → zlen reply ≤ 1500 → at_ < deadline →
  ∀ noise, Forall silent_turn noise → Forall (λ t, now t < deadline) noise → ∀ st, c_ready st →
  snd (commissionable_loop (ca_discriminator ad) (noise ++ {| now := at_; received := Datagram reply |} :: rest) deadline st) = Ok (commissionable_node ad).
Proof.
  intros Hp Hl Hat noise Hnoise Htimes. induction Hnoise as [|t noise Ht _ IH]; intros st Hst.
  - cbn [app commissionable_loop]. erewrite (bind_ok get) by reflexivity. cbv zeta. cbn [now received].
    rewrite (proj2 (Z.leb_gt _ _)) by done. destruct (c_send_if_due st at_ Hst) as (st1 & H1 & Hst1). erewrite bind_ok by exact H1.
    erewrite bind_ok. 2: { unfold c_take_datagram, commissionable_from_response. rewrite take_ge by (unfold zlen, RESOLVE_BUF in *; lia). rewrite Hp.
      rewrite advert_records by done. rewrite Z.eqb_refl. erewrite bind_ok by reflexivity. reflexivity. }
    done.
  - apply Forall_cons in Htimes as [Hnow Htimes]. cbn [app commissionable_loop]. erewrite (bind_ok get) by reflexivity. cbv zeta.
    rewrite (proj2 (Z.leb_gt _ _)) by done. destruct (c_send_if_due st (now t) Hst) as (st1 & H1 & Hst1). erewrite bind_ok by exact H1.
    unfold silent_turn, turn_bytes, turn_records in Ht. destruct (received t) as [| |buf] eqn:Hr; [by apply IH|done|]. destruct Ht as [Hb Hh].
    destruct (c_take_silent (ca_discriminator ad) st1 buf Hst1 Hb Hh) as (st2 & H2 & Hst2). erewrite bind_ok by exact H2. by apply IH.
Qed.
End commissionable.

(** C20. A device in commissioning mode is found by its discriminator, and only
    by it.  Its advertiser answers the controller's subtype query, whatever
    fabrics it also serves, with one message that any single parse resolves to
    the advertised port, address and intervals for its own discriminator and to
    nothing for another; so a commissioning resolution that hears it before the
    deadline returns it. *)
Theorem commissionable_discovered ad s from :
  commissionable_ok ad → commissionable s = Some ad → Forall operational_ok (operational s) →
  ∃ query reply,
    encode_query (E:=DnssdError) 0 [(long_discriminator_subtype (ca_discriminator ad), TYPE_PTR)] = Ok query ∧
    serve_datagram query from s = (posted [ {| sent_msg := reply; sent_to := Unicast from; sent_later := false |} ] s, Ok ()) ∧
    (∀ d, commissionable_from_response (E:=Empty_set) reply d = Ok (if d =? ca_discriminator ad then Some (commissionable_node ad) else None)) ∧
    ∀ timeout start noise at_ rest,
      Forall silent_turn noise → Forall (λ t, now t < start + timeout) noise → at_ < start + timeout →
      resolve_commissionable (ca_discriminator ad) timeout start (noise ++ {| now := at_; received := Datagram reply |} :: rest) [] =
        Ok (commissionable_node ad).
Proof.
  intros Hok Hc Ho. destruct (advertiser_answers ad s from Hok Hc Ho) as (query & reply & Hq & Hs & Hp & Hl).
  exists query, reply. split_and!; [done|done| |].
  - intros d. unfold commissionable_from_response. rewrite Hp. by rewrite advert_records.
  - intros timeout start noise at_ rest Hn Ht Hat. by apply c_found_loop.
Qed.

Lemma commissionable_discovered_witness :
  ∃ reply, commissionable_from_response (E:=Empty_set) reply 840 = Ok (Some (commissionable_node (example_advert "B007" 1))) ∧
    commissionable_from_response (E:=Empty_set) reply 841 = Ok None.
Proof.
  assert (commissionable_ok (example_advert "B007" 1)) as Hok by (apply example_advert_ok; [by repeat constructor|done]).
  destruct (commissionable_discovered (example_advert "B007" 1)
    {| commissionable := Some (example_advert "B007" 1); operational := []; sent := [] |} 0 Hok eq_refl (Forall_nil_2 _))
    as (query & reply & _ & _ & H & _). exists reply. split; [exact (H 840)|exact (H 841)].
Defined.
