(* ===== verification/Browse.v ===== *)
(** * Browsing for devices in commissioning mode

    Models [crates/mat-controller/src/dnssd/browse.rs]: what is gathered from
    the datagrams of a fixed window, the queries that are repeated meanwhile,
    and the instances reported at its end.  As in [Resolve], the clock and the
    socket are a script. *)

From Stdlib Require Import String.
From S2P Require Import Prelude Tlv TlvValue Fabrics Certs X509 Exchange Handshake Dns MdnsRecords Resolve.

Open Scope string_scope.
Open Scope list_scope.
Open Scope Z_scope.

Definition MAX_INSTANCES : Z := 128.
Definition MAX_BROWSE_AAAA : Z := 64.
Definition MAX_QUESTIONS_PER_MSG : nat := 8.
Definition BROWSE_BUF : nat := Z.to_nat 9000.

Record CommissionableInstance := {
  ci_hostname : option bytes;
  ci_port : option Z;
  ci_addresses : list bytes;
  ci_discriminator : option Z;
  ci_vendor_id : option Z;
  ci_product_id : option Z
}.

Record FoldedInstance := {
  fi_port : option Z;
  fi_target : option bytes;
  fi_txt : list bytes;
  fi_addresses : list bytes
}.

Record InstanceFold := { if_srv : option (Z * bytes); if_txt : option (list bytes); if_ttl : Z }.

Record BrowseFold := {
  bf_service : bytes;
  bf_instances : list (bytes * InstanceFold);
  bf_aaaa : Candidates
}.

Definition BrowseFold_new (service : bytes) : BrowseFold :=
  {| bf_service := service; bf_instances := []; bf_aaaa := [] |}.

Definition with_instances (l : list (bytes * InstanceFold)) (f : BrowseFold) : BrowseFold :=
  {| bf_service := bf_service f; bf_instances := l; bf_aaaa := bf_aaaa f |}.
(** [instances.iter_mut().find(..)] by name, and its use. *)
Definition named (nm : bytes) (i : bytes * InstanceFold) : bool := eq_ignore_ascii_case (fst i) nm.
Definition update_instance (nm : bytes) (g : InstanceFold → InstanceFold) (f : BrowseFold) : BrowseFold :=
  with_instances (update_first (named nm) (λ i, (fst i, g (snd i))) (bf_instances f)) f.

(** The first pass, over PTR records. *)
Definition fold_ptr (f : BrowseFold) (r : DnsRecord) : BrowseFold :=
  match rdata r with
  | Ptr inst =>
      if negb (eq_ignore_ascii_case (name r) (bf_service f)) then f
      else if existsb (named inst) (bf_instances f) then
        update_instance inst (λ i, {| if_srv := if_srv i; if_txt := if_txt i; if_ttl := ttl r |}) f
      else if zlen (bf_instances f) <? MAX_INSTANCES then
        with_instances (bf_instances f ++ [(inst, {| if_srv := None; if_txt := None; if_ttl := ttl r |})]) f
      else f
  | _ => f
  end.

(** The second pass, over the others. *)
Definition fold_other (f : BrowseFold) (r : DnsRecord) : BrowseFold :=
  match rdata r with
  | Srv port target =>
      update_instance (name r) (λ i, {| if_srv := Some (port, target); if_txt := if_txt i; if_ttl := if_ttl i |}) f
  | Txt strings =>
      update_instance (name r) (λ i, {| if_srv := if_srv i; if_txt := Some strings; if_ttl := if_ttl i |}) f
  | Aaaa addr =>
      if (zlen (bf_aaaa f) <? MAX_BROWSE_AAAA) &&
         negb (existsb (λ '(n, a), bool_decide (a = addr) && eq_ignore_ascii_case n (name r)) (bf_aaaa f)) then
        {| bf_service := bf_service f; bf_instances := bf_instances f; bf_aaaa := bf_aaaa f ++ [(name r, addr)] |}
      else f
  | _ => f
  end.

Definition fold_records (f : BrowseFold) (records : list DnsRecord) : BrowseFold :=
  foldl fold_other (foldl fold_ptr f records) records.

Definition pending_of (aaaa : Candidates) (i : bytes * InstanceFold) : list (bytes * Z) :=
  let '(nm, f) := i in
  match if_srv f with Some _ => [] | None => [(nm, TYPE_SRV)] end ++
  match if_txt f with Some _ => [] | None => [(nm, TYPE_TXT)] end ++
  match if_srv f with
  | Some (_, target) =>
      if existsb (λ '(n, _), eq_ignore_ascii_case n target) aaaa then [] else [(target, TYPE_AAAA)]
  | None => []
  end.
Definition pending_questions (f : BrowseFold) : list (bytes * Z) :=
  concat (map (pending_of (bf_aaaa f)) (bf_instances f)).

Definition known_answers (f : BrowseFold) : list (bytes * Z) :=
  map (λ '(nm, i), (nm, if_ttl i)) (List.filter (λ '(_, i), negb (if_ttl i =? 0)) (bf_instances f)).

Definition finish_instance (pool : Candidates) (i : InstanceFold) : FoldedInstance :=
  {| fi_port := fst <$> if_srv i;
     fi_target := snd <$> if_srv i;
     fi_txt := default [] (if_txt i);
     fi_addresses := match if_srv i with Some (_, t) => addresses_for_target pool t | None => [] end |}.
Definition finish (f : BrowseFold) : list FoldedInstance :=
  map (λ '(_, i), finish_instance (bf_aaaa f) i) (bf_instances f).

(** ** The window *)

(** [pending.chunks(n)]. *)
Fixpoint chunks_fuel {X} (fuel n : nat) (l : list X) : list (list X) :=
  match fuel, l with
  | O, _ | _, [] => []
  | S fuel, _ => take n l :: chunks_fuel fuel n (drop n l)
  end.
Definition chunks {X} (n : nat) (l : list X) : list (list X) := chunks_fuel (length l) n l.

Record BrowseState := { b_fold : BrowseFold; b_next_send : Z; b_sock : Sock }.
Abbreviation BM := (M BrowseState DnssdError).

Definition b_send (msg : bytes) : BM () := λ s,
  let '(k, r) := sock_send msg (b_sock s) in ({| b_fold := b_fold s; b_next_send := b_next_send s; b_sock := k |}, r).
Fixpoint send_packets (packets : list bytes) : BM () :=
  match packets with [] => ret () | p :: ps => b_send p ;;! send_packets ps end.
Fixpoint send_pending (groups : list (list (bytes * Z))) : BM () :=
  match groups with
  | [] => ret ()
  | g :: gs => let! q := lift (encode_query 0 g) in b_send q ;;! send_pending gs
  end.

(** The queries of a turn that is due. *)
Definition send_round (service : bytes) (t : Z) : BM () :=
  let! s := get in
  let! packets := lift (Handshake.fin_in (encode_ptr_query_with_known service (known_answers (b_fold s)))) in
  send_packets packets ;;!
  send_pending (chunks MAX_QUESTIONS_PER_MSG (pending_questions (b_fold s))) ;;!
  modify (λ s, {| b_fold := b_fold s; b_next_send := t + QUERY_RESEND_INTERVAL; b_sock := b_sock s |}).

Definition b_take_datagram (buf : bytes) : BM () :=
  match parse_message (take BROWSE_BUF buf) with
  | Ok records => modify (λ s, {| b_fold := fold_records (b_fold s) records; b_next_send := b_next_send s; b_sock := b_sock s |})
  | Err _ => ret ()
  | Panic => panic
  | OutOfFuel => out_of_fuel
  end.

Fixpoint browse_loop (service : bytes) (script : list Turn) (deadline : Z) : BM (list FoldedInstance) :=
  let! s := get in
  match script with
  | [] => ret (finish (b_fold s))
  | turn :: script =>
      if deadline <=? now turn then ret (finish (b_fold s))
      else
        (if b_next_send s <=? now turn then send_round service (now turn) else ret ()) ;;!
        match received turn with
        | TimedOut => ret ()
        | RecvFailed => throw (Io "recv_from")
        | Datagram buf => b_take_datagram buf
        end ;;!
        browse_loop service script deadline
  end.

Definition browse (service : bytes) (window start : Z) (script : list Turn) (refusals : list bool) : DE (list FoldedInstance) :=
  snd (browse_loop service script (start + window)
    {| b_fold := BrowseFold_new service; b_next_send := start; b_sock := Sock_new refusals |}).

(** ** What is reported *)

(** [split_once('+')] of the TXT key [VP]. *)
Definition split_vp (vp : bytes) : option Z * option Z :=
  match split_once 43 vp with
  | Some (v, p) => (parse_u32 v, parse_u32 p)
  | None => (parse_u32 vp, None)
  end.

(** [strip_suffix(".local")]. *)
Definition hostname_from_target (target : bytes) : bytes :=
  let suffix := ascii ".local" in
  let k := zlen target - zlen suffix in
  if (0 <=? k) && bool_decide (zslice k (zlen target) target = suffix) then zslice 0 k target else target.

Definition commissionable_from_fold (f : FoldedInstance) : option CommissionableInstance :=
  let discriminator := txt_u32 (fi_txt f) (ascii "D") in
  let '(vendor_id, product_id) := match txt_str (fi_txt f) (ascii "VP") with Some vp => split_vp vp | None => (None, None) end in
  let c := {| ci_hostname := hostname_from_target <$> fi_target f; ci_port := fi_port f; ci_addresses := fi_addresses f;
              ci_discriminator := discriminator; ci_vendor_id := vendor_id; ci_product_id := product_id |} in
  match ci_hostname c, ci_port c, ci_addresses c, ci_discriminator c, ci_vendor_id c, ci_product_id c with
  | None, None, [], None, None, None => None
  | _, _, _, _, _, _ => Some c
  end.

Definition browse_commissionable (window start : Z) (script : list Turn) (refusals : list bool) : DE (list CommissionableInstance) :=
  let? l := browse MATTERC_SERVICE window start script refusals in
  Ok (omap commissionable_from_fold l).

(** * Proofs *)

(** ** What the answers of well-formed devices fold into *)

#[global] Instance CommissionableAdvert_eq_dec : EqDecision CommissionableAdvert.
Proof. solve_decision. Defined.

(** What a browser shows of a device. *)
Definition listed (ad : CommissionableAdvert) : CommissionableInstance :=
  {| ci_hostname := Some (ca_hostname ad); ci_port := Some (ca_port ad); ci_addresses := [ca_addr_v6 ad];
     ci_discriminator := Some (ca_discriminator ad); ci_vendor_id := Some (ca_vendor_id ad); ci_product_id := Some (ca_product_id ad) |}.
(** Devices in the order of their first answer. *)
Definition hear_advert (l : list CommissionableAdvert) (ad : CommissionableAdvert) : list CommissionableAdvert :=
  if bool_decide (ad ∈ l) then l else l ++ [ad].

Definition browse_rrs (ad : CommissionableAdvert) : list Rr :=
  let sr := commissionable_records ad in
  [RrPtr MATTERC_SERVICE (sr_instance_full sr) PTR_TXT_TTL; sr_srv sr HOST_TTL; sr_txt_rr sr PTR_TXT_TTL; sr_aaaa sr HOST_TTL].

Definition instance_of (ad : CommissionableAdvert) : bytes * InstanceFold :=
  let sr := commissionable_records ad in
  (sr_instance_full sr, {| if_srv := Some (sr_port sr, sr_host_full sr); if_txt := Some (sr_txt sr); if_ttl := PTR_TXT_TTL |}).
Definition candidate_of (ad : CommissionableAdvert) : bytes * bytes := (host_full (ca_hostname ad), ca_addr_v6 ad).
Definition gathered (l : list CommissionableAdvert) : BrowseFold :=
  {| bf_service := MATTERC_SERVICE; bf_instances := map instance_of l; bf_aaaa := map candidate_of l |}.

Lemma browse_answer_parses ad unicast reply : commissionable_ok ad →
  encode_commissionable_response (E:=Empty_set) MATTERC_SERVICE ad unicast = Ok (Some reply) →
  parse_message reply = Ok (map (rr_record unicast) (browse_rrs ad)) ∧ zlen reply ≤ 9000.
Proof.
  intros Hok Hr. pose proof (commissionable_service_ok ad Hok) as Hs.
  destruct (service_rrs (commissionable_records ad) PTR_TXT_TTL HOST_TTL MATTERC_SERVICE Hs) as (Hptr & Hsrv & Htxt & Haaaa); [done..|].
  destruct (encode_message_parses [RrPtr MATTERC_SERVICE (sr_instance_full (commissionable_records ad)) PTR_TXT_TTL]
    [sr_srv (commissionable_records ad) HOST_TTL; sr_txt_rr (commissionable_records ad) PTR_TXT_TTL; sr_aaaa (commissionable_records ad) HOST_TTL] unicast)
    as (b & Hb & Hp); [foralls|done|done|].
  unfold encode_commissionable_response, respond in Hr. cbv zeta in Hr.
  assert (existsb (eq_ignore_ascii_case MATTERC_SERVICE) (sr_ptr_owners (commissionable_records ad)) = true) as He.
  { apply existsb_exists. exists MATTERC_SERVICE. split; [|apply eqic_refl]. by left. }
  rewrite He, Hb in Hr. apply Ok_inj in Hr. injection Hr as <-. split; [done|].
  rewrite (encode_message_size [RrPtr MATTERC_SERVICE (sr_instance_full (commissionable_records ad)) PTR_TXT_TTL]
    [sr_srv (commissionable_records ad) HOST_TTL; sr_txt_rr (commissionable_records ad) PTR_TXT_TTL; sr_aaaa (commissionable_records ad) HOST_TTL]
    unicast b) by (done || foralls).
  destruct Hs as [_ (_ & _ & L1) (_ & _ & L2) _ [Lt Lc] L3]. pose proof (push_txt_bound _ Lt) as Hz.
  cbn [app foldr sr_srv sr_txt_rr sr_aaaa rr_owner rdata_wire]. rewrite L3. rewrite !(zlen_app (be16_bytes _)), !zlen_be16, !zlen_name_wire.
  change (zlen MATTERC_SERVICE) with 19. lia.
Qed.

(** Names that differ in case at most end alike. *)
Lemma eqic_app_inv a b s : eq_ignore_ascii_case (a ++ s) (b ++ s) = eq_ignore_ascii_case a b.
Proof.
  apply eq_iff_eq_true. rewrite !eqic_spec, !lower_app. split; [apply app_inv_tail|by intros ->].
Qed.

Section network.
(** Devices in commissioning mode, distinct by instance and by host. *)
Context (net : list CommissionableAdvert).
Definition network_ok : Prop :=
  Forall commissionable_ok net ∧ (length net ≤ 64)%nat ∧
  (∀ a b, a ∈ net → b ∈ net → eq_ignore_ascii_case (ca_instance a) (ca_instance b) = true → a = b) ∧
  (∀ a b, a ∈ net → b ∈ net → eq_ignore_ascii_case (ca_hostname a) (ca_hostname b) = true → a = b).
Context (net_ok : network_ok).

Definition known_devices (l : list CommissionableAdvert) : Prop := NoDup l ∧ l ⊆ net.

Lemma known_devices_hear l ad : known_devices l → ad ∈ net → known_devices (hear_advert l ad).
Proof.
  intros [Hn Hs] Ha. unfold hear_advert. case_bool_decide as Hin; [done|]. split.
  - apply NoDup_app. split_and!; [done| |apply NoDup_singleton]. intros x Hx ->%list_elem_of_singleton. done.
  - intros x [Hx| ->%list_elem_of_singleton]%elem_of_app; [by apply Hs|done].
Qed.
Lemma known_devices_room l ad : known_devices l → ad ∈ net → ad ∉ l → zlen l < 64.
Proof.
  intros [Hn Hs] Ha Hl. destruct net_ok as (_ & Hlen & _).
  assert (length (ad :: l) ≤ length net)%nat; [|unfold zlen; cbn in *; lia].
  apply submseteq_length, NoDup_submseteq; [by constructor|]. intros x [->|Hx]%elem_of_cons; [done|by apply Hs].
Qed.

Lemma named_instance a b : a ∈ net → b ∈ net → named (sr_instance_full (commissionable_records b)) (instance_of a) = bool_decide (a = b).
Proof.
  intros Ha Hb. unfold named, instance_of. cbn [fst commissionable_records sr_instance_full]. rewrite eqic_app_inv.
  destruct net_ok as (_ & _ & Hi & _). case_bool_decide as He; [subst; apply eqic_refl|]. apply not_true_is_false. intros H. by apply He, Hi.
Qed.
Lemma host_match a b : a ∈ net → b ∈ net → eq_ignore_ascii_case (host_full (ca_hostname a)) (host_full (ca_hostname b)) = bool_decide (a = b).
Proof.
  intros Ha Hb. unfold host_full. rewrite eqic_app_inv.
  destruct net_ok as (_ & _ & _ & Hh). case_bool_decide as He; [subst; apply eqic_refl|]. apply not_true_is_false. intros H. by apply He, Hh.
Qed.

Lemma existsb_member {X} (p : X → bool) (f : CommissionableAdvert → X) l ad :
  (∀ a, a ∈ l → p (f a) = bool_decide (a = ad)) → existsb p (map f l) = bool_decide (ad ∈ l).
Proof.
  intros Hp. induction l as [|a l IH]; [rewrite bool_decide_eq_false_2; [done|apply not_elem_of_nil]|]. cbn [map existsb].
  rewrite Hp by (by left). rewrite IH by (intros b Hb; apply Hp; by right). apply eq_iff_eq_true. rewrite orb_true_iff, !bool_decide_eq_true, elem_of_cons.
  split; intros [?|?]; subst; auto.
Qed.

Lemma update_absent {X} (p : X → bool) f l : existsb p l = false → update_first p f l = l.
Proof. induction l as [|x l IH]; [done|]. cbn [existsb update_first]. intros [-> Hl]%orb_false_iff. by rewrite IH. Qed.
Lemma update_last {X} (p : X → bool) f l x : existsb p l = false → p x = true → update_first p f (l ++ [x]) = l ++ [f x].
Proof.
  intros Hl Hx. induction l as [|y l IH]; cbn [app update_first existsb] in *; [by rewrite Hx|].
  apply orb_false_iff in Hl as [-> Hl]. by rewrite IH.
Qed.
(** Updating a known device with what is known of it already. *)
Lemma update_same l ad g : known_devices l → ad ∈ net → g (snd (instance_of ad)) = snd (instance_of ad) →
  update_first (named (sr_instance_full (commissionable_records ad))) (λ i, (fst i, g (snd i))) (map instance_of l) = map instance_of l.
Proof.
  intros [_ Hs] Ha Hg. induction l as [|a l IH]; [done|]. apply list_subseteq_cons_iff in Hs as [Hal Hs]. cbn [map update_first].
  rewrite named_instance by done. case_bool_decide as He.
  - subst a. by rewrite Hg.
  - f_equal. by apply IH.
Qed.

Lemma heard_instances l ad : known_devices l → ad ∈ net →
  existsb (named (sr_instance_full (commissionable_records ad))) (map instance_of l) = bool_decide (ad ∈ l).
Proof. intros [_ Hs] Ha. apply existsb_member. intros a Hal. apply named_instance; [by apply Hs|done]. Qed.
Lemma heard_hosts l ad addr : known_devices l → ad ∈ net → addr = ca_addr_v6 ad →
  existsb (λ '(n, a), bool_decide (a = addr) && eq_ignore_ascii_case n (host_full (ca_hostname ad))) (map candidate_of l) = bool_decide (ad ∈ l).
Proof.
  intros [_ Hs] Ha ->. apply (existsb_member (λ '(n, a), bool_decide (a = _) && eq_ignore_ascii_case n _)). intros a Hal. unfold candidate_of.
  rewrite host_match by (done || by apply Hs). destruct (decide (a = ad)) as [->|Hne].
  - by rewrite !bool_decide_eq_true_2.
  - by rewrite (bool_decide_eq_false_2 (a = ad)), andb_false_r by done.
Qed.

(** One answer: a device heard before changes nothing, a new one is appended. *)
Lemma fold_answer l ad unicast : known_devices l → ad ∈ net →
  fold_records (gathered l) (map (rr_record unicast) (browse_rrs ad)) = gathered (hear_advert l ad).
Proof.
  intros Hl Ha. pose proof (heard_instances l ad Hl Ha) as Hin. pose proof (heard_hosts l ad _ Hl Ha eq_refl) as Hh.
  set (sr := commissionable_records ad) in *. set (nm := sr_instance_full sr) in *.
  set (g_ptr := λ i, {| if_srv := if_srv i; if_txt := if_txt i; if_ttl := PTR_TXT_TTL |}).
  set (g_srv := λ i, {| if_srv := Some (sr_port sr, sr_host_full sr); if_txt := if_txt i; if_ttl := if_ttl i |}).
  set (g_txt := λ i, {| if_srv := if_srv i; if_txt := Some (sr_txt sr); if_ttl := if_ttl i |}).
  set (fresh := {| if_srv := None; if_txt := None; if_ttl := PTR_TXT_TTL |}).
  assert (fold_records (gathered l) (map (rr_record unicast) (browse_rrs ad)) =
    fold_other (update_instance nm g_txt (update_instance nm g_srv
      (fold_ptr (gathered l) (rr_record unicast (RrPtr MATTERC_SERVICE nm PTR_TXT_TTL))))) (rr_record unicast (sr_aaaa sr HOST_TTL))) as -> by reflexivity.
  assert (fold_ptr (gathered l) (rr_record unicast (RrPtr MATTERC_SERVICE nm PTR_TXT_TTL)) =
    if existsb (named nm) (map instance_of l) then update_instance nm g_ptr (gathered l)
    else if zlen (map instance_of l) <? MAX_INSTANCES then with_instances (map instance_of l ++ [(nm, fresh)]) (gathered l) else gathered l) as ->.
  { unfold fold_ptr. cbn [rr_record rdata rr_rdata_of name rr_owner]. by rewrite eqic_refl. }
  rewrite Hin. unfold hear_advert. case_bool_decide as Hal.
  - assert (∀ g, g (snd (instance_of ad)) = snd (instance_of ad) → update_instance nm g (gathered l) = gathered l) as Hup.
    { intros g Hg. unfold update_instance, with_instances. cbn [gathered bf_instances bf_service bf_aaaa]. pose proof (update_same l ad g Hl Ha Hg) as Hu. fold sr nm in Hu. by rewrite Hu. }
    rewrite !Hup by done. unfold fold_other. cbn [rr_record rdata rr_rdata_of sr_aaaa name rr_owner gathered bf_aaaa].
    change (sr_host_full sr) with (host_full (ca_hostname ad)). change (sr_addr_v6 sr) with (ca_addr_v6 ad). rewrite Hh. cbn [negb]. by rewrite andb_false_r.
  - pose proof (known_devices_room l ad Hl Ha Hal) as Hroom.
    rewrite (proj2 (Z.ltb_lt _ _)) by (unfold MAX_INSTANCES, zlen in *; rewrite length_map; lia).
    assert (∀ i g, update_instance nm g (with_instances (map instance_of l ++ [(nm, i)]) (gathered l)) =
      with_instances (map instance_of l ++ [(nm, g i)]) (gathered l)) as Hup.
    { intros i g. unfold update_instance, with_instances. cbn [gathered bf_instances bf_service bf_aaaa].
      rewrite update_last; [done|exact Hin|apply eqic_refl]. }
    rewrite !Hup. unfold fold_other. cbn [rr_record rdata rr_rdata_of sr_aaaa name rr_owner gathered bf_aaaa with_instances bf_service bf_instances].
    change (sr_host_full sr) with (host_full (ca_hostname ad)). change (sr_addr_v6 sr) with (ca_addr_v6 ad). rewrite Hh.
    rewrite (proj2 (Z.ltb_lt _ _)) by (unfold MAX_BROWSE_AAAA, zlen in *; rewrite length_map; lia). cbn [negb andb].
    unfold gathered. by rewrite !map_app.
Qed.

(** Nothing more is asked about a device that answered. *)
Lemma nothing_pending l : known_devices l → pending_questions (gathered l) = [].
Proof.
  intros [Hn Hs]. unfold pending_questions. cbn [gathered bf_aaaa bf_instances].
  assert (∀ l', l' ⊆ l → concat (map (pending_of (map candidate_of l)) (map instance_of l')) = []) as H; [|by apply H].
  induction l' as [|a l' IH]; [done|]. intros [Ha Hl]%list_subseteq_cons_iff. cbn [map concat]. rewrite IH by done. rewrite app_nil_r.
  unfold pending_of, instance_of. cbn [if_srv if_txt app].
  change (sr_host_full (commissionable_records a)) with (host_full (ca_hostname a)).
  rewrite (existsb_member (λ '(n, _), eq_ignore_ascii_case n (host_full (ca_hostname a))) candidate_of l a).
  - by rewrite bool_decide_eq_true_2.
  - intros b Hb. unfold candidate_of. by rewrite host_match by (by apply Hs; done).
Qed.

Lemma plain_label l : host_label l → label_ok l = true.
Proof.
  intros [Hp Hl]. unfold label_ok. rewrite (ascii_plain l) by (by apply plain_ascii).
  rewrite (proj2 (Z.leb_le 1 _)), (proj2 (Z.leb_le _ 63)) by lia. done.
Qed.

Lemma round_packets l : known_devices l → ∃ packets, encode_ptr_query_with_known MATTERC_SERVICE (known_answers (gathered l)) = Ok packets.
Proof.
  intros [_ Hs]. apply encode_known_ok; [done|done|]. unfold known_answers. cbn [gathered bf_instances].
  destruct net_ok as (Hok & _). rewrite Forall_forall in Hok.
  induction l as [|a l IH]; [constructor|]. apply list_subseteq_cons_iff in Hs as [Ha Hs]. cbn [map List.filter]. unfold instance_of at 1. cbn [if_ttl].
  change (PTR_TXT_TTL =? 0) with false. cbn [negb map]. apply Forall_cons_2; [|by apply IH].
  exists (ca_instance a). split_and!; [reflexivity| |done]. apply plain_label, (Hok a Ha).
Qed.

(** ** The window *)

Definition browsing (l : list CommissionableAdvert) (s : BrowseState) : Prop := b_fold s = gathered l ∧ refusals (b_sock s) = [].

Lemma send_packets_go ps s l : browsing l s → ∃ s', send_packets ps s = (s', Ok ()) ∧ browsing l s'.
Proof.
  revert s. induction ps as [|p ps IH]; intros s [Hf Hr]; [by exists s|]. cbn [send_packets].
  destruct (IH {| b_fold := b_fold s; b_next_send := b_next_send s; b_sock := {| out := out (b_sock s) ++ [p]; refusals := [] |} |}) as (s' & Hs' & H'); [done|].
  exists s'. split; [|done]. erewrite bind_ok; [exact Hs'|]. unfold b_send, sock_send. rewrite Hr. reflexivity.
Qed.

Lemma send_round_go t s l : browsing l s → known_devices l →
  ∃ s', (if b_next_send s <=? t then send_round MATTERC_SERVICE t else ret ()) s = (s', Ok ()) ∧ browsing l s'.
Proof.
  intros Hb Hl. destruct (b_next_send s <=? t); [|by exists s]. destruct (round_packets l Hl) as (packets & Hp).
  destruct (send_packets_go packets s l Hb) as (s1 & H1 & Hb1). pose proof Hb as [Hf _]. pose proof Hb1 as [Hf1 Hr1].
  eexists. split.
  - unfold send_round. erewrite (bind_ok get) by reflexivity. rewrite Hf. erewrite bind_ok by (unfold lift; rewrite Hp; reflexivity).
    erewrite bind_ok by exact H1. rewrite nothing_pending by done. erewrite bind_ok by reflexivity. reflexivity.
  - by split.
Qed.

(** What a turn brings: nothing (a timeout or a datagram without records), or a
    device's answer to the browse query, by unicast or by multicast. *)
Definition brings (t : Turn) (ads : list CommissionableAdvert) : Prop :=
  match received t with
  | TimedOut => ads = []
  | RecvFailed => False
  | Datagram buf =>
      match ads with
      | [] => match parse_message (take BROWSE_BUF buf) with Ok rs => rs = [] | Err _ => True | _ => False end
      | [ad] => ad ∈ net ∧ ∃ unicast, encode_commissionable_response (E:=Empty_set) MATTERC_SERVICE ad unicast = Ok (Some buf)
      | _ => False
      end
  end.

Lemma turn_taken t ads l s : brings t ads → browsing l s → known_devices l →
  ∃ s', match received t with TimedOut => ret () | RecvFailed => throw (Io "recv_from") | Datagram buf => b_take_datagram buf end s = (s', Ok ()) ∧
    browsing (foldl hear_advert l ads) s' ∧ known_devices (foldl hear_advert l ads).
Proof.
  unfold brings. intros Ht [Hf Hr] Hl. destruct (received t) as [| |buf]; [subst ads; by exists s|done|]. unfold b_take_datagram.
  destruct ads as [|ad [|? ?] ]; [| |done].
  - destruct (parse_message _) as [rs|e| |]; [subst rs|by exists s|done|done]. eexists. split; [reflexivity|]. by split.
  - destruct Ht as (Ha & unicast & Hbuf). destruct net_ok as (Hok & _). rewrite Forall_forall in Hok.
    destruct (browse_answer_parses ad unicast buf (Hok ad Ha) Hbuf) as [Hp Hz].
    rewrite take_ge by (unfold zlen, BROWSE_BUF in *; lia). rewrite Hp.
    eexists. split; [reflexivity|]. split; [|by apply known_devices_hear]. split; [|done].
    cbn [b_fold foldl]. rewrite Hf. by apply fold_answer.
Qed.

Lemma browse_loop_runs deadline late script heard : match late with [] => True | t :: _ => deadline ≤ now t end →
  Forall2 brings script heard → Forall (λ t, now t < deadline) script → ∀ l s, browsing l s → known_devices l →
  snd (browse_loop MATTERC_SERVICE (script ++ late) deadline s) = Ok (finish (gathered (foldl hear_advert l (concat heard)))) ∧
  known_devices (foldl hear_advert l (concat heard)).
Proof.
  intros Hlate. induction 1 as [|t ads script heard Ht _ IH]; intros Htimes l s Hb Hl.
  - cbn [app concat foldl]. split; [|done]. destruct Hb as [Hf _]. destruct late as [|t late]; cbn [browse_loop]; erewrite (bind_ok get) by reflexivity.
    + by rewrite Hf.
    + rewrite (proj2 (Z.leb_le _ _)) by done. by rewrite Hf.
  - apply Forall_cons in Htimes as [Hnow Htimes]. cbn [app browse_loop concat]. erewrite (bind_ok get) by reflexivity.
    rewrite (proj2 (Z.leb_gt _ _)) by done. destruct (send_round_go (now t) s l Hb Hl) as (s1 & H1 & Hb1). erewrite bind_ok by exact H1.
    destruct (turn_taken t ads l s1 Ht Hb1 Hl) as (s2 & H2 & Hb2 & Hl2). erewrite bind_ok by exact H2. rewrite foldl_app. by apply IH.
Qed.
End network.

(** ** What is reported of a device *)

Lemma txt_str_entry k v rest key : Forall (λ c, c ≠ 61) k → from_utf8 (k ++ 61 :: v) = true →
  txt_str ((k ++ 61 :: v) :: rest) key = if eq_ignore_ascii_case k key then Some v else txt_str rest key.
Proof. intros Hk Hu. cbn [txt_str]. by rewrite Hu, split_once_plain. Qed.

Lemma advert_vp ad : commissionable_ok ad →
  txt_str (sr_txt (commissionable_records ad)) (ascii "VP") = Some (format_dec 1 (ca_vendor_id ad) ++ 43 :: format_dec 1 (ca_product_id ad)).
Proof.
  intros (_ & _ & Hd & Hv & Hp & _). destruct (format_dec_plain _ (in_u_small 16 _ ltac:(lia) Hd)) as [P1 _].
  destruct (format_dec_plain _ (in_u_small 16 _ ltac:(lia) Hv)) as [P2 _]. destruct (format_dec_plain _ (in_u_small 16 _ ltac:(lia) Hp)) as [P3 _].
  unfold commissionable_records. cbn [sr_txt].
  change (ascii "D=" ++ format_dec 1 (ca_discriminator ad)) with (ascii "D" ++ 61 :: format_dec 1 (ca_discriminator ad)).
  rewrite txt_str_entry; [|by repeat constructor|apply text_of; [by repeat constructor|done] ].
  change (eq_ignore_ascii_case (ascii "D") (ascii "VP")) with false. cbv iota.
  change (ascii "VP=" ++ format_dec 1 (ca_vendor_id ad) ++ ascii "+" ++ format_dec 1 (ca_product_id ad)) with
    (ascii "VP" ++ 61 :: (format_dec 1 (ca_vendor_id ad) ++ 43 :: format_dec 1 (ca_product_id ad))).
  rewrite txt_str_entry; [done|by repeat constructor|apply text_of; [by repeat constructor|] ].
  apply plain_app; [done|]. apply Forall_cons_2; [lia|done].
Qed.

Lemma format_dec_no_plus v : 0 ≤ v < 10 ^ 20 → Forall (λ d, d ≠ 43) (format_dec 1 v).
Proof.
  intros Hv. destruct (format_dec_digits v Hv) as (m & Hm & -> & _). apply List.Forall_map.
  eapply Forall_impl; [apply (digits_range 10); lia|]. intros d Hd. destruct (decimal_char d Hd). cbn. lia.
Qed.

Lemma NoDup_only {X} (l : list X) x : NoDup l → (∀ a, a ∈ l ↔ a = x) → l = [x].
Proof.
  intros Hn Hl. symmetry. apply Permutation_singleton_l, NoDup_Permutation; [apply NoDup_singleton|done|].
  intros a. by rewrite Hl, list_elem_of_singleton.
Qed.

Lemma strip_local h : hostname_from_target (h ++ ascii ".local") = h.
Proof.
  unfold hostname_from_target. rewrite zlen_app. pose proof (zlen_nonneg h).
  replace (zlen h + zlen (ascii ".local") - zlen (ascii ".local")) with (zlen h) by lia.
  rewrite (proj2 (Z.leb_le 0 _)) by done. rewrite <- zlen_app.
  assert (zslice (zlen h) (zlen (h ++ ascii ".local")) (h ++ ascii ".local") = ascii ".local") as ->.
  { pose proof (zslice_app_mid h (ascii ".local") []) as Hm. rewrite app_nil_r in Hm. by rewrite zlen_app. }
  rewrite bool_decide_eq_true_2 by done. cbn [andb]. apply zslice_0_app.
Qed.

Lemma device_listed net l ad : network_ok net → known_devices net l → ad ∈ l →
  commissionable_from_fold (finish_instance (map candidate_of l) (snd (instance_of ad))) = Some (listed ad).
Proof.
  intros Hnet [Hn Hs] Hin. pose proof Hnet as (Hok & _). rewrite Forall_forall in Hok. specialize (Hok ad (Hs ad Hin)).
  destruct (advert_texts ad Hok) as (Hd & _ & _). pose proof (advert_vp ad Hok) as Hvp.
  destruct Hok as (_ & _ & _ & Hv & Hp & _).
  assert (addresses_for_target (map candidate_of l) (host_full (ca_hostname ad)) = [ca_addr_v6 ad]) as Ha.
  { destruct (addresses_spec (map candidate_of l) (host_full (ca_hostname ad))) as (Hnd & Hel & _). apply NoDup_only; [done|].
    intros a. rewrite Hel. split.
    - intros (n & Hna & Hne). apply list_elem_of_fmap in Hna as (b & Hb & Hbl). injection Hb as -> ->.
      rewrite (host_match net) in Hne by (done || by apply Hs). apply bool_decide_eq_true in Hne. by subst.
    - intros ->. exists (host_full (ca_hostname ad)). split; [|apply eqic_refl]. by apply (list_elem_of_fmap_2 candidate_of l ad). }
  unfold commissionable_from_fold, finish_instance, instance_of. cbn [snd fi_txt fi_port fi_target fi_addresses if_srv if_txt default fst fmap option_fmap option_map].
  change (sr_host_full (commissionable_records ad)) with (host_full (ca_hostname ad)). rewrite Ha.
  cbn [id]. unfold id. rewrite Hd, Hvp.
  unfold split_vp. rewrite split_once_plain by (apply format_dec_no_plus, (in_u_small 16); [lia|done]).
  rewrite !parse_u32_dec by (unfold in_u in *; lia). unfold host_full. rewrite strip_local. done.
Qed.

(** C21. A browse lists the devices in commissioning mode that answered it.  On a
    link of at most 64 devices with distinct instances and hosts, whatever the
    order, repetition and cast of their answers to the browse query, between
    them timeouts and datagrams that hold nothing, the window ends without an
    error and the report is exactly one entry per device that answered, in the
    order of the first answers, with the host, port, address, discriminator,
    vendor and product of its advert; what comes after the window is ignored. *)
Theorem browse_lists_devices net window start script heard late :
  network_ok net → Forall2 (brings net) script heard → Forall (λ t, now t < start + window) script →
  match late with [] => True | t :: _ => start + window ≤ now t end →
  browse_commissionable window start (script ++ late) [] = Ok (map listed (foldl hear_advert [] (concat heard))).
Proof.
  intros Hnet Hs Ht Hlate. unfold browse_commissionable, browse.
  destruct (browse_loop_runs net Hnet (start + window) late script heard Hlate Hs Ht []
    {| b_fold := BrowseFold_new MATTERC_SERVICE; b_next_send := start; b_sock := Sock_new [] |}) as [-> Hl].
  { by split. }
  { split; [constructor|by apply list_subseteq_nil]. }
  cbn [res_bind]. f_equal. set (l := foldl hear_advert [] (concat heard)) in *. clearbody l. unfold finish, gathered. cbn [bf_instances bf_aaaa].
  assert (∀ l', l' ⊆ l → omap commissionable_from_fold (map (λ '(_, i), finish_instance (map candidate_of l) i) (map instance_of l')) = map listed l')
    as H; [|by apply H].
  induction l' as [|a l' IH]; [done|]. intros [Ha Hl']%list_subseteq_cons_iff. cbn [map omap list_omap].
  pose proof (device_listed net l a Hnet Hl Ha) as Hd. unfold instance_of in Hd at 1. cbn [snd] in Hd. unfold instance_of at 1. rewrite Hd.
  f_equal. by apply IH.
Qed.

(** A device that answers twice, the second time by multicast, and a timeout. *)
Lemma browse_lists_devices_witness : ∃ reply announced,
  browse_commissionable 3000 0 [ {| now := 0; received := Datagram reply |}; {| now := 900; received := TimedOut |};
    {| now := 1000; received := Datagram announced |}; {| now := 3000; received := RecvFailed |} ] [] = Ok [listed (example_advert "B007" 1)].
Proof.
  set (ad := example_advert "B007" 1). assert (commissionable_ok ad) as Hok by (apply example_advert_ok; [by repeat constructor|done]).
  assert (∀ unicast, ∃ reply, encode_commissionable_response (E:=Empty_set) MATTERC_SERVICE ad unicast = Ok (Some reply)) as Hr.
  { intros [|]; eexists; vm_compute; reflexivity. }
  destruct (Hr true) as (reply & H1). destruct (Hr false) as (announced & H2). exists reply, announced.
  assert (network_ok [ad]) as Hnet.
  { split_and!; [by repeat constructor|cbn; lia| |]; intros a b Ha%list_elem_of_singleton Hb%list_elem_of_singleton _; congruence. }
  apply (browse_lists_devices [ad] 3000 0 [ {| now := 0; received := Datagram reply |}; {| now := 900; received := TimedOut |};
    {| now := 1000; received := Datagram announced |} ] [ [ad]; []; [ad] ] [ {| now := 3000; received := RecvFailed |} ]); [done| | |cbn; lia].
  - apply Forall2_cons_2; [|apply Forall2_cons_2; [done|apply Forall2_cons_2; [|constructor] ] ]; cbn; (split; [by left|]); by eexists.
  - repeat (apply Forall_cons_2; [cbn; lia|]). constructor.
Defined.
